(* ===== verification/_CoqProject ===== *)
-Q . S2P
Prelude.v
BigIntBase.v
BigIntAdd.v
BigIntMul.v
BigIntShift.v
BigIntDiv.v
BigIntBits.v
BigInt64.v
BigIntExp.v
BigIntString.v
Double.v
Values.v
Containers.v
BigIntNum.v
NumberHelper.v
TaggedArray.v
Ring.v
Deque.v
Queue.v
Stack.v
Vector.v
ArrayList.v
PlainArray.v
SortSpec.v
TimSort.v
TimSortSearch.v
TimSortRuns.v
TimSortMerge.v
TimSortMergeHi.v
TimSortCorrect.v
StringOrder.v
ArrayHelper.v
ContainerSort.v
TaggedTree.v
TreeRep.v
TreeBalance.v
TreeDelete.v
TreeRemove.v
TreeCopy.v
TreeState.v
TreeSearch.v
TreeInsert.v
TreeQuery.v
TreeOrder.v
TreeContainers.v
TreeMapCorrect.v
TreeSetCorrect.v
TreeIteration.v
TreeLimits.v
TreeSetAll.v
StringHash.v
LinkedHashTable.v
OptionList.v
LinkedHashRep.v
LinkedHashCorrect.v
HashKeys.v
JSMap.v
JSMapSpec.v
JSMapCorrect.v
JSMapForEach.v
JSMapAll.v
DateUtils.v
DateParse.v
JSDate.v
DateStrings.v
DateSpec.v
DateCorrect.v
DateParseCorrect.v
DateRoundtrip.v
DateAll.v
TaggedList.v
ListRep.v
SingleList.v
DoubleList.v
JSAPIList.v
LinkedListContainer.v
ListContainerCorrect.v
ListIteration.v
LinkedListCorrect.v
ListAll.v
