(* ===== verification/Prelude.v ===== *)
(** * ArkCompiler ets runtime: a verification development

    The repository is the runtime of ArkCompiler: the bytecode interpreter and the compilers, the
    garbage collected heap, and the values, builtins and containers of the language.  This
    development is about the part in which the algorithms live: arbitrary precision integers, the
    equalities, conversions and orders of tagged values, the sort, the containers, Map and Set, and
    dates.

    ** Parts and files

    - [Prelude]: the error monad [result], loops, checked array accesses, machine integers, and
      what the other files share.  A C++ exception is [Err] with the exception; an access outside an
      array is [Err OutOfBounds]; a loop that does not stop within its bound is [Err OutOfFuel].  A
      theorem that a computation returns is therefore a theorem that it is memory safe and ends.
    - BigInt, src/ecmascript/js_bigint.cpp, js_bigint.h, js_bigint-inl.h: [BigIntBase] (digits,
      normal form, comparison), [BigIntAdd] (sum, difference, complement), [BigIntMul],
      [BigIntShift], [BigIntDiv] (short and long division), [BigIntBits] (and, or, xor),
      [BigInt64] (conversions to 64 bits and to words), [BigIntExp] (power, [AsUintN], [AsintN]),
      [BigIntString] (text in any radix), [BigIntNum] (conversion and comparison with Numbers).
    - Values: [Double] (bit patterns, number_helper.h), [Values] (tagged values and their
      equalities, js_tagged_value-inl.h), [NumberHelper] (integer conversions, number_helper.cpp and
      js_tagged_value.cpp), [StringOrder] (ecma_string.cpp, the order of strings and of the decimal
      strings of integers).
    - Sorting: [SortSpec] (orders, stable merging, the reference sort), [TimSort] (the model of
      base/sort_helper.cpp and .h), [TimSortSearch], [TimSortRuns], [TimSortMerge], [TimSortMergeHi],
      [TimSortCorrect] (its proofs, from the searches up to the stack of runs and the sort),
      [ArrayHelper] ([SortCompare] of base/array_helper.cpp: the user's comparison function, pending
      exceptions, the default order), [ContainerSort] (the [sort] methods of Vector and ArrayList).
    - Containers, src/ecmascript/js_api and src/ecmascript/containers: [Containers] (receivers,
      index keys, callbacks, the simulation argument), [TaggedArray] (the arrays underneath), [Ring]
      (circular buffers), [Deque], [Queue], [Stack], [Vector], [ArrayList], [PlainArray].
    - Lists: [TaggedList] (what the linked lists of tagged_list.h and .cpp share: nodes in an array),
      [ListRep] (which values an array holds, and what the shared operations do to them),
      [SingleList] and [DoubleList] (its two kinds), [JSAPIList] and [LinkedListContainer] (the models
      of List and LinkedList), [ListContainerCorrect], [LinkedListCorrect], [ListIteration],
      [ListAll] (their theorems).
    - Ordered containers: [TaggedTree] (the model of tagged_tree.h and .cpp, red-black trees whose
      nodes are entries of an array), [TreeRep] (which tree an array holds), [TreeBalance] and
      [TreeDelete] (the loops that rebalance), [TreeRemove], [TreeCopy] (growing, shrinking, listing),
      [TreeState] (the invariant of the array), [TreeSearch] (the interface [KeyOrder] of
      comparisons, sorted lists of entries, the search), [TreeInsert], [TreeQuery] (neighbours, depth),
      [TreeOrder] (the two instances of the interface: the default order and comparison functions),
      [TreeContainers] (the model of TreeMap and TreeSet), [TreeMapCorrect], [TreeSetCorrect],
      [TreeIteration], [TreeSetAll], [TreeLimits] (their theorems).
    - Map and Set: [StringHash] (the hashes of strings, string_hash.h, base_string-inl.h and the
      vector code), [LinkedHashTable] (the model of linked_hash_table.h and .cpp: buckets, entries in
      the order of insertion, tables that move and the links to them), [OptionList], [LinkedHashRep]
      (which entries a table holds), [LinkedHashCorrect], [HashKeys] (hashes respect equality),
      [JSMap] (js_map.cpp, js_set.cpp, their iterators, builtins_map.cpp and builtins_set.cpp),
      [JSMapSpec] (the lists of entries of the language definition), [JSMapCorrect], [JSMapForEach],
      [JSMapAll] (their theorems).
    - Dates: [DateUtils] (the calendar and the month a thread keeps, js_date.cpp), [DateParse] (the
      model of date_parse.h and .cpp), [JSDate] (date objects with the offset they keep, setters,
      local times over the C library), [DateStrings] (printing methods, [Date.parse], [Date.UTC], the
      constructor), [DateSpec] (what the methods promise), [DateCorrect], [DateParseCorrect],
      [DateRoundtrip], [DateAll] (their theorems).

    A file of a component has first the model, definition by definition as in the source and under
    its names, then the lemmas, then the theorems.  Methods that the program calls come as the whole
    handler: the receiver check ([Receiver]: the container, a proxy of it, or something else), the
    checks of the arguments in their order, then the operation.  Callbacks and comparison functions
    are arbitrary programs on a state: they may throw, and they may change the container that is
    being walked or sorted.

    ** Theorems

    - BigInt: every operation, on normalised operands, returns the normalised integer that its name
      says, or throws exactly when the code's size limit says so.  The limit itself and the digit
      loops with their wrap around are those of the code.  Round trips: printing and reading in any
      radix, 64 bit integers to BigInt and back.
    - Numbers: conversion of a BigInt to the nearest double where the code rounds right, and which
      digit it skips and when that shows where it does not; exact comparison of BigInts with Numbers; modular
      conversions of doubles to integers.
    - Sort: for every comparison function the sort ends, stays in bounds and permutes; for a total
      preorder it equals stable insertion sort.  The stack of runs keeps its balance.
      [IntLexicographicCompare] is the order of the decimal strings.  The [sort] methods survive
      comparison functions that change the container under them.
    - Containers: along any sequence of calls a container is observed like its abstract
      specification (a list, a list with spare slots, a first in first out or last in first out
      list), errors included; iteration and [forEach] visit the elements in order and end.
    - Lists: the links of the nodes always form one circle that holds the values, in both directions in
      a LinkedList, however nodes were removed and the array compacted; along any sequence of calls
      List and LinkedList are observed like lists of values; [sort] equals stable insertion sort;
      walks visit the values in order and end, and a callback of [replaceAllElements] that adds to a full
      list loses its results.
    - Ordered containers: after any calls within the bounds below, the array of a tree map or set is a
      red-black tree whose keys are in order, so that a search is logarithmic, and the calls are
      observed as on the sorted list of the entries, for the default order and for comparison functions
      that are total orders (with these from API version 20 on); iteration, [forEach] and [setAll] do what
      they say and end.
    - Map and Set: along any calls with proper keys, with iterators open and [forEach] callbacks that
      change the collection, they give what the entry lists of the language definition give; [forEach]
      ends; equal proper keys have equal hashes.  A string is a proper key when its hash field is empty
      or holds the hash of its units.  The scalar, the unrolled and the vector code compute the same
      hash; the hash of UTF-16 data is that hash except for strings that are misread as numerals, and
      the hash of a concatenation except for some parts with digits; a misread string and an equal
      one are different keys ([HashKeys.misread_key_differs]).
    - Dates: a time is converted to its fields whatever the thread has converted before; sequences of
      methods that leave no offset of another time behind answer as the time value alone determines,
      and where the kept offset shows a theorem says how; [Date.parse] reads back what [toISOString], [toString] (with an offset of whole minutes) and [toUTCString] print, ends
      on every string and gives components in their ranges; [Date.UTC] is exact.
    - Where the code does something it should not, a theorem states what it does.

    ** Bounds and fuel

    Loops that go over digits, elements or runs have their length as fuel; the theorems prove it
    enough.  The container theorems bound the number of calls (2^28 to 2^30), and the sort theorems
    the number of elements (2^30), so that the 32 bit sizes and indices of the code do not wrap;
    beyond, the code computes with wrapped sizes and the theorems say nothing.  Of PlainArray, calls of
    [removeRangeFrom] whose index and size add up to 2^31 are left out: the sum overflows an [int].  The doubling search
    has fuel 33 because an offset of 32 bits doubles at most 31 times.  Loops over a tree have one
    round more than its array has entries; the theorems on trees allow 2^25 calls, with which the
    length of the array in slots stays an [int], and leave out the removal of the last element of an
    array of 31 entries or more, about which [TreeLimits] has a theorem of its own.  The theorems on
    lists allow 2^26 calls, with which the length of the array stays an [int]; following links takes at
    most as many rounds as the array has slots.  The theorems on Map and Set allow 2^25 calls; the rounding up to a power of two is a parameter with its
    documented property.  The loop of the date parser has one round more than the string has
    characters.  The theorems on dates are about the times a date can have (8.64e15 milliseconds
    around 1970) and offsets of less than a day; those on setters and [Date.UTC] about arguments up to
    10^8, with which no [int64_t] overflows.

    ** Not modelled

    The interpreter, the compilers, the garbage collector, the object model with its hidden classes
    and inline caches, modules, snapshots, debugging and the embedding interface: they need semantics
    of bytecode, machine code or concurrent memory that are outside these sources or far beyond the
    algorithms above.  Of the modelled components, property descriptors, [ToString] on objects and
    the allocation of objects (barriers, collections) are left out: a heap object is its address and
    its contents.  Number to text conversion (dtoa) is not modelled.  Of the trees, a comparison
    function that changes the tree it is called from, and [setAll] of a map on itself.

    The keyed containers over hash arrays and sorted hashes (HashMap, HashSet, LightWeightMap,
    LightWeightSet), Buffer, weak collections, the regular expression engine
    and JSON have algorithms of the same kind and are not modelled yet.  Of dates, the methods that
    format for a locale (Intl), the clock of the system and the clock of Windows; the conversion of
    local times by [localtime_r] and [mktime] is a parameter. *)

From Stdlib Require Import ZArith Lia.
From stdpp Require Export strings base numbers option decidable list_numbers list.

#[global] Open Scope Z_scope.

(** ** Error values

    The C++ code reports errors by storing an exception in the thread and
    returning; [RangeError], [TypeError], [BindError], [IsNullError],
    [IsEmptyError] and [IsNotExistError] (the BIND_ERROR, IS_NULL_ERROR, IS_EMPTY_ERROR and
    IS_NOT_EXIST_ERROR of the containers) are those.  [OutOfBounds] is the
    verdict of the model on an array access outside the array, which in C++
    is undefined behaviour, [OutOfFuel] is the verdict on a loop that did
    not stop within the bound given to it, and [UndefinedBehaviour] is the verdict on a
    signed overflow, a conversion of a double that does not fit and a division
    by zero.  Every theorem of the form
    [returns m Q] therefore proves memory safety and termination too. *)

Inductive error :=
| RangeError (msg : string)
| TypeError (msg : string)
| BindError (method : string)
| IsNullError (msg : string)
| IsEmptyError (msg : string)
| IsNotExistError (msg : string)
| OutOfBounds
| OutOfFuel
| UndefinedBehaviour.

#[global] Instance error_eq_dec : EqDecision error.
Proof. solve_decision. Defined.

Inductive result (A : Type) :=
| Ok (a : A)
| Err (e : error).
Arguments Ok {A} _.
Arguments Err {A} _.

#[global] Instance result_ret : MRet result := fun A a => Ok a.
#[global] Instance result_bind : MBind result := fun A B f m =>
  match m with Ok a => f a | Err e => Err e end.

(** [returns m Q]: the computation [m] ends normally in a value of [Q]. *)
Definition returns {A} (m : result A) (Q : A -> Prop) : Prop :=
  match m with Ok a => Q a | Err _ => False end.

(** [outcome m Q R]: [m] ends normally in a value of [Q] or throws an error of [R]. *)
Definition outcome {A} (m : result A) (Q : A -> Prop) (R : error -> Prop) : Prop :=
  match m with Ok a => Q a | Err e => R e end.

(** ** Loops *)

(** [for (i = lo; i < lo + n; i++) s = body(i, s)] *)
Fixpoint for_up {St} (n lo : nat) (body : nat -> St -> result St) (s : St) : result St :=
  match n with
  | O => Ok s
  | S n' => s' ← body lo s; for_up n' (S lo) body s'
  end.

(** [for (i = n - 1; i >= 0; i--) s = body(i, s)] *)
Fixpoint for_down {St} (n : nat) (body : nat -> St -> result St) (s : St) : result St :=
  match n with
  | O => Ok s
  | S n' => s' ← body n' s; for_down n' body s'
  end.

(** [while (cond(s)) s = body(s)], at most [fuel] rounds *)
Fixpoint while_loop {St} (fuel : nat) (cond : St -> bool) (body : St -> result St) (s : St) : result St :=
  if cond s then
    match fuel with
    | O => Err OutOfFuel
    | S f => s' ← body s; while_loop f cond body s'
    end
  else Ok s.

(** ** Checked array accesses *)

Definition get {A} (l : list A) (i : nat) : result A :=
  match l !! i with Some a => Ok a | None => Err OutOfBounds end.

Definition set {A} (l : list A) (i : nat) (a : A) : result (list A) :=
  if decide (i < length l)%nat then Ok (<[i := a]> l) else Err OutOfBounds.

(** ** Machine integers *)

(** the radix of a 32 bit digit; kept folded so that arithmetic treats it as an atom *)
Definition BASE : Z := 2 ^ 32.

Definition u32 (z : Z) : Z := z mod BASE.
Definition u64 (z : Z) : Z := z mod 2 ^ 64.
(** two's complement reading of a 32 or 64 bit pattern *)
Definition i32 (z : Z) : Z := let m := z mod 2 ^ 32 in if m <? 2 ^ 31 then m else m - 2 ^ 32.
Definition i64 (z : Z) : Z := let m := z mod 2 ^ 64 in if m <? 2 ^ 63 then m else m - 2 ^ 64.

Definition is_u32 (z : Z) : Prop := 0 <= z < BASE.
Definition is_u64 (z : Z) : Prop := 0 <= z < 2 ^ 64.
Definition is_i32 (z : Z) : Prop := - 2 ^ 31 <= z < 2 ^ 31.
Definition is_i64 (z : Z) : Prop := - 2 ^ 63 <= z < 2 ^ 63.

(** ** Lemmas: the result monad *)

Create HintDb ark.
Create Rewrite HintDb ark.

Section Returns.
  Context {A B : Type}.
  Implicit Types (P Q : A -> Prop) (m : result A).

Lemma returns_ok (a : A) (Q : A -> Prop) : Q a -> returns (Ok a) Q.
Proof. done. Qed.

Lemma returns_ret (a : A) (Q : A -> Prop) : Q a -> returns (mret a) Q.
Proof. done. Qed.

Lemma returns_bind m P (k : A -> result B) (Q : B -> Prop) :
  returns m P -> (forall a, P a -> returns (k a) Q) -> returns (m ≫= k) Q.
Proof. destruct m; simpl; naive_solver. Qed.

Lemma returns_mono m P Q : returns m P -> (forall a, P a -> Q a) -> returns m Q.
Proof. destruct m; simpl; naive_solver. Qed.

Lemma returns_iff m Q : returns m Q <-> exists a, m = Ok a /\ Q a.
Proof. destruct m; simpl; naive_solver. Qed.

Lemma returns_eq m a : returns m (fun a' => a' = a) -> m = Ok a.
Proof. destruct m; simpl; [by intros ->|done]. Qed.

Lemma outcome_bind m (k : A -> result B) (Q : B -> Prop) R :
  outcome m (fun a => outcome (k a) Q R) R -> outcome (m ≫= k) Q R.
Proof. by destruct m. Qed.

Lemma outcome_mono m P Q (R R' : error -> Prop) :
  outcome m P R -> (forall a, P a -> Q a) -> (forall e, R e -> R' e) -> outcome m Q R'.
Proof. destruct m; cbn; auto. Qed.

Lemma returns_outcome m Q R : returns m Q -> outcome m Q R.
Proof. by destruct m. Qed.

Lemma returns_and m P Q : returns m P -> returns m Q -> returns m (fun a => P a /\ Q a).
Proof. destruct m; simpl; naive_solver. Qed.
End Returns.

(** ** Lemmas: loops *)

Section Loops.
  Context {St : Type}.
  Implicit Types (s : St).

Lemma for_up_returns (I : nat -> St -> Prop) n lo body s :
  I lo s ->
  (forall i s', (lo <= i < lo + n)%nat -> I i s' -> returns (body i s') (I (S i))) ->
  returns (for_up n lo body s) (I (lo + n)%nat).
Proof.
  revert lo s. induction n as [|n IH]; intros lo s HI Hstep; simpl.
  - by rewrite Nat.add_0_r.
  - eapply returns_bind; [apply (Hstep lo); [lia|done]|].
    intros s' Hs'. replace (lo + S n)%nat with (S lo + n)%nat by lia.
    apply IH; [done|]. intros i s'' Hi. apply Hstep. lia.
Qed.

Lemma for_down_returns (I : nat -> St -> Prop) n body s :
  I n s ->
  (forall i s', (i < n)%nat -> I (S i) s' -> returns (body i s') (I i)) ->
  returns (for_down n body s) (I O).
Proof.
  revert s. induction n as [|n IH]; intros s HI Hstep; simpl; [done|].
  eapply returns_bind; [apply (Hstep n); [lia|done]|].
  intros s' Hs'. apply IH; [done|]. intros i s'' Hi. apply Hstep. lia.
Qed.

Lemma while_loop_outcome (I : St -> Prop) (R : error -> Prop) (m : St -> nat) fuel cond body s :
  I s -> (m s <= fuel)%nat ->
  (forall s', I s' -> cond s' = true -> (0 < m s')%nat /\
     outcome (body s') (fun s'' => I s'' /\ (m s'' < m s')%nat) R) ->
  outcome (while_loop fuel cond body s) (fun s' => I s' /\ cond s' = false) R.
Proof.
  revert s. induction fuel as [|fuel IH]; intros s HI Hm Hstep; simpl;
    destruct (cond s) eqn:Hc; simpl; try (by split).
  - destruct (Hstep s HI Hc). lia.
  - apply outcome_bind. eapply outcome_mono; [by apply Hstep|..]; [|done]. intros s' [HI' Hm'].
    apply IH; [done|lia|done].
Qed.

Lemma while_loop_returns (I : St -> Prop) (m : St -> nat) fuel cond body s :
  I s -> (m s <= fuel)%nat ->
  (forall s', I s' -> cond s' = true ->
     returns (body s') (fun s'' => I s'' /\ (m s'' < m s')%nat)) ->
  returns (while_loop fuel cond body s) (fun s' => I s' /\ cond s' = false).
Proof.
  intros HI Hm Hstep. apply (while_loop_outcome I (fun _ => False) m); [done|done|].
  intros s' HI' Hc. pose proof (Hstep s' HI' Hc) as H. split; [|exact H].
  destruct (body s'); [destruct H; lia|done].
Qed.
End Loops.

(** ** Lemmas: checked array accesses *)

Lemma get_returns {A} (l : list A) i (Q : A -> Prop) :
  (i < length l)%nat -> (forall a, l !! i = Some a -> Q a) -> returns (get l i) Q.
Proof.
  intros Hi HQ. destruct (lookup_lt_is_Some_2 l i Hi) as [a Ha].
  unfold get. rewrite Ha. by apply HQ.
Qed.

Lemma set_returns {A} (l : list A) i a (Q : list A -> Prop) :
  (i < length l)%nat -> Q (<[i := a]> l) -> returns (set l i a) Q.
Proof. intros Hi HQ. unfold set. by rewrite decide_True. Qed.

(** The forms used when stepping through a computation. *)
Lemma bind_get {A B} (l : list A) i (k : A -> result B) (Q : B -> Prop) :
  (i < length l)%nat -> (forall a, l !! i = Some a -> returns (k a) Q) ->
  returns (get l i ≫= k) Q.
Proof.
  intros Hi Hk. destruct (lookup_lt_is_Some_2 l i Hi) as [a Ha].
  unfold get. rewrite Ha. by apply Hk.
Qed.

Lemma bind_set {A B} (l : list A) i a (k : list A -> result B) (Q : B -> Prop) :
  (i < length l)%nat -> returns (k (<[i := a]> l)) Q -> returns (set l i a ≫= k) Q.
Proof. intros Hi Hk. unfold set. by rewrite decide_True. Qed.

Lemma bind_Ok {A B} (a : A) (k : A -> result B) : (Ok a ≫= k) = k a.
Proof. done. Qed.

Lemma bind_assoc {A B C} (m : result A) (f : A -> result B) (g : B -> result C) :
  (m ≫= f) ≫= g = m ≫= (fun x => f x ≫= g).
Proof. by destruct m. Qed.

Lemma bind_Err {A B} e (k : A -> result B) : (Err e ≫= k) = Err e.
Proof. done. Qed.

Lemma bind_ok {A B} (a : A) (k : A -> result B) (Q : B -> Prop) :
  returns (k a) Q -> returns (Ok a ≫= k) Q.
Proof. done. Qed.

(** ** Lemmas: machine integers *)

Lemma BASE_eq : BASE = 4294967296.
Proof. reflexivity. Qed.

Lemma BASE_pos : 0 < BASE.
Proof. reflexivity. Qed.

Lemma u32_range z : is_u32 (u32 z).
Proof. unfold is_u32, u32. apply Z.mod_pos_bound. apply BASE_pos. Qed.

Lemma u64_range z : is_u64 (u64 z).
Proof. unfold is_u64, u64. apply Z.mod_pos_bound. lia. Qed.

Lemma u32_small z : is_u32 z -> u32 z = z.
Proof. apply Z.mod_small. Qed.

Lemma u64_small z : is_u64 z -> u64 z = z.
Proof. apply Z.mod_small. Qed.

(** Positional notation is unique. *)
Lemma radix_inj b q1 r1 q2 r2 :
  0 <= r1 < b -> 0 <= r2 < b -> r1 + b * q1 = r2 + b * q2 -> q1 = q2 /\ r1 = r2.
Proof. intros H1 H2 E. apply (Z.div_mod_unique b); lia. Qed.

(** The two shapes in which one 32 bit addition or subtraction can come out. *)
Lemma u32_add x y : is_u32 x -> is_u32 y ->
  u32 (x + y) = if x + y <? BASE then x + y else x + y - BASE.
Proof.
  unfold is_u32, u32. intros Hx Hy. destruct (Z.ltb_spec (x + y) BASE).
  - apply Z.mod_small. lia.
  - symmetry. apply (Z.mod_unique _ _ 1); lia.
Qed.

Lemma u32_sub x y : is_u32 x -> is_u32 y ->
  u32 (x - y) = if y <=? x then x - y else x - y + BASE.
Proof.
  unfold is_u32, u32. intros Hx Hy. destruct (Z.leb_spec y x).
  - apply Z.mod_small. lia.
  - symmetry. apply (Z.mod_unique _ _ (-1)); lia.
Qed.

(** ** Lemmas: bit patterns *)

(** A disjunction of patterns that do not overlap is a sum. *)
Lemma lor_add a c k : 0 <= k -> a mod 2 ^ k = 0 -> 0 <= c < 2 ^ k -> Z.lor a c = a + c.
Proof.
  intros Hk Ha Hc. assert (Z.land a c = 0) as HL.
  { apply Z.bits_inj'. intros i Hi. rewrite Z.land_spec, Z.bits_0.
    destruct (Z.lt_ge_cases i k).
    - rewrite <- (Z.mod_pow2_bits_low a k i), Ha, Z.bits_0 by lia. done.
    - rewrite <- (Z.mod_small c (2 ^ k)), Z.mod_pow2_bits_high by lia. apply andb_false_r. }
  rewrite Z.add_nocarry_lxor, Z.lxor_lor by done. done.
Qed.

Lemma BASE_split k : 0 <= k <= 32 -> BASE = 2 ^ k * 2 ^ (32 - k).
Proof. intros. rewrite <- Z.pow_add_r by lia. unfold BASE. f_equal. lia. Qed.

Lemma pow2_pos k : 0 <= k -> 0 < 2 ^ k.
Proof. intros. apply Z.pow_pos_nonneg; lia. Qed.

(** A left shift of one digit by [k] with the bits coming in from below, and the bits
    that leave at the top. *)
Lemma shl_digit v c k : 0 < k < 32 -> is_u32 v -> 0 <= c < 2 ^ k ->
  let d := Z.lor (u32 (Z.shiftl v k)) c in
  let out := Z.shiftr v (32 - k) in
  is_u32 d /\ 0 <= out < 2 ^ k /\ d + BASE * out = v * 2 ^ k + c.
Proof.
  intros Hk Hv Hc d out. unfold d, out, u32, is_u32 in *.
  rewrite Z.shiftl_mul_pow2, Z.shiftr_div_pow2 by lia.
  pose proof (BASE_split k ltac:(lia)) as HB.
  pose proof (pow2_pos k ltac:(lia)). pose proof (pow2_pos (32 - k) ltac:(lia)).
  assert ((v * 2 ^ k) mod BASE = (v mod 2 ^ (32 - k)) * 2 ^ k) as ->.
  { rewrite HB, (Z.mul_comm (2 ^ k)), Z.mul_mod_distr_r by lia. done. }
  rewrite (lor_add _ _ k) by (lia || rewrite Z.mod_mul; lia).
  pose proof (Z.div_mod v (2 ^ (32 - k)) ltac:(lia)).
  pose proof (Z.mod_pos_bound v (2 ^ (32 - k)) ltac:(lia)).
  assert (0 <= v / 2 ^ (32 - k) < 2 ^ k).
  { split; [apply Z.div_pos; lia|apply Z.div_lt_upper_bound; lia]. }
  rewrite HB. split_and!; nia.
Qed.

(** The same for a right shift: [c] is what is left of the digit below. *)
Lemma shr_digit v c k : 0 < k < 32 -> is_u32 v -> 0 <= c < 2 ^ (32 - k) ->
  let d := Z.lor (u32 (Z.shiftl v (32 - k))) c in
  let rest := Z.shiftr v k in
  is_u32 d /\ 0 <= rest < 2 ^ (32 - k) /\ d + BASE * rest = v * 2 ^ (32 - k) + c.
Proof.
  intros Hk Hv Hc. pose proof (shl_digit v c (32 - k)) as H.
  replace (32 - (32 - k)) with k in H by lia. apply H; lia || done.
Qed.

#[export] Hint Resolve u32_range u64_range BASE_pos : ark.
#[export] Hint Rewrite @length_insert @length_replicate @length_take @length_drop : ark.

(** ** Tactics *)

(** Evaluate the powers of two that occur with literal exponents. *)
Ltac pow2_literal :=
  change (2 ^ 16) with 65536 in *;
  change (2 ^ 31) with 2147483648 in *;
  change (2 ^ 32) with 4294967296 in *;
  change (2 ^ 52) with 4503599627370496 in *;
  change (2 ^ 63) with 9223372036854775808 in *;
  change (2 ^ 64) with 18446744073709551616 in *.
