(* ===== verification/BigIntBase.v ===== *)
(** * BigInt: objects, digits, normal form, comparison

    Models the data layout of [BigInt] (src/ecmascript/js_bigint.h), its
    allocation (js_bigint-inl.h, object_factory-inl.h), the digit helpers, the
    normalisation [RightTruncate], the small conversions and the comparisons of
    src/ecmascript/js_bigint.cpp.  The specification of a BigInt is the integer
    [toZ] it denotes. *)

From Stdlib Require Import ZArith Lia.
From S2P Require Import Prelude.

(** ** Data *)

Definition DATA_BITS : Z := 32.
Definition MAXBITS : Z := 2 ^ 20.
Definition kMaxLengthBits : Z := 2 ^ 30.
Definition MAXSIZE : Z := MAXBITS / DATA_BITS.
Definition HALF_DATA_BITS : Z := DATA_BITS / 2.
Definition HALF_UINT32_VALUE : Z := 2 ^ HALF_DATA_BITS.
Definition HALF_DATA_MASK : Z := HALF_UINT32_VALUE - 1.

(** [Sign] is the one bit field, [data] the [Length] digits from [DATA_OFFSET]. *)
Record BigInt := mkBigInt { Sign : bool; data : list Z }.

#[global] Instance BigInt_eq_dec : EqDecision BigInt.
Proof. solve_decision. Defined.

Inductive ComparisonResult := LESS | EQUAL | GREAT | UNDEFINED.

#[global] Instance ComparisonResult_eq_dec : EqDecision ComparisonResult.
Proof. solve_decision. Defined.

Definition GetLength (x : BigInt) : nat := length (data x).
Definition GetSign (x : BigInt) : bool := Sign x.
Definition SetSign (x : BigInt) (s : bool) : BigInt := mkBigInt s (data x).
Definition GetDigit (x : BigInt) (i : nat) : result Z := get (data x) i.
Definition SetDigit (x : BigInt) (i : nat) (d : Z) : result BigInt :=
  l ← set (data x) i d; Ok (mkBigInt (Sign x) l).

Definition IsZero (x : BigInt) : result bool :=
  if decide (GetLength x = 1%nat) then d ← GetDigit x 0; Ok (d =? 0) else Ok false.

Definition IsUint32 (x : BigInt) : bool := bool_decide (GetLength x = 1%nat).

(** ** Allocation *)

Definition SizeExceeded : error := RangeError "Maximum BigInt size exceeded".

(** [NewBigInt]: zeroed digits, positive sign. *)
Definition CreateBigint (len : Z) : result BigInt :=
  if MAXSIZE <? len then Err SizeExceeded
  else Ok (mkBigInt false (replicate (Z.to_nat len) 0)).

(** [NewBigIntWithoutInitData]: sign and digits are whatever the memory held. *)
Definition CreateRawBigInt (junk : nat -> Z) (junkSign : bool) (len : Z) : result BigInt :=
  if MAXSIZE <? len then Err SizeExceeded
  else Ok (mkBigInt junkSign (junk <$> seq 0 (Z.to_nat len))).

(** [NewSubBigInt]: the sign and the first [len] digits of [x]. *)
Definition CreateSubBigInt (x : BigInt) (len : nat) : result BigInt :=
  if MAXSIZE <? Z.of_nat len then Err SizeExceeded
  else if decide (len <= GetLength x)%nat then Ok (mkBigInt (Sign x) (take len (data x)))
  else Err OutOfBounds.

Definition Copy (x : BigInt) (len : nat) : result BigInt := CreateSubBigInt x len.

Definition Uint32ToBigInt (number : Z) : result BigInt :=
  b ← CreateBigint 1; SetDigit b 0 number.

Definition Int32ToBigInt (number : Z) : result BigInt :=
  b ← CreateBigint 1;
  let sign := number <? 0 in
  let value := if sign then u32 (u32 (- (number + 1)) + 1) else u32 number in
  b ← SetDigit b 0 value;
  Ok (SetSign b sign).

(** ** Digit arithmetic *)

(** The carry is the reference parameter of the C++ functions. *)
Definition AddHelper (x y bigintCarry : Z) : Z * Z :=
  let addPlus := u32 (x + y) in
  (addPlus, if addPlus <? x then u32 (bigintCarry + 1) else bigintCarry).

Definition SubHelper (x y bigintCarry : Z) : Z * Z :=
  let minuSub := u32 (x - y) in
  (minuSub, if x <? minuSub then u32 (bigintCarry + 1) else bigintCarry).

(** ** Normalisation *)

(** [while (index >= 0) { if (digit != 0) break; index--; }]; the argument and the
    result are [index + 1]. *)
Fixpoint scanNonZero (x : BigInt) (n : nat) : result nat :=
  match n with
  | O => Ok O
  | S index => d ← GetDigit x index; if d =? 0 then scanNonZero x index else Ok n
  end.

Definition RightTruncate (x : BigInt) : result BigInt :=
  let len := GetLength x in
  isZero ← IsZero x;
  if isZero : bool then Ok (SetSign x false)
  else
    h ← GetDigit x (len - 1);
    if negb (h =? 0) then Ok x
    else
      n ← scanNonZero x len;
      if decide (n = 0%nat) then Uint32ToBigInt 0 else Copy x n.

Definition UnaryMinus (x : BigInt) : result BigInt :=
  z ← IsZero x;
  if z : bool then Ok x
  else y ← Copy x (GetLength x); Ok (SetSign y (negb (GetSign y))).

(** ** Comparison *)

(** The digit loop of [Equal], from [i] upwards. *)
Fixpoint equalFrom (n i : nat) (x y : BigInt) : result bool :=
  match n with
  | O => Ok true
  | S n' =>
    dx ← GetDigit x i; dy ← GetDigit y i;
    if negb (dx =? dy) then Ok false else equalFrom n' (S i) x y
  end.

Definition Equal (x y : BigInt) : result bool :=
  if negb (Bool.eqb (GetSign x) (GetSign y)) || negb (GetLength x =? GetLength y)%nat then Ok false
  else equalFrom (GetLength x) 0 x y.

Definition SameValue (x y : BigInt) : result bool := Equal x y.
Definition SameValueZero (x y : BigInt) : result bool := Equal x y.

(** [for (; index >= 0; --index) if (x[index] != y[index]) break;], on [index + 1]. *)
Fixpoint scanDifferent (x y : BigInt) (n : nat) : result nat :=
  match n with
  | O => Ok O
  | S index =>
    dx ← GetDigit x index; dy ← GetDigit y index;
    if negb (dx =? dy) then Ok n else scanDifferent x y index
  end.

Definition AbsolutelyCompare (x y : BigInt) : result ComparisonResult :=
  let xLen := GetLength x in
  let yLen := GetLength y in
  if (yLen <? xLen)%nat then Ok GREAT
  else if (xLen <? yLen)%nat then Ok LESS
  else
    n ← scanDifferent x y xLen;
    match n with
    | O => Ok EQUAL
    | S index =>
      dx ← GetDigit x index; dy ← GetDigit y index;
      Ok (if dy <? dx then GREAT else LESS)
    end.

Definition Compare (x y : BigInt) : result ComparisonResult :=
  let xSign := GetSign x in
  let ySign := GetSign y in
  if negb (Bool.eqb xSign ySign) then Ok (if xSign then LESS else GREAT)
  else
    compar ← AbsolutelyCompare x y;
    Ok (if xSign && negb (bool_decide (compar = EQUAL))
        then (if bool_decide (compar = LESS) then GREAT else LESS)
        else compar).

Definition LessThan (x y : BigInt) : result bool :=
  c ← Compare x y; Ok (bool_decide (c = LESS)).

(** ** The integer a BigInt denotes *)

Fixpoint eval (l : list Z) : Z :=
  match l with
  | [] => 0
  | d :: l' => d + BASE * eval l'
  end.

Definition pw (i : nat) : Z := BASE ^ Z.of_nat i.

(** the value of the [i] low digits *)
Definition evalp (l : list Z) (i : nat) : Z := eval (take i l).

Definition toZ (x : BigInt) : Z := if Sign x then - eval (data x) else eval (data x).

(** The representation invariant of every BigInt the runtime hands out. *)
Record wf (x : BigInt) : Prop := {
  wf_digits : Forall is_u32 (data x);
  wf_pos : (1 <= GetLength x)%nat;
  wf_max : Z.of_nat (GetLength x) <= MAXSIZE;
  wf_top : GetLength x = 1%nat \/ last (data x) <> Some 0;
  wf_zero : data x = [0] -> Sign x = false
}.

(** Executable form of [wf]. *)
Definition wfb (x : BigInt) : bool :=
  forallb (fun d => (0 <=? d) && (d <? BASE)) (data x) &&
  (1 <=? GetLength x)%nat && (Z.of_nat (GetLength x) <=? MAXSIZE) &&
  (bool_decide (GetLength x = 1%nat) || bool_decide (last (data x) <> Some 0)) &&
  (negb (bool_decide (data x = [0])) || negb (Sign x)).

(** ** Lemmas: powers and values *)

Lemma pw_0 : pw 0 = 1.
Proof. reflexivity. Qed.

Lemma pw_S i : pw (S i) = BASE * pw i.
Proof. unfold pw. rewrite Nat2Z.inj_succ, Z.pow_succ_r by lia. done. Qed.

Lemma pw_add i j : pw (i + j) = pw i * pw j.
Proof. unfold pw. rewrite Nat2Z.inj_add, Z.pow_add_r by lia. done. Qed.

Lemma pw_pos i : 0 < pw i.
Proof. unfold pw. apply Z.pow_pos_nonneg; [apply BASE_pos|lia]. Qed.

Lemma pw_mono i j : (i <= j)%nat -> pw i <= pw j.
Proof. intros. unfold pw. apply Z.pow_le_mono_r; [apply BASE_pos|lia]. Qed.

Lemma pw_bits i : pw i = 2 ^ (32 * Z.of_nat i).
Proof. unfold pw, BASE. rewrite <- Z.pow_mul_r by lia. done. Qed.

#[export] Hint Rewrite pw_0 pw_S pw_add : ark.
#[export] Hint Resolve pw_pos BASE_pos : ark.

Lemma eval_app l k : eval (l ++ k) = eval l + pw (length l) * eval k.
Proof.
  induction l as [|d l IH]; cbn [eval app length]; [rewrite pw_0; lia|].
  rewrite IH, pw_S. lia.
Qed.

Lemma eval_bounds l : Forall is_u32 l -> 0 <= eval l < pw (length l).
Proof.
  induction 1 as [|d l Hd _ IH]; cbn [eval length]; [rewrite pw_0; lia|].
  unfold is_u32 in Hd. rewrite pw_S. nia.
Qed.

Lemma eval_replicate_0 n : eval (replicate n 0) = 0.
Proof. induction n as [|n IH]; cbn [eval replicate]; [done|]. rewrite IH. lia. Qed.

Lemma eval_insert l i old v : l !! i = Some old -> eval (<[i:=v]> l) = eval l + pw i * (v - old).
Proof.
  revert i. induction l as [|d l IH]; intros [|i] Hi; cbn in Hi |- *; try discriminate.
  - injection Hi as ->. rewrite pw_0. lia.
  - change (d + BASE * eval (<[i:=v]> l) = d + BASE * eval l + pw (S i) * (v - old)).
    rewrite (IH i Hi), pw_S. lia.
Qed.

Lemma eval_take_drop l i : (i <= length l)%nat -> eval l = evalp l i + pw i * eval (drop i l).
Proof.
  intros Hi. rewrite <- (take_drop i l) at 1. rewrite eval_app, length_take_le by done. done.
Qed.

Lemma evalp_0 l : evalp l 0 = 0.
Proof. reflexivity. Qed.

Lemma evalp_S l i d : l !! i = Some d -> evalp l (S i) = evalp l i + pw i * d.
Proof.
  intros Hi. unfold evalp. rewrite (take_S_r _ _ _ Hi), eval_app. cbn [eval].
  rewrite length_take_le by (apply lookup_lt_Some in Hi; lia). lia.
Qed.

Lemma evalp_all l i : (length l <= i)%nat -> evalp l i = eval l.
Proof. intros. unfold evalp. by rewrite take_ge. Qed.

Lemma evalp_insert_ge l i j v : (i <= j)%nat -> evalp (<[j:=v]> l) i = evalp l i.
Proof. intros. unfold evalp. by rewrite take_insert_ge. Qed.

Lemma evalp_insert_S l i v : (i < length l)%nat -> evalp (<[i:=v]> l) (S i) = evalp l i + pw i * v.
Proof.
  intros Hi. rewrite (evalp_S _ _ v) by (by apply list_lookup_insert_eq).
  by rewrite evalp_insert_ge.
Qed.

Lemma evalp_bounds l i : Forall is_u32 l -> (i <= length l)%nat -> 0 <= evalp l i < pw i.
Proof.
  intros Hl Hi. pose proof (eval_bounds (take i l) (Forall_take _ _ _ Hl)) as H.
  rewrite length_take_le in H by done. done.
Qed.

Lemma evalp_mono l i j : Forall is_u32 l -> (i <= j)%nat -> (j <= length l)%nat ->
  evalp l i <= evalp l j.
Proof.
  intros Hl Hij Hj. unfold evalp. rewrite <- (take_drop i (take j l)), eval_app, take_take, Nat.min_l by lia.
  pose proof (eval_bounds (drop i (take j l)) (Forall_drop _ _ _ (Forall_take _ _ _ Hl))).
  pose proof (pw_pos (length (take i l))). nia.
Qed.

Lemma digit_range l i d : Forall is_u32 l -> l !! i = Some d -> is_u32 d.
Proof. intros Hl Hi. by eapply Forall_lookup_1. Qed.

Lemma is_u32_0 : is_u32 0.
Proof. unfold is_u32. pose proof BASE_pos. lia. Qed.

Lemma replicate_0_digits n : Forall is_u32 (replicate n 0).
Proof. apply Forall_replicate, is_u32_0. Qed.

Lemma insert_digits l i d : Forall is_u32 l -> is_u32 d -> Forall is_u32 (<[i:=d]> l).
Proof. intros. by apply Forall_insert. Qed.

#[export] Hint Resolve digit_range is_u32_0 replicate_0_digits insert_digits : ark.

(** ** Lemmas: digit arithmetic *)

Lemma AddHelper_spec x y c s c' :
  AddHelper x y c = (s, c') -> is_u32 x -> is_u32 y -> 0 <= c < BASE - 1 ->
  is_u32 s /\ s + BASE * c' = x + y + BASE * c /\ c <= c' <= c + 1.
Proof.
  unfold AddHelper. rewrite pair_equal_spec. intros [<- <-] Hx Hy Hc.
  rewrite u32_add by done. unfold is_u32 in *.
  destruct (Z.ltb_spec (x + y) BASE).
  - rewrite (proj2 (Z.ltb_ge (x + y) x)) by lia. lia.
  - rewrite (proj2 (Z.ltb_lt (x + y - BASE) x)) by lia.
    rewrite u32_small by (unfold is_u32; lia). lia.
Qed.

Lemma SubHelper_spec x y c s c' :
  SubHelper x y c = (s, c') -> is_u32 x -> is_u32 y -> 0 <= c < BASE - 1 ->
  is_u32 s /\ s - BASE * c' = x - y - BASE * c /\ c <= c' <= c + 1.
Proof.
  unfold SubHelper. rewrite pair_equal_spec. intros [<- <-] Hx Hy Hc.
  rewrite u32_sub by done. unfold is_u32 in *.
  destruct (Z.leb_spec y x).
  - rewrite (proj2 (Z.ltb_ge x (x - y))) by lia. lia.
  - rewrite (proj2 (Z.ltb_lt x (x - y + BASE))) by lia.
    rewrite u32_small by (unfold is_u32; lia). lia.
Qed.

Lemma BASE_gt_2 : 2 < BASE.
Proof. reflexivity. Qed.

(** Two chained helper calls add (subtract) two digits and a carry bit. *)
Lemma AddHelper_twice x y c a1 c1 a2 c2 :
  AddHelper x y 0 = (a1, c1) -> AddHelper a1 c c1 = (a2, c2) ->
  is_u32 x -> is_u32 y -> 0 <= c <= 1 ->
  is_u32 a2 /\ a2 + BASE * c2 = x + y + c /\ 0 <= c2 <= 1.
Proof.
  intros E1 E2 Hx Hy Hc. pose proof BASE_gt_2.
  apply AddHelper_spec in E1 as (Ha1 & E1 & Hc1); [|done|done|lia].
  apply AddHelper_spec in E2 as (Ha2 & E2 & Hc2); [|done|unfold is_u32; lia|lia].
  unfold is_u32 in *. repeat split; nia.
Qed.

Lemma SubHelper_twice x y c a1 c1 a2 c2 :
  SubHelper x y 0 = (a1, c1) -> SubHelper a1 c c1 = (a2, c2) ->
  is_u32 x -> is_u32 y -> 0 <= c <= 1 ->
  is_u32 a2 /\ a2 - BASE * c2 = x - y - c /\ 0 <= c2 <= 1.
Proof.
  intros E1 E2 Hx Hy Hc. pose proof BASE_gt_2.
  apply SubHelper_spec in E1 as (Ha1 & E1 & Hc1); [|done|done|lia].
  apply SubHelper_spec in E2 as (Ha2 & E2 & Hc2); [|done|unfold is_u32; lia|lia].
  unfold is_u32 in *. repeat split; nia.
Qed.

(** ** Lemmas: allocation *)

Lemma MAXSIZE_eq : MAXSIZE = 32768.
Proof. reflexivity. Qed.

Section Bind.
  Context {A : Type} (Q : A -> Prop).

Lemma bind_CreateBigint len (k : BigInt -> result A) :
  len <= MAXSIZE -> returns (k (mkBigInt false (replicate (Z.to_nat len) 0))) Q ->
  returns (CreateBigint len ≫= k) Q.
Proof.
  intros Hlen HQ. unfold CreateBigint. destruct (Z.ltb_spec MAXSIZE len); [lia|done].
Qed.

Lemma bind_SetDigit x i d (k : BigInt -> result A) :
  (i < GetLength x)%nat -> returns (k (mkBigInt (Sign x) (<[i:=d]> (data x)))) Q ->
  returns (SetDigit x i d ≫= k) Q.
Proof. intros Hi HQ. unfold SetDigit, set. by rewrite decide_True. Qed.

Lemma bind_GetDigit x i (k : Z -> result A) :
  (i < GetLength x)%nat -> (forall d, data x !! i = Some d -> returns (k d) Q) ->
  returns (GetDigit x i ≫= k) Q.
Proof. apply bind_get. Qed.

Lemma bind_CreateSubBigInt x len (k : BigInt -> result A) :
  Z.of_nat len <= MAXSIZE -> (len <= GetLength x)%nat ->
  returns (k (mkBigInt (Sign x) (take len (data x)))) Q ->
  returns (CreateSubBigInt x len ≫= k) Q.
Proof.
  intros Hlen Hx HQ. unfold CreateSubBigInt.
  destruct (Z.ltb_spec MAXSIZE (Z.of_nat len)); [lia|]. by rewrite decide_True.
Qed.

Lemma bind_IsZero x (k : bool -> result A) :
  (1 <= GetLength x)%nat -> returns (k (bool_decide (data x = [0]))) Q ->
  returns (IsZero x ≫= k) Q.
Proof.
  intros Hx HQ. unfold IsZero, GetLength, GetDigit in *.
  destruct (data x) as [|d [|d' l]] eqn:E; simpl in *; [lia| |].
  - replace (d =? 0) with (bool_decide ([d] = [0])); [done|].
    destruct (Z.eqb_spec d 0); case_bool_decide; congruence.
  - by rewrite bool_decide_eq_false_2 in HQ by done.
Qed.
End Bind.

Lemma CreateBigint_error len : MAXSIZE < len -> CreateBigint len = Err SizeExceeded.
Proof. intros H. unfold CreateBigint. by rewrite (proj2 (Z.ltb_lt _ _) H). Qed.

(** Step over the next effect of a computation on digits. *)
Ltac digit_step :=
  lazymatch goal with
  | |- returns (GetDigit _ _ ≫= _) _ => apply bind_GetDigit; [|intros ? ?]
  | |- returns (SetDigit _ _ _ ≫= _) _ => apply bind_SetDigit; [|cbn [Sign data]]
  | |- returns (get _ _ ≫= _) _ => apply bind_get; [|intros ? ?]
  | |- returns (set _ _ _ ≫= _) _ => apply bind_set
  | |- returns (CreateBigint _ ≫= _) _ => apply bind_CreateBigint
  | |- returns (IsZero _ ≫= _) _ => apply bind_IsZero
  | |- returns (Ok _ ≫= _) _ => apply bind_ok
  | |- returns (Ok _) _ => apply returns_ok
  end.

(** ** Lemmas: normal form *)

Lemma wfb_wf x : wfb x = true -> wf x.
Proof.
  unfold wfb. rewrite !andb_true_iff, !orb_true_iff, !bool_decide_eq_true, forallb_forall.
  intros [[[[Hd Hp] Hm] Ht] Hz]. apply Nat.leb_le in Hp. apply Z.leb_le in Hm. split; try done.
  - apply Forall_forall. intros d Hin. apply list_elem_of_In in Hin.
    specialize (Hd d Hin). rewrite andb_true_iff, Z.leb_le, Z.ltb_lt in Hd. done.
  - intros E. rewrite bool_decide_true in Hz by done. by destruct (Sign x), Hz.
Qed.

Lemma scanNonZero_returns x n :
  (n <= GetLength x)%nat ->
  returns (scanNonZero x n) (fun m =>
    (m <= n)%nat /\ evalp (data x) n = evalp (data x) m /\
    (m = 0%nat \/ exists d, data x !! (m - 1)%nat = Some d /\ d <> 0)).
Proof.
  induction n as [|n IH]; intros Hn; cbn [scanNonZero]; [simpl; auto|].
  digit_step; [lia|]. destruct (Z.eqb_spec d 0) as [->|Hd0].
  - eapply returns_mono; [apply IH; lia|]. cbv beta. intros m (Hm & He & Hl).
    repeat split; [lia| |done]. rewrite (evalp_S _ _ 0) by done. lia.
  - apply returns_ok. repeat split; [lia|]. right. exists d.
    replace (S n - 1)%nat with n by lia. done.
Qed.

Lemma data_zero_sign x : toZ (SetSign x false) = eval (data x).
Proof. reflexivity. Qed.

Lemma last_take_lookup (l : list Z) m d :
  (0 < m <= length l)%nat -> l !! (m - 1)%nat = Some d -> last (take m l) = Some d.
Proof.
  intros Hm Hl. rewrite last_lookup, length_take_le by lia.
  replace (pred m) with (m - 1)%nat by lia. rewrite lookup_take_lt by lia. done.
Qed.

(** [RightTruncate] keeps the integer and establishes the invariant. *)
Lemma RightTruncate_returns x :
  Forall is_u32 (data x) -> (1 <= GetLength x)%nat -> Z.of_nat (GetLength x) <= MAXSIZE ->
  returns (RightTruncate x) (fun z => wf z /\ toZ z = toZ x).
Proof.
  intros Hd Hlen Hmax. unfold RightTruncate. digit_step; [done|].
  case_bool_decide as Hz.
  { apply returns_ok. unfold toZ, SetSign. cbn [Sign data]. rewrite Hz. split.
    - split; cbn; auto with ark lia; try (rewrite MAXSIZE_eq; lia).
    - destruct (Sign x); cbn; lia. }
  digit_step; [lia|]. destruct (Z.eqb_spec d 0) as [->|Hd0]; cbn [negb].
  2:{ apply returns_ok. split; [|done]. split; try done.
      - right. rewrite last_lookup. fold (GetLength x).
        replace (pred (GetLength x)) with (GetLength x - 1)%nat by lia. congruence. }
  eapply returns_bind; [by apply scanNonZero_returns|]. cbv beta. intros m (Hm & He & Hl).
  rewrite (evalp_all (data x) (GetLength x)) in He by done.
  case_decide as Hm0.
  - subst m. rewrite evalp_0 in He. unfold Uint32ToBigInt. digit_step; [rewrite MAXSIZE_eq; lia|].
    unfold SetDigit. cbn. split; [by apply wfb_wf|]. unfold toZ. rewrite He. by destruct (Sign x).
  - destruct Hl as [|(e & He0 & Hne)]; [lia|].
    unfold Copy, CreateSubBigInt. destruct (Z.ltb_spec MAXSIZE (Z.of_nat m)); [lia|].
    rewrite decide_True by lia. apply returns_ok. split.
    + assert (length (take m (data x)) = m) as HL by (rewrite length_take_le; [done|exact Hm]).
      split; cbn [data Sign]; unfold GetLength; cbn [data]; rewrite ?HL; try lia.
      * by apply Forall_take.
      * right. rewrite (last_take_lookup _ _ e) by (unfold GetLength in *; lia || done). congruence.
      * intros E. exfalso. pose proof (last_take_lookup (data x) m e) as Hlast.
        rewrite E in Hlast. cbn in Hlast. unfold GetLength in *.
        specialize (Hlast ltac:(lia) He0). congruence.
    + unfold toZ. cbn [Sign data]. rewrite He. done.
Qed.

Lemma wf_eval_bounds x : wf x -> 0 <= eval (data x) < pw (GetLength x).
Proof. intros Hx. apply eval_bounds, wf_digits, Hx. Qed.

(** A normalised number of [n > 1] digits is at least [BASE ^ (n - 1)]. *)
Lemma wf_eval_lower x : wf x -> (1 < GetLength x)%nat -> pw (GetLength x - 1) <= eval (data x).
Proof.
  intros Hx Hlen. destruct (wf_top _ Hx) as [|Htop]; [lia|].
  destruct (lookup_lt_is_Some_2 (data x) (GetLength x - 1)) as [d Hd]; [unfold GetLength in *; lia|].
  pose proof (digit_range _ _ _ (wf_digits _ Hx) Hd) as Hr.
  rewrite last_lookup in Htop. fold (GetLength x) in Htop.
  replace (pred (GetLength x)) with (GetLength x - 1)%nat in Htop by lia.
  assert (d <> 0) by congruence.
  rewrite <- (evalp_all (data x) (S (GetLength x - 1))) by (unfold GetLength in *; lia).
  rewrite (evalp_S _ _ d Hd).
  pose proof (evalp_bounds (data x) (GetLength x - 1) (wf_digits _ Hx)) as Hb.
  pose proof (pw_pos (GetLength x - 1)). unfold GetLength, is_u32 in *. nia.
Qed.

Lemma wf_nonzero x : wf x -> data x <> [0] -> 0 < eval (data x).
Proof.
  intros Hx Hz. destruct (decide (GetLength x = 1%nat)) as [H1|H1].
  - pose proof (wf_digits _ Hx) as Hd. unfold GetLength in H1.
    destruct (data x) as [|d [|]]; try discriminate. apply Forall_cons_1 in Hd as [Hd _].
    unfold is_u32 in Hd. cbn. assert (d <> 0) by congruence. lia.
  - pose proof (wf_pos _ Hx). pose proof (wf_eval_lower x Hx ltac:(lia)).
    pose proof (pw_pos (GetLength x - 1)). lia.
Qed.

Lemma wf_zero_iff x : wf x -> data x = [0] <-> toZ x = 0.
Proof.
  intros Hx. split.
  - intros E. unfold toZ. rewrite E. by destruct (Sign x).
  - intros H0. destruct (decide (data x = [0])) as [|Hz]; [done|].
    pose proof (wf_nonzero _ Hx Hz). unfold toZ in H0. destruct (Sign x); lia.
Qed.

Lemma IsZero_eq x : wf x -> IsZero x = Ok (bool_decide (toZ x = 0)).
Proof.
  intros Hx. assert (returns (b ← IsZero x; Ok b) (eq (bool_decide (data x = [0])))) as H
    by (by apply bind_IsZero; [apply Hx|]).
  destruct (IsZero x) as [b|]; cbn in H; [subst b|done]. f_equal.
  apply bool_decide_ext. by apply wf_zero_iff.
Qed.

Lemma wf_sign x : wf x -> Sign x = (toZ x <? 0).
Proof.
  intros Hx. destruct (decide (data x = [0])) as [Hz|Hz].
  - rewrite (wf_zero _ Hx Hz), (proj1 (wf_zero_iff _ Hx) Hz). done.
  - pose proof (wf_nonzero _ Hx Hz). unfold toZ. symmetry.
    destruct (Sign x); [apply Z.ltb_lt; lia|apply Z.ltb_ge; lia].
Qed.

Lemma wf_abs x : wf x -> eval (data x) = Z.abs (toZ x).
Proof. intros Hx. pose proof (wf_eval_bounds _ Hx). unfold toZ. destruct (Sign x); lia. Qed.

Lemma eval_inj l k :
  Forall is_u32 l -> Forall is_u32 k -> length l = length k -> eval l = eval k -> l = k.
Proof.
  intros Hl. revert k. induction Hl as [|d l Hd Hl IH]; intros [|e k] Hk Hlen He; try done.
  apply Forall_cons_1 in Hk as [He' Hk]. cbn in He, Hlen. unfold is_u32 in Hd, He'.
  destruct (radix_inj _ _ _ _ _ Hd He' He) as [E ->].
  f_equal. apply IH; auto; lia.
Qed.

Lemma wf_len_lt x y : wf x -> wf y -> (GetLength x < GetLength y)%nat ->
  eval (data x) < eval (data y).
Proof.
  intros Hx Hy Hlt. pose proof (wf_eval_bounds _ Hx). pose proof (wf_pos _ Hx).
  pose proof (wf_eval_lower _ Hy ltac:(lia)).
  pose proof (pw_mono (GetLength x) (GetLength y - 1) ltac:(lia)). lia.
Qed.

(** The representation is canonical. *)
Lemma wf_inj x y : wf x -> wf y -> toZ x = toZ y -> x = y.
Proof.
  intros Hx Hy E. assert (eval (data x) = eval (data y)) as Ed
    by (rewrite !wf_abs by done; congruence).
  assert (GetLength x = GetLength y) as EL.
  { destruct (Nat.lt_trichotomy (GetLength x) (GetLength y)) as [H|[H|H]]; [|done|];
      apply wf_len_lt in H; auto; lia. }
  assert (Sign x = Sign y) as Es by (rewrite !wf_sign by done; congruence).
  assert (data x = data y) as Ed' by (apply eval_inj; auto using wf_digits).
  destruct x, y; cbn in *; congruence.
Qed.

(** ** Lemmas: comparison *)

Definition cmpZ (a b : Z) : ComparisonResult :=
  match a ?= b with Lt => LESS | Eq => EQUAL | Gt => GREAT end.

Lemma cmpZ_less a b : a < b -> cmpZ a b = LESS.
Proof. intros H. unfold cmpZ. by rewrite (proj2 (Z.compare_lt_iff _ _) H). Qed.
Lemma cmpZ_great a b : b < a -> cmpZ a b = GREAT.
Proof. intros H. unfold cmpZ. by rewrite (proj2 (Z.compare_gt_iff _ _) H). Qed.
Lemma cmpZ_equal a b : a = b -> cmpZ a b = EQUAL.
Proof. intros ->. unfold cmpZ. by rewrite Z.compare_refl. Qed.
#[export] Hint Resolve cmpZ_less cmpZ_great cmpZ_equal : ark.

Lemma scanDifferent_returns x y n :
  (n <= GetLength x)%nat -> (n <= GetLength y)%nat ->
  returns (scanDifferent x y n) (fun m =>
    (m <= n)%nat /\
    evalp (data x) n - evalp (data y) n = evalp (data x) m - evalp (data y) m /\
    (m = 0%nat \/ exists dx dy, data x !! (m - 1)%nat = Some dx /\
       data y !! (m - 1)%nat = Some dy /\ dx <> dy)).
Proof.
  induction n as [|n IH]; intros Hx Hy; cbn [scanDifferent]; [simpl; auto|].
  do 2 (digit_step; [lia|]). destruct (Z.eqb_spec d d0) as [->|Hne]; cbn [negb].
  - eapply returns_mono; [apply IH; lia|]. cbv beta. intros m (Hm & He & Hl).
    repeat split; [lia| |done]. rewrite !(evalp_S _ _ d0) by done. lia.
  - apply returns_ok. repeat split; [lia|]. right. exists d, d0.
    replace (S n - 1)%nat with n by lia. done.
Qed.

(** With equal lengths the first differing digit from the top decides. *)
Lemma digit_decides x y i dx dy :
  wf x -> wf y -> (i < GetLength x)%nat -> (i < GetLength y)%nat ->
  data x !! i = Some dx -> data y !! i = Some dy -> dx < dy ->
  evalp (data x) (S i) < evalp (data y) (S i).
Proof.
  intros Hx Hy Hi Hj Edx Edy Hlt. rewrite (evalp_S _ _ _ Edx), (evalp_S _ _ _ Edy).
  pose proof (evalp_bounds _ i (wf_digits _ Hx)). pose proof (evalp_bounds _ i (wf_digits _ Hy)).
  pose proof (pw_pos i). unfold GetLength in *. nia.
Qed.

Lemma AbsolutelyCompare_eq x y : wf x -> wf y ->
  AbsolutelyCompare x y = Ok (cmpZ (eval (data x)) (eval (data y))).
Proof.
  intros Hx Hy. enough (returns (AbsolutelyCompare x y) (eq (cmpZ (eval (data x)) (eval (data y)))))
    as H by (apply returns_iff in H as (? & -> & ->); done).
  unfold AbsolutelyCompare.
  destruct (Nat.ltb_spec (GetLength y) (GetLength x)) as [Hlt|Hge].
  { apply returns_ok. pose proof (wf_len_lt _ _ Hy Hx Hlt). auto with ark. }
  destruct (Nat.ltb_spec (GetLength x) (GetLength y)) as [Hlt|Hge'].
  { apply returns_ok. pose proof (wf_len_lt _ _ Hx Hy Hlt). apply cmpZ_less. lia. }
  eapply returns_bind; [apply scanDifferent_returns; lia|]. cbv beta. intros m (Hm & He & Hl).
  rewrite !evalp_all in He by (unfold GetLength in *; lia).
  destruct m as [|i]; [rewrite !evalp_0 in He; apply returns_ok, cmpZ_equal; lia|].
  destruct Hl as [|(dx & dy & Edx & Edy & Hne)]; [lia|].
  replace (S i - 1)%nat with i in * by lia.
  do 2 (digit_step; [lia|]). simplify_eq. apply returns_ok.
  destruct (Z.ltb_spec dy dx).
  - apply cmpZ_great.
    pose proof (digit_decides y x i dy dx Hy Hx ltac:(lia) ltac:(lia) Edy Edx ltac:(lia)). lia.
  - apply cmpZ_less.
    pose proof (digit_decides x y i dx dy Hx Hy ltac:(lia) ltac:(lia) Edx Edy ltac:(lia)). lia.
Qed.

Lemma cmpZ_opp a b : cmpZ (- a) (- b) = cmpZ b a.
Proof. unfold cmpZ. by rewrite Z.compare_opp. Qed.

Lemma cmpZ_swap a b : cmpZ b a =
  match cmpZ a b with LESS => GREAT | GREAT => LESS | c => c end.
Proof. unfold cmpZ. rewrite (Z.compare_antisym a b). by destruct (a ?= b). Qed.

Lemma Compare_eq x y : wf x -> wf y -> Compare x y = Ok (cmpZ (toZ x) (toZ y)).
Proof.
  intros Hx Hy. unfold Compare, GetSign. rewrite AbsolutelyCompare_eq by done.
  pose proof (wf_sign _ Hx) as Sx. pose proof (wf_sign _ Hy) as Sy.
  destruct (Sign x) eqn:Ex, (Sign y) eqn:Ey; cbn [Bool.eqb negb]; f_equal; unfold toZ; rewrite Ex, Ey.
  - rewrite cmpZ_opp, (cmpZ_swap (eval (data x))).
    destruct (cmpZ (eval (data x)) (eval (data y))) eqn:E; try reflexivity.
    unfold cmpZ in E. by destruct (_ ?= _).
  - symmetry. apply cmpZ_less. symmetry in Sx, Sy. apply Z.ltb_lt in Sx. apply Z.ltb_ge in Sy.
    unfold toZ in *. rewrite Ex in Sx. rewrite Ey in Sy. lia.
  - symmetry. apply cmpZ_great. symmetry in Sx, Sy. apply Z.ltb_ge in Sx. apply Z.ltb_lt in Sy.
    unfold toZ in *. rewrite Ex in Sx. rewrite Ey in Sy. lia.
  - done.
Qed.

Lemma equalFrom_returns n i x y :
  (i + n = GetLength x)%nat -> (i + n = GetLength y)%nat -> take i (data x) = take i (data y) ->
  returns (equalFrom n i x y) (fun b => b = bool_decide (data x = data y)).
Proof.
  revert i. induction n as [|n IH]; intros i Hx Hy Ht; cbn [equalFrom].
  - apply returns_ok. unfold GetLength in *. rewrite !take_ge in Ht by lia.
    by rewrite bool_decide_eq_true_2.
  - do 2 (digit_step; [lia|]). destruct (Z.eqb_spec d d0) as [->|Hne]; cbn [negb].
    + apply IH; [lia..|]. rewrite !(take_S_r _ _ d0) by done. by rewrite Ht.
    + apply returns_ok. rewrite bool_decide_eq_false_2; [done|]. congruence.
Qed.

Lemma Equal_eq x y : wf x -> wf y -> Equal x y = Ok (bool_decide (toZ x = toZ y)).
Proof.
  intros Hx Hy. enough (returns (Equal x y) (eq (bool_decide (toZ x = toZ y)))) as H
    by (apply returns_iff in H as (? & -> & ->); done).
  unfold Equal, GetSign. destruct (Bool.eqb (Sign x) (Sign y)) eqn:Es; cbn [negb orb].
  2:{ apply returns_ok. apply bool_decide_eq_false_2. intros E.
      apply wf_inj in E; [|done..]. subst. by rewrite Bool.eqb_reflx in Es. }
  destruct (Nat.eqb_spec (GetLength x) (GetLength y)) as [EL|EL]; cbn [negb].
  2:{ apply returns_ok. apply bool_decide_eq_false_2. intros E.
      apply wf_inj in E; [|done..]. congruence. }
  eapply returns_mono; [by apply equalFrom_returns|]. cbv beta. intros b ->.
  apply Bool.eqb_prop in Es. apply bool_decide_ext. split.
  - intros E. apply wf_inj in E; congruence.
  - intros E. unfold toZ. by rewrite Es, E.
Qed.

(** ** Lemmas: small conversions and negation *)

Lemma wf_singleton s d : is_u32 d -> (d = 0 -> s = false) -> wf (mkBigInt s [d]).
Proof.
  intros Hd Hs. split; cbn; auto; [rewrite MAXSIZE_eq; lia|].
  intros [= ->]. auto.
Qed.

Lemma one_digit d : <[0%nat:=d]> (replicate (Z.to_nat 1) 0) = [d].
Proof. reflexivity. Qed.

Lemma toZ_one s d : toZ (mkBigInt s [d]) = if s then - d else d.
Proof. unfold toZ. cbn [Sign data eval]. rewrite Z.mul_0_r, Z.add_0_r. done. Qed.

Lemma Uint32ToBigInt_returns n : is_u32 n ->
  returns (Uint32ToBigInt n) (fun z => wf z /\ toZ z = n).
Proof.
  intros Hn. unfold Uint32ToBigInt. digit_step; [rewrite MAXSIZE_eq; lia|].
  change (wf (mkBigInt false [n]) /\ toZ (mkBigInt false [n]) = n). rewrite toZ_one.
  split; [by apply wf_singleton|done].
Qed.

Lemma Int32ToBigInt_returns n : is_i32 n ->
  returns (Int32ToBigInt n) (fun z => wf z /\ toZ z = n /\ GetLength z = 1%nat).
Proof.
  intros Hn. unfold Int32ToBigInt. digit_step; [rewrite MAXSIZE_eq; lia|].
  digit_step; [unfold GetLength; cbn [data]; rewrite length_replicate; lia|]. rewrite one_digit. apply returns_ok. unfold SetSign. cbn [data].
  rewrite toZ_one. unfold is_i32, is_u32 in *. pow2_literal. pose proof BASE_eq.
  assert (forall z, 0 <= z < BASE -> u32 z = z) as Hs by exact u32_small.
  destruct (Z.ltb_spec n 0); [rewrite (Hs (- (n + 1))) by lia|]; rewrite Hs by lia;
    (split; [apply wf_singleton; [unfold is_u32; lia|]|split]); (lia || done).
Qed.

Lemma UnaryMinus_returns x : wf x ->
  returns (UnaryMinus x) (fun z => wf z /\ toZ z = - toZ x /\ GetLength z = GetLength x).
Proof.
  intros Hx. unfold UnaryMinus. digit_step; [apply Hx|].
  case_bool_decide as Hz.
  - apply returns_ok. rewrite (proj1 (wf_zero_iff _ Hx) Hz). done.
  - unfold Copy. apply bind_CreateSubBigInt; [apply Hx|done|].
    unfold GetLength. rewrite take_ge by done. apply returns_ok. split; [|split].
    + destruct Hx. split; cbn; auto. by intros ?%Hz.
    + unfold toZ, SetSign. cbn. destruct (Sign x); cbn; lia.
    + done.
Qed.
