(* ===== verification/BigIntAdd.v ===== *)
(** * BigInt: addition and subtraction

    [BigintAdd], [BigintSub], [Add], [Subtract], [BigintAddOne], [BigintSubOne] and
    [BitwiseNOT] of src/ecmascript/js_bigint.cpp: the schoolbook loops with their
    carries, and the sign dispatch on top of them. *)

From Stdlib Require Import ZArith Lia.
From S2P Require Import Prelude BigIntBase.

(** ** Model *)

(** [BigintAdd] when [x] is at least as long as [y]. *)
Definition BigintAddOrdered (x y : BigInt) (resultSign : bool) : result BigInt :=
  bigint ← CreateBigint (Z.of_nat (GetLength x) + 1);
  '(bigint, bigintCarry) ← for_up (GetLength y) 0 (fun i '(bigint, bigintCarry) =>
    dx ← GetDigit x i; dy ← GetDigit y i;
    let '(addPlus, newBigintCarry) := AddHelper dx dy 0 in
    let '(addPlus, newBigintCarry) := AddHelper addPlus bigintCarry newBigintCarry in
    bigint ← SetDigit bigint i addPlus;
    Ok (bigint, newBigintCarry)) (bigint, 0);
  '(bigint, bigintCarry) ← for_up (GetLength x - GetLength y) (GetLength y)
   (fun i '(bigint, bigintCarry) =>
    dx ← GetDigit x i;
    let '(addPlus, newBigintCarry) := AddHelper dx bigintCarry 0 in
    bigint ← SetDigit bigint i addPlus;
    Ok (bigint, newBigintCarry)) (bigint, bigintCarry);
  bigint ← SetDigit bigint (GetLength x) bigintCarry;
  RightTruncate (SetSign bigint resultSign).

Definition BigintAdd (x y : BigInt) (resultSign : bool) : result BigInt :=
  if (GetLength x <? GetLength y)%nat then BigintAddOrdered y x resultSign
  else BigintAddOrdered x y resultSign.

Definition BigintSub (x y : BigInt) (resultSign : bool) : result BigInt :=
  bigint ← CreateBigint (Z.of_nat (GetLength x));
  '(bigint, bigintCarry) ← for_up (GetLength y) 0 (fun i '(bigint, bigintCarry) =>
    dx ← GetDigit x i; dy ← GetDigit y i;
    let '(minuSub, newBigintCarry) := SubHelper dx dy 0 in
    let '(minuSub, newBigintCarry) := SubHelper minuSub bigintCarry newBigintCarry in
    bigint ← SetDigit bigint i minuSub;
    Ok (bigint, newBigintCarry)) (bigint, 0);
  '(bigint, bigintCarry) ← for_up (GetLength x - GetLength y) (GetLength y)
   (fun i '(bigint, bigintCarry) =>
    dx ← GetDigit x i;
    let '(minuSub, newBigintCarry) := SubHelper dx bigintCarry 0 in
    bigint ← SetDigit bigint i minuSub;
    Ok (bigint, newBigintCarry)) (bigint, bigintCarry);
  RightTruncate (SetSign bigint resultSign).

(** [while (i > 0 && x[i] == y[i]) i--;] *)
Fixpoint skipEqual (x y : BigInt) (i : nat) : result nat :=
  match i with
  | O => Ok O
  | S i' =>
    dx ← GetDigit x i; dy ← GetDigit y i;
    if dx =? dy then skipEqual x y i' else Ok i
  end.

Definition Add (x y : BigInt) : result BigInt :=
  let xSignFlag := GetSign x in
  let ySignFlag := GetSign y in
  if Bool.eqb xSignFlag ySignFlag then BigintAdd x y xSignFlag
  else
    let subSize := Z.of_nat (GetLength x) - Z.of_nat (GetLength y) in
    if 0 <? subSize then BigintSub x y xSignFlag
    else if subSize =? 0 then
      i ← skipEqual x y (GetLength x - 1);
      dx ← GetDigit x i; dy ← GetDigit y i;
      if dy <? dx then BigintSub x y xSignFlag else BigintSub y x ySignFlag
    else BigintSub y x ySignFlag.

Definition Subtract (x y : BigInt) : result BigInt :=
  let xSignFlag := GetSign x in
  let ySignFlag := GetSign y in
  if negb (Bool.eqb xSignFlag ySignFlag) then BigintAdd x y xSignFlag
  else
    let subSize := Z.of_nat (GetLength x) - Z.of_nat (GetLength y) in
    if 0 <? subSize then BigintSub x y xSignFlag
    else if subSize =? 0 then
      i ← skipEqual x y (GetLength x - 1);
      dx ← GetDigit x i; dy ← GetDigit y i;
      if dy <? dx then BigintSub x y xSignFlag else BigintSub y x (negb ySignFlag)
    else BigintSub y x (negb ySignFlag).

Definition BigintAddOne (x : BigInt) : result BigInt :=
  temp ← Int32ToBigInt 1; Add x temp.

Definition BigintSubOne (x : BigInt) : result BigInt :=
  temp ← Int32ToBigInt 1; Subtract x temp.

Definition BitwiseNOT (x : BigInt) : result BigInt :=
  result ← BigintAddOne x;
  Ok (if GetSign x then SetSign result false else SetSign result true).

(** ** The magnitude loops *)

(** The loop invariant shared by the addition loops: the [i] low digits of the
    result and the pending carry make up the sum of the [i] low digits. *)
Definition addInv (n : nat) (x y : BigInt) (i : nat) (s : BigInt * Z) : Prop :=
  Forall is_u32 (data s.1) /\ GetLength s.1 = n /\ 0 <= s.2 <= 1 /\
  evalp (data s.1) i + pw i * s.2 = evalp (data x) i + evalp (data y) i.

Definition subInv (n : nat) (x y : BigInt) (i : nat) (s : BigInt * Z) : Prop :=
  Forall is_u32 (data s.1) /\ GetLength s.1 = n /\ 0 <= s.2 <= 1 /\
  evalp (data s.1) i - pw i * s.2 = evalp (data x) i - evalp (data y) i.

Lemma addInv_init n x y : addInv n x y 0 (mkBigInt false (replicate n 0), 0).
Proof.
  repeat split; cbn [fst snd data]; auto with ark; [|lia..].
  unfold GetLength. cbn [data]. by rewrite length_replicate.
Qed.

Lemma subInv_init n x y : subInv n x y 0 (mkBigInt false (replicate n 0), 0).
Proof.
  repeat split; cbn [fst snd data]; auto with ark; [|lia..].
  unfold GetLength. cbn [data]. by rewrite length_replicate.
Qed.

Lemma addInv_step n x y i b c d e a c' :
  addInv n x y i (b, c) -> (i < n)%nat -> data x !! i = Some d ->
  evalp (data y) (S i) = evalp (data y) i + pw i * e ->
  is_u32 a -> a + BASE * c' = d + e + c -> 0 <= c' <= 1 ->
  addInv n x y (S i) (mkBigInt (Sign b) (<[i:=a]> (data b)), c').
Proof.
  intros (Db & Lb & Hc & He) Hi Hd Ey Ha E Hc'. cbn [fst snd] in *.
  repeat split; cbn [fst snd data]; auto with ark; try lia.
  - unfold GetLength. cbn [data]. by rewrite length_insert.
  - rewrite evalp_insert_S by (unfold GetLength in *; lia).
    rewrite Ey, (evalp_S _ _ d), pw_S by done. nia.
Qed.

Lemma subInv_step n x y i b c d e a c' :
  subInv n x y i (b, c) -> (i < n)%nat -> data x !! i = Some d ->
  evalp (data y) (S i) = evalp (data y) i + pw i * e ->
  is_u32 a -> a - BASE * c' = d - e - c -> 0 <= c' <= 1 ->
  subInv n x y (S i) (mkBigInt (Sign b) (<[i:=a]> (data b)), c').
Proof.
  intros (Db & Lb & Hc & He) Hi Hd Ey Ha E Hc'. cbn [fst snd] in *.
  repeat split; cbn [fst snd data]; auto with ark; try lia.
  - unfold GetLength. cbn [data]. by rewrite length_insert.
  - rewrite evalp_insert_S by (unfold GetLength in *; lia).
    rewrite Ey, (evalp_S _ _ d), pw_S by done. nia.
Qed.

(** Past the end of the shorter operand its digits count as zero. *)
Lemma evalp_past l i : (length l <= i)%nat -> evalp l (S i) = evalp l i + pw i * 0.
Proof. intros. rewrite !evalp_all by lia. lia. Qed.

Lemma BigintAddOrdered_returns x y s :
  wf x -> wf y -> (GetLength y <= GetLength x)%nat -> Z.of_nat (GetLength x) + 1 <= MAXSIZE ->
  returns (BigintAddOrdered x y s) (fun z => wf z /\
    toZ z = if s then - (eval (data x) + eval (data y)) else eval (data x) + eval (data y)).
Proof.
  intros Hx Hy Hle Hmax. pose proof BASE_gt_2 as HB. unfold BigintAddOrdered.
  pose proof (wf_digits _ Hx) as Dx. pose proof (wf_digits _ Hy) as Dy.
  digit_step; [done|].
  replace (Z.to_nat (Z.of_nat (GetLength x) + 1)) with (GetLength x + 1)%nat by lia.
  eapply returns_bind; [apply (for_up_returns (addInv (GetLength x + 1) x y)); [apply addInv_init|]|].
  { intros i [b c] Hi Inv. pose proof Inv as (_ & Lb & Hc & _); cbn [fst snd] in *.
    do 2 (digit_step; [lia|]). destruct (AddHelper d d0 0) as [a1 c1] eqn:E1.
    destruct (AddHelper a1 c c1) as [a2 c2] eqn:E2.
    eapply AddHelper_twice in E2 as (Ha & E & Hc2); eauto with ark.
    digit_step; [lia|]. eapply addInv_step; eauto using evalp_S. lia. }
  cbv beta. rewrite Nat.add_0_l. intros [b0 c0] Inv0.
  eapply returns_bind; [apply (for_up_returns (addInv (GetLength x + 1) x y)); [done|]|].
  { intros i [b c] Hi Inv. pose proof Inv as (_ & Lb & Hc & _); cbn [fst snd] in *.
    digit_step; [lia|]. destruct (AddHelper d c 0) as [a1 c1] eqn:E1.
    apply AddHelper_spec in E1 as (Ha & E & Hc1); [|eauto with ark|unfold is_u32; lia|lia].
    digit_step; [lia|]. eapply (addInv_step _ _ _ _ _ _ _ 0); eauto; [lia| |lia..].
    apply evalp_past. unfold GetLength in *; lia. }
  cbv beta. replace (GetLength y + (GetLength x - GetLength y))%nat with (GetLength x) by lia.
  intros [b c] (Db & Lb & Hc & He); cbn [fst snd] in *.
  rewrite (evalp_all (data y)), (evalp_all (data x)) in He by (unfold GetLength in *; lia).
  digit_step; [lia|].
  eapply returns_mono; [apply RightTruncate_returns|]; cbn [data SetSign]; unfold GetLength in *;
    cbn [data SetSign]; rewrite ?length_insert; try lia.
  - apply insert_digits; [done|]. unfold is_u32. lia.
  - cbv beta. intros z [Hz ->]. split; [done|]. unfold toZ. cbn [Sign data SetSign].
    rewrite <- (evalp_all (<[length (data x):=c]> (data b)) (S (length (data x))))
      by (rewrite length_insert; lia).
    rewrite evalp_insert_S by lia. rewrite He. done.
Qed.

Lemma BigintAdd_returns x y s :
  wf x -> wf y -> Z.of_nat (Nat.max (GetLength x) (GetLength y)) < MAXSIZE ->
  returns (BigintAdd x y s) (fun z => wf z /\
    toZ z = if s then - (eval (data x) + eval (data y)) else eval (data x) + eval (data y)).
Proof.
  intros Hx Hy Hmax. unfold BigintAdd.
  destruct (Nat.ltb_spec (GetLength x) (GetLength y)).
  - rewrite (Z.add_comm (eval (data x))). apply BigintAddOrdered_returns; auto; lia.
  - apply BigintAddOrdered_returns; auto; lia.
Qed.

(** [BigintAdd] allocates one digit more than the longer operand. *)
Lemma BigintAdd_error x y s :
  MAXSIZE <= Z.of_nat (Nat.max (GetLength x) (GetLength y)) -> BigintAdd x y s = Err SizeExceeded.
Proof.
  intros Hmax. unfold BigintAdd, BigintAddOrdered.
  destruct (Nat.ltb_spec (GetLength x) (GetLength y)); rewrite CreateBigint_error by lia; done.
Qed.

Lemma BigintSub_returns x y s :
  wf x -> wf y -> eval (data y) <= eval (data x) ->
  returns (BigintSub x y s) (fun z => wf z /\
    toZ z = if s then - (eval (data x) - eval (data y)) else eval (data x) - eval (data y)).
Proof.
  intros Hx Hy Hle. pose proof BASE_gt_2 as HB. unfold BigintSub.
  assert (GetLength y <= GetLength x)%nat as HL.
  { destruct (Nat.le_gt_cases (GetLength y) (GetLength x)) as [|H]; [done|].
    apply wf_len_lt in H; auto; lia. }
  pose proof (wf_digits _ Hx) as Dx. pose proof (wf_digits _ Hy) as Dy.
  digit_step; [apply Hx|]. rewrite Nat2Z.id.
  eapply returns_bind; [apply (for_up_returns (subInv (GetLength x) x y)); [apply subInv_init|]|].
  { intros i [b c] Hi Inv. pose proof Inv as (_ & Lb & Hc & _); cbn [fst snd] in *.
    do 2 (digit_step; [lia|]). destruct (SubHelper d d0 0) as [a1 c1] eqn:E1.
    destruct (SubHelper a1 c c1) as [a2 c2] eqn:E2.
    eapply SubHelper_twice in E2 as (Ha & E & Hc2); eauto with ark.
    digit_step; [lia|]. eapply subInv_step; eauto using evalp_S. lia. }
  cbv beta. rewrite Nat.add_0_l. intros [b0 c0] Inv0.
  eapply returns_bind; [apply (for_up_returns (subInv (GetLength x) x y)); [done|]|].
  { intros i [b c] Hi Inv. pose proof Inv as (_ & Lb & Hc & _); cbn [fst snd] in *.
    digit_step; [lia|]. destruct (SubHelper d c 0) as [a1 c1] eqn:E1.
    apply SubHelper_spec in E1 as (Ha & E & Hc1); [|eauto with ark|unfold is_u32; lia|lia].
    digit_step; [lia|]. eapply (subInv_step _ _ _ _ _ _ _ 0); eauto; [lia| |lia..].
    apply evalp_past. unfold GetLength in *; lia. }
  cbv beta. replace (GetLength y + (GetLength x - GetLength y))%nat with (GetLength x) by lia.
  intros [b c] (Db & Lb & Hc & He); cbn [fst snd] in *.
  rewrite !evalp_all in He by (unfold GetLength in *; lia).
  assert (c = 0) as ->.
  { pose proof (eval_bounds _ Db) as Hb. fold (GetLength b) in Hb. rewrite Lb in Hb. nia. }
  pose proof (wf_max _ Hx). pose proof (wf_pos _ Hx).
  eapply returns_mono; [apply RightTruncate_returns|]; cbn [data SetSign]; unfold GetLength in *;
    cbn [data SetSign]; auto with lia.
  cbv beta. intros z [Hz ->]. split; [done|]. unfold toZ. cbn [Sign data SetSign].
  destruct s; lia.
Qed.

(** ** The sign dispatch *)

Lemma skipEqual_returns x y n :
  (n < GetLength x)%nat -> (n < GetLength y)%nat ->
  returns (skipEqual x y n) (fun i => (i <= n)%nat /\
    evalp (data x) (S n) - evalp (data y) (S n) = evalp (data x) (S i) - evalp (data y) (S i) /\
    (i = 0%nat \/ data x !! i <> data y !! i)).
Proof.
  induction n as [|n IH]; intros Hx Hy; cbn [skipEqual]; [apply returns_ok; auto|].
  do 2 (digit_step; [lia|]). destruct (Z.eqb_spec d d0) as [->|Hne].
  - eapply returns_mono; [apply IH; lia|]. cbv beta. intros i (Hi & He & Hl).
    rewrite (evalp_S (data x) (S n) d0), (evalp_S (data y) (S n) d0) by done.
    repeat split; [lia|lia|done].
  - apply returns_ok. repeat split; [lia|]. right. congruence.
Qed.

(** The digit at which [skipEqual] stops decides the comparison of the magnitudes. *)
Lemma bind_skipEqual {A} x y (k : bool -> result A) (Q : A -> Prop) :
  wf x -> wf y -> GetLength x = GetLength y ->
  returns (k (eval (data y) <? eval (data x))) Q ->
  returns (i ← skipEqual x y (GetLength x - 1);
           dx ← GetDigit x i; dy ← GetDigit y i; k (dy <? dx)) Q.
Proof.
  intros Hx Hy HL Hk. pose proof (wf_pos _ Hx).
  eapply returns_bind; [apply skipEqual_returns; lia|]. cbv beta. intros i (Hi & He & Hl).
  rewrite !(evalp_all _ (S (GetLength x - 1))) in He by (unfold GetLength in *; lia).
  do 2 (digit_step; [lia|]). replace (d0 <? d) with (eval (data y) <? eval (data x)); [done|].
  destruct (Z.ltb_spec d0 d) as [Hlt|Hge]; [apply Z.ltb_lt|apply Z.ltb_ge].
  - pose proof (digit_decides y x i d0 d Hy Hx ltac:(lia) ltac:(lia)). naive_solver lia.
  - destruct (Z.eq_dec d d0) as [->|Hne].
    + destruct Hl as [->|]; [|congruence].
      rewrite !(evalp_S _ 0 d0) in He by done. rewrite !evalp_0 in He. lia.
    + pose proof (digit_decides x y i d d0 Hx Hy ltac:(lia) ltac:(lia)). naive_solver lia.
Qed.

(** The difference branch shared by [Add] and [Subtract]: the longer or larger
    operand is the minuend. *)
Lemma subDispatch_returns x y sx sy :
  wf x -> wf y -> sy = negb sx ->
  returns
    (if 0 <? Z.of_nat (GetLength x) - Z.of_nat (GetLength y) then BigintSub x y sx
     else if Z.of_nat (GetLength x) - Z.of_nat (GetLength y) =? 0 then
       i ← skipEqual x y (GetLength x - 1);
       dx ← GetDigit x i; dy ← GetDigit y i;
       if dy <? dx then BigintSub x y sx else BigintSub y x sy
     else BigintSub y x sy)
    (fun z => wf z /\
       toZ z = if sx then eval (data y) - eval (data x) else eval (data x) - eval (data y)).
Proof.
  intros Hx Hy ->.
  assert (eval (data y) <= eval (data x) -> returns (BigintSub x y sx) (fun z => wf z /\
    toZ z = if sx then eval (data y) - eval (data x) else eval (data x) - eval (data y))) as Hxy.
  { intros H. eapply returns_mono; [by apply BigintSub_returns|]. cbv beta.
    intros z [Hz E]. split; [done|]. destruct sx; lia. }
  assert (eval (data x) <= eval (data y) -> returns (BigintSub y x (negb sx)) (fun z => wf z /\
    toZ z = if sx then eval (data y) - eval (data x) else eval (data x) - eval (data y))) as Hyx.
  { intros H. eapply returns_mono; [by apply BigintSub_returns|]. cbv beta.
    intros z [Hz E]. split; [done|]. destruct sx; cbn [negb] in E; lia. }
  destruct (Z.ltb_spec 0 (Z.of_nat (GetLength x) - Z.of_nat (GetLength y))).
  { apply Hxy. pose proof (wf_len_lt y x Hy Hx ltac:(lia)). lia. }
  destruct (Z.eqb_spec (Z.of_nat (GetLength x) - Z.of_nat (GetLength y)) 0).
  - apply (bind_skipEqual x y (fun b => if b then BigintSub x y sx else BigintSub y x (negb sx)));
      [done|done|lia|].
    destruct (Z.ltb_spec (eval (data y)) (eval (data x))); [apply Hxy|apply Hyx]; lia.
  - apply Hyx. pose proof (wf_len_lt x y Hx Hy ltac:(lia)). lia.
Qed.

(** Whether an addition of magnitudes of these lengths hits the size limit. *)
Definition addTooLong (x y : BigInt) : bool :=
  MAXSIZE <=? Z.of_nat (Nat.max (GetLength x) (GetLength y)).

Lemma BigintAdd_spec x y s : wf x -> wf y ->
  if addTooLong x y then BigintAdd x y s = Err SizeExceeded
  else returns (BigintAdd x y s) (fun z => wf z /\
    toZ z = if s then - (eval (data x) + eval (data y)) else eval (data x) + eval (data y)).
Proof.
  intros Hx Hy. unfold addTooLong. destruct (Z.leb_spec MAXSIZE
    (Z.of_nat (Nat.max (GetLength x) (GetLength y)))).
  - by apply BigintAdd_error.
  - by apply BigintAdd_returns.
Qed.

Lemma Add_spec x y : wf x -> wf y ->
  if Bool.eqb (Sign x) (Sign y) && addTooLong x y then Add x y = Err SizeExceeded
  else returns (Add x y) (fun z => wf z /\ toZ z = toZ x + toZ y).
Proof.
  intros Hx Hy. unfold Add, GetSign. destruct (Bool.eqb (Sign x) (Sign y)) eqn:Es; cbn [andb].
  - apply Bool.eqb_prop in Es. pose proof (BigintAdd_spec x y (Sign x) Hx Hy) as H.
    destruct (addTooLong x y); [done|]. eapply returns_mono; [exact H|]. cbv beta.
    intros z [Hz ->]. split; [done|]. unfold toZ. rewrite <- Es. destruct (Sign x); lia.
  - apply Bool.eqb_false_iff in Es.
    eapply returns_mono; [apply subDispatch_returns; auto|].
    + by destruct (Sign x), (Sign y).
    + cbv beta. intros z [Hz ->]. split; [done|]. unfold toZ.
      destruct (Sign x), (Sign y); done || lia.
Qed.

Lemma Subtract_spec x y : wf x -> wf y ->
  if negb (Bool.eqb (Sign x) (Sign y)) && addTooLong x y then Subtract x y = Err SizeExceeded
  else returns (Subtract x y) (fun z => wf z /\ toZ z = toZ x - toZ y).
Proof.
  intros Hx Hy. unfold Subtract, GetSign. destruct (Bool.eqb (Sign x) (Sign y)) eqn:Es; cbn [andb negb].
  - apply Bool.eqb_prop in Es. rewrite <- Es.
    eapply returns_mono; [by apply subDispatch_returns|].
    cbv beta. intros z [Hz ->]. split; [done|]. unfold toZ.
    rewrite <- Es. destruct (Sign x); lia.
  - apply Bool.eqb_false_iff in Es. pose proof (BigintAdd_spec x y (Sign x) Hx Hy) as H.
    destruct (addTooLong x y); [done|]. eapply returns_mono; [exact H|]. cbv beta.
    intros z [Hz ->]. split; [done|]. unfold toZ. destruct (Sign x), (Sign y); done || lia.
Qed.

Lemma addTooLong_false x y :
  Z.of_nat (GetLength x) < MAXSIZE -> Z.of_nat (GetLength y) < MAXSIZE -> addTooLong x y = false.
Proof. intros. apply Z.leb_gt. lia. Qed.

Lemma Add_returns x y : wf x -> wf y ->
  Z.of_nat (GetLength x) < MAXSIZE -> Z.of_nat (GetLength y) < MAXSIZE ->
  returns (Add x y) (fun z => wf z /\ toZ z = toZ x + toZ y).
Proof.
  intros Hx Hy Lx Ly. pose proof (Add_spec x y Hx Hy) as H.
  by rewrite addTooLong_false, andb_false_r in H.
Qed.

Lemma Subtract_returns x y : wf x -> wf y ->
  Z.of_nat (GetLength x) < MAXSIZE -> Z.of_nat (GetLength y) < MAXSIZE ->
  returns (Subtract x y) (fun z => wf z /\ toZ z = toZ x - toZ y).
Proof.
  intros Hx Hy Lx Ly. pose proof (Subtract_spec x y Hx Hy) as H.
  by rewrite addTooLong_false, andb_false_r in H.
Qed.

Lemma is_i32_1 : is_i32 1.
Proof. unfold is_i32. lia. Qed.

Lemma BigintAddOne_returns x : wf x -> Z.of_nat (GetLength x) < MAXSIZE ->
  returns (BigintAddOne x) (fun z => wf z /\ toZ z = toZ x + 1).
Proof.
  intros Hx Lx. unfold BigintAddOne. eapply returns_bind; [apply Int32ToBigInt_returns, is_i32_1|].
  cbv beta. intros one (Ho & <- & Lo). apply Add_returns; auto. rewrite Lo, MAXSIZE_eq. lia.
Qed.

Lemma BigintSubOne_returns x : wf x -> Z.of_nat (GetLength x) < MAXSIZE ->
  returns (BigintSubOne x) (fun z => wf z /\ toZ z = toZ x - 1).
Proof.
  intros Hx Lx. unfold BigintSubOne. eapply returns_bind; [apply Int32ToBigInt_returns, is_i32_1|].
  cbv beta. intros one (Ho & <- & Lo). apply Subtract_returns; auto. rewrite Lo, MAXSIZE_eq. lia.
Qed.

(** Flipping the sign of a normalised number negates it, up to the sign of zero. *)
Lemma wf_SetSign x s : wf x -> (toZ x = 0 -> s = false) -> wf (SetSign x s).
Proof.
  intros Hx Hs. pose proof (wf_zero_iff _ Hx) as H0. destruct Hx.
  split; cbn; auto. intros E. apply Hs. by apply H0.
Qed.

Lemma toZ_SetSign x s : wf x -> toZ (SetSign x s) = if s then - Z.abs (toZ x) else Z.abs (toZ x).
Proof. intros Hx. unfold toZ at 1. cbn. by rewrite wf_abs. Qed.

Lemma Int32One : Int32ToBigInt 1 = Ok (mkBigInt false [1]).
Proof. reflexivity. Qed.

Lemma wf_one : wf (mkBigInt false [1]).
Proof. by apply wfb_wf. Qed.

Lemma toZ_lit_one : toZ (mkBigInt false [1]) = 1.
Proof. reflexivity. Qed.

(** ** Theorems *)

(** C31: Adding two BigInts throws the size RangeError exactly when the signs agree and the
    longer operand already has the maximal length; in every other case it returns a
    normalised BigInt denoting the sum. *)
Theorem Add_correct x y (Hx : wf x) (Hy : wf y) :
  if Bool.eqb (Sign x) (Sign y) && addTooLong x y then Add x y = Err SizeExceeded
  else exists z, Add x y = Ok z /\ wf z /\ toZ z = toZ x + toZ y.
Proof.
  pose proof (Add_spec x y Hx Hy) as H. destruct (_ && _); [done|]. by apply returns_iff.
Qed.

Lemma Add_correct_witness :
  exists z, Add (mkBigInt false [4294967295; 4294967295]) (mkBigInt true [5]) = Ok z /\ wf z /\
    toZ z = 18446744073709551615 + -5.
Proof.
  refine (Add_correct (mkBigInt false [4294967295; 4294967295]) (mkBigInt true [5]) _ _);
    by apply wfb_wf.
Defined.

(** Subtracting BigInts throws the size RangeError exactly when the signs differ and the
    longer operand has the maximal length; otherwise it returns the normalised difference. *)
Theorem Subtract_correct x y (Hx : wf x) (Hy : wf y) :
  if negb (Bool.eqb (Sign x) (Sign y)) && addTooLong x y then Subtract x y = Err SizeExceeded
  else exists z, Subtract x y = Ok z /\ wf z /\ toZ z = toZ x - toZ y.
Proof.
  pose proof (Subtract_spec x y Hx Hy) as H. destruct (_ && _); [done|]. by apply returns_iff.
Qed.

Lemma Subtract_correct_witness :
  exists z, Subtract (mkBigInt false [0; 1]) (mkBigInt false [1]) = Ok z /\ wf z /\
    toZ z = 4294967296 - 1.
Proof.
  refine (Subtract_correct (mkBigInt false [0; 1]) (mkBigInt false [1]) _ _); by apply wfb_wf.
Defined.

(** [BitwiseNOT] is the two's complement negation [- x - 1]; it throws the size RangeError
    exactly for a non-negative operand of maximal length. *)
Theorem BitwiseNOT_correct x (Hx : wf x) :
  if negb (Sign x) && (MAXSIZE <=? Z.of_nat (GetLength x)) then BitwiseNOT x = Err SizeExceeded
  else exists z, BitwiseNOT x = Ok z /\ wf z /\ toZ z = Z.lnot (toZ x).
Proof.
  unfold BitwiseNOT, BigintAddOne. rewrite Int32One. pose proof (Add_spec x _ Hx wf_one) as H.
  pose proof (wf_sign _ Hx) as Sx. pose proof (wf_pos _ Hx) as Px. cbn [Sign] in H.
  replace (negb (Sign x) && (MAXSIZE <=? Z.of_nat (GetLength x)))
    with (Bool.eqb (Sign x) false && addTooLong x (mkBigInt false [1])).
  2:{ unfold addTooLong. change (GetLength (mkBigInt false [1])) with 1%nat.
      rewrite Nat.max_l by done. by destruct (Sign x). }
  destruct (_ && _); [cbn; by rewrite H|]. apply returns_iff, (returns_bind _ _ _ _ H).
  cbv beta. intros z [Hz Ez]. rewrite toZ_lit_one in Ez. unfold GetSign, Z.lnot. apply returns_ok.
  destruct (Sign x); symmetry in Sx; [apply Z.ltb_lt in Sx|apply Z.ltb_ge in Sx];
    (split; [apply wf_SetSign; [done|lia]|rewrite toZ_SetSign by done; lia]).
Qed.

Lemma BitwiseNOT_correct_witness :
  exists z, BitwiseNOT (mkBigInt true [0; 1]) = Ok z /\ wf z /\ toZ z = Z.lnot (-4294967296).
Proof. refine (BitwiseNOT_correct (mkBigInt true [0; 1]) _). by apply wfb_wf. Defined.
