(* ===== verification/BigIntMul.v ===== *)
(** * BigInt: multiplication

    [Mul] (a 32 by 32 bit product out of 16 bit halves) and [Multiply] (the schoolbook
    product with the carry propagation loop) of src/ecmascript/js_bigint.cpp. *)

From Stdlib Require Import ZArith Lia.
From S2P Require Import Prelude BigIntBase.

(** ** Model *)

(** The high and the low digit of the product. *)
Definition Mul (x y : Z) : Z * Z :=
  let lowBitX := Z.land x HALF_DATA_MASK in
  let highBitX := Z.shiftr x HALF_DATA_BITS in
  let lowBitY := Z.land y HALF_DATA_MASK in
  let highBitY := Z.shiftr y HALF_DATA_BITS in
  let lowRes := u32 (lowBitX * lowBitY) in
  let highRes := u32 (highBitX * highBitY) in
  let midRes1 := u32 (lowBitX * highBitY) in
  let midRes2 := u32 (highBitX * lowBitY) in
  let '(low, carry) := AddHelper lowRes (u32 (Z.shiftl midRes1 HALF_DATA_BITS)) 0 in
  let '(low, carry) := AddHelper low (u32 (Z.shiftl midRes2 HALF_DATA_BITS)) carry in
  let high := u32 (Z.shiftr midRes1 HALF_DATA_BITS + Z.shiftr midRes2 HALF_DATA_BITS
                   + highRes + carry) in
  (high, low).

(** One digit of the inner loop of [Multiply]; the state is [(bigint, carry, high, index)]. *)
Definition MultiplyDigit (xVal : Z) (y : BigInt) (j : nat) (s : BigInt * Z * Z * nat)
  : result (BigInt * Z * Z * nat) :=
  let '(bigint, carry, high, index) := s in
  value ← GetDigit bigint index;
  let '(value, currentCarry) := AddHelper value high 0 in
  let '(value, currentCarry) := AddHelper value carry currentCarry in
  dy ← GetDigit y j;
  let '(high, low) := Mul xVal dy in
  let '(value, currentCarry) := AddHelper value low currentCarry in
  bigint ← SetDigit bigint index value;
  Ok (bigint, currentCarry, high, S index).

(** One round of [while (carry != 0 || high != 0)]. *)
Definition MultiplyCarry (s : BigInt * Z * Z * nat) : result (BigInt * Z * Z * nat) :=
  let '(bigint, carry, high, index) := s in
  value ← GetDigit bigint index;
  let '(value, currentCarry) := AddHelper value high 0 in
  let '(value, currentCarry) := AddHelper value carry currentCarry in
  bigint ← SetDigit bigint index value;
  Ok (bigint, currentCarry, 0, S index).

Definition carryPending (s : BigInt * Z * Z * nat) : bool :=
  let '(_, carry, high, _) := s in negb (carry =? 0) || negb (high =? 0).

(** The body of the outer loop: add [x[i] * y] at position [i]. *)
Definition MultiplyRow (x y : BigInt) (i : nat) (bigint : BigInt) : result BigInt :=
  xVal ← GetDigit x i;
  if xVal =? 0 then Ok bigint
  else
    s ← for_up (GetLength y) 0 (MultiplyDigit xVal y) (bigint, 0, 0, i);
    s ← while_loop (GetLength bigint) carryPending MultiplyCarry s;
    Ok (s.1.1.1).

Definition Multiply (x y : BigInt) : result BigInt :=
  xZero ← IsZero x;
  if xZero : bool then Ok x else
  yZero ← IsZero y;
  if yZero : bool then Ok y else
  let needLength := Z.of_nat (GetLength x) + Z.of_nat (GetLength y) in
  bigint ← CreateBigint needLength;
  bigint ← for_up (GetLength x) 0 (MultiplyRow x y) bigint;
  RightTruncate (SetSign bigint (negb (Bool.eqb (GetSign x) (GetSign y)))).

(** ** The digit product *)

Definition HALF : Z := 65536.

Lemma half_low x : Z.land x HALF_DATA_MASK = x mod HALF.
Proof. change HALF_DATA_MASK with (Z.ones 16). by rewrite Z.land_ones. Qed.

Lemma half_high x : Z.shiftr x HALF_DATA_BITS = x / HALF.
Proof. change HALF_DATA_BITS with 16. by rewrite Z.shiftr_div_pow2. Qed.

Lemma half_shift x : Z.shiftl x HALF_DATA_BITS = x * HALF.
Proof. change HALF_DATA_BITS with 16. by rewrite Z.shiftl_mul_pow2. Qed.

Lemma BASE_half : BASE = HALF * HALF.
Proof. reflexivity. Qed.

Lemma half_split x : is_u32 x ->
  exists h l, x / HALF = h /\ x mod HALF = l /\ x = h * HALF + l /\ 0 <= h < HALF /\ 0 <= l < HALF.
Proof.
  intros Hx. exists (x / HALF), (x mod HALF). unfold is_u32 in Hx. rewrite BASE_half in Hx.
  pose proof (Z.div_mod x HALF ltac:(done)). pose proof (Z.mod_pos_bound x HALF ltac:(done)).
  repeat split; try lia; [apply Z.div_pos; lia|apply Z.div_lt_upper_bound; lia].
Qed.

(** [m * HALF] reduced to 32 bits keeps the low half of [m]. *)
Lemma u32_shift_half m : is_u32 m -> u32 (m * HALF) = (m mod HALF) * HALF.
Proof.
  intros Hm. unfold u32. rewrite BASE_half.
  rewrite Z.mul_mod_distr_r by done. done.
Qed.

Lemma half_product a b : 0 <= a < HALF -> 0 <= b < HALF -> is_u32 (a * b).
Proof. unfold is_u32. rewrite BASE_half. unfold HALF. nia. Qed.

Lemma Mul_spec x y h l : Mul x y = (h, l) -> is_u32 x -> is_u32 y ->
  is_u32 h /\ is_u32 l /\ h * BASE + l = x * y.
Proof.
  intros E Hx Hy. unfold Mul in E. rewrite !half_low, !half_high, !half_shift in E.
  destruct (half_split x Hx) as (hx & lx & Q1 & Q2 & Ex & Bhx & Blx).
  destruct (half_split y Hy) as (hy & ly & Q3 & Q4 & Ey & Bhy & Bly).
  rewrite Q1, Q2, Q3, Q4 in E. clear Q1 Q2 Q3 Q4.
  rewrite (u32_small (lx * ly)), (u32_small (lx * hy)), (u32_small (hx * ly)),
    (u32_small (hx * hy)) in E by (by apply half_product).
  rewrite !u32_shift_half in E by (by apply half_product).
  destruct (half_split (lx * hy)) as (h1 & l1 & Q1 & Q2 & E1 & Bh1 & Bl1); [by apply half_product|].
  destruct (half_split (hx * ly)) as (h2 & l2 & Q3 & Q4 & E2 & Bh2 & Bl2); [by apply half_product|].
  rewrite Q1, Q2, Q3, Q4 in E. clear Q1 Q2 Q3 Q4.
  assert (forall z, 0 <= z < HALF -> is_u32 (z * HALF)) as Hsh
    by (intros z Hz; unfold is_u32; rewrite BASE_half; unfold HALF in *; lia).
  destruct (AddHelper (lx * ly) (l1 * HALF) 0) as [a1 c1] eqn:A1.
  apply AddHelper_spec in A1 as (Ha1 & A1 & Hc1); [|by apply half_product|auto|pose proof BASE_gt_2; lia].
  destruct (AddHelper a1 (l2 * HALF) c1) as [a2 c2] eqn:A2.
  apply AddHelper_spec in A2 as (Ha2 & A2 & Hc2); [|done|auto|pose proof BASE_gt_2; lia].
  injection E as <- <-.
  assert ((h1 + h2 + hx * hy + c2) * BASE + a2 = x * y) as Etot.
  { rewrite BASE_half in *. nia. }
  assert (is_u32 (h1 + h2 + hx * hy + c2)) as Hh.
  { unfold is_u32 in *. pose proof (Z.mul_nonneg_nonneg hx hy ltac:(lia) ltac:(lia)).
    split; [lia|]. apply (Z.mul_lt_mono_pos_r BASE); [apply BASE_pos|].
    pose proof (Z.mul_lt_mono_nonneg x BASE y BASE). lia. }
  rewrite u32_small by done. done.
Qed.

(** ** The loops of [Multiply] *)

(** Three chained helper calls add three digits to a fourth. *)
Lemma AddHelper_thrice v h c l a1 c1 a2 c2 a3 c3 :
  AddHelper v h 0 = (a1, c1) -> AddHelper a1 c c1 = (a2, c2) -> AddHelper a2 l c2 = (a3, c3) ->
  is_u32 v -> is_u32 h -> is_u32 c -> is_u32 l ->
  is_u32 a3 /\ a3 + BASE * c3 = v + h + c + l /\ 0 <= c3 <= 3.
Proof.
  intros E1 E2 E3 Hv Hh Hc Hl. assert (5 < BASE) by done.
  apply AddHelper_spec in E1 as (? & E1 & ?); [|done|done|lia].
  apply AddHelper_spec in E2 as (? & E2 & ?); [|done|done|lia].
  apply AddHelper_spec in E3 as (? & E3 & ?); [|done|done|lia].
  split_and!; done || lia.
Qed.

(** [(bigint, carry, high, index)]: the digits stored so far plus the pending
    [(high + carry)] at [index] make up [total]. *)
Definition mulInv (n : nat) (total : Z) (s : BigInt * Z * Z * nat) : Prop :=
  let '(b, c, h, index) := s in
  Forall is_u32 (data b) /\ GetLength b = n /\ 0 <= c <= 3 /\ is_u32 h /\
  eval (data b) + (h + c) * pw index = total.

Lemma is_u32_small c : 0 <= c <= 3 -> is_u32 c.
Proof. intros. assert (5 < BASE) by done. unfold is_u32. lia. Qed.

Lemma MultiplyDigit_returns n total xVal y j b c h index dy :
  Forall is_u32 (data y) -> is_u32 xVal -> (index < n)%nat -> data y !! j = Some dy ->
  mulInv n total (b, c, h, index) ->
  returns (MultiplyDigit xVal y j (b, c, h, index)) (fun s =>
    mulInv n (total + xVal * dy * pw index) s /\ s.2 = S index).
Proof.
  intros Dy Hx Hi Hj (Db & Lb & Hc & Hh & He). unfold MultiplyDigit.
  digit_step; [lia|]. destruct (AddHelper d h 0) as [a1 c1] eqn:E1.
  destruct (AddHelper a1 c c1) as [a2 c2] eqn:E2.
  digit_step; [by apply lookup_lt_Some in Hj|]. simplify_eq.
  destruct (Mul xVal dy) as [hi lo] eqn:EM. apply Mul_spec in EM as (Hhi & Hlo & EM); [|done|eauto with ark].
  destruct (AddHelper a2 lo c2) as [a3 c3] eqn:E3.
  destruct (AddHelper_thrice _ _ _ _ _ _ _ _ _ _ E1 E2 E3) as (Ha & E & Hc3);
    eauto using is_u32_small with ark.
  digit_step; [lia|]. apply returns_ok. split; [|done]. unfold mulInv. split_and!; cbn [data]; auto with ark; try lia.
  - unfold GetLength. cbn [data]. by rewrite length_insert.
  - erewrite eval_insert by done. rewrite pw_S, <- EM. nia.
Qed.

Lemma MultiplyCarry_returns n total b c h index :
  total < pw n -> mulInv n total (b, c, h, index) -> carryPending (b, c, h, index) = true ->
  returns (MultiplyCarry (b, c, h, index)) (fun s =>
    mulInv n total s /\ (n - s.2 < n - index)%nat).
Proof.
  intros Ht (Db & Lb & Hc & Hh & He) Hp. unfold MultiplyCarry.
  assert (index < n)%nat as Hi.
  { apply Nat.nle_gt. intros Hle. apply pw_mono in Hle. pose proof (eval_bounds _ Db).
    unfold carryPending in Hp. rewrite orb_true_iff, !negb_true_iff, !Z.eqb_neq in Hp.
    unfold is_u32 in Hh. pose proof (pw_pos n). assert (1 <= h + c) by lia. nia. }
  digit_step; [lia|]. destruct (AddHelper d h 0) as [a1 c1] eqn:E1.
  destruct (AddHelper a1 c c1) as [a2 c2] eqn:E2. assert (5 < BASE) by done.
  apply AddHelper_spec in E1 as (Ha1 & E1 & Hc1); [|eauto with ark|done|lia].
  apply AddHelper_spec in E2 as (Ha2 & E2 & Hc2); [|done|by apply is_u32_small|lia].
  digit_step; [lia|]. apply returns_ok. cbn [snd]. split; [|lia].
  unfold mulInv. split_and!; cbn [data]; auto with ark; try lia.
  - unfold GetLength. cbn [data]. by rewrite length_insert.
  - erewrite eval_insert by done. rewrite pw_S. nia.
Qed.

Lemma MultiplyRow_returns x y i b :
  wf x -> wf y -> (i < GetLength x)%nat -> Forall is_u32 (data b) ->
  GetLength b = (GetLength x + GetLength y)%nat -> eval (data b) = evalp (data x) i * eval (data y) ->
  returns (MultiplyRow x y i b) (fun b' => Forall is_u32 (data b') /\
    GetLength b' = (GetLength x + GetLength y)%nat /\
    eval (data b') = evalp (data x) (S i) * eval (data y)).
Proof.
  intros Hx Hy Hi Db Lb He. unfold MultiplyRow.
  pose proof (wf_digits _ Hx) as Dx. pose proof (wf_digits _ Hy) as Dy.
  digit_step; [done|]. rewrite (evalp_S _ _ d) by done.
  destruct (Z.eqb_spec d 0) as [->|Hd].
  { apply returns_ok. repeat split; auto. lia. }
  eapply returns_bind.
  { apply (for_up_returns (fun j s =>
      mulInv (GetLength b) (eval (data b) + d * evalp (data y) j * pw i) s /\ s.2 = (i + j)%nat)).
    - rewrite evalp_0. split; [|cbn; lia]. unfold mulInv. split_and!; auto with ark; lia.
    - intros j [[[b' c] h] index] Hj [Inv Ei]. cbn [snd] in Ei. subst index.
      destruct (lookup_lt_is_Some_2 (data y) j) as [dy Hdy]; [unfold GetLength in *; lia|].
      eapply returns_mono; [eapply MultiplyDigit_returns; [..|exact Inv]; [done|by eapply digit_range; [exact Dx|]|lia|done]|].
      cbv beta. intros s [Inv' ->]. split; [|lia]. rewrite (evalp_S _ _ dy), pw_add in * by done.
      match goal with |- mulInv _ ?t _ => match type of Inv' with mulInv _ ?t' _ =>
        replace t with t' by lia end end. done. }
  cbv beta. rewrite Nat.add_0_l, (evalp_all (data y)) by done. intros [[[b' c'] h'] index'] [Inv E2].
  pose proof (wf_eval_bounds _ Hy) as By.
  pose proof (evalp_bounds (data x) (S i) Dx ltac:(unfold GetLength in *; lia)) as Bx.
  rewrite (evalp_S _ _ d) in Bx by done.
  assert (eval (data b) + d * eval (data y) * pw i < pw (GetLength b)) as Ht.
  { rewrite Lb, pw_add. pose proof (pw_mono (S i) (GetLength x) ltac:(lia)). nia. }
  eapply returns_bind; [apply (while_loop_returns (mulInv (GetLength b)
    (eval (data b) + d * eval (data y) * pw i)) (fun s => GetLength b - s.2)%nat)|]; [done|cbn; lia| |].
  - intros [[[b1 c1] h1] i1] I1 Hp. by apply MultiplyCarry_returns.
  - cbv beta. intros [[[b1 c1] h1] i1] [(D1 & L1 & Hc1 & Hh1 & He1) Hp].
    unfold carryPending in Hp. rewrite orb_false_iff, !negb_false_iff, !Z.eqb_eq in Hp.
    destruct Hp as [-> ->]. apply returns_ok. cbn [fst]. repeat split; [done|congruence|]. lia.
Qed.

Lemma Multiply_returns x y : wf x -> wf y ->
  (toZ x = 0 \/ toZ y = 0 \/ Z.of_nat (GetLength x) + Z.of_nat (GetLength y) <= MAXSIZE) ->
  returns (Multiply x y) (fun z => wf z /\ toZ z = toZ x * toZ y).
Proof.
  intros Hx Hy Hmax. unfold Multiply. digit_step; [apply Hx|]. case_bool_decide as Zx.
  { apply returns_ok. rewrite (proj1 (wf_zero_iff _ Hx) Zx). done. }
  digit_step; [apply Hy|]. case_bool_decide as Zy.
  { apply returns_ok. rewrite (proj1 (wf_zero_iff _ Hy) Zy), Z.mul_0_r. done. }
  rewrite (wf_zero_iff _ Hx) in Zx. rewrite (wf_zero_iff _ Hy) in Zy.
  destruct Hmax as [|[|Hmax]]; [done|done|]. digit_step; [done|].
  pose proof (wf_pos _ Hx).
  eapply returns_bind; [apply (for_up_returns (fun i b => Forall is_u32 (data b) /\
    GetLength b = (GetLength x + GetLength y)%nat /\
    eval (data b) = evalp (data x) i * eval (data y)))|].
  - cbn [data]. rewrite eval_replicate_0, evalp_0. repeat split; auto with ark.
    unfold GetLength. cbn [data]. rewrite length_replicate. lia.
  - intros i b Hi (? & ? & ?). apply MultiplyRow_returns; auto; lia.
  - cbv beta. rewrite Nat.add_0_l, evalp_all by done. intros b (Db & Lb & Eb).
    eapply returns_mono; [apply RightTruncate_returns|]; cbn [data SetSign]; auto;
      unfold GetLength in *; cbn [data SetSign]; try lia.
    cbv beta. intros z [Hz ->]. split; [done|]. unfold toZ, GetSign. cbn [Sign data SetSign].
    rewrite Eb. destruct (Sign x), (Sign y); cbn; lia.
Qed.

Lemma Multiply_error x y : wf x -> wf y -> toZ x <> 0 -> toZ y <> 0 ->
  MAXSIZE < Z.of_nat (GetLength x) + Z.of_nat (GetLength y) -> Multiply x y = Err SizeExceeded.
Proof.
  intros Hx Hy Zx Zy Hmax. unfold Multiply.
  rewrite !IsZero_eq, !bool_decide_eq_false_2, !bind_Ok by done.
  by rewrite CreateBigint_error.
Qed.

(** Whether a product of operands of these lengths hits the size limit. *)
Definition mulTooLong (x y : BigInt) : bool :=
  MAXSIZE <? Z.of_nat (GetLength x) + Z.of_nat (GetLength y).

(** ** Theorems *)

(** C27: Multiplying BigInts returns the normalised product, and throws the size RangeError
    exactly when both operands are non-zero and their lengths add up to more than the limit;
    no partial product or carry is ever stored outside the result. *)
Theorem Multiply_correct x y (Hx : wf x) (Hy : wf y) :
  if bool_decide (toZ x <> 0) && bool_decide (toZ y <> 0) && mulTooLong x y
  then Multiply x y = Err SizeExceeded
  else exists z, Multiply x y = Ok z /\ wf z /\ toZ z = toZ x * toZ y.
Proof.
  unfold mulTooLong. destruct (_ && _) eqn:E.
  - rewrite !andb_true_iff, !bool_decide_eq_true, Z.ltb_lt in E. naive_solver eauto using Multiply_error.
  - rewrite !andb_false_iff, !bool_decide_eq_false, Z.ltb_ge in E.
    apply returns_iff, Multiply_returns; auto.
    destruct E as [[E|E]|E]; auto; apply dec_stable in E; auto.
Qed.

Lemma Multiply_correct_witness :
  exists z, Multiply (mkBigInt true [4294967295; 4294967295]) (mkBigInt false [4294967295]) = Ok z /\
    wf z /\ toZ z = - 18446744073709551615 * 4294967295.
Proof.
  refine (Multiply_correct (mkBigInt true [4294967295; 4294967295]) (mkBigInt false [4294967295]) _ _);
    by apply wfb_wf.
Defined.

(** [Mul] returns the two digits of the full 64 bit product although it only computes on
    16 bit halves in 32 bit registers. *)
Theorem Mul_correct x y (Hx : is_u32 x) (Hy : is_u32 y) :
  is_u32 (Mul x y).1 /\ is_u32 (Mul x y).2 /\ (Mul x y).1 * BASE + (Mul x y).2 = x * y.
Proof. by apply Mul_spec; [apply surjective_pairing| |]. Qed.

Lemma Mul_correct_witness :
  (Mul 4294967295 4294967295).1 * BASE + (Mul 4294967295 4294967295).2 = 4294967295 * 4294967295.
Proof. apply (Mul_correct 4294967295 4294967295); unfold is_u32, BASE; lia. Defined.
