(* ===== verification/BigIntShift.v ===== *)
(** * BigInt: shifts

    [RightShift], [JudgeRoundDown], [RightShiftHelper], [LeftShiftHelper], [LeftShift],
    [SignedRightShift], and the two unnormalised shifts of the division algorithm
    ([FormatLeftShift], [UnformattedRightShift]) of src/ecmascript/js_bigint.cpp. *)

From Stdlib Require Import ZArith Lia.
From S2P Require Import Prelude BigIntBase BigIntAdd.

(** ** Model *)

(** The loops of [RightShift].  [read b i] is [x->GetDigit(i)] when the destination holds
    [b]: the source can be another object or the destination itself. *)
Definition RightShiftFrom (read : BigInt -> nat -> result Z) (size : nat) (bigint : BigInt)
    (digitMove : nat) (bitsMove : Z) : result BigInt :=
  if bitsMove =? 0 then
    for_up (size - digitMove) digitMove (fun i b =>
      d ← read b i; SetDigit b (i - digitMove) d) bigint
  else
    d ← read bigint digitMove;
    let last := (size - digitMove - 1)%nat in
    '(b, carry) ← for_up last 0 (fun i '(b, carry) =>
      value ← read b (i + digitMove + 1)%nat;
      b ← SetDigit b i (Z.lor (u32 (Z.shiftl value (DATA_BITS - bitsMove))) carry);
      Ok (b, Z.shiftr value bitsMove)) (bigint, Z.shiftr d bitsMove);
    SetDigit b last carry.

Definition RightShift (bigint x : BigInt) (digitMove : nat) (bitsMove : Z) : result BigInt :=
  RightShiftFrom (fun _ i => GetDigit x i) (GetLength x) bigint digitMove bitsMove.

(** [RightShift(bigint, bigint, 0, shift)]: source and destination are the same object. *)
Definition UnformattedRightShift (bigint : BigInt) (shift : Z) : result BigInt :=
  RightShiftFrom GetDigit (GetLength bigint) bigint 0 shift.

(** [for (i < digitMove) if (x[i] != 0) { roundDown = true; break; }] *)
Fixpoint anyNonZero (x : BigInt) (n i : nat) : result bool :=
  match n with
  | O => Ok false
  | S n' => d ← GetDigit x i; if negb (d =? 0) then Ok true else anyNonZero x n' (S i)
  end.

(** Returns the updated [needLen] and [roundDown]. *)
Definition JudgeRoundDown (x : BigInt) (digitMove : nat) (bitsMove needLen : Z)
  : result (Z * bool) :=
  let stamp := u32 (u32 (Z.shiftl 1 bitsMove) - 1) in
  d ← GetDigit x digitMove;
  roundDown ← (if negb (Z.land d stamp =? 0) then Ok true else anyNonZero x digitMove 0);
  if roundDown && (bitsMove =? 0) then
    highBits ← GetDigit x (GetLength x - 1);
    Ok (if u32 (Z.lnot highBits) =? 0 then needLen + 1 else needLen, roundDown)
  else Ok (needLen, roundDown).

Definition ReturnIfRightShiftOverMax (sign : bool) : result BigInt :=
  if sign then Int32ToBigInt (-1) else Int32ToBigInt 0.

(** [for (i < bigintLength) if (max != digit) { needExpend = false; break; }] *)
Fixpoint allOnes (x : BigInt) (n i : nat) : result bool :=
  match n with
  | O => Ok true
  | S n' => d ← GetDigit x i; if negb (BASE - 1 =? d) then Ok false else allOnes x n' (S i)
  end.

Definition BitwiseAddOne (bigint : BigInt) : result BigInt :=
  let bigintLength := GetLength bigint in
  needExpend ← allOnes bigint bigintLength 0;
  let newLength := if needExpend : bool then Z.of_nat bigintLength + 1 else Z.of_nat bigintLength in
  newBigint ← CreateBigint newLength;
  '(newBigint, carry) ← for_up bigintLength 0 (fun i '(newBigint, carry) =>
    d ← GetDigit bigint i;
    let '(v, bigintCarry) := AddHelper d carry 0 in
    newBigint ← SetDigit newBigint i v;
    Ok (newBigint, bigintCarry)) (newBigint, 1);
  newBigint ← (if needExpend : bool then SetDigit newBigint bigintLength carry else Ok newBigint);
  RightTruncate (SetSign newBigint true).

Definition RightShiftHelper (x y : BigInt) : result BigInt :=
  let sign := GetSign x in
  over ← (if (1 <? GetLength y)%nat then Ok true else d ← GetDigit y 0; Ok (MAXBITS <? d));
  if over : bool then ReturnIfRightShiftOverMax sign
  else
    moveNum ← GetDigit y 0;
    let digitMove := Z.to_nat (moveNum / DATA_BITS) in
    let bitsMove := moveNum mod DATA_BITS in
    if (GetLength x <=? digitMove)%nat then ReturnIfRightShiftOverMax sign
    else
      let needLen := Z.of_nat (GetLength x) - Z.of_nat digitMove in
      '(needLen, roundDown) ←
        (if sign then JudgeRoundDown x digitMove bitsMove needLen else Ok (needLen, false));
      bigint ← CreateBigint needLen;
      bigint ← RightShift bigint x digitMove bitsMove;
      bigint ← RightTruncate bigint;
      if sign then
        let bigint := SetSign bigint true in
        if roundDown : bool then BitwiseAddOne bigint else Ok bigint
      else Ok bigint.

Definition LeftShiftHelper (x y : BigInt) : result BigInt :=
  z ← IsZero x;
  if z : bool then Ok x
  else
    moveNum ← GetDigit y 0;
    let digitMove := moveNum / DATA_BITS in
    let bitsMove := moveNum mod DATA_BITS in
    let needLen := digitMove + Z.of_nat (GetLength x) + (if bitsMove =? 0 then 0 else 1) in
    bigint ← CreateBigint needLen;
    let digitMove := Z.to_nat digitMove in
    bigint ←
      (if bitsMove =? 0 then
         for_up (Z.to_nat needLen - digitMove) digitMove (fun index b =>
           d ← GetDigit x (index - digitMove); SetDigit b index d) bigint
       else
         '(b, carry) ← for_up (GetLength x) 0 (fun index '(b, carry) =>
           value ← GetDigit x index;
           b ← SetDigit b (digitMove + index)%nat (Z.lor (u32 (Z.shiftl value bitsMove)) carry);
           Ok (b, Z.shiftr value (DATA_BITS - bitsMove))) (bigint, 0);
         if negb (carry =? 0) then SetDigit b (digitMove + GetLength x)%nat carry else Ok b);
    RightTruncate (SetSign bigint (GetSign x)).

Definition SignedRightShift (x y : BigInt) : result BigInt :=
  xZero ← IsZero x;
  yZero ← (if xZero : bool then Ok true else IsZero y);
  if yZero : bool then Ok x
  else if GetSign y then LeftShiftHelper x y else RightShiftHelper x y.

Definition LeftShift (x y : BigInt) : result BigInt :=
  if GetSign y then RightShiftHelper x y else LeftShiftHelper x y.

(** [std::copy(src, src + n, dst)] *)
Definition std_copy (src : list Z) (n : nat) (dst : list Z) : result (list Z) :=
  if decide (n <= length src /\ n <= length dst)%nat then Ok (take n src ++ drop n dst)
  else Err OutOfBounds.

Definition FormatLeftShift (shift : Z) (bigint : BigInt) (neeedAddOne : bool) : result BigInt :=
  if negb neeedAddOne && (shift =? 0) then Ok bigint
  else
    let len := GetLength bigint in
    let needLen := if neeedAddOne then Z.of_nat len + 1 else Z.of_nat len in
    result ← CreateBigint needLen;
    if shift =? 0 then
      l ← std_copy (data bigint) len (data result); Ok (mkBigInt (Sign result) l)
    else
      '(b, carry) ← for_up len 0 (fun index '(b, carry) =>
        value ← GetDigit bigint index;
        b ← SetDigit b index (Z.lor (u32 (Z.shiftl value shift)) carry);
        Ok (b, Z.shiftr value (DATA_BITS - shift))) (result, 0);
      if negb (carry =? 0) then SetDigit b len carry else Ok b.

(** ** Right shift of the magnitude *)

Section RightShiftFrom.
  (** [R i b]: the destination [b] was not yet written at or above [i], as far as
      the source is concerned. *)
  Context (x : BigInt) (read : BigInt -> nat -> result Z) (R : nat -> BigInt -> Prop).
  Context (R_set : forall i b v, R i b -> R (S i) (mkBigInt (Sign b) (<[i:=v]> (data b)))).
  Context (R_read : forall i b j, R i b -> (i <= j)%nat -> read b j = GetDigit x j).
  Context (dm : nat) (b0 : BigInt).
  Context (Dx : Forall is_u32 (data x)) (Hdm : (dm < GetLength x)%nat).
  Context (D0 : Forall is_u32 (data b0)) (L0 : (GetLength x - dm <= GetLength b0)%nat).
  Context (R0 : R 0 b0).

(** What does not change, and the part of [b0] above the written digits. *)
Let frame (i : nat) (b : BigInt) : Prop :=
  Forall is_u32 (data b) /\ GetLength b = GetLength b0 /\ Sign b = Sign b0 /\ R i b /\
  forall j, (i <= j)%nat -> data b !! j = data b0 !! j.

Let X := drop dm (data x).

Lemma frame_0 : frame 0 b0.
Proof. unfold frame. auto. Qed.

Lemma frame_set i b v : frame i b -> is_u32 v -> frame (S i) (mkBigInt (Sign b) (<[i:=v]> (data b))).
Proof.
  intros (Db & Lb & Sb & Rb & Fb) Hv. unfold frame, GetLength in *. cbn [data Sign].
  rewrite length_insert. split_and!; auto with ark.
  intros j Hj. rewrite list_lookup_insert_ne by lia. apply Fb. lia.
Qed.

Lemma X_lookup i : X !! i = data x !! (dm + i)%nat.
Proof. unfold X. by rewrite lookup_drop. Qed.

Lemma X_length : length X = (GetLength x - dm)%nat.
Proof. unfold X. by rewrite length_drop. Qed.

Lemma RightShiftFrom_whole :
  returns (RightShiftFrom read (GetLength x) b0 dm 0) (fun b =>
    frame (GetLength x - dm) b /\ evalp (data b) (GetLength x - dm) = eval X).
Proof.
  unfold RightShiftFrom. cbn [Z.eqb].
  eapply returns_mono; [apply (for_up_returns (fun i b => frame (i - dm) b /\
    evalp (data b) (i - dm) = evalp X (i - dm)))|].
  - rewrite Nat.sub_diag, !evalp_0. split; [apply frame_0|done].
  - intros i b Hi [Fb Eb]. pose proof Fb as (Db & Lb & _ & Rb & _).
    rewrite (R_read (i - dm)) by (done || lia). digit_step; [lia|].
    assert (X !! (i - dm)%nat = Some d) as Hd
      by (rewrite X_lookup; by replace (dm + (i - dm))%nat with i by lia).
    unfold SetDigit. digit_step; [unfold GetLength in *; lia|]. apply returns_ok.
    replace (S i - dm)%nat with (S (i - dm)) by lia. split.
    + apply frame_set; eauto with ark.
    + cbn [data]. rewrite evalp_insert_S by (unfold GetLength in *; lia).
      rewrite (evalp_S X _ d) by done. lia.
  - cbv beta. replace (dm + (GetLength x - dm) - dm)%nat with (GetLength x - dm)%nat by lia.
    intros b [Fb Eb]. split; [done|]. rewrite Eb. apply evalp_all. rewrite X_length. lia.
Qed.

Lemma shr_value i d bm : 0 < bm < 32 -> X !! S i = Some d ->
  evalp X (S (S i)) / 2 ^ bm = evalp X (S i) / 2 ^ bm + pw i * (d * 2 ^ (32 - bm)).
Proof.
  intros Hb Hd. rewrite (evalp_S X (S i) d Hd), pw_S, (BASE_split bm) by lia.
  replace (2 ^ bm * 2 ^ (32 - bm) * pw i * d) with (pw i * (d * 2 ^ (32 - bm)) * 2 ^ bm) by lia.
  rewrite Z.div_add; [done|]. pose proof (pow2_pos bm). lia.
Qed.

Lemma shr_first_range d bm : 0 < bm < 32 -> is_u32 d -> 0 <= Z.shiftr d bm < 2 ^ (32 - bm).
Proof.
  intros Hb Hd. pose proof (shr_digit d 0 bm Hb Hd) as H. apply H.
  pose proof (pow2_pos (32 - bm)). lia.
Qed.

Lemma RightShiftFrom_bits bm : 0 < bm < 32 ->
  returns (RightShiftFrom read (GetLength x) b0 dm bm) (fun b =>
    frame (GetLength x - dm) b /\ evalp (data b) (GetLength x - dm) = eval X / 2 ^ bm).
Proof.
  intros Hb. unfold RightShiftFrom. destruct (Z.eqb_spec bm 0); [lia|].
  rewrite (R_read 0) by (done || lia). digit_step; [done|].
  assert (X !! 0%nat = Some d) as Hd by (rewrite X_lookup; by rewrite Nat.add_0_r).
  eapply returns_bind; [apply (for_up_returns (fun i s => frame i s.1 /\
    0 <= s.2 < 2 ^ (32 - bm) /\ evalp (data s.1) i + pw i * s.2 = evalp X (S i) / 2 ^ bm))|].
  - cbn [fst snd]. split_and!; [apply frame_0|apply shr_first_range; eauto with ark..|].
    rewrite (evalp_S X 0 d), !evalp_0, pw_0, Z.shiftr_div_pow2 by (done || lia).
    replace (0 + 1 * d) with d by lia. lia.
  - intros i [b c] Hi [Fb [Hc Eb]]. cbn [fst snd] in *. pose proof Fb as (Db & Lb & _ & Rb & _).
    rewrite (R_read i) by (done || lia). digit_step; [lia|].
    assert (X !! S i = Some d0) as Hd0
      by (rewrite X_lookup; by replace (dm + S i)%nat with (i + dm + 1)%nat by lia).
    destruct (shr_digit d0 c bm) as (Hr & Hrest & E); [done|eauto with ark|done|].
    change DATA_BITS with 32. digit_step; [lia|]. apply returns_ok. cbn [fst snd data].
    split_and!; [by apply frame_set|apply Hrest..|].
    rewrite evalp_insert_S by (unfold GetLength in *; lia).
    rewrite (shr_value i d0), pw_S by done. nia.
  - cbv beta. rewrite Nat.add_0_l. intros [b c] (Fb & Hc & Eb). cbn [fst snd] in *.
    assert (exists last, (GetLength x - dm = S last)%nat) as [last HS]
      by (exists (GetLength x - dm - 1)%nat; lia).
    replace (GetLength x - dm - 1)%nat with last in * by lia.
    pose proof Fb as (Db & Lb & _). unfold SetDigit. digit_step; [unfold GetLength in *; lia|].
    apply returns_ok. cbn [data]. rewrite HS. split.
    + apply frame_set; [done|]. unfold is_u32. rewrite (BASE_split bm) by lia.
      pose proof (pow2_pos bm ltac:(lia)). nia.
    + rewrite evalp_insert_S by (unfold GetLength in *; lia). rewrite Eb.
      rewrite evalp_all by (rewrite X_length; lia). done.
Qed.

Lemma RightShiftFrom_returns bm : 0 <= bm < 32 ->
  returns (RightShiftFrom read (GetLength x) b0 dm bm) (fun b =>
    Forall is_u32 (data b) /\ GetLength b = GetLength b0 /\ Sign b = Sign b0 /\
    (forall j, (GetLength x - dm <= j)%nat -> data b !! j = data b0 !! j) /\
    evalp (data b) (GetLength x - dm) = eval (drop dm (data x)) / 2 ^ bm).
Proof.
  intros Hb. destruct (decide (bm = 0)) as [->|].
  - eapply returns_mono; [apply RightShiftFrom_whole|]. cbv beta.
    intros b [(? & ? & ? & ? & ?) E]. rewrite Z.pow_0_r, Z.div_1_r. auto.
  - eapply returns_mono; [apply RightShiftFrom_bits; lia|]. cbv beta.
    intros b [(? & ? & ? & ? & ?) E]. auto.
Qed.
End RightShiftFrom.

Lemma RightShift_returns b0 x dm bm :
  Forall is_u32 (data x) -> Forall is_u32 (data b0) -> 0 <= bm < 32 ->
  (dm < GetLength x)%nat -> (GetLength x - dm <= GetLength b0)%nat ->
  returns (RightShift b0 x dm bm) (fun b =>
    Forall is_u32 (data b) /\ GetLength b = GetLength b0 /\ Sign b = Sign b0 /\
    (forall j, (GetLength x - dm <= j)%nat -> data b !! j = data b0 !! j) /\
    evalp (data b) (GetLength x - dm) = eval (drop dm (data x)) / 2 ^ bm).
Proof.
  intros Dx D0 Hb Hdm L0. unfold RightShift.
  by apply (RightShiftFrom_returns x _ (fun _ _ => True)).
Qed.

(** In place: every digit is read before it is overwritten. *)
Lemma UnformattedRightShift_returns b0 bm :
  Forall is_u32 (data b0) -> (0 < GetLength b0)%nat -> 0 <= bm < 32 ->
  returns (UnformattedRightShift b0 bm) (fun b =>
    Forall is_u32 (data b) /\ GetLength b = GetLength b0 /\ Sign b = Sign b0 /\
    eval (data b) = eval (data b0) / 2 ^ bm).
Proof.
  intros D0 L0 Hb. unfold UnformattedRightShift.
  eapply returns_mono; [apply (RightShiftFrom_returns b0 GetDigit
    (fun i b => forall j, (i <= j)%nat -> data b !! j = data b0 !! j)); auto; try lia|].
  - intros i b v Hi j Hj. cbn [data]. rewrite list_lookup_insert_ne by lia. apply Hi. lia.
  - intros i b j Hi Hj. unfold GetDigit, get. by rewrite Hi.
  - cbv beta. rewrite Nat.sub_0_r. intros b (Db & Lb & Sb & _ & E). split_and!; auto.
    rewrite evalp_all in E by (unfold GetLength in *; lia). done.
Qed.

(** ** Adding one to the magnitude *)

Lemma allOnes_returns x n i :
  Forall is_u32 (data x) -> (i + n = GetLength x)%nat -> evalp (data x) i + 1 = pw i ->
  returns (allOnes x n i) (fun b => b = (eval (data x) + 1 =? pw (GetLength x))).
Proof.
  intros Dx. revert i. induction n as [|n IH]; intros i Hi He; cbn [allOnes].
  - apply returns_ok. rewrite evalp_all in He by (unfold GetLength in *; lia).
    replace (GetLength x) with i by lia. symmetry. by apply Z.eqb_eq.
  - digit_step; [lia|]. pose proof (digit_range _ _ _ Dx H) as Hd. unfold is_u32 in Hd.
    destruct (Z.eqb_spec (BASE - 1) d) as [<-|Hne]; cbn [negb].
    + apply IH; [lia|]. rewrite (evalp_S _ _ _ H), pw_S. lia.
    + apply returns_ok. symmetry. apply Z.eqb_neq. intros E.
      rewrite (eval_take_drop _ (S i)), (evalp_S _ _ _ H) in E by (unfold GetLength in *; lia).
      pose proof (eval_bounds (drop (S i) (data x)) (Forall_drop _ _ _ Dx)) as Hb.
      rewrite length_drop in Hb. replace (GetLength x) with (S i + (length (data x) - S i))%nat in E
        by (unfold GetLength in *; lia). rewrite pw_add, pw_S in E. pose proof (pw_pos i) as Hp.
      set (D := eval (drop _ _)) in *. set (P := pw (_ - _)) in *.
      assert (pw i * (1 + d + BASE * (D - P)) = 0) as [|E0]%Z.mul_eq_0 by lia; [lia|]. nia.
Qed.

(** The increment loop: the low digits of the result and the carry make up the sum. *)
Definition incInv (n : nat) (b : BigInt) (i : nat) (s : BigInt * Z) : Prop :=
  Forall is_u32 (data s.1) /\ GetLength s.1 = n /\ 0 <= s.2 <= 1 /\
  evalp (data s.1) i + pw i * s.2 = evalp (data b) i + 1.

Lemma incInv_step n b i (s : BigInt * Z) d :
  Forall is_u32 (data b) -> incInv n b i s -> (i < n)%nat -> data b !! i = Some d ->
  returns (let '(v, bigintCarry) := AddHelper d s.2 0 in
           newBigint ← SetDigit s.1 i v; Ok (newBigint, bigintCarry)) (incInv n b (S i)).
Proof.
  intros Db (Ds & Ls & Hc & Es) Hi Hd. destruct s as [nb c]. cbn [fst snd] in *.
  destruct (AddHelper d c 0) as [v c'] eqn:E. pose proof BASE_gt_2.
  apply AddHelper_spec in E as (Hv & E & Hc'); [|eauto with ark|unfold is_u32; lia|lia].
  digit_step; [lia|]. apply returns_ok. unfold incInv. cbn [fst snd data].
  split_and!; auto with ark; try lia.
  - unfold GetLength. cbn [data]. by rewrite length_insert.
  - rewrite evalp_insert_S by (unfold GetLength in *; lia). rewrite (evalp_S _ _ d Hd), pw_S. nia.
Qed.

Lemma BitwiseAddOne_spec b :
  Forall is_u32 (data b) -> (1 <= GetLength b)%nat -> Z.of_nat (GetLength b) <= MAXSIZE ->
  if (eval (data b) + 1 =? pw (GetLength b)) && (Z.of_nat (GetLength b) =? MAXSIZE)
  then BitwiseAddOne b = Err SizeExceeded
  else returns (BitwiseAddOne b) (fun z => wf z /\ toZ z = - (eval (data b) + 1)).
Proof.
  intros Db Lb Mb. pose proof (allOnes_returns b (GetLength b) 0 Db ltac:(lia) eq_refl) as Hones.
  apply returns_iff in Hones as (e & He & Ee). unfold BitwiseAddOne. rewrite He, bind_Ok.
  rewrite <- Ee. set (n := if e then Z.of_nat (GetLength b) + 1 else Z.of_nat (GetLength b)).
  destruct (e && _) eqn:Hlim.
  { apply andb_true_iff in Hlim as [-> Hm]. apply Z.eqb_eq in Hm. by rewrite CreateBigint_error by lia. }
  assert (n <= MAXSIZE) as Hn.
  { unfold n. destruct e; cbn in Hlim; [apply Z.eqb_neq in Hlim|]; lia. }
  apply bind_CreateBigint; [done|].
  eapply returns_bind; [apply (for_up_returns (incInv (Z.to_nat n) b))|].
  { unfold incInv. cbn [fst snd data]. rewrite !evalp_0, pw_0. split_and!; auto with ark; try lia.
    unfold GetLength. cbn [data]. by rewrite length_replicate. }
  { intros i [nb c] Hi Inv. digit_step; [lia|]. apply (incInv_step _ _ _ (nb, c)); auto.
    unfold n in *. destruct e; lia. }
  cbv beta. rewrite Nat.add_0_l. intros [nb c] (Dn & Ln & Hc & En). cbn [fst snd] in *.
  rewrite (evalp_all (data b)) in En by done.
  pose proof (eval_bounds _ Db) as Bb. fold (GetLength b) in Bb.
  pose proof BASE_gt_2. unfold n in Ln. clear He Hlim.
  assert (forall l, Forall is_u32 l -> length l = Z.to_nat n -> eval l = eval (data b) + 1 ->
    returns (RightTruncate (SetSign (mkBigInt (Sign nb) l) true)) (fun z => wf z /\ toZ z = - (eval (data b) + 1)))
    as Hfin.
  { intros l Dl Ll El. eapply returns_mono; [apply RightTruncate_returns|]; cbn [data SetSign];
      auto; unfold GetLength in *; cbn [data SetSign]; rewrite ?Ll; unfold n; [destruct e; lia..|].
    cbv beta. intros z [Hz ->]. split; [done|]. unfold toZ. cbn [Sign SetSign data]. by rewrite El. }
  destruct e.
  - apply bind_SetDigit; [lia|]. apply Hfin; cbn [data].
    + apply insert_digits; [done|unfold is_u32; lia].
    + unfold GetLength in *. rewrite length_insert. unfold n. lia.
    + rewrite <- (evalp_all _ (S (GetLength b))) by (rewrite length_insert; unfold GetLength in *; lia).
      rewrite evalp_insert_S by (unfold GetLength in *; lia). done.
  - symmetry in Ee. apply Z.eqb_neq in Ee. digit_step.
    pose proof (evalp_bounds (data nb) (GetLength b) Dn ltac:(unfold GetLength in *; lia)).
    assert (c = 0) as -> by nia.
    destruct nb as [sn ln]. apply Hfin; [done|unfold GetLength in *; unfold n; cbn in *; lia|].
    rewrite evalp_all in En by (unfold GetLength in *; cbn in *; lia). cbn [data] in *. lia.
Qed.

(** ** Arithmetic right shift *)

Lemma anyNonZero_returns x n i :
  Forall is_u32 (data x) -> (i + n <= GetLength x)%nat -> evalp (data x) i = 0 ->
  returns (anyNonZero x n i) (fun b => b = negb (evalp (data x) (i + n) =? 0)).
Proof.
  intros Dx. revert i. induction n as [|n IH]; intros i Hi He; cbn [anyNonZero].
  - apply returns_ok. rewrite Nat.add_0_r, He. done.
  - digit_step; [lia|]. destruct (Z.eqb_spec d 0) as [->|Hd]; cbn [negb].
    + replace (i + S n)%nat with (S i + n)%nat by lia. apply IH; [lia|].
      rewrite (evalp_S _ _ 0) by done. lia.
    + apply returns_ok. symmetry. apply negb_true_iff, Z.eqb_neq.
      pose proof (digit_range _ _ _ Dx H) as Rd. unfold is_u32 in Rd. pose proof (pw_pos i).
      pose proof (evalp_mono (data x) (S i) (i + S n) Dx ltac:(lia) ltac:(unfold GetLength in *; lia)).
      rewrite (evalp_S _ _ d) in * by done. nia.
Qed.

Lemma eval_drop_digit l dm d : (dm < length l)%nat -> l !! dm = Some d ->
  eval (drop dm l) = d + BASE * eval (drop (S dm) l).
Proof. intros Hdm Hd. by rewrite (drop_S _ _ _ Hd). Qed.

(** The bits a shift by [32 * dm + bm] drops, read off digit [dm] and the digits below. *)
Lemma dropped_bits x dm bm d : wf x -> (dm < GetLength x)%nat -> data x !! dm = Some d ->
  0 <= bm < 32 ->
  eval (data x) mod (pw dm * 2 ^ bm) = evalp (data x) dm + pw dm * (d mod 2 ^ bm) /\
  eval (data x) / (pw dm * 2 ^ bm) = eval (drop dm (data x)) / 2 ^ bm.
Proof.
  intros Hx Hdm Hd Hb. pose proof (pow2_pos bm ltac:(lia)). pose proof (pw_pos dm).
  pose proof (evalp_bounds (data x) dm (wf_digits _ Hx) ltac:(unfold GetLength in *; lia)) as Hlow.
  set (Y := eval (drop dm (data x))). assert (d mod 2 ^ bm = Y mod 2 ^ bm) as ->.
  { unfold Y. rewrite (eval_drop_digit _ _ d), (BASE_split bm) by (done || lia).
    rewrite <- Z.mul_assoc, (Z.mul_comm (2 ^ bm)), Z.mod_add by lia. done. }
  assert (eval (data x) = evalp (data x) dm + pw dm * Y) as E
    by (apply eval_take_drop; unfold GetLength in *; lia).
  pose proof (Z.mod_pos_bound Y (2 ^ bm) ltac:(lia)). pose proof (Z.div_mod Y (2 ^ bm) ltac:(lia)).
  split; symmetry; [eapply (Z.mod_unique_pos _ _ (Y / 2 ^ bm))|eapply Z.div_unique_pos];
    [split| |split|]; [nia|nia|nia| | | ].
  - instantiate (1 := evalp (data x) dm + pw dm * (Y mod 2 ^ bm)). nia.
  - nia.
  - nia.
Qed.

Lemma JudgeRoundDown_returns x dm bm needLen : wf x -> (dm < GetLength x)%nat -> 0 <= bm < 32 ->
  returns (JudgeRoundDown x dm bm needLen) (fun r =>
    r.2 = negb (eval (data x) mod (pw dm * 2 ^ bm) =? 0) /\ needLen <= r.1 /\
    (r.1 = needLen \/ r.1 = needLen + 1 /\ r.2 = true /\ bm = 0)).
Proof.
  intros Hx Hdm Hb. unfold JudgeRoundDown. pose proof (wf_digits _ Hx) as Dx. pose proof (wf_pos _ Hx).
  digit_step; [done|]. destruct (dropped_bits x dm bm d Hx Hdm H0 Hb) as [-> _].
  assert (u32 (u32 (Z.shiftl 1 bm) - 1) = Z.ones bm) as ->.
  { rewrite Z.shiftl_1_l, Z.ones_equiv. pose proof (BASE_split bm ltac:(lia)).
    pose proof (pow2_pos bm ltac:(lia)). pose proof (pow2_pos (32 - bm) ltac:(lia)).
    assert (2 ^ 1 <= 2 ^ (32 - bm)) by (apply Z.pow_le_mono_r; lia).
    rewrite !u32_small by (unfold is_u32; try rewrite u32_small; unfold is_u32; nia). lia. }
  rewrite Z.land_ones by lia.
  pose proof (evalp_bounds (data x) dm Dx ltac:(unfold GetLength in *; lia)) as Hlow.
  pose proof (pow2_pos bm ltac:(lia)). pose proof (Z.mod_pos_bound d (2 ^ bm) ltac:(lia)).
  pose proof (pw_pos dm).
  eapply returns_bind with (P := fun rd => rd = negb (evalp (data x) dm + pw dm * (d mod 2 ^ bm) =? 0)).
  { destruct (Z.eqb_spec (d mod 2 ^ bm) 0) as [->|Hne]; cbn [negb].
    - eapply returns_mono; [apply anyNonZero_returns; auto; lia|]. cbv beta. intros b ->.
      rewrite Nat.add_0_l, Z.mul_0_r, Z.add_0_r. done.
    - apply returns_ok. symmetry. apply negb_true_iff, Z.eqb_neq. nia. }
  cbv beta. intros rd Hrd. destruct (rd && (bm =? 0)) eqn:E.
  - apply andb_true_iff in E as [-> E]. apply Z.eqb_eq in E. digit_step; [lia|]. apply returns_ok. cbn [fst snd].
    destruct (u32 (Z.lnot d0) =? 0); auto 6 with lia.
  - apply returns_ok. cbn [fst snd]. auto with lia.
Qed.

Lemma overMax_returns x k : wf x -> 0 <= k -> eval (data x) < 2 ^ k ->
  returns (ReturnIfRightShiftOverMax (Sign x)) (fun z => wf z /\ toZ z = Z.shiftr (toZ x) k).
Proof.
  intros Hx Hk Hlt. pose proof (wf_eval_bounds _ Hx). pose proof (wf_sign _ Hx) as Sx.
  rewrite Z.shiftr_div_pow2 by done. unfold ReturnIfRightShiftOverMax.
  destruct (Sign x) eqn:E; symmetry in Sx; [apply Z.ltb_lt in Sx|apply Z.ltb_ge in Sx];
    unfold toZ in *; rewrite E in *.
  - eapply returns_mono; [apply Int32ToBigInt_returns; unfold is_i32; lia|].
    cbv beta. intros z (Hz & Ez & _). unfold toZ in Ez. rewrite Ez. split; [done|].
    apply (Z.div_unique_pos _ _ _ (2 ^ k - eval (data x))); lia.
  - eapply returns_mono; [apply Int32ToBigInt_returns; unfold is_i32; lia|].
    cbv beta. intros z (Hz & Ez & _). unfold toZ in Ez. rewrite Ez, Z.div_small by lia. done.
Qed.

Lemma wf_eval_max x : wf x -> eval (data x) < 2 ^ MAXBITS.
Proof.
  intros Hx. pose proof (wf_eval_bounds _ Hx) as [_ H]. eapply Z.lt_le_trans; [exact H|].
  rewrite pw_bits. apply Z.pow_le_mono_r; [lia|]. pose proof (wf_max _ Hx). rewrite MAXSIZE_eq in *.
  change MAXBITS with 1048576. lia.
Qed.

Lemma shift_amount dm k : 0 <= k -> dm = Z.to_nat (k / 32) -> pw dm * 2 ^ (k mod 32) = 2 ^ k.
Proof.
  intros Hk ->. rewrite pw_bits, <- Z.pow_add_r by (try apply Z.mod_pos_bound; lia).
  rewrite Z2Nat.id by (apply Z.div_pos; lia). f_equal. pose proof (Z.div_mod k 32). lia.
Qed.

(** What remains of a negative magnitude after an arithmetic shift: rounded away from zero. *)
Lemma shiftr_neg m k : 0 <= k -> Z.shiftr (- m) k =
  if negb (m mod 2 ^ k =? 0) then - (m / 2 ^ k + 1) else - (m / 2 ^ k).
Proof.
  intros Hk. rewrite Z.shiftr_div_pow2 by done. pose proof (pow2_pos k Hk).
  destruct (Z.eqb_spec (m mod 2 ^ k) 0); cbn [negb].
  - rewrite Z.div_opp_l_z by lia. lia.
  - rewrite Z.div_opp_l_nz by lia. lia.
Qed.

Lemma shifted_room m k : 0 < k -> m < 2 ^ MAXBITS -> 0 <= m -> m / 2 ^ k + 1 < 2 ^ MAXBITS.
Proof.
  intros Hk Hm H0. assert (2 ^ 1 <= 2 ^ k) by (apply Z.pow_le_mono_r; lia).
  assert (2 ^ 2 <= 2 ^ MAXBITS) by (apply Z.pow_le_mono_r; [lia|change MAXBITS with 1048576; lia]).
  assert (m / 2 ^ k <= m / 2 ^ 1) by (apply Z.div_le_compat_l; lia).
  pose proof (Z.div_mod m (2 ^ 1) ltac:(lia)). pose proof (Z.mod_pos_bound m (2 ^ 1)). lia.
Qed.

Lemma bind_GetDigit_eq {A} x i d (k : Z -> result A) : data x !! i = Some d ->
  (GetDigit x i ≫= k) = k d.
Proof. intros H. unfold GetDigit, get. by rewrite H. Qed.

(** The digits left after the magnitude shift, normalised. *)
Lemma shiftTruncate_returns x dm bm needLen : wf x -> (dm < GetLength x)%nat -> 0 <= bm < 32 ->
  Z.of_nat (GetLength x) - Z.of_nat dm <= needLen <= MAXSIZE ->
  returns (bigint ← CreateBigint needLen; bigint ← RightShift bigint x dm bm; RightTruncate bigint)
    (fun z => wf z /\ toZ z = eval (drop dm (data x)) / 2 ^ bm).
Proof.
  intros Hx Hdm Hb [Hlo Hhi]. apply bind_CreateBigint; [done|]. pose proof (wf_digits _ Hx).
  eapply returns_bind; [apply RightShift_returns; cbn [data]; auto with ark; unfold GetLength in *;
    cbn [data]; rewrite length_replicate; lia|].
  cbv beta. cbn [Sign data]. intros b (Db & Lb & Sb & Fb & Eb).
  assert (GetLength b = Z.to_nat needLen) as Lb' by (rewrite Lb; unfold GetLength; cbn; by rewrite length_replicate).
  eapply returns_mono; [apply RightTruncate_returns; auto; lia|]. cbv beta. intros z [Hz ->].
  split; [done|]. unfold toZ. rewrite Sb, <- Eb.
  rewrite (eval_take_drop _ (GetLength x - dm)) by (unfold GetLength in *; lia).
  replace (drop (GetLength x - dm) (data b)) with (replicate (Z.to_nat needLen - (GetLength x - dm)) 0).
  { rewrite eval_replicate_0. lia. }
  apply list_eq. intros j. rewrite lookup_drop, Fb by lia.
  destruct (decide (j < Z.to_nat needLen - (GetLength x - dm))%nat).
  - rewrite !lookup_replicate_2 by lia. done.
  - rewrite !(proj1 (lookup_replicate_None _ _ _)) by lia. done.
Qed.

Lemma bind_shiftTruncate {A} x dm bm needLen (k : BigInt -> result A) (Q : A -> Prop) :
  wf x -> (dm < GetLength x)%nat -> 0 <= bm < 32 ->
  Z.of_nat (GetLength x) - Z.of_nat dm <= needLen <= MAXSIZE ->
  (forall z, wf z -> toZ z = eval (drop dm (data x)) / 2 ^ bm -> returns (k z) Q) ->
  returns (bigint ← CreateBigint needLen; bigint ← RightShift bigint x dm bm;
           bigint ← RightTruncate bigint; k bigint) Q.
Proof.
  intros Hx Hdm Hb Hn Hk. pose proof (shiftTruncate_returns x dm bm needLen Hx Hdm Hb Hn) as H.
  destruct (CreateBigint needLen) as [b|]; [|done]. cbn in *.
  destruct (RightShift b x dm bm) as [b'|]; [|done]. cbn in *.
  destruct (RightTruncate b') as [z|]; [|done]. cbn in *. destruct H. by apply Hk.
Qed.

Lemma drop_shift_pos x dm d bm : wf x -> (dm < GetLength x)%nat -> data x !! dm = Some d ->
  0 <= bm < 32 -> 0 <= eval (drop dm (data x)) / 2 ^ bm.
Proof.
  intros Hx Hdm Hd Hb. apply Z.div_pos; [|apply pow2_pos; lia].
  apply eval_bounds. apply Forall_drop, wf_digits, Hx.
Qed.

Lemma RightShiftHelper_returns x y : wf x -> wf y ->
  returns (RightShiftHelper x y) (fun z => wf z /\ toZ z = Z.shiftr (toZ x) (Z.abs (toZ y))).
Proof.
  intros Hx Hy. unfold RightShiftHelper, GetSign. rewrite <- (wf_abs y Hy).
  pose proof (wf_pos _ Hy) as Py. pose proof (wf_eval_bounds _ Hy) as By.
  pose proof (wf_eval_bounds _ Hx) as Bx. pose proof (wf_eval_max x Hx) as Mx.
  assert (forall k, MAXBITS <= k -> eval (data x) < 2 ^ k) as Hbig.
  { intros k Hk. eapply Z.lt_le_trans; [exact Mx|]. apply Z.pow_le_mono_r; lia. }
  destruct (Nat.ltb_spec 1 (GetLength y)) as [Ly|Ly].
  { rewrite bind_Ok. apply overMax_returns; [assumption|lia|]. apply Hbig.
    pose proof (wf_eval_lower y Hy Ly) as Hl. pose proof (pw_mono 1 (GetLength y - 1) ltac:(lia)).
    change (pw 1) with 4294967296 in *. change MAXBITS with 1048576. lia. }
  destruct (lookup_lt_is_Some_2 (data y) 0) as [k Hk]; [unfold GetLength in *; lia|].
  assert (eval (data y) = k) as Ek.
  { rewrite <- (evalp_all _ 1), (evalp_S _ _ k Hk) by (unfold GetLength in *; lia).
    rewrite evalp_0, pw_0. lia. }
  rewrite !(bind_GetDigit_eq y 0 k) by done. rewrite bind_Ok, Ek in *.
  destruct (Z.ltb_spec MAXBITS k).
  { apply overMax_returns; [assumption|lia|]. apply Hbig. lia. }
  change DATA_BITS with 32.
  set (dm := Z.to_nat (k / 32)). set (bm := k mod 32).
  assert (0 <= bm < 32) as Hbm by (apply Z.mod_pos_bound; lia).
  assert (pw dm * 2 ^ bm = 2 ^ k) as Hamt by (apply shift_amount; lia || done).
  destruct (Nat.leb_spec (GetLength x) dm) as [Hle|Hdm].
  { apply overMax_returns; [assumption|lia|]. apply pw_mono in Hle. pose proof (pow2_pos bm ltac:(lia)). nia. }
  destruct (lookup_lt_is_Some_2 (data x) dm) as [d Hd]; [unfold GetLength in *; lia|].
  destruct (dropped_bits x dm bm d Hx Hdm Hd Hbm) as [_ Hdiv]. rewrite Hamt in Hdiv.
  pose proof (drop_shift_pos x dm d bm Hx Hdm Hd Hbm) as Hq. pose proof (wf_max _ Hx) as Hm.
  pose proof (wf_sign x Hx) as Sx. destruct (Sign x) eqn:Es.
  2:{ rewrite bind_Ok. apply bind_shiftTruncate; auto; [lia|]. intros z Hz Ez. apply returns_ok.
      split; [done|]. rewrite Z.shiftr_div_pow2, Ez by lia. unfold toZ. rewrite Es. lia. }
  symmetry in Sx. apply Z.ltb_lt in Sx.
  assert (toZ x = - eval (data x)) as Ex by (unfold toZ; by rewrite Es). rewrite Ex in *.
  eapply returns_bind; [by apply JudgeRoundDown_returns|]. cbv beta. rewrite Hamt.
  intros [nl rd] (Hrd & Hnl & Hcase). cbn [fst snd] in *.
  assert (rd = true -> 0 < k) as Hk0.
  { intros ->. destruct (decide (k = 0)) as [->|]; [|lia]. rewrite Z.mod_1_r in Hrd. discriminate Hrd. }
  apply bind_shiftTruncate; auto.
  { split; [done|]. destruct Hcase as [->|(-> & -> & Hb0)]; [lia|]. specialize (Hk0 eq_refl).
    assert (dm <> 0%nat); [|lia]. unfold dm, bm in *. pose proof (Z.div_mod k 32 ltac:(lia)). lia. }
  intros z Hz Ez. rewrite shiftr_neg by lia. rewrite <- Hrd, Hdiv, <- Ez. rewrite <- Ez in Hq.
  assert (eval (data z) = toZ z) as Ez' by (rewrite (wf_abs z Hz); apply Z.abs_eq; lia).
  destruct rd.
  - pose proof (BitwiseAddOne_spec (SetSign z true) (wf_digits _ Hz) (wf_pos _ Hz) (wf_max _ Hz)) as H'.
    change (GetLength (SetSign z true)) with (GetLength z) in H'.
    change (data (SetSign z true)) with (data z) in H'. rewrite Ez' in H'.
    destruct (_ && _) eqn:Elim; [|exact H'].
    exfalso. apply andb_true_iff in Elim as [E1%Z.eqb_eq E2%Z.eqb_eq].
    pose proof (shifted_room (eval (data x)) k (Hk0 eq_refl) Mx ltac:(lia)) as Hroom.
    rewrite Hdiv, <- Ez, E1, pw_bits, E2 in Hroom. by apply Z.lt_irrefl in Hroom.
  - symmetry in Hrd. apply negb_false_iff, Z.eqb_eq in Hrd.
    assert (0 < toZ z).
    { assert (toZ z <> 0); [|lia]. intros E0. pose proof (Z.div_mod (eval (data x)) (2 ^ k)) as Hdm'.
      rewrite Hdiv, <- Ez, E0, Hrd in Hdm'. pose proof (pow2_pos k). lia. }
    apply returns_ok. split; [apply wf_SetSign; [done|lia]|]. rewrite toZ_SetSign by done. lia.
Qed.

(** ** Left shift of the magnitude *)

(** The loop of [LeftShiftHelper] (at offset [dm]) and of [FormatLeftShift] (at 0). *)
Definition shlLoop (x : BigInt) (dm : nat) (s : Z) (b0 : BigInt) : result (BigInt * Z) :=
  for_up (GetLength x) 0 (fun index '(b, carry) =>
    value ← GetDigit x index;
    b ← SetDigit b (dm + index)%nat (Z.lor (u32 (Z.shiftl value s)) carry);
    Ok (b, Z.shiftr value (DATA_BITS - s))) (b0, 0).

Lemma shlLoop_returns x dm s b0 :
  Forall is_u32 (data x) -> Forall is_u32 (data b0) -> 0 < s < 32 ->
  (dm + GetLength x <= GetLength b0)%nat -> evalp (data b0) dm = 0 ->
  returns (shlLoop x dm s b0) (fun r =>
    Forall is_u32 (data r.1) /\ GetLength r.1 = GetLength b0 /\ Sign r.1 = Sign b0 /\
    0 <= r.2 < 2 ^ s /\
    evalp (data r.1) (dm + GetLength x) + pw (dm + GetLength x) * r.2
      = eval (data x) * 2 ^ s * pw dm /\
    forall j, (dm + GetLength x <= j)%nat -> data r.1 !! j = data b0 !! j).
Proof.
  intros Dx D0 Hs HL E0. unfold shlLoop. rewrite <- (evalp_all (data x) (0 + GetLength x)) by done.
  apply (for_up_returns (fun i (r : BigInt * Z) =>
    Forall is_u32 (data r.1) /\ GetLength r.1 = GetLength b0 /\ Sign r.1 = Sign b0 /\
    0 <= r.2 < 2 ^ s /\
    evalp (data r.1) (dm + i) + pw (dm + i) * r.2 = evalp (data x) i * 2 ^ s * pw dm /\
    forall j, (dm + i <= j)%nat -> data r.1 !! j = data b0 !! j)).
  - cbn [fst snd]. rewrite Nat.add_0_r, evalp_0, E0. pose proof (pow2_pos s ltac:(lia)).
    split_and!; auto; lia.
  - intros i [b c] Hi (Db & Lb & Sb & Hc & Eb & Fb). cbn [fst snd] in *. digit_step; [lia|].
    destruct (shl_digit d c s Hs) as (Hd & Hout & E); [eauto with ark|done|].
    change DATA_BITS with 32. digit_step; [lia|]. apply returns_ok. cbn [fst snd data Sign].
    rewrite <- plus_n_Sm. split_and!; auto with ark; try apply Hout.
    + unfold GetLength. cbn [data]. by rewrite length_insert.
    + rewrite evalp_insert_S by (unfold GetLength in *; lia).
      rewrite (evalp_S (data x) i d), pw_S by done.
      replace (pw (dm + i)) with (pw dm * pw i) in * by (by rewrite pw_add). nia.
    + intros j Hj. rewrite list_lookup_insert_ne by lia. apply Fb. lia.
Qed.

(** The same followed by the store of the last carry, when there is one. *)
Definition shlWhole (x : BigInt) (dm : nat) (s : Z) (b0 : BigInt) : result BigInt :=
  '(b, carry) ← shlLoop x dm s b0;
  if negb (carry =? 0) then SetDigit b (dm + GetLength x)%nat carry else Ok b.

Lemma shlWhole_returns x dm s n sg :
  Forall is_u32 (data x) -> 0 < s < 32 -> (dm + GetLength x <= n)%nat ->
  ((dm + GetLength x < n)%nat \/ eval (data x) * 2 ^ s < pw (GetLength x)) ->
  returns (shlWhole x dm s (mkBigInt sg (replicate n 0))) (fun b =>
    Forall is_u32 (data b) /\ GetLength b = n /\ Sign b = sg /\
    eval (data b) = eval (data x) * 2 ^ s * pw dm).
Proof.
  intros Dx Hs HL Hroom. unfold shlWhole.
  eapply returns_bind; [apply shlLoop_returns; cbn [data]; auto with ark|].
  { unfold GetLength in *. cbn [data]. rewrite length_replicate. lia. }
  { unfold evalp. rewrite take_replicate. apply eval_replicate_0. }
  cbv beta. intros [b c] (Db & Lb & Sb & Hc & Eb & Fb). cbn [fst snd data Sign] in *.
  assert (GetLength b = n) as Ln by (rewrite Lb; unfold GetLength; cbn; by rewrite length_replicate).
  assert (is_u32 c) as Rc by (unfold is_u32; rewrite (BASE_split s) by lia;
    pose proof (pow2_pos (32 - s) ltac:(lia)); nia).
  assert (forall k, drop (dm + GetLength x) (data b) = replicate k 0 ->
    eval (data b) = evalp (data b) (dm + GetLength x)) as Htop.
  { intros k Hk. rewrite (eval_take_drop _ (dm + GetLength x)) by (unfold GetLength in *; lia).
    rewrite Hk, eval_replicate_0. lia. }
  assert (drop (dm + GetLength x) (data b) = replicate (n - (dm + GetLength x)) 0) as Hrep.
  { apply list_eq. intros j. rewrite lookup_drop, Fb by lia.
    destruct (decide (j < n - (dm + GetLength x))%nat).
    - rewrite !lookup_replicate_2 by lia. done.
    - rewrite !(proj1 (lookup_replicate_None _ _ _)) by lia. done. }
  specialize (Htop _ Hrep). destruct (Z.eqb_spec c 0) as [->|Hc0]; cbn [negb].
  { apply returns_ok. split_and!; auto. lia. }
  assert (dm + GetLength x < n)%nat as Hlt.
  { destruct Hroom as [|Hroom]; [done|].
    pose proof (evalp_bounds (data b) (dm + GetLength x) Db ltac:(unfold GetLength in *; lia)).
    rewrite pw_add in *. pose proof (pw_pos dm). nia. }
  unfold SetDigit. digit_step; [unfold GetLength in *; lia|]. apply returns_ok.
  unfold GetLength in *. cbn [data Sign]. rewrite length_insert. split_and!; auto with ark.
  erewrite eval_insert; [rewrite Htop, <- Eb; instantiate (1 := 0); lia|].
  rewrite Fb by lia. apply lookup_replicate_2. lia.
Qed.

Lemma std_copy_returns src n dst (Q : list Z -> Prop) :
  (n <= length src)%nat -> (n <= length dst)%nat -> Q (take n src ++ drop n dst) ->
  returns (std_copy src n dst) Q.
Proof. intros. unfold std_copy. by rewrite decide_True. Qed.

Lemma FormatLeftShift_returns s x (one : bool) :
  Forall is_u32 (data x) -> (1 <= GetLength x)%nat -> 0 <= s < 32 ->
  Z.of_nat (GetLength x) + (if one then 1 else 0) <= MAXSIZE ->
  (one = true \/ eval (data x) * 2 ^ s < pw (GetLength x)) ->
  returns (FormatLeftShift s x one) (fun b => Forall is_u32 (data b) /\
    GetLength b = (GetLength x + if one then 1 else 0)%nat /\ eval (data b) = eval (data x) * 2 ^ s).
Proof.
  intros Dx Lx Hs Hmax Hroom. unfold FormatLeftShift.
  destruct (negb one && (s =? 0)) eqn:E0.
  { apply andb_true_iff in E0 as [->%negb_true_iff ->%Z.eqb_eq]. apply returns_ok.
    rewrite Nat.add_0_r, Z.mul_1_r. done. }
  replace (if one then Z.of_nat (GetLength x) + 1 else Z.of_nat (GetLength x))
    with (Z.of_nat (GetLength x + if one then 1 else 0)) by (destruct one; lia).
  apply bind_CreateBigint; [destruct one; lia|]. rewrite Nat2Z.id.
  set (n := (GetLength x + if one then 1 else 0)%nat).
  assert (GetLength x <= n)%nat as Hn by (unfold n; destruct one; lia).
  destruct (Z.eqb_spec s 0) as [->|Hs0].
  - eapply returns_bind; [apply (std_copy_returns _ _ _ (eq (data x ++ replicate (n - GetLength x) 0)));
      cbn [data]; rewrite ?length_replicate; auto|].
    + by rewrite take_ge, drop_replicate by done.
    + intros ? <-. apply returns_ok. unfold GetLength in *. cbn [data]. split_and!.
      * apply Forall_app; auto with ark.
      * rewrite length_app, length_replicate. lia.
      * rewrite eval_app, eval_replicate_0. lia.
  - change (returns (shlWhole x 0 s (mkBigInt false (replicate n 0))) (fun b => Forall is_u32 (data b) /\
      GetLength b = n /\ eval (data b) = eval (data x) * 2 ^ s)).
    eapply returns_mono; [apply shlWhole_returns; auto; try lia|].
    + unfold n. destruct Hroom as [->|]; [left; lia|by right].
    + cbv beta. rewrite pw_0. intros b (? & ? & _ & ->). rewrite Z.mul_1_r. done.
Qed.

(** The length [LeftShiftHelper] allocates for a shift by [k]. *)
Definition shiftLength (x : BigInt) (k : Z) : Z :=
  k / DATA_BITS + Z.of_nat (GetLength x) + (if k mod DATA_BITS =? 0 then 0 else 1).

Lemma copyLoop_returns x dm n :
  Forall is_u32 (data x) -> n = (dm + GetLength x)%nat ->
  returns (for_up (n - dm) dm (fun index b =>
    d ← GetDigit x (index - dm); SetDigit b index d) (mkBigInt false (replicate n 0)))
    (fun b => Forall is_u32 (data b) /\ GetLength b = n /\ eval (data b) = eval (data x) * pw dm).
Proof.
  intros Dx ->. eapply returns_mono.
  - apply (for_up_returns (fun i b => Forall is_u32 (data b) /\ GetLength b = (dm + GetLength x)%nat /\
      evalp (data b) i = evalp (data x) (i - dm) * pw dm)).
    + cbn [data]. rewrite Nat.sub_diag, evalp_0. split_and!; auto with ark.
      * unfold GetLength. cbn [data]. by rewrite length_replicate.
      * unfold evalp. rewrite take_replicate. apply eval_replicate_0.
    + intros i b Hi (Db & Lb & Eb). digit_step; [lia|]. unfold SetDigit.
      digit_step; [unfold GetLength in *; lia|]. apply returns_ok. unfold GetLength in *. cbn [data].
      rewrite length_insert. split_and!; eauto with ark.
      rewrite evalp_insert_S, Eb by lia. replace (S i - dm)%nat with (S (i - dm)) by lia.
      rewrite (evalp_S (data x) _ d) by done. replace i with (dm + (i - dm))%nat at 2 by lia.
      rewrite pw_add. lia.
  - cbv beta. replace (dm + (dm + GetLength x - dm))%nat with (dm + GetLength x)%nat by lia.
    intros b (Db & Lb & Eb). rewrite !evalp_all in Eb by (unfold GetLength in *; lia). done.
Qed.

Lemma LeftShiftHelper_spec x y k : wf x -> data y !! 0%nat = Some k -> is_u32 k -> toZ x <> 0 ->
  if MAXSIZE <? shiftLength x k then LeftShiftHelper x y = Err SizeExceeded
  else returns (LeftShiftHelper x y) (fun z => wf z /\ toZ z = Z.shiftl (toZ x) k).
Proof.
  intros Hx Hy Hk Hnz. unfold LeftShiftHelper. fold (shiftLength x k).
  rewrite IsZero_eq, bool_decide_eq_false_2 by done. rewrite bind_Ok, (bind_GetDigit_eq y 0 k) by done. cbv zeta. fold (shiftLength x k).
  destruct (Z.ltb_spec MAXSIZE (shiftLength x k)); [by rewrite CreateBigint_error|].
  apply bind_CreateBigint; [done|]. unfold is_u32 in Hk.
  set (dm := Z.to_nat (k / DATA_BITS)). set (bm := k mod DATA_BITS).
  pose proof (wf_digits _ Hx) as Dx. pose proof (wf_pos _ Hx) as Px.
  assert (0 <= bm < 32) as Hbm by (apply Z.mod_pos_bound; done).
  assert (pw dm * 2 ^ bm = 2 ^ k) as Hamt by (apply shift_amount; lia || done).
  assert (0 <= k / DATA_BITS) as Hd0 by (apply Z.div_pos; [lia|done]).
  assert (Z.to_nat (shiftLength x k) = (dm + GetLength x + if (bm =? 0)%Z then 0 else 1)%nat) as Hlen.
  { unfold shiftLength. fold bm. unfold dm. destruct (bm =? 0); lia. }
  eapply returns_bind with (P := fun b => Forall is_u32 (data b) /\
    GetLength b = Z.to_nat (shiftLength x k) /\ eval (data b) = eval (data x) * 2 ^ k).
  - rewrite Hlen. destruct (Z.eqb_spec bm 0) as [Hb0|Hb0].
    + eapply returns_mono; [apply copyLoop_returns; [done|lia]|]. cbv beta.
      intros b (? & ? & E). rewrite <- Hamt, Hb0. split_and!; auto. lia.
    + change (returns (shlWhole x dm bm (mkBigInt false (replicate (dm + GetLength x + 1) 0)))
        (fun b => Forall is_u32 (data b) /\ GetLength b = (dm + GetLength x + 1)%nat /\
           eval (data b) = eval (data x) * 2 ^ k)).
      eapply returns_mono; [apply shlWhole_returns; auto; lia|]. cbv beta.
      intros b (? & ? & _ & E). rewrite <- Hamt. split_and!; auto. lia.
  - cbv beta. intros b (Db & Lb & Eb).
    eapply returns_mono; [apply RightTruncate_returns|]; cbn [data SetSign]; auto;
      unfold GetLength in *; cbn [data SetSign]; [destruct (bm =? 0); lia..|].
    cbv beta. intros z [Hz ->]. split; [done|]. rewrite Z.shiftl_mul_pow2 by lia.
    unfold toZ, GetSign. cbn [Sign data SetSign]. rewrite Eb. destruct (Sign x); lia.
Qed.

Lemma LeftShiftHelper_zero x y : wf x -> toZ x = 0 -> LeftShiftHelper x y = Ok x.
Proof.
  intros Hx H0. unfold LeftShiftHelper. rewrite IsZero_eq, bool_decide_eq_true_2 by done. done.
Qed.

(** A shift count that fits one digit is read completely. *)
Lemma one_digit_count y : wf y -> GetLength y = 1%nat ->
  data y !! 0%nat = Some (Z.abs (toZ y)) /\ is_u32 (Z.abs (toZ y)).
Proof.
  intros Hy Ly. rewrite <- wf_abs by done. pose proof (wf_digits _ Hy) as Dy. unfold GetLength in Ly.
  destruct (data y) as [|d [|]]; try discriminate. cbn [eval].
  rewrite Z.mul_0_r, Z.add_0_r. split; [done|]. by apply Forall_cons_1 in Dy as [Hd _].
Qed.

Lemma LeftShiftHelper_one x y : wf x -> wf y -> GetLength y = 1%nat ->
  if bool_decide (toZ x <> 0) && (MAXSIZE <? shiftLength x (Z.abs (toZ y)))
  then LeftShiftHelper x y = Err SizeExceeded
  else returns (LeftShiftHelper x y) (fun z => wf z /\ toZ z = Z.shiftl (toZ x) (Z.abs (toZ y))).
Proof.
  intros Hx Hy Ly. destruct (one_digit_count y Hy Ly) as [Hd Hr].
  destruct (decide (toZ x = 0)) as [H0|H0].
  - rewrite bool_decide_eq_false_2 by (by intros ?). cbn [andb].
    rewrite LeftShiftHelper_zero, H0, Z.shiftl_0_l by done. done.
  - rewrite bool_decide_eq_true_2 by done. cbn [andb]. by apply LeftShiftHelper_spec.
Qed.

(** ** Theorems *)

(** [LeftShift] by a count of one digit multiplies by the power of two, or for a negative
    count divides rounding down; it throws the size RangeError exactly when a non-zero value
    is shifted left beyond the limit. *)
Theorem LeftShift_correct x y (Hx : wf x) (Hy : wf y) (Ly : GetLength y = 1%nat) :
  if negb (Sign y) && (bool_decide (toZ x <> 0) && (MAXSIZE <? shiftLength x (toZ y)))
  then LeftShift x y = Err SizeExceeded
  else exists z, LeftShift x y = Ok z /\ wf z /\ toZ z = Z.shiftl (toZ x) (toZ y).
Proof.
  unfold LeftShift, GetSign. pose proof (wf_sign y Hy) as Sy.
  destruct (Sign y); cbn [negb andb]; symmetry in Sy;
    [apply Z.ltb_lt in Sy|apply Z.ltb_ge in Sy].
  - apply returns_iff. eapply returns_mono; [by apply RightShiftHelper_returns|]. cbv beta.
    intros z [Hz ->]. split; [done|]. rewrite Z.abs_neq by lia. by rewrite Z.shiftr_opp_r.
  - pose proof (LeftShiftHelper_one x y Hx Hy Ly) as H. rewrite Z.abs_eq in H by lia.
    destruct (_ && _); [done|]. by apply returns_iff.
Qed.

Lemma LeftShift_correct_witness :
  exists z, LeftShift (mkBigInt true [4294967295]) (mkBigInt false [33]) = Ok z /\ wf z /\
    toZ z = Z.shiftl (-4294967295) 33.
Proof.
  refine (LeftShift_correct (mkBigInt true [4294967295]) (mkBigInt false [33]) _ _ _);
    by try apply wfb_wf.
Defined.

(** [SignedRightShift] is the arithmetic shift [floor (x / 2^y)] for every non-negative
    count, of any length; a negative count of one digit shifts left, with the size RangeError
    exactly when the shifted value is beyond the limit. *)
Theorem SignedRightShift_correct x y (Hx : wf x) (Hy : wf y)
    (Ly : 0 <= toZ y \/ GetLength y = 1%nat) :
  if Sign y && (bool_decide (toZ x <> 0) && (MAXSIZE <? shiftLength x (- toZ y)))
  then SignedRightShift x y = Err SizeExceeded
  else exists z, SignedRightShift x y = Ok z /\ wf z /\ toZ z = Z.shiftr (toZ x) (toZ y).
Proof.
  unfold SignedRightShift, GetSign. pose proof (wf_sign y Hy) as Sy.
  rewrite !IsZero_eq, !bind_Ok by done. destruct (bool_decide_reflect (toZ x = 0)) as [H0|H0].
  { rewrite bind_Ok, bool_decide_eq_false_2, andb_false_r by (by intros ?).
    exists x. rewrite H0, Z.shiftr_0_l. done. }
  rewrite bind_Ok. destruct (bool_decide_reflect (toZ y = 0)) as [Hy0|Hy0].
  { rewrite Sy, Hy0. cbn [Z.ltb Z.compare andb]. exists x. done. }
  rewrite bool_decide_eq_true_2 by done. cbn [andb].
  destruct (Sign y); cbn [andb]; symmetry in Sy; [apply Z.ltb_lt in Sy|apply Z.ltb_ge in Sy].
  - destruct Ly as [|Ly]; [lia|]. pose proof (LeftShiftHelper_one x y Hx Hy Ly) as H.
    rewrite bool_decide_eq_true_2, Z.abs_neq in H by (done || lia). cbn [andb] in H.
    destruct (_ <? _); [done|]. apply returns_iff. eapply returns_mono; [exact H|]. cbv beta.
    intros z [Hz ->]. by rewrite Z.shiftl_opp_r.
  - apply returns_iff. eapply returns_mono; [by apply RightShiftHelper_returns|]. cbv beta.
    intros z [Hz ->]. by rewrite Z.abs_eq by lia.
Qed.

Lemma SignedRightShift_correct_witness :
  exists z, SignedRightShift (mkBigInt true [1; 1]) (mkBigInt false [1]) = Ok z /\ wf z /\
    toZ z = Z.shiftr (-4294967297) 1.
Proof.
  refine (SignedRightShift_correct (mkBigInt true [1; 1]) (mkBigInt false [1]) _ _ _);
    [by apply wfb_wf..|by left].
Defined.

(** A left shift looks at the lowest digit of the count only, so a count of 2^32 or more is
    silently reduced modulo 2^32: [1n << 4294967296n] is [1n] and no RangeError is thrown. *)
Theorem LeftShift_count_truncated x y d rest
    (Hx : wf x) (Hy : data y = d :: rest) (Sy : Sign y = false) :
  LeftShift x y = LeftShift x (mkBigInt false [d]).
Proof.
  unfold LeftShift, GetSign. rewrite Sy. cbn [Sign]. unfold LeftShiftHelper, GetDigit. rewrite Hy. done.
Qed.

Lemma LeftShift_count_truncated_witness :
  LeftShift (mkBigInt false [1]) (mkBigInt false [0; 1]) = Ok (mkBigInt false [1]).
Proof.
  rewrite (LeftShift_count_truncated _ (mkBigInt false [0; 1]) 0 [1]); [done|by apply wfb_wf|done|done].
Defined.
