(* ===== verification/BigIntDiv.v ===== *)
(** * BigInt: division

    [DivideAndRemainder] (64 by 32 bit division on 16 bit halves), the long division
    [DivideAndRemainderWithBigintDivisor] (algorithm D) with its helpers, the short
    division [DivideAndRemainderWithUint32Divisor], and [Divide], [Remainder],
    [FloorMod] of src/ecmascript/js_bigint.cpp. *)

From Stdlib Require Import ZArith Lia.
From S2P Require Import Prelude BigIntBase BigIntAdd BigIntMul BigIntShift.

(** ** Model *)

(** [base::CountLeadingZeros] on [uint32_t] *)
Definition CountLeadingZeros (value : Z) : Z :=
  if value =? 0 then 32 else 31 - Z.log2 value.

(** The correction loop of one half quotient: the state is the quotient and the
    remainder, the loop also stops when the remainder leaves 16 bits. *)
Fixpoint refineQuotient (fuel : nat) (highDivisor lowDivisor lowDividend quotient remainder : Z)
  : result (Z * Z) :=
  if (HALF_UINT32_VALUE <=? quotient) ||
     (u32 (remainder * HALF_UINT32_VALUE + lowDividend) <? u32 (quotient * lowDivisor))
  then
    match fuel with
    | O => Err OutOfFuel
    | S fuel' =>
      let quotient := u32 (quotient - 1) in
      let remainder := u32 (remainder + highDivisor) in
      if HALF_UINT32_VALUE <=? remainder then Ok (quotient, remainder)
      else refineQuotient fuel' highDivisor lowDivisor lowDividend quotient remainder
    end
  else Ok (quotient, remainder).

(** The remainder grows by at least 2^15 per round, so two rounds leave 16 bits. *)
Definition refineFuel : nat := 2.

(** Quotient and remainder of [highBit : lowBit] by [divisor]. *)
Definition DivideAndRemainder (highBit lowBit divisor : Z) : result (Z * Z) :=
  let leadingZeros := CountLeadingZeros divisor in
  let divisor := u32 (Z.shiftl divisor leadingZeros) in
  let lowDividend := u32 (Z.shiftl lowBit leadingZeros) in
  let highDividend :=
    if leadingZeros =? 0 then highBit
    else Z.lor (u32 (Z.shiftl highBit leadingZeros)) (Z.shiftr lowBit (DATA_BITS - leadingZeros)) in
  let highDivisor := Z.shiftr divisor HALF_DATA_BITS in
  let lowDivisor := Z.land divisor HALF_DATA_MASK in
  let lowDividend1 := Z.shiftr lowDividend HALF_DATA_BITS in
  let lowDividend2 := Z.land lowDividend HALF_DATA_MASK in
  let highQuotient := highDividend / highDivisor in
  let tempRemainder := u32 (highDividend - highQuotient * highDivisor) in
  '(highQuotient, _) ←
    refineQuotient refineFuel highDivisor lowDivisor lowDividend1 highQuotient tempRemainder;
  let tempLowDividend :=
    u32 (highDividend * HALF_UINT32_VALUE + lowDividend1 - highQuotient * divisor) in
  let lowQuotient := tempLowDividend / highDivisor in
  let tempRemainder := u32 (tempLowDividend - lowQuotient * highDivisor) in
  '(lowQuotient, _) ←
    refineQuotient refineFuel highDivisor lowDivisor lowDividend2 lowQuotient tempRemainder;
  let remainder :=
    Z.shiftr (u32 (tempLowDividend * HALF_UINT32_VALUE + lowDividend2 - lowQuotient * divisor))
      leadingZeros in
  Ok (u32 (highQuotient * HALF_UINT32_VALUE + lowQuotient), remainder).

(** Returns whether a borrow is left over, and the updated [u] and [qv]. *)
Definition SpecialMultiplyAndSub (u v : BigInt) (q : Z) (qv : BigInt) (pos : nat)
  : result (bool * BigInt * BigInt) :=
  let len := GetLength v in
  '(qv, lastCarry, lastHigh) ← for_up len 0 (fun i '(qv, lastCarry, lastHigh) =>
    value ← GetDigit v i;
    let '(high, value) := Mul value q in
    let '(value, carry) := AddHelper value lastHigh 0 in
    let '(value, carry) := AddHelper value lastCarry carry in
    qv ← SetDigit qv i value;
    Ok (qv, carry, high)) (qv, 0, 0);
  qv ← SetDigit qv len (u32 (lastHigh + lastCarry));
  '(u, lastBorrow) ← for_up (GetLength qv) 0 (fun i '(u, lastBorrow) =>
    du ← GetDigit u (pos + i); dq ← GetDigit qv i;
    let '(value, borrow) := SubHelper du dq 0 in
    let '(value, borrow) := SubHelper value lastBorrow borrow in
    u ← SetDigit u (pos + i) value;
    Ok (u, borrow)) (u, 0);
  Ok (0 <? lastBorrow, u, qv).

(** Returns the carry and the updated [u]. *)
Definition SpecialAdd (u v : BigInt) (pos : nat) : result (Z * BigInt) :=
  '(u, lastCarry) ← for_up (GetLength v) 0 (fun i '(u, lastCarry) =>
    du ← GetDigit u (pos + i); dv ← GetDigit v i;
    let '(value, carry) := AddHelper du dv 0 in
    let '(value, carry) := AddHelper value lastCarry carry in
    u ← SetDigit u (pos + i) value;
    Ok (u, carry)) (u, 0);
  Ok (lastCarry, u).

(** The loop of [ImproveAccuracy]; [UHighest] is the running remainder. *)
Fixpoint improveLoop (fuel : nat) (vHighest vHighestNext UHighest UHighestNext q : Z) : result Z :=
  let '(high, low) := Mul q vHighestNext in
  if (UHighest <? high) || ((high =? UHighest) && (UHighestNext <? low)) then
    match fuel with
    | O => Err OutOfFuel
    | S fuel' =>
      let q := u32 (q - 1) in
      let UHighest := u32 (UHighest + vHighest) in
      if UHighest <? vHighest then Ok q
      else improveLoop fuel' vHighest vHighestNext UHighest UHighestNext q
    end
  else Ok q.

Definition ImproveAccuracy (vHighest vHighestNext UHighest UHighestNext q : Z) : result Z :=
  improveLoop 2 vHighest vHighestNext UHighest UHighestNext q.

(** The content of a [JSMutableHandle<BigInt>]. *)
Inductive Slot := SlotNull | SlotUndefined | SlotBigInt (b : BigInt).

Definition IsNull (s : Slot) : bool := match s with SlotNull => true | _ => false end.

(** One round of the main loop; the state is [(u, qv, quotient)]. *)
Definition divideRound (v : BigInt) (divisorLen : nat) (remainder : Slot) (i : nat)
    (s : BigInt * BigInt * Slot) : result (BigInt * BigInt * Slot) :=
  let '(u, qv, quotient) := s in
  vHighest ← GetDigit v (divisorLen - 1);
  currentUHighest ← GetDigit u (i + divisorLen);
  uNext ← GetDigit u (i + divisorLen - 1);
  '(q, r) ← DivideAndRemainder currentUHighest uNext vHighest;
  q ← (if vHighest =? currentUHighest then Ok (BASE - 1)
       else
         vHighestNext ← GetDigit v (divisorLen - 2);
         currentUHighestNext ← GetDigit u (i + divisorLen - 2);
         ImproveAccuracy vHighest vHighestNext r currentUHighestNext q);
  '(borrow, u, qv) ← SpecialMultiplyAndSub u v q qv i;
  '(u, q) ← (if borrow : bool then
               '(carry, u) ← SpecialAdd u v i;
               d ← GetDigit u (i + divisorLen);
               u ← SetDigit u (i + divisorLen) (u32 (d + carry));
               Ok (u, u32 (q - 1))
             else Ok (u, q));
  quotient ← (match quotient with
              | SlotBigInt b => if IsNull remainder then b ← SetDigit b i q; Ok (SlotBigInt b)
                                else Ok quotient
              | _ => Ok quotient
              end);
  Ok (u, qv, quotient).

(** Returns the quotient handle and the updated remainder handle. *)
Definition DivideAndRemainderWithBigintDivisor (dividend divisor : BigInt) (remainder : Slot)
  : result (Slot * Slot) :=
  let divisorLen := GetLength divisor in
  let quotientLen := (GetLength dividend - divisorLen)%nat in
  quotient ← (if IsNull remainder
              then b ← CreateBigint (Z.of_nat quotientLen + 1); Ok (SlotBigInt b)
              else Ok SlotNull);
  dTop ← GetDigit divisor (divisorLen - 1);
  let leadingZeros := CountLeadingZeros dTop in
  v ← FormatLeftShift leadingZeros divisor false;
  u ← FormatLeftShift leadingZeros dividend true;
  qv ← CreateBigint (Z.of_nat divisorLen + 1);
  '(u, _, quotient) ← for_down (quotientLen + 1) (divideRound v divisorLen remainder) (u, qv, quotient);
  remainder ← (if negb (IsNull remainder)
               then u ← UnformattedRightShift u leadingZeros; Ok (SlotBigInt u)
               else Ok remainder);
  Ok (quotient, remainder).

Definition DivideAndRemainderWithUint32Divisor (dividend : BigInt) (divisor : Z) (remainder : Slot)
  : result (Slot * Slot) :=
  if negb (IsNull remainder) then
    '(_, remainder) ← for_down (GetLength dividend) (fun i '(r, _) =>
      d ← GetDigit dividend i;
      '(_, r) ← DivideAndRemainder r d divisor;
      b ← Uint32ToBigInt r;
      Ok (r, SlotBigInt b)) (0, remainder);
    Ok (SlotNull, remainder)
  else
    quotient ← CreateBigint (Z.of_nat (GetLength dividend));
    '(_, quotient) ← for_down (GetLength dividend) (fun i '(r, quotient) =>
      d ← GetDigit dividend i;
      '(q, r) ← DivideAndRemainder r d divisor;
      quotient ← SetDigit quotient i q;
      Ok (r, quotient)) (0, quotient);
    Ok (SlotBigInt quotient, remainder).

Definition DivisionByZero : error := RangeError "Division by zero".

(** [handle->...] on a handle that holds no BigInt: no caller reaches it. *)
Definition slotBigInt (s : Slot) : result BigInt :=
  match s with SlotBigInt b => Ok b | _ => Err OutOfBounds end.

Definition Divide (x y : BigInt) : result BigInt :=
  yZero ← IsZero y;
  if yZero : bool then Err DivisionByZero else
  let sign := negb (Bool.eqb (GetSign x) (GetSign y)) in
  compare ← AbsolutelyCompare x y;
  if bool_decide (compare = LESS) then Int32ToBigInt 0 else
  if bool_decide (compare = EQUAL) then q ← Int32ToBigInt 1; Ok (SetSign q sign) else
  yOne ← (if IsUint32 y then d ← GetDigit y 0; Ok (d =? 1) else Ok false);
  if yOne : bool then (if Bool.eqb sign (GetSign x) then Ok x else UnaryMinus x) else
  '(quotient, _) ←
    (if IsUint32 y then d ← GetDigit y 0; DivideAndRemainderWithUint32Divisor x d SlotNull
     else DivideAndRemainderWithBigintDivisor x y SlotNull);
  q ← slotBigInt quotient;
  RightTruncate (SetSign q sign).

Definition Remainder (n d : BigInt) : result BigInt :=
  dZero ← IsZero d;
  if dZero : bool then Err DivisionByZero else
  compare ← AbsolutelyCompare n d;
  nZero ← IsZero n;
  if nZero || bool_decide (compare = LESS) then Ok n else
  dOne ← (if IsUint32 d then v ← GetDigit d 0; Ok (v =? 1) else Ok false);
  if bool_decide (compare = EQUAL) || dOne then Int32ToBigInt 0 else
  '(_, remainder) ←
    (if IsUint32 d then v ← GetDigit d 0; DivideAndRemainderWithUint32Divisor n v SlotUndefined
     else DivideAndRemainderWithBigintDivisor n d SlotUndefined);
  r ← slotBigInt remainder;
  RightTruncate (SetSign r (GetSign n)).

Definition FloorMod (leftVal rightVal : BigInt) : result BigInt :=
  remainder ← Remainder leftVal rightVal;
  z ← IsZero remainder;
  if GetSign leftVal && negb z then Add remainder rightVal else Ok remainder.

(** ** One digit divided into two *)

Lemma HALF_eq : HALF_UINT32_VALUE = HALF.
Proof. reflexivity. Qed.

Section Estimate.
  (** In radix [b]: [D : L] is the normalised divisor, [H : N] the dividend with its two
      leading digits in [H], and [q], [r] the running estimate, [q * D + r = H]. *)
  Context (b D L N H : Z).
  Context (Hb : 0 < b) (HD : 0 < D) (HL : 0 <= L < b) (HN : 0 <= N < b) (HH : 0 <= H).

Lemma estimate_too_big q r : q * D + r = H -> 0 <= r -> 0 <= q -> H < D * b + L ->
  b <= q \/ r * b + N < q * L -> (H * b + N) / (D * b + L) <= q - 1 /\ 1 <= q.
Proof.
  intros E Hr Hq Hlt Hc. assert (H * b + N < q * (D * b + L)) as Hlt'.
  { destruct Hc as [Hc|Hc]; [|nia].
    assert (b * (D * b + L) <= q * (D * b + L)) by (apply Z.mul_le_mono_nonneg_r; nia). nia. }
  split; [|nia].
  enough ((H * b + N) / (D * b + L) < q) by lia. apply Z.div_lt_upper_bound; nia.
Qed.

Lemma estimate_exact q r : q * D + r = H -> (H * b + N) / (D * b + L) <= q ->
  q * L <= r * b + N -> q = (H * b + N) / (D * b + L).
Proof.
  intros E Hle Hc. apply Z.le_antisymm; [|done]. apply Z.div_le_lower_bound; nia.
Qed.

(** Once the remainder has reached the radix the estimate needs no further test. *)
Lemma estimate_stop q r : q * D + r = H -> 0 <= q -> H < D * b + L -> b <= r ->
  q < b /\ q * L <= r * b + N.
Proof.
  intros E Hq Hlt Hr. assert (q < b) by nia. split; [done|].
  assert (q * L <= b * b) by nia. nia.
Qed.
End Estimate.

Section Refine.
  Context (D L N H : Z).
  Context (HD : HALF <= 2 * D) (HD' : D < HALF) (HL : 0 <= L < HALF) (HN : 0 <= N < HALF).
  Context (Hlt : 0 <= H < D * HALF + L).

Let quot := (H * HALF + N) / (D * HALF + L).

Lemma HALF_pos : 0 < HALF.
Proof. reflexivity. Qed.

Lemma refineQuotient_returns fuel q r :
  q * D + r = H -> 0 <= r < HALF -> 0 <= q < BASE -> quot <= q ->
  (2 <= fuel + (if (D <=? r)%Z then 1 else 0))%nat ->
  returns (refineQuotient fuel D L N q r) (fun s => s.1 = quot).
Proof.
  revert q r. induction fuel as [|fuel IH]; intros q r E Hr Hq Hle Hf;
    cbn [refineQuotient]; rewrite HALF_eq.
  { destruct (Z.leb_spec D r); lia. }
  rewrite (u32_small (r * HALF + N)) by (unfold is_u32; rewrite BASE_half; unfold HALF in *; nia).
  destruct ((HALF <=? q) || (r * HALF + N <? u32 (q * L))) eqn:Ec.
  - assert (HALF <= q \/ r * HALF + N < q * L) as Hc.
    { destruct (Z.leb_spec HALF q); [by left|]. right. cbn [orb] in Ec. apply Z.ltb_lt in Ec.
      rewrite u32_small in Ec; [done|]. apply half_product; lia. }
    destruct (estimate_too_big HALF D L N H HALF_pos ltac:(unfold HALF in *; lia) HL HN
      ltac:(lia) q r E ltac:(lia) ltac:(lia) ltac:(lia) Hc) as [Hq1 Hq0].
    rewrite (u32_small (q - 1)) by (unfold is_u32; lia).
    rewrite (u32_small (r + D)) by (unfold is_u32; rewrite BASE_half; unfold HALF in *; lia).
    destruct (Z.leb_spec HALF (r + D)) as [Hbr|Hbr].
    + apply returns_ok. cbn [fst]. unfold quot.
      destruct (estimate_stop HALF D L N H HALF_pos ltac:(unfold HALF in *; lia) HL HN
        ltac:(lia) (q - 1) (r + D)) as [_ Hs]; [lia..|].
      eapply estimate_exact with (r := r + D); eauto using HALF_pos; unfold HALF in *; lia.
    + apply IH; [lia|lia|lia|lia|]. destruct (Z.leb_spec D r), (Z.leb_spec D (r + D)); lia.
  - apply orb_false_iff in Ec as [Eq%Z.leb_gt Eu%Z.ltb_ge].
    apply returns_ok. cbn [fst].
    rewrite u32_small in Eu by (apply half_product; lia).
    eapply estimate_exact with (r := r); eauto using HALF_pos; unfold HALF in *; lia.
Qed.

(** Without the bound on the dividend the loop still stops. *)
Lemma refineQuotient_total fuel q r :
  0 <= r < HALF -> (2 <= fuel + (if (D <=? r)%Z then 1 else 0))%nat ->
  returns (refineQuotient fuel D L N q r) (fun _ => True).
Proof.
  revert q r. induction fuel as [|fuel IH]; intros q r Hr Hf; cbn [refineQuotient]; rewrite HALF_eq.
  { destruct (Z.leb_spec D r); lia. }
  destruct (_ || _); [|done].
  rewrite (u32_small (r + D)) by (unfold is_u32; rewrite BASE_half; unfold HALF in *; lia).
  destruct (Z.leb_spec HALF (r + D)); [done|].
  apply IH; [lia|]. destruct (Z.leb_spec D r), (Z.leb_spec D (r + D)); lia.
Qed.
End Refine.

(** Normalisation: the leading bit of the shifted divisor is set. *)
Lemma clz_spec d : 0 < d < BASE ->
  0 <= CountLeadingZeros d < 32 /\ BASE <= 2 * (d * 2 ^ CountLeadingZeros d) /\
  d * 2 ^ CountLeadingZeros d < BASE.
Proof.
  intros Hd. unfold CountLeadingZeros. destruct (Z.eqb_spec d 0); [lia|].
  pose proof (Z.log2_spec d ltac:(lia)) as [Hlo Hhi].
  assert (0 <= Z.log2 d < 32).
  { split; [apply Z.log2_nonneg|]. apply Z.log2_lt_pow2; [lia|]. apply Hd. }
  set (k := Z.log2 d) in *. split; [lia|].
  assert (BASE = 2 * (2 ^ k * 2 ^ (31 - k))) as ->.
  { rewrite <- Z.pow_add_r by lia. replace (k + (31 - k)) with 31 by lia. reflexivity. }
  rewrite Z.pow_succ_r in Hhi by lia. pose proof (pow2_pos (31 - k) ltac:(lia)). nia.
Qed.

Lemma u32_ring_small a b : is_u32 b -> a = b -> u32 a = b.
Proof. intros Hb ->. by apply u32_small. Qed.

(** The halves of a normalised divisor. *)
Lemma divisor_halves dn : BASE <= 2 * dn -> dn < BASE ->
  HALF <= 2 * (dn / HALF) /\ dn / HALF < HALF /\ 0 <= dn mod HALF < HALF /\
  dn = (dn / HALF) * HALF + dn mod HALF.
Proof.
  intros H1 H2. rewrite BASE_half in *. pose proof (Z.div_mod dn HALF ltac:(done)).
  pose proof (Z.mod_pos_bound dn HALF ltac:(done)). unfold HALF in *. lia.
Qed.

Lemma quotient_step H D : 0 < D -> 0 <= H < BASE -> D < HALF ->
  H / D * D + u32 (H - H / D * D) = H /\ 0 <= u32 (H - H / D * D) < D /\ 0 <= H / D < BASE.
Proof.
  intros HD HH HD'. pose proof (Z.div_mod H D ltac:(lia)). pose proof (Z.mod_pos_bound H D HD).
  assert (0 <= H / D) by (apply Z.div_pos; lia).
  assert (H / D <= H) by (apply Z.div_le_upper_bound; nia).
  replace (H - H / D * D) with (H mod D) by lia.
  rewrite u32_small; [lia|]. unfold is_u32. lia.
Qed.

(** One half digit: the refined quotient is exact and the next partial remainder is
    below the divisor. *)
Lemma half_step dn H N :
  BASE <= 2 * dn -> dn < BASE -> 0 <= H < dn -> 0 <= N < HALF ->
  returns (refineQuotient refineFuel (dn / HALF) (dn mod HALF) N (H / (dn / HALF))
             (u32 (H - H / (dn / HALF) * (dn / HALF))))
    (fun s => s.1 = (H * HALF + N) / dn /\ 0 <= s.1 < HALF /\
       u32 (H * HALF + N - s.1 * dn) = (H * HALF + N) mod dn).
Proof.
  intros H1 H2 HH HN. destruct (divisor_halves dn H1 H2) as (HD & HD' & HL & Edn).
  destruct (quotient_step H (dn / HALF)) as (E & Hr & Hq); [unfold HALF in *; lia..|].
  set (D := dn / HALF) in *. set (L := dn mod HALF) in *. set (q0 := H / D) in *.
  assert ((H * HALF + N) / (D * HALF + L) = (H * HALF + N) / dn) as Eq by (by rewrite <- Edn).
  assert (0 <= (H * HALF + N) / dn < HALF) as Hquot.
  { split; [apply Z.div_pos; unfold HALF in *; lia|]. apply Z.div_lt_upper_bound; unfold HALF in *; nia. }
  eapply returns_mono; [apply (refineQuotient_returns D L N H); auto|].
  - unfold HALF in *; lia.
  - lia.
  - apply Z.lt_succ_r, Z.div_lt_upper_bound; [unfold HALF in *; lia|].
    assert (H + 1 <= (q0 + 1) * D) by lia. unfold HALF in *. nia.
  - unfold refineFuel. lia.
  - cbv beta. rewrite Eq. intros s ->. split_and!; auto; try lia.
    apply u32_ring_small.
    + pose proof (Z.mod_pos_bound (H * HALF + N) dn ltac:(lia)). unfold is_u32. lia.
    + pose proof (Z.div_mod (H * HALF + N) dn ltac:(lia)). lia.
Qed.

(** The dividend shifted along with the divisor. *)
Lemma shifted_dividend hi lo lz : is_u32 hi -> is_u32 lo -> 0 <= lz < 32 -> hi * 2 ^ lz < BASE ->
  let lowDividend := u32 (Z.shiftl lo lz) in
  let highDividend :=
    if lz =? 0 then hi else Z.lor (u32 (Z.shiftl hi lz)) (Z.shiftr lo (DATA_BITS - lz)) in
  is_u32 lowDividend /\ is_u32 highDividend /\
  highDividend * BASE + lowDividend = (hi * BASE + lo) * 2 ^ lz.
Proof.
  intros Hh Hl Hz Hfit. cbv zeta. destruct (Z.eqb_spec lz 0) as [->|Hnz].
  - rewrite Z.shiftl_0_r, u32_small by done. split_and!; auto. lia.
  - destruct (shl_digit lo 0 lz) as (R1 & R2 & E1); [lia|done|pose proof (pow2_pos lz); lia|].
    rewrite Z.lor_0_r in *. change DATA_BITS with 32.
    destruct (shl_digit hi (Z.shiftr lo (32 - lz)) lz) as (R3 & R4 & E2); [lia|done|done|].
    split_and!; [apply u32_range|done|].
    assert (Z.shiftr hi (32 - lz) = 0) as E0.
    { rewrite Z.shiftr_div_pow2 by lia. apply Z.div_small. unfold is_u32 in Hh.
      rewrite (BASE_split lz) in Hfit by lia. pose proof (pow2_pos lz). nia. }
    rewrite E0 in E2. nia.
Qed.

Lemma DivideAndRemainder_returns hi lo d : is_u32 lo -> 0 < d < BASE -> 0 <= hi < d ->
  returns (DivideAndRemainder hi lo d) (fun s =>
    s.1 = (hi * BASE + lo) / d /\ s.2 = (hi * BASE + lo) mod d /\ is_u32 s.1).
Proof.
  intros Hlo Hd Hhi. unfold DivideAndRemainder. cbv zeta.
  destruct (clz_spec d Hd) as (Hlz & Hn1 & Hn2). set (lz := CountLeadingZeros d) in *.
  pose proof (pow2_pos lz ltac:(lia)) as Hp.
  destruct (shifted_dividend hi lo lz) as (Rl & Rh & Etot);
    [unfold is_u32; lia|done|done|nia|]. cbv zeta in *.
  set (lowD := u32 (Z.shiftl lo lz)) in *.
  set (highD := if lz =? 0 then hi else _) in *. clearbody highD lowD.
  rewrite Z.shiftl_mul_pow2 by lia. rewrite (u32_small (d * 2 ^ lz)) by (unfold is_u32; nia).
  set (dn := d * 2 ^ lz) in *. rewrite !half_low, !half_high, HALF_eq.
  destruct (half_split lowD Rl) as (n1 & n2 & -> & -> & EL & Hn1' & Hn2').
  unfold is_u32 in Rh. assert (highD < dn) as Hlt.
  { unfold is_u32 in *. assert (hi * BASE + lo < d * BASE) by nia.
    apply (Z.mul_lt_mono_pos_r BASE); [apply BASE_pos|].
    assert ((hi * BASE + lo) * 2 ^ lz < d * BASE * 2 ^ lz) by (by apply Z.mul_lt_mono_pos_r).
    unfold dn. lia. }
  eapply returns_bind; [apply half_step; auto; lia|]. cbv beta.
  intros [hq x] (Eq & Bq & Em). cbn [fst] in Eq, Bq, Em. rewrite Em. clear Em.
  pose proof (Z.mod_pos_bound (highD * HALF + n1) dn ltac:(lia)) as Hm1.
  eapply returns_bind; [apply half_step; auto; lia|]. cbv beta.
  intros [lq y] (Eq2 & Bq2 & Em). cbn [fst] in Eq2, Bq2, Em. rewrite Em. clear Em.
  pose proof (Z.div_mod (highD * HALF + n1) dn ltac:(lia)) as E1. rewrite <- Eq in E1.
  set (m1 := (highD * HALF + n1) mod dn) in *.
  pose proof (Z.div_mod (m1 * HALF + n2) dn ltac:(lia)) as E2. rewrite <- Eq2 in E2.
  pose proof (Z.mod_pos_bound (m1 * HALF + n2) dn ltac:(lia)) as Hm2.
  set (m2 := (m1 * HALF + n2) mod dn) in *. apply returns_ok. cbn [fst snd].
  rewrite (u32_small (hq * HALF + lq)) by (unfold is_u32; rewrite BASE_half; unfold HALF in *; lia).
  assert ((hi * BASE + lo) * 2 ^ lz = (hq * HALF + lq) * dn + m2) as Efin.
  { rewrite <- Etot, EL, BASE_half. nia. }
  rewrite Z.shiftr_div_pow2 by lia.
  assert (m2 = (hi * BASE + lo - (hq * HALF + lq) * d) * 2 ^ lz) as Em2 by (unfold dn in *; lia).
  rewrite Em2, Z.div_mul by lia.
  assert (0 <= hi * BASE + lo - (hq * HALF + lq) * d < d) as Hr by (unfold dn in *; nia).
  split_and!.
  - apply (Z.div_unique_pos _ _ _ (hi * BASE + lo - (hq * HALF + lq) * d)); lia.
  - apply (Z.mod_unique_pos _ _ (hq * HALF + lq)); lia.
  - unfold is_u32. rewrite BASE_half. unfold HALF in *; lia.
Qed.

(** The call with [hi = d], whose result is discarded, still ends. *)
Lemma DivideAndRemainder_total hi lo d : is_u32 hi -> is_u32 lo -> BASE <= 2 * d -> d < BASE ->
  returns (DivideAndRemainder hi lo d) (fun _ => True).
Proof.
  intros Hhi Hlo H1 H2. unfold DivideAndRemainder. cbv zeta. pose proof BASE_pos as HB.
  destruct (clz_spec d ltac:(lia)) as (Hlz & Hn1 & Hn2).
  assert (CountLeadingZeros d = 0) as ->.
  { destruct (decide (CountLeadingZeros d = 0)); [done|].
    assert (2 ^ 1 <= 2 ^ CountLeadingZeros d) by (apply Z.pow_le_mono_r; lia). nia. }
  rewrite !Z.shiftl_0_r, (u32_small d), (u32_small lo) by (unfold is_u32 in *; lia).
  cbn [Z.eqb]. rewrite !half_low, !half_high.
  destruct (divisor_halves d H1 H2) as (HD & HD' & HL & Ed).
  assert (forall H N q, 0 <= H < BASE -> returns (refineQuotient refineFuel (d / HALF) (d mod HALF) N q
    (u32 (H - H / (d / HALF) * (d / HALF)))) (fun _ => True)) as Htot.
  { intros H N q HH. destruct (quotient_step H (d / HALF)) as (_ & Hr & _); [unfold HALF in *; lia..|].
    apply refineQuotient_total; auto; [lia|]. unfold refineFuel. lia. }
  eapply returns_bind; [apply Htot, Hhi|]. intros [hq x] _.
  eapply returns_bind; [apply Htot, u32_range|]. intros [lq y] _. done.
Qed.

Section Improve.
  Context (v1 v2 u3 H : Z).
  Context (Hv1 : BASE <= 2 * v1) (Hv1' : v1 < BASE) (Hv2 : is_u32 v2) (Hu3 : is_u32 u3).
  Context (Hlt : 0 <= H < v1 * BASE).

Let quot := (H * BASE + u3) / (v1 * BASE + v2).

(** The comparison of the two digit product with [r : u3]. *)
Lemma improve_test q r hi lo : is_u32 q -> 0 <= r < BASE -> Mul q v2 = (hi, lo) ->
  (r <? hi) || ((hi =? r) && (u3 <? lo)) = (r * BASE + u3 <? q * v2).
Proof.
  intros Hq Hr EM. apply Mul_spec in EM as (Hhi & Hlo & EM); [|done|done].
  unfold is_u32 in *. rewrite <- EM.
  destruct (Z.ltb_spec r hi), (Z.eqb_spec hi r), (Z.ltb_spec u3 lo),
    (Z.ltb_spec (r * BASE + u3) (hi * BASE + lo)); cbn; try done; nia.
Qed.

Lemma improveLoop_returns fuel q r :
  q * v1 + r = H -> 0 <= r < BASE -> is_u32 q -> quot <= q ->
  (2 <= fuel + (if (v1 <=? r)%Z then 1 else 0))%nat ->
  returns (improveLoop fuel v1 v2 r u3 q) (fun q' => q' = quot /\ is_u32 q').
Proof.
  pose proof BASE_pos as HB. unfold is_u32 in Hv2, Hu3.
  revert q r. induction fuel as [|fuel IH]; intros q r E Hr Hq Hle Hf; cbn [improveLoop];
    destruct (Mul q v2) as [hi lo] eqn:EM.
  { destruct (Z.leb_spec v1 r); lia. }
  rewrite (improve_test q r hi lo) by done. unfold is_u32 in Hq.
  destruct (Z.ltb_spec (r * BASE + u3) (q * v2)) as [Hc|Hc].
  - destruct (estimate_too_big BASE v1 v2 u3 H HB ltac:(lia) Hv2 Hu3
      ltac:(lia) q r E ltac:(lia) ltac:(lia) ltac:(lia) ltac:(by right)) as [Hq1 Hq0].
    rewrite (u32_small (q - 1)) by (unfold is_u32; lia).
    rewrite u32_add by (unfold is_u32; lia).
    destruct (Z.ltb_spec (r + v1) BASE) as [Hno|Hov].
    + destruct (Z.ltb_spec (r + v1) v1); [lia|].
      apply IH; [lia|lia|unfold is_u32; lia|done|].
      destruct (Z.leb_spec v1 r), (Z.leb_spec v1 (r + v1)); lia.
    + destruct (Z.ltb_spec (r + v1 - BASE) v1); [|lia]. apply returns_ok.
      destruct (estimate_stop BASE v1 v2 u3 H HB ltac:(lia) Hv2 Hu3
        ltac:(lia) (q - 1) (r + v1)) as [_ Hs]; [lia..|].
      split; [|unfold is_u32; lia].
      eapply estimate_exact with (r := r + v1); eauto; lia.
  - apply returns_ok. split; [|done]. eapply estimate_exact with (r := r); eauto; lia.
Qed.
End Improve.

(** ** Multiply and subtract, add back *)

(** The value of the [k] digits of [l] from position [pos]. *)
Definition slice (l : list Z) (pos k : nat) : Z := eval (take k (drop pos l)).

Lemma evalp_slice l pos k : (pos + k <= length l)%nat ->
  evalp l (pos + k) = evalp l pos + pw pos * slice l pos k.
Proof.
  intros H. unfold evalp, slice. rewrite <- take_take_drop, eval_app, length_take_le by lia. done.
Qed.

Lemma slice_bounds l pos k : Forall is_u32 l -> (pos + k <= length l)%nat -> 0 <= slice l pos k < pw k.
Proof.
  intros Hl Hk. unfold slice. pose proof (eval_bounds (take k (drop pos l))
    (Forall_take _ _ _ (Forall_drop _ _ _ Hl))) as H.
  rewrite length_take_le in H by (rewrite length_drop; lia). done.
Qed.

Lemma slice_S_r l pos k d : l !! (pos + k)%nat = Some d ->
  slice l pos (S k) = slice l pos k + pw k * d.
Proof.
  intros H. unfold slice. change (evalp (drop pos l) (S k) = evalp (drop pos l) k + pw k * d).
  apply evalp_S. by rewrite lookup_drop.
Qed.

Lemma slice_S_l l pos k d : l !! pos = Some d -> slice l pos (S k) = d + BASE * slice l (S pos) k.
Proof. intros H. unfold slice. by rewrite (drop_S _ _ _ H). Qed.

Lemma slice_0 l pos : slice l pos 0 = 0.
Proof. reflexivity. Qed.

Lemma slice_insert_above l pos k j v : (pos + k <= j)%nat -> slice (<[j:=v]> l) pos k = slice l pos k.
Proof.
  intros H. unfold slice. rewrite drop_insert_ge by lia. rewrite take_insert_ge by lia. done.
Qed.

Lemma slice_insert_next l pos k v : (pos + k < length l)%nat ->
  slice (<[(pos + k)%nat:=v]> l) pos (S k) = slice l pos k + pw k * v.
Proof.
  intros H. rewrite (slice_S_r _ _ _ v) by (by apply list_lookup_insert_eq).
  by rewrite slice_insert_above.
Qed.

(** The frame of an in place update of the digits from [pos] to [pos + k]. *)
Definition sameOutside (l l' : list Z) (pos k : nat) : Prop :=
  length l' = length l /\ Forall is_u32 l' /\
  forall j, (j < pos \/ pos + k <= j)%nat -> l' !! j = l !! j.

Lemma sameOutside_refl l pos : Forall is_u32 l -> sameOutside l l pos 0.
Proof. unfold sameOutside. auto. Qed.

Lemma sameOutside_insert l l' pos k v : sameOutside l l' pos k -> is_u32 v ->
  sameOutside l (<[(pos + k)%nat:=v]> l') pos (S k).
Proof.
  intros (Hlen & Hd & Hsame) Hv. unfold sameOutside. rewrite length_insert.
  split_and!; auto with ark. intros j Hj. rewrite list_lookup_insert_ne by lia. apply Hsame. lia.
Qed.

(** The product [q * v] with its pending carry and high digit. *)
Definition prodInv (n : nat) (v : BigInt) (q : Z) (i : nat) (s : BigInt * Z * Z) : Prop :=
  let '(qv, c, h) := s in
  Forall is_u32 (data qv) /\ GetLength qv = n /\ 0 <= c <= 3 /\ is_u32 h /\
  evalp (data qv) i + pw i * (h + c) = q * evalp (data v) i.

Lemma prodInv_step n v q i qv c h d : Forall is_u32 (data v) -> is_u32 q -> (i < n)%nat ->
  data v !! i = Some d -> prodInv n v q i (qv, c, h) ->
  returns (let '(high, value) := Mul d q in
           let '(value, carry) := AddHelper value h 0 in
           let '(value, carry) := AddHelper value c carry in
           qv ← SetDigit qv i value; Ok (qv, carry, high)) (prodInv n v q (S i)).
Proof.
  intros Dv Hq Hi Hd (Dq & Lq & Hc & Hh & E). assert (5 < BASE) by done.
  destruct (Mul d q) as [hi lo] eqn:EM. apply Mul_spec in EM as (Hhi & Hlo & EM); [|eauto with ark|done].
  destruct (AddHelper lo h 0) as [a1 c1] eqn:E1.
  apply AddHelper_spec in E1 as (Ha1 & E1 & Hc1); [|done|done|lia].
  destruct (AddHelper a1 c c1) as [a2 c2] eqn:E2.
  apply AddHelper_spec in E2 as (Ha2 & E2 & Hc2); [|done|by apply is_u32_small|lia].
  digit_step; [lia|]. apply returns_ok. unfold prodInv. split_and!; cbn [data]; auto with ark; try lia.
  - unfold GetLength. cbn [data]. by rewrite length_insert.
  - rewrite evalp_insert_S by (unfold GetLength in *; lia).
    rewrite (evalp_S (data v) i d Hd), pw_S. nia.
Qed.

(** The running difference and its borrow. *)
Definition diffInv (u0 : BigInt) (l : list Z) (pos i : nat) (s : BigInt * Z) : Prop :=
  sameOutside (data u0) (data s.1) pos i /\ 0 <= s.2 <= 1 /\
  slice (data s.1) pos i - pw i * s.2 = slice (data u0) pos i - evalp l i.

Lemma diffInv_step u0 l pos i u c du dq : Forall is_u32 (data u0) -> Forall is_u32 l ->
  (pos + i < GetLength u0)%nat -> data u0 !! (pos + i)%nat = Some du -> l !! i = Some dq ->
  diffInv u0 l pos i (u, c) ->
  returns (let '(value, borrow) := SubHelper du dq 0 in
           let '(value, borrow) := SubHelper value c borrow in
           u ← SetDigit u (pos + i) value; Ok (u, borrow)) (diffInv u0 l pos (S i)).
Proof.
  intros Du Dl Hlen Hdu Hdq (Hs & Hc & E). cbn [fst snd] in *.
  destruct (SubHelper du dq 0) as [a1 c1] eqn:E1. destruct (SubHelper a1 c c1) as [a2 c2] eqn:E2.
  eapply SubHelper_twice in E2 as (Ha & E' & Hc2); eauto with ark.
  pose proof Hs as (HL & _ & _). digit_step; [unfold GetLength in *; lia|]. apply returns_ok.
  unfold diffInv. cbn [fst snd data]. split_and!; [by apply sameOutside_insert|lia..|].
  rewrite slice_insert_next by (unfold GetLength in *; lia).
  rewrite (slice_S_r _ _ _ du Hdu), (evalp_S l i dq Hdq), pw_S. nia.
Qed.

(** The running sum and its carry. *)
Definition sumInv (u0 : BigInt) (l : list Z) (pos i : nat) (s : BigInt * Z) : Prop :=
  sameOutside (data u0) (data s.1) pos i /\ 0 <= s.2 <= 1 /\
  slice (data s.1) pos i + pw i * s.2 = slice (data u0) pos i + evalp l i.

Lemma sumInv_step u0 l pos i u c du dv : Forall is_u32 (data u0) -> Forall is_u32 l ->
  (pos + i < GetLength u0)%nat -> data u0 !! (pos + i)%nat = Some du -> l !! i = Some dv ->
  sumInv u0 l pos i (u, c) ->
  returns (let '(value, carry) := AddHelper du dv 0 in
           let '(value, carry) := AddHelper value c carry in
           u ← SetDigit u (pos + i) value; Ok (u, carry)) (sumInv u0 l pos (S i)).
Proof.
  intros Du Dl Hlen Hdu Hdv (Hs & Hc & E). cbn [fst snd] in *.
  destruct (AddHelper du dv 0) as [a1 c1] eqn:E1. destruct (AddHelper a1 c c1) as [a2 c2] eqn:E2.
  eapply AddHelper_twice in E2 as (Ha & E' & Hc2); eauto with ark.
  pose proof Hs as (HL & _ & _). digit_step; [unfold GetLength in *; lia|]. apply returns_ok.
  unfold sumInv. cbn [fst snd data]. split_and!; [by apply sameOutside_insert|lia..|].
  rewrite slice_insert_next by (unfold GetLength in *; lia).
  rewrite (slice_S_r _ _ _ du Hdu), (evalp_S l i dv Hdv), pw_S. nia.
Qed.

Lemma SpecialMultiplyAndSub_returns u v q qv pos :
  Forall is_u32 (data u) -> Forall is_u32 (data v) -> Forall is_u32 (data qv) -> is_u32 q ->
  GetLength qv = S (GetLength v) -> (pos + S (GetLength v) <= GetLength u)%nat ->
  returns (SpecialMultiplyAndSub u v q qv pos) (fun s =>
    sameOutside (data u) (data s.1.2) pos (S (GetLength v)) /\
    Forall is_u32 (data s.2) /\ GetLength s.2 = S (GetLength v) /\
    slice (data s.1.2) pos (S (GetLength v)) = slice (data u) pos (S (GetLength v))
      - q * eval (data v) + (if s.1.1 then pw (S (GetLength v)) else 0)).
Proof.
  intros Du Dv Dq Hq Lq HL. unfold SpecialMultiplyAndSub.
  eapply returns_bind; [apply (for_up_returns (prodInv (S (GetLength v)) v q))|].
  { unfold prodInv. rewrite !evalp_0. split_and!; auto with ark; lia. }
  { intros i [[qv' c] h] Hi Inv. digit_step; [lia|]. apply prodInv_step; auto. lia. }
  cbv beta. rewrite Nat.add_0_l. intros [[qv1 c1] h1] (D1 & L1 & Hc1 & Hh1 & E1).
  rewrite (evalp_all (data v)) in E1 by done.
  pose proof (eval_bounds _ Dv) as Bv. fold (GetLength v) in Bv.
  pose proof (evalp_bounds (data qv1) (GetLength v) D1 ltac:(unfold GetLength in *; lia)) as B1.
  unfold is_u32 in Hq, Hh1. assert (is_u32 (h1 + c1)) as Rtop.
  { unfold is_u32. pose proof (pw_pos (GetLength v)). nia. }
  rewrite u32_small by done. digit_step; [lia|].
  set (l := <[GetLength v:=h1 + c1]> (data qv1)).
  assert (Forall is_u32 l) as Dl by (unfold l; auto with ark).
  assert (length l = S (GetLength v)) as Ll by (unfold l, GetLength in *; by rewrite length_insert).
  assert (eval l = q * eval (data v)) as El.
  { rewrite <- (evalp_all l (S (GetLength v))) by lia. unfold l.
    rewrite evalp_insert_S by (unfold GetLength in *; lia). done. }
  change (GetLength (mkBigInt (Sign qv1) l)) with (length l). rewrite Ll.
  eapply returns_bind; [apply (for_up_returns (diffInv u l pos))|].
  { unfold diffInv. cbn [fst snd]. rewrite evalp_0, slice_0. split_and!; try lia. by apply sameOutside_refl. }
  { intros i [u' c] Hi Inv. pose proof Inv as ((HL' & Du' & Hsame) & Hc & _). cbn [fst snd] in *.
    digit_step; [unfold GetLength in *; lia|]. digit_step; [change (i < length l)%nat; lia|].
    apply diffInv_step; auto; [lia|]. rewrite <- Hsame by lia. done. }
  cbv beta. rewrite Nat.add_0_l. intros [u' c] (Hs & Hc & E). cbn [fst snd] in *.
  apply returns_ok. cbn [fst snd data]. split_and!; auto.
  rewrite evalp_all, El in E by lia. destruct (Z.ltb_spec 0 c); [assert (c = 1) as -> by lia|assert (c = 0) as -> by lia]; lia.
Qed.

Lemma SpecialAdd_returns u v pos :
  Forall is_u32 (data u) -> Forall is_u32 (data v) -> (pos + GetLength v <= GetLength u)%nat ->
  returns (SpecialAdd u v pos) (fun s =>
    sameOutside (data u) (data s.2) pos (GetLength v) /\ 0 <= s.1 <= 1 /\
    slice (data s.2) pos (GetLength v) + pw (GetLength v) * s.1
      = slice (data u) pos (GetLength v) + eval (data v)).
Proof.
  intros Du Dv HL. unfold SpecialAdd.
  eapply returns_bind; [apply (for_up_returns (sumInv u (data v) pos))|].
  { unfold sumInv. cbn [fst snd]. rewrite evalp_0, slice_0. split_and!; try lia. by apply sameOutside_refl. }
  { intros i [u' c] Hi Inv. pose proof Inv as ((HL' & Du' & Hsame) & Hc & _). cbn [fst snd] in *.
    digit_step; [unfold GetLength in *; lia|]. digit_step; [unfold GetLength in *; lia|].
    apply sumInv_step; auto; [lia|]. rewrite <- Hsame by lia. done. }
  cbv beta. rewrite Nat.add_0_l. intros [u' c] (Hs & Hc & E). cbn [fst snd] in *.
  apply returns_ok. cbn [fst snd]. rewrite evalp_all in E by done. split_and!; auto; lia.
Qed.

(** ** The quotient digit *)

(** The estimate from the leading digits exceeds the quotient digit by at most one. *)
Lemma estimate_close P T3 V2 lowS lowV q :
  0 < P -> 0 <= lowS < P -> 0 <= lowV < P -> 0 <= T3 -> BASE <= V2 -> q = T3 / V2 -> 0 <= q < BASE ->
  let S := lowS + P * T3 in let V := lowV + P * V2 in
  S / V <= q /\ (q - 1) * V <= S.
Proof.
  intros HP HS HV HT HV2 Eq Hq S V. pose proof BASE_pos as HB.
  pose proof (Z.div_mod T3 V2 ltac:(lia)) as Ediv. rewrite <- Eq in Ediv.
  pose proof (Z.mod_pos_bound T3 V2 ltac:(lia)) as Hmod. unfold S, V. split.
  - apply Z.lt_succ_r, Z.div_lt_upper_bound; [nia|].
    assert (T3 + 1 <= (q + 1) * V2) by lia.
    assert (P * (T3 + 1) <= P * ((q + 1) * V2)) by nia. nia.
  - assert (q * V2 <= T3) by lia. assert (P * (q * V2) <= P * T3) by nia.
    assert (q * lowV <= BASE * P) by nia. assert (P * BASE <= P * V2) by nia. nia.
Qed.

Lemma estimate_close_max P v1 rest S :
  0 < P -> BASE <= 2 * v1 -> 0 <= rest < P ->
  let V := rest + P * v1 in v1 * (BASE * P) <= S < BASE * V ->
  S / V <= BASE - 1 /\ (BASE - 2) * V <= S.
Proof.
  intros HP Hv1 Hrest V HS. pose proof BASE_pos as HB. unfold V in *. split.
  - apply Z.lt_succ_r, Z.div_lt_upper_bound; nia.
  - assert (BASE * rest <= BASE * P) by nia. assert (BASE * P <= 2 * v1 * P) by nia. nia.
Qed.

Section Round.
  Context (v u : BigInt) (i : nat) (v1 v2 u1 u2 u3 : Z).
Let n := GetLength v.
  Context (Dv : Forall is_u32 (data v)) (Du : Forall is_u32 (data u)).
  Context (Hn : (2 <= n)%nat) (HL : (i + n < GetLength u)%nat).
  Context (E1 : data v !! (n - 1)%nat = Some v1) (E2 : data v !! (n - 2)%nat = Some v2).
  Context (F1 : data u !! (i + n)%nat = Some u1) (F2 : data u !! (i + n - 1)%nat = Some u2)
    (F3 : data u !! (i + n - 2)%nat = Some u3).
  Context (Hnorm : BASE <= 2 * v1).

Let V := eval (data v).
Let S := slice (data u) i (n + 1).
  Context (HS : S < BASE * V).

(** The operands split at digit [n - 2]. *)
Lemma V_split : V = evalp (data v) (n - 2) + pw (n - 2) * (v1 * BASE + v2).
Proof.
  unfold V. rewrite <- (evalp_all (data v) (Datatypes.S (n - 1))) by (unfold n, GetLength in *; lia).
  rewrite (evalp_S _ _ v1 E1). replace (n - 1)%nat with (Datatypes.S (n - 2)) at 1 by lia.
  rewrite (evalp_S _ _ v2 E2). replace (n - 1)%nat with (Datatypes.S (n - 2)) by lia. rewrite pw_S. lia.
Qed.

Lemma S_split : S = slice (data u) i (n - 2) + pw (n - 2) * ((u1 * BASE + u2) * BASE + u3).
Proof.
  unfold S. replace (n + 1)%nat with (Datatypes.S (Datatypes.S (Datatypes.S (n - 2)))) by lia.
  rewrite (slice_S_r _ _ _ u1), (slice_S_r _ _ _ u2), (slice_S_r _ _ _ u3), !pw_S; [lia|..].
  - by replace (i + (n - 2))%nat with (i + n - 2)%nat by lia.
  - by replace (i + Datatypes.S (n - 2))%nat with (i + n - 1)%nat by lia.
  - by replace (i + Datatypes.S (Datatypes.S (n - 2)))%nat with (i + n)%nat by lia.
Qed.

Lemma u1_le_v1 : u1 <= v1.
Proof.
  pose proof V_split as EV. pose proof S_split as ES. pose proof (pw_pos (n - 2)).
  pose proof (evalp_bounds (data v) (n - 2) Dv ltac:(unfold n, GetLength in *; lia)) as Bv.
  pose proof (slice_bounds (data u) i (n - 2) Du ltac:(unfold n, GetLength in *; lia)) as Bu.
  pose proof (digit_range _ _ _ Du F2). pose proof (digit_range _ _ _ Du F3).
  pose proof (digit_range _ _ _ Dv E2). unfold is_u32 in *. apply Z.lt_succ_r.
  set (P := pw (n - 2)) in *.
  assert (0 <= P * (u2 * BASE + u3)) by (apply Z.mul_nonneg_nonneg; nia).
  assert (P * (v1 * BASE + v2 + 1) <= P * ((v1 + 1) * BASE)) by (apply Z.mul_le_mono_nonneg_l; lia).
  assert (BASE * V < BASE * (P * ((v1 + 1) * BASE))) by (apply Z.mul_lt_mono_pos_l; lia).
  apply (Z.mul_lt_mono_pos_l (P * BASE * BASE)); [|lia].
  apply Z.mul_pos_pos; [apply Z.mul_pos_pos|]; auto using BASE_pos.
Qed.

Lemma estimate_returns :
  returns ('(q, r) ← DivideAndRemainder u1 u2 v1;
           if v1 =? u1 then Ok (BASE - 1)
           else vHighestNext ← GetDigit v (n - 2);
                currentUHighestNext ← GetDigit u (i + n - 2);
                ImproveAccuracy v1 vHighestNext r currentUHighestNext q)
    (fun q => is_u32 q /\ S / V <= q /\ (q - 1) * V <= S).
Proof.
  pose proof u1_le_v1 as Hle. pose proof V_split as EV. pose proof S_split as ES.
  pose proof (digit_range _ _ _ Dv E1) as R1. pose proof (digit_range _ _ _ Dv E2) as R2.
  pose proof (digit_range _ _ _ Du F1) as Q1. pose proof (digit_range _ _ _ Du F2) as Q2.
  pose proof (digit_range _ _ _ Du F3) as Q3. pose proof (pw_pos (n - 2)) as HP.
  pose proof (evalp_bounds (data v) (n - 2) Dv ltac:(unfold n, GetLength in *; lia)) as Bv.
  pose proof (slice_bounds (data u) i (n - 2) Du ltac:(unfold n, GetLength in *; lia)) as Bu.
  unfold is_u32 in R1, R2, Q1, Q2, Q3. pose proof BASE_pos as HB.
  destruct (Z.eqb_spec v1 u1) as [Eq|Hne].
  - eapply returns_bind; [apply DivideAndRemainder_total; auto; lia|]. intros [q r] _.
    apply returns_ok. split; [unfold is_u32; lia|].
    assert (V = (evalp (data v) (n - 2) + pw (n - 2) * v2) + pw (n - 2) * BASE * v1) as EV' by lia.
    replace (BASE - 1 - 1) with (BASE - 2) by lia. rewrite EV' in *.
    apply estimate_close_max; [nia|lia|nia|]. split; [|done]. rewrite ES, <- Eq. nia.
  - eapply returns_bind; [apply DivideAndRemainder_returns; unfold is_u32; lia|]. cbv beta.
    intros [q r] (Eq & Er & Hq). cbn [fst snd] in *.
    pose proof (Z.div_mod (u1 * BASE + u2) v1 ltac:(lia)) as Ed. rewrite <- Eq, <- Er in Ed.
    pose proof (Z.mod_pos_bound (u1 * BASE + u2) v1 ltac:(lia)) as Hr. rewrite <- Er in Hr.
    rewrite (bind_GetDigit_eq v _ v2), (bind_GetDigit_eq u _ u3) by done.
    assert (0 <= u1 * BASE + u2 < v1 * BASE) as HH by nia.
    eapply returns_mono; [apply (improveLoop_returns v1 v2 u3 (u1 * BASE + u2)); auto; try lia|].
    + apply Z.lt_succ_r, Z.div_lt_upper_bound; [nia|].
      assert (u1 * BASE + u2 + 1 <= (q + 1) * v1) by lia. nia.
    + cbv beta. intros q' [Eq' Hq']. split; [done|]. unfold is_u32 in Hq'. rewrite EV, ES.
      apply estimate_close; auto; nia.
Qed.
End Round.

(** ** The main loop *)

(** A guessed digit [q] that is right or one too large is corrected by the borrow. *)
Lemma borrow_correct S V q P X (bw : bool) : 0 < V -> V <= P ->
  0 <= S -> S / V <= q -> (q - 1) * V <= S -> 0 <= X < P * BASE ->
  X = S - q * V + (if bw then P * BASE else 0) ->
  if bw then q - 1 = S / V /\ X + V = P * BASE + S mod V else q = S / V /\ X = S mod V.
Proof.
  intros HV HVP HS Hle Hge HX E. pose proof (Z.div_mod S V ltac:(lia)) as Ed.
  pose proof (Z.mod_pos_bound S V HV) as Hm. destruct bw.
  - assert (S / V < q) by nia. assert (q - 1 <= S / V) by (apply Z.div_le_lower_bound; lia).
    assert (q - 1 = S / V) as E' by lia. split; [done|]. rewrite <- E' in Ed. lia.
  - assert (q <= S / V) by (apply Z.div_le_lower_bound; lia).
    assert (q = S / V) as E' by lia. split; [done|]. rewrite <- E' in Ed. lia.
Qed.

(** What one round does to the quotient handle. *)
Definition storeDigit (remainder quotient : Slot) (i : nat) (q : Z) : Slot :=
  match quotient with
  | SlotBigInt b => if IsNull remainder then SlotBigInt (mkBigInt (Sign b) (<[i:=q]> (data b))) else quotient
  | _ => quotient
  end.

(** The quotient has a digit for every round. *)
Definition roomFor (quotient : Slot) (i : nat) : Prop :=
  match quotient with SlotBigInt b => (i < GetLength b)%nat | _ => True end.

Lemma bind_storeDigit {A} remainder quotient i q (k : Slot -> result A) (Q : A -> Prop) :
  roomFor quotient i -> returns (k (storeDigit remainder quotient i q)) Q ->
  returns (quotient ← (match quotient with
              | SlotBigInt b => if IsNull remainder then b ← SetDigit b i q; Ok (SlotBigInt b)
                                else Ok quotient
              | _ => Ok quotient
              end); k quotient) Q.
Proof.
  destruct quotient as [| |b]; cbn [roomFor storeDigit]; try done.
  intros Hi Hk. destruct (IsNull remainder); [|done].
  unfold SetDigit, set. by rewrite decide_True.
Qed.

Lemma addBack_returns u v i : Forall is_u32 (data u) -> Forall is_u32 (data v) ->
  (i + GetLength v < GetLength u)%nat ->
  forall R, 0 <= R < pw (GetLength v) ->
  slice (data u) i (GetLength v + 1) + eval (data v) = pw (GetLength v) * BASE + R ->
  returns ('(carry, u) ← SpecialAdd u v i;
           d ← GetDigit u (i + GetLength v);
           u ← SetDigit u (i + GetLength v) (u32 (d + carry)); Ok u)
    (fun u' => sameOutside (data u) (data u') i (GetLength v + 1) /\
       slice (data u') i (GetLength v + 1) = R).
Proof.
  intros Du Dv HL R HR E. set (n := GetLength v) in *.
  destruct (lookup_lt_is_Some_2 (data u) (i + n)) as [d Hd]; [unfold GetLength in *; lia|].
  rewrite Nat.add_1_r, (slice_S_r _ _ _ d Hd) in E.
  eapply returns_bind; [apply SpecialAdd_returns; auto; lia|]. cbv beta. fold n.
  intros [c u1] (Hs & Hc & E1). cbn [fst snd] in *. pose proof Hs as (L1 & D1 & Hsame).
  assert (data u1 !! (i + n)%nat = Some d) as Hd1 by (rewrite Hsame by lia; done).
  rewrite (bind_GetDigit_eq u1 _ d) by done.
  pose proof (slice_bounds (data u1) i n D1 ltac:(unfold GetLength in *; lia)) as B1.
  assert (c + d = BASE /\ slice (data u1) i n = R) as [Ecd ER].
  { apply (radix_inj (pw n)); [done|done|]. lia. }
  apply bind_SetDigit; [unfold GetLength in *; lia|]. apply returns_ok. cbn [data].
  replace (d + c) with BASE by lia. change (u32 BASE) with 0. rewrite Nat.add_1_r. split.
  - by apply sameOutside_insert; [|apply is_u32_0].
  - rewrite slice_insert_next by (unfold GetLength in *; lia). lia.
Qed.

Lemma bind_addBack {A} u v i n q (k : BigInt * Z -> result A) (P : BigInt -> Prop) (Q : A -> Prop) :
  returns ('(carry, u) ← SpecialAdd u v i;
           d ← GetDigit u (i + n);
           u ← SetDigit u (i + n) (u32 (d + carry)); Ok u) P ->
  (forall u', P u' -> returns (k (u', q)) Q) ->
  returns (s ← ('(carry, u) ← SpecialAdd u v i;
           d ← GetDigit u (i + n);
           u ← SetDigit u (i + n) (u32 (d + carry)); Ok (u, q)); k s) Q.
Proof.
  intros Hp Hk. destruct (SpecialAdd u v i) as [[c u2]|]; [|done]. cbn in *.
  destruct (GetDigit u2 (i + n)) as [dd|]; [|done]. cbn in *.
  destruct (SetDigit _ _ _); [|done]. cbn in *. auto.
Qed.

Lemma divideRound_returns v u qv quotient remainder i v1 :
  Forall is_u32 (data v) -> Forall is_u32 (data u) -> Forall is_u32 (data qv) ->
  (2 <= GetLength v)%nat -> GetLength qv = S (GetLength v) -> (i + GetLength v < GetLength u)%nat ->
  data v !! (GetLength v - 1)%nat = Some v1 -> BASE <= 2 * v1 ->
  slice (data u) i (GetLength v + 1) < BASE * eval (data v) -> roomFor quotient i ->
  returns (divideRound v (GetLength v) remainder i (u, qv, quotient)) (fun s =>
    sameOutside (data u) (data s.1.1) i (GetLength v + 1) /\
    Forall is_u32 (data s.1.2) /\ GetLength s.1.2 = S (GetLength v) /\
    slice (data s.1.1) i (GetLength v + 1) = slice (data u) i (GetLength v + 1) mod eval (data v) /\
    s.2 = storeDigit remainder quotient i (slice (data u) i (GetLength v + 1) / eval (data v))).
Proof.
  intros Dv Du Dq Hn Lq HL E1 Hnorm HS Hroom. unfold divideRound. set (n := GetLength v) in *.
  set (S := slice (data u) i (n + 1)) in *. set (V := eval (data v)) in *.
  rewrite (bind_GetDigit_eq v _ v1) by done.
  do 2 (digit_step; [unfold GetLength in *; lia|]).
  destruct (lookup_lt_is_Some_2 (data v) (n - 2)) as [v2 E2]; [unfold n, GetLength in *; lia|].
  destruct (lookup_lt_is_Some_2 (data u) (i + n - 2)) as [u3 F3]; [unfold n, GetLength in *; lia|].
  pose proof (estimate_returns v u i v1 v2 d d0 u3 Dv Du Hn HL E1 E2 H H0 F3 Hnorm HS) as Hest.
  fold n S V in Hest. destruct (DivideAndRemainder d d0 v1) as [[q0 r]|]; [|done]. rewrite bind_Ok in *.
  eapply returns_bind; [exact Hest|]. cbv beta. intros q (Hq & Hle & Hge).
  eapply returns_bind; [apply SpecialMultiplyAndSub_returns; auto; fold n; lia|]. cbv beta. fold n V.
  intros [[bw u1] qv1] (Hs & Dq1 & Lq1 & Esl). cbn [fst snd] in *.
  rewrite <- Nat.add_1_r in Hs, Esl. fold S in Esl. pose proof Hs as (L1 & D1 & Hsame).
  assert (0 < V) as HV.
  { unfold V. rewrite <- (evalp_all (data v) (Datatypes.S (n - 1))) by (unfold n, GetLength; lia).
    rewrite (evalp_S _ _ v1 E1). pose proof (pw_pos (n - 1)). pose proof BASE_pos.
    pose proof (evalp_bounds (data v) (n - 1) Dv ltac:(unfold n, GetLength; lia)). nia. }
  assert (V < pw n) as HVn by (apply eval_bounds; done).
  pose proof (slice_bounds (data u) i (n + 1) Du ltac:(unfold GetLength in *; lia)) as BS. fold S in BS.
  pose proof (slice_bounds (data u1) i (n + 1) D1 ltac:(unfold GetLength in *; lia)) as BS1.
  rewrite pw_add in BS, BS1, Esl. change (pw 1) with BASE in *.
  pose proof (borrow_correct S V q (pw n) (slice (data u1) i (n + 1)) bw HV ltac:(lia) ltac:(lia)
    Hle Hge ltac:(lia) Esl) as Hb. destruct bw; destruct Hb as [Eq ER].
  - pose proof (addBack_returns u1 v i D1 Dv ltac:(fold n; unfold GetLength in *; lia) (S mod V)) as Hadd.
    fold n V in Hadd. pose proof (Z.mod_pos_bound S V HV).
    specialize (Hadd ltac:(lia) ER).
    eapply bind_addBack; [exact Hadd|]. cbv beta. intros u3' [(L3 & D3 & Hsame3) E3].
    rewrite (u32_small (q - 1)), Eq by (unfold is_u32 in *; assert (0 <= S / V) by (apply Z.div_pos; lia); lia).
    apply bind_storeDigit; [done|]. apply returns_ok. cbn [fst snd]. split_and!; auto.
    unfold sameOutside. split_and!; auto; [congruence|]. intros j Hj. rewrite Hsame3, Hsame by done. done.
  - rewrite bind_Ok, Eq. apply bind_storeDigit; [done|]. apply returns_ok. cbn [fst snd]. split_and!; auto.
Qed.

(** The digits above an updated slice do not change, nor those below. *)
Lemma sameOutside_take l l' pos k i : sameOutside l l' pos k -> (i <= pos)%nat -> take i l' = take i l.
Proof.
  intros (_ & _ & H) Hi. apply list_eq. intros j. destruct (decide (j < i)%nat).
  - rewrite !lookup_take_lt by done. apply H. lia.
  - rewrite !lookup_take_ge by lia. done.
Qed.

Lemma sameOutside_drop l l' pos k i : sameOutside l l' pos k -> (pos + k <= i)%nat -> drop i l' = drop i l.
Proof. intros (_ & _ & H) Hi. apply list_eq. intros j. rewrite !lookup_drop. apply H. lia. Qed.

Lemma eval_drop_slice l pos k : (pos + k <= length l)%nat ->
  eval (drop pos l) = slice l pos k + pw k * eval (drop (pos + k) l).
Proof.
  intros H. unfold slice. rewrite <- (take_drop k (drop pos l)) at 1.
  rewrite eval_app, length_take_le, drop_drop by (rewrite length_drop; lia). done.
Qed.

Lemma eval_drop_nonneg l i : Forall is_u32 l -> 0 <= eval (drop i l).
Proof. intros H. apply (eval_bounds (drop i l)), Forall_drop, H. Qed.

Section MainLoop.
  Context (v : BigInt) (remainder : Slot) (u0 : list Z) (v1 : Z) (m : nat).
Let n := GetLength v.
Let V := eval (data v).
  Context (Dv : Forall is_u32 (data v)) (D0 : Forall is_u32 u0) (Hn : (2 <= n)%nat).
  Context (L0 : length u0 = (m + n + 1)%nat).
  Context (E1 : data v !! (n - 1)%nat = Some v1) (Hnorm : BASE <= 2 * v1).

(** The quotient digits found so far, when they are kept. *)
Definition quotientInv (k : nat) (q : Z) (quotient : Slot) : Prop :=
  match quotient with
  | SlotBigInt b => remainder = SlotNull /\ GetLength b = S m /\ Sign b = false /\
      Forall is_u32 (data b) /\ eval (drop k (data b)) = q
  | _ => IsNull remainder = false
  end.

(** After the rounds [m .. k]: the digits below [k] are those of the dividend, the ones
    from [k] on hold the partial remainder. *)
Definition roundInv (k : nat) (s : BigInt * BigInt * Slot) : Prop :=
  let '(u, qv, quotient) := s in
  GetLength u = length u0 /\ Forall is_u32 (data u) /\
  Forall is_u32 (data qv) /\ GetLength qv = S n /\
  take k (data u) = take k u0 /\
  exists q, 0 <= q /\ eval (drop k u0) = V * q + eval (drop k (data u)) /\ eval (drop k (data u)) < V /\
    quotientInv k q quotient.

Lemma divisor_pos : 0 < V.
Proof.
  unfold V. rewrite <- (evalp_all (data v) (S (n - 1))) by (unfold n, GetLength; lia).
  rewrite (evalp_S _ _ v1 E1). pose proof (pw_pos (n - 1)). pose proof BASE_pos.
  pose proof (evalp_bounds (data v) (n - 1) Dv ltac:(unfold n, GetLength; lia)). nia.
Qed.

Lemma quotientInv_store i q d quotient : (i <= m)%nat -> is_u32 d -> quotientInv (S i) q quotient ->
  quotientInv i (d + BASE * q) (storeDigit remainder quotient i d).
Proof.
  intros Hi Hd. destruct quotient as [| |b]; cbn [storeDigit quotientInv]; try done.
  intros (-> & Lb & Sb & Db & <-). cbn [IsNull quotientInv Sign data GetLength]. unfold GetLength in *. cbn [data].
  rewrite length_insert. split_and!; auto with ark.
  rewrite (drop_S _ d) by (apply list_lookup_insert_eq; lia). cbn [eval].
  by rewrite drop_insert_lt by lia.
Qed.

(** The partial remainder extended by the next digit of the dividend. *)
Lemma next_slice i u : GetLength u = length u0 -> Forall is_u32 (data u) -> (i <= m)%nat ->
  eval (drop (S i) (data u)) < V ->
  slice (data u) i (n + 1) = eval (drop i (data u)) /\ eval (drop (i + (n + 1)) (data u)) = 0 /\
  eval (drop i (data u)) < BASE * V.
Proof.
  intros Lu Du Hi Hlt. unfold GetLength in Lu.
  destruct (lookup_lt_is_Some_2 (data u) i) as [d Hd]; [lia|].
  pose proof (digit_range _ _ _ Du Hd) as Hr. unfold is_u32 in Hr.
  assert (eval (drop i (data u)) < BASE * V) as Hb by (rewrite (drop_S _ _ _ Hd); cbn [eval]; nia).
  pose proof (eval_drop_slice (data u) i (n + 1) ltac:(lia)) as Es.
  pose proof (slice_bounds (data u) i (n + 1) Du ltac:(lia)) as Bs.
  pose proof (eval_drop_nonneg (data u) (i + (n + 1)) Du) as Ht.
  assert (V < pw n) as HVn by (apply eval_bounds, Dv).
  rewrite Nat.add_1_r in Es, Bs, Ht. rewrite pw_S in Es, Bs. rewrite Nat.add_1_r.
  assert (BASE * V <= BASE * pw n) by (pose proof BASE_pos; nia).
  assert (eval (drop (i + S n) (data u)) = 0) as E0.
  { destruct (decide (1 <= eval (drop (i + S n) (data u)))); [|lia].
    assert (0 < BASE * pw n) by (apply Z.mul_pos_pos; auto with ark).
    assert (BASE * pw n <= BASE * pw n * eval (drop (i + S n) (data u))) by nia. lia. }
  rewrite E0 in Es. split_and!; lia.
Qed.

Lemma roundInv_step i s : (i < m + 1)%nat -> roundInv (S i) s ->
  returns (divideRound v n remainder i s) (roundInv i).
Proof.
  destruct s as [[u qv] quotient]. intros Hi (Lu & Du & Dq & Lq & Ht & q & Hq & E & Hlt & Hquo).
  destruct (next_slice i u Lu Du ltac:(lia) Hlt) as (Es & Ez & Hb).
  pose proof divisor_pos as HV.
  eapply returns_mono; [apply (divideRound_returns v u qv quotient remainder i v1); auto; fold n V|].
  { rewrite Lu, L0. lia. } { rewrite Es. lia. }
  { destruct quotient; cbn in *; auto. destruct Hquo as (_ & -> & _). lia. }
  cbv beta. fold n V. intros [[u' qv'] quotient'] (Hs & Dq' & Lq' & Esl & Equo).
  cbn [fst snd] in *. subst quotient'.
  pose proof Hs as (L' & D' & _). rewrite Es in *.
  destruct (lookup_lt_is_Some_2 u0 i) as [d Hd]; [lia|].
  assert (data u !! i = Some d) as Hdu.
  { rewrite <- (lookup_take_lt (data u) (S i)), Ht, lookup_take_lt by lia. done. }
  pose proof (digit_range _ _ _ D0 Hd) as Hr. unfold is_u32 in Hr.
  assert (eval (drop i (data u')) = eval (drop i (data u)) mod V) as Eu'.
  { rewrite (eval_drop_slice (data u') i (n + 1)) by (unfold GetLength in *; lia).
    rewrite (sameOutside_drop _ _ _ _ _ Hs), Ez, Esl by lia. lia. }
  pose proof (Z.div_mod (eval (drop i (data u))) V ltac:(lia)) as Ed.
  pose proof (Z.mod_pos_bound (eval (drop i (data u))) V HV) as Hm.
  pose proof (eval_drop_nonneg (data u) i Du) as Hn0.
  assert (0 <= eval (drop i (data u)) / V < BASE) as Hqd.
  { split; [apply Z.div_pos; lia|]. apply Z.div_lt_upper_bound; lia. }
  split_and!; auto; [unfold GetLength in *; lia|..].
  - rewrite (sameOutside_take _ _ _ _ _ Hs) by lia.
    apply (f_equal (take i)) in Ht. by rewrite !take_take, !Nat.min_l in Ht by lia.
  - exists (eval (drop i (data u)) / V + BASE * q). split_and!; [pose proof BASE_pos; nia| |lia|by apply quotientInv_store; [lia| |]].
    rewrite Eu', (drop_S u0 _ _ Hd). cbn [eval]. rewrite E, (drop_S _ _ _ Hdu) in *. cbn [eval] in *. lia.
Qed.
End MainLoop.

(** ** Long and short division of magnitudes *)

Lemma scaled_divmod X Y P q r : 0 < P -> 0 < Y -> X * P = Y * P * q + r -> 0 <= r < Y * P ->
  q = X / Y /\ r / P = X mod Y.
Proof.
  intros HP HY E Hr. assert (r = (X - Y * q) * P) as Er by lia.
  assert (0 <= X - Y * q < Y) by nia. rewrite Er, Z.div_mul by lia.
  assert (q = X / Y) as Eq by (apply (Z.div_unique X Y q (X - Y * q)); lia).
  split; [done|]. rewrite Z.mod_eq by lia. by rewrite <- Eq.
Qed.

(** An unnormalised magnitude. *)
Definition magnitude (b : BigInt) (z : Z) : Prop :=
  Forall is_u32 (data b) /\ (1 <= GetLength b)%nat /\ Z.of_nat (GetLength b) <= MAXSIZE /\ eval (data b) = z.

(** Which of the two handles is filled, and with what. *)
Definition divPost (X Y : Z) (remainder : Slot) (s : Slot * Slot) : Prop :=
  if IsNull remainder then exists b, s.1 = SlotBigInt b /\ magnitude b (X / Y)
  else exists b, s.2 = SlotBigInt b /\ magnitude b (X mod Y).

(** The shift that normalises the divisor fits its length and sets the top bit. *)
Lemma normalised_divisor y d : Forall is_u32 (data y) -> (1 <= GetLength y)%nat ->
  data y !! (GetLength y - 1)%nat = Some d -> d <> 0 ->
  let s := CountLeadingZeros d in
  eval (data y) * 2 ^ s < pw (GetLength y) /\
  forall v, Forall is_u32 (data v) -> GetLength v = GetLength y -> eval (data v) = eval (data y) * 2 ^ s ->
    exists v1, data v !! (GetLength v - 1)%nat = Some v1 /\ BASE <= 2 * v1.
Proof.
  intros Dy Ly Hd Hd0 s. pose proof (digit_range _ _ _ Dy Hd) as Hr. unfold is_u32 in Hr.
  destruct (clz_spec d ltac:(lia)) as (Hs & Hlo & Hhi). fold s in Hs, Hlo, Hhi.
  set (n := GetLength y) in *. pose proof (pw_pos (n - 1)) as HP.
  assert (eval (data y) = evalp (data y) (n - 1) + pw (n - 1) * d) as Ey.
  { rewrite <- (evalp_S _ _ d Hd). symmetry. apply evalp_all. unfold n, GetLength in *. lia. }
  pose proof (evalp_bounds (data y) (n - 1) Dy ltac:(unfold n, GetLength; lia)) as By.
  assert (pw n = BASE * pw (n - 1)) as Epw by (rewrite <- pw_S; f_equal; lia).
  rewrite (BASE_split s) in Hhi, Epw by lia. pose proof (pow2_pos s ltac:(lia)).
  assert (d + 1 <= 2 ^ (32 - s)) by nia. split.
  - rewrite Epw. assert (eval (data y) < pw (n - 1) * (d + 1)) by lia.
    assert (pw (n - 1) * (d + 1) <= pw (n - 1) * 2 ^ (32 - s)) by (apply Z.mul_le_mono_nonneg_l; lia). nia.
  - intros v Dv Lv Ev. rewrite Lv.
    destruct (lookup_lt_is_Some_2 (data v) (n - 1)) as [v1 Hv1]; [unfold GetLength in *; lia|].
    exists v1. split; [done|].
    assert (eval (data v) = evalp (data v) (n - 1) + pw (n - 1) * v1) as Ev'.
    { rewrite <- (evalp_S _ _ v1 Hv1). symmetry. apply evalp_all. unfold n, GetLength in *. lia. }
    pose proof (evalp_bounds (data v) (n - 1) Dv ltac:(unfold GetLength in *; lia)) as Bv.
    assert (pw (n - 1) * (d * 2 ^ s) < pw (n - 1) * (v1 + 1)) by (rewrite Ey in Ev; nia).
    assert (d * 2 ^ s < v1 + 1) by nia. lia.
Qed.

Lemma wf_top_digit y : wf y -> (2 <= GetLength y)%nat ->
  exists d, data y !! (GetLength y - 1)%nat = Some d /\ d <> 0.
Proof.
  intros Hy Ly. destruct (wf_top _ Hy) as [|Ht]; [lia|]. rewrite last_lookup in Ht.
  destruct (lookup_lt_is_Some_2 (data y) (GetLength y - 1)) as [d Hd]; [unfold GetLength in *; lia|].
  exists d. split; [done|]. intros ->. apply Ht. rewrite <- Hd. unfold GetLength. f_equal. lia.
Qed.

Lemma CreateBigint_ok len : len <= MAXSIZE ->
  CreateBigint len = Ok (mkBigInt false (replicate (Z.to_nat len) 0)).
Proof. intros H. unfold CreateBigint. by rewrite (proj2 (Z.ltb_ge _ _) H). Qed.

Lemma FormatLeftShift_error s x : MAXSIZE <= Z.of_nat (GetLength x) -> FormatLeftShift s x true = Err SizeExceeded.
Proof. intros H. unfold FormatLeftShift. cbn [negb andb]. rewrite CreateBigint_error by lia. done. Qed.

(** The state in which the main loop starts. *)
Lemma roundInv_init v remainder u x y s m quotient :
  wf x -> wf y -> (2 <= GetLength y)%nat -> GetLength x = (m + GetLength y)%nat -> 0 <= s ->
  GetLength v = GetLength y -> eval (data v) = eval (data y) * 2 ^ s ->
  Forall is_u32 (data u) -> GetLength u = (GetLength x + 1)%nat -> eval (data u) = eval (data x) * 2 ^ s ->
  quotientInv remainder m (S m) 0 quotient ->
  roundInv v remainder (data u) m (m + 1)
    (u, mkBigInt false (replicate (S (GetLength y)) 0), quotient).
Proof.
  intros Hx Hy Ly Lx Hs Lv Ev Du Lu Eu Hq. unfold roundInv, GetLength in *. cbn [data].
  rewrite length_replicate, Lv, Nat.add_1_r. split_and!; auto with ark.
  exists 0. rewrite Z.mul_0_r. split_and!; auto; [lia|].
  pose proof (eval_take_drop (data u) (S m) ltac:(lia)) as Et.
  pose proof (evalp_bounds (data u) (S m) Du ltac:(lia)) as Be.
  pose proof (wf_eval_bounds _ Hx) as Bx. pose proof (wf_eval_lower _ Hy Ly) as By.
  unfold GetLength in *. rewrite Lx in Bx.
  replace (m + length (data y))%nat with (S m + (length (data y) - 1))%nat in Bx by lia.
  rewrite pw_add in Bx. pose proof (pow2_pos s Hs) as H2. pose proof (pw_pos (S m)) as HP.
  assert (eval (data x) < pw (S m) * eval (data y)) by nia.
  assert (pw (S m) * eval (drop (S m) (data u)) < pw (S m) * eval (data v)) by (rewrite Ev; nia). nia.
Qed.

Section LongDivision.
  Context (x y : BigInt) (remainder : Slot) (Hx : wf x) (Hy : wf y).
  Context (Ly : (2 <= GetLength y)%nat) (Lxy : (GetLength y <= GetLength x)%nat).

Lemma longDivision_error : MAXSIZE <= Z.of_nat (GetLength x) ->
  DivideAndRemainderWithBigintDivisor x y remainder = Err SizeExceeded.
Proof.
  intros HM. destruct (wf_top_digit y Hy Ly) as (d & Hd & Hd0). pose proof (wf_max _ Hx) as Mx.
  destruct (normalised_divisor y d (wf_digits _ Hy) ltac:(lia) Hd Hd0) as [Hroom _].
  pose proof (digit_range _ _ _ (wf_digits _ Hy) Hd) as Hr. unfold is_u32 in Hr.
  destruct (clz_spec d ltac:(lia)) as (Hs & _).
  pose proof (FormatLeftShift_returns (CountLeadingZeros d) y false (wf_digits _ Hy) ltac:(lia) Hs
    ltac:(pose proof (wf_max _ Hy); lia) (or_intror Hroom)) as Hv.
  apply returns_iff in Hv as (v & Ev & _). unfold DivideAndRemainderWithBigintDivisor, GetDigit, get.
  rewrite Hd. cbv zeta. rewrite (CreateBigint_ok (Z.of_nat (GetLength x - GetLength y) + 1)) by lia.
  destruct (IsNull remainder); rewrite !bind_Ok, Ev, bind_Ok; by rewrite FormatLeftShift_error.
Qed.

Lemma longDivision_returns : Z.of_nat (GetLength x) < MAXSIZE ->
  returns (DivideAndRemainderWithBigintDivisor x y remainder)
    (divPost (eval (data x)) (eval (data y)) remainder).
Proof.
  intros HM. destruct (wf_top_digit y Hy Ly) as (d & Hd & Hd0).
  destruct (normalised_divisor y d (wf_digits _ Hy) ltac:(lia) Hd Hd0) as [Hroom Hnorm].
  pose proof (digit_range _ _ _ (wf_digits _ Hy) Hd) as Hr. unfold is_u32 in Hr.
  destruct (clz_spec d ltac:(lia)) as (Hs & _).
  unfold DivideAndRemainderWithBigintDivisor. set (m := (GetLength x - GetLength y)%nat).
  eapply (returns_bind _ (quotientInv remainder m (S m) 0)).
  { destruct remainder; cbn [IsNull]; try (apply returns_ok; done).
    apply bind_CreateBigint; [lia|]. apply returns_ok. unfold quotientInv, GetLength. cbn [data Sign].
    replace (Z.to_nat (Z.of_nat m + 1)) with (S m) by lia.
    rewrite drop_ge, length_replicate by (rewrite length_replicate; lia).
    split_and!; auto with ark. }
  intros quotient Hquo. rewrite (bind_GetDigit_eq y _ d) by done.
  eapply returns_bind; [apply FormatLeftShift_returns; eauto using wf_digits; [lia|pose proof (wf_max _ Hy); lia]|].
  cbv beta. intros v (Dv & Lv & Ev). rewrite Nat.add_0_r in Lv.
  eapply returns_bind; [apply FormatLeftShift_returns; eauto using wf_digits; lia|].
  cbv beta. intros u (Du & Lu & Eu).
  apply bind_CreateBigint; [lia|]. replace (Z.to_nat (Z.of_nat (GetLength y) + 1)) with (S (GetLength y)) by lia.
  destruct (Hnorm v Dv Lv Ev) as (v1 & Hv1 & Hn1).
  eapply returns_bind; [apply (for_down_returns (roundInv v remainder (data u) m))|].
  { eapply roundInv_init with (x := x) (y := y) (s := CountLeadingZeros d); auto; lia. }
  { intros i st Hi. rewrite <- Lv. apply (roundInv_step v remainder (data u) v1 m); auto; [lia|].
    unfold GetLength in *. lia. }
  intros [[u' qv'] quotient'] (Lu' & Du' & _ & _ & _ & q & Hq & E & Hlt & Hquo').
  rewrite !drop_0, Eu, Ev in E; rewrite drop_0, Ev in Hlt.
  pose proof (wf_eval_lower _ Hy Ly) as By. pose proof (pw_pos (GetLength y - 1)).
  destruct (scaled_divmod (eval (data x)) (eval (data y)) (2 ^ CountLeadingZeros d) q (eval (data u'))) as [Eq Er];
    [apply pow2_pos; lia|lia|lia|split; [apply eval_bounds; done|lia]|].
  unfold divPost. destruct (IsNull remainder) eqn:Enull; cbn [negb].
  - rewrite bind_Ok. apply returns_ok. cbn [fst snd].
    destruct quotient' as [| |b]; cbn [quotientInv] in Hquo'; try congruence.
    destruct Hquo' as (_ & Lb & _ & Db & Eb). rewrite drop_0 in Eb. exists b.
    unfold magnitude. split_and!; auto; try lia.
  - rewrite bind_assoc. eapply returns_bind; [apply UnformattedRightShift_returns; auto; unfold GetLength in *; lia|].
    cbv beta. intros b (Db & Lb & _ & Eb). rewrite !bind_Ok. apply returns_ok. cbn [fst snd]. exists b.
    unfold magnitude, GetLength in *. split_and!; auto; try lia.
Qed.
End LongDivision.

(** The loop of the short division, after the digits from [k] on. *)
Definition shortInv (X : list Z) (D : Z) (k : nat) (q r : Z) : Prop :=
  eval (drop k X) = D * q + r /\ 0 <= r < D /\ 0 <= q.

Lemma shortInv_step X D i d q r : 0 < D < BASE -> X !! i = Some d -> is_u32 d -> shortInv X D (S i) q r ->
  returns (DivideAndRemainder r d D) (fun s =>
    s.2 = (r * BASE + d) mod D /\ is_u32 s.1 /\ shortInv X D i (s.1 + BASE * q) s.2).
Proof.
  intros HD Hi Hd (E & Hr & Hq).
  eapply returns_mono; [apply DivideAndRemainder_returns; auto|]. cbv beta.
  intros [q' r'] (Eq & Er & Hq'). cbn [fst snd] in *. split_and!; auto.
  pose proof (Z.div_mod (r * BASE + d) D ltac:(lia)) as Ed. rewrite <- Eq, <- Er in Ed.
  pose proof (Z.mod_pos_bound (r * BASE + d) D ltac:(lia)) as Hm. rewrite <- Er in Hm.
  unfold shortInv. rewrite (drop_S _ _ _ Hi). cbn [eval]. rewrite E.
  unfold is_u32 in Hq'. split_and!; [lia|lia|lia|pose proof BASE_pos; nia].
Qed.

Lemma shortDivision_returns x D remainder : wf x -> 0 < D < BASE ->
  returns (DivideAndRemainderWithUint32Divisor x D remainder) (divPost (eval (data x)) D remainder).
Proof.
  intros Hx HD. pose proof (wf_digits _ Hx) as Dx. pose proof (wf_max _ Hx). pose proof (wf_pos _ Hx).
  unfold DivideAndRemainderWithUint32Divisor, divPost. destruct (IsNull remainder); cbn [negb].
  - apply bind_CreateBigint; [done|]. eapply returns_bind.
    { apply (for_down_returns (fun k '(r, b) => Forall is_u32 (data b) /\ GetLength b = GetLength x /\
        shortInv (data x) D k (eval (drop k (data b))) r)).
      - unfold shortInv, GetLength. cbn [data]. rewrite length_replicate, !drop_ge
          by (rewrite ?length_replicate; lia). split_and!; auto with ark; cbn [eval]; lia.
      - intros i [r b] Hi (Db & Lb & Hinv). digit_step; [done|].
        eapply returns_bind; [apply shortInv_step; eauto with ark|]. cbv beta.
        intros [q' r'] (_ & Hq' & Hinv'). cbn [fst snd] in *. digit_step; [lia|]. apply returns_ok.
        unfold GetLength in *. cbn [data]. rewrite length_insert. split_and!; auto with ark.
        rewrite (drop_S _ q') by (apply list_lookup_insert_eq; lia). cbn [eval].
        by rewrite drop_insert_lt by lia. }
    intros [r b] (Db & Lb & E & Hr & Hq). rewrite !drop_0 in *. apply returns_ok. exists b. split; [done|].
    unfold magnitude. rewrite Lb. split_and!; auto. apply (Z.div_unique _ _ _ r); lia.
  - eapply returns_bind.
    { apply (for_down_returns (fun k '(r, s) => (exists q, shortInv (data x) D k q r) /\
        ((k < GetLength x)%nat -> Uint32ToBigInt r = Ok (mkBigInt false [r]) /\ s = SlotBigInt (mkBigInt false [r])))).
      - split; [|lia]. exists 0. unfold shortInv. rewrite drop_ge by (unfold GetLength; lia). cbn [eval]. lia.
      - intros i [r s] Hi [(q & Hinv) _]. digit_step; [done|].
        eapply returns_bind; [apply shortInv_step; eauto with ark|]. cbv beta.
        intros [q' r'] (_ & Hq' & Hinv'). cbn [fst snd] in *. apply returns_ok. eauto 10. }
    intros [r s] [(q & E & Hr & Hq) Hs]. destruct Hs as [_ ->]; [lia|]. apply returns_ok.
    cbn [snd]. eexists. split; [done|]. rewrite drop_0 in E. unfold magnitude, GetLength. cbn [data length eval].
    split_and!; [repeat constructor; unfold is_u32; lia|lia|rewrite MAXSIZE_eq; lia|].
    rewrite <- (Z.mod_unique (eval (data x)) D q r); lia.
Qed.

(** ** Signed division *)

(** The long division needs one digit more than the dividend has. *)
Definition divTooLong (x y : BigInt) : bool :=
  (MAXSIZE <=? Z.of_nat (GetLength x)) && (2 <=? GetLength y)%nat && (Z.abs (toZ y) <? Z.abs (toZ x)).

(** The dispatch on the length of the divisor shared by [Divide] and [Remainder]. *)
Definition divideDispatch (x y : BigInt) (remainder : Slot) : result (Slot * Slot) :=
  if IsUint32 y then d ← GetDigit y 0; DivideAndRemainderWithUint32Divisor x d remainder
  else DivideAndRemainderWithBigintDivisor x y remainder.

Lemma divideDispatch_spec x y remainder : wf x -> wf y -> toZ y <> 0 -> Z.abs (toZ y) < Z.abs (toZ x) ->
  if divTooLong x y then divideDispatch x y remainder = Err SizeExceeded
  else returns (divideDispatch x y remainder) (divPost (Z.abs (toZ x)) (Z.abs (toZ y)) remainder).
Proof.
  intros Hx Hy H0 Hlt. unfold divTooLong, divideDispatch, IsUint32.
  rewrite (proj2 (Z.ltb_lt _ _) Hlt), andb_true_r, <- !wf_abs by done.
  rewrite <- !wf_abs in Hlt by done.
  pose proof (wf_pos _ Hy) as Ly. destruct (decide (GetLength y = 1%nat)) as [E1|E1].
  - rewrite E1, andb_false_r, bool_decide_true by done.
    apply bind_GetDigit; [lia|]. intros d Hd.
    assert (eval (data y) = d) as Ed.
    { destruct y as [s [|d' [|]]]; cbn in *; try lia. injection Hd as ->. lia. }
    pose proof (digit_range _ _ _ (wf_digits _ Hy) Hd) as Hr. unfold is_u32 in Hr.
    pose proof (wf_abs _ Hy) as Ea. rewrite Ed in *. apply shortDivision_returns; [done|lia].
  - rewrite bool_decide_false by lia. rewrite (proj2 (Nat.leb_le 2 _)), andb_true_r by lia.
    assert (GetLength y <= GetLength x)%nat.
    { destruct (decide (GetLength y <= GetLength x)%nat); [done|].
      pose proof (wf_eval_bounds _ Hx). pose proof (wf_eval_lower _ Hy ltac:(lia)).
      pose proof (pw_mono (GetLength x) (GetLength y - 1) ltac:(lia)). lia. }
    destruct (Z.leb_spec MAXSIZE (Z.of_nat (GetLength x))).
    + apply longDivision_error; auto. lia.
    + apply longDivision_returns; auto. lia.
Qed.

Lemma magnitude_SetSign b z s : magnitude b z ->
  returns (RightTruncate (SetSign b s)) (fun r => wf r /\ toZ r = if s then - z else z).
Proof.
  intros (Db & Lb & Mb & Eb). eapply returns_mono; [by apply RightTruncate_returns|]. cbv beta.
  intros r [Hr ->]. split; [done|]. unfold toZ. cbn [Sign SetSign data]. by rewrite Eb.
Qed.

Lemma quot_signs x y : wf x -> wf y -> toZ y <> 0 ->
  Z.quot (toZ x) (toZ y) =
    if negb (Bool.eqb (Sign x) (Sign y)) then - (Z.abs (toZ x) / Z.abs (toZ y))
    else Z.abs (toZ x) / Z.abs (toZ y).
Proof.
  intros Hx Hy H0. rewrite <- !wf_abs by done. pose proof (wf_eval_bounds _ Hx) as Bx.
  pose proof (wf_eval_bounds _ Hy) as By. unfold toZ in *.
  destruct (Sign x), (Sign y); cbn [Bool.eqb negb];
    rewrite ?Z.quot_opp_opp, ?Z.quot_opp_l, ?Z.quot_opp_r by lia; by rewrite Z.quot_div_nonneg by lia.
Qed.

Lemma rem_signs x y : wf x -> wf y -> toZ y <> 0 ->
  Z.rem (toZ x) (toZ y) =
    if Sign x then - (Z.abs (toZ x) mod Z.abs (toZ y)) else Z.abs (toZ x) mod Z.abs (toZ y).
Proof.
  intros Hx Hy H0. rewrite <- !wf_abs by done. pose proof (wf_eval_bounds _ Hx) as Bx.
  pose proof (wf_eval_bounds _ Hy) as By. unfold toZ in *.
  destruct (Sign x), (Sign y);
    rewrite ?Z.rem_opp_opp, ?Z.rem_opp_l, ?Z.rem_opp_r by lia; by rewrite Z.rem_mod_nonneg by lia.
Qed.

(** [y] is the BigInt one, up to its sign. *)
Lemma isOne_eq y : wf y ->
  (if IsUint32 y then d ← GetDigit y 0; Ok (d =? 1) else Ok false) = Ok (Z.abs (toZ y) =? 1).
Proof.
  intros Hy. rewrite <- wf_abs by done. unfold IsUint32. case_bool_decide as H1.
  - destruct y as [s [|d [|]]]; try discriminate H1. cbn. by rewrite Z.mul_0_r, Z.add_0_r.
  - pose proof (wf_pos _ Hy). pose proof (wf_eval_lower _ Hy ltac:(lia)) as Hl.
    replace (GetLength y - 1)%nat with (S (GetLength y - 2)) in Hl by lia. rewrite pw_S in Hl.
    pose proof (pw_pos (GetLength y - 2)). pose proof BASE_gt_2.
    symmetry. f_equal. apply Z.eqb_neq. nia.
Qed.

Lemma divTooLong_le x y : Z.abs (toZ x) <= Z.abs (toZ y) -> divTooLong x y = false.
Proof. intros H. unfold divTooLong. by rewrite (proj2 (Z.ltb_ge _ _) H), andb_false_r. Qed.

Lemma divTooLong_one x y : wf y -> Z.abs (toZ y) = 1 -> divTooLong x y = false.
Proof.
  intros Hy H1. pose proof (isOne_eq y Hy) as E. rewrite H1 in E. unfold IsUint32 in E.
  case_bool_decide as L1; [|discriminate]. unfold divTooLong. by rewrite L1, andb_false_r.
Qed.

(** The general case of [Divide]: [|x| > |y|], [y] not a unit. *)
Lemma Divide_general x y : wf x -> wf y -> toZ y <> 0 -> Z.abs (toZ y) < Z.abs (toZ x) ->
  let sign := negb (Bool.eqb (Sign x) (Sign y)) in
  let run := ('(quotient, _) ← divideDispatch x y SlotNull;
              q ← slotBigInt quotient; RightTruncate (SetSign q sign)) in
  if divTooLong x y then run = Err SizeExceeded
  else returns run (fun z => wf z /\ toZ z = Z.quot (toZ x) (toZ y)).
Proof.
  intros Hx Hy H0 Hgt sign run. pose proof (divideDispatch_spec x y SlotNull Hx Hy H0 Hgt) as H.
  unfold run. destruct (divTooLong x y); [by rewrite H|].
  eapply returns_bind; [exact H|]. intros [q r] (b & Eb & Hb). cbn [fst] in Eb. subst q.
  cbn [slotBigInt]. rewrite bind_Ok. eapply returns_mono; [by apply magnitude_SetSign|]. cbv beta.
  intros z [Hz ->]. split; [done|]. by rewrite quot_signs.
Qed.

Lemma Divide_spec x y : wf x -> wf y ->
  if bool_decide (toZ y = 0) then Divide x y = Err DivisionByZero
  else if divTooLong x y then Divide x y = Err SizeExceeded
  else returns (Divide x y) (fun z => wf z /\ toZ z = Z.quot (toZ x) (toZ y)).
Proof.
  intros Hx Hy. unfold Divide. rewrite IsZero_eq, bind_Ok by done. case_bool_decide as H0; [done|].
  rewrite AbsolutelyCompare_eq, bind_Ok, isOne_eq, bind_Ok by done. rewrite !wf_abs by done.
  pose proof (quot_signs x y Hx Hy H0) as Eq. unfold GetSign. set (sg := negb _) in *.
  destruct (Z.lt_trichotomy (Z.abs (toZ x)) (Z.abs (toZ y))) as [Hlt|[Heq|Hgt]].
  - rewrite cmpZ_less, bool_decide_true, divTooLong_le by (done || lia).
    eapply returns_mono; [apply Int32ToBigInt_returns; unfold is_i32; lia|]. cbv beta.
    intros z (Hz & -> & _). split; [done|]. rewrite Eq, Z.div_small by lia. by destruct sg.
  - rewrite cmpZ_equal, bool_decide_false, bool_decide_true, divTooLong_le by (done || lia).
    rewrite Int32One, bind_Ok. apply returns_ok. rewrite toZ_SetSign, toZ_lit_one by apply wf_one.
    split; [by apply wf_SetSign; [apply wf_one|]|]. rewrite Eq, Heq, Z.div_same by lia. by destruct sg.
  - rewrite cmpZ_great, !bool_decide_false by done. destruct (Z.eqb_spec (Z.abs (toZ y)) 1) as [H1|H1].
    + rewrite divTooLong_one by done. rewrite H1, Z.div_1_r, <- wf_abs in Eq by done.
      destruct (Bool.eqb sg (Sign x)) eqn:Es.
      * apply Bool.eqb_prop in Es. apply returns_ok. split; [done|]. rewrite Eq, Es. done.
      * apply Bool.eqb_false_iff in Es. eapply returns_mono; [by apply UnaryMinus_returns|]. cbv beta.
        intros z (Hz & -> & _). split; [done|]. rewrite Eq. unfold toZ.
        destruct sg, (Sign x); done || lia.
    + by apply Divide_general.
Qed.

Lemma Remainder_general x y : wf x -> wf y -> toZ y <> 0 -> Z.abs (toZ y) < Z.abs (toZ x) ->
  let run := ('(_, remainder) ← divideDispatch x y SlotUndefined;
              r ← slotBigInt remainder; RightTruncate (SetSign r (Sign x))) in
  if divTooLong x y then run = Err SizeExceeded
  else returns run (fun z => wf z /\ toZ z = Z.rem (toZ x) (toZ y)).
Proof.
  intros Hx Hy H0 Hgt run. pose proof (divideDispatch_spec x y SlotUndefined Hx Hy H0 Hgt) as H.
  unfold run. destruct (divTooLong x y); [by rewrite H|].
  eapply returns_bind; [exact H|]. intros [q r] (b & Eb & Hb). cbn [snd] in Eb. subst r.
  cbn [slotBigInt]. rewrite bind_Ok. eapply returns_mono; [by apply magnitude_SetSign|]. cbv beta.
  intros z [Hz ->]. split; [done|]. by rewrite rem_signs.
Qed.

Lemma Remainder_spec x y : wf x -> wf y ->
  if bool_decide (toZ y = 0) then Remainder x y = Err DivisionByZero
  else if divTooLong x y then Remainder x y = Err SizeExceeded
  else returns (Remainder x y) (fun z => wf z /\ toZ z = Z.rem (toZ x) (toZ y)).
Proof.
  intros Hx Hy. unfold Remainder. rewrite !IsZero_eq, bind_Ok by done. case_bool_decide as H0; [done|].
  rewrite AbsolutelyCompare_eq, !bind_Ok, isOne_eq by done. rewrite !wf_abs by done.
  pose proof (rem_signs x y Hx Hy H0) as Er.
  destruct (Z.lt_trichotomy (Z.abs (toZ x)) (Z.abs (toZ y))) as [Hlt|[Heq|Hgt]].
  - rewrite cmpZ_less, (bool_decide_true (LESS = LESS)), orb_true_r, divTooLong_le by (done || lia).
    apply returns_ok. split; [done|]. rewrite Er, Z.mod_small, <- wf_abs by (done || lia). done.
  - rewrite cmpZ_equal, (bool_decide_false (toZ x = 0)), (bool_decide_false (EQUAL = LESS)),
      (bool_decide_true (EQUAL = EQUAL)), divTooLong_le by (done || lia). cbn [orb]. rewrite bind_Ok.
    eapply returns_mono; [apply Int32ToBigInt_returns; unfold is_i32; lia|]. cbv beta.
    intros z (Hz & -> & _). split; [done|]. rewrite Er, Heq, Z.mod_same by lia. by destruct (Sign x).
  - rewrite cmpZ_great, (bool_decide_false (toZ x = 0)), (bool_decide_false (GREAT = LESS)),
      (bool_decide_false (GREAT = EQUAL)) by (done || lia). cbn [orb]. rewrite bind_Ok.
    destruct (Z.eqb_spec (Z.abs (toZ y)) 1) as [H1|H1]; [|by apply Remainder_general].
    rewrite divTooLong_one by done.
    eapply returns_mono; [apply Int32ToBigInt_returns; unfold is_i32; lia|]. cbv beta.
    intros z (Hz & -> & _). split; [done|]. rewrite Er, H1, Z.mod_1_r. by destruct (Sign x).
Qed.

Lemma FloorMod_spec x y : wf x -> wf y -> 0 < toZ y ->
  if divTooLong x y then FloorMod x y = Err SizeExceeded
  else returns (FloorMod x y) (fun z => wf z /\ toZ z = toZ x mod toZ y).
Proof.
  intros Hx Hy H0. unfold FloorMod. pose proof (Remainder_spec x y Hx Hy) as H.
  rewrite bool_decide_false in H by lia. destruct (divTooLong x y); [by rewrite H|].
  eapply returns_bind; [exact H|]. cbv beta. intros r [Hr Er]. rewrite IsZero_eq, bind_Ok by done.
  pose proof (Z.quot_rem' (toZ x) (toZ y)) as Eq. rewrite <- Er in Eq.
  pose proof (wf_sign _ Hx) as Sx. unfold GetSign.
  destruct (Sign x && negb (bool_decide (toZ r = 0))) eqn:Ec.
  - apply andb_true_iff in Ec as [Es Hnz%negb_true_iff%bool_decide_eq_false]. rewrite Es in Sx.
    symmetry in Sx. apply Z.ltb_lt in Sx.
    pose proof (Z.rem_bound_pos_neg (toZ x) (toZ y) H0 ltac:(lia)) as Hb. rewrite <- Er in Hb.
    pose proof (Add_spec r y Hr Hy) as HA. rewrite (wf_sign _ Hr), (wf_sign _ Hy),
      (proj2 (Z.ltb_lt (toZ r) 0)), (proj2 (Z.ltb_ge (toZ y) 0)) in HA by lia. cbn [Bool.eqb andb] in HA.
    eapply returns_mono; [exact HA|]. cbv beta. intros z [Hz ->]. split; [done|].
    apply (Z.mod_unique _ _ (Z.quot (toZ x) (toZ y) - 1)); lia.
  - apply returns_ok. split; [done|]. destruct (Sign x) eqn:Es; cbn [andb] in Ec.
    + apply negb_false_iff, bool_decide_eq_true in Ec. rewrite Ec in *.
      apply (Z.mod_unique _ _ (Z.quot (toZ x) (toZ y))); lia.
    + symmetry in Sx. apply Z.ltb_ge in Sx. rewrite Er, Z.rem_mod_nonneg by lia. done.
Qed.

(** ** Theorems *)

(** C1: Dividing BigInts throws "Division by zero" exactly for a zero divisor, throws the size
    error exactly when a dividend of maximal length is divided by a smaller divisor of several
    digits, and otherwise returns the normalised quotient truncated toward zero. *)
Theorem Divide_correct x y (Hx : wf x) (Hy : wf y) :
  if bool_decide (toZ y = 0) then Divide x y = Err DivisionByZero
  else if divTooLong x y then Divide x y = Err SizeExceeded
  else exists z, Divide x y = Ok z /\ wf z /\ toZ z = Z.quot (toZ x) (toZ y).
Proof.
  pose proof (Divide_spec x y Hx Hy) as H. do 2 (case_match; [done|]). by apply returns_iff.
Qed.

Lemma Divide_correct_witness :
  exists z, Divide (mkBigInt true [0; 0; 2147483648]) (mkBigInt false [1; 2147483648]) = Ok z /\ wf z /\
    toZ z = Z.quot (- 2 ^ 95) (2 ^ 63 + 1).
Proof.
  refine (Divide_correct (mkBigInt true [0; 0; 2147483648]) (mkBigInt false [1; 2147483648]) _ _);
    by apply wfb_wf.
Defined.

(** [Remainder] throws exactly as [Divide] does and otherwise returns the normalised
    remainder of the truncated division, with the sign of the dividend. *)
Theorem Remainder_correct x y (Hx : wf x) (Hy : wf y) :
  if bool_decide (toZ y = 0) then Remainder x y = Err DivisionByZero
  else if divTooLong x y then Remainder x y = Err SizeExceeded
  else exists z, Remainder x y = Ok z /\ wf z /\ toZ z = Z.rem (toZ x) (toZ y).
Proof.
  pose proof (Remainder_spec x y Hx Hy) as H. do 2 (case_match; [done|]). by apply returns_iff.
Qed.

Lemma Remainder_correct_witness :
  exists z, Remainder (mkBigInt true [0; 0; 2147483648]) (mkBigInt false [1; 2147483648]) = Ok z /\ wf z /\
    toZ z = Z.rem (- 2 ^ 95) (2 ^ 63 + 1).
Proof.
  refine (Remainder_correct (mkBigInt true [0; 0; 2147483648]) (mkBigInt false [1; 2147483648]) _ _);
    by apply wfb_wf.
Defined.

(** [FloorMod] by a positive modulus returns the representative between zero and the
    modulus; the final addition never exceeds the size limit. *)
Theorem FloorMod_correct x y (Hx : wf x) (Hy : wf y) (Hpos : 0 < toZ y) :
  if divTooLong x y then FloorMod x y = Err SizeExceeded
  else exists z, FloorMod x y = Ok z /\ wf z /\ toZ z = toZ x mod toZ y.
Proof.
  pose proof (FloorMod_spec x y Hx Hy Hpos) as H. case_match; [done|]. by apply returns_iff.
Qed.

Lemma FloorMod_correct_witness :
  exists z, FloorMod (mkBigInt true [7; 9]) (mkBigInt false [0; 4]) = Ok z /\ wf z /\
    toZ z = (- (9 * 2 ^ 32 + 7)) mod (4 * 2 ^ 32).
Proof.
  refine (FloorMod_correct (mkBigInt true [7; 9]) (mkBigInt false [0; 4]) _ _ _); by try apply wfb_wf.
Defined.
