(* ===== verification/BigIntBits.v ===== *)
(** * BigInt bitwise logic

    [BitwiseOp], [BitwiseSubOne], [OneIsNegativeAND], [OneIsNegativeOR], [OneIsNegativeXOR],
    [BitwiseAND], [BitwiseOR] and [BitwiseXOR] of src/ecmascript/js_bigint.cpp.  The operators
    work on sign and magnitude; the theorems relate them to the two's complement operators
    [Z.land], [Z.lor] and [Z.lxor] on the integers denoted. *)

From Stdlib Require Import ZArith Lia.
From S2P Require Import Prelude BigIntBase BigIntAdd BigIntShift.

(** ** Model *)

Inductive Operate := OpAND | OpOR | OpXOR.

#[export] Instance Operate_eq_dec : EqDecision Operate.
Proof. solve_decision. Defined.

Definition applyOp (op : Operate) (dx dy : Z) : Z :=
  match op with OpOR => Z.lor dx dy | OpAND => Z.land dx dy | OpXOR => Z.lxor dx dy end.

Definition BitwiseOp (op : Operate) (x y : BigInt) : result BigInt :=
  let xlen := GetLength x in
  let ylen := GetLength y in
  let '(maxLen, minLen) := if (ylen <? xlen)%nat then (xlen, ylen) else (ylen, xlen) in
  bigint ← CreateBigint (Z.of_nat maxLen);
  bigint ← for_up minLen 0 (fun i bigint =>
    dx ← GetDigit x i; dy ← GetDigit y i;
    SetDigit bigint i (applyOp op dx dy)) bigint;
  bigint ← (match op with
            | OpAND => Ok bigint
            | OpOR | OpXOR =>
              if (ylen <? xlen)%nat then
                for_up (xlen - ylen) ylen (fun i bigint =>
                  dx ← GetDigit x i; SetDigit bigint i dx) bigint
              else if (xlen <? ylen)%nat then
                for_up (ylen - xlen) xlen (fun i bigint =>
                  dy ← GetDigit y i; SetDigit bigint i dy) bigint
              else Ok bigint
            end);
  RightTruncate bigint.

Definition BitwiseSubOne (bigint : BigInt) (maxLen : nat) : result BigInt :=
  newBigint ← CreateBigint (Z.of_nat maxLen);
  '(newBigint, _) ← for_up (GetLength bigint) 0 (fun i '(newBigint, carry) =>
    d ← GetDigit bigint i;
    let '(v, bigintCarry) := SubHelper d carry 0 in
    newBigint ← SetDigit newBigint i v;
    Ok (newBigint, bigintCarry)) (newBigint, 1);
  RightTruncate newBigint.

(** [~d] on [uint32_t]. *)
Definition not32 (d : Z) : Z := u32 (Z.lnot d).

(** [x & ~(y-1)] on the magnitudes. *)
Definition OneIsNegativeAND (x y : BigInt) : result BigInt :=
  yVal ← BitwiseSubOne y (GetLength y);
  let xLength := GetLength x in
  let yLength := GetLength yVal in
  let minLen := if (yLength <? xLength)%nat then yLength else xLength in
  newBigint ← CreateBigint (Z.of_nat xLength);
  newBigint ← for_up minLen 0 (fun i newBigint =>
    dx ← GetDigit x i; dy ← GetDigit yVal i;
    SetDigit newBigint i (Z.land dx (not32 dy))) newBigint;
  newBigint ← for_up (xLength - minLen) minLen (fun i newBigint =>
    dx ← GetDigit x i; SetDigit newBigint i dx) newBigint;
  RightTruncate newBigint.

Definition BitwiseAND (x y : BigInt) : result BigInt :=
  if GetSign x && GetSign y then
    xVal ← BitwiseSubOne x (GetLength x);
    yVal ← BitwiseSubOne y (GetLength y);
    temp ← BitwiseOp OpOR xVal yVal;
    BitwiseAddOne temp
  else if negb (Bool.eqb (GetSign x) (GetSign y)) then
    if negb (GetSign x) then OneIsNegativeAND x y else OneIsNegativeAND y x
  else BitwiseOp OpAND x y.

Definition OneIsNegativeXOR (x y : BigInt) : result BigInt :=
  yVal ← BitwiseSubOne y (GetLength y);
  temp ← BitwiseOp OpXOR x yVal;
  BitwiseAddOne temp.

Definition BitwiseXOR (x y : BigInt) : result BigInt :=
  if GetSign x && GetSign y then
    xVal ← BitwiseSubOne x (GetLength x);
    yVal ← BitwiseSubOne y (GetLength y);
    BitwiseOp OpXOR xVal yVal
  else if negb (Bool.eqb (GetSign x) (GetSign y)) then
    if negb (GetSign x) then OneIsNegativeXOR x y else OneIsNegativeXOR y x
  else BitwiseOp OpXOR x y.

(** [(y-1) & ~x] on the magnitudes, plus one and negated. *)
Definition OneIsNegativeOR (x y : BigInt) : result BigInt :=
  let xLength := GetLength x in
  let maxLen := if (xLength <? GetLength y)%nat then GetLength y else xLength in
  yVal ← BitwiseSubOne y maxLen;
  let yLength := GetLength yVal in
  let minLen := if (yLength <? xLength)%nat then yLength else xLength in
  newBigint ← CreateBigint (Z.of_nat yLength);
  newBigint ← for_up minLen 0 (fun i newBigint =>
    dx ← GetDigit x i; dy ← GetDigit yVal i;
    SetDigit newBigint i (Z.land (not32 dx) dy)) newBigint;
  newBigint ← for_up (yLength - minLen) minLen (fun i newBigint =>
    dy ← GetDigit yVal i; SetDigit newBigint i dy) newBigint;
  temp ← RightTruncate newBigint;
  res ← BitwiseAddOne temp;
  Ok (SetSign res true).

Definition BitwiseOR (x y : BigInt) : result BigInt :=
  if GetSign x && GetSign y then
    let maxLen := GetLength x in
    let yLen := GetLength y in
    let maxLen := if (maxLen <? yLen)%nat then yLen else maxLen in
    xVal ← BitwiseSubOne x maxLen;
    yVal ← BitwiseSubOne y yLen;
    temp ← BitwiseOp OpAND xVal yVal;
    res ← BitwiseAddOne temp;
    Ok (SetSign res true)
  else if negb (Bool.eqb (GetSign x) (GetSign y)) then
    if negb (GetSign x) then OneIsNegativeOR x y else OneIsNegativeOR y x
  else BitwiseOp OpOR x y.

(** ** Digits and bits *)

(** Digit [i], zero above the top. *)
Definition dig (l : list Z) (i : nat) : Z := default 0 (l !! i).

Lemma dig_u32 l i : Forall is_u32 l -> is_u32 (dig l i).
Proof. intros H. unfold dig. destruct (l !! i) eqn:E; cbn; eauto with ark. Qed.

Lemma dig_lookup l i d : l !! i = Some d -> dig l i = d.
Proof. unfold dig. by intros ->. Qed.

Lemma dig_above l i : (length l <= i)%nat -> dig l i = 0.
Proof. intros H. unfold dig. by rewrite lookup_ge_None_2. Qed.

(** Bits [32 i .. 32 i + 31] of the value are the bits of digit [i]. *)
Lemma eval_testbit l i j : Forall is_u32 l -> 0 <= j < 32 ->
  Z.testbit (eval l) (32 * Z.of_nat i + j) = Z.testbit (dig l i) j.
Proof.
  intros Hl Hj. revert i. induction Hl as [|d l Hd Hl IH]; intros i.
  { unfold dig. rewrite lookup_nil. cbn. by rewrite !Z.bits_0. }
  cbn [eval]. assert (d + BASE * eval l = Z.lor (Z.shiftl (eval l) 32) d) as ->.
  { rewrite Z.shiftl_mul_pow2 by lia. change (2 ^ 32) with BASE.
    rewrite (lor_add _ _ 32); [lia|lia|by rewrite Z.mod_mul|done]. }
  rewrite Z.lor_spec. destruct i as [|i].
  - rewrite Z.shiftl_spec_low by lia. unfold dig. cbn. done.
  - rewrite Z.shiftl_spec by lia.
    replace (32 * Z.of_nat (S i) + j - 32) with (32 * Z.of_nat i + j) by lia. rewrite IH.
    rewrite (Z.bits_above_log2 d); [apply orb_false_r|apply Hd|].
    destruct (decide (d = 0)) as [->|]; [cbn; lia|].
    assert (Z.log2 d < 32) by (apply Z.log2_lt_pow2; unfold is_u32 in Hd; change (2 ^ 32) with BASE; lia). lia.
Qed.

(** A function of the digits that is a bitwise operator is that operator on the values. *)
Lemma eval_bitwise (f : bool -> bool -> bool) (op : Z -> Z -> Z) (l x y : list Z) :
  (forall a b n, 0 <= n -> Z.testbit (op a b) n = f (Z.testbit a n) (Z.testbit b n)) ->
  Forall is_u32 l -> Forall is_u32 x -> Forall is_u32 y ->
  (forall i, dig l i = op (dig x i) (dig y i)) -> eval l = op (eval x) (eval y).
Proof.
  intros Hop Hl Hx Hy Hd. apply Z.bits_inj'. intros n Hn.
  pose proof (Z.div_mod n 32 ltac:(lia)) as E. pose proof (Z.mod_pos_bound n 32 ltac:(lia)).
  rewrite Hop by lia. rewrite E, <- (Z2Nat.id (n / 32)) by (apply Z.div_pos; lia).
  rewrite !eval_testbit by done. rewrite Hd. apply Hop. lia.
Qed.

Section OpRange.
  Context (f : bool -> bool -> bool) (op : Z -> Z -> Z).
  Context (Hop : forall a b n, 0 <= n -> Z.testbit (op a b) n = f (Z.testbit a n) (Z.testbit b n)).
  Context (Hf : f false false = false).

Lemma testbit_u32_high d n : is_u32 d -> 32 <= n -> Z.testbit d n = false.
Proof.
  intros Hd Hn. rewrite <- (Z.mod_small d BASE) by exact Hd. change BASE with (2 ^ 32).
  by apply Z.mod_pow2_bits_high.
Qed.

Lemma op_u32 a b : is_u32 a -> is_u32 b -> is_u32 (op a b).
Proof.
  intros Ha Hb. assert (op a b = op a b mod 2 ^ 32) as ->; [|apply Z.mod_pos_bound; done].
  apply Z.bits_inj'. intros n Hn. destruct (Z.lt_ge_cases n 32).
  - by rewrite Z.mod_pow2_bits_low.
  - rewrite Z.mod_pow2_bits_high, Hop, !testbit_u32_high by (done || lia). done.
Qed.
End OpRange.

Lemma GetDigit_dig x i : (i < GetLength x)%nat -> GetDigit x i = Ok (dig (data x) i).
Proof.
  intros H. unfold GetDigit, get, dig. destruct (lookup_lt_is_Some_2 (data x) i H) as [d Hd].
  by rewrite Hd.
Qed.

(** The destination after digits [0 .. i - 1] were set to [g]. *)
Definition fillInv (L : nat) (g : nat -> Z) (i : nat) (b : BigInt) : Prop :=
  Forall is_u32 (data b) /\ GetLength b = L /\ Sign b = false /\
  forall j, dig (data b) j = if (j <? i)%nat then g j else 0.

Lemma fillInv_init L g : fillInv L g 0 (mkBigInt false (replicate L 0)).
Proof.
  unfold fillInv, GetLength. cbn [data Sign]. rewrite length_replicate. split_and!; auto with ark.
  intros j. unfold dig. cbn. destruct (decide (j < L)%nat).
  - by rewrite lookup_replicate_2.
  - by rewrite lookup_ge_None_2 by (rewrite length_replicate; lia).
Qed.

Lemma fillInv_step L g i b : fillInv L g i b -> (i < L)%nat -> is_u32 (g i) ->
  fillInv L g (S i) (mkBigInt (Sign b) (<[i:=g i]> (data b))).
Proof.
  intros (Db & Lb & Sb & Hb) Hi Hg. unfold fillInv, GetLength in *. cbn [data Sign].
  rewrite length_insert. split_and!; auto with ark. intros j. specialize (Hb j). unfold dig in *.
  destruct (decide (i = j)) as [->|Hne].
  - rewrite list_lookup_insert_eq by lia. by rewrite (proj2 (Nat.ltb_lt j (S j))) by lia.
  - rewrite list_lookup_insert_ne by done. rewrite Hb.
    destruct (Nat.ltb_spec j i), (Nat.ltb_spec j (S i)); lia || done.
Qed.

Lemma fill_loop L g n lo body b :
  fillInv L g lo b -> (lo + n <= L)%nat ->
  (forall i b', (lo <= i < lo + n)%nat -> is_u32 (g i) /\ body i b' = SetDigit b' i (g i)) ->
  returns (for_up n lo body b) (fillInv L g (lo + n)).
Proof.
  intros Hb Hn Hbody. apply for_up_returns; [done|]. intros i b' Hi Hinv.
  destruct (Hbody i b' Hi) as [Hg ->]. pose proof Hinv as (_ & Lb & _).
  unfold SetDigit, set. rewrite decide_True by (unfold GetLength in *; lia). apply returns_ok.
  apply fillInv_step; auto. lia.
Qed.

Lemma filled_digit L g b j : fillInv L g L b -> (j < L)%nat -> dig (data b) j = g j.
Proof. intros (_ & _ & _ & H) Hj. rewrite H. by rewrite (proj2 (Nat.ltb_lt _ _) Hj). Qed.

(** ** The magnitude operators *)

Definition opBool (op : Operate) : bool -> bool -> bool :=
  match op with OpAND => andb | OpOR => orb | OpXOR => xorb end.

Lemma applyOp_spec op a b n : 0 <= n ->
  Z.testbit (applyOp op a b) n = opBool op (Z.testbit a n) (Z.testbit b n).
Proof. intros. destruct op; [apply Z.land_spec|apply Z.lor_spec|apply Z.lxor_spec]. Qed.

Lemma applyOp_u32 op a b : is_u32 a -> is_u32 b -> is_u32 (applyOp op a b).
Proof. apply (op_u32 (opBool op)); [apply applyOp_spec|by destruct op]. Qed.

Lemma applyOp_0 op a : applyOp op a 0 = (match op with OpAND => 0 | _ => a end) /\
  applyOp op 0 a = (match op with OpAND => 0 | _ => a end).
Proof.
  destruct op; cbn [applyOp]; rewrite ?Z.land_0_r, ?Z.lor_0_r, ?Z.lxor_0_r, ?Z.lor_0_l, ?Z.lxor_0_l; done.
Qed.

Lemma RightTruncate_value b z : Forall is_u32 (data b) -> (1 <= GetLength b)%nat ->
  Z.of_nat (GetLength b) <= MAXSIZE -> Sign b = false -> eval (data b) = z ->
  returns (RightTruncate b) (fun r => wf r /\ toZ r = z).
Proof.
  intros Db Lb Mb Sb <-. eapply returns_mono; [by apply RightTruncate_returns|]. cbv beta.
  intros r [Hr ->]. split; [done|]. unfold toZ. by rewrite Sb.
Qed.

Section Combine.
  Context (op : Operate) (x y : BigInt) (Hx : wf x) (Hy : wf y).
Let lx := GetLength x.
Let ly := GetLength y.
Let L := Nat.max lx ly.

(** The digits of the result. *)
Definition opDigit (i : nat) : Z := applyOp op (dig (data x) i) (dig (data y) i).

Lemma opDigit_u32 i : is_u32 (opDigit i).
Proof. apply applyOp_u32; apply dig_u32; by apply wf_digits. Qed.

Lemma opDigit_x i : (ly <= i)%nat -> opDigit i = match op with OpAND => 0 | _ => dig (data x) i end.
Proof. intros Hi. unfold opDigit. rewrite (dig_above (data y)) by done. apply applyOp_0. Qed.

Lemma opDigit_y i : (lx <= i)%nat -> opDigit i = match op with OpAND => 0 | _ => dig (data y) i end.
Proof. intros Hi. unfold opDigit. rewrite (dig_above (data x)) by done. apply applyOp_0. Qed.

Lemma opDigit_value b : fillInv L opDigit L b ->
  eval (data b) = applyOp op (eval (data x)) (eval (data y)).
Proof.
  intros (Db & Lb & _ & Hb). apply (eval_bitwise (opBool op)); auto using applyOp_spec, wf_digits.
  intros i. rewrite Hb. destruct (Nat.ltb_spec i L); [done|].
  rewrite (dig_above (data x)), (dig_above (data y)) by (unfold L, lx, ly, GetLength in *; lia).
  by destruct op.
Qed.

(** The digits above the shorter operand: copied, or left zero for AND. *)
Lemma restDigits b : fillInv L opDigit (Nat.min lx ly) b ->
  returns (match op with
           | OpAND => Ok b
           | OpOR | OpXOR =>
             if (ly <? lx)%nat then
               for_up (lx - ly) ly (fun i bigint => dx ← GetDigit x i; SetDigit bigint i dx) b
             else if (lx <? ly)%nat then
               for_up (ly - lx) lx (fun i bigint => dy ← GetDigit y i; SetDigit bigint i dy) b
             else Ok b
           end) (fillInv L opDigit L).
Proof.
  intros Hb. destruct (decide (op = OpAND)) as [E|Hop].
  - rewrite E at 1. apply returns_ok. destruct Hb as (Db & Lb & Sb & Hb). split_and!; auto.
    intros j. rewrite Hb. destruct (Nat.ltb_spec j (Nat.min lx ly)), (Nat.ltb_spec j L); try (done || lia).
    destruct (decide (j < lx)%nat); [rewrite opDigit_x|rewrite opDigit_y]; rewrite ?E; done || lia.
  - assert (returns (if (ly <? lx)%nat then
        for_up (lx - ly) ly (fun i bigint => dx ← GetDigit x i; SetDigit bigint i dx) b
      else if (lx <? ly)%nat then
        for_up (ly - lx) lx (fun i bigint => dy ← GetDigit y i; SetDigit bigint i dy) b
      else Ok b) (fillInv L opDigit L)) as H; [|by destruct op].
    destruct (Nat.ltb_spec ly lx); [|destruct (Nat.ltb_spec lx ly)].
    + replace (fillInv L opDigit L) with (fillInv L opDigit (ly + (lx - ly))) by (f_equal; lia).
      rewrite Nat.min_r in Hb by lia. apply fill_loop; [done|lia|]. intros i b' Hi.
      split; [apply opDigit_u32|]. rewrite GetDigit_dig, opDigit_x by (fold lx; lia). by destruct op.
    + replace (fillInv L opDigit L) with (fillInv L opDigit (lx + (ly - lx))) by (f_equal; lia).
      rewrite Nat.min_l in Hb by lia. apply fill_loop; [done|lia|]. intros i b' Hi.
      split; [apply opDigit_u32|]. rewrite GetDigit_dig, opDigit_y by (fold ly; lia). by destruct op.
    + apply returns_ok. by replace L with (Nat.min lx ly) at 2 by lia.
Qed.

Lemma BitwiseOp_returns :
  returns (BitwiseOp op x y) (fun z => wf z /\ toZ z = applyOp op (Z.abs (toZ x)) (Z.abs (toZ y))).
Proof.
  rewrite <- !wf_abs by done. unfold BitwiseOp. fold lx ly.
  pose proof (wf_max _ Hx). pose proof (wf_max _ Hy). pose proof (wf_pos _ Hx). pose proof (wf_pos _ Hy).
  assert ((if (ly <? lx)%nat then (lx, ly) else (ly, lx)) = (L, Nat.min lx ly)) as ->
    by (destruct (Nat.ltb_spec ly lx); f_equal; lia).
  digit_step; [lia|]. rewrite Nat2Z.id.
  eapply returns_bind; [apply (fill_loop L opDigit); [apply fillInv_init|lia|]|].
  { intros i b Hi. split; [apply opDigit_u32|]. rewrite !GetDigit_dig by lia. done. }
  cbv beta. rewrite Nat.add_0_l. intros b Hb.
  eapply returns_bind; [by apply restDigits|]. intros b' Hb'. pose proof Hb' as (Db & Lb & Sb & _).
  apply RightTruncate_value; auto using opDigit_value; lia.
Qed.
End Combine.

(** The destination of [BitwiseSubOne] after digits [0 .. i - 1]; [c] is the borrow. *)
Definition subOneInv (y : BigInt) (L i : nat) (s : BigInt * Z) : Prop :=
  let '(b, c) := s in
  Forall is_u32 (data b) /\ GetLength b = L /\ Sign b = false /\ 0 <= c <= 1 /\
  drop i (data b) = replicate (L - i) 0 /\
  evalp (data b) i - pw i * c = evalp (data y) i - 1.

Lemma subOneInv_step y L i b c d : Forall is_u32 (data y) -> (i < L)%nat -> data y !! i = Some d ->
  subOneInv y L i (b, c) ->
  returns (let '(v, bigintCarry) := SubHelper d c 0 in
           newBigint ← SetDigit b i v; Ok (newBigint, bigintCarry)) (subOneInv y L (S i)).
Proof.
  intros Dy Hi Hd (Db & Lb & Sb & Hc & Hz & E). destruct (SubHelper d c 0) as [v c'] eqn:Es.
  pose proof BASE_gt_2. destruct (SubHelper_spec _ _ _ _ _ Es) as (Hv & Ev & Hc'); eauto with ark;
    [unfold is_u32; lia|lia|]. digit_step; [lia|]. apply returns_ok. unfold subOneInv, GetLength in *.
  cbn [data Sign]. rewrite length_insert. split_and!; auto with ark; [lia|lia|..].
  - rewrite drop_insert_lt by lia. replace (S i) with (i + 1)%nat by lia.
    rewrite <- drop_drop, Hz. rewrite drop_replicate. f_equal. lia.
  - rewrite evalp_insert_S, (evalp_S _ _ d Hd), pw_S by lia. nia.
Qed.

Lemma BitwiseSubOne_returns y L : wf y -> toZ y <> 0 -> (GetLength y <= L)%nat -> Z.of_nat L <= MAXSIZE ->
  returns (BitwiseSubOne y L) (fun z => wf z /\ toZ z = Z.abs (toZ y) - 1).
Proof.
  intros Hy H0 HL HM. pose proof (wf_pos _ Hy). pose proof (wf_digits _ Hy) as Dy.
  unfold BitwiseSubOne. digit_step; [done|]. rewrite Nat2Z.id.
  eapply returns_bind; [apply (for_up_returns (subOneInv y L))|].
  - unfold subOneInv, GetLength. cbn [data Sign]. rewrite length_replicate, drop_0, !evalp_0, pw_0, Nat.sub_0_r.
    split_and!; auto with ark; lia.
  - intros i [b c] Hi Hinv. digit_step; [lia|]. apply (subOneInv_step y L i b c); auto. lia.
  - cbv beta. rewrite Nat.add_0_l. intros [b c] (Db & Lb & Sb & Hc & Hz & E).
    unfold GetLength in *. rewrite (evalp_all (data y)) in E by lia.
    pose proof (evalp_bounds (data b) (length (data y)) Db ltac:(lia)) as Bb.
    pose proof (wf_eval_bounds _ Hy) as By. rewrite <- wf_abs by done. unfold GetLength in *.
    assert (eval (data y) <> 0) by (rewrite wf_abs by done; lia).
    apply RightTruncate_value; auto; unfold GetLength; [lia|lia|].
    rewrite (eval_take_drop (data b) (length (data y))), Hz, eval_replicate_0 by lia.
    assert (c = 0) as -> by nia. lia.
Qed.

(** [x & ~y] on digits. *)
Lemma land_not32 a b : is_u32 a -> is_u32 b -> Z.land a (not32 b) = Z.ldiff a b.
Proof.
  intros Ha Hb. apply Z.bits_inj'. intros n Hn. rewrite Z.land_spec, Z.ldiff_spec.
  unfold not32, u32. change BASE with (2 ^ 32). destruct (Z.lt_ge_cases n 32).
  - by rewrite Z.mod_pow2_bits_low, Z.lnot_spec.
  - by rewrite (testbit_u32_high a).
Qed.

Lemma ldiff_u32 a b : is_u32 a -> is_u32 b -> is_u32 (Z.ldiff a b).
Proof. apply (op_u32 (fun a b => a && negb b)); [intros; apply Z.ldiff_spec|done]. Qed.

(** The two loops of [OneIsNegativeAND] and [OneIsNegativeOR]: [x] with the bits of [y] cleared. *)
Lemma clearBits_returns {A} (x y : BigInt) (m : nat) (body1 body2 : nat -> BigInt -> result BigInt)
    (tail : BigInt -> result A) (Q : A -> Prop) :
  wf x -> wf y -> m = Nat.min (GetLength x) (GetLength y) ->
  (forall i b, (i < m)%nat -> body1 i b = SetDigit b i (Z.ldiff (dig (data x) i) (dig (data y) i))) ->
  (forall i b, (m <= i < GetLength x)%nat -> body2 i b = SetDigit b i (dig (data x) i)) ->
  (forall b, returns (RightTruncate b) (fun z => wf z /\ toZ z = Z.ldiff (Z.abs (toZ x)) (Z.abs (toZ y))) ->
     returns (tail b) Q) ->
  returns (b ← CreateBigint (Z.of_nat (GetLength x));
           b ← for_up m 0 body1 b; b ← for_up (GetLength x - m) m body2 b; tail b) Q.
Proof.
  intros Hx Hy Em H1 H2 Ht. pose proof (wf_max _ Hx). pose proof (wf_pos _ Hx).
  set (L := GetLength x) in *. set (g i := Z.ldiff (dig (data x) i) (dig (data y) i)).
  assert (forall i, is_u32 (g i)) as Hg by (intros; apply ldiff_u32; apply dig_u32; by apply wf_digits).
  digit_step; [done|]. rewrite Nat2Z.id.
  eapply returns_bind; [apply (fill_loop L g); [apply fillInv_init|lia|]|].
  { intros i b Hi. split; [done|]. apply H1. lia. }
  rewrite Nat.add_0_l. intros b Hb.
  eapply returns_bind; [apply (fill_loop L g); [exact Hb|lia|]|].
  { intros i b' Hi. split; [done|]. rewrite H2 by lia. unfold g.
    by rewrite (dig_above (data y)), Z.ldiff_0_r by (unfold GetLength in *; lia). }
  rewrite Nat.add_sub_assoc, Nat.add_comm, Nat.add_sub by lia. cbv beta.
  intros b' Hb'. pose proof Hb' as (Db & Lb & Sb & Hd).
  apply Ht, RightTruncate_value; auto; [lia|lia|]. rewrite <- !wf_abs by done.
  apply (eval_bitwise (fun a b => a && negb b)); auto using wf_digits; [intros; apply Z.ldiff_spec|].
  intros i. rewrite Hd. destruct (Nat.ltb_spec i L); [done|]. rewrite (dig_above (data x)) by done.
  by rewrite Z.ldiff_0_l.
Qed.

(** ** Two's complement *)

(** The integer needs more than [MAXBITS] bits. *)
Definition tooManyBits (z : Z) : bool := MAXBITS <=? Z.log2 (Z.abs z).

Lemma BitwiseAddOne_wf b : wf b -> Sign b = false ->
  if tooManyBits (Z.lnot (toZ b)) then BitwiseAddOne b = Err SizeExceeded
  else returns (BitwiseAddOne b) (fun z => wf z /\ toZ z = Z.lnot (toZ b)).
Proof.
  intros Hb Sb. pose proof (wf_eval_bounds _ Hb) as Bb. pose proof (wf_max _ Hb) as Mb.
  assert (toZ b = eval (data b)) as -> by (unfold toZ; by rewrite Sb).
  replace (Z.lnot (eval (data b))) with (- (eval (data b) + 1)) by (unfold Z.lnot; lia).
  pose proof (BitwiseAddOne_spec b (wf_digits _ Hb) (wf_pos _ Hb) Mb) as H.
  replace (tooManyBits _) with ((eval (data b) + 1 =? pw (GetLength b)) && (Z.of_nat (GetLength b) =? MAXSIZE));
    [done|]. clear H. unfold tooManyBits. rewrite Z.abs_opp, Z.abs_eq by lia. rewrite pw_bits in *.
  assert (MAXBITS = 32 * MAXSIZE) as EM by reflexivity. revert Mb EM. generalize MAXBITS MAXSIZE.
  intros M S Mb ->. apply Bool.eq_iff_eq_true.
  rewrite andb_true_iff, !Z.eqb_eq, Z.leb_le, <- Z.log2_le_pow2 by lia.
  split; [intros [-> ->]; lia|]. intros Hle.
  assert (32 * S <= 32 * Z.of_nat (GetLength b)) by (apply (Z.pow_le_mono_r_iff 2); lia).
  assert (Z.of_nat (GetLength b) = S) as E by lia. rewrite E in *. lia.
Qed.

Lemma negative_lnot y : wf y -> Sign y = true -> toZ y = Z.lnot (Z.abs (toZ y) - 1) /\ toZ y <> 0.
Proof.
  intros Hy Sy. pose proof (wf_sign _ Hy) as H. rewrite Sy in H. symmetry in H. apply Z.ltb_lt in H.
  unfold Z.lnot. lia.
Qed.

Lemma positive_abs x : wf x -> Sign x = false -> Z.abs (toZ x) = toZ x.
Proof.
  intros Hx Sx. pose proof (wf_sign _ Hx) as H. rewrite Sx in H. symmetry in H. apply Z.ltb_ge in H. lia.
Qed.

Lemma nonneg_sign z : wf z -> 0 <= toZ z -> Sign z = false.
Proof. intros Hz H. rewrite wf_sign by done. by apply Z.ltb_ge. Qed.

(** Step over [BitwiseSubOne] on a negative operand. *)
Lemma bind_SubOne {A} y L (k : BigInt -> result A) (e : error) (Q : A -> Prop) (err : bool) :
  wf y -> Sign y = true -> (GetLength y <= L)%nat -> Z.of_nat L <= MAXSIZE ->
  (forall p, wf p -> Sign p = false -> toZ y = Z.lnot (toZ p) ->
     if err then k p = Err e else returns (k p) Q) ->
  if err then (BitwiseSubOne y L ≫= k) = Err e else returns (BitwiseSubOne y L ≫= k) Q.
Proof.
  intros Hy Sy HL HM Hk. destruct (negative_lnot y Hy Sy) as [E H0].
  pose proof (BitwiseSubOne_returns y L Hy H0 HL HM) as H. apply returns_iff in H as (p & -> & Hp & Ep).
  rewrite bind_Ok. apply Hk; [done| |by rewrite Ep]. apply nonneg_sign; [done|lia].
Qed.

Lemma bind_BitwiseOp {A} op x y (k : BigInt -> result A) (e : error) (Q : A -> Prop) (err : bool) :
  wf x -> wf y -> Sign x = false -> Sign y = false ->
  (forall p, wf p -> Sign p = false -> toZ p = applyOp op (toZ x) (toZ y) ->
     if err then k p = Err e else returns (k p) Q) ->
  if err then (BitwiseOp op x y ≫= k) = Err e else returns (BitwiseOp op x y ≫= k) Q.
Proof.
  intros Hx Hy Sx Sy Hk. pose proof (BitwiseOp_returns op x y Hx Hy) as H.
  apply returns_iff in H as (p & -> & Hp & Ep). rewrite bind_Ok.
  rewrite !positive_abs in Ep by done. apply Hk; auto. apply nonneg_sign; [done|]. rewrite Ep.
  pose proof (positive_abs _ Hx Sx). pose proof (positive_abs _ Hy Sy).
  destruct op; cbn [applyOp]; [apply Z.land_nonneg|apply Z.lor_nonneg|apply Z.lxor_nonneg]; lia.
Qed.

(** What each operator promises. *)
Definition bitwiseSpec (run : result BigInt) (z : Z) : Prop :=
  if tooManyBits z then run = Err SizeExceeded else returns run (fun r => wf r /\ toZ r = z).

Lemma BitwiseOp_spec op x y : wf x -> wf y -> Sign x = false -> Sign y = false ->
  returns (BitwiseOp op x y) (fun r => wf r /\ toZ r = applyOp op (toZ x) (toZ y)).
Proof.
  intros Hx Hy Sx Sy. eapply returns_mono; [by apply BitwiseOp_returns|]. cbv beta.
  by rewrite !positive_abs.
Qed.

(** A result is never too long when the operation cannot fail. *)
Lemma wf_tooManyBits z : wf z -> tooManyBits (toZ z) = false.
Proof.
  intros Hz. unfold tooManyBits. rewrite <- wf_abs by done. apply Z.leb_gt.
  pose proof (wf_eval_bounds _ Hz) as B. pose proof (wf_eval_max _ Hz).
  destruct (decide (eval (data z) = 0)) as [->|]; [reflexivity|].
  apply (proj1 (Z.log2_lt_pow2 (eval (data z)) MAXBITS ltac:(lia))). assumption.
Qed.

Lemma bitwiseSpec_returns run z : returns run (fun r => wf r /\ toZ r = z) -> bitwiseSpec run z.
Proof.
  intros H. unfold bitwiseSpec. pose proof H as H'. apply returns_iff in H' as (r & -> & Hr & <-).
  rewrite wf_tooManyBits by done. done.
Qed.

Lemma min_ltb a b : (if (b <? a)%nat then b else a) = Nat.min a b.
Proof. destruct (Nat.ltb_spec b a); lia. Qed.

Lemma OneIsNegativeAND_spec x y : wf x -> wf y -> Sign x = false -> Sign y = true ->
  bitwiseSpec (OneIsNegativeAND x y) (Z.land (toZ x) (toZ y)).
Proof.
  intros Hx Hy Sx Sy. apply bitwiseSpec_returns. unfold OneIsNegativeAND.
  apply (bind_SubOne y (GetLength y) _ SizeExceeded _ false Hy Sy); [lia|apply wf_max, Hy|].
  intros p Hp Sp Ep. rewrite min_ltb. apply (clearBits_returns x p); auto.
  - intros i b Hi. rewrite !GetDigit_dig by lia.
    rewrite !bind_Ok, land_not32 by (apply dig_u32; by apply wf_digits). done.
  - intros i b Hi. rewrite GetDigit_dig by lia. done.
  - intros b Hb. eapply returns_mono; [exact Hb|]. cbv beta. intros r [Hr ->]. split; [done|].
    rewrite !positive_abs, Ep by done. apply Z.ldiff_land.
Qed.

Lemma BitwiseAND_spec x y : wf x -> wf y -> bitwiseSpec (BitwiseAND x y) (Z.land (toZ x) (toZ y)).
Proof.
  intros Hx Hy. pose proof (wf_max _ Hx). pose proof (wf_max _ Hy). unfold BitwiseAND, GetSign.
  destruct (Sign x) eqn:Sx, (Sign y) eqn:Sy; cbn [andb negb Bool.eqb].
  - apply bind_SubOne; auto. intros p Hp Sp ->. apply bind_SubOne; auto. intros q Hq Sq ->.
    apply bind_BitwiseOp; auto. intros t Ht St Et. cbn [applyOp] in Et.
    rewrite <- Z.lnot_lor, <- Et. by apply BitwiseAddOne_wf.
  - rewrite Z.land_comm. by apply OneIsNegativeAND_spec.
  - by apply OneIsNegativeAND_spec.
  - apply bitwiseSpec_returns. by apply (BitwiseOp_spec OpAND).
Qed.

Lemma OneIsNegativeXOR_spec x y : wf x -> wf y -> Sign x = false -> Sign y = true ->
  bitwiseSpec (OneIsNegativeXOR x y) (Z.lxor (toZ x) (toZ y)).
Proof.
  intros Hx Hy Sx Sy. pose proof (wf_max _ Hy). unfold OneIsNegativeXOR.
  apply bind_SubOne; auto. intros p Hp Sp ->. apply bind_BitwiseOp; auto. intros t Ht St Et.
  cbn [applyOp] in Et. rewrite <- Z.lnot_lxor_r, <- Et. by apply BitwiseAddOne_wf.
Qed.

Lemma BitwiseXOR_spec x y : wf x -> wf y -> bitwiseSpec (BitwiseXOR x y) (Z.lxor (toZ x) (toZ y)).
Proof.
  intros Hx Hy. pose proof (wf_max _ Hx). pose proof (wf_max _ Hy). unfold BitwiseXOR, GetSign.
  destruct (Sign x) eqn:Sx, (Sign y) eqn:Sy; cbn [andb negb Bool.eqb].
  - apply bitwiseSpec_returns.
    apply (bind_SubOne x _ _ SizeExceeded _ false); auto. intros p Hp Sp ->.
    apply (bind_SubOne y _ _ SizeExceeded _ false); auto. intros q Hq Sq ->.
    rewrite Z.lxor_lnot_lnot. by apply (BitwiseOp_spec OpXOR).
  - rewrite Z.lxor_comm. by apply OneIsNegativeXOR_spec.
  - by apply OneIsNegativeXOR_spec.
  - apply bitwiseSpec_returns. by apply (BitwiseOp_spec OpXOR).
Qed.

Lemma tooManyBits_le x z : wf x -> Z.abs z <= Z.abs (toZ x) -> tooManyBits z = false.
Proof.
  intros Hx Hle. pose proof (wf_tooManyBits x Hx) as H. unfold tooManyBits in *.
  apply Z.leb_gt. apply Z.leb_gt in H. eapply Z.le_lt_trans; [|exact H]. by apply Z.log2_le_mono.
Qed.

Lemma SetSign_same r s : Sign r = s -> SetSign r s = r.
Proof. destruct r. cbn. by intros ->. Qed.

(** [BitwiseAddOne] followed by [SetSign(true)], on a number below a given operand. *)
Lemma AddOne_negate x t z : wf x -> wf t -> Sign t = false -> z = Z.lnot (toZ t) -> Z.abs z <= Z.abs (toZ x) ->
  returns (res ← BitwiseAddOne t; Ok (SetSign res true)) (fun r => wf r /\ toZ r = z).
Proof.
  intros Hx Ht St -> Hle. pose proof (BitwiseAddOne_wf t Ht St) as H.
  rewrite (tooManyBits_le x) in H by done. eapply returns_bind; [exact H|]. cbv beta. intros r [Hr Er].
  apply returns_ok. rewrite SetSign_same; [done|]. rewrite wf_sign by done. apply Z.ltb_lt.
  pose proof (positive_abs t Ht St). unfold Z.lnot in *. lia.
Qed.

Lemma ldiff_bounds a b : 0 <= a -> 0 <= Z.ldiff a b <= a.
Proof.
  intros Ha. split; [apply Z.ldiff_nonneg; by left|]. apply Z.ldiff_le; [done|].
  apply Z.bits_inj'. intros n Hn. rewrite !Z.ldiff_spec, Z.bits_0. by destruct (Z.testbit a n), (Z.testbit b n).
Qed.

Lemma land_le_l a b : 0 <= a -> Z.land a b <= a.
Proof.
  intros Ha. rewrite <- (Z.lnot_involutive b), <- Z.ldiff_land. by apply ldiff_bounds.
Qed.

Lemma lnot_abs p : 0 <= p -> Z.abs (Z.lnot p) = p + 1.
Proof. unfold Z.lnot. lia. Qed.

Lemma OneIsNegativeOR_returns x y : wf x -> wf y -> Sign x = false -> Sign y = true ->
  returns (OneIsNegativeOR x y) (fun r => wf r /\ toZ r = Z.lor (toZ x) (toZ y)).
Proof.
  intros Hx Hy Sx Sy. pose proof (wf_max _ Hx). pose proof (wf_max _ Hy). unfold OneIsNegativeOR.
  apply (bind_SubOne y _ _ SizeExceeded _ false Hy Sy);
    [destruct (Nat.ltb_spec (GetLength x) (GetLength y)); lia..|].
  intros p Hp Sp Ep. pose proof (positive_abs p Hp Sp) as Ap. pose proof (ldiff_bounds (toZ p) (toZ x) ltac:(lia)).
  rewrite min_ltb. apply (clearBits_returns p x); auto; [lia|..].
  - intros i b Hi. rewrite !GetDigit_dig by lia.
    rewrite !bind_Ok, Z.land_comm, land_not32 by (apply dig_u32; by apply wf_digits). done.
  - intros i b Hi. rewrite GetDigit_dig by lia. done.
  - intros b Hb. eapply returns_bind; [exact Hb|]. cbv beta. intros t [Ht Et].
    rewrite !positive_abs in Et by done. apply (AddOne_negate y); auto.
    + apply nonneg_sign; [done|lia].
    + by rewrite Et, Z.lnot_ldiff, Z.lor_comm, <- Ep.
    + rewrite Ep, Z.lor_comm, <- Z.lnot_ldiff, !lnot_abs by lia. lia.
Qed.

Lemma BitwiseOR_returns x y : wf x -> wf y ->
  returns (BitwiseOR x y) (fun r => wf r /\ toZ r = Z.lor (toZ x) (toZ y)).
Proof.
  intros Hx Hy. pose proof (wf_max _ Hx). pose proof (wf_max _ Hy). unfold BitwiseOR, GetSign.
  destruct (Sign x) eqn:Sx, (Sign y) eqn:Sy; cbn [andb negb Bool.eqb].
  - apply (bind_SubOne x _ _ SizeExceeded _ false); auto;
      [destruct (Nat.ltb_spec (GetLength x) (GetLength y)); lia..|]. intros p Hp Sp Ep.
    apply (bind_SubOne y _ _ SizeExceeded _ false); auto. intros q Hq Sq Eq.
    apply (bind_BitwiseOp OpAND p q _ SizeExceeded _ false); auto. intros t Ht St Et. cbn [applyOp] in Et.
    pose proof (positive_abs p Hp Sp). pose proof (positive_abs q Hq Sq).
    pose proof (land_le_l (toZ p) (toZ q) ltac:(lia)). pose proof (positive_abs t Ht St).
    apply (AddOne_negate x); auto; rewrite Ep, Eq, <- Z.lnot_land, <- Et; [done|].
    rewrite !lnot_abs by lia. lia.
  - rewrite Z.lor_comm. by apply OneIsNegativeOR_returns.
  - by apply OneIsNegativeOR_returns.
  - by apply (BitwiseOp_spec OpOR).
Qed.

(** ** Theorems *)

(** [BitwiseAND] computes the two's complement AND of the operands, whatever their signs;
    it throws the size error exactly when that result needs more than [MAXBITS] bits. *)
Theorem BitwiseAND_correct x y (Hx : wf x) (Hy : wf y) :
  if tooManyBits (Z.land (toZ x) (toZ y)) then BitwiseAND x y = Err SizeExceeded
  else exists z, BitwiseAND x y = Ok z /\ wf z /\ toZ z = Z.land (toZ x) (toZ y).
Proof.
  pose proof (BitwiseAND_spec x y Hx Hy) as H. unfold bitwiseSpec in H. case_match; [done|]. by apply returns_iff.
Qed.

Lemma BitwiseAND_correct_witness :
  exists z, BitwiseAND (mkBigInt true [0; 1]) (mkBigInt true [1]) = Ok z /\ wf z /\
    toZ z = Z.land (- 2 ^ 32) (-1).
Proof. refine (BitwiseAND_correct (mkBigInt true [0; 1]) (mkBigInt true [1]) _ _); by apply wfb_wf. Defined.

(** [BitwiseXOR] computes the two's complement XOR of the operands, whatever their signs;
    it throws the size error exactly when that result needs more than [MAXBITS] bits. *)
Theorem BitwiseXOR_correct x y (Hx : wf x) (Hy : wf y) :
  if tooManyBits (Z.lxor (toZ x) (toZ y)) then BitwiseXOR x y = Err SizeExceeded
  else exists z, BitwiseXOR x y = Ok z /\ wf z /\ toZ z = Z.lxor (toZ x) (toZ y).
Proof.
  pose proof (BitwiseXOR_spec x y Hx Hy) as H. unfold bitwiseSpec in H. case_match; [done|]. by apply returns_iff.
Qed.

Lemma BitwiseXOR_correct_witness :
  exists z, BitwiseXOR (mkBigInt false [5; 7; 9]) (mkBigInt true [1; 1]) = Ok z /\ wf z /\
    toZ z = Z.lxor (5 + 7 * 2 ^ 32 + 9 * 2 ^ 64) (- (1 + 2 ^ 32)).
Proof. refine (BitwiseXOR_correct (mkBigInt false [5; 7; 9]) (mkBigInt true [1; 1]) _ _); by apply wfb_wf. Defined.

(** [BitwiseOR] computes the two's complement OR of the operands, whatever their signs,
    and never throws: the result is never longer than an operand. *)
Theorem BitwiseOR_correct x y (Hx : wf x) (Hy : wf y) :
  exists z, BitwiseOR x y = Ok z /\ wf z /\ toZ z = Z.lor (toZ x) (toZ y).
Proof. apply returns_iff. by apply BitwiseOR_returns. Qed.

Lemma BitwiseOR_correct_witness :
  exists z, BitwiseOR (mkBigInt false [5; 7; 9]) (mkBigInt true [1; 1]) = Ok z /\ wf z /\
    toZ z = Z.lor (5 + 7 * 2 ^ 32 + 9 * 2 ^ 64) (- (1 + 2 ^ 32)).
Proof. refine (BitwiseOR_correct (mkBigInt false [5; 7; 9]) (mkBigInt true [1; 1]) _ _); by apply wfb_wf. Defined.
