(* ===== verification/BigInt64.v ===== *)
(** * BigInt and 64-bit integers

    [Int64ToBigInt], [Uint64ToBigInt], [ToUint64], [ToInt64], [CreateBigWords], the constants
    [CreateUint64MaxBigInt] and [CreateInt64MaxBigInt] and [BigIntToInt64], [BigIntToUint64]
    of src/ecmascript/js_bigint.cpp, with [ToBigInt64] and [ToBigUint64] of
    src/ecmascript/js_tagged_value.cpp through which they convert. *)

From Stdlib Require Import ZArith Lia.
From S2P Require Import Prelude BigIntBase BigIntAdd BigIntDiv.

(** ** Model *)

(** Memory handed out uninitialised: the content of its digits and its sign. *)
Record Junk := mkJunk { junkDigits : nat -> Z; junkSign : bool }.

Section Conversions.
  Context (junk : Junk).

Definition splitWords (absVal : Z) (sign : bool) : result BigInt :=
  let low := u32 absVal in
  let high := u32 (Z.shiftr absVal DATA_BITS) in
  let digitCount := if negb (high =? 0) then 2 else 1 in
  bigint ← CreateRawBigInt (junkDigits junk) (junkSign junk) digitCount;
  let bigint := SetSign bigint sign in
  bigint ← SetDigit bigint 0 low;
  if digitCount =? 2 then SetDigit bigint 1 high else Ok bigint.

(** The signed overflow of [-(number + 1) + 1] at the least [int64_t] is taken to wrap. *)
Definition Int64ToBigInt (number : Z) : result BigInt :=
  if number =? 0 then Uint32ToBigInt 0 else
  let sign := number <? 0 in
  let absVal := u64 (if sign then i64 (i64 (- (number + 1)) + 1) else number) in
  splitWords absVal sign.

Definition Uint64ToBigInt (number : Z) : result BigInt :=
  if number =? 0 then Uint32ToBigInt 0 else splitWords number false.

Definition CreateBigWords (sign : bool) (words : list Z) : result BigInt :=
  let size := length words in
  if decide (size = 0%nat) then Uint64ToBigInt 0 else
  let needLen := u32 (Z.of_nat size * 2) in
  if MAXSIZE <? needLen then Err SizeExceeded else
  bigint ← CreateBigint needLen;
  bigint ← for_up size 0 (fun index bigint =>
    w ← get words index;
    let lowBits := u32 (Z.land w 4294967295) in
    let highBits := u32 (Z.land (Z.shiftr w DATA_BITS) 4294967295) in
    bigint ← SetDigit bigint (2 * index) lowBits;
    SetDigit bigint (2 * index + 1) highBits) bigint;
  RightTruncate (SetSign bigint sign).
End Conversions.

Definition ToUint64 (x : BigInt) : result Z :=
  lowBits ← GetDigit x 0;
  highBits ← (if (1 <? GetLength x)%nat then GetDigit x 1 else Ok 0);
  let value := Z.lor lowBits (u64 (Z.shiftl highBits DATA_BITS)) in
  Ok (if GetSign x then u64 (Z.lnot (u64 (value - 1))) else value).

Definition ToInt64 (x : BigInt) : result Z := v ← ToUint64 x; Ok (i64 v).

Definition CreateUint64MaxBigInt : result BigInt :=
  bigint ← CreateBigint 3;
  bigint ← SetDigit bigint 0 0;
  bigint ← SetDigit bigint 1 0;
  SetDigit bigint 2 1.

Definition CreateInt64MaxBigInt : result BigInt :=
  bigint ← CreateBigint 2;
  bigint ← SetDigit bigint 0 0;
  SetDigit bigint 1 2147483648.

(** The operands of the conversions: a boolean, a BigInt, or a value whose conversion by
    [ToBigInt] (string parsing, [valueOf] calls) is given. *)
Inductive Operand := OperandBoolean (b : bool) | OperandBigInt (x : BigInt) | OperandOther (conv : result BigInt).

Definition ToBigInt (v : Operand) : result BigInt :=
  match v with
  | OperandBoolean true => Int32ToBigInt 1
  | OperandBoolean false => Int32ToBigInt 0
  | OperandBigInt x => Ok x
  | OperandOther conv => conv
  end.

Definition ToBigInt64 (tagged : Operand) : result BigInt :=
  value ← ToBigInt tagged;
  tVal ← CreateUint64MaxBigInt;
  int64bitVal ← FloorMod value tVal;
  resValue ← CreateInt64MaxBigInt;
  lt ← LessThan int64bitVal resValue;
  if negb lt then Subtract int64bitVal tVal else Ok int64bitVal.

Definition ToBigUint64 (tagged : Operand) : result BigInt :=
  value ← ToBigInt tagged;
  if negb (GetSign value) && (GetLength value <=? 2)%nat then Ok value
  else tVal ← CreateUint64MaxBigInt; FloorMod value tVal.

(** Returns what is written to [*cValue] and to [*lossless] ([None]: not written). *)
Definition BigIntToInt64 (bigint : Operand) : result (Z * option bool) :=
  let convert bigint :=
    (bigInt64 ← ToBigInt64 (OperandBigInt bigint);
     lossless ← Equal bigInt64 bigint;
     cValue ← ToInt64 bigInt64;
     Ok (cValue, Some lossless)) in
  match bigint with
  | OperandBoolean _ => x ← ToBigInt bigint; convert x
  | OperandBigInt x => convert x
  | OperandOther _ => bigInt64 ← ToBigInt64 bigint; cValue ← ToInt64 bigInt64; Ok (cValue, None)
  end.

Definition BigIntToUint64 (bigint : Operand) : result (Z * option bool) :=
  let convert bigint :=
    (bigUint64 ← ToBigUint64 (OperandBigInt bigint);
     lossless ← Equal bigUint64 bigint;
     cValue ← ToUint64 bigUint64;
     Ok (cValue, Some lossless)) in
  match bigint with
  | OperandBoolean _ => x ← ToBigInt bigint; convert x
  | OperandBigInt x => convert x
  | OperandOther _ => bigInt64 ← ToBigUint64 bigint; cValue ← ToInt64 bigInt64; Ok (u64 cValue, None)
  end.

(** ** Lemmas *)

Lemma u64_words n : is_u64 n -> u32 n = n mod BASE /\ u32 (Z.shiftr n 32) = n / BASE /\ 0 <= n / BASE < BASE.
Proof.
  intros Hn. unfold is_u64 in Hn. rewrite Z.shiftr_div_pow2 by lia. change (2 ^ 32) with BASE.
  assert (0 <= n / BASE < BASE) as Hd.
  { split; [apply Z.div_pos; [lia|apply BASE_pos]|]. apply Z.div_lt_upper_bound; [apply BASE_pos|]. apply Hn. }
  split_and!; try lia; [done|]. by apply u32_small.
Qed.

Lemma toZ_two s a b : toZ (mkBigInt s [a; b]) = if s then - (a + BASE * b) else a + BASE * b.
Proof. unfold toZ. cbn [Sign data eval]. rewrite Z.mul_0_r, Z.add_0_r. done. Qed.

Lemma splitWords_returns junk n s : is_u64 n -> n <> 0 ->
  returns (splitWords junk n s) (fun b => wf b /\ toZ b = if s then - n else n).
Proof.
  intros Hn H0. destruct (u64_words n Hn) as (El & Eh & Bh). unfold splitWords.
  change DATA_BITS with 32. rewrite El, Eh. pose proof BASE_pos as HB.
  pose proof (Z.div_mod n BASE ltac:(lia)) as Ed. pose proof (Z.mod_pos_bound n BASE HB).
  assert (is_u32 (n mod BASE) /\ is_u32 (n / BASE)) as [R1 R2] by (unfold is_u32; lia).
  unfold CreateRawBigInt. destruct (Z.eqb_spec (n / BASE) 0) as [E|E]; cbn [negb];
    rewrite (proj2 (Z.ltb_ge _ _)) by (rewrite MAXSIZE_eq; lia); rewrite bind_Ok; apply returns_ok; cbn -[toZ].
  - rewrite E, Z.mul_0_r, Z.add_0_l in Ed. rewrite <- Ed.
    change (wf (mkBigInt s [n]) /\ toZ (mkBigInt s [n]) = if s then - n else n). split.
    + apply wf_singleton; [by rewrite Ed|]. intros ->. done.
    + by rewrite toZ_one.
  - change (wf (mkBigInt s [n mod BASE; n / BASE]) /\ toZ (mkBigInt s [n mod BASE; n / BASE]) = if s then - n else n).
    split; [|rewrite toZ_two; destruct s; lia]. split; cbn; [by rewrite !Forall_cons|lia|rewrite MAXSIZE_eq; lia| |done].
    right. congruence.
Qed.

Lemma ToUint64_eq x : wf x -> ToUint64 x = Ok (u64 (toZ x)).
Proof.
  intros Hx. unfold ToUint64, GetSign. pose proof (wf_digits _ Hx) as Dx. pose proof (wf_pos _ Hx) as Px.
  destruct x as [s [|a l]]; [cbn in Px; lia|]. clear Px Hx.
  assert (exists b r, (if (1 <? GetLength (mkBigInt s (a :: l)))%nat then GetDigit (mkBigInt s (a :: l)) 1 else Ok 0) = Ok b /\
    is_u32 b /\ eval (a :: l) = a + BASE * b + 2 ^ 64 * r) as (b & r & -> & Hb & Ev).
  { destruct l as [|b l]; cbn; [exists 0, 0|exists b, (eval l)]; split_and!; auto with ark; try lia.
    - by apply Forall_cons in Dx as [_ [? _]%Forall_cons].
    - change (2 ^ 64) with (BASE * BASE). lia. }
  cbn [data] in *. apply Forall_cons in Dx as [Ha _]. cbn [GetDigit get data lookup]. cbn.
  unfold toZ. cbn [Sign data]. rewrite Ev. f_equal. change DATA_BITS with 32.
  assert (Z.lor a (u64 (Z.shiftl b 32)) = a + BASE * b) as ->.
  { rewrite Z.shiftl_mul_pow2 by lia. change (2 ^ 32) with BASE.
    rewrite u64_small by (unfold is_u64, is_u32 in *; change (2 ^ 64) with (BASE * BASE); nia).
    rewrite Z.lor_comm, (lor_add _ _ 32); [lia|lia| |done]. by rewrite Z.mod_mul. }
  assert (is_u64 (a + BASE * b)) as Hab by (unfold is_u64, is_u32 in *; change (2 ^ 64) with (BASE * BASE); nia).
  destruct s.
  - unfold u64, Z.lnot. unfold is_u64 in Hab. set (w := a + BASE * b) in *.
    replace (- (w + 2 ^ 64 * r)) with (- w + (- r) * 2 ^ 64) by lia. rewrite Z.mod_add by lia.
    rewrite <- Z.sub_1_r. change (- ?x) with (0 - x). rewrite <- Z.sub_add_distr.
    rewrite Zminus_mod, Zplus_mod, Z.mod_mod, <- Zplus_mod, <- Zminus_mod by lia. f_equal. lia.
  - replace (a + BASE * b + 2 ^ 64 * r) with (a + BASE * b + r * 2 ^ 64) by lia.
    unfold u64. rewrite Z.mod_add by lia. symmetry. by apply u64_small.
Qed.

Lemma u64_i64 z : u64 (i64 z) = u64 z.
Proof.
  unfold u64, i64. destruct (_ <? _); [by rewrite Z.mod_mod|].
  rewrite <- Zminus_mod_idemp_r, Z.mod_same, Z.sub_0_r by done. by rewrite Z.mod_mod.
Qed.

Lemma i64_u64 z : i64 (u64 z) = i64 z.
Proof. unfold i64, u64. by rewrite Z.mod_mod. Qed.

Lemma i64_small z : is_i64 z -> i64 z = z.
Proof.
  intros Hz. unfold is_i64 in Hz. unfold i64. destruct (decide (0 <= z)).
  - rewrite Z.mod_small by lia. by rewrite (proj2 (Z.ltb_lt _ _)) by lia.
  - rewrite <- (Z.mod_add z 1), Z.mod_small by lia. rewrite (proj2 (Z.ltb_ge _ _)) by lia. lia.
Qed.

Lemma i64_range z : is_i64 (i64 z).
Proof.
  unfold is_i64, i64. pose proof (Z.mod_pos_bound z (2 ^ 64) ltac:(lia)).
  destruct (Z.ltb_spec (z mod 2 ^ 64) (2 ^ 63)); lia.
Qed.

Lemma ToInt64_eq x : wf x -> ToInt64 x = Ok (i64 (toZ x)).
Proof. intros Hx. unfold ToInt64. rewrite ToUint64_eq by done. cbn. by rewrite i64_u64. Qed.

Lemma Int64ToBigInt_returns junk n : is_i64 n ->
  returns (Int64ToBigInt junk n) (fun b => wf b /\ toZ b = n).
Proof.
  intros Hn. unfold Int64ToBigInt. destruct (Z.eqb_spec n 0) as [->|H0].
  { by apply Uint32ToBigInt_returns, is_u32_0. }
  assert (u64 (if n <? 0 then i64 (i64 (- (n + 1)) + 1) else n) = Z.abs n) as ->.
  { destruct (Z.ltb_spec n 0).
    - rewrite u64_i64, (i64_small (- (n + 1))) by (unfold is_i64 in *; lia).
      rewrite u64_small; [lia|unfold is_u64, is_i64 in *; lia].
    - rewrite u64_small; [lia|unfold is_u64, is_i64 in *; lia]. }
  eapply returns_mono; [apply splitWords_returns; [unfold is_u64, is_i64 in *; lia|lia]|]. cbv beta.
  intros b [Hb ->]. split; [done|]. destruct (Z.ltb_spec n 0); lia.
Qed.

Lemma Uint64ToBigInt_returns junk n : is_u64 n ->
  returns (Uint64ToBigInt junk n) (fun b => wf b /\ toZ b = n).
Proof.
  intros Hn. unfold Uint64ToBigInt. destruct (Z.eqb_spec n 0) as [->|H0].
  { by apply Uint32ToBigInt_returns, is_u32_0. }
  by apply (splitWords_returns junk n false).
Qed.

Definition two64 : BigInt := mkBigInt false [0; 0; 1].
Definition two63 : BigInt := mkBigInt false [0; 2147483648].

Lemma Uint64Max_eq : CreateUint64MaxBigInt = Ok two64.
Proof. reflexivity. Qed.

Lemma Int64Max_eq : CreateInt64MaxBigInt = Ok two63.
Proof. reflexivity. Qed.

Lemma two64_wf : wf two64.
Proof. by apply wfb_wf. Qed.

Lemma two63_wf : wf two63.
Proof. by apply wfb_wf. Qed.

Lemma toZ_two64 : toZ two64 = 2 ^ 64.
Proof. reflexivity. Qed.

Lemma toZ_two63 : toZ two63 = 2 ^ 63.
Proof. reflexivity. Qed.

Lemma divTooLong_two64 x : wf x -> divTooLong x two64 = (MAXSIZE <=? Z.of_nat (GetLength x)).
Proof.
  intros Hx. unfold divTooLong. change (2 <=? GetLength two64)%nat with true. rewrite andb_true_r.
  destruct (Z.leb_spec MAXSIZE (Z.of_nat (GetLength x))) as [H|H]; [|done]. rewrite toZ_two64, <- wf_abs by done.
  rewrite MAXSIZE_eq in H. pose proof (wf_eval_lower x Hx ltac:(lia)) as Hl.
  pose proof (pw_mono 3 (GetLength x - 1) ltac:(lia)) as Hm. apply Z.ltb_lt.
  change (pw 3) with (2 ^ 96) in Hm. lia.
Qed.

Lemma FloorMod_two64 x : wf x ->
  if MAXSIZE <=? Z.of_nat (GetLength x) then FloorMod x two64 = Err SizeExceeded
  else returns (FloorMod x two64) (fun z => wf z /\ toZ z = u64 (toZ x)).
Proof.
  intros Hx. pose proof (FloorMod_spec x two64 Hx two64_wf) as H. rewrite divTooLong_two64, toZ_two64 in H by done.
  by apply H.
Qed.

Lemma short_length x : wf x -> 0 <= toZ x < 2 ^ 64 -> Z.of_nat (GetLength x) < MAXSIZE.
Proof.
  intros Hx Hb. destruct (Z.lt_ge_cases (Z.of_nat (GetLength x)) MAXSIZE) as [|Hge]; [done|].
  rewrite MAXSIZE_eq in *. pose proof (wf_eval_lower x Hx ltac:(lia)) as Hl. rewrite wf_abs in Hl by done.
  pose proof (pw_mono 3 (GetLength x - 1) ltac:(lia)) as Hm. change (pw 3) with (2 ^ 96) in Hm. lia.
Qed.

Lemma ToBigInt64_spec x : wf x ->
  if MAXSIZE <=? Z.of_nat (GetLength x) then ToBigInt64 (OperandBigInt x) = Err SizeExceeded
  else returns (ToBigInt64 (OperandBigInt x)) (fun z => wf z /\ toZ z = i64 (toZ x)).
Proof.
  intros Hx. unfold ToBigInt64. cbn [ToBigInt]. rewrite bind_Ok, Uint64Max_eq, bind_Ok.
  pose proof (FloorMod_two64 x Hx) as H. destruct (_ <=? _); [by rewrite H|].
  eapply returns_bind; [exact H|]. cbv beta. intros m [Hm Em].
  rewrite Int64Max_eq, bind_Ok. unfold LessThan. rewrite Compare_eq by auto using two63_wf. rewrite !bind_Ok.
  rewrite Em, toZ_two63. pose proof (u64_range (toZ x)) as Hr. unfold is_u64 in Hr.
  assert (i64 (toZ x) = if u64 (toZ x) <? 2 ^ 63 then u64 (toZ x) else u64 (toZ x) - 2 ^ 64) as -> by done.
  destruct (Z.ltb_spec (u64 (toZ x)) (2 ^ 63)).
  - rewrite cmpZ_less by done. by apply returns_ok.
  - rewrite bool_decide_false; [|intros E; unfold cmpZ in E; destruct (Z.compare_spec (u64 (toZ x)) (2 ^ 63)); done || lia].
    cbn [negb]. pose proof (Subtract_spec m two64 Hm two64_wf) as HS.
    rewrite (wf_sign m), Em, (proj2 (Z.ltb_ge _ _)) in HS by (done || lia). cbn [Sign two64 Bool.eqb negb andb] in HS.
    rewrite toZ_two64 in HS. exact HS.
Qed.

Lemma ToBigUint64_spec x : wf x ->
  if MAXSIZE <=? Z.of_nat (GetLength x) then ToBigUint64 (OperandBigInt x) = Err SizeExceeded
  else returns (ToBigUint64 (OperandBigInt x)) (fun z => wf z /\ toZ z = u64 (toZ x)).
Proof.
  intros Hx. unfold ToBigUint64, GetSign. cbn [ToBigInt]. rewrite bind_Ok, Uint64Max_eq.
  destruct (negb (Sign x) && _) eqn:E; [|by apply FloorMod_two64].
  apply andb_true_iff in E as [Es%negb_true_iff El%Nat.leb_le].
  rewrite (proj2 (Z.leb_gt _ _)) by (rewrite MAXSIZE_eq; lia). apply returns_ok. split; [done|].
  symmetry. apply u64_small. unfold is_u64, toZ. rewrite Es. pose proof (wf_eval_bounds x Hx).
  pose proof (pw_mono _ _ El) as Hp. change (pw 2) with (2 ^ 64) in Hp. lia.
Qed.

(** The magnitude given by 64-bit words, least significant first. *)
Fixpoint evalWords (l : list Z) : Z := match l with [] => 0 | w :: l' => w + 2 ^ 64 * evalWords l' end.

Lemma evalWords_snoc l w : evalWords (l ++ [w]) = evalWords l + pw (2 * length l) * w.
Proof.
  induction l as [|v l IH]; cbn [evalWords app length]; [rewrite Nat.mul_0_r, pw_0; lia|].
  rewrite IH. replace (2 * S (length l))%nat with (S (S (2 * length l))) by lia. rewrite !pw_S.
  change (2 ^ 64) with (BASE * BASE). lia.
Qed.

Lemma word_digits w : is_u64 w ->
  is_u32 (u32 (Z.land w 4294967295)) /\ is_u32 (u32 (Z.land (Z.shiftr w DATA_BITS) 4294967295)) /\
  u32 (Z.land w 4294967295) + BASE * u32 (Z.land (Z.shiftr w DATA_BITS) 4294967295) = w.
Proof.
  intros Hw. destruct (u64_words w Hw) as (El & Eh & Bh). change DATA_BITS with 32.
  change 4294967295 with (Z.ones 32). rewrite !Z.land_ones by lia. change (2 ^ 32) with BASE.
  change (Z.shiftr w 32 mod BASE) with (u32 (Z.shiftr w 32)). rewrite Eh.
  split_and!; [apply u32_range..|]. unfold u32. rewrite Z.mod_mod, (Z.mod_small (w / BASE)) by (pose proof BASE_pos; lia).
  pose proof (Z.div_mod w BASE ltac:(pose proof BASE_pos; lia)). lia.
Qed.

Lemma CreateBigWords_returns junk sign words : Forall is_u64 words -> 2 * Z.of_nat (length words) <= MAXSIZE ->
  returns (CreateBigWords junk sign words)
    (fun b => wf b /\ toZ b = if sign then - evalWords words else evalWords words).
Proof.
  intros Hw HM. unfold CreateBigWords. destruct (decide (length words = 0%nat)) as [E|E].
  { destruct words; [|done]. eapply returns_mono; [by apply (Uint64ToBigInt_returns junk 0)|]. cbv beta.
    intros b [Hb ->]. split; [done|]. by destruct sign. }
  rewrite u32_small by (unfold is_u32; rewrite MAXSIZE_eq in HM; pose proof BASE_eq; lia).
  rewrite (proj2 (Z.ltb_ge _ _)) by lia. digit_step; [lia|]. set (n := length words) in *.
  replace (Z.to_nat (Z.of_nat n * 2)) with (2 * n)%nat by lia.
  eapply returns_bind; [apply (for_up_returns (fun i b => Forall is_u32 (data b) /\ GetLength b = (2 * n)%nat /\
    evalp (data b) (2 * i) = evalWords (take i words)))|].
  - unfold GetLength. cbn [data]. rewrite length_replicate, Nat.mul_0_r, evalp_0. split_and!; auto with ark.
  - intros i b Hi (Db & Lb & Eb). apply bind_get; [unfold n in *; lia|]. intros d Hlook.
    assert (is_u64 d) as Hd by (by eapply Forall_lookup_1).
    destruct (word_digits d Hd) as (Rl & Rh & Ed). cbv zeta.
    set (lo := u32 (Z.land d _)) in *. set (hi := u32 _) in *.
    digit_step; [lia|]. unfold SetDigit, set. rewrite decide_True by (unfold GetLength in *; cbn [data]; rewrite length_insert; lia). apply returns_ok.
    unfold GetLength in *. cbn [data]. rewrite !length_insert. split_and!; auto with ark.
    replace (2 * S i)%nat with (S (2 * i + 1)) by lia. rewrite evalp_insert_S by (rewrite length_insert; lia).
    replace (2 * i + 1)%nat with (S (2 * i)) by lia. rewrite evalp_insert_S, Eb, pw_S by lia.
    rewrite (take_S_r _ _ _ Hlook), evalWords_snoc, length_take_le by (unfold n in *; lia). lia.
  - cbv beta. rewrite Nat.add_0_l. intros b (Db & Lb & Eb). rewrite evalp_all in Eb by (unfold GetLength in *; lia).
    unfold n in Eb. rewrite take_ge in Eb by done.
    eapply returns_mono; [apply RightTruncate_returns; unfold GetLength in *; cbn [data SetSign]; auto; lia|].
    cbv beta. intros z [Hz ->]. split; [done|]. unfold toZ. cbn [Sign data SetSign]. by rewrite Eb.
Qed.

(** ** Theorems *)

(** Every [int64_t] survives the conversion to a BigInt and back, the BigInt is normalised
    and denotes the number, whatever the uninitialised memory held. *)
Theorem Int64_roundtrip junk n (Hn : is_i64 n) :
  exists b, Int64ToBigInt junk n = Ok b /\ wf b /\ toZ b = n /\ ToInt64 b = Ok n.
Proof.
  pose proof (Int64ToBigInt_returns junk n Hn) as H. apply returns_iff in H as (b & -> & Hb & Eb).
  exists b. rewrite ToInt64_eq, Eb, i64_small by done. done.
Qed.

Lemma Int64_roundtrip_witness :
  exists b, Int64ToBigInt (mkJunk (fun _ => 7) true) (- 2 ^ 63) = Ok b /\ wf b /\ toZ b = - 2 ^ 63 /\
    ToInt64 b = Ok (- 2 ^ 63).
Proof. apply (Int64_roundtrip (mkJunk (fun _ => 7) true) (- 2 ^ 63)). unfold is_i64. lia. Defined.

(** Every [uint64_t] survives the conversion to a BigInt and back, the BigInt is normalised
    and denotes the number, whatever the uninitialised memory held. *)
Theorem Uint64_roundtrip junk n (Hn : is_u64 n) :
  exists b, Uint64ToBigInt junk n = Ok b /\ wf b /\ toZ b = n /\ ToUint64 b = Ok n.
Proof.
  pose proof (Uint64ToBigInt_returns junk n Hn) as H. apply returns_iff in H as (b & -> & Hb & Eb).
  exists b. rewrite ToUint64_eq, Eb, u64_small by done. done.
Qed.

Lemma Uint64_roundtrip_witness :
  exists b, Uint64ToBigInt (mkJunk (fun _ => 7) true) (2 ^ 64 - 1) = Ok b /\ wf b /\ toZ b = 2 ^ 64 - 1 /\
    ToUint64 b = Ok (2 ^ 64 - 1).
Proof. apply (Uint64_roundtrip (mkJunk (fun _ => 7) true) (2 ^ 64 - 1)). unfold is_u64. lia. Defined.

(** [BigIntToInt64] returns the number wrapped to [int64_t] and reports it lossless exactly
    when it was in range; only a BigInt of maximal length makes it throw. *)
Theorem BigIntToInt64_correct x (Hx : wf x) :
  BigIntToInt64 (OperandBigInt x) =
    if MAXSIZE <=? Z.of_nat (GetLength x) then Err SizeExceeded
    else Ok (i64 (toZ x), Some (bool_decide (i64 (toZ x) = toZ x))).
Proof.
  unfold BigIntToInt64. pose proof (ToBigInt64_spec x Hx) as H. destruct (_ <=? _); [by rewrite H|].
  apply returns_iff in H as (b & -> & Hb & Eb). rewrite bind_Ok, Equal_eq, bind_Ok, ToInt64_eq, bind_Ok, Eb by done.
  by rewrite (i64_small (i64 (toZ x))) by apply i64_range.
Qed.

Lemma BigIntToInt64_correct_witness :
  BigIntToInt64 (OperandBigInt (mkBigInt false [5; 0; 7])) = Ok (5, Some false).
Proof. refine (BigIntToInt64_correct (mkBigInt false [5; 0; 7]) _). by apply wfb_wf. Defined.

(** [BigIntToUint64] returns the number wrapped to [uint64_t] and reports it lossless
    exactly when it was in range; only a BigInt of maximal length makes it throw. *)
Theorem BigIntToUint64_correct x (Hx : wf x) :
  BigIntToUint64 (OperandBigInt x) =
    if MAXSIZE <=? Z.of_nat (GetLength x) then Err SizeExceeded
    else Ok (u64 (toZ x), Some (bool_decide (u64 (toZ x) = toZ x))).
Proof.
  unfold BigIntToUint64. pose proof (ToBigUint64_spec x Hx) as H. destruct (_ <=? _); [by rewrite H|].
  apply returns_iff in H as (b & -> & Hb & Eb). rewrite bind_Ok, Equal_eq, bind_Ok, ToUint64_eq, bind_Ok, Eb by done.
  by rewrite (u64_small (u64 (toZ x))) by apply u64_range.
Qed.

Lemma BigIntToUint64_correct_witness :
  BigIntToUint64 (OperandBigInt (mkBigInt true [5])) = Ok (2 ^ 64 - 5, Some false).
Proof. refine (BigIntToUint64_correct (mkBigInt true [5]) _). by apply wfb_wf. Defined.

(** [CreateBigWords] builds the normalised BigInt of the given sign and 64-bit words, and
    throws the size error exactly when the words need more digits than allowed. *)
Theorem CreateBigWords_correct junk sign words (Hw : Forall is_u64 words) (Hlen : Z.of_nat (length words) < 2 ^ 31) :
  if MAXSIZE <? 2 * Z.of_nat (length words) then CreateBigWords junk sign words = Err SizeExceeded
  else exists b, CreateBigWords junk sign words = Ok b /\ wf b /\
    toZ b = if sign then - evalWords words else evalWords words.
Proof.
  destruct (Z.ltb_spec MAXSIZE (2 * Z.of_nat (length words))) as [H|H].
  - unfold CreateBigWords. rewrite MAXSIZE_eq in H. rewrite decide_False by lia.
    rewrite u32_small by (unfold is_u32; change BASE with (2 * 2 ^ 31); lia).
    by rewrite (proj2 (Z.ltb_lt _ _)) by (rewrite MAXSIZE_eq; lia).
  - apply returns_iff. by apply CreateBigWords_returns.
Qed.

Lemma CreateBigWords_correct_witness :
  exists b, CreateBigWords (mkJunk (fun _ => 7) true) true [3; 2 ^ 63; 0] = Ok b /\ wf b /\
    toZ b = - (3 + 2 ^ 127).
Proof.
  refine (CreateBigWords_correct (mkJunk (fun _ => 7) true) true [3; 2 ^ 63; 0] _ _); [|cbn; lia].
  rewrite !Forall_cons. unfold is_u64. split_and!; try lia. constructor.
Defined.
