(* ===== verification/BigIntExp.v ===== *)
(** * BigInt exponentiation and truncation to N bits

    [Exponentiate], [AsUintN] and [AsintN] of src/ecmascript/js_bigint.cpp. *)

From Stdlib Require Import ZArith Lia.
From S2P Require Import Prelude BigIntBase BigIntAdd BigIntMul BigIntShift BigIntDiv BigInt64.

(** ** Model *)

Definition ExponentNegative : error := RangeError "Exponent must be positive".

(** One round of the square and multiply loop; the state is [(result, temp, expValue)]. *)
Definition powerRound (s : Slot * BigInt * Z) : result (Slot * BigInt * Z) :=
  let '(result, temp, expValue) := s in
  temp ← Multiply temp temp;
  result ← (if Z.odd expValue then
              match result with
              | SlotBigInt r => r ← Multiply r temp; Ok (SlotBigInt r)
              | _ => Ok (SlotBigInt temp)
              end
            else Ok result);
  Ok (result, temp, Z.shiftr expValue 1).

Definition powerLoop (base : BigInt) (expValue : Z) : result BigInt :=
  let result := if Z.odd expValue then SlotBigInt base else SlotNull in
  '(result, _, _) ← while_loop 32 (fun '(_, _, expValue) => negb (expValue =? 0)) powerRound
    (result, base, Z.shiftr expValue 1);
  slotBigInt result.

(** The fast path for a base of magnitude two. *)
Definition powerOfTwo (base : BigInt) (expValue : Z) : result BigInt :=
  let needLength := expValue / DATA_BITS + 1 in
  bigint ← CreateBigint needLength;
  let value := u32 (Z.shiftl 1 (expValue mod DATA_BITS)) in
  bigint ← SetDigit bigint (Z.to_nat (needLength - 1)) value;
  if GetSign base then Ok (SetSign bigint (Z.odd expValue)) else Ok bigint.

(** [x->GetLength() == 1 && x->GetDigit(0) == d] *)
Definition isDigit (x : BigInt) (d : Z) : result bool :=
  if (GetLength x =? 1)%nat then v ← GetDigit x 0; Ok (v =? d) else Ok false.

Definition Exponentiate (base exponent : BigInt) : result BigInt :=
  if GetSign exponent then Err ExponentNegative else
  eZero ← IsZero exponent;
  if eZero : bool then Int32ToBigInt 1 else
  bZero ← IsZero base;
  if bZero : bool then Ok base else
  expValue ← GetDigit exponent 0;
  one ← isDigit base 1;
  if one : bool then
    if GetSign base && negb (Z.odd expValue) then UnaryMinus base else Ok base
  else if (1 <? GetLength exponent)%nat then Err SizeExceeded
  else
    two ← isDigit base 2;
    if two : bool then powerOfTwo base expValue
    else powerLoop base expValue.

Section AsN.
  Context (junk : Junk).

(** [bit] is [DoubleToInt64] of the number of bits. *)
Definition AsUintN (bit : Z) (bigint : BigInt) : result BigInt :=
  if bit =? 0 then Int32ToBigInt 0 else
  zero ← IsZero bigint;
  if zero : bool then Ok bigint else
  exponent ← Uint64ToBigInt junk (u64 bit);
  base ← Int64ToBigInt junk 2;
  if (kMaxLengthBits <=? bit) && negb (GetSign bigint) then Ok bigint else
  tValue ← Exponentiate base exponent;
  FloorMod bigint tValue.

Definition AsintN (bit : Z) (bigint : BigInt) : result BigInt :=
  if bit =? 0 then Int32ToBigInt 0 else
  zero ← IsZero bigint;
  if zero : bool then Ok bigint else
  exp ← Int64ToBigInt junk bit;
  exponent ← Int64ToBigInt junk (i64 (bit - 1));
  base ← Int64ToBigInt junk 2;
  if (kMaxLengthBits <=? bit) && negb (GetSign bigint) then Ok bigint else
  tValue ← Exponentiate base exp;
  modValue ← FloorMod bigint tValue;
  resValue ← Exponentiate base exponent;
  c ← Compare resValue modValue;
  if negb (bool_decide (c = GREAT)) then Subtract modValue tValue else Ok modValue.
End AsN.

(** ** Square and multiply *)

Lemma wf_length_le z n : wf z -> Z.abs (toZ z) < pw n -> (1 <= n)%nat -> (GetLength z <= n)%nat.
Proof.
  intros Hz Hlt Hn. destruct (decide (GetLength z <= n)%nat); [done|].
  pose proof (wf_eval_lower z Hz ltac:(lia)) as Hl. rewrite wf_abs in Hl by done.
  pose proof (pw_mono n (GetLength z - 1) ltac:(lia)). lia.
Qed.

Section PowerLoop.
  Context (base : BigInt) (E : Z) (Hb : wf base) (H0 : toZ base <> 0) (HE : 0 < E).
Let B := toZ base.
Let L := Z.of_nat (GetLength base).

(** [z] holds the power [e] of the base. *)
Definition isPower (z : BigInt) (e : Z) : Prop :=
  wf z /\ toZ z = B ^ e /\ Z.of_nat (GetLength z) <= L * e.

(** The error the loop may end in, and when. *)
Definition powerError (e : error) : Prop := e = SizeExceeded /\ MAXSIZE < L * E.

Lemma isPower_length z e : wf z -> toZ z = B ^ e -> 0 < e -> isPower z e.
Proof.
  intros Hz Ez He. split_and!; auto. pose proof (wf_pos _ Hb) as HL.
  enough (GetLength z <= GetLength base * Z.to_nat e)%nat by (unfold L; lia).
  apply wf_length_le; auto; [|nia]. rewrite Ez, Z.abs_pow by lia.
  assert (pw (GetLength base * Z.to_nat e) = pw (GetLength base) ^ e) as ->.
  { rewrite !pw_bits, <- Z.pow_mul_r by lia. f_equal. lia. }
  apply Z.pow_lt_mono_l; [done|]. split; [lia|]. unfold B. rewrite <- wf_abs by done. by apply wf_eval_bounds.
Qed.

Lemma power_multiply y z e f : isPower y e -> isPower z f -> 0 < e -> 0 < f -> e + f <= E ->
  outcome (Multiply y z) (fun r => isPower r (e + f)) powerError.
Proof.
  intros (Hy & Ey & Ly) (Hz & Ez & Lz) He Hf HeE.
  assert (toZ y <> 0 /\ toZ z <> 0) as [Y0 Z0].
  { rewrite Ey, Ez. split; apply Z.pow_nonzero; auto; lia. }
  destruct (Z.lt_ge_cases MAXSIZE (Z.of_nat (GetLength y) + Z.of_nat (GetLength z))) as [Hlt|Hge].
  - rewrite Multiply_error by done. split; [done|]. unfold L in *. nia.
  - apply returns_outcome. eapply returns_mono; [by apply Multiply_returns; auto|]. cbv beta.
    intros r [Hr Er]. apply isPower_length; [done| |lia]. rewrite Er, Ey, Ez, <- Z.pow_add_r by lia. done.
Qed.

(** [temp] is the [2 ^ k]-th power, [result] the power by the bits consumed so far. *)
Definition powerInv (s : Slot * BigInt * Z) : Prop :=
  let '(result, temp, e) := s in
  exists k acc, 0 <= k /\ isPower temp (2 ^ k) /\ 0 <= e /\ 0 <= acc /\ acc + 2 ^ (k + 1) * e = E /\
    match result with SlotBigInt r => isPower r acc /\ 0 < acc | _ => acc = 0 end.

Lemma powerRound_outcome s : powerInv s -> s.2 <> 0 ->
  outcome (powerRound s) (fun s' => powerInv s' /\ s'.2 = Z.div2 s.2) powerError.
Proof.
  destruct s as [[result temp] e]. intros (k & acc & Hk & Ht & He & Hacc & Eacc & Hres) Hne. cbn [snd] in *.
  assert (0 < 2 ^ k) by (apply pow2_pos; done). assert (2 ^ (k + 1) = 2 ^ k + 2 ^ k) as Ek
    by (rewrite Z.pow_add_r by lia; lia).
  pose proof (Zdiv2_odd_eqn e) as Ee. pose proof (Z.div2_nonneg e) as Hd.
  unfold powerRound. apply outcome_bind.
  eapply outcome_mono; [apply power_multiply; eauto; nia|cbv beta|done]. rewrite <- Ek. intros t Ht'.
  assert (2 ^ (k + 1 + 1) = 2 * 2 ^ (k + 1)) as Ek' by (rewrite (Z.pow_add_r 2 (k + 1)) by lia; lia).
  apply outcome_bind. rewrite <- Z.div2_spec. destruct (Z.odd e).
  - destruct result as [| |r]; [..|apply outcome_bind; destruct Hres as [Hr Hpos];
      eapply outcome_mono; [apply power_multiply; eauto; nia|cbv beta|done]; intros r' Hr'];
      (split; [|done]); exists (k + 1), (acc + 2 ^ (k + 1)); rewrite Ek'; split_and!; auto; try lia; nia || by subst acc.
  - cbn. split; [|done]. exists (k + 1), acc. rewrite Ek'. split_and!; auto; try lia; nia.
Qed.

Lemma isPower_one : isPower base 1.
Proof. unfold isPower. rewrite Z.pow_1_r, Z.mul_1_r. done. Qed.

Lemma div2_bounds e : 0 <= e -> 0 <= Z.div2 e /\ 2 * Z.div2 e <= e <= 2 * Z.div2 e + 1.
Proof. intros He. pose proof (Zdiv2_odd_eqn e) as H. pose proof (Z.div2_nonneg e). destruct (Z.odd e); lia. Qed.

(** The number of bits left in the exponent. *)
Definition bitsLeft (s : Slot * BigInt * Z) : nat := Z.to_nat (Z.log2 (2 * s.2 + 1)).

Lemma bitsLeft_div2 e : 0 < e -> Z.log2 (2 * Z.div2 e + 1) < Z.log2 (2 * e + 1).
Proof.
  intros He. rewrite (Z.log2_succ_double e) by done.
  destruct (div2_bounds e ltac:(lia)) as [Hd0 Hd].
  destruct (decide (Z.div2 e = 0)) as [->|]; [change (Z.log2 (2 * 0 + 1)) with 0; pose proof (Z.log2_nonneg e); lia|].
  rewrite Z.log2_succ_double by lia. enough (Z.log2 (2 * Z.div2 e) <= Z.log2 e) as H1
    by (rewrite Z.log2_double in H1 by lia; lia). apply Z.log2_le_mono. lia.
Qed.

Lemma powerLoop_outcome : E < 2 ^ 32 ->
  outcome (powerLoop base E) (fun z => wf z /\ toZ z = B ^ E) powerError.
Proof.
  intros HE32. unfold powerLoop. apply outcome_bind.
  eapply outcome_mono; [apply (while_loop_outcome powerInv powerError bitsLeft)| |done].
  - exists 0, (if Z.odd E then 1 else 0). change (2 ^ (0 + 1)) with 2. change (2 ^ 0) with 1.
    rewrite <- Z.div2_spec. pose proof (Zdiv2_odd_eqn E). pose proof (Z.div2_nonneg E).
    pose proof isPower_one. destruct (Z.odd E); split_and!; auto; lia.
  - unfold bitsLeft. cbn [snd]. enough (Z.log2 (2 * Z.shiftr E 1 + 1) < 33) by lia.
    rewrite <- Z.div2_spec. destruct (div2_bounds E ltac:(lia)). apply Z.log2_lt_pow2; lia.
  - intros [[r t] e] Hinv Hc. apply negb_true_iff, Z.eqb_neq in Hc.
    assert (0 < e) as He by (destruct Hinv as (? & ? & _ & _ & ? & _); lia).
    pose proof (bitsLeft_div2 e He) as Hd. unfold bitsLeft. cbn [snd].
    split; [pose proof (Z.log2_nonneg (2 * Z.div2 e + 1)); lia|].
    eapply outcome_mono; [by apply powerRound_outcome| |done]. cbv beta. cbn [snd].
    intros s [Hs ->]. split; [done|]. pose proof (Z.log2_nonneg (2 * Z.div2 e + 1)). lia.
  - intros [[r t] e] [(k & acc & _ & _ & _ & _ & Eacc & Hr) Hc]. apply negb_false_iff, Z.eqb_eq in Hc. subst e.
    rewrite Z.mul_0_r, Z.add_0_r in Eacc. subst acc. destruct r as [| |z]; [lia..|]. by destruct Hr as [(? & ? & _) _].
Qed.
End PowerLoop.

(** ** The special bases *)

Lemma isDigit_eq x d : wf x -> is_u32 d -> isDigit x d = Ok (Z.abs (toZ x) =? d).
Proof.
  intros Hx Hd. rewrite <- wf_abs by done. unfold isDigit. destruct (Nat.eqb_spec (GetLength x) 1) as [H1|H1].
  - destruct x as [s [|v [|]]]; try discriminate H1. cbn. by rewrite Z.mul_0_r, Z.add_0_r.
  - pose proof (wf_pos _ Hx). pose proof (wf_eval_lower _ Hx ltac:(lia)) as Hl.
    pose proof (pw_mono 1 (GetLength x - 1) ltac:(lia)) as Hm. change (pw 1) with BASE in Hm.
    symmetry. f_equal. apply Z.eqb_neq. unfold is_u32 in Hd. lia.
Qed.

Lemma pow2_neg e : 0 <= e -> (-2) ^ e = if Z.odd e then - 2 ^ e else 2 ^ e.
Proof.
  intros He. change (-2) with (- (2)). destruct (Z.odd e) eqn:Eo.
  - rewrite Z.pow_opp_odd; [done|by apply Z.odd_spec].
  - rewrite Z.pow_opp_even; [done|]. apply Z.even_spec. by rewrite <- Z.negb_odd, Eo.
Qed.

Lemma pow1_neg e : 0 <= e -> (-1) ^ e = if Z.odd e then -1 else 1.
Proof.
  intros He. change (-1) with (- (1)). destruct (Z.odd e) eqn:Eo.
  - rewrite Z.pow_opp_odd, Z.pow_1_l by (done || by apply Z.odd_spec). done.
  - rewrite Z.pow_opp_even, Z.pow_1_l; [done|done|]. apply Z.even_spec. by rewrite <- Z.negb_odd, Eo.
Qed.

(** A single set bit. *)
Lemma oneBit_wf k v s : is_u32 v -> v <> 0 -> Z.of_nat k < MAXSIZE ->
  let z := mkBigInt s (<[k:=v]> (replicate (S k) 0)) in wf z /\ toZ z = if s then - (pw k * v) else pw k * v.
Proof.
  intros Hv H0 Hk z. assert (length (<[k:=v]> (replicate (S k) 0)) = S k) as Hl
    by (by rewrite length_insert, length_replicate).
  assert (<[k:=v]> (replicate (S k) 0) !! k = Some v) as Hlk
    by (apply list_lookup_insert_eq; rewrite length_replicate; lia).
  assert (last (data z) = Some v) as Hlast.
  { unfold z. cbn [data]. rewrite last_lookup, Hl. exact Hlk. }
  assert (eval (data z) = pw k * v) as Ev.
  { unfold z. cbn [data]. rewrite <- (evalp_all _ (S k)) by lia.
    rewrite evalp_insert_S by (rewrite length_replicate; lia).
    unfold evalp. by rewrite take_replicate, eval_replicate_0. }
  split; [|unfold toZ; by rewrite Ev]. split; unfold z, GetLength; cbn [data Sign]; rewrite ?Hl.
  - auto with ark.
  - lia.
  - lia.
  - right. unfold z in Hlast. cbn [data] in Hlast. rewrite Hlast. congruence.
  - intros Ez. unfold z in Hlast. cbn [data] in Hlast. rewrite Ez in Hlast. cbn in Hlast. congruence.
Qed.

Lemma powerOfTwo_spec base E : wf base -> Z.abs (toZ base) = 2 -> 0 < E ->
  if MAXBITS <=? E then powerOfTwo base E = Err SizeExceeded
  else returns (powerOfTwo base E) (fun z => wf z /\ toZ z = toZ base ^ E).
Proof.
  intros Hb H2 HE. unfold powerOfTwo. change DATA_BITS with 32.
  pose proof (Z.div_mod E 32 ltac:(lia)) as Ed. pose proof (Z.mod_pos_bound E 32 ltac:(lia)) as Hm.
  pose proof (Z.div_pos E 32 ltac:(lia) ltac:(lia)) as Hq.
  assert (MAXBITS = 32 * MAXSIZE) as EM by reflexivity.
  destruct (Z.leb_spec MAXBITS E); [by rewrite CreateBigint_error by lia|].
  digit_step; [lia|]. replace (Z.to_nat (E / 32 + 1)) with (S (Z.to_nat (E / 32))) by lia.
  replace (E / 32 + 1 - 1) with (E / 32) by lia. set (k := Z.to_nat (E / 32)).
  digit_step; [unfold GetLength; cbn [data]; rewrite length_replicate; lia|].
  rewrite Z.shiftl_1_l. pose proof (pow2_pos (E mod 32) ltac:(lia)) as Hp.
  assert (is_u32 (2 ^ (E mod 32))) as Hv.
  { unfold is_u32. rewrite (BASE_split (E mod 32)) by lia. pose proof (pow2_pos (32 - E mod 32) ltac:(lia)).
    assert (2 ^ 1 <= 2 ^ (32 - E mod 32)) by (apply Z.pow_le_mono_r; lia). change (2 ^ 1) with 2 in *. nia. }
  rewrite u32_small by done.
  assert (pw k * 2 ^ (E mod 32) = 2 ^ E) as Epow.
  { rewrite pw_bits, <- Z.pow_add_r by lia. f_equal. lia. }
  assert (toZ base ^ E = if (if Sign base then Z.odd E else false) then - 2 ^ E else 2 ^ E) as ->.
  { pose proof (wf_sign base Hb) as Sb. destruct (Sign base); symmetry in Sb.
    - apply Z.ltb_lt in Sb. replace (toZ base) with (-2) by lia. apply pow2_neg. lia.
    - apply Z.ltb_ge in Sb. by replace (toZ base) with 2 by lia. }
  rewrite <- Epow. unfold GetSign, SetSign. cbn [data].
  destruct (Sign base); apply returns_ok; apply oneBit_wf; auto; lia.
Qed.

(** ** Exponentiation *)

Lemma unitPower x E : wf x -> Z.abs (toZ x) = 1 -> 0 <= E ->
  returns (if Sign x && negb (Z.odd E) then UnaryMinus x else Ok x) (fun z => wf z /\ toZ z = toZ x ^ E).
Proof.
  intros Hx H1 HE. pose proof (wf_sign x Hx) as Sx. destruct (Sign x); symmetry in Sx; cbn [andb].
  - apply Z.ltb_lt in Sx. assert (toZ x = -1) as E1 by lia. rewrite E1, pow1_neg by done.
    destruct (Z.odd E) eqn:Eo; cbn [negb].
    + apply returns_ok. split; [done|lia].
    + eapply returns_mono; [by apply UnaryMinus_returns|]. cbv beta. intros z (Hz & -> & _). split; [done|lia].
  - apply Z.ltb_ge in Sx. assert (toZ x = 1) as E1 by lia. rewrite E1, Z.pow_1_l by done.
    apply returns_ok. split; [done|lia].
Qed.

(** The low digit of the exponent: its parity, and its value when it is the only digit. *)
Lemma lowDigit y d : wf y -> Sign y = false -> data y !! 0%nat = Some d ->
  Z.odd d = Z.odd (toZ y) /\ is_u32 d /\ (GetLength y = 1%nat -> d = toZ y) /\
  ((1 < GetLength y)%nat -> BASE <= toZ y).
Proof.
  intros Hy Sy Hd. pose proof (digit_range _ _ _ (wf_digits _ Hy) Hd) as Hr.
  assert (toZ y = eval (data y)) as Ey by (unfold toZ; by rewrite Sy). split_and!; [..|done| |].
  - rewrite Ey. destruct (data y) as [|d' l]; [discriminate|]. cbn in Hd. injection Hd as ->. cbn [eval].
    change (BASE * eval l) with (2 * 2147483648 * eval l). by rewrite <- Z.mul_assoc, Z.odd_add_mul_2.
  - intros H1. rewrite Ey. unfold GetLength in H1. destruct (data y) as [|d' [|]]; try discriminate.
    cbn in *. injection Hd as ->. lia.
  - intros H1. rewrite Ey. pose proof (wf_eval_lower y Hy H1).
    pose proof (pw_mono 1 (GetLength y - 1) ltac:(lia)) as Hm. change (pw 1) with BASE in Hm. lia.
Qed.

Lemma Exponentiate_outcome x y : wf x -> wf y -> Sign y = false ->
  outcome (Exponentiate x y) (fun z => wf z /\ toZ z = toZ x ^ toZ y)
    (fun e => e = SizeExceeded /\ MAXSIZE < Z.of_nat (GetLength x) * toZ y).
Proof.
  intros Hx Hy Sy. pose proof (wf_sign y Hy) as Hs. rewrite Sy in Hs. symmetry in Hs. apply Z.ltb_ge in Hs.
  unfold Exponentiate, GetSign. rewrite Sy, (IsZero_eq y), bind_Ok by done. case_bool_decide as Y0.
  { rewrite Int32One. split; [apply wf_one|]. by rewrite Y0, Z.pow_0_r. }
  rewrite IsZero_eq, bind_Ok by done. case_bool_decide as X0.
  { split; [done|]. by rewrite X0, Z.pow_0_l by lia. }
  pose proof (wf_pos _ Hy) as Ly. pose proof (wf_pos _ Hx) as Lx. apply outcome_bind.
  apply returns_outcome, get_returns; [done|]. intros d Hd.
  destruct (lowDigit y d Hy Sy Hd) as (Eodd & Rd & Eone & Elong). pose proof BASE_gt_2 as HB.
  rewrite (isDigit_eq x 1), bind_Ok by (done || (unfold is_u32; lia)). rewrite Eodd.
  destruct (Z.eqb_spec (Z.abs (toZ x)) 1) as [X1|X1]; [by apply returns_outcome, unitPower|].
  destruct (Nat.ltb_spec 1 (GetLength y)) as [Hlong|Hshort].
  { split; [done|]. specialize (Elong Hlong). rewrite MAXSIZE_eq. change BASE with 4294967296 in Elong. nia. }
  rewrite Eone in * by lia.
  rewrite isDigit_eq, bind_Ok by (done || (unfold is_u32; lia)).
  destruct (Z.eqb_spec (Z.abs (toZ x)) 2) as [X2|X2]; [|apply powerLoop_outcome; auto; [lia|apply Rd]].
  pose proof (powerOfTwo_spec x (toZ y) Hx X2 ltac:(lia)) as H. change MAXBITS with 1048576 in H.
  destruct (Z.leb_spec 1048576 (toZ y)); [|by apply returns_outcome]. rewrite H. split; [done|].
  rewrite MAXSIZE_eq. nia.
Qed.

(** [2 ** bit], as [AsUintN] and [AsintN] compute it. *)
Lemma Exponentiate_two base e : wf base -> toZ base = 2 -> wf e -> 0 <= toZ e ->
  if MAXBITS <=? toZ e then Exponentiate base e = Err SizeExceeded
  else returns (Exponentiate base e) (fun z => wf z /\ toZ z = 2 ^ toZ e).
Proof.
  intros Hb Eb He He0. assert (Sign e = false) as Se by (rewrite wf_sign by done; by apply Z.ltb_ge).
  unfold Exponentiate, GetSign. rewrite Se, (IsZero_eq e), bind_Ok by done. case_bool_decide as Y0.
  { rewrite Y0, Int32One. split; [apply wf_one|apply toZ_lit_one]. }
  rewrite IsZero_eq, bind_Ok, bool_decide_false by (done || lia).
  pose proof (wf_pos _ He) as Le. pose proof BASE_gt_2 as HB.
  destruct (lookup_lt_is_Some_2 (data e) 0 Le) as [d Hd]. rewrite (bind_GetDigit_eq e _ d) by done.
  destruct (lowDigit e d He Se Hd) as (_ & _ & Eone & Elong).
  rewrite !isDigit_eq, bind_Ok, Eb by (done || (unfold is_u32; lia)).
  change (Z.abs 2 =? 1) with false. change (Z.abs 2 =? 2) with true. cbv iota.
  destruct (Nat.ltb_spec 1 (GetLength e)) as [Hlong|Hshort].
  { specialize (Elong Hlong). change MAXBITS with 1048576. change BASE with 4294967296 in Elong.
    by rewrite (proj2 (Z.leb_le _ _)) by lia. }
  rewrite bind_Ok, Eone by lia. pose proof (powerOfTwo_spec base (toZ e) Hb ltac:(by rewrite Eb) ltac:(lia)) as H.
  by rewrite Eb in H.
Qed.

(** ** Truncation to N bits *)

(** The widths at which [2 ** bit] is computed but has no representation. *)
Definition widthTooBig (bit : Z) (x : BigInt) : bool :=
  negb (toZ x =? 0) && (MAXBITS <=? bit) && ((bit <? kMaxLengthBits) || Sign x).

(** The signed representative modulo [2 ^ bit]. *)
Definition wrapSigned (bit z : Z) : Z :=
  let m := z mod 2 ^ bit in if (bit =? 0) || (m <? 2 ^ (bit - 1)) then m else m - 2 ^ bit.

Lemma wf_below_pow2 x k : wf x -> Sign x = false -> MAXBITS <= k -> 0 <= toZ x < 2 ^ k.
Proof.
  intros Hx Sx Hk. assert (toZ x = eval (data x)) as -> by (unfold toZ; by rewrite Sx).
  pose proof (wf_eval_max x Hx) as Hm. pose proof (wf_eval_bounds x Hx) as [Hb _]. split; [exact Hb|].
  eapply Z.lt_le_trans; [exact Hm|]. apply Z.pow_le_mono_r; [done|exact Hk].
Qed.

Lemma FloorMod_short x t : wf x -> wf t -> 0 < toZ t -> Z.of_nat (GetLength x) < MAXSIZE ->
  returns (FloorMod x t) (fun z => wf z /\ toZ z = toZ x mod toZ t).
Proof.
  intros Hx Ht Hpos HL. pose proof (FloorMod_spec x t Hx Ht Hpos) as H.
  unfold divTooLong in H. by rewrite (proj2 (Z.leb_gt _ _) HL) in H.
Qed.

Section AsNLemmas.
  Context (junk : Junk) (bit : Z) (x : BigInt).
  Context (Hbit : 0 <= bit < 2 ^ 63) (Hx : wf x) (HL : Z.of_nat (GetLength x) < MAXSIZE).

Lemma asN_shortcut : kMaxLengthBits <= bit -> Sign x = false -> 0 <= toZ x < 2 ^ (bit - 1).
Proof.
  intros Hk Sx. apply wf_below_pow2; auto. unfold kMaxLengthBits in Hk. change MAXBITS with 1048576. lia.
Qed.

Lemma AsUintN_spec :
  if widthTooBig bit x then AsUintN junk bit x = Err SizeExceeded
  else returns (AsUintN junk bit x) (fun z => wf z /\ toZ z = toZ x mod 2 ^ bit).
Proof.
  unfold AsUintN, widthTooBig, GetSign. destruct (Z.eqb_spec bit 0) as [->|Hb0].
  { change (MAXBITS <=? 0) with false. rewrite andb_false_r. cbn [andb].
    eapply returns_mono; [apply Int32ToBigInt_returns; unfold is_i32; lia|]. cbv beta.
    intros z (Hz & -> & _). by rewrite Z.mod_1_r. }
  rewrite IsZero_eq, bind_Ok by done. destruct (Z.eqb_spec (toZ x) 0) as [X0|X0].
  { rewrite bool_decide_true by done. apply returns_ok. rewrite X0, Z.mod_0_l by (apply Z.pow_nonzero; lia). done. }
  rewrite bool_decide_false by done. cbn [negb andb].
  pose proof (Uint64ToBigInt_returns junk (u64 bit) (u64_range bit)) as He.
  apply returns_iff in He as (e & -> & He & Ee). rewrite u64_small in Ee by (unfold is_u64; lia).
  pose proof (Int64ToBigInt_returns junk 2 ltac:(unfold is_i64; lia)) as Hb.
  apply returns_iff in Hb as (b & -> & Hb & Eb). rewrite !bind_Ok.
  destruct ((kMaxLengthBits <=? bit) && negb (Sign x)) eqn:Ec.
  { apply andb_true_iff in Ec as [Hk%Z.leb_le Sx%negb_true_iff].
    rewrite (proj2 (Z.ltb_ge _ _) Hk), Sx, andb_false_r. apply returns_ok. split; [done|].
    destruct (asN_shortcut Hk Sx) as [H0 H1]. symmetry. apply Z.mod_small. split; [exact H0|].
    eapply Z.lt_le_trans; [exact H1|]. apply Z.pow_le_mono_r; lia. }
  assert ((bit <? kMaxLengthBits) || Sign x = true) as ->.
  { rewrite Z.leb_antisym in Ec. by destruct (bit <? kMaxLengthBits), (Sign x). }
  pose proof (Exponentiate_two b e Hb Eb He ltac:(lia)) as Hp. rewrite Ee in Hp. rewrite andb_true_r.
  destruct (MAXBITS <=? bit); [by rewrite Hp|]. eapply returns_bind; [exact Hp|]. cbv beta.
  intros t [Ht Et]. rewrite <- Et. apply FloorMod_short; auto. rewrite Et. apply pow2_pos. lia.
Qed.

Lemma wrapSigned_small : 0 <= toZ x < 2 ^ (bit - 1) -> 0 < bit -> wrapSigned bit (toZ x) = toZ x.
Proof.
  intros Hr Hb. assert (2 ^ bit = 2 * 2 ^ (bit - 1)) as Ep by (rewrite <- Z.pow_succ_r by lia; f_equal; lia).
  unfold wrapSigned. rewrite Z.mod_small by lia. rewrite (proj2 (Z.ltb_lt _ _)) by lia. by rewrite orb_true_r.
Qed.

(** The choice between the residue and the residue minus the modulus. *)
Lemma asintN_select t m r : 0 < bit -> wf t -> toZ t = 2 ^ bit -> wf m -> toZ m = toZ x mod 2 ^ bit ->
  wf r -> toZ r = 2 ^ (bit - 1) ->
  returns (c ← Compare r m; if negb (bool_decide (c = GREAT)) then Subtract m t else Ok m)
    (fun z => wf z /\ toZ z = wrapSigned bit (toZ x)).
Proof.
  intros Hb Ht Et Hm Em Hr Er. rewrite Compare_eq, bind_Ok, Er by done. unfold wrapSigned.
  rewrite (proj2 (Z.eqb_neq bit 0)), <- Em, <- Et by lia. cbn [orb].
  destruct (Z.ltb_spec (toZ m) (2 ^ (bit - 1))).
  - rewrite cmpZ_great, bool_decide_true by done. by apply returns_ok.
  - rewrite bool_decide_false; [|intros E; unfold cmpZ in E; destruct (Z.compare_spec (2 ^ (bit - 1)) (toZ m)); done || lia].
    pose proof (Subtract_spec m t Hm Ht) as HS. pose proof (pow2_pos bit ltac:(lia)).
    pose proof (pow2_pos (bit - 1) ltac:(lia)).
    rewrite (wf_sign m), (wf_sign t), !(proj2 (Z.ltb_ge _ 0)) in HS by (done || lia). exact HS.
Qed.

Lemma AsintN_spec :
  if widthTooBig bit x then AsintN junk bit x = Err SizeExceeded
  else returns (AsintN junk bit x) (fun z => wf z /\ toZ z = wrapSigned bit (toZ x)).
Proof.
  unfold AsintN, widthTooBig, GetSign. destruct (Z.eqb_spec bit 0) as [->|Hb0].
  { change (MAXBITS <=? 0) with false. rewrite andb_false_r. cbn [andb].
    eapply returns_mono; [apply Int32ToBigInt_returns; unfold is_i32; lia|]. cbv beta.
    intros z (Hz & -> & _). split; [done|]. unfold wrapSigned. by rewrite Z.mod_1_r. }
  rewrite IsZero_eq, bind_Ok by done. destruct (Z.eqb_spec (toZ x) 0) as [X0|X0].
  { rewrite bool_decide_true by done. apply returns_ok. split; [done|]. symmetry. apply wrapSigned_small; [|lia].
    rewrite X0. split; [done|]. apply pow2_pos. lia. }
  rewrite bool_decide_false by done. cbn [negb andb]. rewrite (i64_small (bit - 1)) by (unfold is_i64; lia).
  pose proof (Int64ToBigInt_returns junk bit ltac:(unfold is_i64; lia)) as He.
  apply returns_iff in He as (e & -> & He & Ee).
  pose proof (Int64ToBigInt_returns junk (bit - 1) ltac:(unfold is_i64; lia)) as Hf.
  apply returns_iff in Hf as (f & -> & Hf & Ef).
  pose proof (Int64ToBigInt_returns junk 2 ltac:(unfold is_i64; lia)) as Hb.
  apply returns_iff in Hb as (b & -> & Hb & Eb). rewrite !bind_Ok.
  destruct ((kMaxLengthBits <=? bit) && negb (Sign x)) eqn:Ec.
  { apply andb_true_iff in Ec as [Hk%Z.leb_le Sx%negb_true_iff].
    rewrite (proj2 (Z.ltb_ge _ _) Hk), Sx, andb_false_r. apply returns_ok. split; [done|]. symmetry.
    apply wrapSigned_small; [by apply asN_shortcut|lia]. }
  assert ((bit <? kMaxLengthBits) || Sign x = true) as ->.
  { rewrite Z.leb_antisym in Ec. by destruct (bit <? kMaxLengthBits), (Sign x). }
  pose proof (Exponentiate_two b e Hb Eb He ltac:(lia)) as Hp. rewrite Ee in Hp. rewrite andb_true_r.
  pose proof (Exponentiate_two b f Hb Eb Hf ltac:(lia)) as Hq. rewrite Ef in Hq.
  destruct (Z.leb_spec MAXBITS bit); [by rewrite Hp|]. rewrite (proj2 (Z.leb_gt _ _)) in Hq by lia.
  eapply returns_bind; [exact Hp|]. cbv beta. intros t [Ht Et].
  eapply returns_bind; [apply FloorMod_short; auto; rewrite Et; apply pow2_pos; lia|]. cbv beta.
  intros m [Hm Em]. eapply returns_bind; [exact Hq|]. cbv beta. intros r [Hr Er].
  apply (asintN_select t m r); auto; [lia|by rewrite Em, Et].
Qed.
End AsNLemmas.

(** ** Theorems *)

(** Exponentiation throws "Exponent must be positive" exactly for a negative exponent.
    Otherwise it terminates with the normalised power, unless it throws the size error, which
    it only does when the length of the base times the exponent exceeds the size limit. *)
Theorem Exponentiate_correct x y (Hx : wf x) (Hy : wf y) :
  if Sign y then Exponentiate x y = Err ExponentNegative
  else match Exponentiate x y with
       | Ok z => wf z /\ toZ z = toZ x ^ toZ y
       | Err e => e = SizeExceeded /\ MAXSIZE < Z.of_nat (GetLength x) * toZ y
       end.
Proof.
  destruct (Sign y) eqn:Sy; [|by apply Exponentiate_outcome]. unfold Exponentiate, GetSign. by rewrite Sy.
Qed.

Lemma Exponentiate_correct_witness :
  match Exponentiate (mkBigInt true [7]) (mkBigInt false [13]) with
  | Ok z => wf z /\ toZ z = (-7) ^ 13
  | Err e => e = SizeExceeded /\ MAXSIZE < Z.of_nat 1 * 13
  end.
Proof. refine (Exponentiate_correct (mkBigInt true [7]) (mkBigInt false [13]) _ _); by apply wfb_wf. Defined.

(** [BigInt.asUintN] returns the residue of the number modulo [2 ^ bit]; it throws the size
    error exactly for a non-zero number when [2 ^ bit] is not representable and the shortcut for
    non-negative numbers at [2 ^ 30] bits does not apply. *)
Theorem AsUintN_correct junk bit x (Hbit : 0 <= bit < 2 ^ 63) (Hx : wf x)
  (Hlen : Z.of_nat (GetLength x) < MAXSIZE) :
  if widthTooBig bit x then AsUintN junk bit x = Err SizeExceeded
  else exists z, AsUintN junk bit x = Ok z /\ wf z /\ toZ z = toZ x mod 2 ^ bit.
Proof.
  pose proof (AsUintN_spec junk bit x Hbit Hx Hlen) as H. case_match; [done|]. by apply returns_iff.
Qed.

Lemma AsUintN_correct_witness :
  exists z, AsUintN (mkJunk (fun _ => 9) true) 40 (mkBigInt true [20]) = Ok z /\ wf z /\ toZ z = (-20) mod 2 ^ 40.
Proof.
  refine (AsUintN_correct (mkJunk (fun _ => 9) true) 40 (mkBigInt true [20]) _ _ _); [lia|by apply wfb_wf|done].
Defined.

(** [BigInt.asIntN] returns the signed representative of the number modulo [2 ^ bit], and
    throws under the same condition as [BigInt.asUintN]. *)
Theorem AsintN_correct junk bit x (Hbit : 0 <= bit < 2 ^ 63) (Hx : wf x)
  (Hlen : Z.of_nat (GetLength x) < MAXSIZE) :
  if widthTooBig bit x then AsintN junk bit x = Err SizeExceeded
  else exists z, AsintN junk bit x = Ok z /\ wf z /\ toZ z = wrapSigned bit (toZ x).
Proof.
  pose proof (AsintN_spec junk bit x Hbit Hx Hlen) as H. case_match; [done|]. by apply returns_iff.
Qed.

Lemma AsintN_correct_witness :
  exists z, AsintN (mkJunk (fun _ => 9) true) 5 (mkBigInt false [31]) = Ok z /\ wf z /\ toZ z = -1.
Proof.
  refine (AsintN_correct (mkJunk (fun _ => 9) true) 5 (mkBigInt false [31]) _ _ _); [lia|by apply wfb_wf|done].
Defined.
