(* ===== verification/BigIntString.v ===== *)
(** * BigInt and strings

    [CharToInt], [Division], [Conversion], [SetBigInt], [GetBinary], [DeZero] and
    [ToStdString] of src/ecmascript/js_bigint.cpp.  A [CString] is a list of characters. *)

From Stdlib Require Import ZArith Lia Ascii String.
From S2P Require Import Prelude BigIntBase BigIntAdd BigIntShift BigIntBits.

(** ** Model *)

Notation CString := (list ascii).

Definition code (c : ascii) : Z := Z.of_N (N_of_ascii c).
Definition charOf (z : Z) : ascii := ascii_of_N (Z.to_N z).

Definition dp : CString := list_ascii_of_string "0123456789abcdefghijklmnopqrstuvwxyz".

Definition CharToInt (c : ascii) : Z :=
  if (code "0" <=? code c) && (code c <=? code "9") then code c - code "0"
  else if (code "A" <=? code c) && (code c <=? code "Z") then code c - code "A" + 10
  else if (code "a" <=? code c) && (code c <=? code "z") then code c - code "a" + 10
  else 0.

(** [while (count < s.size() && s[count] == '0') count++] *)
Fixpoint countZeros (s : CString) : nat :=
  match s with
  | c :: s' => if (c =? "0")%char then S (countZeros s') else 0%nat
  | [] => 0%nat
  end.

(** Returns the updated [num] and [remain]. *)
Definition Division (num : CString) (conversionToRadix currentRadix : Z) : result (CString * Z) :=
  '(num, remain) ← for_up (length num) 0 (fun i '(num, remain) =>
    c ← get num i;
    let temp := u32 (currentRadix * remain + CharToInt c) in
    q ← get dp (Z.to_nat (temp / conversionToRadix));
    num ← set num i q;
    Ok (num, temp mod conversionToRadix)) (num, 0);
  Ok (drop (countZeros num) num, remain).

Definition conversionRound (conversionToRadix currentRadix : Z) (s : CString * CString)
  : result (CString * CString) :=
  let '(newNum, res) := s in
  '(newNum, remain) ← Division newNum conversionToRadix currentRadix;
  c ← get dp (Z.to_nat remain);
  Ok (newNum, c :: res).

(** Rounds enough for a number of at most [6 * length num] bits. *)
Definition conversionFuel (num : CString) : nat := S (6 * length num).

Definition Conversion (num : CString) (conversionToRadix currentRadix : Z) : result CString :=
  '(_, res) ← while_loop (conversionFuel num) (fun '(newNum, _) => negb (length newNum =? 0)%nat)
    (conversionRound conversionToRadix currentRadix) (num, []);
  Ok res.

(** The inner loops of [SetBigInt]: the bits [i .. i + n - 1] of the string. *)
Definition packBits (binaryStr : CString) (i n : nat) : result Z :=
  for_up n i (fun k val =>
    c ← get binaryStr k;
    Ok (Z.lor (u32 (Z.shiftl val 1)) (u32 (code c - code "0")))) 0.

Definition BINARY : Z := 2.

(** The digits of [SetBigInt] from the bits, and the sign. *)
Definition setBits (binaryStr : CString) (flag : bool) : result BigInt :=
  let binaryStrLen := length binaryStr in
  let len := (binaryStrLen / 32)%nat in
  let mod_ := (binaryStrLen mod 32)%nat in
  '(bigint, index) ←
    (if (mod_ =? 0)%nat then
       bigint ← CreateBigint (Z.of_nat len); Ok (bigint, Z.of_nat len - 1)
     else
       bigint ← CreateBigint (Z.of_nat (S len));
       val ← packBits binaryStr 0 mod_;
       bigint ← SetDigit bigint (Z.to_nat (Z.of_nat (S len) - 1)) val;
       Ok (bigint, Z.of_nat (S len) - 1 - 1));
  let bigint := if flag then SetSign bigint true else bigint in
  '(bigint, _, _) ← while_loop binaryStrLen (fun '(_, _, i) => (i <? binaryStrLen)%nat)
    (fun '(bigint, index, i) =>
       let n := Nat.min 32 (binaryStrLen - i) in
       val ← packBits binaryStr i n;
       bigint ← SetDigit bigint (Z.to_nat index) val;
       Ok (bigint, index - 1, (i + n)%nat)) (bigint, index, mod_);
  RightTruncate bigint.

(** [substr(flag)]; [numStr[0]] of an empty string is the terminating zero. *)
Definition SetBigInt (numStr : CString) (currentRadix : Z) : result BigInt :=
  let flag := match numStr with c :: _ => (c =? "-")%char | [] => false end in
  let digits := if flag then drop 1 numStr else numStr in
  binaryStr ← (if negb (currentRadix =? BINARY) then Conversion digits BINARY currentRadix else Ok digits);
  setBits binaryStr flag.

Definition DeZero (a : CString) : CString :=
  let count := countZeros a in
  if (count =? length a)%nat then ["0"%char] else drop count a.

Definition GetBinary (bigint : BigInt) : result CString :=
  let len := GetLength bigint in
  let strLen := (32 * len)%nat in
  '(res, _) ← for_up len 0 (fun index '(res, strIndex) =>
    val ← GetDigit bigint index;
    '(res, strIndex, _) ← for_up 32 0 (fun _ '(res, strIndex, val) =>
      res ← set res (Z.to_nat strIndex) (charOf (Z.land val 1 + code "0"));
      Ok (res, strIndex - 1, Z.shiftr val 1)) (res, strIndex, val);
    Ok (res, strIndex)) (replicate strLen "0"%char, Z.of_nat strLen - 1);
  Ok (DeZero res).

Definition ToStdString (x : BigInt) (conversionToRadix : Z) : result CString :=
  bin ← GetBinary x;
  result ← Conversion bin conversionToRadix BINARY;
  Ok (if GetSign x then "-"%char :: result else result).

(** ** The number a string denotes *)

(** Most significant character first. *)
Definition strval (r : Z) (s : CString) : Z := fold_left (fun a c => a * r + CharToInt c) s 0.

Definition isDigitOf (r : Z) (c : ascii) : Prop := CharToInt c < r.

(** No leading zero. *)
Definition noLeadingZero (s : CString) : Prop := match s with c :: _ => c <> "0"%char | [] => True end.

Lemma CharToInt_range c : 0 <= CharToInt c < 36.
Proof. destruct c as [[] [] [] [] [] [] [] []]; by vm_compute. Qed.

(** A character of [dp] and its value. *)
Definition dpChar (c : ascii) (i : Z) : Prop := CharToInt c = i /\ (c = "0"%char <-> i = 0).

Lemma dp_lookup i : 0 <= i < 36 -> exists c, get dp (Z.to_nat i) = Ok c /\ dpChar c i.
Proof.
  intros Hi. assert (exists n, i = Z.of_nat n /\ (n < 36)%nat) as (n & -> & Hn) by (exists (Z.to_nat i); lia).
  rewrite Nat2Z.id. unfold dpChar.
  do 36 (destruct n as [|n]; [eexists; split; [reflexivity|split; [reflexivity|split; intros; (reflexivity || discriminate)]]|]).
  lia.
Qed.

Lemma bind_dp {A} i (k : ascii -> result A) (Q : A -> Prop) : 0 <= i < 36 ->
  (forall c, dpChar c i -> returns (k c) Q) -> returns (c ← get dp (Z.to_nat i); k c) Q.
Proof.
  intros Hi Hk. destruct (dp_lookup i Hi) as (c & -> & Hv). by apply Hk.
Qed.

Section Strval.
  Context (r : Z).

Lemma strval_nil : strval r [] = 0.
Proof. done. Qed.

Lemma strval_snoc s c : strval r (s ++ [c]) = strval r s * r + CharToInt c.
Proof. unfold strval. by rewrite fold_left_app. Qed.

Lemma strval_take_S s i c : s !! i = Some c -> strval r (take (S i) s) = strval r (take i s) * r + CharToInt c.
Proof. intros H. by rewrite (take_S_r _ _ _ H), strval_snoc. Qed.

Lemma strval_app s t : strval r (s ++ t) = strval r s * r ^ Z.of_nat (length t) + strval r t.
Proof.
  induction t as [|c t IH] using rev_ind; [rewrite app_nil_r; cbn; lia|].
  rewrite app_assoc, !strval_snoc, IH, length_app, Nat2Z.inj_add. cbn [length]. rewrite Z.pow_add_r by lia.
  change (r ^ Z.of_nat 1) with (r ^ 1). rewrite Z.pow_1_r. lia.
Qed.

Lemma strval_cons c s : strval r (c :: s) = CharToInt c * r ^ Z.of_nat (length s) + strval r s.
Proof. apply (strval_app [c] s). Qed.

Lemma strval_bounds s : 0 < r -> Forall (isDigitOf r) s -> 0 <= strval r s < r ^ Z.of_nat (length s).
Proof.
  intros Hr. induction 1 as [|c s Hc Hs IH]; [cbn; lia|]. rewrite strval_cons. cbn [length].
  rewrite Nat2Z.inj_succ, Z.pow_succ_r by lia. unfold isDigitOf in Hc. pose proof (CharToInt_range c). nia.
Qed.

Lemma strval_strip s : strval r (drop (countZeros s) s) = strval r s.
Proof.
  induction s as [|c s IH]; [done|]. cbn [countZeros]. destruct (Ascii.eqb_spec c "0") as [->|]; [|done].
  rewrite skipn_cons, IH, strval_cons. done.
Qed.

(** A digit string without leading zero is positive, and as long as its value. *)
Lemma strval_lower s : 0 < r -> Forall (isDigitOf r) s -> s <> [] ->
  (forall c, s !! 0%nat = Some c -> CharToInt c <> 0) -> r ^ (Z.of_nat (length s) - 1) <= strval r s.
Proof.
  intros Hr Hs Hne Hh. destruct s as [|c s]; [done|]. apply Forall_cons in Hs as [_ Hs].
  rewrite strval_cons. cbn [length]. replace (Z.of_nat (S (length s)) - 1) with (Z.of_nat (length s)) by lia.
  pose proof (strval_bounds s Hr Hs). pose proof (CharToInt_range c). specialize (Hh c eq_refl). nia.
Qed.
End Strval.

Lemma strip_head s : noLeadingZero (drop (countZeros s) s).
Proof.
  induction s as [|c s IH]; [done|]. cbn [countZeros]. by destruct (Ascii.eqb_spec c "0").
Qed.

Lemma strip_Forall (P : ascii -> Prop) s : Forall P s -> Forall P (drop (countZeros s) s).
Proof. apply Forall_drop. Qed.

(** ** One division by the target radix *)

Section Division.
  Context (to from : Z) (Hto : 2 <= to <= 36) (Hfrom : 2 <= from <= 36).

(** A string of digits whose zeros are the character '0'. *)
Definition canonicalDigits (r : Z) (s : CString) : Prop :=
  Forall (fun c => isDigitOf r c /\ (CharToInt c = 0 -> c = "0"%char)) s.

Lemma canonicalDigits_digits r s : canonicalDigits r s -> Forall (isDigitOf r) s.
Proof. intros H. eapply Forall_impl; [exact H|]. naive_solver. Qed.

(** After the first [i] characters: they are the quotient, [remain] the remainder. *)
Definition divisionInv (num0 : CString) (i : nat) (s : CString * Z) : Prop :=
  let '(num, remain) := s in
  length num = length num0 /\ drop i num = drop i num0 /\ canonicalDigits from (take i num) /\
  0 <= remain < to /\ strval from (take i num) * to + remain = strval from (take i num0).

Lemma divisionInv_step num0 i c num remain : Forall (isDigitOf from) num0 ->
  num0 !! i = Some c -> divisionInv num0 i (num, remain) ->
  returns (let temp := u32 (from * remain + CharToInt c) in
           q ← get dp (Z.to_nat (temp / to)); num ← set num i q; Ok (num, temp mod to))
    (divisionInv num0 (S i)).
Proof.
  intros Hd Hc (Hl & Hdrop & Hcan & Hr & E).
  assert (isDigitOf from c) as Hdc by (by eapply Forall_lookup_1). unfold isDigitOf in Hdc.
  pose proof (CharToInt_range c) as Hc0. pose proof (lookup_lt_Some _ _ _ Hc) as Hi.
  rewrite u32_small by (unfold is_u32; pose proof BASE_eq; nia). cbv zeta.
  set (temp := from * remain + CharToInt c). assert (0 <= temp < from * to) as Ht by (unfold temp; nia).
  assert (0 <= temp / to < from) as Hq by (split; [apply Z.div_pos; lia|apply Z.div_lt_upper_bound; lia]).
  apply bind_dp; [lia|]. intros q [Eq Hq0]. apply bind_set; [lia|]. apply returns_ok. unfold divisionInv.
  pose proof (Z.div_mod temp to ltac:(lia)) as Ed. pose proof (Z.mod_pos_bound temp to ltac:(lia)) as Hm.
  assert (<[i:=q]> num !! i = Some q) as Hlk by (apply list_lookup_insert_eq; lia).
  rewrite length_insert, (take_S_r _ _ _ Hlk), take_insert_ge by lia. split_and!; auto.
  - rewrite drop_insert_lt by lia. replace (S i) with (i + 1)%nat by lia. by rewrite <- !drop_drop, Hdrop.
  - apply Forall_app. split; [done|]. apply Forall_singleton. unfold isDigitOf. rewrite Eq. split; [lia|tauto].
  - lia.
  - lia.
  - rewrite strval_snoc, (strval_take_S _ _ _ _ Hc), <- E, Eq. unfold temp in *. lia.
Qed.

Lemma Division_returns num0 : Forall (isDigitOf from) num0 ->
  returns (Division num0 to from) (fun s =>
    canonicalDigits from s.1 /\ noLeadingZero s.1 /\ 0 <= s.2 < to /\
    strval from s.1 * to + s.2 = strval from num0).
Proof.
  intros Hd. unfold Division. eapply returns_bind; [apply (for_up_returns (divisionInv num0))|].
  - unfold divisionInv. rewrite !take_0, strval_nil. split_and!; try done; [apply Forall_nil; done|lia..].
  - intros i [num remain] Hi Hinv. pose proof Hinv as (Hl & Hdrop & _).
    destruct (lookup_lt_is_Some_2 num0 i) as [c Hc]; [lia|]. apply bind_get; [lia|]. intros c' Hc'.
    assert (c' = c) as ->.
    { rewrite <- (Nat.add_0_r i), <- lookup_drop, Hdrop, lookup_drop, Nat.add_0_r in Hc'. congruence. }
    by apply divisionInv_step.
  - cbv beta. rewrite Nat.add_0_l. intros [num remain] (Hl & _ & Hcan & Hr & E).
    rewrite !take_ge in * by lia. apply returns_ok. cbn [fst snd]. rewrite strval_strip.
    split_and!; auto using strip_head; [by apply Forall_drop|lia..].
Qed.
End Division.

(** ** Radix conversion *)

(** The decimal-free description of a result: digits of the radix, and no leading zero except
    in the string "0". *)
Definition canonicalString (r : Z) (s : CString) : Prop :=
  canonicalDigits r s /\ s <> [] /\ (noLeadingZero s \/ s = ["0"%char]).

Section Conversion.
  Context (to from : Z) (Hto : 2 <= to <= 36) (Hfrom : 2 <= from <= 36) (num : CString).
  Context (Hnum : Forall (isDigitOf from) num).

(** What is still to be converted, and the digits produced; [first] holds before the
    first round, when the string may have leading zeros. *)
Definition conversionInv (s : CString * CString) : Prop :=
  let '(newNum, res) := s in
  Forall (isDigitOf from) newNum /\ canonicalDigits to res /\
  strval from num = strval from newNum * to ^ Z.of_nat (length res) + strval to res /\
  (res = [] /\ newNum = num \/
   canonicalDigits from newNum /\ noLeadingZero newNum /\ res <> [] /\
   (newNum = [] -> noLeadingZero res \/ res = ["0"%char])).

Definition bitsOf (v : Z) : nat := Z.to_nat (Z.log2 (2 * v + 1)).

Definition conversionMeasure (s : CString * CString) : nat :=
  if (length s.1 =? 0)%nat then 0%nat else S (bitsOf (strval from s.1)).

Lemma headless_positive s : canonicalDigits from s -> noLeadingZero s -> s <> [] -> 1 <= strval from s.
Proof.
  intros Hs Hh Hne. pose proof (strval_lower from s ltac:(lia) (canonicalDigits_digits _ _ Hs) Hne) as H.
  assert (0 < from ^ (Z.of_nat (length s) - 1)).
  { apply Z.pow_pos_nonneg; [lia|]. destruct s; cbn [length]; [done|lia]. }
  enough (forall c, s !! 0%nat = Some c -> CharToInt c <> 0) as Hc by (specialize (H Hc); lia).
  intros c Hc E. destruct s as [|c' s]; [done|]. injection Hc as ->. apply Forall_cons in Hs as [[_ Hz] _]. auto.
Qed.

Lemma bitsOf_half v w : 0 <= w -> 2 * w <= v -> 0 < v -> (bitsOf w < bitsOf v)%nat.
Proof.
  intros Hw Hle Hv. unfold bitsOf. pose proof (Z.log2_nonneg (2 * w + 1)).
  enough (Z.log2 (2 * w + 1) < Z.log2 (2 * v + 1)) by lia. rewrite (Z.log2_succ_double v) by done.
  destruct (decide (w = 0)) as [->|]; [pose proof (Z.log2_nonneg v); change (Z.log2 (2 * 0 + 1)) with 0; lia|].
  rewrite Z.log2_succ_double by lia. enough (Z.log2 (2 * w) <= Z.log2 v) as H1
    by (rewrite Z.log2_double in H1 by lia; lia). by apply Z.log2_le_mono.
Qed.

Lemma conversionMeasure_fuel : (conversionMeasure (num, []) <= conversionFuel num)%nat.
Proof.
  unfold conversionMeasure, conversionFuel, bitsOf. cbn [fst]. destruct (length num =? 0)%nat; [lia|].
  pose proof (strval_bounds from num ltac:(lia) Hnum) as Hb.
  assert (strval from num < 2 ^ (6 * Z.of_nat (length num))) as Hv.
  { eapply Z.lt_le_trans; [apply Hb|]. rewrite Z.pow_mul_r by lia. apply Z.pow_le_mono_l. lia. }
  enough (Z.log2 (2 * strval from num + 1) < 6 * Z.of_nat (length num) + 1) by lia.
  apply Z.log2_lt_pow2; [lia|]. rewrite Z.pow_add_r by lia. lia.
Qed.

Lemma conversionRound_returns newNum res : conversionInv (newNum, res) -> newNum <> [] ->
  returns (conversionRound to from (newNum, res)) (fun s => conversionInv s /\
    (conversionMeasure s < conversionMeasure (newNum, res))%nat).
Proof.
  intros (Hd & Hres & E & Hphase) Hne. unfold conversionRound.
  eapply returns_bind; [by apply (Division_returns to from)|]. cbv beta.
  intros [num' remain] (Hcan & Hhead & Hr & Ediv). cbn [fst snd] in *.
  apply bind_dp; [lia|]. intros c [Ec Hc0]. apply returns_ok.
  pose proof (strval_bounds from num' ltac:(lia) (canonicalDigits_digits _ _ Hcan)) as Hb.
  split; [split_and!|].
  - by apply canonicalDigits_digits.
  - apply Forall_cons. split; [|done]. unfold isDigitOf. rewrite Ec. split; [lia|tauto].
  - rewrite E, <- Ediv, strval_cons, Ec. cbn [length]. rewrite Nat2Z.inj_succ, Z.pow_succ_r by lia. lia.
  - right. split_and!; auto. intros ->. cbn [noLeadingZero].
    destruct Hphase as [[-> _]|(Hcn & Hhn & Hrn & _)].
    + destruct (decide (c = "0"%char)); [right; congruence|by left].
    + left. intros ->. pose proof (headless_positive newNum Hcn Hhn Hne). rewrite strval_nil in Ediv.
      assert (remain = 0) by tauto. lia.
  - unfold conversionMeasure. cbn [fst]. destruct newNum as [|c0 n0]; [done|]. cbn [length Nat.eqb].
    destruct num' as [|c1 n1]; cbn [length Nat.eqb]; [lia|].
    pose proof (headless_positive (c1 :: n1) Hcan Hhead ltac:(done)).
    apply -> Nat.succ_lt_mono. apply bitsOf_half; lia || nia.
Qed.

Lemma Conversion_returns : num <> [] ->
  returns (Conversion num to from) (fun s => canonicalString to s /\ strval to s = strval from num).
Proof.
  intros Hne. unfold Conversion.
  eapply returns_bind; [apply (while_loop_returns conversionInv conversionMeasure)|].
  - unfold conversionInv. rewrite strval_nil. cbn [length]. rewrite Z.pow_0_r.
    split_and!; auto; [by apply Forall_nil|lia].
  - apply conversionMeasure_fuel.
  - intros [n res] Hinv Hc. apply conversionRound_returns; [done|]. intros ->. done.
  - intros [n res] [(_ & Hcan & E & Hphase) Hc]. apply returns_ok.
    apply negb_false_iff, Nat.eqb_eq, length_zero_iff_nil in Hc. subst n.
    rewrite strval_nil, Z.mul_0_l, Z.add_0_l in E. split; [|done].
    destruct Hphase as [[_ Heq]|(_ & _ & Hrn & Hh)]; [congruence|]. by split_and!; auto.
Qed.
End Conversion.

(** ** Binary strings *)

Notation binaryDigits := (canonicalDigits 2).

Lemma binary_char c : isDigitOf 2 c -> (CharToInt c = 0 -> c = "0"%char) -> c = "0"%char \/ c = "1"%char.
Proof.
  unfold isDigitOf. intros Hlt H0. destruct (decide (CharToInt c = 0)) as [E|E]; [by left; auto|].
  right. pose proof (CharToInt_range c). assert (CharToInt c = 1) as E1 by lia. clear -E1.
  destruct c as [[] [] [] [] [] [] [] []]; (reflexivity || discriminate E1).
Qed.

Lemma bitChar v : 0 <= v ->
  exists c, charOf (Z.land v 1 + code "0") = c /\ CharToInt c = v mod 2 /\
    isDigitOf 2 c /\ (CharToInt c = 0 -> c = "0"%char).
Proof.
  intros Hv. change 1 with (Z.ones 1). rewrite Z.land_ones by lia. change (2 ^ 1) with 2.
  pose proof (Z.mod_pos_bound v 2 ltac:(lia)). eexists. split; [reflexivity|]. unfold isDigitOf.
  assert (v mod 2 = 0 \/ v mod 2 = 1) as [-> | ->] by lia; by vm_compute.
Qed.

Lemma mod_pow2_S d j : 0 <= j -> d mod 2 ^ (j + 1) = d mod 2 ^ j + 2 ^ j * ((d / 2 ^ j) mod 2).
Proof.
  intros Hj. rewrite Z.pow_add_r, Z.pow_1_r by lia. rewrite Z.rem_mul_r by (lia || (pose proof (pow2_pos j Hj); lia)). done.
Qed.

(** [k + j] bits are written from the end; the bits of [d] from [k] on. *)
Definition bitInv (n k : nat) (low d : Z) (j : nat) (s : CString * Z * Z) : Prop :=
  let '(res, strIndex, val) := s in
  length res = n /\ binaryDigits res /\ strIndex = Z.of_nat n - 1 - Z.of_nat (k + j) /\
  val = d / 2 ^ Z.of_nat j /\
  strval 2 (drop (n - (k + j)) res) = low + 2 ^ Z.of_nat k * (d mod 2 ^ Z.of_nat j).

Lemma bitInv_step n k low d j res strIndex val : 0 <= d -> (k + j < n)%nat ->
  bitInv n k low d j (res, strIndex, val) ->
  returns (res ← set res (Z.to_nat strIndex) (charOf (Z.land val 1 + code "0"));
           Ok (res, strIndex - 1, Z.shiftr val 1)) (bitInv n k low d (S j)).
Proof.
  intros Hd Hk (Hl & Hb & -> & -> & E). pose proof (pow2_pos (Z.of_nat j) ltac:(lia)) as Hp.
  destruct (bitChar (d / 2 ^ Z.of_nat j)) as (c & -> & Ec & Hc); [by apply Z.div_pos|].
  replace (Z.to_nat _) with (n - S (k + j))%nat by lia. apply bind_set; [lia|]. apply returns_ok. unfold bitInv.
  rewrite length_insert. split_and!; auto.
  - by apply Forall_insert.
  - lia.
  - rewrite Z.shiftr_div_pow2, Z.div_div by lia. rewrite Nat2Z.inj_succ, Z.pow_succ_r by lia. f_equal. lia.
  - replace (n - (k + S j))%nat with (n - S (k + j))%nat by lia.
    rewrite (drop_S _ c) by (apply list_lookup_insert_eq; lia). rewrite drop_insert_lt by lia.
    replace (S (n - S (k + j))) with (n - (k + j))%nat by lia.
    rewrite strval_cons, length_drop, E, Ec, Nat2Z.inj_succ, <- Z.add_1_r, mod_pow2_S by lia.
    replace (Z.of_nat (length res - (n - (k + j)))) with (Z.of_nat k + Z.of_nat j) by lia.
    rewrite Z.pow_add_r by lia. lia.
Qed.

Lemma DeZero_canonical s : binaryDigits s -> canonicalString 2 (DeZero s) /\ strval 2 (DeZero s) = strval 2 s.
Proof.
  intros Hs. pose proof (strval_strip 2 s) as E. unfold DeZero. destruct (Nat.eqb_spec (countZeros s) (length s)) as [Hc|Hc].
  - rewrite Hc, drop_all in E. rewrite <- E. split; [|done]. split_and!; [|done|by right].
    apply Forall_singleton. by vm_compute.
  - split; [|done]. split_and!; [by apply Forall_drop| |left; apply strip_head].
    intros Hnil. apply Hc. apply (f_equal length) in Hnil. rewrite length_drop in Hnil. cbn in Hnil.
    enough (countZeros s <= length s)%nat by lia. clear. induction s as [|c s IH]; cbn; [lia|]. destruct (Ascii.eqb c "0"); lia.
Qed.

Lemma GetBinary_returns x : wf x ->
  returns (GetBinary x) (fun s => canonicalString 2 s /\ strval 2 s = eval (data x)).
Proof.
  intros Hx. unfold GetBinary. set (len := GetLength x). set (n := (32 * len)%nat).
  eapply returns_bind; [apply (for_up_returns (fun i '(res, strIndex) => length res = n /\ binaryDigits res /\
    strIndex = Z.of_nat n - 1 - Z.of_nat (32 * i) /\ strval 2 (drop (n - 32 * i) res) = evalp (data x) i))|].
  - rewrite length_replicate, evalp_0, Nat.mul_0_r, Nat.sub_0_r, drop_ge by (rewrite length_replicate; lia).
    split_and!; [done| |lia|done]. apply Forall_replicate. by vm_compute.
  - intros i [res strIndex] Hi (Hl & Hb & -> & E). digit_step; [lia|].
    pose proof (digit_range _ _ _ (wf_digits _ Hx) H) as Hr. unfold is_u32 in Hr.
    eapply returns_bind; [apply (for_up_returns (bitInv n (32 * i) (evalp (data x) i) d))|].
    + unfold bitInv. rewrite Nat.add_0_r, Z.div_1_r, Z.mod_1_r. split_and!; auto. lia.
    + intros j [[r si] v] Hj Hinv. apply bitInv_step; [lia|unfold n in *; lia|done].
    + cbv beta. rewrite Nat.add_0_l. intros [[r si] v] (Hl' & Hb' & -> & _ & E'). apply returns_ok.
      split_and!; auto; [lia|]. replace (n - 32 * S i)%nat with (n - (32 * i + 32))%nat by lia.
      rewrite E', (evalp_S _ _ d H), pw_bits. change (2 ^ Z.of_nat 32) with BASE. rewrite Z.mod_small by lia.
      by rewrite Nat2Z.inj_mul.
  - cbv beta. rewrite Nat.add_0_l. intros [res strIndex] (Hl & Hb & _ & E). apply returns_ok.
    destruct (DeZero_canonical res Hb) as [Hc ->]. split; [done|].
    replace (n - 32 * len)%nat with 0%nat in E by (unfold n; lia). rewrite drop_0, evalp_all in E by done. done.
Qed.

Lemma packBits_returns s i n : binaryDigits s -> (i + n <= length s)%nat -> (n <= 32)%nat ->
  returns (packBits s i n) (fun v => v = strval 2 (take n (drop i s)) /\ 0 <= v < 2 ^ Z.of_nat n).
Proof.
  intros Hs Hi Hn. unfold packBits.
  eapply returns_mono; [apply (for_up_returns (fun k v => v = strval 2 (take (k - i) (drop i s)) /\
    0 <= v < 2 ^ Z.of_nat (k - i)))|].
  - rewrite Nat.sub_diag, take_0. split; [done|]. by vm_compute.
  - intros k v Hk [-> Hv]. set (v := strval _ _) in *. apply bind_get; [lia|]. intros c Hc. apply returns_ok.
    pose proof (Forall_lookup_1 _ _ _ _ Hs Hc) as [Hd H0].
    assert (0 <= code c - code "0" < 2 /\ CharToInt c = code c - code "0") as [Hb Ec]
      by (destruct (binary_char c Hd H0) as [-> | ->]; by vm_compute).
    replace (S k - i)%nat with (S (k - i)) by lia. rewrite Nat2Z.inj_succ, Z.pow_succ_r by lia.
    assert (2 ^ Z.of_nat (k - i) <= 2 ^ 31) by (apply Z.pow_le_mono_r; lia).
    rewrite Z.shiftl_mul_pow2 by lia. change (2 ^ 1) with 2. pose proof BASE_eq.
    rewrite !u32_small by (unfold is_u32; lia). rewrite (lor_add _ _ 1); [|lia|by rewrite Z.mod_mul|done].
    split; [|lia]. rewrite (strval_take_S _ _ _ c) by (rewrite lookup_drop; by replace (i + (k - i))%nat with k by lia).
    rewrite Ec. done.
  - cbv beta. by replace (i + n - i)%nat with n by lia.
Qed.

(** The digits from [index + 1] on hold the first [i] bits. *)
Definition packInv (s : CString) (L : nat) (sg : bool) (st : BigInt * Z * nat) : Prop :=
  let '(b, index, i) := st in
  Forall is_u32 (data b) /\ GetLength b = L /\ Sign b = sg /\ (i <= length s)%nat /\
  -1 <= index < Z.of_nat L /\ Z.of_nat (length s) - Z.of_nat i = 32 * (index + 1) /\
  eval (drop (Z.to_nat (index + 1)) (data b)) = strval 2 (take i s).

Lemma packInv_step s L sg b index i : binaryDigits s -> (i < length s)%nat -> packInv s L sg (b, index, i) ->
  returns (let n := Nat.min 32 (length s - i) in
           val ← packBits s i n; b ← SetDigit b (Z.to_nat index) val; Ok (b, index - 1, (i + n)%nat))
    (fun st => packInv s L sg st /\ (length s - st.2 < length s - i)%nat).
Proof.
  intros Hs Hi (Db & Lb & Sb & Hle & Hidx & Hpos & E). assert (0 <= index) by lia.
  replace (Nat.min 32 (length s - i)) with 32%nat by lia. cbv zeta.
  eapply returns_bind; [apply packBits_returns; auto; lia|]. cbv beta. intros v [-> Hv].
  set (v := strval 2 (take 32 (drop i s))) in *. assert (is_u32 v) as Ru by exact Hv.
  apply bind_SetDigit; [lia|]. apply returns_ok. cbn [snd]. split; [|lia].
  unfold packInv, GetLength in *. cbn [data Sign]. rewrite length_insert. split_and!; auto with ark; try lia.
  replace (Z.to_nat (index - 1 + 1)) with (Z.to_nat index) by lia.
  rewrite (drop_S _ v) by (apply list_lookup_insert_eq; lia). rewrite drop_insert_lt by lia. cbn [eval].
  replace (S (Z.to_nat index)) with (Z.to_nat (index + 1)) by lia. rewrite E.
  rewrite <- take_take_drop, strval_app, length_take_le by (rewrite length_drop; lia). fold v.
  change (2 ^ Z.of_nat 32) with BASE. lia.
Qed.

(** The state in which the main loop of [SetBigInt] starts. *)
Lemma packStart s (sg : bool) : binaryDigits s ->
  let N := length s in
  let L := ((N + 31) / 32)%nat in
  Z.of_nat L <= MAXSIZE ->
  returns ('(bigint, index) ← (if (N mod 32 =? 0)%nat then
              bigint ← CreateBigint (Z.of_nat (N / 32)); Ok (bigint, Z.of_nat (N / 32) - 1)
            else
              bigint ← CreateBigint (Z.of_nat (S (N / 32)));
              val ← packBits s 0 (N mod 32);
              bigint ← SetDigit bigint (Z.to_nat (Z.of_nat (S (N / 32)) - 1)) val;
              Ok (bigint, Z.of_nat (S (N / 32)) - 1 - 1));
           Ok (if sg then SetSign bigint true else bigint, index, (N mod 32)%nat))
    (packInv s L sg).
Proof.
  intros Hs N L HM. pose proof (Nat.div_mod_eq N 32) as E. pose proof (Nat.mod_upper_bound N 32 ltac:(lia)) as Hm.
  assert (forall b : BigInt, Sign b = false -> Sign (if sg then SetSign b true else b) = sg) as HS by (intros []; by destruct sg).
  assert (forall b : BigInt, data (if sg then SetSign b true else b) = data b) as HD by (by destruct sg).
  destruct (Nat.eqb_spec (N mod 32) 0) as [H0|H0].
  - assert (L = (N / 32)%nat) as EL by (unfold L; rewrite H0 in E; symmetry; apply (Nat.div_unique _ _ _ 31); lia).
    rewrite bind_assoc. digit_step; [lia|]. rewrite bind_Ok. apply returns_ok. rewrite H0. unfold packInv, GetLength.
    rewrite HD, HS by done. cbn [data]. rewrite length_replicate, take_0, drop_ge by (rewrite length_replicate; lia).
    split_and!; auto with ark; lia.
  - assert (L = S (N / 32)) as EL by (unfold L; symmetry; apply (Nat.div_unique _ _ _ (N mod 32 - 1)); lia).
    rewrite bind_assoc. digit_step; [lia|]. rewrite bind_assoc.
    eapply returns_bind; [apply packBits_returns; auto; lia|]. cbv beta. rewrite drop_0. intros v [-> Hv].
    set (v := strval 2 (take (N mod 32) s)) in *. assert (is_u32 v) as Ru.
    { unfold is_u32. assert (2 ^ Z.of_nat (N mod 32) <= 2 ^ 32) by (apply Z.pow_le_mono_r; lia).
      change (2 ^ 32) with BASE in *. lia. }
    rewrite bind_assoc. apply bind_SetDigit; [unfold GetLength; cbn [data]; rewrite length_replicate; lia|].
    rewrite bind_Ok. apply returns_ok. unfold packInv, GetLength. rewrite HD, HS by done. cbn [data].
    rewrite length_insert, length_replicate. split_and!; auto with ark; try lia.
    replace (Z.to_nat (Z.of_nat (S (N / 32)) - 1 - 1 + 1)) with (N / 32)%nat by lia.
    replace (Z.to_nat (Z.of_nat (S (N / 32)) - 1)) with (N / 32)%nat by lia.
    rewrite (drop_S _ v) by (apply list_lookup_insert_eq; rewrite length_replicate; lia).
    rewrite drop_insert_lt, drop_ge by (rewrite ?length_replicate; lia). cbn [eval]. unfold v. lia.
Qed.

Lemma setBits_spec s flag : binaryDigits s -> s <> [] ->
  if MAXBITS <? Z.of_nat (length s) then setBits s flag = Err SizeExceeded
  else returns (setBits s flag) (fun z => wf z /\ toZ z = if flag then - strval 2 s else strval 2 s).
Proof.
  intros Hs Hne. pose proof (packStart s flag Hs) as Hstart. cbv zeta in Hstart. unfold setBits.
  assert (MAXBITS = 32 * MAXSIZE) as EM by reflexivity. set (N := length s) in *.
  assert (0 < N)%nat by (unfold N; destruct s; [done|cbn; lia]).
  pose proof (Nat.div_mod_eq N 32). pose proof (Nat.mod_upper_bound N 32 ltac:(lia)).
  pose proof (Nat.div_mod_eq (N + 31) 32). pose proof (Nat.mod_upper_bound (N + 31) 32 ltac:(lia)).
  set (L := ((N + 31) / 32)%nat) in *. destruct (Z.ltb_spec MAXBITS (Z.of_nat N)).
  { destruct (Nat.eqb_spec (N mod 32) 0); by rewrite CreateBigint_error by lia. }
  specialize (Hstart ltac:(lia)). destruct (if (N mod 32 =? 0)%nat then _ else _) as [[b0 i0]|]; [|done].
  rewrite bind_Ok in *.
  eapply returns_bind; [apply (while_loop_returns (packInv s L flag) (fun st => (N - st.2)%nat)); [exact Hstart|cbn; lia|]|].
  { intros [[b idx] i] Hinv Hc%Nat.ltb_lt. cbn [snd]. by apply packInv_step. }
  intros [[b idx] i] [(Db & Lb & Sb & Hle & Hidx & Hpos & E) Hc%Nat.ltb_ge].
  replace i with N in * by (unfold N in *; lia). replace (Z.to_nat (idx + 1)) with 0%nat in E by (unfold N in *; lia).
  rewrite drop_0, take_ge in E by done.
  eapply returns_mono; [apply RightTruncate_returns; auto; lia|]. cbv beta. intros z [Hz ->]. split; [done|].
  unfold toZ. by rewrite Sb, E.
Qed.

(** The number of bits of the string [SetBigInt] packs. *)
Definition binaryLength (r : Z) (digits : CString) : Z :=
  if r =? BINARY then Z.of_nat (length digits)
  else if strval r digits =? 0 then 1 else Z.log2 (strval r digits) + 1.

(** A canonical binary string has as many characters as its value has bits. *)
Lemma canonical_length s : canonicalString 2 s ->
  Z.of_nat (length s) = if strval 2 s =? 0 then 1 else Z.log2 (strval 2 s) + 1.
Proof.
  intros (Hd & Hne & [Hh|Hz]); [|by subst s].
  pose proof (headless_positive 2 ltac:(lia) s Hd Hh Hne) as Hp.
  pose proof (strval_bounds 2 s ltac:(lia) (canonicalDigits_digits _ _ Hd)) as Hb.
  assert (2 ^ (Z.of_nat (length s) - 1) <= strval 2 s) as Hlow.
  { apply strval_lower; [lia|by apply canonicalDigits_digits|done|]. intros c Hc E.
    destruct s as [|c' s]; [done|]. injection Hc as ->. apply Forall_cons in Hd as [[_ Hz] _]. auto. }
  rewrite (proj2 (Z.eqb_neq _ _)) by lia. assert (0 < length s)%nat by (destruct s; [done|cbn; lia]).
  rewrite (Z.log2_unique (strval 2 s) (Z.of_nat (length s) - 1)); [lia|lia|].
  replace (Z.succ (Z.of_nat (length s) - 1)) with (Z.of_nat (length s)) by lia. lia.
Qed.

Lemma SetBigInt_spec r (flag : bool) digits : 2 <= r <= 36 -> canonicalDigits r digits -> digits <> [] ->
  (flag = false -> forall c, digits !! 0%nat = Some c -> c <> "-"%char) ->
  let s := if flag then "-"%char :: digits else digits in
  if MAXBITS <? binaryLength r digits then SetBigInt s r = Err SizeExceeded
  else returns (SetBigInt s r) (fun z => wf z /\ toZ z = if flag then - strval r digits else strval r digits).
Proof.
  intros Hr Hd Hne Hminus s. unfold SetBigInt.
  assert ((match s with c :: _ => (c =? "-")%char | [] => false end) = flag) as ->.
  { unfold s. destruct flag; [done|]. destruct digits as [|c l]; [done|]. apply Ascii.eqb_neq. by apply Hminus. }
  assert ((if flag then drop 1 s else s) = digits) as -> by (unfold s; by destruct flag).
  unfold binaryLength. destruct (Z.eqb_spec r BINARY) as [->|Hr2]; cbn [negb]; [by apply setBits_spec|].
  pose proof (Conversion_returns BINARY r ltac:(unfold BINARY; lia) Hr digits (canonicalDigits_digits _ _ Hd) Hne) as H.
  apply returns_iff in H as (b & -> & Hb & Eb). rewrite bind_Ok, <- Eb. change BINARY with 2 in *.
  rewrite <- canonical_length by done. apply setBits_spec; apply Hb.
Qed.

Lemma ToStdString_returns x r : wf x -> 2 <= r <= 36 ->
  returns (ToStdString x r) (fun s => exists digits,
    s = (if Sign x then "-"%char :: digits else digits) /\ canonicalString r digits /\
    strval r digits = Z.abs (toZ x)).
Proof.
  intros Hx Hr. unfold ToStdString. eapply returns_bind; [by apply GetBinary_returns|]. cbv beta.
  intros b [Hb Eb]. pose proof Hb as (Hd & Hne & _).
  eapply returns_bind; [apply (Conversion_returns r BINARY Hr ltac:(unfold BINARY; lia) b); [|done]|].
  - by apply canonicalDigits_digits.
  - cbv beta. intros s [Hs Es]. apply returns_ok. exists s. split_and!; [done|exact Hs|].
    rewrite <- wf_abs by done. by rewrite Es.
Qed.

Lemma canonical_not_minus r s c : canonicalDigits r s -> s !! 0%nat = Some c -> c <> "-"%char.
Proof.
  intros Hs Hc ->. pose proof (Forall_lookup_1 _ _ _ _ Hs Hc) as [_ H]. specialize (H eq_refl). discriminate.
Qed.

Lemma binaryLength_fits x r digits : wf x -> canonicalString r digits -> strval r digits = Z.abs (toZ x) ->
  (MAXBITS <? binaryLength r digits) = false.
Proof.
  intros Hx Hc Ev. pose proof (wf_tooManyBits x Hx) as H. unfold tooManyBits in H. apply Z.leb_gt in H.
  apply Z.ltb_ge. unfold binaryLength. destruct (Z.eqb_spec r BINARY) as [->|].
  - rewrite canonical_length by done. change (strval 2 digits) with (strval BINARY digits). rewrite Ev.
    destruct (_ =? 0); [by vm_compute|lia].
  - rewrite Ev. destruct (_ =? 0); [by vm_compute|lia].
Qed.

(** ** Theorems *)

(** [ToStdString] terminates for every radix between 2 and 36 and yields the number: a
    minus sign exactly for negative numbers, then digits of the radix that denote the
    magnitude, with no leading zero except in "0". *)
Theorem ToStdString_correct x r (Hx : wf x) (Hr : 2 <= r <= 36) :
  exists digits, ToStdString x r = Ok (if Sign x then "-"%char :: digits else digits) /\
    canonicalString r digits /\ strval r digits = Z.abs (toZ x).
Proof.
  pose proof (ToStdString_returns x r Hx Hr) as H. apply returns_iff in H as (s & -> & digits & -> & H).
  by exists digits.
Qed.

Lemma ToStdString_correct_witness :
  exists digits, ToStdString (mkBigInt true [7; 5]) 10 = Ok ("-"%char :: digits) /\
    canonicalString 10 digits /\ strval 10 digits = 21474836487.
Proof. refine (ToStdString_correct (mkBigInt true [7; 5]) 10 _ _); [by apply wfb_wf|lia]. Defined.

(** [SetBigInt] parses a digit string of radix 2 to 36, with or without a leading minus
    sign, to the normalised BigInt it denotes; it throws the size error exactly when the binary
    form of the string has more than [MAXBITS] bits. *)
Theorem SetBigInt_correct r (flag : bool) digits (Hr : 2 <= r <= 36) (Hd : canonicalDigits r digits)
  (Hne : digits <> []) :
  let s := if flag then "-"%char :: digits else digits in
  if MAXBITS <? binaryLength r digits then SetBigInt s r = Err SizeExceeded
  else exists z, SetBigInt s r = Ok z /\ wf z /\ toZ z = if flag then - strval r digits else strval r digits.
Proof.
  pose proof (SetBigInt_spec r flag digits Hr Hd Hne) as H. cbv zeta in *.
  specialize (H (fun _ c Hc => canonical_not_minus r digits c Hd Hc)).
  destruct (MAXBITS <? _); [done|]. by apply returns_iff.
Qed.

Lemma SetBigInt_correct_witness :
  exists z, SetBigInt (list_ascii_of_string "-1fFfFfFf0") 16 = Ok z /\ wf z /\ toZ z = - 0x1fffffff0.
Proof.
  refine (SetBigInt_correct 16 true (list_ascii_of_string "1fFfFfFf0") _ _ _).
  - lia.
  - cbn. repeat (apply Forall_cons; split; [by vm_compute|]). by apply Forall_nil.
  - discriminate.
Defined.

(** C26: Printing a BigInt in any radix from 2 to 36 and parsing the result in the same radix
    gives back the same BigInt. *)
Theorem string_roundtrip x r (Hx : wf x) (Hr : 2 <= r <= 36) :
  exists s, ToStdString x r = Ok s /\ SetBigInt s r = Ok x.
Proof.
  pose proof (ToStdString_returns x r Hx Hr) as H. apply returns_iff in H as (s & -> & digits & Es & Hc & Ev).
  exists s. split; [done|]. pose proof Hc as (Hd & Hne & _).
  pose proof (SetBigInt_spec r (Sign x) digits Hr Hd Hne (fun _ c => canonical_not_minus r digits c Hd)) as H.
  cbv zeta in H. rewrite binaryLength_fits with (x := x), <- Es in H by done.
  apply returns_iff in H as (z & -> & Hz & Ez). f_equal. apply wf_inj; auto.
  rewrite Ez, Ev, <- wf_abs by done. unfold toZ. done.
Qed.

Lemma string_roundtrip_witness :
  exists s, ToStdString (mkBigInt true [7; 5; 1]) 7 = Ok s /\ SetBigInt s 7 = Ok (mkBigInt true [7; 5; 1]).
Proof. refine (string_roundtrip (mkBigInt true [7; 5; 1]) 7 _ _); [by apply wfb_wf|lia]. Defined.
