(* ===== verification/Double.v ===== *)
(** * IEEE-754 binary64 bit patterns

    The runtime takes doubles apart by their bits ([base::bit_cast<uint64_t>] and the masks of
    src/ecmascript/base/number_helper.h) and compares them with the operators of the language.  A
    double is its 64-bit pattern; its numeric value is the integer [scaled], in units of
    [2 ^ -1074], the least positive double. *)

From Stdlib Require Import ZArith Lia.
From S2P Require Import Prelude.

Definition DOUBLE_SIGN_MASK : Z := 2 ^ 63.
Definition DOUBLE_EXPONENT_MASK : Z := 2047 * 2 ^ 52.
Definition DOUBLE_SIGNIFICAND_MASK : Z := 2 ^ 52 - 1.
Definition DOUBLE_HIDDEN_BIT : Z := 2 ^ 52.
Definition DOUBLE_EXPONENT_BIAS : Z := 1023.
Definition DOUBLE_SIGNIFICAND_SIZE : Z := 52.

Definition signbit (d : Z) : bool := Z.testbit d 63.
Definition expo (d : Z) : Z := (d / 2 ^ 52) mod 2 ^ 11.
Definition frac (d : Z) : Z := d mod 2 ^ 52.

Definition isnan (d : Z) : bool := (expo d =? 2047) && negb (frac d =? 0).
Definition isinf (d : Z) : bool := (expo d =? 2047) && (frac d =? 0).

(** The magnitude in units of [2 ^ -1074]; infinity is above every finite double. *)
Definition magn (d : Z) : Z :=
  if expo d =? 0 then frac d else (frac d + 2 ^ 52) * 2 ^ (expo d - 1).

Definition scaled (d : Z) : option Z :=
  if isnan d then None else Some (if signbit d then - magn d else magn d).

(** [2 ^ 1074], the number of units in one. *)
Definition ONE : Z := 2 ^ 1074.

(** A double as an operand of the comparison operators: its value and its sign bit. *)
Definition numeric : Type := option Z * bool.

Definition ofDouble (d : Z) : numeric := (scaled d, signbit d).
(** The conversion of an [int] is exact. *)
Definition ofInt (z : Z) : numeric := (Some (z * ONE), z <? 0).

Definition num_isnan (x : numeric) : bool := match x.1 with None => true | Some _ => false end.
Definition num_eq (x y : numeric) : bool :=
  match x.1, y.1 with Some a, Some b => a =? b | _, _ => false end.
Definition num_lt (x y : numeric) : bool :=
  match x.1, y.1 with Some a, Some b => a <? b | _, _ => false end.

Lemma num_eq_refl x : num_eq x x = negb (num_isnan x).
Proof. destruct x as [[a|] s]; cbn; [apply Z.eqb_refl|done]. Qed.

Lemma num_eq_sym x y : num_eq x y = num_eq y x.
Proof. destruct x as [[a|] s], y as [[b|] t]; cbn; try done. apply Z.eqb_sym. Qed.

Lemma num_eq_spec x y : num_eq x y = true <-> x.1 = y.1 /\ x.1 <> None.
Proof.
  destruct x as [[a|] s], y as [[b|] t]; cbn; rewrite ?Z.eqb_eq; naive_solver.
Qed.

(** ** The fields of a pattern *)

Lemma expo_land d : Z.land (Z.shiftr d DOUBLE_SIGNIFICAND_SIZE) 0x7FF = expo d.
Proof.
  unfold expo, DOUBLE_SIGNIFICAND_SIZE. rewrite Z.shiftr_div_pow2 by lia.
  change 0x7FF with (Z.ones 11). by rewrite Z.land_ones by lia.
Qed.

Lemma mantissa_lor d : Z.lor (Z.land d DOUBLE_SIGNIFICAND_MASK) DOUBLE_HIDDEN_BIT = frac d + 2 ^ 52.
Proof.
  unfold frac, DOUBLE_SIGNIFICAND_MASK, DOUBLE_HIDDEN_BIT.
  change (2 ^ 52 - 1) with (Z.ones 52). rewrite Z.land_ones, Z.lor_comm by lia.
  rewrite (lor_add _ _ 52); [lia|lia|by vm_compute|]. apply Z.mod_pos_bound. lia.
Qed.

Lemma frac_bounds d : 0 <= frac d < 2 ^ 52.
Proof. apply Z.mod_pos_bound. lia. Qed.

Lemma expo_bounds d : 0 <= expo d < 2048.
Proof. apply (Z.mod_pos_bound _ (2 ^ 11)). lia. Qed.

Lemma magn_nonneg d : 0 <= magn d.
Proof.
  unfold magn. pose proof (frac_bounds d). pose proof (expo_bounds d).
  destruct (Z.eqb_spec (expo d) 0); [lia|]. pose proof (pow2_pos (expo d - 1) ltac:(lia)). nia.
Qed.

(** A pattern from its fields. *)
Section Fields.
  Variables (s : bool) (e f : Z).
  Hypothesis He : 0 <= e < 2048.
  Hypothesis Hf : 0 <= f < 2 ^ 52.

Definition pattern : Z := (if s then DOUBLE_SIGN_MASK else 0) + e * 2 ^ 52 + f.

Lemma pattern_frac : frac pattern = f.
Proof.
  unfold frac, pattern, DOUBLE_SIGN_MASK. symmetry.
  apply (Z.mod_unique _ _ ((if s then 2 ^ 11 else 0) + e)); [lia|]. destruct s; lia.
Qed.

Lemma pattern_div : pattern / 2 ^ 52 = (if s then 2 ^ 11 else 0) + e.
Proof.
  unfold pattern, DOUBLE_SIGN_MASK. symmetry. apply (Z.div_unique _ _ _ f); [lia|]. destruct s; lia.
Qed.

Lemma pattern_expo : expo pattern = e.
Proof.
  unfold expo. rewrite pattern_div. symmetry. apply (Z.mod_unique _ _ (if s then 1 else 0)); [lia|].
  destruct s; lia.
Qed.

Lemma pattern_sign : signbit pattern = s.
Proof.
  unfold signbit. rewrite Z.testbit_eqb by lia.
  assert (pattern / 2 ^ 63 = if s then 1 else 0) as ->.
  { unfold pattern, DOUBLE_SIGN_MASK. symmetry.
    apply (Z.div_unique _ _ _ (e * 2 ^ 52 + f)); [lia|]. destruct s; lia. }
  by destruct s.
Qed.

Lemma pattern_magn : 0 < e -> magn pattern = (f + 2 ^ 52) * 2 ^ (e - 1).
Proof. intros He'. unfold magn. rewrite pattern_expo, pattern_frac. destruct (Z.eqb_spec e 0); [lia|done]. Qed.

Lemma pattern_scaled : 0 < e < 2047 ->
  scaled pattern = Some (if s then - ((f + 2 ^ 52) * 2 ^ (e - 1)) else (f + 2 ^ 52) * 2 ^ (e - 1)).
Proof.
  intros He'. unfold scaled, isnan. rewrite pattern_expo, pattern_magn, pattern_sign by lia.
  destruct (Z.eqb_spec e 2047); [lia|done].
Qed.
End Fields.
