(* ===== verification/Values.v ===== *)
(** * Tagged values and their equalities

    The values a program sees ([JSTaggedValue]) as far as equality distinguishes them, and
    [SameValue], [SameValueZero] and [StrictEqual] of src/ecmascript/js_tagged_value-inl.h.
    Heap objects carry their address; [x == y] compares raw values, that is, addresses.

    Strings are equal here when their units are.  The code first compares the hashes stored in the
    two strings, when both have one: [StringHash.StringsAreEqual] is that comparison, and
    [StringHash.StringsAreEqual_eq] shows that it gives the equality of the units when the stored
    hashes are right.  A string made from UTF-16 data or by concatenation can have a wrong one
    ([StringHash.ComputeHashcode_correct], [StringHash.CalculateConcatHashCode_correct]); the
    searches by value in the containers are about strings that do not. *)

From Stdlib Require Import ZArith Lia.
From S2P Require Import Prelude BigIntBase Double.

(** ** Model *)

Inductive JSTaggedValue :=
| Hole
| Undefined
| Null
| Boolean (b : bool)
| Int (z : Z)
| Double (bits : Z)
| EcmaString (address : Z) (units : list Z)
| BigIntObject (address : Z) (x : BigInt)
| Object (address : Z).

#[export] Instance BigInt_eq_dec : EqDecision BigInt.
Proof. solve_decision. Defined.

#[export] Instance JSTaggedValue_eq_dec : EqDecision JSTaggedValue.
Proof. solve_decision. Defined.

(** [operator==] on the raw 64 bits: a heap object is its address. *)
Definition rawEq (x y : JSTaggedValue) : bool :=
  match x, y with
  | EcmaString a _, EcmaString b _ | BigIntObject a _, BigIntObject b _ => a =? b
  | _, _ => bool_decide (x = y)
  end.

Definition IsInt (x : JSTaggedValue) : bool := match x with Int _ => true | _ => false end.
Definition IsHole (x : JSTaggedValue) : bool := match x with Hole => true | _ => false end.
Definition IsNumber (x : JSTaggedValue) : bool := match x with Int _ | Double _ => true | _ => false end.

Definition ExtractNumber (x : JSTaggedValue) : numeric :=
  match x with Int z => ofInt z | Double d => ofDouble d | _ => (None, false) end.

Definition SameValueNumberic (x y : JSTaggedValue) : bool :=
  let xValue := ExtractNumber x in
  let yValue := ExtractNumber y in
  if negb (num_eq xValue yValue) then num_isnan xValue && num_isnan yValue
  else Bool.eqb xValue.2 yValue.2.

(** [BigInt::Equal] reads both objects in bounds; [Equal] never fails on their digits. *)
Definition bigintEqual (x y : BigInt) : bool :=
  match Equal x y with Ok b => b | Err _ => false end.

Definition SameValue (x y : JSTaggedValue) : bool :=
  if rawEq x y then true else
  if IsInt x && IsInt y then false else
  if IsNumber x && IsNumber y then SameValueNumberic x y else
  match x, y with
  | EcmaString _ s, EcmaString _ t => bool_decide (s = t)
  | BigIntObject _ a, BigIntObject _ b => bigintEqual a b
  | _, _ => false
  end.

Definition SameValueZero (x y : JSTaggedValue) : bool :=
  if rawEq x y then true else
  if IsNumber x && IsNumber y then
    let xValue := ExtractNumber x in
    let yValue := ExtractNumber y in
    num_eq xValue yValue || (num_isnan xValue && num_isnan yValue) else
  match x, y with
  | EcmaString _ s, EcmaString _ t => bool_decide (s = t)
  | BigIntObject _ a, BigIntObject _ b => bigintEqual a b
  | _, _ => false
  end.

Definition StrictNumberEquals (x y : numeric) : bool :=
  if num_isnan x || num_isnan y then false else num_eq x y.

Definition StrictEqual (x y : JSTaggedValue) : bool :=
  match x, y with
  | Int a, Int b => a =? b
  | _, _ =>
    if IsNumber x && IsNumber y then StrictNumberEquals (ExtractNumber x) (ExtractNumber y) else
    if rawEq x y then true else
    match x, y with
    | EcmaString _ s, EcmaString _ t => bool_decide (s = t)
    | BigIntObject _ a, BigIntObject _ b => bigintEqual a b
    | _, _ => false
    end
  end.

(** ** What the equalities mean *)

(** The abstract value: numbers by value and sign, every NaN alike, strings and BigInts by
    content, everything else by identity. *)
Inductive Meaning :=
| MNaN
| MNumber (units : Z) (negative : bool)
| MString (units : list Z)
| MBigInt (z : Z)
| MOther (x : JSTaggedValue).

#[export] Instance Meaning_eq_dec : EqDecision Meaning.
Proof. solve_decision. Defined.

Definition numberMeaning (n : numeric) : Meaning :=
  match n.1 with Some u => MNumber u n.2 | None => MNaN end.

Definition meaning (x : JSTaggedValue) : Meaning :=
  match x with
  | Int z => numberMeaning (ofInt z)
  | Double d => numberMeaning (ofDouble d)
  | EcmaString _ s => MString s
  | BigIntObject _ b => MBigInt (toZ b)
  | _ => MOther x
  end.

(** [SameValueZero] and [StrictEqual] do not tell the two zeros apart. *)
Definition forgetSign (m : Meaning) : Meaning := match m with MNumber u _ => MNumber u false | _ => m end.

(** An address holds one object, and BigInts are normalised. *)
Definition validValue (x : JSTaggedValue) : Prop := match x with BigIntObject _ b => wf b | _ => True end.

Definition coherent (x y : JSTaggedValue) : Prop :=
  match x, y with
  | EcmaString a s, EcmaString b t => a = b -> s = t
  | BigIntObject a s, BigIntObject b t => a = b -> s = t
  | _, _ => True
  end.

Lemma bigintEqual_eq x y : wf x -> wf y -> bigintEqual x y = bool_decide (toZ x = toZ y).
Proof. intros Hx Hy. unfold bigintEqual. by rewrite Equal_eq. Qed.

Lemma ONE_pos : 0 < ONE.
Proof. reflexivity. Qed.

Lemma ofInt_inj a b : numberMeaning (ofInt a) = numberMeaning (ofInt b) <-> a = b.
Proof.
  unfold numberMeaning, ofInt. cbn. split; [|by intros ->]. pose proof ONE_pos. intros [= E _]. nia.
Qed.

(** The comparison of two numbers. *)
Lemma sameNumber_eq n m : 
  (if negb (num_eq n m) then num_isnan n && num_isnan m else Bool.eqb n.2 m.2)
    = bool_decide (numberMeaning n = numberMeaning m).
Proof.
  destruct n as [[a|] s], m as [[b|] t]; unfold num_eq, num_isnan, numberMeaning; cbn.
  - destruct (Z.eqb_spec a b) as [->|Hne]; cbn.
    + destruct s, t; cbn; symmetry; (by apply bool_decide_eq_true) || (apply bool_decide_eq_false; congruence).
    + symmetry. apply bool_decide_eq_false. congruence.
  - symmetry. by apply bool_decide_eq_false.
  - symmetry. by apply bool_decide_eq_false.
  - symmetry. by apply bool_decide_eq_true.
Qed.

Lemma sameNumberZero_eq n m : num_eq n m || (num_isnan n && num_isnan m)
    = bool_decide (forgetSign (numberMeaning n) = forgetSign (numberMeaning m)).
Proof.
  destruct n as [[a|] s], m as [[b|] t]; unfold num_eq, num_isnan, numberMeaning; cbn.
  - rewrite orb_false_r. apply Bool.eq_iff_eq_true. rewrite Z.eqb_eq, bool_decide_eq_true. naive_solver.
  - symmetry. by apply bool_decide_eq_false.
  - symmetry. by apply bool_decide_eq_false.
  - symmetry. by apply bool_decide_eq_true.
Qed.

(** Values of different kinds, and values compared by identity. *)
Ltac value_cases :=
  repeat case_bool_decide; unfold numberMeaning, ofDouble in *; cbn in *;
  try done; try congruence;
  repeat match goal with H : context [scaled ?b] |- _ => destruct (scaled b); cbn in * end; congruence.

Lemma SameValue_eq x y : validValue x -> validValue y -> coherent x y ->
  SameValue x y = bool_decide (meaning x = meaning y).
Proof.
  intros Vx Vy Hc. unfold SameValue.
  destruct x, y; cbn [rawEq IsInt IsNumber andb meaning validValue coherent] in *; try solve [value_cases].
  - case_bool_decide as E; symmetry; [apply bool_decide_eq_true|apply bool_decide_eq_false];
      rewrite ofInt_inj; congruence.
  - rewrite bool_decide_false by done. apply sameNumber_eq.
  - rewrite bool_decide_false by done. apply sameNumber_eq.
  - case_bool_decide as E; [symmetry; apply bool_decide_eq_true; congruence|apply sameNumber_eq].
  - destruct (Z.eqb_spec address address0) as [E|E]; [rewrite (Hc E)|]; repeat case_bool_decide; congruence.
  - rewrite bigintEqual_eq by done.
    destruct (Z.eqb_spec address address0) as [E|E]; [rewrite (Hc E)|]; repeat case_bool_decide; congruence.
Qed.

Lemma SameValueZero_eq x y : validValue x -> validValue y -> coherent x y ->
  SameValueZero x y = bool_decide (forgetSign (meaning x) = forgetSign (meaning y)).
Proof.
  intros Vx Vy Hc. unfold SameValueZero. cbv zeta.
  destruct x, y; cbn [rawEq IsNumber andb meaning validValue coherent ExtractNumber] in *; try solve [value_cases].
  - rewrite sameNumberZero_eq. case_bool_decide as E; [|done]. symmetry. apply bool_decide_eq_true. congruence.
  - rewrite sameNumberZero_eq, bool_decide_false by done. done.
  - rewrite sameNumberZero_eq, bool_decide_false by done. done.
  - rewrite sameNumberZero_eq. case_bool_decide as E; [|done]. symmetry. apply bool_decide_eq_true. congruence.
  - destruct (Z.eqb_spec address address0) as [E|E]; [rewrite (Hc E)|]; repeat case_bool_decide; cbn in *; congruence.
  - rewrite bigintEqual_eq by done.
    destruct (Z.eqb_spec address address0) as [E|E]; [rewrite (Hc E)|]; repeat case_bool_decide; cbn in *; congruence.
Qed.

(** ** Theorems *)

(** [SameValue] holds exactly for values with the same meaning: equal numbers with the same
    sign of zero, any two NaNs, strings and BigInts with equal content, or the same object. *)
Theorem SameValue_correct x y (Vx : validValue x) (Vy : validValue y) (Hc : coherent x y) :
  SameValue x y = bool_decide (meaning x = meaning y).
Proof. by apply SameValue_eq. Qed.

Lemma SameValue_correct_witness :
  SameValue (Int 2) (Double 0x4000000000000000) = true.
Proof.
  refine (eq_trans (SameValue_correct (Int 2) (Double 0x4000000000000000) I I I) _). by vm_compute.
Defined.

(** [SameValueZero] holds exactly for values with the same meaning when the sign of a
    number is ignored, so that the two zeros are the same. *)
Theorem SameValueZero_correct x y (Vx : validValue x) (Vy : validValue y) (Hc : coherent x y) :
  SameValueZero x y = bool_decide (forgetSign (meaning x) = forgetSign (meaning y)).
Proof. by apply SameValueZero_eq. Qed.

Lemma SameValueZero_correct_witness :
  SameValueZero (Int 0) (Double 0x8000000000000000) = true.
Proof.
  refine (eq_trans (SameValueZero_correct (Int 0) (Double 0x8000000000000000) I I I) _). by vm_compute.
Defined.
