(* ===== verification/Containers.v ===== *)
(** * What the containers share

    The methods of the containers (src/ecmascript/containers/*.cpp) first find the container they
    are called on; element access by index first makes the key a small integer
    ([TryCastDoubleToInt32] of src/ecmascript/js_tagged_value-inl.h).  This file has those steps,
    the errors, and the simulation argument by which a container implements its abstract list
    along a sequence of calls. *)

From Stdlib Require Import ZArith Lia.
From S2P Require Import Prelude Double Values.

(** ** Receivers *)

(** The [this] of a method: the container, a proxy whose target is one, or anything else. *)
Inductive Receiver (C : Type) :=
| This (c : C)
| ProxyOf (c : C)
| OtherValue.
Arguments This {C} _.
Arguments ProxyOf {C} _.
Arguments OtherValue {C}.

(** The container a method works on, or the bind error. *)
Definition receive {C} (method : string) (self : Receiver C) : result C :=
  match self with
  | This c | ProxyOf c => Ok c
  | OtherValue => Err (BindError method)
  end.

(** ** Index keys *)

(** [static_cast<int32_t>(d) != d]; the cast of a double out of range never gives it back. *)
Definition TryCastDoubleToInt32 (d : Z) : JSTaggedValue :=
  match scaled d with
  | Some u => if (u mod ONE =? 0) && (- 2 ^ 31 <=? u / ONE) && (u / ONE <? 2 ^ 31)
              then Int (u / ONE) else Double d
  | None => Double d
  end.

Definition indexKeyOf (key : JSTaggedValue) : JSTaggedValue :=
  match key with Double d => TryCastDoubleToInt32 d | _ => key end.

Definition ContainerEmpty : error := RangeError "Container is empty".
Definition IndexType : error := TypeError "The type of index must be small integer.".
Definition IndexRange : error := RangeError "The value of index is out of range.".

(** A container's constructor called without [new]. *)
Definition DirectCall (container : string) : error := IsNullError (container +:+ "'s constructor cannot be directly invoked").

Definition NotCallable : error := TypeError "The type of callbackfn must be callable.".

(** ** Arrays *)

(** An ordinary array object, as far as the containers fill one. *)
Record JSArray := mkJSArray { ArrayElements : list JSTaggedValue; ArrayLength : Z }.

(** ** Callbacks *)

(** A callback is any program: it sees the element and its key, may change the container and
    the rest of the world [W], and returns a value or throws. *)
Definition Callback (W C : Type) : Type := W -> C -> JSTaggedValue -> Z -> result (JSTaggedValue * W * C).

(** A callback that leaves the container alone and does not throw. *)
Definition pureCallback {W C} (cb : Callback W C) (f : W -> JSTaggedValue -> Z -> JSTaggedValue * W) : Prop :=
  forall w c v k, cb w c v k = Ok (f w v k, c).

(** The calls of a pure callback on the elements of [l], from key [k] on: the values returned
    and the world after the last call. *)
Fixpoint mapCalls {W} (f : W -> JSTaggedValue -> Z -> JSTaggedValue * W) (w : W) (k : Z) (l : list JSTaggedValue)
  : list JSTaggedValue * W :=
  match l with
  | [] => ([], w)
  | v :: l => let '(r, w) := f w v k in let '(rs, w) := mapCalls f w (k + 1) l in (r :: rs, w)
  end.

Lemma mapCalls_length {W} (f : W -> JSTaggedValue -> Z -> JSTaggedValue * W) w k l :
  length (mapCalls f w k l).1 = length l.
Proof.
  revert w k. induction l as [|v l IH]; intros w k; cbn; [done|].
  destruct (f w v k) as [r w']. specialize (IH w' (k + 1)). destruct (mapCalls f w' (k + 1) l). cbn in *. by rewrite IH.
Qed.

Lemma mapCalls_snoc {W} (f : W -> JSTaggedValue -> Z -> JSTaggedValue * W) w k l v :
  mapCalls f w k (l ++ [v]) =
    let '(rs, w1) := mapCalls f w k l in let '(r, w2) := f w1 v (k + Z.of_nat (length l)) in (rs ++ [r], w2).
Proof.
  revert w k. induction l as [|x l IH]; intros w k; cbn.
  - rewrite Z.add_0_r. by destruct (f w v k).
  - destruct (f w x k) as [r1 w1]. rewrite IH. destruct (mapCalls f w1 (k + 1) l) as [rs w2].
    replace (k + 1 + Z.of_nat (length l)) with (k + Z.of_nat (S (length l))) by lia.
    by destruct (f w2 v (k + Z.of_nat (S (length l)))).
Qed.

(** A [forEach] loop with a pure callback calls it once per element, in order. *)
Lemma forEach_pure {W C} (cb : Callback W C) f (rd : C -> nat -> result JSTaggedValue) c l k0 w :
  pureCallback cb f -> (forall k v, l !! k = Some v -> rd c (k0 + k)%nat = Ok v) ->
  for_up (length l) k0 (fun k '(w, c) =>
    kValue ← rd c k; '(_, w, c) ← cb w c kValue (Z.of_nat k); Ok (w, c)) (w, c)
  = Ok ((mapCalls f w (Z.of_nat k0) l).2, c).
Proof.
  intros Hcb. revert k0 w. induction l as [|v l IH]; intros k0 w Hrd; cbn [length for_up mapCalls]; [done|].
  pose proof (Hrd 0%nat v eq_refl) as H0. rewrite Nat.add_0_r in H0. rewrite H0, bind_Ok, Hcb, bind_Ok.
  destruct (f w v (Z.of_nat k0)) as [r w'] eqn:Ef. cbn [fst snd]. rewrite bind_Ok.
  rewrite IH; [|intros k x Hx; rewrite <- (Hrd (S k) x Hx); f_equal; lia].
  replace (Z.of_nat (S k0)) with (Z.of_nat k0 + 1) by lia. by destruct (mapCalls f w' (Z.of_nat k0 + 1) l).
Qed.

(** ** Iterators *)

Inductive IterationKind := KEY | VALUE | KEY_AND_VALUE.

(** What an iterator yields: a value, or an array of a key and a value. *)
Inductive Item := ItemValue (v : JSTaggedValue) | ItemPair (k v : JSTaggedValue).

(** ** Runs *)

Inductive Observation :=
| Nothing
| Value (v : JSTaggedValue)
| Truth (b : bool)
| Count (n : Z)
| Elements_ (l : list JSTaggedValue)
| Yields (item : option Item)
| Throws (e : error).

(** A call that throws is observed and leaves the container as it is. *)
Definition observe {C A} (c : C) (obs : A -> Observation) (m : result (A * C)) : Observation * C :=
  match m with Ok (a, c') => (obs a, c') | Err e => (Throws e, c) end.

(** A method that returns nothing of interest. *)
Definition observeUpdate {C} (c : C) (m : result C) : Observation * C :=
  match m with Ok c' => (Nothing, c') | Err e => (Throws e, c) end.

Definition observeRead {C A} (c : C) (obs : A -> Observation) (m : result A) : Observation * C :=
  (match m with Ok a => obs a | Err e => Throws e end, c).

Section Run.
  Context {C L Op : Type}.
  Variable step : C -> Op -> Observation * C.
  Variable spec : L -> Op -> Observation * L.

Fixpoint run (c : C) (ops : list Op) : list Observation * C :=
  match ops with
  | [] => ([], c)
  | op :: ops => let '(o, c) := step c op in let '(os, c) := run c ops in (o :: os, c)
  end.

Fixpoint runSpec (l : L) (ops : list Op) : list Observation * L :=
  match ops with
  | [] => ([], l)
  | op :: ops => let '(o, l) := spec l op in let '(os, l) := runSpec l ops in (o :: os, l)
  end.

(** [ok op]: the arguments of [op] are such that the container does not outgrow the limits;
    [R k c l]: after [k] calls the container [c] represents [l]. *)
Variable ok : Op -> Prop.
Variable R : nat -> C -> L -> Prop.
Variable bound : nat.
Hypothesis Hstep : forall k c l op, R k c l -> (k < bound)%nat -> ok op ->
  (step c op).1 = (spec l op).1 /\ R (S k) (step c op).2 (spec l op).2.

Lemma run_simulates ops k c l : R k c l -> (k + length ops <= bound)%nat -> Forall ok ops ->
  (run c ops).1 = (runSpec l ops).1 /\ R (k + length ops) (run c ops).2 (runSpec l ops).2.
Proof.
  revert k c l. induction ops as [|op ops IH]; intros k c l HR Hb Hok; cbn [run runSpec length] in *.
  - by rewrite Nat.add_0_r.
  - apply Forall_cons in Hok as [Hop Hok]. destruct (Hstep k c l op HR ltac:(lia) Hop) as [Eo HR'].
    destruct (step c op) as [o c'], (spec l op) as [o' l']. cbn [fst snd] in *. subst o'.
    destruct (IH (S k) c' l' HR' ltac:(lia) Hok) as [Eos HR''].
    destruct (run c' ops), (runSpec l' ops). cbn [fst snd] in *. subst. split; [done|].
    by replace (k + S (length ops))%nat with (S k + length ops)%nat by lia.
Qed.
End Run.

(** What a call that returns is observed as. *)
Lemma observe_returns {C A} (c : C) (obs : A -> Observation) m (P : A * C -> Prop) :
  returns m P -> exists a c', observe c obs m = (obs a, c') /\ P (a, c').
Proof. intros H. apply returns_iff in H as ([a c'] & -> & H). by exists a, c'. Qed.
