(* ===== verification/BigIntNum.v ===== *)
(** * BigInt and Number

    The conversions between BigInts and doubles and the mixed comparison of
    src/ecmascript/js_bigint.cpp: [NumberToBigInt], [DoubleToBigInt], [BigIntToNumber] with
    [CalculateNumber] and [Rounding], [CompareToBitsLen] and [CompareWithNumber].  Doubles are
    their bit patterns (file Double). *)

From Stdlib Require Import ZArith Lia.
From S2P Require Import Prelude BigIntBase BigIntDiv Double Values.

(** ** Model *)

(** The conversion of a 32 bit integer to [double], which is exact. *)
Definition doubleOfInt (z : Z) : Z :=
  if z =? 0 then 0 else
  let k := Z.log2 (Z.abs z) in
  (if z <? 0 then DOUBLE_SIGN_MASK else 0) + (k + DOUBLE_EXPONENT_BIAS) * 2 ^ 52
  + (Z.abs z * 2 ^ (52 - k) - 2 ^ 52).

Definition GetNumber (v : JSTaggedValue) : Z :=
  match v with Int z => doubleOfInt z | Double d => d | _ => 0 end.

(** The operators [d < 0], [d == 0.0], [d > 0] and [std::isfinite]. *)
Definition lessThanZero (d : Z) : bool := num_lt (ofDouble d) (ofInt 0).
Definition isZeroDouble (d : Z) : bool := num_eq (ofDouble d) (ofInt 0).
Definition greaterThanZero (d : Z) : bool := num_lt (ofInt 0) (ofDouble d).
Definition isfinite (d : Z) : bool := negb (expo d =? 2047).

(** [std::floor(std::abs(d)) == std::abs(d)]: the magnitude is a multiple of one. *)
Definition IsInteger (v : JSTaggedValue) : bool :=
  match v with
  | Int _ => true
  | Double d => isfinite d && (magn d mod ONE =? 0)
  | _ => false
  end.

Definition NotInteger : error :=
  RangeError "The number cannot be converted to a BigInt because it is not an integer".

(** One round of the digit loop of [DoubleToBigInt]: the state is [isFirstInto], [leftover],
    [mantissa] and the object. *)
Definition doubleRound (integerDigits : Z) (index : nat) (s : bool * Z * Z * BigInt)
  : result (bool * Z * Z * BigInt) :=
  let '(isFirstInto, leftover, mantissa, bigint) := s in
  if isFirstInto : bool then
    let leftover := DOUBLE_SIGNIFICAND_SIZE - integerDigits mod DATA_BITS in
    let doubleNum := u32 (Z.shiftr mantissa leftover) in
    let mantissa := u64 (Z.shiftl mantissa (64 - leftover)) in
    b ← SetDigit bigint index doubleNum; Ok (false, leftover, mantissa, b)
  else
    let leftover := leftover - DATA_BITS in
    let doubleNum := u32 (Z.shiftr mantissa DATA_BITS) in
    let mantissa := u64 (Z.shiftl mantissa DATA_BITS) in
    b ← SetDigit bigint index doubleNum; Ok (false, leftover, mantissa, b).

Definition DoubleToBigInt (num : Z) : result BigInt :=
  let integerDigits := u64 (Z.land (Z.shiftr num DOUBLE_SIGNIFICAND_SIZE) 0x7FF - DOUBLE_EXPONENT_BIAS) in
  let mayNeedLen := u32 (integerDigits / DATA_BITS + 1) in
  bigint ← CreateBigint mayNeedLen;
  let bigint := SetSign bigint (lessThanZero num) in
  let mantissa := Z.lor (Z.land num DOUBLE_SIGNIFICAND_MASK) DOUBLE_HIDDEN_BIT in
  '(_, _, _, bigint) ← for_down (Z.to_nat mayNeedLen) (doubleRound integerDigits) (true, 0, mantissa, bigint);
  RightTruncate bigint.

Definition NumberToBigInt (number : JSTaggedValue) : result BigInt :=
  if negb (IsInteger number) then Err NotInteger else
  let num := GetNumber number in
  if isZeroDouble num then Int32ToBigInt 0 else DoubleToBigInt num.

Definition CalculateNumber (sign mantissa exponent : Z) : Z :=
  let exponent := u64 (Z.shiftl (u64 (exponent + DOUBLE_EXPONENT_BIAS)) DOUBLE_SIGNIFICAND_SIZE) in
  Z.lor (Z.lor sign exponent) mantissa.

Definition POSITIVE_INFINITY : Z := DOUBLE_EXPONENT_MASK.
Definition signedInfinity (negative : bool) : Z :=
  if negative then DOUBLE_SIGN_MASK + POSITIVE_INFINITY else POSITIVE_INFINITY.

Definition Rounding (sign mantissa exponent : Z) (needRound : bool) : Z :=
  if needRound || (Z.land mantissa 1 =? 1) then
    let mantissa := u64 (mantissa + 1) in
    if negb (Z.shiftr mantissa DOUBLE_SIGNIFICAND_SIZE =? 0) then
      let exponent := u64 (exponent + 1) in
      if DOUBLE_EXPONENT_BIAS <? exponent then signedInfinity (negb (sign =? 0))
      else CalculateNumber sign 0 exponent
    else CalculateNumber sign mantissa exponent
  else CalculateNumber sign mantissa exponent.

(** [while (index > 0) if (GetDigit(--index) != 0) return true;] *)
Fixpoint anyDigitBelow (bigint : BigInt) (index : nat) : result bool :=
  match index with
  | O => Ok false
  | S i => d ← GetDigit bigint i; if negb (d =? 0) then Ok true else anyDigitBelow bigint i
  end.

(** The rounding decision on [digit], whose low [remainDigitBits] bits did not fit. *)
Definition roundDigit (bigint : BigInt) (sign mantissa exponent digit remainDigitBits index : Z) : result Z :=
  let temp := u32 (Z.shiftl 1 (remainDigitBits - 1)) in
  if Z.land digit temp =? 0 then Ok (CalculateNumber sign mantissa exponent) else
  if negb (Z.land digit (temp - 1) =? 0) then Ok (Rounding sign mantissa exponent true) else
  more ← anyDigitBelow bigint (Z.to_nat index);
  Ok (Rounding sign mantissa exponent more).

Definition BigIntToNumber (bigint : BigInt) : result JSTaggedValue :=
  isZero ← IsZero bigint;
  if isZero : bool then Ok (Int 0) else
  let bigintLen := GetLength bigint in
  BigintHead ← GetDigit bigint (bigintLen - 1);
  let leadingZeros := CountLeadingZeros BigintHead in
  let bigintBitLen := Z.of_nat bigintLen * DATA_BITS - leadingZeros in
  let bigintSign := GetSign bigint in
  if DOUBLE_EXPONENT_BIAS + 1 <? bigintBitLen then Ok (Double (signedInfinity bigintSign)) else
  let sign := if bigintSign then DOUBLE_SIGN_MASK else 0 in
  let needMoveBit := leadingZeros + DATA_BITS + 1 in
  let mantissa := if needMoveBit =? 64 then 0 else Z.shiftr (u64 (Z.shiftl BigintHead needMoveBit)) 12 in
  let remainMantissaBits := needMoveBit - 12 in
  let exponent := bigintBitLen - 1 in
  let index := Z.of_nat bigintLen - 1 in
  if index <=? 0 then Ok (Double (CalculateNumber sign mantissa exponent)) else
  let index := index - 1 in
  digit ← GetDigit bigint (Z.to_nat index);
  let '(mantissa, remainMantissaBits, index) :=
    if DATA_BITS <=? remainMantissaBits
    then (Z.lor mantissa (u64 (Z.shiftl digit (remainMantissaBits - DATA_BITS))),
          remainMantissaBits - DATA_BITS, index - 1)
    else (mantissa, remainMantissaBits, index) in
  '(mantissa, remainMantissaBits, digit) ←
    (if (0 <? remainMantissaBits) && (0 <=? index)
     then digit ← GetDigit bigint (Z.to_nat index);
          Ok (Z.lor mantissa (Z.shiftr digit (DATA_BITS - remainMantissaBits)),
              remainMantissaBits - DATA_BITS, digit)
     else Ok (mantissa, remainMantissaBits, digit));
  if 0 <? remainMantissaBits then Ok (Double (CalculateNumber sign mantissa exponent)) else
  if remainMantissaBits <? 0
  then d ← roundDigit bigint sign mantissa exponent digit (- remainMantissaBits) index; Ok (Double d)
  else if index <=? 0 then Ok (Double (CalculateNumber sign mantissa exponent))
  else
    digit ← GetDigit bigint (Z.to_nat index);
    d ← roundDigit bigint sign mantissa exponent digit DATA_BITS (index - 1); Ok (Double d).

(** Returns the answer and the leading zeros of the head digit. *)
Definition CompareToBitsLen (bigint : BigInt) (numBitLen : Z) : result (Z * Z) :=
  let bigintLen := GetLength bigint in
  BigintHead ← GetDigit bigint (bigintLen - 1);
  let leadingZeros := CountLeadingZeros BigintHead in
  let bigintBitLen := Z.of_nat bigintLen * DATA_BITS - leadingZeros in
  let bigintSign := GetSign bigint in
  Ok (if numBitLen <? bigintBitLen then (if bigintSign then 0 else 1)
      else if bigintBitLen <? numBitLen then (if bigintSign then 1 else 0)
      else -1, leadingZeros).

Definition signedLess (negative : bool) : ComparisonResult := if negative then GREAT else LESS.
Definition signedGreat (negative : bool) : ComparisonResult := if negative then LESS else GREAT.

(** The digit loop of [CompareWithNumber] from [index + 1] down, and what follows it. *)
Fixpoint compareMantissa (bigint : BigInt) (leadingZeros : Z) (n : nat) (IsFirstInto : bool) (mantissa : Z)
  : result ComparisonResult :=
  match n with
  | O => Ok (if negb (mantissa =? 0) then signedLess (GetSign bigint) else EQUAL)
  | S index =>
    BigintNum ← GetDigit bigint index;
    let leftover := if IsFirstInto then DOUBLE_SIGNIFICAND_SIZE - DATA_BITS + leadingZeros + 1 else DATA_BITS in
    let doubleNum := u32 (Z.shiftr mantissa leftover) in
    let mantissa := u64 (Z.shiftl mantissa (64 - leftover)) in
    if doubleNum <? BigintNum then Ok (signedGreat (GetSign bigint)) else
    if BigintNum <? doubleNum then Ok (signedLess (GetSign bigint)) else
    compareMantissa bigint leadingZeros index false mantissa
  end.

Definition CompareWithNumber (bigint : BigInt) (number : JSTaggedValue) : result ComparisonResult :=
  let num := GetNumber number in
  let numberSign := lessThanZero num in
  if isnan num then Ok UNDEFINED else
  if negb (isfinite num) then Ok (if negb numberSign then LESS else GREAT) else
  let exponential := Z.land (Z.shiftr num DOUBLE_SIGNIFICAND_SIZE) 0x7FF in
  let integerDigits := exponential - DOUBLE_EXPONENT_BIAS in
  let mantissa := Z.lor (Z.land num DOUBLE_SIGNIFICAND_MASK) DOUBLE_HIDDEN_BIT in
  let bigintSign := GetSign bigint in
  if negb numberSign && bigintSign then Ok LESS else
  if numberSign && negb bigintSign then Ok GREAT else
  isZero ← IsZero bigint;
  if isZero && isZeroDouble num then Ok EQUAL else
  if isZero && greaterThanZero num then Ok LESS else
  if integerDigits <? 0 then Ok (signedGreat bigintSign) else
  '(res, leadingZeros) ← CompareToBitsLen bigint (integerDigits + 1);
  if res =? 0 then Ok LESS else
  if res =? 1 then Ok GREAT else
  compareMantissa bigint leadingZeros (GetLength bigint) true mantissa.

(** ** The digit stream of a mantissa

    Both loops take the integer part of [m * 2 ^ e / 2 ^ 52] digit by digit: [M], the mantissa
    shifted so that its first digit is above bit 64, is the digit and the 64 bits that remain. *)

Lemma stream_first m r : 0 <= m < 2 ^ 53 -> 0 <= r < 32 ->
  let digit := u32 (Z.shiftr m (52 - r)) in
  let rest := u64 (Z.shiftl m (64 - (52 - r))) in
  is_u32 digit /\ 0 <= rest < 2 ^ 64 /\ digit * 2 ^ 64 + rest = m * 2 ^ (12 + r).
Proof.
  intros Hm Hr digit rest. unfold digit, rest. rewrite Z.shiftr_div_pow2, Z.shiftl_mul_pow2 by lia.
  assert (2 ^ 64 = 2 ^ (52 - r) * 2 ^ (12 + r)) as E by (rewrite <- Z.pow_add_r by lia; f_equal; lia).
  pose proof (pow2_pos (52 - r) ltac:(lia)) as Hp. pose proof (pow2_pos (12 + r) ltac:(lia)) as Hq.
  replace (64 - (52 - r)) with (12 + r) by lia.
  assert (is_u32 (m / 2 ^ (52 - r))) as Hd.
  { split; [apply Z.div_pos; lia|]. apply Z.div_lt_upper_bound; [lia|].
    assert (2 ^ 53 <= 2 ^ (52 - r) * BASE); [|lia]. unfold BASE. rewrite <- Z.pow_add_r by lia.
    apply Z.pow_le_mono_r; lia. }
  rewrite u32_small by done. split_and!; [done|apply u64_range..|].
  unfold u64. rewrite E, Z.mul_mod_distr_r by lia. pose proof (Z.div_mod m (2 ^ (52 - r)) ltac:(lia)). nia.
Qed.

Lemma stream_next rest : 0 <= rest < 2 ^ 64 ->
  let digit := u32 (Z.shiftr rest DATA_BITS) in
  let rest' := u64 (Z.shiftl rest DATA_BITS) in
  is_u32 digit /\ 0 <= rest' < 2 ^ 64 /\ digit * 2 ^ 64 + rest' = rest * BASE.
Proof.
  intros Hr digit rest'. unfold digit, rest', DATA_BITS. rewrite Z.shiftr_div_pow2, Z.shiftl_mul_pow2 by lia.
  fold BASE. assert (2 ^ 64 = BASE * BASE) as E by reflexivity. pose proof BASE_pos.
  assert (is_u32 (rest / BASE)) as Hd.
  { split; [apply Z.div_pos; lia|]. apply Z.div_lt_upper_bound; lia. }
  rewrite u32_small by done. split_and!; [done|apply u64_range..|].
  unfold u64. rewrite E, Z.mul_mod_distr_r by lia. pose proof (Z.div_mod rest BASE ltac:(lia)). nia.
Qed.

(** ** Number to BigInt *)

Lemma eval_drop_S l i d : l !! i = Some d -> eval (drop i l) = d + BASE * eval (drop (S i) l).
Proof. intros Hd. by rewrite (drop_S _ _ _ Hd). Qed.

Lemma drop_insert_head (l : list Z) i d : (i < length l)%nat -> drop i (<[i:=d]> l) = d :: drop (S i) l.
Proof.
  intros Hi. rewrite (drop_S _ d) by (by apply list_lookup_insert_eq). f_equal. apply drop_insert_lt. lia.
Qed.

(** The state of the loop of [DoubleToBigInt] when the digits from [i] on are written. *)
Definition streamInv (s0 : bool) (m e : Z) (i : nat) (s : bool * Z * Z * BigInt) : Prop :=
  let '(first, _, rest, b) := s in
  Sign b = s0 /\ Forall is_u32 (data b) /\ GetLength b = S (Z.to_nat (e / 32)) /\
  if decide (i = S (Z.to_nat (e / 32))) then first = true /\ rest = m
  else first = false /\ 0 <= rest < 2 ^ 64 /\
       eval (drop i (data b)) * 2 ^ 64 + rest = m * 2 ^ (12 + e mod 32) * pw (Z.to_nat (e / 32) - i).

Lemma doubleRound_step s0 m e i s : 0 <= m < 2 ^ 53 -> 0 <= e -> (i < S (Z.to_nat (e / 32)))%nat ->
  streamInv s0 m e (S i) s -> returns (doubleRound e i s) (streamInv s0 m e i).
Proof.
  intros Hm He Hi. destruct s as [[[first lo] rest] b]. intros (Hs & Hd & Hl & H).
  pose proof (Z.mod_pos_bound e 32 ltac:(lia)) as Hr. set (q := Z.to_nat (e / 32)) in *.
  unfold doubleRound, DATA_BITS, DOUBLE_SIGNIFICAND_SIZE. destruct (decide (S i = S q)) as [E|E].
  - destruct H as [-> ->]. injection E as ->. destruct (stream_first m (e mod 32) Hm Hr) as (Hdg & Hrs & Hv).
    apply bind_SetDigit; [lia|]. apply returns_ok. unfold streamInv, GetLength in *. cbn [Sign data].
    fold q. rewrite length_insert, decide_False, drop_insert_head, Nat.sub_diag, pw_0 by lia.
    split_and!; auto with ark; try lia. rewrite drop_ge by lia. cbn [eval]. lia.
  - destruct H as (-> & Hrest & Hv). destruct (stream_next rest Hrest) as (Hdg & Hrs & Hn). unfold DATA_BITS in Hdg, Hrs, Hn.
    apply bind_SetDigit; [lia|]. apply returns_ok. unfold streamInv, GetLength in *. cbn [Sign data].
    fold q. rewrite length_insert, decide_False, drop_insert_head by lia.
    split_and!; auto with ark; try lia. replace (q - i)%nat with (S (q - S i)) by lia. rewrite pw_S. cbn [eval].
    nia.
Qed.

Lemma pow_radix e : 0 <= e -> 2 ^ (e mod 32) * pw (Z.to_nat (e / 32)) = 2 ^ e.
Proof.
  intros He. pose proof (Z.mod_pos_bound e 32 ltac:(lia)). pose proof (Z.div_pos e 32 ltac:(lia) ltac:(lia)).
  rewrite pw_bits, <- Z.pow_add_r by lia. f_equal. pose proof (Z.div_mod e 32 ltac:(lia)). lia.
Qed.

(** The magnitude of a double of at least one, in units of [2 ^ -1074]. *)
Lemma magn_units d : 1023 <= expo d -> magn d = (frac d + 2 ^ 52) * 2 ^ (12 + (expo d - 1023)) * 2 ^ 1010.
Proof.
  intros He. unfold magn. destruct (Z.eqb_spec (expo d) 0); [lia|].
  rewrite <- Z.mul_assoc, <- Z.pow_add_r by lia. do 2 f_equal. lia.
Qed.

Lemma ONE_units : ONE = 2 ^ 64 * 2 ^ 1010.
Proof. by vm_compute. Qed.

Lemma div_units a b k : 0 < k -> 0 < b -> (a * k) / (b * k) = a / b.
Proof. intros. apply Z.div_mul_cancel_r; lia. Qed.

Lemma DoubleToBigInt_returns d : 1023 <= expo d < 2047 ->
  returns (DoubleToBigInt d) (fun z => wf z /\
    toZ z = if lessThanZero d then - (magn d / ONE) else magn d / ONE).
Proof.
  intros He. unfold DoubleToBigInt. rewrite expo_land, mantissa_lor. unfold DOUBLE_EXPONENT_BIAS.
  rewrite u64_small by (unfold is_u64; lia). set (e := expo d - 1023). set (m := frac d + 2 ^ 52).
  pose proof (frac_bounds d) as Hf.
  assert (0 <= e / DATA_BITS < 32) as Hq.
  { unfold DATA_BITS. split; [apply Z.div_pos; lia|apply Z.div_lt_upper_bound; lia]. }
  rewrite u32_small by (unfold is_u32; rewrite BASE_eq; lia).
  apply bind_CreateBigint; [rewrite MAXSIZE_eq; lia|].
  replace (Z.to_nat (e / DATA_BITS + 1)) with (S (Z.to_nat (e / 32))) by (unfold DATA_BITS in *; lia).
  eapply returns_bind; [apply (for_down_returns (streamInv (lessThanZero d) m e))|].
  - unfold streamInv, SetSign, GetLength. cbn [Sign data]. rewrite length_replicate, decide_True by done.
    split_and!; auto with ark.
  - intros i s Hi. apply doubleRound_step; lia.
  - intros [[[first lo] rest] b] (Hs & Hd & Hl & H). rewrite decide_False in H by lia.
    destruct H as (_ & Hrest & Hv). rewrite drop_0, Nat.sub_0_r, <- Z.mul_assoc in Hv.
    eapply returns_mono; [apply RightTruncate_returns; [done|lia|rewrite MAXSIZE_eq; unfold DATA_BITS in *; lia]|].
    intros z [Hz Ez]. split; [done|]. rewrite Ez. unfold toZ. rewrite Hs.
    assert (eval (data b) = magn d / ONE) as ->; [|done].
    rewrite magn_units, ONE_units, div_units by (lia || by vm_compute). fold m e.
    apply (Z.div_unique _ _ _ rest); [lia|]. rewrite Z.pow_add_r, <- Z.mul_assoc in Hv by (lia || apply Z.mod_pos_bound; lia).
    rewrite pow_radix in Hv by lia. rewrite Z.pow_add_r by lia. lia.
Qed.

Definition numberInRange (v : JSTaggedValue) : Prop :=
  match v with Int z => is_i32 z | _ => True end.

Lemma doubleOfInt_pattern z : is_i32 z -> z <> 0 ->
  exists k f, 0 <= k < 32 /\ 0 <= f < 2 ^ 52 /\ doubleOfInt z = pattern (z <? 0) (k + 1023) f /\
    (f + 2 ^ 52) * 2 ^ k = Z.abs z * 2 ^ 52.
Proof.
  intros Hz Hnz. unfold doubleOfInt. destruct (Z.eqb_spec z 0); [done|]. unfold is_i32 in Hz.
  pose proof (Z.log2_spec (Z.abs z) ltac:(lia)) as [Hlo Hhi]. set (k := Z.log2 (Z.abs z)) in *.
  assert (0 <= k < 32) as Hk.
  { split; [apply Z.log2_nonneg|]. apply Z.log2_lt_pow2; lia. }
  rewrite Z.pow_succ_r in Hhi by lia.
  assert (2 ^ k * 2 ^ (52 - k) = 2 ^ 52) as E by (rewrite <- Z.pow_add_r by lia; f_equal; lia).
  pose proof (pow2_pos (52 - k) ltac:(lia)). pose proof (pow2_pos k ltac:(lia)).
  exists k, (Z.abs z * 2 ^ (52 - k) - 2 ^ 52). split_and!; [lia|lia|nia|nia| |nia].
  unfold pattern, DOUBLE_EXPONENT_BIAS. lia.
Qed.

(** The conversion of [int] to [double] keeps the value. *)
Lemma doubleOfInt_scaled z : is_i32 z -> scaled (doubleOfInt z) = Some (z * ONE).
Proof.
  intros Hz. destruct (decide (z = 0)) as [->|Hnz]; [by vm_compute|].
  destruct (doubleOfInt_pattern z Hz Hnz) as (k & f & Hk & Hf & -> & E).
  rewrite pattern_scaled by lia.
  assert ((f + 2 ^ 52) * 2 ^ (k + 1023 - 1) = Z.abs z * ONE) as ->.
  { replace (k + 1023 - 1) with (k + 1022) by lia. rewrite Z.pow_add_r, Z.mul_assoc, E by lia.
    rewrite <- Z.mul_assoc. f_equal. }
  f_equal. generalize ONE. intros o. destruct (Z.ltb_spec z 0); lia.
Qed.

Lemma GetNumber_scaled v : IsNumber v = true -> numberInRange v -> scaled (GetNumber v) = (ExtractNumber v).1.
Proof. destruct v; cbn; try done. intros _ Hz. by apply doubleOfInt_scaled. Qed.

Lemma scaled_Some d s : scaled d = Some s -> Z.abs s = magn d /\ (s < 0 -> signbit d = true).
Proof.
  unfold scaled. destruct (isnan d); [done|]. intros [= <-]. pose proof (magn_nonneg d).
  destruct (signbit d); split; auto; lia.
Qed.

Lemma lessThanZero_eq d s : scaled d = Some s -> lessThanZero d = (s <? 0).
Proof. unfold lessThanZero, num_lt, ofDouble, ofInt. cbn [fst]. by intros ->. Qed.

Lemma isZeroDouble_eq d s : scaled d = Some s -> isZeroDouble d = (s =? 0).
Proof. unfold isZeroDouble, num_eq, ofDouble, ofInt. cbn [fst]. by intros ->. Qed.

Lemma greaterThanZero_eq d s : scaled d = Some s -> greaterThanZero d = (0 <? s).
Proof. unfold greaterThanZero, num_lt, ofDouble, ofInt. cbn [fst]. by intros ->. Qed.

(** Doubles below one. *)
Lemma magn_small d : expo d < 1023 -> magn d < ONE.
Proof.
  intros He. unfold magn. pose proof (frac_bounds d). pose proof (expo_bounds d).
  destruct (Z.eqb_spec (expo d) 0).
  - assert (2 ^ 52 < ONE) by (by vm_compute). lia.
  - assert (2 ^ (expo d - 1) <= 2 ^ 1021) by (apply Z.pow_le_mono_r; lia).
    pose proof (pow2_pos (expo d - 1) ltac:(lia)).
    assert (ONE = 2 ^ 53 * 2 ^ 1021) as -> by (by vm_compute). generalize dependent (2 ^ 1021). intros. nia.
Qed.

Lemma magn_large d : 1023 <= expo d -> ONE <= magn d.
Proof.
  intros He. rewrite magn_units, ONE_units by done. pose proof (frac_bounds d).
  apply Z.mul_le_mono_nonneg_r; [by vm_compute|].
  assert (2 ^ 12 <= 2 ^ (12 + (expo d - 1023))) by (apply Z.pow_le_mono_r; lia). nia.
Qed.

Lemma doubleOfInt_integer z : is_i32 z ->
  isfinite (doubleOfInt z) = true /\ magn (doubleOfInt z) mod ONE = 0.
Proof.
  intros Hz. pose proof (doubleOfInt_scaled z Hz) as E. apply scaled_Some in E as [E _]. split.
  - destruct (decide (z = 0)) as [->|Hnz]; [by vm_compute|].
    destruct (doubleOfInt_pattern z Hz Hnz) as (k & f & Hk & Hf & -> & _).
    unfold isfinite. rewrite pattern_expo by lia. destruct (Z.eqb_spec (k + 1023) 2047); [lia|done].
  - rewrite <- E, Z.abs_mul, (Z.abs_eq ONE) by (by vm_compute). by apply Z.mod_mul.
Qed.

Lemma isfinite_scaled d : isfinite d = true -> exists s, scaled d = Some s.
Proof.
  unfold isfinite, scaled, isnan. destruct (Z.eqb_spec (expo d) 2047); [done|]. cbn. eauto.
Qed.

(** [NumberToBigInt] accepts exactly the integers: on an integral Number it returns a
    normalised BigInt that denotes the same integer (the digits the loop takes from the
    mantissa are the integer part, for every exponent up to the largest double), on a fraction,
    an infinity or NaN it throws the RangeError. *)
Theorem NumberToBigInt_correct v : numberInRange v ->
  if IsInteger v
  then returns (NumberToBigInt v) (fun z => wf z /\ (ExtractNumber v).1 = Some (toZ z * ONE))
  else NumberToBigInt v = Err NotInteger.
Proof.
  intros Hv. unfold NumberToBigInt. destruct (IsInteger v) eqn:Hi; [|done]. cbn [negb].
  assert (IsNumber v = true) as Hn by (by destruct v).
  assert (isfinite (GetNumber v) = true /\ magn (GetNumber v) mod ONE = 0) as [Hf Hm].
  { destruct v; try done; cbn in *; [by apply doubleOfInt_integer|].
    apply andb_true_iff in Hi as [? H]. by apply Z.eqb_eq in H. }
  rewrite <- GetNumber_scaled by done. generalize dependent (GetNumber v). clear v Hv Hi Hn. intros d Hf Hm.
  destruct (isfinite_scaled d Hf) as [s Es]. rewrite (isZeroDouble_eq _ _ Es), Es.
  destruct (Z.eqb_spec s 0) as [->|Hs].
  { eapply returns_mono; [apply Int32ToBigInt_returns; unfold is_i32; lia|]. by intros z (? & -> & _). }
  pose proof (scaled_Some _ _ Es) as [Ea _].
  assert (1023 <= expo d < 2047).
  { unfold isfinite in Hf. apply negb_true_iff, Z.eqb_neq in Hf. pose proof (expo_bounds d).
    destruct (decide (expo d < 1023)) as [H1|]; [|lia]. apply magn_small in H1.
    rewrite Z.mod_small in Hm by lia. lia. }
  eapply returns_mono; [by apply DoubleToBigInt_returns|]. cbv beta. intros z [Hz Ez]. split; [done|].
  rewrite Ez, (lessThanZero_eq _ _ Es). f_equal.
  pose proof (Z.div_mod (magn d) ONE ltac:(by vm_compute)) as Hd. rewrite Hm in Hd.
  destruct (Z.ltb_spec s 0); lia.
Qed.

Lemma NumberToBigInt_correct_witness :
  returns (NumberToBigInt (Double (pattern true 1123 7))) (fun z => wf z /\
    Some (- (7 + 2 ^ 52) * 2 ^ 1122) = Some (toZ z * ONE)).
Proof.
  exact (NumberToBigInt_correct (Double (pattern true 1123 7)) I).
Defined.

(** ** Comparison with a Number *)

(** [X] digits against the stream [M * pw q]: the digits above [i] agree with it. *)
Section Compare.
  Variables (x : BigInt) (m e : Z).
  Hypothesis Hx : Forall is_u32 (data x).
  Hypothesis Hm : 0 <= m < 2 ^ 53.
  Hypothesis He : 0 <= e.
  Hypothesis Hlen : GetLength x = S (Z.to_nat (e / 32)).

Let q := Z.to_nat (e / 32).
Let M := m * 2 ^ (12 + e mod 32).

(** The value the double has, in units of [2 ^ -64]. *)
Definition target : Z := m * 2 ^ (12 + e).

Lemma target_eq : target = M * pw q.
Proof.
  unfold target, M, q. pose proof (Z.mod_pos_bound e 32 ltac:(lia)). rewrite !Z.pow_add_r, <- (pow_radix e) by lia. lia.
Qed.

Definition signedCmp (a b : Z) : ComparisonResult := if GetSign x then cmpZ b a else cmpZ a b.

Lemma signedCmp_great a b : b < a -> signedGreat (GetSign x) = signedCmp a b.
Proof. intros H. unfold signedCmp. destruct (GetSign x); symmetry; auto with ark. Qed.

Lemma signedCmp_less a b : a < b -> signedLess (GetSign x) = signedCmp a b.
Proof. intros H. unfold signedCmp. destruct (GetSign x); symmetry; auto with ark. Qed.

Lemma compareMantissa_returns lz n first rest : lz = 31 - e mod 32 -> (n <= S q)%nat ->
  (if decide (n = S q) then first = true /\ rest = m
   else first = false /\ 0 <= rest < 2 ^ 64 /\ eval (drop n (data x)) * 2 ^ 64 + rest = M * pw (q - n)) ->
  compareMantissa x lz n first rest = Ok (signedCmp (eval (data x) * 2 ^ 64) target).
Proof.
  intros Hlz. revert first rest. pose proof (Z.mod_pos_bound e 32 ltac:(lia)) as Hr. unfold GetLength in Hlen. fold q in Hlen.
  induction n as [|i IH]; intros first rest Hn H; cbn [compareMantissa].
  - destruct H as (_ & Hrest & Hv). rewrite drop_0, Nat.sub_0_r, <- target_eq in Hv. f_equal.
    destruct (Z.eqb_spec rest 0) as [->|Hne]; cbn [negb]; [|apply signedCmp_less; lia].
    unfold signedCmp. destruct (GetSign x); symmetry; auto with ark; apply cmpZ_equal; lia.
  - destruct (lookup_lt_is_Some_2 (data x) i) as [d Hd]; [lia|]. unfold GetDigit, get. rewrite Hd. cbn [mbind result_bind].
    set (leftover := if first then _ else _).
    assert (exists dn rest', u32 (Z.shiftr rest leftover) = dn /\ u64 (Z.shiftl rest (64 - leftover)) = rest' /\
      0 <= rest' < 2 ^ 64 /\ (eval (drop (S i) (data x)) * BASE + dn) * 2 ^ 64 + rest' = M * pw (q - i))
      as (dn & rest' & -> & -> & Hrest' & Hv).
    { do 2 eexists. split; [done|]. split; [done|]. destruct (decide (S i = S q)) as [E|E].
      - destruct H as [-> ->]. injection E as ->. unfold leftover, DOUBLE_SIGNIFICAND_SIZE, DATA_BITS.
        replace (52 - 32 + lz + 1) with (52 - e mod 32) by lia.
        destruct (stream_first m (e mod 32) Hm Hr) as (_ & ? & ?). split; [done|].
        rewrite drop_ge, Nat.sub_diag, pw_0 by lia. cbn [eval]. unfold M. lia.
      - destruct H as (-> & Hrest & Hv). destruct (stream_next rest Hrest) as (_ & ? & ?). unfold leftover.
        change (64 - DATA_BITS) with DATA_BITS. split; [done|].
        replace (q - i)%nat with (S (q - S i)) by lia. rewrite pw_S. nia. }
    assert (eval (data x) * 2 ^ 64 - target = (evalp (data x) i + pw i * (d - dn)) * 2 ^ 64 - rest' * pw i) as Hdiff.
    { rewrite target_eq, (eval_take_drop (data x) i), (eval_drop_S _ _ _ Hd) by lia.
      replace q with ((q - i) + i)%nat at 1 by lia. rewrite pw_add. nia. }
    pose proof (evalp_bounds (data x) i Hx ltac:(lia)). pose proof (pw_pos i).
    destruct (Z.ltb_spec dn d); [f_equal; apply signedCmp_great; nia|].
    destruct (Z.ltb_spec d dn); [f_equal; apply signedCmp_less; nia|].
    assert (d = dn) as <- by lia. apply IH; [lia|]. rewrite decide_False by lia.
    split_and!; [done|lia|lia|]. rewrite (eval_drop_S _ _ _ Hd). lia.
Qed.
End Compare.

(** The bit length read from the head digit. *)
Lemma head_bits x h : wf x -> toZ x <> 0 -> data x !! (GetLength x - 1)%nat = Some h ->
  Z.of_nat (GetLength x) * DATA_BITS - CountLeadingZeros h = Z.log2 (eval (data x)) + 1 /\
  0 <= CountLeadingZeros h < 32 /\ 0 < h.
Proof.
  intros Hx Hnz Hh. pose proof (digit_range _ _ _ (wf_digits _ Hx) Hh) as Hr.
  pose proof (wf_pos _ Hx) as Hp. assert (0 < h) as Hpos.
  { assert (h <> 0); [|unfold is_u32 in Hr; lia]. intros ->. destruct (wf_top _ Hx) as [H1|Ht].
    - apply Hnz, wf_zero_iff; [done|]. unfold GetLength in *. destruct (data x) as [|d [|]]; try done. cbn in Hh. congruence.
    - apply Ht. rewrite last_lookup. rewrite <- Hh. f_equal. unfold GetLength. lia. }
  destruct (clz_spec h ltac:(unfold is_u32 in Hr; lia)) as (Hc & _). split_and!; [|lia..].
  unfold CountLeadingZeros. destruct (Z.eqb_spec h 0) as [|_]; [lia|].
  enough (Z.log2 (eval (data x)) = Z.log2 h + 32 * (Z.of_nat (GetLength x) - 1)) by (unfold DATA_BITS; lia).
  unfold GetLength in *. set (n := (length (data x) - 1)%nat) in *.
  rewrite (eval_take_drop (data x) n), (eval_drop_S _ _ _ Hh) by lia. rewrite drop_ge by lia. cbn [eval].
  pose proof (evalp_bounds (data x) n (wf_digits _ Hx) ltac:(lia)) as Hb. rewrite pw_bits in *.
  replace (32 * Z.of_nat n) with (32 * (Z.of_nat (length (data x)) - 1)) in * by lia.
  set (k := 32 * (Z.of_nat (length (data x)) - 1)) in *. assert (0 <= k) by lia.
  pose proof (Z.log2_spec h Hpos) as [Hl1 Hl2]. pose proof (Z.log2_nonneg h). rewrite Z.pow_succ_r in Hl2 by lia.
  pose proof (pow2_pos k ltac:(lia)).
  apply Z.log2_unique; [lia|]. rewrite Z.pow_succ_r, Z.pow_add_r by lia. nia.
Qed.

Lemma magn_log d : 1023 <= expo d ->
  2 ^ (expo d - 1023) * ONE <= magn d < 2 ^ (expo d - 1023 + 1) * ONE.
Proof.
  intros He. rewrite magn_units, ONE_units by done. pose proof (frac_bounds d).
  rewrite !(Z.pow_add_r 2) by lia. pose proof (pow2_pos (expo d - 1023) ltac:(lia)) as Hp.
  generalize dependent (2 ^ (expo d - 1023)). intros p Hp.
  change (2 ^ 64) with (2 ^ 52 * 2 ^ 12). assert (0 < 2 ^ 1010) by (by vm_compute).
  generalize dependent (2 ^ 1010). generalize dependent (frac d). intros. nia.
Qed.

Lemma cmpZ_scale k a b : 0 < k -> cmpZ (a * k) (b * k) = cmpZ a b.
Proof.
  intros Hk. destruct (Z.lt_total a b) as [H|[->|H]].
  - rewrite !cmpZ_less by nia. done.
  - by rewrite !cmpZ_equal.
  - rewrite !cmpZ_great by nia. done.
Qed.

(** Operands of the same sign compare as their magnitudes do. *)
Lemma signedCmp_eq x s : wf x -> toZ x <> 0 -> (toZ x <? 0) = (s <? 0) ->
  signedCmp x (eval (data x) * ONE) (Z.abs s) = cmpZ (toZ x * ONE) s.
Proof.
  intros Hx Hnz Es. unfold signedCmp, GetSign. rewrite wf_abs, wf_sign, Es by done.
  destruct (Z.ltb_spec s 0) as [Hs|Hs].
  - apply Z.ltb_lt in Es. rewrite (Z.abs_neq s), (Z.abs_neq (toZ x)), Z.mul_opp_l, cmpZ_opp by lia. done.
  - apply Z.ltb_ge in Es. by rewrite !Z.abs_eq by lia.
Qed.

(** Numbers of the same sign and a magnitude of at least one. *)
Lemma compareMagnitude_returns x d s : wf x -> toZ x <> 0 -> scaled d = Some s -> 1023 <= expo d ->
  ('(res, leadingZeros) ← CompareToBitsLen x (expo d - 1023 + 1);
   if res =? 0 then Ok LESS else
   if res =? 1 then Ok GREAT else
   compareMantissa x leadingZeros (GetLength x) true (frac d + 2 ^ 52))
  = Ok (signedCmp x (eval (data x) * ONE) (magn d)).
Proof.
  intros Hx Hnz Es He. unfold CompareToBitsLen. pose proof (wf_pos _ Hx) as Hpos.
  destruct (lookup_lt_is_Some_2 (data x) (GetLength x - 1)) as [h Hh]; [unfold GetLength in *; lia|].
  destruct (head_bits x h Hx Hnz Hh) as (Hbits & Hlz & _). unfold GetDigit, get. rewrite Hh. cbn [mbind result_bind].
  rewrite Hbits. assert (0 < eval (data x)) as Hev by (rewrite wf_abs by done; lia).
  pose proof (Z.log2_spec _ Hev) as [Hl1 Hl2]. pose proof (Z.log2_nonneg (eval (data x))).
  pose proof (magn_log d He) as [Hm1 Hm2]. set (e := expo d - 1023) in *. pose proof ONE_pos as HO.
  destruct (Z.ltb_spec (e + 1) (Z.log2 (eval (data x)) + 1)) as [H1|H1].
  { assert (2 ^ (e + 1) <= 2 ^ Z.log2 (eval (data x))) by (apply Z.pow_le_mono_r; lia).
    rewrite <- signedCmp_great by nia. by destruct (GetSign x). }
  destruct (Z.ltb_spec (Z.log2 (eval (data x)) + 1) (e + 1)) as [H2|H2].
  { assert (2 ^ Z.succ (Z.log2 (eval (data x))) <= 2 ^ e) by (apply Z.pow_le_mono_r; lia).
    rewrite <- signedCmp_less by nia. by destruct (GetSign x). }
  cbn [Z.eqb]. assert (Z.log2 (eval (data x)) = e) as Ee by lia. clear H1 H2.
  pose proof (Z.div_mod e 32 ltac:(lia)). pose proof (Z.mod_pos_bound e 32 ltac:(lia)). unfold DATA_BITS in Hbits.
  pose proof (frac_bounds d).
  rewrite (compareMantissa_returns x (frac d + 2 ^ 52) e); [|apply Hx|lia..|].
  - unfold target. rewrite magn_units by done. fold e. rewrite ONE_units, Z.mul_assoc. unfold signedCmp.
    by rewrite !cmpZ_scale by (by vm_compute).
  - by rewrite decide_True by lia.
Qed.

(** What the comparison of [bigint] with a Number means; an infinity is beyond every BigInt. *)
Definition compareSpec (x : BigInt) (v : JSTaggedValue) : ComparisonResult :=
  match (ExtractNumber v).1 with
  | None => UNDEFINED
  | Some s => if match v with Double d => isinf d | _ => false end then (if s <? 0 then GREAT else LESS)
              else cmpZ (toZ x * ONE) s
  end.

Lemma isinf_isfinite d s : scaled d = Some s -> isfinite d = negb (isinf d) /\ isnan d = false.
Proof. unfold scaled, isfinite, isinf, isnan. destruct (expo d =? 2047), (frac d =? 0); done. Qed.

Lemma GetNumber_isinf v : numberInRange v -> match v with Double d => isinf d | _ => false end = isinf (GetNumber v).
Proof.
  destruct v; cbn; try done. intros Hz. destruct (doubleOfInt_integer z Hz) as [Hf _].
  unfold isfinite, isinf in *. by destruct (expo _ =? 2047).
Qed.

(** [CompareWithNumber] compares the integer with the mathematical value of the Number,
    whatever the lengths of the two and however far the fraction reaches: NaN is unordered,
    the infinities are beyond every BigInt, and otherwise the answer is that of the exact
    comparison. *)
Theorem CompareWithNumber_correct x v : wf x -> IsNumber v = true -> numberInRange v ->
  CompareWithNumber x v = Ok (compareSpec x v).
Proof.
  intros Hx Hn Hv. unfold CompareWithNumber, compareSpec.
  rewrite <- GetNumber_scaled, GetNumber_isinf, expo_land, mantissa_lor by done. generalize (GetNumber v). clear v Hn Hv. intros d.
  destruct (scaled d) as [s|] eqn:Es; [|unfold scaled in Es; by destruct (isnan d)].
  destruct (isinf_isfinite d s Es) as [-> ->]. rewrite negb_involutive, (lessThanZero_eq _ _ Es).
  destruct (isinf d) eqn:Ei; [by destruct (s <? 0)|].
  rewrite (isZeroDouble_eq _ _ Es), (greaterThanZero_eq _ _ Es), IsZero_eq by done. unfold GetSign.
  rewrite (wf_sign x Hx). pose proof ONE_pos as HO. unfold DOUBLE_EXPONENT_BIAS.
  destruct (scaled_Some d s Es) as [Ea _].
  destruct (Z.ltb_spec s 0) as [Hs|Hs], (Z.ltb_spec (toZ x) 0) as [Ht|Ht]; cbn [negb andb mbind result_bind].
  2: by rewrite cmpZ_great by nia.
  2: by rewrite cmpZ_less by nia.
  all: destruct (decide (toZ x = 0)) as [E0|E0]; [rewrite bool_decide_true by done|rewrite bool_decide_false by done]; cbn [andb].
  1: lia.
  2: { rewrite E0. destruct (Z.eqb_spec s 0) as [->|]; [done|]. destruct (Z.ltb_spec 0 s); [|lia]. by rewrite cmpZ_less by lia. }
  all: assert ((toZ x <? 0) = (s <? 0)) as Esg by (destruct (Z.ltb_spec (toZ x) 0), (Z.ltb_spec s 0); done || lia).
  all: rewrite <- (signedCmp_eq x s Hx E0 Esg), Ea; destruct (Z.ltb_spec (expo d - 1023) 0) as [H1|H1];
    [|by rewrite <- (compareMagnitude_returns x d s Hx E0 Es ltac:(lia))].
  all: pose proof (magn_small d ltac:(lia)); rewrite <- signedCmp_great by (rewrite wf_abs by done; nia); unfold GetSign;
    rewrite (wf_sign x Hx); destruct (Z.ltb_spec (toZ x) 0); done || lia.
Qed.

Lemma CompareWithNumber_correct_witness :
  CompareWithNumber (mkBigInt true [0; 0; 5]) (Double (pattern true 1089 (2 ^ 50))) =
    Ok (compareSpec (mkBigInt true [0; 0; 5]) (Double (pattern true 1089 (2 ^ 50)))).
Proof. apply CompareWithNumber_correct; [apply wfb_wf; by vm_compute|done|done]. Defined.

(** ** BigInt to Number *)

(** The double nearest to [n > 0], ties to even: the exponent field, the 52 bits below the
    leading one and the rounding; a carry out of the fraction moves to the exponent, and the
    pattern after the largest double is infinity. *)
Definition nearestEven (n : Z) : Z :=
  let e := Z.log2 n in
  if 1023 <? e then POSITIVE_INFINITY else
  if e <=? 52 then (e + 1023) * 2 ^ 52 + (n * 2 ^ (52 - e) - 2 ^ 52) else
  let q := n / 2 ^ (e - 52) in
  let r := n mod 2 ^ (e - 52) in
  let half := 2 ^ (e - 53) in
  (e + 1023) * 2 ^ 52 + (q - 2 ^ 52) + (if (half <? r) || ((half =? r) && Z.odd q) then 1 else 0).

Definition signBits (s : bool) : Z := if s then DOUBLE_SIGN_MASK else 0.

Lemma CalculateNumber_eq s m e : 0 <= m < 2 ^ 52 -> 0 <= e <= 1023 ->
  CalculateNumber (signBits s) m e = signBits s + (e + 1023) * 2 ^ 52 + m.
Proof.
  intros Hm He. unfold CalculateNumber, DOUBLE_EXPONENT_BIAS, DOUBLE_SIGNIFICAND_SIZE.
  rewrite (u64_small (e + 1023)), Z.shiftl_mul_pow2, u64_small by (unfold is_u64; lia).
  assert (signBits s mod 2 ^ 63 = 0 /\ signBits s mod 2 ^ 52 = 0) as [Hs1 Hs2] by (by destruct s).
  rewrite (lor_add (signBits s) _ 63); [|lia|done|lia].
  apply (lor_add _ _ 52); [lia| |lia]. rewrite Z.add_mod, Z.mod_mul, Hs2 by lia. done.
Qed.

Lemma Rounding_eq s m e up : 0 <= m < 2 ^ 52 -> 0 <= e <= 1023 ->
  Rounding (signBits s) m e up =
  signBits s + (e + 1023) * 2 ^ 52 + m + (if up || Z.odd m then 1 else 0).
Proof.
  intros Hm He. unfold Rounding. change 1 with (Z.ones 1) at 1. rewrite Z.land_ones, Zmod_odd by lia.
  replace ((if Z.odd m then 1 else 0) =? 1) with (Z.odd m) by (by destruct (Z.odd m)).
  destruct (up || Z.odd m); [|rewrite CalculateNumber_eq by done; lia].
  unfold DOUBLE_SIGNIFICAND_SIZE, DOUBLE_EXPONENT_BIAS. rewrite u64_small, Z.shiftr_div_pow2 by (unfold is_u64; lia).
  destruct (decide (m + 1 = 2 ^ 52)) as [E|E].
  - rewrite E, Z.div_same by lia. cbn [Z.eqb negb]. rewrite u64_small by (unfold is_u64; lia).
    destruct (Z.ltb_spec 1023 (e + 1)).
    + replace e with 1023 in * by lia. destruct s; cbn [signBits]; unfold signedInfinity, POSITIVE_INFINITY, DOUBLE_EXPONENT_MASK, DOUBLE_SIGN_MASK; cbn [Z.eqb negb]; [|lia].
      destruct (Z.eqb_spec (2 ^ 63) 0); [lia|]. cbn [negb]. lia.
    + rewrite CalculateNumber_eq by lia. lia.
  - rewrite Z.div_small by lia. cbn [Z.eqb negb]. rewrite CalculateNumber_eq by lia. lia.
Qed.

Lemma anyDigitBelow_returns x i : Forall is_u32 (data x) -> (i <= GetLength x)%nat ->
  anyDigitBelow x i = Ok (negb (evalp (data x) i =? 0)).
Proof.
  intros Hx. induction i as [|i IH]; intros Hi; cbn [anyDigitBelow]; [done|]. unfold GetLength in *.
  destruct (lookup_lt_is_Some_2 (data x) i) as [d Hd]; [lia|]. unfold GetDigit, get. rewrite Hd. cbn [mbind result_bind].
  rewrite (evalp_S _ _ _ Hd), IH by lia. pose proof (evalp_bounds (data x) i Hx ltac:(lia)).
  pose proof (digit_range _ _ _ Hx Hd) as Hr. unfold is_u32 in Hr. pose proof (pw_pos i).
  destruct (Z.eqb_spec d 0) as [->|]; cbn [negb]; [do 2 f_equal; f_equal; lia|].
  destruct (Z.eqb_spec (evalp (data x) i + pw i * d) 0); [nia|done].
Qed.

(** Bit [t - 1] of a digit and the bits below it decide on which side of the middle the digit's
    last [t] bits are. *)
Lemma land_pow2_zero d k : 0 <= k -> (Z.land d (2 ^ k) =? 0) = negb (Z.testbit d k).
Proof.
  intros Hk. apply Bool.eq_iff_eq_true. rewrite Z.eqb_eq, negb_true_iff. split.
  - intros H. rewrite <- (andb_true_r (Z.testbit d k)). rewrite <- (Z.pow2_bits_true k Hk), <- Z.land_spec, H.
    apply Z.bits_0.
  - intros H. apply Z.bits_inj'. intros i Hi. rewrite Z.land_spec, Z.bits_0, Z.pow2_bits_eqb by done.
    destruct (Z.eqb_spec k i) as [<-|]; [by rewrite H|apply andb_false_r].
Qed.

Lemma low_split d t : 0 < t -> d mod 2 ^ t = d mod 2 ^ (t - 1) + (if Z.testbit d (t - 1) then 2 ^ (t - 1) else 0).
Proof.
  intros Ht. rewrite Z.testbit_eqb by lia. pose proof (pow2_pos (t - 1) ltac:(lia)).
  replace (2 ^ t) with (2 ^ (t - 1) * 2) by (rewrite Z.mul_comm, <- Z.pow_succ_r by lia; f_equal; lia).
  rewrite Z.rem_mul_r by lia. pose proof (Z.mod_pos_bound (d / 2 ^ (t - 1)) 2 ltac:(lia)).
  destruct (Z.eqb_spec ((d / 2 ^ (t - 1)) mod 2) 1) as [->|]; [lia|].
  assert ((d / 2 ^ (t - 1)) mod 2 = 0) as -> by lia. lia.
Qed.

Lemma odd_sub_hidden q : Z.odd (q - 2 ^ 52) = Z.odd q.
Proof. rewrite Z.odd_sub. change (Z.odd (2 ^ 52)) with false. apply xorb_false_r. Qed.

Section Round.
  Variables (x : BigInt) (s : bool) (Q d t : Z) (j : nat).
  Hypothesis Hx : Forall is_u32 (data x).
  Hypothesis Hd : data x !! j = Some d.
  Hypothesis Ht : 1 <= t <= 32.
  Hypothesis HQ : 2 ^ 52 <= Q < 2 ^ 53.
  Hypothesis Hn : eval (data x) = Q * 2 ^ (32 * Z.of_nat j + t) + ((d mod 2 ^ t) * pw j + evalp (data x) j).

Let e := 32 * Z.of_nat j + t + 52.
Let low := (d mod 2 ^ (t - 1)) * pw j + evalp (data x) j.
Let half := 2 ^ (t - 1) * pw j.

Lemma low_bounds : 0 <= low < half.
Proof.
  pose proof (evalp_bounds (data x) j Hx ltac:(apply lookup_lt_Some in Hd; lia)).
  pose proof (Z.mod_pos_bound d (2 ^ (t - 1)) ltac:(apply pow2_pos; lia)). unfold low, half. nia.
Qed.

Lemma half_eq : half = 2 ^ (e - 53) /\ 2 * half = 2 ^ (32 * Z.of_nat j + t).
Proof.
  unfold half. rewrite pw_bits, <- Z.pow_add_r, <- Z.pow_succ_r by lia. split; f_equal; unfold e; lia.
Qed.

Lemma eval_low : eval (data x) = Q * (2 * half) + (low + if Z.testbit d (t - 1) then half else 0).
Proof.
  rewrite Hn, low_split by lia. destruct half_eq as [_ <-]. unfold low, half. destruct (Z.testbit d (t - 1)); lia.
Qed.

Lemma log2_eval : Z.log2 (eval (data x)) = e.
Proof.
  pose proof low_bounds. destruct half_eq as [_ E]. rewrite eval_low.
  apply Z.log2_unique; [unfold e; lia|]. unfold e. rewrite Z.pow_succ_r, Z.pow_add_r, <- E by lia.
  destruct (Z.testbit d (t - 1)); nia.
Qed.

Lemma nearestEven_low : e <= 1023 ->
  nearestEven (eval (data x)) = (e + 1023) * 2 ^ 52 + (Q - 2 ^ 52) +
    (if Z.testbit d (t - 1) && (negb (low =? 0) || Z.odd (Q - 2 ^ 52)) then 1 else 0).
Proof.
  intros He. unfold nearestEven. rewrite log2_eval. pose proof low_bounds as Hl. destruct half_eq as [E1 E2].
  destruct (Z.ltb_spec 1023 e); [lia|]. destruct (Z.leb_spec e 52); [unfold e in *; lia|].
  replace (e - 52) with (32 * Z.of_nat j + t) by (unfold e; lia). rewrite <- E1, <- E2, eval_low, odd_sub_hidden.
  set (r := low + _). assert (0 <= r < 2 * half) as Hr by (unfold r; destruct (Z.testbit d (t - 1)); lia).
  assert ((Q * (2 * half) + r) / (2 * half) = Q) as -> by (rewrite Z.div_add_l, Z.div_small; lia).
  assert ((Q * (2 * half) + r) mod (2 * half) = r) as -> by (rewrite Z.add_comm, Z.mod_add, Z.mod_small; lia).
  f_equal. unfold r. destruct (Z.testbit d (t - 1)); cbn [andb].
  - destruct (Z.eqb_spec low 0) as [->|]; cbn [negb orb].
    + rewrite Z.add_0_l, Z.ltb_irrefl, Z.eqb_refl. done.
    + destruct (Z.ltb_spec half (low + half)); [done|lia].
  - destruct (Z.ltb_spec half (low + 0)); [lia|]. destruct (Z.eqb_spec half (low + 0)); [lia|done].
Qed.

Lemma roundDigit_eq : e <= 1023 ->
  roundDigit x (signBits s) (Q - 2 ^ 52) e d t (Z.of_nat j) = Ok (signBits s + nearestEven (eval (data x))).
Proof.
  intros He. assert (0 <= e) by (unfold e; lia). rewrite nearestEven_low by done. unfold roundDigit.
  assert (u32 (Z.shiftl 1 (t - 1)) = 2 ^ (t - 1)) as ->.
  { rewrite Z.shiftl_1_l. apply u32_small. split; [apply Z.lt_le_incl, pow2_pos; lia|].
    apply Z.pow_lt_mono_r; lia. }
  rewrite land_pow2_zero, (Z.sub_1_r (2 ^ _)), <- Z.ones_equiv, Z.land_ones by lia.
  destruct (Z.testbit d (t - 1)); cbn [negb andb]; [|rewrite CalculateNumber_eq by lia; f_equal; lia].
  pose proof (Z.mod_pos_bound d (2 ^ (t - 1)) ltac:(apply pow2_pos; lia)) as Hm. pose proof (pw_pos j).
  pose proof (lookup_lt_Some _ _ _ Hd). pose proof (evalp_bounds (data x) j Hx ltac:(lia)).
  destruct (Z.eqb_spec (d mod 2 ^ (t - 1)) 0) as [E|E]; cbn [negb].
  - rewrite Nat2Z.id, anyDigitBelow_returns by (done || unfold GetLength; lia). cbn [mbind result_bind].
    unfold low. rewrite Rounding_eq, E, Z.mul_0_l, Z.add_0_l by lia. f_equal. lia.
  - rewrite Rounding_eq by lia. destruct (Z.eqb_spec low 0) as [E0|]; [unfold low in E0; nia|]. cbn [negb orb]. f_equal. lia.
Qed.
End Round.

(** The first bits of the fraction, from the head digit. *)
Lemma headMantissa h : 0 < h < BASE ->
  let k := Z.log2 h in
  (if CountLeadingZeros h + DATA_BITS + 1 =? 64 then 0
   else Z.shiftr (u64 (Z.shiftl h (CountLeadingZeros h + DATA_BITS + 1))) 12) = h * 2 ^ (52 - k) - 2 ^ 52.
Proof.
  intros Hh k. unfold CountLeadingZeros, DATA_BITS. destruct (Z.eqb_spec h 0) as [|_]; [lia|]. fold k.
  pose proof (Z.log2_spec h ltac:(lia)) as [Hl1 Hl2]. fold k in Hl1, Hl2. pose proof (Z.log2_nonneg h).
  assert (k < 32) by (apply Z.log2_lt_pow2; unfold BASE in *; lia). rewrite Z.pow_succ_r in Hl2 by done. fold k in H.
  replace (31 - k + 32 + 1) with (64 - k) by lia.
  assert (2 ^ 52 = 2 ^ k * 2 ^ (52 - k)) as E52 by (rewrite <- Z.pow_add_r by lia; f_equal; lia).
  assert (2 ^ 64 = 2 ^ k * 2 ^ (64 - k)) as E64 by (rewrite <- Z.pow_add_r by lia; f_equal; lia).
  destruct (Z.eqb_spec (64 - k) 64) as [E|_].
  { replace k with 0 in * by lia. change (2 ^ 0) with 1 in *. replace h with 1 by lia. done. }
  rewrite Z.shiftl_mul_pow2, Z.shiftr_div_pow2 by lia. unfold u64. pose proof (pow2_pos (64 - k) ltac:(lia)).
  rewrite <- (Z.mod_unique (h * 2 ^ (64 - k)) (2 ^ 64) 1 ((h - 2 ^ k) * 2 ^ (64 - k))) by nia.
  replace (64 - k) with (52 - k + 12) by lia. rewrite (Z.pow_add_r 2 (52 - k)), Z.mul_assoc, Z.div_mul by lia. nia.
Qed.

Section Pad.
  Variables (hi a d : Z).
  Hypothesis Ha : 0 <= a <= 52.
  Hypothesis HQ : 2 ^ 52 <= hi * 2 ^ a < 2 ^ 53.

Lemma pad_aligned : (hi * 2 ^ a - 2 ^ 52) mod 2 ^ a = 0.
Proof.
  replace (2 ^ 52) with (2 ^ (52 - a) * 2 ^ a) by (rewrite <- Z.pow_add_r by lia; f_equal; lia).
  rewrite <- Z.mul_sub_distr_r. pose proof (pow2_pos a ltac:(lia)). by apply Z.mod_mul; lia.
Qed.

(** A whole digit below the bits so far. *)
Lemma pad_digit : 32 <= a -> is_u32 d ->
  Z.lor (hi * 2 ^ a - 2 ^ 52) (u64 (Z.shiftl d (a - DATA_BITS))) = (hi * BASE + d) * 2 ^ (a - 32) - 2 ^ 52.
Proof.
  intros Ha' Hd. unfold DATA_BITS. rewrite Z.shiftl_mul_pow2 by lia. pose proof (pow2_pos (a - 32) ltac:(lia)).
  assert (2 ^ a = BASE * 2 ^ (a - 32)) as E by (unfold BASE; rewrite <- Z.pow_add_r by lia; f_equal; lia).
  assert (2 ^ a <= 2 ^ 52) by (apply Z.pow_le_mono_r; lia).
  assert (0 <= d * 2 ^ (a - 32) < 2 ^ a) by (unfold is_u32 in Hd; nia).
  rewrite u64_small, (lor_add _ _ a) by (apply pad_aligned || (unfold is_u64; lia)). nia.
Qed.

Lemma pad_part : a <= 32 -> is_u32 d ->
  Z.lor (hi * 2 ^ a - 2 ^ 52) (Z.shiftr d (DATA_BITS - a)) = hi * 2 ^ a + d / 2 ^ (32 - a) - 2 ^ 52 /\
  hi * 2 ^ a + d / 2 ^ (32 - a) < 2 ^ 53 /\ 0 <= d / 2 ^ (32 - a).
Proof.
  intros Ha' Hd. unfold DATA_BITS. rewrite Z.shiftr_div_pow2 by lia. pose proof (pow2_pos (32 - a) ltac:(lia)).
  assert (0 <= d / 2 ^ (32 - a) < 2 ^ a) as Hr.
  { unfold is_u32 in Hd. rewrite (BASE_split a) in Hd by lia.
    split; [apply Z.div_pos; lia|apply Z.div_lt_upper_bound; lia]. }
  rewrite (lor_add _ _ a) by (apply pad_aligned || lia).
  assert (2 ^ 53 = 2 ^ (53 - a) * 2 ^ a) as E by (rewrite <- Z.pow_add_r by lia; f_equal; lia).
  assert (hi < 2 ^ (53 - a)) by (apply (Z.mul_lt_mono_pos_r (2 ^ a)); lia).
  split_and!; [lia|rewrite E; nia|lia].
Qed.
End Pad.

(** The last digit that reaches into the fraction, and the rounding that follows it. *)
Lemma finishRound x s hi a d j sh t e : sh = 32 - a -> t = 32 - a -> e = 32 * Z.of_nat j + (32 - a) + 52 -> Forall is_u32 (data x) -> data x !! j = Some d ->
  hi = eval (drop (S j) (data x)) -> 1 <= a <= 31 -> 2 ^ 52 <= hi * 2 ^ a < 2 ^ 53 ->
  e <= 1023 ->
  roundDigit x (signBits s) (Z.lor (hi * 2 ^ a - 2 ^ 52) (Z.shiftr d sh)) e d t (Z.of_nat j)
  = Ok (signBits s + nearestEven (eval (data x))).
Proof.
  intros -> -> -> Hx Hd Ehi Ha HQ He. pose proof (digit_range _ _ _ Hx Hd) as Hr. change 32 with DATA_BITS at 1.
  destruct (pad_part hi a d ltac:(lia) HQ ltac:(lia) Hr) as (-> & Hub & Hnn).
  apply roundDigit_eq; auto; try lia. pose proof (lookup_lt_Some _ _ _ Hd).
  rewrite (eval_take_drop (data x) j), (eval_drop_S _ _ _ Hd), <- Ehi by lia.
  rewrite Z.pow_add_r, <- pw_bits, (BASE_split a) by lia.
  pose proof (Z.div_mod d (2 ^ (32 - a)) ltac:(pose proof (pow2_pos (32 - a)); lia)). nia.
Qed.

(** No rounding: at most 53 bits. *)
Lemma exactPattern n Q s e : 0 < n -> Z.log2 n = e -> e <= 52 -> Q = n * 2 ^ (52 - e) ->
  CalculateNumber (signBits s) (Q - 2 ^ 52) e = signBits s + nearestEven n.
Proof.
  intros Hn He Hle ->. pose proof (Z.log2_nonneg n). pose proof (Z.log2_spec n Hn) as [Hl1 Hl2]. rewrite He in *.
  rewrite Z.pow_succ_r in Hl2 by lia. pose proof (pow2_pos (52 - e) ltac:(lia)).
  assert (2 ^ 52 = 2 ^ e * 2 ^ (52 - e)) as E by (rewrite <- Z.pow_add_r by lia; f_equal; lia).
  rewrite CalculateNumber_eq by nia. unfold nearestEven. rewrite He.
  destruct (Z.ltb_spec 1023 e); [lia|]. destruct (Z.leb_spec e 52); lia.
Qed.

Lemma eval_drop_last l n h : length l = S n -> l !! n = Some h -> eval (drop n l) = h.
Proof. intros Hl Hh. rewrite (eval_drop_S _ _ _ Hh), drop_ge by lia. cbn. lia. Qed.

(** What [BigIntToNumber] does after the head digit [h] of a number of [m + 2] digits. *)
Definition convertTail (x : BigInt) (s : bool) (h e : Z) (m : nat) : result JSTaggedValue :=
  let mantissa := h * 2 ^ (52 - Z.log2 h) - 2 ^ 52 in
  let remainMantissaBits := 52 - Z.log2 h in
  let index := Z.of_nat m in
  digit ← GetDigit x (Z.to_nat index);
  let '(mantissa, remainMantissaBits, index) :=
    if DATA_BITS <=? remainMantissaBits
    then (Z.lor mantissa (u64 (Z.shiftl digit (remainMantissaBits - DATA_BITS))),
          remainMantissaBits - DATA_BITS, index - 1)
    else (mantissa, remainMantissaBits, index) in
  '(mantissa, remainMantissaBits, digit) ←
    (if (0 <? remainMantissaBits) && (0 <=? index)
     then digit ← GetDigit x (Z.to_nat index);
          Ok (Z.lor mantissa (Z.shiftr digit (DATA_BITS - remainMantissaBits)),
              remainMantissaBits - DATA_BITS, digit)
     else Ok (mantissa, remainMantissaBits, digit));
  if 0 <? remainMantissaBits then Ok (Double (CalculateNumber (signBits s) mantissa e)) else
  if remainMantissaBits <? 0
  then d ← roundDigit x (signBits s) mantissa e digit (- remainMantissaBits) index; Ok (Double d)
  else if index <=? 0 then Ok (Double (CalculateNumber (signBits s) mantissa e))
  else
    digit ← GetDigit x (Z.to_nat index);
    d ← roundDigit x (signBits s) mantissa e digit DATA_BITS (index - 1); Ok (Double d).

(** The two shapes of a number of two or more digits with head [h]. *)
Section Convert.
  Variables (x : BigInt) (h : Z) (m : nat).
  Hypothesis Hx : wf x.
  Hypothesis Hlen : GetLength x = S (S m).
  Hypothesis Hh : data x !! S m = Some h.
  Hypothesis Hpos : 0 < h.
  Hypothesis Hlog : Z.log2 (eval (data x)) = 32 * Z.of_nat (S m) + Z.log2 h.

Let k := Z.log2 h.
Let e := Z.log2 (eval (data x)).

Lemma head_log : 0 <= k < 32 /\ 2 ^ 52 <= h * 2 ^ (52 - k) < 2 ^ 53.
Proof.
  pose proof (digit_range _ _ _ (wf_digits _ Hx) Hh) as Hr. unfold is_u32, BASE in Hr.
  pose proof (Z.log2_spec h Hpos) as [Hl1 Hl2]. fold k in Hl1, Hl2. pose proof (Z.log2_nonneg h) as H0. fold k in H0.
  assert (k < 32) by (apply Z.log2_lt_pow2; lia). split; [lia|]. rewrite Z.pow_succ_r in Hl2 by lia.
  replace (2 ^ 53) with (2 * 2 ^ 52) by lia.
  replace (2 ^ 52) with (2 ^ k * 2 ^ (52 - k)) by (rewrite <- Z.pow_add_r by lia; f_equal; lia).
  pose proof (pow2_pos (52 - k) ltac:(lia)). nia.
Qed.

Lemma second_digit : exists d1, data x !! m = Some d1 /\ is_u32 d1 /\ eval (drop m (data x)) = h * BASE + d1.
Proof.
  unfold GetLength in Hlen. destruct (lookup_lt_is_Some_2 (data x) m) as [d1 Hd1]; [lia|]. exists d1.
  split_and!; [done|by apply (digit_range _ _ _ (wf_digits _ Hx) Hd1)|].
  rewrite (eval_drop_S _ _ _ Hd1), (eval_drop_last _ _ h) by done. lia.
Qed.

Lemma convertTail_returns s : e <= 1023 -> k <> 20 \/ m = 0%nat ->
  convertTail x s h e m = Ok (Double (signBits s + nearestEven (eval (data x)))).
Proof.
  intros He Hk. unfold convertTail. cbv zeta. fold k. destruct head_log as [Hk32 HQ]. destruct second_digit as (d1 & Hd1 & Hr1 & Ed1).
  unfold GetDigit, get. rewrite Nat2Z.id, Hd1. cbn [mbind result_bind].
  assert (e = 32 * Z.of_nat (S m) + k) as Ee by apply Hlog.
  assert (0 < eval (data x)) as Hev.
  { destruct (Z.lt_ge_cases 0 (eval (data x))); [done|]. unfold e in Ee. rewrite Z.log2_nonpos in Ee; lia. }
  destruct (Z.leb_spec DATA_BITS (52 - k)) as [Hle|Hlt]; unfold DATA_BITS in Hle || unfold DATA_BITS in Hlt; cycle 1.
  - (* the second digit ends the fraction *)
    destruct (Z.ltb_spec 0 (52 - k)); [|lia]. destruct (Z.leb_spec 0 (Z.of_nat m)); [|lia]. cbn [andb].
    rewrite Nat2Z.id, Hd1. cbn [mbind result_bind]. unfold DATA_BITS.
    destruct (Z.ltb_spec 0 (52 - k - 32)); [lia|]. destruct (Z.ltb_spec (52 - k - 32) 0); [|lia].
    rewrite (finishRound x s h (52 - k) d1 m); auto using wf_digits; try lia. symmetry. by apply eval_drop_last.
  - rewrite pad_digit by (done || lia). unfold DATA_BITS. replace (52 - k - 32) with (20 - k) by lia.
    assert (2 ^ 52 <= (h * BASE + d1) * 2 ^ (20 - k) < 2 ^ 53) as HQ1.
    { replace (52 - k) with (32 + (20 - k)) in HQ by lia. rewrite Z.pow_add_r in HQ by lia. fold BASE in HQ.
      unfold is_u32 in Hr1. pose proof (pow2_pos (20 - k) ltac:(lia)). split; [nia|].
      assert (2 ^ 53 = 2 ^ (1 + k) * BASE * 2 ^ (20 - k)) as E
        by (unfold BASE; rewrite <- !Z.pow_add_r by lia; f_equal; lia).
      pose proof (Z.log2_spec h Hpos) as [_ Hl2]. fold k in Hl2. rewrite <- Z.add_1_l in Hl2.
      rewrite E. apply Z.mul_lt_mono_pos_r; [done|]. nia. }
    destruct m as [|m'].
    + (* two digits: exact *)
      replace ((0 <? 20 - k) && (0 <=? Z.of_nat 0 - 1)) with false by (destruct (0 <? 20 - k); done). cbn [mbind result_bind].
      rewrite (exactPattern (eval (data x)) _ s e); [|done|done|lia|].
      * destruct (0 <? 20 - k); [done|]. destruct (Z.ltb_spec (20 - k) 0); [lia|done].
      * rewrite drop_0 in Ed1. rewrite Ed1. do 2 f_equal. lia.
    + destruct Hk as [Hk|]; [|lia]. destruct (Z.ltb_spec 0 (20 - k)); [|lia].
      destruct (Z.leb_spec 0 (Z.of_nat (S m') - 1)); [|lia]. cbn [andb].
      replace (Z.of_nat (S m') - 1) with (Z.of_nat m') by lia. rewrite Nat2Z.id.
      destruct (lookup_lt_is_Some_2 (data x) m') as [d2 Hd2]; [unfold GetLength in Hlen; lia|].
      rewrite Hd2. cbn [mbind result_bind].
      destruct (Z.ltb_spec 0 (20 - k - 32)); [lia|]. destruct (Z.ltb_spec (20 - k - 32) 0); [|lia].
      rewrite (finishRound x s (h * BASE + d1) (20 - k) d2 m'); auto using wf_digits; lia.
Qed.
End Convert.

(** The values on which the rounding reads every digit: those whose bit length is not 21 modulo
    32, and those of at most two digits. *)
Definition roundsAll (n : Z) : Prop := Z.log2 n mod 32 <> 20 \/ n < 2 ^ 64.

(** The conversion up to the head digit. *)
Lemma BigIntToNumber_head x h : wf x -> toZ x <> 0 -> data x !! (GetLength x - 1)%nat = Some h ->
  0 < h /\ Z.log2 (eval (data x)) = 32 * Z.of_nat (GetLength x - 1) + Z.log2 h /\
  BigIntToNumber x =
    (if 1023 <? Z.log2 (eval (data x)) then Ok (Double (signBits (Sign x) + nearestEven (eval (data x)))) else
     match GetLength x with
     | S (S m) => convertTail x (Sign x) h (Z.log2 (eval (data x))) m
     | _ => Ok (Double (signBits (Sign x) + nearestEven (eval (data x))))
     end).
Proof.
  intros Hx Hnz Hh. pose proof (wf_pos _ Hx) as Hp. destruct (head_bits x h Hx Hnz Hh) as (Hbits & Hlz & Hpos).
  assert (CountLeadingZeros h = 31 - Z.log2 h) as Ecl.
  { unfold CountLeadingZeros. destruct (Z.eqb_spec h 0); [lia|done]. }
  pose proof (digit_range _ _ _ (wf_digits _ Hx) Hh) as Hr. pose proof (Z.log2_nonneg h) as Hk0.
  assert (0 < eval (data x)) as Hev by (rewrite wf_abs by done; lia).
  split_and!; [done|unfold DATA_BITS in Hbits; rewrite Ecl in Hbits; lia|]. unfold BigIntToNumber.
  rewrite IsZero_eq, bool_decide_false by done. cbn [mbind result_bind].
  assert (GetDigit x (GetLength x - 1) = Ok h) as -> by (unfold GetDigit, get; by rewrite Hh). cbn [mbind result_bind].
  rewrite Hbits. unfold DOUBLE_EXPONENT_BIAS, GetSign.
  destruct (Z.ltb_spec (1023 + 1) (Z.log2 (eval (data x)) + 1)) as [H1|H1], (Z.ltb_spec 1023 (Z.log2 (eval (data x)))); try lia.
  { unfold nearestEven. destruct (Z.ltb_spec 1023 (Z.log2 (eval (data x)))); [|lia]. by destruct (Sign x). }
  change (if Sign x then DOUBLE_SIGN_MASK else 0) with (signBits (Sign x)).
  rewrite headMantissa by (unfold is_u32 in Hr; lia). rewrite Z.add_simpl_r.
  unfold DATA_BITS in Hbits. rewrite Ecl in *. destruct (GetLength x) as [|[|m]] eqn:El; [lia| |].
  - destruct (Z.leb_spec (Z.of_nat 1 - 1) 0); [|lia]. unfold GetLength in El. cbn in Hh.
    assert (eval (data x) = h) as Eh by (rewrite <- (eval_drop_last (data x) 0 h El Hh); by rewrite drop_0).
    rewrite Eh in *. by rewrite (exactPattern h _ _ _ Hev eq_refl ltac:(lia) eq_refl).
  - destruct (Z.leb_spec (Z.of_nat (S (S m)) - 1) 0); [lia|].
    replace (Z.of_nat (S (S m)) - 1 - 1) with (Z.of_nat m) by lia.
    by replace (31 - Z.log2 h + DATA_BITS + 1 - 12) with (52 - Z.log2 h) by (unfold DATA_BITS; lia).
Qed.

Lemma BigIntToNumber_returns x : wf x -> roundsAll (Z.abs (toZ x)) -> toZ x <> 0 ->
  BigIntToNumber x = Ok (Double (signBits (Sign x) + nearestEven (eval (data x)))).
Proof.
  intros Hx Hra Hnz. pose proof (wf_pos _ Hx) as Hp.
  destruct (lookup_lt_is_Some_2 (data x) (GetLength x - 1)) as [h Hh]; [unfold GetLength in *; lia|].
  destruct (BigIntToNumber_head x h Hx Hnz Hh) as (Hpos & Hlog & ->). destruct (Z.ltb_spec 1023 (Z.log2 (eval (data x)))); [done|].
  destruct (GetLength x) as [|[|m]] eqn:El; [done|done|]. replace (S (S m) - 1)%nat with (S m) in * by lia.
  pose proof (digit_range _ _ _ (wf_digits _ Hx) Hh) as Hr. pose proof (Z.log2_nonneg h).
  assert (Z.log2 h < 32) by (apply Z.log2_lt_pow2; unfold is_u32, BASE in *; lia).
  apply (convertTail_returns x h m); auto; try lia. rewrite <- wf_abs in Hra by done. destruct Hra as [Hra|Hra]; [left|right].
  - intros E. apply Hra. symmetry. apply (Z.mod_unique _ _ (Z.of_nat (S m))); lia.
  - assert (Z.log2 (eval (data x)) < 64) by (apply Z.log2_lt_pow2; [rewrite wf_abs by done; lia|done]). lia.
Qed.

(** C32: [BigIntToNumber] returns the double nearest to the integer, ties to even, infinity from
    the halfway point past the largest double on, for both signs, for every BigInt whose bit
    length is not 21 modulo 32 and every BigInt of at most 64 bits; zero is the integer 0. *)
Theorem BigIntToNumber_correct x : wf x -> roundsAll (Z.abs (toZ x)) ->
  BigIntToNumber x =
    Ok (if toZ x =? 0 then Int 0 else Double (signBits (toZ x <? 0) + nearestEven (Z.abs (toZ x)))).
Proof.
  intros Hx Hra. destruct (Z.eqb_spec (toZ x) 0) as [E|E].
  - unfold BigIntToNumber. by rewrite IsZero_eq, bool_decide_true.
  - by rewrite BigIntToNumber_returns, wf_abs, wf_sign.
Qed.

Lemma BigIntToNumber_correct_witness :
  BigIntToNumber (mkBigInt true [1; 0; 2 ^ 31]) = Ok (Double (signBits true + nearestEven (2 ^ 95 + 1))).
Proof.
  apply (BigIntToNumber_correct (mkBigInt true [1; 0; 2 ^ 31])); [apply wfb_wf; by vm_compute|].
  left. by vm_compute.
Defined.

(** ** The digit that is skipped *)

(** The digit that the rounding does not read, for a bit length of 21 modulo 32: the one below the
    rounding digit, or the rounding digit itself when it is the lowest of three digits. *)
Definition skipDigit (x : BigInt) : BigInt := mkBigInt (Sign x) (<[(GetLength x - 4)%nat := 0]> (data x)).

(** The three digits on top, when the head has 21 bits: the first two are the 53 bits of the mantissa. *)
Section Skip.
  Variables (x : BigInt) (h d1 d : Z) (j : nat).
  Hypothesis Hx : Forall is_u32 (data x).
  Hypothesis Hlen : GetLength x = S (S (S j)).
  Hypothesis Hh : data x !! S (S j) = Some h.
  Hypothesis Hd1 : data x !! S j = Some d1.
  Hypothesis Hd : data x !! j = Some d.
  Hypothesis Hpos : 0 < h.
  Hypothesis Hk : Z.log2 h = 20.

Let e := 32 * Z.of_nat j + 32 + 52.
Let Q := h * BASE + d1.

Lemma top_range : 2 ^ 52 <= Q < 2 ^ 53.
Proof.
  pose proof (Z.log2_spec h Hpos) as [H1 H2]. rewrite Hk in H1, H2. pose proof (digit_range _ _ _ Hx Hd1) as Hr. unfold is_u32 in Hr.
  unfold Q. change (2 ^ 53) with (2 ^ Z.succ 20 * BASE). change (2 ^ 52) with (2 ^ 20 * BASE). nia.
Qed.

Lemma top_eval : eval (data x) = Q * 2 ^ (32 * Z.of_nat j + 32) + ((d mod 2 ^ 32) * pw j + evalp (data x) j).
Proof.
  unfold GetLength in Hlen. rewrite (eval_take_drop (data x) j), (eval_drop_S _ _ _ Hd), (eval_drop_S _ _ _ Hd1), (eval_drop_last _ _ h) by (done || lia).
  pose proof (digit_range _ _ _ Hx Hd) as Hr. rewrite (Z.mod_small d) by (exact Hr). rewrite Z.pow_add_r, <- pw_bits by lia.
  change (2 ^ 32) with BASE. unfold Q. lia.
Qed.

(** The nearest double, by the rounding digit and what is below it. *)
Lemma top_nearest : e <= 1023 -> nearestEven (eval (data x)) = (e + 1023) * 2 ^ 52 + (Q - 2 ^ 52) +
  (if Z.testbit d 31 && (negb (d mod 2 ^ 31 * pw j + evalp (data x) j =? 0) || Z.odd d1) then 1 else 0).
Proof.
  intros He. rewrite (nearestEven_low x Q d 32 j Hx Hd ltac:(lia) top_range top_eval He). change (32 - 1) with 31.
  rewrite odd_sub_hidden. unfold Q. rewrite Z.odd_add, Z.odd_mul, andb_false_r. done.
Qed.

Lemma convertTail_skips s : convertTail x s h e (S j) =
  if (j =? 0)%nat then Ok (Double (CalculateNumber (signBits s) (Q - 2 ^ 52) e))
  else r ← roundDigit x (signBits s) (Q - 2 ^ 52) e d 32 (Z.of_nat (j - 1)); Ok (Double r).
Proof.
  unfold convertTail. cbv zeta. rewrite Hk. unfold GetDigit, get. rewrite Nat2Z.id, Hd1. cbn [mbind result_bind].
  pose proof top_range as HQ. pose proof (digit_range _ _ _ Hx Hd1) as Hr.
  assert (2 ^ 52 <= h * 2 ^ (52 - 20) < 2 ^ 53) as Hh53.
  { pose proof (Z.log2_spec h Hpos) as [H1 H2]. rewrite Hk in H1, H2. change (52 - 20) with 32. nia. }
  rewrite pad_digit by (done || lia).
  change (DATA_BITS <=? 52 - 20) with true. change (52 - 20 - DATA_BITS) with 0. change (52 - 20 - 32) with 0. cbn [Z.ltb Z.compare andb mbind result_bind].
  rewrite Z.mul_1_r. fold Q. destruct (Z.leb_spec (Z.of_nat (S j) - 1) 0), (Nat.eqb_spec j 0); try lia; [done|].
  replace (Z.of_nat (S j) - 1) with (Z.of_nat j) by lia. rewrite Nat2Z.id, Hd. cbn [mbind result_bind].
  by replace (Z.of_nat j - 1) with (Z.of_nat (j - 1)) by lia.
Qed.

(** The digits without the skipped one. *)
Lemma skipDigit_digits : Forall is_u32 (data (skipDigit x)) /\ GetLength (skipDigit x) = S (S (S j)) /\
  data (skipDigit x) !! S (S j) = Some h /\ data (skipDigit x) !! S j = Some d1 /\
  data (skipDigit x) !! j = Some (if (j =? 0)%nat then 0 else d) /\
  evalp (data (skipDigit x)) j = evalp (data x) (j - 1).
Proof.
  unfold skipDigit, GetLength in *. cbn [data]. rewrite Hlen. replace (S (S (S j)) - 4)%nat with (j - 1)%nat by lia.
  split_and!; [|by rewrite length_insert|by rewrite list_lookup_insert_ne by lia|by rewrite list_lookup_insert_ne by lia| |].
  - apply Forall_insert; [done|]. unfold is_u32, BASE. lia.
  - destruct (Nat.eqb_spec j 0) as [->|]; [by rewrite list_lookup_insert_eq by lia|by rewrite list_lookup_insert_ne by lia].
  - destruct (Nat.eqb_spec j 0) as [->|]; [done|]. replace j with (S (j - 1)) at 2 by lia. rewrite evalp_insert_S by lia. lia.
Qed.
End Skip.

Lemma roundDigit_skips x h d1 d j s m e t : Forall is_u32 (data x) -> GetLength x = S (S (S j)) -> data x !! S (S j) = Some h ->
  data x !! S j = Some d1 -> data x !! j = Some d -> j <> 0%nat ->
  roundDigit x s m e d t (Z.of_nat (j - 1)) = roundDigit (skipDigit x) s m e d t (Z.of_nat j).
Proof.
  intros Hx Hlen Hh Hd1 Hd Hj. destruct (skipDigit_digits x h d1 d j Hx Hlen Hh Hd1 Hd) as (Hy & Hylen & _ & _ & _ & Hev).
  unfold roundDigit. rewrite !Nat2Z.id, !anyDigitBelow_returns by (done || lia). by rewrite Hev.
Qed.

(** The values whose answer is wrong: the rounding digit decides to go up, or the digit below it is
    what makes the number more than the middle. *)
Definition misrounded (x : BigInt) : bool :=
  let n := GetLength x in
  let digit i := default 0 (data x !! i) in
  if (n =? 3)%nat then (2 ^ 31 <? digit 0%nat) || ((digit 0%nat =? 2 ^ 31) && Z.odd (digit 1%nat))
  else (digit (n - 3)%nat =? 2 ^ 31) && negb (digit (n - 4)%nat =? 0) && (evalp (data x) (n - 4) =? 0) && Z.even (digit (n - 2)%nat).

Lemma misrounded_eq x d1 d j : Forall is_u32 (data x) -> GetLength x = S (S (S j)) -> data x !! S j = Some d1 -> data x !! j = Some d ->
  Z.b2z (misrounded x) =
  (if Z.testbit d 31 && (negb (d mod 2 ^ 31 * pw j + evalp (data x) j =? 0) || Z.odd d1) then 1 else 0) -
  (let d' := if (j =? 0)%nat then 0 else d in
   if Z.testbit d' 31 && (negb (d' mod 2 ^ 31 * pw j + evalp (data x) (j - 1) =? 0) || Z.odd d1) then 1 else 0).
Proof.
  intros Hx Hlen Hd1 Hd. unfold misrounded. rewrite Hlen. pose proof (digit_range _ _ _ Hx Hd) as Hr. unfold is_u32, BASE in Hr.
  pose proof (low_split d 32 ltac:(lia)) as E. rewrite (Z.mod_small d) in E by lia. change (32 - 1) with 31 in E.
  pose proof (Z.mod_pos_bound d (2 ^ 31) ltac:(lia)) as Hlow. unfold GetLength in Hlen. destruct j as [|j].
  - rewrite Hd, Hd1. cbn [Nat.eqb default id]. rewrite evalp_0, pw_0, Z.bits_0, Z.mul_1_r, Z.add_0_r. cbn [andb].
    revert E. destruct (Z.testbit d 31), (Z.ltb_spec (2 ^ 31) d), (Z.eqb_spec d (2 ^ 31)), (Z.eqb_spec (d mod 2 ^ 31) 0), (Z.odd d1); intros E; try lia; done.
  - destruct (lookup_lt_is_Some_2 (data x) j) as [sk Hsk]; [lia|]. pose proof (digit_range _ _ _ Hx Hsk) as Hs. unfold is_u32 in Hs.
    replace (S (S (S (S j))) - 3)%nat with (S j) by lia. replace (S (S (S (S j))) - 4)%nat with j by lia. replace (S (S (S (S j))) - 2)%nat with (S (S j)) by lia.
    rewrite Hd, Hd1, Hsk, (evalp_S _ _ _ Hsk). replace (S j - 1)%nat with j by lia. cbn [Nat.eqb default id]. rewrite <- Z.negb_odd.
    pose proof (evalp_bounds (data x) j Hx ltac:(lia)) as Hev. pose proof (pw_pos j). pose proof (pw_pos (S j)).
    assert (0 <= pw j * sk) by nia. assert (pw j * sk = 0 <-> sk = 0) by nia. assert (0 <= d mod 2 ^ 31 * pw (S j)) by nia.
    assert (d mod 2 ^ 31 * pw (S j) = 0 <-> d mod 2 ^ 31 = 0) by nia.
    revert E. destruct (Z.testbit d 31), (Z.eqb_spec d (2 ^ 31)), (Z.eqb_spec sk 0), (Z.eqb_spec (evalp (data x) j) 0),
      (Z.eqb_spec (d mod 2 ^ 31 * pw (S j) + (evalp (data x) j + pw j * sk)) 0), (Z.eqb_spec (d mod 2 ^ 31 * pw (S j) + evalp (data x) j) 0), (Z.odd d1); intros E; try lia; done.
Qed.

(** The digits of a number of more than 64 bits, 21 of them in the head. *)
Lemma skip_shape x : wf x -> Z.log2 (Z.abs (toZ x)) mod 32 = 20 -> 2 ^ 64 <= Z.abs (toZ x) -> exists h d1 d j,
  GetLength x = S (S (S j)) /\ data x !! S (S j) = Some h /\ data x !! S j = Some d1 /\ data x !! j = Some d /\ 0 < h /\ Z.log2 h = 20 /\
  Z.log2 (eval (data x)) = 32 * Z.of_nat j + 32 + 52.
Proof.
  intros Hx Hm Hge. pose proof (wf_pos _ Hx) as Hp. destruct (lookup_lt_is_Some_2 (data x) (GetLength x - 1)) as [h Hh]; [unfold GetLength in *; lia|].
  destruct (BigIntToNumber_head x h Hx ltac:(lia) Hh) as (Hpos & Hlog & _). rewrite <- wf_abs in * by done.
  pose proof (digit_range _ _ _ (wf_digits _ Hx) Hh) as Hr. pose proof (Z.log2_nonneg h).
  assert (Z.log2 h < 32) by (apply Z.log2_lt_pow2; unfold is_u32, BASE in *; lia).
  assert (Z.log2 h = 20) as Hk by (rewrite <- Hm, Hlog; apply (Z.mod_unique _ _ (Z.of_nat (GetLength x - 1))); lia).
  assert (64 <= Z.log2 (eval (data x))) by (apply Z.log2_le_pow2; lia).
  destruct (GetLength x) as [|[|[|j]]] eqn:El; try lia. unfold GetLength in El. replace (S (S (S j)) - 1)%nat with (S (S j)) in * by lia.
  destruct (lookup_lt_is_Some_2 (data x) (S j)) as [d1 Hd1]; [lia|]. destruct (lookup_lt_is_Some_2 (data x) j) as [d Hd]; [lia|].
  exists h, d1, d, j. split_and!; try done. lia.
Qed.

(** C34: The conversion of a BigInt of more than 64 bits, whose bit length is 21 modulo 32, reads one digit
    as zero: the rounding digit when there are three digits, otherwise the digit below it.  So its
    answer is the double nearest to another number, one less than the right one (in its pattern) exactly
    for the misrounded values, which the theorem names by their digits. *)
Theorem BigIntToNumber_skips_digits x : wf x -> Z.log2 (Z.abs (toZ x)) mod 32 = 20 -> 2 ^ 64 <= Z.abs (toZ x) < 2 ^ 1024 ->
  BigIntToNumber x = Ok (Double (signBits (Sign x) + nearestEven (eval (data (skipDigit x))))) /\
  nearestEven (Z.abs (toZ x)) = nearestEven (eval (data (skipDigit x))) + Z.b2z (misrounded x).
Proof.
  intros Hx Hm [Hge Hlt]. destruct (skip_shape x Hx Hm Hge) as (h & d1 & d & j & Hlen & Hh & Hd1 & Hd & Hpos & Hk & Hlog).
  pose proof (wf_digits _ Hx) as Hdig. rewrite <- wf_abs in * by done.
  assert (Z.log2 (eval (data x)) < 1024) as He by (apply Z.log2_lt_pow2; lia). rewrite Hlog in He.
  destruct (skipDigit_digits x h d1 d j Hdig Hlen Hh Hd1 Hd) as (Sdig & Slen & Sh & Sd1 & Sd & Sev).
  pose proof (top_range x h d1 j Hdig Hlen Hd1 Hpos Hk) as HQ. split.
  - destruct (BigIntToNumber_head x h Hx) as (_ & _ & ->); [unfold toZ; destruct (Sign x); lia|by rewrite Hlen|].
    rewrite Hlog, Hlen. destruct (Z.ltb_spec 1023 (32 * Z.of_nat j + 32 + 52)); [lia|].
    rewrite (convertTail_skips x h d1 d j Hdig Hlen Hd1 Hd Hpos Hk). destruct (Nat.eqb_spec j 0) as [->|Hj].
    + rewrite CalculateNumber_eq by lia. rewrite (top_nearest _ h d1 0 0) by (done || lia). do 2 f_equal. cbn [andb Z.testbit]. lia.
    + rewrite (roundDigit_skips x h d1) by done. rewrite (roundDigit_eq (skipDigit x) _ (h * BASE + d1) d 32 j); [done|done|done|lia|done| |lia].
      by apply (top_eval _ h d1 d j).
  - rewrite (top_nearest x h d1 d j) by (done || lia). rewrite (top_nearest (skipDigit x) h d1 _ j Sdig Slen Sh Sd1 Sd Hpos Hk) by lia.
    rewrite Sev, (misrounded_eq x d1 d j) by done. cbv zeta. ring.
Qed.

Lemma BigIntToNumber_skips_digits_witness :
  BigIntToNumber (mkBigInt true [2 ^ 31; 2 ^ 31; 0; 2 ^ 20]) = Ok (Double (signBits true + nearestEven (2 ^ 116 + 2 ^ 63))) /\
  nearestEven (2 ^ 116 + 2 ^ 63 + 2 ^ 31) = nearestEven (2 ^ 116 + 2 ^ 63) + 1.
Proof.
  apply (BigIntToNumber_skips_digits (mkBigInt true [2 ^ 31; 2 ^ 31; 0; 2 ^ 20])); [apply wfb_wf; by vm_compute|by vm_compute|].
  split; [by vm_compute|by vm_compute].
Defined.
