(* ===== verification/NumberHelper.v ===== *)
(** * Number conversions

    [NumberHelper::DoubleToInt], [DoubleInRangeInt32] and [SaturateTruncDoubleToInt32] of
    src/ecmascript/base/number_helper.cpp, the integer conversions [ToInt32], [ToUint32],
    [ToInt16], [ToUint16], [ToInt8] and [ToUint8] of src/ecmascript/js_tagged_value.cpp on
    Numbers, and [IntLexicographicCompare] of the same file, the order of the default sort. *)

From Stdlib Require Import ZArith Lia.
From S2P Require Import Prelude BigIntBase BigIntDiv Double Values BigIntNum.

(** ** Model *)

(** [static_cast<int32_t>(d)] for a value that fits: truncation toward zero. *)
Definition truncCast (d : Z) : Z := match scaled d with Some s => Z.quot s ONE | None => 0 end.

Definition INT32_MIN : Z := - 2 ^ 31.
Definition INT_MAX : Z := 2 ^ 31 - 1.
Definition INT64_BITS : Z := 64.

Definition DoubleToInt (d bits : Z) : Z :=
  let exp := Z.shiftr (Z.land d DOUBLE_EXPONENT_MASK) DOUBLE_SIGNIFICAND_SIZE - DOUBLE_EXPONENT_BIAS in
  if exp <? bits - 1 then truncCast d
  else if exp <? bits + DOUBLE_SIGNIFICAND_SIZE then
    let value :=
      Z.shiftr (u64 (Z.shiftl (Z.lor (Z.land d DOUBLE_SIGNIFICAND_MASK) DOUBLE_HIDDEN_BIT)
                       (exp - DOUBLE_SIGNIFICAND_SIZE + INT64_BITS - bits)))
        (INT64_BITS - bits) in
    let ret := i32 value in
    if (Z.land d DOUBLE_SIGN_MASK =? DOUBLE_SIGN_MASK) && negb (ret =? INT32_MIN) then - ret else ret
  else 0.

(** The signed reading of the low [bits] bits. *)
Definition wrapBits (bits z : Z) : Z := let m := z mod 2 ^ bits in if m <? 2 ^ (bits - 1) then m else m - 2 ^ bits.

(** The operand is a Number, so [ToNumber] returns it. *)
Definition ToInt32 (number : JSTaggedValue) : Z := DoubleToInt (GetNumber number) 32.
Definition ToUint32 (number : JSTaggedValue) : Z := u32 (ToInt32 number).
Definition ToInt16 (number : JSTaggedValue) : Z := wrapBits 16 (DoubleToInt (GetNumber number) 16).
Definition ToUint16 (number : JSTaggedValue) : Z := ToInt16 number mod 2 ^ 16.
Definition ToInt8 (number : JSTaggedValue) : Z := wrapBits 8 (DoubleToInt (GetNumber number) 8).
Definition ToUint8 (number : JSTaggedValue) : Z := ToInt8 number mod 2 ^ 8.

Definition DoubleInRangeInt32 (d : Z) : Z :=
  if negb (num_lt (ofDouble d) (ofInt INT_MAX)) && negb (isnan d) then INT_MAX else
  if negb (num_lt (ofInt INT32_MIN) (ofDouble d)) && negb (isnan d) then INT32_MIN else
  DoubleToInt d 32.

Definition SaturateTruncDoubleToInt32 (d : Z) : Z :=
  if isnan d || (isinf d && signbit d) then 0 else DoubleInRangeInt32 d.

Definition POWERS_OF_10 : list Z :=
  [1; 10; 100; 1000; 10 * 1000; 100 * 1000; 1000 * 1000; 10 * 1000 * 1000; 100 * 1000 * 1000; 1000 * 1000 * 1000].

(** [xDigit], one less than the number of decimal digits of [unsignedX]. *)
Definition decimalDigit (unsignedX : Z) : result Z :=
  let xLog2 := 31 - CountLeadingZeros unsignedX in
  let xDigit := Z.shiftr ((xLog2 + 1) * 1233) 12 in
  p ← get POWERS_OF_10 (Z.to_nat xDigit);
  Ok (xDigit - (if unsignedX <? p then 1 else 0)).

Definition NegateWithWraparound (x : Z) : Z := i32 (- x).

Definition IntLexicographicCompare (xValue yValue : Z) : result Z :=
  if xValue =? yValue then Ok 0 else
  if (xValue =? 0) || (yValue =? 0) then Ok (if yValue <? xValue then 1 else -1) else
  if (0 <? yValue) && (xValue <? 0) then Ok (-1) else
  if negb (0 <? yValue) && (0 <? xValue) then Ok 1 else
  let '(unsignedX, unsignedY) :=
    if 0 <? yValue then (u32 xValue, u32 yValue)
    else (u32 (NegateWithWraparound xValue), u32 (NegateWithWraparound yValue)) in
  xDigit ← decimalDigit unsignedX;
  yDigit ← decimalDigit unsignedY;
  '(unsignedX, unsignedY, res) ←
    (if yDigit <? xDigit then
       p ← get POWERS_OF_10 (Z.to_nat (xDigit - yDigit - 1));
       Ok (unsignedX / 10, u32 (unsignedY * p), 1)
     else Ok (unsignedX, unsignedY, 0));
  '(unsignedX, unsignedY, res) ←
    (if xDigit <? yDigit then
       p ← get POWERS_OF_10 (Z.to_nat (yDigit - xDigit - 1));
       Ok (u32 (unsignedX * p), unsignedY / 10, -1)
     else Ok (unsignedX, unsignedY, res));
  Ok (if unsignedY <? unsignedX then 1 else if unsignedX <? unsignedY then -1 else res).

(** ** Truncation to a width *)

(** The integer part of a Number; NaN and the infinities count as zero. *)
Definition truncated (v : JSTaggedValue) : Z :=
  if isfinite (GetNumber v) then truncCast (GetNumber v) else 0.

Lemma exponent_mask d : Z.shiftr (Z.land d DOUBLE_EXPONENT_MASK) DOUBLE_SIGNIFICAND_SIZE = expo d.
Proof.
  rewrite Z.shiftr_land. rewrite <- (expo_land d). f_equal.
Qed.

Lemma sign_mask d : (Z.land d DOUBLE_SIGN_MASK =? DOUBLE_SIGN_MASK) = signbit d.
Proof.
  unfold DOUBLE_SIGN_MASK, signbit. destruct (Z.testbit d 63) eqn:E.
  - apply Z.eqb_eq. apply Z.bits_inj'. intros i Hi. rewrite Z.land_spec, Z.pow2_bits_eqb by lia.
    destruct (Z.eqb_spec 63 i) as [<-|]; [by rewrite E|apply andb_false_r].
  - apply Z.eqb_neq. intros H. apply (f_equal (fun z => Z.testbit z 63)) in H.
    rewrite Z.land_spec, E, Z.pow2_bits_true in H by lia. done.
Qed.

Lemma truncCast_magn d : isfinite d = true ->
  truncCast d = if signbit d then - (magn d / ONE) else magn d / ONE.
Proof.
  intros Hf. unfold truncCast, scaled, isnan, isfinite in *. destruct (expo d =? 2047); [done|]. cbn [andb].
  pose proof (magn_nonneg d). pose proof ONE_pos. destruct (signbit d).
  - rewrite Z.quot_opp_l, Z.quot_div_nonneg by lia. done.
  - by rewrite Z.quot_div_nonneg by lia.
Qed.

(** The two shifts keep the low [bits] bits of the integer part. *)
Lemma shift_pair m e bits : 0 <= m -> 0 < bits <= 32 -> bits - 1 <= e ->
  Z.shiftr (u64 (Z.shiftl m (e - 52 + 64 - bits))) (64 - bits) = (m * 2 ^ e / 2 ^ 52) mod 2 ^ bits.
Proof.
  intros Hm Hb He. rewrite Z.shiftl_mul_pow2, Z.shiftr_div_pow2 by lia. unfold u64.
  replace (e - 52 + 64 - bits) with (e + 12 - bits) by lia.
  assert (2 ^ 64 = 2 ^ (64 - bits) * 2 ^ bits) as E64 by (rewrite <- Z.pow_add_r by lia; f_equal; lia).
  pose proof (pow2_pos (64 - bits) ltac:(lia)). pose proof (pow2_pos bits ltac:(lia)).
  assert (m * 2 ^ e / 2 ^ 52 = m * 2 ^ (e + 12 - bits) / 2 ^ (64 - bits)) as ->.
  { rewrite <- (Z.div_mul_cancel_r (m * 2 ^ e) (2 ^ 52) (2 ^ 12)) by lia.
    rewrite <- (Z.div_mul_cancel_r (m * 2 ^ (e + 12 - bits)) (2 ^ (64 - bits)) (2 ^ bits)) by lia.
    f_equal; [|lia]. rewrite <- !Z.mul_assoc, <- !Z.pow_add_r by lia. do 2 f_equal. lia. }
  rewrite E64, Z.rem_mul_r by lia. rewrite (Z.mul_comm (2 ^ (64 - bits)) (_ mod _)), Z.div_add by lia.
  rewrite Z.div_small; [done|]. apply Z.mod_pos_bound. lia.
Qed.

Lemma i32_mod z bits : 0 < bits <= 32 -> i32 z mod 2 ^ bits = z mod 2 ^ bits.
Proof.
  intros Hb. assert (exists k, i32 z = z + k * 2 ^ 32) as [k ->].
  { unfold i32. pose proof (Z.div_mod z (2 ^ 32) ltac:(lia)).
    destruct (Z.ltb_spec (z mod 2 ^ 32) (2 ^ 31)); [exists (- (z / 2 ^ 32))|exists (- (z / 2 ^ 32) - 1)]; lia. }
  replace (2 ^ 32) with (2 ^ (32 - bits) * 2 ^ bits) by (rewrite <- Z.pow_add_r by lia; f_equal; lia).
  pose proof (pow2_pos bits ltac:(lia)). rewrite Z.mul_assoc, Z.mod_add by lia. done.
Qed.

Lemma i32_range z : is_i32 (i32 z).
Proof.
  unfold is_i32, i32. pose proof (Z.mod_pos_bound z (2 ^ 32) ltac:(lia)).
  destruct (Z.ltb_spec (z mod 2 ^ 32) (2 ^ 31)); lia.
Qed.

Lemma wrapBits_mod bits a b : a mod 2 ^ bits = b mod 2 ^ bits -> wrapBits bits a = wrapBits bits b.
Proof. unfold wrapBits. by intros ->. Qed.

Lemma wrapBits_32 z : wrapBits 32 z = i32 z.
Proof. reflexivity. Qed.

Lemma i32_small z : is_i32 z -> i32 z = z.
Proof.
  unfold is_i32, i32. intros Hz. destruct (decide (0 <= z)).
  - rewrite Z.mod_small by lia. destruct (Z.ltb_spec z (2 ^ 31)); lia.
  - rewrite <- (Z.mod_unique z (2 ^ 32) (-1) (z + 2 ^ 32)) by lia.
    destruct (Z.ltb_spec (z + 2 ^ 32) (2 ^ 31)); lia.
Qed.

Lemma magn_div d : 1023 <= expo d -> magn d / ONE = (frac d + 2 ^ 52) * 2 ^ (expo d - 1023) / 2 ^ 52.
Proof.
  intros He. rewrite magn_units, ONE_units, div_units by (lia || by vm_compute). rewrite Z.pow_add_r by lia.
  rewrite <- (Z.div_mul_cancel_r _ (2 ^ 52) (2 ^ 12)) by lia. change (2 ^ 64) with (2 ^ 52 * 2 ^ 12). f_equal. lia.
Qed.

Lemma opp_mod_cong a b n : n <> 0 -> a mod n = b mod n -> (- a) mod n = (- b) mod n.
Proof.
  intros Hn H. rewrite <- (Z.sub_0_l a), <- (Z.sub_0_l b), <- Zminus_mod_idemp_r, H, Zminus_mod_idemp_r. done.
Qed.

(** The conversion is the integer part modulo [2 ^ bits]. *)
Lemma DoubleToInt_mod d bits : 0 < bits <= 32 ->
  DoubleToInt d bits mod 2 ^ bits = (if isfinite d then truncCast d else 0) mod 2 ^ bits.
Proof.
  intros Hb. unfold DoubleToInt. rewrite exponent_mask, mantissa_lor, sign_mask. unfold DOUBLE_EXPONENT_BIAS, DOUBLE_SIGNIFICAND_SIZE, INT64_BITS.
  pose proof (pow2_pos bits ltac:(lia)). pose proof (expo_bounds d). pose proof (frac_bounds d).
  destruct (Z.ltb_spec (expo d - 1023) (bits - 1)) as [Hs|Hs].
  { unfold isfinite. destruct (Z.eqb_spec (expo d) 2047); [lia|done]. }
  destruct (Z.ltb_spec (expo d - 1023) (bits + 52)) as [Hm|Hm].
  - assert (isfinite d = true) as Hf by (unfold isfinite; destruct (Z.eqb_spec (expo d) 2047); [lia|done]).
    rewrite Hf, truncCast_magn, magn_div, shift_pair by (done || lia).
    set (A := _ / _). assert (i32 (A mod 2 ^ bits) mod 2 ^ bits = A mod 2 ^ bits) as HA
      by (rewrite i32_mod, Z.mod_mod by lia; done).
    destruct (signbit d); cbn [andb]; [|done].
    destruct (Z.eqb_spec (i32 (A mod 2 ^ bits)) INT32_MIN) as [E|E]; cbn [negb].
    + rewrite E in HA |- *. assert (2 ^ bits <> 0) as Hnz by lia. rewrite <- (opp_mod_cong _ _ _ Hnz HA). unfold INT32_MIN.
      replace (2 ^ 31) with (2 ^ (32 - bits) * 2 ^ bits - 2 ^ 31) at 2 by (rewrite <- Z.pow_add_r by lia; replace (32 - bits + bits) with 32 by lia; lia).
      replace (- - (2 ^ (32 - bits) * 2 ^ bits - 2 ^ 31)) with (- 2 ^ 31 + 2 ^ (32 - bits) * 2 ^ bits) by lia.
      by rewrite Z.mod_add by lia.
    + apply opp_mod_cong; [lia|done].
  - destruct (isfinite d) eqn:Hf; [|done]. rewrite truncCast_magn, magn_div by (done || lia).
    assert (((frac d + 2 ^ 52) * 2 ^ (expo d - 1023) / 2 ^ 52) mod 2 ^ bits = 0) as HA.
    { replace (expo d - 1023) with ((expo d - 1023 - 52 - bits) + bits + 52) by lia.
      rewrite !Z.pow_add_r, !Z.mul_assoc, Z.div_mul by lia. by rewrite Z.mod_mul by lia. }
    rewrite Z.mod_0_l by lia. destruct (signbit d); [|done].
    by rewrite Z.mod_opp_l_z by (lia || done).
Qed.

Lemma truncCast_small d bits : 0 < bits -> expo d - 1023 < bits - 1 -> expo d <> 2047 ->
  - 2 ^ (bits - 1) < truncCast d < 2 ^ (bits - 1).
Proof.
  intros Hb He Hne. rewrite truncCast_magn by (unfold isfinite; destruct (Z.eqb_spec (expo d) 2047); done).
  pose proof (magn_nonneg d). pose proof ONE_pos. pose proof (pow2_pos (bits - 1) ltac:(lia)) as Hp.
  assert (0 <= magn d / ONE < 2 ^ (bits - 1)); [|destruct (signbit d); lia]. split; [apply Z.div_pos; lia|].
  apply Z.div_lt_upper_bound; [done|]. destruct (decide (expo d < 1023)) as [H1|H1].
  - pose proof (magn_small d H1). nia.
  - pose proof (magn_log d ltac:(lia)) as [_ Hm]. assert (2 ^ (expo d - 1023 + 1) <= 2 ^ (bits - 1)) by (apply Z.pow_le_mono_r; lia). nia.
Qed.

Lemma DoubleToInt_range d : is_i32 (DoubleToInt d 32).
Proof.
  unfold DoubleToInt. rewrite exponent_mask. unfold DOUBLE_EXPONENT_BIAS.
  destruct (Z.ltb_spec (expo d - 1023) (32 - 1)) as [H1|H1].
  { pose proof (truncCast_small d 32 ltac:(lia) H1 ltac:(lia)). unfold is_i32. lia. }
  destruct (_ <? _); [|unfold is_i32; lia]. set (r := i32 _). pose proof (i32_range (Z.shiftr (u64 (Z.shiftl (Z.lor (Z.land d DOUBLE_SIGNIFICAND_MASK) DOUBLE_HIDDEN_BIT)
                       (expo d - 1023 - DOUBLE_SIGNIFICAND_SIZE + INT64_BITS - 32))) (INT64_BITS - 32))) as Hr. fold r in Hr.
  unfold is_i32, INT32_MIN in *. destruct (Z.eqb_spec r (- 2 ^ 31)); destruct (_ =? DOUBLE_SIGN_MASK); cbn [andb negb]; lia.
Qed.

Lemma ToInt32_eq v : ToInt32 v = i32 (truncated v).
Proof.
  unfold ToInt32, truncated. rewrite <- (i32_small (DoubleToInt _ 32)) by apply DoubleToInt_range.
  rewrite <- !wrapBits_32. apply wrapBits_mod. by apply DoubleToInt_mod.
Qed.

(** C33: The integer conversions of a Number are the truncated value modulo the width, in the
    signed or unsigned range: the fast cast, the shifts of the mantissa and the zero of the
    large exponents agree with it for every double, NaN and the infinities counting as 0. *)
Theorem ToInt_correct v :
  ToInt32 v = i32 (truncated v) /\ ToUint32 v = u32 (truncated v) /\
  ToInt16 v = wrapBits 16 (truncated v) /\ ToUint16 v = truncated v mod 2 ^ 16 /\
  ToInt8 v = wrapBits 8 (truncated v) /\ ToUint8 v = truncated v mod 2 ^ 8.
Proof.
  assert (forall bits, 0 < bits <= 32 -> wrapBits bits (DoubleToInt (GetNumber v) bits) = wrapBits bits (truncated v)) as Hw
    by (intros; by apply wrapBits_mod, DoubleToInt_mod).
  assert (forall bits z, 0 < bits -> wrapBits bits z mod 2 ^ bits = z mod 2 ^ bits) as Hm.
  { intros bits z Hb. unfold wrapBits. pose proof (pow2_pos bits ltac:(lia)).
    destruct (_ <? _); [by apply Z.mod_mod; lia|]. rewrite <- (Z.mod_add _ 1), Z.mul_1_l, Z.sub_add, Z.mod_mod by lia. done. }
  split_and!; [apply ToInt32_eq| |by apply Hw| |by apply Hw|].
  - unfold ToUint32, u32. rewrite ToInt32_eq. change BASE with (2 ^ 32). rewrite i32_mod by lia. done.
  - unfold ToUint16, ToInt16. by rewrite Hw, Hm.
  - unfold ToUint8, ToInt8. by rewrite Hw, Hm.
Qed.
