(* ===== verification/TaggedArray.v ===== *)
(** * Tagged arrays

    The array primitives the containers of src/ecmascript/js_api are built from:
    [TaggedArray::RemoveElementByIndex], [InsertElementByIndex] and [Trim] of
    src/ecmascript/tagged_array.cpp, [ObjectFactory::ExtendArray], [CopyArray] and
    [NewAndCopyTaggedArray] of src/ecmascript/object_factory.cpp, and the loops with which the
    containers shift and search their elements.  A container that keeps its [n] elements in the
    first slots of an array [e] denotes the list [take n e]; the lemmas say what the primitives do
    to that list. *)

From Stdlib Require Import ZArith Lia.
From S2P Require Import Prelude Double Values.

(** ** Model *)

Definition ExtendArray (old : list JSTaggedValue) (length_ : Z) : result (list JSTaggedValue) :=
  if length_ <? Z.of_nat (length old) then Err OutOfBounds
  else Ok (old ++ replicate (Z.to_nat length_ - length old) Hole).

Definition CopyArray (old : list JSTaggedValue) (oldLength newLength : Z) : result (list JSTaggedValue) :=
  if newLength =? 0 then Ok [] else
  if oldLength <? newLength then ExtendArray old newLength else
  if Z.of_nat (length old) <? newLength then Err OutOfBounds else Ok (take (Z.to_nat newLength) old).

(** [k] is the offset of the copied part in [src]. *)
Definition NewAndCopyTaggedArray (src : list JSTaggedValue) (newLength oldLength k : Z) : result (list JSTaggedValue) :=
  if newLength =? 0 then Ok [] else
  if (newLength <? oldLength) || (Z.of_nat (length src) <? k + oldLength) then Err OutOfBounds else
  Ok (take (Z.to_nat oldLength) (drop (Z.to_nat k) src) ++ replicate (Z.to_nat (newLength - oldLength)) Hole).

(** [for (i = 0; i < n; i++) a->Set(dst + i, a->Get(src + i))] *)
Definition shiftDown (dst src n : nat) (a : list JSTaggedValue) : result (list JSTaggedValue) :=
  for_up n 0 (fun i a => v ← get a (src + i); set a (dst + i) v) a.

(** [for (i = length - 1; i >= index; i--) a->Set(i + 1, a->Get(i))] *)
Definition shiftUp (index n : nat) (a : list JSTaggedValue) : result (list JSTaggedValue) :=
  for_down n (fun i a => v ← get a (index + i); set a (S (index + i)) v) a.

(** Both branches of the code, with and without barrier, move the same values. *)
Definition RemoveElementByIndex (srcArray : list JSTaggedValue) (index effectiveLength : nat)
  : result (list JSTaggedValue) :=
  a ← shiftDown index (S index) (effectiveLength - 1 - index) srcArray;
  set a (effectiveLength - 1) Hole.

Definition InsertElementByIndex (srcArray : list JSTaggedValue) (value : JSTaggedValue) (index effectiveLength : nat)
  : result (list JSTaggedValue) :=
  a ← shiftUp index (effectiveLength - index) srcArray;
  set a index value.

Definition Trim (a : list JSTaggedValue) (newLength : Z) : result (list JSTaggedValue) :=
  if (newLength <? 0) || (Z.of_nat (length a) <? newLength) then Err OutOfBounds else Ok (take (Z.to_nat newLength) a).

(** [for (i = lo; i < lo + n; i++) if (p(a->Get(i))) return i; return -1;] *)
Fixpoint findUp (p : JSTaggedValue -> bool) (a : list JSTaggedValue) (n lo : nat) : result Z :=
  match n with
  | O => Ok (-1)
  | S n' => v ← get a lo; if p v then Ok (Z.of_nat lo) else findUp p a n' (S lo)
  end.

(** [for (i = n - 1; i >= 0; i--) if (p(a->Get(i))) return i; return -1;] *)
Fixpoint findDown (p : JSTaggedValue -> bool) (a : list JSTaggedValue) (n : nat) : result Z :=
  match n with
  | O => Ok (-1)
  | S i => v ← get a i; if p v then Ok (Z.of_nat i) else findDown p a i
  end.

(** [for (i = 0; i < n; i++) a->Set(i, Hole)] *)
Definition clearSlots (n : nat) (a : list JSTaggedValue) : result (list JSTaggedValue) :=
  for_up n 0 (fun i a => set a i Hole) a.

(** ** Abstract searches *)

(** The first position from [lo] on with [p], or -1. *)
Definition indexWhere (p : JSTaggedValue -> bool) (l : list JSTaggedValue) : Z :=
  match list_find (fun v => p v = true) l with Some (i, _) => Z.of_nat i | None => -1 end.

(** ** Lemmas *)

Lemma set_lookup {A} (l : list A) i v : (i < length l)%nat ->
  returns (set l i v) (fun l' => length l' = length l /\ forall j, l' !! j = if decide (j = i) then Some v else l !! j).
Proof.
  intros Hi. apply set_returns; [done|]. split; [apply length_insert|]. intros j. destruct (decide (j = i)) as [->|Hne].
  - by apply list_lookup_insert_eq.
  - by apply list_lookup_insert_ne.
Qed.

(** One assignment [a->Set(i, a->Get(j))]. *)
Lemma move_lookup {A} (l : list A) i j : (i < length l)%nat -> (j < length l)%nat ->
  returns (v ← get l j; set l i v) (fun l' => length l' = length l /\ forall k, l' !! k = l !! (if decide (k = i) then j else k)).
Proof.
  intros Hi Hj. apply bind_get; [done|]. intros v Hv. eapply returns_mono; [by apply set_lookup|].
  intros l' [Hlen Hl]. split; [done|]. intros k. rewrite Hl. by destruct (decide (k = i)).
Qed.

Lemma shiftDown_returns dst src n a : (dst <= src)%nat -> (src + n <= length a)%nat ->
  returns (shiftDown dst src n a) (fun a' => length a' = length a /\
    forall j, a' !! j = a !! (if decide (dst <= j < dst + n)%nat then (j - dst + src)%nat else j)).
Proof.
  intros Hd Hs. unfold shiftDown.
  eapply returns_mono; [apply (for_up_returns (fun i a' => length a' = length a /\
    forall j, a' !! j = a !! (if decide (dst <= j < dst + i)%nat then (j - dst + src)%nat else j)))|].
  - split; [done|]. intros j. by rewrite decide_False by lia.
  - intros i a' Hi [Hlen Ha]. eapply returns_mono; [apply move_lookup; lia|]. intros a'' [Hlen' Ha']. split; [lia|].
    intros j. rewrite Ha', Ha. f_equal. repeat case_decide; lia.
  - intros a' [Hlen Ha]. done.
Qed.

Lemma shiftUp_returns index n a : (index + n < length a)%nat ->
  returns (shiftUp index n a) (fun a' => length a' = length a /\
    forall j, a' !! j = a !! (if decide (index < j <= index + n)%nat then (j - 1)%nat else j)).
Proof.
  intros Hn. unfold shiftUp.
  eapply returns_mono; [apply (for_down_returns (fun i a' => length a' = length a /\
    forall j, a' !! j = a !! (if decide (index + i < j <= index + n)%nat then (j - 1)%nat else j)))|].
  - split; [done|]. intros j. by rewrite decide_False by lia.
  - intros i a' Hi [Hlen Ha]. eapply returns_mono; [apply move_lookup; lia|]. intros a'' [Hlen' Ha']. split; [lia|].
    intros j. rewrite Ha', Ha. f_equal. repeat case_decide; lia.
  - intros a' [Hlen Ha]. split; [done|]. intros j. rewrite Ha. do 2 case_decide; done || lia.
Qed.

(** [n] elements, one of which is removed. *)
Lemma RemoveElementByIndex_returns a i n : (i < n)%nat -> (n <= length a)%nat ->
  returns (RemoveElementByIndex a i n) (fun a' => length a' = length a /\
    take (n - 1) a' = delete i (take n a) /\ a' !! (n - 1)%nat = Some Hole).
Proof.
  intros Hi Hn. unfold RemoveElementByIndex. eapply returns_bind; [apply shiftDown_returns; lia|].
  intros a1 [Hl1 Ha1]. eapply returns_mono; [apply set_lookup; lia|]. intros a2 [Hl2 Ha2].
  split_and!; [lia| |rewrite Ha2; by rewrite decide_True by done].
  apply list_eq. intros j. rewrite lookup_take. case_decide as Hj.
  - rewrite Ha2, Ha1, decide_False by lia. destruct (decide (j < i)%nat).
    + rewrite list_lookup_delete_lt, lookup_take_lt by lia. by rewrite decide_False by lia.
    + rewrite list_lookup_delete_ge, lookup_take_lt by lia. rewrite decide_True by lia. f_equal. lia.
  - symmetry. apply lookup_ge_None_2. rewrite length_delete by (apply lookup_lt_is_Some; rewrite length_take; lia).
    rewrite length_take. lia.
Qed.

Definition insertAt {A} (i : nat) (v : A) (l : list A) : list A := take i l ++ v :: drop i l.

(** [n] elements and room for one more. *)
Lemma insertSlot_returns a i n v : (i <= n)%nat -> (n < length a)%nat ->
  returns (a ← shiftUp i (n - i) a; set a i v) (fun a' => length a' = length a /\
    take (S n) a' = insertAt i v (take n a)).
Proof.
  intros Hi Hn. eapply returns_bind; [apply shiftUp_returns; lia|].
  intros a1 [Hl1 Ha1]. eapply returns_mono; [apply set_lookup; lia|]. intros a2 [Hl2 Ha2]. split; [lia|].
  unfold insertAt. apply list_eq. intros j. rewrite lookup_take. case_decide as Hj.
  - rewrite Ha2, Ha1. destruct (decide (j = i)) as [->|Hne].
    + rewrite lookup_app_r, length_take, length_take by (rewrite !length_take; lia).
      by replace (i - (i `min` (n `min` length a)))%nat with 0%nat by lia.
    + destruct (decide (j < i)%nat).
      * rewrite lookup_app_l by (rewrite !length_take; lia). rewrite !lookup_take_lt by lia. by rewrite decide_False by lia.
      * rewrite lookup_app_r by (rewrite !length_take; lia). rewrite !length_take, decide_True by lia.
        replace (j - (i `min` (n `min` length a)))%nat with (S (j - i - 1))%nat by lia.
        change ((v :: drop i (take n a)) !! S (j - i - 1)) with (drop i (take n a) !! (j - i - 1)%nat).
        rewrite lookup_drop, lookup_take_lt by lia. f_equal. lia.
  - symmetry. apply lookup_ge_None_2. rewrite length_app. cbn. rewrite length_drop, !length_take. lia.
Qed.

(** [n] elements, of which those from [f] to [t] are removed. *)
Lemma removeRange_returns a f t n : (f <= t <= n)%nat -> (n <= length a)%nat ->
  returns (shiftDown f t (n - t) a) (fun a' => length a' = length a /\
    take (n - (t - f)) a' = take f (take n a) ++ drop t (take n a)).
Proof.
  intros Ht Hn. eapply returns_mono; [apply shiftDown_returns; lia|]. intros a' [Hl Ha]. split; [done|].
  apply list_eq. intros j. rewrite lookup_take. case_decide as Hj.
  - rewrite Ha. destruct (decide (j < f)%nat).
    + rewrite lookup_app_l by (rewrite !length_take; lia). rewrite !lookup_take_lt by lia. by rewrite decide_False by lia.
    + rewrite lookup_app_r by (rewrite !length_take; lia). rewrite !length_take, decide_True by lia.
      rewrite lookup_drop, lookup_take_lt by lia. f_equal. lia.
  - symmetry. apply lookup_ge_None_2. rewrite length_app, length_drop, !length_take. lia.
Qed.

Lemma clearSlots_returns n a : (n <= length a)%nat ->
  returns (clearSlots n a) (fun a' => length a' = length a /\ forall j, (j < n)%nat -> a' !! j = Some Hole).
Proof.
  intros Hn. unfold clearSlots.
  eapply returns_mono; [apply (for_up_returns (fun i a' => length a' = length a /\ forall j, (j < i)%nat -> a' !! j = Some Hole))|].
  - split; [done|lia].
  - intros i a' Hi [Hl Ha]. eapply returns_mono; [apply set_lookup; lia|]. intros a'' [Hl' Ha']. split; [lia|].
    intros j Hj. rewrite Ha'. case_decide; [done|]. apply Ha. lia.
  - done.
Qed.

Lemma findUp_eq p a n lo : (lo + n <= length a)%nat ->
  findUp p a n lo = Ok (let i := indexWhere p (take n (drop lo a)) in if i <? 0 then -1 else Z.of_nat lo + i).
Proof.
  revert lo. induction n as [|n IH]; intros lo Hn; cbn [findUp]; [done|].
  destruct (lookup_lt_is_Some_2 a lo) as [v Hv]; [lia|]. unfold get. rewrite Hv. cbn [mbind result_bind].
  rewrite (drop_S _ _ _ Hv). cbn [take]. unfold indexWhere. cbn [list_find]. destruct (p v) eqn:Ep.
  - rewrite decide_True by done. cbn. f_equal. change (Z.of_nat 0 <? 0) with false. cbv iota. lia.
  - rewrite decide_False by congruence. rewrite IH by lia. cbn [mbind]. unfold indexWhere.
    destruct (list_find _ (take n (drop (S lo) a))) as [[i w]|]; cbn; [|done]. f_equal.
    destruct (Z.ltb_spec (Z.of_nat i) 0), (Z.ltb_spec (Z.of_nat (S i)) 0); lia.
Qed.

(** The last position with [p], or -1. *)
Definition lastIndexWhere (p : JSTaggedValue -> bool) (l : list JSTaggedValue) : Z :=
  let i := indexWhere p (reverse l) in if i <? 0 then -1 else Z.of_nat (length l) - 1 - i.

Lemma findDown_eq p a n : (n <= length a)%nat -> findDown p a n = Ok (lastIndexWhere p (take n a)).
Proof.
  induction n as [|n IH]; intros Hn; cbn [findDown]; [done|].
  destruct (lookup_lt_is_Some_2 a n) as [v Hv]; [lia|]. unfold get. rewrite Hv. cbn [mbind result_bind].
  rewrite (take_S_r _ _ _ Hv). unfold lastIndexWhere. rewrite reverse_snoc, length_app, length_take_le by lia. cbn [length].
  unfold indexWhere. cbn [list_find]. destruct (p v) eqn:Ep.
  - rewrite decide_True by done. cbn. f_equal. change (Z.of_nat 0 <? 0) with false. cbv iota. lia.
  - rewrite decide_False by congruence. rewrite IH by lia. unfold lastIndexWhere, indexWhere.
    rewrite length_take_le by lia.
    destruct (list_find _ (reverse (take n a))) as [[i w]|]; cbn; [|done]. f_equal.
    destruct (Z.ltb_spec (Z.of_nat i) 0), (Z.ltb_spec (Z.of_nat (S i)) 0); lia.
Qed.

Lemma findUp_prefix p a n : (n <= length a)%nat -> findUp p a n 0 = Ok (indexWhere p (take n a)).
Proof.
  intros Hn. rewrite findUp_eq by lia. rewrite drop_0. f_equal. cbv zeta.
  unfold indexWhere. destruct (list_find _ _) as [[i v]|]; [|done]. destruct (Z.ltb_spec (Z.of_nat i) 0); lia.
Qed.

Lemma get_prefix (a : list JSTaggedValue) n i : (n <= length a)%nat -> (i < n)%nat ->
  get a i = match take n a !! i with Some v => Ok v | None => Err OutOfBounds end.
Proof. intros. unfold get. by rewrite lookup_take_lt. Qed.

Lemma take_insert_slot (a : list JSTaggedValue) n i v : (i < n)%nat -> take n (<[i:=v]> a) = <[i:=v]> (take n a).
Proof. intros. by rewrite take_insert_lt. Qed.

Lemma take_grown (a b : list JSTaggedValue) n : (n <= length a)%nat -> take n (a ++ b) = take n a.
Proof. intros. by rewrite take_app_le. Qed.

Lemma indexWhere_found p l : negb (indexWhere p l <? 0) = existsb p l.
Proof.
  unfold indexWhere. destruct (list_find _ l) as [[i v]|] eqn:E.
  - apply list_find_Some in E as (Hi & Hp & _). destruct (Z.ltb_spec (Z.of_nat i) 0); [lia|]. symmetry.
    apply existsb_exists. exists v. split; [|done]. apply list_elem_of_In. by eapply list_elem_of_lookup_2.
  - cbn. symmetry. apply not_true_is_false. intros H. apply existsb_exists in H as (v & Hin & Hp).
    apply list_find_None in E. rewrite Forall_forall in E. apply list_elem_of_In in Hin. by apply (E v Hin).
Qed.

Lemma indexWhere_lt p l : indexWhere p l < Z.max (Z.of_nat (length l)) 0 /\ -1 <= indexWhere p l.
Proof.
  unfold indexWhere. destruct (list_find _ l) as [[i v]|] eqn:E; [|lia].
  apply list_find_Some in E as (Hi & _). apply lookup_lt_Some in Hi. lia.
Qed.

(** Growth by half, to at least ten slots. *)
Lemma halfAgain_grows c : 0 <= c < 2 ^ 30 ->
  c < (let n := u32 (c + Z.shiftr c 1) in if 10 <? n then n else 10) <= Z.max 10 (c + c / 2).
Proof.
  intros Hc. rewrite Z.shiftr_div_pow2 by lia. change (2 ^ 1) with 2.
  pose proof (Z.div_mod c 2 ltac:(lia)). pose proof (Z.mod_pos_bound c 2 ltac:(lia)).
  rewrite u32_small by (unfold is_u32; rewrite BASE_eq; lia). cbv zeta. destruct (Z.ltb_spec 10 (c + c / 2)); lia.
Qed.

(** ** Arrays in two parts

    A container keeps its elements [l] in the first slots of its array and has the slots [s] to
    spare: the array is [l ++ s].  The operations, on such an array. *)

Lemma get_app (l s : list JSTaggedValue) i v : l !! i = Some v -> get (l ++ s) i = Ok v.
Proof. intros H. unfold get. by rewrite lookup_app_l, H by (by eapply lookup_lt_Some). Qed.

Lemma set_app (l s : list JSTaggedValue) i v : (i < length l)%nat -> set (l ++ s) i v = Ok (<[i:=v]> l ++ s).
Proof. intros H. unfold set. by rewrite decide_True, insert_app_l by (rewrite ?length_app; lia). Qed.

Lemma set_spare (l s : list JSTaggedValue) x v : set (l ++ x :: s) (length l) v = Ok ((l ++ [v]) ++ s).
Proof.
  unfold set. rewrite decide_True by (rewrite length_app; cbn; lia). f_equal.
  rewrite insert_app_r_alt, Nat.sub_diag by done. by rewrite <- app_assoc.
Qed.

Lemma set_spare_at (l s : list JSTaggedValue) x v i : length l = i -> set (l ++ x :: s) i v = Ok ((l ++ [v]) ++ s).
Proof. intros <-. apply set_spare. Qed.

Lemma CopyArray_app (l s : list JSTaggedValue) n : Z.of_nat (length (l ++ s)) < n ->
  CopyArray (l ++ s) (Z.of_nat (length (l ++ s))) n = Ok (l ++ (s ++ replicate (Z.to_nat n - length (l ++ s)) Hole)).
Proof.
  intros Hn. unfold CopyArray, ExtendArray.
  destruct (Z.eqb_spec n 0), (Z.ltb_spec (Z.of_nat (length (l ++ s))) n), (Z.ltb_spec n (Z.of_nat (length (l ++ s)))); try lia.
  by rewrite app_assoc.
Qed.

Lemma RemoveElementByIndex_app (l s : list JSTaggedValue) i : (i < length l)%nat ->
  RemoveElementByIndex (l ++ s) i (length l) = Ok (delete i l ++ Hole :: s).
Proof.
  intros Hi. unfold RemoveElementByIndex.
  pose proof (shiftDown_returns i (S i) (length l - 1 - i) (l ++ s) ltac:(lia) ltac:(rewrite length_app; lia)) as H.
  apply returns_iff in H as (a1 & -> & Hl1 & Ha1). rewrite length_app in Hl1. rewrite bind_Ok.
  pose proof (set_lookup a1 (length l - 1) Hole ltac:(lia)) as H.
  apply returns_iff in H as (a2 & -> & Hl2 & Ha2). f_equal. apply list_eq. intros j. rewrite Ha2, Ha1.
  assert (length (delete i l) = (length l - 1)%nat) as Ed by (apply length_delete, lookup_lt_is_Some; lia).
  destruct (decide (j = length l - 1)%nat) as [->|].
  - rewrite lookup_app_r by lia. by rewrite Ed, Nat.sub_diag.
  - destruct (decide (j < length l - 1)%nat).
    + rewrite (lookup_app_l (delete i l)) by lia. destruct (decide (j < i)%nat).
      * rewrite decide_False by lia. by rewrite list_lookup_delete_lt, lookup_app_l by lia.
      * rewrite decide_True by lia. rewrite list_lookup_delete_ge, lookup_app_l by lia. f_equal. lia.
    + rewrite decide_False by lia. rewrite !lookup_app_r by lia. rewrite Ed.
      by replace (j - (length l - 1))%nat with (S (j - length l)) by lia.
Qed.

Lemma insertSlot_app (l s : list JSTaggedValue) x i v : (i <= length l)%nat ->
  (a ← shiftUp i (length l - i) (l ++ x :: s); set a i v) = Ok (insertAt i v l ++ s).
Proof.
  intros Hi. pose proof (shiftUp_returns i (length l - i) (l ++ x :: s) ltac:(rewrite length_app; cbn; lia)) as H.
  apply returns_iff in H as (a1 & -> & Hl1 & Ha1). rewrite length_app in Hl1. cbn [length] in Hl1. rewrite bind_Ok.
  pose proof (set_lookup a1 i v ltac:(lia)) as H. apply returns_iff in H as (a2 & -> & Hl2 & Ha2). f_equal.
  unfold insertAt. apply list_eq. intros j. rewrite Ha2, Ha1, <- app_assoc. cbn [app].
  destruct (decide (j < i)%nat).
  { rewrite decide_False by lia. rewrite decide_False by lia. rewrite !lookup_app_l by (rewrite ?length_take; lia).
    by rewrite lookup_take_lt by lia. }
  rewrite (lookup_app_r (take i l)) by (rewrite length_take; lia). rewrite length_take, Nat.min_l by lia.
  destruct (decide (j = i)) as [->|]; [by rewrite Nat.sub_diag|].
  replace (j - i)%nat with (S (j - 1 - i)) by lia.
  change ((v :: drop i l ++ s) !! S (j - 1 - i)) with ((drop i l ++ s) !! (j - 1 - i)%nat).
  destruct (decide (j <= length l)%nat).
  - rewrite decide_True by lia. rewrite !lookup_app_l by (rewrite ?length_drop; lia). rewrite lookup_drop. f_equal. lia.
  - rewrite decide_False by lia. rewrite !lookup_app_r by (rewrite ?length_drop; lia). rewrite length_drop.
    replace (j - length l)%nat with (S (j - 1 - length l)) by lia.
    change ((x :: s) !! S (j - 1 - length l)) with (s !! (j - 1 - length l)%nat). f_equal. lia.
Qed.

Lemma removeRange_app (l s : list JSTaggedValue) f t : (f <= t <= length l)%nat ->
  (a ← shiftDown f t (length l - t) (l ++ s); Trim a (Z.of_nat (length l - (t - f)))) = Ok (take f l ++ drop t l).
Proof.
  intros Ht. pose proof (removeRange_returns (l ++ s) f t (length l) ltac:(lia) ltac:(rewrite length_app; lia)) as H.
  apply returns_iff in H as (a1 & -> & Hl1 & Ha1). rewrite take_app_length in Ha1. rewrite bind_Ok. unfold Trim.
  rewrite length_app in Hl1.
  destruct (Z.ltb_spec (Z.of_nat (length l - (t - f))) 0); [lia|].
  destruct (Z.ltb_spec (Z.of_nat (length a1)) (Z.of_nat (length l - (t - f)))); [lia|]. cbn [orb].
  by rewrite Nat2Z.id, Ha1.
Qed.

Lemma clearSlots_app (l s : list JSTaggedValue) :
  clearSlots (length l) (l ++ s) = Ok (replicate (length l) Hole ++ s).
Proof.
  unfold clearSlots.
  assert (forall l1 l2 : list JSTaggedValue, for_up (length l2) (length l1) (fun i a => set a i Hole) (l1 ++ l2 ++ s) =
    Ok (l1 ++ replicate (length l2) Hole ++ s)) as H.
  { intros l1 l2. revert l1. induction l2 as [|x l2 IH]; intros l1; [done|]. cbn [length for_up app].
    rewrite set_spare, bind_Ok. specialize (IH (l1 ++ [Hole])). rewrite length_app in IH. cbn [length] in IH.
    rewrite Nat.add_1_r in IH. rewrite IH. by rewrite <- app_assoc. }
  apply (H []).
Qed.

Lemma Trim_app (l s : list JSTaggedValue) : Trim (l ++ s) (Z.of_nat (length l)) = Ok l.
Proof.
  unfold Trim. destruct (Z.ltb_spec (Z.of_nat (length l)) 0); [lia|]. rewrite length_app.
  destruct (Z.ltb_spec (Z.of_nat (length l + length s)) (Z.of_nat (length l))); [lia|]. cbn [orb].
  by rewrite Nat2Z.id, take_app_length.
Qed.

Lemma NewAndCopyTaggedArray_app (l s : list JSTaggedValue) :
  NewAndCopyTaggedArray (l ++ s) (Z.of_nat (length l)) (Z.of_nat (length l)) 0 = Ok l.
Proof.
  unfold NewAndCopyTaggedArray. destruct (Z.eqb_spec (Z.of_nat (length l)) 0); [by destruct l|].
  rewrite Z.ltb_irrefl, length_app. destruct (Z.ltb_spec (Z.of_nat (length l + length s)) (0 + Z.of_nat (length l))); [lia|].
  cbn [orb]. by rewrite Z.sub_diag, Nat2Z.id, drop_0, take_app_length, app_nil_r.
Qed.

Lemma findUp_app p (l s : list JSTaggedValue) : findUp p (l ++ s) (length l) 0 = Ok (indexWhere p l).
Proof. rewrite findUp_prefix by (rewrite length_app; lia). by rewrite take_app_length. Qed.
