(* ===== verification/Ring.v ===== *)
(** * Ring buffers

    The part [JSAPIDeque] and [JSAPIQueue] share: an array used cyclically from a first
    index up to, but not including, a last index, one slot always free, and the copy of its
    contents to the front of a larger array ([CopyDeque] and [CopyQueue] of
    src/ecmascript/object_factory.cpp).  The containers reach the lemmas through the
    interface [Ring]. *)

From Stdlib Require Import ZArith Lia.
From S2P Require Import Prelude Values.

(** ** Model *)

(** [while (curIndex != last) { new[newIndex] = old[curIndex]; ... }] into an array of holes. *)
Definition copyRing (old : list JSTaggedValue) (newLength first last : Z) : result (list JSTaggedValue) :=
  let oldCapacity := Z.of_nat (length old) in
  '(newArray, _, _) ← while_loop (length old) (fun '(_, curIndex, _) => negb (curIndex =? last))
    (fun '(newArray, curIndex, newIndex) =>
       value ← get old (Z.to_nat curIndex);
       newArray ← set newArray (Z.to_nat newIndex) value;
       Ok (newArray, u32 (curIndex + 1) mod oldCapacity, u32 (newIndex + 1)))
    (replicate (Z.to_nat newLength) Hole, first, 0);
  Ok newArray.

(** [while (index != last) { if (SameValue(elements[index], value)) return true; ... }] *)
Fixpoint ringHas (fuel : nat) (elements : list JSTaggedValue) (index last : Z) (value : JSTaggedValue)
  : result bool :=
  if index =? last then Ok false
  else match fuel with
       | O => Err OutOfFuel
       | S fuel =>
         e ← get elements (Z.to_nat index);
         if SameValue e value then Ok true
         else ringHas fuel elements (u32 (index + 1) mod Z.of_nat (length elements)) last value
       end.

(** ** The interface *)

Class Ring (R : Type) := {
  ringElements : R -> list JSTaggedValue;
  ringFirst : R -> Z;
  ringLast : R -> Z
}.

(** ** Contents *)

(** The [n] values from index [f] on. *)
Definition ring (l : list JSTaggedValue) (f n : nat) : list JSTaggedValue :=
  (fun i => nth ((f + i) mod length l) l Hole) <$> seq 0 n.

Section RingLemmas.
  Context (l : list JSTaggedValue) (f : nat) (Hf : (f < length l)%nat).
Let cap := length l.

Lemma ring_length n : length (ring l f n) = n.
Proof. unfold ring. by rewrite length_fmap, length_seq. Qed.

Lemma ring_lookup n i : (i < n)%nat -> ring l f n !! i = l !! ((f + i) mod cap)%nat.
Proof.
  intros Hi. unfold ring. rewrite list_lookup_fmap, lookup_seq_lt by done. cbn. unfold cap in *.
  assert ((f + i) mod length l < length l)%nat as Hlt by (apply Nat.mod_upper_bound; lia).
  destruct (lookup_lt_is_Some_2 l _ Hlt) as [v Hv]. rewrite Hv. f_equal. by apply nth_lookup_Some.
Qed.

(** Different positions are different slots. *)
Lemma slot_inj i j : (i < cap)%nat -> (j < cap)%nat -> ((f + i) mod cap = (f + j) mod cap)%nat -> i = j.
Proof.
  intros Hi Hj E. pose proof (Nat.div_mod_eq (f + i) cap). pose proof (Nat.div_mod_eq (f + j) cap). unfold cap in *.
  assert ((f + i) / length l <= 1)%nat by (apply Nat.lt_succ_r, Nat.Div0.div_lt_upper_bound; lia).
  assert ((f + j) / length l <= 1)%nat by (apply Nat.lt_succ_r, Nat.Div0.div_lt_upper_bound; lia).
  destruct ((f + i) / length l)%nat as [|[|]], ((f + j) / length l)%nat as [|[|]]; lia.
Qed.

Lemma slot_lt i : ((f + i) mod cap < cap)%nat.
Proof. apply Nat.mod_upper_bound. unfold cap. lia. Qed.

(** Writing a slot writes that position, if it is among the contents. *)
Lemma ring_insert n i v : (i < cap)%nat -> (n <= cap)%nat ->
  ring (<[((f + i) mod cap)%nat := v]> l) f n = <[i := v]> (ring l f n).
Proof.
  intros Hi Hn. apply list_eq. intros j. destruct (decide (j < n)%nat) as [Hj|Hj].
  - unfold ring at 1. rewrite list_lookup_fmap, lookup_seq_lt, length_insert by done. cbn. fold cap.
    assert (nth ((f + j) mod cap) (<[((f + i) mod cap)%nat:=v]> l) Hole
            = if decide (i = j) then v else nth ((f + j) mod cap) l Hole) as ->.
    { destruct (decide (i = j)) as [->|Hne].
      - apply nth_lookup_Some, list_lookup_insert_eq, slot_lt.
      - rewrite !nth_lookup, list_lookup_insert_ne; [done|]. intros E. apply Hne. apply slot_inj; auto; lia. }
    destruct (decide (i = j)) as [->|Hne].
    + rewrite list_lookup_insert_eq by (by rewrite ring_length). done.
    + rewrite list_lookup_insert_ne by done. unfold ring. by rewrite list_lookup_fmap, lookup_seq_lt.
  - rewrite !lookup_ge_None_2; [done|rewrite length_insert, ring_length; lia|].
    unfold ring. rewrite length_fmap, length_seq. lia.
Qed.

Lemma ring_S n : ring l f (S n) = ring l f n ++ [nth ((f + n) mod cap) l Hole].
Proof. unfold ring. rewrite seq_S, fmap_app. done. Qed.

Lemma slot_succ i : ((((f + 1) mod cap) + i) mod cap = (f + S i) mod cap)%nat.
Proof. rewrite Nat.Div0.add_mod_idemp_l. f_equal. lia. Qed.

Lemma ring_cons n : ring l f (S n) = nth f l Hole :: ring l ((f + 1) mod cap) n.
Proof.
  unfold ring. cbn [seq fmap list_fmap]. rewrite Nat.add_0_r, Nat.mod_small by done. f_equal.
  rewrite <- seq_shift. change (list_fmap ?A ?B ?g ?x) with (g <$> x). rewrite <- list_fmap_compose.
  apply list_fmap_ext. intros i j Hj. cbn. fold cap. by rewrite slot_succ.
Qed.
End RingLemmas.

(** ** Index arithmetic on [uint32_t] *)

Lemma u32_next a cap : 0 <= a < cap -> cap <= 2 ^ 31 -> u32 (a + 1) mod cap = (a + 1) mod cap.
Proof. intros Ha Hc. rewrite u32_small; [done|]. unfold is_u32. change BASE with (2 * 2 ^ 31). lia. Qed.

Lemma u32_prev a cap : 0 <= a < cap -> cap <= 2 ^ 31 -> u32 (u32 (a + cap) - 1) mod cap = (a - 1) mod cap.
Proof.
  intros Ha Hc. rewrite (u32_small (a + cap)) by (unfold is_u32; change BASE with (2 * 2 ^ 31); lia).
  rewrite u32_small by (unfold is_u32; change BASE with (2 * 2 ^ 31); lia).
  replace (a + cap - 1) with (a - 1 + 1 * cap) by lia. apply Z.mod_add. lia.
Qed.

Lemma u32_distance a b cap : 0 <= a < cap -> 0 <= b < cap -> cap <= 2 ^ 31 ->
  u32 (u32 (b - a) + cap) mod cap = (b - a) mod cap.
Proof.
  intros Ha Hb Hc. unfold u32. rewrite Z.add_mod_idemp_l by (pose proof BASE_pos; lia).
  change (((b - a + cap) mod BASE)) with (u32 (b - a + cap)).
  rewrite u32_small by (unfold is_u32; change BASE with (2 * 2 ^ 31); lia).
  replace (b - a + cap) with (b - a + 1 * cap) by lia. apply Z.mod_add. lia.
Qed.

Section RingState.
  Context {R : Type} `{Ring R}.

Definition ringCap (r : R) : Z := Z.of_nat (length (ringElements r)).

Record ringInv (r : R) : Prop := {
  ring_cap : 0 < ringCap r <= 2 ^ 31;
  ring_first : 0 <= ringFirst r < ringCap r;
  ring_last : 0 <= ringLast r < ringCap r
}.

Definition ringSize (r : R) : nat := Z.to_nat ((ringLast r - ringFirst r) mod ringCap r).

(** The sequence the ring holds. *)
Definition contents (r : R) : list JSTaggedValue :=
  ring (ringElements r) (Z.to_nat (ringFirst r)) (ringSize r).

Lemma ringSize_lt r : ringInv r -> (ringSize r < length (ringElements r))%nat.
Proof.
  intros [Hc _ _]. unfold ringSize. pose proof (Z.mod_pos_bound (ringLast r - ringFirst r) (ringCap r) ltac:(lia)).
  unfold ringCap in *. lia.
Qed.

Lemma contents_length r : length (contents r) = ringSize r.
Proof. apply ring_length. Qed.

(** Slot [i] after the first index, as the code computes it. *)
Lemma slot_of_nat r i : ringInv r ->
  Z.to_nat ((ringFirst r + Z.of_nat i) mod ringCap r)
    = ((Z.to_nat (ringFirst r) + i) mod length (ringElements r))%nat.
Proof.
  intros [Hc Hf _]. unfold ringCap in *. rewrite <- (Nat2Z.id ((_ + i) mod _)%nat), Nat2Z.inj_mod. f_equal. f_equal. lia.
Qed.

Lemma last_slot r : ringInv r -> ringLast r = (ringFirst r + Z.of_nat (ringSize r)) mod ringCap r.
Proof.
  intros [Hc Hf Hl]. unfold ringSize. rewrite Z2Nat.id by (apply Z.mod_pos_bound; lia).
  rewrite Z.add_mod_idemp_r by lia. replace (ringFirst r + (ringLast r - ringFirst r)) with (ringLast r) by lia.
  symmetry. by apply Z.mod_small.
Qed.

Lemma empty_iff r : ringInv r -> (ringFirst r =? ringLast r) = (ringSize r =? 0)%nat.
Proof.
  intros Hr. pose proof Hr as [Hc Hf Hl]. apply Bool.eq_iff_eq_true. rewrite Z.eqb_eq, Nat.eqb_eq. split.
  - intros E. unfold ringSize. by rewrite E, Z.sub_diag, Z.mod_0_l by lia.
  - intros E. rewrite (last_slot r Hr), E, Z.add_0_r. symmetry. by apply Z.mod_small.
Qed.

(** The buffer is full when the successor of the last index is the first. *)
Lemma full_iff r : ringInv r ->
  (ringFirst r =? (ringLast r + 1) mod ringCap r) = (S (ringSize r) =? length (ringElements r))%nat.
Proof.
  intros Hr. pose proof Hr as [Hc Hf Hl]. pose proof (ringSize_lt r Hr) as Hs. rewrite (last_slot r Hr).
  rewrite Z.add_mod_idemp_l by lia. unfold ringCap in *. apply Bool.eq_iff_eq_true. rewrite Z.eqb_eq, Nat.eqb_eq.
  set (c := Z.of_nat (length (ringElements r))) in *. set (n := ringSize r) in *. set (f := ringFirst r) in *. split.
  - intros E. pose proof (Z.div_mod (f + Z.of_nat n + 1) c ltac:(lia)) as Ed. rewrite <- E in Ed.
    assert ((f + Z.of_nat n + 1) / c = 1) as E1 by nia. rewrite E1 in Ed. lia.
  - intros E. replace (f + Z.of_nat n + 1) with (f + 1 * c) by lia. rewrite Z.mod_add by lia.
    symmetry. by apply Z.mod_small.
Qed.

(** ** Copying *)

Lemma ring_prefix a n : (n <= length a)%nat -> (0 < length a)%nat -> ring a 0 n = take n a.
Proof.
  intros Hn Ha. apply list_eq. intros i. destruct (decide (i < n)%nat).
  - rewrite ring_lookup by lia. rewrite Nat.add_0_l, Nat.mod_small, lookup_take_lt by lia. done.
  - rewrite !lookup_ge_None_2; [done|rewrite length_take; lia|rewrite ring_length; lia].
Qed.

(** [k] values are copied. *)
Definition copyInv (r : R) (newLength : Z) (s : list JSTaggedValue * Z * Z) : Prop :=
  let '(a, cur, new) := s in
  exists k, (k <= ringSize r)%nat /\ new = Z.of_nat k /\ length a = Z.to_nat newLength /\
    cur = (ringFirst r + Z.of_nat k) mod ringCap r /\ take k a = take k (contents r).

Lemma copyInv_step r newLength a cur new : ringInv r -> Z.of_nat (ringSize r) <= newLength ->
  cur <> ringLast r -> copyInv r newLength (a, cur, new) ->
  returns (value ← get (ringElements r) (Z.to_nat cur);
           a ← set a (Z.to_nat new) value;
           Ok (a, u32 (cur + 1) mod ringCap r, u32 (new + 1)))
    (fun s => copyInv r newLength s /\ (ringSize r - Z.to_nat s.2 < ringSize r - Z.to_nat new)%nat).
Proof.
  intros Hr Hlen Hne (k & Hk & -> & La & -> & Ht). pose proof Hr as [Hc Hf Hl]. pose proof (ringSize_lt r Hr) as Hs.
  assert (k < ringSize r)%nat as Hlt.
  { destruct (decide (k = ringSize r)) as [->|]; [|lia]. by rewrite <- last_slot in Hne. }
  assert (0 <= (ringFirst r + Z.of_nat k) mod ringCap r < ringCap r) as Hb by (apply Z.mod_pos_bound; lia).
  apply bind_get; [unfold ringCap in *; lia|]. intros v Hv. rewrite slot_of_nat in Hv by done.
  apply bind_set; [lia|]. apply returns_ok. cbn [snd].
  rewrite u32_next, (u32_small (Z.of_nat k + 1)) by (lia || (unfold is_u32, ringCap in *; change BASE with (2 * 2 ^ 31); lia)).
  split; [|lia]. exists (S k). rewrite length_insert. split_and!; [lia|lia|done| |].
  - rewrite Z.add_mod_idemp_l by lia. f_equal. lia.
  - rewrite Nat2Z.id. assert (<[k:=v]> a !! k = Some v) as Ha by (apply list_lookup_insert_eq; lia).
    rewrite (take_S_r _ _ _ Ha), take_insert_ge, Ht by lia.
    rewrite (take_S_r _ _ v); [done|]. unfold contents. rewrite ring_lookup; [done|unfold ringCap in *; lia|done].
Qed.

Lemma copyRing_returns r newLength : ringInv r -> Z.of_nat (ringSize r) <= newLength ->
  returns (copyRing (ringElements r) newLength (ringFirst r) (ringLast r)) (fun a =>
    length a = Z.to_nat newLength /\ take (ringSize r) a = contents r).
Proof.
  intros Hr Hlen. unfold copyRing. pose proof Hr as [Hc Hf Hl].
  eapply returns_bind; [apply (while_loop_returns (copyInv r newLength) (fun s => (ringSize r - Z.to_nat s.2)%nat))|].
  - exists 0%nat. rewrite length_replicate, Z.add_0_r, Z.mod_small by lia. split_and!; auto; lia.
  - pose proof (ringSize_lt r Hr). lia.
  - intros [[a cur] new] Hinv Hc'. apply negb_true_iff, Z.eqb_neq in Hc'. by apply copyInv_step.
  - intros [[a cur] new] [(k & Hk & -> & La & -> & Ht) Hc']. apply negb_false_iff, Z.eqb_eq in Hc'.
    apply returns_ok. split; [done|]. pose proof (ringSize_lt r Hr) as Hs.
    assert (k = ringSize r) as ->; [|by rewrite Ht, take_ge by (rewrite contents_length; lia)].
    rewrite (last_slot r Hr) in Hc'. apply (slot_inj (ringElements r) (Z.to_nat (ringFirst r)));
      [unfold ringCap in *; lia..|]. rewrite <- !slot_of_nat by done. by rewrite Hc'.
Qed.

(** ** Searching *)

Lemma ringHas_from r value k : ringInv r -> (k <= ringSize r)%nat ->
  forall fuel, (ringSize r - k <= fuel)%nat ->
  ringHas fuel (ringElements r) ((ringFirst r + Z.of_nat k) mod ringCap r) (ringLast r) value
    = Ok (existsb (fun e => SameValue e value) (drop k (contents r))).
Proof.
  intros Hr Hk fuel. pose proof Hr as [Hc Hf Hl]. pose proof (ringSize_lt r Hr) as Hs.
  revert k Hk. induction fuel as [|fuel IH]; intros k Hk Hfuel.
  - replace k with (ringSize r) by lia. rewrite <- last_slot by done. cbn [ringHas]. rewrite Z.eqb_refl.
    by rewrite drop_ge by (rewrite contents_length; lia).
  - cbn [ringHas]. destruct (Z.eqb_spec ((ringFirst r + Z.of_nat k) mod ringCap r) (ringLast r)) as [E|E].
    + assert (k = ringSize r) as ->; [|by rewrite drop_ge by (rewrite contents_length; lia)].
      rewrite (last_slot r Hr) in E. apply (slot_inj (ringElements r) (Z.to_nat (ringFirst r)));
        [unfold ringCap in *; lia..|]. rewrite <- !slot_of_nat by done. by rewrite E.
    + assert (k < ringSize r)%nat as Hlt.
      { destruct (decide (k = ringSize r)) as [->|]; [|lia]. by rewrite <- last_slot in E. }
      assert (0 <= (ringFirst r + Z.of_nat k) mod ringCap r < ringCap r) as Hb by (apply Z.mod_pos_bound; lia).
      destruct (lookup_lt_is_Some_2 (contents r) k) as [v Hv]; [rewrite contents_length; lia|].
      rewrite (drop_S _ _ _ Hv). unfold contents in Hv. rewrite ring_lookup in Hv by (unfold ringCap in *; lia).
      unfold get. rewrite slot_of_nat, Hv by done. cbn [existsb]. rewrite bind_Ok.
      destruct (SameValue v value); [done|]. change (Z.of_nat (length (ringElements r))) with (ringCap r).
      rewrite u32_next, Z.add_mod_idemp_l by lia.
      replace (ringFirst r + Z.of_nat k + 1) with (ringFirst r + Z.of_nat (S k)) by lia. by rewrite IH by lia.
Qed.

Lemma ringHas_eq r value : ringInv r ->
  ringHas (length (ringElements r)) (ringElements r) (ringFirst r) (ringLast r) value
    = Ok (existsb (fun e => SameValue e value) (contents r)).
Proof.
  intros Hr. pose proof Hr as [Hc Hf Hl]. pose proof (ringSize_lt r Hr).
  rewrite <- (drop_0 (contents r)), <- (ringHas_from r value 0 Hr ltac:(lia) (length (ringElements r)) ltac:(lia)).
  f_equal. rewrite Z.add_0_r, Z.mod_small by lia. done.
Qed.

(** ** Adding and removing at the ends *)

Lemma size_range r : ringInv r -> (ringLast r - ringFirst r) mod ringCap r = Z.of_nat (ringSize r).
Proof. intros [Hc _ _]. unfold ringSize. rewrite Z2Nat.id; [done|]. apply Z.mod_pos_bound. lia. Qed.

(** [r'] is [r] with the given slot overwritten and the given bounds. *)
Definition updated (r r' : R) (slot : Z) (v : JSTaggedValue) (first last : Z) : Prop :=
  ringElements r' = <[Z.to_nat slot := v]> (ringElements r) /\ ringFirst r' = first /\ ringLast r' = last.

Lemma updated_cap r r' slot v first last : updated r r' slot v first last -> ringCap r' = ringCap r.
Proof. intros (E & _ & _). unfold ringCap. by rewrite E, length_insert. Qed.

Lemma updated_inv r r' slot v first last : ringInv r -> updated r r' slot v first last ->
  0 <= first < ringCap r -> 0 <= last < ringCap r -> ringInv r'.
Proof.
  intros [Hc _ _] Hu Hf Hl. pose proof (updated_cap _ _ _ _ _ _ Hu) as Ec. destruct Hu as (_ & Ef & El).
  split; rewrite ?Ec, ?Ef, ?El; done.
Qed.

Lemma updated_size r r' slot v first last n : updated r r' slot v first last -> 0 < ringCap r ->
  (last - first) mod ringCap r = Z.of_nat n -> ringSize r' = n.
Proof.
  intros Hu Hc E. unfold ringSize. rewrite (updated_cap _ _ _ _ _ _ Hu). destruct Hu as (_ & -> & ->).
  rewrite E. lia.
Qed.

Lemma push_back r r' v : ringInv r -> (S (ringSize r) < length (ringElements r))%nat ->
  updated r r' (ringLast r) v (ringFirst r) ((ringLast r + 1) mod ringCap r) ->
  ringInv r' /\ contents r' = contents r ++ [v].
Proof.
  intros Hr Hroom Hu. pose proof Hr as [Hc Hf Hl].
  pose proof (Z.mod_pos_bound (ringLast r + 1) (ringCap r) ltac:(lia)) as Hb.
  split; [by eapply updated_inv|].
  assert (ringSize r' = S (ringSize r)) as Es.
  { eapply updated_size; [done|lia|]. rewrite Zminus_mod_idemp_l.
    replace (ringLast r + 1 - ringFirst r) with (ringLast r - ringFirst r + 1) by lia.
    rewrite <- Z.add_mod_idemp_l, size_range, Z.mod_small by (done || unfold ringCap in *; lia). lia. }
  unfold contents. rewrite Es. destruct Hu as (-> & -> & _).
  rewrite (last_slot r Hr), slot_of_nat by done. set (f := Z.to_nat (ringFirst r)).
  assert (f < length (ringElements r))%nat as Hfl by (unfold f, ringCap in *; lia).
  rewrite ring_insert by (done || lia). rewrite ring_S by done.
  rewrite insert_app_r_alt, ring_length, Nat.sub_diag by (rewrite ring_length; lia). done.
Qed.

Lemma push_front r r' v : ringInv r -> (S (ringSize r) < length (ringElements r))%nat ->
  let first := (ringFirst r - 1) mod ringCap r in
  updated r r' first v first (ringLast r) -> ringInv r' /\ contents r' = v :: contents r.
Proof.
  intros Hr Hroom first Hu. pose proof Hr as [Hc Hf Hl].
  pose proof (Z.mod_pos_bound (ringFirst r - 1) (ringCap r) ltac:(lia)) as Hb. fold first in Hb.
  split; [by eapply updated_inv|].
  assert (ringSize r' = S (ringSize r)) as Es.
  { eapply updated_size; [done|lia|]. unfold first. rewrite Zminus_mod_idemp_r.
    replace (ringLast r - (ringFirst r - 1)) with (ringLast r - ringFirst r + 1) by lia.
    rewrite <- Z.add_mod_idemp_l, size_range, Z.mod_small by (done || unfold ringCap in *; lia). lia. }
  unfold contents. rewrite Es. destruct Hu as (-> & -> & _). set (l := ringElements r) in *.
  assert (Z.to_nat first < length l)%nat as Hfl by (unfold l, ringCap in *; lia).
  rewrite ring_cons by (by rewrite length_insert). rewrite length_insert. f_equal.
  { apply nth_lookup_Some. by apply list_lookup_insert_eq. }
  assert (((Z.to_nat first + 1) mod length l)%nat = Z.to_nat (ringFirst r)) as ->.
  { apply Nat2Z.inj. rewrite Nat2Z.inj_mod, Nat2Z.inj_add, !Z2Nat.id by lia. change (Z.of_nat (length l)) with (ringCap r).
    unfold first. rewrite Z.add_mod_idemp_l by lia. change (Z.of_nat 1) with 1. rewrite Z.sub_add. by apply Z.mod_small. }
  assert (Z.to_nat first = ((Z.to_nat (ringFirst r) + (length l - 1)) mod length l)%nat) as ->.
  { apply Nat2Z.inj. rewrite Nat2Z.inj_mod, Nat2Z.inj_add, !Z2Nat.id by lia. change (Z.of_nat (length l)) with (ringCap r).
    unfold first. replace (ringFirst r + Z.of_nat (length l - 1)) with (ringFirst r - 1 + 1 * ringCap r)
      by (unfold ringCap in *; fold l; lia). by rewrite Z.mod_add by lia. }
  rewrite ring_insert by (unfold l, ringCap in *; lia). apply list_insert_ge. rewrite ring_length. lia.
Qed.

Lemma pop_front r r' v n : ringInv r -> ringSize r = S n ->
  updated r r' (ringFirst r) v ((ringFirst r + 1) mod ringCap r) (ringLast r) ->
  ringInv r' /\ contents r = nth (Z.to_nat (ringFirst r)) (ringElements r) Hole :: contents r'.
Proof.
  intros Hr En Hu. pose proof Hr as [Hc Hf Hl]. pose proof (ringSize_lt r Hr) as Hs.
  pose proof (Z.mod_pos_bound (ringFirst r + 1) (ringCap r) ltac:(lia)) as Hb.
  split; [by eapply updated_inv|].
  assert (ringSize r' = n) as Es.
  { eapply updated_size; [done|lia|]. rewrite Zminus_mod_idemp_r.
    replace (ringLast r - (ringFirst r + 1)) with (ringLast r - ringFirst r - 1) by lia.
    rewrite <- Zminus_mod_idemp_l, size_range, Z.mod_small by (done || unfold ringCap in *; lia). lia. }
  unfold contents. rewrite Es, En. destruct Hu as (-> & -> & _). set (l := ringElements r) in *.
  assert (Z.to_nat (ringFirst r) < length l)%nat as Hfl by (unfold l, ringCap in *; lia).
  rewrite ring_cons by done. f_equal.
  assert (Z.to_nat ((ringFirst r + 1) mod ringCap r) = ((Z.to_nat (ringFirst r) + 1) mod length l)%nat) as ->
    by apply (slot_of_nat r 1 Hr).
  set (f := ((Z.to_nat (ringFirst r) + 1) mod length l)%nat).
  assert (f < length l)%nat as Hfl' by (apply Nat.mod_upper_bound; lia).
  assert (Z.to_nat (ringFirst r) = ((f + (length l - 1)) mod length l)%nat) as ->.
  { unfold f. rewrite Nat.Div0.add_mod_idemp_l.
    replace (Z.to_nat (ringFirst r) + 1 + (length l - 1))%nat with (Z.to_nat (ringFirst r) + 1 * length l)%nat by lia.
    rewrite Nat.Div0.mod_add. symmetry. by apply Nat.mod_small. }
  rewrite ring_insert by (done || lia). symmetry. apply list_insert_ge. rewrite ring_length. lia.
Qed.

Lemma pop_back r r' v n : ringInv r -> ringSize r = S n ->
  let last := (ringLast r - 1) mod ringCap r in
  updated r r' last v (ringFirst r) last ->
  ringInv r' /\ contents r = contents r' ++ [nth (Z.to_nat last) (ringElements r) Hole].
Proof.
  intros Hr En last Hu. pose proof Hr as [Hc Hf Hl]. pose proof (ringSize_lt r Hr) as Hs.
  pose proof (Z.mod_pos_bound (ringLast r - 1) (ringCap r) ltac:(lia)) as Hb. fold last in Hb.
  split; [by eapply updated_inv|].
  assert (ringSize r' = n) as Es.
  { eapply updated_size; [done|lia|]. unfold last. rewrite Zminus_mod_idemp_l.
    replace (ringLast r - 1 - ringFirst r) with (ringLast r - ringFirst r - 1) by lia.
    rewrite <- Zminus_mod_idemp_l, size_range, Z.mod_small by (done || unfold ringCap in *; lia). lia. }
  assert (last = (ringFirst r + Z.of_nat n) mod ringCap r) as Elast.
  { unfold last. rewrite (last_slot r Hr), Zminus_mod_idemp_l, En. f_equal. lia. }
  unfold contents. rewrite Es, En. destruct Hu as (-> & -> & _). set (l := ringElements r) in *.
  assert (Z.to_nat (ringFirst r) < length l)%nat as Hfl by (unfold l, ringCap in *; lia).
  rewrite ring_S by done. rewrite Elast, slot_of_nat by done. fold l. f_equal.
  rewrite ring_insert by (done || (unfold l in *; lia)). symmetry. apply list_insert_ge. rewrite ring_length. lia.
Qed.

Lemma overwrite r r' v i : ringInv r -> (i < ringSize r)%nat ->
  updated r r' ((ringFirst r + Z.of_nat i) mod ringCap r) v (ringFirst r) (ringLast r) ->
  ringInv r' /\ contents r' = <[i := v]> (contents r).
Proof.
  intros Hr Hi Hu. pose proof Hr as [Hc Hf Hl]. pose proof (ringSize_lt r Hr) as Hs.
  split; [by eapply updated_inv|].
  assert (ringSize r' = ringSize r) as Es by (eapply updated_size; [done|lia|by apply size_range]).
  unfold contents. rewrite Es. destruct Hu as (-> & -> & _). rewrite slot_of_nat by done.
  apply ring_insert; unfold ringCap in *; lia.
Qed.

(** A ring that starts at the beginning of its array. *)
Lemma rebased r n : ringFirst r = 0 -> ringLast r = Z.of_nat n -> (n < length (ringElements r))%nat ->
  ringCap r <= 2 ^ 31 -> ringInv r /\ ringSize r = n /\ contents r = take n (ringElements r).
Proof.
  intros Ef El Hn Hc. assert (ringSize r = n) as Es.
  { unfold ringSize. rewrite Ef, El, Z.sub_0_r, Z.mod_small by (unfold ringCap; lia). lia. }
  split; [|split; [done|]].
  - split; rewrite ?Ef, ?El; unfold ringCap in *; lia.
  - unfold contents. rewrite Es, Ef. apply ring_prefix; lia.
Qed.

Lemma contents_get r i : ringInv r -> (i < ringSize r)%nat ->
  get (ringElements r) (Z.to_nat ((ringFirst r + Z.of_nat i) mod ringCap r)) = get (contents r) i.
Proof.
  intros Hr Hi. pose proof Hr as [Hc Hf Hl]. unfold get. rewrite slot_of_nat by done. unfold contents.
  rewrite ring_lookup by (done || unfold ringCap in *; lia). done.
Qed.
End RingState.
