(* ===== verification/Deque.v ===== *)
(** * The deque container

    [JSAPIDeque] of src/ecmascript/js_api/js_api_deque.h and js_api_deque.cpp: a double ended
    queue in a ring buffer that doubles when full; its iterator (js_api_deque_iterator.cpp) and the
    methods of src/ecmascript/containers/containers_deque.cpp. *)

From Stdlib Require Import ZArith Lia.
From S2P Require Import Prelude Double Values Containers Ring.

(** ** Model *)

Record JSAPIDeque := mkDeque { Elements : list JSTaggedValue; First : Z; Last : Z }.

Definition SetElements (d : JSAPIDeque) (e : list JSTaggedValue) : JSAPIDeque := mkDeque e (First d) (Last d).
Definition SetFirst (d : JSAPIDeque) (f : Z) : JSAPIDeque := mkDeque (Elements d) f (Last d).
Definition SetLast (d : JSAPIDeque) (l : Z) : JSAPIDeque := mkDeque (Elements d) (First d) l.

Definition DEFAULT_CAPACITY_LENGTH : Z := 8.

(** A new object has its primitive fields zeroed. *)
Definition newDeque : JSAPIDeque := mkDeque (replicate (Z.to_nat DEFAULT_CAPACITY_LENGTH) Hole) 0 0.
Definition DequeConstructor (newTarget : bool) : result JSAPIDeque :=
  if negb newTarget then Err (DirectCall "The Deque") else Ok newDeque.

Definition capacityOf (d : JSAPIDeque) : Z := Z.of_nat (length (Elements d)).

Definition ComputeCapacity (oldCapacity : Z) : Z :=
  let newCapacity := u32 (Z.shiftl oldCapacity 1) in
  if DEFAULT_CAPACITY_LENGTH <? newCapacity then newCapacity else DEFAULT_CAPACITY_LENGTH.

Definition GetSize (d : JSAPIDeque) : Z :=
  let capacity := capacityOf d in
  u32 (u32 (Last d - First d) + capacity) mod capacity.

Definition IsEmpty (d : JSAPIDeque) : bool := First d =? Last d.

Definition GrowCapacity (d : JSAPIDeque) (oldCapacity first last : Z) : result JSAPIDeque :=
  let newCapacity := ComputeCapacity oldCapacity in
  newElements ← copyRing (Elements d) newCapacity first last;
  Ok (SetElements d newElements).

Definition InsertFront (d : JSAPIDeque) (value : JSTaggedValue) : result JSAPIDeque :=
  let capacity := capacityOf d in
  let first := First d in
  let last := Last d in
  '(d, first) ← (if u32 (u32 (first + capacity) - 1) mod capacity =? last then
                   d ← GrowCapacity d capacity first last;
                   Ok (SetLast d (u32 (capacity - 1)), 0)
                 else Ok (d, first));
  let capacity := capacityOf d in
  let first := u32 (u32 (first + capacity) - 1) mod capacity in
  e ← set (Elements d) (Z.to_nat first) value;
  Ok (SetFirst (SetElements d e) first).

Definition InsertEnd (d : JSAPIDeque) (value : JSTaggedValue) : result JSAPIDeque :=
  let capacity := capacityOf d in
  let first := First d in
  let last := Last d in
  '(d, last) ← (if first =? u32 (last + 1) mod capacity then
                  d ← GrowCapacity d capacity first last;
                  Ok (SetFirst d 0, u32 (capacity - 1))
                else Ok (d, last));
  e ← set (Elements d) (Z.to_nat last) value;
  let d := SetElements d e in
  let capacity := capacityOf d in
  let last := u32 (last + 1) mod capacity in
  Ok (SetLast d last).

Definition GetFront (d : JSAPIDeque) : result JSTaggedValue :=
  if IsEmpty d then Ok Undefined else get (Elements d) (Z.to_nat (First d)).

Definition GetTail (d : JSAPIDeque) : result JSTaggedValue :=
  if IsEmpty d then Ok Undefined else
  let capacity := capacityOf d in
  get (Elements d) (Z.to_nat (u32 (u32 (Last d + capacity) - 1) mod capacity)).

Definition PopFirst (d : JSAPIDeque) : result (JSTaggedValue * JSAPIDeque) :=
  if IsEmpty d then Ok (Undefined, d) else
  let first := First d in
  let capacity := capacityOf d in
  firstElement ← get (Elements d) (Z.to_nat first);
  e ← set (Elements d) (Z.to_nat first) Hole;
  Ok (firstElement, SetFirst (SetElements d e) (u32 (first + 1) mod capacity)).

Definition PopLast (d : JSAPIDeque) : result (JSTaggedValue * JSAPIDeque) :=
  if IsEmpty d then Ok (Undefined, d) else
  let capacity := capacityOf d in
  let last := u32 (u32 (Last d + capacity) - 1) mod capacity in
  lastElement ← get (Elements d) (Z.to_nat last);
  e ← set (Elements d) (Z.to_nat last) Hole;
  Ok (lastElement, SetLast (SetElements d e) last).

Definition Get (d : JSAPIDeque) (index : Z) : result JSTaggedValue :=
  let capacity := capacityOf d in
  get (Elements d) (Z.to_nat (u32 (First d + index) mod capacity)).

(** Returns whether the index was in range, and the updated deque. *)
Definition Set_ (d : JSAPIDeque) (index : Z) (value : JSTaggedValue) : result (bool * JSAPIDeque) :=
  let length := GetSize d in
  if (index <? 0) || (length <=? index) then Ok (false, d) else
  let capacity := capacityOf d in
  e ← set (Elements d) (Z.to_nat (u32 (First d + index) mod capacity)) value;
  Ok (true, SetElements d e).

Definition Has (d : JSAPIDeque) (value : JSTaggedValue) : result bool :=
  ringHas (length (Elements d)) (Elements d) (First d) (Last d) value.

(** The effect of [OwnKeys] and [OwnEnumKeys] on the deque, before the keys are collected. *)
Definition OwnKeys (d : JSAPIDeque) : result JSAPIDeque :=
  let length := GetSize d in
  let newCapacity := ComputeCapacity (capacityOf d) in
  newElements ← copyRing (Elements d) newCapacity (First d) (Last d);
  Ok (SetElements (SetLast (SetFirst d 0) length) newElements).

Definition GetProperty (d : JSAPIDeque) (key : JSTaggedValue) : result JSTaggedValue :=
  let length := GetSize d in
  if length =? 0 then Err ContainerEmpty else
  match indexKeyOf key with
  | Int index => if (index <? 0) || (length <=? index) then Err IndexRange else Get d index
  | _ => Err IndexType
  end.

Definition SetProperty (d : JSAPIDeque) (key value : JSTaggedValue) : result (bool * JSAPIDeque) :=
  let length := GetSize d in
  match indexKeyOf key with
  | Int index => if (index <? 0) || (length <=? index) then Ok (false, d)
                 else '(_, d) ← Set_ d index value; Ok (true, d)
  | _ => Ok (false, d)
  end.

(** The iterator of src/ecmascript/js_api/js_api_deque_iterator.cpp; it reads the deque it
    iterates over, which the program may change between two calls. *)
Record DequeIterator := mkDequeIterator { attached : bool; NextIndex : Z }.

(** Returns [None] when done, or the value; and the updated iterator. *)
Definition Next (d : JSAPIDeque) (iter : DequeIterator) : result (option JSTaggedValue * DequeIterator) :=
  if negb (attached iter) then Ok (None, iter) else
  let index := NextIndex iter in
  let capacity := capacityOf d in
  if index =? Last d then Ok (None, mkDequeIterator false index)
  else
    let iter := mkDequeIterator true (u32 (index + 1) mod capacity) in
    let elementIndex := u32 (u32 (index + capacity) - First d) mod capacity in
    value ← Get d elementIndex;
    Ok (Some value, iter).

(** The methods. *)
Definition deque_insertFront (self : Receiver JSAPIDeque) (value : JSTaggedValue) : result (bool * JSAPIDeque) :=
  d ← receive "insertFront" self; d ← InsertFront d value; Ok (true, d).
Definition deque_insertEnd (self : Receiver JSAPIDeque) (value : JSTaggedValue) : result (bool * JSAPIDeque) :=
  d ← receive "insertEnd" self; d ← InsertEnd d value; Ok (true, d).
Definition deque_getFirst (self : Receiver JSAPIDeque) : result JSTaggedValue :=
  d ← receive "getFirst" self; GetFront d.
Definition deque_getLast (self : Receiver JSAPIDeque) : result JSTaggedValue :=
  d ← receive "getLast" self; GetTail d.
Definition deque_has (self : Receiver JSAPIDeque) (value : JSTaggedValue) : result bool :=
  d ← receive "has" self; Has d value.
Definition deque_popFirst (self : Receiver JSAPIDeque) : result (JSTaggedValue * JSAPIDeque) :=
  d ← receive "popFirst" self; PopFirst d.
Definition deque_popLast (self : Receiver JSAPIDeque) : result (JSTaggedValue * JSAPIDeque) :=
  d ← receive "popLast" self; PopLast d.
Definition deque_getSize (self : Receiver JSAPIDeque) : result Z :=
  d ← receive "getLength" self; Ok (GetSize d).
Definition deque_iterator (self : Receiver JSAPIDeque) : result DequeIterator :=
  d ← receive "Symbol.iterator" self; Ok (mkDequeIterator true (First d)).

(** The bounds are read once, the elements from the deque as it is. *)
Fixpoint dequeForEachLoop {W} (fuel : nat) (f : Callback W JSAPIDeque) (capacity last first index : Z) (w : W) (d : JSAPIDeque)
  : result (W * JSAPIDeque) :=
  if first =? last then Ok (w, d) else
  match fuel with
  | O => Err OutOfFuel
  | S fuel =>
    kValue ← Get d index;
    '(_, w, d) ← f w d kValue index;
    dequeForEachLoop fuel f capacity last (u32 (first + 1) mod capacity) (u32 (index + 1)) w d
  end.

Definition deque_forEach {W} (self : Receiver JSAPIDeque) (callbackfn : option (Callback W JSAPIDeque)) (w : W)
  : result (W * JSAPIDeque) :=
  d ← receive "forEach" self;
  match callbackfn with
  | None => Err NotCallable
  | Some f => dequeForEachLoop (length (Elements d)) f (capacityOf d) (Last d) (First d) 0 w d
  end.

#[export] Instance Deque_Ring : Ring JSAPIDeque :=
  {| ringElements := Elements; ringFirst := First; ringLast := Last |}.

(** ** Lemmas *)

Notation dequeInv := (ringInv (R := JSAPIDeque)).

Lemma capacity_cap d : capacityOf d = ringCap d.
Proof. reflexivity. Qed.

Lemma GetSize_eq d : dequeInv d -> GetSize d = Z.of_nat (ringSize d).
Proof.
  intros Hd. pose proof Hd as [Hc Hf Hl]. unfold GetSize. rewrite capacity_cap.
  change (Last d) with (ringLast d). change (First d) with (ringFirst d).
  rewrite u32_distance by (done || lia). by apply size_range.
Qed.

Lemma IsEmpty_eq d : dequeInv d -> IsEmpty d = (ringSize d =? 0)%nat.
Proof. intros Hd. exact (empty_iff d Hd). Qed.

Lemma ComputeCapacity_grows c : 0 < c <= 2 ^ 30 -> 2 * c <= ComputeCapacity c <= 2 ^ 31 /\ c < ComputeCapacity c.
Proof.
  intros Hc. unfold ComputeCapacity, DEFAULT_CAPACITY_LENGTH. rewrite Z.shiftl_mul_pow2 by lia. change (2 ^ 1) with 2.
  rewrite u32_small by (unfold is_u32; change BASE with (4 * 2 ^ 30); lia).
  destruct (Z.ltb_spec 8 (c * 2)); lia.
Qed.

(** A copy into a larger array, with the bounds reset. *)
Lemma GrowCapacity_returns d : dequeInv d -> ringCap d <= 2 ^ 30 ->
  returns (GrowCapacity d (capacityOf d) (First d) (Last d)) (fun d' =>
    Z.of_nat (length (Elements d')) = ComputeCapacity (ringCap d) /\ take (ringSize d) (Elements d') = contents d).
Proof.
  intros Hd Hc. pose proof Hd as [Hc' _ _].
  assert (0 < ringCap d <= 2 ^ 30) as Hb by lia. destruct (ComputeCapacity_grows _ Hb) as [Hg Hg'].
  pose proof (ringSize_lt d Hd) as Hs. unfold GrowCapacity. rewrite capacity_cap.
  assert (Z.of_nat (ringSize d) <= ComputeCapacity (ringCap d)) as Hn by (unfold ringCap in *; lia).
  eapply returns_bind; [exact (copyRing_returns d _ Hd Hn)|]. cbv beta. intros a [La Ht]. apply returns_ok. cbn. split; [lia|done].
Qed.

Definition canGrow (d : JSAPIDeque) : Prop := ringCap d <= 2 ^ 30.

Lemma full_prev (d : JSAPIDeque) : dequeInv d ->
  ((ringFirst d - 1) mod ringCap d =? ringLast d) = (S (ringSize d) =? length (Elements d))%nat.
Proof.
  intros Hd. change (Elements d) with (ringElements d). rewrite <- (full_iff d Hd). pose proof Hd as [Hc Hf Hl].
  apply Bool.eq_iff_eq_true. rewrite !Z.eqb_eq. split.
  - intros <-. rewrite Z.add_mod_idemp_l, Z.sub_add by lia. symmetry. by apply Z.mod_small.
  - intros ->. rewrite Zminus_mod_idemp_l, Z.add_simpl_r. by apply Z.mod_small.
Qed.

(** The capacity is at most doubled, and only when the deque is full. *)
Definition grownFrom (d d' : JSAPIDeque) : Prop :=
  ringCap d' <= Z.max (ringCap d) (Z.max 8 (2 * Z.of_nat (S (ringSize d)))).

(** The deque an insertion works on: the contents of [d], with room for one more. *)
Definition roomy (d r : JSAPIDeque) : Prop :=
  dequeInv r /\ contents r = contents d /\ (S (ringSize r) < length (Elements r))%nat /\ grownFrom d r.

(** After growing, the contents start at 0 and end at the old capacity minus one. *)
Lemma grown_roomy d d' : dequeInv d -> canGrow d -> S (ringSize d) = length (Elements d) ->
  Z.of_nat (length (Elements d')) = ComputeCapacity (ringCap d) -> take (ringSize d) (Elements d') = contents d ->
  roomy d (mkDeque (Elements d') 0 (u32 (capacityOf d - 1))).
Proof.
  intros Hd Hg E La Ht. pose proof Hd as [Hc Hf Hl]. unfold canGrow in Hg.
  assert (0 < ringCap d <= 2 ^ 30) as Hb by lia. destruct (ComputeCapacity_grows _ Hb) as [Hg1 Hg2].
  assert (u32 (capacityOf d - 1) = Z.of_nat (ringSize d)) as ->.
  { rewrite u32_small by (unfold is_u32; rewrite capacity_cap; change BASE with (4 * 2 ^ 30); lia).
    unfold capacityOf. lia. }
  change (ringCap d) with (capacityOf d) in *. unfold capacityOf in *.
  destruct (rebased (mkDeque (Elements d') 0 (Z.of_nat (ringSize d))) (ringSize d)) as (Hi & Es & Ec); cbn; try done; try lia.
  - unfold ringCap. cbn. lia.
  - unfold roomy, grownFrom. rewrite Ec, Es. split_and!; [done|done|cbn; lia|].
    change (ringCap (mkDeque (Elements d') 0 (Z.of_nat (ringSize d)))) with (Z.of_nat (length (Elements d'))).
    rewrite La, E. unfold ComputeCapacity, DEFAULT_CAPACITY_LENGTH. rewrite Z.shiftl_mul_pow2 by lia. change (2 ^ 1) with 2.
    rewrite u32_small by (unfold is_u32; change BASE with (4 * 2 ^ 30); lia). destruct (Z.ltb_spec 8 (Z.of_nat (length (Elements d)) * 2)); lia.
Qed.

Lemma InsertEnd_returns d v : dequeInv d -> canGrow d ->
  returns (InsertEnd d v) (fun d' => dequeInv d' /\ contents d' = contents d ++ [v] /\ grownFrom d d').
Proof.
  intros Hd Hg. pose proof Hd as [Hc Hf Hl]. pose proof (ringSize_lt d Hd) as Hs. unfold InsertEnd.
  assert ((First d =? u32 (Last d + 1) mod capacityOf d) = (S (ringSize d) =? length (Elements d))%nat) as ->.
  { rewrite capacity_cap. rewrite u32_next by (change (Last d) with (ringLast d); lia). exact (full_iff d Hd). }
  eapply (returns_bind _ (fun '(d1, last) => roomy d (mkDeque (Elements d1) (First d1) last))).
  { destruct (Nat.eqb_spec (S (ringSize d)) (length (Elements d))) as [E|E].
    - eapply returns_bind; [by apply GrowCapacity_returns|]. cbv beta. intros d' [La Ht]. apply returns_ok.
      by apply grown_roomy.
    - apply returns_ok. destruct d. cbn. unfold roomy, grownFrom. cbn in *. split_and!; [done|done|lia|unfold ringCap; cbn; lia]. }
  intros [d1 last] (Hi & Ec & Hroom & Hgr). set (r := mkDeque _ _ _) in *. pose proof Hi as [Hc1 Hf1 Hl1].
  assert (0 <= last < Z.of_nat (length (Elements d1))) as Hlast by exact Hl1.
  apply bind_set; [lia|]. apply returns_ok. cbv beta. rewrite <- Ec. apply and_assoc. split.
  2: { unfold grownFrom, ringCap in *. cbn. by rewrite length_insert. }
  apply (push_back r); [done|done|]. unfold updated.
  assert (capacityOf (SetElements d1 (<[Z.to_nat last:=v]> (Elements d1))) = ringCap r) as ->
    by (unfold capacityOf, ringCap; cbn; by rewrite length_insert).
  split_and!; [done|done|]. cbn. rewrite u32_next; [done|exact Hl1|lia].
Qed.

Lemma InsertFront_returns d v : dequeInv d -> canGrow d ->
  returns (InsertFront d v) (fun d' => dequeInv d' /\ contents d' = v :: contents d /\ grownFrom d d').
Proof.
  intros Hd Hg. pose proof Hd as [Hc Hf Hl]. pose proof (ringSize_lt d Hd) as Hs. unfold InsertFront.
  assert ((u32 (u32 (First d + capacityOf d) - 1) mod capacityOf d =? Last d)
          = (S (ringSize d) =? length (Elements d))%nat) as ->.
  { rewrite capacity_cap. rewrite u32_prev by (change (First d) with (ringFirst d); lia). by apply full_prev. }
  eapply (returns_bind _ (fun '(d1, first) => roomy d (mkDeque (Elements d1) first (Last d1)))).
  { destruct (Nat.eqb_spec (S (ringSize d)) (length (Elements d))) as [E|E].
    - eapply returns_bind; [by apply GrowCapacity_returns|]. cbv beta. intros d' [La Ht]. apply returns_ok.
      by apply grown_roomy.
    - apply returns_ok. destruct d. cbn. unfold roomy, grownFrom. cbn in *. split_and!; [done|done|lia|unfold ringCap; cbn; lia]. }
  intros [d1 first] (Hi & Ec & Hroom & Hgr). set (r := mkDeque _ _ _) in *. pose proof Hi as [Hc1 Hf1 Hl1].
  change (capacityOf d1) with (ringCap r). rewrite u32_prev by (done || lia).
  assert (0 <= (first - 1) mod ringCap r < ringCap r) as Hb by (apply Z.mod_pos_bound; lia).
  assert (Z.to_nat ((first - 1) mod ringCap r) < length (Elements d1))%nat as Hslot
    by (change (Elements d1) with (ringElements r); unfold ringCap in *; lia).
  apply bind_set; [done|]. apply returns_ok. rewrite <- Ec.
  apply and_assoc. split; [by apply (push_front r)|].
  unfold grownFrom, ringCap in *. cbn. by rewrite length_insert.
Qed.

Lemma nonempty_size (d : JSAPIDeque) : (ringSize d =? 0)%nat = false -> exists n, ringSize d = S n.
Proof. intros E%Nat.eqb_neq. exists (ringSize d - 1)%nat. lia. Qed.

Lemma get_nth (l : list JSTaggedValue) i : (i < length l)%nat -> get l i = Ok (nth i l Hole).
Proof.
  intros Hi. unfold get. destruct (lookup_lt_is_Some_2 l i Hi) as [v Hv]. rewrite Hv. f_equal.
  symmetry. by apply nth_lookup_Some.
Qed.

Lemma contents_nil (d : JSAPIDeque) : (ringSize d =? 0)%nat = true -> contents d = [].
Proof. intros E%Nat.eqb_eq. apply length_zero_iff_nil. by rewrite contents_length. Qed.

Lemma PopFirst_returns d : dequeInv d ->
  returns (PopFirst d) (fun '(v, d') => dequeInv d' /\ ringCap d' = ringCap d /\
    match contents d with [] => v = Undefined /\ d' = d | x :: rest => v = x /\ contents d' = rest end).
Proof.
  intros Hd. pose proof Hd as [Hc Hf Hl]. unfold PopFirst. rewrite IsEmpty_eq by done.
  destruct (ringSize d =? 0)%nat eqn:E.
  { rewrite contents_nil by done. by apply returns_ok. }
  destruct (nonempty_size d E) as [n En].
  assert (Z.to_nat (First d) < length (Elements d))%nat as Hlt
    by (unfold ringCap in *; change (First d) with (ringFirst d); change (Elements d) with (ringElements d); lia).
  rewrite get_nth, bind_Ok by done. apply bind_set; [done|]. apply returns_ok.
  rewrite capacity_cap, u32_next by (done || (change (First d) with (ringFirst d); lia)).
  destruct (pop_front d (SetFirst (SetElements d (<[Z.to_nat (First d):=Hole]> (Elements d))) ((First d + 1) mod ringCap d)) Hole n)
    as [Hi Ec]; [done|done|done|]. split_and!; [done|unfold ringCap; cbn; by rewrite length_insert|]. by rewrite Ec.
Qed.

Lemma PopLast_returns d : dequeInv d ->
  returns (PopLast d) (fun '(v, d') => dequeInv d' /\ ringCap d' = ringCap d /\
    match contents d with [] => v = Undefined /\ d' = d | _ => contents d = contents d' ++ [v] end).
Proof.
  intros Hd. pose proof Hd as [Hc Hf Hl]. unfold PopLast. rewrite IsEmpty_eq by done.
  destruct (ringSize d =? 0)%nat eqn:E.
  { rewrite contents_nil by done. by apply returns_ok. }
  destruct (nonempty_size d E) as [n En].
  rewrite capacity_cap, u32_prev by (done || (change (Last d) with (ringLast d); lia)).
  assert (0 <= (Last d - 1) mod ringCap d < ringCap d) as Hb by (apply Z.mod_pos_bound; lia).
  assert (Z.to_nat ((Last d - 1) mod ringCap d) < length (Elements d))%nat as Hlt
    by (unfold ringCap in *; change (Elements d) with (ringElements d); lia).
  rewrite get_nth, bind_Ok by done. apply bind_set; [done|]. apply returns_ok.
  destruct (pop_back d (SetLast (SetElements d (<[Z.to_nat ((Last d - 1) mod ringCap d):=Hole]> (Elements d)))
    ((Last d - 1) mod ringCap d)) Hole n) as [Hi Ec]; [done|done|done|].
  split_and!; [done|unfold ringCap; cbn; by rewrite length_insert|].
  destruct (contents d) eqn:Ed; [|done]. apply (f_equal length) in Ed. rewrite contents_length, En in Ed. done.
Qed.

Lemma u32_slot (d : JSAPIDeque) i : dequeInv d -> (i < ringSize d)%nat ->
  u32 (First d + Z.of_nat i) mod capacityOf d = (ringFirst d + Z.of_nat i) mod ringCap d.
Proof.
  intros Hd Hi. pose proof Hd as [Hc Hf Hl]. pose proof (ringSize_lt d Hd) as Hs. rewrite u32_small; [done|].
  unfold is_u32, ringCap in *. change (First d) with (ringFirst d). change BASE with (2 * 2 ^ 31). lia.
Qed.

Lemma Get_eq d i : dequeInv d -> (i < ringSize d)%nat -> Get d (Z.of_nat i) = get (contents d) i.
Proof. intros Hd Hi. unfold Get. rewrite u32_slot by done. exact (contents_get d i Hd Hi). Qed.

Lemma Set_returns d i v : dequeInv d -> 0 <= i ->
  returns (Set_ d i v) (fun '(ok, d') => dequeInv d' /\ ringCap d' = ringCap d /\
    ok = (Z.to_nat i <? ringSize d)%nat /\ contents d' = <[Z.to_nat i := v]> (contents d)).
Proof.
  intros Hd Hi. pose proof Hd as [Hc Hf Hl]. unfold Set_. rewrite GetSize_eq by done.
  rewrite (proj2 (Z.ltb_ge i 0)) by done. cbn [orb].
  destruct (Z.leb_spec (Z.of_nat (ringSize d)) i) as [Hge|Hlt].
  { apply returns_ok. rewrite (proj2 (Nat.ltb_ge _ _)) by lia. split_and!; auto.
    symmetry. apply list_insert_ge. rewrite contents_length. lia. }
  rewrite <- (Z2Nat.id i) by done. set (k := Z.to_nat i). assert (k < ringSize d)%nat as Hk by (unfold k; lia).
  rewrite u32_slot by done.
  assert (0 <= (ringFirst d + Z.of_nat k) mod ringCap d < ringCap d) as Hb by (apply Z.mod_pos_bound; lia).
  apply bind_set; [unfold ringCap in *; change (Elements d) with (ringElements d); lia|]. apply returns_ok.
  rewrite Nat2Z.id, (proj2 (Nat.ltb_lt _ _) Hk).
  destruct (overwrite d (SetElements d (<[Z.to_nat ((ringFirst d + Z.of_nat k) mod ringCap d):=v]> (Elements d))) v k)
    as [Hi' Ec]; [done|done|done|]. split_and!; auto. unfold ringCap. cbn. by rewrite length_insert.
Qed.

Lemma GetFront_eq d : dequeInv d -> GetFront d = Ok (default Undefined (head (contents d))).
Proof.
  intros Hd. pose proof Hd as [Hc Hf Hl]. unfold GetFront. rewrite IsEmpty_eq by done.
  destruct (ringSize d =? 0)%nat eqn:E; [by rewrite contents_nil|]. destruct (nonempty_size d E) as [n En].
  pose proof (contents_get d 0 Hd ltac:(lia)) as H. rewrite Z.add_0_r, Z.mod_small in H by lia.
  change (get (Elements d) (Z.to_nat (First d))) with (get (ringElements d) (Z.to_nat (ringFirst d))). rewrite H.
  unfold get. pose proof (contents_length d) as Hl'. rewrite En in Hl'. by destruct (contents d).
Qed.

Lemma GetTail_eq d : dequeInv d -> GetTail d = Ok (default Undefined (last (contents d))).
Proof.
  intros Hd. pose proof Hd as [Hc Hf Hl]. unfold GetTail. rewrite IsEmpty_eq by done.
  destruct (ringSize d =? 0)%nat eqn:E; [by rewrite contents_nil|]. destruct (nonempty_size d E) as [n En].
  rewrite capacity_cap, u32_prev by (done || (change (Last d) with (ringLast d); lia)).
  assert ((Last d - 1) mod ringCap d = (ringFirst d + Z.of_nat n) mod ringCap d) as ->.
  { change (Last d) with (ringLast d). rewrite (last_slot d Hd), Zminus_mod_idemp_l, En. f_equal. lia. }
  assert (n < ringSize d)%nat as Hn by lia. pose proof (contents_get d n Hd Hn) as H.
  change (ringElements d) with (Elements d) in H. rewrite H. unfold get.
  rewrite last_lookup, contents_length, En. cbn [pred].
  destruct (lookup_lt_is_Some_2 (contents d) n) as [v Hv]; [rewrite contents_length; lia|]. by rewrite Hv.
Qed.

Lemma Has_eq d v : dequeInv d -> Has d v = Ok (existsb (fun e => SameValue e v) (contents d)).
Proof. intros Hd. exact (ringHas_eq d v Hd). Qed.

Lemma GetProperty_eq d key : dequeInv d ->
  GetProperty d key =
    match contents d with
    | [] => Err ContainerEmpty
    | _ => match indexKeyOf key with
           | Int index => if index <? 0 then Err IndexRange
                          else match contents d !! Z.to_nat index with Some v => Ok v | None => Err IndexRange end
           | _ => Err IndexType
           end
    end.
Proof.
  intros Hd. unfold GetProperty. rewrite GetSize_eq by done. pose proof (contents_length d) as Hl.
  destruct (contents d) as [|x l] eqn:Ec; cbn in Hl.
  { by replace (Z.of_nat (ringSize d) =? 0) with true by (symmetry; apply Z.eqb_eq; lia). }
  rewrite (proj2 (Z.eqb_neq _ 0)), <- Ec in * by lia.
  destruct (indexKeyOf key); try done. destruct (Z.ltb_spec z 0) as [|Hz]; cbn [orb]; [done|].
  destruct (Z.leb_spec (Z.of_nat (ringSize d)) z) as [Hge|Hlt].
  - rewrite Ec, lookup_ge_None_2 by (cbn; lia). done.
  - rewrite <- (Z2Nat.id z) at 1 by done. rewrite Get_eq by (done || lia). unfold get.
    destruct (lookup_lt_is_Some_2 (contents d) (Z.to_nat z)) as [v Hv]; [rewrite contents_length; lia|]. by rewrite Hv.
Qed.

Lemma SetProperty_returns d key v : dequeInv d ->
  returns (SetProperty d key v) (fun '(ok, d') => dequeInv d' /\ ringCap d' = ringCap d /\
    match indexKeyOf key with
    | Int index => if (0 <=? index) && (Z.to_nat index <? length (contents d))%nat
                   then ok = true /\ contents d' = <[Z.to_nat index := v]> (contents d) else ok = false /\ d' = d
    | _ => ok = false /\ d' = d
    end).
Proof.
  intros Hd. unfold SetProperty. rewrite GetSize_eq, contents_length by done.
  destruct (indexKeyOf key); try by apply returns_ok.
  destruct (Z.ltb_spec z 0) as [Hz|Hz]; cbn [orb].
  { apply returns_ok. by rewrite (proj2 (Z.leb_gt _ _)) by lia. }
  rewrite (proj2 (Z.leb_le 0 z)) by lia. cbn [andb].
  destruct (Z.leb_spec (Z.of_nat (ringSize d)) z) as [Hge|Hlt].
  { apply returns_ok. by rewrite (proj2 (Nat.ltb_ge _ _)) by lia. }
  eapply returns_bind; [by apply Set_returns|]. intros [ok d'] (Hi & Hc & _ & Ec). apply returns_ok.
  by rewrite (proj2 (Nat.ltb_lt _ _)) by lia.
Qed.

Lemma OwnKeys_returns d : dequeInv d -> canGrow d ->
  returns (OwnKeys d) (fun d' => dequeInv d' /\ contents d' = contents d /\ ringCap d' = ComputeCapacity (ringCap d)).
Proof.
  intros Hd Hg. pose proof Hd as [Hc Hf Hl]. unfold canGrow in Hg. unfold OwnKeys. rewrite GetSize_eq, capacity_cap by done.
  assert (0 < ringCap d <= 2 ^ 30) as Hb by lia. destruct (ComputeCapacity_grows _ Hb) as [Hg1 Hg2].
  pose proof (ringSize_lt d Hd) as Hs.
  assert (Z.of_nat (ringSize d) <= ComputeCapacity (ringCap d)) as Hn by (unfold ringCap in *; lia).
  eapply returns_bind; [exact (copyRing_returns d _ Hd Hn)|]. cbv beta. intros a [La Ht]. apply returns_ok.
  set (d' := SetElements _ _). assert (ringCap d' = ComputeCapacity (ringCap d)) as Ec by (change (ringCap d') with (Z.of_nat (length a)); lia).
  destruct (rebased d' (ringSize d)) as (Hi & _ & Ect); [done|done| |lia|].
  - change (ringElements d') with a. unfold ringCap in *. lia.
  - split_and!; [done| |done]. rewrite Ect. exact Ht.
Qed.

(** ** The abstract deque *)

(** The operations of the container a program can call. *)
Inductive DequeOp :=
| OpInsertFront (v : JSTaggedValue)
| OpInsertEnd (v : JSTaggedValue)
| OpPopFirst
| OpPopLast
| OpGetFirst
| OpGetLast
| OpHas (v : JSTaggedValue)
| OpSize
| OpGetAt (key : JSTaggedValue)
| OpSetAt (key v : JSTaggedValue).

Definition dequeStep (d : JSAPIDeque) (op : DequeOp) : result (Observation * JSAPIDeque) :=
  match op with
  | OpInsertFront v => '(b, d) ← deque_insertFront (This d) v; Ok (Truth b, d)
  | OpInsertEnd v => '(b, d) ← deque_insertEnd (This d) v; Ok (Truth b, d)
  | OpPopFirst => '(v, d) ← deque_popFirst (This d); Ok (Value v, d)
  | OpPopLast => '(v, d) ← deque_popLast (This d); Ok (Value v, d)
  | OpGetFirst => v ← deque_getFirst (This d); Ok (Value v, d)
  | OpGetLast => v ← deque_getLast (This d); Ok (Value v, d)
  | OpHas v => b ← deque_has (This d) v; Ok (Truth b, d)
  | OpSize => n ← deque_getSize (This d); Ok (Count n, d)
  | OpGetAt key => Ok (match GetProperty d key with Ok v => Value v | Err e => Throws e end, d)
  | OpSetAt key v => '(b, d) ← SetProperty d key v; Ok (Truth b, d)
  end.

(** What the container promises: a list. *)
Definition listStep (l : list JSTaggedValue) (op : DequeOp) : Observation * list JSTaggedValue :=
  match op with
  | OpInsertFront v => (Truth true, v :: l)
  | OpInsertEnd v => (Truth true, l ++ [v])
  | OpPopFirst => match l with [] => (Value Undefined, []) | x :: l' => (Value x, l') end
  | OpPopLast => (Value (default Undefined (last l)), take (length l - 1) l)
  | OpGetFirst => (Value (default Undefined (head l)), l)
  | OpGetLast => (Value (default Undefined (last l)), l)
  | OpHas v => (Truth (existsb (fun e => SameValue e v) l), l)
  | OpSize => (Count (Z.of_nat (length l)), l)
  | OpGetAt key =>
    (match l with
     | [] => Throws ContainerEmpty
     | _ => match indexKeyOf key with
            | Int i => if i <? 0 then Throws IndexRange
                       else match l !! Z.to_nat i with Some v => Value v | None => Throws IndexRange end
            | _ => Throws IndexType
            end
     end, l)
  | OpSetAt key v =>
    match indexKeyOf key with
    | Int i => if (0 <=? i) && (Z.to_nat i <? length l)%nat then (Truth true, <[Z.to_nat i := v]> l)
               else (Truth false, l)
    | _ => (Truth false, l)
    end
  end.

Fixpoint dequeRun (d : JSAPIDeque) (ops : list DequeOp) : result (list Observation * JSAPIDeque) :=
  match ops with
  | [] => Ok ([], d)
  | op :: ops => '(o, d) ← dequeStep d op; '(os, d) ← dequeRun d ops; Ok (o :: os, d)
  end.

Fixpoint listRun (l : list JSTaggedValue) (ops : list DequeOp) : list Observation * list JSTaggedValue :=
  match ops with
  | [] => ([], l)
  | op :: ops => let '(o, l) := listStep l op in let '(os, l) := listRun l ops in (o :: os, l)
  end.

(** One step preserves the invariant and simulates the abstract step. *)
Lemma dequeStep_simulates d op : dequeInv d -> canGrow d ->
  returns (dequeStep d op) (fun '(o, d') =>
    dequeInv d' /\ (o, contents d') = listStep (contents d) op /\ grownFrom d d').
Proof.
  intros Hd Hg. assert (grownFrom d d) as Hrefl by (unfold grownFrom; lia).
  assert (forall d' : JSAPIDeque, ringCap d' = ringCap d -> grownFrom d d') as Hsame by (unfold grownFrom; intros ? ->; lia).
  destruct op; cbn [dequeStep listStep];
    unfold deque_insertFront, deque_insertEnd, deque_popFirst, deque_popLast, deque_getFirst, deque_getLast, deque_has, deque_getSize;
    cbn [receive]; rewrite ?bind_Ok, ?bind_assoc.
  - eapply returns_bind; [by apply InsertFront_returns|]. cbv beta. intros d' (Hi & Ec & Hgr).
    apply returns_ok. by rewrite Ec.
  - eapply returns_bind; [by apply InsertEnd_returns|]. cbv beta. intros d' (Hi & Ec & Hgr).
    apply returns_ok. by rewrite Ec.
  - eapply returns_bind; [by apply PopFirst_returns|]. intros [v d'] (Hi & Hc & H). apply returns_ok.
    split_and!; [done| |by apply Hsame]. destruct (contents d) eqn:Ed; destruct H as [-> H]; [by rewrite H, Ed|by rewrite H].
  - eapply returns_bind; [by apply PopLast_returns|]. intros [v d'] (Hi & Hc & H). apply returns_ok.
    split_and!; [done| |by apply Hsame]. destruct (contents d) eqn:Ed.
    + destruct H as [-> ->]. by rewrite Ed.
    + rewrite H, last_snoc, length_app, Nat.add_sub, take_app_length. done.
  - rewrite GetFront_eq by done. by apply returns_ok.
  - rewrite GetTail_eq by done. by apply returns_ok.
  - rewrite Has_eq by done. by apply returns_ok.
  - apply returns_ok. by rewrite GetSize_eq, contents_length.
  - apply returns_ok. rewrite GetProperty_eq by done. split_and!; [done| |done]. f_equal.
    destruct (contents d) as [|x l]; [done|]. generalize (x :: l). intros l'. destruct (indexKeyOf key); try done.
    destruct (z <? 0); [done|]. by destruct (l' !! Z.to_nat z).
  - eapply returns_bind; [by apply SetProperty_returns|]. intros [ok d'] (Hi & Hc & H). apply returns_ok.
    split_and!; [done| |by apply Hsame]. destruct (indexKeyOf key); try by destruct H as [-> ->].
    by destruct ((0 <=? z) && _); destruct H as [-> ->].
Qed.

Lemma listStep_length l op : (length (listStep l op).2 <= S (length l))%nat.
Proof.
  destruct op; cbn; try lia.
  - rewrite length_app. cbn. lia.
  - destruct l; cbn; lia.
  - rewrite length_take. lia.
  - destruct (indexKeyOf key); cbn; try lia. destruct (_ && _); cbn; rewrite ?length_insert; lia.
Qed.

(** After [k] operations the capacity is linear in [k]. *)
Lemma dequeRun_simulates ops d k : dequeInv d -> (length (contents d) <= k)%nat ->
  ringCap d <= Z.max 8 (2 * Z.of_nat (S k)) -> Z.of_nat (k + length ops) < 2 ^ 29 ->
  returns (dequeRun d ops) (fun '(os, d') => dequeInv d' /\ (os, contents d') = listRun (contents d) ops).
Proof.
  revert d k. induction ops as [|op ops IH]; intros d k Hd Hk Hc Hlen; cbn [dequeRun listRun].
  { by apply returns_ok. }
  cbn [length] in Hlen. eapply returns_bind; [apply dequeStep_simulates; [done|unfold canGrow; lia]|].
  intros [o d1] (Hd1 & Es & Hg). rewrite <- Es. unfold grownFrom in Hg. rewrite contents_length in Hk.
  pose proof (listStep_length (contents d) op) as Hl. rewrite <- Es in Hl. cbn [snd] in Hl. rewrite contents_length in Hl.
  eapply returns_bind; [apply (IH d1 (S k)); [done| | |]|]; [rewrite contents_length in *; lia|lia|lia|].
  intros [os d2] (Hd2 & Er). apply returns_ok. rewrite <- Er. done.
Qed.

Lemma newDeque_inv : dequeInv newDeque.
Proof. split; by vm_compute. Qed.

(** ** Theorems *)

(** C4: The deque implements a list: any sequence of fewer than [2 ^ 29] operations on a new
    deque runs without an out of range access and yields exactly the results (values, errors)
    of the same operations on a list, through every growth and wrap-around of the buffer. *)
Theorem Deque_refines_list ops d0 (Hd0 : DequeConstructor true = Ok d0) (Hlen : Z.of_nat (length ops) < 2 ^ 29) :
  exists d, dequeRun d0 ops = Ok ((listRun [] ops).1, d) /\
    contents d = (listRun [] ops).2 /\ ringInv d.
Proof.
  injection Hd0 as <-. pose proof (dequeRun_simulates ops newDeque 0 newDeque_inv ltac:(by vm_compute) ltac:(by vm_compute) Hlen) as H.
  apply returns_iff in H as ([os d] & -> & Hd & E). change (contents newDeque) with (@nil JSTaggedValue) in E. exists d. by rewrite <- E.
Qed.

Lemma Deque_refines_list_witness :
  exists d, dequeRun newDeque [OpInsertEnd (Int 1); OpInsertFront (Int 2); OpPopLast; OpGetAt (Int 5)]
      = Ok ([Truth true; Truth true; Value (Int 1); Throws IndexRange], d) /\ contents d = [Int 2] /\ ringInv d.
Proof.
  apply (Deque_refines_list [OpInsertEnd (Int 1); OpInsertFront (Int 2); OpPopLast; OpGetAt (Int 5)] newDeque); [done|by vm_compute].
Defined.

(** Collecting the keys of a deque keeps its contents but moves them to a buffer of at
    least twice the capacity. *)
Theorem OwnKeys_correct d (Hd : ringInv d) (Hc : ringCap d <= 2 ^ 30) :
  exists d', OwnKeys d = Ok d' /\ ringInv d' /\ contents d' = contents d /\
    ringCap d' = ComputeCapacity (ringCap d) /\ 2 * ringCap d <= ringCap d'.
Proof.
  pose proof (OwnKeys_returns d Hd Hc) as H. apply returns_iff in H as (d' & -> & Hi & Ec & Ecap).
  exists d'. split_and!; auto. rewrite Ecap. destruct Hd as [Hb _ _].
  assert (0 < ringCap d <= 2 ^ 30) as H by lia. destruct (ComputeCapacity_grows _ H). lia.
Qed.

Lemma OwnKeys_correct_witness :
  exists d', OwnKeys newDeque = Ok d' /\ ringInv d' /\ contents d' = contents newDeque /\
    ringCap d' = 16 /\ 16 <= ringCap d'.
Proof.
  apply (OwnKeys_correct newDeque); [apply newDeque_inv|by vm_compute].
Defined.

(** ** Iteration *)

(** [for (const v of deque)], the deque not being changed. *)
Fixpoint iterate (fuel : nat) (d : JSAPIDeque) (iter : DequeIterator) : result (list JSTaggedValue) :=
  match fuel with
  | O => Err OutOfFuel
  | S fuel =>
    '(v, iter) ← Next d iter;
    match v with
    | None => Ok []
    | Some v => rest ← iterate fuel d iter; Ok (v :: rest)
    end
  end.

Lemma Next_eq d k : dequeInv d -> (k <= ringSize d)%nat ->
  Next d (mkDequeIterator true ((ringFirst d + Z.of_nat k) mod ringCap d)) =
    match contents d !! k with
    | Some v => Ok (Some v, mkDequeIterator true ((ringFirst d + Z.of_nat (S k)) mod ringCap d))
    | None => Ok (None, mkDequeIterator false (ringLast d))
    end.
Proof.
  intros Hd Hk. pose proof Hd as [Hc Hf Hl]. pose proof (ringSize_lt d Hd) as Hs.
  unfold Next. cbn [attached NextIndex negb]. set (index := (ringFirst d + Z.of_nat k) mod ringCap d).
  assert (0 <= index < ringCap d) as Hb by (apply Z.mod_pos_bound; lia).
  change (Last d) with (ringLast d). destruct (Z.eqb_spec index (ringLast d)) as [E|E].
  - assert (k = ringSize d) as ->; [|rewrite lookup_ge_None_2, E by (rewrite contents_length; lia); done].
    unfold index in E. rewrite (last_slot d Hd) in E. apply (slot_inj (ringElements d) (Z.to_nat (ringFirst d)));
      [unfold ringCap in *; lia..|]. rewrite <- !slot_of_nat by done. by rewrite E.
  - assert (k < ringSize d)%nat as Hlt.
    { destruct (decide (k = ringSize d)) as [->|]; [|lia]. unfold index in E. by rewrite <- last_slot in E. }
    rewrite capacity_cap, u32_next by lia. change (First d) with (ringFirst d).
    assert (u32 (u32 (index + ringCap d) - ringFirst d) mod ringCap d = Z.of_nat k) as ->.
    { rewrite (u32_small (index + ringCap d)) by (unfold is_u32; change BASE with (2 * 2 ^ 31); lia).
      rewrite u32_small by (unfold is_u32; change BASE with (2 * 2 ^ 31); lia).
      replace (index + ringCap d - ringFirst d) with (index - ringFirst d + 1 * ringCap d) by lia.
      rewrite Z.mod_add by lia. unfold index. rewrite Zminus_mod_idemp_l.
      replace (ringFirst d + Z.of_nat k - ringFirst d) with (Z.of_nat k) by lia. apply Z.mod_small. unfold ringCap in *. lia. }
    rewrite Get_eq by done. unfold get.
    destruct (lookup_lt_is_Some_2 (contents d) k) as [v Hv]; [rewrite contents_length; lia|]. rewrite Hv, bind_Ok.
    unfold index. rewrite Z.add_mod_idemp_l by lia. do 3 f_equal. f_equal. lia.
Qed.

Lemma iterate_from d n : dequeInv d -> forall k, (k <= ringSize d)%nat -> (ringSize d - k < n)%nat ->
  iterate n d (mkDequeIterator true ((ringFirst d + Z.of_nat k) mod ringCap d)) = Ok (drop k (contents d)).
Proof.
  intros Hd. induction n as [|n IH]; intros k Hk Hn; [lia|]. cbn [iterate]. rewrite Next_eq by done.
  destruct (contents d !! k) as [v|] eqn:Ev.
  - pose proof (lookup_lt_Some _ _ _ Ev) as Hlt. rewrite contents_length in Hlt.
    rewrite bind_Ok, IH by lia. rewrite bind_Ok, (drop_S _ _ _ Ev). done.
  - apply lookup_ge_None in Ev. by rewrite bind_Ok, drop_ge.
Qed.

(** Iterating over an unchanged deque ends and yields its elements in order, however the
    contents wrap around in the buffer. *)
Theorem iterate_correct d (Hd : ringInv d) :
  iterate (S (length (contents d))) d (mkDequeIterator true (First d)) = Ok (contents d).
Proof.
  pose proof (iterate_from d (S (length (contents d))) Hd 0 ltac:(lia) ltac:(rewrite contents_length; lia)) as H.
  pose proof Hd as [Hc Hf Hl]. rewrite Z.add_0_r, Z.mod_small in H by lia. by rewrite drop_0 in H.
Qed.

Lemma iterate_correct_witness :
  iterate 3 (mkDeque [Int 2; Hole; Hole; Int 1] 3 1) (mkDequeIterator true 3) = Ok [Int 1; Int 2].
Proof. apply (iterate_correct (mkDeque [Int 2; Hole; Hole; Int 1] 3 1)). split; by vm_compute. Defined.


Lemma distance_nonzero a b c : 0 <= a < c -> 0 <= b < c -> a <> b -> (a - b) mod c <> 0.
Proof.
  intros Ha Hb Hne. destruct (Z.le_gt_cases b a).
  - rewrite Z.mod_small; lia.
  - rewrite <- (Z.mod_add _ 1), Z.mod_small; lia.
Qed.

Lemma dequeForEachLoop_ends {W} (f : Callback W JSAPIDeque) capacity last : 0 < capacity < 2 ^ 31 -> 0 <= last < capacity ->
  (forall w d v k, f w d v k <> Err OutOfFuel) ->
  forall fuel first index w d, 0 <= first < capacity -> (last - first) mod capacity <= Z.of_nat fuel ->
  dequeForEachLoop fuel f capacity last first index w d <> Err OutOfFuel.
Proof.
  intros Hc Hl Hf. induction fuel as [|fuel IH]; intros first index w d Hfi Hm; cbn [dequeForEachLoop];
    (destruct (Z.eqb_spec first last) as [|Hne]; [done|]);
    pose proof (Z.mod_pos_bound (last - first) capacity ltac:(lia)) as Hb;
    (assert ((last - first) mod capacity <> 0) as Hnz by (apply distance_nonzero; lia)); [lia|].
  unfold Get, get. destruct (_ !! _) as [v|]; [|done]. rewrite bind_Ok.
  destruct (f w d v index) as [[[r w'] d']|e] eqn:E; [|intros [= ->]; by apply (Hf w d v index)]. rewrite bind_Ok.
  apply IH; [apply Z.mod_pos_bound; lia|]. rewrite u32_small by (unfold is_u32; rewrite BASE_eq; lia).
  rewrite Zminus_mod_idemp_r. pose proof (Z.div_mod (last - first) capacity ltac:(lia)).
  replace (last - (first + 1)) with (capacity * ((last - first) / capacity) + ((last - first) mod capacity - 1)) by lia.
  rewrite Z.add_comm, Z.mul_comm, Z.mod_add by lia. rewrite Z.mod_small by lia. lia.
Qed.

Lemma dequeForEachLoop_pure {W} (cb : Callback W JSAPIDeque) f d : dequeInv d -> pureCallback cb f ->
  forall fuel k w, (k <= ringSize d)%nat -> (ringSize d - k <= fuel)%nat ->
  dequeForEachLoop fuel cb (ringCap d) (ringLast d) ((ringFirst d + Z.of_nat k) mod ringCap d) (Z.of_nat k) w d =
    Ok ((mapCalls f w (Z.of_nat k) (drop k (contents d))).2, d).
Proof.
  intros Hd Hcb. pose proof Hd as [Hc Hf Hl]. pose proof (ringSize_lt d Hd) as Hs. pose proof (contents_length d) as El.
  assert (forall k, (k <= ringSize d)%nat -> ((ringFirst d + Z.of_nat k) mod ringCap d =? ringLast d) = (k =? ringSize d)%nat) as Hend.
  { intros k Hk. rewrite (last_slot d Hd). destruct (Nat.eqb_spec k (ringSize d)) as [->|Hne]; [apply Z.eqb_refl|].
    apply Z.eqb_neq. intros E. apply Hne. apply (slot_inj (ringElements d) (Z.to_nat (ringFirst d)));
      [unfold ringCap in *; lia..|]. rewrite <- !slot_of_nat by done. by rewrite E. }
  induction fuel as [|fuel IH]; intros k w Hk Hfu; cbn [dequeForEachLoop]; rewrite Hend by done;
    (destruct (Nat.eqb_spec k (ringSize d)) as [->|Hne]; [by rewrite drop_ge by lia|]); [lia|].
  rewrite Get_eq by (done || lia). unfold get. destruct (lookup_lt_is_Some_2 (contents d) k) as [v Hv]; [lia|].
  rewrite Hv, bind_Ok, Hcb, bind_Ok, (drop_S _ _ _ Hv). cbn [mapCalls]. destruct (f w v (Z.of_nat k)) as [r w1].
  rewrite u32_next by (try apply Z.mod_pos_bound; lia). rewrite Z.add_mod_idemp_l by lia.
  rewrite u32_small by (unfold is_u32; rewrite BASE_eq; unfold ringCap in *; lia).
  replace (ringFirst d + Z.of_nat k + 1) with (ringFirst d + Z.of_nat (S k)) by lia.
  replace (Z.of_nat k + 1) with (Z.of_nat (S k)) by lia. rewrite IH by lia.
  by destruct (mapCalls f w1 (Z.of_nat (S k)) (drop (S k) (contents d))).
Qed.

(** [forEach] ends whatever the callback does to the deque: the bounds are those from before the
    first call and every round goes one slot on. *)
Theorem Deque_forEach_ends {W} (self : Receiver JSAPIDeque) d (cb : Callback W JSAPIDeque) w :
  receive "forEach" self = Ok d -> ringInv d -> ringCap d < 2 ^ 31 -> (forall w d v k, cb w d v k <> Err OutOfFuel) ->
  deque_forEach self (Some cb) w <> Err OutOfFuel.
Proof.
  intros Hself Hd Hcap Hcb. unfold deque_forEach. rewrite Hself, bind_Ok. pose proof Hd as [Hc Hf Hl].
  change (capacityOf d) with (ringCap d). change (Last d) with (ringLast d). change (First d) with (ringFirst d).
  apply dequeForEachLoop_ends; [lia|lia|done|lia|].
  assert (0 < ringCap d) as Hpos by lia. pose proof (Z.mod_pos_bound (ringLast d - ringFirst d) (ringCap d) Hpos).
  change (Z.of_nat (length (Elements d))) with (ringCap d). lia.
Qed.

(** With a callback that leaves the deque alone it calls it once per element, in order. *)
Theorem Deque_forEach_correct {W} (self : Receiver JSAPIDeque) d (cb : Callback W JSAPIDeque) f w :
  receive "forEach" self = Ok d -> ringInv d -> pureCallback cb f ->
  deque_forEach self (Some cb) w = Ok ((mapCalls f w 0 (contents d)).2, d).
Proof.
  intros Hself Hd Hcb. unfold deque_forEach. rewrite Hself, bind_Ok. pose proof Hd as [Hc Hf Hl]. pose proof (ringSize_lt d Hd).
  pose proof (dequeForEachLoop_pure cb f d Hd Hcb (length (Elements d)) 0 w ltac:(lia)) as H0.
  rewrite Z.add_0_r, Z.mod_small in H0 by lia. apply H0.
  change (length (Elements d)) with (length (ringElements d)). lia.
Qed.
