(* ===== verification/Queue.v ===== *)
(** * The queue container

    [JSAPIQueue] of src/ecmascript/js_api/js_api_queue.h and js_api_queue.cpp and its iterator
    (js_api_queue_iterator.cpp): a first in, first out queue in a ring buffer with a separate
    length field; and the methods of src/ecmascript/containers/containers_queue.cpp. *)

From Stdlib Require Import ZArith Lia.
From S2P Require Import Prelude Double Values Containers Ring.

(** ** Model *)

Record JSAPIQueue := mkQueue { Elements : list JSTaggedValue; Length : Z; Front : Z; Tail : Z }.

Definition DEFAULT_CAPACITY_LENGTH : Z := 8.

Definition newQueue : JSAPIQueue := mkQueue (replicate (Z.to_nat DEFAULT_CAPACITY_LENGTH) Hole) 0 0 0.
Definition QueueConstructor (newTarget : bool) : result JSAPIQueue :=
  if negb newTarget then Err (DirectCall "The Queue") else Ok newQueue.

Definition ComputeCapacity (oldCapacity : Z) : Z :=
  let newCapacity := u32 (oldCapacity + Z.shiftr oldCapacity 1) in
  if DEFAULT_CAPACITY_LENGTH <? newCapacity then newCapacity else DEFAULT_CAPACITY_LENGTH.

(** [CopyArray] of an empty array to a longer one. *)
Definition extendEmpty (newCapacity : Z) : list JSTaggedValue := replicate (Z.to_nat newCapacity) Hole.

(** Returns the queue whose elements have a free slot. *)
Definition GrowCapacity (q : JSAPIQueue) (capacity : Z) : result JSAPIQueue :=
  let front := Front q in
  let tail := Tail q in
  let oldLength := Z.of_nat (length (Elements q)) in
  if oldLength =? 0 then
    Ok (mkQueue (extendEmpty (ComputeCapacity capacity)) (Length q) front tail)
  else if u32 (tail + 1) mod oldLength =? front then
    newElements ← copyRing (Elements q) (ComputeCapacity capacity) front tail;
    Ok (mkQueue newElements (Length q) 0 (u32 (oldLength - 1)))
  else Ok q.

Definition Add (q : JSAPIQueue) (value : JSTaggedValue) : result JSAPIQueue :=
  let length_ := Length q in
  q ← GrowCapacity q (u32 (length_ + 1));
  let tail := Tail q in
  e ← set (Elements q) (Z.to_nat tail) value;
  let elementsSize := Z.of_nat (length e) in
  Ok (mkQueue e (u32 (length_ + 1)) (Front q) (u32 (tail + 1) mod elementsSize)).

Definition GetFirst (q : JSAPIQueue) : result JSTaggedValue :=
  if Length q <? 1 then Ok Undefined else get (Elements q) (Z.to_nat (Front q)).

Definition Pop (q : JSAPIQueue) : result (JSTaggedValue * JSAPIQueue) :=
  let length_ := Length q in
  if length_ <? 1 then Ok (Undefined, q) else
  let front := Front q in
  value ← get (Elements q) (Z.to_nat front);
  e ← set (Elements q) (Z.to_nat front) Hole;
  let elementsSize := Z.of_nat (length e) in
  Ok (value, mkQueue e (u32 (length_ - 1)) (u32 (front + 1) mod elementsSize) (Tail q)).

Definition GetPropertyRange : error := RangeError "The value of Get property index is out of range.".
Definition SetPropertyRange : error := RangeError "The value of Set property index is out of range.".

Definition Get (q : JSAPIQueue) (index : Z) : result JSTaggedValue :=
  if Length q <=? index then Err GetPropertyRange else
  let capacity := Z.of_nat (length (Elements q)) in
  get (Elements q) (Z.to_nat (u32 (Front q + index) mod capacity)).

Definition Set_ (q : JSAPIQueue) (index : Z) (value : JSTaggedValue) : result JSAPIQueue :=
  if Length q =? 0 then Err ContainerEmpty else
  if (index <? 0) || (Length q <=? index) then Err SetPropertyRange else
  e ← set (Elements q) (Z.to_nat index) value;
  Ok (mkQueue e (Length q) (Front q) (Tail q)).

Definition Has (q : JSAPIQueue) (value : JSTaggedValue) : result bool :=
  ringHas (length (Elements q)) (Elements q) (Front q) (Tail q) value.

(** The effect of [OwnKeys] and [OwnEnumKeys] on the queue, before the keys are collected. *)
Definition OwnKeys (q : JSAPIQueue) : result JSAPIQueue :=
  let newCapacity := ComputeCapacity (Z.of_nat (length (Elements q))) in
  newElements ← copyRing (Elements q) newCapacity (Front q) (Tail q);
  Ok (mkQueue newElements (Length q) 0 (Length q)).

Definition GetProperty (q : JSAPIQueue) (key : JSTaggedValue) : result JSTaggedValue :=
  match indexKeyOf key with
  | Int index => if (index <? 0) || (Length q <=? index) then Err IndexRange else Get q index
  | _ => Err IndexType
  end.

Definition GetArrayLength (q : JSAPIQueue) : Z :=
  let elementsSize := Z.of_nat (length (Elements q)) in
  u32 (u32 (Tail q - Front q) + elementsSize) mod elementsSize.

Definition GetNextPosition (q : JSAPIQueue) (current : Z) : Z :=
  u32 (current + 1) mod Z.of_nat (length (Elements q)).

Record QueueIterator := mkQueueIterator { attached : bool; NextIndex : Z }.

Definition Next (q : JSAPIQueue) (iter : QueueIterator) : result (option JSTaggedValue * QueueIterator) :=
  if negb (attached iter) then Ok (None, iter) else
  let index := NextIndex iter in
  if GetArrayLength q <=? index then Ok (None, mkQueueIterator false index)
  else
    value ← Get q index;
    Ok (Some value, mkQueueIterator true (u32 (index + 1))).

(** The methods. *)
Definition queue_add (self : Receiver JSAPIQueue) (value : JSTaggedValue) : result (bool * JSAPIQueue) :=
  q ← receive "add" self; q ← Add q value; Ok (true, q).
Definition queue_getFirst (self : Receiver JSAPIQueue) : result JSTaggedValue :=
  q ← receive "getFirst" self; GetFirst q.
Definition queue_pop (self : Receiver JSAPIQueue) : result (JSTaggedValue * JSAPIQueue) :=
  q ← receive "pop" self; Pop q.
Definition queue_getSize (self : Receiver JSAPIQueue) : result Z :=
  q ← receive "getLength" self; Ok (Length q).
Definition queue_iterator (self : Receiver JSAPIQueue) : result QueueIterator :=
  _ ← receive "Symbol.iterator" self; Ok (mkQueueIterator true 0).

(** The number of calls is fixed before the first one. *)
Definition queue_forEach {W} (self : Receiver JSAPIQueue) (callbackfn : option (Callback W JSAPIQueue)) (w : W)
  : result (W * JSAPIQueue) :=
  q ← receive "forEach" self;
  let len := GetArrayLength q in
  match callbackfn with
  | None => Err NotCallable
  | Some f =>
    '(w, q, _) ← for_up (Z.to_nat len) 0 (fun k '(w, q, index) =>
      kValue ← Get q index;
      let index := GetNextPosition q index in
      '(_, w, q) ← f w q kValue (Z.of_nat k);
      Ok (w, q, index)) (w, q, 0);
    Ok (w, q)
  end.

#[export] Instance Queue_Ring : Ring JSAPIQueue :=
  {| ringElements := Elements; ringFirst := Front; ringLast := Tail |}.

(** ** Lemmas *)

(** The length field is the distance of the indices. *)
Definition queueInv (q : JSAPIQueue) : Prop := ringInv q /\ Length q = Z.of_nat (ringSize q).

Lemma queueCap q : Z.of_nat (length (Elements q)) = ringCap q.
Proof. reflexivity. Qed.

Lemma queueCapacity_grows c : 0 < c <= 2 ^ 30 -> c < ComputeCapacity c <= Z.max 8 (2 * c).
Proof.
  intros Hc. unfold ComputeCapacity, DEFAULT_CAPACITY_LENGTH. rewrite Z.shiftr_div_pow2 by lia. change (2 ^ 1) with 2.
  pose proof (Z.div_mod c 2 ltac:(lia)). pose proof (Z.mod_pos_bound c 2 ltac:(lia)).
  rewrite u32_small by (unfold is_u32; change BASE with (4 * 2 ^ 30); lia).
  destruct (Z.ltb_spec 8 (c + c / 2)); lia.
Qed.

Lemma queueSize_u32 q : queueInv q -> 0 <= Length q < 2 ^ 31 /\ is_u32 (Length q + 1).
Proof.
  intros [[Hc Hf Hl] E]. unfold is_u32, ringSize in *. rewrite E.
  assert (0 <= (ringLast q - ringFirst q) mod ringCap q < ringCap q) by (apply Z.mod_pos_bound; lia).
  change BASE with (2 * 2 ^ 31). lia.
Qed.

Definition queueGrownFrom (q q' : JSAPIQueue) : Prop :=
  ringCap q' <= Z.max (ringCap q) (Z.max 8 (2 * Z.of_nat (S (ringSize q)))).

Lemma GrowCapacity_roomy q : queueInv q -> ringCap q <= 2 ^ 30 ->
  returns (GrowCapacity q (u32 (Length q + 1))) (fun q' => ringInv q' /\ contents q' = contents q /\
    (S (ringSize q') < length (Elements q'))%nat /\ queueGrownFrom q q').
Proof.
  intros [Hq El] Hg. pose proof Hq as [Hc Hf Hl]. pose proof (ringSize_lt q Hq) as Hs.
  unfold GrowCapacity. rewrite queueCap. rewrite (proj2 (Z.eqb_neq _ 0)) by lia.
  assert ((u32 (Tail q + 1) mod ringCap q =? Front q) = (S (ringSize q) =? length (ringElements q))%nat) as ->.
  { rewrite u32_next by (change (Tail q) with (ringLast q); lia). rewrite Z.eqb_sym. exact (full_iff q Hq). }
  destruct (Nat.eqb_spec (S (ringSize q)) (length (ringElements q))) as [E|E].
  - assert (u32 (Length q + 1) = ringCap q) as ->.
    { rewrite u32_small by (apply queueSize_u32; done). unfold ringCap. lia. }
    assert (0 < ringCap q <= 2 ^ 30) as Hb by lia. pose proof (queueCapacity_grows _ Hb) as Hgrow.
    assert (Z.of_nat (ringSize q) <= ComputeCapacity (ringCap q)) as Hn by (unfold ringCap in *; lia).
    eapply returns_bind; [exact (copyRing_returns q _ Hq Hn)|]. cbv beta. intros a [La Ht]. apply returns_ok.
    assert (u32 (ringCap q - 1) = Z.of_nat (ringSize q)) as ->.
    { rewrite u32_small by (unfold is_u32; change BASE with (4 * 2 ^ 30); lia). unfold ringCap. lia. }
    set (q' := mkQueue _ _ _ _). assert (ringCap q' = ComputeCapacity (ringCap q)) as Ecap
      by (change (ringCap q') with (Z.of_nat (length a)); lia).
    destruct (rebased q' (ringSize q)) as (Hi & Es & Ect); [done|done| |lia|].
    { change (ringElements q') with a. unfold ringCap in *. lia. }
    split_and!; [done|by rewrite Ect| |].
    + rewrite Es. change (Elements q') with a. unfold ringCap in *. lia.
    + unfold queueGrownFrom. rewrite Ecap, E. unfold ringCap in *. lia.
  - apply returns_ok. split_and!; [done|done|change (Elements q) with (ringElements q); lia|unfold queueGrownFrom; lia].
Qed.

Lemma queueAdd_returns q v : queueInv q -> ringCap q <= 2 ^ 30 ->
  returns (Add q v) (fun q' => queueInv q' /\ contents q' = contents q ++ [v] /\ queueGrownFrom q q').
Proof.
  intros Hq Hg. pose proof (queueSize_u32 q Hq) as [_ Hu]. unfold Add.
  eapply returns_bind; [by apply GrowCapacity_roomy|]. cbv beta. intros r (Hr & Ec & Hroom & Hgr).
  pose proof Hr as [Hc Hf Hl]. assert (0 <= Tail r < Z.of_nat (length (Elements r))) as Ht by exact Hl.
  apply bind_set; [lia|]. apply returns_ok. rewrite length_insert, queueCap, u32_next, u32_small by (done || lia).
  set (q' := mkQueue _ _ _ _). destruct (push_back r q' v) as [Hi Ec']; [done|done|done|].
  rewrite Ec in Ec'. split_and!; [split; [done|]|done|].
  - rewrite <- contents_length, Ec', length_app, contents_length. cbn. destruct Hq as [_ ->]. lia.
  - unfold queueGrownFrom in *. change (ringCap q') with (Z.of_nat (length (<[Z.to_nat (Tail r):=v]> (Elements r)))).
    rewrite length_insert. exact Hgr.
Qed.

Lemma queueEmpty q : queueInv q -> (Length q <? 1) = (ringSize q =? 0)%nat.
Proof.
  intros [_ ->]. apply Bool.eq_iff_eq_true. rewrite Z.ltb_lt, Nat.eqb_eq. lia.
Qed.

Lemma queueContents_nil (q : JSAPIQueue) : (ringSize q =? 0)%nat = true -> contents q = [].
Proof. intros E%Nat.eqb_eq. apply length_zero_iff_nil. by rewrite contents_length. Qed.

Lemma front_slot q : queueInv q -> (0 < ringSize q)%nat ->
  get (Elements q) (Z.to_nat (Front q)) = get (contents q) 0.
Proof.
  intros [Hq _] Hs. pose proof Hq as [Hc Hf Hl]. pose proof (contents_get q 0 Hq Hs) as H.
  by rewrite Z.add_0_r, Z.mod_small in H by lia.
Qed.

Lemma Pop_returns q : queueInv q ->
  returns (Pop q) (fun '(v, q') => queueInv q' /\ ringCap q' = ringCap q /\
    match contents q with [] => v = Undefined /\ q' = q | x :: rest => v = x /\ contents q' = rest end).
Proof.
  intros Hq. pose proof Hq as [[Hc Hf Hl] El]. unfold Pop. rewrite queueEmpty by done.
  destruct (ringSize q =? 0)%nat eqn:E.
  { rewrite queueContents_nil by done. by apply returns_ok. }
  apply Nat.eqb_neq in E. assert (exists n, ringSize q = S n) as [n En] by (exists (ringSize q - 1)%nat; lia).
  rewrite front_slot by (done || lia).
  assert (0 <= Front q < Z.of_nat (length (Elements q))) as Hb by exact Hf.
  destruct (contents q) as [|x rest] eqn:Ect.
  { apply (f_equal length) in Ect. rewrite contents_length, En in Ect. done. }
  change (get (x :: rest) 0) with (@Ok JSTaggedValue x). rewrite bind_Ok. apply bind_set; [lia|]. apply returns_ok.
  rewrite length_insert, queueCap, u32_next by (done || (change (Front q) with (ringFirst q); lia)).
  set (q' := mkQueue _ _ _ _). destruct (pop_front q q' Hole n) as [Hi Ec]; [by destruct Hq|done|done|].
  rewrite Ect in Ec. injection Ec as Ex Er.
  split_and!; [split; [done|]|change (ringCap q') with (Z.of_nat (length (<[Z.to_nat (Front q):=Hole]> (Elements q)))); by rewrite length_insert| |done].
  - rewrite <- contents_length, <- Er. apply (f_equal length) in Ect. rewrite contents_length in Ect. cbn in *.
    rewrite u32_small by (unfold is_u32; destruct (queueSize_u32 q Hq); change BASE with (2 * 2 ^ 31); lia). lia.
  - done.
Qed.

Lemma GetFirst_eq q : queueInv q -> GetFirst q = Ok (default Undefined (head (contents q))).
Proof.
  intros Hq. unfold GetFirst. rewrite queueEmpty by done. destruct (ringSize q =? 0)%nat eqn:E.
  { by rewrite queueContents_nil. }
  apply Nat.eqb_neq in E. rewrite front_slot by (done || lia). pose proof (contents_length q) as Hl.
  unfold get. destruct (contents q); [cbn in Hl; lia|done].
Qed.

Lemma queueGet_eq q i : queueInv q -> 0 <= i ->
  Get q i = match contents q !! Z.to_nat i with Some v => Ok v | None => Err GetPropertyRange end.
Proof.
  intros Hq Hi. pose proof Hq as [Hr El]. pose proof Hr as [Hc Hf Hl]. pose proof (ringSize_lt q Hr) as Hs.
  unfold Get. rewrite El. destruct (Z.leb_spec (Z.of_nat (ringSize q)) i) as [Hge|Hlt].
  - by rewrite lookup_ge_None_2 by (rewrite contents_length; lia).
  - rewrite queueCap, u32_small by (unfold is_u32, ringCap in *; change (Front q) with (ringFirst q); change BASE with (2 * 2 ^ 31); lia).
    assert (Z.to_nat i < ringSize q)%nat as Hk by lia. pose proof (contents_get q (Z.to_nat i) Hr Hk) as H.
    rewrite Z2Nat.id in H by done. change (ringElements q) with (Elements q) in H. change (ringFirst q) with (Front q) in H.
    rewrite H. unfold get. destruct (lookup_lt_is_Some_2 (contents q) (Z.to_nat i)) as [v Hv]; [rewrite contents_length; lia|].
    by rewrite Hv.
Qed.

Lemma queueHas_eq q v : queueInv q -> Has q v = Ok (existsb (fun e => SameValue e v) (contents q)).
Proof. intros [Hq _]. exact (ringHas_eq q v Hq). Qed.

Lemma queueArrayLength_eq q : queueInv q -> GetArrayLength q = Length q.
Proof.
  intros [Hq ->]. pose proof Hq as [Hc Hf Hl]. unfold GetArrayLength. rewrite queueCap.
  change (Tail q) with (ringLast q). change (Front q) with (ringFirst q).
  rewrite u32_distance by (done || lia). by apply size_range.
Qed.

Lemma queueProperty_eq q key : queueInv q ->
  GetProperty q key =
    match indexKeyOf key with
    | Int i => if i <? 0 then Err IndexRange
               else match contents q !! Z.to_nat i with Some v => Ok v | None => Err IndexRange end
    | _ => Err IndexType
    end.
Proof.
  intros Hq. unfold GetProperty. destruct (indexKeyOf key); try done. destruct (Z.ltb_spec z 0) as [|Hz]; cbn [orb]; [done|].
  rewrite queueGet_eq by done. destruct Hq as [_ ->]. destruct (Z.leb_spec (Z.of_nat (ringSize q)) z) as [Hge|Hlt].
  - by rewrite lookup_ge_None_2 by (rewrite contents_length; lia).
  - destruct (lookup_lt_is_Some_2 (contents q) (Z.to_nat z)) as [v Hv]; [rewrite contents_length; lia|]. by rewrite Hv.
Qed.

(** ** The abstract queue *)

Inductive QueueOp :=
| OpAdd (v : JSTaggedValue)
| OpPop
| OpFirst
| OpHas (v : JSTaggedValue)
| OpSize
| OpGetAt (key : JSTaggedValue).

Definition queueStep (q : JSAPIQueue) (op : QueueOp) : result (Observation * JSAPIQueue) :=
  match op with
  | OpAdd v => '(b, q) ← queue_add (This q) v; Ok (Truth b, q)
  | OpPop => '(v, q) ← queue_pop (This q); Ok (Value v, q)
  | OpFirst => v ← queue_getFirst (This q); Ok (Value v, q)
  | OpHas v => b ← Has q v; Ok (Truth b, q)
  | OpSize => n ← queue_getSize (This q); Ok (Count n, q)
  | OpGetAt key => Ok (match GetProperty q key with Ok v => Value v | Err e => Throws e end, q)
  end.

Definition fifoStep (l : list JSTaggedValue) (op : QueueOp) : Observation * list JSTaggedValue :=
  match op with
  | OpAdd v => (Truth true, l ++ [v])
  | OpPop => match l with [] => (Value Undefined, []) | x :: l' => (Value x, l') end
  | OpFirst => (Value (default Undefined (head l)), l)
  | OpHas v => (Truth (existsb (fun e => SameValue e v) l), l)
  | OpSize => (Count (Z.of_nat (length l)), l)
  | OpGetAt key =>
    (match indexKeyOf key with
     | Int i => if i <? 0 then Throws IndexRange
                else match l !! Z.to_nat i with Some v => Value v | None => Throws IndexRange end
     | _ => Throws IndexType
     end, l)
  end.

Fixpoint queueRun (q : JSAPIQueue) (ops : list QueueOp) : result (list Observation * JSAPIQueue) :=
  match ops with
  | [] => Ok ([], q)
  | op :: ops => '(o, q) ← queueStep q op; '(os, q) ← queueRun q ops; Ok (o :: os, q)
  end.

Fixpoint fifoRun (l : list JSTaggedValue) (ops : list QueueOp) : list Observation * list JSTaggedValue :=
  match ops with
  | [] => ([], l)
  | op :: ops => let '(o, l) := fifoStep l op in let '(os, l) := fifoRun l ops in (o :: os, l)
  end.

Lemma queueStep_simulates q op : queueInv q -> ringCap q <= 2 ^ 30 ->
  returns (queueStep q op) (fun '(o, q') =>
    queueInv q' /\ (o, contents q') = fifoStep (contents q) op /\ queueGrownFrom q q').
Proof.
  intros Hq Hg. assert (queueGrownFrom q q) as Hrefl by (unfold queueGrownFrom; lia).
  destruct op; cbn [queueStep fifoStep]; unfold queue_add, queue_pop, queue_getFirst, queue_getSize;
    cbn [receive]; rewrite ?bind_Ok, ?bind_assoc.
  - eapply returns_bind; [by apply queueAdd_returns|]. cbv beta. intros q' (Hi & Ec & Hgr). apply returns_ok. by rewrite Ec.
  - eapply returns_bind; [by apply Pop_returns|]. intros [v q'] (Hi & Hc & H). apply returns_ok.
    split_and!; [done| |unfold queueGrownFrom; lia].
    destruct (contents q) eqn:Ed; destruct H as [-> H]; [by rewrite H, Ed|by rewrite H].
  - rewrite GetFirst_eq by done. by apply returns_ok.
  - rewrite queueHas_eq by done. by apply returns_ok.
  - apply returns_ok. rewrite contents_length. destruct Hq as [Hr El]. by rewrite El.
  - apply returns_ok. rewrite queueProperty_eq by done. split_and!; [done| |done].
    destruct (indexKeyOf key); try done. destruct (z <? 0); [done|]. by destruct (contents q !! Z.to_nat z).
Qed.

Lemma fifoStep_length l op : (length (fifoStep l op).2 <= S (length l))%nat.
Proof.
  destruct op; cbn; try lia.
  - rewrite length_app. cbn. lia.
  - destruct l; cbn; lia.
Qed.

Lemma queueRun_simulates ops q k : queueInv q -> (length (contents q) <= k)%nat ->
  ringCap q <= Z.max 8 (2 * Z.of_nat (S k)) -> Z.of_nat (k + length ops) < 2 ^ 29 ->
  returns (queueRun q ops) (fun '(os, q') => queueInv q' /\ (os, contents q') = fifoRun (contents q) ops).
Proof.
  revert q k. induction ops as [|op ops IH]; intros q k Hq Hk Hc Hlen; cbn [queueRun fifoRun].
  { by apply returns_ok. }
  cbn [length] in Hlen. eapply returns_bind; [apply queueStep_simulates; [done|lia]|].
  intros [o q1] (Hq1 & Es & Hg). rewrite <- Es. unfold queueGrownFrom in Hg. rewrite contents_length in Hk.
  pose proof (fifoStep_length (contents q) op) as Hl. rewrite <- Es in Hl. cbn [snd] in Hl. rewrite contents_length in Hl.
  eapply returns_bind; [apply (IH q1 (S k)); [done| | |]|]; [rewrite contents_length in *; lia|lia|lia|].
  intros [os q2] (Hq2 & Er). apply returns_ok. rewrite <- Er. done.
Qed.

Lemma newQueue_inv : queueInv newQueue.
Proof. split; [split; by vm_compute|by vm_compute]. Qed.

Lemma queueNextPosition_eq q i : queueInv q -> 0 <= i < Length q - 1 -> GetNextPosition q i = i + 1.
Proof.
  intros [Hq El] Hi. pose proof Hq as [Hc Hf Hl]. pose proof (ringSize_lt q Hq) as Hs.
  unfold GetNextPosition. rewrite queueCap, u32_next by (unfold ringCap in *; lia). apply Z.mod_small.
  unfold ringCap in *. lia.
Qed.

Lemma queueForEach_pure {W} (cb : Callback W JSAPIQueue) f q : queueInv q -> pureCallback cb f ->
  forall n k w index, (k + n = ringSize q)%nat -> (n <> 0%nat -> index = Z.of_nat k) ->
  exists index',
    for_up n k (fun k '(w, q, index) =>
      kValue ← Get q index;
      let index := GetNextPosition q index in
      '(_, w, q) ← cb w q kValue (Z.of_nat k);
      Ok (w, q, index)) (w, q, index) = Ok ((mapCalls f w (Z.of_nat k) (drop k (contents q))).2, q, index').
Proof.
  intros Hq Hcb. pose proof Hq as [Hr El]. pose proof (contents_length q) as Ec.
  induction n as [|n IH]; intros k w index Hn Hi; cbn [for_up].
  - exists index. by rewrite drop_ge by lia.
  - rewrite (Hi ltac:(done)). rewrite queueGet_eq, Nat2Z.id by (done || lia).
    destruct (lookup_lt_is_Some_2 (contents q) k) as [v Hv]; [lia|].
    rewrite Hv, bind_Ok, Hcb, bind_Ok, (drop_S _ _ _ Hv). cbn [mapCalls]. destruct (f w v (Z.of_nat k)) as [r w1].
    cbn [fst snd]. rewrite bind_Ok. destruct (IH (S k) w1 (GetNextPosition q (Z.of_nat k))) as [index' E]; [lia| |].
    + intros Hne. rewrite queueNextPosition_eq by (done || lia). lia.
    + exists index'. cbv zeta in E. rewrite E. replace (Z.of_nat (S k)) with (Z.of_nat k + 1) by lia.
      by destruct (mapCalls f w1 (Z.of_nat k + 1) (drop (S k) (contents q))).
Qed.

(** ** Theorems *)

(** The queue implements a first in, first out list: any sequence of fewer than [2 ^ 29]
    operations on a new queue yields exactly the results of the same operations on a list. *)
Theorem Queue_refines_fifo ops q0 (Hq0 : QueueConstructor true = Ok q0) (Hlen : Z.of_nat (length ops) < 2 ^ 29) :
  exists q, queueRun q0 ops = Ok ((fifoRun [] ops).1, q) /\
    contents q = (fifoRun [] ops).2 /\ queueInv q.
Proof.
  injection Hq0 as <-. pose proof (queueRun_simulates ops newQueue 0 newQueue_inv ltac:(by vm_compute) ltac:(by vm_compute) Hlen) as H.
  apply returns_iff in H as ([os q] & -> & Hq & E).
  change (contents newQueue) with (@nil JSTaggedValue) in E. exists q. by rewrite <- E.
Qed.

Lemma Queue_refines_fifo_witness :
  exists q, queueRun newQueue [OpAdd (Int 1); OpAdd (Int 2); OpPop; OpGetAt (Int 0)]
      = Ok ([Truth true; Truth true; Value (Int 1); Value (Int 2)], q) /\ contents q = [Int 2] /\ queueInv q.
Proof. apply (Queue_refines_fifo [OpAdd (Int 1); OpAdd (Int 2); OpPop; OpGetAt (Int 0)] newQueue); [done|by vm_compute]. Defined.

(** [forEach] with a callback that leaves the queue alone calls it once per element, in queue
    order, with the position of the element as the key. *)
Theorem Queue_forEach_correct {W} (self : Receiver JSAPIQueue) q (cb : Callback W JSAPIQueue) f w :
  receive "forEach" self = Ok q -> queueInv q -> pureCallback cb f ->
  queue_forEach self (Some cb) w = Ok ((mapCalls f w 0 (contents q)).2, q).
Proof.
  intros Hself Hq Hcb. unfold queue_forEach. rewrite Hself, bind_Ok. cbv zeta. pose proof Hq as [Hr El].
  rewrite queueArrayLength_eq by done. rewrite El, Nat2Z.id.
  destruct (queueForEach_pure cb f q Hq Hcb (ringSize q) 0 w 0 ltac:(lia) ltac:(done)) as [i E]. cbv zeta in E.
  by rewrite E.
Qed.

(** Writing an element of a queue by index does not write the element read by that index
    once an element has been popped: [Set] uses the index as a slot, [Get] as a distance from
    the front. *)
Theorem Queue_Set_ignores_front :
  exists q q', queueInv q /\ contents q = [Int 2; Int 3] /\ Set_ q 0 (Int 9) = Ok q' /\ contents q' = [Int 2; Int 3].
Proof.
  exists (mkQueue [Hole; Int 2; Int 3; Hole] 2 1 3), (mkQueue [Int 9; Int 2; Int 3; Hole] 2 1 3).
  split_and!; [split; [split; by vm_compute|by vm_compute]|by vm_compute..].
Qed.
