(* ===== verification/Stack.v ===== *)
(** * The stack container

    [JSAPIStack] of src/ecmascript/js_api/js_api_stack.h and js_api_stack.cpp, its iterator
    (js_api_stack_iterator.cpp) and the methods of src/ecmascript/containers/containers_stack.cpp.
    The elements are the first [Top + 1] slots of a tagged array. *)

From Stdlib Require Import ZArith Lia.
From S2P Require Import Prelude Double Values Containers TaggedArray.

(** ** Model *)

Record JSAPIStack := mkStack { Elements : list JSTaggedValue; Top : Z }.

Definition DEFAULT_CAPACITY_LENGTH : Z := 10.

(** A new object has the empty array as elements; the error of a direct call names the list. *)
Definition newStack : JSAPIStack := mkStack [] (-1).
Definition StackConstructor (newTarget : bool) : result JSAPIStack :=
  if negb newTarget then Err (DirectCall "The List") else Ok newStack.

Definition ComputeCapacity (oldCapacity : Z) : Z :=
  let newCapacity := u32 (oldCapacity + Z.shiftr oldCapacity 1) in
  if DEFAULT_CAPACITY_LENGTH <? newCapacity then newCapacity else DEFAULT_CAPACITY_LENGTH.

Definition Empty (s : JSAPIStack) : bool := Top s =? -1.
Definition GetSize (s : JSAPIStack) : Z := Top s.

(** Returns the elements, which are those of the updated stack. *)
Definition GrowCapacity (s : JSAPIStack) (capacity : Z) : result (list JSTaggedValue) :=
  let oldLength := Z.of_nat (length (Elements s)) in
  if capacity <? oldLength then Ok (Elements s)
  else CopyArray (Elements s) oldLength (ComputeCapacity capacity).

Definition Push (s : JSAPIStack) (value : JSTaggedValue) : result (JSTaggedValue * JSAPIStack) :=
  let top := Top s in
  elements ← GrowCapacity s (u32 (top + 1));
  elements ← set elements (Z.to_nat (top + 1)) value;
  Ok (value, mkStack elements (top + 1)).

Definition Peek (s : JSAPIStack) : result JSTaggedValue :=
  let top := Top s in
  if top =? -1 then Ok Undefined else get (Elements s) (Z.to_nat top).

Definition Pop (s : JSAPIStack) : result (JSTaggedValue * JSAPIStack) :=
  let top := Top s in
  if top =? -1 then Ok (Undefined, s) else
  value ← get (Elements s) (Z.to_nat top);
  elements ← set (Elements s) (Z.to_nat top) Hole;
  Ok (value, mkStack elements (top - 1)).

(** [value == elements->Get(i)] compares raw values. *)
Definition Search (s : JSAPIStack) (value : JSTaggedValue) : result Z :=
  findUp (rawEq value) (Elements s) (Z.to_nat (Top s + 1)) 0.

Definition Get (s : JSAPIStack) (index : Z) : result JSTaggedValue := get (Elements s) (Z.to_nat index).

Definition Set_ (s : JSAPIStack) (index : Z) (value : JSTaggedValue) : result JSAPIStack :=
  let length_ := GetSize s + 1 in
  if length_ <=? index then Ok s else
  elements ← set (Elements s) (Z.to_nat index) value;
  Ok (mkStack elements (Top s)).

Definition Has (s : JSAPIStack) (value : JSTaggedValue) : result bool :=
  let top := Top s in
  if top =? -1 then Ok false else
  i ← findUp (fun e => SameValue e value) (Elements s) (Z.to_nat (top + 1)) 0;
  Ok (negb (i <? 0)).

Definition GetProperty (s : JSAPIStack) (key : JSTaggedValue) : result JSTaggedValue :=
  let length_ := Top s + 1 in
  if length_ =? 0 then Err ContainerEmpty else
  match indexKeyOf key with
  | Int index => if (index <? 0) || (length_ <=? index) then Err IndexRange else Get s index
  | _ => Err IndexType
  end.

Definition SetProperty (s : JSAPIStack) (key value : JSTaggedValue) : result (bool * JSAPIStack) :=
  let length_ := Top s + 1 in
  match indexKeyOf key with
  | Int index => if (index <? 0) || (length_ <=? index) then Ok (false, s)
                 else s ← Set_ s index value; Ok (true, s)
  | _ => Ok (false, s)
  end.

Record StackIterator := mkStackIterator { attached : bool; NextIndex : Z }.

(** Returns [None] when done, or the value; and the updated iterator. *)
Definition Next (s : JSAPIStack) (iter : StackIterator) : result (option JSTaggedValue * StackIterator) :=
  if negb (attached iter) then Ok (None, iter) else
  let index := NextIndex iter in
  let length_ := u32 (GetSize s + 1) in
  if length_ <? u32 (index + 1) then Ok (None, mkStackIterator false index)
  else
    value ← Get s index;
    Ok (Some value, mkStackIterator true (u32 (index + 1))).

(** The methods. *)
Definition stack_isEmpty (self : Receiver JSAPIStack) : result bool :=
  s ← receive "isEmpty" self; Ok (Empty s).
Definition stack_push (self : Receiver JSAPIStack) (value : JSTaggedValue) : result (JSTaggedValue * JSAPIStack) :=
  s ← receive "push" self; Push s value.
Definition stack_peek (self : Receiver JSAPIStack) : result JSTaggedValue :=
  s ← receive "peek" self; Peek s.
Definition stack_locate (self : Receiver JSAPIStack) (value : JSTaggedValue) : result Z :=
  s ← receive "locate" self; Search s value.
Definition stack_pop (self : Receiver JSAPIStack) : result (JSTaggedValue * JSAPIStack) :=
  s ← receive "pop" self; Pop s.
Definition stack_getLength (self : Receiver JSAPIStack) : result Z :=
  s ← receive "getLength" self; Ok (GetSize s + 1).
Definition stack_iterator (self : Receiver JSAPIStack) : result StackIterator :=
  _ ← receive "Symbol.iterator" self; Ok (mkStackIterator true 0).

(** [callbackfn] is [None] when it is not callable.  The number of calls is fixed before the
    first one; a callback that pops elements makes the later calls see holes. *)
Definition stack_forEach {W} (self : Receiver JSAPIStack) (callbackfn : option (Callback W JSAPIStack)) (w : W)
  : result (W * JSAPIStack) :=
  s ← receive "forEach" self;
  let len := GetSize s in
  match callbackfn with
  | None => Err NotCallable
  | Some f =>
    let actLen := u32 (len + 1) in
    for_up (Z.to_nat actLen) 0 (fun k '(w, s) =>
      kValue ← Get s (Z.of_nat k);
      '(_, w, s) ← f w s kValue (Z.of_nat k);
      Ok (w, s)) (w, s)
  end.

(** ** The list a stack holds, bottom first *)

Definition stackSize (s : JSAPIStack) : nat := Z.to_nat (Top s + 1).
Definition stackContents (s : JSAPIStack) : list JSTaggedValue := take (stackSize s) (Elements s).

Record stackInv (s : JSAPIStack) : Prop := {
  stack_top : -1 <= Top s;
  stack_fits : (stackSize s <= length (Elements s))%nat;
  stack_small : Z.of_nat (length (Elements s)) < 2 ^ 31
}.

Lemma stackContents_length s : stackInv s -> length (stackContents s) = stackSize s.
Proof. intros [_ Hf _]. unfold stackContents. rewrite length_take. lia. Qed.

Lemma stackTop_eq s : stackInv s -> Top s = Z.of_nat (stackSize s) - 1.
Proof. intros [Ht _ _]. unfold stackSize. lia. Qed.

Lemma stackCapacity_grows c : 0 <= c < 2 ^ 30 ->
  c < ComputeCapacity c <= Z.max 10 (c + c / 2).
Proof. apply halfAgain_grows. Qed.

(** The capacity stays within a factor of the size when it was reached. *)
Definition stackRoom (k : nat) (s : JSAPIStack) : Prop := Z.of_nat (length (Elements s)) <= 10 + 2 * Z.of_nat k.

Lemma Push_returns s v : stackInv s -> Top s + 1 < 2 ^ 30 ->
  returns (Push s v) (fun '(r, s') => r = v /\ stackInv s' /\ stackContents s' = stackContents s ++ [v] /\
    Z.of_nat (length (Elements s')) <= Z.max (Z.of_nat (length (Elements s))) (Z.max 10 (2 * Z.of_nat (stackSize s)))).
Proof.
  intros Hs Hlt. pose proof (stackTop_eq s Hs) as Et. pose proof Hs as [Ht Hf Hm]. unfold Push.
  rewrite u32_small by (unfold is_u32; rewrite BASE_eq; lia).
  eapply (returns_bind _ (fun e => take (stackSize s) e = stackContents s /\ (stackSize s < length e)%nat /\
    Z.of_nat (length e) < 2 ^ 31 /\ Z.of_nat (length e) <= Z.max (Z.of_nat (length (Elements s))) (Z.max 10 (2 * Z.of_nat (stackSize s))))).
  { unfold GrowCapacity. destruct (Z.ltb_spec (Top s + 1) (Z.of_nat (length (Elements s)))).
    - apply returns_ok. unfold stackContents. split_and!; [done|lia|lia|lia].
    - assert (0 <= Top s + 1 < 2 ^ 30) as Hb by lia. pose proof (stackCapacity_grows _ Hb) as Hg.
      assert (length (Elements s) = stackSize s) as El by lia.
      unfold CopyArray, ExtendArray. rewrite El. replace (Top s + 1) with (Z.of_nat (stackSize s)) in * by lia.
      destruct (Z.eqb_spec (ComputeCapacity (Z.of_nat (stackSize s))) 0); [lia|].
      destruct (Z.ltb_spec (Z.of_nat (stackSize s)) (ComputeCapacity (Z.of_nat (stackSize s)))); [|lia].
      destruct (Z.ltb_spec (ComputeCapacity (Z.of_nat (stackSize s))) (Z.of_nat (stackSize s))); [lia|].
      pose proof (Z.div_mod (Z.of_nat (stackSize s)) 2 ltac:(lia)). pose proof (Z.mod_pos_bound (Z.of_nat (stackSize s)) 2 ltac:(lia)).
      apply returns_ok. unfold stackContents. rewrite length_app, length_replicate, take_app_le by lia.
      split_and!; [done|lia|lia|lia]. }
  intros e (Ee & He & Hm' & Hc). apply bind_set; [unfold stackSize in *; lia|]. apply returns_ok.
  assert (stackSize (mkStack (<[Z.to_nat (Top s + 1):=v]> e) (Top s + 1)) = S (stackSize s)) as Es
    by (unfold stackSize; cbn [Top]; lia).
  split_and!; [done| | |cbn [Elements]; rewrite length_insert; lia].
  - split; rewrite ?Es; cbn [Elements Top]; rewrite ?length_insert; lia.
  - unfold stackContents at 1. rewrite Es. cbn [Elements]. fold (stackSize s).
    rewrite (take_S_r _ _ v) by (apply list_lookup_insert_eq; lia).
    by rewrite take_insert_ge, Ee by lia.
Qed.

Lemma stackEmpty_eq s : stackInv s -> (Top s =? -1) = match stackContents s with [] => true | _ => false end.
Proof.
  intros Hs. pose proof (stackContents_length s Hs) as El. pose proof (stackTop_eq s Hs).
  destruct (stackContents s); cbn in El; [apply Z.eqb_eq|apply Z.eqb_neq]; lia.
Qed.

Lemma stackTop_lookup s : stackInv s -> stackContents s <> [] ->
  Elements s !! Z.to_nat (Top s) = last (stackContents s) /\ Z.to_nat (Top s) = (stackSize s - 1)%nat /\ (0 < stackSize s)%nat.
Proof.
  intros Hs Hne. pose proof (stackContents_length s Hs) as El. pose proof (stackTop_eq s Hs). pose proof Hs as [_ Hf _].
  assert (0 < stackSize s)%nat by (destruct (stackContents s); [done|cbn in El; lia]).
  split_and!; [|lia|lia]. rewrite last_lookup, El. unfold stackContents. rewrite lookup_take_lt by lia. f_equal. lia.
Qed.

Lemma Peek_eq s : stackInv s -> Peek s = Ok (default Undefined (last (stackContents s))).
Proof.
  intros Hs. unfold Peek. rewrite stackEmpty_eq by done. destruct (stackContents s) as [|x l] eqn:E; [done|].
  destruct (stackTop_lookup s Hs) as (Hl & _); [by rewrite E|]. rewrite E in Hl.
  unfold get. rewrite Hl. by destruct (last_is_Some (x :: l)) as [_ [v ->]].
Qed.

Lemma stackPop_returns s : stackInv s ->
  returns (Pop s) (fun '(v, s') => v = default Undefined (last (stackContents s)) /\ stackInv s' /\
    stackContents s' = take (length (stackContents s) - 1) (stackContents s) /\ length (Elements s') = length (Elements s)).
Proof.
  intros Hs. unfold Pop. rewrite stackEmpty_eq by done. destruct (stackContents s) as [|x l] eqn:E.
  { apply returns_ok. by rewrite E. }
  rewrite <- E. destruct (stackTop_lookup s Hs) as (Hl & Et & Hpos); [by rewrite E|]. pose proof Hs as [Ht Hf Hm].
  destruct (last_is_Some (stackContents s)) as [_ [v Hv]]; [by rewrite E|]. rewrite Hv in *.
  unfold get. rewrite Hl, bind_Ok. apply bind_set; [lia|]. apply returns_ok.
  assert (stackSize (mkStack (<[Z.to_nat (Top s):=Hole]> (Elements s)) (Top s - 1)) = (stackSize s - 1)%nat) as Es
    by (unfold stackSize in *; cbn [Top]; lia).
  split_and!; [done| | |cbn [Elements]; by rewrite length_insert].
  - pose proof (stackTop_eq s Hs). split; rewrite ?Es; cbn [Elements Top]; rewrite ?length_insert; lia.
  - rewrite stackContents_length by done. unfold stackContents. rewrite Es. cbn [Elements].
    rewrite take_insert_ge, take_take by lia. f_equal. lia.
Qed.

Lemma stackHas_eq s v : stackInv s -> Has s v = Ok (existsb (fun e => SameValue e v) (stackContents s)).
Proof.
  intros Hs. unfold Has. rewrite stackEmpty_eq by done. destruct (stackContents s) eqn:E; [done|].
  rewrite findUp_prefix by apply Hs.
  change (take (Z.to_nat (Top s + 1)) (Elements s)) with (stackContents s). rewrite E, bind_Ok. by rewrite indexWhere_found.
Qed.

Lemma Search_eq s v : stackInv s -> Search s v = Ok (indexWhere (rawEq v) (stackContents s)).
Proof. intros Hs. unfold Search. by rewrite findUp_prefix by apply Hs. Qed.

Lemma stackGet_eq s i : stackInv s -> 0 <= i < Z.of_nat (stackSize s) ->
  Get s i = match stackContents s !! Z.to_nat i with Some v => Ok v | None => Err IndexRange end.
Proof.
  intros Hs Hi. unfold Get, get, stackContents. rewrite lookup_take_lt by lia. pose proof Hs as [_ Hf _].
  destruct (lookup_lt_is_Some_2 (Elements s) (Z.to_nat i)) as [v ->]; [lia|done].
Qed.

Lemma stackProperty_eq s key : stackInv s ->
  GetProperty s key =
    match stackContents s with
    | [] => Err ContainerEmpty
    | _ => match indexKeyOf key with
           | Int i => if i <? 0 then Err IndexRange
                      else match stackContents s !! Z.to_nat i with Some v => Ok v | None => Err IndexRange end
           | _ => Err IndexType
           end
    end.
Proof.
  intros Hs. unfold GetProperty. pose proof (stackContents_length s Hs) as El. pose proof (stackTop_eq s Hs) as Et.
  replace (Top s + 1) with (Z.of_nat (stackSize s)) by lia.
  destruct (stackContents s) as [|x l] eqn:E; cbn [length] in El.
  { by rewrite <- El. }
  destruct (Z.eqb_spec (Z.of_nat (stackSize s)) 0); [lia|]. destruct (indexKeyOf key); try done.
  destruct (Z.ltb_spec z 0) as [|Hz]; cbn [orb]; [done|]. destruct (Z.leb_spec (Z.of_nat (stackSize s)) z).
  - by rewrite lookup_ge_None_2 by (cbn; lia).
  - rewrite stackGet_eq by (done || lia). by rewrite E.
Qed.

Lemma stackSetProperty_returns s key v : stackInv s ->
  returns (SetProperty s key v) (fun '(ok, s') => stackInv s' /\ length (Elements s') = length (Elements s) /\
    match indexKeyOf key with
    | Int i => if (0 <=? i) && (Z.to_nat i <? length (stackContents s))%nat
               then ok = true /\ stackContents s' = <[Z.to_nat i := v]> (stackContents s)
               else ok = false /\ s' = s
    | _ => ok = false /\ s' = s
    end).
Proof.
  intros Hs. unfold SetProperty. rewrite stackContents_length by done. pose proof (stackTop_eq s Hs) as Et.
  replace (Top s + 1) with (Z.of_nat (stackSize s)) by lia.
  destruct (indexKeyOf key); try (by apply returns_ok).
  destruct (Z.ltb_spec z 0), (Z.leb_spec 0 z); try lia; cbn [orb andb]; [by apply returns_ok|].
  destruct (Z.leb_spec (Z.of_nat (stackSize s)) z), (Nat.ltb_spec (Z.to_nat z) (stackSize s)); try lia; [by apply returns_ok|].
  unfold Set_, GetSize. rewrite Et. destruct (Z.leb_spec (Z.of_nat (stackSize s) - 1 + 1) z); [lia|].
  pose proof Hs as [Ht Hf Hm]. rewrite bind_assoc. apply bind_set; [lia|]. rewrite bind_Ok. apply returns_ok. rewrite <- Et.
  split_and!; [|cbn; by rewrite length_insert|done|].
  - split; cbn [Top Elements]; rewrite ?length_insert; done.
  - unfold stackContents. change (stackSize (mkStack _ _)) with (stackSize s). cbn [Elements]. by rewrite take_insert_lt by lia.
Qed.

(** ** The abstract stack *)

Inductive StackOp :=
| OpPush (v : JSTaggedValue)
| OpPop
| OpPeek
| OpIsEmpty
| OpLocate (v : JSTaggedValue)
| OpLength
| OpHas (v : JSTaggedValue)
| OpGetAt (key : JSTaggedValue)
| OpSetAt (key v : JSTaggedValue).

Definition stackStep (s : JSAPIStack) (op : StackOp) : Observation * JSAPIStack :=
  match op with
  | OpPush v => observe s Value (stack_push (This s) v)
  | OpPop => observe s Value (stack_pop (This s))
  | OpPeek => observeRead s Value (stack_peek (This s))
  | OpIsEmpty => observeRead s Truth (stack_isEmpty (This s))
  | OpLocate v => observeRead s Count (stack_locate (This s) v)
  | OpLength => observeRead s Count (stack_getLength (This s))
  | OpHas v => observeRead s Truth (Has s v)
  | OpGetAt key => observeRead s Value (GetProperty s key)
  | OpSetAt key v => observe s Truth (SetProperty s key v)
  end.

(** Bottom first; the top is the last element. *)
Definition lifoStep (l : list JSTaggedValue) (op : StackOp) : Observation * list JSTaggedValue :=
  match op with
  | OpPush v => (Value v, l ++ [v])
  | OpPop => (Value (default Undefined (last l)), take (length l - 1) l)
  | OpPeek => (Value (default Undefined (last l)), l)
  | OpIsEmpty => (Truth (match l with [] => true | _ => false end), l)
  | OpLocate v => (Count (indexWhere (rawEq v) l), l)
  | OpLength => (Count (Z.of_nat (length l)), l)
  | OpHas v => (Truth (existsb (fun e => SameValue e v) l), l)
  | OpGetAt key =>
    (match l with
     | [] => Throws ContainerEmpty
     | _ => match indexKeyOf key with
            | Int i => if i <? 0 then Throws IndexRange
                       else match l !! Z.to_nat i with Some v => Value v | None => Throws IndexRange end
            | _ => Throws IndexType
            end
     end, l)
  | OpSetAt key v =>
    match indexKeyOf key with
    | Int i => if (0 <=? i) && (Z.to_nat i <? length l)%nat then (Truth true, <[Z.to_nat i := v]> l)
               else (Truth false, l)
    | _ => (Truth false, l)
    end
  end.

(** After [k] operations. *)
Definition stackRep (k : nat) (s : JSAPIStack) (l : list JSTaggedValue) : Prop :=
  stackInv s /\ stackContents s = l /\ (length l <= k)%nat /\ Z.of_nat (length (Elements s)) <= 10 + 2 * Z.of_nat k.

Lemma stackStep_simulates k s l op : stackRep k s l -> Z.of_nat k < 2 ^ 29 ->
  (stackStep s op).1 = (lifoStep l op).1 /\ stackRep (S k) (stackStep s op).2 (lifoStep l op).2.
Proof.
  intros (Hs & <- & Hk & Hc) Hb. pose proof (stackContents_length s Hs) as El. pose proof (stackTop_eq s Hs) as Et.
  assert (stackRep (S k) s (stackContents s)) as Hsame by (split_and!; [done|done|lia|lia]).
  destruct op; cbn [stackStep lifoStep]; unfold stack_push, stack_pop, stack_peek, stack_isEmpty, stack_locate, stack_getLength;
    cbn [receive]; rewrite ?bind_Ok; unfold observeRead; cbn [fst snd].
  - edestruct (observe_returns s Value) as (r & s' & -> & H); [apply Push_returns; [done|lia]|].
    destruct H as (-> & Hi & Ec & Hcap).
    split; [done|]. cbn [snd]. split_and!; [done|by rewrite Ec|rewrite length_app; cbn; lia|lia].
  - edestruct (observe_returns s Value) as (r & s' & -> & H); [by apply stackPop_returns|].
    destruct H as (-> & Hi & Ec & Hcap).
    split; [done|]. cbn [snd]. split_and!; [done|by rewrite Ec|rewrite length_take; lia|lia].
  - by rewrite Peek_eq.
  - split; [|done]. unfold Empty. by rewrite stackEmpty_eq.
  - by rewrite Search_eq.
  - split; [|done]. unfold GetSize. do 2 f_equal. lia.
  - by rewrite stackHas_eq.
  - rewrite stackProperty_eq by done. split; [|done]. destruct (stackContents s) as [|x l]; [done|].
    generalize (x :: l). intros l'. destruct (indexKeyOf key); try done. destruct (z <? 0); [done|]. by destruct (l' !! Z.to_nat z).
  - edestruct (observe_returns s Truth) as (ok & s' & -> & H); [by apply stackSetProperty_returns|].
    destruct H as (Hi & Hcap & H). cbn [fst snd].
    destruct (indexKeyOf key); try (by destruct H as [-> ->]).
    destruct ((0 <=? z) && _); destruct H as [-> H]; cbn [fst snd]; [|by subst s'].
    split; [done|]. split_and!; [done|done|rewrite length_insert; lia|lia].
Qed.

Lemma newStack_rep : stackRep 0 newStack [].
Proof. split_and!; [split; by vm_compute|done|done|by vm_compute]. Qed.

(** ** Theorems *)

(** The stack implements a last in, first out list: any sequence of at most [2 ^ 29] calls
    on a new stack (push, pop, peek, isEmpty, locate, length, element reads and writes by
    index) is observed exactly as on a list whose last element is the top, errors included. *)
Theorem Stack_refines_lifo ops s0 : StackConstructor true = Ok s0 -> Z.of_nat (length ops) <= 2 ^ 29 ->
  (run stackStep s0 ops).1 = (runSpec lifoStep [] ops).1 /\
  stackContents (run stackStep s0 ops).2 = (runSpec lifoStep [] ops).2 /\
  stackInv (run stackStep s0 ops).2.
Proof.
  intros [= <-] Hlen. destruct (run_simulates stackStep lifoStep (fun _ => True) stackRep (Z.to_nat (2 ^ 29))) with
    (ops := ops) (k := 0%nat) (c := newStack) (l := @nil JSTaggedValue) as [Eo (Hi & Ec & _)].
  - intros k s l op HR Hb _. apply stackStep_simulates; [done|lia].
  - apply newStack_rep.
  - lia.
  - by apply Forall_true.
  - done.
Qed.

Lemma Stack_refines_lifo_witness :
  (run stackStep newStack [OpPush (Int 1); OpPush (Int 2); OpLocate (Int 2); OpPop; OpGetAt (Int 1)]).1
    = [Value (Int 1); Value (Int 2); Count 1; Value (Int 2); Throws IndexRange].
Proof.
  exact (proj1 (Stack_refines_lifo [OpPush (Int 1); OpPush (Int 2); OpLocate (Int 2); OpPop; OpGetAt (Int 1)]
    newStack eq_refl ltac:(by vm_compute))).
Defined.

(** [forEach] calls a callback that leaves the stack alone once per element, from the bottom up,
    with the position as the key. *)
Theorem Stack_forEach_correct {W} (self : Receiver JSAPIStack) s (cb : Callback W JSAPIStack) f w :
  stackInv s -> receive "forEach" self = Ok s -> pureCallback cb f ->
  stack_forEach self (Some cb) w = Ok ((mapCalls f w 0 (stackContents s)).2, s).
Proof.
  intros Hs Hself Hcb. unfold stack_forEach. rewrite Hself, bind_Ok. unfold GetSize.
  pose proof Hs as [Ht Hf Hm]. pose proof (stackTop_eq s Hs).
  rewrite u32_small by (unfold is_u32; rewrite BASE_eq; lia).
  change (Z.to_nat (Top s + 1)) with (stackSize s). rewrite <- stackContents_length by done.
  apply (forEach_pure cb f (fun s k => Get s (Z.of_nat k))); [done|]. intros k v Hv. cbn [Nat.add].
  pose proof (lookup_lt_Some _ _ _ Hv) as Hlt. rewrite stackContents_length in Hlt by done.
  rewrite stackGet_eq by (done || lia). by rewrite Nat2Z.id, Hv.
Qed.

(** A finished iterator stays finished; otherwise it yields the element at its position. *)
Lemma stackNext_eq s i : stackInv s -> (i <= stackSize s)%nat ->
  Next s (mkStackIterator true (Z.of_nat i)) =
    Ok (match stackContents s !! i with
        | Some v => (Some v, mkStackIterator true (Z.of_nat (S i)))
        | None => (None, mkStackIterator false (Z.of_nat i))
        end).
Proof.
  intros Hs Hi. pose proof Hs as [Ht Hf Hm]. pose proof (stackTop_eq s Hs). pose proof (stackContents_length s Hs).
  unfold Next, GetSize. cbn [attached NextIndex negb]. rewrite !u32_small by (unfold is_u32; rewrite BASE_eq; lia).
  destruct (Z.ltb_spec (Top s + 1) (Z.of_nat i + 1)).
  - by rewrite lookup_ge_None_2 by lia.
  - rewrite stackGet_eq, Nat2Z.id by (done || lia).
    destruct (lookup_lt_is_Some_2 (stackContents s) i) as [v ->]; [lia|]. rewrite bind_Ok. do 3 f_equal. lia.
Qed.
