(* ===== verification/Vector.v ===== *)
(** * The vector container

    [JSAPIVector] of src/ecmascript/js_api/js_api_vector.h and js_api_vector.cpp, its iterator
    (js_api_vector_iterator.cpp) and the methods of src/ecmascript/containers/containers_vector.cpp.
    The elements are the first [Length] slots of a tagged array.  [ToString] and the property
    descriptors are not modelled. *)

From Stdlib Require Import ZArith Lia.
From S2P Require Import Prelude Double Values BigIntNum NumberHelper Containers TaggedArray.

(** ** Model *)

Record JSAPIVector := mkVector { Elements : list JSTaggedValue; Length : Z }.

Definition DEFAULT_CAPACITY_LENGTH : Z := 10.
Definition MAX_VALUE : Z := 0x7fffffff.
Definition MAX_ARRAY_SIZE : Z := MAX_VALUE - 8.

Definition OutOfBoundsIndex : error := RangeError "the index is out-of-bounds".
Definition NoSuchElement : error := RangeError "no-such-element".
Definition LastIndexRange : error := RangeError "index-out-of-bounds".
Definition RangeOrder : error := RangeError "the fromIndex cannot be less than or equal to toIndex".
Definition RangeBounds : error := RangeError "the fromIndex or the toIndex is out-of-bounds".
Definition IncorrectSize : error := RangeError "An incorrect size was set".
Definition NotVector : error := TypeError "obj is not JSAPIVector".
Definition IndexNotNumber : error := TypeError "The passed in index needs to be number".
Definition ParameterNotNumber : error := TypeError "The passed in parameter needs to be number".
Definition VectorNotCallable : error := TypeError "the callbackfun is not callable.".

(** [newTarget] is whether the call was made with [new]. *)
Definition VectorConstructor (newTarget : bool) : result JSAPIVector :=
  if negb newTarget then Err (TypeError "new target can't be undefined")
  else Ok (mkVector (replicate (Z.to_nat DEFAULT_CAPACITY_LENGTH) Hole) 0).

Definition NewJSAPIVector (capacity : Z) : JSAPIVector := mkVector (replicate (Z.to_nat capacity) Hole) 0.

Definition GetSize (v : JSAPIVector) : Z := Length v.
Definition GetCapacity (v : JSAPIVector) : Z := Z.of_nat (length (Elements v)).

Definition GrowCapacity (v : JSAPIVector) (minCapacity : Z) : result JSAPIVector :=
  let curCapacity := Z.of_nat (length (Elements v)) in
  if curCapacity <? minCapacity then
    let oldCapacity := Z.of_nat (length (Elements v)) in
    let newCapacity := u32 (oldCapacity * 2) in
    let newCapacity := if newCapacity <? minCapacity then minCapacity else newCapacity in
    let newCapacity :=
      if MAX_ARRAY_SIZE <? newCapacity then if MAX_ARRAY_SIZE <? minCapacity then MAX_VALUE else MAX_ARRAY_SIZE
      else newCapacity in
    newElements ← CopyArray (Elements v) oldCapacity newCapacity;
    Ok (mkVector newElements (Length v))
  else Ok v.

Definition Add (v : JSAPIVector) (value : JSTaggedValue) : result (bool * JSAPIVector) :=
  let length_ := GetSize v in
  v ← GrowCapacity v (u32 (length_ + 1));
  elements ← set (Elements v) (Z.to_nat length_) value;
  Ok (true, mkVector elements (u32 (length_ + 1))).

Definition Insert (v : JSAPIVector) (value : JSTaggedValue) (index : Z) : result JSAPIVector :=
  let length_ := GetSize v in
  if (index <? 0) || (i32 length_ <? index) then Err OutOfBoundsIndex else
  v ← GrowCapacity v (u32 (length_ + 1));
  elements ← shiftUp (Z.to_nat index) (Z.to_nat (i32 length_) - Z.to_nat index) (Elements v);
  elements ← set elements (Z.to_nat index) value;
  Ok (mkVector elements (u32 (length_ + 1))).

Definition SetLength (v : JSAPIVector) (newSize : Z) : result JSAPIVector :=
  let len := GetSize v in
  v ← (if len <? newSize then GrowCapacity v newSize else Ok v);
  Ok (mkVector (Elements v) newSize).

Definition IncreaseCapacityTo (v : JSAPIVector) (newCapacity : Z) : result JSAPIVector :=
  if newCapacity <? 0 then Err IncorrectSize else
  let oldCapacity := Z.of_nat (length (Elements v)) in
  let tempCapacity := u32 newCapacity in
  if oldCapacity <? tempCapacity then
    newElements ← CopyArray (Elements v) oldCapacity tempCapacity;
    Ok (mkVector newElements (Length v))
  else Ok v.

Definition GetIndexFrom (v : JSAPIVector) (obj : JSTaggedValue) (index : Z) : result Z :=
  let length_ := GetSize v in
  if (0 <=? index) && (i32 length_ <=? index) then Err NoSuchElement else
  let index := if index <? 0 then 0 else index in
  findUp (StrictEqual obj) (Elements v) (Z.to_nat length_ - Z.to_nat index) (Z.to_nat index).

Definition GetIndexOf (v : JSAPIVector) (obj : JSTaggedValue) : result Z := GetIndexFrom v obj 0.

Definition IsEmpty (v : JSAPIVector) : bool := GetSize v =? 0.

Definition GetLastElement (v : JSAPIVector) : result JSTaggedValue :=
  let length_ := GetSize v in
  if length_ =? 0 then Ok Undefined else get (Elements v) (Z.to_nat (length_ - 1)).

Definition GetFirstElement (v : JSAPIVector) : result JSTaggedValue :=
  if GetSize v =? 0 then Ok Undefined else get (Elements v) 0.

Definition GetLastIndexFrom (v : JSAPIVector) (obj : JSTaggedValue) (index : Z) : result Z :=
  if i32 (GetSize v) <=? index then Err LastIndexRange else
  let index := if index <? 0 then 0 else index in
  findDown (StrictEqual obj) (Elements v) (Z.to_nat (index + 1)).

Definition GetLastIndexOf (v : JSAPIVector) (obj : JSTaggedValue) : result Z :=
  let index := i32 (GetSize v) - 1 in
  if index <? 0 then Ok (-1) else GetLastIndexFrom v obj index.

Definition Remove (v : JSAPIVector) (obj : JSTaggedValue) : result (bool * JSAPIVector) :=
  index ← GetIndexOf v obj;
  let length_ := GetSize v in
  if 0 <=? index then
    elements ← RemoveElementByIndex (Elements v) (Z.to_nat index) (Z.to_nat length_);
    Ok (true, mkVector elements (u32 (length_ - 1)))
  else Ok (false, v).

Definition RemoveByIndex (v : JSAPIVector) (index : Z) : result (JSTaggedValue * JSAPIVector) :=
  let length_ := GetSize v in
  if (index <? 0) || (i32 length_ <=? index) then Err OutOfBoundsIndex else
  oldValue ← get (Elements v) (Z.to_nat index);
  elements ← RemoveElementByIndex (Elements v) (Z.to_nat index) (Z.to_nat length_);
  Ok (oldValue, mkVector elements (u32 (length_ - 1))).

Definition RemoveByRange (v : JSAPIVector) (fromIndex toIndex : Z) : result (bool * JSAPIVector) :=
  let length_ := i32 (GetSize v) in
  if toIndex <=? fromIndex then Err RangeOrder else
  if (fromIndex <? 0) || (length_ <=? fromIndex) then Err RangeBounds else
  let endIndex := if length_ <=? toIndex then length_ else toIndex in
  let numMoved := length_ - endIndex in
  elements ← shiftDown (Z.to_nat fromIndex) (Z.to_nat endIndex) (Z.to_nat numMoved) (Elements v);
  let newLength := length_ - (endIndex - fromIndex) in
  elements ← Trim elements newLength;
  Ok (true, mkVector elements newLength).

Definition Set_ (v : JSAPIVector) (index : Z) (value : JSTaggedValue) : result JSAPIVector :=
  elements ← set (Elements v) (Z.to_nat index) value;
  Ok (mkVector elements (Length v)).

Definition Get (v : JSAPIVector) (index : Z) : result JSTaggedValue :=
  let len := GetSize v in
  if (index <? 0) || (i32 len <=? index) then Err OutOfBoundsIndex else
  get (Elements v) (Z.to_nat index).

(** Returns the new vector. *)
Definition SubVector (v : JSAPIVector) (fromIndex toIndex : Z) : result JSAPIVector :=
  let length_ := i32 (GetSize v) in
  if (fromIndex <? 0) || (toIndex <? 0) || (length_ <=? fromIndex) || (length_ <=? toIndex) then Err RangeBounds else
  if toIndex <=? fromIndex then Err RangeOrder else
  let newLength := u32 (toIndex - fromIndex) in
  let subVector := mkVector (Elements (NewJSAPIVector newLength)) newLength in
  for_up (Z.to_nat newLength) 0 (fun i subVector =>
    value ← get (Elements v) (Z.to_nat fromIndex + i);
    Set_ subVector (Z.of_nat i) value) subVector.

Definition Has (v : JSAPIVector) (value : JSTaggedValue) : result bool :=
  let length_ := GetSize v in
  if length_ =? 0 then Ok false else
  i ← findUp (fun e => SameValue e value) (Elements v) (Z.to_nat length_) 0;
  Ok (0 <=? i).

Definition TrimToCurrentLength (v : JSAPIVector) : result JSAPIVector :=
  let length_ := GetSize v in
  if length_ <? GetCapacity v then elements ← Trim (Elements v) length_; Ok (mkVector elements length_) else Ok v.

Definition Clear (v : JSAPIVector) : result JSAPIVector :=
  elements ← clearSlots (Z.to_nat (Length v)) (Elements v);
  Ok (mkVector elements 0).

(** Returns the new vector. *)
Definition Clone (v : JSAPIVector) : result JSAPIVector :=
  let length_ := GetSize v in
  dstElements ← NewAndCopyTaggedArray (Elements v) length_ length_ 0;
  Ok (mkVector dstElements length_).

(** The key is an integer. *)
Definition GetProperty (v : JSAPIVector) (index : Z) : result JSTaggedValue :=
  if (index <? 0) || (i32 (GetSize v) <=? index) then Err (RangeError "GetProperty index out-of-bounds") else Get v index.

Definition SetProperty (v : JSAPIVector) (index : Z) (value : JSTaggedValue) : result (bool * JSAPIVector) :=
  if (index <? 0) || (i32 (GetSize v) <=? index) then Ok (false, v) else
  v ← Set_ v index value; Ok (true, v).

(** The loops with a callback read the size again after each call, so a callback that keeps
    adding elements keeps them running: [fuel] bounds the rounds. *)
Fixpoint forEachLoop {W} (fuel : nat) (callbackFn : Callback W JSAPIVector) (k length_ : Z) (w : W) (v : JSAPIVector)
  : result (W * JSAPIVector) :=
  if k <? length_ then
    match fuel with
    | O => Err OutOfFuel
    | S fuel =>
      kValue ← Get v k;
      '(_, w, v) ← callbackFn w v kValue k;
      forEachLoop fuel callbackFn (u32 (k + 1)) (GetSize v) w v
    end
  else Ok (w, v).

Definition ForEach {W} (fuel : nat) (callbackFn : Callback W JSAPIVector) (w : W) (v : JSAPIVector)
  : result (W * JSAPIVector) :=
  forEachLoop fuel callbackFn 0 (GetSize v) w v.

Fixpoint replaceLoop {W} (fuel : nat) (callbackFn : Callback W JSAPIVector) (k length_ : Z) (w : W) (v : JSAPIVector)
  : result (W * JSAPIVector) :=
  if k <? length_ then
    match fuel with
    | O => Err OutOfFuel
    | S fuel =>
      kValue ← Get v k;
      '(funcResult, w, v) ← callbackFn w v kValue k;
      if negb (length_ =? GetSize v) && (GetSize v <=? k) then Ok (w, v) else
      v ← Set_ v k funcResult;
      replaceLoop fuel callbackFn (u32 (k + 1)) (GetSize v) w v
    end
  else Ok (w, v).

Definition ReplaceAllElements {W} (fuel : nat) (callbackFn : Callback W JSAPIVector) (w : W) (v : JSAPIVector)
  : result (W * JSAPIVector) :=
  replaceLoop fuel callbackFn 0 (GetSize v) w v.

Record VectorIterator := mkVectorIterator { attached : bool; NextIndex : Z }.

(** Returns [None] when done, or the value; and the updated iterator. *)
Definition Next (v : JSAPIVector) (iter : VectorIterator) : result (option JSTaggedValue * VectorIterator) :=
  if negb (attached iter) then Ok (None, iter) else
  let index := NextIndex iter in
  if GetSize v <=? index then Ok (None, mkVectorIterator false index)
  else
    value ← Get v (i32 index);
    Ok (Some value, mkVectorIterator true (u32 (index + 1))).

(** The methods. *)
Definition receiveVector (self : Receiver JSAPIVector) : result JSAPIVector :=
  match self with This v | ProxyOf v => Ok v | OtherValue => Err NotVector end.

Definition numberArg (e : error) (arg : JSTaggedValue) : result Z :=
  if IsNumber arg then Ok (ToInt32 arg) else Err e.

(** Both arguments are checked before either is converted. *)
Definition numberArgs (e : error) (a b : JSTaggedValue) : result (Z * Z) :=
  if negb (IsNumber a) || negb (IsNumber b) then Err e else Ok (ToInt32 a, ToInt32 b).

Definition vector_add (self : Receiver JSAPIVector) (value : JSTaggedValue) : result (bool * JSAPIVector) :=
  v ← receiveVector self; '(_, v) ← Add v value; Ok (true, v).

Definition vector_insert (self : Receiver JSAPIVector) (value index : JSTaggedValue) : result JSAPIVector :=
  v ← receiveVector self;
  indexInt ← numberArg IndexNotNumber index;
  Insert v value indexInt.

Definition vector_setLength (self : Receiver JSAPIVector) (newSize : JSTaggedValue) : result JSAPIVector :=
  v ← receiveVector self;
  if negb (IsNumber newSize) then Err ParameterNotNumber else
  if lessThanZero (GetNumber newSize) then Err IncorrectSize else
  SetLength v (ToUint32 newSize).

Definition vector_getCapacity (self : Receiver JSAPIVector) : result Z :=
  v ← receiveVector self; Ok (GetCapacity v).

Definition vector_increaseCapacityTo (self : Receiver JSAPIVector) (newCapacity : JSTaggedValue) : result JSAPIVector :=
  v ← receiveVector self;
  n ← numberArg ParameterNotNumber newCapacity;
  IncreaseCapacityTo v n.

Definition vector_get (self : Receiver JSAPIVector) (index : JSTaggedValue) : result JSTaggedValue :=
  v ← receiveVector self;
  indexInt ← numberArg IndexNotNumber index;
  Get v indexInt.

Definition vector_getIndexOf (self : Receiver JSAPIVector) (element : JSTaggedValue) : result Z :=
  v ← receiveVector self; GetIndexOf v element.

Definition vector_getIndexFrom (self : Receiver JSAPIVector) (element index : JSTaggedValue) : result Z :=
  v ← receiveVector self;
  indexInt ← numberArg IndexNotNumber index;
  GetIndexFrom v element indexInt.

Definition vector_isEmpty (self : Receiver JSAPIVector) : result bool :=
  v ← receiveVector self; Ok (IsEmpty v).

Definition vector_getLastElement (self : Receiver JSAPIVector) : result JSTaggedValue :=
  v ← receiveVector self; GetLastElement v.

Definition vector_getFirstElement (self : Receiver JSAPIVector) : result JSTaggedValue :=
  v ← receiveVector self; GetFirstElement v.

Definition vector_getLastIndexOf (self : Receiver JSAPIVector) (element : JSTaggedValue) : result Z :=
  v ← receiveVector self; GetLastIndexOf v element.

Definition vector_getLastIndexFrom (self : Receiver JSAPIVector) (element index : JSTaggedValue) : result Z :=
  v ← receiveVector self;
  indexInt ← numberArg IndexNotNumber index;
  GetLastIndexFrom v element indexInt.

Definition vector_remove (self : Receiver JSAPIVector) (element : JSTaggedValue) : result (bool * JSAPIVector) :=
  v ← receiveVector self; Remove v element.

Definition vector_removeByIndex (self : Receiver JSAPIVector) (index : JSTaggedValue) : result (JSTaggedValue * JSAPIVector) :=
  v ← receiveVector self;
  indexInt ← numberArg IndexNotNumber index;
  RemoveByIndex v indexInt.

Definition vector_removeByRange (self : Receiver JSAPIVector) (fromIndex toIndex : JSTaggedValue) : result JSAPIVector :=
  v ← receiveVector self;
  '(f, t) ← numberArgs ParameterNotNumber fromIndex toIndex;
  '(_, v) ← RemoveByRange v f t;
  Ok v.

Definition vector_set (self : Receiver JSAPIVector) (index element : JSTaggedValue) : result JSAPIVector :=
  v ← receiveVector self;
  indexInt ← numberArg IndexNotNumber index;
  let len := i32 (GetSize v) in
  if (indexInt <? 0) || (len <=? indexInt) then Err OutOfBoundsIndex else Set_ v indexInt element.

Definition vector_subVector (self : Receiver JSAPIVector) (fromIndex toIndex : JSTaggedValue) : result JSAPIVector :=
  v ← receiveVector self;
  '(f, t) ← numberArgs ParameterNotNumber fromIndex toIndex;
  SubVector v f t.

Definition vector_getSize (self : Receiver JSAPIVector) : result Z :=
  v ← receiveVector self; Ok (GetSize v).

(** [callbackfn] is [None] when it is not callable. *)
Definition vector_forEach {W} (fuel : nat) (self : Receiver JSAPIVector) (callbackfn : option (Callback W JSAPIVector)) (w : W)
  : result (W * JSAPIVector) :=
  v ← receiveVector self;
  match callbackfn with None => Err VectorNotCallable | Some f => ForEach fuel f w v end.

Definition vector_replaceAllElements {W} (fuel : nat) (self : Receiver JSAPIVector)
    (callbackfn : option (Callback W JSAPIVector)) (w : W) : result (W * JSAPIVector) :=
  v ← receiveVector self;
  match callbackfn with None => Err VectorNotCallable | Some f => ReplaceAllElements fuel f w v end.

Definition vector_trimToCurrentLength (self : Receiver JSAPIVector) : result (bool * JSAPIVector) :=
  v ← receiveVector self; v ← TrimToCurrentLength v; Ok (true, v).

Definition vector_clear (self : Receiver JSAPIVector) : result (bool * JSAPIVector) :=
  v ← receiveVector self; v ← Clear v; Ok (true, v).

Definition vector_clone (self : Receiver JSAPIVector) : result JSAPIVector :=
  v ← receiveVector self; Clone v.

Definition vector_has (self : Receiver JSAPIVector) (value : JSTaggedValue) : result bool :=
  v ← receiveVector self; Has v value.

(** [array] is [None] when the argument is not an array. *)
Definition vector_copyToArray (self : Receiver JSAPIVector) (array : option JSArray) : result (bool * option JSArray) :=
  v ← receiveVector self;
  match array with
  | None => Ok (false, None)
  | Some array =>
    let vectorLength := GetSize v in
    let arrayLength := ArrayLength array in
    if vectorLength <=? arrayLength then
      newArrayElement ← NewAndCopyTaggedArray (Elements v) arrayLength vectorLength 0;
      newArrayElement ← for_up (Z.to_nat (arrayLength - vectorLength)) (Z.to_nat vectorLength)
        (fun i a => set a i Undefined) newArrayElement;
      Ok (true, Some (mkJSArray newArrayElement arrayLength))
    else
      newArrayElement ← NewAndCopyTaggedArray (Elements v) vectorLength vectorLength 0;
      Ok (true, Some (mkJSArray newArrayElement vectorLength))
  end.

Definition vector_convertToArray (self : Receiver JSAPIVector) : result JSArray :=
  v ← receiveVector self;
  let length_ := GetSize v in
  dstElements ← NewAndCopyTaggedArray (Elements v) length_ length_ 0;
  Ok (mkJSArray dstElements length_).

Definition vector_iterator (self : Receiver JSAPIVector) : result VectorIterator :=
  _ ← receiveVector self; Ok (mkVectorIterator true 0).

(** ** The list a vector holds

    A vector whose elements are [l] and which has the slots [s] to spare.  The values in the
    spare slots matter: [setLength] can make them elements. *)

Definition vec (l s : list JSTaggedValue) : JSAPIVector := mkVector (l ++ s) (Z.of_nat (length l)).

Definition vectorInv (v : JSAPIVector) : Prop := 0 <= Length v <= Z.of_nat (length (Elements v)).

Lemma vec_of v : vectorInv v -> v = vec (take (Z.to_nat (Length v)) (Elements v)) (drop (Z.to_nat (Length v)) (Elements v)).
Proof.
  intros Hv. unfold vectorInv in Hv. destruct v as [e n]. unfold vec. cbn in *. rewrite take_drop, length_take. f_equal. lia.
Qed.

Lemma vec_inv l s : vectorInv (vec l s).
Proof. unfold vectorInv, vec. cbn. rewrite length_app. lia. Qed.

Definition capacity (l s : list JSTaggedValue) : Z := Z.of_nat (length (l ++ s)).

(** The spare slots after making room for [n] elements. *)
Definition grown (l s : list JSTaggedValue) (n : Z) : list JSTaggedValue :=
  if capacity l s <? n then s ++ replicate (Z.to_nat (Z.max (2 * capacity l s) n) - length (l ++ s)) Hole else s.

(** The first position from [i] on of a value strictly equal to [x], or -1. *)
Definition indexFrom (l : list JSTaggedValue) (x : JSTaggedValue) (i : nat) : Z :=
  let j := indexWhere (StrictEqual x) (drop i l) in if j <? 0 then -1 else Z.of_nat i + j.

(** The last such position up to [i]. *)
Definition lastIndexFrom (l : list JSTaggedValue) (x : JSTaggedValue) (i : nat) : Z := lastIndexWhere (StrictEqual x) (take (S i) l).

Section Equations.
  Context (l s : list JSTaggedValue).
  Hypothesis Hcap : capacity l s <= 2 ^ 30.

Local Lemma small : Z.of_nat (length l) <= 2 ^ 30.
Proof. unfold capacity in Hcap. rewrite length_app in Hcap. lia. Qed.

Lemma vec_i32 : i32 (Z.of_nat (length l)) = Z.of_nat (length l).
Proof.
  pose proof small. unfold i32. cbv zeta. rewrite Z.mod_small by lia.
  destruct (Z.ltb_spec (Z.of_nat (length l)) (2 ^ 31)); lia.
Qed.

Lemma vec_u32 k : 0 <= k <= 2 ^ 30 -> u32 (Z.of_nat (length l) + k) = Z.of_nat (length l) + k.
Proof. intros. pose proof small. apply u32_small. unfold is_u32. rewrite BASE_eq. lia. Qed.

Lemma GrowCapacity_vec n : 0 <= n <= 2 ^ 29 -> GrowCapacity (vec l s) n = Ok (vec l (grown l s n)).
Proof.
  intros Hn. unfold GrowCapacity, grown, vec, capacity in *. cbn [Elements Length].
  destruct (Z.ltb_spec (Z.of_nat (length (l ++ s))) n) as [Hlt|]; [|done].
  rewrite u32_small by (unfold is_u32; rewrite BASE_eq; lia). unfold MAX_ARRAY_SIZE, MAX_VALUE.
  replace (if Z.of_nat (length (l ++ s)) * 2 <? n then n else Z.of_nat (length (l ++ s)) * 2)
    with (Z.max (2 * Z.of_nat (length (l ++ s))) n) by (destruct (Z.ltb_spec (Z.of_nat (length (l ++ s)) * 2) n); lia).
  destruct (Z.ltb_spec (2147483647 - 8) (Z.max (2 * Z.of_nat (length (l ++ s))) n)); [lia|].
  rewrite CopyArray_app by lia. by rewrite bind_Ok.
Qed.

Lemma grown_length n : 0 <= n -> (Z.to_nat n <= length (l ++ grown l s n))%nat.
Proof.
  intros Hn. unfold grown. destruct (Z.ltb_spec (capacity l s) n); unfold capacity in *.
  - rewrite app_assoc, (length_app (l ++ s)), length_replicate. lia.
  - lia.
Qed.

(** The slot for one more element. *)
Lemma grown_cons : exists x, grown l s (Z.of_nat (length l) + 1) = x :: tail (grown l s (Z.of_nat (length l) + 1)).
Proof.
  pose proof (grown_length (Z.of_nat (length l) + 1) ltac:(lia)) as H. rewrite length_app in H.
  destruct (grown l s _) as [|x t]; [cbn in H; lia|by exists x].
Qed.

Lemma Add_vec v : Z.of_nat (length l) < 2 ^ 29 ->
  Add (vec l s) v = Ok (true, vec (l ++ [v]) (tail (grown l s (Z.of_nat (length l) + 1)))).
Proof.
  intros Hl. unfold Add, GetSize. cbn [Length vec]. rewrite vec_u32, GrowCapacity_vec, bind_Ok by lia.
  destruct grown_cons as [x ->]. cbn [Elements vec tail]. rewrite Nat2Z.id, set_spare, bind_Ok.
  unfold vec. rewrite length_app. cbn [length]. do 3 f_equal. lia.
Qed.

Lemma Insert_vec v i : Z.of_nat (length l) < 2 ^ 29 ->
  Insert (vec l s) v i =
    if (i <? 0) || (Z.of_nat (length l) <? i) then Err OutOfBoundsIndex
    else Ok (vec (insertAt (Z.to_nat i) v l) (tail (grown l s (Z.of_nat (length l) + 1)))).
Proof.
  intros Hl. unfold Insert, GetSize. cbn [Length vec]. rewrite vec_i32.
  destruct (Z.ltb_spec i 0); [done|]. destruct (Z.ltb_spec (Z.of_nat (length l)) i); [done|]. cbn [orb].
  rewrite vec_u32, GrowCapacity_vec, bind_Ok by lia.
  destruct grown_cons as [x ->]. cbn [Elements vec tail]. rewrite Nat2Z.id, <- bind_assoc.
  rewrite insertSlot_app, bind_Ok by lia. unfold vec. do 2 f_equal.
  unfold insertAt. rewrite length_app. cbn [length]. rewrite length_take, length_drop. lia.
Qed.

Lemma SetLength_vec n : 0 <= n <= 2 ^ 29 ->
  SetLength (vec l s) n =
    Ok (let all := if Z.of_nat (length l) <? n then l ++ grown l s n else l ++ s in
        vec (take (Z.to_nat n) all) (drop (Z.to_nat n) all)).
Proof.
  intros Hn. unfold SetLength, GetSize. cbn [Length vec]. destruct (Z.ltb_spec (Z.of_nat (length l)) n).
  - rewrite GrowCapacity_vec, bind_Ok by lia. f_equal. unfold vec. cbn [Elements]. rewrite take_drop. f_equal.
    rewrite length_take. pose proof (grown_length n ltac:(lia)). lia.
  - rewrite bind_Ok. f_equal. unfold vec. cbn [Elements]. rewrite take_drop. f_equal. rewrite length_take, length_app. lia.
Qed.

Lemma IncreaseCapacityTo_vec n : n <= 2 ^ 30 ->
  IncreaseCapacityTo (vec l s) n =
    if n <? 0 then Err IncorrectSize
    else Ok (vec l (s ++ replicate (Z.to_nat n - length (l ++ s)) Hole)).
Proof.
  intros Hn. unfold IncreaseCapacityTo. cbn [Elements Length vec]. destruct (Z.ltb_spec n 0); [done|].
  rewrite u32_small by (unfold is_u32; rewrite BASE_eq; lia).
  destruct (Z.ltb_spec (Z.of_nat (length (l ++ s))) n).
  - by rewrite CopyArray_app, bind_Ok by lia.
  - replace (Z.to_nat n - length (l ++ s))%nat with 0%nat by lia. cbn [replicate]. by rewrite app_nil_r.
Qed.

Lemma Get_vec i :
  Get (vec l s) i = if i <? 0 then Err OutOfBoundsIndex
                    else match l !! Z.to_nat i with Some v => Ok v | None => Err OutOfBoundsIndex end.
Proof.
  unfold Get, GetSize. cbn [Length Elements vec]. rewrite vec_i32. destruct (Z.ltb_spec i 0); [done|].
  destruct (Z.leb_spec (Z.of_nat (length l)) i); cbn [orb].
  - by rewrite lookup_ge_None_2 by lia.
  - destruct (lookup_lt_is_Some_2 l (Z.to_nat i)) as [v Hv]; [lia|]. by rewrite (get_app _ _ _ _ Hv), Hv.
Qed.

Lemma Set_vec i v : 0 <= i < Z.of_nat (length l) -> Set_ (vec l s) i v = Ok (vec (<[Z.to_nat i := v]> l) s).
Proof.
  intros Hi. unfold Set_. cbn [Elements Length vec]. rewrite set_app, bind_Ok by lia. unfold vec. by rewrite length_insert.
Qed.

Lemma GetIndexFrom_vec x i :
  GetIndexFrom (vec l s) x i =
    if (0 <=? i) && (Z.of_nat (length l) <=? i) then Err NoSuchElement else Ok (indexFrom l x (Z.to_nat i)).
Proof.
  unfold GetIndexFrom, GetSize. cbn [Length Elements vec]. rewrite vec_i32.
  destruct ((0 <=? i) && _) eqn:E; [done|]. apply andb_false_iff in E. rewrite !Z.leb_gt in E.
  replace (Z.to_nat (if i <? 0 then 0 else i)) with (Z.to_nat i) by (destruct (Z.ltb_spec i 0); lia).
  rewrite Nat2Z.id, findUp_eq by (rewrite length_app; lia). unfold indexFrom.
  rewrite drop_app, take_app_le by (rewrite length_drop; lia). by rewrite take_ge by (rewrite length_drop; lia).
Qed.

Lemma GetLastIndexFrom_vec x i :
  GetLastIndexFrom (vec l s) x i =
    if Z.of_nat (length l) <=? i then Err LastIndexRange
    else if (i <? 0) && (length (l ++ s) =? 0)%nat then Err OutOfBounds
    else if (length l =? 0)%nat then findDown (StrictEqual x) s 1 else Ok (lastIndexFrom l x (Z.to_nat i)).
Proof.
  unfold GetLastIndexFrom, GetSize. cbn [Length Elements vec]. rewrite vec_i32.
  destruct (Z.leb_spec (Z.of_nat (length l)) i) as [|Hi]; [done|].
  replace (Z.to_nat ((if i <? 0 then 0 else i) + 1)) with (S (Z.to_nat i)) by (destruct (Z.ltb_spec i 0); lia).
  destruct l as [|y l']; cbn [length Nat.eqb app] in *.
  - destruct (Z.ltb_spec i 0); [|cbn in Hi; lia]. replace (Z.to_nat i) with 0%nat by lia. by destruct s.
  - rewrite andb_false_r. cbn in Hi. rewrite findDown_eq by (cbn; rewrite length_app; lia).
    unfold lastIndexFrom. by rewrite app_comm_cons, take_app_le by (cbn; lia).
Qed.

Lemma GetLastIndexOf_vec x : GetLastIndexOf (vec l s) x = Ok (lastIndexWhere (StrictEqual x) l).
Proof.
  unfold GetLastIndexOf, GetSize. cbn [Length vec]. rewrite vec_i32. destruct (Z.ltb_spec (Z.of_nat (length l) - 1) 0).
  - by destruct l; [|cbn in *; lia].
  - rewrite GetLastIndexFrom_vec. destruct (Z.leb_spec (Z.of_nat (length l)) (Z.of_nat (length l) - 1)); [lia|].
    destruct (Z.ltb_spec (Z.of_nat (length l) - 1) 0); [lia|]. destruct (Nat.eqb_spec (length l) 0); [lia|].
    cbn [andb]. unfold lastIndexFrom. do 2 f_equal. rewrite take_ge by lia. done.
Qed.

Lemma indexFrom_range x i : indexFrom l x i = -1 \/ Z.of_nat i <= indexFrom l x i < Z.of_nat (length l).
Proof.
  unfold indexFrom, indexWhere. destruct (list_find _ (drop i l)) as [[j v]|] eqn:E; [|by left].
  apply list_find_Some in E as (Hj & _). apply lookup_lt_Some in Hj. rewrite length_drop in Hj.
  destruct (Z.ltb_spec (Z.of_nat j) 0); lia.
Qed.

Lemma remove_vec i : (i < length l)%nat ->
  RemoveElementByIndex (l ++ s) i (length l) = Ok (delete i l ++ Hole :: s) /\
  mkVector (delete i l ++ Hole :: s) (u32 (Z.of_nat (length l) - 1)) = vec (delete i l) (Hole :: s).
Proof.
  intros Hi. pose proof small. split; [by apply RemoveElementByIndex_app|]. unfold vec. f_equal.
  rewrite length_delete by (apply lookup_lt_is_Some; lia). rewrite u32_small by (unfold is_u32; rewrite BASE_eq; lia). lia.
Qed.

Lemma Remove_vec x :
  Remove (vec l s) x =
    if (length l =? 0)%nat then Err NoSuchElement else
    let i := indexFrom l x 0 in
    if 0 <=? i then Ok (true, vec (delete (Z.to_nat i) l) (Hole :: s)) else Ok (false, vec l s).
Proof.
  unfold Remove, GetIndexOf. rewrite GetIndexFrom_vec. change (0 <=? 0) with true. cbn [andb].
  destruct (Nat.eqb_spec (length l) 0), (Z.leb_spec (Z.of_nat (length l)) 0); try lia; [done|]. rewrite bind_Ok.
  change (Z.to_nat 0) with 0%nat. cbv zeta. destruct (Z.leb_spec 0 (indexFrom l x 0)); [|done].
  cbn [Elements vec GetSize Length]. rewrite Nat2Z.id.
  destruct (indexFrom_range x 0); [lia|]. destruct (remove_vec (Z.to_nat (indexFrom l x 0))) as [-> E]; [lia|].
  by rewrite bind_Ok, <- E.
Qed.

Lemma RemoveByIndex_vec i :
  RemoveByIndex (vec l s) i =
    if i <? 0 then Err OutOfBoundsIndex else
    match l !! Z.to_nat i with
    | Some v => Ok (v, vec (delete (Z.to_nat i) l) (Hole :: s))
    | None => Err OutOfBoundsIndex
    end.
Proof.
  unfold RemoveByIndex, GetSize. cbn [Length Elements vec]. rewrite vec_i32. destruct (Z.ltb_spec i 0); [done|].
  destruct (Z.leb_spec (Z.of_nat (length l)) i); cbn [orb].
  - by rewrite lookup_ge_None_2 by lia.
  - destruct (lookup_lt_is_Some_2 l (Z.to_nat i)) as [v Hv]; [lia|]. rewrite (get_app _ _ _ _ Hv), Hv, bind_Ok.
    rewrite Nat2Z.id. destruct (remove_vec (Z.to_nat i)) as [-> E]; [lia|]. by rewrite bind_Ok, <- E.
Qed.

Lemma RemoveByRange_vec f t :
  RemoveByRange (vec l s) f t =
    if t <=? f then Err RangeOrder else
    if (f <? 0) || (Z.of_nat (length l) <=? f) then Err RangeBounds
    else Ok (true, vec (take (Z.to_nat f) l ++ drop (Z.to_nat t) l) []).
Proof.
  unfold RemoveByRange, GetSize. cbn [Length Elements vec]. rewrite vec_i32.
  destruct (Z.leb_spec t f); [done|]. destruct (Z.ltb_spec f 0); [done|].
  destruct (Z.leb_spec (Z.of_nat (length l)) f); [done|]. cbn [orb].
  set (e := if Z.of_nat (length l) <=? t then Z.of_nat (length l) else t).
  assert (f < e <= Z.of_nat (length l) /\ drop (Z.to_nat t) l = drop (Z.to_nat e) l) as [He ->].
  { unfold e. destruct (Z.leb_spec (Z.of_nat (length l)) t); [|split; [lia|done]]. split; [lia|]. by rewrite !drop_ge by lia. }
  replace (Z.to_nat (Z.of_nat (length l) - e)) with (length l - Z.to_nat e)%nat by lia.
  replace (Z.of_nat (length l) - (e - f)) with (Z.of_nat (length l - (Z.to_nat e - Z.to_nat f))) by lia.
  rewrite <- bind_assoc, removeRange_app, bind_Ok by lia. unfold vec. do 3 f_equal; [by rewrite app_nil_r|].
  rewrite length_app, length_take, length_drop. lia.
Qed.

Lemma SubVector_vec f t :
  SubVector (vec l s) f t =
    if (f <? 0) || (t <? 0) || (Z.of_nat (length l) <=? f) || (Z.of_nat (length l) <=? t) then Err RangeBounds else
    if t <=? f then Err RangeOrder
    else Ok (vec (take (Z.to_nat (t - f)) (drop (Z.to_nat f) l)) []).
Proof.
  unfold SubVector, GetSize. cbn [Length Elements vec]. rewrite vec_i32. pose proof small.
  destruct (Z.ltb_spec f 0), (Z.ltb_spec t 0), (Z.leb_spec (Z.of_nat (length l)) f), (Z.leb_spec (Z.of_nat (length l)) t);
    try done; cbn [orb].
  destruct (Z.leb_spec t f); [done|]. rewrite u32_small by (unfold is_u32; rewrite BASE_eq; lia).
  apply returns_eq. eapply returns_mono; [apply (for_up_returns (fun i v => v =
    vec (take i (drop (Z.to_nat f) l) ++ replicate (Z.to_nat (t - f) - i) Hole) []))|].
  - unfold vec. rewrite take_0. cbn [NewJSAPIVector Elements app]. rewrite Nat.sub_0_r, app_nil_r, length_replicate. f_equal. lia.
  - intros i ? Hi ->. destruct (lookup_lt_is_Some_2 l (Z.to_nat f + i)) as [v Hv]; [lia|].
    rewrite (get_app _ _ _ _ Hv), bind_Ok. unfold Set_. cbn [Elements Length vec]. rewrite !app_nil_r, Nat2Z.id.
    rewrite <- lookup_drop in Hv. rewrite (take_S_r _ _ _ Hv).
    assert (length (take i (drop (Z.to_nat f) l)) = i) as El by (rewrite length_take, length_drop; lia).
    replace (Z.to_nat (t - f) - i)%nat with (S (Z.to_nat (t - f) - S i)) by lia. cbn [replicate].
    rewrite (set_spare_at _ _ _ _ _ El), bind_Ok. apply returns_ok. unfold vec.
    rewrite app_nil_r, !length_app. do 2 f_equal. cbn [length]. lia.
  - intros v ->. cbn [Nat.add]. by rewrite Nat.sub_diag, app_nil_r.
Qed.

Lemma Has_vec x : Has (vec l s) x = Ok (existsb (fun e => SameValue e x) l).
Proof.
  unfold Has, GetSize. cbn [Length Elements vec]. destruct (Z.eqb_spec (Z.of_nat (length l)) 0).
  - by destruct l; [|cbn in *; lia].
  - rewrite Nat2Z.id, findUp_app, bind_Ok, <- indexWhere_found. by rewrite Z.leb_antisym.
Qed.

Lemma TrimToCurrentLength_vec : TrimToCurrentLength (vec l s) = Ok (vec l []).
Proof.
  unfold TrimToCurrentLength, GetSize, GetCapacity. cbn [Length Elements vec]. rewrite length_app.
  destruct (Z.ltb_spec (Z.of_nat (length l)) (Z.of_nat (length l + length s))).
  - rewrite Trim_app, bind_Ok. unfold vec. by rewrite app_nil_r.
  - unfold vec. destruct s; [done|cbn in *; lia].
Qed.

Lemma Clear_vec : Clear (vec l s) = Ok (vec [] (replicate (length l) Hole ++ s)).
Proof. unfold Clear. cbn [Length Elements vec]. by rewrite Nat2Z.id, clearSlots_app. Qed.

Lemma Clone_vec : Clone (vec l s) = Ok (vec l []).
Proof.
  unfold Clone, GetSize. cbn [Length Elements vec]. rewrite NewAndCopyTaggedArray_app, bind_Ok. unfold vec. by rewrite app_nil_r.
Qed.

Lemma GetLastElement_vec : GetLastElement (vec l s) = Ok (default Undefined (last l)).
Proof.
  unfold GetLastElement, GetSize. cbn [Length Elements vec]. rewrite last_lookup.
  destruct (Z.eqb_spec (Z.of_nat (length l)) 0).
  - by destruct l; [|cbn in *; lia].
  - destruct (lookup_lt_is_Some_2 l (pred (length l))) as [v Hv]; [lia|]. rewrite Hv.
    replace (Z.to_nat (Z.of_nat (length l) - 1)) with (pred (length l)) by lia. by rewrite (get_app _ _ _ _ Hv).
Qed.

Lemma GetFirstElement_vec : GetFirstElement (vec l s) = Ok (default Undefined (head l)).
Proof. unfold GetFirstElement, GetSize. cbn [Length Elements vec]. by destruct l. Qed.
End Equations.

(** ** The abstract vector: the elements and the spare slots *)

Inductive VectorOp :=
| OpAdd (v : JSTaggedValue)
| OpInsert (v index : JSTaggedValue)
| OpSetLength (n : JSTaggedValue)
| OpGetCapacity
| OpIncreaseCapacityTo (n : JSTaggedValue)
| OpGet (index : JSTaggedValue)
| OpSet (index v : JSTaggedValue)
| OpGetIndexOf (x : JSTaggedValue)
| OpGetIndexFrom (x index : JSTaggedValue)
| OpGetLastIndexOf (x : JSTaggedValue)
| OpGetLastIndexFrom (x index : JSTaggedValue)
| OpIsEmpty
| OpGetFirstElement
| OpGetLastElement
| OpGetSize
| OpHas (x : JSTaggedValue)
| OpRemove (x : JSTaggedValue)
| OpRemoveByIndex (index : JSTaggedValue)
| OpRemoveByRange (fromIndex toIndex : JSTaggedValue)
| OpSubVector (fromIndex toIndex : JSTaggedValue)
| OpTrim
| OpClear
| OpClone
| OpConvertToArray.

Definition newVector (v : JSAPIVector) : Observation := Elements_ (take (Z.to_nat (Length v)) (Elements v)).

Definition vectorStep (v : JSAPIVector) (op : VectorOp) : Observation * JSAPIVector :=
  match op with
  | OpAdd x => observe v Truth (vector_add (This v) x)
  | OpInsert x i => observeUpdate v (vector_insert (This v) x i)
  | OpSetLength n => observeUpdate v (vector_setLength (This v) n)
  | OpGetCapacity => observeRead v Count (vector_getCapacity (This v))
  | OpIncreaseCapacityTo n => observeUpdate v (vector_increaseCapacityTo (This v) n)
  | OpGet i => observeRead v Value (vector_get (This v) i)
  | OpSet i x => observeUpdate v (vector_set (This v) i x)
  | OpGetIndexOf x => observeRead v Count (vector_getIndexOf (This v) x)
  | OpGetIndexFrom x i => observeRead v Count (vector_getIndexFrom (This v) x i)
  | OpGetLastIndexOf x => observeRead v Count (vector_getLastIndexOf (This v) x)
  | OpGetLastIndexFrom x i => observeRead v Count (vector_getLastIndexFrom (This v) x i)
  | OpIsEmpty => observeRead v Truth (vector_isEmpty (This v))
  | OpGetFirstElement => observeRead v Value (vector_getFirstElement (This v))
  | OpGetLastElement => observeRead v Value (vector_getLastElement (This v))
  | OpGetSize => observeRead v Count (vector_getSize (This v))
  | OpHas x => observeRead v Truth (vector_has (This v) x)
  | OpRemove x => observe v Truth (vector_remove (This v) x)
  | OpRemoveByIndex i => observe v Value (vector_removeByIndex (This v) i)
  | OpRemoveByRange f t => observeUpdate v (vector_removeByRange (This v) f t)
  | OpSubVector f t => observeRead v newVector (vector_subVector (This v) f t)
  | OpTrim => observe v Truth (vector_trimToCurrentLength (This v))
  | OpClear => observe v Truth (vector_clear (This v))
  | OpClone => observeRead v newVector (vector_clone (This v))
  | OpConvertToArray => observeRead v (fun a => Elements_ (ArrayElements a)) (vector_convertToArray (This v))
  end.

Definition Slots : Type := list JSTaggedValue * list JSTaggedValue.

Definition withNumber (e : error) (arg : JSTaggedValue) (st : Slots) (k : Z -> Observation * Slots) : Observation * Slots :=
  if IsNumber arg then k (ToInt32 arg) else (Throws e, st).

Definition withNumbers (e : error) (a b : JSTaggedValue) (st : Slots) (k : Z -> Z -> Observation * Slots)
  : Observation * Slots :=
  if IsNumber a && IsNumber b then k (ToInt32 a) (ToInt32 b) else (Throws e, st).

Definition vectorSpec (st : Slots) (op : VectorOp) : Observation * Slots :=
  let '(l, s) := st in
  let n := Z.of_nat (length l) in
  match op with
  | OpAdd x => (Truth true, (l ++ [x], tail (grown l s (n + 1))))
  | OpInsert x i =>
    withNumber IndexNotNumber i st (fun i =>
      if (i <? 0) || (n <? i) then (Throws OutOfBoundsIndex, st)
      else (Nothing, (insertAt (Z.to_nat i) x l, tail (grown l s (n + 1)))))
  | OpSetLength m =>
    if negb (IsNumber m) then (Throws ParameterNotNumber, st) else
    if lessThanZero (GetNumber m) then (Throws IncorrectSize, st) else
    let m := ToUint32 m in
    let all := if n <? m then l ++ grown l s m else l ++ s in
    (Nothing, (take (Z.to_nat m) all, drop (Z.to_nat m) all))
  | OpGetCapacity => (Count (capacity l s), st)
  | OpIncreaseCapacityTo m =>
    withNumber ParameterNotNumber m st (fun m =>
      if m <? 0 then (Throws IncorrectSize, st)
      else (Nothing, (l, s ++ replicate (Z.to_nat m - length (l ++ s)) Hole)))
  | OpGet i =>
    withNumber IndexNotNumber i st (fun i =>
      if i <? 0 then (Throws OutOfBoundsIndex, st) else
      match l !! Z.to_nat i with Some v => (Value v, st) | None => (Throws OutOfBoundsIndex, st) end)
  | OpSet i x =>
    withNumber IndexNotNumber i st (fun i =>
      if (i <? 0) || (n <=? i) then (Throws OutOfBoundsIndex, st) else (Nothing, (<[Z.to_nat i := x]> l, s)))
  | OpGetIndexOf x => (match l with [] => Throws NoSuchElement | _ => Count (indexFrom l x 0) end, st)
  | OpGetIndexFrom x i =>
    withNumber IndexNotNumber i st (fun i =>
      if (0 <=? i) && (n <=? i) then (Throws NoSuchElement, st) else (Count (indexFrom l x (Z.to_nat i)), st))
  | OpGetLastIndexOf x => (Count (lastIndexWhere (StrictEqual x) l), st)
  | OpGetLastIndexFrom x i =>
    withNumber IndexNotNumber i st (fun i =>
      if n <=? i then (Throws LastIndexRange, st) else
      match l, s with
      | [], [] => (Throws OutOfBounds, st)
      | [], y :: _ => (Count (if StrictEqual x y then 0 else -1), st)
      | _, _ => (Count (lastIndexFrom l x (Z.to_nat i)), st)
      end)
  | OpIsEmpty => (Truth (match l with [] => true | _ => false end), st)
  | OpGetFirstElement => (Value (default Undefined (head l)), st)
  | OpGetLastElement => (Value (default Undefined (last l)), st)
  | OpGetSize => (Count n, st)
  | OpHas x => (Truth (existsb (fun e => SameValue e x) l), st)
  | OpRemove x =>
    match l with
    | [] => (Throws NoSuchElement, st)
    | _ => let i := indexFrom l x 0 in
           if 0 <=? i then (Truth true, (delete (Z.to_nat i) l, Hole :: s)) else (Truth false, st)
    end
  | OpRemoveByIndex i =>
    withNumber IndexNotNumber i st (fun i =>
      if i <? 0 then (Throws OutOfBoundsIndex, st) else
      match l !! Z.to_nat i with
      | Some v => (Value v, (delete (Z.to_nat i) l, Hole :: s))
      | None => (Throws OutOfBoundsIndex, st)
      end)
  | OpRemoveByRange f t =>
    withNumbers ParameterNotNumber f t st (fun f t =>
      if t <=? f then (Throws RangeOrder, st) else
      if (f <? 0) || (n <=? f) then (Throws RangeBounds, st)
      else (Nothing, (take (Z.to_nat f) l ++ drop (Z.to_nat t) l, [])))
  | OpSubVector f t =>
    withNumbers ParameterNotNumber f t st (fun f t =>
      if (f <? 0) || (t <? 0) || (n <=? f) || (n <=? t) then (Throws RangeBounds, st) else
      if t <=? f then (Throws RangeOrder, st)
      else (Elements_ (take (Z.to_nat (t - f)) (drop (Z.to_nat f) l)), st))
  | OpTrim => (Truth true, (l, []))
  | OpClear => (Truth true, ([], replicate (length l) Hole ++ s))
  | OpClone | OpConvertToArray => (Elements_ l, st)
  end.

(** The arguments of the operations that set a size. *)
Definition vectorOk (op : VectorOp) : Prop :=
  match op with
  | OpSetLength n => ToUint32 n <= 2 ^ 28
  | OpIncreaseCapacityTo n => ToInt32 n <= 2 ^ 30
  | _ => True
  end.

(** After [k] operations. *)
Definition vectorRep (k : nat) (v : JSAPIVector) (st : Slots) : Prop :=
  v = vec st.1 st.2 /\ Z.of_nat (length st.1) <= 2 ^ 28 + Z.of_nat k /\ capacity st.1 st.2 <= 2 ^ 30.

Lemma grown_capacity l s n : 0 <= n -> capacity l (grown l s n) <= Z.max (capacity l s) (2 * n).
Proof.
  intros Hn. unfold grown. destruct (Z.ltb_spec (capacity l s) n); [|lia]. unfold capacity in *.
  rewrite app_assoc, (length_app (l ++ s)), length_replicate. lia.
Qed.

(** One more element in the slot that was made for it. *)
Lemma grown_tail l s : length (grown l s (Z.of_nat (length l) + 1)) = S (length (tail (grown l s (Z.of_nat (length l) + 1)))).
Proof. destruct (grown_cons l s) as [x E]. rewrite E at 1. done. Qed.

Lemma vectorRep_grown k l s l' : vectorRep k (vec l s) (l, s) -> Z.of_nat k < 2 ^ 28 -> length l' = S (length l) ->
  vectorRep (S k) (vec l' (tail (grown l s (Z.of_nat (length l) + 1)))) (l', tail (grown l s (Z.of_nat (length l) + 1))).
Proof.
  intros (_ & Hl & Hc) Hk El. cbn [fst snd] in *. split_and!; cbn [fst snd]; [done|lia|].
  pose proof (grown_capacity l s (Z.of_nat (length l) + 1) ltac:(lia)) as H. pose proof (grown_tail l s) as Et.
  unfold capacity in *. rewrite !length_app in *. lia.
Qed.

Lemma vectorRep_shrunk k l s l' s' : vectorRep k (vec l s) (l, s) -> (length l' <= length l)%nat ->
  (length (l' ++ s') <= length (l ++ s))%nat -> vectorRep (S k) (vec l' s') (l', s').
Proof. intros (_ & Hl & Hc) H1 H2. unfold vectorRep, capacity in *. cbn [fst snd] in *. split_and!; [done|lia|lia]. Qed.

Lemma take_vec l s : take (Z.to_nat (Length (vec l s))) (Elements (vec l s)) = l.
Proof. cbn. by rewrite Nat2Z.id, take_app_length. Qed.

(** Both sides check the arguments in the same way. *)
Ltac vectorArgs :=
  unfold numberArg, withNumber, numberArgs, withNumbers;
  repeat match goal with |- context [IsNumber ?a] => destruct (IsNumber a) end;
  cbn [negb orb andb]; rewrite ?bind_Ok, ?bind_Err.

Lemma vectorWrites_simulate k l s op : vectorRep k (vec l s) (l, s) -> Z.of_nat k < 2 ^ 28 -> vectorOk op ->
  match op with OpAdd _ | OpInsert _ _ | OpSetLength _ | OpIncreaseCapacityTo _ | OpSet _ _ => True | _ => False end ->
  (vectorStep (vec l s) op).1 = (vectorSpec (l, s) op).1 /\
  vectorRep (S k) (vectorStep (vec l s) op).2 (vectorSpec (l, s) op).2.
Proof.
  intros HR Hk Hok Hop. pose proof HR as (_ & Hl & Hc). cbn [fst snd] in Hl, Hc.
  assert (vectorRep (S k) (vec l s) (l, s)) as Hsame by (by apply (vectorRep_shrunk k l s)).
  destruct op; try done; cbn [vectorStep vectorSpec vectorOk] in *;
    unfold vector_add, vector_insert, vector_setLength, vector_increaseCapacityTo, vector_set, observeUpdate; cbn [receiveVector];
    rewrite ?bind_Ok; vectorArgs; try done.
  - rewrite Add_vec, bind_Ok by lia. cbn [observe fst snd]. split; [done|].
    apply (vectorRep_grown k); [done|lia|]. rewrite length_app. cbn. lia.
  - rewrite Insert_vec by lia. destruct (Z.ltb_spec (ToInt32 index) 0); [done|].
    destruct (Z.ltb_spec (Z.of_nat (length l)) (ToInt32 index)); [done|]. cbn [orb fst snd]. split; [done|].
    apply (vectorRep_grown k); [done|lia|]. unfold insertAt. rewrite length_app. cbn. rewrite length_take, length_drop. lia.
  - destruct (lessThanZero (GetNumber n)); [done|]. pose proof (u32_range (ToInt32 n)) as [H0 _].
    change (u32 (ToInt32 n)) with (ToUint32 n) in H0. rewrite SetLength_vec by lia. cbv zeta. split; [done|]. cbn [snd].
    destruct (Z.ltb_spec (Z.of_nat (length l)) (ToUint32 n)).
    + pose proof (grown_capacity l s (ToUint32 n) H0) as Hg. split_and!; cbn [fst snd]; [done|rewrite length_take; lia|].
      unfold capacity in *. rewrite take_drop. lia.
    + apply (vectorRep_shrunk k l s); [done|rewrite length_take; lia|by rewrite take_drop].
  - rewrite IncreaseCapacityTo_vec by lia. destruct (Z.ltb_spec (ToInt32 n) 0); [done|]. split; [done|].
    split_and!; cbn [fst snd]; [done|lia|]. unfold capacity in *. rewrite app_assoc, length_app, length_replicate. lia.
  - cbn [GetSize Length vec]. rewrite (vec_i32 _ s) by lia.
    destruct (Z.ltb_spec (ToInt32 index) 0); [done|]. destruct (Z.leb_spec (Z.of_nat (length l)) (ToInt32 index)); [done|].
    cbn [orb]. rewrite Set_vec by lia. split; [done|]. cbn [snd].
    apply (vectorRep_shrunk k l s); rewrite ?length_app, ?length_insert; done.
Qed.

Lemma vectorRemoves_simulate k l s op : vectorRep k (vec l s) (l, s) -> Z.of_nat k < 2 ^ 28 ->
  match op with
  | OpRemove _ | OpRemoveByIndex _ | OpRemoveByRange _ _ | OpTrim | OpClear => True
  | _ => False
  end ->
  (vectorStep (vec l s) op).1 = (vectorSpec (l, s) op).1 /\
  vectorRep (S k) (vectorStep (vec l s) op).2 (vectorSpec (l, s) op).2.
Proof.
  intros HR Hk Hop. pose proof HR as (_ & Hl & Hc). cbn [fst snd] in Hl, Hc.
  assert (vectorRep (S k) (vec l s) (l, s)) as Hsame by (by apply (vectorRep_shrunk k l s)).
  assert (forall i, (i < length l)%nat -> vectorRep (S k) (vec (delete i l) (Hole :: s)) (delete i l, Hole :: s)) as Hdel.
  { intros i Hi. assert (length (delete i l) = (length l - 1)%nat) as Ed by (apply length_delete, lookup_lt_is_Some; lia).
    apply (vectorRep_shrunk k l s); [done|lia|]. rewrite !length_app, Ed. cbn. lia. }
  destruct op; try done; cbn [vectorStep vectorSpec] in *;
    unfold vector_remove, vector_removeByIndex, vector_removeByRange, vector_trimToCurrentLength, vector_clear, observeUpdate;
    cbn [receiveVector]; rewrite ?bind_Ok; vectorArgs; try done.
  - rewrite Remove_vec by lia. destruct (Nat.eqb_spec (length l) 0); [by destruct l|].
    destruct (indexFrom_range l x 0) as [E|E].
    + rewrite E. by destruct l.
    + destruct l as [|y l0]; [done|]. cbv zeta. destruct (Z.leb_spec 0 (indexFrom (y :: l0) x 0)); [|lia]. split; [done|].
      apply Hdel. lia.
  - rewrite RemoveByIndex_vec by lia. destruct (Z.ltb_spec (ToInt32 index) 0); [done|].
    destruct (l !! Z.to_nat (ToInt32 index)) eqn:E; [|done]. split; [done|]. apply Hdel. by eapply lookup_lt_Some.
  - rewrite RemoveByRange_vec by lia. destruct (ToInt32 toIndex <=? ToInt32 fromIndex) eqn:E1; [done|]. apply Z.leb_gt in E1.
    destruct (Z.ltb_spec (ToInt32 fromIndex) 0); [done|].
    destruct (Z.leb_spec (Z.of_nat (length l)) (ToInt32 fromIndex)); [done|]. split; [done|].
    apply (vectorRep_shrunk k l s); [done|..]; rewrite ?app_nil_r, ?length_app, length_take, length_drop; lia.
  - rewrite TrimToCurrentLength_vec by lia. split; [done|].
    apply (vectorRep_shrunk k l s); [done|done|]. rewrite !length_app. cbn. lia.
  - rewrite Clear_vec. split; [done|]. apply (vectorRep_shrunk k l s); [done|cbn; lia|].
    cbn [app]. by rewrite !length_app, length_replicate.
Qed.

Lemma vectorReads_simulate k l s op : vectorRep k (vec l s) (l, s) -> Z.of_nat k < 2 ^ 28 ->
  match op with
  | OpGetCapacity | OpGet _ | OpGetIndexOf _ | OpGetIndexFrom _ _ | OpGetLastIndexOf _ | OpGetLastIndexFrom _ _ | OpIsEmpty
  | OpGetFirstElement | OpGetLastElement | OpGetSize | OpHas _ | OpSubVector _ _ | OpClone | OpConvertToArray => True
  | _ => False
  end ->
  (vectorStep (vec l s) op).1 = (vectorSpec (l, s) op).1 /\ (vectorStep (vec l s) op).2 = vec l s /\ (vectorSpec (l, s) op).2 = (l, s).
Proof.
  intros HR Hk Hop. pose proof HR as (_ & Hl & Hc). cbn [fst snd] in Hl, Hc.
  destruct op; try done; cbn [vectorStep vectorSpec] in *;
    unfold vector_getCapacity, vector_get, vector_getIndexOf, vector_getIndexFrom, vector_getLastIndexOf, vector_getLastIndexFrom,
      vector_isEmpty, vector_getFirstElement, vector_getLastElement, vector_getSize, vector_has, vector_subVector, vector_clone,
      vector_convertToArray, observeRead;
    cbn [receiveVector]; rewrite ?bind_Ok; vectorArgs; try done.
  - rewrite Get_vec by lia. destruct (_ <? 0); [done|]. by destruct (l !! _).
  - unfold GetIndexOf. rewrite GetIndexFrom_vec by lia. by destruct l.
  - rewrite GetIndexFrom_vec by lia. by destruct (_ && _).
  - by rewrite GetLastIndexOf_vec by lia.
  - rewrite GetLastIndexFrom_vec by lia. destruct (Z.leb_spec (Z.of_nat (length l)) (ToInt32 index)) as [|Hi]; [done|].
    destruct l as [|y l0]; cbn [length app] in *.
    + destruct (Z.ltb_spec (ToInt32 index) 0); [|lia]. destruct s as [|y s0]; [done|]. cbn. by destruct (StrictEqual x y).
    + rewrite andb_false_r. by destruct s.
  - unfold IsEmpty, GetSize. cbn [Length vec]. by destruct l.
  - by rewrite GetFirstElement_vec.
  - by rewrite GetLastElement_vec.
  - by rewrite Has_vec.
  - rewrite SubVector_vec by lia. destruct (_ || _); [done|]. destruct (_ <=? _); [done|]. cbn [fst snd]. unfold newVector.
    by rewrite take_vec.
  - rewrite Clone_vec. unfold newVector. by rewrite take_vec.
  - cbn [GetSize Length Elements vec]. by rewrite NewAndCopyTaggedArray_app.
Qed.

Lemma vectorStep_simulates k v st op : vectorRep k v st -> (k < Z.to_nat (2 ^ 28))%nat -> vectorOk op ->
  (vectorStep v op).1 = (vectorSpec st op).1 /\ vectorRep (S k) (vectorStep v op).2 (vectorSpec st op).2.
Proof.
  destruct st as [l s]. intros HR Hk Hok. pose proof HR as [-> Hb]. cbn [fst snd] in *. assert (Z.of_nat k < 2 ^ 28) as Hk' by lia.
  assert (vectorRep (S k) (vec l s) (l, s)) as Hsame by (by apply (vectorRep_shrunk k l s)).
  destruct op;
    first [ by apply (vectorWrites_simulate k) | by apply (vectorRemoves_simulate k)
          | match goal with |- (vectorStep _ ?op).1 = _ /\ _ =>
              destruct (vectorReads_simulate k l s op HR Hk' I) as (-> & -> & ->) end; done ].
Qed.

(** A callback that leaves the vector alone is called once per element. *)
Lemma forEachLoop_pure {W} (cb : Callback W JSAPIVector) f l s l1 l2 w fuel : l = l1 ++ l2 -> capacity l s <= 2 ^ 30 ->
  pureCallback cb f -> (length l2 <= fuel)%nat ->
  forEachLoop fuel cb (Z.of_nat (length l1)) (Z.of_nat (length l)) w (vec l s)
  = Ok ((mapCalls f w (Z.of_nat (length l1)) l2).2, vec l s).
Proof.
  intros -> Hc Hcb. revert l1 w fuel Hc. induction l2 as [|x l2 IH]; intros l1 w fuel Hc Hf.
  - rewrite app_nil_r in *. destruct fuel; cbn [forEachLoop]; by rewrite Z.ltb_irrefl.
  - destruct fuel as [|fuel]; [cbn in Hf; lia|]. cbn [forEachLoop].
    destruct (Z.ltb_spec (Z.of_nat (length l1)) (Z.of_nat (length (l1 ++ x :: l2)))) as [|H];
      [|rewrite length_app in H; cbn in H; lia].
    rewrite Get_vec by done. destruct (Z.ltb_spec (Z.of_nat (length l1)) 0); [lia|].
    rewrite Nat2Z.id, lookup_app_r, Nat.sub_diag by done. change ((x :: l2) !! 0%nat) with (Some x). cbv iota.
    rewrite bind_Ok, Hcb, bind_Ok. cbn [mapCalls]. destruct (f w x (Z.of_nat (length l1))) as [r w1].
    cbn [GetSize Length vec]. assert (u32 (Z.of_nat (length l1) + 1) = Z.of_nat (length (l1 ++ [x]))) as ->.
    { rewrite length_app. cbn [length]. unfold capacity in Hc. rewrite !length_app in Hc.
      rewrite u32_small by (unfold is_u32; rewrite BASE_eq; lia). lia. }
    replace (l1 ++ x :: l2) with ((l1 ++ [x]) ++ l2) in * by (by rewrite <- app_assoc).
    rewrite IH by (done || cbn in Hf; lia).
    replace (Z.of_nat (length (l1 ++ [x]))) with (Z.of_nat (length l1) + 1) by (rewrite length_app; cbn; lia).
    by destruct (mapCalls f w1 (Z.of_nat (length l1) + 1) l2).
Qed.

Lemma replaceLoop_pure {W} (cb : Callback W JSAPIVector) f s l1 l2 w fuel : capacity (l1 ++ l2) s <= 2 ^ 30 ->
  pureCallback cb f -> (length l2 <= fuel)%nat ->
  replaceLoop fuel cb (Z.of_nat (length l1)) (Z.of_nat (length (l1 ++ l2))) w (vec (l1 ++ l2) s)
  = Ok ((mapCalls f w (Z.of_nat (length l1)) l2).2, vec (l1 ++ (mapCalls f w (Z.of_nat (length l1)) l2).1) s).
Proof.
  intros Hc Hcb. revert l1 w fuel Hc. induction l2 as [|x l2 IH]; intros l1 w fuel Hc Hf.
  - cbn [mapCalls fst snd]. rewrite app_nil_r in *. destruct fuel; cbn [replaceLoop]; by rewrite Z.ltb_irrefl.
  - destruct fuel as [|fuel]; [cbn in Hf; lia|]. cbn [replaceLoop].
    destruct (Z.ltb_spec (Z.of_nat (length l1)) (Z.of_nat (length (l1 ++ x :: l2)))) as [|H];
      [|rewrite length_app in H; cbn in H; lia].
    rewrite Get_vec by done. destruct (Z.ltb_spec (Z.of_nat (length l1)) 0); [lia|].
    rewrite Nat2Z.id, lookup_app_r, Nat.sub_diag by done. change ((x :: l2) !! 0%nat) with (Some x). cbv iota.
    rewrite bind_Ok, Hcb, bind_Ok. cbn [mapCalls]. destruct (f w x (Z.of_nat (length l1))) as [r w1].
    cbn [GetSize Length vec]. rewrite Z.eqb_refl. cbn [negb andb]. rewrite Set_vec, bind_Ok by lia.
    rewrite Nat2Z.id, insert_app_r_alt, Nat.sub_diag by done. cbn [list_insert insert]. cbn [GetSize Length vec].
    assert (u32 (Z.of_nat (length l1) + 1) = Z.of_nat (length (l1 ++ [r]))) as ->.
    { rewrite length_app. cbn [length]. unfold capacity in Hc. rewrite !length_app in Hc.
      rewrite u32_small by (unfold is_u32; rewrite BASE_eq; lia). lia. }
    replace (l1 ++ r :: l2) with ((l1 ++ [r]) ++ l2) in * by (by rewrite <- app_assoc).
    rewrite IH; [|unfold capacity in *; rewrite !length_app in *; cbn in *; lia|cbn in Hf; lia].
    replace (Z.of_nat (length (l1 ++ [r]))) with (Z.of_nat (length l1) + 1) by (rewrite length_app; cbn; lia).
    destruct (mapCalls f w1 (Z.of_nat (length l1) + 1) l2). cbn [fst snd]. by rewrite <- app_assoc.
Qed.

(** ** Theorems *)

(** C28: The vector implements a list with spare slots: any sequence of at most [2 ^ 28] calls of
    its methods on a new vector, with sizes set to at most [2 ^ 28] and capacities to at most
    [2 ^ 30], is observed exactly as on that list, errors included, and every intermediate state
    is that of the list.  Growing the size makes spare slots elements, with whatever values an
    earlier shrinking left there. *)
Theorem Vector_refines_slots ops v0 : VectorConstructor true = Ok v0 ->
  Z.of_nat (length ops) <= 2 ^ 28 -> Forall vectorOk ops ->
  let s0 := replicate 10 Hole in
  (run vectorStep v0 ops).1 = (runSpec vectorSpec ([], s0) ops).1 /\
  (run vectorStep v0 ops).2 = vec (runSpec vectorSpec ([], s0) ops).2.1 (runSpec vectorSpec ([], s0) ops).2.2.
Proof.
  intros [= <-] Hlen Hok. destruct (run_simulates vectorStep vectorSpec vectorOk vectorRep (Z.to_nat (2 ^ 28))) with
    (ops := ops) (k := 0%nat) (c := vec [] (replicate 10 Hole)) (l := (@nil JSTaggedValue, replicate 10 Hole)) as [Eo [Ev _]].
  - apply vectorStep_simulates.
  - split_and!; [done|cbn; lia|by vm_compute].
  - lia.
  - done.
  - done.
Qed.

Lemma Vector_refines_slots_witness :
  (run vectorStep (vec [] (replicate 10 Hole))
     [OpAdd (Int 7); OpAdd (Int 8); OpInsert (Int 9) (Int 1); OpSetLength (Int 1); OpSetLength (Int 3); OpGet (Int 2);
      OpGetIndexOf (Int 9); OpRemoveByRange (Int 0) (Int 2); OpGetCapacity; OpGet (Int 1)]).1
    = [Truth true; Truth true; Nothing; Nothing; Nothing; Value (Int 8); Count 1; Nothing; Count 1; Throws OutOfBoundsIndex].
Proof.
  refine (proj1 (Vector_refines_slots
     [OpAdd (Int 7); OpAdd (Int 8); OpInsert (Int 9) (Int 1); OpSetLength (Int 1); OpSetLength (Int 3); OpGet (Int 2);
      OpGetIndexOf (Int 9); OpRemoveByRange (Int 0) (Int 2); OpGetCapacity; OpGet (Int 1)] _ _ _ _)); [done|by vm_compute|].
  repeat (apply Forall_cons; split; [by vm_compute|]). by apply Forall_nil.
Defined.

(** [replaceAllElements] with a callback that leaves the vector alone ends after one call per
    element, in order, and puts the results in the place of the elements. *)
Theorem Vector_replaceAllElements_correct {W} (cb : Callback W JSAPIVector) f l s w fuel :
  capacity l s <= 2 ^ 30 -> pureCallback cb f -> (length l <= fuel)%nat ->
  vector_replaceAllElements fuel (This (vec l s)) (Some cb) w =
    Ok ((mapCalls f w 0 l).2, vec (mapCalls f w 0 l).1 s).
Proof. intros Hc Hcb Hf. by apply (replaceLoop_pure cb f s []). Qed.

Lemma Vector_replaceAllElements_correct_witness :
  vector_replaceAllElements 2 (This (vec [Int 5; Int 6] [Hole])) (Some (fun w v x k => Ok (Int k, w + 1, v))) 0
    = Ok (2, vec [Int 0; Int 1] [Hole]).
Proof.
  apply (Vector_replaceAllElements_correct _ (fun w x k => (Int k, w + 1))); [by vm_compute|done|done].
Defined.

(** [forEach], likewise, calls it once per element. *)
Theorem Vector_forEach_correct {W} (cb : Callback W JSAPIVector) f l s w fuel :
  capacity l s <= 2 ^ 30 -> pureCallback cb f -> (length l <= fuel)%nat ->
  vector_forEach fuel (This (vec l s)) (Some cb) w = Ok ((mapCalls f w 0 l).2, vec l s).
Proof. intros Hc Hcb Hf. by apply (forEachLoop_pure cb f l s []). Qed.

(** [getLastIndexFrom] with a negative index reads the first slot even of an empty vector: it
    can answer 0 for a value that was removed, and reads out of bounds when the vector has been
    trimmed. *)
Theorem Vector_getLastIndexFrom_unchecked x s :
  vector_getLastIndexFrom (This (vec [] (x :: s))) x (Int (-1)) = Ok (if StrictEqual x x then 0 else -1) /\
  vector_getLastIndexFrom (This (vec [] [])) x (Int (-1)) = Err OutOfBounds.
Proof.
  unfold vector_getLastIndexFrom. assert (numberArg IndexNotNumber (Int (-1)) = Ok (-1)) as -> by (by vm_compute).
  cbn [receiveVector]. rewrite !bind_Ok. split; [|done].
  unfold GetLastIndexFrom. change (i32 (GetSize (vec [] (x :: s)))) with 0. cbn [Z.leb Z.compare Z.ltb]. cbv zeta.
  change (Z.to_nat (0 + 1)) with 1%nat. cbn [Elements vec app findDown]. change (get (x :: s) 0) with (Ok x). rewrite bind_Ok.
  by destruct (StrictEqual x x).
Qed.
