(* ===== verification/ArrayList.v ===== *)
(** * The array list container

    [JSAPIArrayList] of src/ecmascript/js_api/js_api_arraylist.h and js_api_arraylist.cpp, its
    iterator (js_api_arraylist_iterator.cpp) and the methods of
    src/ecmascript/containers/containers_arraylist.cpp.  The elements are the first [Length]
    slots of a tagged array; the length, a tagged value in the code, is the integer it holds. *)

From Stdlib Require Import ZArith Lia.
From S2P Require Import Prelude Double Values BigIntNum NumberHelper Containers TaggedArray.

(** ** Model *)

Record JSAPIArrayList := mkArrayList { Elements : list JSTaggedValue; Length : Z }.

Definition DEFAULT_CAPACITY_LENGTH : Z := 10.

Definition ArrayListConstructor (newTarget : bool) : result JSAPIArrayList :=
  if negb newTarget then Err (IsNullError "The ArrayList's constructor cannot be directly invoked.")
  else Ok (mkArrayList (replicate (Z.to_nat DEFAULT_CAPACITY_LENGTH) Hole) 0).

Definition NewJSAPIArrayList (capacity : Z) : JSAPIArrayList := mkArrayList (replicate (Z.to_nat capacity) Hole) 0.

Definition FromIndexRange : error := RangeError "The value of fromIndex is out of range.".
Definition ToIndexRange : error := RangeError "The value of toIndex is out of range.".
Definition CapacityType : error := TypeError "The type of newCapacity must be number.".
Definition FromIndexType : error := TypeError "The type of fromIndex must be number.".
Definition ToIndexType : error := TypeError "The type of toIndex must be number.".

Definition ComputeCapacity (oldCapacity : Z) : Z :=
  let newCapacity := u32 (oldCapacity + Z.shiftr oldCapacity 1) in
  if DEFAULT_CAPACITY_LENGTH <? newCapacity then newCapacity else DEFAULT_CAPACITY_LENGTH.

Definition GetSize (a : JSAPIArrayList) : Z := Length a.
Definition GetCapacity (a : JSAPIArrayList) : Z := Z.of_nat (length (Elements a)).

(** Returns the elements, which are those of the updated list. *)
Definition GrowCapacity (a : JSAPIArrayList) (capacity : Z) : result (list JSTaggedValue) :=
  let oldCapacity := Z.of_nat (length (Elements a)) in
  if capacity <? oldCapacity then Ok (Elements a)
  else CopyArray (Elements a) oldCapacity (ComputeCapacity capacity).

Definition Add (a : JSAPIArrayList) (value : JSTaggedValue) : result (bool * JSAPIArrayList) :=
  let length_ := Length a in
  elements ← GrowCapacity a (u32 (length_ + 1));
  elements ← set elements (Z.to_nat length_) value;
  Ok (true, mkArrayList elements (u32 (length_ + 1))).

Definition Insert (a : JSAPIArrayList) (value : JSTaggedValue) (index : Z) : result JSAPIArrayList :=
  let length_ := Length a in
  if (index <? 0) || (length_ <? index) then Err IndexRange else
  elements ← GrowCapacity a (u32 (length_ + 1));
  elements ← shiftUp (Z.to_nat index) (Z.to_nat length_ - Z.to_nat index) elements;
  elements ← set elements (Z.to_nat index) value;
  Ok (mkArrayList elements (length_ + 1)).

Definition Clear (a : JSAPIArrayList) : result JSAPIArrayList :=
  elements ← clearSlots (Z.to_nat (Length a)) (Elements a);
  Ok (mkArrayList elements 0).

(** Returns the new list. *)
Definition Clone (a : JSAPIArrayList) : result JSAPIArrayList :=
  let length_ := GetSize a in
  dstElements ← NewAndCopyTaggedArray (Elements a) length_ length_ 0;
  Ok (mkArrayList dstElements length_).

(** [capacity] comes as an unsigned number and is read as an [int]. *)
Definition IncreaseCapacityTo (a : JSAPIArrayList) (capacity : Z) : result JSAPIArrayList :=
  let capacity := i32 capacity in
  let length_ := Length a in
  let oldElementLength := Z.of_nat (length (Elements a)) in
  if negb (oldElementLength =? capacity) && (length_ <? capacity) then
    newElements ← NewAndCopyTaggedArray (Elements a) (u32 capacity) (u32 length_) 0;
    Ok (mkArrayList newElements length_)
  else Ok a.

Definition TrimToCurrentLength (a : JSAPIArrayList) : result JSAPIArrayList :=
  let length_ := Length a in
  if length_ <? GetCapacity a then elements ← Trim (Elements a) length_; Ok (mkArrayList elements length_) else Ok a.

Definition Get (a : JSAPIArrayList) (index : Z) : result JSTaggedValue :=
  if Length a =? 0 then Err ContainerEmpty else
  if Length a <=? index then Err IndexRange else
  get (Elements a) (Z.to_nat index).

Definition Set_ (a : JSAPIArrayList) (index : Z) (value : JSTaggedValue) : result JSAPIArrayList :=
  if Length a =? 0 then Err ContainerEmpty else
  if Length a <=? index then Err IndexRange else
  elements ← set (Elements a) (Z.to_nat index) value;
  Ok (mkArrayList elements (Length a)).

Definition IsEmpty (a : JSAPIArrayList) : bool := GetSize a =? 0.

Definition GetIndexOf (a : JSAPIArrayList) (value : JSTaggedValue) : result Z :=
  findUp (StrictEqual value) (Elements a) (Z.to_nat (Length a)) 0.

Definition GetLastIndexOf (a : JSAPIArrayList) (value : JSTaggedValue) : result Z :=
  findDown (StrictEqual value) (Elements a) (Z.to_nat (Length a)).

Definition RemoveByIndex (a : JSAPIArrayList) (index : Z) : result (JSTaggedValue * JSAPIArrayList) :=
  let length_ := Length a in
  if length_ <=? 0 then Err ContainerEmpty else
  if (index <? 0) || (length_ <=? index) then Err IndexRange else
  oldValue ← get (Elements a) (Z.to_nat index);
  elements ← RemoveElementByIndex (Elements a) (Z.to_nat index) (Z.to_nat length_);
  Ok (oldValue, mkArrayList elements (length_ - 1)).

Definition Remove (a : JSAPIArrayList) (value : JSTaggedValue) : result (bool * JSAPIArrayList) :=
  index ← GetIndexOf a value;
  let length_ := GetSize a in
  if 0 <=? index then
    elements ← RemoveElementByIndex (Elements a) (Z.to_nat index) (Z.to_nat length_);
    Ok (true, mkArrayList elements (u32 (length_ - 1)))
  else Ok (false, a).

(** The indices are Numbers. *)
Definition RemoveByRange (a : JSAPIArrayList) (value1 value2 : JSTaggedValue) : result JSAPIArrayList :=
  let startIndex := ToInt32 value1 in
  let endIndex := ToInt32 value2 in
  let length_ := Length a in
  if length_ <=? 0 then Err ContainerEmpty else
  let size := if endIndex <? length_ then endIndex else length_ in
  if (startIndex <? 0) || (size <=? startIndex) then Err FromIndexRange else
  if (endIndex <=? startIndex) || (endIndex <? 0) || (length_ <? endIndex) then Err ToIndexRange else
  let toIndex := if length_ <=? endIndex then length_ else endIndex in
  let numMoved := length_ - toIndex in
  elements ← shiftDown (Z.to_nat startIndex) (Z.to_nat endIndex) (Z.to_nat numMoved) (Elements a);
  let newLength := length_ - (endIndex - startIndex) in
  elements ← Trim elements newLength;
  Ok (mkArrayList elements newLength).

(** Returns the new list. *)
Definition SubArrayList (a : JSAPIArrayList) (value1 value2 : JSTaggedValue) : result JSAPIArrayList :=
  let length_ := Length a in
  let fromIndex := ToInt32 value1 in
  let toIndex := ToInt32 value2 in
  let size := if toIndex <? length_ then toIndex else length_ in
  if length_ <=? 0 then Err ContainerEmpty else
  if (fromIndex <? 0) || (size <=? fromIndex) then Err FromIndexRange else
  if (toIndex <=? fromIndex) || (toIndex <? 0) || (length_ <? toIndex) then Err ToIndexRange else
  let endIndex := if length_ - 1 <=? toIndex then length_ - 1 else toIndex in
  let newLength := if toIndex =? length_ then length_ - fromIndex else endIndex - fromIndex in
  let subArrayList := NewJSAPIArrayList newLength in
  if newLength =? 0 then Ok subArrayList else
  for_up (Z.to_nat newLength) 0 (fun i subArrayList =>
    value ← get (Elements a) (Z.to_nat fromIndex + i);
    Set_ subArrayList (Z.of_nat i) value) (mkArrayList (Elements subArrayList) newLength).

(** The length is read once; a callback that removes elements makes a later read throw. *)
Definition ReplaceAllElements {W} (callbackFn : Callback W JSAPIArrayList) (w : W) (a : JSAPIArrayList)
  : result (W * JSAPIArrayList) :=
  for_up (Z.to_nat (GetSize a)) 0 (fun k '(w, a) =>
    kValue ← Get a (Z.of_nat k);
    '(funcResult, w, a) ← callbackFn w a kValue (Z.of_nat k);
    a ← Set_ a (Z.of_nat k) funcResult;
    Ok (w, a)) (w, a).

(** The length is read again after each call; [fuel] bounds the rounds. *)
Fixpoint forEachLoop {W} (fuel : nat) (callbackFn : Callback W JSAPIArrayList) (k length_ : Z) (w : W) (a : JSAPIArrayList)
  : result (W * JSAPIArrayList) :=
  if k <? length_ then
    match fuel with
    | O => Err OutOfFuel
    | S fuel =>
      kValue ← Get a k;
      '(_, w, a) ← callbackFn w a kValue k;
      forEachLoop fuel callbackFn (u32 (k + 1)) (GetSize a) w a
    end
  else Ok (w, a).

Definition ForEach {W} (fuel : nat) (callbackFn : Callback W JSAPIArrayList) (w : W) (a : JSAPIArrayList)
  : result (W * JSAPIArrayList) :=
  forEachLoop fuel callbackFn 0 (GetSize a) w a.

Definition Has (a : JSAPIArrayList) (value : JSTaggedValue) : result bool :=
  let length_ := GetSize a in
  if length_ =? 0 then Ok false else
  i ← findUp (fun e => SameValue e value) (Elements a) (Z.to_nat length_) 0;
  Ok (0 <=? i).

Definition GetProperty (a : JSAPIArrayList) (key : JSTaggedValue) : result JSTaggedValue :=
  match indexKeyOf key with
  | Int index => if (index <? 0) || (Length a <=? index) then Err IndexRange else Get a index
  | _ => Err IndexType
  end.

(** The key is a Number. *)
Definition SetProperty (a : JSAPIArrayList) (key value : JSTaggedValue) : result (bool * JSAPIArrayList) :=
  let index := truncCast (GetNumber key) in
  if (index <? 0) || (Length a <=? index) then Ok (false, a) else
  a ← Set_ a index value; Ok (true, a).

Record ArrayListIterator := mkArrayListIterator { attached : bool; NextIndex : Z }.

(** Returns [None] when done, or the value; and the updated iterator. *)
Definition Next (a : JSAPIArrayList) (iter : ArrayListIterator) : result (option JSTaggedValue * ArrayListIterator) :=
  if negb (attached iter) then Ok (None, iter) else
  let index := NextIndex iter in
  if Length a <=? index then Ok (None, mkArrayListIterator false index)
  else
    value ← Get a index;
    Ok (Some value, mkArrayListIterator true (u32 (index + 1))).

(** The methods. *)
Definition smallInteger (arg : JSTaggedValue) : result Z :=
  match indexKeyOf arg with Int i => Ok i | _ => Err IndexType end.

Definition arraylist_add (self : Receiver JSAPIArrayList) (value : JSTaggedValue) : result (bool * JSAPIArrayList) :=
  a ← receive "add" self; Add a value.

(** The index, converted to unsigned, comes back as the [int] it was. *)
Definition arraylist_insert (self : Receiver JSAPIArrayList) (value index : JSTaggedValue) : result JSAPIArrayList :=
  a ← receive "insert" self;
  i ← smallInteger index;
  Insert a value (i32 (u32 i)).

Definition arraylist_clear (self : Receiver JSAPIArrayList) : result (bool * JSAPIArrayList) :=
  a ← receive "clear" self; a ← Clear a; Ok (true, a).

Definition arraylist_clone (self : Receiver JSAPIArrayList) : result JSAPIArrayList :=
  a ← receive "clone" self; Clone a.

Definition arraylist_has (self : Receiver JSAPIArrayList) (value : JSTaggedValue) : result bool :=
  a ← receive "has" self; Has a value.

Definition arraylist_getCapacity (self : Receiver JSAPIArrayList) : result Z :=
  a ← receive "getCapacity" self; Ok (GetCapacity a).

Definition arraylist_increaseCapacityTo (self : Receiver JSAPIArrayList) (newCapacity : JSTaggedValue)
  : result (bool * JSAPIArrayList) :=
  a ← receive "increaseCapacityTo" self;
  if negb (IsInteger newCapacity) then Err CapacityType else
  a ← IncreaseCapacityTo a (ToUint32 newCapacity); Ok (true, a).

Definition arraylist_trimToCurrentLength (self : Receiver JSAPIArrayList) : result (bool * JSAPIArrayList) :=
  a ← receive "trimToCurrentLength" self; a ← TrimToCurrentLength a; Ok (true, a).

(** [index] is the Number the argument converts to. *)
Definition arraylist_get (self : Receiver JSAPIArrayList) (index : JSTaggedValue) : result JSTaggedValue :=
  a ← receive "get" self; Get a (ToUint32 index).

Definition arraylist_set (self : Receiver JSAPIArrayList) (index value : JSTaggedValue) : result JSAPIArrayList :=
  a ← receive "set" self; Set_ a (ToUint32 index) value.

Definition arraylist_getIndexOf (self : Receiver JSAPIArrayList) (value : JSTaggedValue) : result Z :=
  a ← receive "getIndexOf" self; GetIndexOf a value.

Definition arraylist_isEmpty (self : Receiver JSAPIArrayList) : result bool :=
  a ← receive "isEmpty" self; Ok (IsEmpty a).

Definition arraylist_getLastIndexOf (self : Receiver JSAPIArrayList) (value : JSTaggedValue) : result Z :=
  a ← receive "getLastIndexOf" self; GetLastIndexOf a value.

Definition arraylist_removeByIndex (self : Receiver JSAPIArrayList) (index : JSTaggedValue)
  : result (JSTaggedValue * JSAPIArrayList) :=
  a ← receive "removeByIndex" self;
  i ← smallInteger index;
  RemoveByIndex a (i32 (u32 i)).

Definition arraylist_remove (self : Receiver JSAPIArrayList) (value : JSTaggedValue) : result (bool * JSAPIArrayList) :=
  a ← receive "remove" self; Remove a value.

Definition arraylist_removeByRange (self : Receiver JSAPIArrayList) (startIndex endIndex : JSTaggedValue)
  : result JSAPIArrayList :=
  a ← receive "removeByRange" self;
  if negb (IsInteger startIndex) then Err FromIndexType else
  if negb (IsInteger endIndex) then Err ToIndexType else
  RemoveByRange a startIndex endIndex.

Definition arraylist_subArrayList (self : Receiver JSAPIArrayList) (value1 value2 : JSTaggedValue) : result JSAPIArrayList :=
  a ← receive "subArrayList" self;
  if negb (IsInteger value1) then Err FromIndexType else
  if negb (IsInteger value2) then Err ToIndexType else
  SubArrayList a value1 value2.

Definition arraylist_replaceAllElements {W} (self : Receiver JSAPIArrayList)
    (callbackfn : option (Callback W JSAPIArrayList)) (w : W) : result (W * JSAPIArrayList) :=
  a ← receive "replaceAllElements" self;
  match callbackfn with None => Err NotCallable | Some f => ReplaceAllElements f w a end.

Definition arraylist_forEach {W} (fuel : nat) (self : Receiver JSAPIArrayList)
    (callbackfn : option (Callback W JSAPIArrayList)) (w : W) : result (W * JSAPIArrayList) :=
  a ← receive "forEach" self;
  match callbackfn with None => Err NotCallable | Some f => ForEach fuel f w a end.

Definition arraylist_getSize (self : Receiver JSAPIArrayList) : result Z :=
  a ← receive "getLength" self; Ok (GetSize a).

Definition arraylist_convertToArray (self : Receiver JSAPIArrayList) : result JSArray :=
  a ← receive "convertToArray" self;
  let length_ := Length a in
  dstElements ← NewAndCopyTaggedArray (Elements a) length_ length_ 0;
  Ok (mkJSArray dstElements length_).

Definition arraylist_iterator (self : Receiver JSAPIArrayList) : result ArrayListIterator :=
  _ ← receive "Symbol.iterator" self; Ok (mkArrayListIterator true 0).

(** ** The list an array list holds

    The elements [l] and the spare slots [s].  The length never grows over spare slots without
    writing them, so only their number matters. *)

Definition alist (l s : list JSTaggedValue) : JSAPIArrayList := mkArrayList (l ++ s) (Z.of_nat (length l)).

Definition arrayListInv (a : JSAPIArrayList) : Prop := 0 <= Length a <= Z.of_nat (length (Elements a)).

Lemma alist_of a : arrayListInv a ->
  a = alist (take (Z.to_nat (Length a)) (Elements a)) (drop (Z.to_nat (Length a)) (Elements a)).
Proof.
  intros Ha. unfold arrayListInv in Ha. destruct a as [e n]. unfold alist. cbn in *. rewrite take_drop, length_take. f_equal. lia.
Qed.

Lemma alist_inv l s : arrayListInv (alist l s).
Proof. unfold arrayListInv, alist. cbn. rewrite length_app. lia. Qed.

(** The number of spare slots after making room for one more element. *)
Definition grownSpare (n spare : nat) : nat :=
  if (S n <? n + spare)%nat then spare - 1 else Z.to_nat (ComputeCapacity (Z.of_nat n + 1)) - n - 1.

Lemma i32_u32 z : i32 (u32 z) = i32 z.
Proof. unfold i32, u32, BASE. by rewrite Z.mod_mod by lia. Qed.

(** The checks of the two methods that take a range. *)
Definition rangeError (n f t : Z) : option error :=
  if n <=? 0 then Some ContainerEmpty else
  if (f <? 0) || ((if t <? n then t else n) <=? f) then Some FromIndexRange else
  if (t <=? f) || (t <? 0) || (n <? t) then Some ToIndexRange else None.

Lemma rangeError_None n f t : rangeError n f t = None -> 0 <= f < t /\ t <= n.
Proof.
  unfold rangeError. destruct (n <=? 0); [done|]. destruct (_ || _) eqn:E1; [done|]. destruct (_ || (n <? t)) eqn:E2; [done|].
  intros _. apply orb_false_iff in E1 as [E1 _]. apply orb_false_iff in E2 as [E2 E3]. apply orb_false_iff in E2 as [E2 _]. lia.
Qed.

Section Equations.
  Context (l s : list JSTaggedValue).
  Hypothesis Hlen : Z.of_nat (length l) < 2 ^ 29.

Local Lemma len_u32 : u32 (Z.of_nat (length l)) = Z.of_nat (length l) /\ u32 (Z.of_nat (length l) + 1) = Z.of_nat (length l) + 1.
Proof. split; apply u32_small; unfold is_u32; rewrite BASE_eq; lia. Qed.

Lemma GrowCapacity_alist : exists x s', GrowCapacity (alist l s) (Z.of_nat (length l) + 1) = Ok (l ++ x :: s') /\
  length s' = grownSpare (length l) (length s).
Proof.
  unfold GrowCapacity, grownSpare. cbn [Elements alist]. rewrite length_app.
  destruct (Nat.ltb_spec (S (length l)) (length l + length s)), (Z.ltb_spec (Z.of_nat (length l) + 1) (Z.of_nat (length l + length s)));
    try lia.
  - destruct s as [|x s']; [cbn in *; lia|]. exists x, s'. split; [done|cbn; lia].
  - assert (0 <= Z.of_nat (length l) + 1 < 2 ^ 30) as Hb by lia. pose proof (halfAgain_grows _ Hb) as Hg.
    change (let n := _ in _) with (ComputeCapacity (Z.of_nat (length l) + 1)) in Hg.
    replace (length l + length s)%nat with (length (l ++ s)) by apply length_app.
    rewrite CopyArray_app by (rewrite length_app; lia). destruct (s ++ _) as [|x s'] eqn:E.
    + apply (f_equal length) in E. rewrite length_app, length_replicate, length_app in E. cbn in E. lia.
    + exists x, s'. split; [done|]. apply (f_equal length) in E. rewrite length_app, length_replicate, length_app in E. cbn in E. lia.
Qed.

Lemma Add_alist v : exists s', Add (alist l s) v = Ok (true, alist (l ++ [v]) s') /\
  length s' = grownSpare (length l) (length s).
Proof.
  destruct GrowCapacity_alist as (x & s' & E & El). exists s'. split; [|done]. unfold Add. cbn [Length alist].
  destruct len_u32 as [_ ->]. rewrite E, bind_Ok, Nat2Z.id, set_spare, bind_Ok. unfold alist. do 3 f_equal.
  rewrite length_app. cbn. lia.
Qed.

Lemma Insert_alist v i :
  if (i <? 0) || (Z.of_nat (length l) <? i) then Insert (alist l s) v i = Err IndexRange
  else exists s', Insert (alist l s) v i = Ok (alist (insertAt (Z.to_nat i) v l) s') /\
    length s' = grownSpare (length l) (length s).
Proof.
  destruct GrowCapacity_alist as (x & s' & E & El). unfold Insert. cbn [Length alist].
  destruct (Z.ltb_spec i 0); [done|]. destruct (Z.ltb_spec (Z.of_nat (length l)) i); [done|]. cbn [orb].
  exists s'. split; [|done]. destruct len_u32 as [_ ->].
  rewrite E, bind_Ok, Nat2Z.id, <- bind_assoc, insertSlot_app, bind_Ok by lia. unfold alist. do 2 f_equal.
  unfold insertAt. rewrite length_app. cbn [length]. rewrite length_take, length_drop. lia.
Qed.

Lemma Clear_alist : Clear (alist l s) = Ok (alist [] (replicate (length l) Hole ++ s)).
Proof. unfold Clear. cbn [Length Elements alist]. by rewrite Nat2Z.id, clearSlots_app. Qed.

Lemma Clone_alist : Clone (alist l s) = Ok (alist l []).
Proof.
  unfold Clone, GetSize. cbn [Length Elements alist]. rewrite NewAndCopyTaggedArray_app, bind_Ok. unfold alist. by rewrite app_nil_r.
Qed.

Lemma IncreaseCapacityTo_alist c :
  IncreaseCapacityTo (alist l s) c =
    Ok (if negb (Z.of_nat (length (l ++ s)) =? i32 c) && (Z.of_nat (length l) <? i32 c)
        then alist l (replicate (Z.to_nat (i32 c) - length l) Hole) else alist l s).
Proof.
  unfold IncreaseCapacityTo. cbn [Length Elements alist]. destruct (negb _); cbn [andb]; [|done].
  destruct (Z.ltb_spec (Z.of_nat (length l)) (i32 c)); [|done]. destruct len_u32 as [-> _].
  assert (u32 (i32 c) = i32 c) as ->.
  { apply u32_small. unfold is_u32. rewrite BASE_eq. unfold i32 in *. cbv zeta in *.
    pose proof (Z.mod_pos_bound c (2 ^ 32) ltac:(lia)). destruct (c mod 2 ^ 32 <? 2 ^ 31); lia. }
  unfold NewAndCopyTaggedArray. destruct (Z.eqb_spec (i32 c) 0); [lia|].
  destruct (Z.ltb_spec (i32 c) (Z.of_nat (length l))); [lia|]. rewrite length_app.
  destruct (Z.ltb_spec (Z.of_nat (length l + length s)) (0 + Z.of_nat (length l))); [lia|]. cbn [orb].
  rewrite Nat2Z.id, drop_0, take_app_length, bind_Ok. unfold alist. do 4 f_equal. lia.
Qed.

Lemma TrimToCurrentLength_alist : TrimToCurrentLength (alist l s) = Ok (alist l []).
Proof.
  unfold TrimToCurrentLength, GetCapacity. cbn [Length Elements alist]. rewrite length_app.
  destruct (Z.ltb_spec (Z.of_nat (length l)) (Z.of_nat (length l + length s))).
  - rewrite Trim_app, bind_Ok. unfold alist. by rewrite app_nil_r.
  - unfold alist. destruct s; [done|cbn in *; lia].
Qed.

(** What a read at an index gives. *)
Definition elementAt (l : list JSTaggedValue) (i : Z) : result JSTaggedValue :=
  match l with
  | [] => Err ContainerEmpty
  | _ => match l !! Z.to_nat i with Some v => Ok v | None => Err IndexRange end
  end.

Lemma Get_alist i : 0 <= i -> Get (alist l s) i = elementAt l i.
Proof.
  intros Hi. unfold Get, elementAt. cbn [Length Elements alist]. destruct (Z.eqb_spec (Z.of_nat (length l)) 0); [by destruct l|].
  destruct (Z.leb_spec (Z.of_nat (length l)) i).
  - rewrite lookup_ge_None_2 by lia. by destruct l.
  - destruct (lookup_lt_is_Some_2 l (Z.to_nat i)) as [v Hv]; [lia|]. rewrite (get_app _ _ _ _ Hv), Hv. by destruct l.
Qed.

Lemma Set_alist i v : 0 <= i ->
  Set_ (alist l s) i v = match l with
                         | [] => Err ContainerEmpty
                         | _ => if Z.of_nat (length l) <=? i then Err IndexRange else Ok (alist (<[Z.to_nat i := v]> l) s)
                         end.
Proof.
  intros Hi. unfold Set_. cbn [Elements Length alist]. destruct (Z.eqb_spec (Z.of_nat (length l)) 0); [by destruct l|].
  destruct (Z.leb_spec (Z.of_nat (length l)) i); [by destruct l|].
  rewrite set_app, bind_Ok by lia. unfold alist. rewrite length_insert. by destruct l.
Qed.

Lemma GetIndexOf_alist x : GetIndexOf (alist l s) x = Ok (indexWhere (StrictEqual x) l).
Proof. unfold GetIndexOf. cbn [Length Elements alist]. by rewrite Nat2Z.id, findUp_app. Qed.

Lemma GetLastIndexOf_alist x : GetLastIndexOf (alist l s) x = Ok (lastIndexWhere (StrictEqual x) l).
Proof.
  unfold GetLastIndexOf. cbn [Length Elements alist]. by rewrite Nat2Z.id, findDown_eq, take_app_length by (rewrite length_app; lia).
Qed.

Lemma length_delete_at i : (i < length l)%nat -> Z.of_nat (length (delete i l)) = Z.of_nat (length l) - 1.
Proof. intros Hi. rewrite length_delete by (apply lookup_lt_is_Some; lia). lia. Qed.

Lemma RemoveByIndex_alist i :
  RemoveByIndex (alist l s) i =
    match l with
    | [] => Err ContainerEmpty
    | _ => if i <? 0 then Err IndexRange else
           match l !! Z.to_nat i with
           | Some v => Ok (v, alist (delete (Z.to_nat i) l) (Hole :: s))
           | None => Err IndexRange
           end
    end.
Proof.
  unfold RemoveByIndex. cbn [Length Elements alist]. destruct (Z.leb_spec (Z.of_nat (length l)) 0); [by destruct l; [|cbn in *; lia]|].
  destruct (Z.ltb_spec i 0); [by destruct l|]. destruct (Z.leb_spec (Z.of_nat (length l)) i); cbn [orb].
  - rewrite lookup_ge_None_2 by lia. by destruct l.
  - destruct (lookup_lt_is_Some_2 l (Z.to_nat i)) as [v Hv]; [lia|]. rewrite (get_app _ _ _ _ Hv), Hv, bind_Ok.
    rewrite Nat2Z.id, RemoveElementByIndex_app, bind_Ok by lia. unfold alist. rewrite length_delete_at by lia. by destruct l.
Qed.

Lemma Remove_alist x :
  Remove (alist l s) x =
    let i := indexWhere (StrictEqual x) l in
    Ok (if 0 <=? i then (true, alist (delete (Z.to_nat i) l) (Hole :: s)) else (false, alist l s)).
Proof.
  unfold Remove. rewrite GetIndexOf_alist, bind_Ok. cbv zeta. destruct (Z.leb_spec 0 (indexWhere (StrictEqual x) l)); [|done].
  pose proof (indexWhere_lt (StrictEqual x) l) as Hi. cbn [Elements alist GetSize Length].
  rewrite Nat2Z.id, RemoveElementByIndex_app, bind_Ok by lia. unfold alist. rewrite length_delete_at by lia.
  rewrite u32_small by (unfold is_u32; rewrite BASE_eq; lia). done.
Qed.

Lemma RemoveByRange_alist v1 v2 :
  RemoveByRange (alist l s) v1 v2 =
    match rangeError (Z.of_nat (length l)) (ToInt32 v1) (ToInt32 v2) with
    | Some e => Err e
    | None => Ok (alist (take (Z.to_nat (ToInt32 v1)) l ++ drop (Z.to_nat (ToInt32 v2)) l) [])
    end.
Proof.
  unfold RemoveByRange. cbn [Length Elements alist]. generalize (ToInt32 v1) (ToInt32 v2). intros f t.
  pose proof (rangeError_None (Z.of_nat (length l)) f t) as H. unfold rangeError in *.
  destruct (_ <=? 0); [done|]. destruct ((f <? 0) || _); [done|]. destruct (_ || (_ <? t)); [done|].
  destruct (H eq_refl) as [Hf Ht].
  assert ((if Z.of_nat (length l) <=? t then Z.of_nat (length l) else t) = t) as ->
    by (destruct (Z.leb_spec (Z.of_nat (length l)) t); lia).
  replace (Z.to_nat (Z.of_nat (length l) - t)) with (length l - Z.to_nat t)%nat by lia.
  replace (Z.of_nat (length l) - (t - f)) with (Z.of_nat (length l - (Z.to_nat t - Z.to_nat f))) by lia.
  rewrite <- bind_assoc, removeRange_app, bind_Ok by lia. unfold alist. do 2 f_equal; [by rewrite app_nil_r|].
  rewrite length_app, length_take, length_drop. lia.
Qed.

Lemma SubArrayList_alist v1 v2 :
  SubArrayList (alist l s) v1 v2 =
    match rangeError (Z.of_nat (length l)) (ToInt32 v1) (ToInt32 v2) with
    | Some e => Err e
    | None => Ok (alist (take (Z.to_nat (ToInt32 v2 - ToInt32 v1)) (drop (Z.to_nat (ToInt32 v1)) l)) [])
    end.
Proof.
  unfold SubArrayList. cbn [Length Elements alist]. generalize (ToInt32 v1) (ToInt32 v2). intros f t.
  pose proof (rangeError_None (Z.of_nat (length l)) f t) as H. unfold rangeError in *.
  destruct (_ <=? 0); [done|]. destruct ((f <? 0) || _); [done|]. destruct (_ || (_ <? t)); [done|].
  destruct (H eq_refl) as [Hf Ht].
  assert ((if t =? Z.of_nat (length l) then Z.of_nat (length l) - f
           else (if Z.of_nat (length l) - 1 <=? t then Z.of_nat (length l) - 1 else t) - f) = t - f) as ->
    by (destruct (Z.eqb_spec t (Z.of_nat (length l))), (Z.leb_spec (Z.of_nat (length l) - 1) t); lia).
  destruct (Z.eqb_spec (t - f) 0); [lia|].
  apply returns_eq. eapply returns_mono; [apply (for_up_returns (fun i v => v =
    alist (take i (drop (Z.to_nat f) l) ++ replicate (Z.to_nat (t - f) - i) Hole) []))|].
  - unfold alist. rewrite take_0. cbn [NewJSAPIArrayList Elements app]. rewrite Nat.sub_0_r, app_nil_r, length_replicate. f_equal. lia.
  - intros i ? Hi ->. destruct (lookup_lt_is_Some_2 l (Z.to_nat f + i)) as [v Hv]; [lia|].
    rewrite (get_app _ _ _ _ Hv), bind_Ok. unfold Set_. cbn [Elements Length alist]. rewrite !app_nil_r, Nat2Z.id.
    rewrite <- lookup_drop in Hv. rewrite (take_S_r _ _ _ Hv).
    assert (length (take i (drop (Z.to_nat f) l)) = i) as El by (rewrite length_take, length_drop; lia).
    replace (Z.to_nat (t - f) - i)%nat with (S (Z.to_nat (t - f) - S i)) by lia. cbn [replicate].
    rewrite !length_app, El. cbn [length]. rewrite length_replicate.
    destruct (Z.eqb_spec (Z.of_nat (i + S (Z.to_nat (t - f) - S i))) 0); [lia|].
    destruct (Z.leb_spec (Z.of_nat (i + S (Z.to_nat (t - f) - S i))) (Z.of_nat i)); [lia|].
    rewrite (set_spare_at _ _ _ _ _ El), bind_Ok. apply returns_ok. unfold alist.
    rewrite app_nil_r, !length_app, El, length_replicate. do 2 f_equal. cbn [length]. lia.
  - intros v ->. cbn [Nat.add]. by rewrite Nat.sub_diag, app_nil_r.
Qed.

Lemma Has_alist x : Has (alist l s) x = Ok (existsb (fun e => SameValue e x) l).
Proof.
  unfold Has, GetSize. cbn [Length Elements alist]. destruct (Z.eqb_spec (Z.of_nat (length l)) 0).
  - by destruct l; [|cbn in *; lia].
  - rewrite Nat2Z.id, findUp_app, bind_Ok, <- indexWhere_found. by rewrite Z.leb_antisym.
Qed.
End Equations.

(** ** The abstract array list: the elements and the number of spare slots *)

Inductive ArrayListOp :=
| OpAdd (v : JSTaggedValue)
| OpInsert (v index : JSTaggedValue)
| OpClear
| OpClone
| OpHas (v : JSTaggedValue)
| OpGetCapacity
| OpIncreaseCapacityTo (n : JSTaggedValue)
| OpTrim
| OpGet (index : JSTaggedValue)
| OpSet (index v : JSTaggedValue)
| OpGetIndexOf (v : JSTaggedValue)
| OpGetLastIndexOf (v : JSTaggedValue)
| OpIsEmpty
| OpGetSize
| OpRemoveByIndex (index : JSTaggedValue)
| OpRemove (v : JSTaggedValue)
| OpRemoveByRange (fromIndex toIndex : JSTaggedValue)
| OpSubArrayList (fromIndex toIndex : JSTaggedValue)
| OpConvertToArray.

Definition newList (a : JSAPIArrayList) : Observation := Elements_ (take (Z.to_nat (Length a)) (Elements a)).

Definition arrayListStep (a : JSAPIArrayList) (op : ArrayListOp) : Observation * JSAPIArrayList :=
  match op with
  | OpAdd x => observe a Truth (arraylist_add (This a) x)
  | OpInsert x i => observeUpdate a (arraylist_insert (This a) x i)
  | OpClear => observe a Truth (arraylist_clear (This a))
  | OpClone => observeRead a newList (arraylist_clone (This a))
  | OpHas x => observeRead a Truth (arraylist_has (This a) x)
  | OpGetCapacity => observeRead a Count (arraylist_getCapacity (This a))
  | OpIncreaseCapacityTo n => observe a Truth (arraylist_increaseCapacityTo (This a) n)
  | OpTrim => observe a Truth (arraylist_trimToCurrentLength (This a))
  | OpGet i => observeRead a Value (arraylist_get (This a) i)
  | OpSet i x => observeUpdate a (arraylist_set (This a) i x)
  | OpGetIndexOf x => observeRead a Count (arraylist_getIndexOf (This a) x)
  | OpGetLastIndexOf x => observeRead a Count (arraylist_getLastIndexOf (This a) x)
  | OpIsEmpty => observeRead a Truth (arraylist_isEmpty (This a))
  | OpGetSize => observeRead a Count (arraylist_getSize (This a))
  | OpRemoveByIndex i => observe a Value (arraylist_removeByIndex (This a) i)
  | OpRemove x => observe a Truth (arraylist_remove (This a) x)
  | OpRemoveByRange f t => observeUpdate a (arraylist_removeByRange (This a) f t)
  | OpSubArrayList f t => observeRead a newList (arraylist_subArrayList (This a) f t)
  | OpConvertToArray => observeRead a (fun r => Elements_ (ArrayElements r)) (arraylist_convertToArray (This a))
  end.

Definition ListAndSpare : Type := list JSTaggedValue * nat.

Definition throwIf (e : option error) (st : ListAndSpare) (k : Observation * ListAndSpare) : Observation * ListAndSpare :=
  match e with Some e => (Throws e, st) | None => k end.

(** Both ends of a range are integers. *)
Definition endsError (f t : JSTaggedValue) : option error :=
  if negb (IsInteger f) then Some FromIndexType else if negb (IsInteger t) then Some ToIndexType else None.

Definition arrayListSpec (st : ListAndSpare) (op : ArrayListOp) : Observation * ListAndSpare :=
  let '(l, spare) := st in
  let n := Z.of_nat (length l) in
  match op with
  | OpAdd x => (Truth true, (l ++ [x], grownSpare (length l) spare))
  | OpInsert x key =>
    match indexKeyOf key with
    | Int i => if (i32 i <? 0) || (n <? i32 i) then (Throws IndexRange, st)
               else (Nothing, (insertAt (Z.to_nat (i32 i)) x l, grownSpare (length l) spare))
    | _ => (Throws IndexType, st)
    end
  | OpClear => (Truth true, ([], length l + spare)%nat)
  | OpClone | OpConvertToArray => (Elements_ l, st)
  | OpHas x => (Truth (existsb (fun e => SameValue e x) l), st)
  | OpGetCapacity => (Count (n + Z.of_nat spare), st)
  | OpIncreaseCapacityTo m =>
    if negb (IsInteger m) then (Throws CapacityType, st) else
    let c := i32 (ToUint32 m) in
    (Truth true, if n <? c then (l, Z.to_nat c - length l)%nat else st)
  | OpTrim => (Truth true, (l, O))
  | OpGet i => (match elementAt l (ToUint32 i) with Ok v => Value v | Err e => Throws e end, st)
  | OpSet i x =>
    match l with
    | [] => (Throws ContainerEmpty, st)
    | _ => if n <=? ToUint32 i then (Throws IndexRange, st) else (Nothing, (<[Z.to_nat (ToUint32 i) := x]> l, spare))
    end
  | OpGetIndexOf x => (Count (indexWhere (StrictEqual x) l), st)
  | OpGetLastIndexOf x => (Count (lastIndexWhere (StrictEqual x) l), st)
  | OpIsEmpty => (Truth (match l with [] => true | _ => false end), st)
  | OpGetSize => (Count n, st)
  | OpRemoveByIndex key =>
    match indexKeyOf key, l with
    | Int i, [] => (Throws ContainerEmpty, st)
    | Int i, _ => if i32 i <? 0 then (Throws IndexRange, st) else
                  match l !! Z.to_nat (i32 i) with
                  | Some v => (Value v, (delete (Z.to_nat (i32 i)) l, S spare))
                  | None => (Throws IndexRange, st)
                  end
    | _, _ => (Throws IndexType, st)
    end
  | OpRemove x =>
    let i := indexWhere (StrictEqual x) l in
    if 0 <=? i then (Truth true, (delete (Z.to_nat i) l, S spare)) else (Truth false, st)
  | OpRemoveByRange f t =>
    throwIf (endsError f t) st (throwIf (rangeError n (ToInt32 f) (ToInt32 t)) st
      (Nothing, (take (Z.to_nat (ToInt32 f)) l ++ drop (Z.to_nat (ToInt32 t)) l, O)))
  | OpSubArrayList f t =>
    throwIf (endsError f t) st (throwIf (rangeError n (ToInt32 f) (ToInt32 t)) st
      (Elements_ (take (Z.to_nat (ToInt32 t - ToInt32 f)) (drop (Z.to_nat (ToInt32 f)) l)), st))
  end.

(** After [k] operations. *)
Definition arrayListRep (k : nat) (a : JSAPIArrayList) (st : ListAndSpare) : Prop :=
  exists s, a = alist st.1 s /\ length s = st.2 /\ (length st.1 <= k)%nat.

Lemma take_alist l s : take (Z.to_nat (Length (alist l s))) (Elements (alist l s)) = l.
Proof. cbn. by rewrite Nat2Z.id, take_app_length. Qed.

Lemma arrayListRep_intro k l s spare : length s = spare -> (length l <= k)%nat -> arrayListRep k (alist l s) (l, spare).
Proof. intros. by exists s. Qed.

Lemma arrayListWrites_simulate k l s op : (length l <= k)%nat -> Z.of_nat k < 2 ^ 29 ->
  match op with
  | OpAdd _ | OpInsert _ _ | OpClear | OpIncreaseCapacityTo _ | OpTrim | OpSet _ _ => True
  | _ => False
  end ->
  (arrayListStep (alist l s) op).1 = (arrayListSpec (l, length s) op).1 /\
  arrayListRep (S k) (arrayListStep (alist l s) op).2 (arrayListSpec (l, length s) op).2.
Proof.
  intros Hl Hk Hop. assert (arrayListRep (S k) (alist l s) (l, length s)) as Hsame by (apply arrayListRep_intro; lia).
  destruct op; try done; cbn [arrayListStep arrayListSpec];
    unfold arraylist_add, arraylist_insert, arraylist_clear, arraylist_increaseCapacityTo, arraylist_trimToCurrentLength,
      arraylist_set, smallInteger, observeUpdate; cbn [receive]; rewrite ?bind_Ok.
  - destruct (Add_alist l s ltac:(lia) v) as (s' & -> & E). split; [done|]. apply arrayListRep_intro; [done|].
    rewrite length_app. cbn. lia.
  - destruct (indexKeyOf index); try done. rewrite bind_Ok, i32_u32.
    pose proof (Insert_alist l s ltac:(lia) v (i32 z)) as H. destruct (_ || _) eqn:E; [by rewrite H|].
    destruct H as (s' & -> & Es). split; [done|]. apply arrayListRep_intro; [done|].
    unfold insertAt. rewrite length_app. cbn. rewrite length_take, length_drop. lia.
  - rewrite Clear_alist. split; [done|]. apply arrayListRep_intro; [by rewrite length_app, length_replicate|cbn; lia].
  - destruct (IsInteger n); cbn [negb]; [|done]. rewrite IncreaseCapacityTo_alist, bind_Ok by lia. split; [done|]. cbn [snd observe].
    destruct (Z.ltb_spec (Z.of_nat (length l)) (i32 (ToUint32 n))); [|by rewrite andb_false_r].
    rewrite length_app. destruct (Z.eqb_spec (Z.of_nat (length l + length s)) (i32 (ToUint32 n))); cbn [negb andb].
    + apply arrayListRep_intro; lia.
    + apply arrayListRep_intro; [by rewrite length_replicate|lia].
  - rewrite TrimToCurrentLength_alist. split; [done|]. apply arrayListRep_intro; [done|lia].
  - pose proof (u32_range (ToInt32 index)) as [H0 _]. change (u32 (ToInt32 index)) with (ToUint32 index) in H0.
    rewrite Set_alist by lia. destruct l as [|y l0]; [done|]. destruct (_ <=? ToUint32 index); [done|]. split; [done|].
    apply arrayListRep_intro; [done|]. rewrite length_insert. lia.
Qed.

Lemma arrayListRemoves_simulate k l s op : (length l <= k)%nat -> Z.of_nat k < 2 ^ 29 ->
  match op with OpRemoveByIndex _ | OpRemove _ | OpRemoveByRange _ _ => True | _ => False end ->
  (arrayListStep (alist l s) op).1 = (arrayListSpec (l, length s) op).1 /\
  arrayListRep (S k) (arrayListStep (alist l s) op).2 (arrayListSpec (l, length s) op).2.
Proof.
  intros Hl Hk Hop. assert (arrayListRep (S k) (alist l s) (l, length s)) as Hsame by (apply arrayListRep_intro; lia).
  assert (forall i, (length (delete i l) <= S k)%nat) as Hdel.
  { intros i. rewrite delete_take_drop, length_app, length_take, length_drop. lia. }
  destruct op; try done; cbn [arrayListStep arrayListSpec];
    unfold arraylist_removeByIndex, arraylist_remove, arraylist_removeByRange, smallInteger, observeUpdate, throwIf, endsError;
    cbn [receive]; rewrite ?bind_Ok.
  - destruct (indexKeyOf index); try done. rewrite bind_Ok, i32_u32, RemoveByIndex_alist by lia. destruct l as [|y l0]; [done|].
    destruct (i32 z <? 0); [done|]. destruct ((y :: l0) !! Z.to_nat (i32 z)); [|done]. split; [done|].
    apply arrayListRep_intro; [done|apply Hdel].
  - rewrite Remove_alist by lia. cbv zeta. destruct (0 <=? indexWhere (StrictEqual v) l); [|done]. split; [done|].
    apply arrayListRep_intro; [done|apply Hdel].
  - destruct (IsInteger fromIndex), (IsInteger toIndex); try done; cbn [negb]. rewrite RemoveByRange_alist by lia.
    destruct (rangeError _ _ _) eqn:E; [done|]. apply rangeError_None in E. split; [done|].
    apply arrayListRep_intro; [done|]. rewrite length_app, length_take, length_drop. lia.
Qed.

Lemma arrayListReads_simulate l s op : Z.of_nat (length l) < 2 ^ 29 ->
  match op with
  | OpClone | OpHas _ | OpGetCapacity | OpGet _ | OpGetIndexOf _ | OpGetLastIndexOf _ | OpIsEmpty | OpGetSize
  | OpSubArrayList _ _ | OpConvertToArray => True
  | _ => False
  end ->
  (arrayListStep (alist l s) op).1 = (arrayListSpec (l, length s) op).1 /\
  (arrayListStep (alist l s) op).2 = alist l s /\ (arrayListSpec (l, length s) op).2 = (l, length s).
Proof.
  intros Hl Hop. destruct op; try done; cbn [arrayListStep arrayListSpec];
    unfold arraylist_clone, arraylist_has, arraylist_getCapacity, arraylist_get, arraylist_getIndexOf, arraylist_getLastIndexOf,
      arraylist_isEmpty, arraylist_getSize, arraylist_subArrayList, arraylist_convertToArray, observeRead, throwIf, endsError;
    cbn [receive]; rewrite ?bind_Ok.
  - rewrite Clone_alist. unfold newList. by rewrite take_alist.
  - by rewrite Has_alist.
  - unfold GetCapacity. cbn [Elements alist fst snd]. rewrite length_app. split_and!; try done. f_equal. lia.
  - pose proof (u32_range (ToInt32 index)) as [H0 _]. change (u32 (ToInt32 index)) with (ToUint32 index) in H0.
    rewrite Get_alist by lia. by destruct (elementAt l (ToUint32 index)).
  - by rewrite GetIndexOf_alist.
  - by rewrite GetLastIndexOf_alist.
  - unfold IsEmpty, GetSize. cbn [Length alist]. by destruct l.
  - destruct (IsInteger fromIndex), (IsInteger toIndex); try done; cbn [negb]. rewrite SubArrayList_alist by lia.
    destruct (rangeError _ _ _) eqn:E; [done|]. cbn [fst snd]. unfold newList. by rewrite take_alist.
  - cbn [Length Elements alist]. by rewrite NewAndCopyTaggedArray_app.
Qed.

Lemma arrayListStep_simulates k a st op : arrayListRep k a st -> (k < Z.to_nat (2 ^ 29))%nat -> True ->
  (arrayListStep a op).1 = (arrayListSpec st op).1 /\ arrayListRep (S k) (arrayListStep a op).2 (arrayListSpec st op).2.
Proof.
  destruct st as [l spare]. intros (s & -> & Es & Hl) Hk _. cbn [fst snd] in *. subst spare.
  assert (Z.of_nat k < 2 ^ 29) as Hk' by lia. assert (Z.of_nat (length l) < 2 ^ 29) as Hl' by lia.
  destruct op;
    first [ by apply (arrayListWrites_simulate k) | by apply (arrayListRemoves_simulate k)
          | match goal with |- (arrayListStep _ ?op).1 = _ /\ _ =>
              destruct (arrayListReads_simulate l s op Hl' I) as (-> & -> & ->) end;
            split; [done|apply arrayListRep_intro; lia] ].
Qed.

(** A callback that leaves the list alone. *)
Lemma replaceAll_pure {W} (cb : Callback W JSAPIArrayList) f s l1 l2 w : Z.of_nat (length (l1 ++ l2)) < 2 ^ 29 -> pureCallback cb f ->
  for_up (length l2) (length l1) (fun k '(w, a) =>
    kValue ← Get a (Z.of_nat k);
    '(funcResult, w, a) ← cb w a kValue (Z.of_nat k);
    a ← Set_ a (Z.of_nat k) funcResult;
    Ok (w, a)) (w, alist (l1 ++ l2) s)
  = Ok ((mapCalls f w (Z.of_nat (length l1)) l2).2, alist (l1 ++ (mapCalls f w (Z.of_nat (length l1)) l2).1) s).
Proof.
  intros Hl Hcb. revert l1 w Hl. induction l2 as [|x l2 IH]; intros l1 w Hl; [done|]. cbn [length for_up mapCalls].
  assert (elementAt (l1 ++ x :: l2) (Z.of_nat (length l1)) = Ok x) as Hx.
  { unfold elementAt. rewrite Nat2Z.id, lookup_app_r, Nat.sub_diag by done. by destruct l1. }
  rewrite Get_alist, Hx, bind_Ok, Hcb, bind_Ok by lia. destruct (f w x (Z.of_nat (length l1))) as [r w1].
  rewrite Set_alist by lia. rewrite Nat2Z.id, insert_app_r_alt, Nat.sub_diag by done. cbn [list_insert insert].
  destruct (Z.leb_spec (Z.of_nat (length (l1 ++ x :: l2))) (Z.of_nat (length l1))) as [H|_]; [rewrite length_app in H; cbn in H; lia|].
  replace (match l1 ++ x :: l2 with [] => _ | _ => Ok (alist (l1 ++ r :: l2) s) end) with (Ok (alist (l1 ++ r :: l2) s)) by (by destruct l1).
  rewrite !bind_Ok. assert (Z.of_nat (length ((l1 ++ [r]) ++ l2)) < 2 ^ 29) as Hl' by (rewrite !length_app in *; cbn [length] in *; lia).
  specialize (IH (l1 ++ [r]) w1 Hl'). rewrite length_app, Nat.add_1_r, <- !app_assoc in IH. cbn [app] in IH.
  rewrite IH. replace (Z.of_nat (S (length l1))) with (Z.of_nat (length l1) + 1) by lia.
  by destruct (mapCalls f w1 (Z.of_nat (length l1) + 1) l2).
Qed.

Lemma arrayListForEach_pure {W} (cb : Callback W JSAPIArrayList) f l s l1 l2 w fuel : l = l1 ++ l2 -> Z.of_nat (length l) < 2 ^ 29 ->
  pureCallback cb f -> (length l2 <= fuel)%nat ->
  forEachLoop fuel cb (Z.of_nat (length l1)) (Z.of_nat (length l)) w (alist l s)
  = Ok ((mapCalls f w (Z.of_nat (length l1)) l2).2, alist l s).
Proof.
  intros -> Hc Hcb. revert l1 w fuel Hc. induction l2 as [|x l2 IH]; intros l1 w fuel Hc Hf.
  - rewrite app_nil_r in *. destruct fuel; cbn [forEachLoop]; by rewrite Z.ltb_irrefl.
  - destruct fuel as [|fuel]; [cbn in Hf; lia|]. cbn [forEachLoop].
    destruct (Z.ltb_spec (Z.of_nat (length l1)) (Z.of_nat (length (l1 ++ x :: l2)))) as [|H];
      [|rewrite length_app in H; cbn in H; lia].
    assert (elementAt (l1 ++ x :: l2) (Z.of_nat (length l1)) = Ok x) as Hx.
    { unfold elementAt. rewrite Nat2Z.id, lookup_app_r, Nat.sub_diag by done. by destruct l1. }
    rewrite Get_alist, Hx, bind_Ok, Hcb, bind_Ok by lia. cbn [mapCalls]. destruct (f w x (Z.of_nat (length l1))) as [r w1].
    cbn [GetSize Length alist]. assert (u32 (Z.of_nat (length l1) + 1) = Z.of_nat (length (l1 ++ [x]))) as ->.
    { rewrite length_app in *. cbn [length] in *. rewrite u32_small by (unfold is_u32; rewrite BASE_eq; lia). lia. }
    replace (l1 ++ x :: l2) with ((l1 ++ [x]) ++ l2) in * by (by rewrite <- app_assoc).
    rewrite IH by (done || cbn in Hf; lia).
    replace (Z.of_nat (length (l1 ++ [x]))) with (Z.of_nat (length l1) + 1) by (rewrite length_app; cbn; lia).
    by destruct (mapCalls f w1 (Z.of_nat (length l1) + 1) l2).
Qed.

(** ** Theorems *)

(** C29: The array list implements a list: any sequence of at most [2 ^ 29] calls of its methods
    on a new array list is observed exactly as on a list together with a number of spare slots
    (which [getCapacity] shows), errors included. *)
Theorem ArrayList_refines_list ops a0 : ArrayListConstructor true = Ok a0 -> Z.of_nat (length ops) <= 2 ^ 29 ->
  (run arrayListStep a0 ops).1 = (runSpec arrayListSpec ([], 10%nat) ops).1 /\
  exists s, (run arrayListStep a0 ops).2 = alist (runSpec arrayListSpec ([], 10%nat) ops).2.1 s /\
    length s = (runSpec arrayListSpec ([], 10%nat) ops).2.2.
Proof.
  intros [= <-] Hlen. destruct (run_simulates arrayListStep arrayListSpec (fun _ => True) arrayListRep (Z.to_nat (2 ^ 29))) with
    (ops := ops) (k := 0%nat) (c := alist [] (replicate 10 Hole)) (l := (@nil JSTaggedValue, 10%nat)) as [Eo (s & Ea & Es & _)].
  - intros k c l op HR Hk _. by apply arrayListStep_simulates.
  - by apply arrayListRep_intro.
  - lia.
  - by apply Forall_true.
  - split; [done|]. by exists s.
Qed.

Lemma ArrayList_refines_list_witness :
  (run arrayListStep (alist [] (replicate 10 Hole))
     [OpAdd (Int 7); OpInsert (Int 9) (Int 0); OpSubArrayList (Int 1) (Int 2); OpRemoveByIndex (Int 0); OpTrim; OpGetCapacity;
      OpAdd (Int 1); OpGetCapacity; OpGet (Int 2)]).1
    = [Truth true; Nothing; Elements_ [Int 7]; Value (Int 9); Truth true; Count 1; Truth true; Count 10; Throws IndexRange].
Proof.
  refine (proj1 (ArrayList_refines_list
     [OpAdd (Int 7); OpInsert (Int 9) (Int 0); OpSubArrayList (Int 1) (Int 2); OpRemoveByIndex (Int 0); OpTrim; OpGetCapacity;
      OpAdd (Int 1); OpGetCapacity; OpGet (Int 2)] _ _ _)); [done|by vm_compute].
Defined.

(** [replaceAllElements] with a callback that leaves the list alone replaces each element by the
    result for it. *)
Theorem ArrayList_replaceAllElements_correct {W} (cb : Callback W JSAPIArrayList) f l s w :
  Z.of_nat (length l) < 2 ^ 29 -> pureCallback cb f ->
  arraylist_replaceAllElements (This (alist l s)) (Some cb) w = Ok ((mapCalls f w 0 l).2, alist (mapCalls f w 0 l).1 s).
Proof.
  intros Hl Hcb. unfold arraylist_replaceAllElements, ReplaceAllElements, GetSize. cbn [receive]. rewrite bind_Ok.
  cbn [Length alist]. rewrite Nat2Z.id. by apply (replaceAll_pure cb f s []).
Qed.

(** [forEach] calls it once per element. *)
Theorem ArrayList_forEach_correct {W} (cb : Callback W JSAPIArrayList) f l s w fuel :
  Z.of_nat (length l) < 2 ^ 29 -> pureCallback cb f -> (length l <= fuel)%nat ->
  arraylist_forEach fuel (This (alist l s)) (Some cb) w = Ok ((mapCalls f w 0 l).2, alist l s).
Proof. intros Hc Hcb Hf. by apply (arrayListForEach_pure cb f l s []). Qed.
