(* ===== verification/PlainArray.v ===== *)
(** * The plain array container

    [JSAPIPlainArray] of src/ecmascript/js_api/js_api_plain_array.h and js_api_plain_array.cpp, its
    iterator (js_api_plain_array_iterator.cpp) and the methods of
    src/ecmascript/containers/containers_plainarray.cpp: a map from small integers to values, kept
    as two parallel arrays with the keys in increasing order.  [ToString] and the property
    descriptors are not modelled. *)

From Stdlib Require Import ZArith Lia.
From S2P Require Import Prelude Double Values BigIntNum NumberHelper Containers TaggedArray.

(** ** Model *)

Record JSAPIPlainArray := mkPlainArray { Keys : list JSTaggedValue; Values_ : list JSTaggedValue; Length : Z }.

Definition DEFAULT_CAPACITY_LENGTH : Z := 8.

Definition KeyType : error := TypeError "The type of key must be small integer.".
Definition SizeType : error := TypeError "The type of size must be small integer.".
Definition SizeRange : error := RangeError "The value of size is out of range.".

Definition CreateSlot (capacity : Z) : list JSTaggedValue := replicate (Z.to_nat capacity) Hole.

Definition PlainArrayConstructor (newTarget : bool) : result JSAPIPlainArray :=
  if negb newTarget then Err (DirectCall "The PlainArray")
  else Ok (mkPlainArray (CreateSlot DEFAULT_CAPACITY_LENGTH) (CreateSlot DEFAULT_CAPACITY_LENGTH) 0).

Definition NewJSAPIPlainArray (capacity : Z) : JSAPIPlainArray :=
  mkPlainArray (replicate (Z.to_nat capacity) Hole) (replicate (Z.to_nat capacity) Hole) 0.

(** [static_cast<int32_t>(v.GetNumber())]; a slot that holds no number is none of the keys. *)
Definition keyNumber (v : JSTaggedValue) : result Z :=
  match v with Int z => Ok z | Double d => Ok (truncCast d) | _ => Err OutOfBounds end.

(** The loop returns the place of the key, or the insertion point [low] as [-(low + 1)]. *)
Fixpoint searchLoop (fuel : nat) (array : list JSTaggedValue) (key low high : Z) : result Z :=
  if low <=? high then
    match fuel with
    | O => Err OutOfFuel
    | S fuel =>
      let mid := i32 (Z.shiftr (u32 (low + high)) 1) in
      v ← get array (Z.to_nat mid);
      midVal ← keyNumber v;
      if midVal <? key then searchLoop fuel array key (mid + 1) high
      else if midVal <=? key then Ok mid
      else searchLoop fuel array key low (mid - 1)
    end
  else Ok (- (low + 1)).

Definition BinarySearch (array : list JSTaggedValue) (fromIndex toIndex key : Z) : result Z :=
  searchLoop (length array) array key fromIndex (toIndex - 1).

(** Both branches of [AdjustArray] downwards, with and without barrier, are this loop. *)
Definition AdjustPrimitiveArray (size : Z) (srcArray : list JSTaggedValue) (fromIndex toIndex : Z) : result (list JSTaggedValue) :=
  a ← shiftDown (Z.to_nat toIndex) (Z.to_nat fromIndex) (Z.to_nat (size - fromIndex)) srcArray;
  for_up (Z.to_nat (fromIndex - toIndex)) 0 (fun i a => set a (Z.to_nat (toIndex + (size - fromIndex)) + i) Hole) a.

Definition AdjustArray (size : Z) (srcArray : list JSTaggedValue) (fromIndex toIndex : Z) (direction : bool) : result (list JSTaggedValue) :=
  if direction then shiftUp (Z.to_nat (size - (toIndex - fromIndex))) (Z.to_nat (toIndex - fromIndex)) srcArray
  else AdjustPrimitiveArray size srcArray fromIndex toIndex.

Definition AdjustForward (a : JSAPIPlainArray) (index forwardSize : Z) : result JSAPIPlainArray :=
  let size := Length a in
  keys ← AdjustPrimitiveArray size (Keys a) (index + forwardSize) index;
  values ← AdjustArray size (Values_ a) (index + forwardSize) index false;
  Ok (mkPlainArray keys values (u32 (size - forwardSize))).

Definition Add (a : JSAPIPlainArray) (key : Z) (value : JSTaggedValue) : result JSAPIPlainArray :=
  let size := Length a in
  index ← BinarySearch (Keys a) 0 (i32 size) key;
  if 0 <=? index then
    keys ← set (Keys a) (Z.to_nat index) (Int key);
    values ← set (Values_ a) (Z.to_nat index) value;
    Ok (mkPlainArray keys values size)
  else
    let index := i32 (Z.lxor (u32 index) (BASE - 1)) in
    let capacity := Z.of_nat (length (Values_ a)) in
    '(keys, values) ←
      (if capacity <=? u32 (size + 1) then
         let newCapacity := Z.max DEFAULT_CAPACITY_LENGTH (u32 (Z.shiftl capacity 1)) in
         keys ← CopyArray (Keys a) capacity newCapacity;
         values ← CopyArray (Values_ a) capacity newCapacity;
         Ok (keys, values)
       else Ok (Keys a, Values_ a));
    '(keys, values) ←
      (if index <? i32 size then
         keys ← AdjustArray size keys index size true;
         values ← AdjustArray size values index size true;
         Ok (keys, values)
       else Ok (keys, values));
    keys ← set keys (Z.to_nat index) (Int key);
    values ← set values (Z.to_nat index) value;
    Ok (mkPlainArray keys values (u32 (size + 1))).

Definition Clear (a : JSAPIPlainArray) : result JSAPIPlainArray :=
  keys ← clearSlots (Z.to_nat (Length a)) (Keys a);
  values ← clearSlots (Z.to_nat (Length a)) (Values_ a);
  Ok (mkPlainArray keys values 0).

(** Returns the number of removed entries.  The sum [index + batchSize] is an [int32_t]. *)
Definition RemoveRangeFrom (a : JSAPIPlainArray) (index batchSize : Z) : result (Z * JSAPIPlainArray) :=
  let size := i32 (Length a) in
  if size <=? 0 then Err ContainerEmpty else
  if (index <? 0) || (size <=? index) then Err IndexRange else
  if batchSize <? 1 then Err SizeRange else
  if 2 ^ 31 <=? index + batchSize then Err UndefinedBehaviour else
  let safeSize := if size - (index + batchSize) <? 0 then size - index else batchSize in
  a ← AdjustForward a index safeSize;
  Ok (safeSize, a).

(** [index] becomes a key. *)
Definition Set_ (a : JSAPIPlainArray) (index : Z) (value : JSTaggedValue) : result JSAPIPlainArray := Add a index value.

Definition Get (a : JSAPIPlainArray) (key : Z) : result JSTaggedValue :=
  index ← BinarySearch (Keys a) 0 (i32 (Length a)) key;
  if index <? 0 then Ok Undefined else get (Values_ a) (Z.to_nat index).

(** The key is taken to be a small integer. *)
Definition GetOwnProperty (a : JSAPIPlainArray) (key : Z) : result bool :=
  let size := Length a in
  if size =? 0 then Err ContainerEmpty else
  index ← BinarySearch (Keys a) 0 (i32 size) key;
  if (index <? 0) || (i32 size <=? index) then Err IndexRange else
  _ ← Get a key;
  Ok true.

(** The generic property access.  The fast path of the interpreter ([GetContainerProperty] and
    [SetContainerProperty] in object_fast_operator-inl.h) does not come here. *)
Definition GetProperty (a : JSAPIPlainArray) (key : JSTaggedValue) : result JSTaggedValue :=
  let size := Length a in
  if size =? 0 then Err ContainerEmpty else
  match indexKeyOf key with
  | Int keyVal =>
    index ← BinarySearch (Keys a) 0 (i32 size) keyVal;
    if (index <? 0) || (i32 size <=? index) then Err IndexRange else Get a index
  | _ => Err IndexType
  end.

Definition SetProperty (a : JSAPIPlainArray) (key value : JSTaggedValue) : result (bool * JSAPIPlainArray) :=
  let size := Length a in
  match indexKeyOf key with
  | Int keyVal =>
    index ← BinarySearch (Keys a) 0 (i32 size) keyVal;
    if (index <? 0) || (i32 size <=? index) then Ok (false, a) else
    a ← Set_ a (u32 index) value;
    Ok (true, a)
  | _ => Ok (false, a)
  end.

(** Returns the new array. *)
Definition Clone (a : JSAPIPlainArray) : result JSAPIPlainArray :=
  let length_ := Length a in
  keys ← NewAndCopyTaggedArray (Keys a) length_ length_ 0;
  values ← NewAndCopyTaggedArray (Values_ a) length_ length_ 0;
  Ok (mkPlainArray keys values length_).

Definition Has (a : JSAPIPlainArray) (key : Z) : result bool :=
  index ← BinarySearch (Keys a) 0 (i32 (Length a)) key;
  Ok (negb (index <? 0)).

Definition GetIndexOfKey (a : JSAPIPlainArray) (key : Z) : result Z :=
  index ← BinarySearch (Keys a) 0 (i32 (Length a)) key;
  Ok (if index <? 0 then -1 else index).

Definition TryFastGetIndexOfValue (size : Z) (values : list JSTaggedValue) (value : JSTaggedValue) : result Z :=
  findUp (fun currVal => IsInt currVal && rawEq currVal value) values (Z.to_nat size) 0.

Definition GetIndexOfValue (a : JSAPIPlainArray) (value : JSTaggedValue) : result Z :=
  if IsInt value then TryFastGetIndexOfValue (Length a) (Values_ a) value
  else findUp (fun v => SameValue v value) (Values_ a) (Z.to_nat (Length a)) 0.

Definition IsEmpty (a : JSAPIPlainArray) : bool := Length a =? 0.
Definition GetSize (a : JSAPIPlainArray) : Z := Length a.

Definition GetKeyAt (a : JSAPIPlainArray) (index : Z) : result JSTaggedValue :=
  if (index <? 0) || (i32 (Length a) <=? index) then Ok Undefined else get (Keys a) (Z.to_nat index).

Definition GetValueAt (a : JSAPIPlainArray) (index : Z) : result JSTaggedValue :=
  let size := Length a in
  if size =? 0 then Err ContainerEmpty else
  if (index <? 0) || (i32 size <=? index) then Err IndexRange else get (Values_ a) (Z.to_nat index).

(** Returns the removed value. *)
Definition Remove (a : JSAPIPlainArray) (key : Z) : result (JSTaggedValue * JSAPIPlainArray) :=
  let size := Length a in
  index ← BinarySearch (Keys a) 0 (i32 size) key;
  if (index <? 0) || (i32 size <=? index) then Ok (Undefined, a) else
  value ← get (Values_ a) (Z.to_nat index);
  a ← AdjustForward a index 1;
  Ok (value, a).

Definition RemoveAt (a : JSAPIPlainArray) (seat : Z) : result (JSTaggedValue * JSAPIPlainArray) :=
  let size := Length a in
  if (seat <? 0) || (size <=? u32 seat) then Ok (Undefined, a) else
  value ← get (Values_ a) (Z.to_nat seat);
  a ← AdjustForward a seat 1;
  Ok (value, a).

Definition SetValueAt (a : JSAPIPlainArray) (seat : Z) (value : JSTaggedValue) : result JSAPIPlainArray :=
  let size := Length a in
  if size =? 0 then Err ContainerEmpty else
  if (seat <? 0) || (size <=? u32 seat) then Err IndexRange else
  values ← set (Values_ a) (Z.to_nat seat) value;
  Ok (mkPlainArray (Keys a) values size).

(** The arrays are read once before the loop: a callback that makes the container grow leaves
    the loop with the arrays of before, one that changes it in place changes those arrays too.  So
    the callback is a program on the world, the container and the arrays held by the loop. *)
Definition EntryCallback (W : Type) : Type := W -> JSAPIPlainArray -> list JSTaggedValue * list JSTaggedValue -> JSTaggedValue -> JSTaggedValue
  -> result (W * JSAPIPlainArray * (list JSTaggedValue * list JSTaggedValue)).

Definition ForEach {W} (callbackFn : EntryCallback W) (w : W) (a : JSAPIPlainArray) : result (W * JSAPIPlainArray) :=
  '(w, a, _) ← for_up (Z.to_nat (Length a)) 0 (fun k '(w, a, (keyArray, valueArray)) =>
    kValue ← get valueArray k;
    key ← get keyArray k;
    callbackFn w a (keyArray, valueArray) kValue key) (w, a, (Keys a, Values_ a));
  Ok (w, a).

Record PlainArrayIterator := mkPlainArrayIterator { attached : bool; NextIndex : Z }.

(** The key and the value, or nothing at the end. *)
Definition Next (a : JSAPIPlainArray) (iter : PlainArrayIterator)
  : result (option (JSTaggedValue * JSTaggedValue) * PlainArrayIterator) :=
  if negb (attached iter) then Ok (None, iter) else
  let index := NextIndex iter in
  if Length a <=? u32 index then Ok (None, mkPlainArrayIterator false index) else
  value ← get (Values_ a) (Z.to_nat index);
  key ← get (Keys a) (Z.to_nat index);
  Ok (Some (key, value), mkPlainArrayIterator true (index + 1)).

(** ** The methods *)

Definition smallInt (e : error) (arg : JSTaggedValue) : result Z :=
  match indexKeyOf arg with Int z => Ok z | _ => Err e end.

Definition plainarray_add (self : Receiver JSAPIPlainArray) (key value : JSTaggedValue) : result JSAPIPlainArray :=
  a ← receive "add" self; key ← smallInt KeyType key; Add a key value.

Definition plainarray_clear (self : Receiver JSAPIPlainArray) : result JSAPIPlainArray := a ← receive "clear" self; Clear a.

Definition plainarray_clone (self : Receiver JSAPIPlainArray) : result JSAPIPlainArray := a ← receive "clone" self; Clone a.

Definition plainarray_has (self : Receiver JSAPIPlainArray) (key : JSTaggedValue) : result bool :=
  a ← receive "has" self; key ← smallInt KeyType key; Has a key.

Definition plainarray_get (self : Receiver JSAPIPlainArray) (key : JSTaggedValue) : result JSTaggedValue :=
  a ← receive "get" self; key ← smallInt KeyType key; Get a key.

Definition plainarray_iterator (self : Receiver JSAPIPlainArray) : result PlainArrayIterator :=
  _ ← receive "Symbol.iterator" self; Ok (mkPlainArrayIterator true 0).

Definition plainarray_forEach {W} (self : Receiver JSAPIPlainArray) (callbackfn : option (EntryCallback W)) (w : W)
  : result (W * JSAPIPlainArray) :=
  a ← receive "forEach" self;
  match callbackfn with None => Err NotCallable | Some cb => ForEach cb w a end.

Definition plainarray_getIndexOfKey (self : Receiver JSAPIPlainArray) (key : JSTaggedValue) : result Z :=
  a ← receive "getIndexOfKey" self; key ← smallInt KeyType key; GetIndexOfKey a key.

Definition plainarray_getIndexOfValue (self : Receiver JSAPIPlainArray) (value : JSTaggedValue) : result Z :=
  a ← receive "getIndexOfValue" self; GetIndexOfValue a value.

Definition plainarray_isEmpty (self : Receiver JSAPIPlainArray) : result bool := a ← receive "isEmpty" self; Ok (IsEmpty a).

Definition plainarray_getKeyAt (self : Receiver JSAPIPlainArray) (index : JSTaggedValue) : result JSTaggedValue :=
  a ← receive "getKeyAt" self; index ← smallInt IndexType index; GetKeyAt a index.

Definition plainarray_remove (self : Receiver JSAPIPlainArray) (key : JSTaggedValue) : result (JSTaggedValue * JSAPIPlainArray) :=
  a ← receive "remove" self; key ← smallInt KeyType key; Remove a key.

Definition plainarray_removeAt (self : Receiver JSAPIPlainArray) (index : JSTaggedValue) : result (JSTaggedValue * JSAPIPlainArray) :=
  a ← receive "removeAt" self; index ← smallInt IndexType index; RemoveAt a index.

Definition plainarray_removeRangeFrom (self : Receiver JSAPIPlainArray) (index size : JSTaggedValue) : result (Z * JSAPIPlainArray) :=
  a ← receive "removeRangeFrom" self; index ← smallInt IndexType index; size ← smallInt SizeType size; RemoveRangeFrom a index size.

Definition plainarray_setValueAt (self : Receiver JSAPIPlainArray) (index value : JSTaggedValue) : result JSAPIPlainArray :=
  a ← receive "setValueAt" self; index ← smallInt IndexType index; SetValueAt a index value.

Definition plainarray_getValueAt (self : Receiver JSAPIPlainArray) (index : JSTaggedValue) : result JSTaggedValue :=
  a ← receive "getValueAt" self; index ← smallInt IndexType index; GetValueAt a index.

Definition plainarray_getSize (self : Receiver JSAPIPlainArray) : result Z := a ← receive "getLength" self; Ok (GetSize a).

(** ** Entries in order *)

Notation Entries := (list (Z * JSTaggedValue)).

Fixpoint increasing (l : list Z) : Prop :=
  match l with [] => True | x :: l => Forall (Z.lt x) l /\ increasing l end.

Lemma increasing_app l1 l2 : increasing (l1 ++ l2) <-> increasing l1 /\ increasing l2 /\ Forall (fun x => Forall (Z.lt x) l2) l1.
Proof.
  induction l1 as [|x l1 IH]; cbn [app increasing].
  - split; [intros H; split_and!; [done|done|constructor]|by intros (_ & H & _)].
  - rewrite IH, Forall_app, Forall_cons. tauto.
Qed.

Definition keysOf (E : Entries) : list JSTaggedValue := map (fun e => Int e.1) E.
Definition valuesOf (E : Entries) : list JSTaggedValue := map snd E.
Definition ordered (E : Entries) : Prop := increasing (map fst E).

(** Where a key is, or where it belongs. *)
Definition below (k : Z) (E : Entries) : Prop := Forall (fun e => e.1 < k) E.
Definition above (k : Z) (E : Entries) : Prop := Forall (fun e => k < e.1) E.

Lemma key_split E k : ordered E ->
  (exists l v r, E = l ++ (k, v) :: r /\ below k l /\ above k r) \/ (exists l r, E = l ++ r /\ below k l /\ above k r).
Proof.
  unfold ordered, below, above. induction E as [|[k' v'] E IH]; intros H; [right; by exists [], []|]. cbn in H. destruct H as [Hk H].
  assert (Forall (fun e => k' < e.1) E) as Hk' by (by rewrite Forall_map in Hk).
  destruct (Z.lt_trichotomy k k') as [Hlt|[->|Hgt]].
  - right. exists [], ((k', v') :: E). split_and!; [done|constructor|]. constructor; [done|]. eapply Forall_impl; [exact Hk'|]. cbn. lia.
  - left. exists [], v', E. split_and!; [done|constructor|done].
  - destruct (IH H) as [(l & v & r & -> & Hl & Hr)|(l & r & -> & Hl & Hr)].
    + left. exists ((k', v') :: l), v, r. split_and!; [done|by constructor|done].
    + right. exists ((k', v') :: l), r. split_and!; [done|by constructor|done].
Qed.

(** ** The specification *)

Fixpoint insertEntry (k : Z) (v : JSTaggedValue) (E : Entries) : Entries :=
  match E with
  | [] => [(k, v)]
  | (k', v') :: E' => if k <? k' then (k, v) :: E else if k =? k' then (k, v) :: E' else (k', v') :: insertEntry k v E'
  end.

Definition indexOf (k : Z) (E : Entries) : option nat := fst <$> list_find (fun e => e.1 = k) E.
Definition lookupKey (k : Z) (E : Entries) : option JSTaggedValue := i ← indexOf k E; snd <$> E !! i.

Section Split.
  Variables (k : Z) (v : JSTaggedValue) (l r : Entries).
  Hypotheses (Hl : below k l) (Hr : above k r).

Lemma insert_found v0 : insertEntry k v (l ++ (k, v0) :: r) = l ++ (k, v) :: r.
Proof.
  clear Hr. induction l as [|[k' v'] l' IH]; cbn [app insertEntry]; [by rewrite Z.ltb_irrefl, Z.eqb_refl|].
  apply Forall_cons in Hl as [Hk Hl']. cbn in Hk. destruct (Z.ltb_spec k k'), (Z.eqb_spec k k'); try lia. by rewrite IH.
Qed.

Lemma insert_new : insertEntry k v (l ++ r) = l ++ (k, v) :: r.
Proof.
  induction l as [|[k' v'] l' IH]; cbn [app insertEntry].
  - destruct r as [|[k' v'] r']; [done|]. apply Forall_cons in Hr as [Hk _]. cbn in *. by rewrite (proj2 (Z.ltb_lt k k')).
  - apply Forall_cons in Hl as [Hk Hl']. cbn in Hk. destruct (Z.ltb_spec k k'), (Z.eqb_spec k k'); try lia. by rewrite IH.
Qed.

Lemma index_found v0 : indexOf k (l ++ (k, v0) :: r) = Some (length l).
Proof.
  unfold indexOf. rewrite list_find_app_r.
  - cbn. rewrite decide_True by done. cbn. by f_equal.
  - apply list_find_None. eapply Forall_impl; [exact Hl|]. cbn. lia.
Qed.

Lemma index_new : indexOf k (l ++ r) = None.
Proof.
  unfold indexOf. assert (list_find (fun e : Z * JSTaggedValue => e.1 = k) (l ++ r) = None) as ->; [|done].
  apply list_find_None, Forall_app. split; eapply Forall_impl; [exact Hl|cbn; lia|exact Hr|cbn; lia].
Qed.

Lemma ordered_insertion : ordered (l ++ r) -> ordered (l ++ (k, v) :: r).
Proof.
  unfold ordered. rewrite !map_app. intros (H1 & H2 & H3)%increasing_app. apply increasing_app. cbn [map increasing fst].
  split_and!; [done| |done|].
  - by rewrite Forall_map.
  - rewrite Forall_map in *. apply Forall_forall. intros e He. rewrite Forall_forall in H3. unfold below in Hl. rewrite Forall_forall in Hl.
    constructor; [by apply Hl|by apply H3].
Qed.
End Split.

Lemma ordered_replace k v v0 l r : ordered (l ++ (k, v0) :: r) -> ordered (l ++ (k, v) :: r).
Proof. unfold ordered. by rewrite !map_app. Qed.

Lemma ordered_remove l m r : ordered (l ++ m ++ r) -> ordered (l ++ r).
Proof.
  unfold ordered. rewrite !map_app. intros (H1 & (_ & H2 & _)%increasing_app & H3)%increasing_app. apply increasing_app.
  split_and!; [done|done|]. eapply Forall_impl; [exact H3|]. intros x Hx. by apply Forall_app in Hx as [_ Hx].
Qed.

(** ** The search *)

Lemma keysOf_app l r : keysOf (l ++ r) = keysOf l ++ keysOf r.
Proof. apply map_app. Qed.

Lemma valuesOf_app l r : valuesOf (l ++ r) = valuesOf l ++ valuesOf r.
Proof. apply map_app. Qed.

Lemma length_keysOf E : length (keysOf E) = length E.
Proof. apply length_map. Qed.

Lemma length_valuesOf E : length (valuesOf E) = length E.
Proof. apply length_map. Qed.

(** The entry of the key, if it is there. *)
Definition entryOf (k : Z) (m : option JSTaggedValue) : Entries := match m with Some v => [(k, v)] | None => [] end.

(** The key of the entry at [i], on either side of the key searched for. *)
Lemma side_of k (l r : Entries) m i e : below k l -> above k r -> (l ++ entryOf k m ++ r) !! i = Some e ->
  ((i < length l)%nat /\ e.1 < k) \/ (i = length l /\ is_Some m /\ e.1 = k) \/ ((length l + length (entryOf k m) <= i)%nat /\ k < e.1).
Proof.
  intros Hl Hr He. apply lookup_app_Some in He as [He|[Hi He]].
  - left. split; [by eapply lookup_lt_Some|]. exact (Forall_lookup_1 _ _ _ _ Hl He).
  - right. apply lookup_app_Some in He as [He|[Hi' He]].
    + left. destruct m as [v|]; [|done]. cbn in He. apply list_lookup_singleton_Some in He as [Hi' <-].
      split_and!; [lia|done|done].
    + right. split; [lia|]. exact (Forall_lookup_1 _ _ _ _ Hr He).
Qed.

Section Search.
  Variables (k : Z) (l r : Entries) (m : option JSTaggedValue) (s : list JSTaggedValue).
  Hypotheses (Hl : below k l) (Hr : above k r).
Let E := l ++ entryOf k m ++ r.
  Hypothesis Hsmall : Z.of_nat (length E) <= 2 ^ 30.

Definition searched : Z := match m with Some _ => Z.of_nat (length l) | None => - (Z.of_nat (length l) + 1) end.

Local Lemma get_key i : 0 <= i < Z.of_nat (length E) ->
  exists e, get (keysOf E ++ s) (Z.to_nat i) = Ok (Int e.1) /\ E !! Z.to_nat i = Some e.
Proof.
  intros Hi. destruct (lookup_lt_is_Some_2 E (Z.to_nat i) ltac:(lia)) as [e He]. exists e. split; [|done].
  apply get_app. unfold keysOf. by rewrite list_lookup_fmap, He.
Qed.

Lemma searchLoop_eq fuel low high : 0 <= low <= Z.of_nat (length l) -> high < Z.of_nat (length E) ->
  Z.of_nat (length l) + Z.of_nat (length (entryOf k m)) <= high + 1 -> (Z.to_nat (high - low + 1) <= fuel)%nat ->
  searchLoop fuel (keysOf E ++ s) k low high = Ok searched.
Proof.
  revert low high. induction fuel as [|fuel IH]; intros low high Hlow Hhigh Hr' Hf; cbn [searchLoop].
  all: destruct (Z.leb_spec low high) as [Hlh|Hlh].
  1: lia.
  2: { rewrite u32_small by (unfold is_u32; rewrite BASE_eq; lia). rewrite Z.shiftr_div_pow2 by lia. change (2 ^ 1) with 2.
    pose proof (Z.div_mod (low + high) 2 ltac:(lia)). pose proof (Z.mod_pos_bound (low + high) 2 ltac:(lia)).
    rewrite i32_small by (unfold is_i32; lia). set (mid := (low + high) / 2) in *.
    destruct (get_key mid ltac:(lia)) as (e & -> & He). rewrite bind_Ok. cbn [keyNumber]. rewrite bind_Ok.
    apply side_of in He as [[? ?]|[(? & [v Hm] & ?)|[? ?]]]; [..|done|done].
    - destruct (Z.ltb_spec e.1 k); [|lia]. apply IH; lia.
    - destruct (Z.ltb_spec e.1 k), (Z.leb_spec e.1 k); try lia. unfold searched. rewrite Hm. f_equal. lia.
    - destruct (Z.ltb_spec e.1 k), (Z.leb_spec e.1 k); try lia. apply IH; lia. }
  all: unfold searched; destruct m; cbn [entryOf length] in *; [lia|f_equal; lia].
Qed.

Lemma BinarySearch_eq : BinarySearch (keysOf E ++ s) 0 (i32 (Z.of_nat (length E))) k = Ok searched.
Proof.
  unfold BinarySearch. rewrite i32_small by (unfold is_i32; lia). apply searchLoop_eq; [lia|lia| |].
  - unfold E. rewrite !length_app. lia.
  - rewrite length_app, length_keysOf. lia.
Qed.
End Search.

(** ** Moving the slots *)

Lemma fillHoles (x g s : list JSTaggedValue) lo : for_up (length g) lo (fun i a => set a (length x + i) Hole) (x ++ replicate lo Hole ++ g ++ s)
  = Ok (x ++ replicate lo Hole ++ replicate (length g) Hole ++ s).
Proof.
  revert lo. induction g as [|y g IH]; intros lo; cbn [length for_up app]; [done|].
  rewrite app_assoc, set_spare_at, bind_Ok by (by rewrite length_app, length_replicate).
  specialize (IH (S lo)). rewrite replicate_S_end, <- !app_assoc in IH. cbn [app] in IH. rewrite <- !app_assoc. cbn [app]. by rewrite IH.
Qed.

(** The slots [m] between [l] and [r] are closed, and as many left over at the end. *)
Lemma AdjustPrimitiveArray_app (l m r s : list JSTaggedValue) :
  AdjustPrimitiveArray (Z.of_nat (length (l ++ m ++ r))) ((l ++ m ++ r) ++ s) (Z.of_nat (length l + length m)) (Z.of_nat (length l))
  = Ok ((l ++ r) ++ replicate (length m) Hole ++ s).
Proof.
  unfold AdjustPrimitiveArray. rewrite !Nat2Z.id.
  replace (Z.to_nat (Z.of_nat (length (l ++ m ++ r)) - Z.of_nat (length l + length m))) with (length r) by (rewrite !length_app; lia).
  replace (Z.to_nat (Z.of_nat (length l + length m) - Z.of_nat (length l))) with (length m) by lia.
  replace (Z.to_nat (Z.of_nat (length l) + _)) with (length (l ++ r)) by (rewrite !length_app; lia).
  pose proof (shiftDown_returns (length l) (length l + length m) (length r) ((l ++ m ++ r) ++ s) ltac:(lia) ltac:(rewrite !length_app; lia)) as H.
  apply returns_iff in H as (a & -> & Hlen & Ha). rewrite bind_Ok.
  assert (exists g, length g = length m /\ a = (l ++ r) ++ g ++ s) as (g & Hg & ->).
  { exists (take (length m) (drop (length (l ++ r)) a)). rewrite !length_app in Hlen.
    split; [rewrite length_take, length_drop, length_app; lia|]. rewrite <- (take_drop (length (l ++ r)) a) at 1.
    rewrite <- (take_drop (length m) (drop (length (l ++ r)) a)) at 1. rewrite drop_drop. f_equal; [|f_equal].
    - apply list_eq. intros j. rewrite lookup_take. case_decide as Hj; rewrite length_app in Hj.
      + rewrite Ha. case_decide.
        * rewrite lookup_app_l by (rewrite !length_app; lia). rewrite !lookup_app_r by lia. f_equal. lia.
        * rewrite lookup_app_l by (rewrite !length_app; lia). by rewrite !lookup_app_l by lia.
      + symmetry. apply lookup_ge_None_2. rewrite length_app. lia.
    - apply list_eq. intros j. rewrite lookup_drop, Ha, decide_False by (rewrite length_app; lia).
      rewrite lookup_app_r by (rewrite !length_app; lia). f_equal. rewrite !length_app. lia. }
  rewrite <- Hg. apply (fillHoles (l ++ r) g s 0).
Qed.

(** One slot is opened between [l] and [r]. *)
Lemma AdjustArray_opens (l r s : list JSTaggedValue) x :
  exists a, AdjustArray (Z.of_nat (length (l ++ r))) ((l ++ r) ++ x :: s) (Z.of_nat (length l)) (Z.of_nat (length (l ++ r))) true = Ok a
    /\ forall v, set a (length l) v = Ok ((l ++ v :: r) ++ s).
Proof.
  cbn [AdjustArray].
  replace (Z.to_nat (Z.of_nat (length (l ++ r)) - (Z.of_nat (length (l ++ r)) - Z.of_nat (length l)))) with (length l) by lia.
  replace (Z.to_nat (Z.of_nat (length (l ++ r)) - Z.of_nat (length l))) with (length (l ++ r) - length l)%nat by lia.
  pose proof (fun v => insertSlot_app (l ++ r) s x (length l) v ltac:(rewrite length_app; lia)) as H.
  destruct (shiftUp _ _ _) as [a|e]; [|by specialize (H Hole)]. exists a. split; [done|]. intros v. specialize (H v). rewrite bind_Ok in H.
  rewrite H. unfold insertAt. by rewrite take_app_length, drop_app_length.
Qed.

Lemma complement n : 0 <= n < 2 ^ 31 -> i32 (Z.lxor (u32 (- (n + 1))) (BASE - 1)) = n.
Proof.
  intros Hn. assert (u32 (- (n + 1)) = BASE - 1 - n) as ->.
  { unfold u32. rewrite <- (Z.mod_add _ 1) by (rewrite BASE_eq; lia). rewrite Z.mod_small; rewrite BASE_eq; lia. }
  replace (Z.lxor (BASE - 1 - n) (BASE - 1)) with n; [apply i32_small; unfold is_i32; lia|].
  change (BASE - 1) with (Z.ones 32). rewrite Z.sub_nocarry_ldiff.
  - apply Z.bits_inj'. intros i Hi. rewrite Z.lxor_spec, Z.ldiff_spec. destruct (Z.ltb_spec i 32).
    + rewrite Z.ones_spec_low by lia. by destruct (Z.testbit n i).
    + rewrite Z.ones_spec_high by lia. rewrite Z.bits_above_log2; [done|lia|].
      destruct (decide (n = 0)) as [->|]; [cbn; lia|]. apply Z.log2_lt_pow2; [lia|].
      assert (2 ^ 31 <= 2 ^ i) by (apply Z.pow_le_mono_r; lia). lia.
  - apply Z.ldiff_ones_r_low; [lia|]. destruct (decide (n = 0)) as [->|]; [cbn; lia|]. apply Z.log2_lt_pow2; lia.
Qed.

(** ** The operations on the entries *)

(** The entries [E], with the slots [s1] and [s2] to spare. *)
Definition parr (E : Entries) (s1 s2 : list JSTaggedValue) : JSAPIPlainArray :=
  mkPlainArray (keysOf E ++ s1) (valuesOf E ++ s2) (Z.of_nat (length E)).

Lemma split_at E k : ordered E -> exists l m r, E = l ++ entryOf k m ++ r /\ below k l /\ above k r.
Proof.
  intros [(l & v & r & -> & ?)|(l & r & -> & ?)]%(fun H => key_split E k H); [by exists l, (Some v), r|by exists l, None, r].
Qed.

Lemma value_at (E : Entries) s i e : E !! i = Some e -> get (valuesOf E ++ s) i = Ok e.2.
Proof. intros He. apply get_app. unfold valuesOf. rewrite list_lookup_fmap. exact (f_equal (fmap snd) He). Qed.

Lemma key_at (E : Entries) s i e : E !! i = Some e -> get (keysOf E ++ s) i = Ok (Int e.1).
Proof. intros He. apply get_app. unfold keysOf. rewrite list_lookup_fmap. exact (f_equal (fmap (fun e => Int e.1)) He). Qed.

Lemma match_cons {A B} (l : list A) (x y : B) : 0 < Z.of_nat (length l) -> match l with [] => x | _ => y end = y.
Proof. destruct l; cbn; [lia|done]. Qed.

Lemma match_nil {A B} (l : list A) (x y : B) : length l = 0%nat -> match l with [] => x | _ => y end = x.
Proof. by destruct l. Qed.

Lemma set_mid (l r s : list JSTaggedValue) x v i : length l = i -> set ((l ++ x :: r) ++ s) i v = Ok ((l ++ v :: r) ++ s).
Proof. intros Hi. rewrite <- !app_assoc. cbn [app]. rewrite set_spare_at by done. by rewrite <- app_assoc. Qed.

Section Ops.
  Variables (E : Entries) (s1 s2 : list JSTaggedValue).
  Hypotheses (HE : ordered E) (Hsp : length s1 = length s2) (Hcap : Z.of_nat (length E + length s1) <= 2 ^ 30).

Local Lemma size_i32 : i32 (Z.of_nat (length E)) = Z.of_nat (length E).
Proof. apply i32_small. unfold is_i32. lia. Qed.

Lemma search_parr k : exists z, BinarySearch (keysOf E ++ s1) 0 (i32 (Z.of_nat (length E))) k = Ok z /\
  match indexOf k E with Some i => z = Z.of_nat i /\ (i < length E)%nat | None => z < 0 end.
Proof.
  destruct (split_at E k HE) as (l & m & r & Em & Hl & Hr). rewrite Em.
  rewrite BinarySearch_eq by (done || rewrite <- Em; lia). eexists. split; [done|]. unfold searched.
  destruct m as [v|]; cbn [entryOf app].
  - rewrite index_found by done. split; [done|]. rewrite length_app. cbn. lia.
  - rewrite index_new by done. lia.
Qed.

Lemma lookupKey_eq k i : indexOf k E = Some i -> exists v, E !! i = Some (k, v) /\ lookupKey k E = Some v.
Proof.
  unfold lookupKey. intros Ei. rewrite Ei. unfold indexOf in Ei. destruct (list_find _ E) as [[j [k' v]]|] eqn:Ef; [|done].
  cbn in Ei. injection Ei as ->. apply list_find_Some in Ef as (He & Hk & _). cbn in Hk. subst k'. exists v. split; [done|]. cbn. by rewrite He.
Qed.

Lemma Get_parr k : Get (parr E s1 s2) k = Ok (default Undefined (lookupKey k E)).
Proof.
  unfold Get, parr. cbn [Keys Values_ Length]. destruct (search_parr k) as (z & -> & Hz). rewrite bind_Ok.
  destruct (indexOf k E) as [i|] eqn:Ei.
  - destruct Hz as [-> _]. destruct (lookupKey_eq k i Ei) as (v & He & ->). destruct (Z.ltb_spec (Z.of_nat i) 0); [lia|].
    rewrite Nat2Z.id. exact (value_at E s2 i _ He).
  - destruct (Z.ltb_spec z 0); [|lia]. unfold lookupKey. by rewrite Ei.
Qed.

Lemma Has_parr k : Has (parr E s1 s2) k = Ok (bool_decide (is_Some (indexOf k E))).
Proof.
  unfold Has, parr. cbn [Keys Values_ Length]. destruct (search_parr k) as (z & -> & Hz). rewrite bind_Ok.
  destruct (indexOf k E) as [i|]; destruct (Z.ltb_spec z 0); done || lia.
Qed.

Lemma GetIndexOfKey_parr k : GetIndexOfKey (parr E s1 s2) k = Ok (match indexOf k E with Some i => Z.of_nat i | None => -1 end).
Proof.
  unfold GetIndexOfKey, parr. cbn [Keys Values_ Length]. destruct (search_parr k) as (z & -> & Hz). rewrite bind_Ok.
  destruct (indexOf k E) as [i|]; destruct (Z.ltb_spec z 0); try lia; [|done]. by destruct Hz as [-> _].
Qed.

Lemma GetIndexOfValue_parr x : GetIndexOfValue (parr E s1 s2) x =
  Ok (indexWhere (fun v => if IsInt x then IsInt v && rawEq v x else SameValue v x) (valuesOf E)).
Proof.
  unfold GetIndexOfValue, TryFastGetIndexOfValue, parr. cbn [Keys Values_ Length]. rewrite Nat2Z.id, <- length_valuesOf.
  destruct (IsInt x); apply findUp_app.
Qed.

Lemma GetKeyAt_parr i : GetKeyAt (parr E s1 s2) i =
  Ok (if i <? 0 then Undefined else match E !! Z.to_nat i with Some e => Int e.1 | None => Undefined end).
Proof.
  unfold GetKeyAt, parr. cbn [Keys Values_ Length]. rewrite size_i32. destruct (Z.ltb_spec i 0); [done|]. cbn [orb].
  destruct (Z.leb_spec (Z.of_nat (length E)) i).
  - by rewrite lookup_ge_None_2 by lia.
  - destruct (lookup_lt_is_Some_2 E (Z.to_nat i)) as [e He]; [lia|]. rewrite He. by apply key_at.
Qed.

Lemma GetValueAt_parr i : GetValueAt (parr E s1 s2) i =
  match E with [] => Err ContainerEmpty | _ =>
    if i <? 0 then Err IndexRange else match E !! Z.to_nat i with Some e => Ok e.2 | None => Err IndexRange end end.
Proof.
  unfold GetValueAt, parr. cbn [Keys Values_ Length]. rewrite size_i32.
  destruct (Z.eqb_spec (Z.of_nat (length E)) 0); [by destruct E|]. transitivity
    (if i <? 0 then Err IndexRange else match E !! Z.to_nat i with Some e => Ok e.2 | None => Err IndexRange end); [|by destruct E].
  destruct (Z.ltb_spec i 0); [done|]. cbn [orb]. destruct (Z.leb_spec (Z.of_nat (length E)) i).
  - by rewrite lookup_ge_None_2 by lia.
  - destruct (lookup_lt_is_Some_2 E (Z.to_nat i)) as [e He]; [lia|]. rewrite He. by apply value_at.
Qed.
(** The entries from [i] to [i + n] are removed. *)
Lemma AdjustForward_parr i n : (i + n <= length E)%nat ->
  AdjustForward (parr E s1 s2) (Z.of_nat i) (Z.of_nat n) =
  Ok (parr (take i E ++ drop (i + n) E) (replicate n Hole ++ s1) (replicate n Hole ++ s2)).
Proof.
  intros Hi. rewrite <- (take_drop i E) at 1. rewrite <- (take_drop n (drop i E)) at 1. rewrite drop_drop.
  assert (length (take i E) = i) as Hli by (rewrite length_take; lia).
  assert (length (take n (drop i E)) = n) as Hln by (rewrite length_take, length_drop; lia).
  set (l := take i E) in *. set (m := take n (drop i E)) in *. set (r := drop (i + n) E).
  unfold AdjustForward, parr. cbn [Keys Values_ Length AdjustArray].
  rewrite <- Nat2Z.inj_add, <- Hli, <- Hln. rewrite !keysOf_app, !valuesOf_app.
  pose proof (AdjustPrimitiveArray_app (keysOf l) (keysOf m) (keysOf r) s1) as H1.
  pose proof (AdjustPrimitiveArray_app (valuesOf l) (valuesOf m) (valuesOf r) s2) as H2.
  rewrite <- !keysOf_app, !length_keysOf in H1. rewrite <- !valuesOf_app, !length_valuesOf in H2.
  rewrite <- !keysOf_app, <- !valuesOf_app, H1, bind_Ok, H2, bind_Ok. do 2 f_equal.
  rewrite !length_app in *. rewrite u32_small; [lia|]. unfold is_u32. rewrite BASE_eq.
  subst r. rewrite length_drop. lia.
Qed.

Lemma removeEntry_parr i : (i < length E)%nat ->
  AdjustForward (parr E s1 s2) (Z.of_nat i) 1 = Ok (parr (delete i E) (Hole :: s1) (Hole :: s2)).
Proof. intros Hi. change 1 with (Z.of_nat 1). rewrite AdjustForward_parr by lia. by rewrite Nat.add_1_r, delete_take_drop. Qed.

Lemma RemoveAt_parr i : is_i32 i -> RemoveAt (parr E s1 s2) i =
  Ok (if i <? 0 then (Undefined, parr E s1 s2) else
      match E !! Z.to_nat i with
      | Some e => (e.2, parr (delete (Z.to_nat i) E) (Hole :: s1) (Hole :: s2))
      | None => (Undefined, parr E s1 s2)
      end).
Proof.
  intros Hi. unfold RemoveAt. cbn [parr Length Values_]. destruct (Z.ltb_spec i 0); [done|]. cbn [orb].
  rewrite u32_small by (unfold is_u32, is_i32 in *; rewrite BASE_eq; lia). destruct (Z.leb_spec (Z.of_nat (length E)) i).
  - by rewrite lookup_ge_None_2 by lia.
  - destruct (lookup_lt_is_Some_2 E (Z.to_nat i)) as [e He]; [lia|]. rewrite He.
    rewrite (value_at E s2 _ _ He), bind_Ok. rewrite <- (Z2Nat.id i) at 1 by lia. by rewrite removeEntry_parr, bind_Ok by lia.
Qed.

Lemma Remove_parr k : Remove (parr E s1 s2) k =
  Ok (match indexOf k E with
      | Some i => (default Undefined (lookupKey k E), parr (delete i E) (Hole :: s1) (Hole :: s2))
      | None => (Undefined, parr E s1 s2)
      end).
Proof.
  unfold Remove. cbn [parr Length Values_ Keys]. destruct (search_parr k) as (z & -> & Hz). rewrite bind_Ok, size_i32.
  destruct (indexOf k E) as [i|] eqn:Ei.
  - destruct Hz as [-> Hi]. destruct (lookupKey_eq k i Ei) as (v & He & ->).
    destruct (Z.ltb_spec (Z.of_nat i) 0), (Z.leb_spec (Z.of_nat (length E)) (Z.of_nat i)); try lia. cbn [orb].
    rewrite Nat2Z.id, (value_at E s2 _ _ He), bind_Ok. by rewrite removeEntry_parr, bind_Ok by lia.
  - destruct (Z.ltb_spec z 0); [done|lia].
Qed.

Lemma RemoveRangeFrom_parr i n : RemoveRangeFrom (parr E s1 s2) i n =
  match E with [] => Err ContainerEmpty | _ =>
    if (i <? 0) || (Z.of_nat (length E) <=? i) then Err IndexRange else
    if n <? 1 then Err SizeRange else
    if 2 ^ 31 <=? i + n then Err UndefinedBehaviour else
    let m := Z.min n (Z.of_nat (length E) - i) in
    Ok (m, parr (take (Z.to_nat i) E ++ drop (Z.to_nat (i + m)) E)
                (replicate (Z.to_nat m) Hole ++ s1) (replicate (Z.to_nat m) Hole ++ s2))
  end.
Proof.
  unfold RemoveRangeFrom. cbn [parr Length]. rewrite size_i32. fold (parr E s1 s2).
  destruct (Z.leb_spec (Z.of_nat (length E)) 0) as [H0|H0]; [by destruct E|].
  rewrite (match_cons E) by lia.
  destruct ((i <? 0) || (Z.of_nat (length E) <=? i)) eqn:Ei; [done|]. apply orb_false_iff in Ei as [Ei1 Ei2]. apply Z.ltb_ge in Ei1. apply Z.leb_gt in Ei2.
  destruct (Z.ltb_spec n 1); [done|]. destruct (Z.leb_spec (2 ^ 31) (i + n)); [done|]. cbv zeta.
  assert ((if Z.of_nat (length E) - (i + n) <? 0 then Z.of_nat (length E) - i else n) = Z.min n (Z.of_nat (length E) - i)) as ->.
  { destruct (Z.ltb_spec (Z.of_nat (length E) - (i + n)) 0); lia. }
  set (m := Z.min n (Z.of_nat (length E) - i)). assert (0 <= m) by lia.
  rewrite <- (Z2Nat.id i) at 1 by lia. rewrite <- (Z2Nat.id m) at 1 by lia. rewrite AdjustForward_parr by lia. rewrite bind_Ok.
  by rewrite <- Z2Nat.inj_add by lia.
Qed.

Lemma SetValueAt_parr i v : is_i32 i -> SetValueAt (parr E s1 s2) i v =
  match E with [] => Err ContainerEmpty | _ =>
    if i <? 0 then Err IndexRange else
    match E !! Z.to_nat i with Some e => Ok (parr (<[Z.to_nat i := (e.1, v)]> E) s1 s2) | None => Err IndexRange end
  end.
Proof.
  intros Hi. unfold SetValueAt. cbn [parr Length Values_ Keys]. destruct (Z.eqb_spec (Z.of_nat (length E)) 0); [by destruct E|].
  rewrite (match_cons E) by lia. destruct (Z.ltb_spec i 0); [done|]. cbn [orb].
  rewrite u32_small by (unfold is_u32, is_i32 in *; rewrite BASE_eq; lia). destruct (Z.leb_spec (Z.of_nat (length E)) i).
  - by rewrite lookup_ge_None_2 by lia.
  - destruct (lookup_lt_is_Some_2 E (Z.to_nat i)) as [e He]; [lia|]. rewrite He.
    rewrite set_app by (rewrite length_valuesOf; lia). rewrite bind_Ok. unfold parr. rewrite length_insert. do 2 f_equal.
    + f_equal. unfold keysOf. rewrite list_fmap_insert. cbn [fst]. symmetry. apply list_insert_id.
      by rewrite list_lookup_fmap, He.
    + f_equal. unfold valuesOf. by rewrite list_fmap_insert.
Qed.

Lemma Clear_parr : Clear (parr E s1 s2) = Ok (parr [] (replicate (length E) Hole ++ s1) (replicate (length E) Hole ++ s2)).
Proof.
  unfold Clear. cbn [parr Length Values_ Keys]. rewrite Nat2Z.id. rewrite <- (length_keysOf E) at 1. rewrite clearSlots_app, bind_Ok.
  rewrite <- (length_valuesOf E) at 1. rewrite clearSlots_app, bind_Ok. by rewrite length_keysOf, length_valuesOf.
Qed.

Lemma Clone_parr : Clone (parr E s1 s2) = Ok (parr E [] []).
Proof.
  unfold Clone. cbn [parr Length Values_ Keys]. rewrite <- (length_keysOf E) at 1 2. rewrite NewAndCopyTaggedArray_app, bind_Ok.
  rewrite <- (length_valuesOf E) at 1 2. rewrite NewAndCopyTaggedArray_app, bind_Ok. unfold parr. by rewrite !app_nil_r.
Qed.
(** The slots of both arrays, once there is room for one more entry. *)
Definition roomy (s : list JSTaggedValue) : list JSTaggedValue :=
  let c := (length E + length s)%nat in
  if Z.of_nat c <=? Z.of_nat (length E) + 1 then s ++ replicate (Z.to_nat (Z.max DEFAULT_CAPACITY_LENGTH (2 * Z.of_nat c)) - c) Hole else s.

Lemma roomy_length s : length s = length s1 -> (0 < length (roomy s))%nat /\
  Z.of_nat (length E + length (roomy s)) <= Z.max (Z.of_nat (length E + length s)) (8 + 2 * (Z.of_nat (length E) + 1)).
Proof.
  intros Hs. unfold roomy, DEFAULT_CAPACITY_LENGTH. cbv zeta. destruct (Z.leb_spec (Z.of_nat (length E + length s)) (Z.of_nat (length E) + 1)); [|lia].
  rewrite length_app, length_replicate. lia.
Qed.

Lemma roomy_copy (l s : list JSTaggedValue) : length l = length E -> length s = length s1 ->
  Z.of_nat (length E + length s) <= Z.of_nat (length E) + 1 ->
  CopyArray (l ++ s) (Z.of_nat (length E + length s)) (Z.max DEFAULT_CAPACITY_LENGTH (u32 (Z.shiftl (Z.of_nat (length E + length s)) 1)))
  = Ok (l ++ roomy s).
Proof.
  intros Hl Hs Hc. rewrite Z.shiftl_mul_pow2 by lia. change (2 ^ 1) with 2.
  rewrite u32_small by (unfold is_u32; rewrite BASE_eq; lia). unfold roomy. cbv zeta.
  rewrite (proj2 (Z.leb_le _ _) Hc). pose proof (CopyArray_app l s) as H. rewrite length_app, Hl in H.
  rewrite H by (unfold DEFAULT_CAPACITY_LENGTH; lia). do 5 f_equal; lia.
Qed.

Lemma Add_found l r k v0 v : E = l ++ (k, v0) :: r -> below k l -> above k r ->
  Add (parr E s1 s2) k v = Ok (parr (l ++ (k, v) :: r) s1 s2).
Proof.
  intros Em Hl Hr. unfold Add, parr. cbn [Length Keys Values_]. pose proof Hcap as Hc. rewrite Em in Hc |- *.
  rewrite (BinarySearch_eq k l r (Some v0)) by (done || cbn [entryOf app]; lia). rewrite bind_Ok. cbn [searched].
  destruct (Z.leb_spec 0 (Z.of_nat (length l))); [|lia]. rewrite Nat2Z.id, !keysOf_app, !valuesOf_app.
  cbn [keysOf valuesOf map fst snd]. rewrite !set_mid, !bind_Ok by (apply length_keysOf || apply length_valuesOf).
  by rewrite !length_app.
Qed.

Lemma Add_new l r k v : E = l ++ r -> below k l -> above k r ->
  Add (parr E s1 s2) k v = Ok (parr (l ++ (k, v) :: r) (tail (roomy s1)) (tail (roomy s2))).
Proof.
  intros Em Hl Hr. unfold Add. cbn [parr Length Keys Values_].
  assert (BinarySearch (keysOf E ++ s1) 0 (i32 (Z.of_nat (length E))) k = Ok (searched l None)) as ->.
  { rewrite Em. apply (BinarySearch_eq k l r None); [done|done|]. cbn [entryOf app]. rewrite <- Em. lia. }
  rewrite bind_Ok, size_i32. cbn [searched]. destruct (Z.leb_spec 0 (- (Z.of_nat (length l) + 1))); [lia|].
  assert (length E = (length l + length r)%nat) as Hlen by (by rewrite Em, length_app).
  rewrite complement, Nat2Z.id by lia. rewrite length_app, length_valuesOf.
  rewrite !(u32_small (Z.of_nat (length E) + 1)) by (unfold is_u32; rewrite BASE_eq; lia).
  destruct (roomy_length s1 eq_refl) as [Hr1 _]. destruct (roomy_length s2 ltac:(done)) as [Hr2 _].
  assert (forall B (f : _ -> result B), ((if Z.of_nat (length E + length s2) <=? Z.of_nat (length E) + 1 then
    keys ← CopyArray (keysOf E ++ s1) (Z.of_nat (length E + length s2)) (Z.max DEFAULT_CAPACITY_LENGTH (u32 (Z.shiftl (Z.of_nat (length E + length s2)) 1)));
    values ← CopyArray (valuesOf E ++ s2) (Z.of_nat (length E + length s2)) (Z.max DEFAULT_CAPACITY_LENGTH (u32 (Z.shiftl (Z.of_nat (length E + length s2)) 1)));
    Ok (keys, values)
    else Ok (keysOf E ++ s1, valuesOf E ++ s2)) ≫= f) = f (keysOf E ++ roomy s1, valuesOf E ++ roomy s2)) as Hgrow.
  { intros B f. destruct (Z.leb_spec (Z.of_nat (length E + length s2)) (Z.of_nat (length E) + 1)).
    - rewrite roomy_copy by (rewrite ?length_valuesOf; lia). rewrite <- Hsp.
      rewrite roomy_copy by (rewrite ?length_keysOf; lia). by rewrite !bind_Ok.
    - rewrite bind_Ok. unfold roomy. cbv zeta. rewrite Hsp. by rewrite (proj2 (Z.leb_gt _ _)) by lia. }
  rewrite Hgrow. destruct (roomy s1) as [|x1 t1]; [cbn in Hr1; lia|]. destruct (roomy s2) as [|x2 t2]; [cbn in Hr2; lia|]. clear Hgrow.
  destruct (AdjustArray_opens (keysOf l) (keysOf r) t1 x1) as (a1 & H1 & Hs1).
  destruct (AdjustArray_opens (valuesOf l) (valuesOf r) t2 x2) as (a2 & H2 & Hs2).
  rewrite <- keysOf_app, !length_keysOf, <- Em in H1. rewrite <- valuesOf_app, !length_valuesOf, <- Em in H2.
  rewrite length_keysOf in Hs1. rewrite length_valuesOf in Hs2.
  assert (forall B (f : _ -> result B), ((if Z.of_nat (length l) <? Z.of_nat (length E) then
    keys ← AdjustArray (Z.of_nat (length E)) (keysOf E ++ x1 :: t1) (Z.of_nat (length l)) (Z.of_nat (length E)) true;
    values ← AdjustArray (Z.of_nat (length E)) (valuesOf E ++ x2 :: t2) (Z.of_nat (length l)) (Z.of_nat (length E)) true;
    Ok (keys, values) else Ok (keysOf E ++ x1 :: t1, valuesOf E ++ x2 :: t2)) ≫= f) = f (a1, a2)) as Hopen.
  { intros B f. rewrite H1, H2. destruct (Z.ltb_spec (Z.of_nat (length l)) (Z.of_nat (length E))) as [|Hge]; [done|].
    assert (length E = length l) as HE' by lia. revert H1 H2. unfold AdjustArray. rewrite HE'. rewrite Z.sub_diag. cbn.
    intros [= ->] [= ->]. done. }
  rewrite Hopen, Hs1, bind_Ok, Hs2, bind_Ok. unfold parr. do 2 f_equal.
  - by rewrite keysOf_app.
  - by rewrite valuesOf_app.
  - rewrite length_app. cbn [length]. lia.
Qed.

Lemma Add_parr k v : exists s1' s2', Add (parr E s1 s2) k v = Ok (parr (insertEntry k v E) s1' s2') /\
  length s1' = length s2' /\
  Z.of_nat (length (insertEntry k v E) + length s1') <= Z.max (Z.of_nat (length E + length s1)) (8 + 2 * (Z.of_nat (length E) + 1)).
Proof.
  destruct (split_at E k HE) as (l & [v0|] & r & Em & Hl & Hr); cbn [entryOf app] in Em.
  - exists s1, s2. rewrite (Add_found l r k v0) by done. rewrite Em, insert_found by done. split_and!; [done|done|].
    rewrite !length_app. cbn [length]. lia.
  - exists (tail (roomy s1)), (tail (roomy s2)). rewrite (Add_new l r k) by done.
    destruct (roomy_length s1 eq_refl) as [Hr1 Hc1]. destruct (roomy_length s2 ltac:(done)) as [Hr2 Hc2].
    assert (length (roomy s1) = length (roomy s2)) as Hrr.
    { unfold roomy. cbv zeta. rewrite <- Hsp. destruct (_ <=? _); [|done]. by rewrite !length_app, Hsp. }
    rewrite Em at 1. rewrite Em at 1. rewrite insert_new by done. split_and!; [done|by rewrite !length_tl, Hrr|].
    rewrite length_tl. rewrite Em, length_app in *. rewrite length_app. cbn [length]. lia.
Qed.
End Ops.

Lemma ordered_insertEntry k v E : ordered E -> ordered (insertEntry k v E) /\ (length (insertEntry k v E) <= S (length E))%nat.
Proof.
  intros HE. destruct (split_at E k HE) as (l & [v0|] & r & -> & Hl & Hr); cbn [entryOf app] in *.
  - rewrite insert_found by done. split; [by eapply ordered_replace|]. rewrite !length_app. cbn. lia.
  - rewrite insert_new by done. split; [by apply ordered_insertion|]. rewrite !length_app. cbn. lia.
Qed.

Lemma ordered_slice E i j : (i <= j)%nat -> ordered E -> ordered (take i E ++ drop j E) /\ (length (take i E ++ drop j E) <= length E)%nat.
Proof.
  intros Hij HE. rewrite length_app, length_take, length_drop. split; [|lia].
  apply (ordered_remove _ (take (j - i) (drop i E))). rewrite <- (take_drop i E), <- (take_drop (j - i) (drop i E)), drop_drop in HE.
  by replace (i + (j - i))%nat with j in HE by lia.
Qed.

Lemma ordered_delete E i : ordered E -> ordered (delete i E) /\ (length (delete i E) <= length E)%nat.
Proof. intros HE. rewrite delete_take_drop. apply ordered_slice; [lia|done]. Qed.

Lemma ordered_setValue E i e v : E !! i = Some e -> ordered E -> ordered (<[i := (e.1, v)]> E).
Proof.
  intros He HE. unfold ordered in *. rewrite list_fmap_insert. cbn [fst].
  rewrite list_insert_id; [done|]. by rewrite list_lookup_fmap, He.
Qed.

(** The entries are a map. *)
Lemma lookupKey_insert k k' v E : ordered E -> lookupKey k' (insertEntry k v E) = if decide (k' = k) then Some v else lookupKey k' E.
Proof.
  intros HE. assert (forall E : Entries, lookupKey k' E = match list_find (fun e => e.1 = k') E with Some (_, e) => Some e.2 | None => None end) as Hf.
  { intros E'. unfold lookupKey, indexOf. destruct (list_find _ E') as [[i e]|] eqn:Ef; [|done].
    apply list_find_Some in Ef as (He & _). cbn. by rewrite He. }
  rewrite !Hf. clear Hf HE. induction E as [|[k1 v1] E IH]; cbn [insertEntry list_find].
  - cbn [fst]. case_decide as H1; case_decide as H2; cbn; done || lia.
  - destruct (Z.ltb_spec k k1), (Z.eqb_spec k k1); try lia; subst; cbn [list_find fst]; repeat case_decide; subst; try lia; try done; cbn.
    all: try (by destruct (list_find _ _) as [[? ?]|]).
    all: revert IH; rewrite ?decide_True, ?decide_False by (done || lia).
    all: destruct (list_find _ (insertEntry _ _ _)) as [[? ?]|], (list_find _ E) as [[? ?]|]; cbn; try done.
Qed.

(** ** Sequences of calls *)

Inductive PlainArrayOp :=
| OpAdd (key value : JSTaggedValue)
| OpRemove (key : JSTaggedValue)
| OpRemoveAt (index : JSTaggedValue)
| OpRemoveRangeFrom (index size : JSTaggedValue)
| OpSetValueAt (index value : JSTaggedValue)
| OpClear
| OpClone
| OpHas (key : JSTaggedValue)
| OpGet (key : JSTaggedValue)
| OpGetIndexOfKey (key : JSTaggedValue)
| OpGetIndexOfValue (value : JSTaggedValue)
| OpIsEmpty
| OpGetKeyAt (index : JSTaggedValue)
| OpGetValueAt (index : JSTaggedValue)
| OpGetSize.

(** After [OpClone] the calls go on with the clone. *)
Definition plainArrayStep (a : JSAPIPlainArray) (op : PlainArrayOp) : Observation * JSAPIPlainArray :=
  match op with
  | OpAdd k v => observeUpdate a (plainarray_add (This a) k v)
  | OpRemove k => observe a Value (plainarray_remove (This a) k)
  | OpRemoveAt i => observe a Value (plainarray_removeAt (This a) i)
  | OpRemoveRangeFrom i n => observe a Count (plainarray_removeRangeFrom (This a) i n)
  | OpSetValueAt i v => observeUpdate a (plainarray_setValueAt (This a) i v)
  | OpClear => observeUpdate a (plainarray_clear (This a))
  | OpClone => observeUpdate a (plainarray_clone (This a))
  | OpHas k => observeRead a Truth (plainarray_has (This a) k)
  | OpGet k => observeRead a Value (plainarray_get (This a) k)
  | OpGetIndexOfKey k => observeRead a Count (plainarray_getIndexOfKey (This a) k)
  | OpGetIndexOfValue v => observeRead a Count (plainarray_getIndexOfValue (This a) v)
  | OpIsEmpty => observeRead a Truth (plainarray_isEmpty (This a))
  | OpGetKeyAt i => observeRead a Value (plainarray_getKeyAt (This a) i)
  | OpGetValueAt i => observeRead a Value (plainarray_getValueAt (This a) i)
  | OpGetSize => observeRead a Count (plainarray_getSize (This a))
  end.

(** A call whose argument is no small integer throws. *)
Definition withInt (e : error) (arg : JSTaggedValue) (E : Entries) (k : Z -> Observation * Entries) : Observation * Entries :=
  match indexKeyOf arg with Int z => k z | _ => (Throws e, E) end.

(** The entry at [i]. *)
Definition entryAt (i : Z) (E : Entries) : option (Z * JSTaggedValue) := if i <? 0 then None else E !! Z.to_nat i.

Definition nonEmpty (E : Entries) (k : Observation * Entries) : Observation * Entries :=
  match E with [] => (Throws ContainerEmpty, E) | _ => k end.

Definition entriesStep (E : Entries) (op : PlainArrayOp) : Observation * Entries :=
  match op with
  | OpAdd k v => withInt KeyType k E (fun k => (Nothing, insertEntry k v E))
  | OpRemove k => withInt KeyType k E (fun k =>
      match indexOf k E with Some i => (Value (default Undefined (lookupKey k E)), delete i E) | None => (Value Undefined, E) end)
  | OpRemoveAt i => withInt IndexType i E (fun i =>
      match entryAt i E with Some e => (Value e.2, delete (Z.to_nat i) E) | None => (Value Undefined, E) end)
  | OpRemoveRangeFrom i n => withInt IndexType i E (fun i => withInt SizeType n E (fun n => nonEmpty E
      match entryAt i E with
      | None => (Throws IndexRange, E)
      | Some _ =>
        if n <? 1 then (Throws SizeRange, E) else
        let m := Z.min n (Z.of_nat (length E) - i) in
        (Count m, take (Z.to_nat i) E ++ drop (Z.to_nat (i + m)) E)
      end))
  | OpSetValueAt i v => withInt IndexType i E (fun i => nonEmpty E
      match entryAt i E with Some e => (Nothing, <[Z.to_nat i := (e.1, v)]> E) | None => (Throws IndexRange, E) end)
  | OpClear => (Nothing, [])
  | OpClone => (Nothing, E)
  | OpHas k => withInt KeyType k E (fun k => (Truth (bool_decide (is_Some (indexOf k E))), E))
  | OpGet k => withInt KeyType k E (fun k => (Value (default Undefined (lookupKey k E)), E))
  | OpGetIndexOfKey k => withInt KeyType k E (fun k => (Count (match indexOf k E with Some i => Z.of_nat i | None => -1 end), E))
  | OpGetIndexOfValue x => (Count (indexWhere (fun v => if IsInt x then IsInt v && rawEq v x else SameValue v x) (valuesOf E)), E)
  | OpIsEmpty => (Truth (match E with [] => true | _ => false end), E)
  | OpGetKeyAt i => withInt IndexType i E (fun i => (Value (match entryAt i E with Some e => Int e.1 | None => Undefined end), E))
  | OpGetValueAt i => withInt IndexType i E (fun i => nonEmpty E
      (match entryAt i E with Some e => Value e.2 | None => Throws IndexRange end, E))
  | OpGetSize => (Count (Z.of_nat (length E)), E)
  end.

(** A small integer is a 32-bit one. *)
Definition smallArg (v : JSTaggedValue) : Prop := match v with Int z => is_i32 z | _ => True end.

(** The sum of two small integers is one. *)
Definition smallSum (i n : JSTaggedValue) : Prop := match indexKeyOf i, indexKeyOf n with Int i, Int n => i + n < 2 ^ 31 | _, _ => True end.

(** [removeRangeFrom] adds its arguments as an [int32_t]; calls that overflow are left out. *)
Definition plainArrayOk (op : PlainArrayOp) : Prop :=
  match op with
  | OpRemoveAt i | OpSetValueAt i _ => smallArg i
  | OpRemoveRangeFrom i n => smallSum i n
  | _ => True
  end.

(** After [k] calls. *)
Definition plainArrayRep (k : nat) (a : JSAPIPlainArray) (E : Entries) : Prop :=
  ordered E /\ (length E <= k)%nat /\
  exists s1 s2, a = parr E s1 s2 /\ length s1 = length s2 /\ Z.of_nat (length E + length s1) <= 8 + 2 * Z.of_nat k.

Lemma smallArg_index v z : smallArg v -> indexKeyOf v = Int z -> is_i32 z.
Proof.
  destruct v; cbn; try done; [by intros ? [= ->]|]. intros _. unfold TryCastDoubleToInt32. destruct (scaled _) as [u|]; [|done].
  destruct (_ && _) eqn:Eb; [|done]. intros [= <-]. apply andb_prop in Eb as [[_ H1]%andb_prop H2]. unfold is_i32. lia.
Qed.

(** The calls that shrink the entries keep the slots. *)
Lemma plainArrayRep_shrunk k (E : Entries) s1 s2 E' n : ordered E' -> (length E' + n <= length E)%nat -> (length E <= k)%nat -> length s1 = length s2 ->
  Z.of_nat (length E + length s1) <= 8 + 2 * Z.of_nat k ->
  plainArrayRep (S k) (parr E' (replicate n Hole ++ s1) (replicate n Hole ++ s2)) E'.
Proof.
  intros HE Hn Hk Hs Hc. split_and!; [done|lia|]. eexists _, _. split_and!; [done|by rewrite !length_app, Hs|].
  rewrite length_app, length_replicate. lia.
Qed.

Lemma plainArrayRep_later k a E : plainArrayRep k a E -> plainArrayRep (S k) a E.
Proof. intros (HE & Hk & s1 & s2 & -> & Hs & Hc). split_and!; [done|lia|]. exists s1, s2. split_and!; [done|done|lia]. Qed.

Section Simulation.
  Variables (k : nat) (E : Entries) (s1 s2 : list JSTaggedValue).
  Hypotheses (HE : ordered E) (Hk : (length E <= k)%nat) (Hs : length s1 = length s2)
    (Hc : Z.of_nat (length E + length s1) <= 8 + 2 * Z.of_nat k) (Hb : Z.of_nat k < 2 ^ 28).

Local Lemma rep : plainArrayRep (S k) (parr E s1 s2) E.
Proof. apply plainArrayRep_later. split_and!; [done|done|]. by exists s1, s2. Qed.

Local Lemma cap30 : Z.of_nat (length E + length s1) <= 2 ^ 30.
Proof. lia. Qed.

Definition simulates (op : PlainArrayOp) : Prop :=
  (plainArrayStep (parr E s1 s2) op).1 = (entriesStep E op).1 /\
  plainArrayRep (S k) (plainArrayStep (parr E s1 s2) op).2 (entriesStep E op).2.

(** The argument is no small integer and the call throws, or it is one. *)
Ltac small_arg arg z :=
  unfold withInt, smallInt; destruct (indexKeyOf arg) as [| | | |z| | | |] eqn:?; rewrite ?bind_Ok;
  try (split; [reflexivity|by apply rep]).

Lemma entryAt_lookup i : entryAt i E = if (i <? 0) || (Z.of_nat (length E) <=? i) then None else E !! Z.to_nat i.
Proof.
  unfold entryAt. destruct (Z.ltb_spec i 0); [done|]. cbn [orb]. destruct (Z.leb_spec (Z.of_nat (length E)) i); [|done].
  apply lookup_ge_None_2. lia.
Qed.

Lemma adds_simulate key v : simulates (OpAdd key v).
Proof.
  unfold simulates, plainArrayStep, entriesStep, plainarray_add. cbn [receive]. rewrite bind_Ok. small_arg key z.
  destruct (Add_parr E s1 s2 HE Hs cap30 z v) as (s1' & s2' & -> & Hs' & Hc'). destruct (ordered_insertEntry z v E HE) as [HE' Hl].
  split; [done|]. split_and!; [done|cbn; lia|]. exists s1', s2'. split_and!; [done|done|]. cbn [snd]. lia.
Qed.

Lemma deleted i e : E !! i = Some e -> plainArrayRep (S k) (parr (delete i E) (Hole :: s1) (Hole :: s2)) (delete i E).
Proof.
  intros He. apply (plainArrayRep_shrunk k E s1 s2 _ 1); try done; [by apply ordered_delete|].
  rewrite length_delete by done. apply lookup_lt_Some in He. lia.
Qed.

Ltac side := first [done | lia | eapply smallArg_index; [|eassumption]; done].

Lemma removes_simulate op : plainArrayOk op ->
  match op with OpRemove _ | OpRemoveAt _ | OpRemoveRangeFrom _ _ | OpSetValueAt _ _ => simulates op | _ => True end.
Proof.
  destruct op as [| key | index | index size | index v | | | | | | | | | |]; try done; intros Hok;
    unfold simulates, plainArrayStep, entriesStep, plainarray_remove, plainarray_removeAt, plainarray_removeRangeFrom, plainarray_setValueAt;
    cbn [receive]; rewrite bind_Ok.
  - small_arg key z. rewrite (Remove_parr E s1 s2) by side. destruct (indexOf z E) as [i|] eqn:Ei; [|by split; [|apply rep]].
    destruct (lookupKey_eq E z i Ei) as (v & He & _). split; [done|]. by apply (deleted i (z, v)).
  - small_arg index z. rewrite (RemoveAt_parr E s1 s2) by side. unfold entryAt.
    destruct (z <? 0); [by split; [|apply rep]|]. destruct (E !! Z.to_nat z) as [e|] eqn:He; [|by split; [|apply rep]].
    split; [done|]. by eapply deleted.
  - cbn [plainArrayOk] in Hok. unfold smallSum in Hok. small_arg index z. small_arg size n.
    rewrite (RemoveRangeFrom_parr E s1 s2) by side. rewrite entryAt_lookup. unfold nonEmpty.
    destruct (decide (length E = 0%nat)) as [H0|H0]; [rewrite !match_nil by done; by split; [|apply rep]|]. rewrite !match_cons by lia.
    destruct ((z <? 0) || (Z.of_nat (length E) <=? z)) eqn:Ez; [by split; [|apply rep]|]. apply orb_false_iff in Ez as [Ez1 Ez2].
    apply Z.ltb_ge in Ez1. apply Z.leb_gt in Ez2.
    destruct (lookup_lt_is_Some_2 E (Z.to_nat z)) as [e ->]; [lia|]. destruct (Z.ltb_spec n 1); [by split; [|apply rep]|].
    destruct (Z.leb_spec (2 ^ 31) (z + n)); [lia|]. split; [done|]. cbv zeta. set (m := Z.min n _). cbn [observe snd]. apply (plainArrayRep_shrunk k E); try done.
    + apply ordered_slice; [lia|done].
    + rewrite length_app, length_take, length_drop. lia.
  - small_arg index z. rewrite (SetValueAt_parr E s1 s2) by side. unfold entryAt, nonEmpty.
    destruct (decide (length E = 0%nat)) as [H0|H0]; [rewrite !match_nil by done; by split; [|apply rep]|]. rewrite !match_cons by lia.
    destruct (z <? 0); [by split; [|apply rep]|]. destruct (E !! Z.to_nat z) as [e|] eqn:He; [|by split; [|apply rep]].
    split; [done|]. cbn [observeUpdate snd]. apply plainArrayRep_later. split_and!; [by apply ordered_setValue|by rewrite length_insert|].
    exists s1, s2. by rewrite length_insert.
Qed.

Lemma reads_simulate op :
  match op with OpAdd _ _ | OpRemove _ | OpRemoveAt _ | OpRemoveRangeFrom _ _ | OpSetValueAt _ _ => True | _ => simulates op end.
Proof.
  destruct op as [| | | | | | | key | key | key | v | | index | index |]; try done;
    unfold simulates, plainArrayStep, entriesStep, plainarray_clear, plainarray_clone, plainarray_has, plainarray_get, plainarray_getIndexOfKey,
      plainarray_getIndexOfValue, plainarray_isEmpty, plainarray_getKeyAt, plainarray_getValueAt, plainarray_getSize;
    cbn [receive]; rewrite bind_Ok.
  - rewrite Clear_parr. split; [done|]. cbn [observeUpdate snd]. apply (plainArrayRep_shrunk k E); done || cbn; lia.
  - rewrite Clone_parr. split; [done|]. cbn [observeUpdate snd]. split_and!; [done|lia|]. exists [], []. split_and!; [done|done|cbn; lia].
  - small_arg key z. rewrite (Has_parr E s1 s2) by side; split; [done|by apply rep].
  - small_arg key z. rewrite (Get_parr E s1 s2) by side; split; [done|by apply rep].
  - small_arg key z. rewrite (GetIndexOfKey_parr E s1 s2) by side; split; [done|by apply rep].
  - by rewrite GetIndexOfValue_parr; split; [|apply rep].
  - split; [|by apply rep]. cbn. f_equal. by destruct E.
  - small_arg index z. rewrite (GetKeyAt_parr E s1 s2) by side. split; [|by apply rep]. cbn. unfold entryAt. by destruct (z <? 0).
  - small_arg index z. rewrite (GetValueAt_parr E s1 s2) by side. unfold nonEmpty.
    destruct (decide (length E = 0%nat)) as [H0|H0]; [rewrite !match_nil by done; by split; [|apply rep]|]. rewrite !match_cons by lia.
    split; [|by apply rep]. cbn. unfold entryAt. destruct (z <? 0); [done|]. by destruct (E !! Z.to_nat z).
  - by split; [|apply rep].
Qed.
End Simulation.

Lemma plainArrayStep_simulates k a E op : plainArrayRep k a E -> (k < Z.to_nat (2 ^ 28))%nat -> plainArrayOk op ->
  (plainArrayStep a op).1 = (entriesStep E op).1 /\ plainArrayRep (S k) (plainArrayStep a op).2 (entriesStep E op).2.
Proof.
  intros (HE & Hk & s1 & s2 & -> & Hs & Hc) Hb Hok. assert (Z.of_nat k < 2 ^ 28) as Hb' by lia.
  pose proof (removes_simulate k E s1 s2 HE Hk Hs Hc Hb' op Hok) as H1. pose proof (reads_simulate k E s1 s2 HE Hk Hs Hc Hb' op) as H2.
  destruct op; try done. by apply adds_simulate.
Qed.

(** ** Element access *)

Lemma GetProperty_parr E s1 s2 k : ordered E -> length s1 = length s2 -> Z.of_nat (length E + length s1) <= 2 ^ 30 ->
  GetProperty (parr E s1 s2) (Int k) =
  match E with [] => Err ContainerEmpty | _ =>
    match indexOf k E with Some i => Ok (default Undefined (lookupKey (Z.of_nat i) E)) | None => Err IndexRange end
  end.
Proof.
  intros HE Hs Hc. unfold GetProperty. cbn [parr Length Keys indexKeyOf]. destruct (decide (length E = 0%nat)) as [H0|H0].
  - rewrite match_nil by done. by rewrite H0.
  - rewrite match_cons by lia. destruct (Z.eqb_spec (Z.of_nat (length E)) 0); [lia|].
    destruct (search_parr E s1 s2 HE Hs Hc k) as (z & -> & Hz). rewrite bind_Ok, (size_i32 E s1 s2) by (done || lia).
    destruct (indexOf k E) as [i|].
    + destruct Hz as [-> Hi]. destruct (Z.ltb_spec (Z.of_nat i) 0), (Z.leb_spec (Z.of_nat (length E)) (Z.of_nat i)); try lia. cbn [orb].
      by apply (Get_parr E s1 s2).
    + by destruct (Z.ltb_spec z 0); [|lia].
Qed.

Lemma SetProperty_parr E s1 s2 k v i : ordered E -> length s1 = length s2 -> Z.of_nat (length E + length s1) <= 2 ^ 29 ->
  indexOf k E = Some i ->
  exists s1' s2', SetProperty (parr E s1 s2) (Int k) v = Ok (true, parr (insertEntry (Z.of_nat i) v E) s1' s2').
Proof.
  intros HE Hs Hc Hi. unfold SetProperty. cbn [parr Length Keys indexKeyOf].
  destruct (search_parr E s1 s2 HE Hs ltac:(lia) k) as (z & -> & Hz). rewrite Hi in Hz. destruct Hz as [-> Hlt].
  rewrite bind_Ok, (size_i32 E s1 s2) by (done || lia).
  destruct (Z.ltb_spec (Z.of_nat i) 0), (Z.leb_spec (Z.of_nat (length E)) (Z.of_nat i)); try lia. cbn [orb].
  rewrite u32_small by (unfold is_u32; rewrite BASE_eq; lia). unfold Set_. fold (parr E s1 s2).
  destruct (Add_parr E s1 s2 HE Hs ltac:(lia) (Z.of_nat i) v) as (s1' & s2' & -> & _). by exists s1', s2'.
Qed.

(** ** Iteration *)

Fixpoint iterate (n : nat) (a : JSAPIPlainArray) (iter : PlainArrayIterator) : result (list (option (JSTaggedValue * JSTaggedValue)) * PlainArrayIterator) :=
  match n with
  | O => Ok ([], iter)
  | S n => '(o, iter) ← Next a iter; '(os, iter) ← iterate n a iter; Ok (o :: os, iter)
  end.

Lemma Next_parr E s1 s2 i : Z.of_nat (length E) < 2 ^ 30 -> (i <= length E)%nat ->
  Next (parr E s1 s2) (mkPlainArrayIterator true (Z.of_nat i)) =
  Ok (match E !! i with
      | Some e => (Some (Int e.1, e.2), mkPlainArrayIterator true (Z.of_nat (S i)))
      | None => (None, mkPlainArrayIterator false (Z.of_nat i))
      end).
Proof.
  intros HE Hi. unfold Next. cbn [attached negb NextIndex parr Length Keys Values_].
  rewrite u32_small by (unfold is_u32; rewrite BASE_eq; lia). destruct (Z.leb_spec (Z.of_nat (length E)) (Z.of_nat i)).
  - by rewrite lookup_ge_None_2 by lia.
  - destruct (lookup_lt_is_Some_2 E i) as [e He]; [lia|]. rewrite He, Nat2Z.id.
    rewrite (value_at E s2 i e He), bind_Ok, (key_at E s1 i e He), bind_Ok. by rewrite Nat2Z.inj_succ.
Qed.

Lemma iterate_parr E s1 s2 l r : Z.of_nat (length E) < 2 ^ 30 -> E = l ++ r ->
  iterate (S (length r)) (parr E s1 s2) (mkPlainArrayIterator true (Z.of_nat (length l))) =
  Ok (map (fun e => Some (Int e.1, e.2)) r ++ [None], mkPlainArrayIterator false (Z.of_nat (length E))).
Proof.
  intros HE. revert l. induction r as [|e r IH]; intros l ->.
  - rewrite app_nil_r in *. cbn [length iterate]. rewrite Next_parr by lia. rewrite lookup_ge_None_2 by lia. by rewrite bind_Ok.
  - cbn [length]. remember (S (length r)) as n. cbn [iterate]. rewrite Next_parr by (rewrite ?length_app in *; lia).
    rewrite list_lookup_middle, bind_Ok by done. specialize (IH (l ++ [e]) ltac:(by rewrite <- app_assoc)).
    rewrite length_app in IH. cbn [length] in IH. rewrite Nat.add_1_r in IH. rewrite IH, bind_Ok. done.
Qed.

(** A callback that leaves the container and its arrays alone and does not throw. *)
Definition pureEntryCallback {W} (cb : EntryCallback W) (f : W -> JSTaggedValue -> JSTaggedValue -> W) : Prop :=
  forall w a arrays v key, cb w a arrays v key = Ok (f w v key, a, arrays).

Lemma ForEach_pure {W} (cb : EntryCallback W) f w E s1 s2 : pureEntryCallback cb f ->
  ForEach cb w (parr E s1 s2) = Ok (fold_left (fun w e => f w e.2 (Int e.1)) E w, parr E s1 s2).
Proof.
  intros Hcb. unfold ForEach. cbn [parr Length Keys Values_]. rewrite Nat2Z.id. fold (parr E s1 s2).
  assert (forall r l w, E = l ++ r -> for_up (length r) (length l) (fun k '(w, a, (keyArray, valueArray)) =>
    kValue ← get valueArray k; key ← get keyArray k; cb w a (keyArray, valueArray) kValue key)
    (w, parr E s1 s2, (keysOf E ++ s1, valuesOf E ++ s2)) =
    Ok (fold_left (fun w e => f w e.2 (Int e.1)) r w, parr E s1 s2, (keysOf E ++ s1, valuesOf E ++ s2))) as H.
  { induction r as [|e r IH]; intros l w' Er; cbn [length for_up fold_left]; [done|].
    assert (E !! length l = Some e) as He by (rewrite Er; by apply list_lookup_middle).
    rewrite (value_at E s2 _ e He), bind_Ok, (key_at E s1 _ e He), bind_Ok, Hcb, bind_Ok.
    specialize (IH (l ++ [e]) (f w' e.2 (Int e.1)) ltac:(by rewrite <- app_assoc)). rewrite length_app in IH. cbn [length] in IH.
    by rewrite Nat.add_1_r in IH. }
  specialize (H E [] w eq_refl). cbn [length] in H. by rewrite H, bind_Ok.
Qed.

(** ** Theorems *)

(** C30: any sequence of at most [2 ^ 28] calls of the plain array's methods on a new container returns,
    throws and changes the container as on the list of its entries in increasing order of the keys, where
    adding replaces the value of a key that is there and inserts the entry in its place otherwise: the
    binary search finds every key, the slots move by the right distance, and the two arrays stay
    parallel, also over the growth, the removal of ranges and the clone.  At the end the keys are still
    in increasing order.  Left out are calls of [removeRangeFrom] whose index and size add up to [2 ^ 31]
    or more, which is undefined behaviour. *)
Theorem PlainArray_refines_entries ops a0 : PlainArrayConstructor true = Ok a0 ->
  Z.of_nat (length ops) <= 2 ^ 28 -> Forall plainArrayOk ops ->
  (run plainArrayStep a0 ops).1 = (runSpec entriesStep [] ops).1 /\
  plainArrayRep (length ops) (run plainArrayStep a0 ops).2 (runSpec entriesStep [] ops).2.
Proof.
  intros [= <-] Hn Hok.
  apply (run_simulates plainArrayStep entriesStep plainArrayOk plainArrayRep (Z.to_nat (2 ^ 28)) plainArrayStep_simulates ops 0); [|lia|done].
  split_and!; [done|done|]. by exists (replicate 8 Hole), (replicate 8 Hole).
Qed.

Lemma PlainArray_refines_entries_witness :
  (run plainArrayStep (NewJSAPIPlainArray 8)
    [OpAdd (Int 7) (Int 70); OpAdd (Int 3) (Int 30); OpAdd (Int 5) (Int 50); OpAdd (Int 3) (Int 31); OpGetKeyAt (Int 1);
     OpRemoveRangeFrom (Int 1) (Int 2147483646); OpGet (Int 3); OpGet (Int 5); OpAdd Null Null]).1
  = [Nothing; Nothing; Nothing; Nothing; Value (Int 5); Count 2; Value (Int 31); Value Undefined; Throws KeyType].
Proof.
  refine (eq_trans (proj1 (PlainArray_refines_entries _ _ _ _ _)) _).
  - reflexivity.
  - by vm_compute.
  - repeat constructor; cbn; unfold is_i32; lia.
  - vm_compute. reflexivity.
Defined.

(** [removeRangeFrom] of a position that exists overflows exactly when the position and the size do not
    add up to an [int32_t]. *)
Theorem removeRangeFrom_overflows E s1 s2 i n : ordered E -> length s1 = length s2 -> Z.of_nat (length E + length s1) <= 2 ^ 30 ->
  0 <= i < Z.of_nat (length E) -> 1 <= n ->
  plainarray_removeRangeFrom (This (parr E s1 s2)) (Int i) (Int n) = Err UndefinedBehaviour <-> 2 ^ 31 <= i + n.
Proof.
  intros HE Hs Hcap Hi Hn. unfold plainarray_removeRangeFrom, smallInt. cbn [receive indexKeyOf]. rewrite !bind_Ok, (RemoveRangeFrom_parr E s1 s2) by done.
  rewrite match_cons by lia. destruct (Z.ltb_spec i 0), (Z.leb_spec (Z.of_nat (length E)) i), (Z.ltb_spec n 1); try lia. cbn [orb].
  destruct (Z.leb_spec (2 ^ 31) (i + n)); split; done || lia.
Qed.

(** The iterator of a plain array gives every entry once, key and value, in the order of the entries,
    and then reports the end; [forEach] with a callback that leaves the container alone calls it
    once per entry in the same order. *)
Theorem PlainArray_iterates {W} (cb : EntryCallback W) f w E s1 s2 : Z.of_nat (length E) < 2 ^ 30 -> pureEntryCallback cb f ->
  (iter ← plainarray_iterator (This (parr E s1 s2)); iterate (S (length E)) (parr E s1 s2) iter) =
    Ok (map (fun e => Some (Int e.1, e.2)) E ++ [None], mkPlainArrayIterator false (Z.of_nat (length E))) /\
  plainarray_forEach (This (parr E s1 s2)) (Some cb) w = Ok (fold_left (fun w e => f w e.2 (Int e.1)) E w, parr E s1 s2).
Proof. intros HE Hcb. split; [by apply (iterate_parr E s1 s2 [] E)|]. unfold plainarray_forEach. cbn [receive].
  rewrite bind_Ok. by apply ForEach_pure. Qed.

(** C40: [GetProperty] and [SetProperty] of a plain array, the generic way to its elements, use the key only
    to find a position [i], and then read or write the entry whose key is the number [i]: reading gives
    the value stored under [i] (or undefined), and writing adds or replaces the entry of [i], not that
    of [key].  (The interpreter's fast path for indexed access, in object_fast_operator-inl.h, calls [Get]
    and [Set_] with the key itself.) *)
Theorem PlainArray_element_access_confuses_keys E s1 s2 key i v : ordered E -> length s1 = length s2 ->
  Z.of_nat (length E + length s1) <= 2 ^ 29 -> indexOf key E = Some i ->
  GetProperty (parr E s1 s2) (Int key) = Ok (default Undefined (lookupKey (Z.of_nat i) E)) /\
  exists s1' s2', SetProperty (parr E s1 s2) (Int key) v = Ok (true, parr (insertEntry (Z.of_nat i) v E) s1' s2').
Proof.
  intros HE Hs Hc Hi. split; [|by apply SetProperty_parr]. rewrite GetProperty_parr, Hi by (done || lia). by destruct E.
Qed.

Lemma PlainArray_element_access_confuses_keys_witness :
  GetProperty (parr [(5, Int 50)] [Hole; Hole] [Hole; Hole]) (Int 5) = Ok Undefined /\
  exists s1' s2', SetProperty (parr [(5, Int 50)] [Hole; Hole] [Hole; Hole]) (Int 5) Null = Ok (true, parr [(0, Null); (5, Int 50)] s1' s2').
Proof.
  apply (PlainArray_element_access_confuses_keys [(5, Int 50)] [Hole; Hole] [Hole; Hole] 5 0 Null); vm_compute; done || (split; constructor).
Defined.
