(* ===== verification/SortSpec.v ===== *)
(** * Sorting: orders, merging, stability

    What a sort by a three-way comparison promises: the result is a sorted permutation in which
    elements that compare equal keep their order.  [merge] is the stable merge of two lists; the
    lemmas say how a merge can be taken apart from either end. *)

From Stdlib Require Import ZArith Lia Permutation.
From S2P Require Import Prelude.

Section Order.
  Context {A : Type}.
  Variable c : A -> A -> comparison.

(** [c] is a total preorder. *)
Record preorder : Prop := {
  opposite : forall x y, c y x = CompOpp (c x y);
  transitive : forall x y z, c x y <> Gt -> c y z <> Gt -> c x z <> Gt
}.

Definition less (x y : A) : Prop := c x y = Lt.
Definition leq (x y : A) : Prop := c x y <> Gt.
Definition lessb (x y : A) : bool := match c x y with Lt => true | _ => false end.
Definition same (x y : A) : bool := match c x y with Eq => true | _ => false end.

Inductive sorted : list A -> Prop :=
| sorted_nil : sorted []
| sorted_cons x l : Forall (leq x) l -> sorted l -> sorted (x :: l).

(** Elements that compare equal are in the same order in both lists. *)
Definition stable (l l' : list A) : Prop :=
  forall x, List.filter (same x) l = List.filter (same x) l'.

(** On a tie the element of the left list comes first. *)
Fixpoint merge (l1 l2 : list A) {struct l1} : list A :=
  match l1 with
  | [] => l2
  | x :: l1' =>
    (fix mergeInto (l2 : list A) : list A :=
       match l2 with
       | [] => l1
       | y :: l2' => if lessb y x then y :: mergeInto l2' else x :: merge l1' l2
       end) l2
  end.

Lemma merge_nil_r l : merge l [] = l.
Proof. by destruct l. Qed.

Lemma merge_cons x l1 y l2 :
  merge (x :: l1) (y :: l2) = if lessb y x then y :: merge (x :: l1) l2 else x :: merge l1 (y :: l2).
Proof. done. Qed.

Lemma merge_perm l1 l2 : Permutation (merge l1 l2) (l1 ++ l2).
Proof.
  revert l2. induction l1 as [|x l1 IH1]; intros l2; [done|]. induction l2 as [|y l2 IH2].
  - rewrite merge_nil_r. by rewrite app_nil_r.
  - rewrite merge_cons. destruct (lessb y x).
    + rewrite IH2. by rewrite <- Permutation_middle.
    + cbn. by rewrite IH1.
Qed.

Lemma lessb_less x y : lessb x y = true <-> less x y.
Proof. unfold lessb, less. destruct (c x y); naive_solver. Qed.

Lemma lessb_not x y : ~ less x y -> lessb x y = false.
Proof. intros H. apply not_true_is_false. by rewrite lessb_less. Qed.

(** ** Taking a merge apart *)

Lemma merge_left l1 l1' l2 : Forall (fun x => Forall (fun y => ~ less y x) l2) l1 ->
  merge (l1 ++ l1') l2 = l1 ++ merge l1' l2.
Proof.
  induction 1 as [|x l1 Hx _ IH]; [done|]. cbn [app]. destruct l2 as [|y l2]; [by rewrite !merge_nil_r|].
  apply Forall_cons in Hx as [Hx _]. rewrite merge_cons, (lessb_not _ _ Hx). by rewrite IH.
Qed.

Lemma merge_right l1 l2 l2' : Forall (fun y => Forall (less y) l1) l2 ->
  merge l1 (l2 ++ l2') = l2 ++ merge l1 l2'.
Proof.
  induction 1 as [|y l2 Hy _ IH]; [done|]. cbn [app]. destruct l1 as [|x l1]; [done|].
  apply Forall_cons in Hy as [Hy _]. rewrite merge_cons. apply lessb_less in Hy. by rewrite Hy, IH.
Qed.

Lemma merge_left_last l1 l1' l2 : Forall (fun x => Forall (fun y => less y x) l2) l1' ->
  merge (l1 ++ l1') l2 = merge l1 l2 ++ l1'.
Proof.
  intros H. revert l2 H. induction l1 as [|x l1 IH1]; intros l2 H.
  - cbn [app merge]. rewrite <- (app_nil_r l2), merge_right; [by rewrite merge_nil_r, app_nil_r|].
    apply Forall_forall. intros y Hy. apply Forall_forall. intros x Hx. rewrite Forall_forall in H. specialize (H x Hx).
    rewrite Forall_forall in H. by apply H.
  - cbn [app]. induction l2 as [|y l2 IH2]; [done|].
    assert (Forall (fun x => Forall (fun y => less y x) l2) l1') as H2.
    { eapply Forall_impl; [exact H|]. intros z Hz. by apply Forall_cons in Hz as [_ Hz]. }
    rewrite !merge_cons. destruct (lessb y x); cbn [app]; [by rewrite (IH2 H2)|by rewrite IH1].
Qed.

Lemma merge_right_last l1 l2 l2' : Forall (fun y => Forall (fun x => ~ less y x) l1) l2' ->
  merge l1 (l2 ++ l2') = merge l1 l2 ++ l2'.
Proof.
  intros H. revert l2. induction l1 as [|x l1 IH1]; intros l2; [done|].
  assert (Forall (fun y => Forall (fun x => ~ less y x) l1) l2') as H1.
  { eapply Forall_impl; [exact H|]. intros z Hz. by apply Forall_cons in Hz as [_ Hz]. }
  induction l2 as [|y l2 IH2].
  - cbn [app]. destruct l2' as [|y l2']; [by rewrite app_nil_r|]. pose proof H as H0.
    apply Forall_cons in H as [Hy _]. apply Forall_cons in Hy as [Hy _].
    rewrite merge_nil_r, merge_cons, (lessb_not _ _ Hy). cbn [app]. f_equal.
    specialize (IH1 H1 []). by rewrite merge_nil_r in IH1.
  - cbn [app]. rewrite !merge_cons. destruct (lessb y x); cbn [app]; [by rewrite IH2|]. f_equal. apply (IH1 H1 (y :: l2)).
Qed.

(** ** Preorders *)

Section Preorder.
  Hypothesis Hc : preorder.

Lemma leq_refl x : leq x x.
Proof. unfold leq. pose proof (opposite Hc x x) as H. by destruct (c x x). Qed.

Lemma leq_trans x y z : leq x y -> leq y z -> leq x z.
Proof. apply (transitive Hc). Qed.

Lemma not_less x y : ~ less y x <-> leq x y.
Proof. unfold less, leq. rewrite (opposite Hc x y). by destruct (c x y). Qed.

Lemma less_leq x y : less x y -> leq x y.
Proof. unfold less, leq. by intros ->. Qed.

Lemma less_leq_trans x y z : less x y -> leq y z -> less x z.
Proof.
  intros H1 H2. destruct (c x z) eqn:E; [|done|].
  - exfalso. assert (leq y x) as H by (eapply leq_trans; [exact H2|]; unfold leq; rewrite (opposite Hc x z), E; done).
    by apply not_less in H.
  - exfalso. assert (leq y x) as H by (eapply leq_trans; [exact H2|]; unfold leq; rewrite (opposite Hc x z), E; done).
    by apply not_less in H.
Qed.

Lemma leq_less_trans x y z : leq x y -> less y z -> less x z.
Proof.
  intros H1 H2. destruct (c x z) eqn:E; [|done|].
  - exfalso. assert (leq z y) as H by (eapply leq_trans; [|exact H1]; unfold leq; rewrite (opposite Hc x z), E; done).
    by apply not_less in H.
  - exfalso. assert (leq z y) as H by (eapply leq_trans; [|exact H1]; unfold leq; rewrite (opposite Hc x z), E; done).
    by apply not_less in H.
Qed.

Lemma less_not_same x y z : less y z -> same x y = true -> same x z = false.
Proof.
  intros H1 H2. assert (leq x y) as H by (unfold leq, same in *; by destruct (c x y)).
  pose proof (leq_less_trans _ _ _ H H1) as H3. unfold same. by rewrite H3.
Qed.

Lemma sorted_app l1 l2 : sorted (l1 ++ l2) <-> sorted l1 /\ sorted l2 /\ Forall (fun x => Forall (leq x) l2) l1.
Proof.
  induction l1 as [|x l1 IH]; cbn [app].
  - split; [intros H; split_and!; [constructor|done|constructor]|by intros (_ & H & _)].
  - split.
    + inversion 1 as [|? ? Hx Hs]; subst. apply Forall_app in Hx as [Hx1 Hx2]. apply IH in Hs as (H1 & H2 & H3).
      split_and!; [by constructor|done|by constructor].
    + intros (H1 & H2 & H3). inversion H1 as [|? ? Hx Hs]; subst. apply Forall_cons in H3 as [H3 H4].
      constructor; [by apply Forall_app|by apply IH].
Qed.

Lemma sorted_lookup l i j x y : sorted l -> (i <= j)%nat -> l !! i = Some x -> l !! j = Some y -> leq x y.
Proof.
  intros Hs. revert i j. induction Hs as [|z l Hz Hs IH]; intros i j Hij Hi Hj; [done|].
  destruct i as [|i], j as [|j]; cbn in Hi, Hj; try lia.
  - injection Hi as <-. injection Hj as <-. apply leq_refl.
  - injection Hi as <-. rewrite Forall_forall in Hz. apply Hz. by eapply list_elem_of_lookup_2.
  - apply (IH i j); [lia|done|done].
Qed.

Lemma merge_sorted l1 l2 : sorted l1 -> sorted l2 -> sorted (merge l1 l2).
Proof.
  intros H1. revert l2. induction H1 as [|x l1 Hx H1 IH1]; intros l2 H2; [done|].
  induction H2 as [|y l2 Hy H2 IH2]; [by constructor|]. rewrite merge_cons. destruct (lessb y x) eqn:E.
  - apply lessb_less in E. constructor; [|done].
    rewrite merge_perm. cbn [app]. constructor; [by apply less_leq|]. apply Forall_app. split; [|done].
    eapply Forall_impl; [exact Hx|]. intros z Hz. by apply less_leq, (less_leq_trans y x z).
  - assert (leq x y) as Hxy by (apply not_less; rewrite <- lessb_less; by rewrite E).
    constructor; [|apply IH1; by constructor]. rewrite merge_perm. apply Forall_app. split; [done|]. constructor; [done|].
    eapply Forall_impl; [exact Hy|]. intros z Hz. by apply (leq_trans x y z).
Qed.

Lemma filter_none x l : Forall (fun y => same x y = false) l -> List.filter (same x) l = [].
Proof. induction 1 as [|y l Hy _ IH]; cbn; [done|]. by rewrite Hy. Qed.

Lemma filter_at x y l : List.filter (same x) (y :: l) = if same x y then y :: List.filter (same x) l else List.filter (same x) l.
Proof. done. Qed.

(** Only the left list has to be sorted. *)
Lemma merge_stable l1 l2 : sorted l1 -> stable (merge l1 l2) (l1 ++ l2).
Proof.
  intros H1 z. revert l2. induction H1 as [|x l1 Hx H1 IH1]; intros l2; [done|].
  induction l2 as [|y l2 IH2]; [by rewrite merge_nil_r, app_nil_r|]. rewrite merge_cons. destruct (lessb y x) eqn:E.
  - apply lessb_less in E. rewrite (filter_at z y), IH2, !List.filter_app, (filter_at z y).
    destruct (same z y) eqn:Ez; [|done].
    rewrite (filter_none z (x :: l1)); [done|].
    constructor; [by apply (less_not_same z y x)|]. eapply Forall_impl; [exact Hx|].
    intros a Ha. apply (less_not_same z y a); [|done]. by apply (less_leq_trans y x a).
  - cbn [List.filter app]. by rewrite IH1.
Qed.

(** A run that goes strictly down has no two elements that compare equal. *)
Inductive descending : list A -> Prop :=
| descending_nil : descending []
| descending_cons x l : Forall (fun y => less y x) l -> descending l -> descending (x :: l).

Lemma sorted_snoc l x y : sorted (l ++ [x]) -> leq x y -> sorted ((l ++ [x]) ++ [y]).
Proof.
  intros Hs Hxy. apply sorted_app. split_and!; [done|repeat constructor|].
  apply sorted_app in Hs as (_ & _ & Hl). apply Forall_app. split; [|by repeat constructor].
  eapply Forall_impl; [exact Hl|]. intros z Hz. apply Forall_cons in Hz as [Hz _].
  constructor; [by apply (leq_trans z x y)|done].
Qed.

Lemma descending_snoc l x y : descending (l ++ [x]) -> less y x -> descending ((l ++ [x]) ++ [y]).
Proof.
  intros Hd Hxy. induction l as [|z l IH]; cbn [app] in *.
  - repeat constructor. done.
  - inversion Hd as [|? ? Hz Hd']; subst. constructor; [|by apply IH]. apply Forall_app. split; [done|].
    constructor; [|done]. apply Forall_app in Hz as [_ Hz]. apply Forall_cons in Hz as [Hz _].
    apply (less_leq_trans y x z); [done|by apply less_leq].
Qed.

(** Inserting an element behind those that are not greater. *)
Lemma insert_sorted l1 l2 x : sorted (l1 ++ l2) -> Forall (fun y => leq y x) l1 -> Forall (less x) l2 ->
  sorted (l1 ++ x :: l2) /\ stable (l1 ++ x :: l2) ((l1 ++ l2) ++ [x]).
Proof.
  intros (H1 & H2 & H3)%sorted_app Hl Hr. split.
  - apply sorted_app. split_and!; [done| |].
    + constructor; [|done]. eapply Forall_impl; [exact Hr|]. intros z. apply less_leq.
    + apply Forall_forall. intros y Hy. rewrite Forall_forall in Hl, H3. constructor; auto.
  - intros z. rewrite !List.filter_app. rewrite <- app_assoc. f_equal. cbn [List.filter].
    destruct (same z x) eqn:E; [|by rewrite app_nil_r].
    rewrite (filter_none z l2); [done|]. eapply Forall_impl; [exact Hr|]. intros y Hy. by apply (less_not_same z x y).
Qed.

Lemma reverse_descending l : descending l -> sorted (reverse l) /\ stable (reverse l) l.
Proof.
  induction 1 as [|x l Hx Hd [IHs IHt]]; [split; [constructor|done]|]. rewrite reverse_cons. split.
  - apply sorted_app. split_and!; [done|repeat constructor|]. apply Forall_reverse.
    eapply Forall_impl; [exact Hx|]. intros y Hy. constructor; [by apply less_leq|done].
  - intros z. rewrite List.filter_app, IHt. cbn [List.filter]. destruct (same z x) eqn:E; [|by rewrite app_nil_r].
    rewrite (filter_none z l); [done|]. eapply Forall_impl; [exact Hx|]. intros y Hy. destruct (same z y) eqn:E2; [|done].
    by rewrite (less_not_same z y x Hy E2) in E.
Qed.
End Preorder.

(** ** Stability *)

Lemma stable_app l1 l1' l2 l2' : stable l1 l1' -> stable l2 l2' -> stable (l1 ++ l2) (l1' ++ l2').
Proof. intros H1 H2 x. rewrite !List.filter_app. by rewrite (H1 x), (H2 x). Qed.

Lemma stable_trans l1 l2 l3 : stable l1 l2 -> stable l2 l3 -> stable l1 l3.
Proof. intros H1 H2 x. by rewrite (H1 x). Qed.

Lemma stable_refl l : stable l l.
Proof. done. Qed.

(** The reference: inserting the elements one after the other. *)
Definition isort (l : list A) : list A := foldr (fun x acc => merge [x] acc) [] l.

Lemma isort_perm l : Permutation (isort l) l.
Proof. induction l as [|x l IH]; [done|]. cbn [isort foldr]. rewrite merge_perm. cbn. by constructor. Qed.

Section Unique.
  Hypothesis Hc : preorder.

Lemma isort_sorted l : sorted (isort l).
Proof. induction l as [|x l IH]; [constructor|]. apply merge_sorted; [done|repeat constructor|done]. Qed.

Lemma isort_stable l : stable (isort l) l.
Proof.
  induction l as [|x l IH]; [done|]. cbn [isort foldr]. eapply stable_trans; [apply merge_stable; [done|repeat constructor]|].
  by apply (stable_app [x] [x]).
Qed.

Lemma leq_same x y : leq x y -> leq y x -> same x y = true.
Proof. unfold leq, same. rewrite (opposite Hc x y). by destruct (c x y). Qed.

(** A sorted and stable rearrangement is unique. *)
Lemma sorted_unique l l' : sorted l -> sorted l' -> Permutation l l' -> stable l l' -> l = l'.
Proof.
  intros H. revert l'. induction H as [|x l Hx Hs IH]; intros l' Hs' HP Ht; [by apply Permutation_nil in HP|].
  destruct Hs' as [|y l' Hy Hs']; [by apply Permutation_sym, Permutation_nil in HP|].
  assert (leq x y) as Hxy.
  { assert (y ∈ x :: l) as He by (rewrite HP; left). apply list_elem_of_In in He as [->|He]; [by apply leq_refl|].
    rewrite Forall_forall in Hx. by apply Hx, list_elem_of_In. }
  assert (leq y x) as Hyx.
  { assert (x ∈ y :: l') as He by (rewrite <- HP; left). apply list_elem_of_In in He as [->|He]; [by apply leq_refl|].
    rewrite Forall_forall in Hy. by apply Hy, list_elem_of_In. }
  assert (x = y) as <-.
  { specialize (Ht x). rewrite !filter_at, (leq_same x y) in Ht by done. rewrite leq_same in Ht by apply leq_refl, Hc. congruence. }
  f_equal. apply IH; [done|by apply Permutation_cons_inv in HP|]. intros z. specialize (Ht z). rewrite !filter_at in Ht.
  destruct (same z x); congruence.
Qed.
End Unique.
End Order.
