(* ===== verification/TimSort.v ===== *)
(** * TimSort

    [TimSort] of src/ecmascript/base/sort_helper.h and sort_helper.cpp, the sort of the
    containers.  The comparison is user code: it is any program on a state [W] (which holds a
    pending exception, if there is one), and the sort must hold up against every one.  Of the
    number [ArrayHelper::SortCompare] returns, which is never NaN, only the sign is used. *)

From Stdlib Require Import ZArith Lia.
From S2P Require Import Prelude BigIntBase Double Values.

(** ** Programs that call the comparison *)

Definition M (W A : Type) : Type := W -> result (A * W).

#[export] Instance M_ret W : MRet (M W) := fun A a w => Ok (a, w).
#[export] Instance M_bind W : MBind (M W) := fun A B f m w => '(a, w) ← m w; f a w.

Definition lift {W A} (m : result A) : M W A := fun w => a ← m; Ok (a, w).

(** A loop: [inl] goes on, [inr] leaves it. *)
Fixpoint loop {W St R} (fuel : nat) (body : St -> M W (St + R)) (s : St) : M W R :=
  match fuel with
  | O => lift (Err OutOfFuel)
  | S fuel => r ← body s; match r with inl s => loop fuel body s | inr r => mret r end
  end.

(** Array accesses by a signed index. *)
Definition at_ {A} (a : list A) (i : Z) : result A := if i <? 0 then Err OutOfBounds else get a (Z.to_nat i).
Definition put {A} (a : list A) (i : Z) (v : A) : result (list A) :=
  if i <? 0 then Err OutOfBounds else set a (Z.to_nat i) v.

(** ** Model *)

Record run := mkRun { base : Z; len : Z }.

Definition MIN_MERGE : Z := 32.
Definition MIN_GALLOP : Z := 7.

(** [tmp_] is the empty list as long as there is no temporary array. *)
Record TimSort := mkTimSort { elements_ : list JSTaggedValue; minGallop_ : Z; tmp_ : list JSTaggedValue; pending_ : list run }.

(** [while (n >= 2 * MIN_MERGE) { r |= (n & 1); n >>= 1; } return n + r;] *)
Definition ComputeMinRunLength (n : Z) : result Z :=
  '(n, r) ← while_loop (Z.to_nat n) (fun '(n, r) => 2 * MIN_MERGE <=? n)
    (fun '(n, r) => Ok (Z.shiftr n 1, Z.lor r (Z.land n 1))) (n, 0);
  Ok (n + r).

Definition GetTempArray (tmp : list JSTaggedValue) (requestedSize : Z) : list JSTaggedValue :=
  let minSize := Z.max requestedSize 32 in
  if minSize <=? Z.of_nat (length tmp) then tmp else replicate (Z.to_nat minSize) Hole.

Definition ReverseRange (array : list JSTaggedValue) (from to : Z) : result (list JSTaggedValue) :=
  '(array, _, _) ← while_loop (length array) (fun '(_, low, high) => low <? high) (fun '(array, low, high) =>
    elementLow ← at_ array low;
    elementHigh ← at_ array high;
    array ← put array low elementHigh;
    array ← put array high elementLow;
    Ok (array, low + 1, high - 1)) (array, from, to - 1);
  Ok array.

(** [CopyArray] from one array to another, and within one array: backwards when the target is
    above the source. *)
Definition CopyArrayTo (src : list JSTaggedValue) (srcPos : Z) (dst : list JSTaggedValue) (dstPos length_ : Z)
  : result (list JSTaggedValue) :=
  let step (i : nat) (dst : list JSTaggedValue) := v ← at_ src (srcPos + Z.of_nat i); put dst (dstPos + Z.of_nat i) v in
  if srcPos <? dstPos then for_down (Z.to_nat length_) step dst else for_up (Z.to_nat length_) 0 step dst.

Definition CopyArrayWithin (a : list JSTaggedValue) (srcPos dstPos length_ : Z) : result (list JSTaggedValue) :=
  let step (i : nat) (a : list JSTaggedValue) := v ← at_ a (srcPos + Z.of_nat i); put a (dstPos + Z.of_nat i) v in
  if srcPos <? dstPos then for_down (Z.to_nat length_) step a else for_up (Z.to_nat length_) 0 step a.

Section Model.
  Context {W : Type}.
  Variable SortCompare : W -> JSTaggedValue -> JSTaggedValue -> comparison * W.

Definition compare (x y : JSTaggedValue) : M W comparison := fun w => Ok (SortCompare w x y).

Definition negative (order : comparison) : bool := match order with Lt => true | _ => false end.
Definition positive (order : comparison) : bool := match order with Gt => true | _ => false end.

(** Returns the length of the run and the array. *)
Definition CountRunAndMakeAscending (array : list JSTaggedValue) (lo hi : Z) : M W (Z * list JSTaggedValue) :=
  let runHi := lo + 1 in
  if runHi =? hi then mret (1, array) else
  runHiValue ← lift (at_ array runHi);
  previousValue ← lift (at_ array (runHi - 1));
  order ← compare runHiValue previousValue;
  let isDescending := negative order in
  runLength ← loop (length array) (fun '(i, runLength, previousValue) =>
    if i <? hi then
      runHiValue ← lift (at_ array i);
      order ← compare runHiValue previousValue;
      if (if isDescending then negb (negative order) else negative order) then mret (inr runLength)
      else mret (inl (i + 1, runLength + 1, runHiValue))
    else mret (inr runLength)) (runHi + 1, 2, runHiValue);
  array ← lift (if isDescending then ReverseRange array lo (lo + runLength) else Ok array);
  mret (runLength, array).

(** The insertion point of [pivotVal] between [left] and [right]. *)
Definition binarySearch (array : list JSTaggedValue) (pivotVal : JSTaggedValue) (left right : Z) : M W Z :=
  loop (S (length array)) (fun '(left, right) =>
    if left <? right then
      let mid := Z.shiftr (i32 (left + right)) 1 in
      midVal ← lift (at_ array mid);
      order ← compare pivotVal midVal;
      if negative order then mret (inl (left, mid)) else mret (inl (mid + 1, right))
    else mret (inr left)) (left, right).

(** [for (int p = start; p > left; --p) array[p] = array[p - 1]] *)
Definition shiftBlock (array : list JSTaggedValue) (left start : Z) : result (list JSTaggedValue) :=
  for_down (Z.to_nat (start - left)) (fun i array =>
    let p := left + Z.of_nat i + 1 in
    tmpVal ← at_ array (p - 1);
    put array p tmpVal) array.

Definition BinarySort (array : list JSTaggedValue) (lo hi start : Z) : M W (list JSTaggedValue) :=
  let start := if start =? lo then start + 1 else start in
  loop (S (length array)) (fun '(array, start) =>
    if start <? hi then
      pivotVal ← lift (at_ array start);
      left ← binarySearch array pivotVal lo start;
      array ← lift (shiftBlock array left start);
      array ← lift (put array left pivotVal);
      mret (inl (array, start + 1))
    else mret (inr array)) (array, start).

(** The exponential searches: [ofs] doubles until the element at [base + hint + ofs] (or [- ofs])
    is on the other side.  Returns [lastOfs] and [ofs]. *)
Definition gallop (elementAt : Z -> result JSTaggedValue) (key : JSTaggedValue) (goesOn : comparison -> bool) (maxOfs : Z)
  : M W (Z * Z) :=
  '(lastOfs, ofs) ← loop 33 (fun '(lastOfs, ofs) =>
    if ofs <? maxOfs then
      offsetElement ← lift (elementAt ofs);
      order ← compare key offsetElement;
      if negb (goesOn order) then mret (inr (lastOfs, ofs)) else
      let lastOfs := ofs in
      let ofs := i32 (Z.shiftl ofs 1 + 1) in
      mret (inl (lastOfs, if ofs <=? 0 then maxOfs else ofs))
    else mret (inr (lastOfs, ofs))) (0, 1);
  mret (lastOfs, if maxOfs <? ofs then maxOfs else ofs).

(** The binary search between [lastOfs] and [ofs]: [goesRight] says that the key belongs behind
    the element compared with. *)
Definition gallopSearch (array : list JSTaggedValue) (key : JSTaggedValue) (base : Z) (goesRight : comparison -> bool)
    (lastOfs ofs : Z) : M W Z :=
  loop (S (length array)) (fun '(lastOfs, ofs) =>
    if lastOfs <? ofs then
      let m := lastOfs + Z.shiftr (ofs - lastOfs) 1 in
      mElement ← lift (at_ array (base + m));
      order ← compare key mElement;
      if goesRight order then mret (inl (m + 1, ofs)) else mret (inl (lastOfs, m))
    else mret (inr ofs)) (lastOfs + 1, ofs).

Definition GallopLeft (array : list JSTaggedValue) (key : JSTaggedValue) (base len hint : Z) : M W Z :=
  baseHintElement ← lift (at_ array (base + hint));
  order ← compare key baseHintElement;
  '(lastOfs, ofs) ←
    (if positive order then
       let maxOfs := len - hint in
       '(lastOfs, ofs) ← gallop (fun ofs => at_ array (base + hint + ofs)) key positive maxOfs;
       mret (lastOfs + hint, ofs + hint)
     else
       let maxOfs := hint + 1 in
       '(lastOfs, ofs) ← gallop (fun ofs => at_ array (base + hint - ofs)) key (fun order => negb (positive order)) maxOfs;
       mret (hint - ofs, hint - lastOfs));
  gallopSearch array key base positive lastOfs ofs.

Definition GallopRight (array : list JSTaggedValue) (key : JSTaggedValue) (base len hint : Z) : M W Z :=
  baseHintElement ← lift (at_ array (base + hint));
  order ← compare key baseHintElement;
  '(lastOfs, ofs) ←
    (if negative order then
       let maxOfs := hint + 1 in
       '(lastOfs, ofs) ← gallop (fun ofs => at_ array (base + hint - ofs)) key negative maxOfs;
       mret (hint - ofs, hint - lastOfs)
     else
       let maxOfs := len - hint in
       '(lastOfs, ofs) ← gallop (fun ofs => at_ array (base + hint + ofs)) key (fun order => negb (negative order)) maxOfs;
       mret (lastOfs + hint, ofs + hint));
  gallopSearch array key base (fun order => negb (negative order)) lastOfs ofs.

(** The local variables of a merge. *)
Record Merge := mkMerge { work : list JSTaggedValue; tmp : list JSTaggedValue;
  cursor1 : Z; cursor2 : Z; dest : Z; len1 : Z; len2 : Z }.

(** [workArray[dest++] = workArray[cursor2++]; --len2] *)
Definition takeRight (s : Merge) : result Merge :=
  tmpElement ← at_ (work s) (cursor2 s);
  work' ← put (work s) (dest s) tmpElement;
  Ok (mkMerge work' (tmp s) (cursor1 s) (cursor2 s + 1) (dest s + 1) (len1 s) (len2 s - 1)).

(** [workArray[dest++] = tmpArray[cursor1++]; --len1] *)
Definition takeLeft (s : Merge) : result Merge :=
  tmpElement ← at_ (tmp s) (cursor1 s);
  work' ← put (work s) (dest s) tmpElement;
  Ok (mkMerge work' (tmp s) (cursor1 s + 1) (cursor2 s) (dest s + 1) (len1 s - 1) (len2 s)).

(** One element at a time.  The left result is the end of the loop, the right one the jump to
    the epilogue. *)
Definition mergeLoOnes (fuel : nat) (minGallop : Z) (s : Merge) : M W (Merge + Merge) :=
  loop fuel (fun '(s, count1, count2) =>
    cmp1Element ← lift (at_ (work s) (cursor2 s));
    cmp2Element ← lift (at_ (tmp s) (cursor1 s));
    order ← compare cmp1Element cmp2Element;
    if negative order then
      s ← lift (takeRight s);
      if len2 s =? 0 then mret (inr (inr s)) else
      if Z.lor 0 (count2 + 1) <? minGallop then mret (inl (s, 0, count2 + 1)) else mret (inr (inl s))
    else
      s ← lift (takeLeft s);
      if len1 s =? 1 then mret (inr (inr s)) else
      if Z.lor (count1 + 1) 0 <? minGallop then mret (inl (s, count1 + 1, 0)) else mret (inr (inl s)))
    (s, 0, 0).

(** Blocks of elements. *)
Definition mergeLoBlocks (fuel : nat) (minGallop : Z) (s : Merge) : M W (Merge * Z + Merge * Z) :=
  loop fuel (fun '(s, minGallop) =>
    cursorVal ← lift (at_ (work s) (cursor2 s));
    count1 ← GallopRight (tmp s) cursorVal (cursor1 s) (len1 s) 0;
    s ← (if negb (count1 =? 0) then
           work' ← lift (CopyArrayTo (tmp s) (cursor1 s) (work s) (dest s) count1);
           mret (mkMerge work' (tmp s) (cursor1 s + count1) (cursor2 s) (dest s + count1) (len1 s - count1) (len2 s))
         else mret s);
    if negb (count1 =? 0) && (len1 s <=? 1) then mret (inr (inr (s, minGallop))) else
    s ← lift (takeRight s);
    if len2 s =? 0 then mret (inr (inr (s, minGallop))) else
    cursorVal2 ← lift (at_ (tmp s) (cursor1 s));
    count2 ← GallopLeft (work s) cursorVal2 (cursor2 s) (len2 s) 0;
    s ← (if negb (count2 =? 0) then
           work' ← lift (CopyArrayWithin (work s) (cursor2 s) (dest s) count2);
           mret (mkMerge work' (tmp s) (cursor1 s) (cursor2 s + count2) (dest s + count2) (len1 s) (len2 s - count2))
         else mret s);
    if negb (count2 =? 0) && (len2 s =? 0) then mret (inr (inr (s, minGallop))) else
    s ← lift (takeLeft s);
    if len1 s =? 1 then mret (inr (inr (s, minGallop))) else
    let minGallop := minGallop - 1 in
    if (MIN_GALLOP <=? count1) || (MIN_GALLOP <=? count2) then mret (inl (s, minGallop))
    else mret (inr (inl (s, minGallop)))) (s, minGallop).

(** [fuel] bounds the rounds of each loop. *)
Definition mergeLoLoop (fuel : nat) (minGallop : Z) (s : Merge) : M W (Merge * Z) :=
  loop fuel (fun '(s, minGallop) =>
    r ← mergeLoOnes fuel minGallop s;
    match r with
    | inr s => mret (inr (s, minGallop))
    | inl s =>
      r ← mergeLoBlocks fuel minGallop s;
      match r with
      | inr (s, minGallop) => mret (inr (s, minGallop))
      | inl (s, minGallop) => mret (inl (s, (if minGallop <? 0 then 0 else minGallop) + 2))
      end
    end) (s, minGallop).

Definition mergeLoEpilogue (s : Merge) : result (list JSTaggedValue) :=
  if len1 s =? 1 then
    work' ← CopyArrayWithin (work s) (cursor2 s) (dest s) (len2 s);
    tmpElement ← at_ (tmp s) (cursor1 s);
    put work' (dest s + len2 s) tmpElement
  else CopyArrayTo (tmp s) (cursor1 s) (work s) (dest s) (len1 s).

Definition MergeLo (ts : TimSort) (base1 n1 base2 n2 : Z) : M W TimSort :=
  let workArray := elements_ ts in
  let tmpArray := GetTempArray (tmp_ ts) n1 in
  tmpArray ← lift (CopyArrayTo workArray base1 tmpArray 0 n1);
  tmpArray ← lift (CopyArrayTo workArray base1 tmpArray 0 n1);
  s ← lift (takeRight (mkMerge workArray tmpArray 0 base2 base1 n1 n2));
  if len2 s =? 0 then
    work' ← lift (CopyArrayTo tmpArray (cursor1 s) (work s) (dest s) n1);
    mret (mkTimSort work' (minGallop_ ts) tmpArray (pending_ ts))
  else if n1 =? 1 then
    work' ← lift (CopyArrayWithin (work s) (cursor2 s) (dest s) (len2 s));
    tmpElement ← lift (at_ tmpArray (cursor1 s));
    work' ← lift (put work' (dest s + len2 s) tmpElement);
    mret (mkTimSort work' (minGallop_ ts) tmpArray (pending_ ts))
  else
    '(s, minGallop) ← mergeLoLoop (Z.to_nat (n1 + n2)) (minGallop_ ts) s;
    work' ← lift (mergeLoEpilogue s);
    mret (mkTimSort work' (Z.min minGallop 1) tmpArray (pending_ ts)).

(** The mirror image: [cursor1] and [dest] go down in the array, [cursor2] in the copy of the
    right run. *)

(** [workArray[dest--] = workArray[cursor1--]; --len1] *)
Definition takeLeftHi (s : Merge) : result Merge :=
  tmpElement ← at_ (work s) (cursor1 s);
  work' ← put (work s) (dest s) tmpElement;
  Ok (mkMerge work' (tmp s) (cursor1 s - 1) (cursor2 s) (dest s - 1) (len1 s - 1) (len2 s)).

(** [workArray[dest--] = tmpArray[cursor2--]; --len2] *)
Definition takeRightHi (s : Merge) : result Merge :=
  tmpElement ← at_ (tmp s) (cursor2 s);
  work' ← put (work s) (dest s) tmpElement;
  Ok (mkMerge work' (tmp s) (cursor1 s) (cursor2 s - 1) (dest s - 1) (len1 s) (len2 s - 1)).

Definition mergeHiOnes (fuel : nat) (minGallop : Z) (s : Merge) : M W (Merge + Merge) :=
  loop fuel (fun '(s, count1, count2) =>
    cmp1Element ← lift (at_ (work s) (cursor1 s));
    cmp2Element ← lift (at_ (tmp s) (cursor2 s));
    order ← compare cmp2Element cmp1Element;
    if negative order then
      s ← lift (takeLeftHi s);
      if len1 s =? 0 then mret (inr (inr s)) else
      if Z.lor (count1 + 1) 0 <? minGallop then mret (inl (s, count1 + 1, 0)) else mret (inr (inl s))
    else
      s ← lift (takeRightHi s);
      if len2 s =? 1 then mret (inr (inr s)) else
      if Z.lor 0 (count2 + 1) <? minGallop then mret (inl (s, 0, count2 + 1)) else mret (inr (inl s)))
    (s, 0, 0).

Definition mergeHiBlocks (fuel : nat) (base1 minGallop : Z) (s : Merge) : M W (Merge * Z + Merge * Z) :=
  loop fuel (fun '(s, minGallop) =>
    cursorVal ← lift (at_ (tmp s) (cursor2 s));
    k ← GallopRight (work s) cursorVal base1 (len1 s) (len1 s - 1);
    let count1 := len1 s - k in
    s ← (if negb (count1 =? 0) then
           work' ← lift (CopyArrayWithin (work s) (cursor1 s - count1 + 1) (dest s - count1 + 1) count1);
           mret (mkMerge work' (tmp s) (cursor1 s - count1) (cursor2 s) (dest s - count1) (len1 s - count1) (len2 s))
         else mret s);
    if negb (count1 =? 0) && (len1 s =? 0) then mret (inr (inr (s, minGallop))) else
    s ← lift (takeRightHi s);
    if len2 s =? 1 then mret (inr (inr (s, minGallop))) else
    cursorVal2 ← lift (at_ (work s) (cursor1 s));
    k ← GallopLeft (tmp s) cursorVal2 0 (len2 s) (len2 s - 1);
    let count2 := len2 s - k in
    s ← (if negb (count2 =? 0) then
           work' ← lift (CopyArrayTo (tmp s) (cursor2 s - count2 + 1) (work s) (dest s - count2 + 1) count2);
           mret (mkMerge work' (tmp s) (cursor1 s) (cursor2 s - count2) (dest s - count2) (len1 s) (len2 s - count2))
         else mret s);
    if negb (count2 =? 0) && (len2 s <=? 1) then mret (inr (inr (s, minGallop))) else
    s ← lift (takeLeftHi s);
    if len1 s =? 0 then mret (inr (inr (s, minGallop))) else
    let minGallop := minGallop - 1 in
    if (MIN_GALLOP <=? count1) || (MIN_GALLOP <=? count2) then mret (inl (s, minGallop))
    else mret (inr (inl (s, minGallop)))) (s, minGallop).

Definition mergeHiLoop (fuel : nat) (base1 minGallop : Z) (s : Merge) : M W (Merge * Z) :=
  loop fuel (fun '(s, minGallop) =>
    r ← mergeHiOnes fuel minGallop s;
    match r with
    | inr s => mret (inr (s, minGallop))
    | inl s =>
      r ← mergeHiBlocks fuel base1 minGallop s;
      match r with
      | inr (s, minGallop) => mret (inr (s, minGallop))
      | inl (s, minGallop) => mret (inl (s, (if minGallop <? 0 then 0 else minGallop) + 2))
      end
    end) (s, minGallop).

(** The rest of the left run moved up, and the one element left of the right run below it. *)
Definition mergeHiLast (s : Merge) : result (list JSTaggedValue) :=
  let dest' := dest s - len1 s in
  let cursor1' := cursor1 s - len1 s in
  work' ← CopyArrayWithin (work s) (cursor1' + 1) (dest' + 1) (len1 s);
  tmpElement ← at_ (tmp s) (cursor2 s);
  put work' dest' tmpElement.

Definition mergeHiEpilogue (s : Merge) : result (list JSTaggedValue) :=
  if len2 s =? 1 then mergeHiLast s
  else CopyArrayTo (tmp s) 0 (work s) (dest s - (len2 s - 1)) (len2 s).

Definition MergeHi (ts : TimSort) (base1 n1 base2 n2 : Z) : M W TimSort :=
  let workArray := elements_ ts in
  let tmpArray := GetTempArray (tmp_ ts) n2 in
  tmpArray ← lift (CopyArrayTo workArray base2 tmpArray 0 n2);
  s ← lift (takeLeftHi (mkMerge workArray tmpArray (base1 + n1 - 1) (n2 - 1) (base2 + n2 - 1) n1 n2));
  if len1 s =? 0 then
    work' ← lift (CopyArrayTo tmpArray 0 (work s) (dest s - (n2 - 1)) n2);
    mret (mkTimSort work' (minGallop_ ts) tmpArray (pending_ ts))
  else if n2 =? 1 then
    work' ← lift (mergeHiLast s);
    mret (mkTimSort work' (minGallop_ ts) tmpArray (pending_ ts))
  else
    '(s, minGallop) ← mergeHiLoop (Z.to_nat (n1 + n2)) base1 (minGallop_ ts) s;
    work' ← lift (mergeHiEpilogue s);
    mret (mkTimSort work' (Z.min minGallop 1) tmpArray (pending_ ts)).

(** [pending_[i]], checked. *)
Definition runAt (pending : list run) (i : Z) : result run := at_ pending i.

Definition MergeAt (ts : TimSort) (i : Z) : M W TimSort :=
  let stackSize := Z.of_nat (length (pending_ ts)) in
  r1 ← lift (runAt (pending_ ts) i);
  r2 ← lift (runAt (pending_ ts) (i + 1));
  let base1 := base r1 in
  let n1 := len r1 in
  let base2 := base r2 in
  let n2 := len r2 in
  pending ← lift (put (pending_ ts) i (mkRun base1 (n1 + n2)));
  pending ← lift (if i =? stackSize - 3 then r3 ← runAt pending (i + 2); put pending (i + 1) r3 else Ok pending);
  let pending := removelast pending in
  let ts := mkTimSort (elements_ ts) (minGallop_ ts) (tmp_ ts) pending in
  key1 ← lift (at_ (elements_ ts) base2);
  k ← GallopRight (elements_ ts) key1 base1 n1 0;
  let base1 := base1 + k in
  let n1 := n1 - k in
  if n1 =? 0 then mret ts else
  key2 ← lift (at_ (elements_ ts) (base1 + n1 - 1));
  n2 ← GallopLeft (elements_ ts) key2 base2 n2 (n2 - 1);
  if n2 =? 0 then mret ts else
  if n1 <=? n2 then MergeLo ts base1 n1 base2 n2 else MergeHi ts base1 n1 base2 n2.

Definition MergeCollapse (ts : TimSort) : M W TimSort :=
  loop (S (length (pending_ ts))) (fun ts =>
    let pending := pending_ ts in
    if 1 <? Z.of_nat (length pending) then
      let n := Z.of_nat (length pending) - 2 in
      let lenAt i := r ← runAt pending i; Ok (len r) in
      (* the operands of || and && that are not reached are not read *)
      unbalanced ← lift (if 0 <? n then a ← lenAt (n - 1); b ← lenAt n; c ← lenAt (n + 1); Ok (a <=? b + c) else Ok false);
      unbalanced ← lift (if (unbalanced : bool) then Ok true
                         else if 1 <? n then a ← lenAt (n - 2); b ← lenAt (n - 1); c ← lenAt n; Ok (a <=? b + c) else Ok false);
      if (unbalanced : bool) then
        a ← lift (lenAt (n - 1));
        c ← lift (lenAt (n + 1));
        ts ← MergeAt ts (if a <? c then n - 1 else n);
        mret (inl ts)
      else
        b ← lift (lenAt n);
        c ← lift (lenAt (n + 1));
        if b <=? c then ts ← MergeAt ts n; mret (inl ts) else mret (inr ts)
    else mret (inr ts)) ts.

Definition MergeForceCollapse (ts : TimSort) : M W TimSort :=
  loop (S (length (pending_ ts))) (fun ts =>
    let pending := pending_ ts in
    if 1 <? Z.of_nat (length pending) then
      let n := Z.of_nat (length pending) - 2 in
      n ← lift (if 0 <? n then a ← runAt pending (n - 1); c ← runAt pending (n + 1); Ok (if len a <? len c then n - 1 else n)
                else Ok n);
      ts ← MergeAt ts n;
      mret (inl ts)
    else mret (inr ts)) ts.

Definition PushRun (ts : TimSort) (runBase runLen : Z) : TimSort :=
  mkTimSort (elements_ ts) (minGallop_ ts) (tmp_ ts) (pending_ ts ++ [mkRun runBase runLen]).

(** Returns the elements.  The static functions and the object work on the same array. *)
Definition Sort (elements : list JSTaggedValue) : M W (list JSTaggedValue) :=
  let len := Z.of_nat (length elements) in
  if len <? 2 then mret elements else
  if len <? MIN_MERGE then
    '(initRunLen, elements) ← CountRunAndMakeAscending elements 0 len;
    BinarySort elements 0 len (0 + initRunLen)
  else
    minRunLength ← lift (ComputeMinRunLength len);
    ts ← loop (S (length elements)) (fun '(ts, low, nRemaining) =>
      if nRemaining =? 0 then mret (inr ts) else
      '(runLen, elements) ← CountRunAndMakeAscending (elements_ ts) low len;
      '(runLen, elements) ←
        (if runLen <? minRunLength then
           let force := Z.min nRemaining minRunLength in
           elements ← BinarySort elements low (low + force) (low + runLen);
           mret (force, elements)
         else mret (runLen, elements));
      let ts := mkTimSort elements (minGallop_ ts) (tmp_ ts) (pending_ ts) in
      ts ← MergeCollapse (PushRun ts low runLen);
      mret (inl (ts, low + runLen, nRemaining - runLen)))
      (mkTimSort elements MIN_GALLOP [] [], 0, len);
    ts ← MergeForceCollapse ts;
    mret (elements_ ts).
End Model.
