(* ===== verification/TimSortSearch.v ===== *)
(** * TimSort: searching

    The proof rules for programs that call a comparison, and what the searches of TimSort
    ([binarySearch], [GallopLeft], [GallopRight]) find: whatever the comparison answers they
    read within the segment, end, and return a position of it; if the comparison is a total
    preorder and the segment is sorted, the position is the one where the key belongs. *)

From Stdlib Require Import ZArith Lia Permutation.
From S2P Require Import Prelude BigIntBase Double Values SortSpec TimSort.

(** ** Proof rules *)

(** What is known of the state, for example that no exception is pending; the comparison has to
    keep it so. *)
Class StateInv (W : Type) := stateInv : W -> Prop.

Class Preserves {W} `{!StateInv W} (SortCompare : W -> JSTaggedValue -> JSTaggedValue -> comparison * W) : Prop :=
  preserves : forall w x y, stateInv w -> stateInv (SortCompare w x y).2.

(** [m] ends normally in a value of [Q]. *)
Definition ensures {W A} `{!StateInv W} (m : M W A) (Q : A -> Prop) : Prop :=
  forall w, stateInv w -> returns (m w) (fun p => Q p.1 /\ stateInv p.2).

Section Rules.
  Context {W : Type} `{!StateInv W}.

Lemma ensures_ret {A} (a : A) (Q : A -> Prop) : Q a -> ensures (W := W) (mret a) Q.
Proof. intros H w Hw. by split. Qed.

Lemma ensures_bind {A B} (m : M W A) (P : A -> Prop) (k : A -> M W B) (Q : B -> Prop) :
  ensures m P -> (forall a, P a -> ensures (k a) Q) -> ensures (m ≫= k) Q.
Proof.
  intros Hm Hk w Hw. specialize (Hm w Hw). unfold mbind, M_bind. destruct (m w) as [[a w']|e]; [|done].
  destruct Hm as [Ha Hw']. by apply (Hk a Ha w').
Qed.

Lemma ensures_mono {A} (m : M W A) (P Q : A -> Prop) : ensures m P -> (forall a, P a -> Q a) -> ensures m Q.
Proof. intros Hm H w Hw. eapply returns_mono; [by apply Hm|]. intros [a w'] [Ha Hw']. split; [by apply H|done]. Qed.

Lemma ensures_lift {A} (m : result A) (Q : A -> Prop) : returns m Q -> ensures (W := W) (lift m) Q.
Proof. intros H w Hw. unfold lift. by destruct m. Qed.

Lemma ensures_lift_bind {A B} (m : result A) a (k : A -> M W B) (Q : B -> Prop) :
  m = Ok a -> ensures (k a) Q -> ensures (lift m ≫= k) Q.
Proof. intros -> H w Hw. exact (H w Hw). Qed.

Lemma ensures_lift_any {A B} (m : result A) (k : A -> M W B) (Q : B -> Prop) (R : A -> Prop) :
  returns m R -> (forall a, R a -> ensures (k a) Q) -> ensures (lift m ≫= k) Q.
Proof. intros Hm Hk. destruct m as [a|]; [|done]. intros w Hw. by apply (Hk a Hm). Qed.

Lemma ensures_loop {St R} (I : St -> Prop) (m : St -> nat) (Q : R -> Prop) fuel (body : St -> M W (St + R)) s :
  I s -> (m s < fuel)%nat ->
  (forall s, I s -> ensures (body s) (fun r => match r with inl s' => I s' /\ (m s' < m s)%nat | inr r => Q r end)) ->
  ensures (loop fuel body s) Q.
Proof.
  intros HI Hm Hb. revert s HI Hm. induction fuel as [|fuel IH]; intros s HI Hm; [lia|]. cbn [loop].
  eapply ensures_bind; [by apply Hb|]. intros [s'|r]; cbv beta iota.
  - intros [HI' Hm']. apply IH; [done|lia].
  - intros Hr. by apply ensures_ret.
Qed.
End Rules.

(** ** Segments of arrays *)

Definition segment (a : list JSTaggedValue) (b : Z) (l : list JSTaggedValue) : Prop :=
  exists X Y, a = X ++ l ++ Y /\ b = Z.of_nat (length X).

Lemma at_middle {A} (X Y : list A) v i : i = Z.of_nat (length X) -> at_ (X ++ v :: Y) i = Ok v.
Proof.
  intros ->. unfold at_. destruct (Z.ltb_spec (Z.of_nat (length X)) 0); [lia|]. unfold get.
  by rewrite Nat2Z.id, list_lookup_middle.
Qed.

Lemma put_middle {A} (X Y : list A) u v i : i = Z.of_nat (length X) -> put (X ++ u :: Y) i v = Ok (X ++ v :: Y).
Proof.
  intros ->. unfold put. destruct (Z.ltb_spec (Z.of_nat (length X)) 0); [lia|]. unfold set.
  rewrite decide_True by (rewrite length_app; cbn; lia). f_equal. by rewrite Nat2Z.id, insert_app_r_alt, Nat.sub_diag.
Qed.

Lemma segment_at a b l i : segment a b l -> 0 <= i < Z.of_nat (length l) ->
  exists v, l !! Z.to_nat i = Some v /\ at_ a (b + i) = Ok v.
Proof.
  intros (X & Y & -> & ->) Hi. destruct (lookup_lt_is_Some_2 l (Z.to_nat i)) as [v Hv]; [lia|]. exists v. split; [done|].
  apply list_elem_of_split_length in Hv as (l1 & l2 & -> & E). rewrite <- app_assoc, app_assoc. cbn [app].
  apply at_middle. rewrite length_app. lia.
Qed.

Lemma segment_length a b l : segment a b l -> 0 <= b /\ b + Z.of_nat (length l) <= Z.of_nat (length a).
Proof. intros (X & Y & -> & ->). rewrite !length_app. lia. Qed.

Section Search.
  Context {W : Type} `{!StateInv W}.
  Variable SortCompare : W -> JSTaggedValue -> JSTaggedValue -> comparison * W.
  Context `{!Preserves SortCompare}.
  Variable c : JSTaggedValue -> JSTaggedValue -> comparison.

(** The comparison is the total preorder [c]. *)
Definition agrees : Prop := (forall w x y, stateInv w -> (SortCompare w x y).1 = c x y) /\ preorder c.

Lemma ensures_compare {B} x y (k : comparison -> M W B) (Q : B -> Prop) :
  (forall o, (agrees -> o = c x y) -> ensures (k o) Q) -> ensures (compare SortCompare x y ≫= k) Q.
Proof.
  intros H. eapply (ensures_bind _ (fun o => agrees -> o = c x y)); [|exact H].
  intros w Hw. unfold compare. cbn. split; [|by apply preserves]. intros [Hc _]. by apply Hc.
Qed.

(** [p (c key v)] says that the key belongs behind [v]. *)
Variable p : comparison -> bool.

(** [k] is where the key belongs. *)
Definition cut (key : JSTaggedValue) (l : list JSTaggedValue) (k : Z) : Prop :=
  forall i v, l !! i = Some v -> p (c key v) = (Z.of_nat i <? k).

Definition monotone (key : JSTaggedValue) (l : list JSTaggedValue) : Prop :=
  forall i j u v, (i <= j)%nat -> l !! i = Some u -> l !! j = Some v -> p (c key v) = true -> p (c key u) = true.

(** Between [lo] and [hi] is where the key belongs. *)
Definition between (key : JSTaggedValue) (l : list JSTaggedValue) (lo hi : Z) : Prop :=
  forall i v, l !! i = Some v -> (Z.of_nat i < lo -> p (c key v) = true) /\ (hi <= Z.of_nat i -> p (c key v) = false).

Lemma between_right key l lo hi m v : monotone key l -> between key l lo hi -> 0 <= m -> l !! Z.to_nat m = Some v ->
  p (c key v) = true -> between key l (m + 1) hi.
Proof.
  intros Hm Hb Hpos Hv Hp i u Hu. split; [|by apply Hb]. intros Hi. apply (Hm i (Z.to_nat m) u v); [lia|done|done|done].
Qed.

Lemma between_left key l lo hi m v : monotone key l -> between key l lo hi -> 0 <= m -> l !! Z.to_nat m = Some v ->
  p (c key v) = false -> between key l lo m.
Proof.
  intros Hm Hb Hpos Hv Hp i u Hu. split; [by apply Hb|]. intros Hi. destruct (p (c key u)) eqn:E; [|done].
  assert (p (c key v) = true); [|congruence]. apply (Hm (Z.to_nat m) i v u); [lia|done|done|done].
Qed.

Lemma between_cut key l k : between key l k k -> cut key l k.
Proof. intros H i v Hv. destruct (H i v Hv) as [H1 H2]. destruct (Z.ltb_spec (Z.of_nat i) k); auto. Qed.

Lemma gallopSearch_ensures a b l key lastOfs ofs : segment a b l -> -1 <= lastOfs < ofs -> ofs <= Z.of_nat (length l) ->
  (agrees -> monotone key l -> between key l (lastOfs + 1) ofs) ->
  ensures (gallopSearch SortCompare a key b p lastOfs ofs) (fun k => 0 <= k <= Z.of_nat (length l) /\
    (agrees -> monotone key l -> cut key l k)).
Proof.
  intros Ha H1 H2 Hb. pose proof (segment_length a b l Ha) as Hlen. unfold gallopSearch.
  apply (ensures_loop (fun '(lo, hi) => 0 <= lo <= hi /\ hi <= Z.of_nat (length l) /\ (agrees -> monotone key l -> between key l lo hi))
    (fun '(lo, hi) => Z.to_nat (hi - lo))); [split_and!; [lia|lia|lia|done]|lia|].
  intros [lo hi] (Hlo & Hhi & Hbt). destruct (Z.ltb_spec lo hi) as [Hlt|Hge].
  - set (m := lo + Z.shiftr (hi - lo) 1). assert (lo <= m < hi) as Hm.
    { unfold m. rewrite Z.shiftr_div_pow2 by lia. change (2 ^ 1) with 2. pose proof (Z.div_mod (hi - lo) 2 ltac:(lia)).
      pose proof (Z.mod_pos_bound (hi - lo) 2 ltac:(lia)). lia. }
    destruct (segment_at a b l m Ha) as (v & Hv & E); [lia|]. eapply ensures_lift_bind; [exact E|].
    apply ensures_compare. intros o Ho. destruct (p o) eqn:Ep; apply ensures_ret.
    + split_and!; [lia|lia|lia| |lia]. intros Hag Hmo. specialize (Hbt Hag Hmo). rewrite (Ho Hag) in Ep.
      by apply (between_right key l lo hi m v); [done|done|lia|done|].
    + split_and!; [lia|lia|lia| |lia]. intros Hag Hmo. specialize (Hbt Hag Hmo). rewrite (Ho Hag) in Ep.
      by apply (between_left key l lo hi m v); [done|done|lia|done|].
  - apply ensures_ret. assert (lo = hi) as -> by lia. split; [lia|]. intros Hag Hmo. by apply between_cut, Hbt.
Qed.

(** The doubling offset, with the wrap around of [int]. *)
Lemma next_offset ofs maxOfs : 1 <= ofs < maxOfs -> maxOfs < 2 ^ 31 ->
  let o := i32 (Z.shiftl ofs 1 + 1) in
  let ofs' := if o <=? 0 then maxOfs else o in
  ofs < ofs' < 2 ^ 31 /\ (ofs' < maxOfs -> ofs' = 2 * ofs + 1).
Proof.
  intros Ho Hm. cbv zeta. rewrite Z.shiftl_mul_pow2 by lia. change (2 ^ 1) with 2. unfold i32.
  rewrite Z.mod_small by lia. cbv zeta. destruct (Z.ltb_spec (ofs * 2 + 1) (2 ^ 31)).
  - destruct (Z.leb_spec (ofs * 2 + 1) 0); lia.
  - destruct (Z.leb_spec (ofs * 2 + 1 - 2 ^ 32) 0); lia.
Qed.

Lemma gallop_ensures elementAt (f : Z -> JSTaggedValue) key goesOn maxOfs : 1 <= maxOfs < 2 ^ 31 ->
  (forall i, 1 <= i < maxOfs -> elementAt i = Ok (f i)) ->
  ensures (gallop SortCompare elementAt key goesOn maxOfs) (fun '(lastOfs, ofs) =>
    0 <= lastOfs < ofs /\ ofs <= maxOfs /\
    (agrees -> (lastOfs = 0 \/ goesOn (c key (f lastOfs)) = true) /\ (ofs = maxOfs \/ goesOn (c key (f ofs)) = false))).
Proof.
  intros Hmax Hat. unfold gallop.
  eapply (ensures_bind _ (fun '(lastOfs, ofs) => 0 <= lastOfs < ofs /\ lastOfs < maxOfs /\
    (agrees -> (lastOfs = 0 \/ goesOn (c key (f lastOfs)) = true) /\ (maxOfs <= ofs \/ goesOn (c key (f ofs)) = false)))).
  - apply (ensures_loop (fun '(lastOfs, ofs) => 0 <= lastOfs < ofs /\ lastOfs < maxOfs /\ ofs < 2 ^ 31 /\
      (agrees -> lastOfs = 0 \/ goesOn (c key (f lastOfs)) = true))
      (fun '(lastOfs, ofs) => if ofs <? maxOfs then Z.to_nat (32 - Z.log2 (ofs + 1)) else 0%nat)).
    + split_and!; [lia|lia|lia|lia|by left].
    + change (Z.to_nat (32 - Z.log2 (1 + 1))) with 31%nat. destruct (1 <? maxOfs); lia.
    + intros [lastOfs ofs] (H1 & H2 & H3 & Hl). destruct (Z.ltb_spec ofs maxOfs) as [Hlt|Hge].
      * eapply ensures_lift_bind; [apply Hat; lia|]. apply ensures_compare. intros o Ho.
        destruct (goesOn o) eqn:Eg; cbn [negb]; apply ensures_ret.
        -- assert (1 <= ofs < maxOfs) as Hr by lia. assert (maxOfs < 2 ^ 31) as Hm by lia.
           pose proof (next_offset ofs maxOfs Hr Hm) as [Hn Hd]. cbv zeta in Hn, Hd.
           set (ofs' := if i32 (Z.shiftl ofs 1 + 1) <=? 0 then maxOfs else i32 (Z.shiftl ofs 1 + 1)) in *.
           split_and!; [lia|lia|lia|lia| |].
           ++ intros Hag. right. by rewrite <- (Ho Hag).
           ++ assert (Z.log2 (ofs + 1) < 31) as Hlog by (apply Z.log2_lt_pow2; lia). pose proof (Z.log2_nonneg (ofs + 1)).
              destruct (Z.ltb_spec ofs' maxOfs) as [Hlt'|]; [|lia]. rewrite (Hd Hlt').
              replace (2 * ofs + 1 + 1) with (2 * (ofs + 1)) by lia. rewrite Z.log2_double by lia. lia.
        -- split_and!; [lia|lia|lia|]. intros Hag. split; [auto|]. right. by rewrite <- (Ho Hag).
      * apply ensures_ret. split_and!; [lia|lia|lia|]. intros Hag. split; [auto|]. left. lia.
  - intros [lastOfs ofs] (H1 & H2 & Hl). apply ensures_ret. destruct (Z.ltb_spec maxOfs ofs).
    + split_and!; [lia|lia|lia|]. intros Hag. destruct (Hl Hag). split; [done|by left].
    + split_and!; [lia|lia|lia|]. intros Hag. destruct (Hl Hag) as [Hl1 [Hl2|Hl2]]; split; try done; [left; lia|by right].
Qed.

(** The element of [l] at a signed position, for the specifications. *)
Definition nth_ (l : list JSTaggedValue) (i : Z) : JSTaggedValue := default Undefined (l !! Z.to_nat i).

Lemma segment_nth a b l i : segment a b l -> 0 <= i < Z.of_nat (length l) ->
  at_ a (b + i) = Ok (nth_ l i) /\ l !! Z.to_nat i = Some (nth_ l i).
Proof. intros Ha Hi. destruct (segment_at a b l i Ha Hi) as (v & Hv & E). unfold nth_. by rewrite Hv. Qed.

Lemma between_all key l : between key l 0 (Z.of_nat (length l)).
Proof. intros i v Hv. apply lookup_lt_Some in Hv. lia. Qed.

(** The two directions of a gallop from [hint]. *)
Lemma gallop_ahead a b l key hint : segment a b l -> 0 <= hint < Z.of_nat (length l) -> Z.of_nat (length l) < 2 ^ 31 ->
  (agrees -> p (c key (nth_ l hint)) = true) ->
  ensures (gallop SortCompare (fun ofs => at_ a (b + hint + ofs)) key p (Z.of_nat (length l) - hint)) (fun '(lastOfs, ofs) =>
    -1 <= lastOfs + hint < ofs + hint /\ ofs + hint <= Z.of_nat (length l) /\
    (agrees -> monotone key l -> between key l (lastOfs + hint + 1) (ofs + hint))).
Proof.
  intros Ha Hh Hlen Hp.
  eapply ensures_mono; [apply (gallop_ensures _ (fun ofs => nth_ l (hint + ofs)) _ _ (Z.of_nat (length l) - hint)); [lia|]|].
  { intros i Hi. destruct (segment_nth a b l (hint + i) Ha) as [E _]; [lia|]. rewrite <- E. f_equal. lia. }
  intros [lastOfs ofs] (H1 & H2 & H3). split_and!; [lia|lia|lia|]. intros Hag Hmo. destruct (H3 Hag) as [Hl Ho].
  assert (between key l (lastOfs + hint + 1) (Z.of_nat (length l))) as Hb.
  { destruct (segment_nth a b l (hint + lastOfs) Ha) as [_ Hv]; [lia|].
    rewrite (Z.add_comm lastOfs hint). eapply (between_right key l 0); [done|apply between_all|lia|exact Hv|].
    destruct Hl as [->|Hl]; [rewrite Z.add_0_r; by apply Hp|done]. }
  destruct Ho as [->|Ho]; [by replace (Z.of_nat (length l) - hint + hint) with (Z.of_nat (length l)) by lia|].
  destruct (Z.eqb_spec (ofs + hint) (Z.of_nat (length l))) as [->|]; [done|].
  destruct (segment_nth a b l (hint + ofs) Ha) as [_ Hv]; [lia|]. rewrite (Z.add_comm ofs hint).
  by apply (between_left key l _ _ (hint + ofs) _ Hmo Hb ltac:(lia) Hv).
Qed.

Lemma gallop_back a b l key hint goesOn : segment a b l -> 0 <= hint < Z.of_nat (length l) -> Z.of_nat (length l) < 2 ^ 31 ->
  (forall o, goesOn o = negb (p o)) -> (agrees -> p (c key (nth_ l hint)) = false) ->
  ensures (gallop SortCompare (fun ofs => at_ a (b + hint - ofs)) key goesOn (hint + 1)) (fun '(lastOfs, ofs) =>
    -1 <= hint - ofs < hint - lastOfs /\ hint - lastOfs <= Z.of_nat (length l) /\
    (agrees -> monotone key l -> between key l (hint - ofs + 1) (hint - lastOfs))).
Proof.
  intros Ha Hh Hlen Hg Hp.
  eapply ensures_mono; [apply (gallop_ensures _ (fun ofs => nth_ l (hint - ofs)) _ _ (hint + 1)); [lia|]|].
  { intros i Hi. destruct (segment_nth a b l (hint - i) Ha) as [E _]; [lia|]. rewrite <- E. f_equal. lia. }
  intros [lastOfs ofs] (H1 & H2 & H3). split_and!; [lia|lia|lia|]. intros Hag Hmo. destruct (H3 Hag) as [Hl Ho].
  rewrite !Hg in *.
  assert (between key l 0 (hint - lastOfs)) as Hb.
  { destruct (segment_nth a b l (hint - lastOfs) Ha) as [_ Hv]; [lia|].
    eapply (between_left key l 0 (Z.of_nat (length l))); [done|apply between_all|lia|exact Hv|].
    destruct Hl as [->|Hl]; [rewrite Z.sub_0_r; by apply Hp|by apply negb_true_iff]. }
  destruct Ho as [->|Ho]; [by replace (hint - (hint + 1) + 1) with 0 by lia|].
  destruct (Z.eqb_spec ofs (hint + 1)) as [->|]; [by replace (hint - (hint + 1) + 1) with 0 by lia|].
  destruct (segment_nth a b l (hint - ofs) Ha) as [_ Hv]; [lia|].
  apply (between_right key l _ _ (hint - ofs) _ Hmo Hb ltac:(lia) Hv). by apply negb_false_iff.
Qed.
End Search.

Section Gallops.
  Context {W : Type} `{!StateInv W}.
  Variable SortCompare : W -> JSTaggedValue -> JSTaggedValue -> comparison * W.
  Context `{!Preserves SortCompare}.
  Variable c : JSTaggedValue -> JSTaggedValue -> comparison.
  Notation agrees := (agrees SortCompare c).

Definition notNegative (o : comparison) : bool := negb (negative o).

Lemma sorted_monotone_left key l : preorder c -> sorted c l -> monotone c positive key l.
Proof.
  intros Hc Hs i j u v Hij Hu Hv Hp. pose proof (sorted_lookup c Hc l i j u v Hs Hij Hu Hv) as Hle.
  assert (less c v key) as Hlt by (unfold less; rewrite (opposite c Hc key v); by destruct (c key v)).
  pose proof (leq_less_trans c Hc u v key Hle Hlt) as H. rewrite (opposite c Hc u key). by rewrite H.
Qed.

Lemma sorted_monotone_right key l : preorder c -> sorted c l -> monotone c notNegative key l.
Proof.
  intros Hc Hs i j u v Hij Hu Hv Hp. pose proof (sorted_lookup c Hc l i j u v Hs Hij Hu Hv) as Hle.
  assert (leq c v key) as Hlk by (apply (not_less c Hc); unfold less, notNegative in *; by destruct (c key v)).
  pose proof (leq_trans c Hc u v key Hle Hlk) as H. apply (not_less c Hc) in H. unfold notNegative, less in *.
  by destruct (c key u).
Qed.

Lemma GallopLeft_ensures a b l key hint : segment a b l -> 0 <= hint < Z.of_nat (length l) -> Z.of_nat (length l) < 2 ^ 31 ->
  ensures (GallopLeft SortCompare a key b (Z.of_nat (length l)) hint) (fun k => 0 <= k <= Z.of_nat (length l) /\
    (agrees -> sorted c l -> cut c positive key l k)).
Proof.
  intros Ha Hh Hlen. unfold GallopLeft. destruct (segment_nth a b l hint Ha Hh) as [E _].
  eapply ensures_lift_bind; [exact E|]. apply (ensures_compare _ c). intros o Ho.
  eapply (ensures_bind _ (fun '(lastOfs, ofs) => -1 <= lastOfs < ofs /\ ofs <= Z.of_nat (length l) /\
    (agrees -> monotone c positive key l -> between c positive key l (lastOfs + 1) ofs))).
  - destruct (positive o) eqn:Ep.
    + eapply ensures_bind; [apply (gallop_ahead _ c positive a b l); [done..|]; intros Hag; by rewrite <- (Ho Hag)|].
      intros [lastOfs ofs] H. by apply ensures_ret.
    + eapply ensures_bind; [apply (gallop_back _ c positive a b l); [done..|]; intros Hag; by rewrite <- (Ho Hag)|].
      intros [lastOfs ofs] H. by apply ensures_ret.
  - intros [lastOfs ofs] (H1 & H2 & H3). eapply ensures_mono; [by apply (gallopSearch_ensures _ c positive a b l)|].
    intros k [Hk Hcut]. split; [done|]. intros Hag Hs. apply Hcut; [done|]. by apply sorted_monotone_left; [destruct Hag|].
Qed.

Lemma GallopRight_ensures a b l key hint : segment a b l -> 0 <= hint < Z.of_nat (length l) -> Z.of_nat (length l) < 2 ^ 31 ->
  ensures (GallopRight SortCompare a key b (Z.of_nat (length l)) hint) (fun k => 0 <= k <= Z.of_nat (length l) /\
    (agrees -> sorted c l -> cut c notNegative key l k)).
Proof.
  intros Ha Hh Hlen. unfold GallopRight. destruct (segment_nth a b l hint Ha Hh) as [E _].
  eapply ensures_lift_bind; [exact E|]. apply (ensures_compare _ c). intros o Ho.
  eapply (ensures_bind _ (fun '(lastOfs, ofs) => -1 <= lastOfs < ofs /\ ofs <= Z.of_nat (length l) /\
    (agrees -> monotone c notNegative key l -> between c notNegative key l (lastOfs + 1) ofs))).
  - destruct (negative o) eqn:Ep.
    + eapply ensures_bind.
      { apply (gallop_back _ c notNegative a b l); [done..| |].
        - intros o'. unfold notNegative. by rewrite negb_involutive.
        - intros Hag. unfold notNegative. by rewrite <- (Ho Hag), Ep. }
      intros [lastOfs ofs] H. by apply ensures_ret.
    + eapply ensures_bind.
      { apply (gallop_ahead _ c notNegative a b l); [done..|]. intros Hag. unfold notNegative. by rewrite <- (Ho Hag), Ep. }
      intros [lastOfs ofs] H. by apply ensures_ret.
  - intros [lastOfs ofs] (H1 & H2 & H3). eapply ensures_mono; [by apply (gallopSearch_ensures _ c notNegative a b l)|].
    intros k [Hk Hcut]. split; [done|]. intros Hag Hs. apply Hcut; [done|]. by apply sorted_monotone_right; [destruct Hag|].
Qed.

(** The insertion point of a binary insertion. *)
Lemma binarySearch_ensures a b l pivot : segment a b l -> Z.of_nat (length a) < 2 ^ 30 ->
  ensures (binarySearch SortCompare a pivot b (b + Z.of_nat (length l))) (fun k => b <= k <= b + Z.of_nat (length l) /\
    (agrees -> sorted c l -> cut c notNegative pivot l (k - b))).
Proof.
  intros Ha Hsmall. pose proof (segment_length a b l Ha) as Hlen. unfold binarySearch.
  apply (ensures_loop (fun '(lo, hi) => b <= lo <= hi /\ hi <= b + Z.of_nat (length l) /\
    (agrees -> sorted c l -> between c notNegative pivot l (lo - b) (hi - b))) (fun '(lo, hi) => Z.to_nat (hi - lo))).
  - split_and!; [lia|lia|lia|]. intros _ _. replace (b - b) with 0 by lia.
    replace (b + Z.of_nat (length l) - b) with (Z.of_nat (length l)) by lia. apply between_all.
  - lia.
  - intros [lo hi] (Hlo & Hhi & Hbt). destruct (Z.ltb_spec lo hi) as [Hlt|Hge].
    + set (m := Z.shiftr (i32 (lo + hi)) 1). assert (lo <= m < hi) as Hm.
      { unfold m, i32. rewrite Z.mod_small by lia. cbv zeta. destruct (Z.ltb_spec (lo + hi) (2 ^ 31)); [|lia].
        rewrite Z.shiftr_div_pow2 by lia. change (2 ^ 1) with 2. pose proof (Z.div_mod (lo + hi) 2 ltac:(lia)).
        pose proof (Z.mod_pos_bound (lo + hi) 2 ltac:(lia)). lia. }
      destruct (segment_at a b l (m - b) Ha) as (v & Hv & E); [lia|]. replace (b + (m - b)) with m in E by lia.
      eapply ensures_lift_bind; [exact E|]. apply (ensures_compare _ c). intros o Ho.
      destruct (negative o) eqn:Ep; apply ensures_ret.
      * split_and!; [lia|lia|lia| |lia]. intros Hag Hs. specialize (Hbt Hag Hs). rewrite (Ho Hag) in Ep.
        apply (between_left c notNegative pivot l (lo - b) (hi - b) (m - b) v); [by apply sorted_monotone_right; [destruct Hag|]|done|lia|done|].
        unfold notNegative. by rewrite Ep.
      * split_and!; [lia|lia|lia| |lia]. intros Hag Hs. specialize (Hbt Hag Hs). rewrite (Ho Hag) in Ep.
        replace (m + 1 - b) with (m - b + 1) by lia.
        apply (between_right c notNegative pivot l (lo - b) (hi - b) (m - b) v); [by apply sorted_monotone_right; [destruct Hag|]|done|lia|done|].
        unfold notNegative. by rewrite Ep.
    + apply ensures_ret. assert (lo = hi) as -> by lia. split; [lia|]. intros Hag Hs. by apply between_cut, Hbt.
Qed.
End Gallops.
