(* ===== verification/TimSortRuns.v ===== *)
(** * TimSort: copying, runs and binary insertion

    Copying blocks within an array and between arrays, reversing a range, finding a run and
    extending it by binary insertion.  Arrays are taken apart as concatenations. *)

From Stdlib Require Import ZArith Lia Permutation.
From S2P Require Import Prelude BigIntBase Double Values SortSpec TimSort TimSortSearch.

(** Equality of two concatenations. *)
Ltac app_eq := cbn [app]; repeat (progress rewrite <- ?app_assoc; cbn [app]); reflexivity.

(** ** Copying blocks *)

(** The gap below a block moves behind it. *)
Lemma moveDown (X G B Y : list JSTaggedValue) src dst k :
  src + Z.of_nat k = Z.of_nat (length X + length G) -> dst + Z.of_nat k = Z.of_nat (length X) ->
  exists G', length G' = length G /\
    for_up (length B) k (fun i a => v ← at_ a (src + Z.of_nat i); put a (dst + Z.of_nat i) v) (X ++ G ++ B ++ Y)
    = Ok (X ++ B ++ G' ++ Y).
Proof.
  revert X G k. induction B as [|b B IH]; intros X G k Hs Hd; [by exists G|]. cbn [length for_up].
  destruct G as [|g G].
  - cbn [app]. rewrite at_middle by (cbn in *; lia). rewrite bind_Ok, put_middle by lia. rewrite bind_Ok.
    destruct (IH (X ++ [b]) [] (S k)) as (G' & HG & E); [rewrite length_app; cbn in *; lia..|].
    exists G'. split; [done|]. rewrite <- !app_assoc in E. exact E.
  - assert (X ++ (g :: G) ++ (b :: B) ++ Y = (X ++ g :: G) ++ b :: B ++ Y) as -> by app_eq.
    rewrite at_middle by (rewrite length_app; cbn in *; lia). rewrite bind_Ok, <- app_assoc. cbn [app].
    rewrite put_middle by lia. rewrite bind_Ok.
    destruct (IH (X ++ [b]) (G ++ [b]) (S k)) as (G' & HG & E); [rewrite !length_app; cbn in *; lia..|].
    exists G'. split; [rewrite HG, length_app; cbn; lia|]. rewrite <- !app_assoc in E. exact E.
Qed.

(** The gap above a block moves below it. *)
Lemma moveUp (X A G Y : list JSTaggedValue) src dst :
  src = Z.of_nat (length X) -> dst = Z.of_nat (length X + length G) ->
  exists G', length G' = length G /\
    for_down (length A) (fun i a => v ← at_ a (src + Z.of_nat i); put a (dst + Z.of_nat i) v) (X ++ A ++ G ++ Y)
    = Ok (X ++ G' ++ A ++ Y).
Proof.
  intros Hs Hd. revert G Y Hd. induction A as [|a A IH] using rev_ind; intros G Y Hd; [by exists G|].
  rewrite length_app, Nat.add_1_r. cbn [for_down].
  assert (X ++ (A ++ [a]) ++ G ++ Y = (X ++ A) ++ a :: G ++ Y) as -> by app_eq.
  rewrite at_middle by (rewrite length_app; lia). rewrite bind_Ok.
  destruct G as [|g G _] using rev_ind.
  - rewrite app_nil_l, put_middle by (rewrite length_app; cbn in *; lia). rewrite bind_Ok.
    destruct (IH [] (a :: Y)) as (G' & HG & E); [done|]. exists G'. split; [done|]. rewrite <- !app_assoc. exact E.
  - assert ((X ++ A) ++ a :: (G ++ [g]) ++ Y = (X ++ A ++ a :: G) ++ g :: Y) as -> by app_eq.
    rewrite put_middle by (rewrite !length_app in *; cbn in *; lia). rewrite bind_Ok.
    destruct (IH (a :: G) (a :: Y)) as (G' & HG & E); [rewrite !length_app in *; cbn in *; lia|].
    exists G'. split; [rewrite HG, length_app; cbn; lia|]. rewrite <- ?app_assoc. cbn [app] in *. exact E.
Qed.

Lemma CopyArrayWithin_down (X G B Y : list JSTaggedValue) src dst n :
  src = Z.of_nat (length X + length G) -> dst = Z.of_nat (length X) -> n = Z.of_nat (length B) ->
  exists G', length G' = length G /\ CopyArrayWithin (X ++ G ++ B ++ Y) src dst n = Ok (X ++ B ++ G' ++ Y).
Proof.
  intros -> -> ->. unfold CopyArrayWithin. destruct (Z.ltb_spec (Z.of_nat (length X + length G)) (Z.of_nat (length X))); [lia|].
  rewrite Nat2Z.id. apply moveDown; lia.
Qed.

Lemma CopyArrayWithin_up (X A G Y : list JSTaggedValue) src dst n :
  src = Z.of_nat (length X) -> dst = Z.of_nat (length X + length G) -> n = Z.of_nat (length A) ->
  exists G', length G' = length G /\ CopyArrayWithin (X ++ A ++ G ++ Y) src dst n = Ok (X ++ G' ++ A ++ Y).
Proof.
  intros -> -> ->. unfold CopyArrayWithin. rewrite Nat2Z.id.
  destruct (Z.ltb_spec (Z.of_nat (length X)) (Z.of_nat (length X + length G))); [by apply moveUp|].
  destruct G; [|cbn in *; lia]. destruct (moveDown X [] A Y (Z.of_nat (length X)) (Z.of_nat (length X)) 0) as (G' & HG & E);
    [cbn; lia..|]. destruct G'; [|done]. exists []. split; [done|].
  cbn [length]. rewrite (Nat.add_0_r (length X)). exact E.
Qed.

Lemma copyAcross_up (S1 B S2 X G Y : list JSTaggedValue) src dst k :
  src + Z.of_nat k = Z.of_nat (length S1) -> dst + Z.of_nat k = Z.of_nat (length X) -> length G = length B ->
  for_up (length B) k (fun i a => v ← at_ (S1 ++ B ++ S2) (src + Z.of_nat i); put a (dst + Z.of_nat i) v) (X ++ G ++ Y)
  = Ok (X ++ B ++ Y).
Proof.
  revert S1 X G k. induction B as [|b B IH]; intros S1 X G k Hs Hd HG; [by destruct G|].
  destruct G as [|g G]; [done|]. cbn [length for_up app]. rewrite at_middle by lia. rewrite bind_Ok, put_middle by lia.
  rewrite bind_Ok. specialize (IH (S1 ++ [b]) (X ++ [b]) G (S k)). rewrite <- !app_assoc in IH. cbn [app] in IH.
  apply IH; [rewrite length_app; cbn in *; lia..|]. cbn in HG. lia.
Qed.

Lemma copyAcross_down (S1 B S2 X G Y : list JSTaggedValue) src dst :
  src = Z.of_nat (length S1) -> dst = Z.of_nat (length X) -> length G = length B ->
  for_down (length B) (fun i a => v ← at_ (S1 ++ B ++ S2) (src + Z.of_nat i); put a (dst + Z.of_nat i) v) (X ++ G ++ Y)
  = Ok (X ++ B ++ Y).
Proof.
  intros Hs Hd. revert S2 G Y. induction B as [|b B IH] using rev_ind; intros S2 G Y HG; [by destruct G|].
  destruct G as [|g G _] using rev_ind; [rewrite length_app in HG; cbn in HG; lia|]. rewrite !length_app in HG. cbn in HG.
  rewrite length_app, Nat.add_1_r. cbn [for_down].
  assert (at_ (S1 ++ (B ++ [b]) ++ S2) (src + Z.of_nat (length B)) = Ok b) as ->.
  { rewrite <- app_assoc, app_assoc. apply at_middle. rewrite length_app. lia. }
  rewrite bind_Ok, <- (app_assoc G), (app_assoc X G). cbn [app].
  rewrite put_middle by (rewrite length_app; lia). rewrite bind_Ok. rewrite <- !app_assoc. cbn [app].
  apply (IH (b :: S2) G (b :: Y)). lia.
Qed.

Lemma CopyArrayTo_eq (S1 B S2 X G Y : list JSTaggedValue) src dst n :
  src = Z.of_nat (length S1) -> dst = Z.of_nat (length X) -> n = Z.of_nat (length B) -> length G = length B ->
  CopyArrayTo (S1 ++ B ++ S2) src (X ++ G ++ Y) dst n = Ok (X ++ B ++ Y).
Proof.
  intros -> -> -> HG. unfold CopyArrayTo. rewrite Nat2Z.id. destruct (_ <? _).
  - by apply copyAcross_down.
  - apply copyAcross_up; [lia|lia|done].
Qed.

(** ** Reversing a range *)

Lemma reverseLoop_eq n fuel (X l Y : list JSTaggedValue) : (length l <= n)%nat -> (length l <= fuel)%nat ->
  exists low high, while_loop fuel (fun '(_, low, high) => low <? high) (fun '(array, low, high) =>
    elementLow ← at_ array low;
    elementHigh ← at_ array high;
    array ← put array low elementHigh;
    array ← put array high elementLow;
    Ok (array, low + 1, high - 1)) (X ++ l ++ Y, Z.of_nat (length X), Z.of_nat (length X) + Z.of_nat (length l) - 1)
  = Ok (X ++ reverse l ++ Y, low, high).
Proof.
  revert fuel X l Y. induction n as [|n IH]; intros fuel X l Y Hn Hf.
  - destruct l; [|cbn in Hn; lia]. rewrite reverse_nil. destruct fuel; eexists _, _; cbn [while_loop length];
      (destruct (Z.ltb_spec (Z.of_nat (length X)) (Z.of_nat (length X) + Z.of_nat 0 - 1)); [lia|reflexivity]).
  - destruct l as [|a l]; [apply (IH fuel X [] Y); cbn; lia|]. destruct l as [|b l _] using rev_ind.
    + rewrite reverse_singleton. destruct fuel; eexists _, _; cbn [while_loop length];
        (destruct (Z.ltb_spec (Z.of_nat (length X)) (Z.of_nat (length X) + Z.of_nat 1 - 1)); [lia|reflexivity]).
    + cbn [length] in *. rewrite length_app in *. cbn [length] in *. destruct fuel as [|fuel]; [lia|]. cbn [while_loop].
      destruct (Z.ltb_spec (Z.of_nat (length X)) (Z.of_nat (length X) + Z.of_nat (S (length l + 1)) - 1)); [|lia].
      cbn [app]. rewrite (at_middle X _ a (Z.of_nat (length X))) by reflexivity. rewrite bind_Ok.
      assert (X ++ a :: (l ++ [b]) ++ Y = (X ++ a :: l) ++ b :: Y) as -> by app_eq.
      rewrite at_middle by (rewrite length_app; cbn [length]; lia). rewrite bind_Ok.
      rewrite <- app_assoc. cbn [app]. rewrite put_middle by reflexivity. rewrite bind_Ok.
      assert (X ++ b :: l ++ b :: Y = (X ++ b :: l) ++ b :: Y) as -> by app_eq.
      rewrite put_middle by (rewrite length_app; cbn [length]; lia). rewrite !bind_Ok.
      destruct (IH fuel (X ++ [b]) l (a :: Y)) as (low & high & E); [lia|lia|]. exists low, high.
      rewrite reverse_cons, reverse_app, reverse_singleton.
      assert ((X ++ b :: l) ++ a :: Y = (X ++ [b]) ++ l ++ a :: Y) as -> by app_eq.
      rewrite length_app in E. cbn [length] in E.
      replace (Z.of_nat (length X) + 1) with (Z.of_nat (length X + 1)) by lia.
      replace (Z.of_nat (length X) + Z.of_nat (S (length l + 1)) - 1 - 1)
        with (Z.of_nat (length X + 1) + Z.of_nat (length l) - 1) by lia.
      rewrite E. f_equal. f_equal. f_equal. app_eq.
Qed.

Lemma ReverseRange_eq (X l Y : list JSTaggedValue) from to : from = Z.of_nat (length X) -> to = from + Z.of_nat (length l) ->
  ReverseRange (X ++ l ++ Y) from to = Ok (X ++ reverse l ++ Y).
Proof.
  intros -> ->. unfold ReverseRange. destruct (reverseLoop_eq (length l) (length (X ++ l ++ Y)) X l Y) as (low & high & E);
    [done|rewrite !length_app; lia|]. by rewrite E.
Qed.

(** ** Runs *)

Section Runs.
  Context {W : Type} `{!StateInv W}.
  Variable SortCompare : W -> JSTaggedValue -> JSTaggedValue -> comparison * W.
  Context `{!Preserves SortCompare}.
  Variable c : JSTaggedValue -> JSTaggedValue -> comparison.
  Notation agrees := (agrees SortCompare c).

(** [R] is [L] put in order. *)
Definition ordered (R L : list JSTaggedValue) : Prop :=
  Permutation R L /\ (agrees -> sorted c R /\ stable c R L).

(** The run found so far. *)
Definition ascends (isDescending : bool) (R : list JSTaggedValue) : Prop :=
  agrees -> if isDescending then descending c R else sorted c R.

Lemma ascends_snoc d R x y o : (agrees -> o = c y x) -> ascends d (R ++ [x]) ->
  (if d then negb (negative o) else negative o) = false -> ascends d ((R ++ [x]) ++ [y]).
Proof.
  intros Ho HR E Hag. specialize (HR Hag). rewrite (Ho Hag) in E. destruct Hag as [_ Hc]. destruct d.
  - apply descending_snoc; [done|done|]. unfold less. by destruct (c y x).
  - apply sorted_snoc; [done|done|]. apply not_less; [done|]. unfold less. by destruct (c y x).
Qed.

Lemma countLoop_ensures (P L : list JSTaggedValue) d R0 prev0 S0 :
  L = R0 ++ prev0 :: S0 -> ascends d (R0 ++ [prev0]) -> (0 < length R0)%nat ->
  ensures (loop (length (P ++ L)) (fun '(i, runLength, previousValue) =>
    if i <? Z.of_nat (length (P ++ L)) then
      runHiValue ← lift (at_ (P ++ L) i);
      order ← compare SortCompare runHiValue previousValue;
      if (if d then negb (negative order) else negative order) then mret (inr runLength)
      else mret (inl (i + 1, runLength + 1, runHiValue))
    else mret (inr runLength))
    (Z.of_nat (length P + length R0 + 1), Z.of_nat (length R0) + 1, prev0))
  (fun runLength => exists R S, L = R ++ S /\ runLength = Z.of_nat (length R) /\ (0 < length R)%nat /\ ascends d R).
Proof.
  intros -> HR Hpos.
  apply (ensures_loop (fun '(i, runLength, prev) => exists R S, R0 ++ prev0 :: S0 = R ++ prev :: S /\
    i = Z.of_nat (length P + length R + 1) /\ runLength = Z.of_nat (length R) + 1 /\ ascends d (R ++ [prev]))
    (fun '(i, _, _) => Z.to_nat (Z.of_nat (length (P ++ R0 ++ prev0 :: S0)) - i))).
  - by exists R0, S0.
  - rewrite !length_app. cbn. lia.
  - intros [[i runLength] prev] (R & S & E & -> & -> & Ha). rewrite E.
    destruct (Z.ltb_spec (Z.of_nat (length P + length R + 1)) (Z.of_nat (length (P ++ R ++ prev :: S)))) as [Hlt|Hge].
    + destruct S as [|x S]; [rewrite !length_app in Hlt; cbn in Hlt; lia|].
      eapply ensures_lift_bind.
      { assert (P ++ R ++ prev :: x :: S = (P ++ R ++ [prev]) ++ x :: S) as -> by app_eq.
        apply at_middle. rewrite !length_app. cbn. lia. }
      apply (ensures_compare _ c). intros o Ho. destruct (if d then _ else _) eqn:Ed; apply ensures_ret.
      * exists (R ++ [prev]), (x :: S). split_and?; [app_eq|rewrite length_app; cbn; lia|rewrite length_app; cbn; lia|done].
      * split; [|lia]. exists (R ++ [prev]), S. rewrite length_app. cbn [length].
        split_and?; [app_eq|lia|lia|]. by apply (ascends_snoc d R prev x o).
    + apply ensures_ret. exists (R ++ [prev]), S. split_and?; [app_eq|rewrite length_app; cbn; lia|rewrite length_app; cbn; lia|done].
Qed.

Lemma ascends_two x y o : (agrees -> o = c y x) -> ascends (negative o) ([x] ++ [y]).
Proof.
  intros Ho. apply (ascends_snoc (negative o) [] x y o); [done| |by destruct (negative o)].
  intros _. destruct (negative o); repeat constructor.
Qed.

Lemma ascends_ordered d R : ascends d R -> ordered (if d then reverse R else R) R.
Proof.
  intros HR. destruct d; split; [by rewrite reverse_Permutation| |done|].
  - intros Hag. specialize (HR Hag). destruct Hag as [_ Hc]. by apply reverse_descending.
  - intros Hag. split; [by apply HR|done].
Qed.

(** The first run of [L], in order. *)
Lemma CountRun_ensures (P L : list JSTaggedValue) : (0 < length L)%nat ->
  ensures (CountRunAndMakeAscending SortCompare (P ++ L) (Z.of_nat (length P)) (Z.of_nat (length (P ++ L))))
    (fun '(runLength, array) => exists R0 R S, L = R0 ++ S /\ array = P ++ R ++ S /\ runLength = Z.of_nat (length R) /\
      (0 < length R)%nat /\ ordered R R0).
Proof.
  intros HL. unfold CountRunAndMakeAscending. destruct L as [|x L]; [cbn in HL; lia|].
  destruct (Z.eqb_spec (Z.of_nat (length P) + 1) (Z.of_nat (length (P ++ x :: L)))) as [E|E].
  - destruct L; [|rewrite length_app in E; cbn in E; lia]. apply ensures_ret. exists [x], [x], [].
    split_and?; [done|done|done|cbn; lia|]. apply (ascends_ordered false). intros _. repeat constructor.
  - destruct L as [|y L]; [rewrite length_app in E; cbn in E; lia|].
    eapply (ensures_lift_bind _ y).
    { assert (P ++ x :: y :: L = (P ++ [x]) ++ y :: L) as -> by app_eq. apply at_middle. rewrite length_app. cbn. lia. }
    eapply (ensures_lift_bind _ x); [apply at_middle; lia|]. apply (ensures_compare _ c). intros o Ho. cbv zeta.
    eapply ensures_bind.
    { replace (Z.of_nat (length P) + 1 + 1) with (Z.of_nat (length P + length [x] + 1)) by (cbn; lia).
      apply (countLoop_ensures P (x :: y :: L) (negative o) [x] y L); [done|by apply ascends_two|cbn; lia]. }
    intros n (R & S & -> & -> & Hpos & HR). pose proof (ascends_ordered _ _ HR) as Hord. destruct (negative o).
    + eapply ensures_lift_bind; [by apply ReverseRange_eq|]. apply ensures_ret. exists R, (reverse R), S.
      rewrite length_reverse. split_and?; done.
    + eapply ensures_lift_bind; [done|]. apply ensures_ret. exists R, R, S. split_and?; done.
Qed.

(** ** Binary insertion *)

Lemma shiftBlock_eq (X A Y : list JSTaggedValue) x left start : left = Z.of_nat (length X) ->
  start = Z.of_nat (length X + length A) -> exists g, shiftBlock (X ++ A ++ x :: Y) left start = Ok (X ++ g :: A ++ Y).
Proof.
  intros -> ->. unfold shiftBlock. replace (Z.to_nat _) with (length A) by lia.
  destruct (moveUp X A [x] Y (Z.of_nat (length X)) (Z.of_nat (length X + length [x])) eq_refl eq_refl) as (G' & HG & E).
  destruct G' as [|g [|]]; [done| |done]. exists g. cbn [app] in E. rewrite <- E. clear.
  generalize (X ++ A ++ x :: Y) as s. induction (length A) as [|n IH]; intros s; [done|]. cbn [for_down length].
  replace (Z.of_nat (length X) + Z.of_nat n + 1 - 1) with (Z.of_nat (length X) + Z.of_nat n) by lia.
  replace (Z.of_nat (length X) + Z.of_nat n + 1) with (Z.of_nat (length X + 1) + Z.of_nat n) by lia.
  destruct (at_ s _); [|done]. rewrite !bind_Ok. destruct (put s _ _); [|done]. rewrite !bind_Ok. apply IH.
Qed.

(** A cut takes the list apart. *)
Lemma cut_split p key l k : 0 <= k <= Z.of_nat (length l) ->
  exists l1 l2, l = l1 ++ l2 /\ k = Z.of_nat (length l1) /\
    (cut c p key l k -> Forall (fun v => p (c key v) = true) l1 /\ Forall (fun v => p (c key v) = false) l2).
Proof.
  intros Hk. exists (take (Z.to_nat k) l), (drop (Z.to_nat k) l). rewrite take_drop, length_take.
  split_and?; [done|lia|]. intros Hcut. split; apply Forall_lookup; intros i v Hv.
  - apply lookup_take_Some in Hv as [Hv Hi]. rewrite (Hcut i v Hv). apply Z.ltb_lt. lia.
  - rewrite lookup_drop in Hv. rewrite (Hcut _ v Hv). apply Z.ltb_ge. lia.
Qed.

Lemma ordered_insert L1 X l1 l2 x R : L1 = l1 ++ l2 -> ordered L1 R ->
  (agrees -> sorted c L1 -> Forall (fun v => notNegative (c x v) = true) l1 /\ Forall (fun v => notNegative (c x v) = false) l2) ->
  X = R ++ [x] -> ordered (l1 ++ x :: l2) X.
Proof.
  intros -> [HP HS] Hcut ->. split.
  - rewrite <- Permutation_middle, <- Permutation_cons_append. by constructor.
  - intros Hag. destruct (HS Hag) as [Hs Ht]. destruct (Hcut Hag Hs) as [Hl Hr]. destruct Hag as [_ Hc].
    destruct (insert_sorted c Hc l1 l2 x Hs) as [H1 H2].
    + eapply Forall_impl; [exact Hl|]. cbn. intros v Hv. apply not_less; [done|]. unfold less, notNegative in *. by destruct (c x v).
    + eapply Forall_impl; [exact Hr|]. cbn. intros v Hv. unfold less, notNegative in *. by destruct (c x v).
    + split; [done|]. eapply stable_trans; [exact H2|]. by apply stable_app.
Qed.

(** The [X] are inserted in the run [L]. *)
Lemma BinarySort_ensures (P L0 L X S : list JSTaggedValue) : (0 < length L)%nat -> ordered L L0 ->
  Z.of_nat (length (P ++ L ++ X ++ S)) < 2 ^ 30 ->
  ensures (BinarySort SortCompare (P ++ L ++ X ++ S) (Z.of_nat (length P)) (Z.of_nat (length P + length L + length X))
    (Z.of_nat (length P + length L)))
    (fun array => exists R, array = P ++ R ++ S /\ length R = (length L + length X)%nat /\ ordered R (L0 ++ X)).
Proof.
  intros Hpos HL Hsmall. unfold BinarySort.
  destruct (Z.eqb_spec (Z.of_nat (length P + length L)) (Z.of_nat (length P))) as [|_]; [lia|].
  apply (ensures_loop (fun '(array, start) => exists L1 X0 X1, array = P ++ L1 ++ X1 ++ S /\ X = X0 ++ X1 /\
    start = Z.of_nat (length P + length L1) /\ length L1 = (length L + length X0)%nat /\ ordered L1 (L0 ++ X0))
    (fun '(_, start) => Z.to_nat (Z.of_nat (length P + length L + length X) - start))).
  - exists L, [], X. rewrite app_nil_r. split_and?; try done; cbn; lia.
  - rewrite !length_app. lia.
  - intros [array start] (L1 & X0 & X1 & -> & -> & -> & Hlen & HL1). rewrite length_app.
    destruct (Z.ltb_spec (Z.of_nat (length P + length L1)) (Z.of_nat (length P + length L + (length X0 + length X1)))) as [Hlt|Hge].
    + destruct X1 as [|x X1]; [cbn in Hlt; lia|]. cbn [app].
      eapply (ensures_lift_bind _ x); [rewrite app_assoc; apply at_middle; rewrite length_app; lia|].
      eapply ensures_bind.
      { replace (Z.of_nat (length P + length L1)) with (Z.of_nat (length P) + Z.of_nat (length L1)) by lia.
        apply (binarySearch_ensures SortCompare c _ _ L1); [by exists P, (x :: X1 ++ S)|].
        rewrite !length_app in *. cbn [length] in *. rewrite !length_app in *. lia. }
      cbv beta. intros k [Hk Hcut].
      destruct (cut_split notNegative x L1 (k - Z.of_nat (length P))) as (l1 & l2 & -> & Ek & Hsplit); [lia|].
      destruct (shiftBlock_eq (P ++ l1) l2 (X1 ++ S) x k (Z.of_nat (length P + length (l1 ++ l2)))) as [g Eg];
        [rewrite length_app; lia|rewrite !length_app; lia|].
      rewrite <- !app_assoc in *. eapply ensures_lift_bind; [exact Eg|].
      eapply ensures_lift_bind; [rewrite app_assoc; apply put_middle; rewrite length_app; lia|].
      apply ensures_ret. split; [|lia]. exists (l1 ++ x :: l2), (X0 ++ [x]), X1.
      rewrite !length_app in *. cbn [length]. split_and?; [app_eq|app_eq|lia|lia|].
      apply (ordered_insert (l1 ++ l2) _ l1 l2 x (L0 ++ X0)); auto; app_eq.
    + destruct X1; [|cbn in Hge; lia]. apply ensures_ret. exists L1. rewrite app_nil_r, Nat.add_0_r. split_and?; done.
Qed.
End Runs.
