(* ===== verification/TimSortMerge.v ===== *)
(** * TimSort: merging two runs

    [MergeLo] and [MergeHi] on two neighbouring runs.  In the array [P ++ A ++ B ++ S] they leave
    [P ++ R ++ S] with [R] a permutation of [A ++ B], whatever the comparison answers; if it is a
    total preorder and the runs are sorted and overlap, [R] is their stable merge. *)

From Stdlib Require Import ZArith Lia Permutation.
From S2P Require Import Prelude BigIntBase Double Values SortSpec TimSort TimSortSearch TimSortRuns.

(** The temporary array has room for the shorter run. *)
Lemma GetTempArray_room t n : exists T1 T2, GetTempArray t (Z.of_nat n) = T1 ++ T2 /\ length T1 = n.
Proof.
  set (t' := GetTempArray t (Z.of_nat n)). exists (take n t'), (drop n t'). rewrite take_drop. split; [done|].
  rewrite length_take. enough (n <= length t')%nat by lia. unfold t', GetTempArray. destruct (Z.leb_spec (Z.max (Z.of_nat n) 32) (Z.of_nat (length t))).
  - lia.
  - rewrite length_replicate. lia.
Qed.

Section Merge.
  Context {W : Type} `{!StateInv W}.
  Variable SortCompare : W -> JSTaggedValue -> JSTaggedValue -> comparison * W.
  Context `{!Preserves SortCompare}.
  Variable c : JSTaggedValue -> JSTaggedValue -> comparison.
  Notation agrees := (agrees SortCompare c).

  Variables P A B S : list JSTaggedValue.
  Hypothesis Hsize : Z.of_nat (length A + length B) < 2 ^ 31.

(** The first of [B] belongs in front of [A], the last of [A] behind [B]. *)
Definition headLess (A B : list JSTaggedValue) : Prop := forall y B1, B = y :: B1 -> Forall (less c y) A.
Definition tailGreater (A B : list JSTaggedValue) : Prop := forall A1 x, A = A1 ++ [x] -> Forall (fun y => less c y x) B.

Definition mergeable : Prop := agrees /\ sorted c A /\ sorted c B /\ headLess A B /\ tailGreater A B.

(** ** Merging from below *)

(** [M0] is merged, [A'] and [B'] are to be merged. *)
Definition loView (M0 A' B' : list JSTaggedValue) (s : Merge) : Prop :=
  exists G T1 T2, work s = P ++ M0 ++ G ++ B' ++ S /\ length G = length A' /\ tmp s = T1 ++ A' ++ T2 /\
    cursor1 s = Z.of_nat (length T1) /\ dest s = Z.of_nat (length P + length M0) /\
    cursor2 s = Z.of_nat (length P + length M0 + length A') /\
    len1 s = Z.of_nat (length A') /\ len2 s = Z.of_nat (length B').

Record loGood (M0 A' B' : list JSTaggedValue) : Prop := {
  lo_perm : Permutation (M0 ++ A' ++ B') (A ++ B);
  lo_merge : mergeable -> sorted c A' /\ sorted c B' /\ tailGreater A' B' /\ M0 ++ merge c A' B' = merge c A B
}.

Lemma loGood_size M0 A' B' : loGood M0 A' B' -> Z.of_nat (length A' + length B') < 2 ^ 31.
Proof. intros [HP _]. apply Permutation_length in HP. rewrite !length_app in HP. lia. Qed.

Lemma loGood_left M0 A1 A2 B' : loGood M0 (A1 ++ A2) B' ->
  (mergeable -> Forall (fun x => Forall (fun y => ~ less c y x) B') A1) -> loGood (M0 ++ A1) A2 B'.
Proof.
  intros [HP HM] Hle. split; [by rewrite <- HP, <- !app_assoc|]. intros Hok. destruct (HM Hok) as (H1 & H2 & H3 & H4).
  apply sorted_app in H1 as (_ & H1 & _). split_and!; [done|done| |].
  - intros A1' x ->. apply (H3 (A1 ++ A1') x). by rewrite app_assoc.
  - rewrite <- H4, merge_left by auto. by rewrite app_assoc.
Qed.

Lemma loGood_right M0 A' B1 B2 : loGood M0 A' (B1 ++ B2) ->
  (mergeable -> Forall (fun y => Forall (less c y) A') B1) -> loGood (M0 ++ B1) A' B2.
Proof.
  intros [HP HM] Hle. split.
  { rewrite <- HP, <- !app_assoc. apply Permutation_app_head. by rewrite !app_assoc, (Permutation_app_comm B1). }
  intros Hok. destruct (HM Hok) as (H1 & H2 & H3 & H4). apply sorted_app in H2 as (_ & H2 & _). split_and!; [done|done| |].
  - intros A1' x E. specialize (H3 A1' x E). by apply Forall_app in H3 as [_ H3].
  - rewrite <- H4, merge_right by auto. by rewrite app_assoc.
Qed.

Lemma takeRight_lo M0 A' b B' s : loView M0 A' (b :: B') s ->
  exists s', takeRight s = Ok s' /\ loView (M0 ++ [b]) A' B' s'.
Proof.
  destruct s as [w t c1 c2 d l1 l2]. intros (G & T1 & T2 & H1 & HG & H2 & H3 & H4 & H5 & H6 & H7). cbn in *. subst.
  unfold takeRight. cbn [work cursor2 dest tmp cursor1 len1 len2].
  assert (P ++ M0 ++ G ++ b :: B' ++ S = (P ++ M0 ++ G) ++ b :: B' ++ S) as -> by app_eq.
  rewrite at_middle by (rewrite !length_app; lia). rewrite bind_Ok.
  destruct G as [|g G].
  - rewrite app_nil_r, put_middle by (rewrite !length_app; lia). rewrite bind_Ok. eexists; split; [reflexivity|].
    destruct A'; [|done]. exists [], T1, T2. cbn [work cursor2 dest tmp cursor1 len1 len2]. rewrite !length_app. cbn [length].
    split_and!; try done; try lia. app_eq.
  - assert ((P ++ M0 ++ g :: G) ++ b :: B' ++ S = (P ++ M0) ++ g :: G ++ b :: B' ++ S) as -> by app_eq.
    rewrite put_middle by (rewrite !length_app; lia). rewrite bind_Ok. eexists; split; [reflexivity|].
    exists (G ++ [b]), T1, T2. cbn [work cursor2 dest tmp cursor1 len1 len2]. rewrite !length_app. cbn [length] in *.
    split_and!; try done; try lia. app_eq.
Qed.

(** A block of the left run. *)
Lemma copyLeft_lo M0 A1 A2 B' s count1 : loView M0 (A1 ++ A2) B' s -> count1 = Z.of_nat (length A1) ->
  exists work', CopyArrayTo (tmp s) (cursor1 s) (work s) (dest s) count1 = Ok work' /\
    loView (M0 ++ A1) A2 B' (mkMerge work' (tmp s) (cursor1 s + count1) (cursor2 s) (dest s + count1) (len1 s - count1) (len2 s)).
Proof.
  destruct s as [w t c1 c2 d l1 l2]. intros (G & T1 & T2 & H1 & HG & H2 & H3 & H4 & H5 & H6 & H7) ->. cbn in *. subst.
  rewrite length_app in HG. rewrite <- (take_drop (length A1) G).
  set (G1 := take (length A1) G). set (G2 := drop (length A1) G).
  assert (length G1 = length A1) as HG1 by (unfold G1; rewrite length_take; lia).
  assert (length G2 = length A2) as HG2 by (unfold G2; rewrite length_drop; lia).
  assert (P ++ M0 ++ (G1 ++ G2) ++ B' ++ S = (P ++ M0) ++ G1 ++ (G2 ++ B' ++ S)) as -> by app_eq.
  rewrite <- (app_assoc A1 A2 T2).
  rewrite CopyArrayTo_eq by (rewrite ?length_app; done || lia). eexists; split; [reflexivity|].
  exists G2, (T1 ++ A1), T2. cbn [work cursor2 dest tmp cursor1 len1 len2]. rewrite !length_app.
  split_and!; try lia; app_eq.
Qed.

Lemma copyRight_lo M0 A' B1 B2 s count2 : loView M0 A' (B1 ++ B2) s -> count2 = Z.of_nat (length B1) ->
  exists work', CopyArrayWithin (work s) (cursor2 s) (dest s) count2 = Ok work' /\
    loView (M0 ++ B1) A' B2 (mkMerge work' (tmp s) (cursor1 s) (cursor2 s + count2) (dest s + count2) (len1 s) (len2 s - count2)).
Proof.
  destruct s as [w t c1 c2 d l1 l2]. intros (G & T1 & T2 & H1 & HG & H2 & H3 & H4 & H5 & H6 & H7) ->. cbn in *. subst.
  assert (P ++ M0 ++ G ++ (B1 ++ B2) ++ S = (P ++ M0) ++ G ++ B1 ++ (B2 ++ S)) as -> by app_eq.
  destruct (CopyArrayWithin_down (P ++ M0) G B1 (B2 ++ S) (Z.of_nat (length P + length M0 + length A'))
    (Z.of_nat (length P + length M0)) (Z.of_nat (length B1))) as (G' & HG' & E); [rewrite length_app; lia..|done|].
  rewrite E. eexists; split; [reflexivity|]. exists G', T1, T2. cbn [work cursor2 dest tmp cursor1 len1 len2].
  rewrite !length_app. split_and!; try lia; app_eq.
Qed.

Lemma takeLeft_lo M0 a A' B' s : loView M0 (a :: A') B' s ->
  exists s', takeLeft s = Ok s' /\ loView (M0 ++ [a]) A' B' s'.
Proof.
  destruct s as [w t c1 c2 d l1 l2]. intros (G & T1 & T2 & H1 & HG & H2 & H3 & H4 & H5 & H6 & H7). cbn in *. subst.
  destruct G as [|g G]; [cbn in HG; lia|]. unfold takeLeft. cbn [work cursor2 dest tmp cursor1 len1 len2].
  cbn [app]. rewrite (at_middle T1) by reflexivity. rewrite bind_Ok, app_assoc, put_middle by (rewrite length_app; lia). rewrite bind_Ok.
  eexists; split; [reflexivity|]. exists G, (T1 ++ [a]), T2. cbn [work cursor2 dest tmp cursor1 len1 len2].
  rewrite !length_app. cbn [length] in *. split_and!; try lia; app_eq.
Qed.

(** What is read at the cursors. *)
Lemma cursor2_lo M0 A' b B' s : loView M0 A' (b :: B') s -> at_ (work s) (cursor2 s) = Ok b.
Proof.
  intros (G & T1 & T2 & -> & HG & _ & _ & _ & -> & _).
  assert (P ++ M0 ++ G ++ (b :: B') ++ S = (P ++ M0 ++ G) ++ b :: B' ++ S) as -> by app_eq.
  apply at_middle. rewrite !length_app. lia.
Qed.

Lemma cursor1_lo M0 a A' B' s : loView M0 (a :: A') B' s -> at_ (tmp s) (cursor1 s) = Ok a.
Proof. intros (G & T1 & T2 & _ & _ & -> & -> & _). by apply at_middle. Qed.

Lemma lens_lo M0 A' B' s : loView M0 A' B' s -> len1 s = Z.of_nat (length A') /\ len2 s = Z.of_nat (length B').
Proof. intros (G & T1 & T2 & _ & _ & _ & _ & _ & _ & H1 & H2). auto. Qed.

Lemma segmentLeft_lo M0 A' B' s : loView M0 A' B' s -> segment (tmp s) (cursor1 s) A'.
Proof. intros (G & T1 & T2 & _ & _ & -> & -> & _). by exists T1, T2. Qed.

Lemma segmentRight_lo M0 A' B' s : loView M0 A' B' s -> segment (work s) (cursor2 s) B'.
Proof.
  intros (G & T1 & T2 & -> & HG & _ & _ & _ & -> & _). exists (P ++ M0 ++ G), S. split; [app_eq|]. rewrite !length_app. lia.
Qed.

(** The states of the loops and the states the epilogue is reached in. *)
Definition loGoing (N : nat) (s : Merge) : Prop := exists M0 A' B', loView M0 A' B' s /\ loGood M0 A' B' /\
  (2 <= length A')%nat /\ (1 <= length B')%nat /\ (length A' + length B' <= N)%nat.

Definition loDone (s : Merge) : Prop := exists M0 A' B', loView M0 A' B' s /\ loGood M0 A' B' /\ (B' = [] \/ (length A' <= 1)%nat).

Definition remaining (s : Merge) : nat := Z.to_nat (len1 s + len2 s).

(** The head of the right run goes first, or the head of the left run. *)
Lemma headRight_lo M0 a A' b B' : loGood M0 (a :: A') (b :: B') -> (mergeable -> less c b a) -> loGood (M0 ++ [b]) (a :: A') B'.
Proof.
  intros Hg Hlt. apply loGood_right; [done|]. intros Hok. constructor; [|done]. destruct (lo_merge _ _ _ Hg Hok) as (Hs & _).
  inversion Hs as [|? ? Ha _]; subst. specialize (Hlt Hok). destruct Hok as ((_ & Hc) & _). constructor; [auto|]. eapply Forall_impl; [exact Ha|].
  intros x Hx. apply (less_leq_trans c Hc b a x); auto.
Qed.

Lemma headLeft_lo M0 a A' b B' : loGood M0 (a :: A') (b :: B') -> (mergeable -> ~ less c b a) -> loGood (M0 ++ [a]) A' (b :: B').
Proof.
  intros Hg Hlt. apply (loGood_left M0 [a]); [done|]. intros Hok. constructor; [|done]. destruct (lo_merge _ _ _ Hg Hok) as (_ & Hs & _).
  inversion Hs as [|? ? Hb _]; subst. specialize (Hlt Hok). destruct Hok as ((_ & Hc) & _). constructor; [done|]. eapply Forall_impl; [exact Hb|].
  intros x Hx. apply (not_less c Hc). apply (leq_trans c Hc a b x); [by apply (not_less c Hc)|done].
Qed.

Lemma mergeLoOnes_ensures fuel minGallop s N : loGoing N s -> (N < fuel)%nat ->
  ensures (mergeLoOnes SortCompare fuel minGallop s) (fun r => match r with inl s' => loGoing N s' | inr s' => loDone s' end).
Proof.
  intros Hs Hf. unfold mergeLoOnes.
  apply (ensures_loop (fun '(s, _, _) => loGoing N s) (fun '(s, _, _) => remaining s)); [done| |].
  { destruct Hs as (M0 & A' & B' & Hv & _ & _ & _ & HN). destruct (lens_lo _ _ _ _ Hv). unfold remaining. lia. }
  intros [[s1 count1] count2] (M0 & A' & B' & Hv & Hg & HA & HB & HN).
  destruct A' as [|a A']; [cbn in HA; lia|]. destruct B' as [|b B']; [cbn in HB; lia|].
  destruct (lens_lo _ _ _ _ Hv) as [El1 El2]. cbn [length] in *.
  eapply ensures_lift_bind; [by eapply cursor2_lo|]. eapply ensures_lift_bind; [by eapply cursor1_lo|].
  apply (ensures_compare _ c). intros o Ho. destruct (negative o) eqn:En.
  - destruct (takeRight_lo _ _ _ _ _ Hv) as (s2 & E & Hv2). eapply ensures_lift_bind; [exact E|].
    assert (loGood (M0 ++ [b]) (a :: A') B') as Hg2.
    { apply headRight_lo; [done|]. intros [Hag _]. rewrite (Ho Hag) in En. unfold less. by destruct (c b a). }
    destruct (lens_lo _ _ _ _ Hv2) as [El3 El4]. cbn [length] in *.
    destruct (Z.eqb_spec (len2 s2) 0) as [Ez|Ez].
    + apply ensures_ret. exists (M0 ++ [b]), (a :: A'), B'. split_and?; [done|done|]. left. apply nil_length_inv. lia.
    + assert (loGoing N s2) as Hgo by (exists (M0 ++ [b]), (a :: A'), B'; cbn [length]; split_and?; done || lia).
      destruct (_ <? _); apply ensures_ret; [|done]. split; [done|unfold remaining; lia].
  - destruct (takeLeft_lo _ _ _ _ _ Hv) as (s2 & E & Hv2). eapply ensures_lift_bind; [exact E|].
    assert (loGood (M0 ++ [a]) A' (b :: B')) as Hg2.
    { apply headLeft_lo; [done|]. intros [Hag _]. rewrite (Ho Hag) in En. unfold less. by destruct (c b a). }
    destruct (lens_lo _ _ _ _ Hv2) as [El3 El4]. cbn [length] in *.
    destruct (Z.eqb_spec (len1 s2) 1) as [Ez|Ez].
    + apply ensures_ret. exists (M0 ++ [a]), A', (b :: B'). split_and?; [done|done|]. right. lia.
    + assert (loGoing N s2) as Hgo by (exists (M0 ++ [a]), A', (b :: B'); cbn [length]; split_and?; done || lia).
      destruct (_ <? _); apply ensures_ret; [|done]. split; [done|unfold remaining; lia].
Qed.

(** A gallop in the left run: how many of its elements go before [b]. *)
Lemma gallopRight_lo M0 A' b B' s : loView M0 A' (b :: B') s -> loGood M0 A' (b :: B') -> (0 < length A')%nat ->
  ensures (GallopRight SortCompare (tmp s) b (cursor1 s) (len1 s) 0) (fun count1 => exists A1 A2, A' = A1 ++ A2 /\
    count1 = Z.of_nat (length A1) /\ loGood (M0 ++ A1) A2 (b :: B') /\ (mergeable -> Forall (less c b) A2)).
Proof.
  intros Hv Hg HA. pose proof (loGood_size _ _ _ Hg). destruct (lens_lo _ _ _ _ Hv) as [-> _].
  eapply ensures_mono; [apply (GallopRight_ensures SortCompare c _ _ A'); [by eapply segmentLeft_lo|lia|lia]|].
  cbv beta. intros k [Hk Hcut]. destruct (cut_split c notNegative b A' k Hk) as (A1 & A2 & -> & -> & Hsplit).
  assert (mergeable -> Forall (fun v => notNegative (c b v) = true) A1 /\ Forall (fun v => notNegative (c b v) = false) A2) as Hs.
  { intros Hok. apply Hsplit, Hcut; [by destruct Hok|]. by destruct (lo_merge _ _ _ Hg Hok). }
  exists A1, A2. split_and?; [done|done| |].
  - apply loGood_left; [done|]. intros Hok. destruct (Hs Hok) as [Hl _]. destruct (lo_merge _ _ _ Hg Hok) as (_ & Hsb & _).
    inversion Hsb as [|? ? Hb _]; subst. destruct Hok as ((_ & Hc) & _). eapply Forall_impl; [exact Hl|]. cbn. intros x Hx.
    assert (leq c x b) as Hxb by (apply (not_less c Hc); unfold less, notNegative in *; by destruct (c b x)).
    constructor; [by apply (not_less c Hc)|]. eapply Forall_impl; [exact Hb|]. intros y Hy.
    apply (not_less c Hc). by apply (leq_trans c Hc x b y).
  - intros Hok. destruct (Hs Hok) as [_ Hr]. eapply Forall_impl; [exact Hr|]. cbn. intros x Hx.
    unfold less, notNegative in *. by destruct (c b x).
Qed.

Lemma gallopLeft_lo M0 a A' B' s : loView M0 (a :: A') B' s -> loGood M0 (a :: A') B' -> (0 < length B')%nat ->
  ensures (GallopLeft SortCompare (work s) a (cursor2 s) (len2 s) 0) (fun count2 => exists B1 B2, B' = B1 ++ B2 /\
    count2 = Z.of_nat (length B1) /\ loGood (M0 ++ B1) (a :: A') B2 /\ (mergeable -> Forall (fun y => ~ less c y a) B2)).
Proof.
  intros Hv Hg HB. pose proof (loGood_size _ _ _ Hg). destruct (lens_lo _ _ _ _ Hv) as [_ ->].
  eapply ensures_mono; [apply (GallopLeft_ensures SortCompare c _ _ B'); [by eapply segmentRight_lo|lia|lia]|].
  cbv beta. intros k [Hk Hcut]. destruct (cut_split c positive a B' k Hk) as (B1 & B2 & -> & -> & Hsplit).
  assert (mergeable -> Forall (fun v => positive (c a v) = true) B1 /\ Forall (fun v => positive (c a v) = false) B2) as Hs.
  { intros Hok. apply Hsplit, Hcut; [by destruct Hok|]. by destruct (lo_merge _ _ _ Hg Hok) as (_ & ? & _). }
  exists B1, B2. split_and?; [done|done| |].
  - apply loGood_right; [done|]. intros Hok. destruct (Hs Hok) as [Hl _]. destruct (lo_merge _ _ _ Hg Hok) as (Hsa & _).
    inversion Hsa as [|? ? Ha _]; subst. destruct Hok as ((_ & Hc) & _). eapply Forall_impl; [exact Hl|]. cbn. intros y Hy.
    assert (less c y a) as Hya by (unfold less; rewrite (opposite c Hc a y); by destruct (c a y)).
    constructor; [done|]. eapply Forall_impl; [exact Ha|]. intros x Hx. by apply (less_leq_trans c Hc y a x).
  - intros Hok. destruct (Hs Hok) as [_ Hr]. destruct Hok as ((_ & Hc) & _). eapply Forall_impl; [exact Hr|]. cbn. intros y Hy.
    unfold less. rewrite (opposite c Hc a y). by destruct (c a y).
Qed.

(** The conditional copies of the blocks. *)
Lemma copyLeftIf_lo M0 A1 A2 B' s count1 : loView M0 (A1 ++ A2) B' s -> count1 = Z.of_nat (length A1) ->
  ensures (W := W) (if negb (count1 =? 0) then
      work' ← lift (CopyArrayTo (tmp s) (cursor1 s) (work s) (dest s) count1);
      mret (mkMerge work' (tmp s) (cursor1 s + count1) (cursor2 s) (dest s + count1) (len1 s - count1) (len2 s))
    else mret s) (loView (M0 ++ A1) A2 B').
Proof.
  intros Hv ->. destruct (Z.eqb_spec (Z.of_nat (length A1)) 0) as [E|E]; cbn [negb].
  - destruct A1; [|done]. apply ensures_ret. by rewrite app_nil_r.
  - destruct (copyLeft_lo _ _ _ _ _ _ Hv eq_refl) as (work' & E' & Hv'). eapply ensures_lift_bind; [exact E'|]. by apply ensures_ret.
Qed.

Lemma copyRightIf_lo M0 A' B1 B2 s count2 : loView M0 A' (B1 ++ B2) s -> count2 = Z.of_nat (length B1) ->
  ensures (W := W) (if negb (count2 =? 0) then
      work' ← lift (CopyArrayWithin (work s) (cursor2 s) (dest s) count2);
      mret (mkMerge work' (tmp s) (cursor1 s) (cursor2 s + count2) (dest s + count2) (len1 s) (len2 s - count2))
    else mret s) (loView (M0 ++ B1) A' B2).
Proof.
  intros Hv ->. destruct (Z.eqb_spec (Z.of_nat (length B1)) 0) as [E|E]; cbn [negb].
  - destruct B1; [|done]. apply ensures_ret. by rewrite app_nil_r.
  - destruct (copyRight_lo _ _ _ _ _ _ Hv eq_refl) as (work' & E' & Hv'). eapply ensures_lift_bind; [exact E'|]. by apply ensures_ret.
Qed.

(** A round of the block loop goes on or leaves with fewer elements to merge, or is done. *)
Definition loBlocked (n : nat) (r : Merge * Z + (Merge * Z + Merge * Z)) : Prop :=
  match r with
  | inl (s, _) | inr (inl (s, _)) => exists m, (m < n)%nat /\ loGoing m s
  | inr (inr (s, _)) => loDone s
  end.

Lemma mergeLoBlocks_ensures fuel minGallop s N : loGoing N s -> (N < fuel)%nat ->
  ensures (mergeLoBlocks SortCompare fuel minGallop s) (fun r =>
    match r with inl (s', _) => exists m, (m < N)%nat /\ loGoing m s' | inr (s', _) => loDone s' end).
Proof.
  intros Hs Hf. unfold mergeLoBlocks.
  apply (ensures_loop (fun '(s, _) => loGoing N s) (fun '(s, _) => remaining s)); [done| |].
  { destruct Hs as (M0 & A' & B' & Hv & _ & _ & _ & HN). destruct (lens_lo _ _ _ _ Hv). unfold remaining. lia. }
  clear s minGallop Hs. intros [s minGallop] (M0 & A' & B' & Hv & Hg & HA & HB & HN).
  eapply ensures_mono with (P := loBlocked (remaining s)); [|destruct (lens_lo _ _ _ _ Hv) as [El1 El2]].
  2:{ intros [[s' ?]|[[s' ?]|[s' ?]]]; cbn.
      - intros (m & Hm & M1 & A1 & B1 & Hv1 & Hg1 & H1 & H2 & H3). destruct (lens_lo _ _ _ _ Hv1) as [E1 E2].
        unfold remaining in *. split; [|lia]. exists M1, A1, B1. split_and?; done || lia.
      - intros (m & Hm & Hgo). exists m. split; [unfold remaining in *; lia|done].
      - done. }
  destruct (lens_lo _ _ _ _ Hv) as [El1 El2]. destruct B' as [|b B']; [cbn in HB; lia|].
  eapply ensures_lift_bind; [by eapply cursor2_lo|]. eapply ensures_bind; [by apply (gallopRight_lo M0 A' b B'); [..|lia]|].
  intros count1 (A1 & A2 & -> & -> & Hg1 & Hlt). eapply ensures_bind; [by apply copyLeftIf_lo|]. intros s1 Hv1.
  destruct (lens_lo _ _ _ _ Hv1) as [El3 El4]. rewrite length_app in *. cbn [length] in *.
  destruct (negb _ && (len1 s1 <=? 1)) eqn:E1.
  { apply ensures_ret. apply andb_true_iff in E1 as [_ E1]. eexists _, _, _. split_and?; [exact Hv1|exact Hg1|]. right. lia. }
  assert (2 <= length A2)%nat as HA2.
  { apply andb_false_iff in E1 as [E1|E1]; [|lia]. destruct (Z.eqb_spec (Z.of_nat (length A1)) 0); [lia|done]. }
  destruct (takeRight_lo _ _ _ _ _ Hv1) as (s2 & E2 & Hv2). eapply ensures_lift_bind; [exact E2|].
  assert (loGood ((M0 ++ A1) ++ [b]) A2 B') as Hg2 by (apply loGood_right; [done|]; intros Hok; constructor; auto).
  destruct (lens_lo _ _ _ _ Hv2) as [El5 El6]. destruct (Z.eqb_spec (len2 s2) 0) as [Ez|Ez].
  { apply ensures_ret. eexists _, _, _. split_and?; [exact Hv2|exact Hg2|]. left. apply nil_length_inv. lia. }
  destruct A2 as [|a A2]; [cbn in HA2; lia|].
  eapply ensures_lift_bind; [by eapply cursor1_lo|]. eapply ensures_bind; [by apply (gallopLeft_lo ((M0 ++ A1) ++ [b]) a A2 B'); [..|lia]|].
  intros count2 (B1 & B2 & -> & -> & Hg3 & Hge). eapply ensures_bind; [by apply copyRightIf_lo|]. intros s3 Hv3.
  destruct (lens_lo _ _ _ _ Hv3) as [El7 El8]. rewrite length_app in *. cbn [length] in *.
  destruct (negb _ && (len2 s3 =? 0)) eqn:E3.
  { apply ensures_ret. apply andb_true_iff in E3 as [_ E3]. eexists _, _, _. split_and?; [exact Hv3|exact Hg3|]. left.
    apply nil_length_inv. lia. }
  assert (1 <= length B2)%nat as HB2.
  { apply andb_false_iff in E3 as [E3|E3]; [|lia]. destruct (Z.eqb_spec (Z.of_nat (length B1)) 0); [lia|done]. }
  destruct (takeLeft_lo _ _ _ _ _ Hv3) as (s4 & E4 & Hv4). eapply ensures_lift_bind; [exact E4|].
  assert (loGood ((((M0 ++ A1) ++ [b]) ++ B1) ++ [a]) A2 B2) as Hg4.
  { apply (loGood_left _ [a]); [done|]. intros Hok. constructor; auto. }
  destruct (lens_lo _ _ _ _ Hv4) as [El9 El10]. destruct (Z.eqb_spec (len1 s4) 1) as [Ez2|Ez2].
  { apply ensures_ret. eexists _, _, _. split_and?; [exact Hv4|exact Hg4|]. right. lia. }
  assert (exists m, (m < remaining s)%nat /\ loGoing m s4) as Hgo.
  { exists (length A2 + length B2)%nat. split; [unfold remaining; lia|]. eexists _, _, _. split_and?; [exact Hv4|exact Hg4|lia..]. }
  cbv zeta. destruct (_ || _); apply ensures_ret; exact Hgo.
Qed.

Lemma mergeLoLoop_ensures fuel minGallop s N : loGoing N s -> (N < fuel)%nat ->
  ensures (mergeLoLoop SortCompare fuel minGallop s) (fun '(s', _) => loDone s').
Proof.
  intros Hs Hf. unfold mergeLoLoop.
  apply (ensures_loop (fun '(s, _) => loGoing (remaining s) s /\ (remaining s <= N)%nat) (fun '(s, _) => remaining s)).
  - destruct Hs as (M0 & A' & B' & Hv & Hg & HA & HB & HN). destruct (lens_lo _ _ _ _ Hv). unfold remaining.
    split; [|lia]. exists M0, A', B'. split_and?; done || lia.
  - destruct Hs as (M0 & A' & B' & Hv & Hg & HA & HB & HN). destruct (lens_lo _ _ _ _ Hv). unfold remaining. lia.
  - clear s minGallop Hs. intros [s minGallop] [Hs HN]. eapply ensures_bind; [apply (mergeLoOnes_ensures _ _ _ _ Hs); lia|].
    intros [s1|s1] H1; [|by apply ensures_ret]. eapply ensures_bind; [apply (mergeLoBlocks_ensures _ _ _ _ H1); lia|].
    intros [[s2 g]|[s2 g]] H2; [|by apply ensures_ret]. destruct H2 as (m & Hm & M0 & A' & B' & Hv & Hg & HA & HB & HN2).
    destruct (lens_lo _ _ _ _ Hv). apply ensures_ret. unfold remaining in *. split_and?; [|lia|lia].
    exists M0, A', B'. split_and?; done || lia.
Qed.

(** What the merge leaves in the array. *)
Definition merged (R : list JSTaggedValue) : Prop := Permutation R (A ++ B) /\ (mergeable -> R = merge c A B).

Lemma rest_lo M0 A' s : loView M0 A' [] s -> loGood M0 A' [] ->
  exists R, CopyArrayTo (tmp s) (cursor1 s) (work s) (dest s) (len1 s) = Ok (P ++ R ++ S) /\ merged R.
Proof.
  intros Hv [HP HM]. destruct (copyLeft_lo M0 A' [] [] s (len1 s)) as (work' & E & Hv').
  - by rewrite app_nil_r.
  - by apply lens_lo in Hv as [-> _].
  - rewrite E. destruct Hv' as (G & T1 & T2 & Ew & HG & _). destruct G; [|done]. cbn in Ew. subst. exists (M0 ++ A'). split; [done|].
    rewrite app_nil_r in HP. split; [done|]. intros Hok. destruct (HM Hok) as (_ & _ & _ & <-). by rewrite merge_nil_r.
Qed.

Lemma last_lo M0 a B' s : loView M0 [a] B' s -> loGood M0 [a] B' ->
  exists R work', CopyArrayWithin (work s) (cursor2 s) (dest s) (len2 s) = Ok work' /\
    at_ (tmp s) (cursor1 s) = Ok a /\ put work' (dest s + len2 s) a = Ok (P ++ R ++ S) /\ merged R.
Proof.
  intros Hv [HP HM]. destruct (copyRight_lo M0 [a] B' [] s (len2 s)) as (work' & E & Hv').
  - by rewrite app_nil_r.
  - by apply lens_lo in Hv as [_ ->].
  - pose proof (cursor1_lo _ _ _ _ _ Hv). destruct Hv' as (G & T1 & T2 & Ew & HG & _ & _ & Hd & _).
    cbn [work dest] in Ew, Hd. destruct G as [|g [|]]; [done| |done]. subst work'. exists (M0 ++ B' ++ [a]), (P ++ (M0 ++ B') ++ [g] ++ [] ++ S).
    split_and?; [done|done| |].
    + rewrite Hd. cbn [app]. rewrite app_assoc, put_middle by (rewrite !length_app; lia). f_equal. app_eq.
    + split.
      * rewrite <- HP. apply Permutation_app_head, Permutation_app_comm.
      * intros Hok. destruct (HM Hok) as (_ & _ & Ht & <-). f_equal.
        change (merge c [a] B') with (merge c ([] ++ [a]) B'). rewrite merge_left_last; [done|]. constructor; [|done]. by apply (Ht [] a).
Qed.

Lemma mergeLoEpilogue_returns s : loDone s -> returns (mergeLoEpilogue s) (fun work' => exists R, work' = P ++ R ++ S /\ merged R).
Proof.
  intros (M0 & A' & B' & Hv & Hg & Hd). destruct (lens_lo _ _ _ _ Hv) as [El1 El2]. unfold mergeLoEpilogue.
  destruct (Z.eqb_spec (len1 s) 1) as [E|E].
  - destruct A' as [|a [|]]; [cbn in El1; lia| |cbn in El1; lia].
    destruct (last_lo _ _ _ _ Hv Hg) as (R & work' & E1 & E2 & E3 & HR). rewrite E1, bind_Ok, E2, bind_Ok, E3. by exists R.
  - destruct Hd as [->|Hd].
    + destruct (rest_lo _ _ _ Hv Hg) as (R & E1 & HR). rewrite E1. by exists R.
    + destruct A' as [|a A']; [|cbn in Hd, El1; lia]. destruct (copyLeft_lo M0 [] [] B' s (len1 s)) as (work' & E1 & Hv'); [done|done|].
      rewrite E1. destruct Hv' as (G & T1 & T2 & Ew & HG & _). destruct G; [|done]. cbn in Ew. rewrite app_nil_r in Ew.
      exists (M0 ++ B'). split; [subst; app_eq|]. destruct Hg as [HP HM]. split; [done|]. intros Hok. by destruct (HM Hok) as (_ & _ & _ & <-).
Qed.

Lemma takeRight_tmp s s' : takeRight s = Ok s' -> tmp s' = tmp s /\ len1 s' = len1 s.
Proof. unfold takeRight. destruct (at_ _ _); [|done]. rewrite bind_Ok. destruct (put _ _ _); [|done]. by intros [= <-]. Qed.

Lemma loGood_start : loGood [] A B.
Proof. split; [done|]. by intros (_ & H1 & H2 & _ & H4). Qed.

Lemma MergeLo_ensures ts : elements_ ts = P ++ A ++ B ++ S -> (0 < length A)%nat -> (0 < length B)%nat ->
  ensures (MergeLo SortCompare ts (Z.of_nat (length P)) (Z.of_nat (length A)) (Z.of_nat (length P + length A)) (Z.of_nat (length B)))
    (fun ts' => pending_ ts' = pending_ ts /\ exists R, elements_ ts' = P ++ R ++ S /\ merged R).
Proof.
  intros Ee HA HB. unfold MergeLo. rewrite Ee. destruct (GetTempArray_room (tmp_ ts) (length A)) as (T1 & T2 & Et & HT). rewrite Et.
  eapply ensures_lift_bind; [by apply (CopyArrayTo_eq P A (B ++ S) [] T1 T2)|].
  eapply ensures_lift_bind; [by apply (CopyArrayTo_eq P A (B ++ S) [] A T2)|].
  set (s0 := mkMerge _ _ _ _ _ _ _). assert (exists b B', B = b :: B') as (b & B' & EB) by (destruct B; [cbn in HB; lia|eauto]).
  assert (loView [] A B s0) as Hv0.
  { exists A, [], T2. unfold s0. cbn [work tmp cursor1 dest cursor2 len1 len2 length]. split_and?; done || lia. }
  pose proof loGood_start as Hg0. rewrite EB in Hv0, Hg0.
  destruct (takeRight_lo _ _ _ _ _ Hv0) as (s1 & E1 & Hv1). eapply ensures_lift_bind; [exact E1|].
  destruct (takeRight_tmp _ _ E1) as [Etmp En]. cbn [tmp s0] in Etmp. cbn [len1 s0] in En.
  assert (loGood [b] A B') as Hg1.
  { apply (loGood_right [] A [b] B' Hg0). intros (_ & _ & _ & H & _). constructor; [|done]. by apply (H b B'). }
  destruct (lens_lo _ _ _ _ Hv1) as [El1 El2]. unfold s0 in Etmp. cbn [app tmp] in Etmp. cbn [app].
  destruct (Z.eqb_spec (len2 s1) 0) as [Ez|Ez].
  - rewrite Ez in El2. destruct B'; [|done]. destruct (rest_lo _ _ _ Hv1 Hg1) as (R & E2 & HR). rewrite Etmp, El1 in E2.
    eapply ensures_lift_bind; [exact E2|]. apply ensures_ret. split; [done|]. by exists R.
  - destruct (Z.eqb_spec (Z.of_nat (length A)) 1) as [EA|EA].
    + assert (exists a, A = [a]) as [a Ea] by (destruct A as [|a [|]]; cbn in EA; try lia; eauto).
      rewrite Ea in Hv1, Hg1. destruct (last_lo _ _ _ _ Hv1 Hg1) as (R & work' & E2 & E3 & E4 & HR). rewrite Etmp in E3.
      eapply ensures_lift_bind; [exact E2|]. eapply ensures_lift_bind; [exact E3|]. eapply ensures_lift_bind; [exact E4|].
      apply ensures_ret. split; [done|]. by exists R.
    + eapply ensures_bind.
      { apply (mergeLoLoop_ensures _ _ _ (length A + length B')); [|rewrite EB; cbn [length]; lia].
        exists [b], A, B'. split_and?; [exact Hv1|done|lia..]. }
      intros [s2 minGallop] Hd. pose proof (mergeLoEpilogue_returns s2 Hd) as HR. apply returns_iff in HR as (work' & E2 & R & -> & HR).
      eapply ensures_lift_bind; [exact E2|]. apply ensures_ret. split; [done|]. by exists R.
Qed.
End Merge.
