(* ===== verification/TimSortMergeHi.v ===== *)
(** * TimSort: merging from above

    [MergeHi], the mirror image of [MergeLo]: the right run is copied out and the merge is
    written from its end. *)

From Stdlib Require Import ZArith Lia Permutation.
From S2P Require Import Prelude BigIntBase Double Values SortSpec TimSort TimSortSearch TimSortRuns TimSortMerge.

(** The last element, for lists that are not empty. *)
Lemma snoc_inv (l : list JSTaggedValue) : (1 <= length l)%nat -> exists l' x, l = l' ++ [x].
Proof. destruct l as [|x l _] using rev_ind; cbn; [lia|eauto]. Qed.

Section MergeHi.
  Context {W : Type} `{!StateInv W}.
  Variable SortCompare : W -> JSTaggedValue -> JSTaggedValue -> comparison * W.
  Context `{!Preserves SortCompare}.
  Variable c : JSTaggedValue -> JSTaggedValue -> comparison.
  Notation agrees := (agrees SortCompare c).

  Variables P A B S : list JSTaggedValue.
  Hypothesis Hsize : Z.of_nat (length A + length B) < 2 ^ 31.

  Notation mergeable := (mergeable SortCompare c A B).
  Notation merged := (merged SortCompare c A B).

(** [A'] and [B'] are to be merged, [R] is merged. *)
Definition hiView (A' B' R : list JSTaggedValue) (s : Merge) : Prop :=
  exists G T, work s = P ++ A' ++ G ++ R ++ S /\ length G = length B' /\ tmp s = B' ++ T /\
    cursor1 s = Z.of_nat (length P + length A') - 1 /\ cursor2 s = Z.of_nat (length B') - 1 /\
    dest s = Z.of_nat (length P + length A' + length B') - 1 /\
    len1 s = Z.of_nat (length A') /\ len2 s = Z.of_nat (length B').

Record hiGood (A' B' R : list JSTaggedValue) : Prop := {
  hi_perm : Permutation (A' ++ B' ++ R) (A ++ B);
  hi_merge : mergeable -> sorted c A' /\ sorted c B' /\ headLess c A' B' /\ merge c A' B' ++ R = merge c A B
}.

Lemma hiGood_size A' B' R : hiGood A' B' R -> Z.of_nat (length A' + length B') < 2 ^ 31.
Proof. intros [HP _]. apply Permutation_length in HP. rewrite !length_app in HP. lia. Qed.

Lemma hiGood_left A1 A2 B' R : hiGood (A1 ++ A2) B' R ->
  (mergeable -> Forall (fun x => Forall (fun y => less c y x) B') A2) -> hiGood A1 B' (A2 ++ R).
Proof.
  intros [HP HM] Hlt. split.
  { rewrite <- HP, <- !app_assoc. apply Permutation_app_head. by rewrite !app_assoc, (Permutation_app_comm A2). }
  intros Hok. destruct (HM Hok) as (H1 & H2 & H3 & H4). apply sorted_app in H1 as (H1 & _). split_and!; [done|done| |].
  - intros y B1 E. specialize (H3 y B1 E). by apply Forall_app in H3 as [H3 _].
  - rewrite <- H4, merge_left_last by auto. by rewrite app_assoc.
Qed.

Lemma hiGood_right A' B1 B2 R : hiGood A' (B1 ++ B2) R ->
  (mergeable -> Forall (fun y => Forall (fun x => ~ less c y x) A') B2) -> hiGood A' B1 (B2 ++ R).
Proof.
  intros [HP HM] Hle. split; [by rewrite <- HP, <- !app_assoc|].
  intros Hok. destruct (HM Hok) as (H1 & H2 & H3 & H4). apply sorted_app in H2 as (H2 & _). split_and!; [done|done| |].
  - intros y B1' ->. by apply (H3 y (B1' ++ B2)).
  - rewrite <- H4, merge_right_last by auto. by rewrite app_assoc.
Qed.

Lemma lens_hi A' B' R s : hiView A' B' R s -> len1 s = Z.of_nat (length A') /\ len2 s = Z.of_nat (length B').
Proof. intros (G & T & _ & _ & _ & _ & _ & _ & H1 & H2). auto. Qed.

Lemma cursor1_hi A' a B' R s : hiView (A' ++ [a]) B' R s -> at_ (work s) (cursor1 s) = Ok a.
Proof.
  intros (G & T & -> & _ & _ & -> & _). assert (P ++ (A' ++ [a]) ++ G ++ R ++ S = (P ++ A') ++ a :: G ++ R ++ S) as -> by app_eq.
  apply at_middle. rewrite !length_app. cbn. lia.
Qed.

Lemma cursor2_hi A' B' b R s : hiView A' (B' ++ [b]) R s -> at_ (tmp s) (cursor2 s) = Ok b.
Proof.
  intros (G & T & _ & _ & -> & _ & -> & _). rewrite <- app_assoc. apply at_middle. rewrite length_app. cbn. lia.
Qed.

Lemma segmentLeft_hi A' B' R s : hiView A' B' R s -> segment (work s) (Z.of_nat (length P)) A'.
Proof. intros (G & T & -> & _). by exists P, (G ++ R ++ S). Qed.

Lemma segmentRight_hi A' B' R s : hiView A' B' R s -> segment (tmp s) 0 B'.
Proof. intros (G & T & _ & _ & -> & _). by exists [], T. Qed.

(** A block of the left run moves up. *)
Lemma copyLeft_hi A1 A2 B' R s count1 : hiView (A1 ++ A2) B' R s -> count1 = Z.of_nat (length A2) ->
  exists work', CopyArrayWithin (work s) (cursor1 s - count1 + 1) (dest s - count1 + 1) count1 = Ok work' /\
    hiView A1 B' (A2 ++ R) (mkMerge work' (tmp s) (cursor1 s - count1) (cursor2 s) (dest s - count1) (len1 s - count1) (len2 s)).
Proof.
  destruct s as [w t c1 c2 d l1 l2]. intros (G & T & H1 & HG & H2 & H3 & H4 & H5 & H6 & H7) ->. cbn in *. subst.
  rewrite !length_app in *.
  assert (P ++ (A1 ++ A2) ++ G ++ R ++ S = (P ++ A1) ++ A2 ++ G ++ (R ++ S)) as -> by app_eq.
  match goal with |- context [CopyArrayWithin _ ?src ?dst ?n] =>
    destruct (CopyArrayWithin_up (P ++ A1) A2 G (R ++ S) src dst n) as (G' & HG' & E); [rewrite length_app; lia..|done|] end.
  rewrite E. eexists; split; [reflexivity|]. exists G', T. cbn [work cursor2 dest tmp cursor1 len1 len2].
  split_and!; try lia; app_eq.
Qed.

(** A block of the right run. *)
Lemma copyRight_hi A' B1 B2 R s count2 : hiView A' (B1 ++ B2) R s -> count2 = Z.of_nat (length B2) ->
  exists work', CopyArrayTo (tmp s) (cursor2 s - count2 + 1) (work s) (dest s - count2 + 1) count2 = Ok work' /\
    hiView A' B1 (B2 ++ R) (mkMerge work' (tmp s) (cursor1 s) (cursor2 s - count2) (dest s - count2) (len1 s) (len2 s - count2)).
Proof.
  destruct s as [w t c1 c2 d l1 l2]. intros (G & T & H1 & HG & H2 & H3 & H4 & H5 & H6 & H7) ->. cbn in *. subst.
  rewrite !length_app in *. rewrite <- (take_drop (length B1) G).
  set (G1 := take (length B1) G). set (G2 := drop (length B1) G).
  assert (length G1 = length B1) as HG1 by (unfold G1; rewrite length_take; lia).
  assert (length G2 = length B2) as HG2 by (unfold G2; rewrite length_drop; lia).
  assert (P ++ A' ++ (G1 ++ G2) ++ R ++ S = (P ++ A' ++ G1) ++ G2 ++ (R ++ S)) as -> by app_eq.
  rewrite <- (app_assoc B1 B2 T).
  rewrite CopyArrayTo_eq by (rewrite ?length_app; done || lia). eexists; split; [reflexivity|].
  exists G1, (B2 ++ T). cbn [work cursor2 dest tmp cursor1 len1 len2].
  split_and!; try lia; app_eq.
Qed.

(** Taking one element is copying a block of one. *)
Lemma CopyWithin_one a src dst : CopyArrayWithin a src dst 1 = (v ← at_ a src; put a dst v).
Proof.
  unfold CopyArrayWithin. change (Z.to_nat 1) with 1%nat. cbn [for_up for_down]. change (Z.of_nat 0) with 0.
  rewrite !Z.add_0_r. destruct (_ <? _); (destruct (at_ a src); [|done]); cbn [mbind result_bind]; by destruct (put a dst _).
Qed.

Lemma CopyTo_one t a src dst : CopyArrayTo t src a dst 1 = (v ← at_ t src; put a dst v).
Proof.
  unfold CopyArrayTo. change (Z.to_nat 1) with 1%nat. cbn [for_up for_down]. change (Z.of_nat 0) with 0.
  rewrite !Z.add_0_r. destruct (_ <? _); (destruct (at_ t src); [|done]); cbn [mbind result_bind]; by destruct (put a dst _).
Qed.

Lemma takeLeft_hi A' a B' R s : hiView (A' ++ [a]) B' R s -> exists s', takeLeftHi s = Ok s' /\ hiView A' B' ([a] ++ R) s'.
Proof.
  intros Hv. destruct (copyLeft_hi _ _ _ _ _ 1 Hv) as (work' & E & Hv'); [done|]. rewrite CopyWithin_one in E.
  rewrite !Z.sub_add in E. unfold takeLeftHi. destruct (at_ (work s) (cursor1 s)); [|done].
  rewrite bind_Ok in E. rewrite bind_Ok, E. eauto.
Qed.

Lemma takeRight_hi A' B' b R s : hiView A' (B' ++ [b]) R s -> exists s', takeRightHi s = Ok s' /\ hiView A' B' ([b] ++ R) s'.
Proof.
  intros Hv. destruct (copyRight_hi _ _ _ _ _ 1 Hv) as (work' & E & Hv'); [done|]. rewrite CopyTo_one in E.
  rewrite !Z.sub_add in E. unfold takeRightHi. destruct (at_ (tmp s) (cursor2 s)); [|done].
  rewrite bind_Ok in E. rewrite bind_Ok, E. eauto.
Qed.

(** The states of the loops and the states the epilogue is reached in. *)
Definition hiGoing (N : nat) (s : Merge) : Prop := exists A' B' R, hiView A' B' R s /\ hiGood A' B' R /\
  (1 <= length A')%nat /\ (2 <= length B')%nat /\ (length A' + length B' <= N)%nat.

Definition hiDone (s : Merge) : Prop := exists A' B' R, hiView A' B' R s /\ hiGood A' B' R /\ (A' = [] \/ (length B' <= 1)%nat).

(** The last of the left run goes last, or the last of the right run. *)
Lemma lastLeft_hi A' a B' b R : hiGood (A' ++ [a]) (B' ++ [b]) R -> (mergeable -> less c b a) -> hiGood A' (B' ++ [b]) ([a] ++ R).
Proof.
  intros Hg Hlt. apply hiGood_left; [done|]. intros Hok. constructor; [|done]. destruct (hi_merge _ _ _ Hg Hok) as (_ & Hs & _).
  apply sorted_app in Hs as (_ & _ & Hb). specialize (Hlt Hok). destruct Hok as ((_ & Hc) & _).
  apply Forall_app. split; [|by constructor]. eapply Forall_impl; [exact Hb|]. intros y Hy. apply Forall_cons in Hy as [Hy _].
  by apply (leq_less_trans c Hc y b a).
Qed.

Lemma lastRight_hi A' a B' b R : hiGood (A' ++ [a]) (B' ++ [b]) R -> (mergeable -> ~ less c b a) -> hiGood (A' ++ [a]) B' ([b] ++ R).
Proof.
  intros Hg Hlt. apply hiGood_right; [done|]. intros Hok. constructor; [|done]. destruct (hi_merge _ _ _ Hg Hok) as (Hs & _).
  apply sorted_app in Hs as (_ & _ & Ha). specialize (Hlt Hok). destruct Hok as ((_ & Hc) & _).
  apply Forall_app. split; [|by constructor]. eapply Forall_impl; [exact Ha|]. intros x Hx. apply Forall_cons in Hx as [Hx _].
  apply (not_less c Hc). apply (leq_trans c Hc x a b); [done|]. by apply (not_less c Hc).
Qed.

Lemma mergeHiOnes_ensures fuel minGallop s N : hiGoing N s -> (N < fuel)%nat ->
  ensures (mergeHiOnes SortCompare fuel minGallop s) (fun r => match r with inl s' => hiGoing N s' | inr s' => hiDone s' end).
Proof.
  intros Hs Hf. unfold mergeHiOnes.
  apply (ensures_loop (fun '(s, _, _) => hiGoing N s) (fun '(s, _, _) => remaining s)); [done| |].
  { destruct Hs as (A' & B' & R & Hv & _ & _ & _ & HN). destruct (lens_hi _ _ _ _ Hv). unfold remaining. lia. }
  intros [[s1 count1] count2] (A' & B' & R & Hv & Hg & HA & HB & HN).
  destruct (snoc_inv A') as (A1 & a & ->); [lia|]. destruct (snoc_inv B') as (B1 & b & ->); [lia|].
  destruct (lens_hi _ _ _ _ Hv) as [El1 El2]. rewrite !length_app in *. cbn [length] in *.
  eapply ensures_lift_bind; [by eapply cursor1_hi|]. eapply ensures_lift_bind; [by eapply cursor2_hi|].
  apply (ensures_compare _ c). intros o Ho. destruct (negative o) eqn:En.
  - destruct (takeLeft_hi _ _ _ _ _ Hv) as (s2 & E & Hv2). eapply ensures_lift_bind; [exact E|].
    assert (hiGood A1 (B1 ++ [b]) ([a] ++ R)) as Hg2.
    { apply lastLeft_hi; [done|]. intros [Hag _]. rewrite (Ho Hag) in En. unfold less. by destruct (c b a). }
    destruct (lens_hi _ _ _ _ Hv2) as [El3 El4]. rewrite length_app in El4. cbn [length] in El4.
    destruct (Z.eqb_spec (len1 s2) 0) as [Ez|Ez].
    + apply ensures_ret. exists A1, (B1 ++ [b]), ([a] ++ R). split_and?; [done|done|]. left. apply nil_length_inv. lia.
    + assert (hiGoing N s2) as Hgo by (exists A1, (B1 ++ [b]), ([a] ++ R); rewrite length_app; cbn [length]; split_and?; done || lia).
      destruct (_ <? _); apply ensures_ret; [|done]. split; [done|unfold remaining; lia].
  - destruct (takeRight_hi _ _ _ _ _ Hv) as (s2 & E & Hv2). eapply ensures_lift_bind; [exact E|].
    assert (hiGood (A1 ++ [a]) B1 ([b] ++ R)) as Hg2.
    { apply lastRight_hi; [done|]. intros [Hag _]. rewrite (Ho Hag) in En. unfold less. by destruct (c b a). }
    destruct (lens_hi _ _ _ _ Hv2) as [El3 El4]. rewrite length_app in El3. cbn [length] in El3.
    destruct (Z.eqb_spec (len2 s2) 1) as [Ez|Ez].
    + apply ensures_ret. exists (A1 ++ [a]), B1, ([b] ++ R). split_and?; [done|done|]. right. lia.
    + assert (hiGoing N s2) as Hgo by (exists (A1 ++ [a]), B1, ([b] ++ R); rewrite length_app; cbn [length]; split_and?; done || lia).
      destruct (_ <? _); apply ensures_ret; [|done]. split; [done|unfold remaining; lia].
Qed.

(** A gallop in the left run: the block of it that goes behind [b]. *)
Lemma gallopRight_hi A' B' b R s : hiView A' (B' ++ [b]) R s -> hiGood A' (B' ++ [b]) R -> (0 < length A')%nat ->
  ensures (GallopRight SortCompare (work s) b (Z.of_nat (length P)) (len1 s) (len1 s - 1)) (fun k => exists A1 A2, A' = A1 ++ A2 /\
    len1 s - k = Z.of_nat (length A2) /\ hiGood A1 (B' ++ [b]) (A2 ++ R) /\ (mergeable -> Forall (fun x => ~ less c b x) A1)).
Proof.
  intros Hv Hg HA. pose proof (hiGood_size _ _ _ Hg). destruct (lens_hi _ _ _ _ Hv) as [-> _].
  eapply ensures_mono; [apply (GallopRight_ensures SortCompare c _ _ A'); [by eapply segmentLeft_hi|lia|lia]|].
  cbv beta. intros k [Hk Hcut]. destruct (cut_split c notNegative b A' k Hk) as (A1 & A2 & -> & -> & Hsplit).
  assert (mergeable -> Forall (fun v => notNegative (c b v) = true) A1 /\ Forall (fun v => notNegative (c b v) = false) A2) as Hs.
  { intros Hok. apply Hsplit, Hcut; [by destruct Hok|]. by destruct (hi_merge _ _ _ Hg Hok). }
  exists A1, A2. rewrite length_app. split_and?; [done|lia| |].
  - apply hiGood_left; [done|]. intros Hok. destruct (Hs Hok) as [_ Hr]. destruct (hi_merge _ _ _ Hg Hok) as (_ & Hsb & _).
    apply sorted_app in Hsb as (_ & _ & Hb). destruct Hok as ((_ & Hc) & _). eapply Forall_impl; [exact Hr|]. cbn. intros x Hx.
    assert (less c b x) as Hbx by (unfold less, notNegative in *; by destruct (c b x)).
    apply Forall_app. split; [|by constructor]. eapply Forall_impl; [exact Hb|]. intros y Hy. apply Forall_cons in Hy as [Hy _].
    by apply (leq_less_trans c Hc y b x).
  - intros Hok. destruct (Hs Hok) as [Hl _]. eapply Forall_impl; [exact Hl|]. cbn. intros x Hx.
    unfold less, notNegative in *. by destruct (c b x).
Qed.

Lemma gallopLeft_hi A' a B' R s : hiView (A' ++ [a]) B' R s -> hiGood (A' ++ [a]) B' R -> (0 < length B')%nat ->
  ensures (GallopLeft SortCompare (tmp s) a 0 (len2 s) (len2 s - 1)) (fun k => exists B1 B2, B' = B1 ++ B2 /\
    len2 s - k = Z.of_nat (length B2) /\ hiGood (A' ++ [a]) B1 (B2 ++ R) /\ (mergeable -> Forall (fun y => less c y a) B1)).
Proof.
  intros Hv Hg HB. pose proof (hiGood_size _ _ _ Hg). destruct (lens_hi _ _ _ _ Hv) as [_ ->].
  eapply ensures_mono; [apply (GallopLeft_ensures SortCompare c _ _ B'); [by eapply segmentRight_hi|lia|lia]|].
  cbv beta. intros k [Hk Hcut]. destruct (cut_split c positive a B' k Hk) as (B1 & B2 & -> & -> & Hsplit).
  assert (mergeable -> Forall (fun v => positive (c a v) = true) B1 /\ Forall (fun v => positive (c a v) = false) B2) as Hs.
  { intros Hok. apply Hsplit, Hcut; [by destruct Hok|]. by destruct (hi_merge _ _ _ Hg Hok) as (_ & ? & _). }
  exists B1, B2. rewrite length_app. split_and?; [done|lia| |].
  - apply hiGood_right; [done|]. intros Hok. destruct (Hs Hok) as [_ Hr]. destruct (hi_merge _ _ _ Hg Hok) as (Hsa & _).
    apply sorted_app in Hsa as (_ & _ & Ha). destruct Hok as ((_ & Hc) & _). eapply Forall_impl; [exact Hr|]. cbn. intros y Hy.
    assert (leq c a y) as Hay by (unfold leq; by destruct (c a y)).
    apply Forall_app. split; [|constructor; [by apply (not_less c Hc)|done]]. eapply Forall_impl; [exact Ha|].
    intros x Hx. apply Forall_cons in Hx as [Hx _]. apply (not_less c Hc). by apply (leq_trans c Hc x a y).
  - intros Hok. destruct (Hs Hok) as [Hl _]. destruct Hok as ((_ & Hc) & _). eapply Forall_impl; [exact Hl|]. cbn. intros y Hy.
    unfold less. rewrite (opposite c Hc a y). by destruct (c a y).
Qed.

(** The conditional copies of the blocks. *)
Lemma copyLeftIf_hi A1 A2 B' R s count1 : hiView (A1 ++ A2) B' R s -> count1 = Z.of_nat (length A2) ->
  ensures (W := W) (if negb (count1 =? 0) then
      work' ← lift (CopyArrayWithin (work s) (cursor1 s - count1 + 1) (dest s - count1 + 1) count1);
      mret (mkMerge work' (tmp s) (cursor1 s - count1) (cursor2 s) (dest s - count1) (len1 s - count1) (len2 s))
    else mret s) (hiView A1 B' (A2 ++ R)).
Proof.
  intros Hv Ec. destruct (Z.eqb_spec count1 0) as [E|E]; cbn [negb].
  - destruct A2; [|cbn in Ec; lia]. apply ensures_ret. by rewrite app_nil_r in Hv.
  - destruct (copyLeft_hi _ _ _ _ _ _ Hv Ec) as (work' & E' & Hv'). eapply ensures_lift_bind; [exact E'|]. by apply ensures_ret.
Qed.

Lemma copyRightIf_hi A' B1 B2 R s count2 : hiView A' (B1 ++ B2) R s -> count2 = Z.of_nat (length B2) ->
  ensures (W := W) (if negb (count2 =? 0) then
      work' ← lift (CopyArrayTo (tmp s) (cursor2 s - count2 + 1) (work s) (dest s - count2 + 1) count2);
      mret (mkMerge work' (tmp s) (cursor1 s) (cursor2 s - count2) (dest s - count2) (len1 s) (len2 s - count2))
    else mret s) (hiView A' B1 (B2 ++ R)).
Proof.
  intros Hv Ec. destruct (Z.eqb_spec count2 0) as [E|E]; cbn [negb].
  - destruct B2; [|cbn in Ec; lia]. apply ensures_ret. by rewrite app_nil_r in Hv.
  - destruct (copyRight_hi _ _ _ _ _ _ Hv Ec) as (work' & E' & Hv'). eapply ensures_lift_bind; [exact E'|]. by apply ensures_ret.
Qed.

(** A round of the block loop goes on or leaves with fewer elements to merge, or is done. *)
Definition hiBlocked (n : nat) (r : Merge * Z + (Merge * Z + Merge * Z)) : Prop :=
  match r with
  | inl (s, _) | inr (inl (s, _)) => exists m, (m < n)%nat /\ hiGoing m s
  | inr (inr (s, _)) => hiDone s
  end.

Lemma mergeHiBlocks_ensures fuel minGallop s N : hiGoing N s -> (N < fuel)%nat ->
  ensures (mergeHiBlocks SortCompare fuel (Z.of_nat (length P)) minGallop s) (fun r =>
    match r with inl (s', _) => exists m, (m < N)%nat /\ hiGoing m s' | inr (s', _) => hiDone s' end).
Proof.
  intros Hs Hf. unfold mergeHiBlocks.
  apply (ensures_loop (fun '(s, _) => hiGoing N s) (fun '(s, _) => remaining s)); [done| |].
  { destruct Hs as (A' & B' & R & Hv & _ & _ & _ & HN). destruct (lens_hi _ _ _ _ Hv). unfold remaining. lia. }
  clear s minGallop Hs. intros [s minGallop] (A' & B' & R & Hv & Hg & HA & HB & HN).
  eapply ensures_mono with (P := hiBlocked (remaining s)); [|destruct (lens_hi _ _ _ _ Hv) as [El1 El2]].
  2:{ intros [[s' ?]|[[s' ?]|[s' ?]]]; cbn.
      - intros (m & Hm & M1 & A1 & B1 & Hv1 & Hg1 & H1 & H2 & H3). destruct (lens_hi _ _ _ _ Hv1) as [E1 E2].
        unfold remaining in *. split; [|lia]. exists M1, A1, B1. split_and?; done || lia.
      - intros (m & Hm & Hgo). exists m. split; [unfold remaining in *; lia|done].
      - done. }
  destruct (lens_hi _ _ _ _ Hv) as [El1 El2]. destruct (snoc_inv B') as (B0 & b & ->); [lia|].
  eapply ensures_lift_bind; [by eapply cursor2_hi|]. eapply ensures_bind; [by apply (gallopRight_hi A' B0 b R); [..|lia]|].
  cbv beta zeta. intros k (A1 & A2 & -> & Ek & Hg1 & Hge). eapply ensures_bind; [by apply copyLeftIf_hi|]. intros s1 Hv1.
  destruct (lens_hi _ _ _ _ Hv1) as [El3 El4]. rewrite !length_app in *. cbn [length] in *.
  destruct (negb _ && (len1 s1 =? 0)) eqn:E1.
  { apply ensures_ret. apply andb_true_iff in E1 as [_ E1]. eexists _, _, _. split_and?; [exact Hv1|exact Hg1|]. left.
    apply nil_length_inv. lia. }
  assert (1 <= length A1)%nat as HA1.
  { apply andb_false_iff in E1 as [E1|E1]; [|lia]. destruct (Z.eqb_spec (len1 s - k) 0); [lia|done]. }
  destruct (takeRight_hi _ _ _ _ _ Hv1) as (s2 & E2 & Hv2). eapply ensures_lift_bind; [exact E2|].
  assert (hiGood A1 B0 ([b] ++ A2 ++ R)) as Hg2 by (apply hiGood_right; [done|]; intros Hok; constructor; auto).
  destruct (lens_hi _ _ _ _ Hv2) as [El5 El6]. destruct (Z.eqb_spec (len2 s2) 1) as [Ez|Ez].
  { apply ensures_ret. eexists _, _, _. split_and?; [exact Hv2|exact Hg2|]. right. lia. }
  destruct (snoc_inv A1) as (A0 & a & ->); [lia|].
  eapply ensures_lift_bind; [by eapply cursor1_hi|]. eapply ensures_bind; [by apply (gallopLeft_hi A0 a B0 ([b] ++ A2 ++ R)); [..|lia]|].
  cbv beta zeta. intros k2 (B1 & B2 & -> & Ek2 & Hg3 & Hlt). eapply ensures_bind; [by apply copyRightIf_hi|]. intros s3 Hv3.
  destruct (lens_hi _ _ _ _ Hv3) as [El7 El8]. rewrite !length_app in *. cbn [length] in *.
  destruct (negb _ && (len2 s3 <=? 1)) eqn:E3.
  { apply ensures_ret. apply andb_true_iff in E3 as [_ E3]. eexists _, _, _. split_and?; [exact Hv3|exact Hg3|]. right. lia. }
  assert (2 <= length B1)%nat as HB1.
  { apply andb_false_iff in E3 as [E3|E3]; [|lia]. destruct (Z.eqb_spec (len2 s2 - k2) 0); [lia|done]. }
  destruct (takeLeft_hi _ _ _ _ _ Hv3) as (s4 & E4 & Hv4). eapply ensures_lift_bind; [exact E4|].
  assert (hiGood A0 B1 ([a] ++ B2 ++ [b] ++ A2 ++ R)) as Hg4 by (apply hiGood_left; [done|]; intros Hok; constructor; auto).
  destruct (lens_hi _ _ _ _ Hv4) as [El9 El10]. destruct (Z.eqb_spec (len1 s4) 0) as [Ez2|Ez2].
  { apply ensures_ret. eexists _, _, _. split_and?; [exact Hv4|exact Hg4|]. left. apply nil_length_inv. lia. }
  assert (exists m, (m < remaining s)%nat /\ hiGoing m s4) as Hgo.
  { exists (length A0 + length B1)%nat. split; [unfold remaining; lia|]. eexists _, _, _. split_and?; [exact Hv4|exact Hg4|lia..]. }
  destruct (_ || _); apply ensures_ret; exact Hgo.
Qed.

Lemma mergeHiLoop_ensures fuel minGallop s N : hiGoing N s -> (N < fuel)%nat ->
  ensures (mergeHiLoop SortCompare fuel (Z.of_nat (length P)) minGallop s) (fun '(s', _) => hiDone s').
Proof.
  intros Hs Hf. unfold mergeHiLoop.
  apply (ensures_loop (fun '(s, _) => hiGoing (remaining s) s /\ (remaining s <= N)%nat) (fun '(s, _) => remaining s)).
  - destruct Hs as (A' & B' & R & Hv & Hg & HA & HB & HN). destruct (lens_hi _ _ _ _ Hv). unfold remaining.
    split; [|lia]. exists A', B', R. split_and?; done || lia.
  - destruct Hs as (A' & B' & R & Hv & Hg & HA & HB & HN). destruct (lens_hi _ _ _ _ Hv). unfold remaining. lia.
  - clear s minGallop Hs. intros [s minGallop] [Hs HN]. eapply ensures_bind; [apply (mergeHiOnes_ensures _ _ _ _ Hs); lia|].
    intros [s1|s1] H1; [|by apply ensures_ret]. eapply ensures_bind; [apply (mergeHiBlocks_ensures _ _ _ _ H1); lia|].
    intros [[s2 g]|[s2 g]] H2; [|by apply ensures_ret]. destruct H2 as (m & Hm & A' & B' & R & Hv & Hg & HA & HB & HN2).
    destruct (lens_hi _ _ _ _ Hv). apply ensures_ret. unfold remaining in *. split_and?; [|lia|lia].
    exists A', B', R. split_and?; done || lia.
Qed.

Lemma rest_hi A' B' R s : hiView A' B' R s -> hiGood A' B' R -> A' = [] \/ B' = [] ->
  exists R', CopyArrayTo (tmp s) 0 (work s) (dest s - (len2 s - 1)) (len2 s) = Ok (P ++ R' ++ S) /\ merged R'.
Proof.
  intros Hv [HP HM] He. destruct (lens_hi _ _ _ _ Hv) as [El1 El2].
  destruct (copyRight_hi A' [] B' R s (len2 s) Hv El2) as (work' & E & Hv').
  assert (cursor2 s - len2 s + 1 = 0) as E0 by (destruct Hv as (G & T & _ & _ & _ & _ & Ec & _); lia). rewrite E0 in E.
  replace (dest s - (len2 s - 1)) with (dest s - len2 s + 1) by lia. rewrite E.
  destruct Hv' as (G & T & Ew & HG & _). destruct G; [|done]. cbn [work app] in Ew. subst work'. exists (A' ++ B' ++ R).
  split; [f_equal; app_eq|]. split; [done|]. intros Hok. destruct (HM Hok) as (_ & _ & _ & <-).
  rewrite app_assoc. f_equal. destruct He as [->| ->]; [done|]. by rewrite merge_nil_r, app_nil_r.
Qed.

Lemma last_hi A' b R s : hiView A' [b] R s -> hiGood A' [b] R ->
  exists R', mergeHiLast s = Ok (P ++ R' ++ S) /\ merged R'.
Proof.
  intros Hv [HP HM]. destruct (lens_hi _ _ _ _ Hv) as [El1 El2]. unfold mergeHiLast.
  destruct (copyLeft_hi [] A' [b] R s (len1 s) Hv El1) as (work' & E & Hv'). rewrite E, bind_Ok, (cursor2_hi A' [] b R s Hv), bind_Ok.
  assert (dest s - len1 s = Z.of_nat (length P)) as ->.
  { destruct Hv as (G & T & _ & _ & _ & _ & _ & Ed & _). cbn [length] in Ed. lia. }
  destruct Hv' as (G & T & Ew & HG & _). destruct G as [|g [|]]; [done| |done]. cbn [work app] in Ew. subst work'.
  rewrite put_middle by done. exists ([b] ++ A' ++ R). split; [f_equal; app_eq|]. split.
  - rewrite <- HP, !app_assoc. by rewrite (Permutation_app_comm [b]).
  - intros Hok. destruct (HM Hok) as (_ & _ & Hh & <-). rewrite app_assoc. f_equal.
    assert (merge c A' ([b] ++ []) = [b] ++ merge c A' []) as E1 by (apply merge_right; constructor; [by apply (Hh b [])|done]).
    rewrite app_nil_r, merge_nil_r in E1. by rewrite E1.
Qed.

Lemma mergeHiEpilogue_returns s : hiDone s -> returns (mergeHiEpilogue s) (fun work' => exists R, work' = P ++ R ++ S /\ merged R).
Proof.
  intros (A' & B' & R & Hv & Hg & Hd). destruct (lens_hi _ _ _ _ Hv) as [El1 El2]. unfold mergeHiEpilogue.
  destruct (Z.eqb_spec (len2 s) 1) as [E|E].
  - destruct B' as [|b [|]]; [cbn in El2; lia| |cbn in El2; lia].
    destruct (last_hi _ _ _ _ Hv Hg) as (R' & E1 & HR). rewrite E1. by exists R'.
  - assert (A' = [] \/ B' = []) as He by (destruct Hd as [?|Hd]; [by left|right; apply nil_length_inv; lia]).
    destruct (rest_hi _ _ _ _ Hv Hg He) as (R' & E1 & HR). rewrite E1. by exists R'.
Qed.

Lemma hiGood_start : hiGood A B [].
Proof. split; [by rewrite app_nil_r|]. intros (_ & H1 & H2 & H3 & _). by rewrite app_nil_r. Qed.

Lemma takeLeftHi_tmp s s' : takeLeftHi s = Ok s' -> tmp s' = tmp s.
Proof. unfold takeLeftHi. destruct (at_ _ _); [|done]. rewrite bind_Ok. destruct (put _ _ _); [|done]. by intros [= <-]. Qed.

Lemma MergeHi_ensures ts : elements_ ts = P ++ A ++ B ++ S -> (0 < length A)%nat -> (0 < length B)%nat ->
  ensures (MergeHi SortCompare ts (Z.of_nat (length P)) (Z.of_nat (length A)) (Z.of_nat (length P + length A)) (Z.of_nat (length B)))
    (fun ts' => pending_ ts' = pending_ ts /\ exists R, elements_ ts' = P ++ R ++ S /\ merged R).
Proof.
  intros Ee HA HB. unfold MergeHi. rewrite Ee. destruct (GetTempArray_room (tmp_ ts) (length B)) as (T1 & T2 & Et & HT). rewrite Et.
  eapply ensures_lift_bind.
  { rewrite app_assoc. apply (CopyArrayTo_eq (P ++ A) B S [] T1 T2); [rewrite length_app; lia|done..]. }
  set (s0 := mkMerge _ _ _ _ _ _ _). destruct (snoc_inv A) as (A' & a & EA); [lia|].
  assert (hiView A B [] s0) as Hv0.
  { exists B, T2. unfold s0. cbn [work tmp cursor1 dest cursor2 len1 len2 length app]. split_and?; done || lia. }
  pose proof hiGood_start as Hg0. rewrite EA in Hv0, Hg0.
  destruct (takeLeft_hi _ _ _ _ _ Hv0) as (s1 & E1 & Hv1). eapply ensures_lift_bind; [exact E1|].
  pose proof (takeLeftHi_tmp _ _ E1) as Etmp. unfold s0 in Etmp. cbn [tmp] in Etmp.
  assert (hiGood A' B [a]) as Hg1.
  { apply (hiGood_left A' [a] B [] Hg0). intros (_ & _ & _ & _ & H). constructor; [|done]. by apply (H A' a). }
  destruct (lens_hi _ _ _ _ Hv1) as [El1 El2].
  destruct (Z.eqb_spec (len1 s1) 0) as [Ez|Ez].
  - rewrite Ez in El1. destruct A'; [|done]. destruct (rest_hi _ _ _ _ Hv1 Hg1) as (R & E2 & HR); [by left|]. rewrite Etmp, El2 in E2.
    eapply ensures_lift_bind; [exact E2|]. apply ensures_ret. split; [done|]. by exists R.
  - destruct (Z.eqb_spec (Z.of_nat (length B)) 1) as [EB|EB].
    + assert (exists b, B = [b]) as [b Eb] by (destruct B as [|b [|]]; cbn in EB; try lia; eauto).
      rewrite Eb in Hv1, Hg1. destruct (last_hi _ _ _ _ Hv1 Hg1) as (R & E2 & HR).
      eapply ensures_lift_bind; [exact E2|]. apply ensures_ret. split; [done|]. by exists R.
    + eapply ensures_bind.
      { apply (mergeHiLoop_ensures _ _ _ (length A' + length B)); [|rewrite EA, length_app; cbn [length]; lia].
        exists A', B, [a]. split_and?; [exact Hv1|done|lia..]. }
      intros [s2 minGallop] Hd. pose proof (mergeHiEpilogue_returns s2 Hd) as HR. apply returns_iff in HR as (work' & E2 & R & -> & HR).
      eapply ensures_lift_bind; [exact E2|]. apply ensures_ret. split; [done|]. by exists R.
Qed.
End MergeHi.
