(* ===== verification/TimSortCorrect.v ===== *)
(** * TimSort: the stack of runs and the sort

    [MergeAt], [MergeCollapse], [MergeForceCollapse] and [Sort].  For every comparison the sort
    ends, reads and writes within the arrays and leaves a permutation of the elements; if the
    comparison is a total preorder it leaves the stably sorted elements. *)

From Stdlib Require Import ZArith Lia Permutation.
From S2P Require Import Prelude BigIntBase Double Values SortSpec TimSort TimSortSearch TimSortRuns TimSortMerge TimSortMergeHi.

(** ** The stack of runs *)

(** The runs lie one behind the other. *)
Fixpoint layout (b : nat) (Rs : list (list JSTaggedValue)) : list run :=
  match Rs with
  | [] => []
  | R :: Rs => mkRun (Z.of_nat b) (Z.of_nat (length R)) :: layout (b + length R) Rs
  end.

Lemma layout_app b Q Z : layout b (Q ++ Z) = layout b Q ++ layout (b + length (concat Q)) Z.
Proof.
  revert b. induction Q as [|R Q IH]; intros b; cbn [layout app concat length]; [by rewrite Nat.add_0_r|].
  rewrite IH, length_app. do 2 f_equal. f_equal. lia.
Qed.

Lemma layout_length b Rs : length (layout b Rs) = length Rs.
Proof. revert b. induction Rs as [|R Rs IH]; intros b; cbn; [done|]. by rewrite IH. Qed.

Lemma runAt_ok pending i : 0 <= i < Z.of_nat (length pending) -> exists r, runAt pending i = Ok r.
Proof.
  intros Hi. unfold runAt, at_. destruct (Z.ltb_spec i 0); [lia|]. unfold get.
  destruct (lookup_lt_is_Some_2 pending (Z.to_nat i)) as [r ->]; [lia|eauto].
Qed.

(** ** The balance of the stack *)

(** From the top: every run is longer than the one above it, and than the two above it together. *)
Fixpoint balancedTop (r : list Z) : Prop :=
  match r with
  | c :: r' => match r' with b :: r'' => c < b /\ (match r'' with a :: _ => b + c < a | [] => True end) | [] => True end /\ balancedTop r'
  | [] => True
  end.

Definition balanced (ns : list Z) : Prop := balancedTop (reverse ns).

(** All but the two topmost runs. *)
Definition balancedBelow (ns : list Z) : Prop := balancedTop (drop 2 (reverse ns)).

Lemma reverse_shape (ns : list Z) :
  (length ns <= 1)%nat \/ (exists b c, ns = [b; c]) \/ (exists a b c, ns = [a; b; c]) \/ (exists q d a b c, ns = q ++ [d; a; b; c]).
Proof.
  destruct ns as [|c ns _] using rev_ind; [left; cbn; lia|]. destruct ns as [|b ns _] using rev_ind; [left; cbn; lia|].
  destruct ns as [|a ns _] using rev_ind; [right; left; by exists b, c|]. destruct ns as [|d ns _] using rev_ind; [do 2 right; left; by exists a, b, c|].
  do 3 right. exists ns, d, a, b, c. app_eq.
Qed.

Section Sorting.
  Context {W : Type} `{!StateInv W}.
  Variable SortCompare : W -> JSTaggedValue -> JSTaggedValue -> comparison * W.
  Context `{!Preserves SortCompare}.
  Variable c : JSTaggedValue -> JSTaggedValue -> comparison.
  Notation agrees := (agrees SortCompare c).
  Notation ordered := (ordered SortCompare c).

(** Merging neighbouring runs: the parts that are in place are left alone. *)
Definition mergeRuns (ts : TimSort) (base1 n1 base2 n2 : Z) : M W TimSort :=
  key1 ← lift (at_ (elements_ ts) base2);
  k ← GallopRight SortCompare (elements_ ts) key1 base1 n1 0;
  let base1 := base1 + k in
  let n1 := n1 - k in
  if n1 =? 0 then mret ts else
  key2 ← lift (at_ (elements_ ts) (base1 + n1 - 1));
  n2 ← GallopLeft SortCompare (elements_ ts) key2 base2 n2 (n2 - 1);
  if n2 =? 0 then mret ts else
  if n1 <=? n2 then MergeLo SortCompare ts base1 n1 base2 n2 else MergeHi SortCompare ts base1 n1 base2 n2.

(** [R] is what the runs [R1] and [R2] become. *)
Definition joined (R1 R2 R : list JSTaggedValue) : Prop :=
  Permutation R (R1 ++ R2) /\ (agrees -> sorted c R1 -> sorted c R2 -> R = merge c R1 R2).

Lemma merge_inside A0 A B B1 b a R' : preorder c -> sorted c (A0 ++ A ++ [a]) -> sorted c (b :: B ++ B1) ->
  Forall (fun x => ~ less c b x) A0 -> Forall (fun y => ~ less c y a) B1 -> R' = merge c (A ++ [a]) (b :: B) ->
  A0 ++ R' ++ B1 = merge c (A0 ++ A ++ [a]) ((b :: B) ++ B1).
Proof.
  intros Hc Hs1 Hs2 H1 H2 ->. rewrite (merge_left c A0), (merge_right_last c (A ++ [a]) (b :: B) B1); [done| |].
  - apply sorted_app in Hs1 as (_ & Hs1 & _). apply sorted_app in Hs1 as (_ & _ & Ha).
    eapply Forall_impl; [exact H2|]. cbn. intros y Hy. apply Forall_app. split; [|by constructor].
    eapply Forall_impl; [exact Ha|]. intros x Hx. apply Forall_cons in Hx as [Hx _]. apply (not_less c Hc).
    apply (leq_trans c Hc x a y); [done|]. by apply (not_less c Hc).
  - inversion Hs2 as [|? ? Hb _]; subst. eapply Forall_impl; [exact H1|]. cbn. intros x Hx. constructor; [done|].
    eapply Forall_impl; [exact Hb|]. intros y Hy. apply (not_less c Hc). apply (leq_trans c Hc x b y); [|done]. by apply (not_less c Hc).
Qed.

Lemma joined_in_place R1 b R2 : (agrees -> sorted c R1 -> Forall (fun x => ~ less c b x) R1) -> joined R1 (b :: R2) (R1 ++ b :: R2).
Proof.
  intros H. split; [done|]. intros Hag Hs1 Hs2. specialize (H Hag Hs1). destruct Hag as [_ Hc].
  rewrite <- (app_nil_r R1) at 2. rewrite merge_left; [done|]. inversion Hs2 as [|? ? Hb _]; subst.
  eapply Forall_impl; [exact H|]. cbn. intros x Hx. constructor; [done|].
  eapply Forall_impl; [exact Hb|]. intros y Hy. apply (not_less c Hc). apply (leq_trans c Hc x b y); [|done]. by apply (not_less c Hc).
Qed.

Lemma notNegative_less x y : notNegative (c x y) = true <-> ~ less c x y.
Proof. unfold notNegative, less. by destruct (c x y). Qed.

Lemma notNegative_false x y : notNegative (c x y) = false <-> less c x y.
Proof. unfold notNegative, less. by destruct (c x y). Qed.

Lemma positive_less x y : preorder c -> positive (c x y) = true <-> less c y x.
Proof. intros Hc. unfold less. rewrite (opposite c Hc x y). by destruct (c x y). Qed.

Lemma mergeRuns_ensures ts P R1 R2 S : elements_ ts = P ++ R1 ++ R2 ++ S -> (0 < length R1)%nat -> (0 < length R2)%nat ->
  Z.of_nat (length R1 + length R2) < 2 ^ 31 ->
  ensures (mergeRuns ts (Z.of_nat (length P)) (Z.of_nat (length R1)) (Z.of_nat (length P + length R1)) (Z.of_nat (length R2)))
    (fun ts' => pending_ ts' = pending_ ts /\ exists R, elements_ ts' = P ++ R ++ S /\ joined R1 R2 R).
Proof.
  intros Ee HR1 HR2 Hsize. unfold mergeRuns. rewrite Ee. destruct R2 as [|b R2]; [cbn in HR2; lia|].
  eapply (ensures_lift_bind _ b); [rewrite app_assoc; apply at_middle; rewrite length_app; lia|].
  eapply ensures_bind; [apply (GallopRight_ensures SortCompare c _ _ R1); [by exists P, ((b :: R2) ++ S)|lia|lia]|].
  cbv beta zeta. intros k [Hk Hcut]. destruct (cut_split c notNegative b R1 k Hk) as (A0 & A & -> & -> & Hsplit).
  assert (agrees -> sorted c (A0 ++ A) -> Forall (fun x => ~ less c b x) A0 /\ Forall (less c b) A) as Hs.
  { intros Hag Hs. destruct (Hsplit (Hcut Hag Hs)) as [Hl Hr].
    split; eapply Forall_impl; [exact Hl| |exact Hr|]; cbn; intros v; [by rewrite notNegative_less|by rewrite notNegative_false]. }
  clear Hcut Hsplit. rewrite length_app in *. destruct (Z.eqb_spec (Z.of_nat (length A0 + length A) - Z.of_nat (length A0)) 0) as [E|E].
  { destruct A; [|cbn in E; lia]. rewrite app_nil_r in *. apply ensures_ret. split; [done|]. exists (A0 ++ b :: R2). rewrite Ee. split; [app_eq|].
    apply joined_in_place. intros Hag Hs1. by apply Hs. }
  destruct (snoc_inv A) as (A1 & a & ->); [lia|].
  eapply (ensures_lift_bind _ a).
  { assert (P ++ (A0 ++ A1 ++ [a]) ++ (b :: R2) ++ S = (P ++ A0 ++ A1) ++ a :: (b :: R2) ++ S) as -> by app_eq.
    apply at_middle. rewrite !length_app. cbn. lia. }
  eapply ensures_bind.
  { apply (GallopLeft_ensures SortCompare c _ _ (b :: R2)); [|lia|lia]. exists (P ++ A0 ++ A1 ++ [a]), S. split; [app_eq|].
    rewrite !length_app. cbn. lia. }
  cbv beta. intros n2 [Hn2 Hcut]. destruct (cut_split c positive a (b :: R2) n2 Hn2) as (B & B1 & EB & -> & Hsplit).
  assert (agrees -> sorted c (b :: R2) -> Forall (fun y => less c y a) B /\ Forall (fun y => ~ less c y a) B1) as Hs2.
  { intros Hag Hs2. destruct (Hsplit (Hcut Hag Hs2)) as [Hl Hr]. destruct Hag as [_ Hc].
    split; eapply Forall_impl; [exact Hl| |exact Hr|]; cbn; intros v; [by rewrite positive_less|].
    intros Hv. rewrite <- positive_less by done. by rewrite Hv. }
  clear Hcut Hsplit. destruct (Z.eqb_spec (Z.of_nat (length B)) 0) as [E0|E0].
  { destruct B; [|done]. cbn [app] in EB. subst B1. apply ensures_ret. split; [done|]. exists ((A0 ++ A1 ++ [a]) ++ b :: R2). rewrite Ee.
    split; [app_eq|]. split; [done|]. intros Hag Hs1 Hsb. destruct (Hs Hag Hs1) as [_ H1]. destruct (Hs2 Hag Hsb) as [_ H2].
    apply Forall_app in H1 as [_ H1]. apply Forall_cons in H1 as [H1 _]. by apply Forall_cons in H2 as [H2 _]. }
  destruct B as [|b' B]; [done|]. injection EB as <- ->.
  assert (elements_ ts = (P ++ A0) ++ (A1 ++ [a]) ++ (b :: B) ++ (B1 ++ S)) as Ee' by (rewrite Ee; app_eq).
  eapply ensures_mono with (P := fun ts' => pending_ ts' = pending_ ts /\ exists R, elements_ ts' = (P ++ A0) ++ R ++ (B1 ++ S) /\
    merged SortCompare c (A1 ++ [a]) (b :: B) R).
  - replace (Z.of_nat (length P) + Z.of_nat (length A0)) with (Z.of_nat (length (P ++ A0))) by (rewrite length_app; lia).
    replace (Z.of_nat (length A0 + length (A1 ++ [a])) - Z.of_nat (length A0)) with (Z.of_nat (length (A1 ++ [a]))) by lia.
    replace (Z.of_nat (length P + (length A0 + length (A1 ++ [a])))) with (Z.of_nat (length (P ++ A0) + length (A1 ++ [a]))) by (rewrite (length_app P); lia).
    cbn [length] in Hsize. rewrite !length_app in Hsize. cbn [length] in Hsize.
    destruct (_ <=? _); [apply MergeLo_ensures|apply MergeHi_ensures]; rewrite ?length_app; cbn [length]; done || lia.
  - intros ts' (Ep & R & Er & HP & HM). split; [done|]. exists (A0 ++ R ++ B1). split; [rewrite Er; app_eq|]. split.
    + rewrite HP. rewrite <- !app_assoc. done.
    + intros Hag Hs1 Hsb. destruct (Hs Hag Hs1) as [H1 H2]. destruct (Hs2 Hag Hsb) as [H3 H4].
      assert (mergeable SortCompare c (A1 ++ [a]) (b :: B)) as Hok.
      { unfold mergeable. split_and?; [done|by apply sorted_app in Hs1 as (_ & Hs1 & _)|by apply (sorted_app c (b :: B)) in Hsb as (Hsb & _)| |].
        - intros y B' [= <- _]. done.
        - intros A' x E'. apply app_inj_tail in E' as [_ <-]. done. }
      apply (merge_inside A0 A1 B B1 b a R); auto. by destruct Hag.
Qed.

(** ** The stack *)

Definition lengths (Rs : list (list JSTaggedValue)) : list Z := map (fun R => Z.of_nat (length R)) Rs.

(** Runs of the lengths [ns] lie in front of [rest], each a piece of the elements [L] put in order. *)
Definition stacked (L : list JSTaggedValue) (ns : list Z) (rest : list JSTaggedValue) (ts : TimSort) : Prop :=
  exists Rs Ls, elements_ ts = concat Rs ++ rest /\ pending_ ts = layout 0 Rs /\ Forall2 ordered Rs Ls /\
    L = concat Ls ++ rest /\ Forall (fun R => (0 < length R)%nat) Rs /\ lengths Rs = ns.

Lemma ordered_length R L : ordered R L -> length R = length L.
Proof. intros [HP _]. by apply Permutation_length. Qed.

Lemma ordered_concat Rs Ls : Forall2 ordered Rs Ls -> length (concat Rs) = length (concat Ls).
Proof. induction 1 as [|R L Rs Ls HR _ IH]; cbn; [done|]. rewrite !length_app, IH. by rewrite (ordered_length R L HR). Qed.

Lemma joined_ordered R1 R2 L1 L2 R : ordered R1 L1 -> ordered R2 L2 -> joined R1 R2 R -> ordered R (L1 ++ L2).
Proof.
  intros [HP1 HS1] [HP2 HS2] [HP HM]. split; [by rewrite HP, HP1, HP2|]. intros Hag. destruct (HS1 Hag) as [Hs1 Ht1].
  destruct (HS2 Hag) as [Hs2 Ht2]. rewrite (HM Hag Hs1 Hs2). destruct Hag as [_ Hc].
  split; [by apply merge_sorted|]. eapply stable_trans; [by apply merge_stable|]. by apply stable_app.
Qed.

(** Two of the three topmost runs become one on the stack. *)
Lemma mergePending Q R1 R2 Z i b : (length Z <= 1)%nat -> i = Z.of_nat (length Q) -> b = length (concat Q) ->
  let pending := layout 0 (Q ++ R1 :: R2 :: Z) in
  let joined_ := mkRun (Z.of_nat b) (Z.of_nat (length R1) + Z.of_nat (length R2)) in
  runAt pending i = Ok (mkRun (Z.of_nat b) (Z.of_nat (length R1))) /\
  runAt pending (i + 1) = Ok (mkRun (Z.of_nat (b + length R1)) (Z.of_nat (length R2))) /\
  (pending ← put pending i joined_;
   pending ← (if i =? Z.of_nat (length (layout 0 (Q ++ R1 :: R2 :: Z))) - 3 then r3 ← runAt pending (i + 2); put pending (i + 1) r3 else Ok pending);
   Ok (removelast pending)) = Ok (layout 0 Q ++ joined_ :: layout (b + length R1 + length R2) Z).
Proof.
  intros HZ -> ->. cbv zeta. rewrite layout_app. cbn [layout Nat.add]. rewrite length_app. cbn [length]. rewrite !layout_length.
  set (r1 := mkRun _ _). set (r2 := mkRun _ (Z.of_nat (length R2))). set (r := mkRun _ (_ + _)). unfold runAt.
  assert (Z.of_nat (length Q) = Z.of_nat (length (layout 0 Q))) as EQ by (by rewrite layout_length).
  split_and!; [by apply at_middle| |].
  - assert (forall X, layout 0 Q ++ r1 :: r2 :: X = (layout 0 Q ++ [r1]) ++ r2 :: X) as -> by (intros; app_eq).
    apply at_middle. rewrite length_app. cbn. lia.
  - rewrite put_middle by done. rewrite bind_Ok. destruct Z as [|R3 [|]]; cbn [layout length] in *; [| |lia].
    + destruct (Z.eqb_spec (Z.of_nat (length Q)) (Z.of_nat (length Q + 2) - 3)); [lia|]. rewrite bind_Ok.
      change (layout 0 Q ++ [r; r2]) with (layout 0 Q ++ [r] ++ [r2]). rewrite app_assoc, removelast_last. done.
    + destruct (Z.eqb_spec (Z.of_nat (length Q)) (Z.of_nat (length Q + 3) - 3)); [|lia]. set (r3 := mkRun _ (Z.of_nat (length R3))).
      change (layout 0 Q ++ [r; r2; r3]) with (layout 0 Q ++ [r; r2] ++ r3 :: []). rewrite app_assoc.
      rewrite at_middle by (rewrite length_app; cbn; lia). rewrite bind_Ok, <- app_assoc. cbn [app].
      change (layout 0 Q ++ [r; r2; r3]) with (layout 0 Q ++ [r] ++ r2 :: [r3]). rewrite app_assoc.
      rewrite put_middle by (rewrite length_app; cbn; lia). rewrite bind_Ok, <- app_assoc.
      change (layout 0 Q ++ [r] ++ [r3; r3]) with (layout 0 Q ++ [r; r3] ++ [r3]). rewrite app_assoc, removelast_last. done.
Qed.

(** The runs [a] and [b], of the three topmost ones, become one. *)
Lemma MergeAt_ensures L q a b z rest ts i : stacked L (q ++ a :: b :: z) rest ts -> Z.of_nat (length L) < 2 ^ 30 ->
  i = Z.of_nat (length q) -> (length z <= 1)%nat ->
  ensures (MergeAt SortCompare ts i) (stacked L (q ++ (a + b) :: z) rest).
Proof.
  intros (Rs & Ls & Ee & Ep & HF & EL & Hne & Hn) Hsize -> Hz. unfold lengths in Hn.
  apply map_eq_app in Hn as (Q & Rs' & -> & <- & Hn). destruct Rs' as [|R1 [|R2 Z]]; cbn [map] in Hn; [done|done|]. injection Hn as <- <- <-.
  rewrite length_map in *.
  apply Forall2_app_inv_l in HF as (LQ & Ls' & HQ & HF & ->). inversion HF as [|? L1 ? Ls1 H1 HF1]; subst Ls'; subst.
  inversion HF1 as [|? L2 ? LZ H2 HZ2]; subst. apply Forall_app in Hne as [HneQ Hne]. apply Forall_cons in Hne as [Hne1 Hne].
  apply Forall_cons in Hne as [Hne2 HneZ].
  destruct (mergePending Q R1 R2 Z _ _ Hz eq_refl eq_refl) as (E1 & E2 & E3). unfold MergeAt. rewrite Ep in *.
  eapply ensures_lift_bind; [exact E1|]. eapply ensures_lift_bind; [exact E2|]. cbn [base len].
  destruct (put _ _ _) as [p1|]; [|done]. rewrite bind_Ok in E3. eapply ensures_lift_bind; [done|].
  destruct (if _ =? _ then _ else _) as [p2|]; [|done]. rewrite bind_Ok in E3. injection E3 as E3. eapply ensures_lift_bind; [done|].
  cbv zeta. rewrite E3. cbn [elements_].
  pose proof (ordered_length _ _ H1). pose proof (ordered_length _ _ H2).
  eapply ensures_mono.
  { apply (mergeRuns_ensures (mkTimSort (elements_ ts) (minGallop_ ts) (tmp_ ts) _) (concat Q) R1 R2 (concat Z ++ rest)); cbn [elements_].
    - rewrite Ee, concat_app. cbn [concat]. app_eq.
    - done.
    - done.
    - rewrite !concat_app, !length_app in Hsize. cbn [concat] in Hsize. rewrite !length_app in Hsize. lia. }
  intros ts' (Ep' & R & Er & HR). cbn [pending_] in Ep'.
  assert (ordered R (L1 ++ L2)) as Hord by (by apply (joined_ordered R1 R2)).
  pose proof (Permutation_length (proj1 HR)) as HlR. rewrite length_app in HlR.
  exists (Q ++ R :: Z), (LQ ++ (L1 ++ L2) :: LZ). split_and?.
  - rewrite Er, concat_app. cbn [concat]. app_eq.
  - rewrite Ep', layout_app. cbn [layout Nat.add]. rewrite HlR, Nat2Z.inj_add. do 3 f_equal. lia.
  - apply Forall2_app; [done|]. by constructor.
  - rewrite !concat_app. cbn [concat]. app_eq.
  - apply Forall_app. split; [done|]. constructor; [lia|done].
  - unfold lengths. rewrite map_app. cbn [map]. by rewrite HlR, Nat2Z.inj_add.
Qed.

Lemma stacked_pending L ns rest ts : stacked L ns rest ts -> length (pending_ ts) = length ns.
Proof. intros (Rs & Ls & _ & -> & _ & _ & _ & <-). unfold lengths. by rewrite layout_length, length_map. Qed.

Lemma stacked_positive L ns rest ts x : stacked L ns rest ts -> In x ns -> 0 < x.
Proof.
  intros (Rs & Ls & _ & _ & _ & _ & Hne & <-) Hx. unfold lengths in Hx. apply in_map_iff in Hx as (R & <- & HR).
  rewrite List.Forall_forall in Hne. specialize (Hne R HR). lia.
Qed.

Lemma layout_len b Rs : map len (layout b Rs) = lengths Rs.
Proof. revert b. induction Rs as [|R Rs IH]; intros b; cbn; [done|]. by rewrite IH. Qed.

(** [pending_[i].len] *)
Lemma runAt_len L q x z rest ts i : stacked L (q ++ x :: z) rest ts -> i = Z.of_nat (length q) ->
  exists r, runAt (pending_ ts) i = Ok r /\ len r = x.
Proof.
  intros (Rs & Ls & _ & Ep & _ & _ & _ & Hn) ->. rewrite <- (layout_len 0), <- Ep in Hn.
  apply map_eq_app in Hn as (p1 & p2 & Epp & <- & Hn). destruct p2 as [|r p2]; [done|]. injection Hn as <- <-.
  exists r. split; [|done]. rewrite Epp. apply at_middle. by rewrite length_map.
Qed.

Lemma lenAt_eq L q x z rest ts i : stacked L (q ++ x :: z) rest ts -> i = Z.of_nat (length q) ->
  (r ← runAt (pending_ ts) i; Ok (len r)) = Ok x.
Proof. intros Hs Hi. by destruct (runAt_len _ _ _ _ _ _ _ Hs Hi) as (r & -> & <-). Qed.

(** ** Collapsing *)

(** What a round of [MergeCollapse] leaves: the stack with two runs merged, or the result. *)
Definition collapsed (L rest : list JSTaggedValue) (n : nat) (r : TimSort + TimSort) : Prop :=
  match r with
  | inl ts => exists ns, stacked L ns rest ts /\ balancedBelow ns /\ (length (pending_ ts) < n)%nat
  | inr ts => exists ns, stacked L ns rest ts /\ balanced ns
  end.

Lemma mergeStep L q a b z rest ts i n : stacked L (q ++ a :: b :: z) rest ts -> Z.of_nat (length L) < 2 ^ 30 ->
  balancedBelow (q ++ a :: b :: z) -> i = Z.of_nat (length q) -> (length z <= 1)%nat -> n = length (pending_ ts) ->
  ensures (ts ← MergeAt SortCompare ts i; mret (inl ts)) (collapsed L rest n).
Proof.
  intros Hs Hsize Hb Hi Hz ->. eapply ensures_bind; [by apply (MergeAt_ensures _ _ _ _ _ _ _ _ Hs)|]. intros ts' Hs'. apply ensures_ret.
  exists (q ++ (a + b) :: z). split_and?; [done| |].
  - unfold balancedBelow in *. destruct z as [|x [|]]; [| |cbn in Hz; lia]; rewrite reverse_app in *.
    + change (reverse [a; b]) with [b; a] in Hb. change (reverse [a + b]) with [a + b]. cbn [app drop] in *.
      destruct (reverse q) as [|y r]; [done|]. cbn [drop]. by destruct r; destruct Hb.
    + change (reverse [a; b; x]) with [x; b; a] in Hb. change (reverse [a + b; x]) with [x; a + b]. cbn [app drop] in *.
      cbn [balancedTop] in Hb. apply Hb.
  - rewrite (stacked_pending _ _ _ _ Hs), (stacked_pending _ _ _ _ Hs'), !length_app. cbn [length]. lia.
Qed.

Lemma MergeCollapse_ensures L ns rest ts : stacked L ns rest ts -> Z.of_nat (length L) < 2 ^ 30 -> balancedBelow ns ->
  ensures (MergeCollapse SortCompare ts) (fun ts' => exists ns', stacked L ns' rest ts' /\ balanced ns').
Proof.
  intros Hs Hsize Hb. unfold MergeCollapse.
  apply (ensures_loop (fun ts => exists ns, stacked L ns rest ts /\ balancedBelow ns) (fun ts => length (pending_ ts))); [eauto|lia|].
  clear ts ns Hs Hb. intros ts (ns & Hs & Hb). pose proof (stacked_pending _ _ _ _ Hs) as Hp.
  eapply (ensures_mono _ (collapsed L rest (length (pending_ ts)))).
  2:{ intros [ts'|ts']; [|done]. intros (ns' & H1 & H2 & H3). eauto. }
  destruct (reverse_shape ns) as [H1|[(b & d & ->)|[(a & b & d & ->)|(q & e & a & b & d & ->)]]].
  - destruct (Z.ltb_spec 1 (Z.of_nat (length (pending_ ts)))); [lia|]. apply ensures_ret. exists ns. split; [done|].
    destruct ns as [|x [|]]; [done| |cbn in H1; lia]. done.
  - rewrite Hp. cbn [length]. change (1 <? Z.of_nat 2) with true. cbv iota. change (Z.of_nat 2 - 2) with 0. cbv zeta.
    change (0 <? 0) with false. change (1 <? 0) with false. cbv iota. eapply ensures_lift_bind; [done|]. eapply ensures_lift_bind; [done|]. cbv iota.
    rewrite (lenAt_eq L [] b [d] rest ts 0 Hs eq_refl), (lenAt_eq L [b] d [] rest ts (0 + 1) Hs eq_refl).
    eapply ensures_lift_bind; [done|]. eapply ensures_lift_bind; [done|]. destruct (Z.leb_spec b d) as [H|H].
    + by apply (mergeStep L [] b d []); [..|cbn; lia|].
    + apply ensures_ret. exists [b; d]. split; [done|]. split_and!; [done|done|done].
  - rewrite Hp. cbn [length]. change (1 <? Z.of_nat 3) with true. cbv iota. change (Z.of_nat 3 - 2) with 1. cbv zeta.
    change (0 <? 1) with true. change (1 <? 1) with false. cbv iota.
    rewrite (lenAt_eq L [] a [b; d] rest ts (1 - 1) Hs eq_refl), (lenAt_eq L [a] b [d] rest ts 1 Hs eq_refl),
      (lenAt_eq L [a; b] d [] rest ts (1 + 1) Hs eq_refl). rewrite !bind_Ok.
    eapply ensures_lift_bind; [done|]. destruct (Z.leb_spec a (b + d)) as [H|H].
    + eapply ensures_lift_bind; [done|]. cbv iota. eapply ensures_lift_bind; [done|]. eapply ensures_lift_bind; [done|].
      destruct (Z.ltb_spec a d); [by apply (mergeStep L [] a b [d]); [..|cbn; lia|]|by apply (mergeStep L [a] b d []); [..|cbn; lia|]].
    + eapply ensures_lift_bind; [done|]. cbv iota. eapply ensures_lift_bind; [done|]. eapply ensures_lift_bind; [done|].
      destruct (Z.leb_spec b d) as [H'|H']; [by apply (mergeStep L [a] b d []); [..|cbn; lia|]|].
      apply ensures_ret. exists [a; b; d]. split; [done|]. unfold balanced.
      assert (0 < d) by (apply (stacked_positive _ _ _ _ _ Hs); rewrite ?in_app_iff; cbn; tauto). change (reverse [a; b; d]) with [d; b; a]. cbn. split_and!; lia || done.
  - assert (exists m, Z.of_nat (length (pending_ ts)) - 2 = m /\ m = Z.of_nat (length q) + 2) as (m & Em & Hm) by (eexists; split; [reflexivity|]; rewrite Hp, length_app; cbn; lia).
    destruct (Z.ltb_spec 1 (Z.of_nat (length (pending_ ts)))); [|lia]. rewrite Em. cbv zeta.
    destruct (Z.ltb_spec 0 m); [|lia]. destruct (Z.ltb_spec 1 m); [|lia].
    assert (q ++ [e; a; b; d] = (q ++ [e]) ++ a :: [b; d] /\ q ++ [e; a; b; d] = (q ++ [e; a]) ++ b :: [d] /\
      q ++ [e; a; b; d] = (q ++ [e; a; b]) ++ d :: []) as (Q1 & Q2 & Q3) by (split_and!; app_eq).
    pose proof Hs as Hs1. pose proof Hs as Hs2. pose proof Hs as Hs3. rewrite Q1 in Hs1. rewrite Q2 in Hs2. rewrite Q3 in Hs3.
    rewrite (lenAt_eq _ _ _ _ _ _ (m - 2) Hs) by lia. rewrite (lenAt_eq _ _ _ _ _ _ (m - 1) Hs1) by (rewrite length_app; cbn; lia).
    rewrite (lenAt_eq _ _ _ _ _ _ m Hs2) by (rewrite length_app; cbn; lia). rewrite (lenAt_eq _ _ _ _ _ _ (m + 1) Hs3) by (rewrite length_app; cbn; lia).
    rewrite !bind_Ok. eapply ensures_lift_bind; [done|].
    assert (forall u, (if a <=? b + d then Ok true else Ok (e <=? a + b)) = Ok u -> u = (a <=? b + d) || (e <=? a + b)) as Hu by (by destruct (a <=? b + d); intros u [= <-]).
    destruct (if a <=? b + d then Ok true else Ok (e <=? a + b)) as [u|] eqn:Eu; [|by destruct (a <=? b + d)].
    rewrite (Hu u eq_refl). clear Hu Eu u. eapply ensures_lift_bind; [done|].
    destruct ((a <=? b + d) || (e <=? a + b)) eqn:E.
    + eapply ensures_lift_bind; [done|]. eapply ensures_lift_bind; [done|]. destruct (Z.ltb_spec a d).
      * apply (mergeStep L (q ++ [e]) a b [d]); [done|done|by rewrite <- Q1|rewrite length_app; cbn; lia|cbn; lia|done].
      * apply (mergeStep L (q ++ [e; a]) b d []); [done|done|by rewrite <- Q2|rewrite length_app; cbn; lia|cbn; lia|done].
    + eapply ensures_lift_bind; [done|]. eapply ensures_lift_bind; [done|]. destruct (Z.leb_spec b d).
      * apply (mergeStep L (q ++ [e; a]) b d []); [done|done|by rewrite <- Q2|rewrite length_app; cbn; lia|cbn; lia|done].
      * apply ensures_ret. exists (q ++ [e; a; b; d]). split; [done|]. apply orb_false_iff in E as [E1 E2].
        assert (0 < d) by (apply (stacked_positive _ _ _ _ _ Hs); rewrite ?in_app_iff; cbn; tauto). assert (0 < b) by (apply (stacked_positive _ _ _ _ _ Hs); rewrite ?in_app_iff; cbn; tauto).
        unfold balanced, balancedBelow in *. rewrite reverse_app in *. change (reverse [e; a; b; d]) with [d; b; a; e] in *. cbn [app drop] in Hb.
        cbn [app balancedTop]. cbn [balancedTop] in Hb. split_and!; lia || apply Hb.
Qed.

Lemma MergeForceCollapse_ensures L ns rest ts : stacked L ns rest ts -> Z.of_nat (length L) < 2 ^ 30 ->
  ensures (MergeForceCollapse SortCompare ts) (fun ts' => exists ns', (length ns' <= 1)%nat /\ stacked L ns' rest ts').
Proof.
  intros Hs Hsize. unfold MergeForceCollapse.
  apply (ensures_loop (fun ts => exists ns, stacked L ns rest ts) (fun ts => length (pending_ ts))); [eauto|lia|].
  clear ts ns Hs. intros ts [ns Hs]. pose proof (stacked_pending _ _ _ _ Hs) as Hp.
  destruct (Z.ltb_spec 1 (Z.of_nat (length (pending_ ts)))) as [H1|H1]; [|apply ensures_ret; exists ns; split; [lia|done]].
  rewrite Hp. eapply (ensures_lift_any _ _ _ (fun i => exists q a b z, ns = q ++ a :: b :: z /\ i = Z.of_nat (length q) /\ (length z <= 1)%nat)).
  - assert (forall k, (k + 2 <= length ns <= k + 3)%nat -> exists q a b z, ns = q ++ a :: b :: z /\ Z.of_nat k = Z.of_nat (length q) /\ (length z <= 1)%nat) as Hk.
    { intros k Hk. exists (take k ns). destruct (drop k ns) as [|a [|b z]] eqn:E; apply (f_equal length) in E as El; rewrite length_drop in El; cbn in El; [lia..|].
      exists a, b, z. rewrite <- E, take_drop, length_take. split_and!; [done|lia|lia]. }
    destruct (Z.ltb_spec 0 (Z.of_nat (length ns) - 2)) as [Hn|Hn].
    + destruct (runAt_ok (pending_ ts) (Z.of_nat (length ns) - 2 - 1)) as [x ->]; [lia|]. rewrite bind_Ok.
      destruct (runAt_ok (pending_ ts) (Z.of_nat (length ns) - 2 + 1)) as [y ->]; [lia|]. rewrite bind_Ok. unfold returns.
      destruct (len x <? len y); [replace (Z.of_nat (length ns) - 2 - 1) with (Z.of_nat (length ns - 3)) by lia|
        replace (Z.of_nat (length ns) - 2) with (Z.of_nat (length ns - 2)) by lia]; apply Hk; lia.
    + unfold returns. replace (Z.of_nat (length ns) - 2) with (Z.of_nat (length ns - 2)) by lia. apply Hk. lia.
  - intros i (q & a & b & z & -> & -> & Hz). eapply ensures_bind; [by apply (MergeAt_ensures _ _ _ _ _ _ _ _ Hs)|]. intros ts' Hs'. apply ensures_ret.
    split; [eauto|]. rewrite (stacked_pending _ _ _ _ Hs'). rewrite !length_app. cbn [length]. lia.
Qed.
End Sorting.

(** ** The sort *)

Lemma ComputeMinRunLength_returns n : 0 <= n -> returns (ComputeMinRunLength n) (fun m => m <= n /\ (n < 64 -> m = n) /\ (64 <= n -> 32 <= m <= 64)).
Proof.
  intros Hn. unfold ComputeMinRunLength, MIN_MERGE. change (2 * 32) with 64. eapply returns_bind.
  - apply (while_loop_returns (fun '(k, r) => 0 <= k <= n /\ (r = 0 \/ r = 1) /\ (k = n -> r = 0) /\ (64 <= n -> 32 <= k) /\ (n < 64 -> k = n))
      (fun '(k, _) => Z.to_nat k)); [split_and!; lia|lia|].
    intros [k r] (Hk & Hr & Hr0 & H1 & H2) Hc. apply Z.leb_le in Hc. rewrite Z.shiftr_div_pow2 by lia. change (2 ^ 1) with 2.
    pose proof (Z.div_mod k 2 ltac:(lia)). pose proof (Z.mod_pos_bound k 2 ltac:(lia)).
    assert (Z.lor r (Z.land k 1) = 0 \/ Z.lor r (Z.land k 1) = 1) as Hor.
    { assert (Z.land k 1 = k mod 2) as -> by (apply (Z.land_ones k 1); lia).
      assert (k mod 2 = 0 \/ k mod 2 = 1) as [->| ->] by lia; destruct Hr as [->| ->]; (left; reflexivity) || (right; reflexivity). }
    cbn [returns]. split_and!; lia.
  - intros [k r] [(Hk & Hr & Hr0 & H1 & H2) Hc]. apply Z.leb_gt in Hc. cbn [returns]. split_and!; lia.
Qed.

Section Correct.
  Context {W : Type} `{!StateInv W}.
  Variable SortCompare : W -> JSTaggedValue -> JSTaggedValue -> comparison * W.
  Context `{!Preserves SortCompare}.
  Variable c : JSTaggedValue -> JSTaggedValue -> comparison.
  Notation ordered := (ordered SortCompare c).
  Notation stacked := (stacked SortCompare c).

Lemma stacked_push L ns rest ts R R0 rest' g t : stacked L ns rest ts -> ordered R R0 -> (0 < length R)%nat -> rest = R0 ++ rest' ->
  exists P, elements_ ts = P ++ rest /\ length P = (length L - length rest)%nat /\
    stacked L (ns ++ [Z.of_nat (length R)]) rest' (PushRun (mkTimSort (P ++ R ++ rest') g t (pending_ ts)) (Z.of_nat (length P)) (Z.of_nat (length R))).
Proof.
  intros (Rs & Ls & Ee & Ep & HF & EL & Hne & Hn) HR Hpos ->. pose proof (ordered_concat _ _ _ _ HF) as Hlen.
  exists (concat Rs). split; [done|]. split; [rewrite EL, length_app; lia|].
  exists (Rs ++ [R]), (Ls ++ [R0]). unfold PushRun. cbn [elements_ pending_ minGallop_ tmp_]. split_and?.
  - rewrite concat_app. cbn [concat]. app_eq.
  - rewrite Ep, layout_app. done.
  - apply Forall2_app; [done|]. by constructor.
  - rewrite EL, concat_app. cbn [concat]. app_eq.
  - apply Forall_app. split; [done|]. by constructor.
  - rewrite <- Hn. unfold lengths. by rewrite map_app.
Qed.

Lemma balanced_push ns n : balanced ns -> balancedBelow (ns ++ [n]).
Proof.
  unfold balanced, balancedBelow. rewrite reverse_app. change (reverse [n]) with [n]. cbn [app drop].
  destruct (reverse ns) as [|x r]; [done|]. cbn [drop]. by intros [_ H].
Qed.

(** A run at the head of [rest], extended to the minimal length. *)
Lemma findRun_ensures P rest minRun : (0 < length rest)%nat -> Z.of_nat (length (P ++ rest)) < 2 ^ 30 ->
  ensures ('(runLen, elements) ← CountRunAndMakeAscending SortCompare (P ++ rest) (Z.of_nat (length P)) (Z.of_nat (length (P ++ rest)));
    (if runLen <? minRun then
       let force := Z.min (Z.of_nat (length rest)) minRun in
       elements ← BinarySort SortCompare elements (Z.of_nat (length P)) (Z.of_nat (length P) + force) (Z.of_nat (length P) + runLen);
       mret (force, elements)
     else mret (runLen, elements)))
    (fun '(runLen, elements) => exists R R0 rest', rest = R0 ++ rest' /\ elements = P ++ R ++ rest' /\ ordered R R0 /\
      (0 < length R)%nat /\ runLen = Z.of_nat (length R)).
Proof.
  intros Hpos Hsize. eapply ensures_bind; [by apply (CountRun_ensures SortCompare c)|].
  intros [runLen elements] (R0 & R & S & -> & -> & -> & HR & Hord). pose proof (ordered_length _ _ _ _ Hord) as HlR.
  destruct (Z.ltb_spec (Z.of_nat (length R)) minRun) as [Hlt|Hge].
  - cbv zeta. rewrite !length_app in *. set (force := Z.min _ minRun).
    set (X := take (Z.to_nat force - length R) S). set (S' := drop (Z.to_nat force - length R) S).
    assert (Z.of_nat (length R + length X) = force) as EX by (unfold X; rewrite length_take; lia).
    assert (S = X ++ S') as ES by (unfold X, S'; by rewrite take_drop).
    eapply ensures_bind.
    { rewrite ES at 1. replace (Z.of_nat (length P) + force) with (Z.of_nat (length P + length R + length X)) by lia.
      replace (Z.of_nat (length P) + Z.of_nat (length R)) with (Z.of_nat (length P + length R)) by lia.
      apply (BinarySort_ensures SortCompare c P R0 R X S'); [lia|done|]. rewrite <- ES, !length_app. lia. }
    intros array (R' & -> & HlR' & Hord'). apply ensures_ret. exists R', (R0 ++ X), S'. rewrite ES. split_and?; [app_eq|done|done|lia|lia].
  - apply ensures_ret. exists R, R0, S. split_and?; done.
Qed.

Lemma ensures_bind_pair {A1 A2 B C} (m : M W (A1 * A2)) (f : A1 -> A2 -> M W B) (k : B -> M W C) P Q :
  ensures (m ≫= fun '(a, b) => f a b) P -> (forall b, P b -> ensures (k b) Q) -> ensures (m ≫= fun '(a, b) => f a b ≫= k) Q.
Proof.
  intros Hm Hk w Hw. specialize (Hm w Hw). unfold mbind, M_bind in *. destruct (m w) as [[[a b] w']|]; [|done]. cbn in *.
  destruct (f a b w') as [[b' w'']|]; [|done]. destruct Hm as [Hb Hw']. by apply (Hk b' Hb).
Qed.

(** What the sort leaves. *)
Lemma Sort_ensures elements : Z.of_nat (length elements) < 2 ^ 30 ->
  ensures (Sort SortCompare elements) (fun sorted_ => ordered sorted_ elements).
Proof.
  intros Hsize. unfold Sort. destruct (Z.ltb_spec (Z.of_nat (length elements)) 2) as [H2|H2].
  { apply ensures_ret. split; [done|]. intros _. split; [|done]. destruct elements as [|x [|]]; cbn in H2; [constructor|repeat constructor|lia]. }
  destruct (Z.ltb_spec (Z.of_nat (length elements)) MIN_MERGE) as [H32|H32].
  - eapply ensures_bind; [apply (CountRun_ensures SortCompare c [] elements); lia|].
    intros [n array] (R0 & R & S & -> & -> & -> & HR & Hord). pose proof (ordered_length _ _ _ _ Hord) as HlR.
    rewrite length_app in *. eapply ensures_mono.
    { replace (Z.of_nat (length R0 + length S)) with (Z.of_nat (length (A := JSTaggedValue) [] + length R + length S)) by (cbn; lia).
      change (0 + Z.of_nat (length R)) with (Z.of_nat (length (A := JSTaggedValue) [] + length R)).
      rewrite <- (app_nil_r S) at 1. apply (BinarySort_ensures SortCompare c [] R0 R S []); [done|done|].
      cbn [app]. rewrite app_nil_r, length_app. lia. }
    intros array (R' & -> & _ & Hord'). cbn [app]. by rewrite app_nil_r.
  - pose proof (ComputeMinRunLength_returns (Z.of_nat (length elements)) ltac:(lia)) as HM.
    eapply ensures_lift_any; [exact HM|]. intros minRun _. clear HM.
    eapply (ensures_bind _ (fun ts => exists n, stacked elements n [] ts)).
    + apply (ensures_loop (fun '(ts, low, nRemaining) => exists ns rest, stacked elements ns rest ts /\ balanced ns /\
        low = Z.of_nat (length elements) - Z.of_nat (length rest) /\ nRemaining = Z.of_nat (length rest))
        (fun '(_, _, nRemaining) => Z.to_nat nRemaining)).
      * exists [], elements. split_and?; [|done|lia|done]. exists [], []. split_and?; done || constructor.
      * lia.
      * intros [[ts low] nRemaining] (n & rest & Hs & Hbal & Elow & ->). destruct (Z.eqb_spec (Z.of_nat (length rest)) 0) as [E0|E0].
        { destruct rest; [|done]. apply ensures_ret. by exists n. }
        assert (elements_ ts = (take (length elements - length rest) (elements_ ts)) ++ rest /\
          length (take (length elements - length rest) (elements_ ts)) = (length elements - length rest)%nat /\ (length rest <= length elements)%nat) as (Ee & HlP & Hle).
        { destruct Hs as (Rs & Ls & Ee & _ & HF & EL & _). pose proof (ordered_concat _ _ _ _ HF) as Hlen.
          rewrite Ee, EL, length_app, <- Hlen, Nat.add_sub, take_app_length. split_and?; [done|done|lia]. }
        set (P := take _ _) in *. rewrite Ee. replace low with (Z.of_nat (length P)) by (rewrite HlP; lia).
        assert (length elements = length (P ++ rest)) as EPr by (rewrite length_app, HlP; lia). rewrite EPr.
        eapply ensures_bind_pair; [apply findRun_ensures; [lia|by rewrite <- EPr]|].
        intros [runLen array] (R & R0 & rest' & -> & -> & Hord & HR & ->).
        pose proof (ordered_length _ _ _ _ Hord) as HlR.
        destruct (stacked_push elements n (R0 ++ rest') ts R R0 rest' (minGallop_ ts) (tmp_ ts) Hs Hord HR eq_refl) as (P' & Ee' & HlP' & Hs').
        assert (P' = P) as -> by (rewrite Ee in Ee'; by apply app_inv_tail in Ee').
        eapply ensures_bind; [apply (MergeCollapse_ensures SortCompare c _ _ _ _ Hs'); [done|by apply balanced_push]|]. intros ts' (m & Hs'' & Hbal'). apply ensures_ret.
        rewrite !length_app in *. split; [|lia]. exists m, rest'. split_and?; [done|done|lia|lia].
    + intros ts [n Hs]. eapply ensures_bind; [by apply (MergeForceCollapse_ensures SortCompare c elements n [])|].
      intros ts' (m & Hm & Rs & Ls & Ee & _ & HF & EL & _ & Hn). apply ensures_ret. rewrite app_nil_r in *. rewrite Ee, EL.
      destruct HF as [|R L1 Rs Ls HR HF]; [split; [done|]; intros _; split; [constructor|done]|].
      destruct HF; [|rewrite <- Hn in Hm; cbn in Hm; lia]. cbn [concat]. by rewrite !app_nil_r.
Qed.
End Correct.

(** ** The height of the stack *)

Definition total (r : list Z) : Z := foldr Z.add 0 r.

(** Every second run is at least twice as long. *)
Lemma balanced_total n r x : (length r <= n)%nat -> balancedTop (x :: r) -> Forall (fun y => 0 < y) (x :: r) ->
  x * (2 ^ (Z.of_nat (length r) / 2 + 1) - 1) <= total (x :: r).
Proof.
  revert r x. induction n as [|n IH]; intros r x Hn Hb Hp.
  - destruct r; [|cbn in Hn; lia]. cbn [length total foldr]. change (Z.of_nat 0 / 2 + 1) with 1. lia.
  - destruct r as [|y [|z r]].
    + cbn [length total foldr]. change (Z.of_nat 0 / 2 + 1) with 1. lia.
    + apply Forall_cons in Hp as [Hx Hp]. apply Forall_cons in Hp as [Hy _].
      cbn [length total foldr]. change (Z.of_nat 1 / 2 + 1) with 1. lia.
    + apply Forall_cons in Hp as [Hx Hp]. apply Forall_cons in Hp as [Hy Hp]. destruct Hb as [[Hxy Hxz] [_ Hb]].
      cbn [length] in *. specialize (IH r z ltac:(lia) Hb Hp).
      replace (Z.of_nat (S (S (length r)))) with (Z.of_nat (length r) + 1 * 2) by lia. rewrite Z.div_add by lia.
      change (total (x :: y :: z :: r)) with (x + (y + total (z :: r))).
      assert (0 <= Z.of_nat (length r) / 2) by (apply Z.div_pos; lia).
      rewrite (Z.pow_add_r 2 (Z.of_nat (length r) / 2 + 1)) by lia. change (2 ^ 1) with 2.
      assert (0 < 2 ^ (Z.of_nat (length r) / 2 + 1)) by (apply Z.pow_pos_nonneg; lia). nia.
Qed.

Lemma total_app r1 r2 : total (r1 ++ r2) = total r1 + total r2.
Proof. unfold total. induction r1 as [|x r1 IH]; cbn; [done|]. rewrite IH. lia. Qed.

Lemma total_reverse r : total (reverse r) = total r.
Proof. induction r as [|x r IH]; [done|]. rewrite reverse_cons, total_app, IH. unfold total. cbn [foldr]. lia. Qed.

Lemma total_lengths Rs : total (lengths Rs) = Z.of_nat (length (concat Rs)).
Proof. unfold total, lengths. induction Rs as [|R Rs IH]; cbn; [done|]. rewrite IH, length_app. lia. Qed.

Lemma balanced_height ns : balanced ns -> Forall (fun y => 0 < y) ns -> 2 ^ ((Z.of_nat (length ns) + 1) / 2) <= total ns + 1.
Proof.
  intros Hb Hp. unfold balanced in Hb. apply Forall_reverse in Hp. rewrite <- (length_reverse ns), <- (total_reverse ns).
  destruct (reverse ns) as [|x r]; [by cbn|]. pose proof (balanced_total (length r) r x ltac:(lia) Hb Hp) as H.
  apply Forall_cons in Hp as [Hx _]. cbn [length]. replace (Z.of_nat (S (length r)) + 1) with (Z.of_nat (length r) + 1 * 2) by lia.
  rewrite Z.div_add by lia. assert (0 <= Z.of_nat (length r) / 2) by (apply Z.div_pos; lia).
  assert (0 < 2 ^ (Z.of_nat (length r) / 2 + 1)) by (apply Z.pow_pos_nonneg; lia). nia.
Qed.

(** ** Theorems *)

(** Small integers by their last digit, with a state that counts the calls. *)
Definition lastDigit (x : JSTaggedValue) : Z := match x with Int z => z mod 10 | _ => 0 end.

Lemma compare_preorder {A} (key : A -> Z) : preorder (fun x y => key x ?= key y).
Proof.
  split; [intros x y; apply Z.compare_antisym|]. intros x y z. rewrite !Z.compare_le_iff. lia.
Qed.

(** The comparison that finds everything equal: any list is in order for it. *)
Definition allEqual (x y : JSTaggedValue) : comparison := Eq.

Lemma allEqual_sorted l : sorted allEqual l.
Proof. induction l as [|x l IH]; constructor; [|done]. apply Forall_true. done. Qed.

Lemma allEqual_ordered {W} `{!StateInv W} (SortCompare : W -> JSTaggedValue -> JSTaggedValue -> comparison * W) R :
  ordered SortCompare allEqual R R.
Proof. split; [done|]. intros _. split; [apply allEqual_sorted|done]. Qed.

(** C21: The runs on the stack stay balanced: after a run is pushed on a balanced stack and the
    stack is collapsed, every run but the last two is longer than the next two together, and the
    last but one longer than the last, so that the number of runs is at most logarithmic in the
    number of elements. *)
Theorem MergeCollapse_balances {W} (SortCompare : W -> JSTaggedValue -> JSTaggedValue -> comparison * W) (w : W) Rs R rest g t
    (Hne : Forall (fun R => (0 < length R)%nat) (Rs ++ [R])) (Hb : balanced (lengths Rs))
    (Hsize : Z.of_nat (length (concat Rs ++ R ++ rest)) < 2 ^ 30) :
  let ts := mkTimSort (concat Rs ++ R ++ rest) g t (layout 0 Rs) in
  exists ts' w' Rs', MergeCollapse SortCompare (PushRun ts (Z.of_nat (length (concat Rs))) (Z.of_nat (length R))) w = Ok (ts', w') /\
    elements_ ts' = concat Rs' ++ rest /\ pending_ ts' = layout 0 Rs' /\ balanced (lengths Rs') /\
    2 ^ ((Z.of_nat (length (pending_ ts')) + 1) / 2) <= Z.of_nat (length (concat Rs')) + 1.
Proof.
  cbv zeta. set (ts := PushRun _ _ _).
  assert (stacked (StateInv0 := fun _ => True) SortCompare allEqual (concat Rs ++ R ++ rest) (lengths Rs ++ [Z.of_nat (length R)]) rest ts) as Hs.
  { exists (Rs ++ [R]), (Rs ++ [R]). unfold ts, PushRun. cbn [elements_ pending_ minGallop_ tmp_]. rewrite concat_app, layout_app. cbn [concat].
    rewrite app_nil_r, <- app_assoc. split_and?; [done|done| |done|done|unfold lengths; by rewrite map_app].
    apply Forall2_same_length_lookup. split; [done|]. intros i x y Hx Hy. rewrite Hx in Hy. injection Hy as <-. apply allEqual_ordered. }
  pose proof (MergeCollapse_ensures (StateInv0 := fun _ => True) (Preserves0 := fun _ _ _ _ => I) SortCompare allEqual _ _ _ _ Hs Hsize
    (balanced_push _ _ Hb) w I) as H.
  apply returns_iff in H as ([ts' w'] & E & (ns & Hs' & Hb') & _). cbn [fst] in *. pose proof Hs' as (Rs' & Ls & H1 & H2 & _ & _ & Hne' & <-).
  exists ts', w', Rs'. split_and?; [done|done|done|done|]. rewrite (stacked_pending _ _ _ _ _ _ Hs'), <- total_lengths.
  apply balanced_height; [done|]. apply List.Forall_forall. intros x Hx. by apply (stacked_positive _ _ _ _ _ _ _ Hs').
Qed.

Lemma MergeCollapse_balances_witness :
  exists ts' w' Rs', MergeCollapse (fun (w : nat) x y => (lastDigit x ?= lastDigit y, S w))
      (PushRun (mkTimSort (concat [map Int [1; 2; 3]; map Int [4; 5]] ++ map Int [6; 7; 8] ++ []) 7 [] (layout 0 [map Int [1; 2; 3]; map Int [4; 5]])) 5 3) 0%nat
      = Ok (ts', w') /\
    elements_ ts' = concat Rs' ++ [] /\ pending_ ts' = layout 0 Rs' /\ balanced (lengths Rs') /\
    2 ^ ((Z.of_nat (length (pending_ ts')) + 1) / 2) <= Z.of_nat (length (concat Rs')) + 1.
Proof.
  apply (MergeCollapse_balances (fun (w : nat) x y => (lastDigit x ?= lastDigit y, S w)) 0%nat [map Int [1; 2; 3]; map Int [4; 5]] (map Int [6; 7; 8]) [] 7 []).
  - repeat constructor; cbn; lia.
  - vm_compute. repeat split.
  - by vm_compute.
Defined.

(** C19: For every comparison function, whatever it answers and does, [TimSort::Sort] ends
    normally, never reads or writes outside the arrays, and leaves a permutation of the elements. *)
Theorem TimSort_permutes {W} (SortCompare : W -> JSTaggedValue -> JSTaggedValue -> comparison * W) (w : W) elements
    (Hsize : Z.of_nat (length elements) < 2 ^ 30) :
  exists sorted_ w', Sort SortCompare elements w = Ok (sorted_, w') /\ Permutation sorted_ elements.
Proof.
  assert (ensures (StateInv0 := fun _ => True) (Sort SortCompare elements) (fun l => Permutation l elements)) as H.
  { eapply ensures_mono; [apply (Sort_ensures (StateInv0 := fun _ => True) (Preserves0 := fun _ _ _ _ => I) SortCompare (fun _ _ => Eq)); done|].
    by intros l [HP _]. }
  specialize (H w I). apply returns_iff in H as ([l w'] & E & HP & _). eauto.
Qed.

(** A comparison that answers at random. *)
Lemma TimSort_permutes_witness :
  exists sorted_ w', Sort (fun w _ _ => (match w mod 3 with 0 => Lt | 1 => Eq | _ => Gt end, (w * 1103515245 + 12345) / 7 mod 2 ^ 31))
    (map Int (seqZ 0 100)) 1 = Ok (sorted_, w') /\ Permutation sorted_ (map Int (seqZ 0 100)).
Proof. apply TimSort_permutes. by vm_compute. Defined.

Lemma sort_exact {W} (Inv : W -> Prop) (SortCompare : W -> JSTaggedValue -> JSTaggedValue -> comparison * W)
    (c : JSTaggedValue -> JSTaggedValue -> comparison) (w : W) elements : preorder c ->
  (forall w x y, Inv w -> (SortCompare w x y).1 = c x y /\ Inv (SortCompare w x y).2) ->
  Inv w -> Z.of_nat (length elements) < 2 ^ 30 ->
  exists w', Sort SortCompare elements w = Ok (isort c elements, w') /\ Inv w'.
Proof.
  intros Hc Hcompare Hw Hsize.
  assert (@Preserves W Inv SortCompare) as HP by (intros w' x y Hw'; by apply Hcompare).
  assert (@agrees W Inv SortCompare c) as Hag by (split; [intros w' x y Hw'; by apply Hcompare|done]).
  pose proof (Sort_ensures (StateInv0 := Inv) SortCompare c elements Hsize w Hw) as H.
  apply returns_iff in H as ([l w'] & E & [HPl HS] & Hw'). exists w'. split; [|done]. rewrite E. cbn [fst] in *. do 2 f_equal.
  destruct (HS Hag) as [Hs Ht]. apply (sorted_unique c Hc); [done|by apply isort_sorted|by rewrite isort_perm|].
  eapply stable_trans; [exact Ht|]. intros x. by rewrite isort_stable.
Qed.

(** C18: If the comparison is a total preorder as long as its state keeps to [Inv], the sort
    leaves exactly the list that stable insertion of the elements one by one gives: sorted, with
    equal elements in their order. *)
Theorem TimSort_sorts {W} (Inv : W -> Prop) (SortCompare : W -> JSTaggedValue -> JSTaggedValue -> comparison * W)
    (c : JSTaggedValue -> JSTaggedValue -> comparison) (w : W) elements (Hc : preorder c)
    (Hcompare : forall w x y, Inv w -> (SortCompare w x y).1 = c x y /\ Inv (SortCompare w x y).2)
    (Hw : Inv w) (Hsize : Z.of_nat (length elements) < 2 ^ 30) :
  exists w', Sort SortCompare elements w = Ok (isort c elements, w') /\ Inv w'.
Proof. by apply (sort_exact Inv). Qed.

Lemma TimSort_sorts_witness :
  exists w', Sort (fun w x y => (lastDigit x ?= lastDigit y, S w)) (map Int (seqZ 0 100)) 0%nat
    = Ok (isort (fun x y => lastDigit x ?= lastDigit y) (map Int (seqZ 0 100)), w') /\ True.
Proof.
  apply (TimSort_sorts (fun _ => True)); [apply compare_preorder|done|done|by vm_compute].
Defined.
