(* ===== verification/StringOrder.v ===== *)
(** * The default order of sorts

    [EcmaString::Compare] of src/ecmascript/ecma_string.cpp, [CompareStringSpan] of
    src/ecmascript/string/base_string-inl.h, and the proof that [IntLexicographicCompare]
    (in [NumberHelper]) orders two integers like their decimal strings, without making them. *)

From Stdlib Require Import ZArith Lia.
From S2P Require Import Prelude BigIntBase BigIntDiv Double Values BigIntNum NumberHelper SortSpec.

(** ** Model *)

Definition CompareStringSpan (lhsSp rhsSp : list Z) (count : nat) : result Z :=
  '(_, diff) ← while_loop count (fun '(i, diff) => (i <? count)%nat && (diff =? 0)) (fun '(i, diff) =>
    left ← get lhsSp i;
    right ← get rhsSp i;
    Ok (S i, left - right)) (0%nat, 0);
  Ok diff.

(** [EcmaString::Compare] on the code units of two strings that are not the same object; whether
    a string is stored in 8 or in 16 bit units does not matter to the units. *)
Definition Compare (lhs rhs : list Z) : result Z :=
  let countDiff := Z.of_nat (length lhs) - Z.of_nat (length rhs) in
  let minCount := if countDiff <? 0 then length lhs else length rhs in
  charDiff ← CompareStringSpan lhs rhs minCount;
  Ok (if negb (charDiff =? 0) then charDiff else countDiff).

(** ** The lexicographic order *)

Fixpoint lexCompare (l1 l2 : list Z) : comparison :=
  match l1, l2 with
  | [], [] => Eq
  | [], _ => Lt
  | _, [] => Gt
  | x :: l1, y :: l2 => match x ?= y with Eq => lexCompare l1 l2 | o => o end
  end.

Lemma lexCompare_opp l1 l2 : lexCompare l2 l1 = CompOpp (lexCompare l1 l2).
Proof.
  revert l2. induction l1 as [|x l1 IH]; intros [|y l2]; cbn; try done.
  rewrite Z.compare_antisym. destruct (x ?= y); cbn; auto.
Qed.

Lemma lexCompare_trans l1 l2 l3 : lexCompare l1 l2 <> Gt -> lexCompare l2 l3 <> Gt -> lexCompare l1 l3 <> Gt.
Proof.
  revert l2 l3. induction l1 as [|x l1 IH]; intros [|y l2] [|z l3]; cbn; try done.
  destruct (Z.compare_spec x y) as [->|Hxy|Hxy], (Z.compare_spec y z) as [->|Hyz|Hyz]; try done; intros H1 H2;
    destruct (Z.compare_spec x z) || destruct (Z.compare_spec y z) || destruct (Z.compare_spec z z); try done; try lia; by apply (IH l2).
Qed.

Lemma lexCompare_preorder {A} (f : A -> list Z) : preorder (fun x y => lexCompare (f x) (f y)).
Proof. split; intros; [apply lexCompare_opp|by eapply lexCompare_trans]. Qed.

Lemma lexCompare_refl l : lexCompare l l = Eq.
Proof. induction l as [|x l IH]; cbn; [done|]. by rewrite Z.compare_refl. Qed.

Lemma lexCompare_app l1 l2 r1 r2 : length l1 = length l2 ->
  lexCompare (l1 ++ r1) (l2 ++ r2) = match lexCompare l1 l2 with Eq => lexCompare r1 r2 | o => o end.
Proof.
  revert l2. induction l1 as [|x l1 IH]; intros [|y l2] Hl; cbn in *; try done. destruct (x ?= y); [|done|done]. apply IH. lia.
Qed.

(** ** Strings *)

Lemma Compare_returns lhs rhs : returns (Compare lhs rhs) (fun d => (d ?= 0) = lexCompare lhs rhs).
Proof.
  unfold Compare, CompareStringSpan. set (count := if _ <? 0 then _ else _).
  assert (count = Nat.min (length lhs) (length rhs)) as Ec by (unfold count; destruct (Z.ltb_spec (Z.of_nat (length lhs) - Z.of_nat (length rhs)) 0); lia).
  eapply returns_bind with (P := fun charDiff => (charDiff = 0 /\ take count lhs = take count rhs) \/ (charDiff <> 0 /\ (charDiff ?= 0) = lexCompare lhs rhs)).
  - eapply returns_bind.
    + apply (while_loop_returns (fun '(i, diff) => (i <= count)%nat /\ ((diff = 0 /\ take i lhs = take i rhs) \/ (diff <> 0 /\ (diff ?= 0) = lexCompare lhs rhs)))
        (fun '(i, _) => (count - i)%nat)); [split; [lia|by left]|lia|].
      intros [i diff] [Hi Hd] Hc. apply andb_true_iff in Hc as [Hc1 Hc2]. apply Nat.ltb_lt in Hc1. apply Z.eqb_eq in Hc2.
      destruct Hd as [[-> Ht]|[? _]]; [|done]. apply bind_get; [lia|]. intros x Hx. apply bind_get; [lia|]. intros y Hy.
      cbn [returns]. split; [|lia]. split; [lia|]. destruct (Z.eqb_spec (x - y) 0) as [E|E]; [left|right]; split; try done.
      * rewrite (take_S_r lhs i x), (take_S_r rhs i y) by done. rewrite Ht. by replace y with x by lia.
      * rewrite <- (take_drop_middle lhs i x), <- (take_drop_middle rhs i y), Ht by done.
        rewrite lexCompare_app by done. rewrite lexCompare_refl. cbn [lexCompare].
        destruct (Z.compare_spec x y) as [->|H|H]; [lia| |]; [apply Z.compare_lt_iff|apply Z.compare_gt_iff]; lia.
    + intros [i diff] [[Hi Hd] Hc]. cbn [returns]. destruct Hd as [[-> Ht]|Hd]; [|by right]. left. split; [done|].
      cbn in Hc. rewrite andb_true_r in Hc. apply Nat.ltb_ge in Hc. by replace count with i by lia.
  - intros d [[-> Ht]|[Hd E]]; cbn [returns]; [|by rewrite (proj2 (Z.eqb_neq d 0) Hd)]. cbn [Z.eqb negb].
    assert (lhs = take count lhs ++ drop count lhs) as E1 by (by rewrite take_drop).
    assert (rhs = take count lhs ++ drop count rhs) as E2 by (by rewrite Ht, take_drop).
    assert (length (drop count lhs) = 0%nat \/ length (drop count rhs) = 0%nat) as Hz by (rewrite !length_drop; lia).
    revert E1 E2 Hz. generalize (take count lhs), (drop count lhs), (drop count rhs). clear. intros q l r -> -> Hz.
    rewrite !length_app, lexCompare_app, lexCompare_refl by done. destruct l, r; cbn [lexCompare length] in *; try lia.
    + apply Z.compare_eq_iff. lia.
    + apply Z.compare_lt_iff. lia.
    + apply Z.compare_gt_iff. lia.
Qed.

(** ** Decimal strings *)

(** The decimal digits of [n], most significant first, as code units; [fuel] bounds their number. *)
Fixpoint digitsOf (fuel : nat) (n : Z) : list Z :=
  match fuel with
  | O => []
  | S fuel => if n <? 10 then [48 + n] else digitsOf fuel (n / 10) ++ [48 + n mod 10]
  end.

(** [ToString] of a small integer has at most ten digits. *)
Definition decimalString (z : Z) : list Z := if z <? 0 then 45 :: digitsOf 10 (- z) else digitsOf 10 z.

Lemma digits_small fuel n : 0 <= n < 10 -> digitsOf (S fuel) n = [48 + n].
Proof. intros Hn. cbn [digitsOf]. destruct (Z.ltb_spec n 10); [done|lia]. Qed.

Lemma digits_step fuel n : 10 <= n -> digitsOf (S fuel) n = digitsOf fuel (n / 10) ++ [48 + n mod 10].
Proof. intros Hn. cbn [digitsOf]. destruct (Z.ltb_spec n 10); [lia|done]. Qed.

(** A number with [k + 1] digits. *)
Definition hasDigits (k : nat) (n : Z) : Prop := 10 ^ Z.of_nat k <= n < 10 ^ (Z.of_nat k + 1).

Lemma hasDigits_step k n : hasDigits (S k) n -> hasDigits k (n / 10) /\ 10 <= n.
Proof.
  unfold hasDigits. rewrite Nat2Z.inj_succ, <- Z.add_1_r. intros [H1 H2]. rewrite !Z.pow_add_r in * by lia. change (10 ^ 1) with 10 in *.
  assert (0 < 10 ^ Z.of_nat k) by (apply Z.pow_pos_nonneg; lia).
  split; [split; [apply Z.div_le_lower_bound; lia|apply Z.div_lt_upper_bound; lia]|lia].
Qed.

(** Every fuel that is enough gives the same digits. *)
Lemma digits_length k fuel n : hasDigits k n -> (k < fuel)%nat ->
  length (digitsOf fuel n) = S k /\ forall fuel', (k < fuel')%nat -> digitsOf fuel' n = digitsOf fuel n.
Proof.
  revert fuel n. induction k as [|k IH]; intros [|fuel] n Hn Hf; try lia.
  - assert (0 <= n < 10) by (unfold hasDigits in Hn; cbn in Hn; lia). rewrite digits_small by done. split; [done|].
    intros [|fuel'] Hf'; [lia|]. by rewrite digits_small.
  - destruct (hasDigits_step k n Hn) as [Hd H10]. destruct (IH fuel (n / 10) Hd ltac:(lia)) as [Hl He]. rewrite digits_step by done.
    split; [rewrite length_app, Hl; cbn; lia|]. intros [|fuel'] Hf'; [lia|]. rewrite digits_step, (He fuel') by (done || lia). done.
Qed.

(** The leading digits. *)
Lemma digits_prefix d k fuel n : hasDigits (k + d) n -> (k + d < fuel)%nat ->
  exists low, digitsOf fuel n = digitsOf fuel (n / 10 ^ Z.of_nat d) ++ low /\ length low = d /\ hasDigits k (n / 10 ^ Z.of_nat d).
Proof.
  revert n fuel. induction d as [|d IH]; intros n fuel Hn Hf.
  - exists []. rewrite Nat.add_0_r in *. change (10 ^ Z.of_nat 0) with 1. rewrite Z.div_1_r, app_nil_r. done.
  - rewrite Nat.add_succ_r in *. destruct fuel as [|fuel]; [lia|]. destruct (hasDigits_step _ _ Hn) as [Hd H10].
    destruct (IH (n / 10) fuel Hd ltac:(lia)) as (low & E & Hl & Hk). rewrite Nat2Z.inj_succ, Z.pow_succ_r by lia.
    rewrite <- Z.div_div by (try apply Z.pow_pos_nonneg; lia). exists (low ++ [48 + n mod 10]). rewrite length_app, Hl.
    split_and!; [|cbn; lia|done]. rewrite digits_step, E, <- app_assoc by done. f_equal.
    destruct (digits_length k fuel _ Hk ltac:(lia)) as [_ He]. symmetry. apply He. lia.
Qed.

Lemma digits_compare k fuel x y : hasDigits k x -> hasDigits k y -> (k < fuel)%nat ->
  lexCompare (digitsOf fuel x) (digitsOf fuel y) = (x ?= y).
Proof.
  revert fuel x y. induction k as [|k IH]; intros [|fuel] x y Hx Hy Hf; try lia.
  - unfold hasDigits in *. cbn in Hx, Hy. rewrite !digits_small by lia. cbn [lexCompare].
    destruct (Z.compare_spec x y); [subst; by rewrite Z.compare_refl|rewrite (proj2 (Z.compare_lt_iff _ _)) by lia; done|
      rewrite (proj2 (Z.compare_gt_iff _ _)) by lia; done].
  - destruct (hasDigits_step k x Hx) as [Hdx H10x], (hasDigits_step k y Hy) as [Hdy H10y]. rewrite !digits_step by done.
    destruct (digits_length k fuel _ Hdx ltac:(lia)) as [Hlx _], (digits_length k fuel _ Hdy ltac:(lia)) as [Hly _].
    rewrite lexCompare_app by congruence. rewrite (IH fuel) by (done || lia). cbn [lexCompare].
    pose proof (Z.div_mod x 10 ltac:(lia)). pose proof (Z.div_mod y 10 ltac:(lia)).
    pose proof (Z.mod_pos_bound x 10 ltac:(lia)). pose proof (Z.mod_pos_bound y 10 ltac:(lia)).
    destruct (Z.compare_spec (x / 10) (y / 10)); [|symmetry; apply Z.compare_lt_iff; lia|symmetry; apply Z.compare_gt_iff; lia].
    destruct (Z.compare_spec (48 + x mod 10) (48 + y mod 10)); symmetry;
      [apply Z.compare_eq_iff|apply Z.compare_lt_iff|apply Z.compare_gt_iff]; lia.
Qed.

(** ** Counting the decimal digits *)

(** [1233 / 4096] is close enough to the logarithm of two: checked for each of the 32 values. *)
Lemma logarithm_table l : 0 <= l < 32 -> let e := Z.shiftr ((l + 1) * 1233) 12 in
  0 <= e <= 9 /\ POWERS_OF_10 !! Z.to_nat e = Some (10 ^ e) /\ 10 ^ e <= 10 * 2 ^ l /\ 2 ^ (l + 1) <= 10 ^ (e + 1).
Proof.
  intros Hl. pose (check := fun l => let e := Z.shiftr ((l + 1) * 1233) 12 in
    (0 <=? e) && (e <=? 9) && bool_decide (POWERS_OF_10 !! Z.to_nat e = Some (10 ^ e)) && (10 ^ e <=? 10 * 2 ^ l) && (2 ^ (l + 1) <=? 10 ^ (e + 1))).
  assert (forallb check (seqZ 0 32) = true) as H by (by vm_compute).
  rewrite forallb_forall in H. specialize (H l ltac:(apply list_elem_of_In, elem_of_seqZ; lia)). unfold check in H. cbv zeta in *.
  rewrite !andb_true_iff, !Z.leb_le, bool_decide_eq_true in H. tauto.
Qed.

Lemma decimalDigit_returns x : 1 <= x < BASE -> returns (decimalDigit x) (fun d => 0 <= d <= 9 /\ hasDigits (Z.to_nat d) x).
Proof.
  intros Hx. unfold decimalDigit, CountLeadingZeros. destruct (Z.eqb_spec x 0); [lia|].
  replace (31 - (31 - Z.log2 x)) with (Z.log2 x) by lia.
  pose proof (Z.log2_spec x ltac:(lia)) as [Hlo Hhi]. assert (0 <= Z.log2 x < 32) as Hl.
  { split; [apply Z.log2_nonneg|]. apply Z.log2_lt_pow2; [lia|]. unfold BASE in Hx. lia. }
  destruct (logarithm_table (Z.log2 x) Hl) as (He & Ht & H1 & H2). set (e := Z.shiftr _ 12) in *.
  rewrite <- Z.add_1_r in Hhi. unfold get. rewrite Ht, bind_Ok. cbn [returns]. unfold hasDigits.
  destruct (Z.ltb_spec x (10 ^ e)) as [Hlt|Hge].
  - assert (1 <= e) as He1 by (destruct (Z.eqb_spec e 0) as [E|]; [rewrite E in Hlt; cbn in Hlt; lia|lia]).
    split; [lia|]. rewrite Z2Nat.id by lia. replace (e - 1 + 1) with e by lia. split; [|done].
    replace e with (e - 1 + 1) in H1 by lia. rewrite Z.pow_add_r in H1 by lia. lia.
  - split; [lia|]. rewrite Z2Nat.id by lia. rewrite Z.sub_0_r. lia.
Qed.

Lemma powers_get d : 0 <= d <= 9 -> get POWERS_OF_10 (Z.to_nat d) = Ok (10 ^ d).
Proof.
  intros Hd. assert (Forall (fun d => get POWERS_OF_10 (Z.to_nat d) = Ok (10 ^ d)) (seqZ 0 10)) as H by (vm_compute; repeat constructor).
  rewrite Forall_forall in H. apply H, elem_of_seqZ. lia.
Qed.

(** The longer number without its last digit against the shorter one filled up with zeros. *)
Lemma longer_compare x y kx ky : hasDigits kx x -> hasDigits ky y -> (ky < kx <= 9)%nat ->
  lexCompare (digitsOf 10 x) (digitsOf 10 y) =
    match x / 10 ?= y * 10 ^ (Z.of_nat kx - Z.of_nat ky - 1) with Eq => Gt | o => o end.
Proof.
  intros Hx Hy Hk. set (d := (kx - ky)%nat). replace kx with (ky + d)%nat in Hx by lia.
  destruct (digits_prefix d ky 10 x Hx ltac:(lia)) as (low & E & Hl & Hp). rewrite E, <- (app_nil_r (digitsOf 10 y)).
  destruct (digits_length ky 10 _ Hp ltac:(lia)) as [Hl1 _], (digits_length ky 10 _ Hy ltac:(lia)) as [Hl2 _].
  rewrite lexCompare_app by congruence. rewrite (digits_compare ky) by (done || lia).
  assert (lexCompare low [] = Gt) as -> by (destruct low; [cbn in Hl; lia|done]).
  replace (Z.of_nat kx - Z.of_nat ky - 1) with (Z.of_nat d - 1) by lia.
  assert (x / 10 ^ Z.of_nat d = x / 10 / 10 ^ (Z.of_nat d - 1)) as Ex.
  { rewrite Z.div_div by (try apply Z.pow_pos_nonneg; lia). rewrite <- Z.pow_succ_r by lia. do 2 f_equal. lia. }
  rewrite Ex. set (q := x / 10). assert (0 < 10 ^ (Z.of_nat d - 1)) as Hp10 by (apply Z.pow_pos_nonneg; lia).
  set (p := 10 ^ (Z.of_nat d - 1)) in *. pose proof (Z.div_mod q p ltac:(lia)). pose proof (Z.mod_pos_bound q p ltac:(lia)).
  destruct (Z.compare_spec (q / p) y) as [<-|H1|H1].
  - destruct (Z.compare_spec q (q / p * p)); [done|nia|done].
  - by rewrite (proj2 (Z.compare_lt_iff q (y * p))) by nia.
  - by rewrite (proj2 (Z.compare_gt_iff q (y * p))) by nia.
Qed.

Lemma scaled_small x y kx ky : hasDigits kx x -> hasDigits ky y -> (ky < kx)%nat -> x < BASE ->
  u32 (y * 10 ^ (Z.of_nat kx - Z.of_nat ky - 1)) = y * 10 ^ (Z.of_nat kx - Z.of_nat ky - 1).
Proof.
  intros [Hx _] [Hy1 Hy2] Hk Hb. apply u32_small. assert (0 < 10 ^ Z.of_nat ky) by (apply Z.pow_pos_nonneg; lia).
  assert (0 < 10 ^ (Z.of_nat kx - Z.of_nat ky - 1)) as Hp by (apply Z.pow_pos_nonneg; lia).
  replace (Z.of_nat kx) with ((Z.of_nat ky + 1) + (Z.of_nat kx - Z.of_nat ky - 1)) in Hx by lia. rewrite Z.pow_add_r in Hx by lia.
  unfold is_u32. nia.
Qed.

(** ** Integers like their strings *)

Lemma sign_of_compare X Y res : (match X ?= Y with Eq => res ?= 0 | o => o end) =
  ((if Y <? X then 1 else if X <? Y then -1 else res) ?= 0).
Proof.
  destruct (Z.compare_spec X Y) as [->|H|H].
  - by rewrite Z.ltb_irrefl.
  - destruct (Z.ltb_spec Y X); [lia|]. by rewrite (proj2 (Z.ltb_lt X Y)).
  - by rewrite (proj2 (Z.ltb_lt Y X)).
Qed.

Lemma magnitudes_returns X Y : 1 <= X < BASE -> 1 <= Y < BASE ->
  returns (xDigit ← decimalDigit X;
    yDigit ← decimalDigit Y;
    '(unsignedX, unsignedY, res) ←
      (if yDigit <? xDigit then
         p ← get POWERS_OF_10 (Z.to_nat (xDigit - yDigit - 1));
         Ok (X / 10, u32 (Y * p), 1)
       else Ok (X, Y, 0));
    '(unsignedX, unsignedY, res) ←
      (if xDigit <? yDigit then
         p ← get POWERS_OF_10 (Z.to_nat (yDigit - xDigit - 1));
         Ok (u32 (unsignedX * p), unsignedY / 10, -1)
       else Ok (unsignedX, unsignedY, res));
    Ok (if unsignedY <? unsignedX then 1 else if unsignedX <? unsignedY then -1 else res))
  (fun r => (r ?= 0) = lexCompare (digitsOf 10 X) (digitsOf 10 Y)).
Proof.
  intros HX HY. eapply returns_bind; [by apply decimalDigit_returns|]. intros dx [Hdx Hx].
  eapply returns_bind; [by apply decimalDigit_returns|]. intros dy [Hdy Hy]. destruct (Z.ltb_spec dy dx) as [H|H].
  - rewrite (powers_get (dx - dy - 1)) by lia. rewrite !bind_Ok. destruct (Z.ltb_spec dx dy); [lia|]. rewrite bind_Ok. cbn [returns].
    pose proof (scaled_small X Y _ _ Hx Hy ltac:(lia) ltac:(lia)) as Hs. pose proof (longer_compare X Y _ _ Hx Hy ltac:(lia)) as Hc.
    rewrite !Z2Nat.id in Hs, Hc by lia. rewrite Hs, Hc, <- sign_of_compare. by destruct (_ ?= _).
  - rewrite bind_Ok. destruct (Z.ltb_spec dx dy) as [H'|H'].
    + rewrite (powers_get (dy - dx - 1)) by lia. rewrite !bind_Ok. cbn [returns].
      pose proof (scaled_small Y X _ _ Hy Hx ltac:(lia) ltac:(lia)) as Hs. pose proof (longer_compare Y X _ _ Hy Hx ltac:(lia)) as Hc.
      rewrite !Z2Nat.id in Hs, Hc by lia. rewrite Hs, lexCompare_opp, Hc, <- sign_of_compare, Z.compare_antisym. by destruct (_ ?= _).
    + rewrite bind_Ok. cbn [returns]. assert (dx = dy) as -> by lia.
      rewrite (digits_compare _ 10 X Y Hx Hy) by lia. rewrite <- sign_of_compare. by destruct (_ ?= _).
Qed.

Lemma digits_head fuel n : 1 <= n < 10 ^ Z.of_nat fuel -> exists d l, digitsOf fuel n = d :: l /\ 48 < d.
Proof.
  revert n. induction fuel as [|fuel IH]; intros n Hn; [cbn in Hn; lia|].
  destruct (Z.ltb_spec n 10); [rewrite digits_small by lia; eexists _, _; split; [done|lia]|].
  rewrite digits_step by lia. rewrite Nat2Z.inj_succ, Z.pow_succ_r in Hn by lia.
  destruct (IH (n / 10)) as (d & l & -> & Hd); [split; [apply Z.div_le_lower_bound; lia|apply Z.div_lt_upper_bound; lia]|].
  eexists _, _. split; [done|lia].
Qed.

Lemma IntLexicographicCompare_returns x y : is_i32 x -> is_i32 y ->
  returns (IntLexicographicCompare x y) (fun r => (r ?= 0) = lexCompare (decimalString x) (decimalString y)).
Proof.
  unfold is_i32. intros Hx Hy. unfold IntLexicographicCompare.
  assert (forall z, 1 <= z < 2 ^ 32 -> exists d l, digitsOf 10 z = d :: l /\ 48 < d) as Hhead.
  { intros z Hz. apply digits_head. change (10 ^ Z.of_nat 10) with 10000000000. lia. }
  destruct (Z.eqb_spec x y) as [->|Hne]; [cbn [returns]; by rewrite lexCompare_refl|].
  unfold decimalString.
  destruct (Z.eqb_spec x 0) as [->|Hx0]; [|destruct (Z.eqb_spec y 0) as [->|Hy0]]; cbn [orb].
  - cbn [returns]. change (0 <? 0) with false. cbv iota. change (digitsOf 10 0) with [48]. destruct (Z.ltb_spec y 0); [done|].
    destruct (Hhead y) as (d & l & -> & Hd); [lia|]. cbn [lexCompare]. by rewrite (proj2 (Z.compare_lt_iff 48 d)).
  - cbn [returns]. change (0 <? 0) with false. cbv iota. change (digitsOf 10 0) with [48].
    destruct (Z.ltb_spec 0 x), (Z.ltb_spec x 0); try lia; [|done].
    destruct (Hhead x) as (d & l & -> & Hd); [lia|]. cbn [lexCompare]. by rewrite (proj2 (Z.compare_gt_iff d 48)) by lia.
  - destruct (Z.ltb_spec 0 y) as [Hy1|Hy1], (Z.ltb_spec x 0) as [Hx1|Hx1]; cbn [andb negb].
    + cbn [returns]. destruct (Z.ltb_spec y 0); [lia|]. destruct (Hhead y) as (d & l & -> & Hd); [lia|].
      cbn [lexCompare]. by rewrite (proj2 (Z.compare_lt_iff 45 d)) by lia.
    + destruct (Z.ltb_spec y 0); [lia|]. rewrite (u32_small x), (u32_small y) by (unfold is_u32, BASE; lia). apply magnitudes_returns; unfold BASE; lia.
    + destruct (Z.ltb_spec 0 x); [lia|]. destruct (Z.ltb_spec y 0); [|lia]. cbn [lexCompare]. rewrite Z.compare_refl.
      assert (forall z, - 2 ^ 31 <= z < 0 -> u32 (NegateWithWraparound z) = - z) as Hneg.
      { intros z Hz. unfold NegateWithWraparound, i32, u32, BASE. rewrite (Z.mod_small (- z)) by lia. cbv zeta. destruct (Z.ltb_spec (- z) (2 ^ 31)).
        - apply Z.mod_small. lia.
        - replace (- z - 2 ^ 32) with (- z + (-1) * 2 ^ 32) by lia. rewrite Z_mod_plus_full. apply Z.mod_small. lia. }
      rewrite (Hneg x), (Hneg y) by lia. apply magnitudes_returns; unfold BASE; lia.
    + destruct (Z.ltb_spec 0 x); [|lia]. destruct (Z.ltb_spec y 0); [|lia]. cbn [returns].
      destruct (Hhead x) as (d & l & -> & Hd); [lia|]. cbn [lexCompare]. by rewrite (proj2 (Z.compare_gt_iff d 45)) by lia.
Qed.

(** [IntLexicographicCompare] orders two small integers exactly as their decimal strings are
    ordered, code unit by code unit, for every pair of 32 bit integers. *)
Theorem IntLexicographicCompare_correct x y (Hx : is_i32 x) (Hy : is_i32 y) :
  exists r, IntLexicographicCompare x y = Ok r /\ (r ?= 0) = lexCompare (decimalString x) (decimalString y).
Proof. apply returns_iff. by apply IntLexicographicCompare_returns. Qed.

Lemma IntLexicographicCompare_correct_witness :
  exists r, IntLexicographicCompare 9 1000000000 = Ok r /\ (r ?= 0) = lexCompare [57] [49; 48; 48; 48; 48; 48; 48; 48; 48; 48].
Proof. apply IntLexicographicCompare_correct; by vm_compute. Defined.

(** [EcmaString::Compare] returns a number with the sign of the lexicographic order of the code
    units, and reads both strings within their lengths. *)
Theorem Compare_correct lhs rhs : exists d, Compare lhs rhs = Ok d /\ (d ?= 0) = lexCompare lhs rhs.
Proof. apply returns_iff, Compare_returns. Qed.
