(* ===== verification/ArrayHelper.v ===== *)
(** * The comparison of sorts

    [ArrayHelper::SortCompare] of src/ecmascript/base/array_helper.cpp.  The comparison function
    is user code: it sees the world and the container that is being sorted, may change both, and
    may throw.  An exception stays pending until the sort is over; while it is pending no user
    code runs. *)

From Stdlib Require Import ZArith Lia.
From S2P Require Import Prelude Double Values BigIntNum NumberHelper SortSpec StringOrder TimSort TimSortSearch.

(** ** Model *)

Record SortState (W C : Type) := mkSortState { world : W; container : C; exception : option error }.
Arguments mkSortState {W C} _ _ _.
Arguments world {W C} _.
Arguments container {W C} _.
Arguments exception {W C} _.

(** The call of the comparison function, with its result made a number. *)
Definition Comparator (W C : Type) : Type := W -> C -> JSTaggedValue -> JSTaggedValue -> result (numeric * W * C).

(** [JSTaggedValue::ToString] of values other than strings, which may run user code. *)
Definition StringConversion (W C : Type) : Type := W -> C -> JSTaggedValue -> result (list Z * W * C).

(** The sign of a number that is not NaN; NaN counts as zero. *)
Definition signOf (n : numeric) : comparison := match n.1 with Some u => u ?= 0 | None => Eq end.

(** [IntLexicographicCompare] and [EcmaString::Compare] do not fail. *)
Definition signOfResult (m : result Z) : comparison := match m with Ok d => d ?= 0 | Err _ => Eq end.

Section Model.
  Context {W C : Type}.
  Variable ToString : StringConversion W C.

Definition pend (st : SortState W C) (e : error) : SortState W C := mkSortState (world st) (container st) (Some e).

Definition callComparator (fn : Comparator W C) (st : SortState W C) (x y : JSTaggedValue) : comparison * SortState W C :=
  match exception st with
  | Some _ => (Eq, st)
  | None =>
    match fn (world st) (container st) x y with
    | Ok (v, w, c) => (signOf v, mkSortState w c None)
    | Err e => (Eq, pend st e)
    end
  end.

(** The string of a value; nothing when an exception is pending afterwards. *)
Definition stringOf (v : JSTaggedValue) (st : SortState W C) : option (list Z) * SortState W C :=
  match exception st with
  | Some _ => (None, st)
  | None =>
    match v with
    | EcmaString _ s => (Some s, st)
    | _ => match ToString (world st) (container st) v with
           | Ok (s, w, c) => (Some s, mkSortState w c None)
           | Err e => (None, pend st e)
           end
    end
  end.

Definition compareStrings (st : SortState W C) (x y : JSTaggedValue) : comparison * SortState W C :=
  let '(xString, st) := stringOf x st in
  match xString with
  | None => (Eq, st)
  | Some xString =>
    let '(yString, st) := stringOf y st in
    match yString with
    | None => (Eq, st)
    | Some yString => (signOfResult (Compare xString yString), st)
    end
  end.

(** [callbackfn] is [None] when it is undefined or null. *)
Definition SortCompare (callbackfn : option (Comparator W C)) (st : SortState W C) (valueX valueY : JSTaggedValue)
  : comparison * SortState W C :=
  match valueX, valueY with
  | Hole, Hole => (Eq, st)
  | Hole, _ => (Gt, st)
  | _, Hole => (Lt, st)
  | Undefined, Undefined => (Eq, st)
  | Undefined, _ => (Gt, st)
  | _, Undefined => (Lt, st)
  | _, _ =>
    match callbackfn with
    | Some fn => callComparator fn st valueX valueY
    | None =>
      match valueX, valueY with
      | Int x, Int y => (signOfResult (IntLexicographicCompare (i32 x) (i32 y)), st)
      | EcmaString a s, EcmaString b t => (if a =? b then Eq else signOfResult (Compare s t), st)
      | _, _ => compareStrings st valueX valueY
      end
    end
  end.
End Model.

(** ** The order *)

(** Holes last, before them the undefined values, before them the others by [c]. *)
Definition rank (x : JSTaggedValue) : Z := match x with Hole => 2 | Undefined => 1 | _ => 0 end.

Definition sortOrder (c : JSTaggedValue -> JSTaggedValue -> comparison) (x y : JSTaggedValue) : comparison :=
  match rank x ?= rank y with
  | Eq => if rank x =? 0 then c x y else Eq
  | o => o
  end.

Lemma sortOrder_preorder c : preorder c -> preorder (sortOrder c).
Proof.
  intros Hc. unfold sortOrder. split.
  - intros x y. rewrite (Z.compare_antisym (rank x) (rank y)). destruct (Z.compare_spec (rank x) (rank y)) as [E|E|E]; cbn; [|done|done].
    rewrite E. destruct (rank y =? 0); [apply (opposite c Hc)|done].
  - intros x y z. destruct (Z.compare_spec (rank x) (rank y)) as [Exy|Exy|Exy], (Z.compare_spec (rank y) (rank z)) as [Eyz|Eyz|Eyz];
      try done; intros H1 H2; destruct (Z.compare_spec (rank x) (rank z)); try done; try lia.
    rewrite <- Exy in *. destruct (rank x =? 0); [|done]. by apply (transitive c Hc x y z).
Qed.

(** A comparison function that answers by the order [c], does not throw and leaves the container
    alone. *)
Definition comparesBy {W C} (fn : Comparator W C) (c : JSTaggedValue -> JSTaggedValue -> comparison) : Prop :=
  forall w k x y, exists v w', fn w k x y = Ok (v, w', k) /\ signOf v = c x y.

Lemma SortCompare_answers {W C} (ToString : StringConversion W C) fn c st x y : comparesBy fn c -> exception st = None ->
  (SortCompare ToString (Some fn) st x y).1 = sortOrder c x y /\
  exception (SortCompare ToString (Some fn) st x y).2 = None /\
  container (SortCompare ToString (Some fn) st x y).2 = container st.
Proof.
  intros Hfn Hst. destruct (Hfn (world st) (container st) x y) as (v & w' & E & Hv).
  destruct x, y; cbn [SortCompare sortOrder rank Z.compare Z.eqb]; try (by rewrite ?Hst); unfold callComparator; rewrite Hst, E; by rewrite <- Hv.
Qed.

(** What is pending was thrown by user code. *)
Definition thrownBy {W C} (ToString : StringConversion W C) (callbackfn : option (Comparator W C)) (e : error) : Prop :=
  (exists fn w c x y, callbackfn = Some fn /\ fn w c x y = Err e) \/ (exists w c x, ToString w c x = Err e).

Definition userErrors {W C} (ToString : StringConversion W C) callbackfn (st : SortState W C) : Prop :=
  forall e, exception st = Some e -> thrownBy ToString callbackfn e.

Lemma callComparator_errors {W C} (ToString : StringConversion W C) fn st x y : userErrors ToString (Some fn) st ->
  userErrors ToString (Some fn) (callComparator fn st x y).2.
Proof.
  intros Hst. unfold callComparator. destruct (exception st) eqn:E; [done|].
  destruct (fn (world st) (container st) x y) as [[[v w] c]|e] eqn:Ef; cbn [snd]; [done|].
  intros e' [= <-]. left. eauto 10.
Qed.

Lemma stringOf_errors {W C} (ToString : StringConversion W C) callbackfn st v : userErrors ToString callbackfn st ->
  userErrors ToString callbackfn (stringOf ToString v st).2.
Proof.
  intros H1. unfold stringOf. destruct (exception st) eqn:E; [done|].
  destruct v; cbn [snd]; try done;
    (destruct (ToString _ _ _) as [[[s w] c]|e] eqn:Et; cbn [snd]; [done|]; intros e' [= <-]; right; eauto).
Qed.

Lemma compareStrings_errors {W C} (ToString : StringConversion W C) callbackfn st x y : userErrors ToString callbackfn st ->
  userErrors ToString callbackfn (compareStrings ToString st x y).2.
Proof.
  intros Hst. unfold compareStrings. pose proof (stringOf_errors _ _ _ x Hst) as Hx.
  destruct (stringOf ToString x st) as [[xs|] st1]; [|done]. cbn [snd] in Hx.
  pose proof (stringOf_errors _ _ _ y Hx) as Hy. destruct (stringOf ToString y st1) as [[ys|] st2]; done.
Qed.

Lemma SortCompare_errors {W C} (ToString : StringConversion W C) callbackfn st x y : userErrors ToString callbackfn st ->
  userErrors ToString callbackfn (SortCompare ToString callbackfn st x y).2.
Proof.
  intros Hst. destruct callbackfn as [fn|].
  - destruct x, y; try done; by apply callComparator_errors.
  - destruct x, y; try done; by apply compareStrings_errors.
Qed.

(** The default order is that of the strings. *)
Theorem SortCompare_default {W C} (ToString : StringConversion W C) (st : SortState W C) :
  (forall x y, is_i32 x -> is_i32 y ->
     SortCompare ToString None st (Int x) (Int y) = (lexCompare (decimalString x) (decimalString y), st)) /\
  (forall a s b t, (a = b -> s = t) ->
     SortCompare ToString None st (EcmaString a s) (EcmaString b t) = (lexCompare s t, st)).
Proof.
  split.
  - intros x y Hx Hy. cbn [SortCompare]. rewrite !i32_small by done.
    destruct (proj1 (returns_iff _ _) (IntLexicographicCompare_returns x y Hx Hy)) as (r & -> & Hr). cbn [signOfResult]. by rewrite Hr.
  - intros a s b t Hab. cbn [SortCompare]. destruct (Z.eqb_spec a b) as [E|E]; [by rewrite (Hab E), lexCompare_refl|].
    destruct (proj1 (returns_iff _ _) (Compare_returns s t)) as (d & -> & Hd). cbn [signOfResult]. by rewrite Hd.
Qed.
