(* ===== verification/ContainerSort.v ===== *)
(** * Sorting the array containers

    [ContainersVector::Sort] of src/ecmascript/containers/containers_vector.cpp and
    [ContainersArrayList::Sort] of containers_arraylist.cpp.  Both sort a copy of the elements
    with [TimSort] and write it back into the array the container has afterwards, which the
    comparison function may have replaced.  What they need of a container is an interface that
    both implement. *)

From Stdlib Require Import ZArith Lia Permutation.
From S2P Require Import Prelude Double Values BigIntNum Containers TaggedArray SortSpec TimSort TimSortSearch TimSortRuns TimSortCorrect StringOrder ArrayHelper ArrayList Vector.

(** A container made of an array and a number of elements. *)
Class ArrayBacked (C : Type) := {
  backing : C -> list JSTaggedValue;
  size : C -> Z;
  rebuilt : list JSTaggedValue -> Z -> C;
  backing_rebuilt a n : backing (rebuilt a n) = a;
  size_rebuilt a n : size (rebuilt a n) = n
}.

#[export, refine] Instance vectorBacked : ArrayBacked JSAPIVector := {
  backing := Vector.Elements; size := Vector.Length; rebuilt := mkVector }.
Proof. all: done. Defined.

#[export, refine] Instance arrayListBacked : ArrayBacked JSAPIArrayList := {
  backing := ArrayList.Elements; size := ArrayList.Length; rebuilt := mkArrayList }.
Proof. all: done. Defined.

(** ** Model *)

Section Model.
  Context {W C : Type} `{!ArrayBacked C}.
  Variable ToString : StringConversion W C.

(** Steps 1 to 3 of both methods. *)
Definition sortElements (callbackfn : option (Comparator W C)) (w : W) (c : C) : result (W * C) :=
  let length_ := size c in
  if length_ <? 2 then Ok (w, c) else
  tempArray ← NewAndCopyTaggedArray (backing c) length_ length_ 0;
  '(tempArray, st) ← Sort (SortCompare ToString callbackfn) tempArray (mkSortState w c None);
  match exception st with
  | Some e => Err e
  | None =>
    let c := container st in
    let dstElements := backing c in
    if Z.of_nat (length dstElements) <? length_ then
      sortedArray ← NewAndCopyTaggedArray tempArray length_ length_ 0;
      Ok (world st, rebuilt sortedArray length_)
    else
      dstElements ← for_up (Z.to_nat length_) 0 (fun k dst => v ← get tempArray k; set dst k v) dstElements;
      Ok (world st, rebuilt dstElements (if size c <? length_ then length_ else size c))
  end.
End Model.

(** A comparison function that cannot be called throws when it is called. *)
Definition vector_sort {W} (ToString : StringConversion W JSAPIVector) (self : Receiver JSAPIVector)
    (callbackfn : option (Comparator W JSAPIVector)) (w : W) : result (W * JSAPIVector) :=
  vector ← receiveVector self;
  sortElements ToString callbackfn w vector.

Inductive ComparatorArg (W C : Type) :=
| UndefinedOrNull
| Callable (fn : Comparator W C)
| OtherArg.
Arguments UndefinedOrNull {W C}.
Arguments Callable {W C} _.
Arguments OtherArg {W C}.

Definition ComparatorType : error := TypeError "The type of comparator must be callable.".

Definition arraylist_sort {W} (ToString : StringConversion W JSAPIArrayList) (self : Receiver JSAPIArrayList)
    (callbackFn : ComparatorArg W JSAPIArrayList) (w : W) : result (W * JSAPIArrayList) :=
  arrayList ← receive "sort" self;
  match callbackFn with
  | OtherArg => Err ComparatorType
  | UndefinedOrNull => sortElements ToString None w arrayList
  | Callable fn => sortElements ToString (Some fn) w arrayList
  end.

(** ** Lemmas *)

Lemma writeBack_eq (l G Y : list JSTaggedValue) : length G = length l ->
  for_up (length l) 0 (fun k dst => v ← get l k; set dst k v) (G ++ Y) = Ok (l ++ Y).
Proof.
  intros HG. apply returns_eq. eapply returns_mono.
  - apply (for_up_returns (fun k dst => dst = take k l ++ drop k (G ++ Y))); [done|].
    intros k dst Hk ->. destruct (lookup_lt_is_Some_2 l k) as [v Hv]; [lia|].
    destruct (lookup_lt_is_Some_2 (G ++ Y) k) as [u Hu]; [rewrite length_app; lia|].
    unfold get. rewrite Hv, bind_Ok. unfold set. rewrite decide_True by (rewrite length_app, length_take, length_drop, length_app; lia).
    cbn [returns]. rewrite (take_S_r l k v Hv), (drop_S (G ++ Y) u k Hu), <- app_assoc. cbn [app].
    rewrite insert_app_r_alt by (rewrite length_take; lia). rewrite length_take_le by lia. by rewrite Nat.sub_diag.
  - cbn. intros dst ->. rewrite firstn_all, <- HG. by rewrite drop_app_length.
Qed.

Section Lemmas.
  Context {W C : Type} `{!ArrayBacked C}.
  Variable ToString : StringConversion W C.

(** What is written back is the sorted copy, whatever array the container has by then. *)
Lemma store_returns (l : list JSTaggedValue) (w : W) (c : C) : (0 < length l)%nat ->
  returns (if Z.of_nat (length (backing c)) <? Z.of_nat (length l) then
      sortedArray ← NewAndCopyTaggedArray l (Z.of_nat (length l)) (Z.of_nat (length l)) 0;
      Ok (w, rebuilt sortedArray (Z.of_nat (length l)))
    else
      dstElements ← for_up (Z.to_nat (Z.of_nat (length l))) 0 (fun k dst => v ← get l k; set dst k v) (backing c);
      Ok (w, rebuilt dstElements (if size c <? Z.of_nat (length l) then Z.of_nat (length l) else size c)))
  (fun p => exists s', backing p.2 = l ++ s' /\ Z.of_nat (length l) <= size p.2 /\
     ((length l <= length (backing c))%nat -> size c = Z.of_nat (length l) -> p.2 = rebuilt (l ++ drop (length l) (backing c)) (Z.of_nat (length l)))).
Proof.
  intros Hl. destruct (Z.ltb_spec (Z.of_nat (length (backing c))) (Z.of_nat (length l))) as [Hlt|Hge].
  - pose proof (NewAndCopyTaggedArray_app l []) as E. rewrite app_nil_r in E. rewrite E, bind_Ok. cbn [returns snd]. exists [].
    rewrite backing_rebuilt, size_rebuilt, app_nil_r. split_and!; [done|lia|lia].
  - rewrite Nat2Z.id. rewrite <- (take_drop (length l) (backing c)) at 1. rewrite writeBack_eq by (rewrite length_take; lia).
    rewrite bind_Ok. cbn [returns snd]. exists (drop (length l) (backing c)). rewrite backing_rebuilt, size_rebuilt. split_and!; [done| |].
    + destruct (Z.ltb_spec (size c) (Z.of_nat (length l))); lia.
    + intros _ ->. by rewrite Z.ltb_irrefl.
Qed.

Lemma sortElements_outcome callbackfn w c l s : backing c = l ++ s -> size c = Z.of_nat (length l) -> Z.of_nat (length l) < 2 ^ 30 ->
  outcome (sortElements ToString callbackfn w c)
    (fun '(_, c') => exists l' s', backing c' = l' ++ s' /\ Permutation l' l /\ Z.of_nat (length l) <= size c')
    (thrownBy ToString callbackfn).
Proof.
  intros Eb Es Hsize. unfold sortElements. rewrite Es, Eb. destruct (Z.ltb_spec (Z.of_nat (length l)) 2) as [H2|H2].
  { cbn [outcome]. exists l, s. rewrite Es. split_and!; [done|done|lia]. }
  rewrite NewAndCopyTaggedArray_app, bind_Ok.
  pose proof (Sort_ensures (StateInv0 := userErrors ToString callbackfn)
    (Preserves0 := fun st x y H => SortCompare_errors ToString callbackfn st x y H)
    (SortCompare ToString callbackfn) (fun _ _ => Eq) l Hsize (mkSortState w c None) ltac:(done)) as H.
  apply returns_iff in H as ([l' st] & -> & [HP _] & Hst). rewrite bind_Ok. cbn [fst snd] in *.
  pose proof (Permutation_length HP) as Hlen. destruct (exception st) as [e|] eqn:Ee; [cbn [outcome]; by apply Hst|].
  cbv zeta. rewrite <- Hlen. apply returns_outcome. eapply returns_mono; [apply store_returns; lia|].
  intros [w' c'] (s' & E1 & E2 & _). cbn [snd] in *. exists l', s'. done.
Qed.

Lemma sortElements_sorts fn o w c l s : backing c = l ++ s -> size c = Z.of_nat (length l) -> Z.of_nat (length l) < 2 ^ 30 ->
  (2 <= length l)%nat -> preorder o -> comparesBy fn o ->
  exists w', sortElements ToString (Some fn) w c = Ok (w', rebuilt (isort (sortOrder o) l ++ s) (Z.of_nat (length l))).
Proof.
  intros Eb Es Hsize H2 Ho Hfn. unfold sortElements. rewrite Es, Eb. destruct (Z.ltb_spec (Z.of_nat (length l)) 2) as [|_]; [lia|].
  rewrite NewAndCopyTaggedArray_app, bind_Ok.
  pose (Inv := fun st : SortState W C => exception st = None /\ container st = c).
  assert (forall st x y, Inv st -> (SortCompare ToString (Some fn) st x y).1 = sortOrder o x y /\ Inv (SortCompare ToString (Some fn) st x y).2) as HI.
  { intros st x y [He Hc]. destruct (SortCompare_answers ToString fn o st x y Hfn He) as (H1 & H3 & H4). split; [done|]. split; [done|congruence]. }
  destruct (sort_exact Inv _ (sortOrder o) (mkSortState w c None) l (sortOrder_preorder o Ho) HI ltac:(done) Hsize) as (st & E & He & Hc).
  rewrite E, bind_Ok, He. cbv zeta. rewrite Hc. pose proof (Permutation_length (isort_perm (sortOrder o) l)) as Hlen. rewrite <- Hlen.
  pose proof (store_returns (isort (sortOrder o) l) (world st) c ltac:(lia)) as H. apply returns_iff in H as ([w' c'] & E' & _ & _ & _ & H).
  exists w'. rewrite E'. cbn [snd] in H. rewrite H; [|rewrite Hlen, Eb, length_app; lia|congruence].
  by rewrite Hlen, Eb, drop_app_length.
Qed.
End Lemmas.

(** ** Theorems *)

(** What a sort leaves in a container of the elements [l], whatever the comparison function did. *)
Definition rearranged {C} `{!ArrayBacked C} (l : list JSTaggedValue) (c : C) : Prop :=
  exists l' s, backing c = l' ++ s /\ Permutation l' l /\ Z.of_nat (length l) <= size c.

(** C20: [sort] of a vector and of an array list, with a comparison function that answers what it
    likes, throws, or changes, empties or replaces the array of the container while it is being
    sorted: the method ends, stays within the arrays, and throws only what user code threw;
    otherwise the container holds a permutation of the elements it had at the call. *)
Theorem ContainerSort_survives {W} (toStringV : StringConversion W JSAPIVector) (toStringA : StringConversion W JSAPIArrayList)
    fnV fnA (w : W) l s (Hsize : Z.of_nat (length l) < 2 ^ 30) :
  outcome (vector_sort toStringV (This (vec l s)) fnV w) (fun p => rearranged l p.2) (thrownBy toStringV fnV) /\
  outcome (arraylist_sort toStringA (This (alist l s)) (match fnA with Some fn => Callable fn | None => UndefinedOrNull end) w)
    (fun p => rearranged l p.2) (thrownBy toStringA fnA).
Proof.
  split.
  - eapply outcome_mono; [apply (sortElements_outcome toStringV fnV w (vec l s) l s); done| |done]. by intros [w' c'].
  - unfold arraylist_sort. cbn [receive]. rewrite bind_Ok.
    pose proof (sortElements_outcome toStringA fnA w (alist l s) l s eq_refl eq_refl Hsize) as H.
    destruct fnA; (eapply outcome_mono; [exact H| |done]; by intros [w' c']).
Qed.

(** The comparison function trims the vector to nothing. *)
Definition emptyingComparator : Comparator nat JSAPIVector := fun w _ _ _ => Ok (ofInt 1, S w, mkVector [] 0).

Lemma ContainerSort_survives_witness :
  outcome (vector_sort (fun w c _ => Ok ([], w, c)) (This (vec [Int 3; Int 1; Int 2] [])) (Some emptyingComparator) 0%nat)
    (fun p => rearranged [Int 3; Int 1; Int 2] p.2) (thrownBy (fun w c _ => Ok ([], w, c)) (Some emptyingComparator)).
Proof. apply (ContainerSort_survives _ (fun w c _ => Ok ([], w, c)) _ None). by vm_compute. Defined.

(** With a comparison function that answers by a total preorder [o] and leaves the container
    alone, [sort] puts the elements in the order that stable insertion gives, undefined values and
    holes last, and leaves the spare slots as they were; with fewer than two elements nothing
    changes. *)
Theorem ContainerSort_orders {W} (toStringV : StringConversion W JSAPIVector) (toStringA : StringConversion W JSAPIArrayList)
    fnV fnA o (w : W) l s (Ho : preorder o) (HV : comparesBy fnV o) (HA : comparesBy fnA o) (Hsize : Z.of_nat (length l) < 2 ^ 30) :
  (exists w', vector_sort toStringV (This (vec l s)) (Some fnV) w = Ok (w', vec (isort (sortOrder o) l) s)) /\
  (exists w', arraylist_sort toStringA (This (alist l s)) (Callable fnA) w = Ok (w', alist (isort (sortOrder o) l) s)).
Proof.
  pose proof (Permutation_length (isort_perm (sortOrder o) l)) as Hlen. unfold vec, alist. rewrite Hlen.
  destruct (decide (2 <= length l)%nat) as [H2|H2].
  - split.
    + destruct (sortElements_sorts toStringV fnV o w (vec l s) l s) as (w' & E); [done..|]. by exists w'.
    + destruct (sortElements_sorts toStringA fnA o w (alist l s) l s) as (w' & E); [done..|]. by exists w'.
  - assert (isort (sortOrder o) l = l) as -> by (destruct l as [|x [|]]; cbn in *; [done|done|lia]).
    split; exists w.
    + unfold vector_sort, sortElements. cbn. destruct (Z.ltb_spec (Z.of_nat (length l)) 2); [done|lia].
    + unfold arraylist_sort, sortElements. cbn. destruct (Z.ltb_spec (Z.of_nat (length l)) 2); [done|lia].
Qed.

(** Integers by their value, as a comparison function. *)
Definition intKey (x : JSTaggedValue) : Z := match x with Int a => a | _ => 0 end.

Definition byKey {C} : Comparator nat C := fun w c x y => Ok (ofInt (intKey x - intKey y), S w, c).

Lemma byKey_compares {C} : comparesBy (C := C) byKey (fun x y => intKey x ?= intKey y).
Proof.
  intros w c x y. eexists _, _. split; [reflexivity|]. unfold signOf, ofInt. cbn [fst].
  assert (0 < ONE) by (by vm_compute). destruct (Z.compare_spec (intKey x) (intKey y)) as [->|H1|H1].
  - by rewrite Z.sub_diag.
  - apply Z.compare_lt_iff. nia.
  - apply Z.compare_gt_iff. nia.
Qed.

Lemma ContainerSort_orders_witness :
  exists w', vector_sort (fun w c _ => Ok ([], w, c)) (This (vec [Int 3; Undefined; Int 1; Int 2] [Hole])) (Some byKey) 0%nat
    = Ok (w', vec [Int 1; Int 2; Int 3; Undefined] [Hole]).
Proof.
  apply (ContainerSort_orders (fun w c _ => Ok ([], w, c)) (fun w c _ => Ok ([], w, c)) byKey byKey (fun x y => intKey x ?= intKey y) 0%nat
    [Int 3; Undefined; Int 1; Int 2] [Hole]); [apply compare_preorder|apply byKey_compares|apply byKey_compares|by vm_compute].
Defined.
