(* ===== verification/TaggedTree.v ===== *)
(** * Red-black trees in arrays

    [TaggedTree] of src/ecmascript/tagged_tree.h and tagged_tree.cpp, from which the ordered maps
    and sets ([TaggedTreeMap], [TaggedTreeSet]) are derived: the nodes of a red-black tree are entries
    of an array and know their parent and children by entry number; a removed node leaves a hole,
    and growing or shrinking the array moves the nodes together, in breadth-first order.  This file
    has the model; the proofs start in [TreeRep], which says what tree an array holds.

    Not modelled: a comparison function that changes the tree it is called from. *)

From Stdlib Require Import ZArith Lia.
From S2P Require Import Prelude BigIntBase Double Values StringOrder.

(** ** Data *)

Inductive TreeColor := BLACK | RED.

#[global] Instance TreeColor_eq_dec : EqDecision TreeColor.
Proof. solve_decision. Defined.

(** An entry of the array.  A link is an entry number or a hole; an unused entry has only holes,
    and its color is read as black. *)
Record Entry := mkEntry {
  entryKey : JSTaggedValue;
  entryValue : JSTaggedValue;
  entryColor : TreeColor;
  entryParent : JSTaggedValue;
  entryLeft : JSTaggedValue;
  entryRight : JSTaggedValue }.

Definition emptyEntry : Entry := mkEntry Hole Hole BLACK Hole Hole Hole.

(** The five slots before the entries, and the entries. *)
Record TaggedTree := mkTree {
  NumberOfElements : Z;
  NumberOfDeletedElements : Z;
  Capacity : Z;
  GetRootEntries : Z;
  GetCompare : JSTaggedValue;
  entriesOf : list Entry }.

Definition MIN_CAPACITY : Z := 7.
Definition MIN_SHRINK_CAPACITY : Z := 15.

(** What the comparison of keys needs from outside: the call of the comparison function, the
    conversions of its result and of keys that are neither numbers nor strings, the API version, and
    what a conversion of a double to [int] gives out of range. *)
Record Env (W : Type) := mkEnv {
  CallCompare : W -> JSTaggedValue -> JSTaggedValue -> JSTaggedValue -> result (JSTaggedValue * W);
  ToNumber : W -> JSTaggedValue -> result (numeric * W);
  ToString : W -> JSTaggedValue -> result (list Z * W);
  VMAPIVersion : Z;
  OutOfRangeCast : numeric -> Z }.
Arguments CallCompare {W} _.
Arguments ToNumber {W} _.
Arguments ToString {W} _.
Arguments VMAPIVersion {W} _.
Arguments OutOfRangeCast {W} _.

(** ** Accessors *)

Definition withEntries (t : TaggedTree) (es : list Entry) : TaggedTree :=
  mkTree (NumberOfElements t) (NumberOfDeletedElements t) (Capacity t) (GetRootEntries t) (GetCompare t) es.
Definition SetNumberOfElements (t : TaggedTree) (num : Z) : TaggedTree :=
  mkTree num (NumberOfDeletedElements t) (Capacity t) (GetRootEntries t) (GetCompare t) (entriesOf t).
Definition SetNumberOfDeletedElements (t : TaggedTree) (num : Z) : TaggedTree :=
  mkTree (NumberOfElements t) num (Capacity t) (GetRootEntries t) (GetCompare t) (entriesOf t).
Definition SetCapacity (t : TaggedTree) (capacity : Z) : TaggedTree :=
  mkTree (NumberOfElements t) (NumberOfDeletedElements t) capacity (GetRootEntries t) (GetCompare t) (entriesOf t).
Definition SetRootEntries (t : TaggedTree) (num : Z) : TaggedTree :=
  mkTree (NumberOfElements t) (NumberOfDeletedElements t) (Capacity t) num (GetCompare t) (entriesOf t).
Definition SetCompare (t : TaggedTree) (fn : JSTaggedValue) : TaggedTree :=
  mkTree (NumberOfElements t) (NumberOfDeletedElements t) (Capacity t) (GetRootEntries t) fn (entriesOf t).

(** [GetInt] of a link that is no hole. *)
Definition linkInt (v : JSTaggedValue) : result Z := match v with Int z => Ok z | _ => Err OutOfBounds end.

Definition entryAt (t : TaggedTree) (entry : Z) : result Entry :=
  if entry <? 0 then Err OutOfBounds else get (entriesOf t) (Z.to_nat entry).

Definition GetKey (t : TaggedTree) (entry : Z) : result JSTaggedValue :=
  if entry <? 0 then Ok Hole else e ← entryAt t entry; Ok (entryKey e).

(** There is no check for a negative entry: the value of entry -1 is the slot of the number of
    elements, for maps ([5 - 6 + 1]) and for sets ([5 - 5 + 0]). *)
Definition GetValue (t : TaggedTree) (entry : Z) : result JSTaggedValue :=
  if entry =? -1 then Ok (Int (NumberOfElements t)) else e ← entryAt t entry; Ok (entryValue e).

Definition GetColor (t : TaggedTree) (entry : Z) : result TreeColor :=
  if entry <? 0 then Ok BLACK else e ← entryAt t entry; Ok (entryColor e).

Definition GetParent (t : TaggedTree) (entry : Z) : result Z := e ← entryAt t entry; linkInt (entryParent e).

Definition GetLeftChild (t : TaggedTree) (parent : Z) : result JSTaggedValue :=
  if parent <? 0 then Ok Hole else e ← entryAt t parent; Ok (entryLeft e).

Definition GetRightChild (t : TaggedTree) (parent : Z) : result JSTaggedValue :=
  if parent <? 0 then Ok Hole else e ← entryAt t parent; Ok (entryRight e).

(** [child.IsHole() ? -1 : child.GetInt()] *)
Definition childIndex (child : JSTaggedValue) : result Z := match child with Hole => Ok (-1) | _ => linkInt child end.

Definition GetLeftChildIndex (t : TaggedTree) (parent : Z) : result Z := child ← GetLeftChild t parent; childIndex child.
Definition GetRightChildIndex (t : TaggedTree) (parent : Z) : result Z := child ← GetRightChild t parent; childIndex child.

(** A write to one entry. *)
Definition updateEntry (t : TaggedTree) (entry : Z) (f : Entry -> Entry) : result TaggedTree :=
  e ← entryAt t entry; es ← set (entriesOf t) (Z.to_nat entry) (f e); Ok (withEntries t es).

Definition colored (c : TreeColor) (e : Entry) : Entry := mkEntry (entryKey e) (entryValue e) c (entryParent e) (entryLeft e) (entryRight e).
Definition parented (p : JSTaggedValue) (e : Entry) : Entry := mkEntry (entryKey e) (entryValue e) (entryColor e) p (entryLeft e) (entryRight e).
Definition lefted (l : JSTaggedValue) (e : Entry) : Entry := mkEntry (entryKey e) (entryValue e) (entryColor e) (entryParent e) l (entryRight e).
Definition righted (r : JSTaggedValue) (e : Entry) : Entry := mkEntry (entryKey e) (entryValue e) (entryColor e) (entryParent e) (entryLeft e) r.

Definition SetParent (t : TaggedTree) (entry : Z) (value : JSTaggedValue) : result TaggedTree :=
  if entry <? 0 then Ok t else updateEntry t entry (parented value).
Definition SetColor (t : TaggedTree) (entry : Z) (color : TreeColor) : result TaggedTree :=
  if 0 <=? entry then updateEntry t entry (colored color) else Ok t.
Definition SetLeftChild (t : TaggedTree) (entry : Z) (value : JSTaggedValue) : result TaggedTree := updateEntry t entry (lefted value).
Definition SetRightChild (t : TaggedTree) (entry : Z) (value : JSTaggedValue) : result TaggedTree := updateEntry t entry (righted value).

Definition IsValidIndex (t : TaggedTree) (entry : Z) : result bool :=
  if entry =? GetRootEntries t then Ok false else key ← GetKey t entry; Ok (negb (IsHole key)).

Definition GetLeftBrother (t : TaggedTree) (entry : Z) : result Z := p ← GetParent t entry; child ← GetRightChild t p; childIndex child.
Definition GetRightBrother (t : TaggedTree) (entry : Z) : result Z := p ← GetParent t entry; child ← GetLeftChild t p; childIndex child.

Definition isLink (child : JSTaggedValue) (entry : Z) : result bool :=
  match child with Hole => Ok false | _ => z ← linkInt child; Ok (z =? entry) end.

Definition IsLeft (t : TaggedTree) (entry : Z) : result bool := p ← GetParent t entry; child ← GetLeftChild t p; isLink child entry.
Definition IsRight (t : TaggedTree) (entry : Z) : result bool := p ← GetParent t entry; child ← GetRightChild t p; isLink child entry.

(** The loops of this file end after as many rounds as there are entries, some after twice as
    many. *)
Definition entryFuel (t : TaggedTree) : nat := S (length (entriesOf t)).

Fixpoint minimumLoop (fuel : nat) (t : TaggedTree) (entry : Z) : result Z :=
  child ← GetLeftChild t entry;
  match child with
  | Hole => Ok entry
  | _ => match fuel with O => Err OutOfFuel | S fuel => entry ← linkInt child; minimumLoop fuel t entry end
  end.

Definition GetMinimum (t : TaggedTree) (entry : Z) : result Z := minimumLoop (entryFuel t) t entry.

Fixpoint maximumLoop (fuel : nat) (t : TaggedTree) (entry : Z) : result Z :=
  child ← GetRightChild t entry;
  match child with
  | Hole => Ok entry
  | _ => match fuel with O => Err OutOfFuel | S fuel => entry ← linkInt child; maximumLoop fuel t entry end
  end.

Definition GetMaximum (t : TaggedTree) (entry : Z) : result Z := maximumLoop (entryFuel t) t entry.

Fixpoint climbRight (fuel : nat) (t : TaggedTree) (parent entry : Z) : result Z :=
  if parent <? 0 then Ok parent else
  right ← GetRightChildIndex t parent;
  if right =? entry then
    match fuel with O => Err OutOfFuel | S fuel => p ← GetParent t parent; climbRight fuel t p parent end
  else Ok parent.

Definition GetSuccessor (t : TaggedTree) (entry : Z) : result Z :=
  child ← GetRightChildIndex t entry;
  if 0 <=? child then GetMinimum t child else
  parent ← GetParent t entry; climbRight (entryFuel t) t parent entry.

Fixpoint climbLeft (fuel : nat) (t : TaggedTree) (parent entry : Z) : result Z :=
  if parent <? 0 then Ok parent else
  left ← GetLeftChildIndex t parent;
  if left =? entry then
    match fuel with O => Err OutOfFuel | S fuel => p ← GetParent t parent; climbLeft fuel t p parent end
  else Ok parent.

Definition GetPreDecessor (t : TaggedTree) (entry : Z) : result Z :=
  child ← GetLeftChildIndex t entry;
  if 0 <=? child then GetMaximum t child else
  parent ← GetParent t entry; climbLeft (entryFuel t) t parent entry.

Definition Transform (v : JSTaggedValue) : JSTaggedValue := match v with Hole => Undefined | _ => v end.

(** ** Rotations and rebalancing *)

Definition LeftRotate (t : TaggedTree) (index : Z) : result TaggedTree :=
  if 0 <=? index then
    right ← (v ← GetRightChild t index; linkInt v);
    leftOfRight ← GetLeftChild t right;
    t ← SetRightChild t index leftOfRight;
    t ← (match leftOfRight with Hole => Ok t | _ => l ← linkInt leftOfRight; SetParent t l (Int index) end);
    parentOfIndex ← GetParent t index;
    t ← SetParent t right (Int parentOfIndex);
    t ← (if parentOfIndex <? 0 then Ok (SetRootEntries t right) else
         left ← GetLeftChild t parentOfIndex;
         isLeft ← isLink left index;
         if (isLeft : bool) then SetLeftChild t parentOfIndex (Int right) else SetRightChild t parentOfIndex (Int right));
    t ← SetLeftChild t right (Int index);
    SetParent t index (Int right)
  else Ok t.

Definition RightRotate (t : TaggedTree) (index : Z) : result TaggedTree :=
  if 0 <=? index then
    left ← (v ← GetLeftChild t index; linkInt v);
    rightOfLeft ← GetRightChild t left;
    t ← SetLeftChild t index rightOfLeft;
    t ← (match rightOfLeft with Hole => Ok t | _ => r ← linkInt rightOfLeft; SetParent t r (Int index) end);
    parentOfIndex ← GetParent t index;
    t ← SetParent t left (Int parentOfIndex);
    t ← (if parentOfIndex <? 0 then Ok (SetRootEntries t left) else
         right ← GetRightChild t parentOfIndex;
         isRight ← isLink right index;
         if (isRight : bool) then SetRightChild t parentOfIndex (Int left) else SetLeftChild t parentOfIndex (Int left));
    t ← SetRightChild t left (Int index);
    SetParent t index (Int left)
  else Ok t.

Definition GetGrandparent (t : TaggedTree) (index : Z) : result Z := p ← GetParent t index; GetParent t p.

Definition recolorUp (t : TaggedTree) (index bro : Z) : result (Z * TaggedTree) :=
  p ← GetParent t index; t ← SetColor t p BLACK;
  t ← SetColor t bro BLACK;
  g ← GetGrandparent t index; t ← SetColor t g RED;
  g ← GetGrandparent t index; Ok (g, t).

(** One round of the loop: the next [index] and the tree. *)
Definition insertRound (t : TaggedTree) (index : Z) : result (Z * TaggedTree) :=
  p ← GetParent t index;
  parentIsLeft ← IsLeft t p;
  if (parentIsLeft : bool) then
    bro ← GetLeftBrother t p;
    c ← GetColor t bro;
    if decide (c = RED) then recolorUp t index bro
    else
      indexIsRight ← IsRight t index;
      '(index, t) ← (if (indexIsRight : bool) then p ← GetParent t index; t ← LeftRotate t p; Ok (p, t) else Ok (index, t));
      p ← GetParent t index; t ← SetColor t p BLACK;
      g ← GetGrandparent t index; t ← SetColor t g RED;
      g ← GetGrandparent t index; t ← RightRotate t g;
      Ok (index, t)
  else
    bro ← GetRightBrother t p;
    c ← GetColor t bro;
    if decide (c = RED) then recolorUp t index bro
    else
      indexIsLeft ← IsLeft t index;
      '(index, t) ← (if (indexIsLeft : bool) then p ← GetParent t index; t ← RightRotate t p; Ok (p, t) else Ok (index, t));
      p ← GetParent t index; t ← SetColor t p BLACK;
      g ← GetGrandparent t index; t ← SetColor t g RED;
      g ← GetGrandparent t index; t ← LeftRotate t g;
      Ok (index, t).

Fixpoint insertLoop (fuel : nat) (t : TaggedTree) (index : Z) : result TaggedTree :=
  valid ← IsValidIndex t index;
  c ← (if (valid : bool) then p ← GetParent t index; GetColor t p else Ok BLACK);
  if decide (c = RED) then
    match fuel with
    | O => Err OutOfFuel
    | S fuel => '(index, t) ← insertRound t index; insertLoop fuel t index
    end
  else Ok t.

Definition InsertRebalance (t : TaggedTree) (index : Z) : result TaggedTree :=
  t ← insertLoop (entryFuel t) t index;
  SetColor t (GetRootEntries t) BLACK.

(** The rounds of the loop of [DeleteRebalance], for a left and for a right child. *)
Definition deleteRoundLeft (t : TaggedTree) (index : Z) : result (Z * TaggedTree) :=
  bro ← GetLeftBrother t index;
  c ← GetColor t bro;
  '(bro, t) ← (if decide (c = RED) then
      t ← SetColor t bro BLACK;
      p ← GetParent t index; t ← SetColor t p RED;
      p ← GetParent t index; t ← LeftRotate t p;
      bro ← GetLeftBrother t index; Ok (bro, t)
    else Ok (bro, t));
  left ← GetLeftChildIndex t bro; leftColor ← GetColor t left;
  right ← GetRightChildIndex t bro; rightColor ← GetColor t right;
  if decide (leftColor = BLACK /\ rightColor = BLACK) then
    t ← SetColor t bro RED;
    p ← GetParent t index; Ok (p, t)
  else
    '(bro, t) ← (if decide (rightColor = BLACK) then
        left ← GetLeftChildIndex t bro; t ← SetColor t left BLACK;
        t ← SetColor t bro RED;
        t ← RightRotate t bro;
        bro ← GetLeftBrother t index; Ok (bro, t)
      else Ok (bro, t));
    p ← GetParent t index; c ← GetColor t p; t ← SetColor t bro c;
    p ← GetParent t index; t ← SetColor t p BLACK;
    right ← GetRightChildIndex t bro; t ← SetColor t right BLACK;
    p ← GetParent t index; t ← LeftRotate t p;
    Ok (GetRootEntries t, t).

Definition deleteRoundRight (t : TaggedTree) (index : Z) : result (Z * TaggedTree) :=
  bro ← GetRightBrother t index;
  c ← GetColor t bro;
  '(bro, t) ← (if decide (c = RED) then
      t ← SetColor t bro BLACK;
      p ← GetParent t index; t ← SetColor t p RED;
      p ← GetParent t index; t ← RightRotate t p;
      bro ← GetRightBrother t index; Ok (bro, t)
    else Ok (bro, t));
  right ← GetRightChildIndex t bro; rightColor ← GetColor t right;
  left ← GetLeftChildIndex t bro; leftColor ← GetColor t left;
  if decide (rightColor = BLACK /\ leftColor = BLACK) then
    t ← SetColor t bro RED;
    p ← GetParent t index; Ok (p, t)
  else
    '(bro, t) ← (if decide (leftColor = BLACK) then
        right ← GetRightChildIndex t bro; t ← SetColor t right BLACK;
        t ← SetColor t bro RED;
        t ← LeftRotate t bro;
        bro ← GetRightBrother t index; Ok (bro, t)
      else Ok (bro, t));
    p ← GetParent t index; c ← GetColor t p; t ← SetColor t bro c;
    p ← GetParent t index; t ← SetColor t p BLACK;
    left ← GetLeftChildIndex t bro; t ← SetColor t left BLACK;
    p ← GetParent t index; t ← RightRotate t p;
    Ok (GetRootEntries t, t).

Fixpoint deleteLoop (fuel : nat) (t : TaggedTree) (index : Z) : result (Z * TaggedTree) :=
  c ← (if index =? GetRootEntries t then Ok RED else GetColor t index);
  if decide (c = BLACK) then
    match fuel with
    | O => Err OutOfFuel
    | S fuel =>
      isLeft ← IsLeft t index;
      '(index, t) ← (if (isLeft : bool) then deleteRoundLeft t index else deleteRoundRight t index);
      deleteLoop fuel t index
    end
  else Ok (index, t).

Definition DeleteRebalance (t : TaggedTree) (index : Z) : result TaggedTree :=
  '(index, t) ← deleteLoop (2 * entryFuel t) t index;
  SetColor t index BLACK.

Definition Transplant (t : TaggedTree) (dst src : Z) : result TaggedTree :=
  parent ← GetParent t dst;
  let child := if src <? 0 then Hole else Int src in
  t ← (if parent <? 0 then Ok (SetRootEntries t src) else
       isLeft ← IsLeft t dst;
       if (isLeft : bool) then SetLeftChild t parent child else SetRightChild t parent child);
  SetParent t src (Int parent).

(** ** Operations that differ for maps and sets *)

(** In a set the key and the value of an entry are the same slot. *)
Section Derived.
  Variable shared : bool.

Definition ENTRY_SIZE : Z := if shared then 5 else 6.
Definition ELEMENTS_START_INDEX : Z := 5.

Definition keyed (k : JSTaggedValue) (e : Entry) : Entry :=
  mkEntry k (if shared then k else entryValue e) (entryColor e) (entryParent e) (entryLeft e) (entryRight e).
Definition valued (v : JSTaggedValue) (e : Entry) : Entry :=
  mkEntry (if shared then v else entryKey e) v (entryColor e) (entryParent e) (entryLeft e) (entryRight e).

Definition SetKey (t : TaggedTree) (entry : Z) (key : JSTaggedValue) : result TaggedTree := updateEntry t entry (keyed key).
Definition SetValue (t : TaggedTree) (entry : Z) (value : JSTaggedValue) : result TaggedTree := updateEntry t entry (valued value).

Definition SetRoot (t : TaggedTree) (index : Z) (key value : JSTaggedValue) : result TaggedTree :=
  t ← SetKey t 0 key;
  t ← SetValue t 0 value;
  t ← SetParent t 0 (Int (-1));
  t ← SetColor t 0 BLACK;
  Ok (SetRootEntries t index).

Definition InsertLeftEntry (t : TaggedTree) (parentIndex entry : Z) (key value : JSTaggedValue) : result TaggedTree :=
  t ← SetKey t entry key;
  t ← SetValue t entry value;
  t ← SetColor t entry RED;
  t ← SetParent t entry (Int parentIndex);
  SetLeftChild t parentIndex (Int entry).

Definition InsertRightEntry (t : TaggedTree) (parentIndex entry : Z) (key value : JSTaggedValue) : result TaggedTree :=
  t ← SetKey t entry key;
  t ← SetValue t entry value;
  t ← SetColor t entry RED;
  t ← SetParent t entry (Int parentIndex);
  SetRightChild t parentIndex (Int entry).

Definition CopyEntry (t : TaggedTree) (parent : Z) (newTree : TaggedTree) (index : Z) : result TaggedTree :=
  key ← GetKey t parent; newTree ← SetKey newTree index key;
  c ← GetColor t parent; newTree ← SetColor newTree index c;
  v ← GetValue t parent; SetValue newTree index v.

Definition CopyData (t : TaggedTree) (dst src : Z) : result TaggedTree :=
  key ← GetKey t src; t ← SetKey t dst key;
  v ← GetValue t src; SetValue t dst v.

Definition RemoveEntry (t : TaggedTree) (index : Z) : result TaggedTree :=
  t ← SetKey t index Hole;
  t ← SetParent t index Hole;
  t ← SetLeftChild t index Hole;
  t ← SetRightChild t index Hole;
  SetValue t index Hole.

Definition Create (numberOfElements : Z) : TaggedTree :=
  let capacity := if MIN_CAPACITY <? numberOfElements then numberOfElements else MIN_CAPACITY in
  mkTree 0 0 capacity (-1) Hole (replicate (Z.to_nat capacity) emptyEntry).

(** The queue of entries, the next entry of the new tree and its next free entry. *)
Fixpoint copyLoop (fuel : nat) (t : TaggedTree) (entries : list Z) (newTree : TaggedTree) (index child : Z) : result TaggedTree :=
  match entries with
  | [] => Ok newTree
  | parent :: rest =>
    match fuel with
    | O => Err OutOfFuel
    | S fuel =>
      left ← GetLeftChild t parent;
      '(pushedLeft, newTree, child) ← (match left with Hole => Ok ([], newTree, child) | _ =>
        l ← linkInt left;
        newTree ← SetLeftChild newTree index (Int child);
        newTree ← SetParent newTree child (Int index);
        Ok ([l], newTree, child + 1) end);
      right ← GetRightChild t parent;
      '(pushedRight, newTree, child) ← (match right with Hole => Ok ([], newTree, child) | _ =>
        r ← linkInt right;
        newTree ← SetRightChild newTree index (Int child);
        newTree ← SetParent newTree child (Int index);
        Ok ([r], newTree, child + 1) end);
      newTree ← CopyEntry t parent newTree index;
      copyLoop fuel t (rest ++ pushedLeft ++ pushedRight) newTree (index + 1) child
    end
  end.

(** [len] counts entries here, not slots. *)
Definition AdjustTaggedTree (t : TaggedTree) (len : Z) : result TaggedTree :=
  if NumberOfDeletedElements t =? 0 then
    if len <? Z.of_nat (length (entriesOf t)) then Err OutOfBounds else
    Ok (withEntries t (entriesOf t ++ replicate (Z.to_nat len - length (entriesOf t)) emptyEntry))
  else
    let newTree := mkTree (NumberOfElements t) 0 0 0 Hole (replicate (Z.to_nat len) emptyEntry) in
    newTree ← SetParent newTree 0 (Int (-1));
    copyLoop (entryFuel t) t [GetRootEntries t] newTree 0 1.

Definition Remove (t : TaggedTree) (entry : Z) : result TaggedTree :=
  left ← GetLeftChild t entry;
  right ← GetRightChild t entry;
  '(successor, t) ← (if negb (IsHole left) && negb (IsHole right) then
      successor ← GetSuccessor t entry;
      t ← CopyData t entry successor;
      Ok (successor, t)
    else Ok (entry, t));
  left ← GetLeftChild t successor;
  right ← GetRightChild t successor;
  child ← (if IsHole left then childIndex right else linkInt left);
  t ← (if child <? 0 then
         c ← GetColor t successor;
         if decide (c = BLACK) then DeleteRebalance t successor else Ok t
       else Ok t);
  t ← Transplant t successor child;
  t ← (if 0 <=? child then
         c ← GetColor t successor;
         if decide (c = BLACK) then DeleteRebalance t child else Ok t
       else Ok t);
  t ← RemoveEntry t successor;
  let t := SetNumberOfElements t (u32 (NumberOfElements t - 1)) in
  Ok (SetNumberOfDeletedElements t (NumberOfDeletedElements t + 1)).

Definition Shrink (t : TaggedTree) : result TaggedTree :=
  let oldCapacity := Capacity t in
  if (oldCapacity + 1) / 4 <=? i32 (NumberOfElements t) then Ok t else
  let newCapacity := Z.shiftr (u32 (oldCapacity - 1)) 1 in
  if newCapacity <? MIN_SHRINK_CAPACITY then Ok t else
  newTree ← AdjustTaggedTree t newCapacity;
  let fn := GetCompare t in
  let newTree := match fn with Undefined | Null => newTree | _ => SetCompare newTree fn end in
  Ok (SetCapacity newTree newCapacity).

Definition Delete (t : TaggedTree) (entry : Z) : result TaggedTree := t ← Remove t entry; Shrink t.

Definition ComputeCapacity (oldCapacity : Z) : Z :=
  let capacity := i32 (u32 (u32 (Z.shiftl (u32 oldCapacity) 1) + 1)) in
  if MIN_CAPACITY <? capacity then capacity else MIN_CAPACITY.

(** The inner loop, which goes to the left and pushes the entries it passes. *)
Fixpoint pushLeft (fuel : nat) (t : TaggedTree) (index : Z) (entries : list Z) : result (list Z) :=
  if 0 <=? index then
    match fuel with O => Err OutOfFuel | S fuel => next ← GetLeftChildIndex t index; pushLeft fuel t next (index :: entries) end
  else Ok entries.

Fixpoint sortLoop (fuel : nat) (t : TaggedTree) (index : Z) (entries : list Z) (sortArray : list JSTaggedValue) (aid : nat)
  : result (list JSTaggedValue) :=
  if (0 <=? index) || negb (match entries with [] => true | _ => false end) then
    match fuel with
    | O => Err OutOfFuel
    | S fuel =>
      entries ← pushLeft (entryFuel t) t index entries;
      match entries with
      | [] => sortLoop fuel t (-1) [] sortArray aid
      | top :: entries =>
        sortArray ← set sortArray aid (Int top);
        index ← GetRightChildIndex t top;
        sortLoop fuel t index entries sortArray (S aid)
      end
    end
  else Ok sortArray.

(** The entries in the order of their keys. *)
Definition GetSortArray (t : TaggedTree) : result (list JSTaggedValue) :=
  sortLoop (entryFuel t) t (GetRootEntries t) [] (replicate (Z.to_nat (NumberOfElements t)) Hole) 0.

(** Breadth first. *)
Fixpoint hasValueLoop (fuel : nat) (t : TaggedTree) (entries : list Z) (value : JSTaggedValue) : result bool :=
  match entries with
  | [] => Ok false
  | parent :: rest =>
    match fuel with
    | O => Err OutOfFuel
    | S fuel =>
      v ← GetValue t parent;
      if SameValue v value then Ok true else
      left ← GetLeftChildIndex t parent;
      right ← GetRightChildIndex t parent;
      hasValueLoop fuel t (rest ++ (if 0 <=? left then [left] else []) ++ (if 0 <=? right then [right] else [])) value
    end
  end.

Definition HasValue (t : TaggedTree) (value : JSTaggedValue) : result bool :=
  if GetRootEntries t <? 0 then Ok false else hasValueLoop (entryFuel t) t [GetRootEntries t] value.

(** ** Comparisons *)

Section Compare.
  Context {W : Type}.
  Variable env : Env W.

Definition StrictNumberCompare (x y : numeric) : ComparisonResult :=
  if num_isnan x || num_isnan y then UNDEFINED else if num_lt x y then LESS else if num_lt y x then GREAT else EQUAL.

Definition resultOfInt (compareResult : Z) : ComparisonResult :=
  if 0 <? compareResult then GREAT else if compareResult <? 0 then LESS else EQUAL.

Definition keyString (w : W) (v : JSTaggedValue) : result (list Z * W) :=
  match v with EcmaString _ s => Ok (s, w) | _ => ToString env w v end.

Definition IsString (v : JSTaggedValue) : bool := match v with EcmaString _ _ => true | _ => false end.

(** The strings of two strings, or of values that are converted; comparing two strings converts
    nothing. *)
Definition compareAsStrings (w : W) (valueX valueY : JSTaggedValue) : result (ComparisonResult * W) :=
  '(x, w) ← keyString w valueX;
  '(y, w) ← keyString w valueY;
  d ← Compare x y; Ok (resultOfInt d, w).

Definition OrdinayEntryCompare (w : W) (valueX valueY : JSTaggedValue) : result (ComparisonResult * W) :=
  if IsString valueX && IsString valueY then compareAsStrings w valueX valueY else
  if IsNumber valueX && IsNumber valueY then Ok (StrictNumberCompare (ExtractNumber valueX) (ExtractNumber valueY), w) else
  if IsNumber valueX && IsString valueY then Ok (LESS, w) else
  if IsString valueX && IsNumber valueY then Ok (GREAT, w) else
  compareAsStrings w valueX valueY.

(** [static_cast<int>(value)] *)
Definition castInt (n : numeric) : Z :=
  match n.1 with
  | Some u => let z := Z.quot u ONE in if (- 2 ^ 31 <=? z) && (z <? 2 ^ 31) then z else OutOfRangeCast env n
  | None => OutOfRangeCast env n
  end.

Definition IllegalReturn : error := TypeError "CompareFn has illegal return value".

Definition callCompare (w : W) (compareFn valueX valueY : JSTaggedValue) : result (ComparisonResult * W) :=
  '(callResult, w) ← CallCompare env w compareFn valueX valueY;
  match callResult with
  | Boolean true => Ok (LESS, w)
  | Boolean false =>
    '(callResult, w) ← CallCompare env w compareFn valueY valueX;
    Ok (match callResult with Boolean true => GREAT | _ => EQUAL end, w)
  | Int z => Ok (resultOfInt z, w)
  | _ =>
    '(value, w) ← (match callResult with Double d => Ok (ofDouble d, w) | _ => ToNumber env w callResult end);
    if num_isnan value then Err IllegalReturn else Ok (resultOfInt (castInt value), w)
  end.

Definition EntryCompare (w : W) (valueX valueY : JSTaggedValue) (t : TaggedTree) : result (ComparisonResult * W) :=
  match GetCompare t with
  | Hole => OrdinayEntryCompare w valueX valueY
  | compareFn =>
    match valueX, valueY with
    | Undefined, Undefined => Ok (EQUAL, w)
    | Undefined, _ => Ok (GREAT, w)
    | _, Undefined => Ok (LESS, w)
    | Null, Null => Ok (EQUAL, w)
    | Null, _ => Ok (GREAT, w)
    | _, Null => Ok (LESS, w)
    | _, _ => callCompare w compareFn valueX valueY
    end
  end.

(** Downwards from [parentIndex]: the entry where the comparison stopped and its last result. *)
Fixpoint descend (fuel : nat) (t newTree : TaggedTree) (w : W) (key : JSTaggedValue) (parentIndex : Z) (parentKey : JSTaggedValue)
  : result (ComparisonResult * Z * W) :=
  '(res, w) ← EntryCompare w key parentKey t;
  match res with
  | EQUAL => Ok (EQUAL, parentIndex, w)
  | _ =>
    child ← (match res with LESS => GetLeftChild newTree parentIndex | _ => GetRightChild newTree parentIndex end);
    match child with
    | Hole => Ok (res, parentIndex, w)
    | _ =>
      match fuel with
      | O => Err OutOfFuel
      | S fuel =>
        parentIndex ← linkInt child;
        parentKey ← GetKey newTree parentIndex;
        match parentKey with
        | Hole => Ok (res, parentIndex, w)
        | _ => descend fuel t newTree w key parentIndex parentKey
        end
      end
    end
  end.

Definition FindEntry (t : TaggedTree) (w : W) (key : JSTaggedValue) : result (Z * W) :=
  let parentIndex := GetRootEntries t in
  parentKey ← GetKey t parentIndex;
  match parentKey with
  | Hole => Ok (-1, w)
  | _ =>
    '(res, parentIndex, w) ← descend (entryFuel t) t t w key parentIndex parentKey;
    Ok (match res with EQUAL => parentIndex | _ => -1 end, w)
  end.

(** The length of the array in slots is an [int]. *)
Definition LengthOverflow : error := RangeError "length of the array overflows".

Definition GrowCapacity (t : TaggedTree) : result TaggedTree :=
  let nof := u32 (NumberOfElements t + NumberOfDeletedElements t) in
  let oldCapacity := Capacity t in
  if i32 (u32 (nof + 1)) <=? oldCapacity then Ok t else
  let newCapacity := ComputeCapacity oldCapacity in
  if 2 ^ 31 <=? ELEMENTS_START_INDEX + newCapacity * ENTRY_SIZE then Err LengthOverflow else
  newTree ← AdjustTaggedTree t newCapacity;
  let fn := GetCompare t in
  let newTree := if 20 <=? VMAPIVersion env then match fn with Undefined | Null => newTree | _ => SetCompare newTree fn end else newTree in
  Ok (SetCapacity newTree newCapacity).

Definition Insert (t : TaggedTree) (w : W) (key value : JSTaggedValue) : result (TaggedTree * W) :=
  parentKey ← GetKey t (GetRootEntries t);
  match parentKey with
  | Hole =>
    t ← SetRoot t 0 key value;
    let t := SetNumberOfElements t (u32 (NumberOfElements t + 1)) in
    Ok (SetNumberOfDeletedElements t 0, w)
  | _ =>
    newTree ← GrowCapacity t;
    '(res, parentIndex, w) ← descend (entryFuel newTree) t newTree w key (GetRootEntries newTree) parentKey;
    match res with
    | EQUAL => newTree ← SetValue newTree parentIndex value; Ok (newTree, w)
    | _ =>
      let entry := u32 (NumberOfElements newTree + NumberOfDeletedElements newTree) in
      newTree ← (match res with
                 | LESS => InsertLeftEntry newTree parentIndex entry key value
                 | _ => InsertRightEntry newTree parentIndex entry key value end);
      let newTree := SetNumberOfElements newTree (u32 (NumberOfElements newTree + 1)) in
      newTree ← InsertRebalance newTree entry;
      Ok (newTree, w)
    end
  end.

(** [better]: the result for which the entry is the best so far. *)
Fixpoint boundLoop (fuel : nat) (better : ComparisonResult) (t : TaggedTree) (w : W) (key : JSTaggedValue) (parentIndex : Z)
  (parentKey : JSTaggedValue) (resultIndex : Z) : result (Z * W) :=
  if 0 <=? parentIndex then
    match fuel with
    | O => Err OutOfFuel
    | S fuel =>
      '(res, w) ← EntryCompare w key parentKey t;
      let '(resultIndex, hit) := if decide (res = better) then (parentIndex, true) else (resultIndex, false) in
      parentIndex ← (if Bool.eqb hit (if decide (better = GREAT) then true else false)
                     then GetRightChildIndex t parentIndex else GetLeftChildIndex t parentIndex);
      parentKey ← GetKey t parentIndex;
      boundLoop fuel better t w key parentIndex parentKey resultIndex
    end
  else Ok (resultIndex, w).

Definition GetLowerKey (t : TaggedTree) (w : W) (key : JSTaggedValue) : result (JSTaggedValue * W) :=
  let parentIndex := GetRootEntries t in
  parentKey ← GetKey t parentIndex;
  '(resultIndex, w) ← boundLoop (entryFuel t) GREAT t w key parentIndex parentKey (-1);
  lowerKey ← GetKey t resultIndex;
  Ok (Transform lowerKey, w).

Definition GetHigherKey (t : TaggedTree) (w : W) (key : JSTaggedValue) : result (JSTaggedValue * W) :=
  let parentIndex := GetRootEntries t in
  parentKey ← GetKey t parentIndex;
  '(resultIndex, w) ← boundLoop (entryFuel t) LESS t w key parentIndex parentKey (-1);
  lowerKey ← GetKey t resultIndex;
  Ok (Transform lowerKey, w).

Definition GetFirstKey (t : TaggedTree) : result JSTaggedValue :=
  entry ← GetMinimum t (GetRootEntries t); key ← GetKey t entry; Ok (Transform key).

Definition GetLastKey (t : TaggedTree) : result JSTaggedValue :=
  entry ← GetMaximum t (GetRootEntries t); key ← GetKey t entry; Ok (Transform key).
End Compare.
End Derived.
