(* ===== verification/TreeRep.v ===== *)
(** * Trees in arrays, as trees

    A functional tree whose nodes carry their entry number, what it means that an array of entries
    holds it, and what the reads, writes and rotations of [TaggedTree] do to it.  A place in a tree
    is a path of [frame]s; [plug] puts a subtree there. *)

From Stdlib Require Import ZArith Lia.
From stdpp Require Import sets.
From S2P Require Import Prelude Double Values TaggedTree.

(** ** Trees and paths *)

Inductive tree :=
| Leaf
| Node (c : TreeColor) (l : tree) (i : nat) (k v : JSTaggedValue) (r : tree).

Inductive frame :=
| InLeft (c : TreeColor) (i : nat) (k v : JSTaggedValue) (r : tree)
| InRight (c : TreeColor) (l : tree) (i : nat) (k v : JSTaggedValue).

Definition path : Type := list frame.

Definition plugFrame (f : frame) (s : tree) : tree :=
  match f with InLeft c i k v r => Node c s i k v r | InRight c l i k v => Node c l i k v s end.

Fixpoint plug (C : path) (s : tree) : tree := match C with [] => s | f :: C => plug C (plugFrame f s) end.

Lemma plug_snoc C f s : plug (C ++ [f]) s = plugFrame f (plug C s).
Proof. revert s. induction C as [|g C IH]; intros s; cbn; [done|]. by rewrite IH. Qed.

Definition frameId (f : frame) : nat := match f with InLeft _ i _ _ _ | InRight _ _ i _ _ => i end.

(** The entry above. *)
Definition above (C : path) : Z := match C with [] => -1 | f :: _ => Z.of_nat (frameId f) end.

Fixpoint ids (T : tree) : list nat := match T with Leaf => [] | Node _ l i _ _ r => ids l ++ i :: ids r end.

Fixpoint elements (T : tree) : list (JSTaggedValue * JSTaggedValue) :=
  match T with Leaf => [] | Node _ l _ k v r => elements l ++ (k, v) :: elements r end.

(** What stands before and after a place. *)
Fixpoint before {A} (nodes : tree -> list A) (node : nat -> JSTaggedValue -> JSTaggedValue -> A) (C : path) : list A :=
  match C with
  | [] => []
  | InLeft _ _ _ _ _ :: C => before nodes node C
  | InRight _ l i k v :: C => before nodes node C ++ nodes l ++ [node i k v]
  end.

Fixpoint after {A} (nodes : tree -> list A) (node : nat -> JSTaggedValue -> JSTaggedValue -> A) (C : path) : list A :=
  match C with
  | [] => []
  | InLeft _ i k v r :: C => node i k v :: nodes r ++ after nodes node C
  | InRight _ _ _ _ _ :: C => after nodes node C
  end.

Notation elementsBefore := (before elements (fun _ k v => (k, v))).
Notation elementsAfter := (after elements (fun _ k v => (k, v))).
Notation idsBefore := (before ids (fun i _ _ => i)).
Notation idsAfter := (after ids (fun i _ _ => i)).

Lemma elements_plug C s : elements (plug C s) = elementsBefore C ++ elements s ++ elementsAfter C.
Proof.
  revert s. induction C as [|[c i k v r|c l i k v] C IH]; intros s; cbn [plug plugFrame before after app]; [by rewrite app_nil_r| |];
    rewrite IH; cbn [elements]; by rewrite <- !app_assoc.
Qed.

Lemma ids_plug C s : ids (plug C s) = idsBefore C ++ ids s ++ idsAfter C.
Proof.
  revert s. induction C as [|[c i k v r|c l i k v] C IH]; intros s; cbn [plug plugFrame before after app]; [by rewrite app_nil_r| |];
    rewrite IH; cbn [ids]; by rewrite <- !app_assoc.
Qed.

(** ** Links *)

Definition link (T : tree) : JSTaggedValue := match T with Leaf => Hole | Node _ _ i _ _ _ => Int (Z.of_nat i) end.
Definition ptr (T : tree) : Z := match T with Leaf => -1 | Node _ _ i _ _ _ => Z.of_nat i end.
Definition rootColor (T : tree) : TreeColor := match T with Leaf => BLACK | Node c _ _ _ _ _ => c end.

(** The entries [es] hold the tree [T] below the entry [p]. *)
Fixpoint linked (es : list Entry) (p : Z) (T : tree) : Prop :=
  match T with
  | Leaf => True
  | Node c l i k v r =>
    es !! i = Some (mkEntry k v c (Int p) (link l) (link r)) /\ linked es (Z.of_nat i) l /\ linked es (Z.of_nat i) r
  end.

Definition linkedFrame (es : list Entry) (p : Z) (f : frame) (hole : JSTaggedValue) : Prop :=
  match f with
  | InLeft c i k v r => es !! i = Some (mkEntry k v c (Int p) hole (link r)) /\ linked es (Z.of_nat i) r
  | InRight c l i k v => es !! i = Some (mkEntry k v c (Int p) (link l) hole) /\ linked es (Z.of_nat i) l
  end.

Fixpoint linkedPath (es : list Entry) (C : path) (hole : JSTaggedValue) : Prop :=
  match C with
  | [] => True
  | f :: C => linkedFrame es (above C) f hole /\ linkedPath es C (Int (Z.of_nat (frameId f)))
  end.

Lemma linked_plug es C s : linked es (-1) (plug C s) <-> linkedPath es C (link s) /\ linked es (above C) s.
Proof.
  revert s. induction C as [|[c i k v r|c l i k v] C IH]; intros s; cbn [plug plugFrame linkedPath above frameId linkedFrame].
  - cbn. tauto.
  - rewrite IH. cbn [linked link]. tauto.
  - rewrite IH. cbn [linked link]. tauto.
Qed.

(** Only the entries of a tree matter to it. *)
Lemma linked_ext es es' p T : (forall j, j ∈ ids T -> es' !! j = es !! j) -> linked es p T -> linked es' p T.
Proof.
  revert p. induction T as [|c l IHl i k v r IHr]; intros p H; cbn [linked ids] in *; [done|]. intros (Hi & Hl & Hr).
  split_and!; [rewrite H by set_solver; done|apply IHl; [set_solver|done]|apply IHr; [set_solver|done]].
Qed.

Definition frameIds (f : frame) : list nat := match f with InLeft _ i _ _ r => i :: ids r | InRight _ l i _ _ => i :: ids l end.
Definition pathIds (C : path) : list nat := flat_map frameIds C.

Lemma linkedPath_ext es es' C h : (forall j, j ∈ pathIds C -> es' !! j = es !! j) -> linkedPath es C h -> linkedPath es' C h.
Proof.
  revert h. induction C as [|f C IH]; intros h H; cbn [linkedPath pathIds flat_map] in *; [done|]. fold (pathIds C) in H. intros [Hf HC]. split.
  - destruct f; cbn [linkedFrame frameIds] in *; destruct Hf as [Hi Hs]; (split; [rewrite H by set_solver; done|]);
      (eapply linked_ext; [|exact Hs]); intros j Hj; apply H; set_solver.
  - apply IH; [|done]. intros j Hj. apply H. set_solver.
Qed.

Lemma ids_plug_perm C s : ids (plug C s) ≡ₚ pathIds C ++ ids s.
Proof.
  unfold pathIds. revert s. induction C as [|[c i k v r|c l i k v] C IH]; intros s; cbn [plug plugFrame flat_map frameIds]; [done| |];
    rewrite IH; cbn [ids]; solve_Permutation.
Qed.

Lemma ptr_plug f C s s' : ptr (plug (f :: C) s) = ptr (plug (f :: C) s').
Proof. revert f s s'. induction C as [|g C IH]; intros f s s'; [by destruct f|]. apply IH. Qed.

(** ** Arrays that hold a tree *)

Definition Header : Type := Z * Z * Z * JSTaggedValue * nat.
Definition headerOf (t : TaggedTree) : Header :=
  (NumberOfElements t, NumberOfDeletedElements t, Capacity t, GetCompare t, length (entriesOf t)).

Definition unlinked (e : Entry) : Prop := entryLeft e = Hole /\ entryRight e = Hole.

(** The array [t] with the header [hd] holds the tree [T], and the entries that are neither of [T]
    nor in [X] have no children. *)
Record holds (X : list nat) (hd : Header) (t : TaggedTree) (T : tree) : Prop := {
  holds_header : headerOf t = hd;
  holds_root : GetRootEntries t = ptr T;
  holds_linked : linked (entriesOf t) (-1) T;
  holds_nodup : NoDup (ids T);
  holds_rest : forall j e, entriesOf t !! j = Some e -> j ∉ ids T -> j ∉ X -> unlinked e }.

(** ** Reads *)

Lemma entryAt_eq t i e : entriesOf t !! i = Some e -> TaggedTree.entryAt t (Z.of_nat i) = Ok e.
Proof.
  intros H. unfold TaggedTree.entryAt. destruct (Z.ltb_spec (Z.of_nat i) 0); [lia|]. unfold get. by rewrite Nat2Z.id, H.
Qed.

Lemma negative_id i : (Z.of_nat i <? 0) = false.
Proof. apply Z.ltb_ge. lia. Qed.

Lemma nonnegative_id i : (0 <=? Z.of_nat i) = true.
Proof. apply Z.leb_le. lia. Qed.

Lemma childIndex_link s : childIndex (link s) = Ok (ptr s).
Proof. by destruct s. Qed.

Lemma isLink_same c l i k v r : isLink (link (Node c l i k v r)) (Z.of_nat i) = Ok true.
Proof. cbn. by rewrite Z.eqb_refl. Qed.

Lemma isLink_other s i : i ∉ ids s -> isLink (link s) (Z.of_nat i) = Ok false.
Proof.
  destruct s as [|c l j k v r]; cbn [link isLink linkInt ids]; [done|]. intros H. rewrite bind_Ok.
  destruct (Z.eqb_spec (Z.of_nat j) (Z.of_nat i)); [|done]. assert (j = i) as -> by lia. exfalso. apply H. set_solver.
Qed.

(** The fields of an entry, read by number. *)
Section Fields.
  Variables (t : TaggedTree) (i : nat) (k v : JSTaggedValue) (c : TreeColor) (p : Z) (l r : tree).
  Hypothesis He : entriesOf t !! i = Some (mkEntry k v c (Int p) (link l) (link r)).

Lemma read_key : GetKey t (Z.of_nat i) = Ok k.
Proof. unfold GetKey. by rewrite negative_id, (entryAt_eq _ _ _ He). Qed.

Lemma read_value : GetValue t (Z.of_nat i) = Ok v.
Proof. unfold GetValue. destruct (Z.eqb_spec (Z.of_nat i) (-1)); [lia|]. by rewrite (entryAt_eq _ _ _ He). Qed.

Lemma read_color : GetColor t (Z.of_nat i) = Ok c.
Proof. unfold GetColor. by rewrite negative_id, (entryAt_eq _ _ _ He). Qed.

Lemma read_parent : GetParent t (Z.of_nat i) = Ok p.
Proof. unfold GetParent. by rewrite (entryAt_eq _ _ _ He). Qed.

Lemma read_left : GetLeftChild t (Z.of_nat i) = Ok (link l).
Proof. unfold GetLeftChild. by rewrite negative_id, (entryAt_eq _ _ _ He). Qed.

Lemma read_right : GetRightChild t (Z.of_nat i) = Ok (link r).
Proof. unfold GetRightChild. by rewrite negative_id, (entryAt_eq _ _ _ He). Qed.

Lemma read_leftIndex : GetLeftChildIndex t (Z.of_nat i) = Ok (ptr l).
Proof. unfold GetLeftChildIndex. by rewrite read_left, bind_Ok, childIndex_link. Qed.

Lemma read_rightIndex : GetRightChildIndex t (Z.of_nat i) = Ok (ptr r).
Proof. unfold GetRightChildIndex. by rewrite read_right, bind_Ok, childIndex_link. Qed.
End Fields.

Section Node.
  Variables (X : list nat) (hd : Header) (t : TaggedTree) (C : path).

Lemma node_at c l i k v r : holds X hd t (plug C (Node c l i k v r)) ->
  entriesOf t !! i = Some (mkEntry k v c (Int (above C)) (link l) (link r)).
Proof. intros H. pose proof (proj1 (linked_plug _ _ _) (holds_linked _ _ _ _ H)) as [_ [Hi _]]. exact Hi. Qed.

Lemma holds_color s : holds X hd t (plug C s) -> GetColor t (ptr s) = Ok (rootColor s).
Proof. destruct s as [|c l i k v r]; [done|]. intros H. eapply read_color, node_at, H. Qed.

Lemma root_ptr s : holds X hd t (plug C s) -> C <> [] -> GetRootEntries t = ptr s -> s = Leaf.
Proof.
  intros H HC Hroot. destruct s as [|c l i k v r]; [done|]. exfalso. rewrite (holds_root _ _ _ _ H) in Hroot.
  destruct C as [|f C'] using rev_ind; [done|]. clear IHC'.
  pose proof (holds_nodup _ _ _ _ H) as Hnd. rewrite ids_plug_perm in Hnd.
  rewrite plug_snoc in Hroot. unfold pathIds in Hnd. rewrite flat_map_app in Hnd. cbn [flat_map] in Hnd.
  apply NoDup_app in Hnd as (_ & Hnd & _).
  assert (frameId f = i) as Hi by (destruct f; cbn in Hroot |- *; lia). apply (Hnd i); [|cbn; set_solver].
  rewrite app_nil_r. apply elem_of_app. right. rewrite <- Hi. destruct f; cbn; set_solver.
Qed.
End Node.

(** ** Writes *)

Lemma update_eq t i e f : entriesOf t !! i = Some e -> updateEntry t (Z.of_nat i) f = Ok (withEntries t (<[i := f e]> (entriesOf t))).
Proof.
  intros H. unfold updateEntry. rewrite (entryAt_eq _ _ _ H), bind_Ok. unfold set. rewrite Nat2Z.id, decide_True by (by eapply lookup_lt_Some). done.
Qed.

Lemma lookup_upd (es : list Entry) i e e' j : es !! i = Some e -> <[i := e']> es !! j = if decide (j = i) then Some e' else es !! j.
Proof.
  intros H. destruct (decide (j = i)) as [->|]; [|by apply list_lookup_insert_ne]. apply list_lookup_insert_eq. by eapply lookup_lt_Some.
Qed.

(** A write that keeps the links of a node. *)
Lemma write_at X hd t C c l i k v r f c' k' v' : holds X hd t (plug C (Node c l i k v r)) ->
  f (mkEntry k v c (Int (above C)) (link l) (link r)) = mkEntry k' v' c' (Int (above C)) (link l) (link r) ->
  returns (updateEntry t (Z.of_nat i) f) (fun t' => holds X hd t' (plug C (Node c' l i k' v' r))).
Proof.
  intros H Hf. pose proof (node_at _ _ _ _ _ _ _ _ _ _ H) as Hi. rewrite (update_eq _ _ _ _ Hi), Hf.
  destruct H as [Hh Hroot Hlk Hnd Hrest].
  assert (forall T0 : tree, forall j, j ∈ ids T0 -> i ∉ ids T0 -> <[i := mkEntry k' v' c' (Int (above C)) (link l) (link r)]> (entriesOf t) !! j = entriesOf t !! j) as Hne.
  { intros T0 j Hj Hn. apply list_lookup_insert_ne. intros ->. done. }
  assert (ids (plug C (Node c' l i k' v' r)) = ids (plug C (Node c l i k v r))) as Hids by (by rewrite !ids_plug).
  assert (NoDup (pathIds C ++ (ids l ++ i :: ids r))) as Hnd' by (rewrite ids_plug_perm in Hnd; exact Hnd).
  apply NoDup_app in Hnd' as (_ & HC & (_ & Hl & [Hr _]%NoDup_cons)%NoDup_app).
  apply linked_plug in Hlk as [HCl (_ & Hll & Hrl)].
  split; cbn [withEntries entriesOf GetRootEntries].
  - rewrite <- Hh. unfold headerOf. cbn. by rewrite length_insert.
  - rewrite Hroot. destruct C as [|g C'] using rev_ind; [done|].
    rewrite !plug_snoc. by destruct g.
  - apply linked_plug. split; [|split_and!].
    + eapply linkedPath_ext; [|exact HCl]. intros j Hj. apply list_lookup_insert_ne. intros <-. apply (HC i Hj). set_solver.
    + rewrite (lookup_upd _ _ _ _ _ Hi). by rewrite decide_True by done.
    + eapply linked_ext; [|exact Hll]. intros j Hj. apply Hne with l; [done|]. intros Hn. apply (Hl i Hn). set_solver.
    + eapply linked_ext; [|exact Hrl]. intros j Hj. by apply Hne with r.
  - by rewrite Hids.
  - rewrite Hids. intros j e Hj Hn HX. rewrite (lookup_upd _ _ _ _ _ Hi) in Hj. destruct (decide (j = i)) as [->|]; [|by eapply Hrest].
    exfalso. apply Hn. rewrite ids_plug. cbn. set_solver.
Qed.

Lemma SetColor_holds X hd t C c l i k v r c' : holds X hd t (plug C (Node c l i k v r)) ->
  returns (SetColor t (Z.of_nat i) c') (fun t' => holds X hd t' (plug C (Node c' l i k v r))).
Proof. intros H. unfold SetColor. rewrite nonnegative_id. by eapply write_at. Qed.

(** ** Rotations *)

(** The part of the array that a rotation leaves alone. *)
Lemma linked_away es es' p T (L : list nat) : (forall j, j ∉ L -> es' !! j = es !! j) -> (forall j, j ∈ L -> j ∉ ids T) -> linked es p T -> linked es' p T.
Proof. intros H HL. apply linked_ext. intros j Hj. apply H. intros Hn. by apply (HL j). Qed.

Lemma linkedPath_away es es' C h (L : list nat) : (forall j, j ∉ L -> es' !! j = es !! j) -> (forall j, j ∈ L -> j ∉ pathIds C) ->
  linkedPath es C h -> linkedPath es' C h.
Proof. intros H HL. apply linkedPath_ext. intros j Hj. apply H. intros Hn. by apply (HL j). Qed.

(** A tree hung below another entry. *)
Lemma linked_reparent es es' p p' T : linked es p T -> (forall j, j ∈ ids T -> Z.of_nat j <> ptr T -> es' !! j = es !! j) -> NoDup (ids T) ->
  match T with Leaf => True | Node _ _ i _ _ _ => es' !! i = parented (Int p') <$> es !! i end -> linked es' p' T.
Proof.
  destruct T as [|c l i k v r]; [done|]. cbn [linked ids ptr]. intros (Hi & Hl & Hr) H Hnd Hi'.
  apply NoDup_app in Hnd as (_ & Hnl & [Hnr _]%NoDup_cons). split_and!; [by rewrite Hi', Hi| |].
  - eapply linked_ext; [|exact Hl]. intros j Hj. apply H; [set_solver|]. intros Heq. assert (j = i) as -> by lia. apply (Hnl i Hj). set_solver.
  - eapply linked_ext; [|exact Hr]. intros j Hj. apply H; [set_solver|]. intros Heq. by assert (j = i) as -> by lia.
Qed.

(** What hangs below a path is exchanged. *)
Definition rehung (f : frame) (h : JSTaggedValue) (e : Entry) : Entry := match f with InLeft _ _ _ _ _ => lefted h e | InRight _ _ _ _ _ => righted h e end.

Lemma linkedPath_rehang es es' C h h' : linkedPath es C h -> NoDup (pathIds C) ->
  (forall j, j ∈ pathIds C -> Z.of_nat j <> above C -> es' !! j = es !! j) ->
  match C with [] => True | f :: _ => es' !! frameId f = rehung f h' <$> es !! frameId f end -> linkedPath es' C h'.
Proof.
  destruct C as [|f C]; [done|]. cbn [linkedPath pathIds flat_map above]. fold (pathIds C). intros [Hf HC] Hnd H Hi.
  assert (NoDup (frameId f :: (match f with InLeft _ _ _ _ s | InRight _ s _ _ _ => ids s end ++ pathIds C))) as Hnd' by (by destruct f).
  apply NoDup_cons in Hnd' as [Hn1 (_ & Hn2 & _)%NoDup_app]. split.
  - destruct f as [c i k v r|c l i k v]; cbn [linkedFrame frameId rehung frameIds] in *; destruct Hf as [He Hs]; (split; [by rewrite Hi, He|]);
      (eapply linked_ext; [|exact Hs]); intros j Hj; (apply H; [set_solver|]); intros Heq; assert (j = i) as -> by lia; set_solver.
  - eapply linkedPath_ext; [|exact HC]. intros j Hj. apply H; [set_solver|]. intros Heq.
    assert (j = frameId f) as -> by lia. set_solver.
Qed.

(** The end of a left rotation at [x]. *)
Lemma rotated_left X hd t t' C cx a x kx vx cy b y ky vy c :
  holds X hd t (plug C (Node cx a x kx vx (Node cy b y ky vy c))) ->
  headerOf t' = hd -> GetRootEntries t' = ptr (plug C (Node cy (Node cx a x kx vx b) y ky vy c)) ->
  entriesOf t' !! x = Some (mkEntry kx vx cx (Int (Z.of_nat y)) (link a) (link b)) ->
  entriesOf t' !! y = Some (mkEntry ky vy cy (Int (above C)) (Int (Z.of_nat x)) (link c)) ->
  match b with Leaf => True | Node _ _ i _ _ _ => entriesOf t' !! i = parented (Int (Z.of_nat x)) <$> entriesOf t !! i end ->
  match C with [] => True | f :: _ => entriesOf t' !! frameId f = rehung f (Int (Z.of_nat y)) <$> entriesOf t !! frameId f end ->
  (forall j, j <> x -> j <> y -> Z.of_nat j <> ptr b -> Z.of_nat j <> above C -> entriesOf t' !! j = entriesOf t !! j) ->
  holds X hd t' (plug C (Node cy (Node cx a x kx vx b) y ky vy c)).
Proof.
  intros [Hh Hroot Hlk Hnd Hrest] Hh' Hroot' Hx Hy Hb HC Hother.
  assert (ids (plug C (Node cy (Node cx a x kx vx b) y ky vy c)) = ids (plug C (Node cx a x kx vx (Node cy b y ky vy c)))) as Hids.
  { rewrite !ids_plug. cbn [ids]. by simplify_list_eq. }
  pose proof Hnd as Hnd'. rewrite ids_plug_perm in Hnd'. cbn [ids] in Hnd'.
  assert (forall i, Z.of_nat i = ptr b -> i ∈ ids b) as Hib.
  { destruct b as [|cb lb ib kb vb rb]; cbn; [lia|]. intros i Heq. assert (i = ib) as -> by lia. set_solver. }
  assert (forall i, Z.of_nat i = above C -> i ∈ pathIds C) as HiC.
  { destruct C as [|f C']; cbn; [lia|]. intros i Heq. rewrite (Nat2Z.inj _ _ Heq). destruct f; cbn; set_solver. }
  apply linked_plug in Hlk as (HCl & _ & Hla & _ & Hlb & Hlc).
  apply NoDup_app in Hnd' as (HndC & HCd & Hnd1). apply NoDup_app in Hnd1 as (_ & Had & [Hxd Hnd2]%NoDup_cons).
  apply NoDup_app in Hnd2 as (Hndb & Hbd & [Hyd _]%NoDup_cons).
  split; [done|done| |by rewrite Hids|].
  - apply linked_plug. split; [|cbn [linked link]; split_and!; [done|done| | |]].
    + apply (linkedPath_rehang (entriesOf t) _ C (Int (Z.of_nat x))); [done|done| |done].
      intros j Hj Hne. apply Hother; [| | |done]; intros Heq; apply (HCd j Hj); [subst j; set_solver..|]. apply Hib in Heq. set_solver.
    + eapply linked_ext; [|exact Hla]. intros j Hj. apply Hother; intros Heq.
      * apply (Had j Hj). set_solver. * apply (Had j Hj). set_solver.
      * apply (Had j Hj). apply Hib in Heq. set_solver. * apply HiC in Heq. apply (HCd j Heq). set_solver.
    + apply (linked_reparent (entriesOf t) _ (Z.of_nat y)); [done| |done|done].
      intros j Hj Hne. apply Hother; [| |done|]; intros Heq; [subst; set_solver|subst; apply (Hbd y Hj); set_solver|].
      apply HiC in Heq. apply (HCd j Heq). set_solver.
    + eapply linked_ext; [|exact Hlc]. intros j Hj. apply Hother; intros Heq; [subst; set_solver|subst; set_solver| |].
      * apply Hib in Heq. apply (Hbd j Heq). set_solver. * apply HiC in Heq. apply (HCd j Heq). set_solver.
  - rewrite Hids. intros j e He Hj HX. apply (Hrest j e); [|done|done]. rewrite <- He. symmetry.
    rewrite ids_plug_perm in Hj. cbn [ids] in Hj.
    apply Hother; intros Heq; [subst; set_solver|subst; set_solver|apply Hib in Heq; set_solver|apply HiC in Heq; set_solver].
Qed.

(** The end of a right rotation at [y]. *)
Lemma rotated_right X hd t t' C cx a x kx vx cy b y ky vy c :
  holds X hd t (plug C (Node cy (Node cx a x kx vx b) y ky vy c)) ->
  headerOf t' = hd -> GetRootEntries t' = ptr (plug C (Node cx a x kx vx (Node cy b y ky vy c))) ->
  entriesOf t' !! x = Some (mkEntry kx vx cx (Int (above C)) (link a) (Int (Z.of_nat y))) ->
  entriesOf t' !! y = Some (mkEntry ky vy cy (Int (Z.of_nat x)) (link b) (link c)) ->
  match b with Leaf => True | Node _ _ i _ _ _ => entriesOf t' !! i = parented (Int (Z.of_nat y)) <$> entriesOf t !! i end ->
  match C with [] => True | f :: _ => entriesOf t' !! frameId f = rehung f (Int (Z.of_nat x)) <$> entriesOf t !! frameId f end ->
  (forall j, j <> x -> j <> y -> Z.of_nat j <> ptr b -> Z.of_nat j <> above C -> entriesOf t' !! j = entriesOf t !! j) ->
  holds X hd t' (plug C (Node cx a x kx vx (Node cy b y ky vy c))).
Proof.
  intros [Hh Hroot Hlk Hnd Hrest] Hh' Hroot' Hx Hy Hb HC Hother.
  assert (ids (plug C (Node cx a x kx vx (Node cy b y ky vy c))) = ids (plug C (Node cy (Node cx a x kx vx b) y ky vy c))) as Hids.
  { rewrite !ids_plug. cbn [ids]. by simplify_list_eq. }
  pose proof Hnd as Hnd'. rewrite ids_plug_perm in Hnd'. cbn [ids] in Hnd'. rewrite <- app_assoc in Hnd'. cbn [app] in Hnd'.
  assert (forall i, Z.of_nat i = ptr b -> i ∈ ids b) as Hib.
  { destruct b as [|cb lb ib kb vb rb]; cbn; [lia|]. intros i Heq. assert (i = ib) as -> by lia. set_solver. }
  assert (forall i, Z.of_nat i = above C -> i ∈ pathIds C) as HiC.
  { destruct C as [|f C']; cbn; [lia|]. intros i Heq. rewrite (Nat2Z.inj _ _ Heq). destruct f; cbn; set_solver. }
  apply linked_plug in Hlk as (HCl & _ & (_ & Hla & Hlb) & Hlc).
  apply NoDup_app in Hnd' as (HndC & HCd & Hnd1). apply NoDup_app in Hnd1 as (_ & Had & [Hxd Hnd2]%NoDup_cons).
  apply NoDup_app in Hnd2 as (Hndb & Hbd & [Hyd _]%NoDup_cons).
  split; [done|done| |by rewrite Hids|].
  - apply linked_plug. split; [|cbn [linked link]; split_and!; [done| |done| |]].
    + apply (linkedPath_rehang (entriesOf t) _ C (Int (Z.of_nat y))); [done|done| |done].
      intros j Hj Hne. apply Hother; [| | |done]; intros Heq; apply (HCd j Hj); [subst j; set_solver..|]. apply Hib in Heq. set_solver.
    + eapply linked_ext; [|exact Hla]. intros j Hj. apply Hother; intros Heq.
      * apply (Had j Hj). set_solver. * apply (Had j Hj). set_solver.
      * apply (Had j Hj). apply Hib in Heq. set_solver. * apply HiC in Heq. apply (HCd j Heq). set_solver.
    + apply (linked_reparent (entriesOf t) _ (Z.of_nat x)); [done| |done|done].
      intros j Hj Hne. apply Hother; [| |done|]; intros Heq; [subst; set_solver|subst; apply (Hbd y Hj); set_solver|].
      apply HiC in Heq. apply (HCd j Heq). set_solver.
    + eapply linked_ext; [|exact Hlc]. intros j Hj. apply Hother; intros Heq; [subst; set_solver|subst; set_solver| |].
      * apply Hib in Heq. apply (Hbd j Heq). set_solver. * apply HiC in Heq. apply (HCd j Heq). set_solver.
  - rewrite Hids. intros j e He Hj HX. apply (Hrest j e); [|done|done]. rewrite <- He. symmetry.
    rewrite ids_plug_perm in Hj. cbn [ids] in Hj.
    apply Hother; intros Heq; [subst; set_solver|subst; set_solver|apply Hib in Heq; set_solver|apply HiC in Heq; set_solver].
Qed.

(** Reads and writes of entries, one after the other, with the numbers of the entries known to
    differ. *)
Ltac look := cbn [withEntries SetRootEntries entriesOf];
  repeat first [rewrite list_lookup_insert_ne by congruence
               |rewrite list_lookup_insert_eq by (rewrite ?length_insert; eapply lookup_lt_Some; eassumption)];
  first [eassumption | reflexivity].

Lemma GetParent_eq t i e : entriesOf t !! i = Some e -> GetParent t (Z.of_nat i) = linkInt (entryParent e).
Proof. intros He. unfold GetParent. by rewrite (entryAt_eq _ _ _ He). Qed.

Lemma GetLeftChild_eq t i e : entriesOf t !! i = Some e -> GetLeftChild t (Z.of_nat i) = Ok (entryLeft e).
Proof. intros He. unfold GetLeftChild. by rewrite negative_id, (entryAt_eq _ _ _ He). Qed.

Lemma GetRightChild_eq t i e : entriesOf t !! i = Some e -> GetRightChild t (Z.of_nat i) = Ok (entryRight e).
Proof. intros He. unfold GetRightChild. by rewrite negative_id, (entryAt_eq _ _ _ He). Qed.

Ltac access1 :=
  first [rewrite bind_Ok | rewrite nonnegative_id | rewrite negative_id
        |erewrite GetRightChild_eq by look | erewrite GetLeftChild_eq by look | erewrite GetParent_eq by look
        |progress unfold SetLeftChild, SetRightChild, SetParent | erewrite update_eq by look
        |progress cbn [link linkInt isLink above frameId Z.ltb Z.compare]
        |progress cbn [parented lefted righted colored entryKey entryValue entryColor entryParent entryLeft entryRight]
        |rewrite Z.eqb_refl].
Ltac access := repeat access1.

(** The facts a rotation ends with, from the array it ends with. *)
Ltac rotated :=
  cbn [returns]; rewrite ?bind_Ok; first [eapply rotated_left; [eassumption|..] | eapply rotated_right; [eassumption|..]];
  [unfold headerOf; cbn [headerOf withEntries SetRootEntries NumberOfElements NumberOfDeletedElements Capacity GetCompare entriesOf];
   rewrite !length_insert; eapply holds_header; eassumption
  |cbn [withEntries SetRootEntries GetRootEntries];
   first [reflexivity | etransitivity; [eapply holds_root; eassumption|apply ptr_plug]]
  |look|look| | | ]; cbn [frameId rehung ptr above];
  [first [exact I | etransitivity; [|symmetry; eapply fmap_Some_2; eassumption]; look]
  |first [exact I | etransitivity; [|symmetry; eapply fmap_Some_2; eassumption]; look]
  |intros j; intros; cbn [withEntries SetRootEntries entriesOf]; rewrite !list_lookup_insert_ne by (intros ->; first [done | lia]); done].

(** Different places have different entries. *)
Ltac nodup_parts Hnd :=
  unfold pathIds in Hnd; cbn [flat_map frameIds ids] in Hnd; repeat (rewrite <- ?app_assoc in Hnd; cbn [app] in Hnd);
  repeat first [let H := fresh in apply NoDup_cons in Hnd as [H Hnd] | let H := fresh in apply NoDup_app in Hnd as (_ & H & Hnd)].
Ltac apart := let Heq := fresh in intros Heq;
  match goal with Hnd : NoDup _ |- _ => clear -Hnd Heq; nodup_parts Hnd end;
  match type of Heq with
  | ?u = ?v => subst v; match goal with H : u ∉ _ |- _ => apply H; clear; set_solver end
  | ?u ∈ _ => match goal with H : u ∉ _ |- _ => apply H; clear -Heq; set_solver
                             | H : forall x, x ∈ _ -> x ∉ _ |- _ => apply (H u Heq); clear; set_solver end
  end.

Section Rotate.
  Variables (X : list nat) (hd : Header) (t : TaggedTree) (C : path) (cx cy : TreeColor) (x y : nat) (kx vx ky vy : JSTaggedValue) (a b c : tree).

Lemma LeftRotate_holds : holds X hd t (plug C (Node cx a x kx vx (Node cy b y ky vy c))) ->
  returns (LeftRotate t (Z.of_nat x)) (fun t' => holds X hd t' (plug C (Node cy (Node cx a x kx vx b) y ky vy c))).
Proof.
  intros H. pose proof (node_at X hd t C _ _ _ _ _ _ H) as Hx.
  pose proof (node_at X hd t (InRight cx a x kx vx :: C) _ _ _ _ _ _ H) as Hy. cbn [above frameId] in Hy.
  pose proof (holds_nodup _ _ _ _ H) as Hnd. rewrite ids_plug_perm in Hnd. cbn [ids] in Hnd.
  assert (x <> y) as Hxy by apart.
  unfold LeftRotate. access.
  destruct b as [|cb lb bi kb vb rb].
  - access. destruct C as [|[c1 i k v r|c1 l i k v] C'].
    + access. rotated.
    + pose proof (node_at X hd t C' _ _ _ _ _ _ H) as Hi.
      assert (i <> x) by apart. assert (i <> y) by apart. access. rotated.
    + pose proof (node_at X hd t C' _ _ _ _ _ _ H) as Hi.
      assert (i <> x) by apart. assert (i <> y) by apart. assert (isLink (link l) (Z.of_nat x) = Ok false) as Hl by (apply isLink_other; apart).
      access. rewrite Hl. access. rotated.
  - pose proof (node_at X hd t (InLeft cy y ky vy c :: InRight cx a x kx vx :: C) _ _ _ _ _ _ H) as Hb. cbn [above frameId] in Hb.
    assert (bi <> x) by apart. assert (bi <> y) by apart. access. destruct C as [|[c1 i k v r|c1 l i k v] C'].
    + access. rotated.
    + pose proof (node_at X hd t C' _ _ _ _ _ _ H) as Hi.
      assert (i <> x) by apart. assert (i <> y) by apart. assert (i <> bi) by apart. access. rotated.
    + pose proof (node_at X hd t C' _ _ _ _ _ _ H) as Hi.
      assert (i <> x) by apart. assert (i <> y) by apart. assert (i <> bi) by apart.
      assert (isLink (link l) (Z.of_nat x) = Ok false) as Hl by (apply isLink_other; apart). access. rewrite Hl. access. rotated.
Qed.

Lemma RightRotate_holds : holds X hd t (plug C (Node cy (Node cx a x kx vx b) y ky vy c)) ->
  returns (RightRotate t (Z.of_nat y)) (fun t' => holds X hd t' (plug C (Node cx a x kx vx (Node cy b y ky vy c)))).
Proof.
  intros H. pose proof (node_at X hd t C _ _ _ _ _ _ H) as Hy.
  pose proof (node_at X hd t (InLeft cy y ky vy c :: C) _ _ _ _ _ _ H) as Hx. cbn [above frameId] in Hx.
  pose proof (holds_nodup _ _ _ _ H) as Hnd. rewrite ids_plug_perm in Hnd. cbn [ids] in Hnd.
  assert (x <> y) as Hxy by apart.
  unfold RightRotate. access.
  destruct b as [|cb lb bi kb vb rb].
  - access. destruct C as [|[c1 i k v r|c1 l i k v] C'].
    + access. rotated.
    + pose proof (node_at X hd t C' _ _ _ _ _ _ H) as Hi.
      assert (i <> x) by apart. assert (i <> y) by apart. assert (isLink (link r) (Z.of_nat y) = Ok false) as Hr by (apply isLink_other; apart).
      access. rewrite Hr. access. rotated.
    + pose proof (node_at X hd t C' _ _ _ _ _ _ H) as Hi.
      assert (i <> x) by apart. assert (i <> y) by apart. access. rotated.
  - pose proof (node_at X hd t (InRight cx a x kx vx :: InLeft cy y ky vy c :: C) _ _ _ _ _ _ H) as Hb. cbn [above frameId] in Hb.
    assert (bi <> x) by apart. assert (bi <> y) by apart. access. destruct C as [|[c1 i k v r|c1 l i k v] C'].
    + access. rotated.
    + pose proof (node_at X hd t C' _ _ _ _ _ _ H) as Hi.
      assert (i <> x) by apart. assert (i <> y) by apart. assert (i <> bi) by apart.
      assert (isLink (link r) (Z.of_nat y) = Ok false) as Hr by (apply isLink_other; apart). access. rewrite Hr. access. rotated.
    + pose proof (node_at X hd t C' _ _ _ _ _ _ H) as Hi.
      assert (i <> x) by apart. assert (i <> y) by apart. assert (i <> bi) by apart. access. rotated.
Qed.
End Rotate.

(** ** The relatives of a node *)

Section Relatives.
  Variables (X : list nat) (hd : Header) (t : TaggedTree) (C : path) (c : TreeColor) (l r : tree) (i : nat) (k v : JSTaggedValue).
Let s := Node c l i k v r.

Lemma parent_of : holds X hd t (plug C s) -> GetParent t (Z.of_nat i) = Ok (above C).
Proof. intros H. eapply read_parent, (node_at X hd t C), H. Qed.

Lemma grandparent_of f1 f2 : holds X hd t (plug (f1 :: f2 :: C) s) -> GetGrandparent t (Z.of_nat i) = Ok (Z.of_nat (frameId f2)).
Proof.
  intros H. unfold GetGrandparent.
  rewrite (read_parent _ _ _ _ _ _ _ _ (node_at X hd t (f1 :: f2 :: C) _ _ _ _ _ _ H)), bind_Ok. cbn [above].
  destruct f1; cbn [frameId]; eapply read_parent, (node_at X hd t (f2 :: C)), H.
Qed.

Lemma left_isLeft c' p k' v' u : holds X hd t (plug (InLeft c' p k' v' u :: C) s) -> IsLeft t (Z.of_nat i) = Ok true.
Proof.
  intros H. unfold IsLeft. rewrite (read_parent _ _ _ _ _ _ _ _ (node_at X hd t (_ :: C) _ _ _ _ _ _ H)), bind_Ok. cbn [above frameId].
  rewrite (read_left _ _ _ _ _ _ _ _ (node_at X hd t C _ _ _ _ _ _ H)), bind_Ok. apply isLink_same.
Qed.

Lemma right_isRight c' u p k' v' : holds X hd t (plug (InRight c' u p k' v' :: C) s) -> IsRight t (Z.of_nat i) = Ok true.
Proof.
  intros H. unfold IsRight. rewrite (read_parent _ _ _ _ _ _ _ _ (node_at X hd t (_ :: C) _ _ _ _ _ _ H)), bind_Ok. cbn [above frameId].
  rewrite (read_right _ _ _ _ _ _ _ _ (node_at X hd t C _ _ _ _ _ _ H)), bind_Ok. apply isLink_same.
Qed.

Lemma right_isLeft c' u p k' v' : holds X hd t (plug (InRight c' u p k' v' :: C) s) -> IsLeft t (Z.of_nat i) = Ok false.
Proof.
  intros H. unfold IsLeft. rewrite (read_parent _ _ _ _ _ _ _ _ (node_at X hd t (_ :: C) _ _ _ _ _ _ H)), bind_Ok. cbn [above frameId].
  rewrite (read_left _ _ _ _ _ _ _ _ (node_at X hd t C _ _ _ _ _ _ H)), bind_Ok. apply isLink_other.
  pose proof (holds_nodup _ _ _ _ H) as Hnd. rewrite ids_plug_perm in Hnd. cbn [ids] in Hnd. apart.
Qed.

Lemma left_isRight c' p k' v' u : holds X hd t (plug (InLeft c' p k' v' u :: C) s) -> IsRight t (Z.of_nat i) = Ok false.
Proof.
  intros H. unfold IsRight. rewrite (read_parent _ _ _ _ _ _ _ _ (node_at X hd t (_ :: C) _ _ _ _ _ _ H)), bind_Ok. cbn [above frameId].
  rewrite (read_right _ _ _ _ _ _ _ _ (node_at X hd t C _ _ _ _ _ _ H)), bind_Ok. apply isLink_other.
  pose proof (holds_nodup _ _ _ _ H) as Hnd. rewrite ids_plug_perm in Hnd. cbn [ids] in Hnd. apart.
Qed.

Lemma left_brother c' p k' v' u : holds X hd t (plug (InLeft c' p k' v' u :: C) s) -> GetLeftBrother t (Z.of_nat i) = Ok (ptr u).
Proof.
  intros H. unfold GetLeftBrother. rewrite (read_parent _ _ _ _ _ _ _ _ (node_at X hd t (_ :: C) _ _ _ _ _ _ H)), bind_Ok. cbn [above frameId].
  rewrite (read_right _ _ _ _ _ _ _ _ (node_at X hd t C _ _ _ _ _ _ H)), bind_Ok. apply childIndex_link.
Qed.

Lemma right_brother c' u p k' v' : holds X hd t (plug (InRight c' u p k' v' :: C) s) -> GetRightBrother t (Z.of_nat i) = Ok (ptr u).
Proof.
  intros H. unfold GetRightBrother. rewrite (read_parent _ _ _ _ _ _ _ _ (node_at X hd t (_ :: C) _ _ _ _ _ _ H)), bind_Ok. cbn [above frameId].
  rewrite (read_left _ _ _ _ _ _ _ _ (node_at X hd t C _ _ _ _ _ _ H)), bind_Ok. apply childIndex_link.
Qed.

Lemma leftIndex_of : holds X hd t (plug C s) -> GetLeftChildIndex t (Z.of_nat i) = Ok (ptr l).
Proof. intros H. eapply read_leftIndex, (node_at X hd t C), H. Qed.

Lemma rightIndex_of : holds X hd t (plug C s) -> GetRightChildIndex t (Z.of_nat i) = Ok (ptr r).
Proof. intros H. eapply read_rightIndex, (node_at X hd t C), H. Qed.
End Relatives.
