(* ===== verification/TreeBalance.v ===== *)
(** * Rebalancing after an insertion

    The red-black invariant of a tree and of a place in it, and the proof that [InsertRebalance]
    restores it and keeps the nodes in their order. *)

From Stdlib Require Import ZArith Lia.
From stdpp Require Import sets.
From S2P Require Import Prelude Double Values TaggedTree TreeRep.

(** ** The invariant *)

(** No red node has a red child, and every way down passes [n] black nodes. *)
Fixpoint balanced (T : tree) (n : nat) : Prop :=
  match T with
  | Leaf => n = 0%nat
  | Node RED l _ _ _ r => rootColor l = BLACK /\ rootColor r = BLACK /\ balanced l n /\ balanced r n
  | Node BLACK l _ _ _ r => match n with O => False | S n => balanced l n /\ balanced r n end
  end.

Definition redBlack (T : tree) : Prop := rootColor T = BLACK /\ exists n, balanced T n.

Definition frameColor (f : frame) : TreeColor := match f with InLeft c _ _ _ _ | InRight c _ _ _ _ => c end.
Definition sibling (f : frame) : tree := match f with InLeft _ _ _ _ s | InRight _ s _ _ _ => s end.

(** A tree with root color [c] and black height [n] fits at the place. *)
Fixpoint fits (C : path) (c : TreeColor) (n : nat) : Prop :=
  match C with
  | [] => c = BLACK
  | f :: C =>
    balanced (sibling f) n /\
    match frameColor f with
    | RED => c = BLACK /\ rootColor (sibling f) = BLACK /\ fits C RED n
    | BLACK => fits C BLACK (S n)
    end
  end.

Lemma fits_plug C s n : fits C (rootColor s) n -> balanced s n -> redBlack (plug C s).
Proof.
  revert s n. induction C as [|f C IH]; intros s n HC Hs; cbn [fits plug] in *; [by split; [|exists n]|].
  destruct HC as [Hf HC]. destruct f as [[] i k v r|[] l i k v]; cbn [frameColor sibling plugFrame] in *.
  1,3: apply (IH _ (S n)); [done|cbn; by split].
  all: destruct HC as (Hc & Hr & HC); apply (IH _ n); [done|cbn; by split_and!].
Qed.

Lemma plug_fits C s : redBlack (plug C s) -> exists n, fits C (rootColor s) n /\ balanced s n.
Proof.
  revert s. induction C as [|f C IH]; intros s HT; cbn [fits plug] in *; [by destruct HT as [Hc [n Hn]]; exists n|].
  apply IH in HT as (n & HC & Hn). destruct f as [[] i k v r|[] l i k v]; cbn [frameColor sibling plugFrame rootColor balanced] in *.
  1,3: destruct n as [|n]; [done|]; destruct Hn; exists n; split_and!; done.
  all: destruct Hn as (? & ? & ? & ?); exists n; split_and!; done.
Qed.

(** Under a black node, and at the root, the color does not matter. *)
Lemma fits_black f C c n : frameColor f = BLACK -> fits (f :: C) BLACK n -> fits (f :: C) c n.
Proof. cbn [fits]. by intros ->. Qed.

Lemma fits_any C c n : fits C c n -> fits C BLACK n.
Proof. destruct C as [|f C]; cbn [fits]; [done|]. intros [Hf HC]. split; [done|]. destruct (frameColor f); [done|]. by destruct HC as (_ & ? & ?). Qed.

(** A red node is not the root. *)
Lemma fits_red f C c n : frameColor f = RED -> fits (f :: C) c n -> exists g C', C = g :: C' /\ frameColor g = BLACK.
Proof.
  cbn [fits]. intros ->. intros (_ & _ & _ & HC). destruct C as [|g C']; cbn [fits] in HC; [done|]. exists g, C'. split; [done|].
  destruct HC as [_ HC]. destruct (frameColor g); [done|]. by destruct HC as (? & _).
Qed.

Definition blacken (T : tree) : tree := match T with Leaf => Leaf | Node _ l i k v r => Node BLACK l i k v r end.

(** ** Rebalancing after an insertion *)

(** A red node with black subtrees of height [n]. *)
Definition redNode (s : tree) (n : nat) : Prop :=
  match s with
  | Node RED l _ _ _ r => rootColor l = BLACK /\ rootColor r = BLACK /\ balanced l n /\ balanced r n
  | _ => False
  end.

Definition sameNodes (T T' : tree) : Prop := elements T' = elements T /\ ids T' = ids T.

Ltac same_nodes := split; rewrite ?elements_plug, ?ids_plug; cbn [elements ids plugFrame app before after]; by simplify_list_eq.

Lemma sameNodes_trans T1 T2 T3 : sameNodes T1 T2 -> sameNodes T2 T3 -> sameNodes T1 T3.
Proof. intros [H1 H2] [H3 H4]. split; congruence. Qed.

(** One write or rotation at a place, given the fact before it and naming the fact after it. *)
Tactic Notation "write" open_constr(fact) hyp(t) hyp(H) :=
  eapply returns_bind; [exact (fact H)|]; clear t H; intros t H; cbn beta in H.

Section InsertRound.
  Variables (X : list nat) (hd : Header).

(** The state of the loop: a red node at [C] that may have a red parent. *)
Definition insertState (T : tree) (n : nat) (C : path) (index : Z) (t : TaggedTree) : Prop :=
  exists s, index = ptr s /\ redNode s n /\ fits C BLACK n /\ holds X hd t (plug C s) /\ sameNodes T (plug C s).

Ltac recolored := match goal with H : holds _ _ _ (plug _ ?s) |- _ => exists s end; split_and!; [reflexivity|cbn; split_and!; done|assumption|eassumption|same_nodes].

(** The uncle is red. *)
Lemma recolorUp_ok t f1 f2 C s n u :
  redNode s n -> fits (f1 :: f2 :: C) BLACK n -> frameColor f1 = RED -> frameColor f2 = BLACK -> rootColor (sibling f2) = RED ->
  u = ptr (sibling f2) -> holds X hd t (plug (f1 :: f2 :: C) s) ->
  returns (recolorUp t (ptr s) u) (fun '(index, t') => insertState (plug (f1 :: f2 :: C) s) (S n) C index t').
Proof.
  intros Hs HC Hf1 Hf2 Hu -> H. destruct s as [|[] l i k v r]; [done..|]. cbn [ptr]. destruct Hs as (Hsl & Hsr & Hbsl & Hbsr).
  destruct (sibling f2) as [|[] lu iu ku vu ru] eqn:Eu; [done..|]. cbn [ptr]. unfold recolorUp. cbn [fits] in HC.
  rewrite Hf1, Hf2, Eu in HC. destruct HC as (Hb1 & _ & Hc1 & (Hlu & Hru & Hbl & Hbr) & HC).
  destruct f1 as [? p kp vp sp|? sp p kp vp], f2 as [? g kg vg u|? u g kg vg]; cbn [frameColor sibling] in *; subst;
    rewrite (parent_of X hd t (_ :: _ :: C) _ _ _ _ _ _ H), bind_Ok; cbn [above frameId].
  - write (SetColor_holds X hd t (InLeft BLACK g kg vg (Node RED lu iu ku vu ru) :: C) RED _ p kp vp sp BLACK) t H.
    write (SetColor_holds X hd t (InRight BLACK _ g kg vg :: C) RED lu iu ku vu ru BLACK) t H.
    rewrite (grandparent_of X hd t C _ _ _ _ _ _ (InLeft _ _ _ _ _) (InLeft _ _ _ _ _) H), bind_Ok. cbn [frameId].
    write (SetColor_holds X hd t C BLACK _ g kg vg _ RED) t H.
    rewrite (grandparent_of X hd t C _ _ _ _ _ _ (InLeft _ _ _ _ _) (InLeft _ _ _ _ _) H), bind_Ok. recolored.
  - write (SetColor_holds X hd t (InRight BLACK (Node RED lu iu ku vu ru) g kg vg :: C) RED _ p kp vp sp BLACK) t H.
    write (SetColor_holds X hd t (InLeft BLACK g kg vg _ :: C) RED lu iu ku vu ru BLACK) t H.
    rewrite (grandparent_of X hd t C _ _ _ _ _ _ (InLeft _ _ _ _ _) (InRight _ _ _ _ _) H), bind_Ok. cbn [frameId].
    write (SetColor_holds X hd t C BLACK _ g kg vg _ RED) t H.
    rewrite (grandparent_of X hd t C _ _ _ _ _ _ (InLeft _ _ _ _ _) (InRight _ _ _ _ _) H), bind_Ok. recolored.
  - write (SetColor_holds X hd t (InLeft BLACK g kg vg (Node RED lu iu ku vu ru) :: C) RED sp p kp vp _ BLACK) t H.
    write (SetColor_holds X hd t (InRight BLACK _ g kg vg :: C) RED lu iu ku vu ru BLACK) t H.
    rewrite (grandparent_of X hd t C _ _ _ _ _ _ (InRight _ _ _ _ _) (InLeft _ _ _ _ _) H), bind_Ok. cbn [frameId].
    write (SetColor_holds X hd t C BLACK _ g kg vg _ RED) t H.
    rewrite (grandparent_of X hd t C _ _ _ _ _ _ (InRight _ _ _ _ _) (InLeft _ _ _ _ _) H), bind_Ok. recolored.
  - write (SetColor_holds X hd t (InRight BLACK (Node RED lu iu ku vu ru) g kg vg :: C) RED sp p kp vp _ BLACK) t H.
    write (SetColor_holds X hd t (InLeft BLACK g kg vg _ :: C) RED lu iu ku vu ru BLACK) t H.
    rewrite (grandparent_of X hd t C _ _ _ _ _ _ (InRight _ _ _ _ _) (InRight _ _ _ _ _) H), bind_Ok. cbn [frameId].
    write (SetColor_holds X hd t C BLACK _ g kg vg _ RED) t H.
    rewrite (grandparent_of X hd t C _ _ _ _ _ _ (InRight _ _ _ _ _) (InRight _ _ _ _ _) H), bind_Ok. recolored.
Qed.
(** The node ends under a black one. *)
Ltac settled s C' n := exists C', n; split; [|cbn; lia]; exists s;
  split_and!; [reflexivity|cbn; split_and!; done|cbn [fits frameColor sibling balanced rootColor]; split_and!; done|eassumption|same_nodes].

Lemma insertRound_ok t f1 f2 C s n :
  redNode s n -> fits (f1 :: f2 :: C) BLACK n -> frameColor f1 = RED -> frameColor f2 = BLACK -> holds X hd t (plug (f1 :: f2 :: C) s) ->
  returns (insertRound t (ptr s)) (fun '(index, t') => exists C' n',
    insertState (plug (f1 :: f2 :: C) s) n' C' index t' /\ (length C' <= S (length C))%nat).
Proof.
  intros Hs HC Hf1 Hf2 H. destruct s as [|[] l i k v r] eqn:Es; [done..|]. cbn [ptr].
  unfold insertRound. rewrite (parent_of X hd t (f1 :: f2 :: C) _ _ _ _ _ _ H), bind_Ok. cbn [above].
  assert (rootColor (sibling f2) = RED -> returns (recolorUp t (Z.of_nat i) (ptr (sibling f2))) (fun '(index, t') => exists C' n',
    insertState (plug (f1 :: f2 :: C) s) n' C' index t' /\ (length C' <= S (length C))%nat)) as Hup.
  { intros Hu. eapply returns_mono; [apply (recolorUp_ok t f1 f2 C (Node RED l i k v r) n); subst; done|].
    intros [index t'] Hst. exists C, (S n). subst s. split; [done|lia]. }
  rewrite Es in Hup. clear Es s. destruct Hs as (Hsl & Hsr & Hbsl & Hbsr).
  pose proof HC as (Hb1 & HC1). rewrite Hf1 in HC1. destruct HC1 as (_ & Hc1 & Hb2 & HC2). rewrite Hf2 in HC2.
  destruct f1 as [? p kp vp sp|? sp p kp vp], f2 as [? g kg vg u|? u g kg vg]; cbn [frameColor sibling frameId] in *; subst.
  - rewrite (left_isLeft X hd t C _ _ _ p _ _ _ _ _ _ _ H), bind_Ok. rewrite (left_brother X hd t C _ _ _ p _ _ _ _ _ _ _ H), bind_Ok.
    rewrite (holds_color X hd t (InRight BLACK _ g kg vg :: C) u H), bind_Ok.
    destruct (decide (rootColor u = RED)) as [Hu|Hu]; [by apply Hup|]. assert (rootColor u = BLACK) by (by destruct (rootColor u)).
    rewrite (left_isRight X hd t _ _ _ _ i _ _ _ _ _ _ _ H), bind_Ok. clear Hup.
    rewrite bind_Ok, (parent_of X hd t (_ :: _ :: C) _ _ _ _ _ _ H), bind_Ok. cbn [above frameId].
    write (SetColor_holds X hd t (InLeft BLACK g kg vg u :: C) RED _ p kp vp sp BLACK) t H.
    rewrite (grandparent_of X hd t C _ _ _ i _ _ (InLeft _ _ _ _ _) (InLeft _ _ _ _ _) H), bind_Ok. cbn [frameId].
    write (SetColor_holds X hd t C BLACK _ g kg vg _ RED) t H.
    rewrite (grandparent_of X hd t C _ _ _ i _ _ (InLeft _ _ _ _ _) (InLeft _ _ _ _ _) H), bind_Ok. cbn [frameId].
    write (RightRotate_holds X hd t C BLACK RED p g kp vp kg vg (Node RED l i k v r) sp u) t H.
    settled (Node RED l i k v r) (InLeft BLACK p kp vp (Node RED sp g kg vg u) :: C) n.
  - rewrite (right_isLeft X hd t C _ _ _ p _ _ _ _ _ _ _ H), bind_Ok. rewrite (right_brother X hd t C _ _ _ p _ _ _ _ _ _ _ H), bind_Ok.
    rewrite (holds_color X hd t (InLeft BLACK g kg vg _ :: C) u H), bind_Ok.
    destruct (decide (rootColor u = RED)) as [Hu|Hu]; [by apply Hup|]. assert (rootColor u = BLACK) by (by destruct (rootColor u)).
    rewrite (left_isLeft X hd t _ _ _ _ i _ _ _ _ _ _ _ H), bind_Ok. clear Hup.
    rewrite bind_Ok.
    eapply returns_bind; [eapply returns_bind; [exact (RightRotate_holds X hd t (InRight BLACK u g kg vg :: C) RED RED i p k v kp vp l r sp H)|]|];
      [clear t H; intros t H; cbn beta in H; exact (conj eq_refl H : (fun '(index, t) => index = Z.of_nat p /\ holds X hd t _) (Z.of_nat p, t))|].
    intros [index t'] [-> H']. clear t H. rename t' into t, H' into H. cbn beta in H.
    rewrite (parent_of X hd t (InRight RED l i k v :: InRight BLACK u g kg vg :: C) RED r sp p kp vp H), bind_Ok. cbn [above frameId].
    write (SetColor_holds X hd t (InRight BLACK u g kg vg :: C) RED l i k v _ BLACK) t H.
    rewrite (grandparent_of X hd t C _ _ _ p _ _ (InRight _ _ _ _ _) (InRight _ _ _ _ _) H), bind_Ok. cbn [frameId].
    write (SetColor_holds X hd t C BLACK _ g kg vg _ RED) t H.
    rewrite (grandparent_of X hd t C _ _ _ p _ _ (InRight _ _ _ _ _) (InRight _ _ _ _ _) H), bind_Ok. cbn [frameId].
    write (LeftRotate_holds X hd t C RED BLACK g i kg vg k v u l (Node RED r p kp vp sp)) t H.
    settled (Node RED r p kp vp sp) (InRight BLACK (Node RED u g kg vg l) i k v :: C) n.
  - rewrite (left_isLeft X hd t C _ _ _ p _ _ _ _ _ _ _ H), bind_Ok. rewrite (left_brother X hd t C _ _ _ p _ _ _ _ _ _ _ H), bind_Ok.
    rewrite (holds_color X hd t (InRight BLACK _ g kg vg :: C) u H), bind_Ok.
    destruct (decide (rootColor u = RED)) as [Hu|Hu]; [by apply Hup|]. assert (rootColor u = BLACK) by (by destruct (rootColor u)).
    rewrite (right_isRight X hd t _ _ _ _ i _ _ _ _ _ _ _ H), bind_Ok. clear Hup.
    rewrite bind_Ok.
    eapply returns_bind; [eapply returns_bind; [exact (LeftRotate_holds X hd t (InLeft BLACK g kg vg u :: C) RED RED p i kp vp k v sp l r H)|]|];
      [clear t H; intros t H; cbn beta in H; exact (conj eq_refl H : (fun '(index, t) => index = Z.of_nat p /\ holds X hd t _) (Z.of_nat p, t))|].
    intros [index t'] [-> H']. clear t H. rename t' into t, H' into H. cbn beta in H.
    rewrite (parent_of X hd t (InLeft RED i k v r :: InLeft BLACK g kg vg u :: C) RED sp l p kp vp H), bind_Ok. cbn [above frameId].
    write (SetColor_holds X hd t (InLeft BLACK g kg vg u :: C) RED _ i k v r BLACK) t H.
    rewrite (grandparent_of X hd t C _ _ _ p _ _ (InLeft _ _ _ _ _) (InLeft _ _ _ _ _) H), bind_Ok. cbn [frameId].
    write (SetColor_holds X hd t C BLACK _ g kg vg _ RED) t H.
    rewrite (grandparent_of X hd t C _ _ _ p _ _ (InLeft _ _ _ _ _) (InLeft _ _ _ _ _) H), bind_Ok. cbn [frameId].
    write (RightRotate_holds X hd t C BLACK RED i g k v kg vg (Node RED sp p kp vp l) r u) t H.
    settled (Node RED sp p kp vp l) (InLeft BLACK i k v (Node RED r g kg vg u) :: C) n.
  - rewrite (right_isLeft X hd t C _ _ _ p _ _ _ _ _ _ _ H), bind_Ok. rewrite (right_brother X hd t C _ _ _ p _ _ _ _ _ _ _ H), bind_Ok.
    rewrite (holds_color X hd t (InLeft BLACK g kg vg _ :: C) u H), bind_Ok.
    destruct (decide (rootColor u = RED)) as [Hu|Hu]; [by apply Hup|]. assert (rootColor u = BLACK) by (by destruct (rootColor u)).
    rewrite (right_isLeft X hd t _ _ _ _ i _ _ _ _ _ _ _ H), bind_Ok. clear Hup.
    rewrite bind_Ok, (parent_of X hd t (_ :: _ :: C) _ _ _ _ _ _ H), bind_Ok. cbn [above frameId].
    write (SetColor_holds X hd t (InRight BLACK u g kg vg :: C) RED sp p kp vp _ BLACK) t H.
    rewrite (grandparent_of X hd t C _ _ _ i _ _ (InRight _ _ _ _ _) (InRight _ _ _ _ _) H), bind_Ok. cbn [frameId].
    write (SetColor_holds X hd t C BLACK _ g kg vg _ RED) t H.
    rewrite (grandparent_of X hd t C _ _ _ i _ _ (InRight _ _ _ _ _) (InRight _ _ _ _ _) H), bind_Ok. cbn [frameId].
    write (LeftRotate_holds X hd t C RED BLACK g p kg vg kp vp u sp (Node RED l i k v r)) t H.
    settled (Node RED l i k v r) (InRight BLACK (Node RED u g kg vg sp) p kp vp :: C) n.
Qed.
Definition keysPresent (T : tree) : Prop := Forall (fun e => e.1 <> Hole) (elements T).

Lemma keysPresent_at C c l i k v r T : keysPresent T -> sameNodes T (plug C (Node c l i k v r)) -> k <> Hole.
Proof.
  unfold keysPresent. intros Hk [He _]. rewrite <- He, elements_plug in Hk. cbn [elements] in Hk. rewrite !Forall_app, Forall_cons in Hk.
  by destruct Hk as (_ & (_ & ? & _) & _).
Qed.

Lemma blacken_redBlack T : redBlack T -> redBlack (blacken T).
Proof. destruct T as [|[] l i k v r]; [done|done|]. by intros [? _]. Qed.

Lemma insertLoop_ok fuel T C s n t : redNode s n -> fits C BLACK n -> holds X hd t (plug C s) -> sameNodes T (plug C s) -> keysPresent T ->
  (length C <= fuel)%nat ->
  returns (insertLoop fuel t (ptr s)) (fun t' => exists T', holds X hd t' T' /\ sameNodes T T' /\ redBlack (blacken T')).
Proof.
  revert C s n t. induction fuel as [|fuel IH]; intros C s n t Hs HC H HT Hkeys Hf;
    (destruct s as [|[] l i k v r]; [done|done|]); cbn [ptr]; pose proof (keysPresent_at _ _ _ _ _ _ _ _ Hkeys HT) as Hk;
    unfold insertLoop; fold insertLoop; unfold IsValidIndex.
  all: destruct C as [|f C];
    [rewrite (holds_root _ _ _ _ H); cbn [plug ptr]; rewrite Z.eqb_refl, !bind_Ok; cbn [decide]; exists (Node RED l i k v r);
     split_and!; [done|done|]; split; [done|]; exists (S n); destruct Hs as (_ & _ & ? & ?); by split|].
  1: cbn in Hf; lia.
  destruct (Z.eqb_spec (Z.of_nat i) (GetRootEntries t)) as [E|E];
    [exfalso; by pose proof (root_ptr X hd t (f :: C) (Node RED l i k v r) H ltac:(done) ltac:(done))|].
  rewrite (read_key _ _ _ _ _ _ _ _ (node_at X hd t (f :: C) _ _ _ _ _ _ H)), bind_Ok, bind_Ok.
  assert (negb (IsHole k) = true) as -> by (by destruct k).
  rewrite (parent_of X hd t (f :: C) _ _ _ _ _ _ H), bind_Ok. cbn [above].
  assert (GetColor t (Z.of_nat (frameId f)) = Ok (frameColor f)) as ->.
  { destruct f; eapply read_color, (node_at X hd t C), H. }
  rewrite bind_Ok. destruct (decide (frameColor f = RED)) as [Hred|Hred].
  - destruct (fits_red f C BLACK n Hred HC) as (g & C' & -> & Hg).
    eapply returns_bind; [apply (insertRound_ok t f g C' (Node RED l i k v r) n); done|].
    intros [index t'] (C'' & n' & (s' & -> & Hs' & HC'' & H' & HT') & Hlen). eapply (IH C'' s' n'); try done.
    + by eapply sameNodes_trans.
    + cbn in Hf, Hlen. lia.
  - assert (frameColor f = BLACK) as Hblack by (by destruct (frameColor f)). exists (plug (f :: C) (Node RED l i k v r)). split_and!; [done|done|].
    apply blacken_redBlack. eapply fits_plug; [apply (fits_black f C RED n Hblack HC)|]. destruct Hs as (? & ? & ? & ?). by cbn.
Qed.

Lemma InsertRebalance_ok t C s n : redNode s n -> fits C BLACK n -> holds X hd t (plug C s) -> keysPresent (plug C s) ->
  (length C <= length (entriesOf t))%nat ->
  returns (InsertRebalance t (ptr s)) (fun t' => exists T', holds X hd t' T' /\ sameNodes (plug C s) T' /\ redBlack T').
Proof.
  intros Hs HC H Hk Hlen. unfold InsertRebalance.
  eapply returns_bind; [eapply (insertLoop_ok _ (plug C s) C s n); try done; unfold entryFuel; lia|].
  intros t' (T' & H' & HT & Hrb). rewrite (holds_root _ _ _ _ H'). destruct T' as [|c l i k' v r].
  - exists Leaf. split_and!; done.
  - cbn [ptr]. eapply returns_mono; [exact (SetColor_holds X hd t' [] c l i k' v r BLACK H')|]. intros t2 H2. exists (Node BLACK l i k' v r). split_and!; done.
Qed.
End InsertRound.
