(* ===== verification/TreeDelete.v ===== *)
(** * Rebalancing after a deletion

    [DeleteRebalance] runs while the node that goes is still in the tree, or when its only child has
    taken its place.  A tree that is [short] of the node [j] is balanced when that node counts as a
    leaf; the loop moves the shortage up until it can be made good. *)

From Stdlib Require Import ZArith Lia.
From stdpp Require Import sets.
From S2P Require Import Prelude Double Values TaggedTree TreeRep TreeBalance.

Section Delete.
  Variables (X : list nat) (hd : Header) (j : nat).

(** ** The shortage *)

Fixpoint short (T : tree) (n : nat) : Prop :=
  match T with
  | Leaf => n = 0%nat
  | Node c l i _ _ r =>
    if decide (i = j) then c = BLACK /\ l = Leaf /\ r = Leaf /\ n = 0%nat else
    match c with
    | RED => rootColor l = BLACK /\ rootColor r = BLACK /\ short l n /\ short r n
    | BLACK => match n with O => False | S n => short l n /\ short r n end
    end
  end.

Definition shortRedBlack (T : tree) : Prop := rootColor T = BLACK /\ exists n, short T n.

Lemma short_balanced T n : j ∉ ids T -> short T n <-> balanced T n.
Proof.
  revert n. induction T as [|c l IHl i k v r IHr]; intros n Hj; cbn [short balanced ids] in *; [done|].
  rewrite decide_False by set_solver. destruct c; [destruct n as [|n]; [done|]|]; rewrite IHl, IHr by set_solver; done.
Qed.

Lemma fits_short C s n : j ∉ pathIds C -> fits C (rootColor s) n -> short s n -> shortRedBlack (plug C s).
Proof.
  revert s n. induction C as [|f C IH]; intros s n Hj HC Hs; cbn [fits plug] in *; [by split; [|exists n]|].
  unfold pathIds in Hj. cbn [flat_map] in Hj. fold (pathIds C) in Hj. apply not_elem_of_app in Hj as [Hj HjC].
  destruct HC as [Hf HC]. destruct f as [[] i k v r|[] l i k v]; cbn [frameColor sibling plugFrame frameIds] in *;
    apply not_elem_of_cons in Hj as [Hij Hj]; apply (short_balanced _ _ Hj) in Hf.
  1,3: apply (IH _ (S n)); [done|done|cbn [short]; rewrite decide_False by done; by split].
  all: destruct HC as (Hc & Hr & HC); apply (IH _ n); [done|done|cbn [short]; rewrite decide_False by done; by split_and!].
Qed.

(** ** The loop *)

(** The node at the place [C] is the root of a subtree that is one black node short; a red one may
    have red children, because it is made black. *)
Definition shortage (s : tree) (n : nat) : Prop :=
  match s with
  | Leaf => False
  | Node BLACK _ _ _ _ _ => short s n
  | Node RED l i _ _ r => i <> j /\ short l n /\ short r n
  end.

Definition deleteState (T : tree) (C : path) (index : Z) (t : TaggedTree) : Prop :=
  exists s n, index = ptr s /\ shortage s n /\ fits C BLACK (S n) /\ j ∉ pathIds C /\ holds X hd t (plug C s) /\ sameNodes T (plug C s).

(** A node whose brother has the color [c]. *)
Ltac run_read fact := rewrite fact, bind_Ok; cbn [above frameId].

(** A red brother: afterwards the brother is black. *)
Lemma redBrotherLeft t C cp p kp vp b l i k v r n :
  holds X hd t (plug (InLeft cp p kp vp b :: C) (Node BLACK l i k v r)) -> fits (InLeft cp p kp vp b :: C) BLACK (S n) ->
  j ∉ pathIds (InLeft cp p kp vp b :: C) ->
  returns (if decide (rootColor b = RED) then
      t ← SetColor t (ptr b) BLACK;
      p ← GetParent t (Z.of_nat i); t ← SetColor t p RED;
      p ← GetParent t (Z.of_nat i); t ← LeftRotate t p;
      bro ← GetLeftBrother t (Z.of_nat i); Ok (bro, t)
    else Ok (ptr b, t))
  (fun '(bro, t') => exists cp' b' C', bro = ptr b' /\ rootColor b' = BLACK /\ holds X hd t' (plug (InLeft cp' p kp vp b' :: C') (Node BLACK l i k v r)) /\
    fits (InLeft cp' p kp vp b' :: C') BLACK (S n) /\ j ∉ pathIds (InLeft cp' p kp vp b' :: C') /\ (C' = C \/ cp' = RED) /\
    sameNodes (plug (InLeft cp p kp vp b :: C) (Node BLACK l i k v r)) (plug (InLeft cp' p kp vp b' :: C') (Node BLACK l i k v r))).
Proof.
  intros H HC Hj. destruct (decide (rootColor b = RED)) as [Hb|Hb].
  - destruct b as [|[] bl bi kb vb br]; [done|done|]. cbn [ptr]. destruct HC as [Hbal HC]. cbn [sibling frameColor] in *.
    destruct cp; [|by destruct HC as (_ & ? & _)]. destruct Hbal as (Hcl & Hcr & Hbl & Hbr).
    write (SetColor_holds X hd t (InRight BLACK (Node BLACK l i k v r) p kp vp :: C) RED bl bi kb vb br BLACK) t H.
    run_read (parent_of X hd t (InLeft BLACK p kp vp _ :: C) BLACK l r i k v H).
    write (SetColor_holds X hd t (C) BLACK (Node BLACK l i k v r) p kp vp _ RED) t H.
    run_read (parent_of X hd t (InLeft RED p kp vp _ :: C) BLACK l r i k v H).
    write (LeftRotate_holds X hd t (C) RED BLACK p bi kp vp kb vb (Node BLACK l i k v r) bl br) t H.
    run_read (left_brother X hd t (InLeft BLACK bi kb vb _ :: C) BLACK l r i k v RED p kp vp _ H).
    exists RED, bl, (InLeft BLACK bi kb vb br :: C). split_and!; [done|done|done| | |by right|same_nodes].
    + cbn [fits sibling frameColor]. split_and!; done.
    + clear -Hj. unfold pathIds in *. cbn [flat_map frameIds ids] in *. set_solver.
  - exists cp, b, C. split_and!; [done|by destruct (rootColor b)|done|done|done|by left|done].
Qed.

(** The near child of the brother is red and the far one is black: afterwards the far one is red. *)
Lemma nearRedLeft t C cp p kp vp bl bi kb vb br l i k v r n :
  holds X hd t (plug (InLeft cp p kp vp (Node BLACK bl bi kb vb br) :: C) (Node BLACK l i k v r)) ->
  balanced bl n -> balanced br n -> j ∉ ids bl -> j ∉ ids br -> bi <> j -> ~ (rootColor bl = BLACK /\ rootColor br = BLACK) ->
  returns (if decide (rootColor br = BLACK) then
        left ← GetLeftChildIndex t (Z.of_nat bi); t ← SetColor t left BLACK;
        t ← SetColor t (Z.of_nat bi) RED;
        t ← RightRotate t (Z.of_nat bi);
        bro ← GetLeftBrother t (Z.of_nat i); Ok (bro, t)
      else Ok (Z.of_nat bi, t))
  (fun '(bro, t') => exists xl xi kx vx yl yi ky vy yr, bro = Z.of_nat xi /\
    holds X hd t' (plug (InLeft cp p kp vp (Node BLACK xl xi kx vx (Node RED yl yi ky vy yr)) :: C) (Node BLACK l i k v r)) /\
    balanced xl n /\ balanced (Node RED yl yi ky vy yr) n /\ j ∉ ids xl /\ j ∉ ids (Node RED yl yi ky vy yr) /\ xi <> j /\
    sameNodes (plug (InLeft cp p kp vp (Node BLACK bl bi kb vb br) :: C) (Node BLACK l i k v r))
      (plug (InLeft cp p kp vp (Node BLACK xl xi kx vx (Node RED yl yi ky vy yr)) :: C) (Node BLACK l i k v r))).
Proof.
  intros H Hbl Hbr Hjl Hjr Hij Hnot. destruct (decide (rootColor br = BLACK)) as [Hb|Hb].
  - destruct bl as [|[] bll bli kbl vbl blr]; [by exfalso; apply Hnot|by exfalso; apply Hnot|].
    run_read (leftIndex_of X hd t (InRight cp (Node BLACK l i k v r) p kp vp :: C) _ _ _ bi _ _ H). cbn [ptr].
    write (SetColor_holds X hd t (InLeft BLACK bi kb vb br :: InRight cp (Node BLACK l i k v r) p kp vp :: C) RED bll bli kbl vbl blr BLACK) t H.
    write (SetColor_holds X hd t (InRight cp (Node BLACK l i k v r) p kp vp :: C) BLACK _ bi kb vb br RED) t H.
    write (RightRotate_holds X hd t (InRight cp (Node BLACK l i k v r) p kp vp :: C) BLACK RED bli bi kbl vbl kb vb bll blr br) t H.
    run_read (left_brother X hd t C BLACK l r i k v cp p kp vp _ H). cbn [ptr].
    destruct Hbl as (? & ? & ? & ?). cbn [ids] in Hjl.
    exists bll, bli, kbl, vbl, blr, bi, kb, vb, br.
    split_and!; [done|done|done|cbn; by split_and!|set_solver|cbn [ids]; set_solver|set_solver|same_nodes].
  - destruct br as [|[] yl yi ky vy yr]; [done|done|]. exists bl, bi, kb, vb, yl, yi, ky, vy, yr. split_and!; done.
Qed.

(** The far child of the brother is red: afterwards nothing is short. *)
Lemma farRedLeft t C cp p kp vp xl xi kx vx yl yi ky vy yr l i k v r n :
  holds X hd t (plug (InLeft cp p kp vp (Node BLACK xl xi kx vx (Node RED yl yi ky vy yr)) :: C) (Node BLACK l i k v r)) ->
  short (Node BLACK l i k v r) n -> p <> j -> fits C (match cp with RED => RED | BLACK => BLACK end) (match cp with RED => S n | BLACK => S (S n) end) -> j ∉ pathIds C ->
  balanced xl n -> balanced (Node RED yl yi ky vy yr) n -> j ∉ ids xl -> j ∉ ids (Node RED yl yi ky vy yr) -> xi <> j ->
  returns (p ← GetParent t (Z.of_nat i); c ← GetColor t p; t ← SetColor t (Z.of_nat xi) c;
    p ← GetParent t (Z.of_nat i); t ← SetColor t p BLACK;
    right ← GetRightChildIndex t (Z.of_nat xi); t ← SetColor t right BLACK;
    p ← GetParent t (Z.of_nat i); t ← LeftRotate t p;
    Ok (GetRootEntries t, t))
  (fun '(index, t') => exists T', index = ptr T' /\ holds X hd t' T' /\ shortRedBlack T' /\
    sameNodes (plug (InLeft cp p kp vp (Node BLACK xl xi kx vx (Node RED yl yi ky vy yr)) :: C) (Node BLACK l i k v r)) T').
Proof.
  intros H Hs Hp HC HjC Hx Hy Hjx Hjy Hxi.
  run_read (parent_of X hd t (InLeft cp p kp vp _ :: C) BLACK l r i k v H).
  run_read (read_color _ _ _ _ _ _ _ _ (node_at X hd t C cp _ p kp vp _ H)).
  write (SetColor_holds X hd t (InRight cp (Node BLACK l i k v r) p kp vp :: C) BLACK _ xi kx vx _ cp) t H.
  run_read (parent_of X hd t (InLeft cp p kp vp _ :: C) BLACK l r i k v H).
  write (SetColor_holds X hd t (C) cp (Node BLACK l i k v r) p kp vp _ BLACK) t H.
  run_read (rightIndex_of X hd t (InRight BLACK (Node BLACK l i k v r) p kp vp :: C) cp _ _ xi kx vx H). cbn [ptr].
  write (SetColor_holds X hd t (InRight cp xl xi kx vx :: InRight BLACK (Node BLACK l i k v r) p kp vp :: C) RED yl yi ky vy yr BLACK) t H.
  run_read (parent_of X hd t (InLeft BLACK p kp vp _ :: C) BLACK l r i k v H).
  write (LeftRotate_holds X hd t (C) BLACK cp p xi kp vp kx vx (Node BLACK l i k v r) xl (Node BLACK yl yi ky vy yr)) t H.
  eexists. split_and!; [eapply holds_root; exact H|exact H| |same_nodes].
  destruct Hy as (? & ? & Hyl & Hyr). cbn [ids] in Hjy. assert (yi <> j) by set_solver.
  apply (short_balanced yl _ ltac:(set_solver)) in Hyl. apply (short_balanced yr _ ltac:(set_solver)) in Hyr. apply (short_balanced xl _ Hjx) in Hx.
  eapply (fits_short C _ (match cp with RED => S n | BLACK => S (S n) end)); [done|by destruct cp|].
  destruct cp; cbn [short rootColor] in *; rewrite !(decide_False (P := xi = j)), !(decide_False (P := p = j)), !(decide_False (P := yi = j)) by done; by split_and!.
Qed.

Lemma deleteRoundLeft_ok t C cp p kp vp b l i k v r n :
  holds X hd t (plug (InLeft cp p kp vp b :: C) (Node BLACK l i k v r)) -> fits (InLeft cp p kp vp b :: C) BLACK (S n) -> short (Node BLACK l i k v r) n ->
  j ∉ pathIds (InLeft cp p kp vp b :: C) ->
  returns (deleteRoundLeft t (Z.of_nat i)) (fun '(index, t') => exists C' s n', index = ptr s /\ shortage s n' /\ fits C' BLACK (S n') /\
    j ∉ pathIds C' /\ holds X hd t' (plug C' s) /\ sameNodes (plug (InLeft cp p kp vp b :: C) (Node BLACK l i k v r)) (plug C' s) /\
    (rootColor s = RED \/ (length C' <= length C)%nat)).
Proof.
  intros H HC Hs Hj. unfold deleteRoundLeft.
  run_read (left_brother X hd t C BLACK l r i k v cp p kp vp b H).
  run_read (holds_color X hd t (InRight cp (Node BLACK l i k v r) p kp vp :: C) b H).
  eapply returns_bind; [exact (redBrotherLeft t C cp p kp vp b l i k v r n H HC Hj)|]. clear H HC Hj t.
  intros [bro t] (cp' & b' & C' & -> & Hb & H & HC & Hj & HC' & Hsame).
  assert (exists bl bi kb vb br, b' = Node BLACK bl bi kb vb br /\ balanced bl n /\ balanced br n) as (cl & bi & kb & vb & cr & -> & Hbl & Hbr).
  { destruct HC as [Hbal _]. cbn [sibling] in Hbal. destruct b' as [|[] l0 i0 k0 v0 r0]; [done| |done]. exists l0, i0, k0, v0, r0. destruct Hbal as [? ?]. by split_and!. }
  rename cl into bl, cr into br.
  unfold pathIds in Hj. cbn [flat_map frameIds ids] in Hj. fold (pathIds C') in Hj.
  assert (p <> j /\ bi <> j /\ j ∉ ids bl /\ j ∉ ids br /\ j ∉ pathIds C') as (Hjp & Hjb & Hjl & Hjr & HjC) by (clear -Hj; set_solver).
  cbn [ptr]. run_read (leftIndex_of X hd t (InRight cp' (Node BLACK l i k v r) p kp vp :: C') BLACK _ _ bi kb vb H).
  run_read (holds_color X hd t (InLeft BLACK bi kb vb br :: InRight cp' (Node BLACK l i k v r) p kp vp :: C') bl H).
  run_read (rightIndex_of X hd t (InRight cp' (Node BLACK l i k v r) p kp vp :: C') BLACK _ _ bi kb vb H).
  run_read (holds_color X hd t (InRight BLACK bl bi kb vb :: InRight cp' (Node BLACK l i k v r) p kp vp :: C') br H).
  destruct HC as [_ HC]. cbn [frameColor sibling rootColor] in HC.
  destruct (decide _) as [[Hcl Hcr]|Hnot].
  - write (SetColor_holds X hd t (InRight cp' (Node BLACK l i k v r) p kp vp :: C') BLACK bl bi kb vb br RED) t H.
    run_read (parent_of X hd t (InLeft cp' p kp vp _ :: C') BLACK l r i k v H).
    apply (short_balanced bl _ Hjl) in Hbl. apply (short_balanced br _ Hjr) in Hbr.
    exists C', (Node cp' (Node BLACK l i k v r) p kp vp (Node RED bl bi kb vb br)), (match cp' with RED => n | BLACK => S n end).
    assert (sameNodes (plug (InLeft cp p kp vp b :: C) (Node BLACK l i k v r)) (plug C' (Node cp' (Node BLACK l i k v r) p kp vp (Node RED bl bi kb vb br)))) as Hsame'
      by (eapply sameNodes_trans; [exact Hsame|same_nodes]).
    split_and!; [done| | |done|done|done|].
    + destruct cp'; cbn [shortage]; [cbn [short]; rewrite (decide_False (P := p = j)) by done|];
        split_and?; try done; cbn [short]; rewrite (decide_False (P := bi = j)) by done; by split_and!.
    + destruct cp'; [done|]. destruct HC as (_ & _ & HC). by eapply fits_any.
    + destruct cp'; [|by left]. right. by destruct HC' as [->|].
  - pose proof (nearRedLeft t C' cp' p kp vp bl bi kb vb br l i k v r n H Hbl Hbr Hjl Hjr Hjb ltac:(tauto)) as Hnear.
    rewrite (leftIndex_of X hd t (InRight cp' (Node BLACK l i k v r) p kp vp :: C') BLACK _ _ bi kb vb H) in Hnear.
    eapply returns_bind; [exact Hnear|]. clear H t Hnear.
    intros [bro t] (xl & xi & kx & vx & yl & yi & ky & vy & yr & -> & H & Hx & Hy & Hjx & Hjy & Hjxi & Hsame2).
    eapply returns_mono; [apply (farRedLeft t C' cp' p kp vp xl xi kx vx yl yi ky vy yr l i k v r n H Hs); try done; destruct cp'; [done|by destruct HC as (_ & _ & HC)]|].
    intros [index t'] (T' & -> & H' & (Hc & n' & Hn) & Hsame3). exists [], T', n'. split_and!; [done| |done|apply not_elem_of_nil|done| |right; cbn; lia].
    + destruct T' as [|[] ? ? ? ? ?]; [|done|done]. exfalso. clear -Hsame Hsame2 Hsame3. 
      destruct Hsame as [_ H1], Hsame2 as [_ H2], Hsame3 as [_ H3]. rewrite H2, H1 in H3. cbn [ids plug] in H3. rewrite ids_plug in H3. 
      cbn [plugFrame ids] in H3. apply (f_equal length) in H3. rewrite !length_app in H3. cbn [length] in H3. rewrite ?length_app in H3. cbn in H3. lia.
    + eapply sameNodes_trans; [exact Hsame|]. eapply sameNodes_trans; [exact Hsame2|exact Hsame3].
Qed.

(** A red brother: afterwards the brother is black. *)
Lemma redBrotherRight t C cp p kp vp b l i k v r n :
  holds X hd t (plug (InRight cp b p kp vp :: C) (Node BLACK l i k v r)) -> fits (InRight cp b p kp vp :: C) BLACK (S n) ->
  j ∉ pathIds (InRight cp b p kp vp :: C) ->
  returns (if decide (rootColor b = RED) then
      t ← SetColor t (ptr b) BLACK;
      p ← GetParent t (Z.of_nat i); t ← SetColor t p RED;
      p ← GetParent t (Z.of_nat i); t ← RightRotate t p;
      bro ← GetRightBrother t (Z.of_nat i); Ok (bro, t)
    else Ok (ptr b, t))
  (fun '(bro, t') => exists cp' b' C', bro = ptr b' /\ rootColor b' = BLACK /\ holds X hd t' (plug (InRight cp' b' p kp vp :: C') (Node BLACK l i k v r)) /\
    fits (InRight cp' b' p kp vp :: C') BLACK (S n) /\ j ∉ pathIds (InRight cp' b' p kp vp :: C') /\ (C' = C \/ cp' = RED) /\
    sameNodes (plug (InRight cp b p kp vp :: C) (Node BLACK l i k v r)) (plug (InRight cp' b' p kp vp :: C') (Node BLACK l i k v r))).
Proof.
  intros H HC Hj. destruct (decide (rootColor b = RED)) as [Hb|Hb].
  - destruct b as [|[] bl bi kb vb br]; [done|done|]. cbn [ptr]. destruct HC as [Hbal HC]. cbn [sibling frameColor] in *.
    destruct cp; [|by destruct HC as (_ & ? & _)]. destruct Hbal as (Hcl & Hcr & Hbl & Hbr).
    write (SetColor_holds X hd t (InLeft BLACK p kp vp (Node BLACK l i k v r) :: C) RED bl bi kb vb br BLACK) t H.
    run_read (parent_of X hd t (InRight BLACK _ p kp vp :: C) BLACK l r i k v H).
    write (SetColor_holds X hd t (C) BLACK _ p kp vp (Node BLACK l i k v r) RED) t H.
    run_read (parent_of X hd t (InRight RED _ p kp vp :: C) BLACK l r i k v H).
    write (RightRotate_holds X hd t (C) BLACK RED bi p kb vb kp vp bl br (Node BLACK l i k v r)) t H.
    run_read (right_brother X hd t (InRight BLACK _ bi kb vb :: C) BLACK l r i k v RED _ p kp vp H).
    exists RED, br, (InRight BLACK bl bi kb vb :: C). split_and!; [done|done|done| | |by right|same_nodes].
    + cbn [fits sibling frameColor]. split_and!; done.
    + clear -Hj. unfold pathIds in *. cbn [flat_map frameIds ids] in *. set_solver.
  - exists cp, b, C. split_and!; [done|by destruct (rootColor b)|done|done|done|by left|done].
Qed.

(** The near child of the brother is red and the far one is black: afterwards the far one is red. *)
Lemma nearRedRight t C cp p kp vp bl bi kb vb br l i k v r n :
  holds X hd t (plug (InRight cp (Node BLACK br bi kb vb bl) p kp vp :: C) (Node BLACK l i k v r)) ->
  balanced bl n -> balanced br n -> j ∉ ids bl -> j ∉ ids br -> bi <> j -> ~ (rootColor bl = BLACK /\ rootColor br = BLACK) ->
  returns (if decide (rootColor br = BLACK) then
        left ← GetRightChildIndex t (Z.of_nat bi); t ← SetColor t left BLACK;
        t ← SetColor t (Z.of_nat bi) RED;
        t ← LeftRotate t (Z.of_nat bi);
        bro ← GetRightBrother t (Z.of_nat i); Ok (bro, t)
      else Ok (Z.of_nat bi, t))
  (fun '(bro, t') => exists xl xi kx vx yl yi ky vy yr, bro = Z.of_nat xi /\
    holds X hd t' (plug (InRight cp (Node BLACK (Node RED yl yi ky vy yr) xi kx vx xl) p kp vp :: C) (Node BLACK l i k v r)) /\
    balanced xl n /\ balanced (Node RED yl yi ky vy yr) n /\ j ∉ ids xl /\ j ∉ ids (Node RED yl yi ky vy yr) /\ xi <> j /\
    sameNodes (plug (InRight cp (Node BLACK br bi kb vb bl) p kp vp :: C) (Node BLACK l i k v r))
      (plug (InRight cp (Node BLACK (Node RED yl yi ky vy yr) xi kx vx xl) p kp vp :: C) (Node BLACK l i k v r))).
Proof.
  intros H Hbl Hbr Hjl Hjr Hij Hnot. destruct (decide (rootColor br = BLACK)) as [Hb|Hb].
  - destruct bl as [|[] bll bli kbl vbl blr]; [by exfalso; apply Hnot|by exfalso; apply Hnot|].
    run_read (rightIndex_of X hd t (InLeft cp p kp vp (Node BLACK l i k v r) :: C) _ _ _ bi _ _ H). cbn [ptr].
    write (SetColor_holds X hd t (InRight BLACK br bi kb vb :: InLeft cp p kp vp (Node BLACK l i k v r) :: C) RED bll bli kbl vbl blr BLACK) t H.
    write (SetColor_holds X hd t (InLeft cp p kp vp (Node BLACK l i k v r) :: C) BLACK br bi kb vb _ RED) t H.
    write (LeftRotate_holds X hd t (InLeft cp p kp vp (Node BLACK l i k v r) :: C) RED BLACK bi bli kb vb kbl vbl br bll blr) t H.
    run_read (right_brother X hd t C BLACK l r i k v cp _ p kp vp H). cbn [ptr].
    destruct Hbl as (? & ? & ? & ?). cbn [ids] in Hjl.
    exists blr, bli, kbl, vbl, br, bi, kb, vb, bll.
    split_and!; [done|done|done|cbn; by split_and!|set_solver|cbn [ids]; set_solver|set_solver|same_nodes].
  - destruct br as [|[] yl yi ky vy yr]; [done|done|]. exists bl, bi, kb, vb, yl, yi, ky, vy, yr. split_and!; done.
Qed.

(** The far child of the brother is red: afterwards nothing is short. *)
Lemma farRedRight t C cp p kp vp xl xi kx vx yl yi ky vy yr l i k v r n :
  holds X hd t (plug (InRight cp (Node BLACK (Node RED yl yi ky vy yr) xi kx vx xl) p kp vp :: C) (Node BLACK l i k v r)) ->
  short (Node BLACK l i k v r) n -> p <> j -> fits C (match cp with RED => RED | BLACK => BLACK end) (match cp with RED => S n | BLACK => S (S n) end) -> j ∉ pathIds C ->
  balanced xl n -> balanced (Node RED yl yi ky vy yr) n -> j ∉ ids xl -> j ∉ ids (Node RED yl yi ky vy yr) -> xi <> j ->
  returns (p ← GetParent t (Z.of_nat i); c ← GetColor t p; t ← SetColor t (Z.of_nat xi) c;
    p ← GetParent t (Z.of_nat i); t ← SetColor t p BLACK;
    right ← GetLeftChildIndex t (Z.of_nat xi); t ← SetColor t right BLACK;
    p ← GetParent t (Z.of_nat i); t ← RightRotate t p;
    Ok (GetRootEntries t, t))
  (fun '(index, t') => exists T', index = ptr T' /\ holds X hd t' T' /\ shortRedBlack T' /\
    sameNodes (plug (InRight cp (Node BLACK (Node RED yl yi ky vy yr) xi kx vx xl) p kp vp :: C) (Node BLACK l i k v r)) T').
Proof.
  intros H Hs Hp HC HjC Hx Hy Hjx Hjy Hxi.
  run_read (parent_of X hd t (InRight cp _ p kp vp :: C) BLACK l r i k v H).
  run_read (read_color _ _ _ _ _ _ _ _ (node_at X hd t C cp _ p kp vp _ H)).
  write (SetColor_holds X hd t (InLeft cp p kp vp (Node BLACK l i k v r) :: C) BLACK _ xi kx vx _ cp) t H.
  run_read (parent_of X hd t (InRight cp _ p kp vp :: C) BLACK l r i k v H).
  write (SetColor_holds X hd t (C) cp _ p kp vp (Node BLACK l i k v r) BLACK) t H.
  run_read (leftIndex_of X hd t (InLeft BLACK p kp vp (Node BLACK l i k v r) :: C) cp _ _ xi kx vx H). cbn [ptr].
  write (SetColor_holds X hd t (InLeft cp xi kx vx xl :: InLeft BLACK p kp vp (Node BLACK l i k v r) :: C) RED yl yi ky vy yr BLACK) t H.
  run_read (parent_of X hd t (InRight BLACK _ p kp vp :: C) BLACK l r i k v H).
  write (RightRotate_holds X hd t (C) cp BLACK xi p kx vx kp vp (Node BLACK yl yi ky vy yr) xl (Node BLACK l i k v r)) t H.
  eexists. split_and!; [eapply holds_root; exact H|exact H| |same_nodes].
  destruct Hy as (? & ? & Hyl & Hyr). cbn [ids] in Hjy. assert (yi <> j) by set_solver.
  apply (short_balanced yl _ ltac:(set_solver)) in Hyl. apply (short_balanced yr _ ltac:(set_solver)) in Hyr. apply (short_balanced xl _ Hjx) in Hx.
  eapply (fits_short C _ (match cp with RED => S n | BLACK => S (S n) end)); [done|by destruct cp|].
  destruct cp; cbn [short rootColor] in *; rewrite !(decide_False (P := xi = j)), !(decide_False (P := p = j)), !(decide_False (P := yi = j)) by done; by split_and!.
Qed.

Lemma deleteRoundRight_ok t C cp p kp vp b l i k v r n :
  holds X hd t (plug (InRight cp b p kp vp :: C) (Node BLACK l i k v r)) -> fits (InRight cp b p kp vp :: C) BLACK (S n) -> short (Node BLACK l i k v r) n ->
  j ∉ pathIds (InRight cp b p kp vp :: C) ->
  returns (deleteRoundRight t (Z.of_nat i)) (fun '(index, t') => exists C' s n', index = ptr s /\ shortage s n' /\ fits C' BLACK (S n') /\
    j ∉ pathIds C' /\ holds X hd t' (plug C' s) /\ sameNodes (plug (InRight cp b p kp vp :: C) (Node BLACK l i k v r)) (plug C' s) /\
    (rootColor s = RED \/ (length C' <= length C)%nat)).
Proof.
  intros H HC Hs Hj. unfold deleteRoundRight.
  run_read (right_brother X hd t C BLACK l r i k v cp b p kp vp H).
  run_read (holds_color X hd t (InLeft cp p kp vp (Node BLACK l i k v r) :: C) b H).
  eapply returns_bind; [exact (redBrotherRight t C cp p kp vp b l i k v r n H HC Hj)|]. clear H HC Hj t.
  intros [bro t] (cp' & b' & C' & -> & Hb & H & HC & Hj & HC' & Hsame).
  assert (exists br bi kb vb bl, b' = Node BLACK br bi kb vb bl /\ balanced bl n /\ balanced br n) as (cl & bi & kb & vb & cr & -> & Hbl & Hbr).
  { destruct HC as [Hbal _]. cbn [sibling] in Hbal. destruct b' as [|[] l0 i0 k0 v0 r0]; [done| |done]. exists l0, i0, k0, v0, r0. destruct Hbal as [? ?]. by split_and!. }
  rename cl into br, cr into bl.
  unfold pathIds in Hj. cbn [flat_map frameIds ids] in Hj. fold (pathIds C') in Hj.
  assert (p <> j /\ bi <> j /\ j ∉ ids bl /\ j ∉ ids br /\ j ∉ pathIds C') as (Hjp & Hjb & Hjl & Hjr & HjC) by (clear -Hj; set_solver).
  cbn [ptr]. run_read (rightIndex_of X hd t (InLeft cp' p kp vp (Node BLACK l i k v r) :: C') BLACK _ _ bi kb vb H).
  run_read (holds_color X hd t (InRight BLACK br bi kb vb :: InLeft cp' p kp vp (Node BLACK l i k v r) :: C') bl H).
  run_read (leftIndex_of X hd t (InLeft cp' p kp vp (Node BLACK l i k v r) :: C') BLACK _ _ bi kb vb H).
  run_read (holds_color X hd t (InLeft BLACK bi kb vb bl :: InLeft cp' p kp vp (Node BLACK l i k v r) :: C') br H).
  destruct HC as [_ HC]. cbn [frameColor sibling rootColor] in HC.
  destruct (decide _) as [[Hcl Hcr]|Hnot].
  - write (SetColor_holds X hd t (InLeft cp' p kp vp (Node BLACK l i k v r) :: C') BLACK br bi kb vb bl RED) t H.
    run_read (parent_of X hd t (InRight cp' _ p kp vp :: C') BLACK l r i k v H).
    apply (short_balanced bl _ Hjl) in Hbl. apply (short_balanced br _ Hjr) in Hbr.
    exists C', (Node cp' (Node RED br bi kb vb bl) p kp vp (Node BLACK l i k v r)), (match cp' with RED => n | BLACK => S n end).
    assert (sameNodes (plug (InRight cp b p kp vp :: C) (Node BLACK l i k v r)) (plug C' (Node cp' (Node RED br bi kb vb bl) p kp vp (Node BLACK l i k v r)))) as Hsame'
      by (eapply sameNodes_trans; [exact Hsame|same_nodes]).
    split_and!; [done| | |done|done|done|].
    + destruct cp'; cbn [shortage]; [cbn [short]; rewrite (decide_False (P := p = j)) by done|];
        split_and?; try done; cbn [short]; rewrite (decide_False (P := bi = j)) by done; by split_and!.
    + destruct cp'; [done|]. destruct HC as (_ & _ & HC). by eapply fits_any.
    + destruct cp'; [|by left]. right. by destruct HC' as [->|].
  - pose proof (nearRedRight t C' cp' p kp vp bl bi kb vb br l i k v r n H Hbl Hbr Hjl Hjr Hjb ltac:(tauto)) as Hnear.
    rewrite (rightIndex_of X hd t (InLeft cp' p kp vp (Node BLACK l i k v r) :: C') BLACK _ _ bi kb vb H) in Hnear.
    eapply returns_bind; [exact Hnear|]. clear H t Hnear.
    intros [bro t] (xl & xi & kx & vx & yl & yi & ky & vy & yr & -> & H & Hx & Hy & Hjx & Hjy & Hjxi & Hsame2).
    eapply returns_mono; [apply (farRedRight t C' cp' p kp vp xl xi kx vx yl yi ky vy yr l i k v r n H Hs); try done; destruct cp'; [done|by destruct HC as (_ & _ & HC)]|].
    intros [index t'] (T' & -> & H' & (Hc & n' & Hn) & Hsame3). exists [], T', n'. split_and!; [done| |done|apply not_elem_of_nil|done| |right; cbn; lia].
    + destruct T' as [|[] ? ? ? ? ?]; [|done|done]. exfalso. clear -Hsame Hsame2 Hsame3. 
      destruct Hsame as [_ H1], Hsame2 as [_ H2], Hsame3 as [_ H3]. rewrite H2, H1 in H3. cbn [ids plug] in H3. rewrite ids_plug in H3. 
      cbn [plugFrame ids] in H3. apply (f_equal length) in H3. rewrite !length_app in H3. cbn [length] in H3. rewrite ?length_app in H3. cbn in H3. lia.
    + eapply sameNodes_trans; [exact Hsame|]. eapply sameNodes_trans; [exact Hsame2|exact Hsame3].
Qed.

Lemma deleteLoop_ok fuel T t C s n : shortage s n -> fits C BLACK (S n) -> j ∉ pathIds C -> holds X hd t (plug C s) -> sameNodes T (plug C s) ->
  rootColor s = RED \/ (length C <= fuel)%nat ->
  returns (deleteLoop fuel t (ptr s)) (fun '(index, t') => exists C' s', index = ptr s' /\ s' <> Leaf /\ holds X hd t' (plug C' s') /\
    sameNodes T (plug C' s') /\ shortRedBlack (plug C' (blacken s'))).
Proof.
  revert t C s n. induction fuel as [|fuel IH]; intros t C s n Hs HC Hj H HT Hf; unfold deleteLoop; fold deleteLoop;
    (destruct s as [|c l i k v r]; [done|]); cbn [ptr].
  all: destruct C as [|f C];
    [rewrite (holds_root _ _ _ _ H); cbn [plug ptr]; rewrite Z.eqb_refl, bind_Ok; cbn [decide];
     exists [], (Node c l i k v r); split_and!; [done..|]; split; [done|]; cbn [plug blacken];
     destruct c; [by exists n|]; destruct Hs as (? & ? & ?); exists (S n); cbn [short]; by rewrite decide_False by done|].
  all: (destruct (Z.eqb_spec (Z.of_nat i) (GetRootEntries t)) as [E|E];
    [exfalso; by pose proof (root_ptr X hd t (f :: C) (Node c l i k v r) H ltac:(done) ltac:(done))|]).
  all: rewrite (read_color _ _ _ _ _ _ _ _ (node_at X hd t (f :: C) _ _ _ _ _ _ H)), bind_Ok; destruct c; cbn [decide rootColor] in *.
  1: destruct Hf as [?|Hf]; [done|cbn in Hf; lia].
  1,3: exists (f :: C), (Node RED l i k v r); split_and!; [done..|]; cbn [blacken]; destruct Hs as (? & ? & ?);
    eapply (fits_short (f :: C) _ (S n)); [done|done|]; cbn [short]; by rewrite decide_False by done.
  destruct Hf as [?|Hf]; [done|]. cbn [length] in Hf. cbn [shortage] in Hs.
  destruct f as [cp p kp vp b|cp b p kp vp].
  - rewrite (left_isLeft X hd t C BLACK l r i k v cp p kp vp b H), bind_Ok.
    eapply returns_bind; [exact (deleteRoundLeft_ok t C cp p kp vp b l i k v r n H HC Hs Hj)|].
    intros [index t'] (C' & s' & n' & -> & Hs' & HC' & Hj' & H' & HT' & Hlen). apply (IH t' C' s' n'); try done.
    + by eapply sameNodes_trans.
    + destruct Hlen; [by left|right; lia].
  - rewrite (right_isLeft X hd t C BLACK l r i k v cp b p kp vp H), bind_Ok.
    eapply returns_bind; [exact (deleteRoundRight_ok t C cp p kp vp b l i k v r n H HC Hs Hj)|].
    intros [index t'] (C' & s' & n' & -> & Hs' & HC' & Hj' & H' & HT' & Hlen). apply (IH t' C' s' n'); try done.
    + by eapply sameNodes_trans.
    + destruct Hlen; [by left|right; lia].
Qed.

Lemma DeleteRebalance_ok t C s n : shortage s n -> fits C BLACK (S n) -> j ∉ pathIds C -> holds X hd t (plug C s) ->
  (length C <= length (entriesOf t))%nat ->
  returns (DeleteRebalance t (ptr s)) (fun t' => exists T', holds X hd t' T' /\ sameNodes (plug C s) T' /\ shortRedBlack T').
Proof.
  intros Hs HC Hj H Hlen. unfold DeleteRebalance.
  eapply returns_bind; [apply (deleteLoop_ok _ (plug C s) t C s n); try done; right; unfold entryFuel; lia|].
  intros [index t'] (C' & s' & -> & Hleaf & H' & HT & Hrb). destruct s' as [|c l i k v r]; [done|]. cbn [ptr].
  eapply returns_mono; [exact (SetColor_holds X hd t' C' c l i k v r BLACK H')|]. intros t2 H2.
  exists (plug C' (Node BLACK l i k v r)). split_and!; [done| |done]. destruct HT as [He Hi]. split; [rewrite <- He|rewrite <- Hi]; by rewrite ?elements_plug, ?ids_plug.
Qed.
End Delete.
