(* ===== verification/TreeRemove.v ===== *)
(** * Removal

    [Remove] of [TaggedTree]: the node that goes is the entry itself or, when it has two children,
    its successor, whose key and value move to the entry.  Afterwards the array holds a red-black tree
    of the other nodes. *)

From Stdlib Require Import ZArith Lia.
From stdpp Require Import sets.
From S2P Require Import Prelude Double Values TaggedTree TreeRep TreeBalance TreeDelete.

(** ** Places *)

Lemma plug_app D C s : plug (D ++ C) s = plug C (plug D s).
Proof. revert s. induction D as [|f D IH]; intros s; cbn; [done|]. by rewrite IH. Qed.

Lemma plug_right D C c l i k v s : plug C (Node c l i k v (plug D s)) = plug (D ++ InRight c l i k v :: C) s.
Proof. by rewrite plug_app. Qed.

(** The keys and values have no part in the balance. *)
Lemma redBlack_data C c l i k v r k' v' : redBlack (plug C (Node c l i k v r)) -> redBlack (plug C (Node c l i k' v' r)).
Proof. intros (n & HC & Hn)%plug_fits. by eapply fits_plug. Qed.

Lemma before_app {A} nodes node (D C : path) : @before A nodes node (D ++ C) = before nodes node C ++ before nodes node D.
Proof. induction D as [|[c i k v r|c l i k v] D IH]; cbn; [by rewrite app_nil_r|done|]. rewrite IH. by rewrite <- !app_assoc. Qed.

Lemma after_app {A} nodes node (D C : path) : @after A nodes node (D ++ C) = after nodes node D ++ after nodes node C.
Proof. induction D as [|[c i k v r|c l i k v] D IH]; cbn; [done| |done]. rewrite IH. by rewrite <- !app_assoc. Qed.

Lemma length_elements T : length (elements T) = length (ids T).
Proof. induction T as [|c l IHl i k v r IHr]; cbn; [done|]. rewrite !length_app. cbn. lia. Qed.

Lemma length_before C : length (elementsBefore C) = length (idsBefore C).
Proof. induction C as [|[c i k v r|c l i k v] C IH]; cbn; [done|done|]. rewrite !length_app, length_elements. cbn. lia. Qed.

(** Where an entry is. *)
Lemma ids_split T j : j ∈ ids T -> exists C c l k v r, T = plug C (Node c l j k v r).
Proof.
  assert (forall T C, j ∈ ids T -> exists D c l k v r, plug C T = plug D (Node c l j k v r)) as H.
  { clear T. induction T as [|c l IHl i k v r IHr]; intros C Hj; cbn [ids] in Hj; [set_solver|].
    apply elem_of_app in Hj as [Hj|[->|Hj]%elem_of_cons].
    - by destruct (IHl (InLeft c i k v r :: C) Hj) as (D & ? & ? & ? & ? & ? & ?); exists D; repeat eexists.
    - by exists C; repeat eexists.
    - by destruct (IHr (InRight c l i k v :: C) Hj) as (D & ? & ? & ? & ? & ? & ?); exists D; repeat eexists. }
  intros Hj. destruct (H T [] Hj) as (D & c & l & k & v & r & E). by exists D, c, l, k, v, r.
Qed.

(** Trees with the same nodes in the same order have the same node at the same entry. *)
Lemma sameNodes_at C C' c l i k v r c' l' k' v' r' :
  sameNodes (plug C (Node c l i k v r)) (plug C' (Node c' l' i k' v' r')) -> NoDup (ids (plug C (Node c l i k v r))) ->
  k' = k /\ v' = v /\ elementsBefore C' ++ elements l' = elementsBefore C ++ elements l /\ elements r' ++ elementsAfter C' = elements r ++ elementsAfter C /\
  idsBefore C' ++ ids l' = idsBefore C ++ ids l /\ ids r' ++ idsAfter C' = ids r ++ idsAfter C.
Proof.
  intros [He Hi] Hnd. rewrite !elements_plug in He. rewrite !ids_plug in Hi. rewrite ids_plug in Hnd. cbn [elements ids] in *.
  rewrite <- !app_assoc, !(app_assoc (before _ _ _)) in He. rewrite <- !app_assoc, !(app_assoc (before _ _ _)) in Hi. cbn [app] in *.
  rewrite <- app_assoc, app_assoc in Hnd. cbn [app] in Hnd.
  assert (idsBefore C' ++ ids l' = idsBefore C ++ ids l) as Hb.
  { assert (forall (a b a' b' : list nat), a' ++ i :: b' = a ++ i :: b -> NoDup (a ++ i :: b) -> a' = a) as Hpre.
    { clear. intros a b a' b' E Hn. revert a E Hn. induction a' as [|x a' IH]; intros [|y a] E Hn; cbn in E; [done| | |].
      - injection E as -> ->. apply NoDup_cons in Hn as [Hn _]. set_solver.
      - injection E as -> <-. apply NoDup_cons in Hn as [Hn _]. set_solver.
      - injection E as -> E. apply NoDup_cons in Hn as [_ Hn]. f_equal. by apply IH. }
    by eapply Hpre. }
  assert (length (elementsBefore C' ++ elements l') = length (elementsBefore C ++ elements l)) as Hl.
  { rewrite !length_app, !length_before, !length_elements, <- !length_app. by rewrite Hb. }
  apply app_inj_1 in He as [He1 He2]; [|done]. injection He2 as -> -> He2. rewrite Hb in Hi. apply app_inv_head in Hi. injection Hi as Hi. done.
Qed.

(** ** The leftmost and the rightmost node *)

Definition goesLeft (f : frame) : Prop := match f with InLeft _ _ _ _ _ => True | _ => False end.
Definition goesRight (f : frame) : Prop := match f with InRight _ _ _ _ _ => True | _ => False end.

Lemma left_nothing_before {A} nodes node D : Forall goesLeft D -> @before A nodes node D = [].
Proof. induction 1 as [|[] D Hf HD IH]; by cbn. Qed.

Lemma right_nothing_after {A} nodes node D : Forall goesRight D -> @after A nodes node D = [].
Proof. induction 1 as [|[] D Hf HD IH]; by cbn. Qed.

(** No path is longer than the array. *)
Lemma holds_size X hd t T : holds X hd t T -> (length (ids T) <= length (entriesOf t))%nat.
Proof.
  intros H. assert (ids T ⊆ seq 0 (length (entriesOf t))) as Hsub.
  { intros j Hj. destruct (ids_split T j Hj) as (C & c & l & k & v & r & ->). apply node_at in H. apply lookup_lt_Some in H. apply elem_of_seq. lia. }
  pose proof (submseteq_length _ _ (NoDup_submseteq _ _ (holds_nodup _ _ _ _ H) Hsub)) as Hl. by rewrite length_seq in Hl.
Qed.

Lemma path_length C s : (length C <= length (ids (plug C s)))%nat.
Proof.
  rewrite ids_plug_perm, length_app. assert (length C <= length (pathIds C))%nat; [|lia].
  unfold pathIds. induction C as [|f C IH]; cbn; [lia|]. rewrite length_app. destruct f; cbn; lia.
Qed.

Lemma holds_path X hd t C s : holds X hd t (plug C s) -> (length C <= length (entriesOf t))%nat.
Proof. intros H%holds_size. pose proof (path_length C s). lia. Qed.

Section Extremes.
  Variables (X : list nat) (hd : Header) (t : TaggedTree).

Lemma minimumLoop_ok fuel C s : s <> Leaf -> holds X hd t (plug C s) -> (length (ids s) <= S fuel)%nat ->
  exists D c j k v r, s = plug D (Node c Leaf j k v r) /\ Forall goesLeft D /\ minimumLoop fuel t (ptr s) = Ok (Z.of_nat j).
Proof.
  revert C s. induction fuel as [|fuel IH]; intros C s Hs H Hf; (destruct s as [|c l i k v r]; [done|]); cbn [ptr minimumLoop];
    rewrite (read_left _ _ _ _ _ _ _ _ (node_at X hd t C _ _ _ _ _ _ H)), bind_Ok; (destruct l as [|cl ll il kl vl rl];
    [exists [], c, i, k, v, r; by split_and!|]).
  - exfalso. cbn [ids] in Hf. rewrite !length_app in Hf. cbn in Hf. lia.
  - cbn [link linkInt]. rewrite bind_Ok.
    destruct (IH (InLeft c i k v r :: C) (Node cl ll il kl vl rl)) as (D & c' & j & k' & v' & r' & E & HD & Hm); [done|exact H| |].
    + cbn [ids] in *. rewrite !length_app in *. cbn in *. lia.
    + exists (D ++ [InLeft c i k v r]), c', j, k', v', r'. rewrite plug_app. cbn [plug plugFrame]. rewrite <- E. split_and!; [done| |done].
      apply Forall_app. split; [done|]. by repeat constructor.
Qed.

Lemma maximumLoop_ok fuel C s : s <> Leaf -> holds X hd t (plug C s) -> (length (ids s) <= S fuel)%nat ->
  exists D c l j k v, s = plug D (Node c l j k v Leaf) /\ Forall goesRight D /\ maximumLoop fuel t (ptr s) = Ok (Z.of_nat j).
Proof.
  revert C s. induction fuel as [|fuel IH]; intros C s Hs H Hf; (destruct s as [|c l i k v r]; [done|]); cbn [ptr maximumLoop];
    rewrite (read_right _ _ _ _ _ _ _ _ (node_at X hd t C _ _ _ _ _ _ H)), bind_Ok; (destruct r as [|cr lr ir kr vr rr];
    [exists [], c, l, i, k, v; by split_and!|]).
  - exfalso. cbn [ids] in Hf. rewrite !length_app in Hf. cbn in Hf. rewrite !length_app in Hf. cbn in Hf. lia.
  - cbn [link linkInt]. rewrite bind_Ok.
    destruct (IH (InRight c l i k v :: C) (Node cr lr ir kr vr rr)) as (D & c' & l' & j & k' & v' & E & HD & Hm); [done|exact H| |].
    + cbn [ids] in *. rewrite !length_app in *. cbn in *. rewrite !length_app in *. cbn in *. lia.
    + exists (D ++ [InRight c l i k v]), c', l', j, k', v'. rewrite plug_app. cbn [plug plugFrame]. rewrite <- E. split_and!; [done| |done].
      apply Forall_app. split; [done|]. by repeat constructor.
Qed.

Lemma size_part C s : holds X hd t (plug C s) -> (length (ids s) <= length (entriesOf t))%nat.
Proof. intros H%holds_size. rewrite ids_plug, !length_app in H. lia. Qed.

Lemma GetMinimum_ok C s : s <> Leaf -> holds X hd t (plug C s) ->
  exists D c j k v r, s = plug D (Node c Leaf j k v r) /\ Forall goesLeft D /\ GetMinimum t (ptr s) = Ok (Z.of_nat j).
Proof. intros Hs H. apply (minimumLoop_ok _ C); [done|done|]. pose proof (size_part C s H). unfold entryFuel. lia. Qed.

Lemma GetMaximum_ok C s : s <> Leaf -> holds X hd t (plug C s) ->
  exists D c l j k v, s = plug D (Node c l j k v Leaf) /\ Forall goesRight D /\ GetMaximum t (ptr s) = Ok (Z.of_nat j).
Proof. intros Hs H. apply (maximumLoop_ok _ C); [done|done|]. pose proof (size_part C s H). unfold entryFuel. lia. Qed.
End Extremes.

(** ** Transplanting *)

(** The array after the only subtree [s] of the node [j] took its place. *)
Lemma transplanted X hd t t' C c l j k v r s :
  holds X hd t (plug C (Node c l j k v r)) -> (l = Leaf /\ s = r) \/ (r = Leaf /\ s = l) ->
  headerOf t' = hd -> GetRootEntries t' = ptr (plug C s) ->
  match s with Leaf => True | Node _ _ i _ _ _ => entriesOf t' !! i = parented (Int (above C)) <$> entriesOf t !! i end ->
  match C with [] => True | f :: _ => entriesOf t' !! frameId f = rehung f (link s) <$> entriesOf t !! frameId f end ->
  (forall i, Z.of_nat i <> ptr s -> Z.of_nat i <> above C -> entriesOf t' !! i = entriesOf t !! i) ->
  holds (j :: X) hd t' (plug C s) /\ j ∉ ids (plug C s) /\ entriesOf t' !! j = entriesOf t !! j /\ ids (plug C (Node c l j k v r)) ≡ₚ j :: ids (plug C s).
Proof.
  intros [Hh Hroot Hlk Hnd Hrest] Hs Hh' Hroot' Hsi HC Hother.
  assert (ids (plug C (Node c l j k v r)) ≡ₚ j :: ids (plug C s)) as Hperm.
  { rewrite !ids_plug_perm. cbn [ids]. destruct Hs as [[-> ->]|[-> ->]]; cbn [ids app]; solve_Permutation. }
  pose proof Hnd as Hnd'. rewrite Hperm in Hnd'. apply NoDup_cons in Hnd' as [Hj HndT].
  pose proof HndT as Hp. rewrite ids_plug_perm in Hp. apply NoDup_app in Hp as (HndC & HCd & Hnds).
  assert (forall i, Z.of_nat i = ptr s -> i ∈ ids s) as His.
  { destruct s as [|cb lb ib kb vb rb]; cbn; [lia|]. intros i Heq. assert (i = ib) as -> by lia. set_solver. }
  assert (forall i, Z.of_nat i = above C -> i ∈ pathIds C) as HiC.
  { destruct C as [|f C']; cbn; [lia|]. intros i Heq. rewrite (Nat2Z.inj _ _ Heq). destruct f; cbn; set_solver. }
  apply linked_plug in Hlk as (HCl & _ & Hl & Hr).
  assert (linked (entriesOf t) (Z.of_nat j) s) as Hls by (by destruct Hs as [[-> ->]|[-> ->]]).
  assert (j ∉ ids s /\ j ∉ pathIds C) as [Hjs HjC] by (rewrite ids_plug_perm in Hj; set_solver).
  split_and!; [|done| |done].
  - split; [done|done| |done|].
    + apply linked_plug. split.
      * apply (linkedPath_rehang (entriesOf t) _ C (Int (Z.of_nat j))); [done|done| |done].
        intros i Hi Hne. apply Hother; [|done]. intros Heq. apply His in Heq. by apply (HCd i).
      * apply (linked_reparent (entriesOf t) _ (Z.of_nat j)); [done| |done|done].
        intros i Hi Hne. apply Hother; [done|]. intros Heq. apply HiC in Heq. by apply (HCd i).
    + intros i e He Hi HX. apply (Hrest i e); [|rewrite Hperm; set_solver|set_solver]. rewrite <- He. symmetry.
      rewrite ids_plug_perm in Hi. apply Hother; intros Heq; [apply His in Heq|apply HiC in Heq]; set_solver.
  - apply Hother; intros Heq; [by apply His in Heq|by apply HiC in Heq].
Qed.

Ltac moved := cbn [returns]; eapply transplanted; [eassumption|by auto|..];
  [unfold headerOf; cbn [headerOf withEntries SetRootEntries NumberOfElements NumberOfDeletedElements Capacity GetCompare entriesOf];
   rewrite ?length_insert; eapply holds_header; eassumption
  |cbn [withEntries SetRootEntries GetRootEntries]; first [reflexivity | etransitivity; [eapply holds_root; eassumption|apply ptr_plug]]
  | | | ]; cbn [frameId rehung ptr above link];
  [first [exact I | etransitivity; [|symmetry; eapply fmap_Some_2; eassumption]; look]
  |first [exact I | etransitivity; [|symmetry; eapply fmap_Some_2; eassumption]; look]
  |intros z; intros; cbn [withEntries SetRootEntries entriesOf]; rewrite ?list_lookup_insert_ne by (intros ->; first [done | lia]); done].

Lemma Transplant_holds X hd t C c l j k v r s : holds X hd t (plug C (Node c l j k v r)) -> (l = Leaf /\ s = r) \/ (r = Leaf /\ s = l) ->
  returns (Transplant t (Z.of_nat j) (ptr s)) (fun t' =>
    holds (j :: X) hd t' (plug C s) /\ j ∉ ids (plug C s) /\ entriesOf t' !! j = entriesOf t !! j /\ ids (plug C (Node c l j k v r)) ≡ₚ j :: ids (plug C s)).
Proof.
  intros H Hs. unfold Transplant. pose proof (node_at X hd t C _ _ _ _ _ _ H) as Hj.
  pose proof (holds_nodup _ _ _ _ H) as Hnd. rewrite ids_plug_perm in Hnd. cbn [ids] in Hnd.
  rewrite (parent_of X hd t C _ _ _ _ _ _ H), bind_Ok. destruct s as [|cs ls si ks vs rs]; cbn [ptr Z.ltb Z.compare].
  - destruct C as [|[c1 i k1 v1 r1|c1 l1 i k1 v1] C']; cbn [above frameId].
    + access. moved.
    + pose proof (node_at X hd t C' _ _ _ _ _ _ H) as Hi. rewrite (left_isLeft X hd t C' _ _ _ j _ _ _ _ _ _ _ H). access. moved.
    + pose proof (node_at X hd t C' _ _ _ _ _ _ H) as Hi. rewrite (right_isLeft X hd t C' _ _ _ j _ _ _ _ _ _ _ H). access. moved.
  - assert (entriesOf t !! si = Some (mkEntry ks vs cs (Int (Z.of_nat j)) (link ls) (link rs)) /\ si ∈ ids l ++ ids r) as [Hsi Hin].
    { destruct Hs as [[-> <-]|[-> <-]]; cbn [ids app]; (split; [|set_solver]).
      - exact (node_at X hd t (InRight c Leaf j k v :: C) _ _ _ _ _ _ H).
      - exact (node_at X hd t (InLeft c j k v Leaf :: C) _ _ _ _ _ _ H). }
    rewrite negative_id. destruct C as [|[c1 i k1 v1 r1|c1 l1 i k1 v1] C']; cbn [above frameId].
    + access. moved.
    + pose proof (node_at X hd t C' _ _ _ _ _ _ H) as Hi. rewrite (left_isLeft X hd t C' _ _ _ j _ _ _ _ _ _ _ H).
      assert (i <> si) by (intros ->; clear -Hnd Hin; nodup_parts Hnd; set_solver). access. moved.
    + pose proof (node_at X hd t C' _ _ _ _ _ _ H) as Hi. rewrite (right_isLeft X hd t C' _ _ _ j _ _ _ _ _ _ _ H).
      assert (i <> si) by (intros ->; clear -Hnd Hin; nodup_parts Hnd; set_solver). access. moved.
Qed.

(** ** Removal *)

(** A write to an entry outside the tree. *)
Lemma write_outside X hd t T j f e : holds (j :: X) hd t T -> j ∉ ids T -> entriesOf t !! j = Some e ->
  exists t', updateEntry t (Z.of_nat j) f = Ok t' /\ holds (j :: X) hd t' T /\ entriesOf t' !! j = Some (f e).
Proof.
  intros [Hh Hroot Hlk Hnd Hrest] Hj He. rewrite (update_eq _ _ _ _ He). eexists. split; [done|]. split.
  - split; cbn [withEntries entriesOf GetRootEntries]; [|done| |done|].
    + rewrite <- Hh. unfold headerOf. cbn. by rewrite length_insert.
    + eapply linked_ext; [|exact Hlk]. intros i Hi. apply list_lookup_insert_ne. by intros ->.
    + intros i e' Hi Hn HX. rewrite (lookup_upd _ _ _ _ _ He) in Hi. destruct (decide (i = j)) as [->|]; [set_solver|]. by apply (Hrest i).
  - cbn [withEntries entriesOf]. rewrite (lookup_upd _ _ _ _ _ He). by rewrite decide_True.
Qed.

(** An entry outside the tree without children is one of the rest. *)
Lemma holds_freed X hd t T j e : holds (j :: X) hd t T -> entriesOf t !! j = Some e -> unlinked e -> holds X hd t T.
Proof.
  intros [Hh Hroot Hlk Hnd Hrest] He Hu. split; try done. intros i e' Hi Hn HX. destruct (decide (i = j)) as [->|]; [by simplify_eq|].
  apply (Hrest i); [done|done|set_solver].
Qed.

Section Remove.
  Variable shared : bool.

(** In a set the value of an entry is its key. *)
Definition consistent (T : tree) : Prop := shared = true -> Forall (fun e => e.2 = e.1) (elements T).

Lemma RemoveEntry_holds X hd t T j e : holds (j :: X) hd t T -> j ∉ ids T -> entriesOf t !! j = Some e ->
  returns (RemoveEntry shared t (Z.of_nat j)) (fun t' => holds X hd t' T).
Proof.
  intros H Hj He. unfold RemoveEntry, SetKey, SetParent, SetLeftChild, SetRightChild, SetValue. rewrite negative_id.
  do 5 (edestruct write_outside as (t1 & -> & H1 & He1); [exact H|exact Hj|exact He|]; rewrite ?bind_Ok; clear t H He; rename t1 into t, H1 into H, He1 into He).
  cbn [returns]. eapply holds_freed; [exact H|exact He|done].
Qed.

Lemma short_fits j C s : j ∉ pathIds C -> shortRedBlack j (plug C s) -> exists n, fits C (rootColor s) n /\ short j s n.
Proof.
  revert s. induction C as [|f C IH]; intros s Hj HT; cbn [fits plug] in *; [by destruct HT as [Hc [n Hn]]; exists n|].
  unfold pathIds in Hj. cbn [flat_map] in Hj. fold (pathIds C) in Hj. apply not_elem_of_app in Hj as [Hj HjC].
  apply IH in HT as (n & HC & Hn); [|done]. destruct f as [[] i k v r|[] l i k v]; cbn [frameColor sibling plugFrame rootColor short frameIds] in *;
    apply not_elem_of_cons in Hj as [Hij Hj]; rewrite decide_False in Hn by done.
  1,3: destruct n as [|n]; [done|]; destruct Hn as [Hn1 Hn2]; exists n; split_and!; try done; by apply (short_balanced j _ _ Hj).
  all: destruct Hn as (? & ? & ? & ?); exists n; split_and!; try done; by apply (short_balanced j _ _ Hj).
Qed.

Lemma balanced_zero T : balanced T 0 -> rootColor T = BLACK -> T = Leaf.
Proof. by destruct T as [|[] l i k v r]. Qed.

(** The end of [Remove], for an entry with at most one child. *)
Definition removeNode (t : TaggedTree) (successor : Z) : result TaggedTree :=
  left ← GetLeftChild t successor;
  right ← GetRightChild t successor;
  child ← (if IsHole left then childIndex right else linkInt left);
  t ← (if child <? 0 then
         c ← GetColor t successor;
         if decide (c = BLACK) then DeleteRebalance t successor else Ok t
       else Ok t);
  t ← Transplant t successor child;
  t ← (if 0 <=? child then
         c ← GetColor t successor;
         if decide (c = BLACK) then DeleteRebalance t child else Ok t
       else Ok t);
  RemoveEntry shared t successor.

Definition removedOne (t : TaggedTree) : TaggedTree :=
  let t := SetNumberOfElements t (u32 (NumberOfElements t - 1)) in SetNumberOfDeletedElements t (NumberOfDeletedElements t + 1).

Lemma bind_ext {A B} (m : result A) (f g : A -> result B) : (forall a, f a = g a) -> m ≫= f = m ≫= g.
Proof. intros H. destruct m; [apply H|done]. Qed.

Lemma Remove_eq t entry : Remove shared t entry =
  (left ← GetLeftChild t entry;
   right ← GetRightChild t entry;
   '(successor, t) ← (if negb (IsHole left) && negb (IsHole right) then
       successor ← GetSuccessor t entry;
       t ← CopyData shared t entry successor;
       Ok (successor, t)
     else Ok (entry, t));
   t ← removeNode t successor; Ok (removedOne t)).
Proof.
  unfold Remove. do 2 (apply bind_ext; intros ?). apply bind_ext. intros [successor t1]. unfold removeNode.
  by repeat (rewrite bind_assoc; apply bind_ext; intros ?).
Qed.

Section RemoveNode.
  Variables (hd : Header) (C : path) (c : TreeColor) (j : nat) (k v : JSTaggedValue).

Definition removed (l r T' : tree) : Prop :=
  redBlack T' /\ elements T' = elementsBefore C ++ elements l ++ elements r ++ elementsAfter C /\
  ids (plug C (Node c l j k v r)) ≡ₚ j :: ids T'.

(** A leaf of the tree. *)
Lemma removeLeaf_ok t : holds [] hd t (plug C (Node c Leaf j k v Leaf)) -> redBlack (plug C (Node c Leaf j k v Leaf)) ->
  returns (removeNode t (Z.of_nat j)) (fun t' => exists T', holds [] hd t' T' /\ removed Leaf Leaf T').
Proof.
  intros H Hrb. unfold removeNode.
  rewrite (read_left _ _ _ _ _ _ _ _ (node_at [] hd t C _ _ _ _ _ _ H)), bind_Ok.
  rewrite (read_right _ _ _ _ _ _ _ _ (node_at [] hd t C _ _ _ _ _ _ H)), bind_Ok. cbn [link IsHole childIndex]. rewrite bind_Ok.
  cbn [Z.ltb Z.leb Z.compare]. rewrite (read_color _ _ _ _ _ _ _ _ (node_at [] hd t C _ _ _ _ _ _ H)), bind_Ok.
  pose proof (holds_nodup _ _ _ _ H) as Hnd.
  assert (j ∉ pathIds C) as HjC.
  { clear -Hnd. rewrite ids_plug_perm in Hnd. cbn [ids app] in Hnd. apply NoDup_app in Hnd as (_ & Hd & _). intros Hj. apply (Hd j Hj). set_solver. }
  destruct (plug_fits C _ Hrb) as (n & HC & Hn).
  eapply (returns_bind _ (fun t1 => exists C1 c1 k1 v1, holds [] hd t1 (plug C1 (Node c1 Leaf j k1 v1 Leaf)) /\ redBlack (plug C1 Leaf) /\
    sameNodes (plug C (Node c Leaf j k v Leaf)) (plug C1 (Node c1 Leaf j k1 v1 Leaf)))).
  - destruct c; cbn [decide].
    + cbn [balanced] in Hn. destruct n as [|n]; [done|]. destruct Hn as [-> _].
      eapply returns_mono; [apply (DeleteRebalance_ok [] hd j t C (Node BLACK Leaf j k v Leaf) 0); [|done|done|done|by eapply holds_path]|].
      { cbn [shortage short]. by rewrite decide_True by done. }
      intros t1 (T1 & H1 & Hsame & Hshort). destruct (ids_split T1 j) as (C1 & c1 & l1 & k1 & v1 & r1 & ->).
      { destruct Hsame as [_ ->]. rewrite ids_plug. cbn. set_solver. }
      pose proof (holds_nodup _ _ _ _ H1) as Hnd1. rewrite ids_plug_perm in Hnd1. cbn [ids] in Hnd1.
      assert (j ∉ pathIds C1) as HjC1 by (apply NoDup_app in Hnd1 as (_ & Hd & _); intros Hj; apply (Hd j Hj); set_solver).
      destruct (short_fits j C1 _ HjC1 Hshort) as (m & HC1 & Hm). cbn [short rootColor] in *. rewrite decide_True in Hm by done.
      destruct Hm as (-> & -> & -> & ->). exists C1, BLACK, k1, v1. split_and!; [done| |done]. by apply (fits_plug C1 Leaf 0).
    + cbn [balanced] in Hn. destruct Hn as (_ & _ & -> & _). exists C, RED, k, v. split_and!; [done| |done].
      apply (fits_plug C Leaf 0); [|done]. by eapply fits_any.
  - intros t1 (C1 & c1 & k1 & v1 & H1 & Hrb1 & Hsame).
    eapply returns_bind; [apply (Transplant_holds [] hd t1 C1 c1 Leaf j k1 v1 Leaf Leaf H1); by left|].
    intros t2 (H2 & Hj2 & He2 & Hp2). rewrite bind_Ok. eapply returns_mono; [eapply (RemoveEntry_holds [] hd t2 (plug C1 Leaf) j); [done|done|]|].
    { rewrite He2. exact (node_at [] hd t1 C1 _ _ _ _ _ _ H1). }
    intros t3 H3. exists (plug C1 Leaf). split; [done|]. split; [done|split].
    + destruct (sameNodes_at _ _ _ _ _ _ _ _ _ _ _ _ _ Hsame Hnd) as (_ & _ & Hb & Ha & _). cbn [elements app] in Hb, Ha. rewrite !app_nil_r in Hb.
      rewrite elements_plug. cbn [elements app]. by rewrite Hb, Ha.
    + destruct Hsame as [_ Hi]. by rewrite <- Hi.
Qed.

(** A node with one child. *)
Lemma removeInner_ok t l r s : holds [] hd t (plug C (Node c l j k v r)) -> redBlack (plug C (Node c l j k v r)) ->
  (l = Leaf /\ s = r) \/ (r = Leaf /\ s = l) -> s <> Leaf ->
  returns (removeNode t (Z.of_nat j)) (fun t' => exists T', holds [] hd t' T' /\ removed l r T').
Proof.
  intros H Hrb Hs Hleaf. unfold removeNode.
  rewrite (read_left _ _ _ _ _ _ _ _ (node_at [] hd t C _ _ _ _ _ _ H)), bind_Ok.
  rewrite (read_right _ _ _ _ _ _ _ _ (node_at [] hd t C _ _ _ _ _ _ H)), bind_Ok.
  assert ((if IsHole (link l) then childIndex (link r) else linkInt (link l)) = Ok (ptr s)) as ->.
  { destruct Hs as [[-> ->]|[-> ->]]; [by rewrite childIndex_link|]. by destruct l. }
  destruct s as [|cs ls si ks vs rs]; [done|]. rewrite bind_Ok. cbn [ptr]. rewrite negative_id, bind_Ok, nonnegative_id.
  destruct (plug_fits C _ Hrb) as (n & HC & Hn).
  assert (c = BLACK /\ n = 1%nat /\ cs = RED /\ ls = Leaf /\ rs = Leaf) as (-> & -> & -> & -> & ->).
  { assert (balanced (Node cs ls si ks vs rs) 0 -> cs = RED /\ ls = Leaf /\ rs = Leaf) as Hcs.
    { cbn. destruct cs; [done|]. intros (? & ? & ? & ?). by rewrite (balanced_zero ls), (balanced_zero rs). }
    destruct c; cbn [balanced] in Hn.
    - destruct n as [|n]; [done|]. destruct Hn as [Hl Hr]. destruct Hs as [[-> <-]|[-> <-]]; cbn in Hl, Hr; subst n; by destruct (Hcs ltac:(done)) as (-> & -> & ->).
    - exfalso. destruct Hn as (Hcl & Hcr & Hl & Hr). destruct Hs as [[-> <-]|[-> <-]].
      + cbn in Hl. subst n. by apply balanced_zero in Hr.
      + cbn in Hr. subst n. by apply balanced_zero in Hl. }
  eapply returns_bind; [apply (Transplant_holds [] hd t C BLACK l j k v r _ H Hs)|].
  intros t1 (H1 & Hj1 & He1 & Hp1).
  pose proof (node_at [] hd t C _ _ _ _ _ _ H) as Hej. rewrite <- He1 in Hej.
  rewrite (read_color _ _ _ _ _ _ _ _ Hej), bind_Ok. cbn [decide].
  eapply returns_bind; [apply (DeleteRebalance_ok [j] hd j t1 C (Node RED Leaf si ks vs Leaf) 0); [|done| |done|by eapply holds_path]|].
  { cbn [shortage short]. rewrite ids_plug in Hj1. cbn in Hj1. split_and!; [|done|done]. intros ->. set_solver. }
  { rewrite ids_plug_perm in Hj1. set_solver. }
  intros t2 (T2 & H2 & [He Hi] & Hc2 & m & Hm).
  assert (j ∉ ids T2) as Hj2 by (by rewrite Hi). apply (short_balanced j T2 m Hj2) in Hm.
  assert (exists e, entriesOf t2 !! j = Some e) as [e Hej2].
  { apply lookup_lt_is_Some. pose proof (holds_header _ _ _ _ H1) as Hh. rewrite <- (holds_header _ _ _ _ H2) in Hh. unfold headerOf in Hh. injection Hh as _ _ _ _ <-.
    by eapply lookup_lt_Some. }
  eapply returns_mono; [apply (RemoveEntry_holds [] hd t2 T2 j e H2 Hj2 Hej2)|]. intros t3 H3. exists T2. split; [done|]. split; [by split; [|exists m]|split].
  - rewrite He, elements_plug. destruct Hs as [[-> <-]|[-> <-]]; cbn [elements app]; by rewrite ?app_nil_r.
  - rewrite ids_plug in Hp1 |- *. cbn [ids] in Hp1 |- *. by rewrite Hp1, Hi.
Qed.

Lemma removeNode_ok t l r : holds [] hd t (plug C (Node c l j k v r)) -> redBlack (plug C (Node c l j k v r)) -> l = Leaf \/ r = Leaf ->
  returns (removeNode t (Z.of_nat j)) (fun t' => exists T', holds [] hd t' T' /\ removed l r T').
Proof.
  intros H Hrb Hlr. destruct l as [|cl ll il kl vl rl].
  - destruct r as [|cr lr ir kr vr rr]; [by apply removeLeaf_ok|]. eapply removeInner_ok; [done|done|by left|done].
  - destruct Hlr as [| ->]; [done|]. eapply removeInner_ok; [done|done|by right|done].
Qed.
End RemoveNode.

Lemma CopyData_ok hd t C c l j k v r src ks vs e : holds [] hd t (plug C (Node c l j k v r)) -> src <> j ->
  entriesOf t !! src = Some e -> entryKey e = ks -> entryValue e = vs -> (shared = true -> vs = ks) ->
  returns (CopyData shared t (Z.of_nat j) (Z.of_nat src)) (fun t' => holds [] hd t' (plug C (Node c l j ks vs r))).
Proof.
  intros H Hne He Hk Hv Hshared. unfold CopyData, GetKey, GetValue, SetKey, SetValue. rewrite negative_id, (entryAt_eq _ _ _ He), !bind_Ok.
  pose proof (node_at [] hd t C _ _ _ _ _ _ H) as Hj. destruct (Z.eqb_spec (Z.of_nat src) (-1)); [lia|].
  rewrite (update_eq _ _ _ _ Hj), bind_Ok.
  pose proof (write_at [] hd t C c l j k v r (keyed shared ks) c ks (if shared then ks else v) H ltac:(done)) as H1.
  rewrite (update_eq _ _ _ _ Hj) in H1. cbn [returns] in H1.
  erewrite entryAt_eq by (cbn [withEntries entriesOf]; rewrite list_lookup_insert_ne by congruence; exact He). rewrite bind_Ok, Hk.
  eapply returns_mono; [eapply (write_at _ _ _ C); [exact H1|reflexivity]|]. intros t' H'. cbn [entryKey] in H'. rewrite Hv in H'.
  destruct shared; [|exact H']. by rewrite (Hshared eq_refl) in *.
Qed.

Definition afterRemoval (hd : Header) : Header := let '(n, d, cap, cmp, len) := hd in (u32 (n - 1), d + 1, cap, cmp, len).

(** [Remove] takes one element out; one entry becomes free. *)
Lemma Remove_ok hd t C c l j k v r : let T := plug C (Node c l j k v r) in
  holds [] hd t T -> redBlack T -> consistent T ->
  returns (Remove shared t (Z.of_nat j)) (fun t' => exists T' i, holds [] (afterRemoval hd) t' T' /\ redBlack T' /\
    elements T' = elementsBefore C ++ elements l ++ elements r ++ elementsAfter C /\ ids T ≡ₚ i :: ids T').
Proof.
  intros T H Hrb Hcons.
  assert (forall t1 C1 c1 l1 i k1 v1 r1, holds [] hd t1 (plug C1 (Node c1 l1 i k1 v1 r1)) -> redBlack (plug C1 (Node c1 l1 i k1 v1 r1)) ->
    l1 = Leaf \/ r1 = Leaf -> elementsBefore C1 ++ elements l1 ++ elements r1 ++ elementsAfter C1 = elementsBefore C ++ elements l ++ elements r ++ elementsAfter C ->
    ids (plug C1 (Node c1 l1 i k1 v1 r1)) = ids T ->
    returns (t ← removeNode t1 (Z.of_nat i); Ok (removedOne t)) (fun t' => exists T' i, holds [] (afterRemoval hd) t' T' /\ redBlack T' /\
    elements T' = elementsBefore C ++ elements l ++ elements r ++ elementsAfter C /\ ids T ≡ₚ i :: ids T')) as Hend.
  { intros t1 C1 c1 l1 i k1 v1 r1 H1 Hrb1 Hlr He Hi. eapply returns_bind; [by apply (removeNode_ok hd C1 c1 i k1 v1 t1 l1 r1)|].
    intros t2 (T' & H2 & Hrb2 & He2 & Hp2). exists T', i. rewrite <- Hi, <- He. split_and!; [|done..].
    destruct H2 as [Hh Hroot Hlk Hnd Hrest]. split; try done. rewrite <- Hh. done. }
  rewrite Remove_eq. pose proof (node_at [] hd t C _ _ _ _ _ _ H) as Hj.
  rewrite (read_left _ _ _ _ _ _ _ _ Hj), bind_Ok, (read_right _ _ _ _ _ _ _ _ Hj), bind_Ok.
  destruct (negb (IsHole (link l)) && negb (IsHole (link r))) eqn:Eboth.
  - assert (r <> Leaf) as Hr by (intros ->; by rewrite andb_false_r in Eboth).
    destruct (GetMinimum_ok [] hd t (InRight c l j k v :: C) r Hr H) as (D & c1 & s & ks & vs & r1 & -> & HD & Hmin).
    assert (GetSuccessor t (Z.of_nat j) = Ok (Z.of_nat s)) as ->.
    { unfold GetSuccessor. rewrite (read_rightIndex _ _ _ _ _ _ _ _ Hj), bind_Ok. rewrite Hmin. by destruct (plug D _) as [|? ? ? ? ? ?]; [|cbn [ptr]; rewrite nonnegative_id]. }
    rewrite bind_Ok. pose proof H as H0. unfold T in H0. rewrite plug_right in H0.
    pose proof (node_at [] hd t _ _ _ _ _ _ _ H0) as Hs.
    rewrite bind_assoc. eapply returns_bind; [eapply (CopyData_ok hd t C c l j k v _ s ks vs); [exact H| |exact Hs|done|done|]|].
    + pose proof (holds_nodup _ _ _ _ H) as Hnd. unfold T in Hnd. rewrite ids_plug in Hnd. cbn [ids] in Hnd. rewrite ids_plug in Hnd. cbn [ids] in Hnd.
      intros ->. clear -Hnd. apply NoDup_app in Hnd as (_ & _ & (( _ & _ & [Hn _]%NoDup_cons)%NoDup_app & _)%NoDup_app). set_solver.
    + intros E. specialize (Hcons E). rewrite Forall_forall in Hcons. apply (Hcons (ks, vs)). unfold T. rewrite plug_right, elements_plug. cbn. set_solver.
    + intros t1 H1. rewrite bind_Ok. rewrite plug_right in H1. eapply (Hend t1 (D ++ InRight c l j ks vs :: C)); [exact H1| |by left| |].
      * rewrite <- plug_right. by eapply redBlack_data.
      * rewrite elements_plug, before_app, after_app, !(left_nothing_before _ _ D HD). cbn. by simplify_list_eq.
      * unfold T. rewrite <- plug_right, !ids_plug. cbn [ids]. by rewrite ids_plug.
  - rewrite bind_Ok. eapply (Hend t C c l j k v r); try done. destruct l, r; [by left|by left|by right|done].
Qed.
End Remove.
