(* ===== verification/TreeCopy.v ===== *)
(** * Moving, listing and growing

    What rebuilds or walks a whole tree: [AdjustTaggedTree] copies the nodes breadth first to the
    front of a new array, [GetSortArray] lists the entries in order, [HasValue] looks at every
    value. *)

From Stdlib Require Import ZArith Lia.
From stdpp Require Import sets.
From S2P Require Import Prelude Double Values TaggedTree TreeRep TreeBalance TreeDelete TreeRemove.

(** ** Copies *)

(** The same tree, but for the numbers of the entries. *)
Fixpoint alike (T T' : tree) : Prop :=
  match T, T' with
  | Leaf, Leaf => True
  | Node c l _ k v r, Node c' l' _ k' v' r' => c' = c /\ k' = k /\ v' = v /\ alike l l' /\ alike r r'
  | _, _ => False
  end.

Lemma alike_elements T T' : alike T T' -> elements T' = elements T.
Proof. revert T'. induction T as [|c l IHl i k v r IHr]; intros [|c' l' i' k' v' r']; cbn; [done..|]. intros (-> & -> & -> & Hl & Hr). by rewrite (IHl l'), (IHr r'). Qed.

Lemma alike_color T T' : alike T T' -> rootColor T' = rootColor T.
Proof. destruct T, T'; cbn; [done..|]. by intros (-> & _). Qed.

Lemma alike_balanced T T' n : alike T T' -> balanced T n -> balanced T' n.
Proof.
  revert T' n. induction T as [|c l IHl i k v r IHr]; intros [|c' l' i' k' v' r'] n; cbn; [done..|].
  intros (-> & -> & -> & Hl & Hr). rewrite (alike_color _ _ Hl), (alike_color _ _ Hr).
  destruct c; [destruct n as [|n]; [done|]|]; intuition.
Qed.

Lemma alike_redBlack T T' : alike T T' -> redBlack T -> redBlack T'.
Proof. intros H [Hc [n Hn]]. split; [by rewrite (alike_color _ _ H)|]. exists n. by eapply alike_balanced. Qed.

Lemma alike_leaf T : alike T Leaf -> T = Leaf.
Proof. by destruct T. Qed.

(** An entry whose place in the new tree is known, but nothing else. *)
Definition reserved (p : Z) : Entry := mkEntry Hole Hole BLACK (Int p) Hole Hole.

Notation waiting := (tree * Z)%type (only parsing).
Definition sizes (Q : list waiting) : nat := sum_list_with (fun q => length (ids q.1)) Q.

(** The children of a node, to be hung under [index]. *)
Definition children (s : tree) (index : nat) : list waiting :=
  match s with Leaf => [] | Node _ _ _ _ _ _ => [(s, Z.of_nat index)] end.

Lemma sizes_app Q1 Q2 : sizes (Q1 ++ Q2) = (sizes Q1 + sizes Q2)%nat.
Proof. apply sum_list_with_app. Qed.

Lemma sizes_children s index : sizes (children s index) = length (ids s).
Proof. destruct s; [done|]. cbn. lia. Qed.

(** The new array before a round: the first [index] entries are done, the next ones wait. *)
Record copying (new : TaggedTree) (index : nat) (Q : list waiting) : Prop := {
  copying_nodes : Forall (fun q => q.1 <> Leaf) Q;
  copying_reserved : forall m q, Q !! m = Some q -> entriesOf new !! (index + m)%nat = Some (reserved q.2);
  copying_free : forall m, (index + length Q <= m < length (entriesOf new))%nat -> entriesOf new !! m = Some emptyEntry }.

(** The new array after the loop. *)
Definition copied (new new' : TaggedTree) (index : nat) (Q : list waiting) (Ts : list tree) : Prop :=
  headerOf new' = headerOf new /\ GetRootEntries new' = GetRootEntries new /\
  (forall m, (m < index)%nat -> entriesOf new' !! m = entriesOf new !! m) /\
  (forall m, (index + sizes Q <= m < length (entriesOf new))%nat -> entriesOf new' !! m = Some emptyEntry) /\
  Forall2 (fun q s' => alike q.1 s' /\ linked (entriesOf new') q.2 s') Q Ts /\
  (forall m s', Ts !! m = Some s' -> ptr s' = Z.of_nat (index + m)) /\
  concat (ids <$> Ts) ≡ₚ seq index (sizes Q).

Lemma length_sizes Q : Forall (fun q : waiting => q.1 <> Leaf) Q -> (length Q <= sizes Q)%nat.
Proof.
  unfold sizes. induction 1 as [|[[|c l i k v r] p] Q Hq HQ IH]; cbn; [lia|done|]. rewrite length_app. cbn. lia.
Qed.

(** What a write leaves as it was. *)
Definition keeps (new new' : TaggedTree) (index : nat) : Prop :=
  headerOf new' = headerOf new /\ GetRootEntries new' = GetRootEntries new /\ forall m, (m < index)%nat -> entriesOf new' !! m = entriesOf new !! m.

Lemma keeps_length new new' index : keeps new new' index -> length (entriesOf new') = length (entriesOf new).
Proof. intros (H & _). by injection H. Qed.

Lemma keeps_refl new index : keeps new new index.
Proof. by split_and!. Qed.

Lemma keeps_trans new1 new2 new3 index index' : keeps new1 new2 index -> keeps new2 new3 index' -> (index <= index')%nat -> keeps new1 new3 index.
Proof. intros (H1 & H2 & H3) (H4 & H5 & H6) Hle. split_and!; [congruence..|]. intros m Hm. rewrite H6 by lia. by apply H3. Qed.

Lemma keeps_write new index m e : (index <= m)%nat -> keeps new (withEntries new (<[m := e]> (entriesOf new))) index.
Proof.
  intros Hm. split_and!; [|done|]; cbn [withEntries entriesOf].
  - unfold headerOf. cbn [withEntries NumberOfElements NumberOfDeletedElements Capacity GetCompare entriesOf]. by rewrite length_insert.
  - intros m' Hm'. apply list_lookup_insert_ne. lia.
Qed.

(** The link to a child that is put at the entry [child]. *)
Definition newLink (s : tree) (child : nat) : JSTaggedValue := match s with Leaf => Hole | _ => Int (Z.of_nat child) end.

(** Half a round: one child joins the queue. *)
Definition hang (hung : JSTaggedValue -> Entry -> Entry) (left : JSTaggedValue) (newTree : TaggedTree) (index child : Z) : result (list Z * TaggedTree * Z) :=
  match left with
  | Hole => Ok ([], newTree, child)
  | _ => l ← linkInt left;
         newTree ← updateEntry newTree index (hung (Int child));
         newTree ← SetParent newTree child (Int index);
         Ok ([l], newTree, child + 1)
  end.

Lemma hang_ok hung s new index Q e : copying new (S index) Q -> entriesOf new !! index = Some e ->
  (S index + length Q + length (ids s) <= length (entriesOf new))%nat -> (s = Leaf -> hung Hole e = e) ->
  returns (hang hung (link s) new (Z.of_nat index) (Z.of_nat (S index + length Q))) (fun '(pushed, new', child) =>
    pushed = ptr ∘ fst <$> children s index /\ child = Z.of_nat (S index + length (Q ++ children s index)) /\
    copying new' (S index) (Q ++ children s index) /\ entriesOf new' !! index = Some (hung (newLink s (S index + length Q)) e) /\ keeps new new' index).
Proof.
  intros [Hn Hr Hf] He Hroom Hhole. destruct s as [|c l i k v r]; cbn [link hang].
  - cbn [returns children fmap list_fmap newLink]. rewrite app_nil_r, Hhole by done. split_and!; [done|done|by split|done|apply keeps_refl].
  - cbn [linkInt]. rewrite bind_Ok, (update_eq _ _ _ _ He), bind_Ok. unfold SetParent. rewrite negative_id.
    cbn [ids] in Hroom. rewrite length_app in Hroom. cbn [length] in Hroom.
    assert (entriesOf new !! (S index + length Q)%nat = Some emptyEntry) as Hc by (apply Hf; lia).
    erewrite (update_eq _ (S index + length Q)) by (cbn [withEntries entriesOf]; rewrite list_lookup_insert_ne by lia; exact Hc).
    cbn [returns children fmap list_fmap newLink withEntries entriesOf]. rewrite bind_Ok. cbn [returns]. rewrite length_app. cbn [length].
    split_and!; [done|lia| | |].
    + split; cbn [withEntries entriesOf].
      * apply Forall_app. split; [done|]. by repeat constructor.
      * intros m q Hm. apply lookup_app_Some in Hm as [Hm|[Hm1 Hm2]].
        -- apply lookup_lt_Some in Hm as Hlt. rewrite !list_lookup_insert_ne by lia. by apply Hr.
        -- apply list_lookup_singleton_Some in Hm2 as [Hm2 <-]. replace (S index + m)%nat with (S index + length Q)%nat by lia.
           rewrite list_lookup_insert_eq; [done|]. rewrite length_insert. lia.
      * intros m Hm. rewrite !length_insert, length_app in Hm. cbn [length] in Hm. rewrite !list_lookup_insert_ne by lia. apply Hf. lia.
    + cbn [withEntries entriesOf]. rewrite list_lookup_insert_ne by lia. apply list_lookup_insert_eq. by eapply lookup_lt_Some.
    + eapply keeps_trans; [exact (keeps_write new index index (hung (Int (Z.of_nat (S index + length Q))) e) (le_n _))|apply (keeps_write (withEntries new _) index); lia|lia].
Qed.

Lemma CopyEntry_ok shared es parent k v c p l r t new index e : entriesOf t = es -> (shared = true -> v = k) ->
  es !! parent = Some (mkEntry k v c p l r) -> entriesOf new !! index = Some e ->
  CopyEntry shared t (Z.of_nat parent) new (Z.of_nat index) =
    Ok (withEntries new (<[index := mkEntry k v c (entryParent e) (entryLeft e) (entryRight e)]> (entriesOf new))).
Proof.
  intros <- Hs Hp He. unfold CopyEntry, GetKey, GetColor, GetValue, SetKey, SetColor, SetValue. rewrite negative_id, nonnegative_id, (entryAt_eq _ _ _ Hp), !bind_Ok.
  destruct (Z.eqb_spec (Z.of_nat parent) (-1)); [lia|].
  rewrite (update_eq _ _ _ _ He), !bind_Ok. erewrite update_eq by look. rewrite !bind_Ok. erewrite update_eq by look.
  cbn [withEntries entriesOf valued colored keyed entryKey entryValue entryColor entryParent entryLeft entryRight]. rewrite !list_insert_insert_eq.
  do 4 f_equal. destruct shared; [by rewrite Hs|done].
Qed.

Section Copy.
  Variables (shared : bool) (t : TaggedTree).

Lemma copyLoop_round fuel parent rest new index child :
  copyLoop shared (S fuel) t (parent :: rest) new index child =
  (left ← GetLeftChild t parent;
   '(pushedLeft, new, child) ← hang lefted left new index child;
   right ← GetRightChild t parent;
   '(pushedRight, new, child) ← hang righted right new index child;
   new ← CopyEntry shared t parent new index;
   copyLoop shared fuel t (rest ++ pushedLeft ++ pushedRight) new (index + 1) child).
Proof. reflexivity. Qed.

(** What is known of the trees that wait. *)
Definition source (q : waiting) : Prop := (exists p, linked (entriesOf t) p q.1) /\ consistent shared q.1.

Lemma source_children c l i k v r p index : source (Node c l i k v r, p) -> Forall source (children l index ++ children r index).
Proof.
  intros [[p0 (_ & Hl & Hr)] Hc]. unfold consistent in *. cbn [fst elements] in Hc.
  apply Forall_app. split; [destruct l|destruct r]; cbn [children]; repeat constructor; cbn [fst]; eauto; intros E;
    specialize (Hc E); apply Forall_app in Hc as [Hc1 Hc2]; apply Forall_cons in Hc2 as [_ Hc2]; done.
Qed.

(** One round: the node at the head of the queue is copied to the entry [index]. *)
Lemma copyRound_ok fuel new index c l i k v r p Q (P : TaggedTree -> Prop) :
  source (Node c l i k v r, p) -> copying new index ((Node c l i k v r, p) :: Q) ->
  (index + sizes ((Node c l i k v r, p) :: Q) <= length (entriesOf new))%nat ->
  (forall new', let Q' := Q ++ children l index ++ children r index in
     copying new' (S index) Q' -> keeps new new' index ->
     entriesOf new' !! index = Some (mkEntry k v c (Int p) (newLink l (S index + length Q)) (newLink r (S index + length (Q ++ children l index)))) ->
     returns (copyLoop shared fuel t (ptr ∘ fst <$> Q') new' (Z.of_nat (S index)) (Z.of_nat (S index + length Q'))) P) ->
  returns (copyLoop shared (S fuel) t (ptr ∘ fst <$> (Node c l i k v r, p) :: Q) new (Z.of_nat index) (Z.of_nat (index + S (length Q)))) P.
Proof.
  intros [[p0 (Hi & Hl & Hr)] Hcons] [Hn Hres Hf] Hroom Hnext. cbn [fst] in *. rewrite fmap_cons. cbn [compose fst ptr]. rewrite copyLoop_round.
  rewrite (GetLeftChild_eq _ _ _ Hi), bind_Ok. cbn [entryLeft entryRight].
  apply Forall_cons in Hn as [_ Hn]. pose proof (length_sizes Q Hn) as Hlen. unfold sizes in Hroom. cbn [sum_list_with fst] in Hroom. fold (sizes Q) in Hroom.
  cbn [ids] in Hroom. rewrite length_app in Hroom. cbn [length] in Hroom.
  assert (copying new (S index) Q) as Hc.
  { split; [done| |].
    - intros m q Hm. replace (S index + m)%nat with (index + S m)%nat by lia. by apply Hres.
    - intros m Hm. apply Hf. cbn [length]. lia. }
  assert (entriesOf new !! index = Some (reserved p)) as He by (rewrite <- (Nat.add_0_r index); exact (Hres 0%nat (Node c l i k v r, p) eq_refl)).
  replace (index + S (length Q))%nat with (S index + length Q)%nat by lia.
  eapply returns_bind; [apply (hang_ok lefted l new index Q _ Hc He); [lia|by intros ->]|].
  intros [[pl new1] child1] (-> & -> & Hc1 & He1 & Hk1).
  rewrite (GetRightChild_eq _ _ _ Hi), bind_Ok. cbn [entryLeft entryRight].
  assert (length (Q ++ children l index) <= length Q + length (ids l))%nat as Hlc.
  { rewrite length_app. destruct l; cbn [children length ids]; [lia|]. rewrite length_app. cbn. lia. }
  eapply returns_bind; [apply (hang_ok righted r new1 index _ _ Hc1 He1); [rewrite (keeps_length _ _ _ Hk1); lia|by intros ->]|].
  intros [[pr new2] child2] (-> & -> & Hc2 & He2 & Hk2).
  rewrite (CopyEntry_ok shared _ _ k v c _ _ _ _ new2 index _ eq_refl) with (2 := Hi) (3 := He2), bind_Ok.
  2: { intros E. specialize (Hcons E). rewrite Forall_forall in Hcons. apply (Hcons (k, v)). cbn. set_solver. }
  replace (Z.of_nat index + 1) with (Z.of_nat (S index)) by lia. rewrite <- !fmap_app, <- app_assoc.
  apply Hnext.
  - destruct Hc2 as [Hn2 Hr2 Hf2]. rewrite <- app_assoc in *. split; cbn [withEntries entriesOf]; [done| |].
    + intros m q Hm. rewrite list_lookup_insert_ne by lia. by apply Hr2.
    + rewrite length_insert. intros m Hm. rewrite list_lookup_insert_ne by lia. by apply Hf2.
  - eapply keeps_trans; [exact Hk1| |done]. eapply keeps_trans; [exact Hk2|by apply keeps_write|done].
  - cbn [withEntries entriesOf]. rewrite list_lookup_insert_eq by (by eapply lookup_lt_Some). done.
Qed.

(** The copy of a child, from the copies of the trees that waited. *)
Lemma childCopy es s index Ts n : Forall2 (fun q s' => alike q.1 s' /\ linked es q.2 s') (children s index) Ts ->
  (forall s', Ts !! 0%nat = Some s' -> ptr s' = Z.of_nat n) ->
  exists s', alike s s' /\ linked es (Z.of_nat index) s' /\ concat (ids <$> Ts) = ids s' /\ link s' = newLink s n /\ length Ts = length (children s index).
Proof.
  intros HF Hp. pose proof (Forall2_length _ _ _ HF) as Hlen. destruct s as [|c l i k v r]; cbn [children] in *.
  - apply Forall2_nil_inv_l in HF as ->. by exists Leaf.
  - apply Forall2_cons_inv_l in HF as (s' & Ts' & [Ha Hl] & HF & ->). apply Forall2_nil_inv_l in HF as ->. exists s'. cbn [fst snd] in *.
    split_and!; [done|done|by cbn; rewrite app_nil_r| |done]. specialize (Hp s' eq_refl). destruct s' as [|c' l' i' k' v' r']; [done|]. cbn in Hp |- *. by rewrite Hp.
Qed.

Lemma copyLoop_ok fuel Q new index : Forall source Q -> copying new index Q ->
  (index + sizes Q <= length (entriesOf new))%nat -> (sizes Q <= fuel)%nat ->
  returns (copyLoop shared fuel t (ptr ∘ fst <$> Q) new (Z.of_nat index) (Z.of_nat (index + length Q))) (fun new' => exists Ts, copied new new' index Q Ts).
Proof.
  revert Q new index. induction fuel as [|fuel IH]; intros Q new index Hsrc Hc Hroom Hfuel; pose proof (length_sizes Q (copying_nodes _ _ _ Hc)) as Hlen;
    (destruct Q as [|[[|c l i k v r] p] Q];
     [exists []; split_and!; [done|done|done| |constructor|done|done]; intros m Hm; apply (copying_free _ _ _ Hc); cbn in Hm |- *; lia
     |by destruct (Forall_inv (copying_nodes _ _ _ Hc))|]); [cbn [length] in Hlen; lia|].
  apply copyRound_ok; [by apply Forall_cons in Hsrc as [? _]|done|done|]. intros new1 Q' Hc1 Hk1 He1.
  assert (sizes ((Node c l i k v r, p) :: Q) = S (sizes Q')) as Hsz.
  { unfold Q'. rewrite !sizes_app, !sizes_children. unfold sizes. cbn [sum_list_with fst ids]. rewrite length_app. cbn [length]. lia. }
  rewrite Hsz in *. pose proof (keeps_length _ _ _ Hk1) as Hl1.
  eapply returns_mono; [apply (IH Q' new1 (S index)); [|done|lia|lia]|].
  { apply Forall_cons in Hsrc as [Hs HQ]. unfold Q'. apply Forall_app. split; [done|]. by eapply source_children. }
  intros new' (Ts & Hh & Hroot & Hbelow & Hfree & HF & Hptr & Hids). destruct Hk1 as (Hh1 & Hroot1 & Hbelow1).
  unfold Q' in HF. apply Forall2_app_inv_l in HF as (TQ & Ts' & HQ & HF & ->). apply Forall2_app_inv_l in HF as (Tl & Tr & HFl & HFr & ->).
  pose proof (Forall2_length _ _ _ HQ) as HlQ.
  destruct (childCopy _ l index Tl (S index + length Q) HFl) as (l' & Hal & Hll & Hil & Hkl & Hnl).
  { intros s' Hs'. apply (Hptr (length Q)). rewrite lookup_app_r by lia. rewrite lookup_app_l by (apply lookup_lt_Some in Hs'; lia). by replace (length Q - length TQ)%nat with 0%nat by lia. }
  destruct (childCopy _ r index Tr (S index + length (Q ++ children l index)) HFr) as (r' & Har & Hlr & Hir & Hkr & Hnr).
  { intros s' Hs'. apply (Hptr (length (Q ++ children l index))). rewrite length_app. rewrite !lookup_app_r by lia.
    by replace (length Q + length (children l index) - length TQ - length Tl)%nat with 0%nat by lia. }
  exists (Node c l' index k v r' :: TQ). split_and!.
  - by rewrite Hh.
  - by rewrite Hroot.
  - intros m Hm. rewrite Hbelow by lia. by apply Hbelow1.
  - intros m Hm. rewrite Hsz in Hm. apply Hfree. lia.
  - constructor; [|done]. cbn [fst snd alike linked]. rewrite Hbelow by lia. rewrite He1, Hkl, Hkr. split_and!; done.
  - intros [|m] s' Hs'; [injection Hs' as <-; cbn [ptr]; lia|]. cbn in Hs'. rewrite (Hptr m s') by (by apply lookup_app_l_Some). lia.
  - rewrite Hsz. cbn [seq]. rewrite <- Hids. rewrite !fmap_app, !concat_app, Hil, Hir. cbn [fmap list_fmap concat ids]. solve_Permutation.
Qed.
End Copy.

(** ** Other arrays *)

(** The nodes move to the front of a new array. *)
Lemma rebuild_ok shared hd t T len : holds [] hd t T -> T <> Leaf -> consistent shared T -> NumberOfDeletedElements t <> 0 -> (length (ids T) <= len)%nat ->
  returns (AdjustTaggedTree shared t (Z.of_nat len)) (fun t' => exists T',
    holds [] (NumberOfElements t, 0, 0, Hole, len) t' T' /\ alike T T' /\ ids T' ≡ₚ seq 0 (length (ids T))).
Proof.
  intros H HT Hcons HD Hlen. unfold AdjustTaggedTree. destruct (Z.eqb_spec (NumberOfDeletedElements t) 0); [done|]. rewrite Nat2Z.id.
  set (new := mkTree _ _ _ _ _ _). assert (0 < length (ids T))%nat as Hpos by (destruct T; [done|]; cbn; rewrite length_app; cbn; lia).
  unfold SetParent. cbn [Z.ltb Z.compare]. rewrite (update_eq new 0 emptyEntry) by (unfold new; cbn; apply lookup_replicate_2; lia). rewrite bind_Ok.
  set (new1 := withEntries _ _).
  assert (length (entriesOf new1) = len) as Hl1 by (unfold new1, new; cbn; by rewrite length_insert, length_replicate).
  rewrite (holds_root _ _ _ _ H). eapply returns_mono; [apply (copyLoop_ok shared t _ [(T, -1)] new1 0)|].
  - repeat constructor; [|done]. exists (-1). apply (holds_linked _ _ _ _ H).
  - split; [by repeat constructor| |].
    + intros [|m] q Hq; [|done]. injection Hq as <-. unfold new1, new. cbn. rewrite list_lookup_insert_eq; [done|]. rewrite length_replicate. lia.
    + intros m [Hm1 Hm2]. cbn in Hm1. rewrite Hl1 in Hm2. unfold new1, new. cbn. rewrite list_lookup_insert_ne by lia. by apply lookup_replicate_2.
  - rewrite Hl1. unfold sizes. cbn. lia.
  - pose proof (holds_size _ _ _ _ H). unfold sizes, entryFuel. cbn. lia.
  - intros new' (Ts & Hh & Hroot & _ & Hfree & HF & Hptr & Hids). apply Forall2_cons_inv_l in HF as (T' & Ts' & [Ha Hl] & HF & ->). apply Forall2_nil_inv_l in HF as ->.
    cbn [fmap list_fmap concat fst snd] in *. rewrite app_nil_r in Hids. unfold sizes in Hids, Hfree. cbn [sum_list_with fst] in *. rewrite Nat.add_0_r in *.
    exists T'. split_and!; [|done|done]. split; [| |done|by rewrite Hids; apply NoDup_seq|].
    + rewrite Hh. unfold headerOf. rewrite Hl1. done.
    + rewrite Hroot. by rewrite (Hptr 0%nat T' eq_refl).
    + intros m e He Hm _. rewrite Hfree in He; [by injection He as <-|]. apply lookup_lt_Some in He.
      assert (length (entriesOf new') = length (entriesOf new1)) as El by (by injection Hh). rewrite Hids, elem_of_seq in Hm. lia.
Qed.

(** The array gets longer. *)
Lemma extend_ok shared hd t T len : holds [] hd t T -> NumberOfDeletedElements t = 0 -> (length (entriesOf t) <= len)%nat ->
  returns (AdjustTaggedTree shared t (Z.of_nat len)) (fun t' => holds [] (NumberOfElements t, 0, Capacity t, GetCompare t, len) t' T).
Proof.
  intros [Hh Hroot Hlk Hnd Hrest] HD Hlen. unfold AdjustTaggedTree. rewrite HD. cbn [Z.eqb].
  destruct (Z.ltb_spec (Z.of_nat len) (Z.of_nat (length (entriesOf t)))); [lia|]. rewrite Nat2Z.id. cbn [returns]. split; cbn [withEntries entriesOf GetRootEntries]; [|done| |done|].
  - unfold headerOf. cbn. rewrite HD, length_app, length_replicate. repeat f_equal. lia.
  - eapply linked_ext; [|exact Hlk]. intros j Hj. apply lookup_app_l.
    destruct (ids_split T j Hj) as (C & c & l & k & v & r & ->). apply linked_plug in Hlk as [_ [Hi _]]. by eapply lookup_lt_Some.
  - intros j e He Hj HX. apply lookup_app_Some in He as [He|[_ He]]; [by apply (Hrest j)|]. apply lookup_replicate in He as [-> _]. done.
Qed.

(** ** Listing *)

Section Listing.
  Variable t : TaggedTree.
Notation es := (entriesOf t).

(** The entries on the stack, each with its right subtree, and what comes out of them. *)
Definition pending : Type := list (nat * tree).
Definition listed (stack : pending) : list nat := flat_map (fun '(i, r) => i :: ids r) stack.

Definition stacked (e : nat * tree) : Prop :=
  exists k v c p l, es !! e.1 = Some (mkEntry k v c p l (link e.2)) /\ linked es (Z.of_nat e.1) e.2.

Fixpoint spine (s : tree) (stack : pending) : pending := match s with Leaf => stack | Node _ l i _ _ r => spine l ((i, r) :: stack) end.

Lemma listed_spine s stack : listed (spine s stack) = ids s ++ listed stack.
Proof. revert stack. induction s as [|c l IHl i k v r IHr]; intros stack; cbn [spine ids]; [done|]. rewrite IHl. cbn. by rewrite <- app_assoc. Qed.

Lemma pushLeft_ok fuel s p stack : linked es p s -> (length (ids s) <= fuel)%nat -> Forall stacked stack ->
  pushLeft fuel t (ptr s) (Z.of_nat ∘ fst <$> stack) = Ok (Z.of_nat ∘ fst <$> spine s stack) /\ Forall stacked (spine s stack).
Proof.
  revert s p stack. induction fuel as [|fuel IH]; intros s p stack Hs Hf Hst; (destruct s as [|c l i k v r]; [done|]); cbn [ids] in Hf; rewrite length_app in Hf;
    cbn [length] in Hf; [lia|]. destruct Hs as (Hi & Hl & Hr). cbn [ptr pushLeft spine]. rewrite nonnegative_id, (read_leftIndex _ _ _ _ _ _ _ _ Hi), bind_Ok.
  change (Z.of_nat i :: (Z.of_nat ∘ fst <$> stack)) with (Z.of_nat ∘ fst <$> (i, r) :: stack). apply (IH l (Z.of_nat i)); [done|lia|]. constructor; [|done]. by repeat eexists.
Qed.

Lemma sortLoop_ok fuel s p stack out aid : linked es p s -> Forall stacked stack ->
  (length (ids s ++ listed stack) <= fuel)%nat -> (length (ids s ++ listed stack) <= length es)%nat ->
  length out = (aid + length (ids s ++ listed stack))%nat ->
  sortLoop fuel t (ptr s) (Z.of_nat ∘ fst <$> stack) out aid = Ok (take aid out ++ (Int ∘ Z.of_nat <$> ids s ++ listed stack)).
Proof.
  revert s p stack out aid. induction fuel as [|fuel IH]; intros s p stack out aid Hs Hst Hf Hsz Hlen.
  - assert (s = Leaf /\ stack = []) as [-> ->].
    { rewrite length_app in Hf. destruct s; [|cbn in Hf; rewrite length_app in Hf; cbn in Hf; lia]. split; [done|]. by destruct stack as [|[]]; [|cbn in Hf; lia]. }
    cbn in *. rewrite app_nil_r, take_ge by lia. done.
  - cbn [sortLoop]. destruct (decide (ids s ++ listed stack = [])) as [E|E].
    { apply app_nil in E as [E1 E2]. destruct s; [|by apply app_nil in E1 as [_ ?]]. destruct stack as [|[] ?]; [|done].
      cbn in *. rewrite app_nil_r, take_ge by lia. done. }
    destruct ((0 <=? ptr s) || negb _) eqn:Ec; cycle 1.
    { exfalso. destruct s; cbn [ptr] in Ec; [|by rewrite nonnegative_id in Ec]. by destruct stack. }
    destruct (pushLeft_ok (entryFuel t) s p stack Hs ltac:(rewrite length_app in Hsz; unfold entryFuel; lia) Hst) as [-> Hst2]. rewrite bind_Ok.
    rewrite <- listed_spine in *. destruct (spine s stack) as [|[i r] stack2]; [done|].
    rewrite fmap_cons. cbn [compose fst]. cbn [listed flat_map] in *. fold (listed stack2) in *. cbn [app length] in *.
    apply Forall_cons in Hst2 as [(k & v & c & p' & l & Hi & Hr) Hst2].
    cbn [fst snd] in Hi, Hr. unfold set. rewrite decide_True by lia. rewrite bind_Ok. unfold GetRightChildIndex. rewrite (GetRightChild_eq _ _ _ Hi), bind_Ok. cbn [entryRight].
    rewrite childIndex_link, bind_Ok. rewrite (IH r (Z.of_nat i)); [|done|done|lia|lia|rewrite length_insert; lia].
    f_equal. rewrite fmap_cons. cbn [compose]. rewrite (take_S_r _ _ (Int (Z.of_nat i))) by (apply list_lookup_insert_eq; lia).
      rewrite take_insert_ge by lia. by rewrite <- app_assoc.
Qed.

Lemma GetSortArray_ok X hd T : holds X hd t T -> NumberOfElements t = Z.of_nat (length (ids T)) ->
  GetSortArray t = Ok (Int ∘ Z.of_nat <$> ids T).
Proof.
  intros H HN. unfold GetSortArray. rewrite (holds_root _ _ _ _ H), HN, Nat2Z.id. pose proof (holds_size _ _ _ _ H) as Hsz.
  rewrite (sortLoop_ok _ T (-1) []); cbn [listed flat_map]; rewrite ?app_nil_r; try done.
  - apply (holds_linked _ _ _ _ H).
  - unfold entryFuel. lia.
  - by rewrite length_replicate.
Qed.

(** *** Looking at every value *)

Definition hasValue (value : JSTaggedValue) (s : tree) : bool := existsb (fun e => SameValue e.2 value) (elements s).

Lemma hasValueLoop_ok fuel (Q : list tree) value : Forall (fun s => s <> Leaf /\ exists p, linked es p s) Q -> (length (concat (ids <$> Q)) <= fuel)%nat ->
  hasValueLoop fuel t (ptr <$> Q) value = Ok (existsb (hasValue value) Q).
Proof.
  revert Q. induction fuel as [|fuel IH]; intros [|[|c l i k v r] Q] HQ Hf; try done; try (by apply Forall_cons in HQ as [[? _] _]); cbn [fmap list_fmap concat ids] in Hf;
    rewrite !length_app in Hf; cbn [length] in Hf; [lia|].
  apply Forall_cons in HQ as [[_ [p (Hi & Hl & Hr)]] HQ]. cbn [fmap list_fmap ptr hasValueLoop existsb].
  rewrite (read_value _ _ _ _ _ _ _ _ Hi), bind_Ok. unfold hasValue at 1. cbn [elements]. rewrite existsb_app. cbn [existsb snd]. destruct (SameValue v value).
  { rewrite orb_true_r. done. }
  rewrite (read_leftIndex _ _ _ _ _ _ _ _ Hi), bind_Ok, (read_rightIndex _ _ _ _ _ _ _ _ Hi), bind_Ok.
  assert (forall s : tree, (if 0 <=? ptr s then [ptr s] else []) = ptr <$> (match s with Leaf => [] | _ => [s] end)) as Epush.
  { intros [|c' l' i' k' v' r']; [done|]. cbn [ptr]. by rewrite nonnegative_id. }
  rewrite !Epush, <- !fmap_app. rewrite IH.
  - rewrite !existsb_app. f_equal.
    assert (forall s : tree, existsb (hasValue value) (match s with Leaf => [] | _ => [s] end) = hasValue value s) as Eone.
    { intros [|c' l' i' k' v' r']; [done|]. cbn [existsb]. by rewrite orb_false_r. }
    rewrite !Eone. unfold hasValue. cbn [orb]. by destruct (existsb _ (elements l)), (existsb _ (elements r)), (existsb _ Q).
  - apply Forall_app. split; [done|]. apply Forall_app. split; [destruct l|destruct r]; repeat constructor; eauto.
  - rewrite !fmap_app, !concat_app, !length_app. assert (forall s : tree, length (concat (ids <$> match s with Leaf => [] | _ => [s] end)) = length (ids s)) as Elen.
    { intros [|c' l' i' k' v' r']; [done|]. cbn [fmap list_fmap concat]. by rewrite app_nil_r. }
    rewrite !Elen. lia.
Qed.

Lemma HasValue_ok X hd T value : holds X hd t T -> HasValue t value = Ok (hasValue value T).
Proof.
  intros H. unfold HasValue. rewrite (holds_root _ _ _ _ H). destruct T as [|c l i k v r] eqn:ET; [done|]. rewrite <- ET in *.
  assert (ptr T <? 0 = false) as -> by (rewrite ET; apply negative_id). change [ptr T] with (ptr <$> [T]). rewrite hasValueLoop_ok.
  - cbn [existsb]. by rewrite orb_false_r.
  - repeat constructor; [by rewrite ET|]. exists (-1). apply (holds_linked _ _ _ _ H).
  - cbn [fmap list_fmap concat]. rewrite app_nil_r. pose proof (holds_size _ _ _ _ H). unfold entryFuel. lia.
Qed.
End Listing.
