(* ===== verification/TreeState.v ===== *)
(** * The state of a tree

    The invariant of the arrays in which trees are kept, and the operations that keep it and do not
    compare keys: creation, growth, shrinking and deletion. *)

From Stdlib Require Import ZArith Lia.
From stdpp Require Import sets.
From S2P Require Import Prelude Double Values TaggedTree TreeRep TreeBalance TreeDelete TreeRemove TreeCopy.

Section State.
  Variable shared : bool.

(** The array [t] stands for the tree [T].  Fresh entries are taken from behind all entries in use,
    also the deleted ones. *)
Record represents (t : TaggedTree) (T : tree) : Prop := {
  rep_holds : holds [] (headerOf t) t T;
  rep_balanced : redBlack T;
  rep_keys : keysPresent T;
  rep_consistent : consistent shared T;
  rep_number : NumberOfElements t = Z.of_nat (length (ids T));
  rep_deleted : 0 <= NumberOfDeletedElements t;
  rep_used : Forall (fun j => Z.of_nat j < NumberOfElements t + NumberOfDeletedElements t) (ids T);
  rep_room : NumberOfElements t + NumberOfDeletedElements t <= Capacity t;
  rep_capacity : Capacity t = Z.of_nat (length (entriesOf t));
  rep_range : MIN_CAPACITY <= Capacity t < 2 ^ 31;
  rep_compare : GetCompare t <> Undefined /\ GetCompare t <> Null }.

Lemma Create_represents n : n < 2 ^ 31 -> represents (Create n) Leaf.
Proof.
  intros Hn. unfold Create, MIN_CAPACITY in *. set (cap := if 7 <? n then n else 7). assert (7 <= cap < 2 ^ 31) by (unfold cap; destruct (Z.ltb_spec 7 n); lia).
  split; cbn [NumberOfElements NumberOfDeletedElements Capacity GetCompare entriesOf ids length]; try done; try lia.
  - split; try done; [constructor|]. intros j e He _ _. apply lookup_replicate in He as [-> _]. done.
  - split; [done|]. by exists 0%nat.
  - constructor.
  - by constructor.
  - rewrite length_replicate. lia.
Qed.

(** A header that changes, with the same links. *)
Lemma holds_reheader hd t T t' hd' : holds [] hd t T -> GetRootEntries t' = GetRootEntries t -> entriesOf t' = entriesOf t -> headerOf t' = hd' -> holds [] hd' t' T.
Proof. intros [Hh Hroot Hlk Hnd Hrest] Hr He Hh'. split; [done|congruence|by rewrite He|done|by rewrite He]. Qed.

(** A tree that has moved to another array. *)
Lemma represents_moved t T t' T' n d cap0 cmp0 len cap cmp :
  represents t T -> holds [] (n, d, cap0, cmp0, len) t' T' -> alike T T' -> n = NumberOfElements t -> 0 <= d ->
  Forall (fun j => Z.of_nat j < n + d) (ids T') -> n + d <= cap -> cap = Z.of_nat len -> MIN_CAPACITY <= cap < 2 ^ 31 ->
  cmp <> Undefined /\ cmp <> Null ->
  represents (SetCapacity (SetCompare t' cmp) cap) T'.
Proof.
  intros R H Ha -> Hd Hu Hroom Hcap Hrange Hcmp. pose proof (holds_header _ _ _ _ H) as Hh. unfold headerOf in Hh. injection Hh as HN HD Hc Hcm Hlen.
  pose proof (alike_elements _ _ Ha) as Hel.
  split; cbn [SetCapacity SetCompare NumberOfElements NumberOfDeletedElements Capacity GetCompare entriesOf]; rewrite ?HN, ?HD, ?Hlen; try done.
  - by eapply holds_reheader; [exact H|..].
  - eapply alike_redBlack; [done|apply R].
  - unfold keysPresent. rewrite Hel. apply R.
  - unfold consistent. rewrite Hel. apply R.
  - rewrite (rep_number _ _ R). by rewrite <- !length_elements, Hel.
Qed.

Lemma i32_nonneg z : 0 <= z < 2 ^ 31 -> i32 z = z.
Proof. intros Hz. unfold i32. rewrite Z.mod_small by lia. by destruct (Z.ltb_spec z (2 ^ 31)); [|lia]. Qed.

Lemma SetCompare_same t : SetCompare t (GetCompare t) = t.
Proof. by destruct t. Qed.

Lemma ComputeCapacity_eq cap : MIN_CAPACITY <= cap < 2 ^ 30 - 1 -> ComputeCapacity cap = 2 * cap + 1.
Proof.
  unfold ComputeCapacity, MIN_CAPACITY. intros Hc. rewrite Z.shiftl_mul_pow2 by lia. rewrite (u32_small cap) by (unfold is_u32, BASE; lia).
  rewrite (u32_small (_ * _)) by (unfold is_u32, BASE; lia). rewrite u32_small by (unfold is_u32, BASE; lia). rewrite i32_nonneg by lia.
  destruct (Z.ltb_spec 7 (cap * 2 ^ 1 + 1)); lia.
Qed.

(** The number of entries in use. *)
Definition used (t : TaggedTree) : Z := NumberOfElements t + NumberOfDeletedElements t.

Lemma used_range t T : represents t T -> 0 <= used t <= Capacity t.
Proof. intros R. unfold used. pose proof (rep_number _ _ R). pose proof (rep_deleted _ _ R). pose proof (rep_room _ _ R). lia. Qed.

(** Room for one more. *)
Definition growable (t : TaggedTree) : Prop := used t < Capacity t \/ Capacity t < 2 ^ 27.

(** A larger or smaller array, as [GrowCapacity] and [Shrink] make it. *)
Lemma resize_ok t T cap (keep : bool) : represents t T -> T <> Leaf -> NumberOfElements t <= cap -> MIN_CAPACITY <= cap < 2 ^ 31 ->
  (NumberOfDeletedElements t = 0 -> Capacity t <= cap) -> keep = true \/ GetCompare t = Hole ->
  returns (newTree ← AdjustTaggedTree shared t cap;
           let fn := GetCompare t in
           let newTree := if keep then match fn with Undefined | Null => newTree | _ => SetCompare newTree fn end else newTree in
           Ok (SetCapacity newTree cap))
    (fun t' => exists T', represents t' T' /\ alike T T' /\ GetCompare t' = GetCompare t /\ Capacity t' = cap /\ used t' = NumberOfElements t).
Proof.
  intros R HT Hn Hcap Hgrow Hkeep. pose proof (rep_capacity _ _ R) as Hc. pose proof (rep_number _ _ R) as HN. replace cap with (Z.of_nat (Z.to_nat cap)) at 1 by (unfold MIN_CAPACITY in Hcap; lia).
  eapply (returns_bind _ (fun t1 => exists T' cap0 cmp0, holds [] (NumberOfElements t, 0, cap0, cmp0, Z.to_nat cap) t1 T' /\ alike T T' /\
     Forall (fun j => Z.of_nat j < NumberOfElements t) (ids T') /\ (cmp0 = GetCompare t \/ cmp0 = Hole))).
  - destruct (Z.eq_dec (NumberOfDeletedElements t) 0) as [HD|HD].
    + eapply returns_mono; [apply (extend_ok shared _ t T _ (rep_holds _ _ R) HD); lia|]. intros t1 H1. exists T, (Capacity t), (GetCompare t). split_and!; [done| | |by left].
      * clear. induction T; cbn; by auto.
      * pose proof (rep_used _ _ R) as Hu. by rewrite HD, Z.add_0_r in Hu.
    + eapply returns_mono; [apply (rebuild_ok shared _ t T (Z.to_nat cap) (rep_holds _ _ R) HT (rep_consistent _ _ R) HD); lia|].
      intros t1 (T' & H1 & Ha & Hids). exists T', 0, Hole. split_and!; [done|done| |by right].
      rewrite Hids. apply Forall_forall. intros j Hj%elem_of_seq. lia.
  - intros t1 (T' & cap0 & cmp0 & H1 & Ha & Hu & Hcmp). cbn [returns]. pose proof (rep_compare _ _ R) as [Hcu Hcn].
    assert ((if keep then match GetCompare t with Undefined | Null => t1 | _ => SetCompare t1 (GetCompare t) end else t1) = SetCompare t1 (GetCompare t)) as ->.
    { pose proof (holds_header _ _ _ _ H1) as Hh. unfold headerOf in Hh. injection Hh as _ _ _ Hh _. destruct Hkeep as [-> | Ek].
      - by destruct (GetCompare t).
      - rewrite Ek in *. destruct keep; [done|]. rewrite <- (SetCompare_same t1) at 1. rewrite Hh. by destruct Hcmp as [->| ->]. }
    exists T'. split_and!; [|done|done|done|].
    + eapply (represents_moved t T); [done|exact H1|done|done|done|by rewrite Z.add_0_r|lia|lia|done|done].
    + unfold used. cbn. pose proof (holds_header _ _ _ _ H1) as Hh. unfold headerOf in Hh. injection Hh as -> -> _ _ _. lia.
Qed.

Lemma GrowCapacity_ok {W} (env : Env W) t T : represents t T -> T <> Leaf -> growable t -> 20 <= VMAPIVersion env \/ GetCompare t = Hole ->
  returns (GrowCapacity shared env t) (fun t' => exists T', represents t' T' /\ alike T T' /\ GetCompare t' = GetCompare t /\ used t' < Capacity t' /\
    used t' <= used t /\ Capacity t' <= Z.max (Capacity t) (2 * used t + 1)).
Proof.
  intros R HT Hg Hv. unfold GrowCapacity. fold (used t). pose proof (used_range t T R) as Hu. pose proof (rep_range _ _ R) as Hr.
  rewrite (u32_small (used t)), u32_small by (unfold is_u32, BASE; lia). destruct (Z.leb_spec (i32 (used t + 1)) (Capacity t)) as [Hle|Hgt].
  - exists T. split_and!; [done| |done| |lia|lia].
    + clear. induction T; cbn; by auto.
    + destruct (Z.eq_dec (used t) (Capacity t)) as [E|]; [|lia]. destruct Hg as [?|Hg]; [lia|]. rewrite i32_nonneg in Hle; lia.
  - destruct (Z.eq_dec (used t) (Capacity t)) as [E|]; [|exfalso; rewrite i32_nonneg in Hgt; lia].
    destruct Hg as [?|Hg]; [lia|]. rewrite ComputeCapacity_eq by lia. unfold MIN_CAPACITY in *.
    destruct (Z.leb_spec (2 ^ 31) (ELEMENTS_START_INDEX + (2 * Capacity t + 1) * ENTRY_SIZE shared)) as [Hov|_]; [unfold ELEMENTS_START_INDEX, ENTRY_SIZE in Hov; destruct shared; lia|].
    eapply returns_mono; [apply (resize_ok t T (2 * Capacity t + 1) (20 <=? VMAPIVersion env) R HT)|].
    + pose proof (rep_room _ _ R). pose proof (rep_deleted _ _ R). lia.
    + unfold MIN_CAPACITY. lia.
    + lia.
    + destruct Hv as [Hv|Hv]; [left; by apply Z.leb_le|by right].
    + intros t' (T' & R' & Ha & Hc & Hcap & Hu'). exists T'. pose proof (rep_room _ _ R). pose proof (rep_deleted _ _ R). unfold used in *. split_and!; [done|done|done|lia..].
Qed.

Lemma Shrink_ok t T : represents t T -> 0 < NumberOfDeletedElements t -> T <> Leaf \/ Capacity t < 31 ->
  returns (Shrink shared t) (fun t' => exists T', represents t' T' /\ alike T T' /\ GetCompare t' = GetCompare t /\ used t' <= used t /\ Capacity t' <= Capacity t).
Proof.
  intros R HD Hsafe. pose proof (rep_range _ _ R) as Hr. pose proof (rep_room _ _ R) as Hroom. pose proof (rep_number _ _ R) as HN. unfold Shrink, MIN_CAPACITY in *.
  assert (exists T', represents t T' /\ alike T T' /\ GetCompare t = GetCompare t /\ used t <= used t /\ Capacity t <= Capacity t) as Hsame.
  { exists T. split_and!; [done| |done..]. clear. induction T; cbn; by auto. }
  rewrite i32_nonneg by lia. destruct (Z.leb_spec ((Capacity t + 1) / 4) (NumberOfElements t)) as [|Hfew]; [done|].
  rewrite u32_small, Z.shiftr_div_pow2 by (unfold is_u32, BASE; lia). change (2 ^ 1) with 2. unfold MIN_SHRINK_CAPACITY.
  destruct (Z.ltb_spec ((Capacity t - 1) / 2) 15) as [|Hbig]; [done|].
  assert (31 <= Capacity t) as H31. { pose proof (Z.mul_div_le (Capacity t - 1) 2 ltac:(lia)). lia. }
  destruct Hsafe as [HT|]; [|lia].
  assert (NumberOfElements t <= (Capacity t - 1) / 2) as Hfit.
  { pose proof (Z.mul_div_le (Capacity t + 1) 4 ltac:(lia)). apply Z.div_le_lower_bound; lia. }
  eapply returns_mono; [apply (resize_ok t T ((Capacity t - 1) / 2) true R HT Hfit)|].
  - unfold MIN_CAPACITY. split; [lia|]. apply Z.div_lt_upper_bound; lia.
  - lia.
  - by left.
  - intros t' (T' & R' & Ha & Hc & Hcap & Hu). exists T'. split_and!; [done|done|done|unfold used in *; lia|]. rewrite Hcap. apply Z.div_le_upper_bound; lia.
Qed.

Lemma keysPresent_incl T T' : keysPresent T -> (forall e, e ∈ elements T' -> e ∈ elements T) -> keysPresent T'.
Proof. unfold keysPresent. rewrite !Forall_forall. eauto. Qed.

Lemma consistent_incl T T' : consistent shared T -> (forall e, e ∈ elements T' -> e ∈ elements T) -> consistent shared T'.
Proof. unfold consistent. intros H Hi E. specialize (H E). rewrite Forall_forall in *. eauto. Qed.

Lemma Remove_represents t C c l j k v r : represents t (plug C (Node c l j k v r)) ->
  returns (Remove shared t (Z.of_nat j)) (fun t' => exists T', represents t' T' /\ elements T' = elementsBefore C ++ elements l ++ elements r ++ elementsAfter C /\
    GetCompare t' = GetCompare t /\ Capacity t' = Capacity t /\ NumberOfDeletedElements t' = NumberOfDeletedElements t + 1 /\ NumberOfElements t' = NumberOfElements t - 1).
Proof.
  intros R. set (T := plug C _) in *. eapply returns_mono; [apply (Remove_ok shared (headerOf t) t C c l j k v r (rep_holds _ _ R) (rep_balanced _ _ R) (rep_consistent _ _ R))|].
  fold T. intros t1 (T1 & i & H1 & Hrb & Hel & Hids). exists T1. pose proof (holds_header _ _ _ _ H1) as Hh. unfold afterRemoval, headerOf in Hh. injection Hh as HN HD Hcap Hcmp Hlen.
  pose proof (rep_number _ _ R) as HN0. pose proof (rep_room _ _ R). pose proof (rep_deleted _ _ R). pose proof (rep_range _ _ R).
  rewrite Hids in HN0. cbn [length] in HN0. rewrite u32_small in HN by (unfold is_u32, BASE; lia).
  assert (forall e, e ∈ elements T1 -> e ∈ elements T) as Hin. { intros e. rewrite Hel. unfold T. rewrite elements_plug. cbn [elements]. set_solver. }
  split_and!; [|done|done|done|done|done]. split; rewrite ?HN, ?HD, ?Hcap, ?Hcmp, ?Hlen; try done; try lia; try apply R.
  - by eapply holds_reheader; [exact H1|..].
  - eapply keysPresent_incl; [apply R|done].
  - eapply consistent_incl; [apply R|done].
  - pose proof (rep_used _ _ R) as Hu. rewrite Hids in Hu. apply Forall_cons in Hu as [_ Hu]. eapply Forall_impl; [exact Hu|]. intros; cbn in *; lia.
Qed.

(** [Delete]: the element goes and the array may shrink.  The last element of an array of 31 or
    more entries is left out, see [TreeLimits]. *)
Lemma Delete_ok t C c l j k v r : represents t (plug C (Node c l j k v r)) -> NumberOfElements t <> 1 \/ Capacity t < 31 ->
  returns (Delete shared t (Z.of_nat j)) (fun t' => exists T', represents t' T' /\ elements T' = elementsBefore C ++ elements l ++ elements r ++ elementsAfter C /\
    GetCompare t' = GetCompare t /\ used t' <= used t /\ Capacity t' <= Capacity t).
Proof.
  intros R Hsafe. unfold Delete. eapply returns_bind; [by apply (Remove_represents t C c l j k v r)|].
  intros t1 (T1 & R1 & He & Hc & Hcap & HD & HN). pose proof (rep_deleted _ _ R).
  eapply returns_mono; [apply (Shrink_ok t1 T1 R1); [lia|]|].
  - destruct Hsafe as [Hsafe|Hsafe]; [left|right; lia]. intros ->. pose proof (rep_number _ _ R1) as HN1. cbn in HN1. lia.
  - intros t2 (T2 & R2 & Ha & Hc2 & Hu & Hcap2). exists T2. split_and!; [done| |congruence|unfold used in *; lia|lia]. by rewrite (alike_elements _ _ Ha).
Qed.
End State.
