(* ===== verification/TreeSearch.v ===== *)
(** * Searching and inserting

    What a comparison of keys promises to a tree, the sorted lists of entries that a tree stands for,
    and the operations that go down from the root by comparing keys. *)

From Stdlib Require Import ZArith Lia Sorted.
From stdpp Require Import sets sorting.
From S2P Require Import Prelude BigIntBase Double Values SortSpec TaggedTree TreeRep TreeBalance TreeDelete TreeRemove TreeCopy TreeState.

(** ** Sorted entries *)

Definition resultOf (c : comparison) : ComparisonResult := match c with Lt => LESS | Eq => EQUAL | Gt => GREAT end.

(** The comparison [fn] of a tree answers, for keys in [K], by the total preorder [ord]. *)
Class KeyOrder {W} (env : Env W) (fn : JSTaggedValue) (K : JSTaggedValue -> Prop) (ord : JSTaggedValue -> JSTaggedValue -> comparison) : Prop := {
  key_preorder : preorder ord;
  key_present : forall k, K k -> k <> Hole;
  key_answers : forall t w x y, GetCompare t = fn -> K x -> K y -> exists w', EntryCompare env w x y t = Ok (resultOf (ord x y), w') }.

Notation entry := (JSTaggedValue * JSTaggedValue)%type (only parsing).

Lemma present_branch {A} (k : JSTaggedValue) (a b : A) : k <> Hole -> match k with Hole => a | _ => b end = b.
Proof. by destruct k. Qed.

(** The number of nodes on the longest way down. *)
Fixpoint height (T : tree) : nat := match T with Leaf => 0 | Node _ l _ _ _ r => S (max (height l) (height r)) end.

Lemma height_size T : (height T <= length (ids T))%nat.
Proof. induction T as [|c l IHl i k v r IHr]; cbn; [lia|]. rewrite length_app. cbn. lia. Qed.

Section Entries.
  Variable ord : JSTaggedValue -> JSTaggedValue -> comparison.
  Variable shared : bool.

Definition sortedEntries (L : list entry) : Prop := StronglySorted (fun a b => ord a.1 b.1 = Lt) L.

(** The entry with the key, in a sorted list. *)
Definition findEntry (key : JSTaggedValue) (L : list entry) : option entry := find (fun e => same ord key e.1) L.

(** An entry that is there keeps its key in a map and gets the new one in a set. *)
Fixpoint insertEntry (key value : JSTaggedValue) (L : list entry) : list entry :=
  match L with
  | [] => [(key, value)]
  | (k, v) :: L' =>
    match ord key k with
    | Lt => (key, value) :: L
    | Eq => (if shared then value else k, value) :: L'
    | Gt => (k, v) :: insertEntry key value L'
    end
  end.

Definition removeEntry (key : JSTaggedValue) (L : list entry) : list entry := List.filter (fun e => negb (same ord key e.1)) L.

(** The nearest entries below and above the key. *)
Definition lowerEntry (key : JSTaggedValue) (L : list entry) : option entry := last (List.filter (fun e => lessb ord e.1 key) L).
Definition higherEntry (key : JSTaggedValue) (L : list entry) : option entry := find (fun e => lessb ord key e.1) L.

(** The key is above all entries of [B] and below all of [A]. *)
Definition aboveAll (key : JSTaggedValue) (B : list entry) : Prop := Forall (fun e => ord key e.1 = Gt) B.
Definition belowAll (key : JSTaggedValue) (A : list entry) : Prop := Forall (fun e => ord key e.1 = Lt) A.

Lemma insertEntry_new key value B A : aboveAll key B -> belowAll key A -> insertEntry key value (B ++ A) = B ++ (key, value) :: A.
Proof.
  induction 1 as [|[k v] B HB _ IH]; intros HA; cbn [insertEntry app].
  - destruct A as [|[k v] A]; [done|]. apply Forall_cons in HA as [Hk _]. cbn in Hk. cbn [insertEntry]. by rewrite Hk.
  - cbn in HB. rewrite HB, IH by done. done.
Qed.

Lemma insertEntry_old key value B k v A : aboveAll key B -> ord key k = Eq ->
  insertEntry key value (B ++ (k, v) :: A) = B ++ (if shared then value else k, value) :: A.
Proof.
  intros HB Hk. induction HB as [|[k' v'] B HB' _ IH]; cbn [insertEntry app]; [by rewrite Hk|].
  cbn in HB'. by rewrite HB', IH.
Qed.

Lemma filter_all {A} (f : A -> bool) l : Forall (fun x => f x = true) l -> List.filter f l = l.
Proof. induction 1 as [|x l Hx _ IH]; cbn; [done|]. by rewrite Hx, IH. Qed.

Lemma filter_nothing {A} (f : A -> bool) l : Forall (fun x => f x = false) l -> List.filter f l = [].
Proof. induction 1 as [|x l Hx _ IH]; cbn; [done|]. by rewrite Hx, IH. Qed.

Lemma find_skip {A} (f : A -> bool) l l' : Forall (fun x => f x = false) l -> find f (l ++ l') = find f l'.
Proof. induction 1 as [|x l Hx _ IH]; cbn; [done|]. by rewrite Hx. Qed.

Lemma above_not_same key B : aboveAll key B -> Forall (fun e => same ord key e.1 = false) B.
Proof. intros HF. eapply Forall_impl; [exact HF|]. intros e H. unfold same. cbn in H. by rewrite H. Qed.

Lemma below_not_same key A : belowAll key A -> Forall (fun e => same ord key e.1 = false) A.
Proof. intros HF. eapply Forall_impl; [exact HF|]. intros e H. unfold same. cbn in H. by rewrite H. Qed.

Lemma findEntry_new key B A : aboveAll key B -> belowAll key A -> findEntry key (B ++ A) = None.
Proof.
  intros HB%above_not_same HA%below_not_same. unfold findEntry. rewrite find_skip by done. rewrite <- (app_nil_r A). by rewrite find_skip.
Qed.

Lemma findEntry_old key B k v A : aboveAll key B -> ord key k = Eq -> findEntry key (B ++ (k, v) :: A) = Some (k, v).
Proof. intros HB%above_not_same Hk. unfold findEntry. rewrite find_skip by done. cbn. unfold same. by rewrite Hk. Qed.

Lemma removeEntry_old key B k v A : aboveAll key B -> ord key k = Eq -> belowAll key A -> removeEntry key (B ++ (k, v) :: A) = B ++ A.
Proof.
  intros HB%above_not_same Hk HA%below_not_same. unfold removeEntry. rewrite List.filter_app. cbn [List.filter fst]. unfold same at 2. rewrite Hk. cbn [negb].
  rewrite !filter_all; [done|eapply Forall_impl; [exact HA|by intros ? ->]|eapply Forall_impl; [exact HB|by intros ? ->]].
Qed.

Lemma removeEntry_new key B A : aboveAll key B -> belowAll key A -> removeEntry key (B ++ A) = B ++ A.
Proof.
  intros HB%above_not_same HA%below_not_same. apply filter_all. apply Forall_app. split; (eapply Forall_impl; [eassumption|by intros ? ->]).
Qed.

(** ** Orders *)

Section Order.
  Hypothesis Hord : preorder ord.

Lemma ord_flip x y : ord x y = Lt <-> ord y x = Gt.
Proof. rewrite (opposite ord Hord x y). by destruct (ord x y). Qed.

Lemma sorted_around B k v A : sortedEntries (B ++ (k, v) :: A) ->
  Forall (fun e => ord e.1 k = Lt) B /\ Forall (fun e => ord k e.1 = Lt) A /\ sortedEntries B /\ sortedEntries A.
Proof.
  unfold sortedEntries. intros H. apply StronglySorted_app in H as (HBA & HB & HA). apply StronglySorted_inv in HA as [HA HkA].
  split_and!; try done. apply Forall_forall. intros e He. apply (HBA e (k, v)); [done|]. set_solver.
Qed.

Lemma above_before key B k v A : sortedEntries (B ++ (k, v) :: A) -> ord key k <> Lt -> aboveAll key B.
Proof.
  intros (HB & _ & _)%sorted_around Hk. eapply Forall_impl; [exact HB|]. intros e He. cbn in *. apply ord_flip.
  apply (less_leq_trans ord Hord _ k); [done|]. unfold leq. rewrite (opposite ord Hord key k). by destruct (ord key k).
Qed.

Lemma below_after key B k v A : sortedEntries (B ++ (k, v) :: A) -> ord key k <> Gt -> belowAll key A.
Proof.
  intros (_ & HA & _)%sorted_around Hk. eapply Forall_impl; [exact HA|]. intros e He. cbn in *. by apply (leq_less_trans ord Hord _ k).
Qed.

Lemma sorted_insert B key value A : sortedEntries (B ++ A) -> aboveAll key B -> belowAll key A -> sortedEntries (B ++ (key, value) :: A).
Proof.
  unfold sortedEntries. rewrite !StronglySorted_app. intros (HBA & HB & HA) Hb Ha. split_and!; [|done|by constructor].
  intros x y Hx Hy. apply elem_of_cons in Hy as [->|Hy]; [|by apply HBA]. unfold aboveAll in Hb. rewrite Forall_forall in Hb. by apply ord_flip, Hb.
Qed.

Lemma sorted_replace B k v k' v' A : sortedEntries (B ++ (k, v) :: A) -> ord k' k = Eq -> sortedEntries (B ++ (k', v') :: A).
Proof.
  intros H Hk. pose proof (above_before k' B k v A H ltac:(congruence)). pose proof (below_after k' B k v A H ltac:(congruence)).
  apply sorted_insert; [|done|done]. unfold sortedEntries in *. apply StronglySorted_app in H as (HBA & HB & HA). apply StronglySorted_inv in HA as [HA HkA].
  apply StronglySorted_app. split_and!; [|done|done]. intros x y Hx Hy. apply HBA; set_solver.
Qed.

Lemma sorted_without B e A : sortedEntries (B ++ e :: A) -> sortedEntries (B ++ A).
Proof.
  unfold sortedEntries. rewrite !StronglySorted_app. intros (HBA & HB & HA). apply StronglySorted_inv in HA as [HA _]. split_and!; [|done|done].
  intros x y Hx Hy. apply HBA; set_solver.
Qed.
End Order.
End Entries.

(** ** Going down *)

Section Search.
  Context {W : Type} {env : Env W} {fn : JSTaggedValue} {K : JSTaggedValue -> Prop} {ord : JSTaggedValue -> JSTaggedValue -> comparison}.
  Context `{HO : !KeyOrder env fn K ord}.
  Variable shared : bool.

Definition keysIn (T : tree) : Prop := Forall (fun e => K e.1) (elements T).

Lemma keysIn_plug C s : keysIn (plug C s) <-> Forall (fun e => K e.1) (elementsBefore C) /\ keysIn s /\ Forall (fun e => K e.1) (elementsAfter C).
Proof. unfold keysIn. rewrite elements_plug, !Forall_app. done. Qed.

Lemma entries_present (L : list entry) : Forall (fun e => K e.1) L -> Forall (fun e => e.1 <> Hole) L.
Proof. intros H. eapply Forall_impl; [exact H|]. intros e He. exact (key_present e.1 He). Qed.

(** The place that a search for [key] reaches in [T]. *)
Definition reached (T : tree) (key : JSTaggedValue) (res : ComparisonResult) (index : Z) : Prop :=
  exists C c l i k v r, T = plug C (Node c l i k v r) /\ index = Z.of_nat i /\ res = resultOf (ord key k) /\
    aboveAll ord key (elementsBefore C) /\ belowAll ord key (elementsAfter C) /\ (res = LESS -> l = Leaf) /\ (res = GREAT -> r = Leaf).

(** The subtrees of a node on the way. *)
Lemma goLeft C c l i k v r key : sortedEntries ord (elements (plug C (Node c l i k v r))) -> ord key k = Lt -> belowAll ord key (elementsAfter (InLeft c i k v r :: C)).
Proof.
  rewrite elements_plug. cbn [elements after]. rewrite <- app_assoc, app_assoc. cbn [app]. intros HS Hk. constructor; [done|].
  eapply below_after; [apply key_preorder|exact HS|congruence].
Qed.

Lemma goRight C c l i k v r key : sortedEntries ord (elements (plug C (Node c l i k v r))) -> ord key k = Gt -> aboveAll ord key (elementsBefore (InRight c l i k v :: C)).
Proof.
  rewrite elements_plug. cbn [elements before]. rewrite <- app_assoc, app_assoc. cbn [app]. intros HS Hk. rewrite app_assoc. apply Forall_app. split; [|by constructor].
  eapply above_before; [apply key_preorder|exact HS|congruence].
Qed.

Definition rootKey (s : tree) : JSTaggedValue := match s with Leaf => Hole | Node _ _ _ k _ _ => k end.

Lemma descend_ok fuel t new X hd w key C s : GetCompare t = fn -> K key -> holds X hd new (plug C s) -> keysIn (plug C s) ->
  sortedEntries ord (elements (plug C s)) -> aboveAll ord key (elementsBefore C) -> belowAll ord key (elementsAfter C) -> s <> Leaf -> (height s <= S fuel)%nat ->
  returns (descend env fuel t new w key (ptr s) (rootKey s)) (fun '(res, index, _) => reached (plug C s) key res index).
Proof.
  intros Hfn Hkey. revert w C s. induction fuel as [|fuel IH]; intros w C s H HK HS HB HA Hs Hf; (destruct s as [|c l i k v r]; [done|]);
    cbn [ptr rootKey descend height] in *;
    pose proof (proj1 (keysIn_plug C _) HK) as (_ & (_ & [Hk _]%Forall_cons)%Forall_app & _); cbn in Hk;
    pose proof (node_at X hd new C _ _ _ _ _ _ H) as Hi;
    destruct (key_answers t w key k Hfn Hkey Hk) as [w' ->]; rewrite bind_Ok;
    rewrite (read_left _ _ _ _ _ _ _ _ Hi), (read_right _ _ _ _ _ _ _ _ Hi).
  - assert (l = Leaf /\ r = Leaf) as [-> ->] by (destruct l, r; cbn [height] in Hf; try lia; done).
    destruct (ord key k) eqn:Eo; cbn [resultOf]; rewrite ?bind_Ok; cbn [link returns]; exists C, c, Leaf, i, k, v, Leaf; by rewrite Eo.
  - destruct (ord key k) eqn:Eo; cbn [resultOf]; rewrite ?bind_Ok.
    + cbn [returns]. exists C, c, l, i, k, v, r. by rewrite Eo.
    + destruct l as [|cl ll il kl vl rl]; cbn [link linkInt].
      * cbn [returns]. exists C, c, Leaf, i, k, v, r. by rewrite Eo.
      * rewrite bind_Ok. pose proof (node_at X hd new (InLeft c i k v r :: C) _ _ _ _ _ _ H) as Hil. rewrite (read_key _ _ _ _ _ _ _ _ Hil), bind_Ok.
        pose proof (proj1 (keysIn_plug (InLeft c i k v r :: C) (Node cl ll il kl vl rl)) HK) as (_ & (_ & [Hkl _]%Forall_cons)%Forall_app & _). cbn in Hkl.
        pose proof (key_present kl Hkl) as Hne. specialize (IH w' (InLeft c i k v r :: C) (Node cl ll il kl vl rl) H HK HS HB (goLeft C _ _ _ _ _ _ _ HS Eo) ltac:(done) ltac:(lia)).
        cbn [ptr rootKey] in IH. by destruct kl.
    + destruct r as [|cr lr ir kr vr rr]; cbn [link linkInt].
      * cbn [returns]. exists C, c, l, i, k, v, Leaf. by rewrite Eo.
      * rewrite bind_Ok. pose proof (node_at X hd new (InRight c l i k v :: C) _ _ _ _ _ _ H) as Hir. rewrite (read_key _ _ _ _ _ _ _ _ Hir), bind_Ok.
        pose proof (proj1 (keysIn_plug (InRight c l i k v :: C) (Node cr lr ir kr vr rr)) HK) as (_ & (_ & [Hkr _]%Forall_cons)%Forall_app & _). cbn in Hkr.
        pose proof (key_present kr Hkr) as Hne. specialize (IH w' (InRight c l i k v :: C) (Node cr lr ir kr vr rr) H HK HS (goRight C _ _ _ _ _ _ _ HS Eo) HA ltac:(done) ltac:(lia)).
        cbn [ptr rootKey] in IH. by destruct kr.
Qed.

(** A tree whose keys are in the order of its comparison. *)
Record ordered (t : TaggedTree) (T : tree) : Prop := {
  ordered_represents : represents shared t T;
  ordered_compare : GetCompare t = fn;
  ordered_keys : keysIn T;
  ordered_sorted : sortedEntries ord (elements T) }.

(** The array stands for the sorted list of entries [L]. *)
Definition models (t : TaggedTree) (L : list entry) : Prop := exists T, ordered t T /\ elements T = L.

(** The two outcomes of a search. *)
Definition foundAt (T : tree) (key : JSTaggedValue) (C : path) (c : TreeColor) (l : tree) (i : nat) (k v : JSTaggedValue) (r : tree) : Prop :=
  T = plug C (Node c l i k v r) /\ ord key k = Eq /\ aboveAll ord key (elementsBefore C ++ elements l) /\ belowAll ord key (elements r ++ elementsAfter C).

Lemma reached_equal T key index : sortedEntries ord (elements T) -> reached T key EQUAL index -> exists C c l i k v r, foundAt T key C c l i k v r /\ index = Z.of_nat i.
Proof.
  intros HS (C & c & l & i & k & v & r & -> & -> & Hres & HB & HA & _). exists C, c, l, i, k, v, r. split; [|done].
  assert (ord key k = Eq) as Hk by (by destruct (ord key k)). rewrite elements_plug in HS. cbn [elements] in HS. rewrite <- app_assoc, app_assoc in HS. cbn [app] in HS.
  split_and!; [done|done| |].
  - eapply above_before; [apply key_preorder|exact HS|congruence].
  - eapply below_after; [apply key_preorder|exact HS|congruence].
Qed.

Lemma foundAt_find T key C c l i k v r : foundAt T key C c l i k v r -> findEntry ord key (elements T) = Some (k, v).
Proof.
  intros (-> & Hk & HB & HA). rewrite elements_plug. cbn [elements]. rewrite <- app_assoc, app_assoc. cbn [app]. by apply findEntry_old.
Qed.

(** The place of a key that is not there. *)
Lemma reached_left T key index : sortedEntries ord (elements T) -> reached T key LESS index ->
  exists C c i k v r, T = plug C (Node c Leaf i k v r) /\ index = Z.of_nat i /\
    aboveAll ord key (elementsBefore (InLeft c i k v r :: C)) /\ belowAll ord key (elementsAfter (InLeft c i k v r :: C)).
Proof.
  intros HS (C & c & l & i & k & v & r & -> & -> & Hres & HB & HA & Hl & _). rewrite (Hl eq_refl) in *. exists C, c, i, k, v, r. split_and!; [done|done|done|].
  eapply goLeft; [exact HS|]. by destruct (ord key k).
Qed.

Lemma reached_right T key index : sortedEntries ord (elements T) -> reached T key GREAT index ->
  exists C c l i k v, T = plug C (Node c l i k v Leaf) /\ index = Z.of_nat i /\
    aboveAll ord key (elementsBefore (InRight c l i k v :: C)) /\ belowAll ord key (elementsAfter (InRight c l i k v :: C)).
Proof.
  intros HS (C & c & l & i & k & v & r & -> & -> & Hres & HB & HA & _ & Hr). rewrite (Hr eq_refl) in *. exists C, c, l, i, k, v. split_and!; [done|done| |done].
  eapply goRight; [exact HS|]. by destruct (ord key k).
Qed.

Lemma search_ok t new X hd T w key : GetCompare t = fn -> K key -> holds X hd new T -> keysIn T -> sortedEntries ord (elements T) -> T <> Leaf ->
  returns (descend env (entryFuel new) t new w key (ptr T) (rootKey T)) (fun '(res, index, _) => reached T key res index).
Proof.
  intros Hfn Hkey H HK HS HT. apply (descend_ok _ t new X hd w key [] T); try done; [by constructor..|].
  pose proof (holds_size _ _ _ _ H). pose proof (height_size T). unfold entryFuel. lia.
Qed.

Lemma root_key X hd t T : holds X hd t T -> GetKey t (GetRootEntries t) = Ok (rootKey T).
Proof. intros H. rewrite (holds_root _ _ _ _ H). destruct T as [|c l i k v r]; [done|]. cbn [ptr rootKey]. eapply read_key, (node_at X hd t []), H. Qed.

Lemma rootKey_present T : keysIn T -> T <> Leaf -> rootKey T <> Hole.
Proof. destruct T as [|c l i k v r]; [done|]. intros (_ & [Hk _]%Forall_cons)%Forall_app _. by apply key_present. Qed.

(** [FindEntry] finds the entry with the key, if there is one. *)
Lemma FindEntry_ok t T w key : ordered t T -> K key ->
  returns (FindEntry env t w key) (fun '(index, _) =>
    (exists C c l i k v r, foundAt T key C c l i k v r /\ index = Z.of_nat i) \/ (index = -1 /\ exists B A, elements T = B ++ A /\ aboveAll ord key B /\ belowAll ord key A)).
Proof.
  intros [R Hfn HK HS] Hkey. pose proof (rep_holds _ _ _ R) as H. unfold FindEntry. rewrite (root_key _ _ _ _ H), bind_Ok.
  destruct T as [|c l i k v r] eqn:ET; [right; split; [done|]; exists [], []; split_and!; [done|constructor|constructor]|]. rewrite <- ET in *.
  assert (T <> Leaf) as HT by (by rewrite ET). pose proof (rootKey_present T HK HT) as Hpres. clear ET.
  rewrite present_branch by done. rewrite (holds_root _ _ _ _ H). eapply returns_bind; [by eapply search_ok|]. intros [[res index] w'] Hr. cbn [returns]. destruct res.
  - right. split; [done|]. destruct (reached_left _ _ _ HS Hr) as (C & c' & i' & k' & v' & r' & -> & _ & HB & HA). exists (elementsBefore C), (elementsAfter (InLeft c' i' k' v' r' :: C)).
    split_and!; [|done|done]. by rewrite elements_plug.
  - left. by apply reached_equal.
  - right. split; [done|]. destruct (reached_right _ _ _ HS Hr) as (C & c' & l' & i' & k' & v' & -> & _ & HB & HA). exists (elementsBefore (InRight c' l' i' k' v' :: C)), (elementsAfter C).
    split_and!; [|done|done]. rewrite elements_plug. cbn. by simplify_list_eq.
  - exfalso. destruct Hr as (? & ? & ? & ? & ? & ? & ? & _ & _ & Hr & _). by destruct (ord key _).
Qed.
End Search.
