(* ===== verification/TreeInsert.v ===== *)
(** * Insertion

    [Insert] of [TaggedTree] on a tree in order: an entry with the key gets the value, otherwise a
    fresh entry joins the tree. *)

From Stdlib Require Import ZArith Lia.
From stdpp Require Import sets.
From S2P Require Import Prelude BigIntBase Double Values SortSpec TaggedTree TreeRep TreeBalance TreeDelete TreeRemove TreeCopy TreeState TreeSearch.

Section Attach.
  Variable shared : bool.

Lemma holds_more X hd t T j : holds X hd t T -> holds (j :: X) hd t T.
Proof. intros [Hh Hroot Hlk Hnd Hrest]. split; try done. intros i e Hi Hn HX. apply (Hrest i); [done|done|set_solver]. Qed.

(** The fields of a fresh node. *)
Definition freshNode (t : TaggedTree) (parentIndex entry : Z) (key value : JSTaggedValue) : result TaggedTree :=
  t ← SetKey shared t entry key;
  t ← SetValue shared t entry value;
  t ← SetColor t entry RED;
  SetParent t entry (Int parentIndex).

Lemma InsertLeftEntry_eq t parentIndex entry key value :
  InsertLeftEntry shared t parentIndex entry key value = (t ← freshNode t parentIndex entry key value; SetLeftChild t parentIndex (Int entry)).
Proof. unfold InsertLeftEntry, freshNode. rewrite bind_assoc. do 2 (apply bind_ext; intros; rewrite ?bind_assoc). by apply bind_ext. Qed.

Lemma InsertRightEntry_eq t parentIndex entry key value :
  InsertRightEntry shared t parentIndex entry key value = (t ← freshNode t parentIndex entry key value; SetRightChild t parentIndex (Int entry)).
Proof. unfold InsertRightEntry, freshNode. rewrite bind_assoc. do 2 (apply bind_ext; intros; rewrite ?bind_assoc). by apply bind_ext. Qed.

Lemma freshNode_ok X hd t T p j e key value : holds X hd t T -> j ∉ ids T -> j ∉ X -> entriesOf t !! j = Some e -> (shared = true -> value = key) ->
  returns (freshNode t p (Z.of_nat j) key value) (fun t' => holds (j :: X) hd t' T /\ entriesOf t' !! j = Some (mkEntry key value RED (Int p) Hole Hole)).
Proof.
  intros H Hj HX He Hs. pose proof (holds_rest _ _ _ _ H j e He Hj HX) as [Hel Her]. apply (holds_more _ _ _ _ j) in H.
  unfold freshNode, SetKey, SetValue, SetColor, SetParent. rewrite negative_id, nonnegative_id.
  do 4 (edestruct write_outside as (t1 & -> & H1 & He1); [exact H|exact Hj|exact He|]; rewrite ?bind_Ok; clear t H He; rename t1 into t, H1 into H, He1 into He).
  cbn [returns]. split; [done|]. rewrite He. unfold parented, colored, valued, keyed. cbn [entryKey entryValue entryColor entryParent entryLeft entryRight]. rewrite Hel, Her. destruct shared; [by rewrite Hs|done].
Qed.

(** A node that is ready hangs below a leaf. *)
Lemma attached X hd t f C j key value e : holds (j :: X) hd t (plug C (plugFrame f Leaf)) -> j ∉ ids (plug C (plugFrame f Leaf)) ->
  entriesOf t !! j = Some (mkEntry key value RED (Int (Z.of_nat (frameId f))) Hole Hole) -> entriesOf t !! frameId f = Some e ->
  holds X hd (withEntries t (<[frameId f := rehung f (Int (Z.of_nat j)) e]> (entriesOf t))) (plug (f :: C) (Node RED Leaf j key value Leaf)).
Proof.
  intros [Hh Hroot Hlk Hnd Hrest] Hj Hej Hef. change (plug C (plugFrame f Leaf)) with (plug (f :: C) Leaf) in *.
  assert (ids (plug (f :: C) (Node RED Leaf j key value Leaf)) ≡ₚ j :: ids (plug (f :: C) Leaf)) as Hp.
  { rewrite !ids_plug_perm. cbn [ids app]. solve_Permutation. }
  assert (frameId f ∈ ids (plug (f :: C) Leaf)) as Hf. { rewrite ids_plug_perm. destruct f; cbn; set_solver. }
  split.
  - rewrite <- Hh. unfold headerOf. cbn. by rewrite length_insert.
  - cbn [withEntries GetRootEntries]. rewrite Hroot. apply ptr_plug.
  - cbn [withEntries entriesOf]. apply linked_plug in Hlk as [HC _]. apply linked_plug. split.
    + apply (linkedPath_rehang (entriesOf t) _ (f :: C) Hole); [done| | |].
      * rewrite ids_plug_perm in Hnd. by apply NoDup_app in Hnd as (? & _).
      * intros i Hi Hne. apply list_lookup_insert_ne. cbn [above] in Hne. by intros <-.
      * rewrite Hef. apply list_lookup_insert_eq. by eapply lookup_lt_Some.
    + cbn [linked]. split_and!; [|done|done]. rewrite list_lookup_insert_ne by (intros E; by rewrite E in Hf). done.
  - rewrite Hp. by constructor.
  - intros i e' Hi Hn HX. cbn [withEntries entriesOf] in Hi. rewrite Hp in Hn. apply (Hrest i); [|set_solver|set_solver].
    rewrite list_lookup_insert_ne in Hi; [done|]. intros E. rewrite E in Hf. set_solver.
Qed.

Lemma InsertLeft_ok X hd t C c i k v r j e key value : holds X hd t (plug C (Node c Leaf i k v r)) -> j ∉ ids (plug C (Node c Leaf i k v r)) -> j ∉ X ->
  entriesOf t !! j = Some e -> (shared = true -> value = key) ->
  returns (InsertLeftEntry shared t (Z.of_nat i) (Z.of_nat j) key value) (fun t' => holds X hd t' (plug (InLeft c i k v r :: C) (Node RED Leaf j key value Leaf))).
Proof.
  intros H Hj HX He Hs. rewrite InsertLeftEntry_eq. eapply returns_bind; [by eapply freshNode_ok|]. intros t1 [H1 He1].
  pose proof (node_at _ _ _ C _ _ _ _ _ _ H1) as Hi. unfold SetLeftChild. rewrite (update_eq _ _ _ _ Hi). cbn [returns].
  exact (attached X hd t1 (InLeft c i k v r) C j key value _ H1 Hj He1 Hi).
Qed.

Lemma InsertRight_ok X hd t C c l i k v j e key value : holds X hd t (plug C (Node c l i k v Leaf)) -> j ∉ ids (plug C (Node c l i k v Leaf)) -> j ∉ X ->
  entriesOf t !! j = Some e -> (shared = true -> value = key) ->
  returns (InsertRightEntry shared t (Z.of_nat i) (Z.of_nat j) key value) (fun t' => holds X hd t' (plug (InRight c l i k v :: C) (Node RED Leaf j key value Leaf))).
Proof.
  intros H Hj HX He Hs. rewrite InsertRightEntry_eq. eapply returns_bind; [by eapply freshNode_ok|]. intros t1 [H1 He1].
  pose proof (node_at _ _ _ C _ _ _ _ _ _ H1) as Hi. unfold SetRightChild. rewrite (update_eq _ _ _ _ Hi). cbn [returns].
  exact (attached X hd t1 (InRight c l i k v) C j key value _ H1 Hj He1 Hi).
Qed.
End Attach.

Section Insert.
  Context {W : Type} {env : Env W} {fn : JSTaggedValue} {K : JSTaggedValue -> Prop} {ord : JSTaggedValue -> JSTaggedValue -> comparison}.
  Context `{HO : !KeyOrder env fn K ord}.
  Variable shared : bool.
  Variables (key value : JSTaggedValue).
  Hypothesis Hkey : K key.
  Hypothesis Hset : shared = true -> value = key.
Notation ordered := (ordered (fn := fn) (K := K) (ord := ord) shared).

(** How much larger an insertion makes the array. *)
Definition grows (t t' : TaggedTree) : Prop := used t' <= used t + 1 /\ Capacity t' <= Z.max (Capacity t) (2 * used t + 1).

(** The first entry. *)
Lemma SetRoot_ok t : ordered t Leaf ->
  returns (SetRoot shared t 0 key value) (fun t' =>
    let t' := SetNumberOfDeletedElements (SetNumberOfElements t' (u32 (NumberOfElements t' + 1))) 0 in
    ordered t' (Node BLACK Leaf 0 key value Leaf) /\ grows t t').
Proof.
  intros [R Hfn _ _]. pose proof (rep_holds _ _ _ R) as H. pose proof (rep_range _ _ _ R) as Hr. pose proof (rep_capacity _ _ _ R) as Hc. unfold MIN_CAPACITY in Hr.
  destruct (entriesOf t !! 0%nat) as [e|] eqn:He; [|apply lookup_ge_None in He; lia].
  destruct (holds_rest _ _ _ _ H 0%nat e He ltac:(cbn; set_solver) ltac:(set_solver)) as [Hel Her].
  unfold SetRoot, SetKey, SetValue, SetParent, SetColor. change 0 with (Z.of_nat 0). rewrite negative_id, nonnegative_id.
  rewrite (update_eq _ _ _ _ He), bind_Ok. do 3 (erewrite update_eq by look; rewrite bind_Ok). cbn [returns].
  unfold SetNumberOfDeletedElements, SetNumberOfElements, SetRootEntries, withEntries, colored, parented, valued, keyed.
  cbn [NumberOfElements Capacity GetCompare entriesOf entryKey entryValue entryColor entryParent entryLeft entryRight]. rewrite !list_insert_insert_eq, Hel, Her.
  replace (if shared then value else key) with key by (destruct shared; [by rewrite Hset|done]).
  pose proof (rep_number _ _ _ R) as HN. cbn in HN. rewrite HN. change (u32 (Z.of_nat 0 + 1)) with 1. change (Z.of_nat 0) with 0. cbn zeta. pose proof (rep_deleted _ _ _ R). split; [|unfold grows, used; cbn; lia].
  split; [|done| |].
  - split; cbn; try done; try lia.
    + split; cbn; [done|done| |repeat constructor; set_solver|].
      * split_and!; [|done|done]. apply list_lookup_insert_eq. by eapply lookup_lt_Some.
      * intros j e' Hj Hn _. rewrite list_lookup_insert_ne in Hj by set_solver. apply (holds_rest _ _ _ _ H j e' Hj); cbn; set_solver.
    + split; [done|]. by exists 1%nat.
    + repeat constructor. by apply key_present.
    + intros E. repeat constructor. by apply Hset.
    + repeat constructor.
    + by rewrite length_insert.
    + apply R.
  - by repeat constructor.
  - repeat constructor.
Qed.

(** The entry with the key gets the value. *)
Lemma SetValue_ok t C c l i k v r : ordered t (plug C (Node c l i k v r)) -> ord key k = Eq ->
  returns (SetValue shared t (Z.of_nat i) value) (fun t' => ordered t' (plug C (Node c l i (if shared then value else k) value r)) /\ used t' = used t /\ Capacity t' = Capacity t).
Proof.
  intros [R Hfn HK HS] Hk. pose proof (rep_holds _ _ _ R) as H. pose proof (node_at _ _ _ C _ _ _ _ _ _ H) as Hi.
  unfold SetValue. pose proof (write_at _ _ t C c l i k v r (valued shared value) c (if shared then value else k) value H eq_refl) as Hw.
  rewrite (update_eq _ _ _ _ Hi) in Hw |- *. cbn [returns] in Hw |- *.
  set (t' := withEntries _ _) in *. set (k' := if shared then value else k) in *.
  assert (headerOf t' = headerOf t) as Hh by (by apply (holds_header _ _ _ _ Hw)).
  assert (K k') as Hk' by (unfold k'; destruct shared; [by rewrite Hset|]; by apply keysIn_plug in HK as (_ & (_ & [? _]%Forall_cons)%Forall_app & _)).
  assert (length (entriesOf t') = length (entriesOf t)) as Hlen by (by injection Hh).
  assert (keysIn (K := K) (plug C (Node c l i k' value r))) as HK'.
  { apply keysIn_plug in HK as (HB & (Hl & [_ Hr]%Forall_cons)%Forall_app & HA). apply keysIn_plug. split_and!; [done| |done]. apply Forall_app. split; [done|]. by constructor. }
  split; [|done]. split; [|done|done|].
  - split; try (apply R); try done.
    + rewrite Hh. done.
    + eapply redBlack_data. apply R.
    + by apply entries_present.
    + intros E. pose proof (rep_consistent _ _ _ R E) as Hc. rewrite elements_plug in Hc |- *. cbn [elements] in Hc |- *. rewrite !Forall_app, !Forall_cons in *.
      destruct Hc as (? & (? & _ & ?) & ?). split_and!; try done. unfold k'. by rewrite E.
    + etransitivity; [exact (rep_number _ _ _ R)|]. by rewrite !ids_plug.
    + pose proof (rep_used _ _ _ R) as Hu. by rewrite ids_plug in Hu |- *.
    + etransitivity; [exact (rep_capacity _ _ _ R)|]. by rewrite Hlen.
  - rewrite elements_plug in HS |- *. cbn [elements] in HS |- *. rewrite <- app_assoc, app_assoc in HS |- *. cbn [app] in HS |- *.
    eapply sorted_replace; [apply key_preorder|exact HS|]. unfold k'. destruct shared; [by rewrite Hset|].
    pose proof (leq_refl ord key_preorder k) as Hl. unfold leq in Hl. pose proof (opposite ord key_preorder k k) as Ho. by destruct (ord k k).
Qed.

(** A fresh node at the place of the key. *)
Lemma attach_ok t t1 C n : ordered t (plug C Leaf) -> used t < Capacity t -> n = Z.to_nat (used t) ->
  holds [] (headerOf t) t1 (plug C (Node RED Leaf n key value Leaf)) -> aboveAll ord key (elementsBefore C) -> belowAll ord key (elementsAfter C) ->
  returns (InsertRebalance (SetNumberOfElements t1 (u32 (NumberOfElements t1 + 1))) (Z.of_nat n)) (fun t' => exists T',
    ordered t' T' /\ elements T' = elementsBefore C ++ (key, value) :: elementsAfter C /\ used t' = used t + 1 /\ Capacity t' = Capacity t).
Proof.
  intros [R Hfn HK HS] Hroom -> H1 HB HA. pose proof (holds_header _ _ _ _ H1) as Hh. unfold headerOf in Hh. injection Hh as HN HD Hcap Hcmp Hlen.
  pose proof (used_range _ _ _ R) as Hu. pose proof (rep_range _ _ _ R) as Hr. pose proof (rep_number _ _ _ R) as HN0. pose proof (rep_deleted _ _ _ R). unfold used in *.
  set (n := Z.to_nat _) in *.
  rewrite HN, u32_small by (unfold is_u32, BASE; lia). set (t2 := SetNumberOfElements _ _).
  assert (holds [] (headerOf t2) t2 (plug C (Node RED Leaf n key value Leaf))) as H2 by (by eapply holds_reheader; [exact H1|..]).
  assert (keysIn (K := K) (plug C (Node RED Leaf n key value Leaf))) as HK'.
  { apply keysIn_plug in HK as (? & _ & ?). apply keysIn_plug. split_and!; [done| |done]. by repeat constructor. }
  destruct (plug_fits C Leaf (rep_balanced _ _ _ R)) as (m & HC & Hm). cbn in Hm. subst m.
  eapply returns_mono; [apply (InsertRebalance_ok [] (headerOf t2) t2 C (Node RED Leaf n key value Leaf) 0)|].
  - done.
  - by eapply fits_any.
  - done.
  - by apply entries_present.
  - by eapply holds_path.
  - intros t3 (T3 & H3 & [He3 Hi3] & Hrb). exists T3. rewrite elements_plug in He3. cbn [elements app] in He3.
    pose proof (holds_header _ _ _ _ H3) as Hh. unfold headerOf in Hh. injection Hh as HN3 HD3 Hcap3 Hcmp3 Hlen3.
    unfold t2 in HN3, HD3, Hcap3, Hcmp3, Hlen3. cbn in HN3, HD3, Hcap3, Hcmp3, Hlen3. split_and!; [|done|unfold used; lia|congruence].
    unfold keysIn in HK'. rewrite elements_plug in HK'. cbn [elements app] in HK'.
    assert (elements (plug C Leaf) = elementsBefore C ++ elementsAfter C) as E0 by (by rewrite elements_plug).
    assert (length (ids (plug C (Node RED Leaf n key value Leaf))) = S (length (ids (plug C Leaf)))) as Esz by (rewrite !ids_plug_perm; rewrite !length_app; cbn; lia).
    split; [|by rewrite Hcmp3, Hcmp| |].
    + split; rewrite ?HN3, ?HD3, ?Hcap3, ?Hcmp3, ?Hlen3, ?HD, ?Hcap, ?Hlen, ?Hcmp; try (apply R); try done; try lia.
      * by eapply holds_reheader; [exact H3|..].
      * unfold keysPresent. rewrite He3. by apply entries_present.
      * intros E. rewrite He3. pose proof (rep_consistent _ _ _ R E) as Hc. rewrite E0 in Hc. apply Forall_app in Hc as [? ?]. apply Forall_app. split; [done|]. constructor; [by apply Hset|done].
      * rewrite Hi3, Esz. lia.
      * rewrite Hi3. rewrite ids_plug_perm. pose proof (rep_used _ _ _ R) as Hus. rewrite ids_plug_perm in Hus. cbn [ids app] in Hus |- *. rewrite app_nil_r in Hus.
        apply Forall_app. split; [eapply Forall_impl; [exact Hus|]; cbn; lia|]. repeat constructor. unfold n. lia.
    + unfold keysIn. by rewrite He3.
    + rewrite He3. apply sorted_insert; [apply key_preorder| |done|done]. by rewrite <- E0.
Qed.

Lemma alike_rootKey T T' : alike T T' -> rootKey T' = rootKey T.
Proof. destruct T, T'; cbn; [done..|]. by intros (_ & -> & _). Qed.

Lemma alike_node T T' : alike T T' -> T <> Leaf -> T' <> Leaf.
Proof. by destruct T, T'. Qed.

(** The entry behind those in use. *)
Lemma fresh_ok t T : ordered t T -> used t < Capacity t ->
  Z.to_nat (used t) ∉ ids T /\ (exists e, entriesOf t !! Z.to_nat (used t) = Some e) /\ u32 (used t) = Z.of_nat (Z.to_nat (used t)).
Proof.
  intros [R _ _ _] Hroom. pose proof (used_range _ _ _ R) as Hu. pose proof (rep_range _ _ _ R). split_and!.
  - intros Hin. pose proof (rep_used _ _ _ R) as Hus. rewrite Forall_forall in Hus. specialize (Hus _ Hin). cbn in Hus. unfold used in *. lia.
  - apply lookup_lt_is_Some. pose proof (rep_capacity _ _ _ R). lia.
  - rewrite u32_small by (unfold is_u32, BASE; lia). lia.
Qed.

(** [Insert] puts the entry into the sorted list. *)
Lemma Insert_ok t T w : ordered t T -> growable t -> 20 <= VMAPIVersion env \/ fn = Hole ->
  returns (Insert shared env t w key value) (fun '(t', _) => exists T', ordered t' T' /\ elements T' = insertEntry ord shared key value (elements T) /\ grows t t').
Proof.
  intros HT Hg Hv. pose proof (rep_holds _ _ _ (ordered_represents _ _ _ HT)) as H. unfold Insert. rewrite (root_key _ _ _ _ H), bind_Ok.
  destruct (decide (link T = Hole)) as [E|E].
  - destruct T; [|done]. cbn [rootKey]. eapply returns_bind; [by apply SetRoot_ok|]. intros t1 [H1 Hgr]. cbn [returns]. by exists (Node BLACK Leaf 0 key value Leaf).
  - assert (T <> Leaf) as Hleaf by (by intros ->). clear E. pose proof (rootKey_present T (ordered_keys _ _ _ HT) Hleaf) as Hpres.
    rewrite present_branch by done. destruct HT as [R Hfn HK HS].
    eapply returns_bind; [apply (GrowCapacity_ok shared env t T R Hleaf Hg); by rewrite Hfn|]. intros t1 (T1 & R1 & Ha & Hc1 & Hroom & Hu1 & Hcap1).
    pose proof (alike_elements _ _ Ha) as He1. rewrite <- He1 in *. rewrite <- (alike_rootKey _ _ Ha). apply (alike_node _ _ Ha) in Hleaf.
    assert (keysIn (K := K) T1) as HK1 by (unfold keysIn in *; by rewrite He1).
    assert (ordered t1 T1) as HT1 by (split; [done|congruence|done|done]). pose proof (rep_holds _ _ _ R1) as H1. rewrite (holds_root _ _ _ _ H1).
    destruct (fresh_ok t1 T1 HT1 Hroom) as (Hfresh & [e Hfe] & Hn).
    eapply returns_bind; [by eapply search_ok|]. intros [[res index] w'] Hr. destruct res.
    + destruct (reached_left _ _ _ HS Hr) as (C & c & i & k & v & r & -> & -> & HB & HA).
      fold (used t1). rewrite Hn. eapply returns_bind; [eapply (InsertLeft_ok shared [] _ t1 C c i k v r _ e); [exact H1|done|set_solver|done|done]|].
      intros t2 H2. eapply returns_bind; [by eapply (attach_ok t1 t2 (InLeft c i k v r :: C))|].
      intros t3 (T3 & H3 & He3 & Hu3 & Hcap3). cbn [returns]. exists T3. split_and!; [done| |split; lia]. rewrite He3. change (plug C (Node c Leaf i k v r)) with (plug (InLeft c i k v r :: C) Leaf).
      rewrite elements_plug. by rewrite insertEntry_new.
    + destruct (reached_equal _ _ _ HS Hr) as (C & c & l & i & k & v & r & (-> & Hk & HB & HA) & ->).
      eapply returns_bind; [by eapply SetValue_ok|]. intros t2 (H2 & Hu2 & Hcap2). cbn [returns]. eexists. split_and!; [exact H2| |split; lia].
      rewrite !elements_plug. cbn [elements]. rewrite <- !app_assoc, !(app_assoc (elementsBefore C)). cbn [app]. by rewrite insertEntry_old.
    + destruct (reached_right _ _ _ HS Hr) as (C & c & l & i & k & v & -> & -> & HB & HA).
      fold (used t1). rewrite Hn. eapply returns_bind; [eapply (InsertRight_ok shared [] _ t1 C c l i k v _ e); [exact H1|done|set_solver|done|done]|].
      intros t2 H2. eapply returns_bind; [by eapply (attach_ok t1 t2 (InRight c l i k v :: C))|].
      intros t3 (T3 & H3 & He3 & Hu3 & Hcap3). cbn [returns]. exists T3. split_and!; [done| |split; lia]. rewrite He3. change (plug C (Node c l i k v Leaf)) with (plug (InRight c l i k v :: C) Leaf).
      rewrite elements_plug. by rewrite insertEntry_new.
    + exfalso. destruct Hr as (? & ? & ? & ? & ? & ? & ? & _ & _ & Hr & _). by destruct (ord key _).
Qed.
End Insert.
