(* ===== verification/TreeQuery.v ===== *)
(** * Neighbours, ends and height

    The keys next to a given one, the first and the last key, and how deep a tree can be. *)

From Stdlib Require Import ZArith Lia.
From stdpp Require Import sets.
From S2P Require Import Prelude BigIntBase Double Values SortSpec TaggedTree TreeRep TreeBalance TreeDelete TreeRemove TreeCopy TreeState TreeSearch.

Section Query.
  Context {W : Type} {env : Env W} {fn : JSTaggedValue} {K : JSTaggedValue -> Prop} {ord : JSTaggedValue -> JSTaggedValue -> comparison}.
  Context `{HO : !KeyOrder env fn K ord}.
  Variables (t : TaggedTree) (key : JSTaggedValue).
  Hypothesis Hfn : GetCompare t = fn.
  Hypothesis Hkey : K key.
Notation es := (entriesOf t).

Lemma key_of_root p s : linked es p s -> s <> Leaf -> GetKey t (ptr s) = Ok (rootKey s).
Proof. destruct s as [|c l i k v r]; [done|]. intros (Hi & _) _. eapply read_key, Hi. Qed.

Lemma key_of_ptr p s : linked es p s -> GetKey t (ptr s) = Ok (rootKey s).
Proof. destruct s as [|c l i k v r]; [done|]. intros H. by eapply key_of_root. Qed.

(** The entry [index] is the best so far, or the one of [e]. *)
Definition chosen (e : option entry) (best index : Z) : Prop :=
  match e with Some e => GetKey t index = Ok e.1 | None => index = best end.

Lemma last_append {A} (l1 l2 : list A) : last (l1 ++ l2) = match last l2 with Some x => Some x | None => last l1 end.
Proof. by rewrite last_app. Qed.

Lemma lowerEntry_right l k v r : ord key k = Gt -> sortedEntries ord (elements l ++ (k, v) :: elements r) ->
  lowerEntry ord key (elements l ++ (k, v) :: elements r) = match lowerEntry ord key (elements r) with Some e => Some e | None => Some (k, v) end.
Proof.
  intros Hk HS. unfold lowerEntry. rewrite List.filter_app. cbn [List.filter fst]. unfold lessb at 2. rewrite (opposite ord key_preorder key k), Hk. cbn [CompOpp].
  rewrite last_append, last_cons. by destruct (last (List.filter _ (elements r))).
Qed.

Lemma lowerEntry_left l k v r : ord key k <> Gt -> sortedEntries ord (elements l ++ (k, v) :: elements r) ->
  lowerEntry ord key (elements l ++ (k, v) :: elements r) = lowerEntry ord key (elements l).
Proof.
  intros Hk HS. unfold lowerEntry. rewrite List.filter_app. cbn [List.filter fst]. unfold lessb at 2. rewrite (opposite ord key_preorder key k).
  rewrite (filter_nothing _ (elements r)); [by destruct (ord key k); cbn [CompOpp]; rewrite ?app_nil_r|].
  pose proof (below_after ord key_preorder key (elements l) k v (elements r) HS Hk) as Hb. eapply Forall_impl; [exact Hb|]. intros e He. cbn in He. unfold lessb.
  by rewrite (opposite ord key_preorder key e.1), He.
Qed.

Lemma higherEntry_left l k v r : ord key k = Lt ->
  higherEntry ord key (elements l ++ (k, v) :: elements r) = match higherEntry ord key (elements l) with Some e => Some e | None => Some (k, v) end.
Proof.
  intros Hk. unfold higherEntry. induction (elements l) as [|e L IH]; cbn [app find fst]; [unfold lessb; by rewrite Hk|]. by destruct (lessb ord key e.1).
Qed.

Lemma higherEntry_right l k v r : ord key k <> Lt -> sortedEntries ord (elements l ++ (k, v) :: elements r) ->
  higherEntry ord key (elements l ++ (k, v) :: elements r) = higherEntry ord key (elements r).
Proof.
  intros Hk HS. unfold higherEntry. rewrite find_skip.
  - cbn [find fst]. unfold lessb at 1. by destruct (ord key k).
  - pose proof (above_before ord key_preorder key (elements l) k v (elements r) HS Hk) as Ha. eapply Forall_impl; [exact Ha|]. intros e He. cbn in He. unfold lessb. by rewrite He.
Qed.

Lemma lowerLoop_ok fuel s p w best : linked es p s -> keysIn (K := K) s -> sortedEntries ord (elements s) -> (length (ids s) <= fuel)%nat ->
  returns (boundLoop env fuel GREAT t w key (ptr s) (rootKey s) best) (fun '(index, _) => chosen (lowerEntry ord key (elements s)) best index).
Proof.
  revert s p w best. induction fuel as [|fuel IH]; intros s p w best Hs HK HS Hf; (destruct s as [|c l i k v r]; [done|]);
    cbn [ids] in Hf; rewrite length_app in Hf; cbn [length] in Hf; [lia|].
  pose proof Hs as (Hi & Hl & Hr). unfold keysIn in HK. cbn [ptr rootKey boundLoop elements] in *. rewrite nonnegative_id. apply Forall_app in HK as [HKl [Hk HKr]%Forall_cons]. cbn in Hk.
  destruct (key_answers t w key k Hfn Hkey Hk) as [w' ->]. rewrite bind_Ok.
  pose proof (sorted_around ord key_preorder (elements l) k v (elements r) HS) as (_ & _ & HSl & HSr).
  rewrite (read_rightIndex _ _ _ _ _ _ _ _ Hi), (read_leftIndex _ _ _ _ _ _ _ _ Hi).
  destruct (ord key k) eqn:Eo; cbn [resultOf]; repeat first [rewrite decide_True by done | rewrite decide_False by done]; cbn [eqb].
  1,2: rewrite ?bind_Ok, (key_of_ptr _ _ Hl), bind_Ok; rewrite lowerEntry_left by (done || congruence); apply (IH l (Z.of_nat i)); try done; lia.
  rewrite ?bind_Ok, (key_of_ptr _ _ Hr), bind_Ok. rewrite lowerEntry_right by done.
  eapply returns_mono; [apply (IH r (Z.of_nat i)); try done; lia|]. intros [index w2]. unfold chosen. destruct (lowerEntry ord key (elements r)); [done|].
  intros ->. eapply read_key, Hi.
Qed.

Lemma higherLoop_ok fuel s p w best : linked es p s -> keysIn (K := K) s -> sortedEntries ord (elements s) -> (length (ids s) <= fuel)%nat ->
  returns (boundLoop env fuel LESS t w key (ptr s) (rootKey s) best) (fun '(index, _) => chosen (higherEntry ord key (elements s)) best index).
Proof.
  revert s p w best. induction fuel as [|fuel IH]; intros s p w best Hs HK HS Hf; (destruct s as [|c l i k v r]; [done|]);
    cbn [ids] in Hf; rewrite length_app in Hf; cbn [length] in Hf; [lia|].
  pose proof Hs as (Hi & Hl & Hr). unfold keysIn in HK. cbn [ptr rootKey boundLoop elements] in *. rewrite nonnegative_id. apply Forall_app in HK as [HKl [Hk HKr]%Forall_cons]. cbn in Hk.
  destruct (key_answers t w key k Hfn Hkey Hk) as [w' ->]. rewrite bind_Ok.
  pose proof (sorted_around ord key_preorder (elements l) k v (elements r) HS) as (_ & _ & HSl & HSr).
  rewrite (read_rightIndex _ _ _ _ _ _ _ _ Hi), (read_leftIndex _ _ _ _ _ _ _ _ Hi).
  destruct (ord key k) eqn:Eo; cbn [resultOf]; repeat first [rewrite decide_True by done | rewrite decide_False by done]; cbn [eqb].
  1,3: rewrite ?bind_Ok, (key_of_ptr _ _ Hr), bind_Ok; rewrite higherEntry_right by (done || congruence); apply (IH r (Z.of_nat i)); try done; lia.
  rewrite ?bind_Ok, (key_of_ptr _ _ Hl), bind_Ok. rewrite higherEntry_left by done.
  eapply returns_mono; [apply (IH l (Z.of_nat i)); try done; lia|]. intros [index w2]. unfold chosen. destruct (higherEntry ord key (elements l)); [done|].
  intros ->. eapply read_key, Hi.
Qed.

Lemma chosen_key e index : chosen e (-1) index -> GetKey t index = Ok (default Hole (fst <$> e)).
Proof. unfold chosen. destruct e; [done|]. by intros ->. Qed.

(** The key of an entry, or [undefined]. *)
Definition keyOf (e : option entry) : JSTaggedValue := Transform (default Hole (fst <$> e)).

Lemma GetLowerKey_ok X hd T w : holds X hd t T -> keysIn (K := K) T -> sortedEntries ord (elements T) ->
  returns (GetLowerKey env t w key) (fun '(k, _) => k = keyOf (lowerEntry ord key (elements T))).
Proof.
  intros H HK HS. unfold GetLowerKey. rewrite (root_key _ _ _ _ H), bind_Ok, (holds_root _ _ _ _ H). pose proof (holds_size _ _ _ _ H) as Hsz.
  eapply returns_bind; [apply (lowerLoop_ok _ T (-1)); [apply (holds_linked _ _ _ _ H)|done|done|unfold entryFuel; lia]|].
  intros [index w'] ->%chosen_key. done.
Qed.

Lemma GetHigherKey_ok X hd T w : holds X hd t T -> keysIn (K := K) T -> sortedEntries ord (elements T) ->
  returns (GetHigherKey env t w key) (fun '(k, _) => k = keyOf (higherEntry ord key (elements T))).
Proof.
  intros H HK HS. unfold GetHigherKey. rewrite (root_key _ _ _ _ H), bind_Ok, (holds_root _ _ _ _ H). pose proof (holds_size _ _ _ _ H) as Hsz.
  eapply returns_bind; [apply (higherLoop_ok _ T (-1)); [apply (holds_linked _ _ _ _ H)|done|done|unfold entryFuel; lia]|].
  intros [index w'] ->%chosen_key. done.
Qed.
End Query.

(** ** The ends *)

Lemma GetFirstKey_ok X hd t T : holds X hd t T -> GetFirstKey t = Ok (keyOf (head (elements T))).
Proof.
  intros H. unfold GetFirstKey. rewrite (holds_root _ _ _ _ H). destruct T as [|c l i k v r] eqn:ET; [done|]. rewrite <- ET in *.
  destruct (GetMinimum_ok X hd t [] T ltac:(by rewrite ET) H) as (D & c' & j & k' & v' & r' & E & HD & ->). rewrite E in *. rewrite bind_Ok.
  rewrite (read_key _ _ _ _ _ _ _ _ (node_at X hd t D _ _ _ _ _ _ H)), bind_Ok. rewrite elements_plug, (left_nothing_before _ _ D HD). done.
Qed.

Lemma GetLastKey_ok X hd t T : holds X hd t T -> GetLastKey t = Ok (keyOf (last (elements T))).
Proof.
  intros H. unfold GetLastKey. rewrite (holds_root _ _ _ _ H). destruct T as [|c l i k v r] eqn:ET; [done|]. rewrite <- ET in *.
  destruct (GetMaximum_ok X hd t [] T ltac:(by rewrite ET) H) as (D & c' & l' & j & k' & v' & E & HD & ->). rewrite E in *. rewrite bind_Ok.
  rewrite (read_key _ _ _ _ _ _ _ _ (node_at X hd t D _ _ _ _ _ _ H)), bind_Ok. rewrite elements_plug, (right_nothing_after _ _ D HD), app_nil_r. cbn [elements].
  by rewrite app_assoc, last_snoc.
Qed.

(** ** Height *)

Lemma balanced_tall T n : balanced T n -> (height T <= 2 * n + match rootColor T with RED => 1 | BLACK => 0 end)%nat.
Proof.
  revert n. induction T as [|c l IHl i k v r IHr]; intros n Hn; cbn [height rootColor]; [lia|]. destruct c; cbn [balanced] in Hn.
  - destruct n as [|n]; [done|]. destruct Hn as [Hl Hr]. apply IHl in Hl. apply IHr in Hr. destruct (rootColor l), (rootColor r); lia.
  - destruct Hn as (Hcl & Hcr & Hl & Hr). apply IHl in Hl. apply IHr in Hr. rewrite Hcl in Hl. rewrite Hcr in Hr. lia.
Qed.

Lemma balanced_size T n : balanced T n -> (2 ^ n <= S (length (ids T)))%nat.
Proof.
  revert n. induction T as [|c l IHl i k v r IHr]; intros n Hn; cbn [ids]; [cbn in Hn; subst; cbn; lia|]. rewrite length_app. cbn [length].
  destruct c; cbn [balanced] in Hn.
  - destruct n as [|n]; [done|]. destruct Hn as [Hl Hr]. apply IHl in Hl. apply IHr in Hr. cbn [Nat.pow]. lia.
  - destruct Hn as (Hcl & Hcr & Hl & Hr). apply IHl in Hl. apply IHr in Hr. lia.
Qed.

Lemma redBlack_height T : redBlack T -> (height T <= 2 * Nat.log2 (S (length (ids T))))%nat.
Proof.
  intros [Hc [n Hn]]. pose proof (balanced_tall T n Hn) as Hh. rewrite Hc in Hh. pose proof (balanced_size T n Hn) as Hs.
  apply Nat.log2_le_pow2 in Hs; [|lia]. lia.
Qed.
