(* ===== verification/TreeOrder.v ===== *)
(** * Orders of keys

    The comparisons that order the keys of a tree: the default one, for numbers and strings, and a
    comparison function of the program.  Both are instances of [KeyOrder]. *)

From Stdlib Require Import ZArith Lia.
From S2P Require Import Prelude BigIntBase Double Values SortSpec StringOrder TaggedTree TreeRep TreeBalance TreeDelete TreeRemove TreeCopy TreeState TreeSearch.

(** ** The default order *)

(** Numbers by value, then strings by their code units. *)
Definition defaultKey (k : JSTaggedValue) : Prop := IsString k = true \/ (IsNumber k = true /\ num_isnan (ExtractNumber k) = false).

Definition numberOf (k : JSTaggedValue) : Z := default 0 (ExtractNumber k).1.
Definition unitsOf (k : JSTaggedValue) : list Z := match k with EcmaString _ s => s | _ => [] end.

Definition defaultOrder (x y : JSTaggedValue) : comparison :=
  match IsString x, IsString y with
  | false, false => numberOf x ?= numberOf y
  | false, true => Lt
  | true, false => Gt
  | true, true => lexCompare (unitsOf x) (unitsOf y)
  end.

Lemma defaultOrder_preorder : preorder defaultOrder.
Proof.
  split.
  - intros x y. unfold defaultOrder. destruct (IsString x), (IsString y); [apply lexCompare_opp|done|done|]. apply Z.compare_antisym.
  - intros x y z. unfold defaultOrder. destruct (IsString x), (IsString y), (IsString z); try done; [apply lexCompare_trans|].
    rewrite !Z.compare_ngt_iff. lia.
Qed.

Lemma resultOfInt_eq d : resultOfInt d = resultOf (d ?= 0).
Proof. unfold resultOfInt. destruct (Z.compare_spec d 0), (Z.ltb_spec 0 d), (Z.ltb_spec d 0); cbn; try done; lia. Qed.

Lemma compareAsStrings_ok {W} (env : Env W) w a b s s' : compareAsStrings env w (EcmaString a s) (EcmaString b s') = Ok (resultOf (lexCompare s s'), w).
Proof.
  unfold compareAsStrings. cbn [keyString]. rewrite !bind_Ok. pose proof (StringOrder.Compare_returns s s') as H. destruct (StringOrder.Compare s s') as [d|]; [|done].
  cbn in H. rewrite bind_Ok. rewrite resultOfInt_eq, H. done.
Qed.

Lemma StrictNumberCompare_ok x y : num_isnan x = false -> num_isnan y = false -> StrictNumberCompare x y = resultOf (default 0 x.1 ?= default 0 y.1).
Proof.
  destruct x as [[a|] sx], y as [[b|] sy]; cbn; [|done..]. intros _ _. unfold StrictNumberCompare, num_isnan, num_lt. cbn.
  destruct (Z.compare_spec a b), (Z.ltb_spec a b), (Z.ltb_spec b a); cbn; try done; lia.
Qed.

#[export] Instance default_KeyOrder {W} (env : Env W) : KeyOrder env Hole defaultKey defaultOrder.
Proof.
  split; [apply defaultOrder_preorder|intros k [H|[H _]] ->; done|].
  intros t w x y Hfn Hx Hy. unfold EntryCompare. rewrite Hfn. unfold OrdinayEntryCompare, defaultOrder.
  destruct Hx as [Hx|[Hx Hnx]], Hy as [Hy|[Hy Hny]]; destruct x; try done; destruct y; try done; cbn [IsString IsNumber andb].
  all: try (rewrite StrictNumberCompare_ok by done; by eexists).
  all: try (by eexists).
  rewrite compareAsStrings_ok. by eexists.
Qed.

(** ** Comparison functions *)

(** A result of the function says that the first key is below, the same as or above the second: a
    function that answers with Booleans says whether it is below, one that answers with numbers
    gives the sign. *)
Definition says {W} (env : Env W) (booleans : bool) (v : JSTaggedValue) (o : comparison) : Prop :=
  match v with
  | Boolean b => booleans = true /\ b = match o with Lt => true | _ => false end
  | Int z => booleans = false /\ (z ?= 0) = o
  | Double d => booleans = false /\ num_isnan (ofDouble d) = false /\ (castInt env (ofDouble d) ?= 0) = o
  | _ => False
  end.

(** [null] and [undefined] come after all other keys; the function never sees them. *)
Definition isProper (k : JSTaggedValue) : bool := match k with Undefined | Null => false | _ => true end.
Definition keyClass (k : JSTaggedValue) : Z := match k with Undefined => 2 | Null => 1 | _ => 0 end.

Definition functionOrder (o : JSTaggedValue -> JSTaggedValue -> comparison) (x y : JSTaggedValue) : comparison :=
  match keyClass x ?= keyClass y with Eq => if isProper x then o x y else Eq | c => c end.

Lemma keyClass_range k : 0 <= keyClass k <= 2.
Proof. destruct k; cbn; lia. Qed.

Lemma keyClass_proper k : isProper k = (keyClass k =? 0).
Proof. by destruct k. Qed.

Lemma functionOrder_preorder o : preorder o -> preorder (functionOrder o).
Proof.
  intros Ho. split.
  - intros x y. unfold functionOrder. rewrite (Z.compare_antisym (keyClass x)), !keyClass_proper. destruct (Z.compare_spec (keyClass x) (keyClass y)) as [E| |]; cbn; [|done..].
    rewrite E. destruct (keyClass y =? 0); [apply Ho|done].
  - intros x y z. unfold functionOrder. rewrite !keyClass_proper.
    destruct (Z.compare_spec (keyClass x) (keyClass y)) as [E1| |], (Z.compare_spec (keyClass y) (keyClass z)) as [E2| |], (Z.compare_spec (keyClass x) (keyClass z)); try done; try lia.
    rewrite E1, E2. destruct (keyClass z =? 0); [apply Ho|done].
Qed.

(** The function answers by [o] for all keys in [K] but [null] and [undefined]. *)
Definition comparesKeys {W} (env : Env W) (booleans : bool) (fn : JSTaggedValue) (K : JSTaggedValue -> Prop) (o : JSTaggedValue -> JSTaggedValue -> comparison) : Prop :=
  forall w x y, K x -> K y -> isProper x = true -> isProper y = true -> exists v w', CallCompare env w fn x y = Ok (v, w') /\ says env booleans v (o x y).

Lemma callCompare_ok {W} (env : Env W) booleans fn K o w x y : preorder o -> comparesKeys env booleans fn K o -> K x -> K y -> isProper x = true -> isProper y = true ->
  exists w', callCompare env w fn x y = Ok (resultOf (o x y), w').
Proof.
  intros Ho Hfn Hx Hy Px Py. unfold callCompare. destruct (Hfn w x y Hx Hy Px Py) as (v & w1 & -> & Hv). rewrite bind_Ok.
  destruct v; try done; cbn [says] in Hv.
  - destruct Hv as [-> ->]. destruct (o x y) eqn:Eo; [|by exists w1|]; destruct (Hfn w1 y x Hy Hx Py Px) as (v2 & w2 & -> & Hv2); rewrite bind_Ok; exists w2;
      rewrite (opposite o Ho x y), Eo in Hv2; destruct v2; try (by destruct Hv2); by destruct Hv2 as [_ ->].
  - destruct Hv as [_ Hv]. exists w1. by rewrite resultOfInt_eq, Hv.
  - rewrite bind_Ok. destruct Hv as (_ & -> & Hv). exists w1. by rewrite resultOfInt_eq, Hv.
Qed.

Lemma function_KeyOrder {W} (env : Env W) booleans fn K o : fn <> Hole -> (forall k, K k -> k <> Hole) -> preorder o -> comparesKeys env booleans fn K o ->
  KeyOrder env fn K (functionOrder o).
Proof.
  intros Hhole HK Ho Hfn. split; [by apply functionOrder_preorder|done|]. intros t w x y Ht Hx Hy. 
  assert (EntryCompare env w x y t = match x, y with
    | Undefined, Undefined => Ok (EQUAL, w) | Undefined, _ => Ok (GREAT, w) | _, Undefined => Ok (LESS, w)
    | Null, Null => Ok (EQUAL, w) | Null, _ => Ok (GREAT, w) | _, Null => Ok (LESS, w)
    | _, _ => callCompare env w fn x y end) as -> by (unfold EntryCompare; rewrite Ht; by destruct fn).
  assert (isProper x = true -> isProper y = true -> exists w', callCompare env w fn x y = Ok (resultOf (functionOrder o x y), w')) as Hcall.
  { intros Px Py. unfold functionOrder. assert (keyClass x = keyClass y) as -> by (destruct x, y; done). rewrite Z.compare_refl, Px. by eapply callCompare_ok. }
  unfold functionOrder in *. destruct x, y; cbn [isProper keyClass Z.compare] in *; try (by eexists); by apply Hcall.
Qed.
