(* ===== verification/TreeContainers.v ===== *)
(** * The containers TreeMap and TreeSet

    [JSAPITreeMap] and [JSAPITreeSet] of src/ecmascript/js_api/js_api_tree_map.cpp and
    js_api_tree_set.cpp with their iterators, and the methods of
    src/ecmascript/containers/containers_treemap.cpp and containers_treeset.cpp.  A container is the
    array that holds its tree; the world [W] is what the comparison function and the callbacks can
    change.

    Not modelled: [setAll] of a map on itself, what [setAll] has inserted when a comparison throws,
    and the text of a received value in an error message. *)

From Stdlib Require Import ZArith Lia.
From S2P Require Import Prelude BigIntBase Double Values Containers TaggedTree.

(** The entries are listed at the first call of [next]. *)
Record TreeIterator := mkTreeIterator { attachedTo : bool; GetNextIndex : Z; GetIterationKind : IterationKind; GetEntries : option (list JSTaggedValue) }.

Definition NewTreeIterator (kind : IterationKind) : TreeIterator := mkTreeIterator true 0 kind None.

Definition ComparefnType : error := TypeError "The type of comparefn must be callable.".
Definition MapType : error := TypeError "The type of map must be TreeMap.".

(** [GetPrimitive(index).GetInt()] of the list of entries. *)
Definition entryNumber (entries : list JSTaggedValue) (index : Z) : result Z := v ← get entries (Z.to_nat index); linkInt v.

(** The array the loop iterates over stays the same until the number of elements changes, also when
    the container has got another one; a callback that changes it in place changes it for the loop,
    too.  So a callback is a program on the world, the iterated array and the array of the container. *)
Definition TreeCallback (W : Type) : Type :=
  W -> TaggedTree -> TaggedTree -> JSTaggedValue -> JSTaggedValue -> result (W * TaggedTree * TaggedTree).

Section ForEach.
  Context {W : Type}.
  Variable arguments : TaggedTree -> Z -> result (JSTaggedValue * JSTaggedValue).
  Variable callbackfn : TreeCallback W.

(** [fuel]: a callback may add elements in every round. *)
Fixpoint forEachLoop (fuel : nat) (w : W) (iterated container : TaggedTree) (entries : list JSTaggedValue) (elements index : Z) : result (W * TaggedTree) :=
  if index <? elements then
    match fuel with
    | O => Err OutOfFuel
    | S fuel =>
      entriesIndex ← entryNumber entries index;
      '(value, key) ← arguments iterated entriesIndex;
      '(w, iterated, container) ← callbackfn w iterated container value key;
      if negb (i32 (NumberOfElements container) =? Z.of_nat (length entries)) then
        entries ← GetSortArray container;
        forEachLoop fuel w container container entries (NumberOfElements container) (index + 1)
      else forEachLoop fuel w iterated container entries elements (index + 1)
    end
  else Ok (w, container).

Definition ForEach (fuel : nat) (w : W) (container : TaggedTree) : result (W * TaggedTree) :=
  let iterated := container in
  entries ← GetSortArray iterated;
  forEachLoop fuel w iterated container entries (NumberOfElements iterated) 0.
End ForEach.

(** ** TreeMap *)

Module TreeMap.
Section Map.
  Context {W : Type}.
  Variable env : Env W.

Definition Set_ (map : TaggedTree) (w : W) (key value : JSTaggedValue) : result (TaggedTree * W) :=
  match key with
  | Hole => Err (TypeError "The type of key must be not null.")
  | _ => Insert false env map w key value
  end.

Definition Get (map : TaggedTree) (w : W) (key : JSTaggedValue) : result (JSTaggedValue * W) :=
  '(index, w) ← FindEntry env map w key;
  if index =? -1 then Ok (Undefined, w) else v ← GetValue map index; Ok (v, w).

Definition GetSize (map : TaggedTree) : Z := i32 (NumberOfElements map).

Definition GetKey (map : TaggedTree) (entry : Z) : result JSTaggedValue :=
  key ← TaggedTree.GetKey map entry; Ok (if IsHole key then Undefined else key).

Definition GetValue (map : TaggedTree) (entry : Z) : result JSTaggedValue :=
  value ← TaggedTree.GetValue map entry; Ok (if IsHole value then Undefined else value).

Definition Delete (map : TaggedTree) (w : W) (key : JSTaggedValue) : result (JSTaggedValue * TaggedTree * W) :=
  '(entry, w) ← FindEntry env map w key;
  if entry <? 0 then Ok (Undefined, map, w) else
  value ← TaggedTree.GetValue map entry;
  newMap ← TaggedTree.Delete false map entry;
  Ok (value, newMap, w).

Definition HasKey (map : TaggedTree) (w : W) (key : JSTaggedValue) : result (bool * W) :=
  '(entry, w) ← FindEntry env map w key; Ok (0 <=? entry, w).

Definition HasValue (map : TaggedTree) (value : JSTaggedValue) : result bool := TaggedTree.HasValue map value.

Definition Clear (map : TaggedTree) : TaggedTree :=
  let cap := GetSize map in
  if cap =? 0 then map else
  let internal := Create (Z.max cap MIN_CAPACITY) in
  match GetCompare map with Undefined | Null => internal | fn => SetCompare internal fn end.

(** Whether there was a value to replace. *)
Definition Replace (map : TaggedTree) (w : W) (key value : JSTaggedValue) : result (bool * TaggedTree * W) :=
  '(index, w) ← FindEntry env map w key;
  if index <? 0 then Ok (false, map, w) else
  map ← SetValue false map index value;
  Ok (true, map, w).

(** Breadth first through the source. *)
Fixpoint setAllLoop (fuel : nat) (map src : TaggedTree) (w : W) (entries : list Z) : result (TaggedTree * W) :=
  match entries with
  | [] => Ok (map, w)
  | parent :: rest =>
    match fuel with
    | O => Err OutOfFuel
    | S fuel =>
      key ← TaggedTree.GetKey src parent;
      value ← TaggedTree.GetValue src parent;
      '(map, w) ← Insert false env map w key value;
      left ← GetLeftChildIndex src parent;
      right ← GetRightChildIndex src parent;
      setAllLoop fuel map src w (rest ++ (if 0 <=? left then [left] else []) ++ (if 0 <=? right then [right] else []))
    end
  end.

Definition SetAll (dst src : TaggedTree) (w : W) : result (TaggedTree * W) := setAllLoop (entryFuel src) dst src w [GetRootEntries src].

(** *** The iterator *)

Definition Next (map : TaggedTree) (iter : TreeIterator) : result (option Item * TreeIterator) :=
  if negb (attachedTo iter) then Ok (None, iter) else
  let elements := NumberOfElements map in
  entries ← (match GetEntries iter with
             | Some entries => if elements =? Z.of_nat (length entries) then Ok entries else GetSortArray map
             | None => GetSortArray map end);
  let index := u32 (GetNextIndex iter) in
  if index <? elements then
    keyIndex ← entryNumber entries index;
    let iter := mkTreeIterator true (index + 1) (GetIterationKind iter) (Some entries) in
    key ← TaggedTree.GetKey map keyIndex;
    match GetIterationKind iter with
    | KEY => Ok (Some (ItemValue key), iter)
    | VALUE => value ← TaggedTree.GetValue map keyIndex; Ok (Some (ItemValue value), iter)
    | KEY_AND_VALUE => value ← TaggedTree.GetValue map keyIndex; Ok (Some (ItemPair key value), iter)
    end
  else Ok (None, mkTreeIterator false (GetNextIndex iter) (GetIterationKind iter) (Some entries)).

(** *** The methods *)

(** [comparefn] is nothing if it is undefined or null. *)
Definition treemap_constructor (newTarget : bool) (comparefn : JSTaggedValue) (callable : bool) : result TaggedTree :=
  if negb newTarget then Err (DirectCall "The TreeMap") else
  let internal := Create MIN_CAPACITY in
  match comparefn with
  | Undefined | Null => Ok internal
  | _ => if callable then Ok (SetCompare internal comparefn) else Err ComparefnType
  end.

Definition treemap_set (self : Receiver TaggedTree) (w : W) (key value : JSTaggedValue) : result (TaggedTree * W) :=
  map ← receive "set" self; Set_ map w key value.
Definition treemap_get (self : Receiver TaggedTree) (w : W) (key : JSTaggedValue) : result (JSTaggedValue * W) :=
  map ← receive "get" self; Get map w key.
Definition treemap_remove (self : Receiver TaggedTree) (w : W) (key : JSTaggedValue) : result (JSTaggedValue * TaggedTree * W) :=
  map ← receive "remove" self; Delete map w key.
Definition treemap_hasKey (self : Receiver TaggedTree) (w : W) (key : JSTaggedValue) : result (bool * W) :=
  map ← receive "hasKey" self; HasKey map w key.
Definition treemap_hasValue (self : Receiver TaggedTree) (value : JSTaggedValue) : result bool :=
  map ← receive "hasValue" self; HasValue map value.
Definition treemap_getFirstKey (self : Receiver TaggedTree) : result JSTaggedValue := map ← receive "getFirstKey" self; GetFirstKey map.
Definition treemap_getLastKey (self : Receiver TaggedTree) : result JSTaggedValue := map ← receive "getLastKey" self; GetLastKey map.
Definition treemap_setAll (self obj : Receiver TaggedTree) (w : W) : result (TaggedTree * W) :=
  dst ← receive "setAll" self;
  match obj with
  | This src | ProxyOf src => if 0 <? GetSize src then SetAll dst src w else Ok (dst, w)
  | OtherValue => Err MapType
  end.
Definition treemap_clear (self : Receiver TaggedTree) : result TaggedTree := map ← receive "clear" self; Ok (Clear map).
Definition treemap_getLowerKey (self : Receiver TaggedTree) (w : W) (key : JSTaggedValue) : result (JSTaggedValue * W) :=
  map ← receive "getLowerKey" self; GetLowerKey env map w key.
Definition treemap_getHigherKey (self : Receiver TaggedTree) (w : W) (key : JSTaggedValue) : result (JSTaggedValue * W) :=
  map ← receive "getHigherKey" self; GetHigherKey env map w key.
Definition treemap_replace (self : Receiver TaggedTree) (w : W) (key value : JSTaggedValue) : result (bool * TaggedTree * W) :=
  map ← receive "replace" self; Replace map w key value.
Definition treemap_iterator (self : Receiver TaggedTree) (kind : IterationKind) : result TreeIterator :=
  _ ← receive "Symbol.iterator" self; Ok (NewTreeIterator kind).

(** The callback gets the value and the key. *)
Definition entryArguments (iteratedMap : TaggedTree) (entriesIndex : Z) : result (JSTaggedValue * JSTaggedValue) :=
  key ← TaggedTree.GetKey iteratedMap entriesIndex;
  value ← TaggedTree.GetValue iteratedMap entriesIndex;
  Ok (value, key).

Definition treemap_forEach (self : Receiver TaggedTree) (callbackfn : option (TreeCallback W)) (fuel : nat) (w : W) : result (W * TaggedTree) :=
  map ← receive "forEach" self;
  match callbackfn with None => Err NotCallable | Some cb => ForEach entryArguments cb fuel w map end.

Definition treemap_getLength (self : Receiver TaggedTree) : result Z := map ← receive "getLength" self; Ok (GetSize map).
Definition treemap_isEmpty (self : Receiver TaggedTree) : result bool := map ← receive "isEmpty" self; Ok (GetSize map =? 0).
End Map.
End TreeMap.

(** ** TreeSet *)

Module TreeSet.
Section Set_.
  Context {W : Type}.
  Variable env : Env W.

Definition Add (set : TaggedTree) (w : W) (value : JSTaggedValue) : result (TaggedTree * W) :=
  match value with
  | Hole => Err (TypeError "The type of value must be Key of JS.")
  | _ => Insert true env set w value value
  end.

Definition GetSize (set : TaggedTree) : Z := i32 (NumberOfElements set).

Definition GetKey (set : TaggedTree) (entry : Z) : result JSTaggedValue :=
  key ← TaggedTree.GetKey set entry; Ok (if IsHole key then Undefined else key).

Definition Delete (set : TaggedTree) (w : W) (key : JSTaggedValue) : result (bool * TaggedTree * W) :=
  '(entry, w) ← FindEntry env set w key;
  if entry <? 0 then Ok (false, set, w) else
  newSet ← TaggedTree.Delete true set entry;
  Ok (true, newSet, w).

Definition Has (set : TaggedTree) (w : W) (key : JSTaggedValue) : result (bool * W) :=
  '(entry, w) ← FindEntry env set w key; Ok (0 <=? entry, w).

Definition Clear (set : TaggedTree) : TaggedTree :=
  let cap := GetSize set in
  if cap =? 0 then set else
  let internal := Create cap in
  match GetCompare set with Undefined | Null => internal | fn => SetCompare internal fn end.

(** The first or the last element is found by [extreme]. *)
Definition Pop (extreme : TaggedTree -> Z -> result Z) (set : TaggedTree) : result (JSTaggedValue * TaggedTree) :=
  entry ← extreme set (GetRootEntries set);
  if entry <? 0 then Ok (Undefined, set) else
  value ← TaggedTree.GetKey set entry;
  newSet ← TaggedTree.Delete true set entry;
  Ok (value, newSet).

Definition PopFirst (set : TaggedTree) : result (JSTaggedValue * TaggedTree) := Pop GetMinimum set.
Definition PopLast (set : TaggedTree) : result (JSTaggedValue * TaggedTree) := Pop GetMaximum set.

(** *** The iterator *)

Definition Next (set : TaggedTree) (iter : TreeIterator) : result (option Item * TreeIterator) :=
  if negb (attachedTo iter) then Ok (None, iter) else
  let elements := NumberOfElements set in
  entries ← (match GetEntries iter with
             | Some entries => if elements =? Z.of_nat (length entries) then Ok entries else GetSortArray set
             | None => GetSortArray set end);
  let index := u32 (GetNextIndex iter) in
  if index <? elements then
    keyIndex ← entryNumber entries index;
    let iter := mkTreeIterator true (index + 1) (GetIterationKind iter) (Some entries) in
    key ← TaggedTree.GetKey set keyIndex;
    match GetIterationKind iter with
    | KEY | VALUE => Ok (Some (ItemValue key), iter)
    | KEY_AND_VALUE => Ok (Some (ItemPair key key), iter)
    end
  else Ok (None, mkTreeIterator false (GetNextIndex iter) (GetIterationKind iter) (Some entries)).

(** *** The methods *)

Definition treeset_constructor (newTarget : bool) (comparefn : JSTaggedValue) (callable : bool) : result TaggedTree :=
  if negb newTarget then Err (DirectCall "The TreeSet") else
  let internal := Create MIN_CAPACITY in
  match comparefn with
  | Undefined | Null => Ok internal
  | _ => if callable then Ok (SetCompare internal comparefn) else Err ComparefnType
  end.

Definition treeset_add (self : Receiver TaggedTree) (w : W) (value : JSTaggedValue) : result (TaggedTree * W) :=
  set ← receive "add" self; Add set w value.
Definition treeset_remove (self : Receiver TaggedTree) (w : W) (key : JSTaggedValue) : result (bool * TaggedTree * W) :=
  set ← receive "remove" self; Delete set w key.
Definition treeset_has (self : Receiver TaggedTree) (w : W) (key : JSTaggedValue) : result (bool * W) :=
  set ← receive "has" self; Has set w key.
Definition treeset_getFirstValue (self : Receiver TaggedTree) : result JSTaggedValue := set ← receive "getFirstValue" self; GetFirstKey set.
Definition treeset_getLastValue (self : Receiver TaggedTree) : result JSTaggedValue := set ← receive "getLastValue" self; GetLastKey set.
Definition treeset_clear (self : Receiver TaggedTree) : result TaggedTree := set ← receive "clear" self; Ok (Clear set).
Definition treeset_getLowerValue (self : Receiver TaggedTree) (w : W) (key : JSTaggedValue) : result (JSTaggedValue * W) :=
  set ← receive "getLowerValue" self; GetLowerKey env set w key.
Definition treeset_getHigherValue (self : Receiver TaggedTree) (w : W) (key : JSTaggedValue) : result (JSTaggedValue * W) :=
  set ← receive "getHigherValue" self; GetHigherKey env set w key.
Definition treeset_popFirst (self : Receiver TaggedTree) : result (JSTaggedValue * TaggedTree) := set ← receive "popFirst" self; PopFirst set.
Definition treeset_popLast (self : Receiver TaggedTree) : result (JSTaggedValue * TaggedTree) := set ← receive "popLast" self; PopLast set.
Definition treeset_isEmpty (self : Receiver TaggedTree) : result bool := set ← receive "isEmpty" self; Ok (GetSize set =? 0).
Definition treeset_iterator (self : Receiver TaggedTree) (kind : IterationKind) : result TreeIterator :=
  _ ← receive "Symbol.iterator" self; Ok (NewTreeIterator kind).

Definition keyArguments (iteratedSet : TaggedTree) (entriesIndex : Z) : result (JSTaggedValue * JSTaggedValue) :=
  key ← TaggedTree.GetKey iteratedSet entriesIndex; Ok (key, key).

Definition treeset_forEach (self : Receiver TaggedTree) (callbackfn : option (TreeCallback W)) (fuel : nat) (w : W) : result (W * TaggedTree) :=
  set ← receive "forEach" self;
  match callbackfn with None => Err NotCallable | Some cb => ForEach keyArguments cb fuel w set end.

Definition treeset_getLength (self : Receiver TaggedTree) : result Z := set ← receive "getLength" self; Ok (GetSize set).
End Set_.
End TreeSet.
