(* ===== verification/TreeMapCorrect.v ===== *)
(** * TreeMap implements a sorted map

    Every method of a tree map on a tree in order does what the same method does on the sorted list
    of entries; a run of the methods is observed as a run on the list. *)

From Stdlib Require Import ZArith Lia.
From stdpp Require Import sets.
From S2P Require Import Prelude BigIntBase Double Values SortSpec Containers TaggedTree TreeRep TreeBalance TreeDelete TreeRemove TreeCopy TreeState TreeSearch TreeInsert TreeQuery TreeOrder TreeContainers.

(** ** Runs under a condition *)

Section Along.
  Context {C L Op : Type}.
  Variable step : C -> Op -> Observation * C.
  Variable spec : L -> Op -> Observation * L.
  Variable ok : C -> Op -> Prop.

(** Every call of the run meets the condition. *)
Fixpoint along (c : C) (ops : list Op) : Prop :=
  match ops with [] => True | op :: ops => ok c op /\ along (step c op).2 ops end.

Lemma run_along (R : nat -> C -> L -> Prop) (bound : Z) :
  (forall k c l op, R k c l -> Z.of_nat k < bound -> ok c op -> (step c op).1 = (spec l op).1 /\ R (S k) (step c op).2 (spec l op).2) ->
  forall ops k c l, R k c l -> Z.of_nat (k + length ops) <= bound -> along c ops -> (run step c ops).1 = (runSpec spec l ops).1 /\ R (k + length ops)%nat (run step c ops).2 (runSpec spec l ops).2.
Proof.
  intros Hstep. induction ops as [|op ops IH]; intros k c l HR Hb Hal; cbn [run runSpec along length] in *; [by rewrite Nat.add_0_r|].
  destruct Hal as [Hop Hal]. destruct (Hstep k c l op HR ltac:(lia) Hop) as [Eo HR']. destruct (step c op) as [o c'], (spec l op) as [o' l']. cbn [fst snd] in *. subst o'.
  destruct (IH (S k) c' l' HR' ltac:(lia) Hal) as [Eos HR'']. destruct (run step c' ops), (runSpec spec l' ops). cbn [fst snd] in *. subst. split; [done|].
  by replace (k + S (length ops))%nat with (S k + length ops)%nat by lia.
Qed.
End Along.

(** Deleting the last element of an array of 31 or more entries is left out. *)
Definition calm (t : TaggedTree) : Prop := NumberOfElements t <> 1 \/ Capacity t < 31.

(** ** Trees and lists *)

Section Models.
  Context {W : Type} {env : Env W} {fn : JSTaggedValue} {K : JSTaggedValue -> Prop} {ord : JSTaggedValue -> JSTaggedValue -> comparison}.
  Context `{HO : !KeyOrder env fn K ord}.
  Variable shared : bool.
Notation ordered := (ordered (fn := fn) (K := K) (ord := ord) shared).
Notation models := (models (fn := fn) (K := K) (ord := ord) shared).

(** What a search for [key] tells. *)
Definition located (t : TaggedTree) (L : list entry) (key : JSTaggedValue) (index : Z) : Prop :=
  match findEntry ord key L with
  | Some e => exists i, index = Z.of_nat i /\ GetValue t index = Ok e.2 /\
      (calm t -> returns (Delete shared t index) (fun t' => models t' (removeEntry ord key L) /\ used t' <= used t /\ Capacity t' <= Capacity t)) /\
      (forall value, (shared = true -> value = key) -> returns (SetValue shared t index value) (fun t' =>
         models t' (insertEntry ord shared key value L) /\ used t' = used t /\ Capacity t' = Capacity t))
  | None => index = -1 /\ removeEntry ord key L = L
  end.

Lemma keysIn_without C c l i k v r T' : keysIn (K := K) (plug C (Node c l i k v r)) -> elements T' = elementsBefore C ++ elements l ++ elements r ++ elementsAfter C -> keysIn (K := K) T'.
Proof.
  intros H E. apply keysIn_plug in H as (HB & (Hl & [_ Hr]%Forall_cons)%Forall_app & HA). unfold keysIn. rewrite E. by rewrite !Forall_app.
Qed.

Lemma Delete_found t T key C c l i k v r : ordered t T -> foundAt (ord := ord) T key C c l i k v r -> calm t ->
  returns (Delete shared t (Z.of_nat i)) (fun t' => models t' (removeEntry ord key (elements T)) /\ used t' <= used t /\ Capacity t' <= Capacity t).
Proof.
  intros [R Hfn HK HS] (-> & Hk & HB & HA) Hcalm. eapply returns_mono; [by apply (Delete_ok shared t C c l i k v r)|]. intros t' (T' & R' & He & Hc & Hu & Hcap). split; [|done].
  rewrite elements_plug in HS |- *. cbn [elements] in HS |- *. rewrite <- app_assoc, app_assoc in HS |- *. cbn [app] in HS |- *. rewrite removeEntry_old by done.
  exists T'. split; [|by rewrite He, <- app_assoc]. split; [done|congruence|exact (keysIn_without C c l i k v r T' HK He)|]. rewrite He, app_assoc. eapply sorted_without; [apply key_preorder|exact HS].
Qed.

Lemma FindEntry_models t L w key : models t L -> K key -> returns (FindEntry env t w key) (fun '(index, _) => located t L key index).
Proof.
  intros (T & HT & <-) Hkey. eapply returns_mono; [by apply (FindEntry_ok shared t T w key)|]. intros [index w'] [(C & c & l & i & k & v & r & HF & ->)|(-> & B & A & E & HB & HA)].
  - unfold located. rewrite (foundAt_find _ _ _ _ _ _ _ _ _ HF). exists i. split_and!; [done| |by eapply Delete_found|].
    + destruct HF as (-> & _). eapply read_value, (node_at [] _ t C), (rep_holds _ _ _ (ordered_represents _ _ _ HT)).
    + intros value Hv. destruct HF as (-> & Hk & HB & HA). eapply returns_mono; [by eapply (SetValue_ok shared key value Hkey Hv)|].
      intros t' (HT' & Hu & Hcap). split; [|done]. eexists. split; [exact HT'|]. rewrite !elements_plug. cbn [elements].
      rewrite <- !app_assoc, !(app_assoc (elementsBefore C)). cbn [app]. by rewrite insertEntry_old.
  - unfold located. rewrite E, findEntry_new by done. split; [done|]. by apply removeEntry_new.
Qed.

Lemma Insert_models t L w key value : models t L -> K key -> (shared = true -> value = key) -> growable t -> 20 <= VMAPIVersion env \/ fn = Hole ->
  returns (Insert shared env t w key value) (fun '(t', _) => models t' (insertEntry ord shared key value L) /\ grows t t').
Proof.
  intros (T & HT & <-) Hkey Hset Hg Hv. eapply returns_mono; [by apply (Insert_ok shared key value Hkey Hset t T w)|]. intros [t' w'] (T' & HT' & He & Hgr).
  split; [|done]. by exists T'.
Qed.

Lemma models_size t L : models t L -> NumberOfElements t = Z.of_nat (length L) /\ i32 (NumberOfElements t) = Z.of_nat (length L).
Proof.
  intros (T & [R _ _ _] & <-). pose proof (rep_number _ _ _ R) as HN. pose proof (used_range _ _ _ R) as Hu. pose proof (rep_range _ _ _ R). pose proof (rep_deleted _ _ _ R).
  rewrite length_elements. unfold used in *. rewrite i32_nonneg; lia.
Qed.

Lemma Clear_models t cap : GetCompare t = fn -> fn <> Undefined -> fn <> Null -> cap < 2 ^ 31 ->
  models (match GetCompare t with Undefined | Null => Create cap | fn => SetCompare (Create cap) fn end) [].
Proof.
  intros Hfn Hu Hn Hcap. replace (match GetCompare t with Undefined | Null => Create cap | fn => SetCompare (Create cap) fn end) with (SetCompare (Create cap) fn) by (by rewrite Hfn; destruct fn).
  pose proof (Create_represents shared cap Hcap) as R. exists Leaf. split; [|done]. split; [|done|constructor|constructor].
  destruct R as [[Hh Hr1 Hl Hnd Hre] ? ? ? ? ? ? ? ? ? ?]. by split.
Qed.
End Models.

(** ** The methods of a map *)

Inductive MapOp :=
| MSet (key value : JSTaggedValue)
| MGet (key : JSTaggedValue)
| MRemove (key : JSTaggedValue)
| MHasKey (key : JSTaggedValue)
| MHasValue (value : JSTaggedValue)
| MFirstKey
| MLastKey
| MClear
| MLowerKey (key : JSTaggedValue)
| MHigherKey (key : JSTaggedValue)
| MReplace (key value : JSTaggedValue)
| MLength
| MIsEmpty.

Section MapRun.
  Context {W : Type} (env : Env W).

(** A method that changes nothing but the world. *)
Definition observeLook {A} (t : TaggedTree) (w : W) (obs : A -> Observation) (m : result (A * W)) : Observation * (TaggedTree * W) :=
  match m with Ok (a, w') => (obs a, (t, w')) | Err e => (Throws e, (t, w)) end.

Definition observeChange {A} (t : TaggedTree) (w : W) (obs : A -> Observation) (m : result (A * TaggedTree * W)) : Observation * (TaggedTree * W) :=
  match m with Ok (a, t', w') => (obs a, (t', w')) | Err e => (Throws e, (t, w)) end.

Definition mapStep (c : TaggedTree * W) (op : MapOp) : Observation * (TaggedTree * W) :=
  let '(t, w) := c in
  match op with
  | MSet key value => observe c (fun _ : unit => Nothing) ('(t, w) ← TreeMap.treemap_set env (This t) w key value; Ok (tt, (t, w)))
  | MGet key => observeLook t w Value (TreeMap.treemap_get env (This t) w key)
  | MRemove key => observeChange t w Value (TreeMap.treemap_remove env (This t) w key)
  | MHasKey key => observeLook t w Truth (TreeMap.treemap_hasKey env (This t) w key)
  | MHasValue value => observeRead c Truth (TreeMap.treemap_hasValue (This t) value)
  | MFirstKey => observeRead c Value (TreeMap.treemap_getFirstKey (This t))
  | MLastKey => observeRead c Value (TreeMap.treemap_getLastKey (This t))
  | MClear => observe c (fun _ : unit => Nothing) (t ← TreeMap.treemap_clear (This t); Ok (tt, (t, w)))
  | MLowerKey key => observeLook t w Value (TreeMap.treemap_getLowerKey env (This t) w key)
  | MHigherKey key => observeLook t w Value (TreeMap.treemap_getHigherKey env (This t) w key)
  | MReplace key value => observeChange t w Truth (TreeMap.treemap_replace env (This t) w key value)
  | MLength => observeRead c Count (TreeMap.treemap_getLength (This t))
  | MIsEmpty => observeRead c Truth (TreeMap.treemap_isEmpty (This t))
  end.
End MapRun.

Section MapSpec.
  Variable ord : JSTaggedValue -> JSTaggedValue -> comparison.

Definition valueOf (e : option entry) : JSTaggedValue := match e with Some e => e.2 | None => Undefined end.
Definition isFound (e : option entry) : bool := match e with Some _ => true | None => false end.

(** The same methods on the sorted list of entries. *)
Definition mapSpec (L : list entry) (op : MapOp) : Observation * list entry :=
  match op with
  | MSet key value => (Nothing, insertEntry ord false key value L)
  | MGet key => (Value (valueOf (findEntry ord key L)), L)
  | MRemove key => (Value (valueOf (findEntry ord key L)), removeEntry ord key L)
  | MHasKey key => (Truth (isFound (findEntry ord key L)), L)
  | MHasValue value => (Truth (existsb (fun e => SameValue e.2 value) L), L)
  | MFirstKey => (Value (keyOf (head L)), L)
  | MLastKey => (Value (keyOf (last L)), L)
  | MClear => (Nothing, [])
  | MLowerKey key => (Value (keyOf (lowerEntry ord key L)), L)
  | MHigherKey key => (Value (keyOf (higherEntry ord key L)), L)
  | MReplace key value => let found := isFound (findEntry ord key L) in (Truth found, if found then insertEntry ord false key value L else L)
  | MLength => (Count (Z.of_nat (length L)), L)
  | MIsEmpty => (Truth (match L with [] => true | _ => false end), L)
  end.
End MapSpec.

Definition mapKey (op : MapOp) : option JSTaggedValue :=
  match op with
  | MSet key _ | MGet key | MRemove key | MHasKey key | MLowerKey key | MHigherKey key | MReplace key _ => Some key
  | _ => None
  end.

(** The keys of a call are in the order, and it does not delete the last element of a large array. *)
Definition mapOk {W} (K : JSTaggedValue -> Prop) (c : TaggedTree * W) (op : MapOp) : Prop :=
  match mapKey op with Some key => K key | None => True end /\ match op with MRemove _ => calm c.1 | _ => True end.

Section MapRefines.
  Context {W : Type} {env : Env W} {fn : JSTaggedValue} {K : JSTaggedValue -> Prop} {ord : JSTaggedValue -> JSTaggedValue -> comparison}.
  Context `{HO : !KeyOrder env fn K ord}.
  Hypothesis Hfn : fn <> Undefined /\ fn <> Null.
  Hypothesis Hversion : 20 <= VMAPIVersion env \/ fn = Hole.
Notation models := (models (fn := fn) (K := K) (ord := ord) false).

(** After [k] calls. *)
Definition mapRep (k : nat) (c : TaggedTree * W) (L : list entry) : Prop :=
  models c.1 L /\ used c.1 <= Z.of_nat k /\ Capacity c.1 <= Z.max MIN_CAPACITY (2 * Z.of_nat k + 1).

Lemma mapRep_same k t w w' L : mapRep k (t, w) L -> mapRep (S k) (t, w') L.
Proof. intros (H1 & H2 & H3). cbn [fst] in *. split_and!; [done|cbn; lia..]. Qed.

Lemma mapRep_change k t w t' w' L L' : mapRep k (t, w) L -> models t' L' -> used t' <= used t -> Capacity t' <= Capacity t -> mapRep (S k) (t', w') L'.
Proof. intros (H1 & H2 & H3) Hm Hu Hc. cbn [fst] in *. split_and!; [done|cbn; lia..]. Qed.

Lemma look_ok {A} k t w L (obs : A -> Observation) m o : mapRep k (t, w) L -> returns m (fun '(a, _) => obs a = o) ->
  (observeLook t w obs m).1 = o /\ mapRep (S k) (observeLook t w obs m).2 L.
Proof. intros HR Hm. apply returns_iff in Hm as ([a w'] & -> & Ha). split; [done|]. by eapply mapRep_same. Qed.

(** What a call does, on both sides. *)
Definition simulated (k : nat) (c : TaggedTree * W) (L : list entry) (op : MapOp) : Prop :=
  (mapStep env c op).1 = (mapSpec ord L op).1 /\ mapRep (S k) (mapStep env c op).2 (mapSpec ord L op).2.

Section Step.
  Variables (k : nat) (t : TaggedTree) (w : W) (L : list entry).
  Hypothesis HR : mapRep k (t, w) L.

Lemma rep_growable : Z.of_nat k < 2 ^ 25 -> growable t.
Proof. intros Hk. destruct HR as (_ & _ & Hcap). cbn in Hcap. right. unfold MIN_CAPACITY in *. lia. Qed.

Lemma set_simulated key value : Z.of_nat k < 2 ^ 25 -> K key -> simulated k (t, w) L (MSet key value).
Proof.
  intros Hk Hkey. unfold simulated. cbn [mapStep mapSpec fst snd]. unfold TreeMap.treemap_set, TreeMap.Set_. cbn [receive]. rewrite bind_Ok, present_branch by (by eapply key_present).
  pose proof HR as (HM & Hu & Hcap). cbn [fst] in *.
  pose proof (Insert_models false t L w key value HM Hkey ltac:(done) (rep_growable Hk) Hversion) as HI. apply returns_iff in HI as ([t' w'] & -> & HM' & Hu' & Hcap').
  cbn. split; [done|]. split_and!; [done|cbn; lia|cbn; unfold MIN_CAPACITY in *; lia].
Qed.

Lemma get_simulated key : K key -> simulated k (t, w) L (MGet key).
Proof.
  intros Hkey. apply look_ok; [done|]. cbn [mapSpec fst]. unfold TreeMap.treemap_get, TreeMap.Get. cbn [receive]. rewrite bind_Ok. destruct HR as (HM & _).
  eapply returns_bind; [by apply (FindEntry_models false t L w key)|]. intros [index w'] Hl. unfold located in Hl. destruct (findEntry ord key L) as [e|].
  - destruct Hl as (i & -> & Hv & _). destruct (Z.eqb_spec (Z.of_nat i) (-1)); [lia|]. by rewrite Hv.
  - by destruct Hl as [-> _].
Qed.

Lemma hasKey_simulated key : K key -> simulated k (t, w) L (MHasKey key).
Proof.
  intros Hkey. apply look_ok; [done|]. cbn [mapSpec fst]. unfold TreeMap.treemap_hasKey, TreeMap.HasKey. cbn [receive]. rewrite bind_Ok. destruct HR as (HM & _).
  eapply returns_bind; [by apply (FindEntry_models false t L w key)|]. intros [index w'] Hl. unfold located in Hl. destruct (findEntry ord key L) as [e|].
  - destruct Hl as (i & -> & _). cbn [returns]. by rewrite nonnegative_id.
  - by destruct Hl as [-> _].
Qed.

Lemma remove_simulated key : K key -> calm t -> simulated k (t, w) L (MRemove key).
Proof.
  intros Hkey Hcalm. unfold simulated. cbn [mapStep mapSpec fst snd]. unfold TreeMap.treemap_remove, TreeMap.Delete. cbn [receive]. rewrite bind_Ok. pose proof HR as (HM & _).
  pose proof (FindEntry_models false t L w key HM Hkey) as HF. apply returns_iff in HF as ([index w'] & -> & Hl). rewrite bind_Ok. unfold located in Hl.
  destruct (findEntry ord key L) as [e|].
  - destruct Hl as (i & -> & Hv & HD & _). rewrite negative_id, Hv, bind_Ok. specialize (HD Hcalm). apply returns_iff in HD as (t' & -> & HM' & Hu & Hcap). cbn. split; [done|].
    by eapply mapRep_change.
  - destruct Hl as [-> ->]. cbn. split; [done|]. by eapply mapRep_same.
Qed.

Lemma replace_simulated key value : K key -> simulated k (t, w) L (MReplace key value).
Proof.
  intros Hkey. unfold simulated. cbn [mapStep mapSpec fst snd]. unfold TreeMap.treemap_replace, TreeMap.Replace. cbn [receive]. rewrite bind_Ok. pose proof HR as (HM & _).
  pose proof (FindEntry_models false t L w key HM Hkey) as HF. apply returns_iff in HF as ([index w'] & -> & Hl). rewrite bind_Ok. unfold located in Hl.
  destruct (findEntry ord key L) as [e|]; cbn [isFound].
  - destruct Hl as (i & -> & _ & _ & HV). rewrite negative_id. specialize (HV value ltac:(done)). apply returns_iff in HV as (t' & -> & HM' & Hu & Hcap). cbn. split; [done|].
    eapply mapRep_change; [done|done|lia|lia].
  - destruct Hl as [-> _]. cbn. split; [done|]. by eapply mapRep_same.
Qed.

Lemma clear_simulated : simulated k (t, w) L MClear.
Proof.
  unfold simulated. cbn [mapStep mapSpec fst snd]. unfold TreeMap.treemap_clear, TreeMap.Clear, TreeMap.GetSize. cbn [receive]. rewrite bind_Ok. pose proof HR as (HM & Hu & Hcap).
  cbn [fst] in *. destruct (models_size false t L HM) as [HN ->]. pose proof HM as (T & HT & HL). pose proof (rep_range _ _ _ (ordered_represents _ _ _ HT)) as Hr.
  pose proof (rep_room _ _ _ (ordered_represents _ _ _ HT)). pose proof (rep_deleted _ _ _ (ordered_represents _ _ _ HT)). destruct (Z.eqb_spec (Z.of_nat (length L)) 0) as [E|E]; cbn.
  - split; [done|]. assert (L = []) as -> by (destruct L; [done|]; cbn in E; lia). by eapply mapRep_same.
  - split; [done|]. set (cap := Z.max _ _). unfold MIN_CAPACITY in *. assert (cap < 2 ^ 31) as Hc31 by lia.
    pose proof (ordered_compare _ _ _ HT) as Hcmp. split_and!; cbn [fst].
    + apply (Clear_models (env := env) false t cap Hcmp); tauto.
    + unfold used. rewrite Hcmp. destruct fn; cbn; lia.
    + rewrite Hcmp. assert (Capacity (Create cap) <= Z.max 7 (2 * Z.of_nat (S k) + 1)); [|by destruct fn]. unfold Create, MIN_CAPACITY. cbn. unfold used in *. destruct (Z.ltb_spec 7 cap); lia.
Qed.
End Step.

Lemma mapStep_simulates k c L op : mapRep k c L -> Z.of_nat k < 2 ^ 25 -> mapOk K c op -> simulated k c L op.
Proof.
  destruct c as [t w]. intros HR Hk [HK Hcalm]. pose proof HR as (HM & _). cbn [fst] in HM. pose proof HM as (T & HT & HL).
  pose proof (rep_holds _ _ _ (ordered_represents _ _ _ HT)) as H. pose proof (ordered_compare _ _ _ HT) as Hcmp.
  pose proof (ordered_keys _ _ _ HT) as HKT. pose proof (ordered_sorted _ _ _ HT) as HST.
  destruct op as [key value|key|key|key|value| | | |key|key|key value| |]; cbn [mapKey] in HK; rewrite <- ?HL.
  - rewrite HL. by apply set_simulated.
  - rewrite HL. by apply get_simulated.
  - rewrite HL. by apply remove_simulated.
  - rewrite HL. by apply hasKey_simulated.
  - unfold simulated. cbn [mapStep mapSpec]. unfold TreeMap.treemap_hasValue, TreeMap.HasValue. cbn [receive]. rewrite bind_Ok, (HasValue_ok t [] _ T value H).
    split; [done|]. rewrite HL. by eapply mapRep_same.
  - unfold simulated. cbn [mapStep mapSpec]. unfold TreeMap.treemap_getFirstKey. cbn [receive]. rewrite bind_Ok, (GetFirstKey_ok _ _ _ _ H). split; [done|]. rewrite HL. by eapply mapRep_same.
  - unfold simulated. cbn [mapStep mapSpec]. unfold TreeMap.treemap_getLastKey. cbn [receive]. rewrite bind_Ok, (GetLastKey_ok _ _ _ _ H). split; [done|]. rewrite HL. by eapply mapRep_same.
  - rewrite HL. by apply clear_simulated.
  - apply look_ok; [by rewrite HL|]. unfold TreeMap.treemap_getLowerKey. cbn [receive]. rewrite bind_Ok.
    eapply returns_mono; [by apply (GetLowerKey_ok t key Hcmp HK [] _ T w H)|]. intros [x w'] ->. done.
  - apply look_ok; [by rewrite HL|]. unfold TreeMap.treemap_getHigherKey. cbn [receive]. rewrite bind_Ok.
    eapply returns_mono; [by apply (GetHigherKey_ok t key Hcmp HK [] _ T w H)|]. intros [x w'] ->. done.
  - rewrite HL. by apply replace_simulated.
  - unfold simulated. cbn [mapStep mapSpec]. unfold TreeMap.treemap_getLength, TreeMap.GetSize. cbn [receive]. rewrite bind_Ok, HL. destruct (models_size false t L HM) as [_ ->].
    split; [done|]. by eapply mapRep_same.
  - unfold simulated. cbn [mapStep mapSpec]. unfold TreeMap.treemap_isEmpty, TreeMap.GetSize. cbn [receive]. rewrite bind_Ok, HL. destruct (models_size false t L HM) as [_ ->].
    split; [by destruct L|]. by eapply mapRep_same.
Qed.

Lemma constructed comparefn t0 (w : W) : TreeMap.treemap_constructor true comparefn true = Ok t0 -> GetCompare t0 = fn -> mapRep 0 (t0, w) [].
Proof.
  intros Hc Hcmp. pose proof (Clear_models (env := env) false t0 MIN_CAPACITY Hcmp (proj1 Hfn) (proj2 Hfn) ltac:(done)) as HM.
  assert (t0 = match GetCompare t0 with Undefined | Null => Create MIN_CAPACITY | f => SetCompare (Create MIN_CAPACITY) f end) as E.
  { unfold TreeMap.treemap_constructor in Hc. destruct comparefn; injection Hc as <-; done. }
  rewrite <- E in HM. split_and!; [done| |]; cbn [fst]; rewrite E; by destruct (GetCompare t0).
Qed.
End MapRefines.

Definition along_map {W} (env : Env W) (K : JSTaggedValue -> Prop) (t0 : TaggedTree) (w : W) (ops : list MapOp) : Prop :=
  along (mapStep env) (mapOk K) (t0, w) ops.

Lemma map_runs {W} (env : Env W) fn K ord `{!KeyOrder env fn K ord} comparefn t0 w ops :
  fn <> Undefined /\ fn <> Null -> 20 <= VMAPIVersion env \/ fn = Hole ->
  TreeMap.treemap_constructor true comparefn true = Ok t0 -> GetCompare t0 = fn ->
  Z.of_nat (length ops) <= 2 ^ 25 -> along_map env K t0 w ops ->
  (run (mapStep env) (t0, w) ops).1 = (runSpec (mapSpec ord) [] ops).1 /\
  models (fn := fn) (K := K) (ord := ord) false (run (mapStep env) (t0, w) ops).2.1 (runSpec (mapSpec ord) [] ops).2.
Proof.
  intros Hfn Hv Hc Hcmp Hlen Hal.
  destruct (run_along (mapStep env) (mapSpec ord) (mapOk K) (mapRep (fn := fn) (K := K) (ord := ord)) (2 ^ 25) (mapStep_simulates Hfn Hv) ops 0 (t0, w) []) as [Ho (HM & _)].
  - by eapply constructed.
  - done.
  - done.
  - by split.
Qed.


(** No comparison function, no conversions. *)
Definition plainEnv : Env unit := mkEnv unit (fun _ _ _ _ => Err OutOfBounds) (fun _ _ => Err OutOfBounds) (fun _ _ => Err OutOfBounds) 20 (fun _ => 0).

Definition sampleMapOps : list MapOp :=
  [MSet (Int 5) (Int 50); MSet (Int 3) (Int 30); MSet (EcmaString 1 [97]) Null; MSet (Int 9) (Int 90); MSet (Int 3) (Int 31);
   MLowerKey (Int 5); MHigherKey (Int 9); MRemove (Int 5); MGet (Int 3); MGet (Int 5); MReplace (Int 7) Null; MLastKey; MLength].

Lemma sampleMapOps_ok : along_map plainEnv defaultKey (Create MIN_CAPACITY) tt sampleMapOps.
Proof. vm_compute. repeat match goal with |- _ /\ _ => split end; try exact I; try (right; split; reflexivity); try (left; reflexivity); left; discriminate. Qed.

(** The map of three entries that these calls leave. *)
Definition sampleMap : TaggedTree := (run (mapStep plainEnv) (Create MIN_CAPACITY, tt) sampleMapOps).2.1.
Definition sampleEntries : list entry := [(Int 3, Int 31); (Int 9, Int 90); (EcmaString 1 [97], Null)].

Lemma sampleMap_models : models (fn := Hole) (K := defaultKey) (ord := defaultOrder) false sampleMap sampleEntries.
Proof.
  apply (map_runs plainEnv Hole defaultKey defaultOrder Undefined (Create MIN_CAPACITY) tt sampleMapOps); [done|by right|done|done|by vm_compute|exact sampleMapOps_ok].
Qed.

