(* ===== verification/TreeSetCorrect.v ===== *)
(** * TreeSet implements a sorted set

    As in [TreeMapCorrect]; a set is a sorted list of entries whose value is the key. *)

From Stdlib Require Import ZArith Lia.
From stdpp Require Import sets.
From S2P Require Import Prelude BigIntBase Double Values SortSpec Containers TaggedTree TreeRep TreeBalance TreeDelete TreeRemove TreeCopy TreeState TreeSearch TreeInsert TreeQuery TreeOrder TreeContainers TreeMapCorrect.

Inductive SetOp :=
| SAdd (value : JSTaggedValue)
| SRemove (key : JSTaggedValue)
| SHas (key : JSTaggedValue)
| SFirst
| SLast
| SClear
| SLower (key : JSTaggedValue)
| SHigher (key : JSTaggedValue)
| SPopFirst
| SPopLast
| SLength
| SIsEmpty.

Section SetRun.
  Context {W : Type} (env : Env W).

Definition setStep (c : TaggedTree * W) (op : SetOp) : Observation * (TaggedTree * W) :=
  let '(t, w) := c in
  match op with
  | SAdd value => observe c (fun _ : unit => Nothing) ('(t, w) ← TreeSet.treeset_add env (This t) w value; Ok (tt, (t, w)))
  | SRemove key => observeChange t w Truth (TreeSet.treeset_remove env (This t) w key)
  | SHas key => observeLook t w Truth (TreeSet.treeset_has env (This t) w key)
  | SFirst => observeRead c Value (TreeSet.treeset_getFirstValue (This t))
  | SLast => observeRead c Value (TreeSet.treeset_getLastValue (This t))
  | SClear => observe c (fun _ : unit => Nothing) (t ← TreeSet.treeset_clear (This t); Ok (tt, (t, w)))
  | SLower key => observeLook t w Value (TreeSet.treeset_getLowerValue env (This t) w key)
  | SHigher key => observeLook t w Value (TreeSet.treeset_getHigherValue env (This t) w key)
  | SPopFirst => observe c Value ('(v, t) ← TreeSet.treeset_popFirst (This t); Ok (v, (t, w)))
  | SPopLast => observe c Value ('(v, t) ← TreeSet.treeset_popLast (This t); Ok (v, (t, w)))
  | SLength => observeRead c Count (TreeSet.treeset_getLength (This t))
  | SIsEmpty => observeRead c Truth (TreeSet.treeset_isEmpty (This t))
  end.
End SetRun.

Section SetSpec.
  Variable ord : JSTaggedValue -> JSTaggedValue -> comparison.

Definition setSpec (L : list entry) (op : SetOp) : Observation * list entry :=
  match op with
  | SAdd value => (Nothing, insertEntry ord true value value L)
  | SRemove key => (Truth (isFound (findEntry ord key L)), removeEntry ord key L)
  | SHas key => (Truth (isFound (findEntry ord key L)), L)
  | SFirst => (Value (keyOf (head L)), L)
  | SLast => (Value (keyOf (last L)), L)
  | SClear => (Nothing, [])
  | SLower key => (Value (keyOf (lowerEntry ord key L)), L)
  | SHigher key => (Value (keyOf (higherEntry ord key L)), L)
  | SPopFirst => (Value (default Undefined (fst <$> head L)), tail L)
  | SPopLast => (Value (default Undefined (fst <$> last L)), removelast L)
  | SLength => (Count (Z.of_nat (length L)), L)
  | SIsEmpty => (Truth (match L with [] => true | _ => false end), L)
  end.
End SetSpec.

Definition setKey (op : SetOp) : option JSTaggedValue :=
  match op with SAdd key | SRemove key | SHas key | SLower key | SHigher key => Some key | _ => None end.

Definition setOk {W} (K : JSTaggedValue -> Prop) (c : TaggedTree * W) (op : SetOp) : Prop :=
  match setKey op with Some key => K key | None => True end /\ match op with SRemove _ | SPopFirst | SPopLast => calm c.1 | _ => True end.

Section SetRefines.
  Context {W : Type} {env : Env W} {fn : JSTaggedValue} {K : JSTaggedValue -> Prop} {ord : JSTaggedValue -> JSTaggedValue -> comparison}.
  Context `{HO : !KeyOrder env fn K ord}.
  Hypothesis Hfn : fn <> Undefined /\ fn <> Null.
  Hypothesis Hversion : 20 <= VMAPIVersion env \/ fn = Hole.
Notation models := (models (fn := fn) (K := K) (ord := ord) true).

Definition setRep (k : nat) (c : TaggedTree * W) (L : list entry) : Prop :=
  models c.1 L /\ used c.1 <= Z.of_nat k /\ Capacity c.1 <= Z.max MIN_CAPACITY (2 * Z.of_nat k + 1).

Lemma setRep_same k t w w' L : setRep k (t, w) L -> setRep (S k) (t, w') L.
Proof. intros (H1 & H2 & H3). cbn [fst] in *. split_and!; [done|cbn; lia..]. Qed.

Lemma setRep_change k t w t' w' L L' : setRep k (t, w) L -> models t' L' -> used t' <= used t -> Capacity t' <= Capacity t -> setRep (S k) (t', w') L'.
Proof. intros (H1 & H2 & H3) Hm Hu Hc. cbn [fst] in *. split_and!; [done|cbn; lia..]. Qed.

Lemma setLook_ok {A} k t w L (obs : A -> Observation) m o : setRep k (t, w) L -> returns m (fun '(a, _) => obs a = o) ->
  (observeLook t w obs m).1 = o /\ setRep (S k) (observeLook t w obs m).2 L.
Proof. intros HR Hm. apply returns_iff in Hm as ([a w'] & -> & Ha). split; [done|]. by eapply setRep_same. Qed.

(** Deleting a node by its place. *)
Lemma Delete_at t C c l i k v r : ordered (fn := fn) (K := K) (ord := ord) true t (plug C (Node c l i k v r)) -> calm t ->
  returns (Delete true t (Z.of_nat i)) (fun t' => models t' (elementsBefore C ++ elements l ++ elements r ++ elementsAfter C) /\ used t' <= used t /\ Capacity t' <= Capacity t).
Proof.
  intros [R Hcmp HK HS] Hcalm. eapply returns_mono; [by apply (Delete_ok true t C c l i k v r)|]. intros t' (T' & R' & He & Hc & Hu & Hcap). split; [|done].
  exists T'. split; [|done]. split; [done|congruence|exact (keysIn_without C c l i k v r T' HK He)|].
  rewrite elements_plug in HS. cbn [elements] in HS. rewrite <- app_assoc, app_assoc in HS. cbn [app] in HS. rewrite He, app_assoc. eapply sorted_without; [apply key_preorder|exact HS].
Qed.

Definition simulatedSet (k : nat) (c : TaggedTree * W) (L : list entry) (op : SetOp) : Prop :=
  (setStep env c op).1 = (setSpec ord L op).1 /\ setRep (S k) (setStep env c op).2 (setSpec ord L op).2.

Section Step.
  Variables (k : nat) (t : TaggedTree) (w : W) (L : list entry).
  Hypothesis HR : setRep k (t, w) L.

Lemma add_simulated value : Z.of_nat k < 2 ^ 25 -> K value -> simulatedSet k (t, w) L (SAdd value).
Proof.
  intros Hk Hkey. unfold simulatedSet. cbn [setStep setSpec fst snd]. unfold TreeSet.treeset_add, TreeSet.Add. cbn [receive]. rewrite bind_Ok, present_branch by (by eapply key_present).
  pose proof HR as (HM & Hu & Hcap). cbn [fst] in *. assert (growable t) as Hg by (right; unfold MIN_CAPACITY in *; lia).
  pose proof (Insert_models true t L w value value HM Hkey ltac:(done) Hg Hversion) as HI. apply returns_iff in HI as ([t' w'] & -> & HM' & Hu' & Hcap').
  cbn. split; [done|]. split_and!; [done|cbn; lia|cbn; unfold MIN_CAPACITY in *; lia].
Qed.

Lemma has_simulated key : K key -> simulatedSet k (t, w) L (SHas key).
Proof.
  intros Hkey. apply setLook_ok; [done|]. cbn [setSpec fst]. unfold TreeSet.treeset_has, TreeSet.Has. cbn [receive]. rewrite bind_Ok. destruct HR as (HM & _).
  eapply returns_bind; [by apply (FindEntry_models true t L w key)|]. intros [index w'] Hl. unfold located in Hl. destruct (findEntry ord key L) as [e|].
  - destruct Hl as (i & -> & _). cbn [returns]. by rewrite nonnegative_id.
  - by destruct Hl as [-> _].
Qed.

Lemma setRemove_simulated key : K key -> calm t -> simulatedSet k (t, w) L (SRemove key).
Proof.
  intros Hkey Hcalm. unfold simulatedSet. cbn [setStep setSpec fst snd]. unfold TreeSet.treeset_remove, TreeSet.Delete. cbn [receive]. rewrite bind_Ok. pose proof HR as (HM & _).
  pose proof (FindEntry_models true t L w key HM Hkey) as HF. apply returns_iff in HF as ([index w'] & -> & Hl). rewrite bind_Ok. unfold located in Hl.
  destruct (findEntry ord key L) as [e|].
  - destruct Hl as (i & -> & Hv & HD & _). rewrite negative_id. specialize (HD Hcalm). apply returns_iff in HD as (t' & -> & HM' & Hu & Hcap). cbn. split; [done|].
    by eapply setRep_change.
  - destruct Hl as [-> ->]. cbn. split; [done|]. by eapply setRep_same.
Qed.

Lemma setClear_simulated : simulatedSet k (t, w) L SClear.
Proof.
  unfold simulatedSet. cbn [setStep setSpec fst snd]. unfold TreeSet.treeset_clear, TreeSet.Clear, TreeSet.GetSize. cbn [receive]. rewrite bind_Ok. pose proof HR as (HM & Hu & Hcap).
  cbn [fst] in *. destruct (models_size true t L HM) as [HN ->]. pose proof HM as (T & HT & HL). pose proof (rep_range _ _ _ (ordered_represents _ _ _ HT)) as Hr.
  pose proof (rep_room _ _ _ (ordered_represents _ _ _ HT)). pose proof (rep_deleted _ _ _ (ordered_represents _ _ _ HT)). destruct (Z.eqb_spec (Z.of_nat (length L)) 0) as [E|E]; cbn.
  - split; [done|]. assert (L = []) as -> by (destruct L; [done|]; cbn in E; lia). by eapply setRep_same.
  - split; [done|]. set (cap := Z.of_nat (length L)) in *. assert (cap < 2 ^ 31) as Hc31 by lia.
    pose proof (ordered_compare _ _ _ HT) as Hcmp. split_and!; cbn [fst].
    + apply (Clear_models (env := env) true t cap Hcmp); tauto.
    + unfold used. rewrite Hcmp. destruct fn; cbn; lia.
    + rewrite Hcmp. assert (Capacity (Create cap) <= Z.max 7 (2 * Z.of_nat (S k) + 1)) as Hb; [|destruct fn; exact Hb].
      unfold Create, MIN_CAPACITY. cbn. unfold used, MIN_CAPACITY in *. destruct (Z.ltb_spec 7 cap); lia.
Qed.

Lemma popFirst_simulated : calm t -> simulatedSet k (t, w) L SPopFirst.
Proof.
  intros Hcalm. unfold simulatedSet. cbn [setStep setSpec fst snd]. unfold TreeSet.treeset_popFirst, TreeSet.PopFirst, TreeSet.Pop. cbn [receive]. rewrite bind_Ok.
  pose proof HR as ((T & HT & HL) & _). cbn [fst] in HT. pose proof (rep_holds _ _ _ (ordered_represents _ _ _ HT)) as H. rewrite (holds_root _ _ _ _ H).
  destruct T as [|c l i x v r] eqn:ET; [rewrite <- HL; cbn; split; [done|]; rewrite <- HL in HR; by eapply setRep_same|]. rewrite <- ET in *.
  destruct (GetMinimum_ok [] _ t [] T ltac:(by rewrite ET) H) as (D & c' & j & k' & v' & r' & E & HD & ->). rewrite bind_Ok, negative_id. clear ET. subst T.
  rewrite (read_key _ _ _ _ _ _ _ _ (node_at [] _ t D _ _ _ _ _ _ H)), bind_Ok.
  pose proof (Delete_at t D c' Leaf j k' v' r' HT Hcalm) as HDel. apply returns_iff in HDel as (t' & -> & HM' & Hu & Hcap). rewrite !bind_Ok. cbn [observe fst snd].
  rewrite elements_plug, (left_nothing_before _ _ D HD) in HL. rewrite (left_nothing_before _ _ D HD) in HM'. cbn [elements app] in HL, HM'. rewrite <- HL. cbn. split; [done|].
  eapply setRep_change; [exact HR|done|done|done].
Qed.

Lemma popLast_simulated : calm t -> simulatedSet k (t, w) L SPopLast.
Proof.
  intros Hcalm. unfold simulatedSet. cbn [setStep setSpec fst snd]. unfold TreeSet.treeset_popLast, TreeSet.PopLast, TreeSet.Pop. cbn [receive]. rewrite bind_Ok.
  pose proof HR as ((T & HT & HL) & _). cbn [fst] in HT. pose proof (rep_holds _ _ _ (ordered_represents _ _ _ HT)) as H. rewrite (holds_root _ _ _ _ H).
  destruct T as [|c l i x v r] eqn:ET; [rewrite <- HL; cbn; split; [done|]; rewrite <- HL in HR; by eapply setRep_same|]. rewrite <- ET in *.
  destruct (GetMaximum_ok [] _ t [] T ltac:(by rewrite ET) H) as (D & c' & l' & j & k' & v' & E & HD & ->). rewrite bind_Ok, negative_id. clear ET. subst T.
  rewrite (read_key _ _ _ _ _ _ _ _ (node_at [] _ t D _ _ _ _ _ _ H)), bind_Ok.
  pose proof (Delete_at t D c' l' j k' v' Leaf HT Hcalm) as HDel. apply returns_iff in HDel as (t' & -> & HM' & Hu & Hcap). rewrite !bind_Ok. cbn [observe fst snd].
  rewrite elements_plug, (right_nothing_after _ _ D HD), app_nil_r in HL. rewrite (right_nothing_after _ _ D HD) in HM'. cbn [elements app] in HL, HM'. rewrite app_nil_r in HM'.
  rewrite <- HL, app_assoc, last_snoc, removelast_last. split; [done|]. eapply setRep_change; [exact HR|done|done|done].
Qed.
End Step.

Lemma setStep_simulates k c L op : setRep k c L -> Z.of_nat k < 2 ^ 25 -> setOk K c op -> simulatedSet k c L op.
Proof.
  destruct c as [t w]. intros HR Hk [HK Hcalm]. pose proof HR as (HM & _). cbn [fst] in HM. pose proof HM as (T & HT & HL).
  pose proof (rep_holds _ _ _ (ordered_represents _ _ _ HT)) as H. pose proof (ordered_compare _ _ _ HT) as Hcmp.
  pose proof (ordered_keys _ _ _ HT) as HKT. pose proof (ordered_sorted _ _ _ HT) as HST.
  destruct op as [value|key|key| | | |key|key| | | |]; cbn [setKey] in HK.
  - by apply add_simulated.
  - by apply setRemove_simulated.
  - by apply has_simulated.
  - unfold simulatedSet. cbn [setStep setSpec]. unfold TreeSet.treeset_getFirstValue. cbn [receive]. rewrite bind_Ok, (GetFirstKey_ok _ _ _ _ H), HL. split; [done|]. by eapply setRep_same.
  - unfold simulatedSet. cbn [setStep setSpec]. unfold TreeSet.treeset_getLastValue. cbn [receive]. rewrite bind_Ok, (GetLastKey_ok _ _ _ _ H), HL. split; [done|]. by eapply setRep_same.
  - by apply setClear_simulated.
  - apply setLook_ok; [done|]. cbn [setSpec fst]. unfold TreeSet.treeset_getLowerValue. cbn [receive]. rewrite bind_Ok, <- HL.
    eapply returns_mono; [by apply (GetLowerKey_ok t key Hcmp HK [] _ T w H)|]. intros [x w'] ->. done.
  - apply setLook_ok; [done|]. cbn [setSpec fst]. unfold TreeSet.treeset_getHigherValue. cbn [receive]. rewrite bind_Ok, <- HL.
    eapply returns_mono; [by apply (GetHigherKey_ok t key Hcmp HK [] _ T w H)|]. intros [x w'] ->. done.
  - by apply popFirst_simulated.
  - by apply popLast_simulated.
  - unfold simulatedSet. cbn [setStep setSpec]. unfold TreeSet.treeset_getLength, TreeSet.GetSize. cbn [receive]. rewrite bind_Ok. destruct (models_size true t L HM) as [_ ->].
    split; [done|]. by eapply setRep_same.
  - unfold simulatedSet. cbn [setStep setSpec]. unfold TreeSet.treeset_isEmpty, TreeSet.GetSize. cbn [receive]. rewrite bind_Ok. destruct (models_size true t L HM) as [_ ->].
    split; [by destruct L|]. by eapply setRep_same.
Qed.

Lemma constructedSet comparefn t0 (w : W) : TreeSet.treeset_constructor true comparefn true = Ok t0 -> GetCompare t0 = fn -> setRep 0 (t0, w) [].
Proof.
  intros Hc Hcmp. pose proof (Clear_models (env := env) true t0 MIN_CAPACITY Hcmp (proj1 Hfn) (proj2 Hfn) ltac:(done)) as HM.
  assert (t0 = match GetCompare t0 with Undefined | Null => Create MIN_CAPACITY | f => SetCompare (Create MIN_CAPACITY) f end) as E.
  { unfold TreeSet.treeset_constructor in Hc. destruct comparefn; injection Hc as <-; done. }
  rewrite <- E in HM. split_and!; [done| |]; cbn [fst]; rewrite E; by destruct (GetCompare t0).
Qed.
End SetRefines.

Definition along_set {W} (env : Env W) (K : JSTaggedValue -> Prop) (t0 : TaggedTree) (w : W) (ops : list SetOp) : Prop :=
  along (setStep env) (setOk K) (t0, w) ops.

Lemma set_runs {W} (env : Env W) fn K ord `{!KeyOrder env fn K ord} comparefn t0 w ops :
  fn <> Undefined /\ fn <> Null -> 20 <= VMAPIVersion env \/ fn = Hole ->
  TreeSet.treeset_constructor true comparefn true = Ok t0 -> GetCompare t0 = fn ->
  Z.of_nat (length ops) <= 2 ^ 25 -> along_set env K t0 w ops ->
  (run (setStep env) (t0, w) ops).1 = (runSpec (setSpec ord) [] ops).1 /\
  models (fn := fn) (K := K) (ord := ord) true (run (setStep env) (t0, w) ops).2.1 (runSpec (setSpec ord) [] ops).2.
Proof.
  intros Hfn Hv Hc Hcmp Hlen Hal.
  destruct (run_along (setStep env) (setSpec ord) (setOk K) (setRep (fn := fn) (K := K) (ord := ord)) (2 ^ 25) (setStep_simulates Hfn Hv) ops 0 (t0, w) []) as [Ho (HM & _)].
  - by eapply constructedSet.
  - done.
  - done.
  - by split.
Qed.


(** A comparison function, the object 7, that puts the larger integer first; it counts its calls. *)
Definition smallValue (v : JSTaggedValue) : Z := match v with Int z => z | _ => 0 end.
Definition descendingEnv : Env Z :=
  mkEnv Z (fun w _ x y => Ok (Int (smallValue y - smallValue x), w + 1)) (fun _ _ => Err OutOfBounds) (fun _ _ => Err OutOfBounds) 20 (fun _ => 0).
Definition isSmall (v : JSTaggedValue) : Prop := exists z, v = Int z.
Definition descendingOrder (x y : JSTaggedValue) : comparison := smallValue y ?= smallValue x.

Lemma descending_order : KeyOrder descendingEnv (Object 7) isSmall (functionOrder descendingOrder).
Proof.
  apply (function_KeyOrder descendingEnv false); [done|by intros k [z ->]| |].
  - split; unfold descendingOrder; intros; [apply Z.compare_antisym|]. rewrite !Z.compare_ngt_iff in *. lia.
  - intros w x y [a ->] [b ->] _ _. exists (Int (b - a)), (w + 1). split; [done|]. cbn. split; [done|]. unfold descendingOrder. cbn. symmetry. apply Z.compare_sub.
Qed.

Definition sampleSetOps : list SetOp := [SAdd (Int 5); SAdd (Int 8); SAdd (Int 2); SAdd (Int 8); SFirst; SPopLast; SHas (Int 2); SLower (Int 5); SPopFirst; SLength].

