(* ===== verification/TreeIteration.v ===== *)
(** * Iterating over trees

    The iterators and [forEach] of the tree containers give the entries in order, as long as the
    container is left alone. *)

From Stdlib Require Import ZArith Lia.
From stdpp Require Import sets.
From S2P Require Import Prelude BigIntBase Double Values SortSpec Containers TaggedTree TreeRep TreeBalance TreeDelete TreeRemove TreeCopy TreeState TreeSearch TreeInsert TreeQuery TreeOrder TreeContainers TreeMapCorrect.

Section Iterate.
  Context {C It A : Type}.
  Variable next : C -> It -> result (option A * It).

(** What [n] calls of [next] give. *)
Fixpoint collect (n : nat) (c : C) (iter : It) : result (list (option A) * It) :=
  match n with
  | O => Ok ([], iter)
  | S n => '(item, iter) ← next c iter; '(items, iter) ← collect n c iter; Ok (item :: items, iter)
  end.
End Iterate.

(** The entries of a tree hold its elements. *)
Lemma entries_hold t p T : linked (entriesOf t) p T ->
  Forall2 (fun j e => TaggedTree.GetKey t (Z.of_nat j) = Ok e.1 /\ TaggedTree.GetValue t (Z.of_nat j) = Ok e.2) (ids T) (elements T).
Proof.
  revert p. induction T as [|c l IHl i k v r IHr]; intros p H; cbn [ids elements]; [constructor|]. destruct H as (Hi & Hl & Hr).
  apply Forall2_app; [by eapply IHl|]. constructor; [|by eapply IHr]. split; [eapply read_key, Hi|eapply read_value, Hi].
Qed.

Section Listed.
  Variables (t : TaggedTree) (T : tree).
  Hypothesis R : holds [] (headerOf t) t T.
  Hypothesis HN : NumberOfElements t = Z.of_nat (length (ids T)).
  Hypothesis Hsmall : Z.of_nat (length (ids T)) < 2 ^ 31.

Definition sorted_ : list JSTaggedValue := Int ∘ Z.of_nat <$> ids T.

Lemma listing : GetSortArray t = Ok sorted_.
Proof. by eapply GetSortArray_ok. Qed.

Lemma entryNumber_at m k v : elements T !! m = Some (k, v) -> exists j, entryNumber sorted_ (Z.of_nat m) = Ok j /\ TaggedTree.GetKey t j = Ok k /\ TaggedTree.GetValue t j = Ok v.
Proof.
  intros Hm. destruct (Forall2_lookup_r _ _ _ _ _ (entries_hold t (-1) T (holds_linked _ _ _ _ R)) Hm) as (j & Hj & Hk & Hv). exists (Z.of_nat j). split_and!; [|done|done].
  unfold entryNumber, get, sorted_. rewrite Nat2Z.id, list_lookup_fmap, Hj. done.
Qed.

(** The iterator before the entry [m]. *)
Definition iteratorAt (kind : IterationKind) (m : nat) (iter : TreeIterator) : Prop :=
  attachedTo iter = true /\ GetNextIndex iter = Z.of_nat m /\ GetIterationKind iter = kind /\ (GetEntries iter = None \/ GetEntries iter = Some sorted_).

Definition mapItem (kind : IterationKind) (e : entry) : Item :=
  match kind with KEY => ItemValue e.1 | VALUE => ItemValue e.2 | KEY_AND_VALUE => ItemPair e.1 e.2 end.

Lemma entries_ready kind m iter : iteratorAt kind m iter ->
  (match GetEntries iter with
   | Some entries => if NumberOfElements t =? Z.of_nat (length entries) then Ok entries else GetSortArray t
   | None => GetSortArray t end) = Ok sorted_.
Proof.
  intros (_ & _ & _ & [->| ->]); [apply listing|]. rewrite HN. unfold sorted_. rewrite length_fmap. by rewrite Z.eqb_refl.
Qed.

Lemma Next_entry kind m iter e : iteratorAt kind m iter -> elements T !! m = Some e ->
  exists iter', TreeMap.Next t iter = Ok (Some (mapItem kind e), iter') /\ iteratorAt kind (S m) iter'.
Proof.
  intros Hit Hm. pose proof Hit as (Ha & Hn & Hk & _). destruct e as [k v]. unfold TreeMap.Next. rewrite Ha. cbn [negb]. rewrite (entries_ready kind m iter Hit), bind_Ok, Hn.
  apply lookup_lt_Some in Hm as Hlt. rewrite length_elements in Hlt. rewrite u32_small by (unfold is_u32, BASE; lia). rewrite HN. destruct (Z.ltb_spec (Z.of_nat m) (Z.of_nat (length (ids T)))); [|lia].
  destruct (entryNumber_at m k v Hm) as (j & -> & Hkey & Hval). rewrite bind_Ok, Hkey, bind_Ok. cbn [GetIterationKind]. rewrite Hk, Hval.
  exists (mkTreeIterator true (Z.of_nat m + 1) kind (Some sorted_)). split; [by destruct kind|]. split_and!; [done|cbn; lia|done|by right].
Qed.

Lemma Next_end kind iter : iteratorAt kind (length (ids T)) iter ->
  TreeMap.Next t iter = Ok (None, mkTreeIterator false (Z.of_nat (length (ids T))) kind (Some sorted_)).
Proof.
  intros Hit. pose proof Hit as (Ha & Hn & Hk & _). unfold TreeMap.Next. rewrite Ha. cbn [negb]. rewrite (entries_ready _ _ iter Hit), bind_Ok, Hn, Hk.
  rewrite u32_small by (unfold is_u32, BASE; lia). rewrite HN, Z.ltb_irrefl. done.
Qed.

Lemma collect_rest kind n m iter : iteratorAt kind m iter -> (n + m = length (elements T))%nat ->
  collect TreeMap.Next (S n) t iter = Ok (map (fun e => Some (mapItem kind e)) (drop m (elements T)) ++ [None], mkTreeIterator false (Z.of_nat (length (ids T))) kind (Some sorted_)).
Proof.
  revert m iter. induction n as [|n IH]; intros m iter Hit Hm.
  - cbn [collect]. assert (m = length (ids T)) as -> by (rewrite length_elements in Hm; lia). rewrite (Next_end kind iter Hit), bind_Ok.
    rewrite drop_ge by (rewrite length_elements; lia). done.
  - change (collect TreeMap.Next (S (S n)) t iter) with ('(item, iter) ← TreeMap.Next t iter; '(items, iter) ← collect TreeMap.Next (S n) t iter; Ok (item :: items, iter)).
    destruct (lookup_lt_is_Some_2 (elements T) m ltac:(lia)) as [e He]. destruct (Next_entry kind m iter e Hit He) as (iter' & -> & Hit'). rewrite bind_Ok.
    rewrite (IH (S m) iter' Hit' ltac:(lia)), bind_Ok. by rewrite (drop_S _ _ _ He).
Qed.

Lemma TreeMap_collect kind : (iter ← TreeMap.treemap_iterator (This t) kind; collect TreeMap.Next (S (length (elements T))) t iter) =
  Ok (map (fun e => Some (mapItem kind e)) (elements T) ++ [None], mkTreeIterator false (Z.of_nat (length (ids T))) kind (Some sorted_)).
Proof. unfold TreeMap.treemap_iterator. cbn [receive]. rewrite !bind_Ok. rewrite (collect_rest kind _ 0); [done| |lia]. split_and!; by auto. Qed.

(** The iterator of a set does the same where the values are the keys. *)
Lemma TreeSet_Next kind m iter : Forall (fun e => e.2 = e.1) (elements T) -> iteratorAt kind m iter -> (m <= length (ids T))%nat -> TreeSet.Next t iter = TreeMap.Next t iter.
Proof.
  intros Hset Hit Hm. pose proof Hit as (Ha & Hn & Hk & _). unfold TreeSet.Next, TreeMap.Next. rewrite Ha. cbn [negb]. rewrite !(entries_ready kind m iter Hit), !bind_Ok, Hn, Hk.
  rewrite u32_small by (unfold is_u32, BASE; lia). destruct (Z.ltb_spec (Z.of_nat m) (NumberOfElements t)) as [Hlt|]; [|done].
  destruct (lookup_lt_is_Some_2 (elements T) m ltac:(rewrite length_elements; lia)) as [[k v] He]. destruct (entryNumber_at m k v He) as (j & -> & Hkey & Hval).
  rewrite Forall_forall in Hset. pose proof (Hset _ (list_elem_of_lookup_2 _ _ _ He)) as Hv. cbn in Hv. subst v. rewrite !bind_Ok, Hkey, !bind_Ok, Hval. cbn [GetIterationKind]. by destruct kind.
Qed.

Lemma TreeSet_rest kind n m iter : Forall (fun e => e.2 = e.1) (elements T) -> iteratorAt kind m iter -> (n + m = length (elements T))%nat ->
  collect TreeSet.Next (S n) t iter = collect TreeMap.Next (S n) t iter.
Proof.
  intros Hset. revert m iter. induction n as [|n IH]; intros m iter Hit Hm; rewrite length_elements in Hm; cbn [collect]; rewrite (TreeSet_Next kind m iter Hset Hit ltac:(lia)); [done|].
  destruct (lookup_lt_is_Some_2 (elements T) m ltac:(rewrite length_elements; lia)) as [e He]. destruct (Next_entry kind m iter e Hit He) as (iter' & -> & Hit'). rewrite !bind_Ok.
  change (TreeSet.Next t iter' ≫= _) with ('(item, iter) ← TreeSet.Next t iter'; '(items, iter) ← collect TreeSet.Next n t iter; Ok (item :: items, iter)).
  f_equal. apply (IH (S m) iter' Hit'). rewrite length_elements. lia.
Qed.

(** *** [forEach] *)

(** A callback that leaves the container alone and does not throw. *)
Definition quietCallback {W} (cb : TreeCallback W) (f : W -> JSTaggedValue -> JSTaggedValue -> W) : Prop :=
  forall w iterated container value key, cb w iterated container value key = Ok (f w value key, iterated, container).

Lemma forEachLoop_quiet {W} (cb : TreeCallback W) f fuel m w : quietCallback cb f -> (length (drop m (elements T)) <= fuel)%nat -> (m <= length (elements T))%nat ->
  forEachLoop TreeMap.entryArguments cb fuel w t t sorted_ (NumberOfElements t) (Z.of_nat m) = Ok (fold_left (fun w e => f w e.2 e.1) (drop m (elements T)) w, t).
Proof.
  intros Hcb. revert m w. induction fuel as [|fuel IH]; intros m w Hf Hm; cbn [forEachLoop]; rewrite HN; destruct (Z.ltb_spec (Z.of_nat m) (Z.of_nat (length (ids T)))) as [Hlt|Hge].
  1: exfalso; rewrite length_drop, length_elements in Hf; lia.
  1,3: rewrite drop_ge by (rewrite length_elements; lia); done.
  destruct (lookup_lt_is_Some_2 (elements T) m ltac:(rewrite length_elements; lia)) as [[k v] He]. destruct (entryNumber_at m k v He) as (j & -> & Hk & Hv).
  rewrite bind_Ok. unfold TreeMap.entryArguments. rewrite Hk, bind_Ok, Hv, !bind_Ok, Hcb, bind_Ok. rewrite i32_nonneg by lia.
  unfold sorted_ at 1. rewrite length_fmap, HN, Z.eqb_refl. cbn [negb]. replace (Z.of_nat m + 1) with (Z.of_nat (S m)) by lia. rewrite <- HN. rewrite (drop_S _ _ _ He) in Hf |- *.
  cbn [length] in Hf. rewrite IH; [done|lia|]. rewrite length_elements. lia.
Qed.

Lemma ForEach_quiet {W} (cb : TreeCallback W) f fuel w : quietCallback cb f -> (length (elements T) <= fuel)%nat ->
  TreeMap.treemap_forEach (This t) (Some cb) fuel w = Ok (fold_left (fun w e => f w e.2 e.1) (elements T) w, t).
Proof.
  intros Hcb Hf. unfold TreeMap.treemap_forEach, ForEach. cbn [receive]. rewrite bind_Ok, listing, bind_Ok. apply (forEachLoop_quiet cb f fuel 0 w Hcb Hf). lia.
Qed.
End Listed.

(** The iterator of a tree set gives every element once, in order, and then reports the end. *)
Theorem TreeSet_iterates {W} (env : Env W) fn K ord `{!KeyOrder env fn K ord} t L kind :
  models (fn := fn) (K := K) (ord := ord) true t L ->
  exists iter', (iter ← TreeSet.treeset_iterator (This t) kind; collect TreeSet.Next (S (length L)) t iter) =
    Ok (map (fun e => Some (match kind with KEY_AND_VALUE => ItemPair e.1 e.1 | _ => ItemValue e.1 end)) L ++ [None], iter').
Proof.
  intros (T & [R _ _ HS] & <-). pose proof (rep_holds _ _ _ R) as H. pose proof (rep_number _ _ _ R) as HN. pose proof (rep_consistent _ _ _ R eq_refl) as Hset.
  assert (Z.of_nat (length (ids T)) < 2 ^ 31) as Hsmall by (pose proof (rep_room _ _ _ R); pose proof (rep_range _ _ _ R); pose proof (rep_deleted _ _ _ R); lia).
  eexists. unfold TreeSet.treeset_iterator. cbn [receive]. rewrite !bind_Ok. assert (iteratorAt T kind 0 (NewTreeIterator kind)) as Hit by (split_and!; by auto).
  rewrite (TreeSet_rest t T H HN Hsmall kind (length (elements T)) 0 _ Hset Hit ltac:(lia)), (collect_rest t T H HN Hsmall kind (length (elements T)) 0 _ Hit ltac:(lia)). cbn [drop]. f_equal. f_equal. f_equal.
  apply map_ext_in. intros [k v] He%list_elem_of_In. rewrite Forall_forall in Hset. specialize (Hset _ He). cbn in Hset. subst v. by destruct kind.
Qed.


