(* ===== verification/TreeLimits.v ===== *)
(** * Depth, and what goes wrong

    Searches are logarithmic.  Four behaviours of the tree containers that no sorted map has: removing
    the last element of a large array, comparison functions that answer with fractions, comparison
    functions that are lost, and iterators that do not see a change. *)

From Stdlib Require Import ZArith Lia.
From stdpp Require Import sets.
From S2P Require Import Prelude BigIntBase Double Values SortSpec Containers TaggedTree TreeRep TreeBalance TreeDelete TreeRemove TreeCopy TreeState TreeSearch TreeInsert TreeQuery TreeOrder TreeContainers TreeMapCorrect TreeSetCorrect TreeIteration.

(** ** Depth *)

(** The way down to the place of a key. *)
Lemma search_in_models {W} (env : Env W) fn K ord `{!KeyOrder env fn K ord} shared t L w key :
  models (fn := fn) (K := K) (ord := ord) shared t L -> L <> [] -> K key ->
  returns (rootKey ← GetKey t (GetRootEntries t); descend env (2 * Nat.log2 (S (length L))) t t w key (GetRootEntries t) rootKey)
    (fun '(res, _, _) => res = EQUAL <-> findEntry ord key L <> None).
Proof.
  intros (T & [R Hfn HK HS] & <-) HL Hkey. pose proof (rep_holds _ _ _ R) as H. rewrite (root_key _ _ _ _ H), bind_Ok, (holds_root _ _ _ _ H).
  assert (T <> Leaf) as HT by (by intros ->). eapply returns_mono; [apply (descend_ok (ord := ord) _ t t [] _ w key [] T Hfn Hkey H HK HS); [constructor|constructor|done|]|].
  - pose proof (redBlack_height T (rep_balanced _ _ _ R)). rewrite length_elements. lia.
  - intros [[res index] w'] Hr. cbn [plug] in Hr. destruct res.
    + split; [done|]. destruct (reached_left _ _ _ HS Hr) as (C & c & i & k & v & r & -> & _ & HB & HA).
      change (plug C (Node c Leaf i k v r)) with (plug (InLeft c i k v r :: C) Leaf). rewrite elements_plug. cbn [elements app]. by rewrite findEntry_new.
    + split; [|done]. intros _. destruct (reached_equal _ _ _ HS Hr) as (C & c & l & i & k & v & r & HF & _). by rewrite (foundAt_find _ _ _ _ _ _ _ _ _ HF).
    + split; [done|]. destruct (reached_right _ _ _ HS Hr) as (C & c & l & i & k & v & -> & _ & HB & HA).
      change (plug C (Node c l i k v Leaf)) with (plug (InRight c l i k v :: C) Leaf). rewrite elements_plug. cbn [elements app]. by rewrite findEntry_new.
    + exfalso. destruct Hr as (? & ? & ? & ? & ? & ? & ? & _ & _ & Hr & _). by destruct (ord key _).
Qed.

(** What an array that holds [L] is: a red-black tree with the entries in order, which is not deep. *)
Lemma models_redBlack {W} {env : Env W} fn K ord `{!KeyOrder env fn K ord} shared t L : models (fn := fn) (K := K) (ord := ord) shared t L ->
  exists T, holds [] (headerOf t) t T /\ redBlack T /\ elements T = L /\ (height T <= 2 * Nat.log2 (S (length L)))%nat.
Proof.
  intros (T & [R _ _ _] & <-). exists T. split_and!; [apply R|apply R|done|]. pose proof (redBlack_height T (rep_balanced _ _ _ R)) as H. by rewrite length_elements.
Qed.

(** The search in [t] for a key, with the levels that suffice for [L]. *)
Definition searchFor {W} (env : Env W) (t : TaggedTree) (L : list entry) (w : W) (key : JSTaggedValue) : result (ComparisonResult * Z * W) :=
  rootKey ← GetKey t (GetRootEntries t); descend env (2 * Nat.log2 (S (length L))) t t w key (GetRootEntries t) rootKey.

(** C22: After any calls on a new tree map or tree set (under the conditions of [TreeMap_refines_sorted_map]
    and [TreeSet_refines_sorted_set]) the array holds a red-black tree: the root is black, no red node
    has a red child, every way down has the same number of black nodes, and the entries are in the order
    of the keys.  So a search in [n] entries goes down at most [2 * log2 (n + 1)] levels, and it stops
    at an entry with the key exactly if there is one. *)
Theorem search_is_logarithmic {W} (env : Env W) fn K ord `{!KeyOrder env fn K ord} comparefn w (Hfn : fn <> Undefined /\ fn <> Null)
    (Hversion : 20 <= VMAPIVersion env \/ fn = Hole) :
  (forall t0 ops, TreeMap.treemap_constructor true comparefn true = Ok t0 -> GetCompare t0 = fn -> Z.of_nat (length ops) <= 2 ^ 25 -> along_map env K t0 w ops ->
    let t := (run (mapStep env) (t0, w) ops).2.1 in let L := (runSpec (mapSpec ord) [] ops).2 in
    (exists T, holds [] (headerOf t) t T /\ redBlack T /\ elements T = L /\ (height T <= 2 * Nat.log2 (S (length L)))%nat) /\
    (forall w key, L <> [] -> K key -> returns (searchFor env t L w key) (fun '(res, _, _) => res = EQUAL <-> findEntry ord key L <> None))) /\
  (forall t0 ops, TreeSet.treeset_constructor true comparefn true = Ok t0 -> GetCompare t0 = fn -> Z.of_nat (length ops) <= 2 ^ 25 -> along_set env K t0 w ops ->
    let t := (run (setStep env) (t0, w) ops).2.1 in let L := (runSpec (setSpec ord) [] ops).2 in
    (exists T, holds [] (headerOf t) t T /\ redBlack T /\ elements T = L /\ (height T <= 2 * Nat.log2 (S (length L)))%nat) /\
    (forall w key, L <> [] -> K key -> returns (searchFor env t L w key) (fun '(res, _, _) => res = EQUAL <-> findEntry ord key L <> None))).
Proof.
  split; intros t0 ops H0 Hc Hlen Hal t L.
  - destruct (map_runs env fn K ord comparefn t0 w ops Hfn Hversion H0 Hc Hlen Hal) as [_ HM].
    split; [by apply (models_redBlack fn K ord false)|]. intros w' key HL Hkey. by apply (search_in_models env fn K ord false).
  - destruct (set_runs env fn K ord comparefn t0 w ops Hfn Hversion H0 Hc Hlen Hal) as [_ HM].
    split; [by apply (models_redBlack fn K ord true)|]. intros w' key HL Hkey. by apply (search_in_models env fn K ord true).
Qed.

Lemma search_is_logarithmic_witness : returns (searchFor plainEnv sampleMap sampleEntries tt (Int 9)) (fun '(res, _, _) => res = EQUAL).
Proof.
  destruct (proj1 (search_is_logarithmic plainEnv Hole defaultKey defaultOrder Undefined tt ltac:(done) ltac:(by right))
    (Create MIN_CAPACITY) sampleMapOps ltac:(done) ltac:(done) ltac:(by vm_compute) sampleMapOps_ok) as [_ H].
  eapply returns_mono; [apply (H tt (Int 9)); [discriminate|right; split; reflexivity]|]. intros [[res index] w'] Hr. apply Hr. discriminate.
Defined.

(** ** The last element of a large array *)

Lemma single_node T k v : elements T = [(k, v)] -> exists c i, T = Node c Leaf i k v Leaf.
Proof.
  destruct T as [|c l i k' v' r]; [done|]. cbn. intros E. destruct (elements l) as [|e1 L1] eqn:El; [|exfalso; apply (f_equal length) in E; cbn in E; rewrite length_app in E; cbn in E; lia].
  injection E as -> -> Er. assert (forall s, elements s = [] -> s = Leaf) as Hleaf by (intros [|]; cbn; [done|]; intros E; by apply app_nil in E as [_ ?]).
  exists c, i. by rewrite (Hleaf l El), (Hleaf r Er).
Qed.

(** The copy of no entry. *)
Lemma CopyEntry_none shared t new index e : entriesOf new !! index = Some e ->
  CopyEntry shared t (-1) new (Z.of_nat index) = Ok (withEntries new (<[index := mkEntry (if shared then Int (NumberOfElements t) else Hole) (Int (NumberOfElements t)) BLACK
    (entryParent e) (entryLeft e) (entryRight e)]> (entriesOf new))).
Proof.
  intros He. unfold CopyEntry, GetKey, GetColor, GetValue, SetKey, SetColor, SetValue. cbn [Z.ltb Z.compare Z.eqb Pos.eqb]. rewrite nonnegative_id, !bind_Ok.
  rewrite (update_eq _ _ _ _ He), !bind_Ok. erewrite update_eq by look. rewrite !bind_Ok. erewrite update_eq by look.
  cbn [withEntries entriesOf valued colored keyed entryKey entryValue entryColor entryParent entryLeft entryRight]. rewrite !list_insert_insert_eq. by destruct shared.
Qed.

Definition phantom (shared : bool) : Entry := mkEntry (if shared then Int 0 else Hole) (Int 0) BLACK (Int (-1)) Hole Hole.

(** An array without elements is rebuilt with its root at the entry 0, and the number of elements
    as the value there. *)
Lemma rebuild_empty shared hd t len : holds [] hd t Leaf -> NumberOfElements t = 0 -> NumberOfDeletedElements t <> 0 -> (0 < len)%nat ->
  exists es, AdjustTaggedTree shared t (Z.of_nat len) = Ok (mkTree 0 0 0 0 Hole es) /\ es !! 0%nat = Some (phantom shared).
Proof.
  intros H HN HD Hlen. unfold AdjustTaggedTree. destruct (Z.eqb_spec (NumberOfDeletedElements t) 0); [done|]. rewrite HN, Nat2Z.id.
  set (new := mkTree _ _ _ _ _ _). assert (entriesOf new !! 0%nat = Some emptyEntry) as He by (by apply lookup_replicate_2).
  unfold SetParent. cbn [Z.ltb Z.compare]. rewrite (update_eq new 0 emptyEntry _ He), bind_Ok. rewrite (holds_root _ _ _ _ H). unfold entryFuel. cbn [ptr copyLoop].
  unfold GetLeftChild, GetRightChild. cbn [Z.ltb Z.compare]. rewrite !bind_Ok. rewrite (CopyEntry_none shared t _ 0 (parented (Int (-1)) emptyEntry)) by look. rewrite bind_Ok.
  eexists. split; [by destruct (length (entriesOf t))|]. cbn [withEntries entriesOf]. rewrite list_insert_insert_eq, HN. apply list_lookup_insert_eq. by eapply lookup_lt_Some.
Qed.

Lemma Shrink_empty shared t : represents shared t Leaf -> 0 < NumberOfDeletedElements t -> 31 <= Capacity t ->
  returns (Shrink shared t) (fun t' => NumberOfElements t' = 0 /\ GetRootEntries t' = 0 /\ entriesOf t' !! 0%nat = Some (phantom shared)).
Proof.
  intros R HD Hcap. pose proof (rep_range _ _ _ R) as Hr. pose proof (rep_number _ _ _ R) as HN. change (Z.of_nat (length (ids Leaf))) with 0 in HN. unfold Shrink. rewrite HN. change (i32 0) with 0.
  destruct (Z.leb_spec ((Capacity t + 1) / 4) 0) as [Hle|_]; [exfalso; assert (8 <= (Capacity t + 1) / 4) by (apply Z.div_le_lower_bound; lia); lia|].
  rewrite u32_small, Z.shiftr_div_pow2 by (unfold is_u32, BASE, MIN_CAPACITY in *; lia). change (2 ^ 1) with 2.
  assert (15 <= (Capacity t - 1) / 2) as H15 by (apply Z.div_le_lower_bound; lia). unfold MIN_SHRINK_CAPACITY. destruct (Z.ltb_spec ((Capacity t - 1) / 2) 15); [lia|].
  destruct (rebuild_empty shared _ t (Z.to_nat ((Capacity t - 1) / 2)) (rep_holds _ _ _ R) HN ltac:(lia) ltac:(lia)) as (es & E & He). rewrite Z2Nat.id in E by lia.
  rewrite E, bind_Ok. cbn [returns]. destruct (GetCompare t); by split_and!.
Qed.

(** C39: Removing the last entry of a tree map whose array has 31 or more entries returns its value and
    leaves a map that says it is empty, but has the value 0, and whose entries cannot be listed: the
    list is written behind its end, for [forEach] and for the iterators. *)
Theorem TreeMap_remove_last {W} (env : Env W) fn K ord `{!KeyOrder env fn K ord} t w key k v :
  models (fn := fn) (K := K) (ord := ord) false t [(k, v)] -> K key -> ord key k = Eq -> 31 <= Capacity t ->
  returns (TreeMap.treemap_remove env (This t) w key) (fun '(value, t', _) => value = v /\ TreeMap.treemap_isEmpty (This t') = Ok true /\
    TreeMap.treemap_hasValue (This t') (Int 0) = Ok true /\ (forall cb fuel (w : W), TreeMap.treemap_forEach (This t') (Some cb) fuel w = Err OutOfBounds)).
Proof.
  intros (T & HT & E) Hkey Hk Hcap. unfold TreeMap.treemap_remove, TreeMap.Delete. cbn [receive]. rewrite bind_Ok.
  eapply returns_bind; [by apply (FindEntry_ok (ord := ord) false t T w key)|]. intros [index w'] [(C & c & l & i & k' & v' & r & HF & ->)|(_ & B & A & E' & HB & HA)]; cycle 1.
  { exfalso. pose proof (findEntry_new ord key B A HB HA) as Hn. rewrite <- E', E in Hn. unfold findEntry, same in Hn. cbn in Hn. by rewrite Hk in Hn. }
  pose proof (foundAt_find _ _ _ _ _ _ _ _ _ HF) as Hfind. rewrite E in Hfind. unfold findEntry, same in Hfind. cbn in Hfind. rewrite Hk in Hfind. injection Hfind as <- <-.
  destruct HF as (-> & _). pose proof (ordered_represents _ _ _ HT) as R. rewrite negative_id. rewrite (read_value _ _ _ _ _ _ _ _ (node_at [] _ t C _ _ _ _ _ _ (rep_holds _ _ _ R))), bind_Ok.
  unfold TaggedTree.Delete. rewrite bind_assoc. eapply returns_bind; [by apply (Remove_represents false t C c l i k v r)|]. intros t1 (T1 & R1 & He1 & _ & Hc1 & HD1 & HN1).
  assert (T1 = Leaf) as ->.
  { pose proof (rep_number _ _ _ R) as HN. pose proof (rep_number _ _ _ R1) as HN'. rewrite <- length_elements, E in HN. cbn in HN. destruct T1; [done|].
    cbn in HN'. rewrite length_app in HN'. cbn in HN'. lia. }
  eapply returns_bind; [apply (Shrink_empty false t1 R1); pose proof (rep_deleted _ _ _ R); lia|]. intros t2 (HN2 & Hroot & He2). cbn [returns]. split_and!; [done| | |].
  - unfold TreeMap.treemap_isEmpty, TreeMap.GetSize. cbn [receive]. rewrite bind_Ok, HN2. done.
  - unfold TreeMap.treemap_hasValue, TreeMap.HasValue, TaggedTree.HasValue. cbn [receive]. rewrite bind_Ok, Hroot. cbn [Z.ltb Z.compare entryFuel hasValueLoop].
    pose proof (read_value t2 0 _ _ _ _ Leaf Leaf He2) as Hv. change (Z.of_nat 0) with 0 in Hv. by rewrite Hv.
  - intros cb fuel w0. unfold TreeMap.treemap_forEach, ForEach, GetSortArray. cbn [receive]. rewrite bind_Ok, Hroot, HN2. cbn [entryFuel sortLoop]. cbn [Z.leb Z.compare orb].
    unfold entryFuel. cbn [pushLeft Z.leb Z.compare]. pose proof (read_leftIndex t2 0 _ _ _ _ Leaf Leaf He2) as Hl. change (Z.of_nat 0) with 0 in Hl. rewrite Hl, bind_Ok. cbn [ptr].
    by destruct (length (entriesOf t2)).
Qed.

(** A map with one entry that has grown to 31 entries: entries that come and go use up the array,
    and [set] makes it grow before it looks for the key. *)
Definition churnOps : list MapOp := MSet (Int 1) Null :: concat (replicate 20 [MSet (Int 2) Null; MRemove (Int 2)]) ++ [MSet (Int 1) Null].
Definition churned : TaggedTree := (run (mapStep plainEnv) (Create MIN_CAPACITY, tt) churnOps).2.1.

Lemma churned_models : models (fn := Hole) (K := defaultKey) (ord := defaultOrder) false churned [(Int 1, Null)].
Proof.
  apply (map_runs plainEnv Hole defaultKey defaultOrder Undefined (Create MIN_CAPACITY) tt churnOps); [done|by right|done|done|by vm_compute|].
  vm_compute. repeat match goal with |- _ /\ _ => split end; try exact I; try (right; split; reflexivity); left; discriminate.
Qed.

Lemma TreeMap_remove_last_witness :
  returns (TreeMap.treemap_remove plainEnv (This churned) tt (Int 1)) (fun '(_, t', _) => TreeMap.treemap_hasValue (This t') (Int 0) = Ok true).
Proof.
  eapply returns_mono; [apply (TreeMap_remove_last plainEnv Hole defaultKey defaultOrder churned tt (Int 1) (Int 1) Null)|].
  - exact churned_models.
  - right. split; reflexivity.
  - reflexivity.
  - vm_compute. discriminate.
  - intros [[value t'] w] (_ & _ & H & _). exact H.
Defined.

(** In a set the entry that should not be there has the key 0: the empty set has it, and gives it
    away. *)
Lemma TreeSet_remove_last :
  (run (setStep plainEnv) (Create MIN_CAPACITY, tt)
    (SAdd (Int 1) :: concat (replicate 20 [SAdd (Int 2); SRemove (Int 2)]) ++ [SAdd (Int 1); SRemove (Int 1); SIsEmpty; SHas (Int 0); SPopFirst; SLength])).1 =
  Nothing :: concat (replicate 20 [Nothing; Truth true]) ++ [Nothing; Truth true; Truth true; Truth true; Value (Int 0); Count (-1)].
Proof. vm_compute. reflexivity. Qed.

(** ** Fractions *)

(** A comparison function that answers with a fraction between -1 and 1 makes two keys equal, whatever
    its sign: the answer is cut to an integer before its sign is looked at. *)
Theorem fraction_is_equal {W} (env : Env W) t w fn x y d u w' : GetCompare t = fn -> fn <> Hole -> isProper x = true -> isProper y = true ->
  CallCompare env w fn x y = Ok (Double d, w') -> scaled d = Some u -> - ONE < u < ONE ->
  EntryCompare env w x y t = Ok (EQUAL, w').
Proof.
  intros Ht Hfn Hx Hy Hcall Hd Hu.
  assert (EntryCompare env w x y t = callCompare env w fn x y) as ->. { unfold EntryCompare. rewrite Ht. destruct fn; try done; destruct x; try done; by destruct y. }
  unfold callCompare. rewrite Hcall, !bind_Ok. unfold ofDouble, num_isnan, castInt. cbn [fst]. rewrite Hd.
  assert (Z.quot u ONE = 0) as Hq. { apply Z.quot_small_iff; [done|]. lia. } by rewrite Hq.
Qed.

(** Half of the difference, for the keys 1 and 2. *)
Definition halfEnv : Env unit := mkEnv unit (fun w _ _ _ => Ok (Double (Z.shiftl 1022 52), w)) (fun _ _ => Err OutOfBounds) (fun _ _ => Err OutOfBounds) 20 (fun _ => 0).

Lemma fraction_is_equal_witness : EntryCompare halfEnv tt (Int 2) (Int 1) (SetCompare (Create MIN_CAPACITY) (Object 7)) = Ok (EQUAL, tt).
Proof.
  apply (fraction_is_equal halfEnv (SetCompare (Create MIN_CAPACITY) (Object 7)) tt (Object 7) (Int 2) (Int 1) (Z.shiftl 1022 52) (2 ^ 1073) tt).
  - reflexivity.
  - discriminate.
  - reflexivity.
  - reflexivity.
  - reflexivity.
  - vm_compute. reflexivity.
  - vm_compute. split; reflexivity.
Defined.

(** ** Iterators that do not see a change *)

Definition setKeys (keys : list Z) : list MapOp := map (fun k => MSet (Int k) Null) keys.
Definition removeKeys (keys : list Z) : list MapOp := map (fun k => MRemove (Int k)) keys.
Definition mapAfter (ops : list MapOp) : TaggedTree := (run (mapStep plainEnv) (Create MIN_CAPACITY, tt) ops).2.1.

(** Eight entries in an array of 31. *)
Definition beforeChange : list MapOp := setKeys (seqZ 0 16) ++ removeKeys (seqZ 0 8).
(** One entry is removed, which moves the others to a smaller array, and set again. *)
Definition afterChange : list MapOp := beforeChange ++ [MRemove (Int 12); MSet (Int 12) Null].

(** An iterator notices a change of the map by the number of elements only.  When an entry is
    removed and set again between two calls of [next], and the array shrinks, the next key is a hole,
    and before the end the iterator reads behind the array. *)
Theorem iterator_misses_change :
  exists iter, TreeMap.Next (mapAfter beforeChange) (NewTreeIterator KEY) = Ok (Some (ItemValue (Int 8)), iter) /\
    (exists iter', TreeMap.Next (mapAfter afterChange) iter = Ok (Some (ItemValue Hole), iter')) /\
    collect TreeMap.Next 7 (mapAfter afterChange) iter = Err OutOfBounds /\
    map (fun op => match op with MGet key => (mapStep plainEnv (mapAfter afterChange, tt) op).1 | _ => Nothing end) [MGet (Int 8); MGet (Int 9); MGet (Int 12)] =
      [Value Null; Value Null; Value Null].
Proof. eexists. split_and!; [vm_compute; reflexivity|eexists; vm_compute; reflexivity|vm_compute; reflexivity|vm_compute; reflexivity]. Qed.
