(* ===== verification/TreeSetAll.v ===== *)
(** * [setAll] of tree maps

    [TaggedTreeMap::SetAll] inserts the entries of another map, breadth first; afterwards the map has the
    values of the other one, and its own where the other one has none. *)

From Stdlib Require Import ZArith Lia Sorted.
From stdpp Require Import sets sorting.
From S2P Require Import Prelude BigIntBase Double Values SortSpec Containers TaggedTree TreeRep TreeBalance TreeDelete TreeRemove TreeCopy TreeState TreeSearch TreeInsert TreeQuery TreeOrder TreeContainers TreeMapCorrect.

(** ** Inserting many entries *)

Section Fold.
  Variable ord : JSTaggedValue -> JSTaggedValue -> comparison.
  Hypothesis Hord : preorder ord.

Definition insertAll (P L : list entry) : list entry := fold_left (fun L e => insertEntry ord false e.1 e.2 L) P L.

Lemma same_flip x y : same ord x y = same ord y x.
Proof. unfold same. rewrite (opposite ord Hord x y). by destruct (ord x y). Qed.

Lemma same_trans x y z : same ord x y = true -> same ord x z = same ord y z.
Proof.
  intros Hxy. assert (leq ord x y) as H1 by (unfold same, leq in *; by destruct (ord x y)).
  assert (leq ord y x) as H2 by (rewrite same_flip in Hxy; unfold same, leq in *; by destruct (ord y x)).
  apply eq_iff_eq_true. split; intros Hz.
  - apply leq_same; [done| |]; [apply (leq_trans ord Hord _ x); [done|]|apply (leq_trans ord Hord _ x); [|done]];
      [unfold same, leq in *; by destruct (ord x z)|rewrite same_flip in Hz; unfold same, leq in *; by destruct (ord z x)].
  - apply leq_same; [done| |]; [apply (leq_trans ord Hord _ y); [done|]|apply (leq_trans ord Hord _ y); [|done]];
      [unfold same, leq in *; by destruct (ord y z)|rewrite same_flip in Hz; unfold same, leq in *; by destruct (ord z y)].
Qed.

Lemma find_insert key k v L : valueOf (findEntry ord key (insertEntry ord false k v L)) = if same ord key k then v else valueOf (findEntry ord key L).
Proof.
  unfold findEntry. induction L as [|[k' v'] L IH]; cbn [insertEntry]; [cbn; by destruct (same ord key k)|]. destruct (ord k k') eqn:E; cbn [find fst].
  - assert (same ord k k' = true) as Hs by (unfold same; by rewrite E). rewrite (same_flip key k'), (same_flip key k), (same_trans k k' key Hs). by destruct (same ord k' key).
  - by destruct (same ord key k).
  - destruct (same ord key k') eqn:Es; [|done]. rewrite (same_trans key k' k Es). unfold same. by rewrite (opposite ord Hord k k'), E.
Qed.

(** Different entries have different keys. *)
Definition distinct (P : list entry) : Prop := NoDup P /\ forall a b, a ∈ P -> b ∈ P -> same ord a.1 b.1 = true -> a = b.

Lemma sorted_distinct L : sortedEntries ord L -> distinct L.
Proof.
  unfold sortedEntries. induction 1 as [|e L HL [IHn IHd] He]; [split; [constructor|set_solver]|]. rewrite Forall_forall in He.
  assert (ord e.1 e.1 <> Lt) as Hirr by (pose proof (opposite ord Hord e.1 e.1); by destruct (ord e.1 e.1)).
  split; [constructor; [intros Hin; by apply Hirr, He|done]|]. intros a b Ha Hb Hs. apply elem_of_cons in Ha as [->|Ha], Hb as [->|Hb]; [done| | |by apply IHd].
  - apply He in Hb. unfold same in Hs. by rewrite Hb in Hs.
  - apply He in Ha. rewrite same_flip in Hs. unfold same in Hs. by rewrite Ha in Hs.
Qed.

Lemma distinct_find P key e : distinct P -> e ∈ P -> same ord key e.1 = true -> findEntry ord key P = Some e.
Proof.
  intros [_ Hd] He Hs. unfold findEntry. destruct (find _ P) as [e'|] eqn:E.
  - apply find_some in E as [Hin Hs']. f_equal. apply Hd; [by apply list_elem_of_In|done|]. rewrite (same_flip key) in Hs'. by rewrite (same_trans e'.1 key e.1 Hs').
  - exfalso. pose proof (find_none _ _ E e ltac:(by apply list_elem_of_In)) as Hn. cbn in Hn. congruence.
Qed.

Lemma insertAll_value P L key : distinct P ->
  valueOf (findEntry ord key (insertAll P L)) = match findEntry ord key P with Some e => e.2 | None => valueOf (findEntry ord key L) end.
Proof.
  unfold insertAll. revert L. induction P as [|e P IH]; intros L [Hn Hd]; [done|]. cbn [fold_left]. apply NoDup_cons in Hn as [He Hn].
  rewrite IH by (split; [done|]; intros; apply Hd; set_solver). rewrite find_insert. unfold findEntry at 3. cbn [find].
  destruct (same ord key e.1) eqn:Es; [|done]. destruct (findEntry ord key P) as [e'|] eqn:E; [|done]. exfalso. unfold findEntry in E. apply find_some in E as [Hin Hs'].
  apply list_elem_of_In in Hin. rewrite same_flip in Es. assert (e = e') as <- by (apply Hd; [set_solver|set_solver|by rewrite (same_trans e.1 key e'.1 Es)]). done.
Qed.

Lemma distinct_perm P P' : P ≡ₚ P' -> distinct P -> distinct P'.
Proof. intros Hp [Hn Hd]. split; [by rewrite <- Hp|]. intros a b Ha Hb. rewrite <- Hp in Ha, Hb. by apply Hd. Qed.

Lemma find_perm P P' key : P ≡ₚ P' -> distinct P -> findEntry ord key P' = findEntry ord key P.
Proof.
  intros Hp Hd. destruct (findEntry ord key P) as [e|] eqn:E.
  - unfold findEntry in E. apply find_some in E as [Hin Hs]. apply distinct_find; [by eapply distinct_perm| |done]. rewrite <- Hp. by apply list_elem_of_In.
  - destruct (findEntry ord key P') as [e|] eqn:E'; [|done]. unfold findEntry in E, E'. apply find_some in E' as [Hin Hs].
    assert (In e P) as Hin' by (apply list_elem_of_In; rewrite Hp; by apply list_elem_of_In). pose proof (find_none _ _ E e Hin') as Hn. cbn in Hn. congruence.
Qed.
End Fold.

(** ** The loop *)

Section SetAll.
  Context {W : Type} {env : Env W} {fn : JSTaggedValue} {K : JSTaggedValue -> Prop} {ord : JSTaggedValue -> JSTaggedValue -> comparison}.
  Context `{HO : !KeyOrder env fn K ord}.
  Hypothesis Hversion : 20 <= VMAPIVersion env \/ fn = Hole.
Notation mapRep := (mapRep (W := W) (fn := fn) (K := K) (ord := ord)).

Lemma setAllLoop_ok src fuel Q k t w L : Forall (fun s => s <> Leaf /\ keysIn (K := K) s /\ exists p, linked (entriesOf src) p s) Q ->
  (length (concat (elements <$> Q)) <= fuel)%nat -> mapRep k (t, w) L -> Z.of_nat (k + length (concat (elements <$> Q))) <= 2 ^ 25 ->
  returns (TreeMap.setAllLoop env fuel t src w (ptr <$> Q)) (fun '(t', w') => exists P, P ≡ₚ concat (elements <$> Q) /\
    mapRep (k + length (concat (elements <$> Q))) (t', w') (insertAll ord P L)).
Proof.
  revert Q k t w L. induction fuel as [|fuel IH]; intros [|[|c l i key value r] Q] k t w L HQ Hf HR Hb; try (by apply Forall_cons in HQ as [[? _] _]).
  1,3: exists []; split; [done|]; cbn [fmap list_fmap concat length]; by rewrite Nat.add_0_r.
  { cbn [fmap list_fmap concat elements] in Hf. rewrite !length_app in Hf. cbn [length] in Hf. lia. }
  cbn [fmap list_fmap concat elements] in Hf, Hb |- *. rewrite !length_app in Hf, Hb |- *. cbn [length] in Hf, Hb |- *.
  apply Forall_cons in HQ as [(_ & HK & p & Hi & Hl & Hr) HQ]. unfold keysIn in HK. cbn [elements] in HK. apply Forall_app in HK as [HKl [Hkey HKr]%Forall_cons]. cbn in Hkey.
  cbn [ptr TreeMap.setAllLoop]. rewrite (read_key _ _ _ _ _ _ _ _ Hi), bind_Ok, (read_value _ _ _ _ _ _ _ _ Hi), bind_Ok.
  pose proof HR as (HM & Hu & Hcap). cbn [fst] in *. assert (growable t) as Hg by (right; unfold MIN_CAPACITY in *; lia).
  eapply returns_bind; [apply (Insert_models false t L w key value HM Hkey ltac:(done) Hg Hversion)|]. intros [t1 w1] [HM1 [Hu1 Hcap1]].
  rewrite (read_leftIndex _ _ _ _ _ _ _ _ Hi), bind_Ok, (read_rightIndex _ _ _ _ _ _ _ _ Hi), bind_Ok.
  assert (forall s : tree, (if 0 <=? ptr s then [ptr s] else []) = ptr <$> (match s with Leaf => [] | _ => [s] end)) as Epush.
  { intros [|c' l' i' k' v' r']; [done|]. cbn [ptr]. by rewrite nonnegative_id. }
  assert (forall s : tree, concat (elements <$> match s with Leaf => [] | _ => [s] end) = elements s) as Eone.
  { intros [|c' l' i' k' v' r']; [done|]. cbn [fmap list_fmap concat]. by rewrite app_nil_r. }
  rewrite !Epush, <- !fmap_app. set (Q' := Q ++ _). assert (concat (elements <$> Q') ≡ₚ elements l ++ elements r ++ concat (elements <$> Q)) as Hp.
  { unfold Q'. rewrite !fmap_app, !concat_app, !Eone. solve_Permutation. }
  assert (length (concat (elements <$> Q')) = length (elements l) + length (elements r) + length (concat (elements <$> Q)))%nat as Hlen by (rewrite Hp, !length_app; lia).
  eapply returns_mono; [apply (IH Q' (S k) t1 w1)|].
  - unfold Q'. apply Forall_app. split; [done|]. apply Forall_app. split; [destruct l|destruct r]; repeat constructor; eauto.
  - rewrite Hlen. lia.
  - split_and!; [exact HM1|cbn; lia|cbn; unfold MIN_CAPACITY in *; lia].
  - rewrite Hlen. lia.
  - intros [t' w'] (P & HP & HR'). exists ((key, value) :: P). split.
    + rewrite HP, Hp. solve_Permutation.
    + rewrite Hlen in HR'. cbn [insertAll fold_left fst snd]. by replace (k + (length (elements l) + S (length (elements r)) + length (concat (elements <$> Q))))%nat
        with (S k + (length (elements l) + length (elements r) + length (concat (elements <$> Q))))%nat by lia.
Qed.

Lemma setAll_ok t L src Ls k w : mapRep k (t, w) L -> Z.of_nat (k + length Ls) <= 2 ^ 25 ->
  models (fn := fn) (K := K) (ord := ord) false src Ls ->
  returns (TreeMap.treemap_setAll env (This t) (This src) w) (fun '(t', _) => exists L', models (fn := fn) (K := K) (ord := ord) false t' L' /\
    forall key, valueOf (findEntry ord key L') = match findEntry ord key Ls with Some e => e.2 | None => valueOf (findEntry ord key L) end).
Proof.
  intros HR Hb HM. pose proof HM as (T & HT & HL). unfold TreeMap.treemap_setAll, TreeMap.GetSize. cbn [receive]. rewrite bind_Ok. destruct (models_size false src Ls HM) as [_ ->].
  destruct (Z.ltb_spec 0 (Z.of_nat (length Ls))) as [Hpos|Hz]; cycle 1.
  { assert (Ls = []) as -> by (destruct Ls; [done|cbn in Hz; lia]). exists L. split; [by apply HR|done]. }
  assert (T <> Leaf) as Hleaf by (intros ->; cbn in HL; subst Ls; cbn in Hpos; lia). pose proof (ordered_represents _ _ _ HT) as R. pose proof (rep_holds _ _ _ R) as H.
  unfold TreeMap.SetAll. rewrite (holds_root _ _ _ _ H). change [ptr T] with (ptr <$> [T]).
  assert (concat (elements <$> [T]) = Ls) as Ec by (cbn; by rewrite app_nil_r). eapply returns_mono; [apply (setAllLoop_ok src _ [T] k t w L)|].
  - repeat constructor; [done|apply HT|]. exists (-1). apply (holds_linked _ _ _ _ H).
  - rewrite Ec, <- HL, length_elements. pose proof (holds_size _ _ _ _ H). unfold entryFuel. lia.
  - done.
  - by rewrite Ec.
  - rewrite Ec. intros [t' w'] (P & HP & (HM' & _)). eexists. split; [exact HM'|]. intros key.
    pose proof (sorted_distinct ord key_preorder Ls ltac:(rewrite <- HL; apply HT)) as Hd. symmetry in HP.
    rewrite (insertAll_value ord key_preorder P L key (distinct_perm ord _ _ HP Hd)). by rewrite (find_perm ord key_preorder Ls P key HP Hd).
Qed.
End SetAll.

(** [setAll]: the map then has, for every key, the value the other map has, and the value it had
    itself if the other map does not have the key. *)
Theorem TreeMap_setAll {W} (env : Env W) fn K ord `{!KeyOrder env fn K ord} t L src Ls w :
  20 <= VMAPIVersion env \/ fn = Hole -> models (fn := fn) (K := K) (ord := ord) false t L -> models (fn := fn) (K := K) (ord := ord) false src Ls ->
  Capacity t + Z.of_nat (length Ls) <= 2 ^ 25 ->
  returns (TreeMap.treemap_setAll env (This t) (This src) w) (fun '(t', _) => exists L', models (fn := fn) (K := K) (ord := ord) false t' L' /\
    forall key, valueOf (findEntry ord key L') = match findEntry ord key Ls with Some e => e.2 | None => valueOf (findEntry ord key L) end).
Proof.
  intros Hv HM HMs Hb. pose proof HM as (T & HT & _). pose proof (ordered_represents _ _ _ HT) as R. pose proof (used_range _ _ _ R). pose proof (rep_range _ _ _ R). unfold MIN_CAPACITY in *.
  apply (setAll_ok Hv t L src Ls (Z.to_nat (Capacity t)) w); [|lia|done]. split_and!; cbn [fst]; [done|lia|unfold MIN_CAPACITY; lia].
Qed.

Definition otherOps : list MapOp := [MSet (Int 9) (Int 1); MSet (Int 4) (Int 2)].
Definition otherMap : TaggedTree := (run (mapStep plainEnv) (Create MIN_CAPACITY, tt) otherOps).2.1.

Lemma otherMap_models : models (fn := Hole) (K := defaultKey) (ord := defaultOrder) false otherMap [(Int 4, Int 2); (Int 9, Int 1)].
Proof.
  apply (map_runs plainEnv Hole defaultKey defaultOrder Undefined (Create MIN_CAPACITY) tt otherOps); [done|by right|done|done|by vm_compute|].
  vm_compute. repeat match goal with |- _ /\ _ => split end; try exact I; right; split; reflexivity.
Qed.

Lemma TreeMap_setAll_witness :
  returns (TreeMap.treemap_setAll plainEnv (This sampleMap) (This otherMap) tt) (fun '(t', _) => exists L', models (fn := Hole) (K := defaultKey) (ord := defaultOrder) false t' L' /\
    valueOf (findEntry defaultOrder (Int 9) L') = Int 1 /\ valueOf (findEntry defaultOrder (Int 3) L') = Int 31 /\ valueOf (findEntry defaultOrder (Int 4) L') = Int 2).
Proof.
  eapply returns_mono; [apply (TreeMap_setAll plainEnv Hole defaultKey defaultOrder sampleMap sampleEntries otherMap [(Int 4, Int 2); (Int 9, Int 1)] tt)|].
  - right. reflexivity.
  - exact sampleMap_models.
  - exact otherMap_models.
  - vm_compute. discriminate.
  - intros [t' w'] (L' & HM & Hv). exists L'. split; [exact HM|]. rewrite !Hv. vm_compute. split; [reflexivity|split; reflexivity].
Defined.
