(* ===== verification/StringHash.v ===== *)
(** * Hashes of strings

    [ComputeHashForData], [HashIntegerString], [ComputeHashcode] and their relatives of
    src/ecmascript/string/base_string-inl.h and base_string.h, the loops for long strings of
    src/ecmascript/platform/common/string_hash_internal.h and .../arm64/string_hash_internal.h (with
    its vector instructions), and [CalculateConcatHashCode] of src/ecmascript/ecma_string.cpp.

    A string is the list of its code units; it is stored in 8 bit units ([IsUtf8]) exactly if every
    unit is an ASCII character other than 0.  The model is that of 64 bit builds without the
    LINXKIT option. *)

From Stdlib Require Import ZArith Lia.
From S2P Require Import Prelude StringOrder.

(** ** Model *)

Definition BLOCK_SIZE : nat := 4.
Definition MIN_SIZE_FOR_UNROLLING : nat := 32.
Definition HASH_SHIFT : Z := 5.
Definition BLOCK_MULTIPLY : Z := 31 * 31 * 31 * 31.
Definition MULTIPLIER : list Z := [31 * 31 * 31; 31 * 31; 31; 1].
Definition RAW_HASH_LENGTH : Z := 31.
Definition IS_INTEGER_MASK : Z := Z.shiftl 1 RAW_HASH_LENGTH.
Definition MAX_INTEGER_HASH_NUMBER : Z := 0x3B9AC9FF.
Definition MAX_ELEMENT_INDEX_LEN : nat := 10.

(** [hash = (hash << HASH_SHIFT) - hash + data[i]] *)
Definition hashStep (hash c : Z) : Z := u32 (u32 (u32 (Z.shiftl hash HASH_SHIFT) - hash) + c).

Definition hashLoop (data : list Z) (index size : nat) (hash : Z) : result Z :=
  for_up (size - index) index (fun i hash => c ← get data i; Ok (hashStep hash c)) hash.

(** *** Long strings *)

(** The cases of the [switch] fall through: [n] lanes are left to fill. *)
Fixpoint remainderLanes (n : nat) (data : list Z) (hash : list Z) (index : nat) : result (list Z * nat) :=
  match n with
  | O => Ok (hash, index)
  | S n' =>
    c ← get data index;
    m ← get MULTIPLIER (BLOCK_SIZE - n);
    hash ← set hash (BLOCK_SIZE - n) (u32 (c * m));
    remainderLanes n' data hash (S index)
  end.

Definition blockRound (data : list Z) (index : nat) (hash : list Z) : result (list Z) :=
  for_up BLOCK_SIZE 0 (fun i hash =>
    c ← get data (index + i);
    m ← get MULTIPLIER i;
    h ← get hash i;
    set hash i (u32 (u32 (h * BLOCK_MULTIPLY) + u32 (c * m)))) hash.

(** platform/common *)
Definition ComputeHashForDataOfLongString (data : list Z) (hashSeed : Z) : result Z :=
  let size := length data in
  let remainder := Nat.land size (BLOCK_SIZE - 1) in
  '(hash, index) ← remainderLanes remainder data (replicate BLOCK_SIZE 0) 0;
  m ← get MULTIPLIER (BLOCK_SIZE - 1 - remainder);
  h0 ← get hash 0;
  hash ← set hash 0 (u32 (h0 + u32 (hashSeed * m)));
  '(_, hash) ← while_loop size (fun '(index, _) => (index <? size)%nat) (fun '(index, hash) =>
    hash ← blockRound data index hash; Ok ((index + BLOCK_SIZE)%nat, hash)) (index, hash);
  Ok (fold_left (fun total h => u32 (total + h)) hash 0).

(** Four lanes of 32 bits: load, multiply lane by lane, add up. *)
Definition vload (data : list Z) (p : nat) : result (list Z) :=
  a ← get data p; b ← get data (p + 1); c ← get data (p + 2); d ← get data (p + 3); Ok [a; b; c; d].
Definition vmulq (v w : list Z) : list Z := zip_with (fun x y => u32 (x * y)) v w.
Definition vaddvq (v : list Z) : Z := fold_left (fun total h => u32 (total + h)) v 0.

Definition multiplierHash : Z := u32 (31 * 31 * 31 * 31).

(** platform/arm64: a round of the loop has [lanes] vectors, 4 for 8 bit units and 2 for 16 bit
    units. *)
Definition vectorRound (lanes : nat) (data : list Z) (p : nat) (hash : Z) : result Z :=
  for_up lanes 0 (fun i hash =>
    dataVec ← vload data (p + 4 * i);
    Ok (u32 (u32 (hash * multiplierHash) + vaddvq (vmulq dataVec MULTIPLIER)))) hash.

Definition ComputeHashForDataOfLongString_arm64 (lanes : nat) (data : list Z) (hashSeed : Z) : result Z :=
  let size := length data in
  let vecEnd := (size - size mod (4 * lanes))%nat in
  '(p, hash) ← while_loop size (fun '(p, _) => (p <? vecEnd)%nat) (fun '(p, hash) =>
    hash ← vectorRound lanes data p hash; Ok ((p + 4 * lanes)%nat, hash)) (0%nat, hashSeed);
  hashLoop data p size hash.

Inductive Platform := CommonPlatform | Arm64Platform.

Definition ComputeHashForDataPlatform (platform : Platform) (utf8 : bool) (data : list Z) (hashSeed : Z) : result Z :=
  match platform with
  | CommonPlatform => ComputeHashForDataOfLongString data hashSeed
  | Arm64Platform => ComputeHashForDataOfLongString_arm64 (if utf8 then 4 else 2) data hashSeed
  end.

Section Hash.
  Variable platform : Platform.

Definition ComputeHashForData (utf8 : bool) (data : list Z) (hashSeed : Z) : result Z :=
  if (length data <=? MIN_SIZE_FOR_UNROLLING)%nat then hashLoop data 0 (length data) hashSeed
  else ComputeHashForDataPlatform platform utf8 data hashSeed.

Definition MixHashcode (hashcode : Z) (isInteger : bool) : Z :=
  if isInteger then Z.lor hashcode IS_INTEGER_MASK else Z.land hashcode (IS_INTEGER_MASK - 1).

(** *** Strings of digits *)

Definition IsDecimalDigitChar (c : Z) : bool := (48 <=? c) && (c <=? 57).

(** [ComputeIntegerHash] takes the unit as a [uint8_t]: of a 16 bit unit it sees the low half. *)
Definition ComputeIntegerHash (num unit : Z) : option Z :=
  let c := unit mod 2 ^ 8 in
  if IsDecimalDigitChar c then Some (u32 (u32 (num * 10) + (c - 48))) else None.

(** The [do] loop: it ends when all units are read or at one that is no digit. *)
Fixpoint integerLoop (fuel : nat) (data : list Z) (num : Z) (i : nat) : result (option Z) :=
  if decide (i = length data) then
    Ok (if num <=? MAX_INTEGER_HASH_NUMBER then Some (MixHashcode num true) else None)
  else
    match fuel with
    | O => Err OutOfFuel
    | S fuel =>
      c ← get data i;
      match ComputeIntegerHash num c with Some num => integerLoop fuel data num (S i) | None => Ok None end
    end.

(** The hash, if the string is an integer.  The first unit is not narrowed. *)
Definition HashIntegerString (data : list Z) (hashSeed : Z) : result (option Z) :=
  c ← get data 0;
  if hashSeed =? 0 then
    if IsDecimalDigitChar c && negb (c =? 48) then integerLoop (length data) data (c - 48) 1
    else if (length data =? 1)%nat && (c =? 48) then Ok (Some (MixHashcode 0 true))
    else Ok None
  else
    if IsDecimalDigitChar c then integerLoop (length data) data (u32 (u32 (hashSeed * 10) + (c - 48))) 1
    else Ok None.

Definition IsASCIICharacter (c : Z) : bool := (1 <=? c) && (c <=? 127).
Definition IsUtf8 (units : list Z) : bool := forallb IsASCIICharacter units.

Definition ComputeRawHashcode (units : list Z) : result (Z * bool) :=
  if (length units =? 0)%nat then Ok (0, false) else
  if IsUtf8 units then
    integer ← (if (length units <? MAX_ELEMENT_INDEX_LEN)%nat then HashIntegerString units 0 else Ok None);
    match integer with
    | Some hash => Ok (hash, true)
    | None => hash ← ComputeHashForData true units 0; Ok (hash, false)
    end
  else hash ← ComputeHashForData false units 0; Ok (hash, false).

Definition ComputeHashcode (units : list Z) : result Z :=
  '(hash, isInteger) ← ComputeRawHashcode units; Ok (MixHashcode hash isInteger).

(** [mixHashcode]: what the field of the string has, 0 before the first call. *)
Definition GetHashcode (mixHashcode : Z) (units : list Z) : result Z :=
  if (mixHashcode =? 0) && negb (length units =? 0)%nat then ComputeHashcode units else Ok mixHashcode.

Definition TryGetHashCode (mixHashcode : Z) (units : list Z) : option Z :=
  if (mixHashcode =? 0) && negb (length units =? 0)%nat then None else Some mixHashcode.

(** Equality of two strings with their addresses and hash fields: hashes that are there and differ
    decide. *)
Definition StringsAreEqual (address1 mix1 : Z) (units1 : list Z) (address2 mix2 : Z) (units2 : list Z) : bool :=
  if address1 =? address2 then true else
  if negb (length units1 =? length units2)%nat then false else
  if (length units1 =? 0)%nat then true else
  match TryGetHashCode mix1 units1, TryGetHashCode mix2 units2 with
  | Some str1Hash, Some str2Hash => if negb (str1Hash =? str2Hash) then false else bool_decide (units1 = units2)
  | _, _ => bool_decide (units1 = units2)
  end.

Definition IsInteger (hashcode : Z) : bool := Z.testbit hashcode RAW_HASH_LENGTH.

Definition ComputeHashcodeUtf16 (units : list Z) : result Z :=
  if (length units =? 0)%nat then Ok (MixHashcode 0 false) else
  integer ← (if (length units <? MAX_ELEMENT_INDEX_LEN)%nat then HashIntegerString units 0 else Ok None);
  match integer with
  | Some mixHash => Ok mixHash
  | None => hash ← ComputeHashForData false units 0; Ok (MixHashcode hash false)
  end.

(** *** Concatenations *)

Definition CalculateDataConcatHashCode (utf8First : bool) (dataFirst : list Z) (utf8Second : bool) (dataSecond : list Z) : result Z :=
  totalHash ← ComputeHashForData utf8First dataFirst 0;
  totalHash ← ComputeHashForData utf8Second dataSecond totalHash;
  Ok (MixHashcode totalHash false).

(** The hash of the concatenation of two strings, which is not made.  A call of [HashIntegerString]
    that gives no hash leaves the variable as it was. *)
Definition CalculateConcatHashCode (first second : list Z) : result Z :=
  firstHash ← ComputeHashcode first;
  secondHash ← ComputeHashcode second;
  if (length first + length second <? MAX_ELEMENT_INDEX_LEN)%nat && IsUtf8 first && IsUtf8 second && IsInteger firstHash && IsInteger secondHash then
    hashCode ← HashIntegerString first 0;
    match hashCode with
    | None => Err OutOfBounds
    | Some hashCode => hashed ← HashIntegerString second hashCode; Ok (default hashCode hashed)
    end
  else CalculateDataConcatHashCode (IsUtf8 first) first (IsUtf8 second) second.
End Hash.

(** ** The hash as a polynomial *)

(** What the hash of a string is: one step per unit. *)
Definition hashOf (data : list Z) (hashSeed : Z) : Z := fold_left hashStep data hashSeed.

Definition poly (data : list Z) (hashSeed : Z) : Z := fold_left (fun hash c => hash * 31 + c) data hashSeed.

(** Congruence modulo the radix, in which wrapping inside a sum or product does not matter. *)
Definition congr (x y : Z) : Prop := exists k, x = y + k * BASE.

#[export] Instance congr_equivalence : Equivalence congr.
Proof.
  split.
  - intros x. exists 0. ring.
  - intros x y [k ->]. exists (- k). ring.
  - intros x y z [k ->] [j ->]. exists (k + j). ring.
Qed.
#[export] Instance congr_add : Proper (congr ==> congr ==> congr) Z.add.
Proof. intros x y [k ->] z w [j ->]. exists (k + j). ring. Qed.
#[export] Instance congr_sub : Proper (congr ==> congr ==> congr) Z.sub.
Proof. intros x y [k ->] z w [j ->]. exists (k - j). ring. Qed.
#[export] Instance congr_mul : Proper (congr ==> congr ==> congr) Z.mul.
Proof. intros x y [k ->] z w [j ->]. exists (k * w + y * j + k * j * BASE). ring. Qed.

Lemma u32_congr x : congr (u32 x) x.
Proof. exists (- (x / BASE)). unfold u32. rewrite Z.mod_eq by (by pose proof BASE_pos; lia). ring. Qed.

Lemma congr_u32 x y : congr x y -> u32 x = u32 y.
Proof. intros [k ->]. apply Z_mod_plus_full. Qed.

Ltac wrap_ring := apply congr_u32; rewrite ?u32_congr; match goal with |- congr ?a ?b => replace a with b by ring; reflexivity end.

Lemma hashStep_eq hash c : hashStep hash c = u32 (hash * 31 + c).
Proof. unfold hashStep, HASH_SHIFT. rewrite Z.shiftl_mul_pow2 by lia. change (2 ^ 5) with 32. wrap_ring. Qed.

Lemma poly_app l1 l2 hash : poly (l1 ++ l2) hash = poly l2 (poly l1 hash).
Proof. apply fold_left_app. Qed.

Lemma poly_u32 data hash : u32 (poly data (u32 hash)) = u32 (poly data hash).
Proof.
  revert hash. induction data as [|c data IH]; intros hash; cbn [poly fold_left]; [wrap_ring|].
  fold (poly data (u32 hash * 31 + c)) (poly data (hash * 31 + c)). rewrite <- (IH (u32 hash * 31 + c)), <- (IH (hash * 31 + c)). by replace (u32 (u32 hash * 31 + c)) with (u32 (hash * 31 + c)) by wrap_ring.
Qed.

Lemma hashOf_poly data hash : is_u32 hash -> hashOf data hash = u32 (poly data hash).
Proof.
  revert hash. induction data as [|c data IH]; intros hash Hh; cbn [hashOf poly fold_left]; [by rewrite u32_small|].
  change (hashOf data (hashStep hash c) = u32 (poly data (hash * 31 + c))). rewrite hashStep_eq, IH by apply u32_range. apply poly_u32.
Qed.

Lemma hashOf_range data hash : is_u32 hash -> is_u32 (hashOf data hash).
Proof. intros. rewrite hashOf_poly by done. apply u32_range. Qed.

Lemma hashLoop_eq data index hash : (index <= length data)%nat -> hashLoop data index (length data) hash = Ok (hashOf (drop index data) hash).
Proof.
  intros Hi. unfold hashLoop. remember (length data - index)%nat as n eqn:En. revert index hash Hi En.
  induction n as [|n IH]; intros index hash Hi En; cbn [for_up].
  - by rewrite drop_ge by lia.
  - destruct (lookup_lt_is_Some_2 data index ltac:(lia)) as [c Hc]. unfold get. rewrite Hc, !bind_Ok.
    fold (@get Z). rewrite IH by lia. by rewrite (drop_S _ _ _ Hc).
Qed.

Lemma get_some {A} (l : list A) i a : l !! i = Some a -> get l i = Ok a.
Proof. intros H. unfold get. by rewrite H. Qed.

(** Four units from [index] on. *)
Lemma four_units (data : list Z) index : (index + 4 <= length data)%nat ->
  exists a b c d, data !! index = Some a /\ data !! (index + 1)%nat = Some b /\ data !! (index + 2)%nat = Some c /\ data !! (index + 3)%nat = Some d /\
    take (index + 4) data = take index data ++ [a; b; c; d].
Proof.
  intros Hl. destruct (lookup_lt_is_Some_2 data index ltac:(lia)) as [a Ha], (lookup_lt_is_Some_2 data (index + 1) ltac:(lia)) as [b Hb],
    (lookup_lt_is_Some_2 data (index + 2) ltac:(lia)) as [c Hc], (lookup_lt_is_Some_2 data (index + 3) ltac:(lia)) as [d Hd].
  exists a, b, c, d. split_and!; try done. replace (index + 4)%nat with (S (index + 3)) by lia. rewrite (take_S_r _ _ _ Hd).
  replace (index + 3)%nat with (S (index + 2)) by lia. rewrite (take_S_r _ _ _ Hc).
  replace (index + 2)%nat with (S (index + 1)) by lia. rewrite (take_S_r _ _ _ Hb).
  replace (index + 1)%nat with (S index) by lia. rewrite (take_S_r _ _ _ Ha). by rewrite <- !app_assoc.
Qed.

(** ** Blocks of four lanes *)

Lemma blockRound_eq data index a b c d x0 x1 x2 x3 :
  data !! index = Some x0 -> data !! (index + 1)%nat = Some x1 -> data !! (index + 2)%nat = Some x2 -> data !! (index + 3)%nat = Some x3 ->
  blockRound data index [a; b; c; d] = Ok [u32 (u32 (a * BLOCK_MULTIPLY) + u32 (x0 * 29791)); u32 (u32 (b * BLOCK_MULTIPLY) + u32 (x1 * 961));
    u32 (u32 (c * BLOCK_MULTIPLY) + u32 (x2 * 31)); u32 (u32 (d * BLOCK_MULTIPLY) + u32 (x3 * 1))].
Proof.
  intros H0 H1 H2 H3. unfold blockRound, BLOCK_SIZE. cbn [for_up]. rewrite Nat.add_0_r.
  rewrite (get_some _ _ _ H0), (get_some _ _ _ H1), (get_some _ _ _ H2), (get_some _ _ _ H3). reflexivity.
Qed.

(** The lanes add up to the hash of what is read. *)
Definition lanesHold (data : list Z) (hashSeed : Z) '(index, hash) : Prop :=
  exists a b c d, hash = [a; b; c; d] /\ u32 (a + b + c + d) = u32 (poly (take index data) hashSeed) /\
    exists k, (index + 4 * k = length data)%nat.

Lemma lanes_round data hashSeed index hash : lanesHold data hashSeed (index, hash) -> (index < length data)%nat ->
  returns (blockRound data index hash) (fun hash => lanesHold data hashSeed ((index + 4)%nat, hash)).
Proof.
  intros (a & b & c & d & -> & Hs & k & Hk) Hi. destruct (four_units data index ltac:(lia)) as (x0 & x1 & x2 & x3 & H0 & H1 & H2 & H3 & E).
  rewrite (blockRound_eq _ _ _ _ _ _ _ _ _ _ H0 H1 H2 H3). cbn [returns]. eexists _, _, _, _. split; [done|]. split; [|exists (k - 1)%nat; lia].
  rewrite E, poly_app. cbn [poly fold_left]. fold (poly (take index data) hashSeed). unfold BLOCK_MULTIPLY.
  transitivity (u32 (u32 (a + b + c + d) * (31 * 31 * 31 * 31) + (x0 * 29791 + x1 * 961 + x2 * 31 + x3))); [wrap_ring|].
  rewrite Hs. wrap_ring.
Qed.

Lemma remainderLanes_eq r data hashSeed : (r <= 3)%nat -> (r <= length data)%nat ->
  exists b c d, remainderLanes r data [0; 0; 0; 0] 0 = Ok ([0; b; c; d], r) /\
    get MULTIPLIER (3 - r) = Ok (31 ^ Z.of_nat r) /\ u32 (hashSeed * 31 ^ Z.of_nat r + b + c + d) = u32 (poly (take r data) hashSeed).
Proof.
  intros Hr Hl. destruct r as [|[|[|[|r]]]]; [| | | |lia].
  - exists 0, 0, 0. split_and!; [done|done|]. rewrite take_0. change (poly [] hashSeed) with hashSeed. change (31 ^ Z.of_nat 0) with 1. wrap_ring.
  - destruct data as [|x0 data]; [cbn in Hl; lia|]. eexists _, _, _. split_and!; [reflexivity|done|]. rewrite !firstn_cons, firstn_O. cbn [poly fold_left]. change (31 ^ Z.of_nat 1) with 31. wrap_ring.
  - destruct data as [|x0 [|x1 data]]; [cbn in Hl; lia..|]. eexists _, _, _. split_and!; [reflexivity|done|]. rewrite !firstn_cons, firstn_O. cbn [poly fold_left]. change (31 ^ Z.of_nat 2) with 961. wrap_ring.
  - destruct data as [|x0 [|x1 [|x2 data]]]; [cbn in Hl; lia..|]. eexists _, _, _. split_and!; [reflexivity|done|]. rewrite !firstn_cons, firstn_O. cbn [poly fold_left]. change (31 ^ Z.of_nat 3) with 29791. wrap_ring.
Qed.

Lemma ComputeHashForDataOfLongString_eq data hashSeed : is_u32 hashSeed -> ComputeHashForDataOfLongString data hashSeed = Ok (hashOf data hashSeed).
Proof.
  intros Hs. apply returns_eq. unfold ComputeHashForDataOfLongString, BLOCK_SIZE. change (4 - 1)%nat with (Nat.ones 2). rewrite Nat.land_ones. change (2 ^ 2)%nat with 4%nat.
  change (Nat.ones 2) with 3%nat. change (replicate 4 0) with [0; 0; 0; 0].
  pose proof (Nat.mod_upper_bound (length data) 4 ltac:(lia)). pose proof (Nat.div_mod_eq (length data) 4) as Hq. set (r := (length data mod 4)%nat) in *.
  destruct (remainderLanes_eq r data hashSeed ltac:(lia) ltac:(lia)) as (b & c & d & -> & -> & Hsum). rewrite !bind_Ok. change (get [0; b; c; d] 0) with (Ok 0). rewrite bind_Ok.
  assert (forall x, set [0; b; c; d] 0 x = Ok [x; b; c; d]) as -> by done. rewrite bind_Ok.
  eapply returns_bind; [apply (while_loop_returns (lanesHold data hashSeed) (fun '(index, _) => (length data - index)%nat))|].
  - exists (u32 (0 + u32 (hashSeed * 31 ^ Z.of_nat r))), b, c, d. split_and!; [done| |exists (length data / 4)%nat; lia].
    rewrite <- Hsum. wrap_ring.
  - lia.
  - intros [index hash] Hh Hc. apply Nat.ltb_lt in Hc. eapply returns_bind; [by apply lanes_round|]. intros hash' Hh'. cbn [returns]. split; [done|lia].
  - intros [index hash] [(a' & b' & c' & d' & -> & Hh & k & Hk) Hc]. apply Nat.ltb_ge in Hc. cbn [returns fold_left]. rewrite hashOf_poly by done.
    rewrite take_ge in Hh by lia. rewrite <- Hh. wrap_ring.
Qed.

(** ** Vectors *)

Lemma vectorRound_returns lanes data p hash hashSeed : (p + 4 * lanes <= length data)%nat -> u32 hash = u32 (poly (take p data) hashSeed) -> is_u32 hash ->
  returns (vectorRound lanes data p hash) (fun hash => is_u32 hash /\ u32 hash = u32 (poly (take (p + 4 * lanes) data) hashSeed)).
Proof.
  intros Hl Hh Hr. unfold vectorRound. eapply returns_mono.
  - apply (for_up_returns (fun i hash => is_u32 hash /\ u32 hash = u32 (poly (take (p + 4 * i) data) hashSeed))); [by rewrite Nat.mul_0_r, Nat.add_0_r|].
    intros i hash' Hi [_ Hh']. destruct (four_units data (p + 4 * i) ltac:(lia)) as (x0 & x1 & x2 & x3 & H0 & H1 & H2 & H3 & E).
    unfold vload. rewrite (get_some _ _ _ H0), (get_some _ _ _ H1), (get_some _ _ _ H2), (get_some _ _ _ H3), !bind_Ok. cbn [returns].
    split; [apply u32_range|]. replace (p + 4 * S i)%nat with (p + 4 * i + 4)%nat by lia. rewrite E, poly_app. unfold vaddvq, vmulq, MULTIPLIER, multiplierHash. cbn [zip_with fold_left poly].
    fold (poly (take (p + 4 * i) data) hashSeed). change (u32 (31 * 31 * 31 * 31)) with 923521.
    transitivity (u32 (u32 hash' * 923521 + (x0 * 29791 + x1 * 961 + x2 * 31 + x3))); [wrap_ring|]. rewrite Hh'. wrap_ring.
  - by intros hash' ?.
Qed.

Lemma ComputeHashForDataOfLongString_arm64_eq lanes data hashSeed : (0 < lanes)%nat -> is_u32 hashSeed ->
  ComputeHashForDataOfLongString_arm64 lanes data hashSeed = Ok (hashOf data hashSeed).
Proof.
  intros Hn Hs. apply returns_eq. unfold ComputeHashForDataOfLongString_arm64. set (n := (4 * lanes)%nat). set (vecEnd := (length data - length data mod n)%nat).
  pose proof (Nat.div_mod_eq (length data) n) as Hq. pose proof (Nat.mod_upper_bound (length data) n ltac:(lia)).
  eapply returns_bind; [apply (while_loop_returns (fun '(p, hash) => is_u32 hash /\ u32 hash = u32 (poly (take p data) hashSeed) /\ exists k, (p + n * k = vecEnd)%nat) (fun '(p, _) => (length data - p)%nat))|].
  - split_and!; [done|done|exists (length data / n)%nat; lia].
  - lia.
  - intros [p hash] (Hr & Hh & k & Hk) Hc. apply Nat.ltb_lt in Hc. assert (1 <= k)%nat by (destruct k; lia). assert (p + n <= vecEnd)%nat by nia.
    eapply returns_bind; [apply (vectorRound_returns lanes data p hash hashSeed); [lia|done|done]|]. intros hash' [Hr' Hh']. cbn [returns]. split_and!; [done|done| |lia].
    exists (k - 1)%nat. destruct k; lia.
  - intros [p hash] [(Hr & Hh & k & Hk) Hc]. apply Nat.ltb_ge in Hc. rewrite hashLoop_eq by lia. cbn [returns]. rewrite !hashOf_poly by done.
    rewrite <- (take_drop p data) at 2. rewrite poly_app, <- (poly_u32 _ (poly _ _)), <- Hh, poly_u32. done.
Qed.

Lemma ComputeHashForData_eq platform utf8 data hashSeed : is_u32 hashSeed -> ComputeHashForData platform utf8 data hashSeed = Ok (hashOf data hashSeed).
Proof.
  intros Hs. unfold ComputeHashForData, ComputeHashForDataPlatform. destruct (_ <=? _)%nat; [rewrite hashLoop_eq by lia; by rewrite drop_0|].
  destruct platform; [by apply ComputeHashForDataOfLongString_eq|apply ComputeHashForDataOfLongString_arm64_eq; [destruct utf8; lia|done]].
Qed.

(** ** Strings of digits *)

(** A decimal numeral without leading zeros. *)
Definition numeral (units : list Z) : bool :=
  match units with
  | [] => false
  | c :: rest => IsDecimalDigitChar c && forallb IsDecimalDigitChar rest && (negb (c =? 48) || bool_decide (rest = []))
  end.

Definition digitStep (v c : Z) : Z := v * 10 + (c - 48).
Definition valueOfDigits (units : list Z) : Z := fold_left digitStep units 0.

(** The hash of a string: small numerals have their value and the bit for integers. *)
Definition shortNumeral (units : list Z) : bool := numeral units && (length units <? MAX_ELEMENT_INDEX_LEN)%nat.
Definition stringHash (units : list Z) : Z := if shortNumeral units then valueOfDigits units + 2 ^ 31 else hashOf units 0 mod 2 ^ 31.

Lemma digit_spec c : IsDecimalDigitChar c = true <-> 48 <= c <= 57.
Proof. unfold IsDecimalDigitChar. rewrite andb_true_iff, !Z.leb_le. lia. Qed.

Lemma digitSteps_bound units v i : forallb IsDecimalDigitChar units = true -> 0 <= v < 10 ^ Z.of_nat i ->
  0 <= fold_left digitStep units v < 10 ^ Z.of_nat (i + length units).
Proof.
  revert v i. induction units as [|c units IH]; intros v i Hd Hv; cbn [fold_left length forallb] in *; [by rewrite Nat.add_0_r|].
  apply andb_true_iff in Hd as [Hc%digit_spec Hd]. replace (i + S (length units))%nat with (S i + length units)%nat by lia.
  apply IH; [done|]. unfold digitStep. rewrite Nat2Z.inj_succ, Z.pow_succ_r by lia. lia.
Qed.

Lemma mix_integer num : 0 <= num < 2 ^ 31 -> MixHashcode num true = num + 2 ^ 31.
Proof. intros Hn. unfold MixHashcode, IS_INTEGER_MASK, RAW_HASH_LENGTH. rewrite Z.lor_comm. change (Z.shiftl 1 31) with (2 ^ 31). rewrite (lor_add _ _ 31) by (done || lia). lia. Qed.

Lemma mix_mixed num : 0 <= num < 2 ^ 31 -> MixHashcode (num + 2 ^ 31) true = num + 2 ^ 31.
Proof. intros Hn. rewrite <- mix_integer at 1 by done. unfold MixHashcode. rewrite <- Z.lor_assoc, Z.lor_diag. by apply mix_integer. Qed.

Lemma mix_plain hash : MixHashcode hash false = hash mod 2 ^ 31.
Proof. unfold MixHashcode, IS_INTEGER_MASK, RAW_HASH_LENGTH. change (Z.shiftl 1 31 - 1) with (Z.ones 31). by rewrite Z.land_ones. Qed.

(** What the loop sees of a string: every unit but the first by its low half. *)
Definition lowHalf (unit : Z) : Z := unit mod 2 ^ 8.
Definition narrowed (units : list Z) : list Z := match units with [] => [] | c :: rest => c :: (lowHalf <$> rest) end.

Lemma integerLoop_eq fuel data num i j : (i <= length data)%nat -> (length data - i <= fuel)%nat -> (j + (length data - i) <= 9)%nat -> 0 <= num < 10 ^ Z.of_nat j ->
  integerLoop fuel data num i = Ok (if forallb IsDecimalDigitChar (lowHalf <$> drop i data) then Some (fold_left digitStep (lowHalf <$> drop i data) num + 2 ^ 31) else None).
Proof.
  revert num i j. induction fuel as [|fuel IH]; intros num i j Hi Hf Hl Hn; cbn [integerLoop].
  all: assert (10 ^ Z.of_nat j <= 10 ^ 9) by (apply Z.pow_le_mono_r; lia); change (10 ^ 9) with 1000000000 in *.
  all: destruct (decide (i = length data)) as [->|Hne]; [rewrite drop_ge by lia; cbn [fmap list_fmap forallb fold_left]; rewrite <- mix_integer by lia; unfold MAX_INTEGER_HASH_NUMBER; by destruct (Z.leb_spec num 0x3B9AC9FF); [|lia]|].
  - lia.
  - destruct (lookup_lt_is_Some_2 data i ltac:(lia)) as [c Hc]. rewrite (get_some _ _ _ Hc), bind_Ok, (drop_S _ _ _ Hc). cbn [fmap list_fmap forallb fold_left].
    unfold ComputeIntegerHash. cbv zeta. fold (lowHalf c). destruct (IsDecimalDigitChar (lowHalf c)) eqn:Ec; [|done]. apply digit_spec in Ec. cbn [andb].
    assert (10 ^ Z.of_nat j <= 10 ^ 8) by (apply Z.pow_le_mono_r; lia). change (10 ^ 8) with 100000000 in *.
    rewrite !u32_small by (unfold is_u32; rewrite ?u32_small; rewrite ?BASE_eq; unfold is_u32; rewrite ?BASE_eq; lia).
    apply (IH _ _ (S j)); [lia|lia|lia|]. unfold digitStep. rewrite Nat2Z.inj_succ, Z.pow_succ_r by lia. lia.
Qed.

Lemma lowHalf_small units : Forall (fun c => 0 <= c < 2 ^ 8) units -> lowHalf <$> units = units.
Proof. induction 1 as [|c units Hc _ IH]; [done|]. cbn [fmap list_fmap]. rewrite IH. f_equal. by apply Z.mod_small. Qed.

Lemma ascii_small units : IsUtf8 units = true -> Forall (fun c => 0 <= c < 2 ^ 8) units.
Proof.
  unfold IsUtf8. rewrite forallb_forall. intros H. apply Forall_forall. intros c Hc%list_elem_of_In%H. unfold IsASCIICharacter in Hc.
  rewrite andb_true_iff, !Z.leb_le in Hc. lia.
Qed.

Lemma narrowed_ascii units : IsUtf8 units = true -> narrowed units = units.
Proof. intros H%ascii_small. destruct units as [|c units]; [done|]. apply Forall_cons in H as [_ H]. cbn. by rewrite lowHalf_small. Qed.

Lemma narrowed_length units : length (narrowed units) = length units.
Proof. destruct units; cbn; [done|]. by rewrite length_fmap. Qed.

Lemma HashIntegerString_eq data : data <> [] -> (length data <= 9)%nat ->
  HashIntegerString data 0 = Ok (if numeral (narrowed data) then Some (valueOfDigits (narrowed data) + 2 ^ 31) else None).
Proof.
  intros Hd Hl. destruct data as [|c data]; [done|]. unfold HashIntegerString, numeral, narrowed. change (get (c :: data) 0) with (Ok c). rewrite bind_Ok. change (0 =? 0) with true. cbv iota.
  destruct (IsDecimalDigitChar c) eqn:Ec; cbn [andb].
  - apply digit_spec in Ec. destruct (Z.eqb_spec c 48) as [->|Hc]; cbn [negb orb].
    + destruct data as [|c' data]; [done|]. by rewrite bool_decide_false, andb_false_r.
    + rewrite (integerLoop_eq _ _ _ _ 1); [|cbn in *; lia..]. rewrite andb_true_r. cbn [drop valueOfDigits fold_left]. unfold digitStep at 3. by replace (0 * 10 + (c - 48)) with (c - 48) by ring.
  - assert (c <> 48) by (intros ->; done). destruct (Z.eqb_spec c 48); [done|]. by rewrite andb_false_r.
Qed.

Lemma numeral_digits units : numeral units = true -> forallb IsDecimalDigitChar units = true.
Proof. destruct units as [|c units]; cbn; [done|]. by intros [H _]%andb_true_iff. Qed.

Lemma numeral_utf8 units : numeral units = true -> IsUtf8 units = true.
Proof.
  intros H%numeral_digits. unfold IsUtf8. rewrite forallb_forall in *. intros c Hc%H%digit_spec. unfold IsASCIICharacter. apply andb_true_iff. rewrite !Z.leb_le. lia.
Qed.

Lemma value_range units : numeral units = true -> (length units <= 9)%nat -> 0 <= valueOfDigits units < 10 ^ Z.of_nat (length units) /\ valueOfDigits units < 1000000000.
Proof.
  intros Hn%numeral_digits Hl. pose proof (digitSteps_bound units 0 0 Hn ltac:(cbn; lia)) as Hb. cbn [Nat.add] in Hb.
  assert (10 ^ Z.of_nat (length units) <= 10 ^ 9) by (apply Z.pow_le_mono_r; lia). change (10 ^ 9) with 1000000000 in *. unfold valueOfDigits. lia.
Qed.

(** Numerals are what numbers are printed as. *)
Lemma value_positive c rest v : forallb IsDecimalDigitChar (c :: rest) = true -> c <> 48 -> 0 <= v -> 1 <= fold_left digitStep (c :: rest) v.
Proof.
  revert c v. induction rest as [|c' rest IH]; intros c v Hd Hc Hv; cbn [forallb] in Hd; apply andb_true_iff in Hd as [Hc'%digit_spec Hd]; cbn [fold_left]; [unfold digitStep; lia|].
  assert (forall l w, forallb IsDecimalDigitChar l = true -> 1 <= w -> 1 <= fold_left digitStep l w) as Hgrow.
  { clear. induction l as [|x l IH]; intros w Hl Hw; cbn in *; [done|]. apply andb_true_iff in Hl as [Hx%digit_spec Hl]. apply IH; [done|]. unfold digitStep. lia. }
  apply (Hgrow (c' :: rest)); [done|]. unfold digitStep. lia.
Qed.

Lemma digits_of_value fuel units : numeral units = true -> (length units <= fuel)%nat -> digitsOf fuel (valueOfDigits units) = units.
Proof.
  revert fuel. induction units as [|c units IH] using rev_ind; intros fuel Hn Hl; [done|]. rewrite length_app in Hl. cbn in Hl. destruct fuel as [|fuel]; [lia|].
  unfold valueOfDigits. rewrite fold_left_app. cbn [fold_left]. fold (valueOfDigits units).
  pose proof (numeral_digits _ Hn) as Hd. rewrite forallb_app in Hd. cbn [forallb] in Hd. rewrite andb_true_r in Hd. apply andb_true_iff in Hd as [Hd Hc%digit_spec].
  destruct units as [|c0 units]; [unfold digitStep; cbn [valueOfDigits fold_left app]; rewrite digits_small by lia; f_equal; lia|].
  cbn [numeral app] in Hn. apply andb_true_iff in Hn as [_ Hn]. rewrite bool_decide_false, orb_false_r, negb_true_iff, Z.eqb_neq in Hn by (by destruct units).
  assert (1 <= valueOfDigits (c0 :: units)) as Hpos by (by apply value_positive). unfold digitStep. rewrite digits_step by lia.
  replace ((valueOfDigits (c0 :: units) * 10 + (c - 48)) / 10) with (valueOfDigits (c0 :: units)) by (apply (Z.div_unique_pos _ _ _ (c - 48)); lia).
  replace ((valueOfDigits (c0 :: units) * 10 + (c - 48)) mod 10) with (c - 48) by (apply (Z.mod_unique_pos _ _ (valueOfDigits (c0 :: units))); lia).
  rewrite IH; [f_equal; f_equal; lia| |lia].
  cbn [numeral forallb] in *. apply andb_true_iff in Hd as [-> ->]. by rewrite (proj2 (Z.eqb_neq _ _) Hn).
Qed.

Lemma digits_numeral fuel n : (0 < fuel)%nat -> 0 <= n < 10 ^ Z.of_nat fuel -> numeral (digitsOf fuel n) = true /\ valueOfDigits (digitsOf fuel n) = n.
Proof.
  revert n. induction fuel as [|fuel IH]; intros n Hf Hn; [lia|]. destruct (Z.ltb_spec n 10) as [Hs|Hb].
  - rewrite digits_small by lia. cbn [numeral forallb valueOfDigits fold_left]. unfold digitStep. rewrite bool_decide_true, orb_true_r, !andb_true_r by done. split; [apply digit_spec; lia|lia].
  - rewrite digits_step by lia. destruct fuel as [|fuel]; [cbn in Hn; lia|]. rewrite (Nat2Z.inj_succ (S fuel)), Z.pow_succ_r in Hn by lia.
    pose proof (Z.mod_pos_bound n 10 ltac:(lia)). pose proof (Z.div_mod n 10 ltac:(lia)) as Hdm.
    destruct (IH (n / 10)) as [Hnum Hval]; [lia|split; [apply Z.div_pos; lia|apply Z.div_lt_upper_bound; lia]|].
    unfold valueOfDigits. rewrite fold_left_app. fold (valueOfDigits (digitsOf (S fuel) (n / 10))). rewrite Hval. cbn [fold_left]. unfold digitStep. split; [|lia].
    destruct (digits_head (S fuel) (n / 10)) as (c & l & E & Hc); [split; [apply Z.div_le_lower_bound; lia|apply Z.div_lt_upper_bound; lia]|]. rewrite E in *.
    cbn [numeral app] in *. apply andb_true_iff in Hnum as [[-> Hl]%andb_true_iff _]. rewrite forallb_app, Hl. cbn [forallb andb].
    rewrite (proj2 (digit_spec _)) by lia. by rewrite (proj2 (Z.eqb_neq c 48)) by lia.
Qed.

Lemma digitsOf_length fuel n : (length (digitsOf fuel n) <= fuel)%nat.
Proof. revert n. induction fuel as [|fuel IH]; intros n; cbn; [lia|]. destruct (n <? 10); cbn; [lia|]. rewrite length_app. cbn. specialize (IH (n / 10)). lia. Qed.

Lemma shortNumeral_spec units : shortNumeral units = true <-> exists n, 0 <= n <= MAX_INTEGER_HASH_NUMBER /\ units = decimalString n.
Proof.
  unfold shortNumeral, MAX_INTEGER_HASH_NUMBER, MAX_ELEMENT_INDEX_LEN, decimalString. rewrite andb_true_iff, Nat.ltb_lt. split.
  - intros [Hn Hl]. pose proof (value_range units Hn ltac:(lia)). exists (valueOfDigits units). split; [lia|]. destruct (Z.ltb_spec (valueOfDigits units) 0); [lia|]. by rewrite digits_of_value by (done || lia).
  - intros (n & Hn & ->). destruct (Z.ltb_spec n 0); [lia|]. destruct (digits_numeral 10 n ltac:(lia) ltac:(cbn; lia)) as [Hnum Hval]. split; [done|].
    destruct (digits_numeral 9 n ltac:(lia) ltac:(change (10 ^ Z.of_nat 9) with 1000000000; lia)) as [Hnum9 Hval9].
    enough (digitsOf 10 n = digitsOf 9 n) as -> by (pose proof (digitsOf_length 9 n); lia).
    rewrite <- Hval9 at 1. apply digits_of_value; [done|]. pose proof (digitsOf_length 9 n). lia.
Qed.

(** ** Hash codes *)

Lemma integer_or_none units : units <> [] ->
  (if (length units <? MAX_ELEMENT_INDEX_LEN)%nat then HashIntegerString units 0 else Ok None) = Ok (if shortNumeral (narrowed units) then Some (valueOfDigits (narrowed units) + 2 ^ 31) else None).
Proof.
  intros Hu. unfold shortNumeral, MAX_ELEMENT_INDEX_LEN. rewrite narrowed_length. destruct (Nat.ltb_spec (length units) 10); [rewrite andb_true_r; apply HashIntegerString_eq; [done|lia]|by rewrite andb_false_r].
Qed.

Lemma shortNumeral_value units : shortNumeral units = true -> 0 <= valueOfDigits units < 1000000000 /\ numeral units = true /\ (length units <= 9)%nat.
Proof. unfold shortNumeral, MAX_ELEMENT_INDEX_LEN. rewrite andb_true_iff, Nat.ltb_lt. intros [Hn Hl]. pose proof (value_range units Hn ltac:(lia)). split_and!; lia || done. Qed.

Lemma ComputeHashcode_eq platform units : ComputeHashcode platform units = Ok (stringHash units).
Proof.
  unfold ComputeHashcode, ComputeRawHashcode, stringHash. destruct units as [|c units]; [done|]. change (length (c :: units) =? 0)%nat with false. cbv iota.
  rewrite !ComputeHashForData_eq by done. destruct (IsUtf8 (c :: units)) eqn:Eu.
  - rewrite integer_or_none, narrowed_ascii by done. rewrite !bind_Ok. destruct (shortNumeral (c :: units)) eqn:En; rewrite !bind_Ok; [|by rewrite mix_plain].
    destruct (shortNumeral_value _ En). by rewrite mix_mixed by lia.
  - rewrite !bind_Ok, mix_plain. destruct (shortNumeral (c :: units)) eqn:En; [|done]. destruct (shortNumeral_value _ En) as (_ & Hn & _). apply numeral_utf8 in Hn. congruence.
Qed.

Lemma stringHash_integer units : IsInteger (stringHash units) = shortNumeral units.
Proof.
  unfold IsInteger, stringHash, RAW_HASH_LENGTH. destruct (shortNumeral units) eqn:En.
  - destruct (shortNumeral_value _ En). rewrite <- mix_integer by lia. unfold MixHashcode. rewrite Z.lor_spec. by rewrite orb_comm.
  - apply Z.mod_pow2_bits_high. lia.
Qed.

(** A string of 16 bit units that is no numeral, but is read as one by the low halves of its units. *)
Definition misread (units : list Z) : bool := shortNumeral (narrowed units) && negb (shortNumeral units).

Lemma ComputeHashcodeUtf16_eq platform units : ComputeHashcodeUtf16 platform units =
  Ok (if shortNumeral (narrowed units) then valueOfDigits (narrowed units) + 2 ^ 31 else hashOf units 0 mod 2 ^ 31).
Proof.
  unfold ComputeHashcodeUtf16. destruct units as [|c units]; [done|]. change (length (c :: units) =? 0)%nat with false. cbv iota.
  rewrite integer_or_none, ComputeHashForData_eq by done. rewrite bind_Ok. destruct (shortNumeral (narrowed (c :: units))); [done|]. by rewrite bind_Ok, mix_plain.
Qed.

Lemma shortNumeral_narrowed units : shortNumeral units = true -> narrowed units = units.
Proof. intros (_ & Hn & _)%shortNumeral_value. by apply narrowed_ascii, numeral_utf8. Qed.

Lemma integerBit_differs n h : 0 <= n < 2 ^ 31 -> n + 2 ^ 31 <> h mod 2 ^ 31.
Proof. intros Hn. pose proof (Z.mod_pos_bound h (2 ^ 31) ltac:(lia)). lia. Qed.

Lemma ComputeHashcodeUtf16_right platform units :
  ComputeHashcodeUtf16 platform units = Ok (stringHash units) <-> misread units = false.
Proof.
  rewrite ComputeHashcodeUtf16_eq. unfold stringHash, misread. destruct (shortNumeral units) eqn:En.
  - rewrite (shortNumeral_narrowed _ En), En. cbn. done.
  - rewrite andb_true_r. destruct (shortNumeral (narrowed units)) eqn:Em; [|done]. destruct (shortNumeral_value _ Em) as [Hv _].
    split; [|done]. intros [= H]. exfalso. apply (integerBit_differs (valueOfDigits (narrowed units)) (hashOf units 0)); lia.
Qed.

(** C17: The hash code of a string is the same by the scalar loop, the unrolled loop and the vector code;
    its integer bit says whether the string is how a number up to 999999999 is printed, and then the
    other bits are the number.  The hash computed from UTF-16 data, which makers of strings store in
    the string, is that hash except for the strings that are misread as a numeral, because the units
    after the first are cut to 8 bits. *)
Theorem ComputeHashcode_correct platform units :
  ComputeHashcode platform units = Ok (stringHash units) /\
  (ComputeHashcodeUtf16 platform units = Ok (stringHash units) <-> misread units = false) /\
  (misread units = true -> ComputeHashcodeUtf16 platform units = Ok (valueOfDigits (narrowed units) + 2 ^ 31)) /\
  (IsInteger (stringHash units) = true <-> exists n, 0 <= n <= MAX_INTEGER_HASH_NUMBER /\ units = decimalString n) /\
  (forall n, 0 <= n <= MAX_INTEGER_HASH_NUMBER -> stringHash (decimalString n) = n + 2 ^ 31) /\
  (IsInteger (stringHash units) = false -> stringHash units = hashOf units 0 mod 2 ^ 31).
Proof.
  split_and!.
  - apply ComputeHashcode_eq.
  - apply ComputeHashcodeUtf16_right.
  - unfold misread. intros [H _]%andb_true_iff. by rewrite ComputeHashcodeUtf16_eq, H.
  - rewrite stringHash_integer. apply shortNumeral_spec.
  - intros n Hn. unfold stringHash. rewrite (proj2 (shortNumeral_spec (decimalString n))) by eauto. f_equal. unfold decimalString, MAX_INTEGER_HASH_NUMBER in *.
    destruct (Z.ltb_spec n 0); [lia|]. apply digits_numeral; [lia|]. change (10 ^ Z.of_nat 10) with 10000000000. lia.
  - rewrite stringHash_integer. unfold stringHash. by intros ->.
Qed.

(** ** Hash fields *)

(** What a string may have in its hash field: nothing, or the hash of its units. *)
Definition fieldRight (mixHashcode : Z) (units : list Z) : Prop := mixHashcode = 0 \/ mixHashcode = stringHash units.

Lemma GetHashcode_right platform mix units : fieldRight mix units -> GetHashcode platform mix units = Ok (stringHash units).
Proof.
  intros [-> | ->]; unfold GetHashcode.
  - change (0 =? 0) with true. cbn [andb]. destruct units as [|c units]; [done|]. apply ComputeHashcode_eq.
  - rewrite ComputeHashcode_eq. by destruct (_ && _).
Qed.

(** With such fields, equality of strings is equality of their units. *)
Lemma StringsAreEqual_eq a1 m1 u1 a2 m2 u2 : fieldRight m1 u1 -> fieldRight m2 u2 -> (a1 = a2 -> u1 = u2) ->
  StringsAreEqual a1 m1 u1 a2 m2 u2 = bool_decide (u1 = u2).
Proof.
  intros H1 H2 Ha. unfold StringsAreEqual. destruct (Z.eqb_spec a1 a2) as [E|_]; [by rewrite bool_decide_true by auto|].
  destruct (Nat.eqb_spec (length u1) (length u2)) as [El|El]; cbn [negb]; [|rewrite bool_decide_false; [done|congruence]].
  destruct (Nat.eqb_spec (length u1) 0) as [E0|E0].
  { rewrite bool_decide_true; [done|]. by rewrite (nil_length_inv u1), (nil_length_inv u2) by lia. }
  assert (forall m u, (length u <> 0)%nat -> fieldRight m u -> TryGetHashCode m u = None \/ TryGetHashCode m u = Some (stringHash u)) as Ht.
  { intros m u Hu [->| ->]; unfold TryGetHashCode; [left|].
    - by rewrite (proj2 (Nat.eqb_neq _ _) Hu).
    - destruct (_ && _); [by left|by right]. }
  destruct (Ht m1 u1 ltac:(lia) H1) as [-> | ->]; [done|]. destruct (Ht m2 u2 ltac:(lia) H2) as [-> | ->]; [done|].
  destruct (Z.eqb_spec (stringHash u1) (stringHash u2)); cbn [negb]; [done|]. rewrite bool_decide_false; [done|congruence].
Qed.

(** ** Concatenations *)

Lemma digits_small8 units : forallb IsDecimalDigitChar units = true -> Forall (fun c => 0 <= c < 2 ^ 8) units.
Proof. rewrite forallb_forall. intros H. apply Forall_forall. intros c Hc%list_elem_of_In%H%digit_spec. lia. Qed.

(** The integer hash of [first] as seed: its integer bit is shifted out. *)
Lemma HashIntegerString_seed first second : shortNumeral first = true -> numeral second = true -> (length first + length second <= 9)%nat ->
  HashIntegerString second (valueOfDigits first + 2 ^ 31) = Ok (Some (valueOfDigits (first ++ second) + 2 ^ 31)).
Proof.
  intros Hf Hs Hl. destruct (shortNumeral_value _ Hf) as ([H0 _] & Hn & _). pose proof (value_range first Hn ltac:(lia)) as [Hv _]. destruct second as [|c second]; [done|].
  unfold HashIntegerString. change (get (c :: second) 0) with (Ok c). rewrite bind_Ok. destruct (Z.eqb_spec (valueOfDigits first + 2 ^ 31) 0); [lia|].
  apply numeral_digits in Hs. cbn [forallb length] in *. apply andb_true_iff in Hs as [Hc Hs]. rewrite Hc. apply digit_spec in Hc.
  assert (10 ^ Z.of_nat (length first) <= 10 ^ 8) by (apply Z.pow_le_mono_r; lia). change (10 ^ 8) with 100000000 in *.
  assert (u32 ((valueOfDigits first + 2 ^ 31) * 10) = valueOfDigits first * 10) as ->.
  { unfold u32. symmetry. apply (Z.mod_unique_pos _ _ 5); rewrite ?BASE_eq; pow2_literal; lia. }
  rewrite u32_small by (unfold is_u32; rewrite BASE_eq; lia). fold (digitStep (valueOfDigits first) c).
  rewrite (integerLoop_eq _ _ _ _ (S (length first))); [|cbn; lia|cbn; lia|cbn; lia|unfold digitStep; rewrite Nat2Z.inj_succ, Z.pow_succ_r by lia; lia].
  change (drop 1 (c :: second)) with second.
  rewrite (lowHalf_small second) by (by apply digits_small8). rewrite Hs. unfold valueOfDigits. by rewrite fold_left_app.
Qed.

Lemma numeral_app first second : numeral first = true -> numeral second = true -> numeral (first ++ second) = negb (bool_decide (first = [48])).
Proof.
  intros Hf Hs. assert (second <> []) as Hne by (by destruct second). apply numeral_digits in Hs. destruct first as [|c first]; [done|]. cbn [numeral app] in *.
  apply andb_true_iff in Hf as [[Hc Hd]%andb_true_iff Hz]. rewrite Hc, forallb_app, Hd, Hs. cbn [andb].
  destruct (Z.eqb_spec c 48) as [->|Hc48]; cbn [negb orb] in *; [|by rewrite bool_decide_false by congruence].
  apply bool_decide_eq_true in Hz as ->. cbn [app]. by rewrite (bool_decide_true ([48] = [48])), bool_decide_false by done.
Qed.

(** The two ways to hash differ in the integer bit. *)
Lemma hashes_differ units : shortNumeral units = true -> hashOf units 0 mod 2 ^ 31 <> stringHash units.
Proof. intros Hn E. pose proof (stringHash_integer units) as Hi. rewrite Hn, <- E in Hi. unfold IsInteger, RAW_HASH_LENGTH in Hi. by rewrite Z.mod_pow2_bits_high in Hi by lia. Qed.

Lemma CalculateConcatHashCode_eq platform first second : CalculateConcatHashCode platform first second =
  Ok (if (length first + length second <? MAX_ELEMENT_INDEX_LEN)%nat && numeral first && numeral second then valueOfDigits (first ++ second) + 2 ^ 31 else hashOf (first ++ second) 0 mod 2 ^ 31).
Proof.
  unfold CalculateConcatHashCode. rewrite !ComputeHashcode_eq, !bind_Ok, !stringHash_integer. unfold shortNumeral, MAX_ELEMENT_INDEX_LEN.
  assert (forall b1 b2, CalculateDataConcatHashCode platform b1 first b2 second = Ok (hashOf (first ++ second) 0 mod 2 ^ 31)) as Hplain.
  { intros b1 b2. unfold CalculateDataConcatHashCode. rewrite ComputeHashForData_eq, bind_Ok by done. rewrite ComputeHashForData_eq by (by apply hashOf_range). rewrite bind_Ok, mix_plain. unfold hashOf. by rewrite fold_left_app. }
  rewrite Hplain. destruct (Nat.ltb_spec (length first + length second) 10) as [Hl|Hl]; [|done]. rewrite (proj2 (Nat.ltb_lt (length first) 10)), (proj2 (Nat.ltb_lt (length second) 10)), !andb_true_r by lia.
  destruct (numeral first) eqn:Ef; [|by rewrite !andb_false_r]. destruct (numeral second) eqn:Es; [|by rewrite !andb_false_r]. rewrite (numeral_utf8 _ Ef), (numeral_utf8 _ Es). cbn [andb].
  assert (shortNumeral first = true) as Hs by (unfold shortNumeral, MAX_ELEMENT_INDEX_LEN; rewrite Ef; apply Nat.ltb_lt; lia).
  rewrite HashIntegerString_eq, (narrowed_ascii first), Ef, bind_Ok by (lia || (by apply numeral_utf8) || by destruct first). by rewrite HashIntegerString_seed by (done || lia).
Qed.


Lemma concat_hash_of_05 platform : exists hash, CalculateConcatHashCode platform [48] [53] = Ok hash /\ ComputeHashcode platform [53] = Ok hash /\ ComputeHashcode platform [48; 53] <> Ok hash.
Proof. rewrite CalculateConcatHashCode_eq, !ComputeHashcode_eq. eexists. split_and!; vm_compute; [done|done|congruence]. Qed.
