(* ===== verification/LinkedHashTable.v ===== *)
(** * Linked hash tables

    [LinkedHashTable] of src/ecmascript/linked_hash_table.h and .cpp, from which the tables of Map
    and Set ([LinkedHashMap], [LinkedHashSet]) are derived: the entries stand in the order of their
    insertion, a bucket is a chain of entries, a removed entry leaves a hole.  When the entries move
    to another table, the old one keeps a link to it, and every hole of the old one is told how many
    holes there are up to it, so that an iterator of the old table can go on in the new one.

    Tables are shared: the map and its iterators refer to them.  A table is a place in a [Heap], the
    list of the tables made so far.  Weak tables and the removal of entries by the collector are not
    modelled. *)

From Stdlib Require Import ZArith Lia.
From S2P Require Import Prelude BigIntBase Double Values Containers StringOrder StringHash.

(** ** Hashes of keys *)

(** From outside: [GetHash32] and [GetPowerOfTwoValue32] of the runtime core, the hash that an object
    or a symbol has in its own field once it was asked for, and what the maker of a string put in the
    hash field of the string at an address (0 when nothing: then the hash is computed when it is asked
    for, and kept, which gives the same hash every time). *)
Record HashEnv := mkHashEnv {
  hashPlatform : Platform;
  GetHash32 : list Z -> Z;
  identityHash : Z -> Z;
  mixHashcodeOf : Z -> Z;
  GetPowerOfTwoValue32 : Z -> Z }.

Definition NAN_HASH : Z := 2 ^ 31 - 1.
Definition DOUBLE_ENCODE_OFFSET : Z := 2 ^ 48.
Definition TAG_INT : Z := 0xFFFF * 2 ^ 48.

(** The 64 bits of a value. *)
Definition GetRawData (v : JSTaggedValue) : Z :=
  match v with
  | Hole => 5
  | Undefined => 2
  | Null => 3
  | Boolean b => if b then 7 else 6
  | Int z => TAG_INT + u32 z
  | Double d => u64 (d + DOUBLE_ENCODE_OFFSET)
  | EcmaString address _ | BigIntObject address _ | Object address => address
  end.

(** The bytes of a number in memory, the lowest first. *)
Fixpoint bytesOf (n : nat) (x : Z) : list Z :=
  match n with O => [] | S n => x mod 256 :: bytesOf n (x / 256) end.

Definition Hash (env : HashEnv) (key : JSTaggedValue) : result Z :=
  match key with
  | Int z => Ok z
  | EcmaString address units => h ← GetHashcode (hashPlatform env) (mixHashcodeOf env address) units; Ok (i32 h)
  | Object address => Ok (i32 (identityHash env address))
  | BigIntObject _ x => keyValue ← GetDigit x 0; Ok (i32 (GetHash32 env (bytesOf 4 keyValue)))
  | Double d =>
    match TryCastDoubleToInt32 d with
    | Int z => Ok z
    | _ => if isnan d then Ok NAN_HASH else Ok (i32 (GetHash32 env (bytesOf 8 (GetRawData key))))
    end
  | _ => Ok (i32 (GetHash32 env (bytesOf 8 (GetRawData key))))
  end.

(** ** Data *)

(** A link to an entry is its number or a hole. *)
Record HashEntry := mkHashEntry { hashKey : JSTaggedValue; hashValue : JSTaggedValue; nextEntry : JSTaggedValue }.

Definition emptyHashEntry : HashEntry := mkHashEntry Hole Hole Hole.

(** The four slots in front, the buckets and the entries.  The next table is its place in the heap. *)
Record LinkedHashTable := mkTable {
  NumberOfElements : Z;
  NumberOfDeletedElements : Z;
  Capacity : Z;
  GetNextTable : option nat;
  buckets : list JSTaggedValue;
  hashEntries : list HashEntry }.

Notation Heap := (list LinkedHashTable).

Definition MIN_CAPACITY : Z := 4.
Definition MIN_SHRINK_CAPACITY : Z := 16.
Definition ELEMENTS_START_INDEX : Z := 4.

Definition SetNumberOfElements (t : LinkedHashTable) (nof : Z) : LinkedHashTable :=
  mkTable nof (NumberOfDeletedElements t) (Capacity t) (GetNextTable t) (buckets t) (hashEntries t).
Definition SetNumberOfDeletedElements (t : LinkedHashTable) (nod : Z) : LinkedHashTable :=
  mkTable (NumberOfElements t) nod (Capacity t) (GetNextTable t) (buckets t) (hashEntries t).
Definition SetNextTable (t : LinkedHashTable) (nextTable : nat) : LinkedHashTable :=
  mkTable (NumberOfElements t) (NumberOfDeletedElements t) (Capacity t) (Some nextTable) (buckets t) (hashEntries t).
Definition withBuckets (t : LinkedHashTable) (bs : list JSTaggedValue) : LinkedHashTable :=
  mkTable (NumberOfElements t) (NumberOfDeletedElements t) (Capacity t) (GetNextTable t) bs (hashEntries t).
Definition withHashEntries (t : LinkedHashTable) (es : list HashEntry) : LinkedHashTable :=
  mkTable (NumberOfElements t) (NumberOfDeletedElements t) (Capacity t) (GetNextTable t) (buckets t) es.

(** ** Access to entries *)

(** In a set ([shared]) the key and the value of an entry are the same slot. *)
Section Table.
  Variable env : HashEnv.
  Variable shared : bool.

Definition ENTRY_SIZE : Z := if shared then 1 else 2.

Definition hashEntryAt (t : LinkedHashTable) (entry : Z) : result HashEntry :=
  if entry <? 0 then Err OutOfBounds else get (hashEntries t) (Z.to_nat entry).

Definition GetKey (t : LinkedHashTable) (entry : Z) : result JSTaggedValue := e ← hashEntryAt t entry; Ok (hashKey e).
Definition GetValue (t : LinkedHashTable) (entry : Z) : result JSTaggedValue := e ← hashEntryAt t entry; Ok (hashValue e).
Definition GetNextEntry (t : LinkedHashTable) (entry : Z) : result JSTaggedValue := e ← hashEntryAt t entry; Ok (nextEntry e).

Definition updateHashEntry (t : LinkedHashTable) (entry : Z) (f : HashEntry -> HashEntry) : result LinkedHashTable :=
  e ← hashEntryAt t entry; es ← set (hashEntries t) (Z.to_nat entry) (f e); Ok (withHashEntries t es).

Definition keyedEntry (k : JSTaggedValue) (e : HashEntry) : HashEntry := mkHashEntry k (if shared then k else hashValue e) (nextEntry e).
Definition valuedEntry (v : JSTaggedValue) (e : HashEntry) : HashEntry := mkHashEntry (if shared then v else hashKey e) v (nextEntry e).
Definition linkedEntry (n : JSTaggedValue) (e : HashEntry) : HashEntry := mkHashEntry (hashKey e) (hashValue e) n.

Definition SetKey (t : LinkedHashTable) (entry : Z) (key : JSTaggedValue) : result LinkedHashTable := updateHashEntry t entry (keyedEntry key).
Definition SetValue (t : LinkedHashTable) (entry : Z) (value : JSTaggedValue) : result LinkedHashTable := updateHashEntry t entry (valuedEntry value).
Definition SetNextEntry (t : LinkedHashTable) (entry : Z) (next : JSTaggedValue) : result LinkedHashTable := updateHashEntry t entry (linkedEntry next).

(** [GetInt] of a link that is no hole. *)
Definition linkNumber (v : JSTaggedValue) : result Z := match v with Int z => Ok z | _ => Err OutOfBounds end.

Definition HashToBucket (t : LinkedHashTable) (hash : Z) : Z := Z.land (u32 hash) (u32 (Capacity t - 1)).

Definition InsertNewEntry (t : LinkedHashTable) (bucket entry : Z) : result LinkedHashTable :=
  previousEntry ← get (buckets t) (Z.to_nat bucket);
  t ← SetNextEntry t entry previousEntry;
  bs ← set (buckets t) (Z.to_nat bucket) (Int entry);
  Ok (withBuckets t bs).

(** ** Search *)

(** Along the chain of a bucket. *)
Fixpoint findLoop (fuel : nat) (t : LinkedHashTable) (key entry : JSTaggedValue) : result Z :=
  match entry with
  | Hole => Ok (-1)
  | _ =>
    match fuel with
    | O => Err OutOfFuel
    | S fuel =>
      e ← linkNumber entry;
      element ← GetKey t e;
      if negb (IsHole element) && SameValueZero key element then Ok e
      else next ← GetNextEntry t e; findLoop fuel t key next
    end
  end.

Definition FindElement (t : LinkedHashTable) (key : JSTaggedValue) : result Z :=
  if IsHole key then Ok (-1) else
  hash ← Hash env key;
  entry ← get (buckets t) (Z.to_nat (HashToBucket t hash));
  findLoop (S (length (hashEntries t))) t key entry.

Definition RemoveEntry (t : LinkedHashTable) (entry : Z) : result LinkedHashTable :=
  t ← SetKey t entry Hole;
  t ← (if shared then Ok t else SetValue t entry Hole);
  let t := SetNumberOfElements t (NumberOfElements t - 1) in
  Ok (SetNumberOfDeletedElements t (NumberOfDeletedElements t + 1)).

(** ** Capacities *)

Definition HasSufficientCapacity (t : LinkedHashTable) (numOfAddElements : Z) : bool :=
  let nof := NumberOfElements t + numOfAddElements in
  let capacity := Capacity t in
  if (nof <? capacity) && (NumberOfDeletedElements t <=? Z.quot (capacity - nof) 2) then
    let neededFree := Z.quot nof 2 in
    nof + neededFree <=? capacity
  else false.

Definition ComputeCapacity (atLeastSpaceFor : Z) : Z :=
  let rawCap := u32 (u32 atLeastSpaceFor + Z.shiftr (u32 atLeastSpaceFor) 1) in
  let capacity := i32 (GetPowerOfTwoValue32 env rawCap) in
  if MIN_CAPACITY <? capacity then capacity else MIN_CAPACITY.

Definition ComputeCapacityWithShrink (currentCapacity atLeastSpaceFor : Z) : Z :=
  if Z.quot currentCapacity 4 <? atLeastSpaceFor then currentCapacity else
  let newCapacity := ComputeCapacity atLeastSpaceFor in
  if newCapacity <? MIN_SHRINK_CAPACITY then currentCapacity else newCapacity.

(** The length of the array in slots is an [int]. *)
Definition TableTooLong : error := RangeError "length of the array overflows".

Definition Create (numberOfElements : Z) : result LinkedHashTable :=
  let length := ELEMENTS_START_INDEX + numberOfElements + numberOfElements * (ENTRY_SIZE + 1) in
  if 2 ^ 31 <=? length then Err TableTooLong else
  let n := Z.to_nat numberOfElements in
  Ok (mkTable 0 0 numberOfElements None (replicate n Hole) (replicate n emptyHashEntry)).

(** ** Moving to another table *)

(** The number of removed entries before [entry], when the table was left for another one. *)
Fixpoint deletedLoop (fuel : nat) (t : LinkedHashTable) (currentEntry : Z) : result Z :=
  if 0 <=? currentEntry then
    key ← GetKey t currentEntry;
    if IsHole key then next ← GetNextEntry t currentEntry; linkNumber next
    else match fuel with O => Err OutOfFuel | S fuel => deletedLoop fuel t (currentEntry - 1) end
  else Ok 0.

Definition GetDeletedElementsAt (t : LinkedHashTable) (entry : Z) : result Z :=
  if NumberOfDeletedElements t =? -1 then Ok entry else deletedLoop (Z.to_nat entry) t (entry - 1).

(** The loop over the entries of the old table: the old and the new table, the next entry of the
    new one, and the number of holes so far. *)
Definition rehashStep (i : nat) '(t, newTable, desEntry, currentDeletedElements) : result (LinkedHashTable * LinkedHashTable * Z * Z) :=
  key ← GetKey t (Z.of_nat i);
  if IsHole key then
    let currentDeletedElements := currentDeletedElements + 1 in
    t ← SetNextEntry t (Z.of_nat i) (Int currentDeletedElements);
    Ok (t, newTable, desEntry, currentDeletedElements)
  else
    hash ← Hash env key;
    newTable ← InsertNewEntry newTable (HashToBucket newTable hash) desEntry;
    newTable ← SetKey newTable desEntry key;
    newTable ← (if shared then Ok newTable else value ← GetValue t (Z.of_nat i); SetValue newTable desEntry value);
    Ok (t, newTable, desEntry + 1, currentDeletedElements).

(** [next]: the place of the new table. *)
Definition Rehash (t newTable : LinkedHashTable) (next : nat) : result (LinkedHashTable * LinkedHashTable) :=
  let numberOfAllElements := NumberOfElements t + NumberOfDeletedElements t in
  let t := SetNextTable t next in
  '(t, newTable, _, _) ← for_up (Z.to_nat numberOfAllElements) 0 rehashStep (t, newTable, 0, 0);
  let newTable := SetNumberOfElements newTable (NumberOfElements t) in
  Ok (t, SetNumberOfDeletedElements newTable 0).

(** ** Operations on shared tables *)

(** The table at a place is left for a new one of the given capacity. *)
Definition moveTable (heap : Heap) (table : nat) (newCapacity : Z) : result (Heap * nat) :=
  t ← get heap table;
  newTable ← Create newCapacity;
  '(t, newTable) ← Rehash t newTable (length heap);
  heap' ← set heap table t;
  Ok (heap' ++ [newTable], length heap).

Definition GrowCapacity (heap : Heap) (table : nat) (numberOfAddedElements : Z) : result (Heap * nat) :=
  t ← get heap table;
  if HasSufficientCapacity t numberOfAddedElements then Ok (heap, table)
  else moveTable heap table (ComputeCapacity (NumberOfElements t + numberOfAddedElements)).

Definition Insert (heap : Heap) (table : nat) (key value : JSTaggedValue) : result (Heap * nat) :=
  hash ← Hash env key;
  t ← get heap table;
  entry ← FindElement t key;
  if negb (entry =? -1) then
    t ← SetValue t entry value; heap ← set heap table t; Ok (heap, table)
  else
    '(heap, newTable) ← GrowCapacity heap table 1;
    t ← get heap newTable;
    let entry := NumberOfElements t + NumberOfDeletedElements t in
    t ← InsertNewEntry t (HashToBucket t hash) entry;
    t ← SetKey t entry key;
    t ← SetValue t entry value;
    heap ← set heap newTable (SetNumberOfElements t (NumberOfElements t + 1));
    Ok (heap, newTable).

Definition Shrink (heap : Heap) (table : nat) (additionalCapacity : Z) : result (Heap * nat) :=
  t ← get heap table;
  let newCapacity := ComputeCapacityWithShrink (Capacity t) (NumberOfElements t + additionalCapacity) in
  if newCapacity =? Capacity t then Ok (heap, table) else moveTable heap table newCapacity.

Definition Remove (heap : Heap) (table : nat) (key : JSTaggedValue) : result (Heap * nat) :=
  t ← get heap table;
  entry ← FindElement t key;
  if entry =? -1 then Ok (heap, table) else
  t ← RemoveEntry t entry;
  heap ← set heap table t;
  Shrink heap table 0.

Definition Get (t : LinkedHashTable) (key : JSTaggedValue) : result JSTaggedValue :=
  entry ← FindElement t key; if entry =? -1 then Ok Undefined else GetValue t entry.

Definition Has (t : LinkedHashTable) (key : JSTaggedValue) : result bool :=
  entry ← FindElement t key; Ok (negb (entry =? -1)).

Definition Clear (heap : Heap) (table : nat) : result (Heap * nat) :=
  t ← get heap table;
  if Capacity t =? MIN_CAPACITY then
    let t := withBuckets t (replicate (length (buckets t)) Hole) in
    let t := withHashEntries t (replicate (length (hashEntries t)) emptyHashEntry) in
    let t := SetNumberOfDeletedElements t (NumberOfDeletedElements t + NumberOfElements t) in
    heap ← set heap table (SetNumberOfElements t 0);
    Ok (heap, table)
  else
    newTable ← Create MIN_CAPACITY;
    heap ← (if 0 <? Capacity t then set heap table (SetNumberOfDeletedElements (SetNextTable t (length heap)) (-1)) else Ok heap);
    Ok (heap ++ [newTable], length heap).
End Table.
