(* ===== verification/OptionList.v ===== *)
(** * Lists with holes

    The entries of an insertion ordered table are a list in which removed entries are [None].  This
    file relates such a list to the list of its live entries, from which an iterator that stands
    at some place of it has [passed] a number. *)

From Stdlib Require Import ZArith Lia.
From S2P Require Import Prelude.

Section Live.
  Context {A : Type}.
  Implicit Types (X : list (option A)) (i : nat) (a : A).

Definition live (X : list (option A)) : list A := omap id X.

(** How many live entries stand before place [i]. *)
Definition passed (i : nat) (X : list (option A)) : nat := length (live (take i X)).

Lemma live_app X Y : live (X ++ Y) = live X ++ live Y.
Proof. apply omap_app. Qed.

Lemma live_Some (l : list A) : live (Some <$> l) = l.
Proof. induction l as [|a l IH]; cbn; [done|]. by f_equal. Qed.

Lemma live_None n : live (replicate n None) = [].
Proof. induction n; cbn; auto. Qed.

Lemma live_split X i o : X !! i = Some o -> live X = live (take i X) ++ live [o] ++ live (drop (S i) X).
Proof. intros H. rewrite <- (take_drop_middle X i o H) at 1. change (o :: drop (S i) X) with ([o] ++ drop (S i) X). by rewrite !live_app. Qed.

(** A live entry is found among the live ones. *)
Lemma live_lookup X i a : X !! i = Some (Some a) -> live X !! passed i X = Some a.
Proof. intros H. rewrite (live_split X i _ H). unfold passed. by rewrite lookup_app_r, Nat.sub_diag by lia. Qed.

Lemma passed_lt X i a : X !! i = Some (Some a) -> (passed i X < length (live X))%nat.
Proof. intros H%live_lookup. by apply lookup_lt_Some in H. Qed.

Lemma passed_le i X : (passed i X <= length (live X))%nat.
Proof. unfold passed. rewrite <- (take_drop i X) at 2. rewrite live_app, length_app. lia. Qed.

Lemma passed_S X i o : X !! i = Some o -> passed (S i) X = (passed i X + length (live [o]))%nat.
Proof. intros H. unfold passed. rewrite (take_S_r X i o H), live_app, length_app. done. Qed.

Lemma passed_mono X i j : (i <= j)%nat -> (passed i X <= passed j X)%nat.
Proof. intros Hij. unfold passed. replace (take i X) with (take i (take j X)) by (rewrite take_take; f_equal; lia). apply passed_le. Qed.

Lemma passed_all X i : (length X <= i)%nat -> passed i X = length (live X).
Proof. intros H. unfold passed. by rewrite take_ge. Qed.

Lemma passed_0 X : passed 0 X = 0%nat.
Proof. done. Qed.

Lemma passed_app X Y i : (i <= length X)%nat -> passed i (X ++ Y) = passed i X.
Proof. intros H. unfold passed. by rewrite take_app_le. Qed.

Lemma passed_Some i (l : list A) : passed i (Some <$> l) = Nat.min i (length l).
Proof. unfold passed. rewrite <- fmap_take, live_Some. apply length_take. Qed.

Lemma live_length X : (length (live X) <= length X)%nat.
Proof. induction X as [|[a|] X IH]; cbn; [done|apply le_n_S, IH|apply le_S, IH]. Qed.

Lemma passed_i X i : (passed i X <= i)%nat.
Proof. unfold passed. pose proof (live_length (take i X)) as H. rewrite length_take in H. lia. Qed.

(** Every live entry stands somewhere. *)
Lemma live_back X i a : live X !! i = Some a -> exists j, X !! j = Some (Some a) /\ passed j X = i.
Proof.
  revert i. induction X as [|[b|] X IH]; intros i Hi; [done| |].
  - destruct i as [|i]; [exists 0%nat; by split; [cbn in *; congruence|]|]. destruct (IH i Hi) as (j & Hj & Hp). exists (S j). split; [done|]. cbn. unfold passed in Hp. by f_equal.
  - destruct (IH i Hi) as (j & Hj & Hp). exists (S j). by split.
Qed.

(** ** Changes of an entry *)

Lemma live_update X i a b : X !! i = Some (Some a) -> live (<[i := Some b]> X) = <[passed i X := b]> (live X).
Proof.
  intros H. assert (i < length X)%nat as Hl by (by eapply lookup_lt_Some). rewrite (live_split (<[i := Some b]> X) i (Some b)) by (by apply list_lookup_insert_eq).
  rewrite take_insert_ge, drop_insert_lt by lia. rewrite (live_split X i _ H). cbn [live omap list_omap app id]. unfold passed.
  rewrite insert_app_r_alt, Nat.sub_diag by lia. done.
Qed.

Lemma live_remove X i a : X !! i = Some (Some a) -> live (<[i := None]> X) = delete (passed i X) (live X).
Proof.
  intros H. assert (i < length X)%nat as Hl by (by eapply lookup_lt_Some). rewrite (live_split (<[i := None]> X) i None) by (by apply list_lookup_insert_eq).
  rewrite take_insert_ge, drop_insert_lt by lia. rewrite (live_split X i _ H). cbn [live omap list_omap app id]. unfold passed.
  by rewrite delete_middle.
Qed.

Lemma passed_update X i j a b : X !! i = Some (Some a) -> passed j (<[i := Some b]> X) = passed j X.
Proof.
  intros H. unfold passed. destruct (decide (i < j)%nat).
  - rewrite take_insert_lt by lia. erewrite live_update by (rewrite lookup_take_lt; [done|lia]). by rewrite length_insert.
  - by rewrite take_insert_ge by lia.
Qed.

Lemma passed_remove X i j a : X !! i = Some (Some a) -> passed j (<[i := None]> X) = (if decide (passed i X < passed j X)%nat then passed j X - 1 else passed j X)%nat.
Proof.
  intros H. destruct (decide (i < j)%nat) as [Hij|Hij].
  - assert (passed i X < passed j X)%nat as Hp. { pose proof (passed_mono X (S i) j ltac:(lia)) as Hm. rewrite (passed_S X i _ H) in Hm. cbn in Hm. lia. }
    rewrite decide_True by done. unfold passed at 1. rewrite take_insert_lt by lia. rewrite (live_remove (take j X) i a) by (rewrite lookup_take_lt; [done|lia]).
    rewrite length_delete; [unfold passed; lia|]. exists a. apply live_lookup. rewrite lookup_take_lt; [done|lia].
  - rewrite decide_False by (pose proof (passed_mono X j i ltac:(lia)); lia). unfold passed. by rewrite take_insert_ge by lia.
Qed.

(** ** The next live entry *)

Fixpoint nextLive (X : list (option A)) (i : nat) : option (nat * A) :=
  match X, i with
  | [], _ => None
  | Some a :: _, O => Some (0%nat, a)
  | None :: X, O => '(j, a) ← nextLive X 0; Some (S j, a)
  | _ :: X, S i => '(j, a) ← nextLive X i; Some (S j, a)
  end.

Lemma nextLive_spec X i : match nextLive X i with
  | Some (j, a) => (i <= j)%nat /\ X !! j = Some (Some a) /\ passed j X = passed i X /\ live X !! passed i X = Some a
  | None => live X !! passed i X = None /\ passed i X = length (live X) end.
Proof.
  revert i. induction X as [|o X IH]; intros i; [destruct i; done|]. cbn [nextLive]. destruct o as [a|], i as [|i].
  - cbn. split_and!; auto with lia.
  - specialize (IH i). destruct (nextLive X i) as [[j b]|]; cbn [mbind option_bind] in *.
    + destruct IH as (Hj & HX & Hp & Hl). split_and!; [lia|done| |]; unfold passed in *; cbn [take live omap list_omap id length] in *; [by f_equal|done].
    + destruct IH as [Hl Hp]. unfold passed in *. cbn [take live omap list_omap id length lookup] in *. split; [done|by f_equal].
  - specialize (IH 0%nat). destruct (nextLive X 0) as [[j b]|]; cbn [mbind option_bind] in *.
    + destruct IH as (Hj & HX & Hp & Hl). split_and!; [lia|done| |]; unfold passed in *; cbn [take live omap list_omap id length] in *; done.
    + destruct IH as [Hl Hp]. unfold passed in *. cbn [take live omap list_omap id length lookup] in *. by split.
  - specialize (IH i). destruct (nextLive X i) as [[j b]|]; cbn [mbind option_bind] in *.
    + destruct IH as (Hj & HX & Hp & Hl). split_and!; [lia|done| |]; unfold passed in *; cbn [take live omap list_omap id length] in *; done.
    + destruct IH as [Hl Hp]. unfold passed in *. cbn [take live omap list_omap id length lookup] in *. by split.
Qed.

(** Two lists with the same live entries, at places with as many of them passed, go on alike. *)
Lemma nextLive_same X Y i j : live X = live Y -> passed i X = passed j Y ->
  match nextLive X i, nextLive Y j with
  | Some (i', a), Some (j', b) => a = b /\ passed (S i') X = passed (S j') Y
  | None, None => True
  | _, _ => False
  end.
Proof.
  intros Hl Hp. pose proof (nextLive_spec X i) as HX. pose proof (nextLive_spec Y j) as HY. rewrite Hl, Hp in HX.
  destruct (nextLive X i) as [[i' a]|], (nextLive Y j) as [[j' b]|]; try done.
  - destruct HX as (_ & Hi & Pi & La), HY as (_ & Hj & Pj & Lb). rewrite (passed_S _ _ _ Hi), (passed_S _ _ _ Hj), Pi, Pj. split; [congruence|done].
  - destruct HX as (_ & _ & _ & La), HY as [Lb _]. congruence.
  - destruct HX as [La _], HY as (_ & _ & _ & Lb). congruence.
Qed.

Lemma live_drop X i : live (drop i X) = drop (passed i X) (live X).
Proof. rewrite <- (take_drop i X) at 3. rewrite live_app. unfold passed. by rewrite drop_app_length. Qed.

Lemma live_drop_same X Y i j : live X = live Y -> passed i X = passed j Y -> live (drop i X) = live (drop j Y).
Proof. intros H Hp. by rewrite !live_drop, H, Hp. Qed.
End Live.
