(* ===== verification/LinkedHashRep.v ===== *)
(** * What a linked hash table holds

    The invariant of a table ([tableOk]: its entries, with [None] for a removed one, are linked into
    the chains of their buckets) and what the operations on one table do to it: search, removal,
    overwriting, a new entry, and the move to another table. *)

From Stdlib Require Import ZArith Lia Sorted.
From S2P Require Import Prelude BigIntBase Double Values Containers LinkedHashTable OptionList.

Notation pair_ := (JSTaggedValue * JSTaggedValue)%type.

(** ** Search in a list of entries *)

Definition matches (key : JSTaggedValue) (o : option pair_) : bool := match o with Some e => SameValueZero key e.1 | None => false end.

Fixpoint findKey (key : JSTaggedValue) (X : list (option pair_)) : option nat :=
  match X with [] => None | o :: X => if matches key o then Some 0%nat else S <$> findKey key X end.

Lemma findKey_Some key X i : findKey key X = Some i -> exists e, X !! i = Some (Some e) /\ SameValueZero key e.1 = true.
Proof.
  revert i. induction X as [|o X IH]; intros i H; cbn in H; [done|]. destruct (matches key o) eqn:E.
  - injection H as <-. destruct o as [e|]; [|done]. by exists e.
  - destruct (findKey key X) as [j|]; [|done]. injection H as <-. by apply IH.
Qed.

Lemma findKey_None key X i e : findKey key X = None -> X !! i = Some (Some e) -> SameValueZero key e.1 = false.
Proof.
  revert i. induction X as [|o X IH]; intros i H Hi; cbn in H; [done|]. destruct (matches key o) eqn:E; [done|]. destruct (findKey key X) eqn:Ef; [done|].
  destruct i as [|i]; [|by eapply IH]. cbn in Hi. injection Hi as ->. done.
Qed.

(** The place of the key among the live entries. *)
Lemma findKey_live key X : (fun i => passed i X) <$> findKey key X = findKey key (Some <$> live X).
Proof.
  induction X as [|o X IH]; [done|]. cbn [findKey]. destruct o as [e|]; cbn [matches live omap list_omap id fmap list_fmap findKey].
  - destruct (SameValueZero key e.1); [done|]. fold (live X). rewrite <- IH. destruct (findKey key X); [|done]. cbn. done.
  - fold (live X). rewrite <- IH. destruct (findKey key X); [|done]. cbn. done.
Qed.

Lemma findKey_same key X Y : live X = live Y ->
  match findKey key X, findKey key Y with
  | Some i, Some j => passed i X = passed j Y /\ exists e, X !! i = Some (Some e) /\ Y !! j = Some (Some e) /\ SameValueZero key e.1 = true
  | None, None => True
  | _, _ => False
  end.
Proof.
  intros H. pose proof (findKey_live key X) as HX. pose proof (findKey_live key Y) as HY. rewrite H, <- HY in HX.
  destruct (findKey key X) as [i|] eqn:Ei, (findKey key Y) as [j|] eqn:Ej; try done. cbn in HX. injection HX as Hp. split; [done|].
  destruct (findKey_Some _ _ _ Ei) as (e & Hi & He), (findKey_Some _ _ _ Ej) as (f & Hj & Hf). exists e. split_and!; [done| |done].
  pose proof (live_lookup _ _ _ Hi) as Le. pose proof (live_lookup _ _ _ Hj) as Lf. rewrite H, Hp, Lf in Le. congruence.
Qed.

(** ** What the table expects of keys *)

(** The keys in use: their equality is an equivalence, and equal keys have the same hash. *)
Class KeyHash (env : HashEnv) (K : JSTaggedValue -> Prop) (hash : JSTaggedValue -> Z) : Prop := {
  keyhash_proper : forall k, K k -> k <> Hole;
  keyhash_hash : forall k, K k -> Hash env k = Ok (hash k);
  keyhash_refl : forall k, K k -> SameValueZero k k = true;
  keyhash_sym : forall x y, K x -> K y -> SameValueZero x y = true -> SameValueZero y x = true;
  keyhash_trans : forall x y z, K x -> K y -> K z -> SameValueZero x y = true -> SameValueZero y z = true -> SameValueZero x z = true;
  keyhash_respects : forall x y, K x -> K y -> SameValueZero x y = true -> hash x = hash y }.

(** [GetPowerOfTwoValue32] rounds up to a power of two. *)
Definition roundsUp (env : HashEnv) : Prop := forall v, 0 <= v <= 2 ^ 30 -> GetPowerOfTwoValue32 env v = 2 ^ Z.log2_up v.

(** ** Chains *)

Definition viewEntry (e : HashEntry) : option pair_ := if IsHole (hashKey e) then None else Some (hashKey e, hashValue e).

Fixpoint chainOf (es : list HashEntry) (link : JSTaggedValue) (l : list nat) : Prop :=
  match l with
  | [] => link = Hole
  | i :: l => link = Int (Z.of_nat i) /\ exists e, es !! i = Some e /\ chainOf es (nextEntry e) l
  end.

Lemma chainOf_insert es link l i e : i ∉ l -> chainOf es link l -> chainOf (<[i := e]> es) link l.
Proof.
  revert link. induction l as [|j l IH]; intros link Hi H; [done|]. apply not_elem_of_cons in Hi as [Hij Hi]. destruct H as (-> & e' & He' & H).
  split; [done|]. exists e'. split; [by rewrite list_lookup_insert_ne|by apply IH].
Qed.

(** A change of a key or value leaves the chains. *)
Lemma chainOf_relink es link l i e e' : es !! i = Some e -> nextEntry e' = nextEntry e -> chainOf es link l -> chainOf (<[i := e']> es) link l.
Proof.
  intros He Hn. revert link. induction l as [|j l IH]; intros link H; [done|]. destruct H as (-> & f & Hf & H). split; [done|].
  destruct (decide (i = j)) as [->|Hij].
  - exists e'. split; [apply list_lookup_insert_eq; by eapply lookup_lt_Some|]. rewrite Hn. replace e with f by congruence. by apply IH.
  - exists f. split; [by rewrite list_lookup_insert_ne|by apply IH].
Qed.

Definition bucketOf (cap h : Z) : Z := Z.land (u32 h) (u32 (cap - 1)).

Section Rep.
  Context {env : HashEnv} {K : JSTaggedValue -> Prop} {hash : JSTaggedValue -> Z} `{!KeyHash env K hash}.
  Variable shared : bool.

Record linked (cap : Z) (bs : list JSTaggedValue) (es : list HashEntry) (E : list (option pair_)) : Prop := {
  linked_cap : exists k, 2 <= k <= 26 /\ cap = 2 ^ k;
  linked_buckets : Z.of_nat (length bs) = cap;
  linked_entries : Z.of_nat (length es) = cap;
  linked_view : E = viewEntry <$> take (length E) es;
  linked_chains : forall b link, bs !! b = Some link -> exists l, chainOf es link l /\ StronglySorted gt l /\ Forall (fun i => (i < length E)%nat) l /\
    forall i k v, E !! i = Some (Some (k, v)) -> bucketOf cap (hash k) = Z.of_nat b -> i ∈ l }.

(** Keys are keys in use, and in a set values are keys. *)
Definition validEntries (E : list (option pair_)) : Prop := forall i k v, E !! i = Some (Some (k, v)) -> K k /\ (shared = true -> v = k).
Definition distinctKeys (E : list (option pair_)) : Prop :=
  forall i j e f, E !! i = Some (Some e) -> E !! j = Some (Some f) -> SameValueZero e.1 f.1 = true -> i = j.

Record tableOk (t : LinkedHashTable) (E : list (option pair_)) : Prop := {
  ok_linked : linked (Capacity t) (buckets t) (hashEntries t) E;
  ok_elements : NumberOfElements t = Z.of_nat (length (live E));
  ok_deleted : NumberOfDeletedElements t = Z.of_nat (length E) - Z.of_nat (length (live E));
  ok_next : GetNextTable t = None;
  ok_valid : validEntries E;
  ok_distinct : distinctKeys E }.

Lemma linked_room cap bs es E : linked cap bs es E -> Z.of_nat (length E) <= cap.
Proof. intros H. pose proof (linked_entries _ _ _ _ H). pose proof (f_equal length (linked_view _ _ _ _ H)) as Hl. rewrite length_fmap, length_take in Hl. lia. Qed.

Lemma linked_cap_pos cap bs es E : linked cap bs es E -> 4 <= cap <= 2 ^ 26.
Proof. intros H. destruct (linked_cap _ _ _ _ H) as (k & Hk & ->). split; [apply (Z.pow_le_mono_r 2 2); lia|apply Z.pow_le_mono_r; lia]. Qed.

Lemma linked_at cap bs es E i o : linked cap bs es E -> E !! i = Some o -> exists e, es !! i = Some e /\ viewEntry e = o.
Proof.
  intros H Hi. rewrite (linked_view _ _ _ _ H), list_lookup_fmap in Hi. destruct (take (length E) es !! i) as [e|] eqn:Ee; [|done]. cbn in Hi. injection Hi as <-.
  exists e. split; [|done]. by apply lookup_take_Some in Ee as [? _].
Qed.

Lemma viewEntry_Some e k v : viewEntry e = Some (k, v) -> hashKey e = k /\ hashValue e = v /\ IsHole k = false.
Proof. unfold viewEntry. destruct (IsHole (hashKey e)) eqn:Eh; [done|]. by intros [= <- <-]. Qed.

Lemma viewEntry_None e : viewEntry e = None -> IsHole (hashKey e) = true.
Proof. unfold viewEntry. by destruct (IsHole (hashKey e)). Qed.

Lemma bucketOf_range cap h : (exists k, 2 <= k <= 26 /\ cap = 2 ^ k) -> 0 <= bucketOf cap h < cap.
Proof.
  intros (k & Hk & ->). unfold bucketOf. pose proof (pow2_pos k ltac:(lia)). assert (2 ^ k <= 2 ^ 26) by (apply Z.pow_le_mono_r; lia).
  rewrite (u32_small (2 ^ k - 1)) by (unfold is_u32; rewrite BASE_eq; lia). replace (2 ^ k - 1) with (Z.ones k) by (rewrite Z.ones_equiv; lia).
  rewrite Z.land_ones by lia. apply Z.mod_pos_bound. lia.
Qed.

Lemma bucket_at cap bs es E h : linked cap bs es E -> exists link, bs !! Z.to_nat (bucketOf cap h) = Some link.
Proof. intros H. pose proof (bucketOf_range cap h (linked_cap _ _ _ _ H)). apply lookup_lt_is_Some_2. pose proof (linked_buckets _ _ _ _ H). lia. Qed.

(** ** Search *)

Lemma hashEntryAt_eq t i e : hashEntries t !! i = Some e -> hashEntryAt t (Z.of_nat i) = Ok e.
Proof. intros He. unfold hashEntryAt. destruct (Z.ltb_spec (Z.of_nat i) 0); [lia|]. rewrite Nat2Z.id. unfold get. by rewrite He. Qed.

Lemma findLoop_ok t E key l link fuel : (forall i o, E !! i = Some o -> exists e, hashEntries t !! i = Some e /\ viewEntry e = o) ->
  chainOf (hashEntries t) link l -> Forall (fun i => (i < length E)%nat) l -> (length l < fuel)%nat ->
  exists r, findLoop fuel t key link = Ok r /\ ((r = -1 /\ forall i e, i ∈ l -> E !! i = Some (Some e) -> SameValueZero key e.1 = false) \/
    exists i e, r = Z.of_nat i /\ E !! i = Some (Some e) /\ SameValueZero key e.1 = true).
Proof.
  intros HE. revert link fuel. induction l as [|i l IH]; intros link fuel Hc Hl Hf.
  - cbn in Hc. subst link. exists (-1). destruct fuel; (split; [done|]); left; (split; [done|]); intros i e Hi; by apply elem_of_nil in Hi.
  - destruct Hc as (-> & e & He & Hc). apply Forall_cons in Hl as [Hi Hl]. destruct fuel as [|fuel]; [cbn in Hf; lia|]. cbn [findLoop linkNumber]. rewrite bind_Ok.
    unfold GetKey, GetNextEntry. rewrite (hashEntryAt_eq _ _ _ He), !bind_Ok. destruct (lookup_lt_is_Some_2 E i Hi) as [o Ho].
    destruct (HE i o Ho) as (e' & He' & Hv). replace e' with e in * by congruence. clear He'.
    destruct (IH (nextEntry e) fuel Hc Hl ltac:(cbn in Hf; lia)) as (r & Er & Hr).
    destruct (IsHole (hashKey e)) eqn:Eh; cbn [negb andb].
    + rewrite Er. exists r. split; [done|]. destruct Hr as [[-> Hr]|Hr]; [left|by right]. split; [done|]. intros j f Hj Hf'. apply elem_of_cons in Hj as [->|Hj]; [|by eapply Hr].
      exfalso. unfold viewEntry in Hv. rewrite Eh in Hv. congruence.
    + assert (o = Some (hashKey e, hashValue e)) as -> by (rewrite <- Hv; unfold viewEntry; by rewrite Eh). destruct (SameValueZero key (hashKey e)) eqn:Es.
      * exists (Z.of_nat i). split; [done|]. right. exists i, (hashKey e, hashValue e). done.
      * rewrite Er. exists r. split; [done|]. destruct Hr as [[-> Hr]|Hr]; [left|by right]. split; [done|]. intros j f Hj Hf'. apply elem_of_cons in Hj as [->|Hj]; [|by eapply Hr].
        rewrite Ho in Hf'. by injection Hf' as <-.
Qed.

Lemma sorted_length n l : StronglySorted gt l -> Forall (fun i => (i < n)%nat) l -> (length l <= n)%nat.
Proof.
  intros Hs. revert n. induction Hs as [|i l Hs IH Hi]; intros n Hl; cbn; [lia|]. apply Forall_cons in Hl as [Hn _].
  specialize (IH i). enough (length l <= i)%nat by lia. apply IH. eapply Forall_impl; [exact Hi|]. cbn. lia.
Qed.

Definition entryNumber (o : option nat) : Z := match o with Some i => Z.of_nat i | None => -1 end.

Lemma FindElement_ok t E key : tableOk t E -> K key -> FindElement env t key = Ok (entryNumber (findKey key E)).
Proof.
  intros [HL _ _ _ HV HD] HK. unfold FindElement. destruct (IsHole key) eqn:Eh; [exfalso; apply (keyhash_proper key HK); by destruct key|].
  rewrite (keyhash_hash key HK), bind_Ok. change (HashToBucket t (hash key)) with (bucketOf (Capacity t) (hash key)).
  destruct (bucket_at _ _ _ _ (hash key) HL) as [link Hlink]. unfold get. rewrite Hlink, bind_Ok.
  destruct (linked_chains _ _ _ _ HL _ _ Hlink) as (l & Hc & Hs & Hl & Hin). pose proof (sorted_length _ _ Hs Hl). pose proof (linked_room _ _ _ _ HL). pose proof (linked_entries _ _ _ _ HL).
  destruct (findLoop_ok t E key l link (S (length (hashEntries t)))) as (r & -> & Hr); [intros i o Ho; by apply (linked_at _ _ _ _ _ _ HL)|done|done|lia|]. f_equal.
  destruct (findKey key E) as [i|] eqn:Ef; cbn [entryNumber].
  - destruct (findKey_Some _ _ _ Ef) as ([k v] & Hi & Hk). destruct (HV _ _ _ Hi) as [HKk _]. destruct Hr as [[-> Hr]|(j & f & -> & Hj & Hf)].
    + exfalso. rewrite (Hr i (k, v)) in Hk; [done| |done]. eapply (Hin i k v); [done|]. rewrite <- (keyhash_respects (env := env) (hash := hash) key k HK HKk Hk). pose proof (bucketOf_range _ (hash key) (linked_cap _ _ _ _ HL)). lia.
    + f_equal. destruct f as [k' v']. destruct (HV _ _ _ Hj) as [HKk' _]. symmetry. apply (HD i j (k, v) (k', v') Hi Hj). cbn in *.
      eapply (keyhash_trans k key); [done..| |done]. by apply keyhash_sym.
  - destruct Hr as [[-> _]|(j & f & -> & Hj & Hf)]; [done|]. rewrite (findKey_None _ _ _ _ Ef Hj) in Hf. done.
Qed.

(** ** Changes of one entry *)

Lemma updateHashEntry_eq t i e f : hashEntries t !! i = Some e -> updateHashEntry t (Z.of_nat i) f = Ok (withHashEntries t (<[i := f e]> (hashEntries t))).
Proof.
  intros He. unfold updateHashEntry. rewrite (hashEntryAt_eq _ _ _ He), bind_Ok, Nat2Z.id. unfold set. rewrite decide_True by (by eapply lookup_lt_Some). done.
Qed.

Lemma linked_replace cap bs es E i e e' o : linked cap bs es E -> es !! i = Some e -> (i < length E)%nat -> nextEntry e' = nextEntry e -> viewEntry e' = o ->
  (forall k v, o = Some (k, v) -> exists k' v', E !! i = Some (Some (k', v')) /\ hash k' = hash k) ->
  linked cap bs (<[i := e']> es) (<[i := o]> E).
Proof.
  intros [Hc Hb He Hv Hch] Hi Hl Hn Ho Hold. split; [done|done|by rewrite length_insert| |].
  - rewrite length_insert, take_insert_lt, list_fmap_insert, <- Hv by done. by rewrite Ho.
  - intros b link Hlink. destruct (Hch b link Hlink) as (l & Hcl & Hs & Hlt & Hin). exists l. split_and!; [by eapply chainOf_relink|done|by rewrite length_insert|].
    intros j k v Hj Hk. destruct (decide (i = j)) as [->|Hij].
    + rewrite list_lookup_insert_eq in Hj by done. injection Hj as ->. destruct (Hold k v eq_refl) as (k' & v' & Hj & Eh). rewrite <- Eh in Hk. by apply (Hin j k' v').
    + rewrite list_lookup_insert_ne in Hj by done. by eapply Hin.
Qed.

(** [RemoveEntry] *)
Lemma RemoveEntry_ok t E i a : tableOk t E -> E !! i = Some (Some a) -> returns (RemoveEntry shared t (Z.of_nat i)) (fun t' => tableOk t' (<[i := None]> E) /\ Capacity t' = Capacity t).
Proof.
  intros [HL Hn Hd Hx HV HD] Hi. destruct (linked_at _ _ _ _ _ _ HL Hi) as (e & He & Hv). assert (i < length E)%nat as Hlt by (by eapply lookup_lt_Some).
  assert (i < length (hashEntries t))%nat as Hlt' by (by eapply lookup_lt_Some). pose proof (passed_lt _ _ _ Hi) as Hp.
  assert (exists v', RemoveEntry shared t (Z.of_nat i) = Ok (mkTable (NumberOfElements t - 1) (NumberOfDeletedElements t + 1) (Capacity t) (GetNextTable t) (buckets t) (<[i := mkHashEntry Hole v' (nextEntry e)]> (hashEntries t)))) as [v' ->].
  { unfold RemoveEntry, SetKey, SetValue. rewrite (updateHashEntry_eq _ _ _ _ He), bind_Ok. destruct shared; [eexists; reflexivity|].
    erewrite updateHashEntry_eq by (cbn; by apply list_lookup_insert_eq). rewrite bind_Ok. cbn. rewrite list_insert_insert_eq. eexists. reflexivity. }
  cbn [returns]. split; [|done]. assert (length (live (<[i := None]> E)) = length (live E) - 1)%nat as El.
  { rewrite (live_remove _ _ _ Hi), length_delete; [done|]. exists a. by apply live_lookup. }
  split; cbn; [by eapply linked_replace|lia|rewrite El, length_insert; lia|done| |].
  - intros j k v Hj. apply list_lookup_insert_Some in Hj as [(_ & ? & _)|[_ Hj]]; [done|by eapply HV].
  - intros j j' f f' Hj Hj'. apply list_lookup_insert_Some in Hj as [(_ & ? & _)|[_ Hj]]; [done|]. apply list_lookup_insert_Some in Hj' as [(_ & ? & _)|[_ Hj']]; [done|]. by eapply HD.
Qed.

(** What is stored when an entry is overwritten: in a set the new key itself. *)
Definition overwrite (e : pair_) (v : JSTaggedValue) : pair_ := (if shared then v else e.1, v).

Lemma overwriteTable_ok t E i e v : tableOk t E -> E !! i = Some (Some e) -> (shared = true -> K v /\ SameValueZero v e.1 = true) ->
  returns (SetValue shared t (Z.of_nat i) v) (fun t' => tableOk t' (<[i := Some (overwrite e v)]> E) /\ Capacity t' = Capacity t).
Proof.
  intros [HL Hn Hd Hx HV HD] Hi Hsh. destruct e as [k0 v0]. destruct (linked_at _ _ _ _ _ _ HL Hi) as (h & Hh & Hv). destruct (viewEntry_Some _ _ _ Hv) as (<- & <- & Hhole).
  assert (i < length E)%nat as Hlt by (by eapply lookup_lt_Some). destruct (HV _ _ _ Hi) as [HKk _]. cbn [fst] in Hsh.
  unfold SetValue. rewrite (updateHashEntry_eq _ _ _ _ Hh). cbn [returns]. split; [|done].
  assert (length (live (<[i := Some (overwrite (hashKey h, hashValue h) v)]> E)) = length (live E)) as El by (rewrite (live_update _ _ _ _ Hi); apply length_insert).
  assert (K (overwrite (hashKey h, hashValue h) v).1 /\ SameValueZero (overwrite (hashKey h, hashValue h) v).1 (hashKey h) = true /\ (shared = true -> v = (overwrite (hashKey h, hashValue h) v).1)) as (HKo & Hso & Hvo).
  { unfold overwrite. destruct shared; cbn; [destruct (Hsh eq_refl); by split_and!|]. split_and!; [done|by apply keyhash_refl|done]. }
  split; cbn; [|lia|rewrite El, length_insert; lia|done| |].
  - eapply linked_replace; [done|done|done|done| |].
    + unfold viewEntry, overwrite. cbn. destruct shared; [|by rewrite Hhole]. destruct (Hsh eq_refl) as [Hk _]. destruct (IsHole v) eqn:Ev; [|done].
      exfalso. apply (keyhash_proper (env := env) (hash := hash) v Hk). by destruct v.
    + intros k v' [= <- <-]. exists (hashKey h), (hashValue h). split; [done|]. apply (keyhash_respects (env := env)); [done|done|]. by apply keyhash_sym.
  - intros j k v' Hj. apply list_lookup_insert_Some in Hj as [(-> & [= <- <-] & _)|[_ Hj]]; [by split|by eapply HV].
  - assert (forall j f, j <> i -> E !! j = Some (Some f) -> SameValueZero (overwrite (hashKey h, hashValue h) v).1 f.1 = true -> False) as Hno.
    { intros j f Hj Hf Hs. destruct f as [kf vf]. destruct (HV _ _ _ Hf) as [HKf _]. apply Hj. symmetry. apply (HD i j _ _ Hi Hf). cbn in *.
      eapply (keyhash_trans _ (overwrite (hashKey h, hashValue h) v).1); [done..| |done]. by apply keyhash_sym. }
    intros j j' f f' Hj Hj' Hs. apply list_lookup_insert_Some in Hj as [(<- & [= <-] & _)|[Hne Hj]]; apply list_lookup_insert_Some in Hj' as [(<- & [= <-] & _)|[Hne' Hj']]; [done| | |by eapply HD].
    + exfalso. by eapply (Hno j' f').
    + exfalso. eapply (Hno j f); [done|done|]. destruct f as [kf vf]. destruct (HV _ _ _ Hj) as [HKf _]. by apply keyhash_sym.
Qed.

(** ** New entries *)

Lemma InsertNewEntry_eq t b i prev e : buckets t !! b = Some prev -> hashEntries t !! i = Some e ->
  InsertNewEntry t (Z.of_nat b) (Z.of_nat i) = Ok (withBuckets (withHashEntries t (<[i := linkedEntry prev e]> (hashEntries t))) (<[b := Int (Z.of_nat i)]> (buckets t))).
Proof.
  intros Hb He. unfold InsertNewEntry, SetNextEntry. rewrite Nat2Z.id. unfold get at 1. rewrite Hb, bind_Ok, (updateHashEntry_eq _ _ _ _ He), bind_Ok. cbn [buckets withHashEntries].
  unfold set. rewrite decide_True by (by eapply lookup_lt_Some). done.
Qed.

Lemma linked_place cap bs es E k v prev b : linked cap bs es E -> Z.of_nat (length E) < cap -> IsHole k = false -> bucketOf cap (hash k) = Z.of_nat b -> bs !! b = Some prev ->
  linked cap (<[b := Int (Z.of_nat (length E))]> bs) (<[length E := mkHashEntry k v prev]> es) (E ++ [Some (k, v)]).
Proof.
  intros [Hc Hb He Hv Hch] Hroom Hk Hbk Hprev. assert (length E < length es)%nat as Hlt by lia. split; [done|by rewrite length_insert|by rewrite length_insert| |].
  - rewrite length_app. cbn [length]. replace (length E + 1)%nat with (S (length E)) by lia. erewrite take_S_r by (by apply list_lookup_insert_eq).
    rewrite take_insert_ge, fmap_app, <- Hv by lia. unfold fmap, list_fmap. f_equal. cbn. unfold viewEntry. cbn. by rewrite Hk.
  - intros c link Hlink. assert (forall l, Forall (fun i => (i < length E)%nat) l -> length E ∉ l) as Hnew by (intros l Hl Hin; rewrite Forall_forall in Hl; specialize (Hl _ Hin); cbn in Hl; lia).
    assert (forall l, Forall (fun i => (i < length E)%nat) l -> Forall (fun i => (i < length (E ++ [Some (k, v)]))%nat) l) as Hmore by (intros l Hl; eapply Forall_impl; [exact Hl|]; intros i Hi; rewrite length_app; cbn in *; lia).
    destruct (decide (b = c)) as [<-|Hbc].
    + rewrite list_lookup_insert_eq in Hlink by (by eapply lookup_lt_Some). injection Hlink as <-. destruct (Hch b prev Hprev) as (l & Hcl & Hs & Hl & Hin). exists (length E :: l). split_and!.
      * split; [done|]. eexists. split; [by apply list_lookup_insert_eq|]. cbn. apply chainOf_insert; auto.
      * constructor; [done|]. eapply Forall_impl; [exact Hl|]. cbn. lia.
      * constructor; [rewrite length_app; cbn; lia|]. by apply Hmore.
      * intros i k' v' Hi Hk'. apply elem_of_cons. apply lookup_app_Some in Hi as [Hi|[Hi Hi']]; [right; by eapply Hin|]. left. apply list_lookup_singleton_Some in Hi' as [Hz _]. lia.
    + rewrite list_lookup_insert_ne in Hlink by done. destruct (Hch c link Hlink) as (l & Hcl & Hs & Hl & Hin). exists l. split_and!; [apply chainOf_insert; auto|done|by apply Hmore|].
      intros i k' v' Hi Hk'. apply lookup_app_Some in Hi as [Hi|[Hi Hi']]; [by eapply Hin|]. apply list_lookup_singleton_Some in Hi' as [_ [= <- <-]]. lia.
Qed.

Lemma linked_entry_at cap bs es E i : linked cap bs es E -> Z.of_nat i < cap -> exists e, es !! i = Some e.
Proof. intros H Hi. apply lookup_lt_is_Some_2. pose proof (linked_entries _ _ _ _ H). lia. Qed.

(** A key and a value are put into the first free entry. *)
Definition placeEntry (t : LinkedHashTable) (entry : Z) (k v : JSTaggedValue) : result LinkedHashTable :=
  t ← InsertNewEntry t (HashToBucket t (hash k)) entry; t ← SetKey shared t entry k; SetValue shared t entry v.

Lemma placeEntry_ok t E k v : linked (Capacity t) (buckets t) (hashEntries t) E -> Z.of_nat (length E) < Capacity t -> K k -> (shared = true -> v = k) ->
  exists bs es, placeEntry t (Z.of_nat (length E)) k v = Ok (withBuckets (withHashEntries t es) bs) /\ linked (Capacity t) bs es (E ++ [Some (k, v)]).
Proof.
  intros HL Hroom HK Hsh. destruct (bucket_at _ _ _ _ (hash k) HL) as [prev Hprev], (linked_entry_at _ _ _ _ _ HL Hroom) as [e He].
  pose proof (bucketOf_range _ (hash k) (linked_cap _ _ _ _ HL)). unfold placeEntry. change (HashToBucket t (hash k)) with (bucketOf (Capacity t) (hash k)).
  replace (bucketOf (Capacity t) (hash k)) with (Z.of_nat (Z.to_nat (bucketOf (Capacity t) (hash k)))) by lia. rewrite (InsertNewEntry_eq _ _ _ _ _ Hprev He), bind_Ok. unfold SetKey, SetValue.
  assert (length E < length (hashEntries t))%nat by (by eapply lookup_lt_Some).
  erewrite updateHashEntry_eq by (cbn; by apply list_lookup_insert_eq). rewrite bind_Ok. erewrite updateHashEntry_eq by (cbn; apply list_lookup_insert_eq; by rewrite length_insert).
  cbn. rewrite !list_insert_insert_eq. eexists _, _. split; [reflexivity|].
  assert (IsHole k = false) as Hk by (destruct k; try done; by destruct (keyhash_proper (env := env) (hash := hash) Hole HK)).
  assert (valuedEntry shared v (keyedEntry shared k (linkedEntry prev e)) = mkHashEntry k v prev) as ->.
  { unfold valuedEntry, keyedEntry, linkedEntry. destruct shared; cbn; [|done]. by rewrite Hsh. }
  apply linked_place; [done|done|done|lia|done].
Qed.

(** ** Moving to another table *)

(** The removed entries before place [i]. *)
Definition holesBefore (i : nat) (E : list (option pair_)) : Z := Z.of_nat (i - passed i E).

(** The entries of the old table, of which the first [i] are moved. *)
Definition rehashed (es0 : list HashEntry) (E : list (option pair_)) (i : nat) (es : list HashEntry) : Prop :=
  length es = length es0 /\
  forall j e0, es0 !! j = Some e0 -> es !! j = Some (if decide ((j < i)%nat /\ E !! j = Some None) then linkedEntry (Int (holesBefore (S j) E)) e0 else e0).

Lemma rehash_place t entry k v : (shared = true -> v = k) ->
  (newTable ← InsertNewEntry t (HashToBucket t (hash k)) entry; newTable ← SetKey shared newTable entry k;
   (if shared then Ok newTable else SetValue shared newTable entry v)) = placeEntry t entry k v.
Proof.
  intros Hsh. unfold placeEntry. destruct (InsertNewEntry t _ entry) as [t1|]; [|done]. rewrite !bind_Ok. destruct (SetKey shared t1 entry k) as [t2|] eqn:E2; [|done]. rewrite !bind_Ok.
  destruct shared; [|done]. rewrite (Hsh eq_refl). unfold SetKey, SetValue, updateHashEntry, hashEntryAt in *. destruct (entry <? 0); [done|]. unfold get in *. destruct (hashEntries t1 !! Z.to_nat entry) as [e|] eqn:Ee; [|done].
  rewrite bind_Ok in E2. unfold set in *. rewrite decide_True in E2 by (by eapply lookup_lt_Some). injection E2 as <-. cbn.
  rewrite list_lookup_insert_eq by (by eapply lookup_lt_Some). rewrite bind_Ok, decide_True by (rewrite length_insert; by eapply lookup_lt_Some). rewrite bind_Ok, list_insert_insert_eq. done.
Qed.

Definition frozen (t : LinkedHashTable) (next : nat) (E : list (option pair_)) : Prop :=
  GetNextTable t = Some next /\ forall i, (i <= length E)%nat -> GetDeletedElementsAt t (Z.of_nat i) = Ok (holesBefore i E).

Section Move.
  Variables (t : LinkedHashTable) (E : list (option pair_)) (next : nat).
  Hypothesis Ht : tableOk t E.

(** The state of the loop before entry [i]. *)
Definition moving (new0 : LinkedHashTable) (i : nat) '(t', newTable, desEntry, currentDeletedElements) : Prop :=
  (exists es, t' = withHashEntries (SetNextTable t next) es /\ rehashed (hashEntries t) E i es) /\
  (exists bs es, newTable = withBuckets (withHashEntries new0 es) bs /\ linked (Capacity new0) bs es (Some <$> live (take i E))) /\
  desEntry = Z.of_nat (passed i E) /\ currentDeletedElements = holesBefore i E.

Lemma holes_S i : E !! i = Some None -> holesBefore (S i) E = holesBefore i E + 1.
Proof. intros Hi. unfold holesBefore. rewrite (passed_S _ _ _ Hi). cbn. pose proof (passed_i E i). lia. Qed.

Lemma holes_live i e : E !! i = Some (Some e) -> holesBefore (S i) E = holesBefore i E.
Proof. intros Hi. unfold holesBefore. rewrite (passed_S _ _ _ Hi). cbn. pose proof (passed_i E i). lia. Qed.

Lemma rehashed_same i es : rehashed (hashEntries t) E i es -> E !! i <> Some None -> rehashed (hashEntries t) E (S i) es.
Proof.
  intros [Hl H] Hi. split; [done|]. intros j e0 Hj. rewrite (H j e0 Hj). f_equal. destruct (decide (j = i)) as [->|Hne].
  - rewrite decide_False, decide_False by (intros [? ?]; try lia; done). done.
  - destruct (decide (j < i /\ E !! j = Some None)%nat) as [[H1 H2]|H1], (decide (j < S i /\ E !! j = Some None)%nat) as [[H3 H4]|H3]; try done; exfalso; [apply H3|apply H1]; split; (lia || done).
Qed.

Lemma rehashed_hole i e es : hashEntries t !! i = Some e -> E !! i = Some None -> rehashed (hashEntries t) E i es ->
  rehashed (hashEntries t) E (S i) (<[i := linkedEntry (Int (holesBefore (S i) E)) e]> es).
Proof.
  intros He Hi [Hl H]. assert (i < length es)%nat by (rewrite Hl; by eapply lookup_lt_Some). split; [by rewrite length_insert|]. intros j e0 Hj. destruct (decide (j = i)) as [->|Hne].
  - rewrite list_lookup_insert_eq by done. rewrite decide_True by (split; [lia|done]). congruence.
  - rewrite list_lookup_insert_ne by done. rewrite (H j e0 Hj). f_equal.
    destruct (decide (j < i /\ E !! j = Some None)%nat) as [[H1 H2]|H1], (decide (j < S i /\ E !! j = Some None)%nat) as [[H3 H4]|H3]; try done; exfalso; [apply H3|apply H1]; split; (lia || done).
Qed.

Lemma rehashStep_ok new0 i s : Z.of_nat (length (live E)) <= Capacity new0 -> (i < length E)%nat -> moving new0 i s -> returns (rehashStep env shared i s) (moving new0 (S i)).
Proof.
  intros Hroom Hi. destruct s as [[[t' newTable] des] del]. intros ((es & -> & Hes) & (bs & nes & -> & HL) & -> & ->).
  destruct (lookup_lt_is_Some_2 E i Hi) as [o Ho]. destruct (linked_at _ _ _ _ _ _ (ok_linked _ _ Ht) Ho) as (e & He & Hv).
  pose proof (proj2 Hes i e He) as Hei. rewrite decide_False in Hei by lia. unfold rehashStep, GetKey. rewrite (hashEntryAt_eq _ i e) by done. rewrite !bind_Ok.
  assert (take (S i) E = take i E ++ [o]) as Etake by (by apply take_S_r). destruct o as [[k v]|].
  - destruct (viewEntry_Some _ _ _ Hv) as (-> & <- & ->). destruct (ok_valid _ _ Ht _ _ _ Ho) as [HKk Hsh]. rewrite (keyhash_hash k HKk), bind_Ok.
    assert (length (live (take i E)) < length (live E))%nat by (by apply (passed_lt _ _ (k, hashValue e))).
    destruct (placeEntry_ok (withBuckets (withHashEntries new0 nes) bs) (Some <$> live (take i E)) k (hashValue e)) as (bs' & nes' & Eplace & HL'); [done|rewrite length_fmap; cbn; lia|done|done|].
    rewrite length_fmap in Eplace. fold (passed i E) in Eplace. rewrite <- rehash_place in Eplace by done.
    change (HashToBucket (withBuckets (withHashEntries new0 nes) bs) (hash k)) with (bucketOf (Capacity new0) (hash k)) in *.
    destruct (InsertNewEntry _ _ _) as [n1|] in Eplace |- *; [|done]. rewrite bind_Ok in Eplace. rewrite bind_Ok. destruct (SetKey shared n1 _ k) as [n2|] in Eplace |- *; [|done]. rewrite bind_Ok in Eplace. rewrite bind_Ok. unfold GetValue. rewrite (hashEntryAt_eq _ i e), !bind_Ok by done. rewrite Eplace, bind_Ok. cbn [returns].
    split_and!; [exists es; split; [done|]; apply rehashed_same; [done|congruence]| | |by rewrite (holes_live _ _ Ho)].
    + exists bs', nes'. split; [done|]. rewrite Etake, live_app, fmap_app. done.
    + rewrite (passed_S _ _ _ Ho). cbn. lia.
  - rewrite (viewEntry_None _ Hv). unfold SetNextEntry. rewrite (updateHashEntry_eq _ i e) by done. rewrite bind_Ok. cbn [returns]. split_and!.
    + eexists. split; [reflexivity|]. rewrite <- holes_S by done. by apply rehashed_hole.
    + exists bs, nes. split; [done|]. rewrite Etake, live_app. cbn. by rewrite app_nil_r.
    + rewrite (passed_S _ _ _ Ho). cbn. lia.
    + by rewrite holes_S.
Qed.

Lemma rehashed_frozen es : rehashed (hashEntries t) E (length E) es -> frozen (withHashEntries (SetNextTable t next) es) next E.
Proof.
  intros [Hl H]. split; [done|]. intros i Hi. unfold GetDeletedElementsAt. cbn [NumberOfDeletedElements withHashEntries SetNextTable]. rewrite (ok_deleted _ _ Ht). pose proof (live_length E).
  destruct (Z.eqb_spec (Z.of_nat (length E) - Z.of_nat (length (live E))) (-1)); [lia|]. rewrite Nat2Z.id.
  induction i as [|i IH]; [done|]. destruct (lookup_lt_is_Some_2 E i ltac:(lia)) as [o Ho]. destruct (linked_at _ _ _ _ _ _ (ok_linked _ _ Ht) Ho) as (e & He & Hv).
  pose proof (H i e He) as Hei. cbn [deletedLoop]. destruct (Z.leb_spec 0 (Z.of_nat (S i) - 1)); [|lia]. replace (Z.of_nat (S i) - 1) with (Z.of_nat i) by lia.
  unfold GetKey. rewrite (hashEntryAt_eq (withHashEntries (SetNextTable t next) es) _ _ Hei), !bind_Ok. destruct o as [[k v]|].
  - rewrite decide_False by (intros [_ ?]; congruence). destruct (viewEntry_Some _ _ _ Hv) as (<- & _ & Eh). rewrite Eh. rewrite IH by lia. by rewrite (holes_live _ _ Ho).
  - rewrite decide_True by (split; [lia|done]). cbn [hashKey linkedEntry]. rewrite (viewEntry_None _ Hv). unfold GetNextEntry. rewrite (hashEntryAt_eq (withHashEntries (SetNextTable t next) es) _ _ Hei), !bind_Ok.
    rewrite decide_True by (split; [lia|done]). done.
Qed.

Lemma Rehash_ok new0 : linked (Capacity new0) (buckets new0) (hashEntries new0) [] -> GetNextTable new0 = None -> Z.of_nat (length (live E)) <= Capacity new0 ->
  returns (Rehash env shared t new0 next) (fun '(t', newTable) => tableOk newTable (Some <$> live E) /\ Capacity newTable = Capacity new0 /\ frozen t' next E).
Proof.
  intros HL Hn Hroom. unfold Rehash. pose proof (ok_elements _ _ Ht) as Hel. pose proof (ok_deleted _ _ Ht) as Hdel. replace (Z.to_nat (NumberOfElements t + NumberOfDeletedElements t)) with (length E) by lia.
  eapply returns_bind; [apply (for_up_returns (moving new0))|].
  - split_and!; [|exists (buckets new0), (hashEntries new0); split; [by destruct new0|done]|done|done]. exists (hashEntries t). split; [by destruct t|]. split; [done|]. intros j e0 Hj. rewrite decide_False by lia. done.
  - intros i s Hi Hs. apply rehashStep_ok; [done|lia|done].
  - intros [[[t' newTable] des] del] ((es & -> & Hes) & (bs & nes & -> & HL') & _ & _). cbn [Nat.add] in *. rewrite take_ge in HL' by lia. cbn [returns]. split_and!; [|done|by apply rehashed_frozen].
    split; cbn; [done|by rewrite live_Some|rewrite length_fmap, live_Some; lia|done| |].
    + intros i k v Hi. rewrite list_lookup_fmap in Hi. destruct (live E !! i) as [[k' v']|] eqn:El; [|done]. injection Hi as -> ->. destruct (live_back _ _ _ El) as (j & Hj & _). by eapply (ok_valid _ _ Ht).
    + intros i j e f Hi Hj Hs. rewrite list_lookup_fmap in Hi, Hj. destruct (live E !! i) as [e'|] eqn:Ei; [|done]. destruct (live E !! j) as [f'|] eqn:Ej; [|done]. injection Hi as ->. injection Hj as ->.
      destruct (live_back _ _ _ Ei) as (i' & Hi' & <-), (live_back _ _ _ Ej) as (j' & Hj' & <-). by rewrite (ok_distinct _ _ Ht _ _ _ _ Hi' Hj' Hs).
Qed.
End Move.

(** ** Capacities *)

Lemma Create_ok k : 2 <= k <= 26 -> exists t, Create shared (2 ^ k) = Ok t /\ linked (Capacity t) (buckets t) (hashEntries t) [] /\ tableOk t [] /\ Capacity t = 2 ^ k.
Proof.
  intros Hk. pose proof (pow2_pos k ltac:(lia)). assert (2 ^ k <= 2 ^ 26) by (apply Z.pow_le_mono_r; lia). unfold Create, ELEMENTS_START_INDEX, ENTRY_SIZE.
  destruct (Z.leb_spec (2 ^ 31) (4 + 2 ^ k + 2 ^ k * ((if shared then 1 else 2) + 1))); [exfalso; destruct shared; pow2_literal; change (2 ^ 26) with 67108864 in *; lia|]. eexists. split; [reflexivity|].
  assert (linked (2 ^ k) (replicate (Z.to_nat (2 ^ k)) Hole) (replicate (Z.to_nat (2 ^ k)) emptyHashEntry) []) as HL.
  { split; [by exists k|rewrite length_replicate; lia|rewrite length_replicate; lia|done|]. intros b link Hb. apply lookup_replicate in Hb as [-> _]. exists []. split_and!; [done|constructor|constructor|]. by intros i k' v'. }
  split_and!; [done| |done]. split; cbn; [done|done|done|done|by intros i k' v'|by intros i j e f].
Qed.

Lemma ComputeCapacity_ok n : roundsUp env -> 0 <= n <= 2 ^ 25 -> exists k, 2 <= k <= 26 /\ ComputeCapacity env n = 2 ^ k /\ n <= 2 ^ k.
Proof.
  intros Hr Hn. unfold ComputeCapacity, MIN_CAPACITY. rewrite (u32_small n) by (unfold is_u32; rewrite BASE_eq; change (2 ^ 25) with 33554432 in *; lia). rewrite Z.shiftr_div_pow2 by lia. change (2 ^ 1) with 2.
  pose proof (Z.div_le_upper_bound n 2 (2 ^ 24) ltac:(lia) ltac:(change (2 ^ 24) with 16777216; change (2 ^ 25) with 33554432 in *; lia)). pose proof (Z.div_pos n 2 ltac:(lia) ltac:(lia)).
  change (2 ^ 24) with 16777216 in *. change (2 ^ 25) with 33554432 in *.
  rewrite u32_small by (unfold is_u32; rewrite BASE_eq; lia). rewrite Hr by (pow2_literal; lia). set (raw := n + n / 2) in *.
  assert (Z.log2_up raw <= 26) by (apply (Z.log2_up_le_mono raw (2 ^ 26)); change (2 ^ 26) with 67108864; lia). pose proof (Z.log2_up_nonneg raw).
  assert (n <= 2 ^ Z.log2_up raw) as Hle. { destruct (Z.le_gt_cases raw 1); [pose proof (pow2_pos (Z.log2_up raw) ltac:(lia)); lia|]. pose proof (Z.log2_up_spec raw ltac:(lia)). lia. }
  assert (2 ^ Z.log2_up raw <= 2 ^ 26) by (apply Z.pow_le_mono_r; lia). change (2 ^ 26) with 67108864 in *.
  assert (i32 (2 ^ Z.log2_up raw) = 2 ^ Z.log2_up raw) as ->.
  { unfold i32. pose proof (pow2_pos (Z.log2_up raw) ltac:(lia)). rewrite Z.mod_small by (pow2_literal; lia). destruct (Z.ltb_spec (2 ^ Z.log2_up raw) (2 ^ 31)); [done|pow2_literal; lia]. }
  destruct (Z.ltb_spec 4 (2 ^ Z.log2_up raw)).
  - exists (Z.log2_up raw). split_and!; [|lia|done|done]. destruct (Z.le_gt_cases 2 (Z.log2_up raw)); [done|]. assert (2 ^ Z.log2_up raw <= 2 ^ 1) by (apply Z.pow_le_mono_r; lia). change (2 ^ 1) with 2 in *. lia.
  - exists 2. split_and!; [lia|lia|done|]. change (2 ^ 2) with 4. lia.
Qed.

(** There is room for another entry. *)
Lemma sufficient_room t E : tableOk t E -> HasSufficientCapacity t 1 = true -> Z.of_nat (length E) < Capacity t.
Proof.
  intros Ht. unfold HasSufficientCapacity. rewrite (ok_elements _ _ Ht), (ok_deleted _ _ Ht). destruct (_ && _) eqn:Ec; [|done]. intros _. apply andb_true_iff in Ec as [H1%Z.ltb_lt H2%Z.leb_le].
  pose proof (Z.mul_quot_le (Capacity t - (Z.of_nat (length (live E)) + 1)) 2 ltac:(lia) ltac:(lia)). lia.
Qed.

(** ** The heap *)

Definition current (heap : Heap) (cur : nat) (E : list (option pair_)) : Prop := exists t, heap !! cur = Some t /\ tableOk t E.

(** An iterator at place [i] of the table [a] stands at place [i'] of the current table. *)
Inductive leads (heap : Heap) (cur : nat) : nat -> Z -> nat -> Prop :=
| leads_here i : leads heap cur cur (Z.of_nat i) i
| leads_next a t b i d i' : heap !! a = Some t -> GetNextTable t = Some b -> (a < b)%nat -> GetDeletedElementsAt t i = Ok d ->
    leads heap cur b (i - d) i' -> leads heap cur a i i'.

Lemma leads_inPlace heap cur t t' a i i' : heap !! cur = Some t -> GetNextTable t = None -> leads heap cur a i i' -> leads (<[cur := t']> heap) cur a i i'.
Proof.
  intros Hc Hn H. induction H as [i|a s b i d i' Ha Hb Hab Hd _ IH]; [constructor|]. eapply (leads_next _ _ a s b); [|done..].
  rewrite list_lookup_insert_ne; [done|]. intros ->. congruence.
Qed.

Lemma leads_moved heap cur t t' tn a i i' d : heap !! cur = Some t -> GetNextTable t = None -> leads heap cur a i i' ->
  GetNextTable t' = Some (length heap) -> GetDeletedElementsAt t' (Z.of_nat i') = Ok (Z.of_nat d) -> (d <= i')%nat ->
  leads (<[cur := t']> heap ++ [tn]) (length heap) a i (i' - d).
Proof.
  intros Hc Hn H Hn' Hd Hle. assert (cur < length heap)%nat as Hlt by (by eapply lookup_lt_Some). induction H as [i|a s b i d' i' Ha Hb Hab Hd' _ IH].
  - eapply (leads_next _ _ cur t'); [rewrite lookup_app_l by (by rewrite length_insert); by apply list_lookup_insert_eq|done|done|done|]. rewrite <- Nat2Z.inj_sub by done. constructor.
  - eapply (leads_next _ _ a s b); [|done|done|done|by apply IH]. rewrite lookup_app_l by (rewrite length_insert; by eapply lookup_lt_Some). rewrite list_lookup_insert_ne; [done|]. intros ->. congruence.
Qed.

(** What an operation does to the iterators: they have passed as many live entries as before. *)
Definition carries (heap : Heap) (cur : nat) (E : list (option pair_)) (heap' : Heap) (cur' : nat) (E' : list (option pair_)) (f : nat -> nat) : Prop :=
  (length heap <= length heap')%nat /\
  forall a i i', leads heap cur a i i' -> (i' <= length E)%nat -> exists i'', leads heap' cur' a i i'' /\ (i'' <= length E')%nat /\ passed i'' E' = f i'.

Lemma current_set heap cur t t' E E' : heap !! cur = Some t -> GetNextTable t = None -> tableOk t' E' -> (length E <= length E')%nat ->
  set heap cur t' = Ok (<[cur := t']> heap) /\ current (<[cur := t']> heap) cur E' /\ carries heap cur E (<[cur := t']> heap) cur E' (fun i => passed i E').
Proof.
  intros Hc Hn Ht' Hl. assert (cur < length heap)%nat as Hlt by (by eapply lookup_lt_Some). split_and!.
  - unfold set. by rewrite decide_True.
  - exists t'. split; [by apply list_lookup_insert_eq|done].
  - split; [by rewrite length_insert|]. intros a i i' H Hi. exists i'. split_and!; [by eapply leads_inPlace|lia|done].
Qed.

Lemma moveTable_ok heap cur t E k : heap !! cur = Some t -> tableOk t E -> 2 <= k <= 26 -> Z.of_nat (length (live E)) <= 2 ^ k ->
  returns (moveTable env shared heap cur (2 ^ k)) (fun '(heap', cur') => (exists t', heap' !! cur' = Some t' /\ tableOk t' (Some <$> live E) /\ Capacity t' = 2 ^ k) /\
    carries heap cur E heap' cur' (Some <$> live E) (fun i => passed i E)).
Proof.
  intros Hc Ht Hk Hl. assert (cur < length heap)%nat as Hlt by (by eapply lookup_lt_Some). unfold moveTable. unfold get at 1. rewrite Hc, bind_Ok. destruct (Create_ok k Hk) as (t0 & -> & HL & Ht0 & Hcap). rewrite bind_Ok.
  eapply returns_bind; [apply (Rehash_ok t E (length heap) Ht t0 HL); [apply Ht0|lia]|]. intros [t' tn] (Htn & Hcap' & Hn' & Hd). unfold set. rewrite decide_True, bind_Ok by done. cbn [returns]. split.
  - exists tn. split_and!; [by rewrite lookup_app_r, length_insert, Nat.sub_diag by (by rewrite length_insert)|done|congruence].
  - split; [rewrite length_app, length_insert; lia|]. intros a i i' Hlead Hi. exists (passed i' E). pose proof (passed_i E i'). split_and!.
    + replace (passed i' E) with (i' - (i' - passed i' E))%nat by lia. eapply leads_moved; [done|apply Ht|done|done|by apply Hd|lia].
    + rewrite length_fmap. apply passed_le.
    + rewrite passed_Some. pose proof (passed_le i' E). lia.
Qed.
End Rep.
