(* ===== verification/LinkedHashCorrect.v ===== *)
(** * Operations on linked hash tables

    What [Insert], [Remove] and [Clear] do to the entries of a shared table and to the iterators of
    it: the entries change as the entries of an insertion ordered list, and every iterator has
    passed the same entries as before, wherever the table has gone. *)

From Stdlib Require Import ZArith Lia.
From S2P Require Import Prelude BigIntBase Double Values Containers StringHash LinkedHashTable OptionList LinkedHashRep.

(** ** Entries of a list *)

Section Entries.
  Variable shared : bool.
  Implicit Types X Y : list (option pair_).

Definition putEntry (key value : JSTaggedValue) (X : list (option pair_)) : list (option pair_) :=
  match findKey key X with
  | Some i => match X !! i with Some (Some e) => <[i := Some (overwrite shared e value)]> X | _ => X end
  | None => X ++ [Some (key, value)]
  end.

Definition dropEntry (key : JSTaggedValue) (X : list (option pair_)) : list (option pair_) :=
  match findKey key X with Some i => <[i := None]> X | None => X end.

Lemma putEntry_live key value X Y : live X = live Y -> live (putEntry key value X) = live (putEntry key value Y).
Proof.
  intros H. pose proof (findKey_same key X Y H) as Hs. unfold putEntry. destruct (findKey key X) as [i|], (findKey key Y) as [j|]; try done; [|by rewrite !live_app, H].
  destruct Hs as (Hp & e & Hi & Hj & _). rewrite Hi, Hj, (live_update _ _ _ _ Hi), (live_update _ _ _ _ Hj). congruence.
Qed.

Lemma putEntry_passed key value X i : (i <= length X)%nat -> passed i (putEntry key value X) = passed i X.
Proof.
  intros Hi. unfold putEntry. destruct (findKey key X) as [j|] eqn:E; [|by apply passed_app]. destruct (findKey_Some _ _ _ E) as (e & Hj & _). rewrite Hj. by eapply passed_update.
Qed.

Lemma putEntry_length key value X : (length X <= length (putEntry key value X))%nat.
Proof. unfold putEntry. destruct (findKey key X) as [j|]; [|rewrite length_app; lia]. destruct (X !! j) as [[e|]|]; try done. by rewrite length_insert. Qed.

Lemma putEntry_live_length key value X : (length (live (putEntry key value X)) <= S (length (live X)))%nat.
Proof.
  unfold putEntry. destruct (findKey key X) as [j|] eqn:E; [|rewrite live_app, length_app; cbn; lia]. destruct (findKey_Some _ _ _ E) as (e & Hj & _).
  rewrite Hj, (live_update _ _ _ _ Hj), length_insert. lia.
Qed.

Lemma dropEntry_live key X Y : live X = live Y -> live (dropEntry key X) = live (dropEntry key Y).
Proof.
  intros H. pose proof (findKey_same key X Y H) as Hs. unfold dropEntry. destruct (findKey key X) as [i|], (findKey key Y) as [j|]; try done.
  destruct Hs as (Hp & e & Hi & Hj & _). rewrite (live_remove _ _ _ Hi), (live_remove _ _ _ Hj). congruence.
Qed.

Lemma dropEntry_passed key X Y i j : live X = live Y -> passed i X = passed j Y -> passed i (dropEntry key X) = passed j (dropEntry key Y).
Proof.
  intros H Hij. pose proof (findKey_same key X Y H) as Hs. unfold dropEntry. destruct (findKey key X) as [i'|], (findKey key Y) as [j'|]; try done.
  destruct Hs as (Hp & e & Hi & Hj & _). rewrite (passed_remove _ _ _ _ Hi), (passed_remove _ _ _ _ Hj). by rewrite Hp, Hij.
Qed.

Lemma dropEntry_length key X : length (dropEntry key X) = length X.
Proof. unfold dropEntry. destruct (findKey key X); [by rewrite length_insert|done]. Qed.

Lemma dropEntry_live_length key X : (length (live (dropEntry key X)) <= length (live X))%nat.
Proof.
  unfold dropEntry. destruct (findKey key X) as [j|] eqn:E; [|lia]. destruct (findKey_Some _ _ _ E) as (e & Hj & _). rewrite (live_remove _ _ _ Hj), length_delete by (exists e; by apply live_lookup). lia.
Qed.
End Entries.

Section Operations.
  Context {env : HashEnv} {K : JSTaggedValue -> Prop} {hash : JSTaggedValue -> Z} `{!KeyHash env K hash}.
  Variable shared : bool.
  Hypothesis Hround : roundsUp env.

Notation current := (current (K := K) (hash := hash) shared).
Notation tableOk := (tableOk (K := K) (hash := hash) shared).


(** ** Insertion *)

Lemma place_ok heap cur t E key value : heap !! cur = Some t -> tableOk t E -> Z.of_nat (length E) < Capacity t -> K key -> (shared = true -> value = key) ->
  findKey key E = None ->
  returns (t' ← InsertNewEntry t (HashToBucket t (hash key)) (NumberOfElements t + NumberOfDeletedElements t);
           t' ← SetKey shared t' (NumberOfElements t + NumberOfDeletedElements t) key;
           t' ← SetValue shared t' (NumberOfElements t + NumberOfDeletedElements t) value;
           heap ← set heap cur (SetNumberOfElements t' (NumberOfElements t' + 1)); Ok (heap, cur))
    (fun '(heap', cur') => current heap' cur' (E ++ [Some (key, value)]) /\ carries heap cur E heap' cur' (E ++ [Some (key, value)]) (fun i => passed i E)).
Proof.
  intros Hc Ht Hroom HK Hsh Hnew. pose proof (ok_elements _ _ _ Ht) as Hn. pose proof (ok_deleted _ _ _ Ht) as Hd. pose proof (live_length E).
  replace (NumberOfElements t + NumberOfDeletedElements t) with (Z.of_nat (length E)) by lia.
  destruct (placeEntry_ok (env := env) (hash := hash) shared t E key value (ok_linked _ _ _ Ht) Hroom HK Hsh) as (bs & es & Eplace & HL). unfold placeEntry in Eplace.
  destruct (InsertNewEntry t _ _) as [t1|]; [|done]. rewrite bind_Ok in Eplace. rewrite bind_Ok. destruct (SetKey shared t1 _ key) as [t2|]; [|done]. rewrite bind_Ok in Eplace. rewrite bind_Ok. rewrite Eplace, bind_Ok.
  set (t' := SetNumberOfElements _ _). assert (tableOk t' (E ++ [Some (key, value)])) as Ht'.
  { split; cbn; [done|rewrite live_app, length_app; cbn; lia|rewrite live_app, !length_app; cbn; lia|apply Ht| |].
    - intros i k v Hi. apply lookup_app_Some in Hi as [Hi|[_ [_ [= <- <-]]%list_lookup_singleton_Some]]; [by apply (ok_valid _ _ _ Ht) in Hi|by split].
    - assert (forall i k v, E !! i = Some (Some (k, v)) -> K k) as HKE by (intros i k v Hi; by apply (ok_valid _ _ _ Ht) in Hi as [? _]).
      intros i j [k v] [k' v'] Hi Hj Hs. cbn in Hs. apply lookup_app_Some in Hi as [Hi|[Hli [Hi [= <- <-]]%list_lookup_singleton_Some]]; apply lookup_app_Some in Hj as [Hj|[Hlj [Hj [= <- <-]]%list_lookup_singleton_Some]].
      + by eapply (ok_distinct _ _ _ Ht).
      + exfalso. pose proof (findKey_None _ _ _ _ Hnew Hi) as Hf. cbn in Hf. apply (keyhash_sym (env := env) (hash := hash)) in Hs; [congruence|by eapply HKE|done].
      + exfalso. pose proof (findKey_None _ _ _ _ Hnew Hj) as Hf. cbn in Hf. congruence.
      + lia. }
  destruct (current_set shared heap cur t t' E _ Hc (ok_next _ _ _ Ht) Ht' ltac:(rewrite length_app; lia)) as (-> & Hcur & Hl & Hcar). rewrite bind_Ok. cbn [returns].
  split; [done|]. split; [done|]. intros a i i' Hlead Hi. destruct (Hcar a i i' Hlead Hi) as (i'' & H1 & H2 & H3). exists i''. split_and!; [done|done|]. rewrite H3. by apply passed_app.
Qed.

Lemma growTable_ok heap cur E : current heap cur E -> Z.of_nat (length (live E)) < 2 ^ 25 ->
  returns (GrowCapacity env shared heap cur 1) (fun '(heap', cur') => exists t' E', heap' !! cur' = Some t' /\ tableOk t' E' /\ live E' = live E /\ Z.of_nat (length E') < Capacity t' /\
    carries heap cur E heap' cur' E' (fun i => passed i E)).
Proof.
  intros (t & Hc & Ht) Hl. unfold GrowCapacity. rewrite (get_some _ _ _ Hc), bind_Ok. destruct (HasSufficientCapacity t 1) eqn:Es.
  - cbn [returns]. exists t, E. split_and!; [done|done|done|by eapply sufficient_room|]. split; [done|]. intros a i i' Hlead Hi. by exists i'.
  - destruct (ComputeCapacity_ok (env := env) (NumberOfElements t + 1) Hround) as (k & Hk & -> & Hle); [rewrite (ok_elements _ _ _ Ht); lia|]. rewrite (ok_elements _ _ _ Ht) in Hle.
    eapply returns_mono; [apply (moveTable_ok (env := env) (hash := hash) shared heap cur t E k Hc Ht Hk); lia|]. intros [heap' cur'] ((t' & Hc' & Ht' & Hcap) & Hcar).
    exists t', (Some <$> live E). split_and!; [done|done|by rewrite live_Some|rewrite length_fmap, Hcap; lia|done].
Qed.

(** [Insert]: the entry is overwritten or put at the end. *)
Lemma insertTable_ok heap cur E key value : current heap cur E -> Z.of_nat (length (live E)) < 2 ^ 25 -> K key -> (shared = true -> value = key) ->
  returns (Insert env shared heap cur key value) (fun '(heap', cur') => exists E', current heap' cur' E' /\ live E' = live (putEntry shared key value E) /\
    carries heap cur E heap' cur' E' (fun i => passed i E)).
Proof.
  intros Hcur Hl HK Hsh. pose proof Hcur as (t & Hc & Ht). unfold Insert. rewrite (keyhash_hash key HK), bind_Ok. rewrite (get_some _ _ _ Hc), bind_Ok, (FindElement_ok _ _ _ _ Ht HK), bind_Ok.
  unfold putEntry. destruct (findKey key E) as [i|] eqn:Ef; cbn [entryNumber].
  - destruct (findKey_Some _ _ _ Ef) as (e & Hi & Hs). rewrite Hi. destruct (Z.eqb_spec (Z.of_nat i) (-1)); [lia|]. cbn [negb].
    eapply returns_bind; [apply (overwriteTable_ok (env := env) (hash := hash) shared t E i e value Ht Hi); intros Hsh'; rewrite (Hsh Hsh'); by split|]. intros t' [Ht' _].
    destruct (current_set shared heap cur t t' E _ Hc (ok_next _ _ _ Ht) Ht' ltac:(by rewrite length_insert)) as (-> & Hcur' & Hl' & Hcar). rewrite bind_Ok. cbn [returns]. eexists. split_and!; [done|done|].
    split; [done|]. intros a j j' Hlead Hj. destruct (Hcar a j j' Hlead Hj) as (j'' & H1 & H2 & H3). exists j''. split_and!; [done|done|]. rewrite H3. by eapply passed_update.
  - change (negb (-1 =? -1)) with false. cbv iota. eapply returns_bind; [by apply growTable_ok|]. intros [heap1 cur1] (t1 & E1 & Hc1 & Ht1 & Hlive & Hroom & Hl1 & Hcar1). rewrite (get_some _ _ _ Hc1), bind_Ok.
    assert (findKey key E1 = None) as Hnew. { pose proof (findKey_same key E1 E Hlive) as Hsame. rewrite Ef in Hsame. by destruct (findKey key E1). }
    eapply returns_mono; [by apply (place_ok heap1 cur1 t1 E1 key value)|]. intros [heap2 cur2] (Hcur2 & Hl2 & Hcar2). exists (E1 ++ [Some (key, value)]). split_and!; [done|by rewrite !live_app, Hlive|].
    split; [lia|]. intros a j j' Hlead Hj. destruct (Hcar1 a j j' Hlead Hj) as (j1 & H1 & H2 & H3). destruct (Hcar2 a j j1 H1 H2) as (j2 & H4 & H5 & H6). exists j2. split_and!; [done|done|congruence].
Qed.

(** ** Removal *)

(** As the [delete] methods do it, without shrinking. *)
Lemma remove_ok heap cur t E i e : heap !! cur = Some t -> tableOk t E -> E !! i = Some (Some e) ->
  returns (t' ← RemoveEntry shared t (Z.of_nat i); set heap cur t') (fun heap' => (exists t', heap' !! cur = Some t' /\ tableOk t' (<[i := None]> E)) /\
    carries heap cur E heap' cur (<[i := None]> E) (fun j => passed j (<[i := None]> E))).
Proof.
  intros Hc Ht Hi. eapply returns_bind; [by apply (RemoveEntry_ok (K := K) (hash := hash) shared t E i e)|]. intros t' [Ht' _].
  destruct (current_set shared heap cur t t' E _ Hc (ok_next _ _ _ Ht) Ht' ltac:(by rewrite length_insert)) as (-> & Hcur & Hcar). done.
Qed.

(** [Remove], which shrinks the table. *)
Lemma Remove_table_ok heap cur E key : current heap cur E -> Z.of_nat (length (live E)) <= 2 ^ 25 -> K key ->
  returns (Remove env shared heap cur key) (fun '(heap', cur') => exists E', current heap' cur' E' /\ live E' = live (dropEntry key E) /\
    carries heap cur E heap' cur' E' (fun i => passed i (dropEntry key E))).
Proof.
  intros (t & Hc & Ht) Hl HK. unfold Remove. rewrite (get_some _ _ _ Hc), bind_Ok, (FindElement_ok _ _ _ _ Ht HK), bind_Ok. pose proof (dropEntry_live_length key E) as Hdl.
  unfold dropEntry in *. destruct (findKey key E) as [i|] eqn:Ef; cbn [entryNumber].
  - destruct (findKey_Some _ _ _ Ef) as (e & Hi & Hs). destruct (Z.eqb_spec (Z.of_nat i) (-1)); [lia|]. pose proof (remove_ok heap cur t E i e Hc Ht Hi) as Hrem.
    destruct (RemoveEntry shared t (Z.of_nat i)) as [t1|]; [|done]. rewrite bind_Ok in Hrem. rewrite bind_Ok. destruct (set heap cur t1) as [heap1|]; [|done]. rewrite bind_Ok. destruct Hrem as [(t2 & Hc2 & Ht2) (Hl2 & Hcar2)].
    unfold Shrink. rewrite (get_some _ _ _ Hc2), bind_Ok. destruct (Z.eqb_spec (ComputeCapacityWithShrink env (Capacity t2) (NumberOfElements t2 + 0)) (Capacity t2)) as [_|Hne].
    + cbn [returns]. exists (<[i := None]> E). split_and!; [by exists t2|done|]. by split.
    + unfold ComputeCapacityWithShrink in *. destruct (_ <? _) in Hne |- *; [done|]. destruct (ComputeCapacity _ _ <? _) eqn:Ecap in Hne |- *; [done|].
      destruct (ComputeCapacity_ok (env := env) (NumberOfElements t2 + 0) Hround) as (k & Hk & Ek & Hle); [rewrite (ok_elements _ _ _ Ht2); lia|]. rewrite Ek. rewrite (ok_elements _ _ _ Ht2) in Hle.
      eapply returns_mono; [apply (moveTable_ok (env := env) (hash := hash) shared heap1 cur t2 _ k Hc2 Ht2 Hk); lia|]. intros [heap3 cur3] ((t3 & Hc3 & Ht3 & _) & Hl3 & Hcar3).
      exists (Some <$> live (<[i := None]> E)). split_and!; [by exists t3|by rewrite live_Some|]. split; [lia|]. intros a j j' Hlead Hj. destruct (Hcar2 a j j' Hlead Hj) as (j1 & H1 & H2 & H3).
      destruct (Hcar3 a j j1 H1 H2) as (j2 & H4 & H5 & H6). exists j2. split_and!; [done|done|congruence].
  - cbn [returns]. exists E. split_and!; [by exists t|done|]. split; [done|]. intros a j j' Hlead Hj. by exists j'.
Qed.

(** ** Clearing *)

Lemma Clear_ok heap cur E : current heap cur E ->
  returns (Clear shared heap cur) (fun '(heap', cur') => exists E', current heap' cur' E' /\ live E' = [] /\ carries heap cur E heap' cur' E' (fun _ => 0%nat)).
Proof.
  intros (t & Hc & Ht). assert (cur < length heap)%nat as Hlt by (by eapply lookup_lt_Some). unfold Clear. rewrite (get_some _ _ _ Hc), bind_Ok. pose proof (ok_linked _ _ _ Ht) as HL. pose proof (linked_cap_pos _ _ _ _ HL) as Hcp. pose proof (live_length E).
  destruct (Z.eqb_spec (Capacity t) MIN_CAPACITY) as [Ec|Ec].
  - set (t' := SetNumberOfElements _ _). assert (tableOk t' (replicate (length E) None)) as Ht'.
    { split; cbn; [|by rewrite live_None|rewrite live_None, length_replicate, (ok_elements _ _ _ Ht), (ok_deleted _ _ _ Ht); cbn; lia|apply Ht| |].
      - split; [apply HL|rewrite length_replicate; apply HL|rewrite length_replicate; apply HL| |].
        + rewrite length_replicate, take_replicate, fmap_replicate. cbn. f_equal. pose proof (linked_room _ _ _ _ HL). pose proof (linked_entries _ _ _ _ HL). lia.
        + intros b link Hb. apply lookup_replicate in Hb as [-> _]. exists []. split_and!; [done|constructor|constructor|]. intros i k v Hi. by apply lookup_replicate in Hi as [? _].
      - intros i k v Hi. by apply lookup_replicate in Hi as [? _].
      - intros i j e f Hi. by apply lookup_replicate in Hi as [? _]. }
    destruct (current_set shared heap cur t t' E _ Hc (ok_next _ _ _ Ht) Ht' ltac:(by rewrite length_replicate)) as (-> & Hcur & Hl & Hcar). rewrite bind_Ok. cbn [returns]. eexists. split_and!; [done|apply live_None|].
    split; [done|]. intros a i i' Hlead Hi. destruct (Hcar a i i' Hlead Hi) as (i'' & H1 & H2 & H3). exists i''. split_and!; [done|done|]. rewrite H3. pose proof (passed_le i' (replicate (length E) (None : option pair_))) as Hp. rewrite live_None in Hp. cbn in Hp. lia.
  - destruct (Create_ok (K := K) (hash := hash) shared 2 ltac:(lia)) as (t0 & E0 & _ & Ht0 & _). change MIN_CAPACITY with (2 ^ 2). rewrite E0, bind_Ok. destruct (Z.ltb_spec 0 (Capacity t)); [|lia].
    unfold set. rewrite decide_True, bind_Ok by done. cbn [returns]. rewrite length_insert. exists []. split_and!; [exists t0; split; [by rewrite lookup_app_r, length_insert, Nat.sub_diag by (by rewrite length_insert)|done]|done|].
    split; [rewrite length_app, length_insert; lia|]. intros a i i' Hlead Hi. exists 0%nat. split_and!; [|done|done]. replace 0%nat with (i' - i')%nat by lia.
    eapply leads_moved; [done|apply Ht|done|done| |done]. unfold GetDeletedElementsAt. cbn. done.
Qed.
End Operations.
