(* ===== verification/HashKeys.v ===== *)
(** * Hashes of keys

    Equal keys have the same hash: [LinkedHash::Hash] agrees with [SameValueZero], so that the
    search in one bucket of a table finds a key wherever it is.  The class [KeyHash], which the tables
    are proved against, holds of any set of proper values in which an address belongs to one object and
    whose strings have nothing in their hash fields or the hash of their units.  [ComputeHashcode_correct]
    and [CalculateConcatHashCode_correct] say which makers of strings store another hash. *)

From Stdlib Require Import ZArith Lia.
From S2P Require Import Prelude BigIntBase Double Values Containers StringHash LinkedHashTable OptionList LinkedHashRep.

(** ** Doubles *)

Definition is_double (d : Z) : Prop := 0 <= d < 2 ^ 64.

Lemma double_parts d : is_double d -> d = (if signbit d then 2 ^ 63 else 0) + expo d * 2 ^ 52 + frac d.
Proof.
  intros Hd. unfold signbit, expo, frac, is_double in *. rewrite Z.testbit_eqb by lia. change (2 ^ 11) with 2048.
  pose proof (Z.div_mod d (2 ^ 52) ltac:(lia)) as H1. pose proof (Z.div_mod (d / 2 ^ 52) 2048 ltac:(lia)) as H2.
  assert (d / 2 ^ 52 / 2048 = d / 2 ^ 63) as H3 by (rewrite Z.div_div by lia; done). rewrite H3 in H2.
  assert (0 <= d / 2 ^ 63 < 2) by (split; [apply Z.div_pos; lia|apply Z.div_lt_upper_bound; [lia|change (2 ^ 63 * 2) with (2 ^ 64); lia]]).
  assert (d / 2 ^ 63 = 0 \/ d / 2 ^ 63 = 1) as [E|E] by lia; rewrite E in *; cbn [Z.modulo Z.eqb];
  change (2 ^ 63) with (2048 * 2 ^ 52) in *; change (0 mod 2 =? 1) with false; change (1 mod 2 =? 1) with true; cbv iota; lia.
Qed.

(** The magnitude grows with the exponent. *)
Lemma magn_upper d : magn d < 2 ^ 53 * 2 ^ (Z.max 1 (expo d) - 1).
Proof.
  unfold magn. pose proof (frac_bounds d). pose proof (expo_bounds d). destruct (Z.eqb_spec (expo d) 0) as [->|].
  - change (Z.max 1 0 - 1) with 0. change (2 ^ 53) with (2 ^ 52 + 2 ^ 52). lia.
  - rewrite Z.max_r by lia. apply Z.mul_lt_mono_pos_r; [apply pow2_pos; lia|]. change (2 ^ 53) with (2 ^ 52 + 2 ^ 52). lia.
Qed.

Lemma magn_lt d e : expo d < expo e -> magn d < magn e.
Proof.
  intros H. pose proof (magn_upper d). pose proof (frac_bounds d). pose proof (frac_bounds e). pose proof (expo_bounds d). pose proof (expo_bounds e).
  assert (2 ^ 52 * 2 ^ (expo e - 1) <= magn e) as Hlow. { unfold magn. destruct (Z.eqb_spec (expo e) 0); [lia|]. apply Z.mul_le_mono_nonneg_r; [apply Z.pow_nonneg; lia|lia]. }
  destruct (Z.eq_dec (expo d) 0) as [E0|E0].
  - assert (magn d < 2 ^ 52) by (unfold magn; rewrite E0; change (0 =? 0) with true; cbv iota; lia). pose proof (pow2_pos (expo e - 1) ltac:(lia)). nia.
  - rewrite Z.max_r in * by lia. eapply Z.lt_le_trans; [eassumption|]. etransitivity; [|apply Hlow]. change (2 ^ 53) with (2 ^ 52 * 2 ^ 1). rewrite <- Z.mul_assoc, <- Z.pow_add_r by lia.
    apply Z.mul_le_mono_nonneg_l; [lia|]. apply Z.pow_le_mono_r; lia.
Qed.

Lemma magn_inj d e : magn d = magn e -> expo d = expo e /\ frac d = frac e.
Proof.
  intros H. assert (expo d = expo e) as E. { destruct (Z.lt_trichotomy (expo d) (expo e)) as [Hl|[Hl|Hl]]; [apply magn_lt in Hl; lia|done|apply magn_lt in Hl; lia]. }
  split; [done|]. unfold magn in H. rewrite E in H. destruct (Z.eqb_spec (expo e) 0); [done|]. pose proof (expo_bounds e). pose proof (pow2_pos (expo e - 1) ltac:(lia)).
  apply Z.mul_reg_r in H; lia.
Qed.

(** A number other than zero is one bit pattern. *)
Lemma scaled_inj d e u : is_double d -> is_double e -> scaled d = Some u -> scaled e = Some u -> u <> 0 -> d = e.
Proof.
  intros Hd He Ed Ee Hu. unfold scaled in *. destruct (isnan d), (isnan e); try done. injection Ed as Ed. injection Ee as Ee. pose proof (magn_nonneg d). pose proof (magn_nonneg e).
  assert (signbit d = signbit e /\ magn d = magn e) as [Es Em]. { destruct (signbit d), (signbit e); split; (done || lia). }
  apply magn_inj in Em as [E1 E2]. rewrite (double_parts d Hd), (double_parts e He). by rewrite Es, E1, E2.
Qed.

Lemma TryCast_scaled d e : scaled d = scaled e -> (exists z, TryCastDoubleToInt32 d = Int z /\ TryCastDoubleToInt32 e = Int z) \/ (TryCastDoubleToInt32 d = Double d /\ TryCastDoubleToInt32 e = Double e).
Proof. intros H. unfold TryCastDoubleToInt32. rewrite H. destruct (scaled e) as [u|]; [|by right]. destruct (_ && _); [left; eauto|by right]. Qed.

Lemma TryCast_int d z : - 2 ^ 31 <= z < 2 ^ 31 -> scaled d = Some (z * ONE) -> TryCastDoubleToInt32 d = Int z.
Proof.
  intros Hz H. unfold TryCastDoubleToInt32. rewrite H. pose proof ONE_pos. rewrite Z.mod_mul, Z.div_mul by lia.
  destruct (Z.leb_spec (- 2 ^ 31) z); [|lia]. destruct (Z.ltb_spec z (2 ^ 31)); [done|lia].
Qed.

(** ** Hashes *)

(** The values a table has as keys: no holes, numbers of their width, BigInts in normal form, strings
    whose hash field is right. *)
Definition validKey (env : HashEnv) (k : JSTaggedValue) : Prop :=
  match k with
  | Hole => False
  | Int z => - 2 ^ 31 <= z < 2 ^ 31
  | Double d => is_double d
  | EcmaString address units => fieldRight (mixHashcodeOf env address) units
  | _ => validValue k
  end.

Lemma validKey_value env k : validKey env k -> validValue k.
Proof. by destruct k. Qed.

Definition hashOfKey (env : HashEnv) (k : JSTaggedValue) : Z := match Hash env k with Ok h => h | Err _ => 0 end.

Lemma GetDigit_first b : wf b -> GetDigit b 0 = Ok (Z.abs (toZ b) mod BASE).
Proof.
  intros Hb. pose proof (wf_pos _ Hb) as Hp. pose proof (wf_digits _ Hb) as Hd. destruct b as [s [|d l]]; cbn in *; [lia|]. unfold GetDigit, get. cbn. f_equal.
  apply Forall_cons in Hd as [Hd Hl]. pose proof (eval_bounds l Hl). unfold is_u32 in Hd. unfold toZ. cbn [Sign data eval].
  assert (0 <= BASE * eval l) by (rewrite BASE_eq; lia).
  replace (Z.abs (if s then - (d + BASE * eval l) else d + BASE * eval l)) with (d + eval l * BASE) by (destruct s; lia).
  rewrite Z.mod_add by (rewrite BASE_eq; lia). by rewrite Z.mod_small.
Qed.

Lemma Hash_returns env k : validKey env k -> exists h, Hash env k = Ok h.
Proof.
  intros Hk. destruct k; cbn [Hash validKey validValue] in *; try (by eexists).
  - destruct (TryCastDoubleToInt32 bits); try (destruct (isnan bits)); by eexists.
  - rewrite GetHashcode_right by done. rewrite bind_Ok. by eexists.
  - rewrite GetDigit_first by done. rewrite bind_Ok. by eexists.
Qed.

(** The hash of a double: of the integer it is, of any NaN, or of its bits. *)
Lemma Hash_double env d e : is_double d -> is_double e -> scaled d = scaled e -> Hash env (Double d) = Hash env (Double e).
Proof.
  intros Hd He H. cbn [Hash]. destruct (TryCast_scaled d e H) as [(z & -> & ->)|[E1 E2]]; [done|]. rewrite E1, E2.
  destruct (scaled d) as [u|] eqn:Eu.
  - assert (u <> 0) as Hu. { intros ->. pose proof (TryCast_int d 0 ltac:(lia) Eu). congruence. }
    by rewrite (scaled_inj d e u Hd He Eu (eq_sym H) Hu).
  - unfold scaled in Eu, H. destruct (isnan d); [|done]. destruct (isnan e); done.
Qed.

Lemma Hash_int env z d : - 2 ^ 31 <= z < 2 ^ 31 -> scaled d = Some (z * ONE) -> Hash env (Double d) = Hash env (Int z).
Proof. intros Hz H. cbn [Hash]. by rewrite (TryCast_int d z Hz H). Qed.

Lemma numberMeaning_scaled n m : forgetSign (numberMeaning n) = forgetSign (numberMeaning m) -> n.1 = m.1.
Proof. unfold numberMeaning. destruct n as [[u|] s], m as [[v|] t]; cbn; congruence. Qed.

Lemma Hash_same env x y : validKey env x -> validKey env y -> forgetSign (meaning x) = forgetSign (meaning y) -> Hash env x = Hash env y.
Proof.
  intros Hx Hy H. destruct x, y; cbn [meaning validKey validValue] in *; try done;
  try (apply numberMeaning_scaled in H; cbn [ofInt ofDouble fst] in H);
  try (unfold numberMeaning in H; cbn in H; repeat case_match; done).
  - cbn in H. congruence.
  - pose proof ONE_pos. assert (z = z0) as -> by (injection H as H; nia). done.
  - symmetry. by apply Hash_int.
  - by apply Hash_int.
  - by apply Hash_double.
  - cbn in H. injection H as ->. cbn [Hash]. by rewrite !GetHashcode_right by done.
  - cbn in H. injection H as H. cbn [Hash]. by rewrite !GetDigit_first, H by done.
  - cbn in H. congruence.
Qed.

(** ** The keys of a table *)

(** Proper values, in which an address belongs to one object. *)
Definition coherentKeys (env : HashEnv) (K : JSTaggedValue -> Prop) : Prop := forall x y, K x -> K y -> validKey env x /\ coherent x y.

#[export] Instance coherentKeys_hash env K (HK : coherentKeys env K) : KeyHash env K (hashOfKey env).
Proof.
  assert (forall x y, K x -> K y -> SameValueZero x y = bool_decide (forgetSign (meaning x) = forgetSign (meaning y))) as Heq.
  { intros x y Hx Hy. apply SameValueZero_eq; [apply (validKey_value env); by apply (HK x y)|apply (validKey_value env); by apply (HK y x)|by apply HK]. }
  split.
  - intros k Hk ->. by destruct (HK _ _ Hk Hk).
  - intros k Hk. unfold hashOfKey. destruct (Hash_returns env k (proj1 (HK _ _ Hk Hk))) as [h ->]. done.
  - intros k Hk. rewrite Heq by done. by apply bool_decide_eq_true.
  - intros x y Hx Hy. rewrite !Heq by done. rewrite !bool_decide_eq_true. done.
  - intros x y z Hx Hy Hz. rewrite !Heq by done. rewrite !bool_decide_eq_true. congruence.
  - intros x y Hx Hy. rewrite Heq by done. rewrite bool_decide_eq_true. intros H. unfold hashOfKey. by rewrite (Hash_same env x y (proj1 (HK _ _ Hx Hy)) (proj1 (HK _ _ Hy Hx)) H).
Qed.

(** C16: Every proper key has a hash, and keys equal by [SameValueZero] have the same one: an integer and
    the double of the same value, the two zeros, any two NaNs, strings and BigInts of equal content.
    Strings are taken to have nothing in their hash field, or the hash of their units; for such strings
    the equality of the code, which compares the fields first, is the equality of their units. *)
Theorem Hash_respects_equality env x y (Vx : validKey env x) (Vy : validKey env y) (Hc : coherent x y) :
  (exists h, Hash env x = Ok h) /\ (SameValueZero x y = true -> Hash env x = Hash env y) /\
  match x, y with
  | EcmaString a s, EcmaString b t => StringsAreEqual a (mixHashcodeOf env a) s b (mixHashcodeOf env b) t = SameValueZero x y
  | _, _ => True
  end.
Proof.
  split_and!; [by apply Hash_returns| |].
  - rewrite SameValueZero_eq by (done || by eapply validKey_value). rewrite bool_decide_eq_true. by apply Hash_same.
  - destruct x as [| | | | | |a s| |]; try done. destruct y as [| | | | | |b t| |]; try done. rewrite StringsAreEqual_eq by done.
    unfold SameValueZero. cbn [rawEq IsNumber andb]. destruct (Z.eqb_spec a b) as [E|]; [by rewrite bool_decide_true by auto|done].
Qed.

Definition plainHashEnv : HashEnv := mkHashEnv Arm64Platform (fun _ => 7) (fun a => a) (fun _ => 0) (fun v => 2 ^ Z.log2_up v).

Lemma Hash_respects_equality_witness : Hash plainHashEnv (Int 0) = Hash plainHashEnv (Double (2 ^ 63)).
Proof.
  refine (proj1 (proj2 (Hash_respects_equality _ (Int 0) (Double (2 ^ 63)) _ _ I)) _); [cbn; lia|cbn; unfold is_double; lia|vm_compute; reflexivity].
Defined.

(** A string that was made from misread UTF-16 data, and has that hash in its field, is another key than
    an equal string without a hash in its field. *)
Theorem misread_key_differs env a b units : mixHashcodeOf env b = 0 -> ComputeHashcodeUtf16 (hashPlatform env) units = Ok (mixHashcodeOf env a) ->
  misread units = true -> SameValueZero (EcmaString a units) (EcmaString b units) = true /\ Hash env (EcmaString a units) <> Hash env (EcmaString b units).
Proof.
  intros Hb Ha Hm. split; [unfold SameValueZero; cbn [rawEq IsNumber andb]; destruct (a =? b); [done|by apply bool_decide_true]|].
  pose proof Hm as [Hs Hn]%andb_true_iff. rewrite negb_true_iff in Hn. destruct (shortNumeral_value _ Hs) as ([H0 H1] & _).
  rewrite ComputeHashcodeUtf16_eq, Hs in Ha. injection Ha as Ha. cbn [Hash]. rewrite (GetHashcode_right _ _ units (or_introl Hb)), bind_Ok. unfold GetHashcode. rewrite <- Ha.
  rewrite (proj2 (Z.eqb_neq _ 0)) by lia. cbn [andb]. rewrite bind_Ok. unfold stringHash. rewrite Hn. pose proof (Z.mod_pos_bound (hashOf units 0) (2 ^ 31) ltac:(lia)) as Hp.
  intros [= E]. unfold i32 in E. rewrite !Z.mod_small in E by lia. cbv zeta in E.
  destruct (Z.ltb_spec (valueOfDigits (narrowed units) + 2 ^ 31) (2 ^ 31)), (Z.ltb_spec (hashOf units 0 mod 2 ^ 31) (2 ^ 31)); lia.
Qed.

(** The units 0x31 and 0x130 are no digits, but cut to 8 bits they are those of 10. *)
Lemma misread_key_differs_witness :
  let env := mkHashEnv CommonPlatform (fun _ => 7) (fun a => a) (fun a => if a =? 1 then 10 + 2 ^ 31 else 0) (fun v => 2 ^ Z.log2_up v) in
  SameValueZero (EcmaString 1 [0x31; 0x130]) (EcmaString 2 [0x31; 0x130]) = true /\ Hash env (EcmaString 1 [0x31; 0x130]) <> Hash env (EcmaString 2 [0x31; 0x130]).
Proof. intros env. by apply misread_key_differs. Defined.
