(* ===== verification/JSMap.v ===== *)
(** * Map and Set

    Map (src/ecmascript/js_map.cpp, js_map_iterator.cpp, builtins/builtins_map.cpp) and Set
    (js_set.cpp, js_set_iterator.cpp, builtins/builtins_set.cpp) on linked hash tables.

    A collection is the heap of its tables, the place of the table it uses now, and the iterators made
    of it so far.  An iterator refers to the table that was in use when it last looked, and finds its
    way to the one in use by the links between the tables. *)

From Stdlib Require Import ZArith Lia.
From S2P Require Import Prelude BigIntBase Double Values Containers LinkedHashTable.

(** ** Keys *)

(** [-0] becomes [+0]; the same function stands in js_map.cpp and in js_set.cpp. *)
Definition CanonicalizeKeyedCollectionKey (key : JSTaggedValue) : JSTaggedValue :=
  match key with
  | Double d => if num_eq (ofDouble d) (ofDouble 0) && signbit d then Double 0 else key
  | _ => key
  end.

Definition NotKey : error := TypeError "the value must be Key of JSSet".

(** ** State *)

(** [None]: the iterator is done. *)
Record HashIterator := mkHashIterator { IteratedTable : option nat; NextIndex : Z; HashIterationKind : IterationKind }.

Record Collection := mkCollection { tables : Heap; linkedTable : nat; iterators : list HashIterator }.

Definition withTable (c : Collection) '(heap, table) : Collection := mkCollection heap table (iterators c).
Definition withIterators (c : Collection) (its : list HashIterator) : Collection := mkCollection (tables c) (linkedTable c) its.

(** ** Loops *)

(** [while (index < totalElements)], up to the next entry that is no hole. *)
Fixpoint scanLoop (fuel : nat) (t : LinkedHashTable) (index totalElements : Z) : result (option Z) :=
  if index <? totalElements then
    key ← GetKey t index;
    if IsHole key then match fuel with O => Err OutOfFuel | S fuel => scanLoop fuel t (index + 1) totalElements end
    else Ok (Some index)
  else Ok None.

Definition totalElements (t : LinkedHashTable) : Z := NumberOfElements t + NumberOfDeletedElements t.

Definition scan (t : LinkedHashTable) (index : Z) : result (option Z) := scanLoop (Z.to_nat (totalElements t - index)) t index (totalElements t).

(** [while (!nextTable.IsHole())]: the table in use and the index in it. *)
Fixpoint updateLoop (fuel : nat) (heap : Heap) (table : nat) (index : Z) : result (nat * Z) :=
  t ← get heap table;
  match GetNextTable t with
  | None => Ok (table, index)
  | Some nextTable =>
    deleted ← GetDeletedElementsAt t index;
    match fuel with O => Err OutOfFuel | S fuel => updateLoop fuel heap nextTable (index - deleted) end
  end.

(** ** Map *)

Module JSMap.
Section Methods.
  Variable env : HashEnv.

Definition Set_ (c : Collection) (key value : JSTaggedValue) : result Collection :=
  let canonicalKey := CanonicalizeKeyedCollectionKey key in
  if IsHole canonicalKey then Err NotKey else
  newMap ← Insert env false (tables c) (linkedTable c) canonicalKey value;
  Ok (withTable c newMap).

Definition Delete (c : Collection) (key : JSTaggedValue) : result (bool * Collection) :=
  let canonicalKey := CanonicalizeKeyedCollectionKey key in
  map ← get (tables c) (linkedTable c);
  entry ← FindElement env map canonicalKey;
  if entry =? -1 then Ok (false, c) else
  map ← RemoveEntry false map entry;
  heap ← set (tables c) (linkedTable c) map;
  Ok (true, withTable c (heap, linkedTable c)).

Definition Clear (c : Collection) : result Collection :=
  newMap ← LinkedHashTable.Clear false (tables c) (linkedTable c);
  Ok (withTable c newMap).

Definition Has (c : Collection) (key : JSTaggedValue) : result bool :=
  map ← get (tables c) (linkedTable c);
  LinkedHashTable.Has env map (CanonicalizeKeyedCollectionKey key).

Definition Get (c : Collection) (key : JSTaggedValue) : result JSTaggedValue :=
  map ← get (tables c) (linkedTable c);
  LinkedHashTable.Get env map (CanonicalizeKeyedCollectionKey key).

Definition GetSize (c : Collection) : result Z :=
  map ← get (tables c) (linkedTable c);
  Ok (u32 (NumberOfElements map)).

End Methods.
End JSMap.

Module JSMapIterator.

Definition CreateMapIterator (c : Collection) (kind : IterationKind) : HashIterator := mkHashIterator (Some (linkedTable c)) 0 kind.

Definition Update (heap : Heap) (iter : HashIterator) : result HashIterator :=
  match IteratedTable iter with
  | None => Ok iter
  | Some iteratedMap =>
    map ← get heap iteratedMap;
    match GetNextTable map with
    | None => Ok iter
    | Some _ => '(map, index) ← updateLoop (length heap) heap iteratedMap (NextIndex iter); Ok (mkHashIterator (Some map) index (HashIterationKind iter))
    end
  end.

(** What is found at an index. *)
Definition itemAt (map : LinkedHashTable) (itemKind : IterationKind) (index : Z) : result Item :=
  key ← GetKey map index;
  match itemKind with
  | KEY => Ok (ItemValue key)
  | VALUE => value ← GetValue map index; Ok (ItemValue value)
  | KEY_AND_VALUE => value ← GetValue map index; Ok (ItemPair key value)
  end.

(** [None]: [{ value: undefined, done: true }]. *)
Definition NextInternal (heap : Heap) (iter : HashIterator) : result (option Item * HashIterator) :=
  iter ← Update heap iter;
  match IteratedTable iter with
  | None => Ok (None, iter)
  | Some iteratedMap =>
    map ← get heap iteratedMap;
    found ← scan map (NextIndex iter);
    match found with
    | Some index => item ← itemAt map (HashIterationKind iter) index; Ok (Some item, mkHashIterator (Some iteratedMap) (index + 1) (HashIterationKind iter))
    | None => Ok (None, mkHashIterator None (NextIndex iter) (HashIterationKind iter))
    end
  end.

(** [Array.from] of a Map iterator; the iterator is left as it is. *)
Fixpoint listLoop (n : nat) (map : LinkedHashTable) (itemKind : IterationKind) (index : Z) : result (list Item) :=
  match n with
  | O => Ok []
  | S n =>
    key ← GetKey map index;
    if IsHole key then listLoop n map itemKind (index + 1) else
    item ← itemAt map itemKind index;
    items ← listLoop n map itemKind (index + 1);
    Ok (item :: items)
  end.

Definition MapIteratorToList (heap : Heap) (iter : HashIterator) : result (list Item) :=
  match IteratedTable iter with
  | None => Ok []
  | Some iteratedMap =>
    map ← get heap iteratedMap;
    listLoop (Z.to_nat (totalElements map - NextIndex iter)) map (HashIterationKind iter) (NextIndex iter)
  end.
End JSMapIterator.

(** ** Set *)

Module JSSet.
Section Methods.
  Variable env : HashEnv.

Definition Add (c : Collection) (value : JSTaggedValue) : result Collection :=
  if IsHole value then Err NotKey else
  let canonicalValue := CanonicalizeKeyedCollectionKey value in
  newSet ← Insert env true (tables c) (linkedTable c) canonicalValue canonicalValue;
  Ok (withTable c newSet).

Definition Delete (c : Collection) (value : JSTaggedValue) : result (bool * Collection) :=
  let canonicalValue := CanonicalizeKeyedCollectionKey value in
  set_ ← get (tables c) (linkedTable c);
  entry ← FindElement env set_ canonicalValue;
  if entry =? -1 then Ok (false, c) else
  set_ ← RemoveEntry true set_ entry;
  heap ← set (tables c) (linkedTable c) set_;
  Ok (true, withTable c (heap, linkedTable c)).

Definition Clear (c : Collection) : result Collection :=
  newSet ← LinkedHashTable.Clear true (tables c) (linkedTable c);
  Ok (withTable c newSet).

Definition Has (c : Collection) (value : JSTaggedValue) : result bool :=
  set_ ← get (tables c) (linkedTable c);
  LinkedHashTable.Has env set_ (CanonicalizeKeyedCollectionKey value).

Definition GetSize (c : Collection) : result Z :=
  set_ ← get (tables c) (linkedTable c);
  Ok (u32 (NumberOfElements set_)).

End Methods.
End JSSet.

Module JSSetIterator.

Definition CreateSetIterator (c : Collection) (kind : IterationKind) : HashIterator := mkHashIterator (Some (linkedTable c)) 0 kind.

Definition Update (heap : Heap) (iter : HashIterator) : result HashIterator :=
  match IteratedTable iter with
  | None => Ok iter
  | Some iteratedSet =>
    set_ ← get heap iteratedSet;
    match GetNextTable set_ with
    | None => Ok iter
    | Some _ => '(set_, index) ← updateLoop (length heap) heap iteratedSet (NextIndex iter); Ok (mkHashIterator (Some set_) index (HashIterationKind iter))
    end
  end.

Definition NextInternal (heap : Heap) (iter : HashIterator) : result (option Item * HashIterator) :=
  iter ← Update heap iter;
  match IteratedTable iter with
  | None => Ok (None, iter)
  | Some iteratedSet =>
    set_ ← get heap iteratedSet;
    found ← scan set_ (NextIndex iter);
    match found with
    | Some index =>
      key ← GetKey set_ index;
      let item := match HashIterationKind iter with VALUE | KEY => ItemValue key | KEY_AND_VALUE => ItemPair key key end in
      Ok (Some item, mkHashIterator (Some iteratedSet) (index + 1) (HashIterationKind iter))
    | None => Ok (None, mkHashIterator None (NextIndex iter) (HashIterationKind iter))
    end
  end.
End JSSetIterator.

(** ** Methods *)

(** Any program as a callback: it is given the value and the key, may change the collection and
    the rest of the world [W], and ends normally or throws. *)
Definition HashCallback (W : Type) : Type := W -> Collection -> JSTaggedValue -> JSTaggedValue -> W * Collection * option error.

(** A receiver that is none of the kind is told so. *)
Definition thisOf (kind : string) (self : option Collection) : result Collection :=
  match self with Some c => Ok c | None => Err (TypeError ("obj is not " +:+ kind)) end.

(** The argument of a constructor: none (undefined or null), an object that yields the items of a list when it is iterated,
    or a primitive that does. *)
Inductive Iterable := NoIterable | IterableObject (items : list JSTaggedValue) | IterablePrimitive (items : list JSTaggedValue).

Definition NoNewTarget : error := TypeError "new target can't be undefined".

Module BuiltinsMap.
Section Methods.
  Variable env : HashEnv.

Definition newMap : result Collection :=
  linkedMap ← Create false MIN_CAPACITY;
  Ok (mkCollection [linkedMap] 0 []).

Definition Set_ (self : option Collection) (key value : JSTaggedValue) : result Collection := map ← thisOf "JSMap" self; JSMap.Set_ env map key value.
Definition Clear (self : option Collection) : result Collection := map ← thisOf "JSMap" self; JSMap.Clear map.
Definition Delete (self : option Collection) (key : JSTaggedValue) : result (bool * Collection) := map ← thisOf "JSMap" self; JSMap.Delete env map key.
Definition Has (self : option Collection) (key : JSTaggedValue) : result bool := map ← thisOf "JSMap" self; JSMap.Has env map key.
Definition Get (self : option Collection) (key : JSTaggedValue) : result JSTaggedValue :=
  jsMap ← thisOf "JSMap" self;
  size ← JSMap.GetSize jsMap;
  if size =? 0 then Ok Undefined else JSMap.Get env jsMap key.
Definition GetSize (self : option Collection) : result Z := jsMap ← thisOf "JSMap" self; JSMap.GetSize jsMap.

(** [entryOf]: the properties 0 and 1 of an object; [None] for a value that is none.  The adder is [set] itself. *)
Fixpoint AddEntriesFromIterable (entryOf : JSTaggedValue -> option (JSTaggedValue * JSTaggedValue)) (target : Collection) (items : list JSTaggedValue) : result Collection :=
  match items with
  | [] => Ok target
  | nextValue :: items =>
    match entryOf nextValue with
    | None => Err (TypeError "nextItem is not Object")
    | Some (key, value) => target ← Set_ (Some target) key value; AddEntriesFromIterable entryOf target items
    end
  end.

Definition MapConstructor (entryOf : JSTaggedValue -> option (JSTaggedValue * JSTaggedValue)) (newTarget : bool) (iterable : Iterable) : result Collection :=
  if negb newTarget then Err NoNewTarget else
  map ← newMap;
  match iterable with
  | NoIterable => Ok map
  | IterablePrimitive _ => Err (TypeError "iterable is not object")
  | IterableObject items => AddEntriesFromIterable entryOf map items
  end.

(** The iterator is told by its number. *)
Definition newIterator (self : option Collection) (kind : IterationKind) : result (nat * Collection) :=
  map ← thisOf "JSMap" self;
  Ok (length (iterators map), withIterators map (iterators map ++ [JSMapIterator.CreateMapIterator map kind])).
Definition Entries (self : option Collection) : result (nat * Collection) := newIterator self KEY_AND_VALUE.
Definition Keys (self : option Collection) : result (nat * Collection) := newIterator self KEY.
Definition Values (self : option Collection) : result (nat * Collection) := newIterator self VALUE.

(** [next] of the iterator with the given number. *)
Definition Next (map : Collection) (n : nat) : result (option Item * Collection) :=
  match iterators map !! n with
  | None => Err (TypeError "this value is not a map iterator")
  | Some iter => '(item, iter) ← JSMapIterator.NextInternal (tables map) iter; Ok (item, withIterators map (<[n := iter]> (iterators map)))
  end.

(** [fuel] bounds the number of callback calls. *)
Fixpoint forEachLoop {W} (cb : HashCallback W) (fuel : nat) (w : W) (map : Collection) (hashMap : nat) (index : Z) : result (W * Collection * option error) :=
  t ← get (tables map) hashMap;
  found ← scan t index;
  match found with
  | None => Ok (w, map, None)
  | Some i =>
    key ← GetKey t i;
    value ← GetValue t i;
    match fuel with
    | O => Err OutOfFuel
    | S fuel =>
      let '(w, map, thrown) := cb w map value key in
      match thrown with
      | Some e => Ok (w, map, Some e)
      | None => '(hashMap, index) ← updateLoop (length (tables map)) (tables map) hashMap (i + 1); forEachLoop cb fuel w map hashMap index
      end
    end
  end.

Definition ForEach {W} (self : option Collection) (callbackfn : option (HashCallback W)) (fuel : nat) (w : W) : result (W * Collection * option error) :=
  map ← thisOf "JSMap" self;
  match callbackfn with
  | None => Err (TypeError "obj is not Callable")
  | Some func => forEachLoop func fuel w map (linkedTable map) 0
  end.
End Methods.
End BuiltinsMap.

Module BuiltinsSet.
Section Methods.
  Variable env : HashEnv.

Definition newSet : result Collection :=
  linkedSet ← Create true MIN_CAPACITY;
  Ok (mkCollection [linkedSet] 0 []).

Definition Add (self : option Collection) (value : JSTaggedValue) : result Collection := set_ ← thisOf "JSSet" self; JSSet.Add env set_ value.
Definition Clear (self : option Collection) : result Collection := set_ ← thisOf "JSSet" self; JSSet.Clear set_.
Definition Delete (self : option Collection) (value : JSTaggedValue) : result (bool * Collection) := set_ ← thisOf "JSSet" self; JSSet.Delete env set_ value.
Definition Has (self : option Collection) (value : JSTaggedValue) : result bool := set_ ← thisOf "JSSet" self; JSSet.Has env set_ value.
Definition GetSize (self : option Collection) : result Z := set_ ← thisOf "JSSet" self; JSSet.GetSize set_.

(** [arrayElement]: the property 1 of a value that is an array; it takes the place of the argument of the adder, which is
    [add] itself. *)
Fixpoint addValues (arrayElement : JSTaggedValue -> option JSTaggedValue) (set_ : Collection) (items : list JSTaggedValue) : result Collection :=
  match items with
  | [] => Ok set_
  | nextValue :: items =>
    let argument := match arrayElement nextValue with Some prop => prop | None => nextValue end in
    set_ ← Add (Some set_) argument;
    addValues arrayElement set_ items
  end.

Definition SetConstructor (arrayElement : JSTaggedValue -> option JSTaggedValue) (newTarget : bool) (iterable : Iterable) : result Collection :=
  if negb newTarget then Err NoNewTarget else
  set_ ← newSet;
  match iterable with
  | NoIterable => Ok set_
  | IterableObject items | IterablePrimitive items => addValues arrayElement set_ items
  end.

Definition newIterator (self : option Collection) (kind : IterationKind) : result (nat * Collection) :=
  set_ ← thisOf "JSSet" self;
  Ok (length (iterators set_), withIterators set_ (iterators set_ ++ [JSSetIterator.CreateSetIterator set_ kind])).
Definition Entries (self : option Collection) : result (nat * Collection) := newIterator self KEY_AND_VALUE.
Definition Values (self : option Collection) : result (nat * Collection) := newIterator self VALUE.

Definition Next (set_ : Collection) (n : nat) : result (option Item * Collection) :=
  match iterators set_ !! n with
  | None => Err (TypeError "this value is not a set iterator")
  | Some iter => '(item, iter) ← JSSetIterator.NextInternal (tables set_) iter; Ok (item, withIterators set_ (<[n := iter]> (iterators set_)))
  end.

Fixpoint forEachLoop {W} (cb : HashCallback W) (fuel : nat) (w : W) (set_ : Collection) (hashSet : nat) (index : Z) : result (W * Collection * option error) :=
  t ← get (tables set_) hashSet;
  found ← scan t index;
  match found with
  | None => Ok (w, set_, None)
  | Some i =>
    key ← GetKey t i;
    match fuel with
    | O => Err OutOfFuel
    | S fuel =>
      let '(w, set_, thrown) := cb w set_ key key in
      match thrown with
      | Some e => Ok (w, set_, Some e)
      | None => '(hashSet, index) ← updateLoop (length (tables set_)) (tables set_) hashSet (i + 1); forEachLoop cb fuel w set_ hashSet index
      end
    end
  end.

Definition ForEach {W} (self : option Collection) (callbackfn : option (HashCallback W)) (fuel : nat) (w : W) : result (W * Collection * option error) :=
  set_ ← thisOf "JSSet" self;
  match callbackfn with
  | None => Err (TypeError "callbackfn is not callable")
  | Some func => forEachLoop func fuel w set_ (linkedTable set_) 0
  end.
End Methods.
End BuiltinsSet.
