(* ===== verification/JSMapSpec.v ===== *)
(** * What a Map or a Set is

    The collections as ECMA-262 has them: a list of entries in the order of insertion in which removed
    entries are empty, and iterators that are places in this list.  [related] says that a collection of
    linked hash tables and such a list are the same to a program, and this file shows that every change of a
    table and every step of an iterator keeps them so. *)

From Stdlib Require Import ZArith Lia.
From S2P Require Import Prelude BigIntBase Double Values Containers StringHash LinkedHashTable OptionList LinkedHashRep LinkedHashCorrect JSMap.

(** ** Specification *)

Inductive HashOp :=
| Put (key value : JSTaggedValue)
| Drop (key : JSTaggedValue)
| Empty_
| HasKey (key : JSTaggedValue)
| GetOf (key : JSTaggedValue)
| SizeOf
| Iterate (kind : IterationKind)
| NextOf (n : nat).

(** The place of an iterator in the list; [None] when it is done. *)
Record SpecState := mkSpec { mapData : list (option pair_); places : list (option nat * IterationKind) }.

Definition emptySpec : SpecState := mkSpec [] [].

Definition itemOf (kind : IterationKind) (e : pair_) : Item :=
  match kind with KEY => ItemValue e.1 | VALUE => ItemValue e.2 | KEY_AND_VALUE => ItemPair e.1 e.2 end.

(** What an iterator yields, and where it is then; one that is done stays so. *)
Definition specNext (D : list (option pair_)) '(place, kind) : option Item * (option nat * IterationKind) :=
  match place with
  | None => (None, (None, kind))
  | Some j => match nextLive D j with Some (j', e) => (Some (itemOf kind e), (Some (S j'), kind)) | None => (None, (None, kind)) end
  end.

Section Spec.
  Variable shared : bool.
  Variable notIterator : error.

Definition specStep (s : SpecState) (op : HashOp) : Observation * SpecState :=
  let D := mapData s in
  match op with
  | Put key value => (Nothing, mkSpec (putEntry shared (CanonicalizeKeyedCollectionKey key) value D) (places s))
  | Drop key => (Truth (bool_decide (is_Some (findKey (CanonicalizeKeyedCollectionKey key) D))), mkSpec (dropEntry (CanonicalizeKeyedCollectionKey key) D) (places s))
  | Empty_ => (Nothing, mkSpec (replicate (length D) None) (places s))
  | HasKey key => (Truth (bool_decide (is_Some (findKey (CanonicalizeKeyedCollectionKey key) D))), s)
  | GetOf key => (Value (match findKey (CanonicalizeKeyedCollectionKey key) D with Some i => match D !! i with Some (Some e) => e.2 | _ => Undefined end | None => Undefined end), s)
  | SizeOf => (Count (Z.of_nat (length (live D))), s)
  | Iterate kind => (Count (Z.of_nat (length (places s))), mkSpec D (places s ++ [(Some 0%nat, kind)]))
  | NextOf n =>
    match places s !! n with
    | None => (Throws notIterator, s)
    | Some p => let '(item, p) := specNext D p in (Yields item, mkSpec D (<[n := p]> (places s)))
    end
  end.

(** [forEach] with a callback that makes the calls of a script, one list of calls for each time it is
    called, and then returns or throws; once the script is at its end, it makes no more calls.
    The log has the arguments of the callback and what its calls gave. *)
Notation Script := (list (list HashOp * option error)).

Definition specCallback (script : Script) (log : list Observation) (s : SpecState) (e : pair_) : Script * list Observation * SpecState * option error :=
  let log := log ++ [Yields (Some (ItemPair e.2 e.1))] in
  match script with
  | [] => ([], log, s, None)
  | (ops, thrown) :: script => let '(os, s) := runSpec specStep s ops in (script, log ++ os, s, thrown)
  end.

Fixpoint specForEach (fuel : nat) (script : Script) (log : list Observation) (s : SpecState) (j : nat) : result (list Observation * SpecState * option error) :=
  match nextLive (mapData s) j with
  | None => Ok (log, s, None)
  | Some (j', e) =>
    match fuel with
    | O => Err OutOfFuel
    | S fuel =>
      let '(script, log, s, thrown) := specCallback script log s e in
      match thrown with Some error => Ok (log, s, Some error) | None => specForEach fuel script log s (S j') end
    end
  end.
End Spec.

Notation Script := (list (list HashOp * option error)).

Definition scriptCalls (script : Script) : nat := sum_list (map (fun c => length c.1) script).

(** ** The relation *)

Section Relation.
  Context {env : HashEnv} {K : JSTaggedValue -> Prop} {hash : JSTaggedValue -> Z} `{!KeyHash env K hash}.
  Variable shared : bool.
  Hypothesis Hround : roundsUp env.

Notation current := (current (K := K) (hash := hash) shared).
Notation tableOk := (tableOk (K := K) (hash := hash) shared).

(** The place [i] of table [a] is the place [j] of the list. *)
Definition follows (heap : Heap) (cur : nat) (E D : list (option pair_)) (a : nat) (i : Z) (j : nat) : Prop :=
  (j <= length D)%nat /\ exists i', leads heap cur a i i' /\ (i' <= length E)%nat /\ passed i' E = passed j D.

Definition iteratorRel (heap : Heap) (cur : nat) (E D : list (option pair_)) (it : HashIterator) (p : option nat * IterationKind) : Prop :=
  HashIterationKind it = p.2 /\
  match IteratedTable it, p.1 with Some a, Some j => follows heap cur E D a (NextIndex it) j | None, None => True | _, _ => False end.

(** [pin]: a place that a [forEach] in progress holds; [E]: the entries of the table in use. *)
Record relatedBy (E : list (option pair_)) (pin : option (nat * Z * nat)) (c : Collection) (s : SpecState) : Prop := {
  related_table : current (tables c) (linkedTable c) E;
  related_live : live E = live (mapData s);
  related_iterators : Forall2 (iteratorRel (tables c) (linkedTable c) E (mapData s)) (iterators c) (places s);
  related_pin : match pin with Some (a, i, j) => follows (tables c) (linkedTable c) E (mapData s) a i j | None => True end }.

(** After [n] calls. *)
Definition related (pin : option (nat * Z * nat)) (n : nat) (c : Collection) (s : SpecState) : Prop :=
  (length (live (mapData s)) <= n)%nat /\ exists E, relatedBy E pin c s.

Lemma carried heap cur E D heap' cur' E' D' f a i j : carries heap cur E heap' cur' E' f -> (length D <= length D')%nat ->
  (forall i j, (i <= length E)%nat -> (j <= length D)%nat -> passed i E = passed j D -> f i = passed j D') ->
  follows heap cur E D a i j -> follows heap' cur' E' D' a i j.
Proof. intros [_ Hc] HD Hf (Hj & i' & Hl & Hi & Hp). split; [lia|]. destruct (Hc a i i' Hl Hi) as (i'' & H1 & H2 & H3). exists i''. split_and!; [done|done|]. rewrite H3. by apply Hf. Qed.

(** A change of the table. *)
Lemma related_change E pin n c s heap' cur' D' : relatedBy E pin c s -> (length (mapData s) <= length D')%nat -> (length (live D') <= n)%nat ->
  (exists E' f, current heap' cur' E' /\ live E' = live D' /\ carries (tables c) (linkedTable c) E heap' cur' E' f /\
     forall i j, (i <= length E)%nat -> (j <= length (mapData s))%nat -> passed i E = passed j (mapData s) -> f i = passed j D') ->
  related pin n (withTable c (heap', cur')) (mkSpec D' (places s)).
Proof.
  intros [Hcur Hlive Hits Hpin] HD Hn (E' & f & Hcur' & Hlive' & Hcar & Hf). split; [done|]. exists E'. split; cbn [tables linkedTable iterators withTable mapData places]; [done|done| |].
  - eapply Forall2_impl; [exact Hits|]. intros it p [Hk Hp]. split; [done|]. destruct (IteratedTable it), p.1; try done. by eapply carried.
  - destruct pin as [[[a i] j]|]; [|done]. by eapply carried.
Qed.

(** ** Changes *)

Lemma put_related pin n c s key value : related pin n c s -> Z.of_nat n < 2 ^ 25 -> K key -> (shared = true -> value = key) ->
  returns (Insert env shared (tables c) (linkedTable c) key value) (fun new => related pin (S n) (withTable c new) (mkSpec (putEntry shared key value (mapData s)) (places s))).
Proof.
  intros [Hn [E HR]] Hb HK Hsh. pose proof (related_live _ _ _ _ HR) as Hlive. eapply returns_mono; [apply (insertTable_ok (K := K) (hash := hash) shared Hround _ _ E key value); [apply HR|rewrite Hlive; lia|done|done]|].
  intros [heap' cur'] (E' & Hcur' & Hlive' & Hcar). eapply related_change; [done|apply putEntry_length|pose proof (putEntry_live_length shared key value (mapData s)); lia|].
  exists E', (fun i => passed i E). split_and!; [done|rewrite Hlive'; by apply putEntry_live|done|]. intros i j _ Hj ->. by rewrite putEntry_passed.
Qed.

Lemma find_related pin n c s key : related pin n c s -> K key ->
  returns (get (tables c) (linkedTable c)) (fun t => exists E, tableOk t E /\ tables c !! linkedTable c = Some t /\ relatedBy E pin c s /\ FindElement env t key = Ok (entryNumber (findKey key E))).
Proof.
  intros [Hn [E HR]] HK. pose proof (related_table _ _ _ _ HR) as (t & Hc & Ht). rewrite (get_some _ _ _ Hc). exists E. split_and!; [done|done|done|]. by eapply FindElement_ok.
Qed.

Lemma clear_related pin n c s : related pin n c s ->
  returns (LinkedHashTable.Clear shared (tables c) (linkedTable c)) (fun new => related pin (S n) (withTable c new) (mkSpec (replicate (length (mapData s)) None) (places s))).
Proof.
  intros [Hn [E HR]]. eapply returns_mono; [apply (Clear_ok (K := K) (hash := hash) shared _ _ E); apply HR|]. intros [heap' cur'] (E' & Hcur' & Hlive' & Hcar).
  eapply related_change; [done|by rewrite length_replicate|rewrite live_None; cbn; lia|]. exists E', (fun _ => 0%nat). split_and!; [done|by rewrite live_None|done|]. intros i j _ _ _.
  pose proof (passed_le j (replicate (length (mapData s)) (None : option pair_))) as Hp. rewrite live_None in Hp. cbn in Hp. lia.
Qed.

(** Removal as [delete] does it: the table stays. *)
Lemma drop_related pin n c s t E key i : relatedBy E pin c s -> (length (live (mapData s)) <= n)%nat -> tables c !! linkedTable c = Some t -> tableOk t E -> findKey key E = Some i ->
  returns (t' ← RemoveEntry shared t (Z.of_nat i); heap ← set (tables c) (linkedTable c) t'; Ok (true, withTable c (heap, linkedTable c)))
    (fun '(b, c') => b = true /\ related pin (S n) c' (mkSpec (dropEntry key (mapData s)) (places s))).
Proof.
  intros HR Hn Hc Ht Hi. pose proof (related_live _ _ _ _ HR) as Hlive. destruct (findKey_Some _ _ _ Hi) as (e & He & _). pose proof (remove_ok shared _ _ t E i e Hc Ht He) as Hrem.
  destruct (RemoveEntry shared t (Z.of_nat i)) as [t'|]; [|done]. rewrite bind_Ok in Hrem. rewrite bind_Ok. destruct (set _ _ _) as [heap'|]; [|done]. rewrite bind_Ok. cbn [returns] in *.
  destruct Hrem as [Hcur Hcar]. split; [done|]. eapply related_change; [done|by rewrite dropEntry_length|pose proof (dropEntry_live_length key (mapData s)); lia|].
  assert (dropEntry key E = <[i := None]> E) as Hd by (unfold dropEntry; by rewrite Hi).
  exists (<[i := None]> E), (fun j => passed j (<[i := None]> E)). split_and!; [done|rewrite <- Hd; by apply dropEntry_live|done|]. intros j k _ _ Hp. rewrite <- Hd. by apply dropEntry_passed.
Qed.

(** ** Iterators *)

Lemma updateLoop_ok heap cur E a i i' fuel : current heap cur E -> leads heap cur a i i' -> (length heap - a <= fuel)%nat -> updateLoop fuel heap a i = Ok (cur, Z.of_nat i').
Proof.
  intros (t & Hc & Ht) H. revert fuel. induction H as [i|a s b i d i' Ha Hb Hab Hd _ IH]; intros fuel Hf.
  - destruct fuel; cbn [updateLoop]; rewrite (get_some _ _ _ Hc), bind_Ok, (ok_next _ _ _ Ht); done.
  - assert (a < length heap)%nat by (by eapply lookup_lt_Some). destruct fuel as [|fuel]; [lia|]. cbn [updateLoop]. rewrite (get_some _ _ _ Ha), bind_Ok, Hb, Hd, bind_Ok. apply IH. lia.
Qed.

Lemma totalElements_ok t E : tableOk t E -> totalElements t = Z.of_nat (length E).
Proof. intros Ht. unfold totalElements. rewrite (ok_elements _ _ _ Ht), (ok_deleted _ _ _ Ht). lia. Qed.

Definition viewNext (o : option (nat * pair_)) : option Z := (fun p => Z.of_nat p.1) <$> o.

Lemma nextLive_drop {A} (X : list (option A)) i : nextLive X i = (fun p => ((i + p.1)%nat, p.2)) <$> nextLive (drop i X) 0.
Proof.
  revert i. induction X as [|o X IH]; intros i; [by destruct i|]. destruct i as [|i].
  - cbn [drop]. by destruct (nextLive (o :: X) 0) as [[j a]|].
  - cbn [drop]. assert (nextLive (o :: X) (S i) = ('(j, a) ← nextLive X i; Some (S j, a))) as -> by (by destruct o). rewrite IH. by destruct (nextLive (drop i X) 0) as [[j a]|].
Qed.

Lemma scanLoop_ok t E i fuel : tableOk t E -> (i <= length E)%nat -> (length E - i <= fuel)%nat -> scanLoop fuel t (Z.of_nat i) (Z.of_nat (length E)) = Ok (viewNext (nextLive E i)).
Proof.
  intros Ht. revert i. induction fuel as [|fuel IH]; intros i Hi Hf.
  - replace i with (length E) by lia. cbn [scanLoop]. rewrite Z.ltb_irrefl. rewrite nextLive_drop, drop_all. done.
  - cbn [scanLoop]. destruct (Z.ltb_spec (Z.of_nat i) (Z.of_nat (length E))) as [Hlt|].
    + destruct (lookup_lt_is_Some_2 E i ltac:(lia)) as [o Ho]. destruct (linked_at _ _ _ _ _ _ (ok_linked _ _ _ Ht) Ho) as (e & He & Hv). unfold GetKey. rewrite (hashEntryAt_eq t i e He), !bind_Ok.
      rewrite nextLive_drop, (drop_S _ _ _ Ho). destruct o as [[k v]|].
      * destruct (viewEntry_Some _ _ _ Hv) as (-> & _ & ->). cbn. f_equal. f_equal. lia.
      * rewrite (viewEntry_None _ Hv). replace (Z.of_nat i + 1) with (Z.of_nat (S i)) by lia. rewrite IH by lia. rewrite nextLive_drop. cbn [nextLive]. destruct (nextLive (drop (S i) E) 0) as [[j a]|]; [|done]. cbn. f_equal. f_equal. lia.
    + replace i with (length E) by lia. rewrite nextLive_drop, drop_all. done.
Qed.

Lemma scan_ok t E i : tableOk t E -> (i <= length E)%nat -> scan t (Z.of_nat i) = Ok (viewNext (nextLive E i)).
Proof. intros Ht Hi. unfold scan. rewrite (totalElements_ok _ _ Ht). apply scanLoop_ok; [done|done|lia]. Qed.

Lemma entry_at t E i k v : tableOk t E -> E !! i = Some (Some (k, v)) -> GetKey t (Z.of_nat i) = Ok k /\ GetValue t (Z.of_nat i) = Ok v.
Proof.
  intros Ht Hi. destruct (linked_at _ _ _ _ _ _ (ok_linked _ _ _ Ht) Hi) as (e & He & Hv). destruct (viewEntry_Some _ _ _ Hv) as (<- & <- & _). unfold GetKey, GetValue. by rewrite (hashEntryAt_eq t i e He), !bind_Ok.
Qed.

(** ** The next entry *)

(** The iterators of Map and of Set differ in how they make an item. *)
Definition nextWith (item : LinkedHashTable -> IterationKind -> Z -> result Item) (heap : Heap) (iter : HashIterator) : result (option Item * HashIterator) :=
  iter ← JSMapIterator.Update heap iter;
  match IteratedTable iter with
  | None => Ok (None, iter)
  | Some table =>
    t ← get heap table;
    found ← scan t (NextIndex iter);
    match found with
    | Some index => i ← item t (HashIterationKind iter) index; Ok (Some i, mkHashIterator (Some table) (index + 1) (HashIterationKind iter))
    | None => Ok (None, mkHashIterator None (NextIndex iter) (HashIterationKind iter))
    end
  end.

Lemma Update_ok heap cur E iter a i' : current heap cur E -> IteratedTable iter = Some a -> leads heap cur a (NextIndex iter) i' ->
  JSMapIterator.Update heap iter = Ok (mkHashIterator (Some cur) (Z.of_nat i') (HashIterationKind iter)).
Proof.
  intros Hcur Ha H. destruct iter as [ta ni kind]. cbn [IteratedTable NextIndex HashIterationKind] in *. subst ta. unfold JSMapIterator.Update. cbn [IteratedTable NextIndex HashIterationKind]. pose proof (updateLoop_ok heap cur E a ni i' (length heap) Hcur H ltac:(lia)) as Hu.
  assert (exists t, heap !! a = Some t) as [t Ht]. { destruct H as [i|a t b i d i' Ha _ _ _ _]; [|by exists t]. destruct Hcur as (t & Ht & _). by exists t. }
  rewrite (get_some _ _ _ Ht), bind_Ok. destruct (GetNextTable t) eqn:En; [by rewrite Hu, bind_Ok|]. destruct H as [i|a s b i d i' Has Hb _ _ _]; [done|]. congruence.
Qed.

Lemma nextWith_ok item heap cur E D iter p : current heap cur E -> live E = live D -> iteratorRel heap cur E D iter p ->
  (forall t kind i e, tableOk t E -> E !! i = Some (Some e) -> item t kind (Z.of_nat i) = Ok (itemOf kind e)) ->
  returns (nextWith item heap iter) (fun '(o, iter') => o = (specNext D p).1 /\ iteratorRel heap cur E D iter' (specNext D p).2).
Proof.
  intros Hcur Hlive [Hk Hp] Hitem. destruct p as [place kind]. cbn [fst snd] in *. subst kind. unfold nextWith. destruct (IteratedTable iter) as [a|] eqn:Ea, place as [j|]; try done.
  - destruct Hp as (Hj & i' & Hl & Hi' & Hpass). rewrite (Update_ok _ _ _ _ _ _ Hcur Ea Hl), bind_Ok. cbn [IteratedTable NextIndex HashIterationKind]. pose proof Hcur as (t & Hc & Ht).
    rewrite (get_some _ _ _ Hc), bind_Ok, (scan_ok _ _ _ Ht Hi'), bind_Ok. pose proof (nextLive_same E D i' j Hlive Hpass) as Hs. pose proof (nextLive_spec E i') as HE. pose proof (nextLive_spec D j) as HD. cbn [specNext].
    destruct (nextLive E i') as [[i1 e]|], (nextLive D j) as [[j1 f]|]; try done; cbn [viewNext fmap option_fmap option_map fst].
    destruct Hs as [<- Hpass']. destruct HE as (_ & He & _). destruct HD as (_ & Hf & _). rewrite (Hitem t _ i1 e Ht He), bind_Ok. cbn [returns fst snd]. split; [done|]. split; [done|]. cbn.
    assert (i1 < length E)%nat by (by eapply lookup_lt_Some). assert (j1 < length D)%nat by (by eapply lookup_lt_Some). split; [lia|]. exists (S i1). split_and!; [|lia|done].
    replace (Z.of_nat i1 + 1) with (Z.of_nat (S i1)) by lia. constructor.
  - unfold JSMapIterator.Update. rewrite Ea, bind_Ok, Ea. cbn [returns specNext fst snd]. split; [done|]. split; [done|]. by rewrite Ea.
Qed.

Lemma next_related item pin n c s k iter p : related pin n c s -> iterators c !! k = Some iter -> places s !! k = Some p ->
  (forall t E kind i e, tableOk t E -> E !! i = Some (Some e) -> item t kind (Z.of_nat i) = Ok (itemOf kind e)) ->
  returns ('(o, iter') ← nextWith item (tables c) iter; Ok (o, withIterators c (<[k := iter']> (iterators c))))
    (fun '(o, c') => o = (specNext (mapData s) p).1 /\ related pin (S n) c' (mkSpec (mapData s) (<[k := (specNext (mapData s) p).2]> (places s)))).
Proof.
  intros [Hn [E HR]] Hi Hp Hitem. pose proof HR as [Hcur Hlive Hits Hpin]. pose proof (Forall2_lookup_lr _ _ _ _ _ _ Hits Hi Hp) as Hrel.
  eapply returns_bind; [by apply (nextWith_ok item _ _ E (mapData s) iter p Hcur Hlive Hrel); intros; eapply Hitem|]. intros [o iter'] [-> Hrel']. cbn [returns]. split; [done|]. split; [cbn [mapData]; lia|]. exists E. split; cbn [tables linkedTable iterators withIterators mapData places]; [done|done| |done].
  by apply Forall2_insert.
Qed.

Lemma iterate_related pin n c s kind : related pin n c s ->
  related pin (S n) (withIterators c (iterators c ++ [mkHashIterator (Some (linkedTable c)) 0 kind])) (mkSpec (mapData s) (places s ++ [(Some 0%nat, kind)])).
Proof.
  intros [Hn [E [Hcur Hlive Hits Hpin]]]. split; [cbn [mapData]; lia|]. exists E. split; cbn [tables linkedTable iterators withIterators mapData places]; [done|done| |done]. apply Forall2_app; [done|]. constructor; [|constructor]. split; [done|]. cbn.
  split; [lia|]. exists 0%nat. split_and!; [apply (leads_here _ _ 0%nat)|lia|done].
Qed.

Lemma related_length pin n c s : related pin n c s -> length (iterators c) = length (places s).
Proof. intros [_ [E HR]]. by eapply Forall2_length, HR. Qed.

Lemma related_next_call pin n c s : related pin n c s -> related pin (S n) c s.
Proof. intros [Hn HE]. split; [lia|done]. Qed.

End Relation.
