(* ===== verification/JSMapCorrect.v ===== *)
(** * Map and Set are what ECMA-262 says

    Any calls of the methods of a Map or a Set, with any number of iterators open and with [forEach]
    callbacks that change the collection, give what the list of entries of the language definition gives. *)

From Stdlib Require Import ZArith Lia.
From S2P Require Import Prelude BigIntBase Double Values Containers StringHash LinkedHashTable OptionList LinkedHashRep LinkedHashCorrect HashKeys JSMap JSMapSpec.

(** ** Calls *)

Definition notMapIterator : error := TypeError "this value is not a map iterator".
Definition notSetIterator : error := TypeError "this value is not a set iterator".

Definition countOf (n : nat) : Observation := Count (Z.of_nat n).

Definition mapStep (env : HashEnv) (c : Collection) (op : HashOp) : Observation * Collection :=
  match op with
  | Put key value => observeUpdate c (BuiltinsMap.Set_ env (Some c) key value)
  | Drop key => observe c Truth (BuiltinsMap.Delete env (Some c) key)
  | Empty_ => observeUpdate c (BuiltinsMap.Clear (Some c))
  | HasKey key => observeRead c Truth (BuiltinsMap.Has env (Some c) key)
  | GetOf key => observeRead c Value (BuiltinsMap.Get env (Some c) key)
  | SizeOf => observeRead c Count (BuiltinsMap.GetSize (Some c))
  | Iterate KEY => observe c countOf (BuiltinsMap.Keys (Some c))
  | Iterate VALUE => observe c countOf (BuiltinsMap.Values (Some c))
  | Iterate KEY_AND_VALUE => observe c countOf (BuiltinsMap.Entries (Some c))
  | NextOf n => observe c Yields (BuiltinsMap.Next c n)
  end.

(** A Set has no values of its own: [Put] is the method [add] of the key, and [GetOf] is no method of a Set. *)
Definition setStep (env : HashEnv) (c : Collection) (op : HashOp) : Observation * Collection :=
  match op with
  | Put key _ => observeUpdate c (BuiltinsSet.Add env (Some c) key)
  | Drop key => observe c Truth (BuiltinsSet.Delete env (Some c) key)
  | Empty_ => observeUpdate c (BuiltinsSet.Clear (Some c))
  | HasKey key => observeRead c Truth (BuiltinsSet.Has env (Some c) key)
  | GetOf _ => (Nothing, c)
  | SizeOf => observeRead c Count (BuiltinsSet.GetSize (Some c))
  | Iterate KEY_AND_VALUE => observe c countOf (BuiltinsSet.Entries (Some c))
  | Iterate _ => observe c countOf (BuiltinsSet.Values (Some c))
  | NextOf n => observe c Yields (BuiltinsSet.Next c n)
  end.

(** The calls of a Set, each value as the key that is stored; its [keys] are its [values]. *)
Definition isSetOp (op : HashOp) : Prop :=
  match op with Put key value => value = CanonicalizeKeyedCollectionKey key | GetOf _ | Iterate KEY => False | _ => True end.

(** ** One call *)

Section Steps.
  Context {env : HashEnv} {K : JSTaggedValue -> Prop}.
  Hypothesis HK : coherentKeys env K.
  Hypothesis Hround : roundsUp env.

#[local] Instance keys : KeyHash env K (hashOfKey env) := coherentKeys_hash env K HK.

Definition usesKeys (op : HashOp) : Prop :=
  match op with Put key _ | Drop key | HasKey key | GetOf key => K (CanonicalizeKeyedCollectionKey key) | _ => True end.

Notation related := (related (K := K) (hash := hashOfKey env)).
Notation relatedBy := (relatedBy (K := K) (hash := hashOfKey env)).
Notation tableOk := (tableOk (K := K) (hash := hashOfKey env)).

Lemma key_proper key : K (CanonicalizeKeyedCollectionKey key) -> IsHole (CanonicalizeKeyedCollectionKey key) = false.
Proof. intros H. apply (keyhash_proper (env := env) (hash := hashOfKey env)) in H. by destruct (CanonicalizeKeyedCollectionKey key). Qed.

Lemma observeUpdate_ok {C} (c : C) m o (P : C -> Prop) : returns m P -> o = Nothing -> (observeUpdate c m).1 = o /\ P (observeUpdate c m).2.
Proof. intros H ->. destruct m; [by split|done]. Qed.

Lemma observe_ok {C A} (c : C) (obs : A -> Observation) m (P : A * C -> Prop) : returns m P -> exists a c', m = Ok (a, c') /\ P (a, c').
Proof. destruct m as [[a c']|]; [by exists a, c'|done]. Qed.

Lemma entry_found X key : (entryNumber (findKey key X) =? -1) = negb (bool_decide (is_Some (findKey key X))).
Proof. destruct (findKey key X) as [i|]; cbn [entryNumber]; [|by rewrite bool_decide_false by (intros [? ?]; done)]. rewrite bool_decide_true by done. cbn. by destruct (Z.eqb_spec (Z.of_nat i) (-1)); [lia|]. Qed.

Lemma same_found X Y key : live X = live Y -> bool_decide (is_Some (findKey key X)) = bool_decide (is_Some (findKey key Y)).
Proof. intros H. pose proof (findKey_same key X Y H) as Hs. destruct (findKey key X), (findKey key Y); done. Qed.

(** Deletion, for both collections. *)
Lemma delete_related shared pin n c s key : related shared pin n c s -> K key ->
  returns (t ← get (tables c) (linkedTable c); entry ← FindElement env t key;
           if entry =? -1 then Ok (false, c) else t ← RemoveEntry shared t entry; heap ← set (tables c) (linkedTable c) t; Ok (true, withTable c (heap, linkedTable c)))
    (fun '(b, c') => b = bool_decide (is_Some (findKey key (mapData s))) /\ related shared pin (S n) c' (mkSpec (dropEntry key (mapData s)) (places s))).
Proof.
  intros HR HKk. eapply returns_bind; [by apply (find_related (hash := hashOfKey env) shared pin n c s key)|]. intros t (E & Ht & Hc & HE & ->). rewrite bind_Ok, entry_found.
  pose proof (related_live _ _ _ _ _ HE) as Hlive. rewrite (same_found _ _ key Hlive). pose proof (findKey_same key _ _ Hlive) as Hs.
  destruct (findKey key E) as [i|] eqn:Ei, (findKey key (mapData s)) as [j|] eqn:Ej; try done; cbn [entryNumber].
  - rewrite bool_decide_true by done. cbn [negb]. by apply (drop_related (hash := hashOfKey env) shared pin n c s t E key i HE (proj1 HR)).
  - rewrite bool_decide_false by (intros [? ?]; done). cbn [negb returns]. split; [done|]. unfold dropEntry. rewrite Ej. destruct s. by apply related_next_call.
Qed.

Lemma has_related shared pin n c s key : related shared pin n c s -> K key ->
  (t ← get (tables c) (linkedTable c); LinkedHashTable.Has env t key) = Ok (bool_decide (is_Some (findKey key (mapData s)))).
Proof.
  intros HR HKk. pose proof (find_related (hash := hashOfKey env) shared pin n c s key HR HKk) as Hf. destruct (get _ _) as [t|]; [|done]. destruct Hf as (E & Ht & Hc & HE & Hfind). rewrite bind_Ok. unfold Has. rewrite Hfind, bind_Ok, entry_found, negb_involutive.
  by rewrite (same_found _ _ key (related_live _ _ _ _ _ HE)).
Qed.

Lemma size_related shared pin n c s : related shared pin n c s -> Z.of_nat n <= 2 ^ 25 ->
  (t ← get (tables c) (linkedTable c); Ok (u32 (NumberOfElements t))) = Ok (Z.of_nat (length (live (mapData s)))).
Proof.
  intros [Hn [E HE]] Hb. destruct (related_table _ _ _ _ _ HE) as (t & Hc & Ht). rewrite (get_some _ _ _ Hc), bind_Ok. rewrite (ok_elements _ _ _ Ht), (related_live _ _ _ _ _ HE).
  rewrite u32_small; [done|]. unfold is_u32. rewrite BASE_eq. change (2 ^ 25) with 33554432 in *. lia.
Qed.

Lemma get_related pin n c s key : related false pin n c s -> K key ->
  (t ← get (tables c) (linkedTable c); LinkedHashTable.Get env t key) =
    Ok (match findKey key (mapData s) with Some i => match mapData s !! i with Some (Some e) => e.2 | _ => Undefined end | None => Undefined end).
Proof.
  intros HR HKk. pose proof (find_related (hash := hashOfKey env) false pin n c s key HR HKk) as Hf. destruct (get _ _) as [t|]; [|done]. destruct Hf as (E & Ht & Hc & HE & Hfind). rewrite bind_Ok. unfold Get. rewrite Hfind, bind_Ok, entry_found.
  pose proof (findKey_same key _ _ (related_live _ _ _ _ _ HE)) as Hs. destruct (findKey key E) as [i|] eqn:Ei, (findKey key (mapData s)) as [j|] eqn:Ej; try done; cbn [entryNumber].
  rewrite bool_decide_true by done. cbn [negb]. destruct Hs as (_ & [k v] & Hi & Hj & _). rewrite Hj. by destruct (entry_at (hash := hashOfKey env) false t E i k v Ht Hi).
Qed.

Lemma item_of_map t E kind i e : tableOk false t E -> E !! i = Some (Some e) -> JSMapIterator.itemAt t kind (Z.of_nat i) = Ok (itemOf kind e).
Proof. intros Ht Hi. destruct e as [k v]. destruct (entry_at (hash := hashOfKey env) false t E i k v Ht Hi) as [Hk Hv]. unfold JSMapIterator.itemAt. rewrite Hk, bind_Ok, Hv, bind_Ok. by destruct kind. Qed.

Definition setItem (t : LinkedHashTable) (kind : IterationKind) (i : Z) : result Item :=
  key ← GetKey t i; Ok (match kind with VALUE | KEY => ItemValue key | KEY_AND_VALUE => ItemPair key key end).

Lemma item_of_set t E kind i e : tableOk true t E -> E !! i = Some (Some e) -> setItem t kind (Z.of_nat i) = Ok (itemOf kind e).
Proof.
  intros Ht Hi. destruct e as [k v]. destruct (entry_at (hash := hashOfKey env) true t E i k v Ht Hi) as [Hk _]. destruct (ok_valid _ _ _ Ht _ _ _ Hi) as [_ Hv]. rewrite (Hv eq_refl). unfold setItem. rewrite Hk, bind_Ok. by destruct kind.
Qed.

Lemma set_next heap iter : JSSetIterator.NextInternal heap iter = nextWith setItem heap iter.
Proof.
  unfold JSSetIterator.NextInternal, nextWith. change (JSSetIterator.Update heap iter) with (JSMapIterator.Update heap iter). destruct (JSMapIterator.Update heap iter) as [it|]; [|done]. cbn. destruct (IteratedTable it); [|done].
  destruct (get heap n) as [t|]; [|done]. cbn. destruct (scan t (NextIndex it)) as [[z|]|]; [|done..]. cbn. unfold setItem. by destruct (GetKey t z).
Qed.

Lemma next_missing shared pin n c s k : related shared pin n c s -> iterators c !! k = None -> places s !! k = None.
Proof. intros HR%related_length Hk. apply lookup_ge_None in Hk. apply lookup_ge_None. lia. Qed.

Lemma next_present shared pin n c s k iter : related shared pin n c s -> iterators c !! k = Some iter -> exists p, places s !! k = Some p.
Proof. intros HR%related_length Hk%lookup_lt_Some. apply lookup_lt_is_Some_2. lia. Qed.

Lemma mapNext_related pin n c s k : related false pin n c s ->
  (mapStep env c (NextOf k)).1 = (specStep false notMapIterator s (NextOf k)).1 /\ related false pin (S n) (mapStep env c (NextOf k)).2 (specStep false notMapIterator s (NextOf k)).2.
Proof.
  intros HR. cbn [mapStep specStep]. unfold BuiltinsMap.Next. destruct (iterators c !! k) as [iter|] eqn:Ek.
  - destruct (next_present _ _ _ _ _ _ _ HR Ek) as [p Hp]. rewrite Hp. change (JSMapIterator.NextInternal (tables c) iter) with (nextWith JSMapIterator.itemAt (tables c) iter).
    destruct (observe_ok c Yields _ _ (next_related false JSMapIterator.itemAt pin n c s k iter p HR Ek Hp item_of_map)) as (o & c' & -> & -> & HR'). cbn. by destruct (specNext (mapData s) p).
  - rewrite (next_missing _ _ _ _ _ _ HR Ek). cbn. split; [done|by apply related_next_call].
Qed.

Lemma setNext_related pin n c s k : related true pin n c s ->
  (setStep env c (NextOf k)).1 = (specStep true notSetIterator s (NextOf k)).1 /\ related true pin (S n) (setStep env c (NextOf k)).2 (specStep true notSetIterator s (NextOf k)).2.
Proof.
  intros HR. cbn [setStep specStep]. unfold BuiltinsSet.Next. destruct (iterators c !! k) as [iter|] eqn:Ek.
  - destruct (next_present _ _ _ _ _ _ _ HR Ek) as [p Hp]. rewrite Hp, set_next.
    destruct (observe_ok c Yields _ _ (next_related true setItem pin n c s k iter p HR Ek Hp item_of_set)) as (o & c' & -> & -> & HR'). cbn. by destruct (specNext (mapData s) p).
  - rewrite (next_missing _ _ _ _ _ _ HR Ek). cbn. split; [done|by apply related_next_call].
Qed.

Lemma iterateStep_related shared pin n c s kind : related shared pin n c s ->
  countOf (length (iterators c)) = countOf (length (places s)) /\
  related shared pin (S n) (withIterators c (iterators c ++ [mkHashIterator (Some (linkedTable c)) 0 kind])) (mkSpec (mapData s) (places s ++ [(Some 0%nat, kind)])).
Proof. intros HR. rewrite (related_length _ _ _ _ _ HR). split; [done|by apply iterate_related]. Qed.

Lemma mapStep_related pin n c s op : related false pin n c s -> Z.of_nat n < 2 ^ 25 -> usesKeys op ->
  (mapStep env c op).1 = (specStep false notMapIterator s op).1 /\ related false pin (S n) (mapStep env c op).2 (specStep false notMapIterator s op).2.
Proof.
  intros HR Hn Hop. destruct op as [key value|key| |key|key| |kind|k]; cbn [usesKeys] in Hop.
  - cbn [mapStep specStep fst snd]. refine (observeUpdate_ok _ _ _ (fun c' => related _ pin (S n) c' _) _ eq_refl). unfold BuiltinsMap.Set_, thisOf, JSMap.Set_. rewrite bind_Ok, key_proper by done. cbv zeta iota.
    eapply returns_bind; [by apply (put_related (hash := hashOfKey env) false Hround pin n c s)|]. intros new H. done.
  - cbn [mapStep specStep fst snd]. unfold BuiltinsMap.Delete, thisOf, JSMap.Delete. rewrite bind_Ok. cbv zeta. destruct (observe_ok c Truth _ _ (delete_related false pin n c s _ HR Hop)) as (b & c' & -> & -> & HR'). by split.
  - cbn [mapStep specStep fst snd]. refine (observeUpdate_ok _ _ _ (fun c' => related _ pin (S n) c' _) _ eq_refl). unfold BuiltinsMap.Clear, thisOf, JSMap.Clear. rewrite bind_Ok. eapply returns_bind; [by apply (clear_related (K := K) (hash := hashOfKey env) false pin n c s)|]. intros new H. done.
  - cbn [mapStep specStep fst snd]. unfold BuiltinsMap.Has, thisOf, JSMap.Has. rewrite bind_Ok, (has_related false pin n c s _ HR Hop). cbn. split; [done|by apply related_next_call].
  - cbn [mapStep specStep fst snd]. unfold BuiltinsMap.Get, thisOf, JSMap.Get, JSMap.GetSize. rewrite bind_Ok, (size_related false pin n c s HR ltac:(lia)), bind_Ok. rewrite (get_related pin n c s _ HR Hop).
    destruct (Z.eqb_spec (Z.of_nat (length (live (mapData s)))) 0) as [E0|_]; cbn [observeRead fst snd]; (split; [|by apply related_next_call]); [|done].
    destruct (findKey _ (mapData s)) as [i|] eqn:Ei; [|done]. destruct (findKey_Some _ _ _ Ei) as (e & He & _). apply passed_lt in He. lia.
  - cbn [mapStep specStep fst snd]. unfold BuiltinsMap.GetSize, thisOf, JSMap.GetSize. rewrite bind_Ok, (size_related false pin n c s HR ltac:(lia)). cbn. split; [done|by apply related_next_call].
  - destruct (iterateStep_related false pin n c s kind HR). by destruct kind.
  - by apply mapNext_related.
Qed.

Lemma setStep_related pin n c s op : related true pin n c s -> Z.of_nat n < 2 ^ 25 -> usesKeys op /\ isSetOp op ->
  (setStep env c op).1 = (specStep true notSetIterator s op).1 /\ related true pin (S n) (setStep env c op).2 (specStep true notSetIterator s op).2.
Proof.
  intros HR Hn [Hop Hset]. destruct op as [key value|key| |key|key| |kind|k]; cbn [usesKeys isSetOp] in *.
  - subst value. cbn [setStep specStep fst snd]. refine (observeUpdate_ok _ _ _ (fun c' => related _ pin (S n) c' _) _ eq_refl). unfold BuiltinsSet.Add, thisOf, JSSet.Add. rewrite bind_Ok. pose proof (key_proper key Hop) as Hh. destruct (IsHole key) eqn:Ek; [by destruct key|]. cbv zeta iota.
    eapply returns_bind; [by apply (put_related (hash := hashOfKey env) true Hround pin n c s)|]. intros new H. done.
  - cbn [setStep specStep fst snd]. unfold BuiltinsSet.Delete, thisOf, JSSet.Delete. rewrite bind_Ok. cbv zeta. destruct (observe_ok c Truth _ _ (delete_related true pin n c s _ HR Hop)) as (b & c' & -> & -> & HR'). by split.
  - cbn [setStep specStep fst snd]. refine (observeUpdate_ok _ _ _ (fun c' => related _ pin (S n) c' _) _ eq_refl). unfold BuiltinsSet.Clear, thisOf, JSSet.Clear. rewrite bind_Ok. eapply returns_bind; [by apply (clear_related (K := K) (hash := hashOfKey env) true pin n c s)|]. intros new H. done.
  - cbn [setStep specStep fst snd]. unfold BuiltinsSet.Has, thisOf, JSSet.Has. rewrite bind_Ok, (has_related true pin n c s _ HR Hop). cbn. split; [done|by apply related_next_call].
  - done.
  - cbn [setStep specStep fst snd]. unfold BuiltinsSet.GetSize, thisOf, JSSet.GetSize. rewrite bind_Ok, (size_related true pin n c s HR ltac:(lia)). cbn. split; [done|by apply related_next_call].
  - destruct (iterateStep_related true pin n c s kind HR). by destruct kind.
  - by apply setNext_related.
Qed.
End Steps.
