(* ===== verification/JSMapForEach.v ===== *)
(** * forEach of Map and Set

    [forEach] with a callback that changes the collection while it is iterated: it calls back for the entries the
    language definition says, in the same order, and comes to an end whenever the callback makes finitely many
    calls.  Then the theorems about all methods of Map and Set together. *)

From Stdlib Require Import ZArith Lia.
From S2P Require Import Prelude BigIntBase Double Values Containers StringHash LinkedHashTable OptionList LinkedHashRep LinkedHashCorrect HashKeys JSMap JSMapSpec JSMapCorrect.

(** ** Scripts *)

(** The callback of a script: it makes its calls, writes down what they give, and returns or throws. *)
Definition scripted (step : Collection -> HashOp -> Observation * Collection) : HashCallback (Script * list Observation) :=
  fun '(script, log) c value key =>
    let log := log ++ [Yields (Some (ItemPair value key))] in
    match script with
    | [] => ([], log, c, None)
    | (ops, thrown) :: script => let '(os, c) := run step c ops in (script, log ++ os, c, thrown)
    end.

(** ** The loop *)

(** The loops of Map and of Set differ in what they hand to the callback. *)
Fixpoint forEachWith {W} (arguments : LinkedHashTable -> Z -> result (JSTaggedValue * JSTaggedValue)) (cb : HashCallback W) (fuel : nat) (w : W) (c : Collection) (table : nat) (index : Z) : result (W * Collection * option error) :=
  t ← get (tables c) table;
  found ← scan t index;
  match found with
  | None => Ok (w, c, None)
  | Some i =>
    '(value, key) ← arguments t i;
    match fuel with
    | O => Err OutOfFuel
    | S fuel =>
      let '(w, c, thrown) := cb w c value key in
      match thrown with
      | Some e => Ok (w, c, Some e)
      | None => '(table, index) ← updateLoop (length (tables c)) (tables c) table (i + 1); forEachWith arguments cb fuel w c table index
      end
    end
  end.

Definition mapArguments (t : LinkedHashTable) (i : Z) : result (JSTaggedValue * JSTaggedValue) := key ← GetKey t i; value ← GetValue t i; Ok (value, key).
Definition setArguments (t : LinkedHashTable) (i : Z) : result (JSTaggedValue * JSTaggedValue) := key ← GetKey t i; Ok (key, key).

Lemma map_forEach {W} (cb : HashCallback W) fuel w c table index : BuiltinsMap.forEachLoop cb fuel w c table index = forEachWith mapArguments cb fuel w c table index.
Proof.
  revert w c table index. induction fuel as [|fuel IH]; intros w c table index; cbn [BuiltinsMap.forEachLoop forEachWith]; unfold mapArguments;
  (destruct (get (tables c) table) as [t|]; [|done]); rewrite !bind_Ok; (destruct (scan t index) as [[i|]|]; [|done..]); rewrite !bind_Ok; (destruct (GetKey t i) as [key|]; [|done]); rewrite !bind_Ok; (destruct (GetValue t i) as [value|]; [|done]); rewrite !bind_Ok; [done|].
  destruct (cb w c value key) as [[w' c'] [e|]]; [done|]. destruct (updateLoop _ _ _ _) as [[table' index']|]; [|done]. rewrite !bind_Ok. apply IH.
Qed.

Lemma set_forEach {W} (cb : HashCallback W) fuel w c table index : BuiltinsSet.forEachLoop cb fuel w c table index = forEachWith setArguments cb fuel w c table index.
Proof.
  revert w c table index. induction fuel as [|fuel IH]; intros w c table index; cbn [BuiltinsSet.forEachLoop forEachWith]; unfold setArguments;
  (destruct (get (tables c) table) as [t|]; [|done]); rewrite !bind_Ok; (destruct (scan t index) as [[i|]|]; [|done..]); rewrite !bind_Ok; (destruct (GetKey t i) as [key|]; [|done]); rewrite !bind_Ok; [done|].
  destruct (cb w c key key) as [[w' c'] [e|]]; [done|]. destruct (updateLoop _ _ _ _) as [[table' index']|]; [|done]. rewrite !bind_Ok. apply IH.
Qed.

Section Loop.
  Context {env : HashEnv} {K : JSTaggedValue -> Prop}.
  Hypothesis HK : coherentKeys env K.
  Variable shared : bool.
  Variable notIterator : error.
  Variable step : Collection -> HashOp -> Observation * Collection.
  Variable okOp : HashOp -> Prop.
  Variable arguments : LinkedHashTable -> Z -> result (JSTaggedValue * JSTaggedValue).
#[local] Instance loopKeys : KeyHash env K (hashOfKey env) := coherentKeys_hash env K HK.

Notation related := (related (K := K) (hash := hashOfKey env) shared).
Notation relatedBy := (relatedBy (K := K) (hash := hashOfKey env) shared).
Notation tableOk := (tableOk (K := K) (hash := hashOfKey env) shared).
Notation spec := (specStep shared notIterator).

  Hypothesis Hstep : forall pin n c s op, related pin n c s -> Z.of_nat n < 2 ^ 25 -> okOp op -> (step c op).1 = (spec s op).1 /\ related pin (S n) (step c op).2 (spec s op).2.
  Hypothesis Harguments : forall t E i e, tableOk t E -> E !! i = Some (Some e) -> arguments t (Z.of_nat i) = Ok (e.2, e.1).

Definition okScript (script : Script) : Prop := Forall (fun call => Forall okOp call.1) script.

Lemma run_related pin n c s ops : related pin n c s -> Z.of_nat (n + length ops) <= 2 ^ 25 -> Forall okOp ops ->
  (run step c ops).1 = (runSpec spec s ops).1 /\ related pin (n + length ops) (run step c ops).2 (runSpec spec s ops).2.
Proof.
  intros HR Hb Hok. apply (run_simulates step spec okOp (fun k => related pin k) (n + length ops)); [|done|done|done].
  intros k c' s' op HR' Hk Hop. apply Hstep; [done|lia|done].
Qed.

Lemma related_more pin n m c s : related pin n c s -> (n <= m)%nat -> related pin m c s.
Proof. intros [H1 H2] Hm. split; [lia|done]. Qed.

Lemma related_unpin pin n c s : related pin n c s -> related None n c s.
Proof. intros [H1 [E [H2 H3 H4 _]]]. split; [done|]. by exists E. Qed.

(** A callback, with the place the loop is at held fast. *)
Lemma callback_related pin n c s script log e : related pin n c s -> Z.of_nat (n + scriptCalls script) <= 2 ^ 25 -> okScript script ->
  let '(script', log', c', thrown) := scripted step (script, log) c e.2 e.1 in
  exists s' m, specCallback shared notIterator script log s e = (script', log', s', thrown) /\ related pin m c' s' /\
    (m + scriptCalls script' = n + scriptCalls script)%nat /\ okScript script'.
Proof.
  intros HR Hb Hok. unfold scripted, specCallback. destruct script as [|[ops t] rest].
  - exists s, n. by split_and!.
  - apply Forall_cons in Hok as [Hops Hrest]. cbn [fst] in Hops. change (scriptCalls ((ops, t) :: rest)) with (length ops + scriptCalls rest)%nat in *.
    destruct (run_related pin n c s ops HR ltac:(lia) Hops) as [E HR']. destruct (run step c ops) as [os c'], (runSpec spec s ops) as [os' s']. cbn [fst snd] in *. subst os'.
    exists s', (n + length ops)%nat. split_and!; [done|done|lia|done].
Qed.

Lemma forEach_related fuel script log n c s E i j : relatedBy E None c s -> (length (live (mapData s)) <= n)%nat -> (i <= length E)%nat -> (j <= length (mapData s))%nat -> passed i E = passed j (mapData s) ->
  Z.of_nat (n + scriptCalls script) <= 2 ^ 25 -> okScript script ->
  match forEachWith arguments (scripted step) fuel (script, log) c (linkedTable c) (Z.of_nat i), specForEach shared notIterator fuel script log s j with
  | Ok (_, log', c', thrown), Ok (log'', s', thrown') => log' = log'' /\ thrown = thrown' /\ related None (n + scriptCalls script) c' s'
  | Err e, Err e' => e = e'
  | _, _ => False
  end.
Proof.
  revert script log n c s E i j. induction fuel as [|fuel IH]; intros script log n c s E i j HE Hn Hi Hj Hp Hb Hok;
  (destruct (related_table _ _ _ _ _ HE) as (t & Hc & Ht); pose proof (related_live _ _ _ _ _ HE) as Hlive; pose proof (nextLive_same E (mapData s) i j Hlive Hp) as Hs;
   pose proof (nextLive_spec E i) as HsE; pose proof (nextLive_spec (mapData s) j) as HsD;
   cbn [forEachWith specForEach]; rewrite (get_some _ _ _ Hc), bind_Ok, (scan_ok (hash := hashOfKey env) _ _ _ _ Ht Hi), bind_Ok;
   destruct (nextLive E i) as [[i1 e]|], (nextLive (mapData s) j) as [[j1 f]|]; try done; cbn [viewNext fmap option_fmap option_map fst];
   [destruct Hs as [<- Hp1], HsE as (_ & He & _ & _), HsD as (_ & Hf & _ & _); rewrite (Harguments t E i1 e Ht He), bind_Ok; cbv iota beta; try done
   |split_and!; [done|done|split; [lia|by exists E]]]).
  assert (i1 < length E)%nat as Hi1 by (by eapply lookup_lt_Some). assert (j1 < length (mapData s))%nat as Hj1 by (by eapply lookup_lt_Some).
  assert (related (Some (linkedTable c, Z.of_nat i1 + 1, S j1)) n c s) as HR.
  { split; [done|]. exists E. destruct HE as [H1 H2 H3 _]. split; [done..|]. split; [lia|]. exists (S i1). split_and!; [|lia|done]. replace (Z.of_nat i1 + 1) with (Z.of_nat (S i1)) by lia. constructor. }
  pose proof (callback_related _ n c s script log e HR Hb Hok) as Hcb. destruct (scripted step (script, log) c e.2 e.1) as [[[script' log'] c'] thrown].
  destruct Hcb as (s' & m & -> & HR' & Hm & Hok'). destruct thrown as [x|].
  - split_and!; [done|done|]. eapply related_more; [by eapply related_unpin|lia].
  - destruct HR' as [Hn' [E' [H1 H2 H3 (Hj' & i' & Hl & Hi' & Hp')]]]. rewrite (updateLoop_ok (hash := hashOfKey env) _ _ _ _ _ _ _ _ H1 Hl) by lia. rewrite bind_Ok, <- Hm.
    apply (IH script' log' m c' s' E' i' (S j1)); [by split|done..|lia|done].
Qed.

(** ** Termination *)

(** A call adds at most one entry to those a place has not passed. *)
Definition ahead (s : SpecState) (j : nat) : nat := length (live (mapData s)) - passed j (mapData s).

Lemma specStep_ahead s op j : (j <= length (mapData s))%nat -> (ahead (spec s op).2 j <= S (ahead s j))%nat /\ (length (mapData s) <= length (mapData (spec s op).2))%nat.
Proof.
  intros Hj. unfold ahead. destruct op as [key value|key| |key|key| |kind|k]; cbn [specStep snd mapData]; try (split; [lia|done]).
  - rewrite putEntry_passed by done. pose proof (putEntry_live_length shared (CanonicalizeKeyedCollectionKey key) value (mapData s)). split; [lia|apply putEntry_length].
  - rewrite dropEntry_length. split; [|done]. unfold dropEntry. destruct (findKey _ (mapData s)) as [i|] eqn:Ei; [|lia]. destruct (findKey_Some _ _ _ Ei) as (e & He & _).
    rewrite (passed_remove _ _ _ _ He), (live_remove _ _ _ He), length_delete by (exists e; by apply live_lookup). destruct (decide _); lia.
  - rewrite live_None, length_replicate. split; [cbn; lia|done].
  - destruct (places s !! k) as [p|]; [|split; [cbn; lia|done]]. destruct (specNext (mapData s) p). cbn [snd mapData]. split; [lia|done].
Qed.

Lemma runSpec_ahead ops s j : (j <= length (mapData s))%nat -> (ahead (runSpec spec s ops).2 j <= length ops + ahead s j)%nat /\ (length (mapData s) <= length (mapData (runSpec spec s ops).2))%nat.
Proof.
  revert s. induction ops as [|op ops IH]; intros s Hj; cbn [runSpec]; [by split; cbn; lia|]. destruct (specStep_ahead s op j Hj) as [H1 H2]. destruct (spec s op) as [o s']. cbn [snd] in *.
  destruct (IH s' ltac:(lia)) as [H3 H4]. destruct (runSpec spec s' ops) as [os s'']. cbn [snd length] in *. split; lia.
Qed.

Lemma specForEach_returns fuel script log s j : (j <= length (mapData s))%nat -> (scriptCalls script + ahead s j <= fuel)%nat -> exists r, specForEach shared notIterator fuel script log s j = Ok r.
Proof.
  revert script log s j. induction fuel as [|fuel IH]; intros script log s j Hj Hf; cbn [specForEach]; pose proof (nextLive_spec (mapData s) j) as Hs; (destruct (nextLive (mapData s) j) as [[j1 e]|]; [|by eexists]);
  destruct Hs as (_ & He & Hp & Hl); apply lookup_lt_Some in Hl as Hlt; pose proof (passed_S _ _ _ He) as Hp1; cbn in Hp1; unfold ahead in Hf; [lia|].
  assert (j1 < length (mapData s))%nat by (by eapply lookup_lt_Some). unfold specCallback. destruct script as [|[ops thrown] rest].
  - apply IH; [lia|]. unfold ahead. lia.
  - change (scriptCalls ((ops, thrown) :: rest)) with (length ops + scriptCalls rest)%nat in Hf. destruct (runSpec_ahead ops s (S j1) ltac:(lia)) as [H1 H2]. destruct (runSpec spec s ops) as [os s']. cbn [snd] in *.
    destruct thrown; [by eexists|]. apply IH; [lia|]. unfold ahead in *. lia.
Qed.
End Loop.

(** ** All calls *)

Inductive HashCall := Do (op : HashOp) | ForEachOf (script : Script).

Definition completion (thrown : option error) : Observation := match thrown with Some e => Throws e | None => Nothing end.

(** Enough for the callbacks of a script: one for each entry there is, and one for each call that may add one. *)
Definition forEachFuel (c : Collection) (script : Script) : nat :=
  scriptCalls script + match get (tables c) (linkedTable c) with Ok t => Z.to_nat (NumberOfElements t) | Err _ => 0 end.

Definition observeForEach (c : Collection) (m : result (Script * list Observation * Collection * option error)) : list Observation * Collection :=
  match m with Ok (_, log, c, thrown) => (log ++ [completion thrown], c) | Err e => ([Throws e], c) end.

Definition mapForEach (env : HashEnv) (c : Collection) (script : Script) : result (Script * list Observation * Collection * option error) :=
  BuiltinsMap.ForEach (Some c) (Some (scripted (mapStep env))) (forEachFuel c script) (script, []).

Definition setForEach (env : HashEnv) (c : Collection) (script : Script) : result (Script * list Observation * Collection * option error) :=
  BuiltinsSet.ForEach (Some c) (Some (scripted (setStep env))) (forEachFuel c script) (script, []).

Definition mapCall (env : HashEnv) (c : Collection) (call : HashCall) : list Observation * Collection :=
  match call with Do op => let '(o, c) := mapStep env c op in ([o], c) | ForEachOf script => observeForEach c (mapForEach env c script) end.

Definition setCall (env : HashEnv) (c : Collection) (call : HashCall) : list Observation * Collection :=
  match call with Do op => let '(o, c) := setStep env c op in ([o], c) | ForEachOf script => observeForEach c (setForEach env c script) end.

Definition specCall (shared : bool) (notIterator : error) (s : SpecState) (call : HashCall) : list Observation * SpecState :=
  match call with
  | Do op => let '(o, s) := specStep shared notIterator s op in ([o], s)
  | ForEachOf script =>
    match specForEach shared notIterator (scriptCalls script + length (live (mapData s))) script [] s 0 with
    | Ok (log, s, thrown) => (log ++ [completion thrown], s)
    | Err e => ([Throws e], s)
    end
  end.

Fixpoint runCalls {C} (call : C -> HashCall -> list Observation * C) (c : C) (calls : list HashCall) : list Observation * C :=
  match calls with
  | [] => ([], c)
  | x :: calls => let '(os, c) := call c x in let '(os', c) := runCalls call c calls in (os ++ os', c)
  end.

Definition callWeight (call : HashCall) : nat := match call with Do _ => 1 | ForEachOf script => scriptCalls script end.
Definition callsWeight (calls : list HashCall) : nat := sum_list (map callWeight calls).
Definition okCall (okOp : HashOp -> Prop) (call : HashCall) : Prop := match call with Do op => okOp op | ForEachOf script => okScript okOp script end.

(** The methods on operations, and [forEach] on them, agree with the specification: so do all calls. *)
Section Calls.
  Context {env : HashEnv} {K : JSTaggedValue -> Prop}.
  Hypothesis HK : coherentKeys env K.
#[local] Instance callKeys : KeyHash env K (hashOfKey env) := coherentKeys_hash env K HK.
  Variable shared : bool.
  Variable notIterator : error.
  Variable step : Collection -> HashOp -> Observation * Collection.
  Variable okOp : HashOp -> Prop.
  Variable arguments : LinkedHashTable -> Z -> result (JSTaggedValue * JSTaggedValue).

Notation related := (related (K := K) (hash := hashOfKey env) shared).

  Hypothesis Hstep : forall pin n c s op, related pin n c s -> Z.of_nat n < 2 ^ 25 -> okOp op -> (step c op).1 = (specStep shared notIterator s op).1 /\ related pin (S n) (step c op).2 (specStep shared notIterator s op).2.
  Hypothesis Harguments : forall t E i e, tableOk (K := K) (hash := hashOfKey env) shared t E -> E !! i = Some (Some e) -> arguments t (Z.of_nat i) = Ok (e.2, e.1).

Definition callWith (c : Collection) (call : HashCall) : list Observation * Collection :=
  match call with
  | Do op => let '(o, c) := step c op in ([o], c)
  | ForEachOf script => observeForEach c (forEachWith arguments (scripted step) (forEachFuel c script) (script, []) c (linkedTable c) 0)
  end.

Lemma forEachWith_ok n c s script : related None n c s -> Z.of_nat (n + scriptCalls script) <= 2 ^ 25 -> okScript okOp script ->
  returns (forEachWith arguments (scripted step) (forEachFuel c script) (script, []) c (linkedTable c) 0) (fun '(_, log, c', thrown) =>
    exists s', specForEach shared notIterator (scriptCalls script + length (live (mapData s))) script [] s 0 = Ok (log, s', thrown) /\ related None (n + scriptCalls script) c' s').
Proof.
  intros [Hn [E HE]] Hb Hok. destruct (related_table _ _ _ _ _ HE) as (t & Hc & Ht). pose proof (related_live _ _ _ _ _ HE) as Hlive.
  assert (forEachFuel c script = scriptCalls script + length (live (mapData s)))%nat as ->. { unfold forEachFuel. rewrite (get_some _ _ _ Hc), (ok_elements _ _ _ Ht), Hlive. lia. }
  pose proof (forEach_related shared notIterator step okOp arguments Hstep Harguments (scriptCalls script + length (live (mapData s))) script [] n c s E 0 0 HE Hn ltac:(lia) ltac:(lia) eq_refl Hb Hok) as H.
  destruct (specForEach_returns shared notIterator (scriptCalls script + length (live (mapData s))) script [] s 0) as [[[log s'] thrown] Hr]; [lia|unfold ahead; lia|]. rewrite Hr in *. change (Z.of_nat 0) with 0 in H.
  destruct (forEachWith _ _ _ _ _ _ _) as [[[[sc log'] c'] thrown']|]; [|done]. destruct H as (-> & -> & H). cbn [returns]. by exists s'.
Qed.

Lemma callWith_ok n c s call : related None n c s -> Z.of_nat (n + callWeight call) <= 2 ^ 25 -> okCall okOp call ->
  (callWith c call).1 = (specCall shared notIterator s call).1 /\ related None (n + callWeight call) (callWith c call).2 (specCall shared notIterator s call).2.
Proof.
  intros HR Hb Hok. destruct call as [op|script]; cbn [callWith specCall callWeight okCall] in *.
  - destruct (Hstep None n c s op HR ltac:(lia) Hok) as [E HR']. destruct (step c op), (specStep shared notIterator s op). cbn [fst snd] in *. rewrite Nat.add_1_r. by subst.
  - pose proof (forEachWith_ok n c s script HR Hb Hok) as H. destruct (forEachWith _ _ _ _ _ _ _) as [[[[sc log] c'] thrown]|]; [|done]. destruct H as (s' & -> & HR'). by split.
Qed.

Lemma callsWith_ok n c s calls : related None n c s -> Z.of_nat (n + callsWeight calls) <= 2 ^ 25 -> Forall (okCall okOp) calls ->
  (runCalls callWith c calls).1 = (runCalls (specCall shared notIterator) s calls).1 /\ related None (n + callsWeight calls) (runCalls callWith c calls).2 (runCalls (specCall shared notIterator) s calls).2.
Proof.
  revert n c s. induction calls as [|call calls IH]; intros n c s HR Hb Hok; cbn [runCalls]; [by rewrite Nat.add_0_r|]. apply Forall_cons in Hok as [Hcall Hok].
  change (callsWeight (call :: calls)) with (callWeight call + callsWeight calls)%nat in *. destruct (callWith_ok n c s call HR ltac:(lia) Hcall) as [E HR']. destruct (callWith c call) as [os c'], (specCall shared notIterator s call) as [os' s']. cbn [fst snd] in *. subst os'.
  destruct (IH (n + callWeight call)%nat c' s' HR' ltac:(lia) Hok) as [E' HR'']. destruct (runCalls callWith c' calls), (runCalls _ s' calls). cbn [fst snd] in *. subst. by rewrite Nat.add_assoc.
Qed.

Lemma new_related : returns (t ← Create shared MIN_CAPACITY; Ok (mkCollection [t] 0 [])) (fun c => related None 0 c emptySpec).
Proof.
  destruct (Create_ok (K := K) (hash := hashOfKey env) shared 2 ltac:(lia)) as (t & E & _ & Ht & _). change MIN_CAPACITY with (2 ^ 2). rewrite E, bind_Ok. cbn [returns]. split; [done|]. exists []. split; cbn; [by exists t|done|constructor|done].
Qed.
End Calls.
