(* ===== verification/JSMapAll.v ===== *)
(** * The theorems about Map and Set

    All methods of Map and of Set, [forEach] with any script included, against the specification; the end of
    [forEach]; and what [Array.from] gives of a Map iterator. *)

From Stdlib Require Import ZArith Lia.
From S2P Require Import Prelude BigIntBase Double Values Containers StringHash LinkedHashTable OptionList LinkedHashRep LinkedHashCorrect HashKeys JSMap JSMapSpec JSMapCorrect JSMapForEach.

(** ** Constructors *)

Lemma runCalls_do {C} (call : C -> HashCall -> list Observation * C) (step : C -> HashOp -> Observation * C) c ops :
  (forall c op, call c (Do op) = let '(o, c) := step c op in ([o], c)) -> runCalls call c (Do <$> ops) = run step c ops.
Proof.
  intros H. revert c. induction ops as [|op ops IH]; intros c; cbn [fmap list_fmap runCalls run]; [done|]. rewrite H. destruct (step c op) as [o c']. fold (Do <$> ops). rewrite IH. by destruct (run step c' ops).
Qed.

Lemma runCalls_app {C} (call : C -> HashCall -> list Observation * C) c xs ys :
  runCalls call c (xs ++ ys) = let '(os, c') := runCalls call c xs in let '(os', c'') := runCalls call c' ys in (os ++ os', c'').
Proof.
  revert c. induction xs as [|x xs IH]; intros c; cbn [app runCalls]; [by destruct (runCalls call c ys)|]. destruct (call c x) as [os c']. rewrite IH. destruct (runCalls call c' xs) as [os1 c1]. destruct (runCalls call c1 ys). by rewrite app_assoc.
Qed.

(** The constructor is [set] of each entry, as long as none of them throws. *)
Lemma AddEntries_run env entryOf items entries c : entryOf <$> items = Some <$> entries ->
  (run (mapStep env) c ((fun e => Put e.1 e.2) <$> entries)).1 = replicate (length entries) Nothing ->
  BuiltinsMap.AddEntriesFromIterable env entryOf c items = Ok (run (mapStep env) c ((fun e => Put e.1 e.2) <$> entries)).2.
Proof.
  revert entries c. induction items as [|item items IH]; intros entries c He Hn; [by destruct entries|]. destruct entries as [|[k v] entries]; [done|]. injection He as Hi He.
  cbn [BuiltinsMap.AddEntriesFromIterable]. rewrite Hi. cbn [fmap list_fmap run mapStep fst snd length replicate] in *. destruct (BuiltinsMap.Set_ env (Some c) k v) as [c'|]; cbn [observeUpdate] in *.
  - rewrite bind_Ok, (IH entries c' He); [|by destruct (run (mapStep env) c' _); cbn in *; injection Hn]. by destruct (run (mapStep env) c' _).
  - by destruct (run (mapStep env) c _).
Qed.

Lemma addValues_run env arrayElement items c : let arguments := (fun x => default x (arrayElement x)) <$> items in let ops := (fun x => Put x (CanonicalizeKeyedCollectionKey x)) <$> arguments in
  (run (setStep env) c ops).1 = replicate (length items) Nothing -> BuiltinsSet.addValues env arrayElement c items = Ok (run (setStep env) c ops).2.
Proof.
  cbv zeta. revert c. induction items as [|item items IH]; intros c Hn; [done|]. cbn [BuiltinsSet.addValues]. change (match arrayElement item with Some prop => prop | None => item end) with (default item (arrayElement item)).
  cbn [fmap list_fmap run setStep length replicate] in *. destruct (BuiltinsSet.Add env (Some c) (default item (arrayElement item))) as [c'|]; cbn [observeUpdate] in *.
  - rewrite bind_Ok, (IH c'); [|by destruct (run (setStep env) c' _); cbn in *; injection Hn]. by destruct (run (setStep env) c' _).
  - by destruct (run (setStep env) c _).
Qed.

(** Entries put one after the other. *)
Definition putAll (shared : bool) (entries : list pair_) : list (option pair_) := foldl (fun D e => putEntry shared (CanonicalizeKeyedCollectionKey e.1) e.2 D) [] entries.

Lemma runSpec_puts shared notIterator s entries :
  runSpec (specStep shared notIterator) s ((fun e => Put e.1 e.2) <$> entries) =
    (replicate (length entries) Nothing, mkSpec (foldl (fun D e => putEntry shared (CanonicalizeKeyedCollectionKey e.1) e.2 D) (mapData s) entries) (places s)).
Proof. revert s. induction entries as [|e entries IH]; intros s; cbn [fmap list_fmap runSpec specStep length replicate foldl]; [by destruct s|]. by rewrite IH. Qed.

Section All.
  Context {env : HashEnv} {K : JSTaggedValue -> Prop}.
  Hypothesis HK : coherentKeys env K.
  Hypothesis Hround : roundsUp env.
#[local] Instance allKeys : KeyHash env K (hashOfKey env) := coherentKeys_hash env K HK.

Definition setOk (op : HashOp) : Prop := usesKeys (K := K) op /\ isSetOp op.

Lemma map_arguments t E i e : tableOk (K := K) (hash := hashOfKey env) false t E -> E !! i = Some (Some e) -> mapArguments t (Z.of_nat i) = Ok (e.2, e.1).
Proof. intros Ht Hi. destruct e as [k v]. destruct (entry_at (hash := hashOfKey env) false t E i k v Ht Hi) as [Hk Hv]. unfold mapArguments. by rewrite Hk, bind_Ok, Hv, bind_Ok. Qed.

Lemma set_arguments t E i e : tableOk (K := K) (hash := hashOfKey env) true t E -> E !! i = Some (Some e) -> setArguments t (Z.of_nat i) = Ok (e.2, e.1).
Proof.
  intros Ht Hi. destruct e as [k v]. destruct (entry_at (hash := hashOfKey env) true t E i k v Ht Hi) as [Hk _]. destruct (ok_valid _ _ _ Ht _ _ _ Hi) as [_ Hv]. rewrite (Hv eq_refl). unfold setArguments. by rewrite Hk, bind_Ok.
Qed.

Lemma mapForEach_eq c script : mapForEach env c script = forEachWith mapArguments (scripted (mapStep env)) (forEachFuel c script) (script, []) c (linkedTable c) 0.
Proof. apply map_forEach. Qed.

Lemma setForEach_eq c script : setForEach env c script = forEachWith setArguments (scripted (setStep env)) (forEachFuel c script) (script, []) c (linkedTable c) 0.
Proof. apply set_forEach. Qed.

Lemma runCalls_ext {C} (f g : C -> HashCall -> list Observation * C) c calls : (forall c call, f c call = g c call) -> runCalls f c calls = runCalls g c calls.
Proof. intros H. revert c. induction calls as [|x calls IH]; intros c; cbn [runCalls]; [done|]. rewrite H. destruct (g c x) as [os c']. by rewrite IH. Qed.

Lemma mapCall_eq c call : mapCall env c call = callWith (mapStep env) mapArguments c call.
Proof. destruct call; [done|]. cbn [mapCall callWith]. by rewrite mapForEach_eq. Qed.

Lemma setCall_eq c call : setCall env c call = callWith (setStep env) setArguments c call.
Proof. destruct call; [done|]. cbn [setCall callWith]. by rewrite setForEach_eq. Qed.

(** Any calls on a new Map. *)
Lemma map_calls calls : Forall (okCall (usesKeys (K := K))) calls -> Z.of_nat (callsWeight calls) <= 2 ^ 25 ->
  returns BuiltinsMap.newMap (fun c => (runCalls (mapCall env) c calls).1 = (runCalls (specCall false notMapIterator) emptySpec calls).1 /\
    related (K := K) (hash := hashOfKey env) false None (callsWeight calls) (runCalls (mapCall env) c calls).2 (runCalls (specCall false notMapIterator) emptySpec calls).2).
Proof.
  intros Hok Hb. eapply returns_mono; [apply (new_related (env := env) (K := K) false)|]. intros c HR. rewrite (runCalls_ext _ _ c calls mapCall_eq).
  by apply (callsWith_ok false notMapIterator (mapStep env) (usesKeys (K := K)) mapArguments (mapStep_related HK Hround) map_arguments 0).
Qed.

Lemma set_calls calls : Forall (okCall setOk) calls -> Z.of_nat (callsWeight calls) <= 2 ^ 25 ->
  returns BuiltinsSet.newSet (fun c => (runCalls (setCall env) c calls).1 = (runCalls (specCall true notSetIterator) emptySpec calls).1 /\
    related (K := K) (hash := hashOfKey env) true None (callsWeight calls) (runCalls (setCall env) c calls).2 (runCalls (specCall true notSetIterator) emptySpec calls).2).
Proof.
  intros Hok Hb. eapply returns_mono; [apply (new_related (env := env) (K := K) true)|]. intros c HR. rewrite (runCalls_ext _ _ c calls setCall_eq).
  by apply (callsWith_ok true notSetIterator (setStep env) setOk setArguments (setStep_related HK Hround) set_arguments 0).
Qed.

Lemma map_forEach_ok n c s script : related (K := K) (hash := hashOfKey env) false None n c s -> Z.of_nat (n + scriptCalls script) <= 2 ^ 25 -> okScript (usesKeys (K := K)) script ->
  returns (mapForEach env c script) (fun _ => True).
Proof.
  intros HR Hb Hok. rewrite mapForEach_eq. eapply returns_mono; [by apply (forEachWith_ok false notMapIterator (mapStep env) (usesKeys (K := K)) mapArguments (mapStep_related HK Hround) map_arguments n c s)|]. done.
Qed.

Lemma set_forEach_ok n c s script : related (K := K) (hash := hashOfKey env) true None n c s -> Z.of_nat (n + scriptCalls script) <= 2 ^ 25 -> okScript setOk script ->
  returns (setForEach env c script) (fun _ => True).
Proof.
  intros HR Hb Hok. rewrite setForEach_eq. eapply returns_mono; [by apply (forEachWith_ok true notSetIterator (setStep env) setOk setArguments (setStep_related HK Hround) set_arguments n c s)|]. done.
Qed.

Lemma constructed_map entryOf items entries : entryOf <$> items = Some <$> entries -> Forall (fun e => K (CanonicalizeKeyedCollectionKey e.1)) entries -> Z.of_nat (length entries) <= 2 ^ 25 ->
  returns (BuiltinsMap.MapConstructor env entryOf true (IterableObject items)) (fun c => related (K := K) (hash := hashOfKey env) false None (length entries) c (mkSpec (putAll false entries) [])).
Proof.
  intros He Hk Hb. unfold BuiltinsMap.MapConstructor. cbn [negb]. eapply returns_bind; [apply (new_related (env := env) (K := K) false)|]. intros c HR.
  destruct (run_related false notMapIterator (mapStep env) (usesKeys (K := K)) (mapStep_related HK Hround) None 0 c emptySpec ((fun e => Put e.1 e.2) <$> entries) HR) as [Ho HR']; [by rewrite length_fmap|by apply Forall_fmap|].
  rewrite runSpec_puts in Ho, HR'. rewrite (AddEntries_run env entryOf items entries c He Ho). cbn [returns]. by rewrite length_fmap in HR'.
Qed.

Lemma constructed_set arrayElement iterable items : iterable = IterableObject items \/ iterable = IterablePrimitive items ->
  Forall (fun x => K (CanonicalizeKeyedCollectionKey (default x (arrayElement x)))) items -> Z.of_nat (length items) <= 2 ^ 25 ->
  returns (BuiltinsSet.SetConstructor env arrayElement true iterable) (fun c => related (K := K) (hash := hashOfKey env) true None (length items) c
    (mkSpec (putAll true ((fun x => let v := default x (arrayElement x) in (v, CanonicalizeKeyedCollectionKey v)) <$> items)) [])).
Proof.
  intros Hi Hk Hb. unfold BuiltinsSet.SetConstructor. cbn [negb]. eapply returns_bind; [apply (new_related (env := env) (K := K) true)|]. intros c HR. set (entries := _ <$> items).
  assert ((fun x => Put x (CanonicalizeKeyedCollectionKey x)) <$> ((fun x => default x (arrayElement x)) <$> items) = (fun e => Put e.1 e.2) <$> entries) as Eops by (unfold entries; by rewrite <- !list_fmap_compose).
  destruct (run_related true notSetIterator (setStep env) setOk (setStep_related HK Hround) None 0 c emptySpec ((fun e => Put e.1 e.2) <$> entries) HR) as [Ho HR'];
    [by unfold entries; rewrite !length_fmap|unfold entries; rewrite !Forall_fmap; eapply Forall_impl; [exact Hk|]; intros x Hx; by split|].
  rewrite runSpec_puts in Ho, HR'. pose proof (addValues_run env arrayElement items c) as Hadd. cbv zeta in Hadd. rewrite Eops in Hadd. rewrite length_fmap in HR'. unfold entries in Ho at 2, HR' at 1. rewrite length_fmap in Ho, HR'.
  destruct Hi as [-> | ->]; rewrite Hadd by done; done.
Qed.

(** ** Map iterators as lists *)

Lemma listLoop_ok t E kind i : tableOk (K := K) (hash := hashOfKey env) false t E -> (i <= length E)%nat ->
  JSMapIterator.listLoop (length E - i) t kind (Z.of_nat i) = Ok (itemOf kind <$> live (drop i E)).
Proof.
  intros Ht Hi. remember (length E - i)%nat as n eqn:En. revert i Hi En. induction n as [|n IH]; intros i Hi En.
  - by rewrite drop_ge by lia.
  - destruct (lookup_lt_is_Some_2 E i ltac:(lia)) as [o Ho]. destruct (linked_at _ _ _ _ _ _ (ok_linked _ _ _ Ht) Ho) as (e & He & Hv). cbn [JSMapIterator.listLoop]. unfold GetKey at 1. rewrite (hashEntryAt_eq t i e He), !bind_Ok.
    replace (Z.of_nat i + 1) with (Z.of_nat (S i)) by lia. rewrite (drop_S _ _ _ Ho). destruct o as [[k v]|].
    + destruct (viewEntry_Some _ _ _ Hv) as (-> & _ & ->). rewrite (item_of_map t E kind i (k, v) Ht Ho), bind_Ok, IH by lia. done.
    + rewrite (viewEntry_None _ Hv). by apply IH; lia.
Qed.
End All.

(** ** Theorems *)

(** C2: Up to [2 ^ 25] calls of the methods of a new Map with proper keys ([validKey]; the strings among them have
    nothing or the hash of their units in their hash field), with any number of iterators open and with [forEach]
    callbacks that call the methods and open and advance iterators themselves, give what the list of entries of the
    language definition gives: the same answers, the same items from every iterator wherever the table has moved
    to, the same callbacks in the same order. *)
Theorem Map_implements_spec env K (HK : coherentKeys env K) (Hround : roundsUp env) calls (Hok : Forall (okCall (usesKeys (K := K))) calls) (Hb : Z.of_nat (callsWeight calls) <= 2 ^ 25) :
  exists c, BuiltinsMap.newMap = Ok c /\ (runCalls (mapCall env) c calls).1 = (runCalls (specCall false notMapIterator) emptySpec calls).1.
Proof. pose proof (map_calls HK Hround calls Hok Hb) as H. destruct BuiltinsMap.newMap as [c|]; [|done]. exists c. split; [done|apply H]. Qed.

(** Numbers as keys. *)
Definition numberKey (k : JSTaggedValue) : Prop := match k with Int z => - 2 ^ 31 <= z < 2 ^ 31 | Double d => is_double d | _ => False end.

Lemma numberKey_coherent env : coherentKeys env numberKey.
Proof. intros x y Hx Hy. by destruct x, y. Qed.

(** One bucket for all keys that are no numbers. *)
Definition sampleEnv : HashEnv := mkHashEnv CommonPlatform (fun _ => 7) (fun a => a) (fun _ => 0) (fun v => 2 ^ Z.log2_up v).

Lemma sampleEnv_rounds : roundsUp sampleEnv.
Proof. by intros v _. Qed.

(** Three entries and an iterator that has passed two of them, one of which is then removed; the callbacks add and
    remove entries, so that the table moves, and the second one throws. *)
Definition sampleCalls : list HashCall :=
  [Do (Put (Int 1) (Int 10)); Do (Put (Double (2 ^ 63)) (Int 20)); Do (Put (Int 3) (Int 30)); Do (Iterate KEY); Do (NextOf 0); Do (NextOf 0); Do (Drop (Int 1));
   ForEachOf [([Put (Int 4) (Int 40); Put (Int 5) (Int 50); Drop (Int 3); NextOf 0], None); ([Put (Int 6) (Int 60)], Some (TypeError "stop"))]; Do (NextOf 0); Do (GetOf (Int 0)); Do SizeOf].

Lemma sampleCalls_ok : Forall (okCall (usesKeys (K := numberKey))) sampleCalls.
Proof. repeat constructor; cbn; unfold is_double; lia. Qed.

Lemma Map_implements_spec_witness :
  exists c, BuiltinsMap.newMap = Ok c /\ (runCalls (mapCall sampleEnv) c sampleCalls).1 =
    [Nothing; Nothing; Nothing; Count 0; Yields (Some (ItemValue (Int 1))); Yields (Some (ItemValue (Double 0))); Truth true;
     Yields (Some (ItemPair (Int 20) (Double 0))); Nothing; Nothing; Truth true; Yields (Some (ItemValue (Int 4)));
     Yields (Some (ItemPair (Int 40) (Int 4))); Nothing; Throws (TypeError "stop"); Yields (Some (ItemValue (Int 5))); Value (Int 20); Count 4].
Proof.
  destruct (Map_implements_spec sampleEnv numberKey (numberKey_coherent _) sampleEnv_rounds sampleCalls sampleCalls_ok ltac:(vm_compute; discriminate)) as (c & Hc & H).
  exists c. split; [exact Hc|]. rewrite H. vm_compute. reflexivity.
Defined.

(** C9: The same of a Set, for the same keys: it holds each value once, in the order in which it was first added. *)
Theorem Set_implements_spec env K (HK : coherentKeys env K) (Hround : roundsUp env) calls (Hok : Forall (okCall (setOk (K := K))) calls) (Hb : Z.of_nat (callsWeight calls) <= 2 ^ 25) :
  exists c, BuiltinsSet.newSet = Ok c /\ (runCalls (setCall env) c calls).1 = (runCalls (specCall true notSetIterator) emptySpec calls).1.
Proof. pose proof (set_calls HK Hround calls Hok Hb) as H. destruct BuiltinsSet.newSet as [c|]; [|done]. exists c. split; [done|apply H]. Qed.

Definition sampleAdds : list HashCall :=
  [Do (Put (Int 1) (Int 1)); Do (Put (Int 2) (Int 2)); Do (Put (Double (2 ^ 63)) (Double 0)); Do (Put (Int 2) (Int 2)); Do (Iterate KEY_AND_VALUE); Do (Drop (Int 1));
   ForEachOf [([Put (Int 5) (Int 5); NextOf 0], None)]; Do SizeOf].

Lemma sampleAdds_ok : Forall (okCall (setOk (K := numberKey))) sampleAdds.
Proof. repeat constructor; cbn; unfold is_double; lia. Qed.

Lemma Set_implements_spec_witness :
  exists c, BuiltinsSet.newSet = Ok c /\ (runCalls (setCall sampleEnv) c sampleAdds).1 =
    [Nothing; Nothing; Nothing; Nothing; Count 0; Truth true; Yields (Some (ItemPair (Int 2) (Int 2))); Nothing; Yields (Some (ItemPair (Int 2) (Int 2)));
     Yields (Some (ItemPair (Double 0) (Double 0))); Yields (Some (ItemPair (Int 5) (Int 5))); Nothing; Count 3].
Proof.
  destruct (Set_implements_spec sampleEnv numberKey (numberKey_coherent _) sampleEnv_rounds sampleAdds sampleAdds_ok ltac:(vm_compute; discriminate)) as (c & Hc & H).
  exists c. split; [exact Hc|]. rewrite H. vm_compute. reflexivity.
Defined.

(** C15: [forEach] of a Map with proper keys ([validKey]) comes to an end, after any calls and whatever its callback does to the Map, as long as the callback
    makes finitely many calls: within one callback for each entry there is and one for each call. *)
Theorem Map_forEach_ends env K (HK : coherentKeys env K) (Hround : roundsUp env) calls script (Hok : Forall (okCall (usesKeys (K := K))) calls) (Hs : okScript (usesKeys (K := K)) script)
  (Hb : Z.of_nat (callsWeight calls + scriptCalls script) <= 2 ^ 25) :
  exists c rest log c' thrown, BuiltinsMap.newMap = Ok c /\ mapForEach env (runCalls (mapCall env) c calls).2 script = Ok (rest, log, c', thrown).
Proof.
  pose proof (map_calls HK Hround calls Hok ltac:(lia)) as H. destruct BuiltinsMap.newMap as [c|]; [|done]. destruct H as [_ HR]. pose proof (map_forEach_ok HK Hround _ _ _ script HR Hb Hs) as H.
  exists c. destruct (mapForEach env _ script) as [[[[rest log] c'] thrown]|]; [|done]. by exists rest, log, c', thrown.
Qed.

Lemma Map_forEach_ends_witness :
  exists c rest log c' thrown, BuiltinsMap.newMap = Ok c /\ mapForEach sampleEnv (runCalls (mapCall sampleEnv) c sampleCalls).2 [([Put (Int 7) (Int 70); Drop (Int 4)], None)] = Ok (rest, log, c', thrown).
Proof.
  apply (Map_forEach_ends sampleEnv numberKey (numberKey_coherent _) sampleEnv_rounds sampleCalls [([Put (Int 7) (Int 70); Drop (Int 4)], None)] sampleCalls_ok); [repeat constructor; cbn; lia|vm_compute; discriminate].
Defined.

(** [Array.from] of a Map iterator, after any calls: when the iterator refers to the table in use, the items it would yield
    from its place on. *)
Theorem MapIteratorToList_in_use env K (HK : coherentKeys env K) (Hround : roundsUp env) calls (Hok : Forall (okCall (usesKeys (K := K))) calls) (Hb : Z.of_nat (callsWeight calls) <= 2 ^ 25) :
  exists c0, BuiltinsMap.newMap = Ok c0 /\
  let c := (runCalls (mapCall env) c0 calls).2 in let s := (runCalls (specCall false notMapIterator) emptySpec calls).2 in
  forall k iter, iterators c !! k = Some iter -> IteratedTable iter = Some (linkedTable c) ->
  exists j kind, places s !! k = Some (Some j, kind) /\ JSMapIterator.MapIteratorToList (tables c) iter = Ok (itemOf kind <$> live (drop j (mapData s))).
Proof.
  pose proof (map_calls HK Hround calls Hok Hb) as H. destruct BuiltinsMap.newMap as [c0|]; [|done]. exists c0. split; [done|]. cbv zeta. destruct H as [_ [_ [E HE]]]. generalize dependent (runCalls (mapCall env) c0 calls).2. intros c HE.
  generalize dependent (runCalls (specCall false notMapIterator) emptySpec calls).2. intros s HE k iter Hk Ha. destruct (related_table _ _ _ _ _ HE) as (t & Hc & Ht).
  destruct (Forall2_lookup_l _ _ _ _ _ (related_iterators _ _ _ _ _ HE) Hk) as ([place kind] & Hp & Hkind & Hrel). rewrite Ha in Hrel. cbn [fst snd] in *. destruct place as [j|]; [|done]. destruct Hrel as (Hj & i & Hl & Hi & Hpass).
  exists j, kind. split; [done|]. unfold JSMapIterator.MapIteratorToList. rewrite Ha, (get_some _ _ _ Hc), bind_Ok, (totalElements_ok _ _ _ Ht).
  assert (NextIndex iter = Z.of_nat i) as ->. { inversion Hl; subst; [congruence|]. pose proof (ok_next _ _ _ Ht). congruence. }
  replace (Z.to_nat (Z.of_nat (length E) - Z.of_nat i)) with (length E - i)%nat by lia. rewrite (listLoop_ok t E (HashIterationKind iter) i Ht Hi), Hkind. do 2 f_equal. by apply live_drop_same; [apply HE|].
Qed.

Lemma MapIteratorToList_in_use_witness :
  exists c, BuiltinsMap.newMap = Ok c /\ match iterators (runCalls (mapCall sampleEnv) c sampleCalls).2 with
    | [iter] => JSMapIterator.MapIteratorToList (tables (runCalls (mapCall sampleEnv) c sampleCalls).2) iter = Ok [ItemValue (Int 6)]
    | _ => False end.
Proof.
  destruct (MapIteratorToList_in_use sampleEnv numberKey (numberKey_coherent _) sampleEnv_rounds sampleCalls sampleCalls_ok ltac:(vm_compute; discriminate)) as (c & Hc & H).
  exists c. split; [exact Hc|]. cbv zeta in H. assert (Hc' := Hc). vm_compute in Hc'. injection Hc' as <-.
  specialize (H 0%nat). vm_compute in H. destruct (H _ eq_refl eq_refl) as (j & kind & Hp & Hl). injection Hp as <- <-. vm_compute. exact Hl.
Defined.

(** When the Map was cleared since, and had left its first table, the list is made of the table that was left: of the entries that were
    removed, all but the last. [next] of the same iterator says that there is none. *)
Theorem MapIteratorToList_stale :
  let calls := Do <$> [Put (Int 1) (Int 1); Put (Int 2) (Int 2); Put (Int 3) (Int 3); Put (Int 4) (Int 4); Put (Int 5) (Int 5); Iterate KEY; Empty_] in
  exists c iter, BuiltinsMap.newMap = Ok c /\ iterators (runCalls (mapCall sampleEnv) c calls).2 = [iter] /\
  JSMapIterator.MapIteratorToList (tables (runCalls (mapCall sampleEnv) c calls).2) iter = Ok (ItemValue <$> [Int 1; Int 2; Int 3; Int 4]) /\
  (mapStep sampleEnv (runCalls (mapCall sampleEnv) c calls).2 (NextOf 0)).1 = Yields None.
Proof. cbv zeta. eexists _, _. split; [vm_compute; reflexivity|]. split; [vm_compute; reflexivity|]. split; vm_compute; reflexivity. Qed.

(** The constructor of Map with an iterable of entries: the Map behaves as one in which the entries were put one after the other. *)
Theorem MapConstructor_correct env K (HK : coherentKeys env K) (Hround : roundsUp env) entryOf items entries (He : entryOf <$> items = Some <$> entries)
  (Hk : Forall (fun e => K (CanonicalizeKeyedCollectionKey e.1)) entries) calls (Hok : Forall (okCall (usesKeys (K := K))) calls) (Hb : Z.of_nat (length entries + callsWeight calls) <= 2 ^ 25) :
  exists c, BuiltinsMap.MapConstructor env entryOf true (IterableObject items) = Ok c /\
    (runCalls (mapCall env) c calls).1 = (runCalls (specCall false notMapIterator) (mkSpec (putAll false entries) []) calls).1.
Proof.
  pose proof (constructed_map HK Hround entryOf items entries He Hk ltac:(lia)) as H. destruct (BuiltinsMap.MapConstructor env entryOf true (IterableObject items)) as [c|]; [|done]. exists c. split; [done|].
  rewrite (runCalls_ext _ _ c calls mapCall_eq). by apply (callsWith_ok false notMapIterator (mapStep env) (usesKeys (K := K)) mapArguments (mapStep_related HK Hround) map_arguments (length entries)).
Qed.

Lemma MapConstructor_correct_witness :
  exists c, BuiltinsMap.MapConstructor sampleEnv (fun x => Some (x, Int 1)) true (IterableObject [Int 3; Int 4; Int 3]) = Ok c /\ (runCalls (mapCall sampleEnv) c [Do SizeOf; Do (GetOf (Int 4))]).1 = [Count 2; Value (Int 1)].
Proof.
  destruct (MapConstructor_correct sampleEnv numberKey (numberKey_coherent _) sampleEnv_rounds (fun x => Some (x, Int 1)) [Int 3; Int 4; Int 3] [(Int 3, Int 1); (Int 4, Int 1); (Int 3, Int 1)] eq_refl
    ltac:(repeat constructor; cbn; lia) [Do SizeOf; Do (GetOf (Int 4))] ltac:(repeat constructor; cbn; lia) ltac:(vm_compute; discriminate)) as (c & Hc & H).
  exists c. split; [exact Hc|]. rewrite H. vm_compute. reflexivity.
Defined.

(** C36: The constructor of Set puts, for an item that is an array, the second element of the array in place of the item: with an array of
    [1] and [2] as its only item, the Set has [2], and the array is not in it. *)
Theorem SetConstructor_arrays env K (HK : coherentKeys env K) (Hround : roundsUp env) arrayElement items (Hk : Forall (fun x => K (CanonicalizeKeyedCollectionKey (default x (arrayElement x)))) items)
  calls (Hok : Forall (okCall (setOk (K := K))) calls) (Hb : Z.of_nat (length items + callsWeight calls) <= 2 ^ 25) :
  exists c, BuiltinsSet.SetConstructor env arrayElement true (IterableObject items) = Ok c /\
    (runCalls (setCall env) c calls).1 = (runCalls (specCall true notSetIterator) (mkSpec (putAll true ((fun x => let v := default x (arrayElement x) in (v, CanonicalizeKeyedCollectionKey v)) <$> items)) []) calls).1.
Proof.
  pose proof (constructed_set HK Hround arrayElement (IterableObject items) items (or_introl eq_refl) Hk ltac:(lia)) as H. destruct (BuiltinsSet.SetConstructor env arrayElement true (IterableObject items)) as [c|]; [|done]. exists c. split; [done|].
  rewrite (runCalls_ext _ _ c calls setCall_eq). by apply (callsWith_ok true notSetIterator (setStep env) setOk setArguments (setStep_related HK Hround) set_arguments (length items)).
Qed.

Lemma SetConstructor_arrays_witness :
  exists c, BuiltinsSet.SetConstructor sampleEnv (fun x => match x with Object 100 => Some (Int 2) | _ => None end) true (IterableObject [Object 100]) = Ok c /\
    (runCalls (setCall sampleEnv) c [Do (HasKey (Int 2)); Do (HasKey (Object 100)); Do SizeOf]).1 = [Truth true; Truth false; Count 1].
Proof.
  destruct (SetConstructor_arrays sampleEnv (fun k => k = Int 2 \/ k = Object 100) ltac:(intros x y [->| ->] [->| ->]; cbn; (split; [lia || done|done])) sampleEnv_rounds
    (fun x => match x with Object 100 => Some (Int 2) | _ => None end) [Object 100] ltac:(repeat constructor) [Do (HasKey (Int 2)); Do (HasKey (Object 100)); Do SizeOf] ltac:(repeat (apply Forall_cons; split); [split; cbn; auto..|by apply Forall_nil]) ltac:(vm_compute; discriminate)) as (c & Hc & H).
  exists c. split; [exact Hc|]. rewrite H. vm_compute. reflexivity.
Defined.
