(* ===== verification/DateUtils.v ===== *)
(** * Calendar arithmetic

    [DateUtils] of src/ecmascript/js_date.cpp: a time in milliseconds is split into the fields of a date.  The year,
    month and day are computed in the proleptic Gregorian calendar from the number of days; the last answer is kept, and
    a day of the same month is answered from it.

    All arithmetic is on [int64_t] and does not overflow for the times a date can have; it is done on integers. *)

From Stdlib Require Import ZArith Lia.
From S2P Require Import Prelude.

(** ** Constants *)

Definition DAYS_IN_YEAR : Z := 365.
Definition MS_PER_SECOND : Z := 1000.
Definition SEC_PER_MINUTE : Z := 60.
Definition SEC_PER_HOUR : Z := 3600.
Definition MIN_PER_HOUR : Z := 60.
Definition MS_PER_MINUTE : Z := 60000.
Definition MS_PER_HOUR : Z := 3600 * 1000.
Definition MS_PER_DAY : Z := 86400000.
Definition DAY_PER_WEEK : Z := 7.
Definition DAYS_1970_TO_0000 : Z := 719468.
Definition DAYS_IN_4_YEARS : Z := 1460.
Definition DAYS_IN_100_YEARS : Z := 36524.
Definition DAYS_IN_400_YEARS : Z := 146097.
Definition MONTH_COEFFICIENT : Z := 2.
Definition MONTH_PER_YEAR : Z := 12.
Definition DAYS_FEBRUARY : Z := 28.

Definition DAYS_FROM_MONTH (leap : bool) : list Z :=
  if leap then [0; 31; 60; 91; 121; 152; 182; 213; 244; 274; 305; 335; 366]
  else [0; 31; 59; 90; 120; 151; 181; 212; 243; 273; 304; 334; 365].

(** ** Divisions *)

Definition Mod (a b : Z) : Z := let m := Z.rem a b in if m <? 0 then m + b else m.

Definition FloorDiv (a b : Z) : Z := let m := Z.rem a b in if m <? 0 then Z.quot (a - m - b) b else Z.quot (a - m) b.

Definition IsLeap (year : Z) : bool :=
  (Z.rem year 4 =? 0) && (negb (Z.rem year 100 =? 0) || (Z.rem year 400 =? 0)).

Definition GetDaysInYear (year : Z) : Z := if IsLeap year then DAYS_IN_YEAR + 1 else DAYS_IN_YEAR.

Definition GetDaysFromYear (year : Z) : Z :=
  DAYS_IN_YEAR * (year - 1970) + FloorDiv (year - 1969) 4 - FloorDiv (year - 1901) 100 + FloorDiv (year - 1601) 400.

(** ** Fields *)

(** The fields of a date, an array in the source; [TIMEZONE] is set by the callers. *)
Record DateFields := mkFields { YEAR : Z; MONTH : Z; DAYS : Z; HOUR : Z; MIN : Z; SEC : Z; MS : Z; WEEKDAY : Z }.

(** The answer that is kept; the members are [int]. *)
Record DateCache := mkCache { isCached : bool; preSumDays : Z; preDays : Z; preMonth : Z; preYear : Z }.

Definition noCache : DateCache := mkCache false 0 0 0 0.

(** The part of [GetYearFromDays] that computes: year, month and day. *)
Definition civilFromDays (days : Z) : Z * Z * Z :=
  let d := days + DAYS_1970_TO_0000 in
  let era := Z.quot (if 0 <=? d then d else d - DAYS_IN_400_YEARS + 1) DAYS_IN_400_YEARS in
  let doe := d - era * DAYS_IN_400_YEARS in
  let yoe := Z.quot (doe - Z.quot doe DAYS_IN_4_YEARS + Z.quot doe DAYS_IN_100_YEARS - Z.quot doe (DAYS_IN_400_YEARS - 1)) DAYS_IN_YEAR in
  let y := yoe + era * 400 in
  let doy := doe - (DAYS_IN_YEAR * yoe + Z.quot yoe 4 - Z.quot yoe 100) in
  let mp := Z.quot (5 * doy + MONTH_COEFFICIENT) 153 in
  let month := mp + (if mp <? 10 then 3 else -9) in
  let year := y + (if month <=? MONTH_COEFFICIENT then 1 else 0) in
  (year, month - 1, doy - Z.quot (153 * mp + 2) 5 + 1).

Definition GetYearFromDays (c : DateCache) (days : Z) : Z * Z * Z * DateCache :=
  let newDays := preDays c + (days - preSumDays c) in
  if isCached c && (1 <=? newDays) && (newDays <? DAYS_FEBRUARY) then
    (preYear c, preMonth c, newDays, mkCache true (i32 days) (i32 newDays) (preMonth c) (preYear c))
  else
    let '(year, month, realDay) := civilFromDays days in
    (year, month, realDay, mkCache true (i32 days) (i32 realDay) (i32 month) (i32 year)).

Definition TransferTimeToDate (c : DateCache) (timeMs : Z) : DateFields * DateCache :=
  let hour := Mod timeMs MS_PER_DAY in
  let days := Z.quot (timeMs - hour) MS_PER_DAY in
  let ms := Z.rem hour MS_PER_SECOND in
  let hour := Z.quot (hour - ms) MS_PER_SECOND in
  let sec := Z.rem hour SEC_PER_MINUTE in
  let hour := Z.quot (hour - sec) SEC_PER_MINUTE in
  let min := Z.rem hour SEC_PER_MINUTE in
  let hour := Z.quot (hour - min) SEC_PER_MINUTE in
  let weekday := Mod (days + 4) DAY_PER_WEEK in
  let '(year, month, day, c) := GetYearFromDays c days in
  (mkFields year month day hour min sec ms weekday, c).

(** ** The calendar *)

(** The number of the first day of a month. *)
Definition monthStart (year month : Z) : Z := nth (Z.to_nat month) (DAYS_FROM_MONTH (IsLeap year)) 0.
Definition monthLength (year month : Z) : Z := monthStart year (month + 1) - monthStart year month.

(** The day with a date, counted from 1970. *)
Definition dayNumber (year month day : Z) : Z := GetDaysFromYear year + monthStart year month + day - 1.

Definition validDate (year month day : Z) : Prop := 0 <= month < 12 /\ 1 <= day <= monthLength year month.

Lemma Mod_eq a b : 0 < b -> Mod a b = a mod b.
Proof. intros Hb. unfold Mod. pose proof (Z.quot_rem' a b). pose proof (Z.rem_bound_abs a b ltac:(lia)). destruct (Z.ltb_spec (Z.rem a b) 0); [apply (Z.mod_unique _ _ (Z.quot a b - 1)); lia|apply (Z.mod_unique _ _ (Z.quot a b)); lia]. Qed.

Lemma FloorDiv_eq a b : 0 < b -> FloorDiv a b = a / b.
Proof.
  intros Hb. unfold FloorDiv. pose proof (Z.quot_rem' a b) as Hq. pose proof (Z.rem_bound_abs a b ltac:(lia)). destruct (Z.ltb_spec (Z.rem a b) 0).
  - replace (a - Z.rem a b - b) with ((Z.quot a b - 1) * b) by lia. rewrite Z.quot_mul by lia. apply (Z.div_unique _ _ _ (Z.rem a b + b)); lia.
  - replace (a - Z.rem a b) with (Z.quot a b * b) by lia. rewrite Z.quot_mul by lia. apply (Z.div_unique _ _ _ (Z.rem a b)); lia.
Qed.

Lemma rem_zero a b : 0 < b -> (Z.rem a b =? 0) = (a mod b =? 0).
Proof. intros Hb. apply eq_iff_eq_true. rewrite !Z.eqb_eq. rewrite Z.rem_divide, Z.mod_divide by lia. done. Qed.

Lemma IsLeap_eq year : IsLeap year = (year mod 4 =? 0) && (negb (year mod 100 =? 0) || (year mod 400 =? 0)).
Proof. unfold IsLeap. by rewrite !rem_zero by lia. Qed.

Lemma GetDaysFromYear_eq year : GetDaysFromYear year = 365 * (year - 1970) + (year - 1969) / 4 - (year - 1901) / 100 + (year - 1601) / 400.
Proof. unfold GetDaysFromYear. by rewrite !FloorDiv_eq by lia. Qed.

(** The calendar repeats after 400 years. *)
Lemma IsLeap_period year k : IsLeap (year + 400 * k) = IsLeap year.
Proof.
  rewrite !IsLeap_eq. replace ((year + 400 * k) mod 4) with (year mod 4) by (replace (year + 400 * k) with (year + (100 * k) * 4) by lia; by rewrite Z.mod_add by lia).
  replace ((year + 400 * k) mod 100) with (year mod 100) by (replace (year + 400 * k) with (year + (4 * k) * 100) by lia; by rewrite Z.mod_add by lia).
  by replace ((year + 400 * k) mod 400) with (year mod 400) by (replace (year + 400 * k) with (year + k * 400) by lia; by rewrite Z.mod_add by lia).
Qed.

Lemma dayNumber_period year month day k : dayNumber (year + 400 * k) month day = dayNumber year month day + 146097 * k.
Proof.
  unfold dayNumber, monthStart. rewrite IsLeap_period, !GetDaysFromYear_eq.
  replace ((year + 400 * k - 1969) / 4) with ((year - 1969) / 4 + 100 * k) by (replace (year + 400 * k - 1969) with (year - 1969 + (100 * k) * 4) by lia; by rewrite Z.div_add by lia).
  replace ((year + 400 * k - 1901) / 100) with ((year - 1901) / 100 + 4 * k) by (replace (year + 400 * k - 1901) with (year - 1901 + (4 * k) * 100) by lia; by rewrite Z.div_add by lia).
  replace ((year + 400 * k - 1601) / 400) with ((year - 1601) / 400 + k) by (replace (year + 400 * k - 1601) with (year - 1601 + k * 400) by lia; by rewrite Z.div_add by lia).
  lia.
Qed.

(** ** Years of an era *)

(** An era begins on the first of March of a year divisible by 400, so that a leap day is the last day of its year. *)
Definition eraYearStart (yoe : Z) : Z := 365 * yoe + yoe / 4 - yoe / 100.
Definition eraDays (doe : Z) : Z := doe - doe / 1460 + doe / 36524 - doe / 146096.

Lemma eraDays_step doe : 0 <= doe -> doe + 1 < 146097 -> eraDays doe <= eraDays (doe + 1).
Proof. intros H1 H2. unfold eraDays. Z.to_euclidean_division_equations. lia. Qed.

Lemma eraDays_mono a b : 0 <= a <= b -> b < 146097 -> eraDays a <= eraDays b.
Proof.
  intros Ha Hb. replace b with (a + Z.of_nat (Z.to_nat (b - a))) in * by lia. induction (Z.to_nat (b - a)) as [|n IH]; [rewrite Z.add_0_r; lia|].
  etransitivity; [apply IH; lia|]. replace (a + Z.of_nat (S n)) with (a + Z.of_nat n + 1) by lia. apply eraDays_step; lia.
Qed.

(** The first and the last day of every year of an era are in it. *)
Definition eraYear_check (yoe : Z) : bool :=
  (eraDays (eraYearStart yoe) / 365 =? yoe) && (if yoe =? 399 then eraDays 146096 / 365 =? 399 else eraDays (eraYearStart (yoe + 1) - 1) / 365 =? yoe).

Lemma eraYear_checked yoe : 0 <= yoe < 400 -> eraYear_check yoe = true.
Proof.
  intros H. assert (forallb eraYear_check (Z.of_nat <$> seq 0 400) = true) as Hall by (vm_compute; reflexivity). rewrite forallb_forall in Hall. apply Hall.
  apply list_elem_of_In, list_elem_of_fmap. exists (Z.to_nat yoe). split; [lia|]. apply elem_of_seq. lia.
Qed.

Definition eraYearEnd (yoe : Z) : Z := if yoe =? 399 then 146097 else eraYearStart (yoe + 1).

Lemma eraYear_found doe : 0 <= doe < 146097 -> exists yoe, 0 <= yoe < 400 /\ eraYearStart yoe <= doe < eraYearEnd yoe.
Proof.
  intros H. assert (forall n, Z.of_nat n < 400 -> doe < eraYearEnd (Z.of_nat n) -> exists yoe, 0 <= yoe < 400 /\ eraYearStart yoe <= doe < eraYearEnd yoe) as Hn.
  - induction n as [|n IH]; intros Hl Hd; [exists 0; split; [lia|]; split; [change (eraYearStart 0) with 0; lia|exact Hd]|]. destruct (Z.le_gt_cases (eraYearStart (Z.of_nat (S n))) doe); [exists (Z.of_nat (S n)); lia|].
    apply IH; [lia|]. unfold eraYearEnd. destruct (Z.eqb_spec (Z.of_nat n) 399); [lia|]. by replace (Z.of_nat n + 1) with (Z.of_nat (S n)) by lia.
  - apply (Hn 399%nat); [lia|]. change (eraYearEnd (Z.of_nat 399)) with 146097. lia.
Qed.

Lemma eraYear_eq doe yoe : 0 <= doe < 146097 -> 0 <= yoe < 400 -> eraYearStart yoe <= doe < eraYearEnd yoe -> eraDays doe / 365 = yoe.
Proof.
  intros Hd Hy [H1 H2]. pose proof (eraYear_checked yoe Hy) as Hc. unfold eraYear_check in Hc. apply andb_true_iff in Hc as [Hc1%Z.eqb_eq Hc2].
  assert (0 <= eraYearStart yoe) by (unfold eraYearStart; Z.to_euclidean_division_equations; lia).
  assert (eraDays (eraYearStart yoe) <= eraDays doe) as Hlo by (apply eraDays_mono; lia). apply (Z.div_le_mono _ _ 365) in Hlo; [|lia].
  assert (eraDays doe / 365 <= yoe) as Hhi; [|lia]. unfold eraYearEnd in H2. destruct (Z.eqb_spec yoe 399) as [->|].
  - apply Z.eqb_eq in Hc2. rewrite <- Hc2. apply Z.div_le_mono; [lia|]. apply eraDays_mono; lia.
  - apply Z.eqb_eq in Hc2. etransitivity; [|apply Z.eq_le_incl, Hc2]. apply Z.div_le_mono; [lia|]. apply eraDays_mono; [lia|]. unfold eraYearStart. Z.to_euclidean_division_equations; lia.
Qed.

(** ** Months of a year *)

Ltac compute_nth := repeat match goal with |- context [nth ?n (DAYS_FROM_MONTH ?b) ?d] => let x := eval vm_compute in (nth n (DAYS_FROM_MONTH b) d) in change (nth n (DAYS_FROM_MONTH b) d) with x end.

(** [doy] counts from the first of March. *)
Definition monthIndex (doy : Z) : Z := (5 * doy + 2) / 153.
Definition marchStart (mp : Z) : Z := (153 * mp + 2) / 5.

Lemma monthIndex_spec doy : 0 <= doy < 366 -> 0 <= monthIndex doy < 12 /\ marchStart (monthIndex doy) <= doy < (if monthIndex doy =? 11 then 366 else marchStart (monthIndex doy + 1)).
Proof.
  intros H. unfold monthIndex, marchStart. split; [Z.to_euclidean_division_equations; lia|]. destruct (Z.eqb_spec ((5 * doy + 2) / 153) 11); Z.to_euclidean_division_equations; lia.
Qed.

Lemma marchFirst yoe : 0 <= yoe < 400 -> GetDaysFromYear yoe + (if IsLeap yoe then 60 else 59) = eraYearStart yoe - 719468.
Proof.
  intros H. rewrite GetDaysFromYear_eq, IsLeap_eq. unfold eraYearStart. rewrite (Z.mod_small yoe 400) by lia.
  destruct (Z.eqb_spec (yoe mod 4) 0), (Z.eqb_spec (yoe mod 100) 0), (Z.eqb_spec yoe 0); cbn [andb orb negb]; Z.to_euclidean_division_equations; lia.
Qed.

Lemma nextJanuary yoe : 0 <= yoe < 400 -> GetDaysFromYear (yoe + 1) = eraYearStart yoe + 306 - 719468.
Proof. intros H. rewrite GetDaysFromYear_eq. unfold eraYearStart. Z.to_euclidean_division_equations. lia. Qed.

(** The civil date of a day of an era, and its number. *)
Lemma civil_year yoe doy : 0 <= yoe < 400 -> 0 <= doy < 366 -> (doy = 365 -> IsLeap (yoe + 1) = true) ->
  let mp := monthIndex doy in let month := mp + (if mp <? 10 then 3 else -9) in let year := yoe + (if month <=? 2 then 1 else 0) in
  validDate year (month - 1) (doy - marchStart mp + 1) /\ dayNumber year (month - 1) (doy - marchStart mp + 1) = eraYearStart yoe + doy - 719468.
Proof.
  intros Hy Hd Hlast. cbv zeta. destruct (monthIndex_spec doy Hd) as [Hm Hs]. set (mp := monthIndex doy) in *. clearbody mp. pose proof (marchFirst yoe Hy) as Hmarch. pose proof (nextJanuary yoe Hy) as Hjan.
  unfold validDate, dayNumber, monthLength, monthStart.
  assert (mp = 0 \/ mp = 1 \/ mp = 2 \/ mp = 3 \/ mp = 4 \/ mp = 5 \/ mp = 6 \/ mp = 7 \/ mp = 8 \/ mp = 9 \/ mp = 10 \/ mp = 11) as Hcases by lia.
  repeat match type of Hcases with _ \/ _ => destruct Hcases as [->|Hcases] end; [..|subst mp]; cbv [marchStart] in *; cbn in Hs |- *;
  try match goal with |- context [if ?b then 1 else 0] => let x := eval vm_compute in b in change b with x; cbv iota end; rewrite ?Z.add_0_r;
  revert Hlast Hmarch; generalize (IsLeap yoe) (IsLeap (yoe + 1)); intros [] [] Hlast Hmarch; compute_nth; first [Z.to_euclidean_division_equations; lia|assert (doy <> 365) by (intros E; by specialize (Hlast E)); Z.to_euclidean_division_equations; lia].
Qed.

(** ** Civil dates *)

Lemma eraYear_length yoe : 0 <= yoe < 400 -> eraYearEnd yoe = eraYearStart yoe + (if IsLeap (yoe + 1) then 366 else 365).
Proof.
  intros H. unfold eraYearEnd, eraYearStart. rewrite IsLeap_eq. destruct (Z.eqb_spec yoe 399) as [->|]; [reflexivity|]. rewrite (Z.mod_small (yoe + 1) 400) by lia.
  destruct (Z.eqb_spec ((yoe + 1) mod 4) 0), (Z.eqb_spec ((yoe + 1) mod 100) 0), (Z.eqb_spec (yoe + 1) 0); cbn [andb orb negb]; Z.to_euclidean_division_equations; lia.
Qed.

(** What the code computes, by floor divisions. *)
Lemma civilFromDays_eq days : let d := days + 719468 in let era := d / 146097 in let doe := d mod 146097 in let yoe := eraDays doe / 365 in let doy := doe - eraYearStart yoe in
  let mp := monthIndex doy in let month := mp + (if mp <? 10 then 3 else -9) in
  0 <= doy -> civilFromDays days = (yoe + (if month <=? 2 then 1 else 0) + 400 * era, month - 1, doy - marchStart mp + 1).
Proof.
  cbv zeta. intros Hdoy. unfold civilFromDays, DAYS_1970_TO_0000, DAYS_IN_400_YEARS, DAYS_IN_4_YEARS, DAYS_IN_100_YEARS, DAYS_IN_YEAR, MONTH_COEFFICIENT. cbv zeta. set (d := days + 719468) in *.
  assert (Z.quot (if 0 <=? d then d else d - 146097 + 1) 146097 = d / 146097) as ->. { destruct (Z.leb_spec 0 d); Z.to_euclidean_division_equations; lia. }
  pose proof (Z.mod_pos_bound d 146097 ltac:(lia)) as Hdoe. replace (d - d / 146097 * 146097) with (d mod 146097) by (rewrite Z.mod_eq by lia; lia). set (doe := d mod 146097) in *. clearbody doe.
  rewrite !(Z.quot_div_nonneg doe) by lia. change (146097 - 1) with 146096. change (doe - doe / 1460 + doe / 36524 - doe / 146096) with (eraDays doe).
  assert (0 <= eraDays doe) as He by (unfold eraDays; Z.to_euclidean_division_equations; lia). rewrite (Z.quot_div_nonneg (eraDays doe)) by lia. set (yoe := eraDays doe / 365) in *. assert (0 <= yoe) by (apply Z.div_pos; lia). clearbody yoe.
  rewrite !(Z.quot_div_nonneg yoe) by lia. change (365 * yoe + yoe / 4 - yoe / 100) with (eraYearStart yoe). set (doy := doe - eraYearStart yoe) in *. clearbody doy.
  rewrite (Z.quot_div_nonneg (5 * doy + 2)) by lia. fold (monthIndex doy). assert (0 <= monthIndex doy) by (apply Z.div_pos; lia). rewrite (Z.quot_div_nonneg (153 * monthIndex doy + 2)) by lia. fold (marchStart (monthIndex doy)).
  f_equal. f_equal. lia.
Qed.

(** The date of a day is valid and is the date of this day. *)
Lemma civilFromDays_ok days : let '(year, month, day) := civilFromDays days in validDate year month day /\ dayNumber year month day = days.
Proof.
  pose proof (civilFromDays_eq days) as E. cbv zeta in E. set (d := days + 719468) in *. pose proof (Z.mod_pos_bound d 146097 ltac:(lia)) as Hdoe. pose proof (Z.div_mod d 146097 ltac:(lia)) as Hd.
  set (doe := d mod 146097) in *. destruct (eraYear_found doe Hdoe) as (yoe & Hy & Hr). rewrite (eraYear_eq doe yoe Hdoe Hy Hr) in E. rewrite (eraYear_length yoe Hy) in Hr. rewrite E by lia.
  destruct (civil_year yoe (doe - eraYearStart yoe) Hy) as [Hv Hn]; [destruct (IsLeap (yoe + 1)); lia|destruct (IsLeap (yoe + 1)); [done|lia]|]. cbv zeta in Hv, Hn. set (mp := monthIndex _) in *.
  split.
  - unfold validDate, monthLength, monthStart in *. by rewrite IsLeap_period.
  - rewrite dayNumber_period, Hn. unfold d in *. lia.
Qed.

(** ** A day has one date *)

Lemma monthStart_facts year : monthStart year 0 = 0 /\ monthStart year 12 = GetDaysInYear year.
Proof. unfold monthStart, GetDaysInYear. by destruct (IsLeap year). Qed.

Lemma month_cases m : 0 <= m < 12 -> m = 0 \/ m = 1 \/ m = 2 \/ m = 3 \/ m = 4 \/ m = 5 \/ m = 6 \/ m = 7 \/ m = 8 \/ m = 9 \/ m = 10 \/ m = 11.
Proof. lia. Qed.

Ltac each_month H := apply month_cases in H; repeat match type of H with _ \/ _ => destruct H as [->|H] end; [..|subst].

Lemma monthLength_bounds year month : 0 <= month < 12 -> 28 <= monthLength year month <= 31.
Proof. intros H. unfold monthLength, monthStart. each_month H; destruct (IsLeap year); vm_compute; split; congruence. Qed.

Lemma monthStart_mono year m n : 0 <= m < n -> n <= 12 -> monthStart year m + monthLength year m <= monthStart year n.
Proof.
  intros Hm Hn. unfold monthLength. replace (monthStart year m + (monthStart year (m + 1) - monthStart year m)) with (monthStart year (m + 1)) by lia.
  replace n with (m + 1 + Z.of_nat (Z.to_nat (n - m - 1))) in * by lia. induction (Z.to_nat (n - m - 1)) as [|k IH]; [rewrite Z.add_0_r; lia|].
  etransitivity; [apply IH; lia|]. pose proof (monthLength_bounds year (m + 1 + Z.of_nat k) ltac:(lia)) as Hb. unfold monthLength in Hb. replace (m + 1 + Z.of_nat k + 1) with (m + 1 + Z.of_nat (S k)) in Hb by lia. lia.
Qed.

Lemma GetDaysFromYear_next year : GetDaysFromYear (year + 1) = GetDaysFromYear year + GetDaysInYear year.
Proof.
  rewrite !GetDaysFromYear_eq. unfold GetDaysInYear, DAYS_IN_YEAR. rewrite IsLeap_eq.
  destruct (Z.eqb_spec (year mod 4) 0), (Z.eqb_spec (year mod 100) 0), (Z.eqb_spec (year mod 400) 0); cbn [andb orb negb]; Z.to_euclidean_division_equations; lia.
Qed.

Lemma GetDaysFromYear_mono y z : y <= z -> GetDaysFromYear y <= GetDaysFromYear z.
Proof.
  intros H. replace z with (y + Z.of_nat (Z.to_nat (z - y))) by lia. induction (Z.to_nat (z - y)) as [|n IH]; [rewrite Z.add_0_r; lia|]. etransitivity; [exact IH|].
  replace (y + Z.of_nat (S n)) with (y + Z.of_nat n + 1) by lia. rewrite GetDaysFromYear_next. unfold GetDaysInYear, DAYS_IN_YEAR. destruct (IsLeap _); lia.
Qed.

Lemma dayNumber_year y m d : validDate y m d -> GetDaysFromYear y <= dayNumber y m d < GetDaysFromYear (y + 1).
Proof.
  intros [Hm Hd]. unfold dayNumber. rewrite GetDaysFromYear_next. destruct (monthStart_facts y) as [H0 H12]. pose proof (monthStart_mono y m 12 ltac:(lia) ltac:(lia)).
  assert (0 <= monthStart y m). { destruct (Z.eq_dec m 0) as [->|]; [lia|]. pose proof (monthStart_mono y 0 m ltac:(lia) ltac:(lia)). pose proof (monthLength_bounds y 0 ltac:(lia)). lia. }
  lia.
Qed.

Lemma dayNumber_inj y m d y' m' d' : validDate y m d -> validDate y' m' d' -> dayNumber y m d = dayNumber y' m' d' -> (y, m, d) = (y', m', d').
Proof.
  intros H H' E. pose proof (dayNumber_year _ _ _ H). pose proof (dayNumber_year _ _ _ H').
  assert (y = y') as <-. { destruct (Z.lt_trichotomy y y') as [Hl|[Hl|Hl]]; [|done|]; [pose proof (GetDaysFromYear_mono (y + 1) y' ltac:(lia))|pose proof (GetDaysFromYear_mono (y' + 1) y ltac:(lia))]; lia. }
  destruct H as [Hm Hd], H' as [Hm' Hd']. unfold dayNumber in E.
  assert (m = m') as <-. { destruct (Z.lt_trichotomy m m') as [Hl|[Hl|Hl]]; [|done|]; [pose proof (monthStart_mono y m m' ltac:(lia) ltac:(lia))|pose proof (monthStart_mono y m' m ltac:(lia) ltac:(lia))]; lia. }
  f_equal. lia.
Qed.

Lemma civilFromDays_unique y m d : validDate y m d -> civilFromDays (dayNumber y m d) = (y, m, d).
Proof.
  intros H. pose proof (civilFromDays_ok (dayNumber y m d)) as H'. destruct (civilFromDays (dayNumber y m d)) as [[y' m'] d']. destruct H' as [Hv E]. by apply dayNumber_inj.
Qed.

(** ** The kept answer *)

(** Days whose number and year are [int]: about 5.8 million years. *)
Definition cacheable (days : Z) : Prop := - 2 ^ 31 <= days < 2 ^ 31.

Definition cacheOk (c : DateCache) : Prop := isCached c = true -> civilFromDays (preSumDays c) = (preYear c, preMonth c, preDays c).

Lemma i32_id z : - 2 ^ 31 <= z < 2 ^ 31 -> i32 z = z.
Proof.
  pow2_literal. intros H. unfold i32. pow2_literal. destruct (Z.ltb_spec (z mod 4294967296) 2147483648); Z.to_euclidean_division_equations; lia.
Qed.

Lemma GetYearFromDays_ok c days : cacheOk c -> cacheable days -> let '(y, m, d, c') := GetYearFromDays c days in (y, m, d) = civilFromDays days /\ cacheOk c'.
Proof.
  intros Hc Hd. unfold GetYearFromDays. cbv zeta. destruct (isCached c && (1 <=? preDays c + (days - preSumDays c)) && (preDays c + (days - preSumDays c) <? DAYS_FEBRUARY)) eqn:E.
  - apply andb_true_iff in E as [[Ec E1%Z.leb_le]%andb_true_iff E2%Z.ltb_lt]. specialize (Hc Ec). unfold DAYS_FEBRUARY in E2. pose proof (civilFromDays_ok (preSumDays c)) as Hv. rewrite Hc in Hv. destruct Hv as [[Hm Hday] Hn].
    set (newDays := preDays c + (days - preSumDays c)) in *. assert (validDate (preYear c) (preMonth c) newDays) as Hv by (split; [done|pose proof (monthLength_bounds (preYear c) (preMonth c) Hm); lia]).
    assert (dayNumber (preYear c) (preMonth c) newDays = days) as Hn' by (unfold dayNumber in *; lia). pose proof (civilFromDays_unique _ _ _ Hv) as Hu. rewrite Hn' in Hu. split; [done|].
    intros _. cbn. rewrite (i32_id days Hd), (i32_id newDays) by (pow2_literal; lia). done.
  - pose proof (civilFromDays_ok days) as Hv. destruct (civilFromDays days) as [[y m] d] eqn:Ecv. split; [done|]. intros _. cbn. destruct Hv as [Hv Hn]. pose proof (dayNumber_year _ _ _ Hv) as Hy. rewrite GetDaysFromYear_next in Hy.
    destruct Hv as [Hm Hday]. pose proof (monthLength_bounds y m Hm). unfold cacheable in Hd. rewrite (i32_id days Hd), (i32_id d), (i32_id m) by (pow2_literal; lia).
    rewrite i32_id; [done|]. revert Hy Hd. rewrite Hn, GetDaysFromYear_eq. unfold GetDaysInYear, DAYS_IN_YEAR. clear. intros Hy Hd. assert ((if IsLeap y then 365 + 1 else 365) <= 366) by (destruct (IsLeap y); lia).
    set (len := if IsLeap y then _ else _) in *. clearbody len. revert Hd. pow2_literal. intros Hd. Z.to_euclidean_division_equations. lia.
Qed.

(** ** Times *)

Definition validFields (f : DateFields) : Prop :=
  validDate (YEAR f) (MONTH f) (DAYS f) /\ 0 <= HOUR f < 24 /\ 0 <= MIN f < 60 /\ 0 <= SEC f < 60 /\ 0 <= MS f < 1000.

(** The milliseconds from the beginning of 1970 to a date. *)
Definition timeOf (f : DateFields) : Z :=
  dayNumber (YEAR f) (MONTH f) (DAYS f) * MS_PER_DAY + HOUR f * MS_PER_HOUR + MIN f * MS_PER_MINUTE + SEC f * MS_PER_SECOND + MS f.

(** The first of January 1970 is a Thursday. *)
Definition weekdayOf (f : DateFields) : Z := (dayNumber (YEAR f) (MONTH f) (DAYS f) + 4) mod 7.

Definition fieldsOf (t : Z) : DateFields :=
  let days := t / MS_PER_DAY in
  let ms := t mod MS_PER_DAY in
  let '(year, month, day) := civilFromDays days in
  mkFields year month day (ms / MS_PER_HOUR) (ms / MS_PER_MINUTE mod 60) (ms / MS_PER_SECOND mod 60) (ms mod MS_PER_SECOND) ((days + 4) mod 7).

(** [f] is the date of the time [t]. *)
Definition dateOfTime (t : Z) (f : DateFields) : Prop := validFields f /\ timeOf f = t /\ WEEKDAY f = weekdayOf f.

Lemma fieldsOf_ok t : dateOfTime t (fieldsOf t).
Proof.
  unfold dateOfTime, validFields, timeOf, weekdayOf, fieldsOf. pose proof (civilFromDays_ok (t / MS_PER_DAY)) as Hc. destruct (civilFromDays _) as [[y m] d]. destruct Hc as [Hv Hn]. cbn [YEAR MONTH DAYS HOUR MIN SEC MS WEEKDAY].
  rewrite Hn. unfold MS_PER_DAY, MS_PER_HOUR, MS_PER_MINUTE, MS_PER_SECOND. split; [split; [exact Hv|]|split; [|reflexivity]]; Z.to_euclidean_division_equations; lia.
Qed.

Lemma dateOfTime_inj t f g : dateOfTime t f -> dateOfTime t g -> f = g.
Proof.
  intros (Hv & Ht & Hw) (Hv' & Ht' & Hw'). destruct f as [y m d h mi se ms w], g as [y' m' d' h' mi' se' ms' w']. unfold validFields, timeOf, weekdayOf, MS_PER_DAY, MS_PER_HOUR, MS_PER_MINUTE, MS_PER_SECOND in *. cbn [YEAR MONTH DAYS HOUR MIN SEC MS WEEKDAY] in *.
  destruct Hv as (Hd & Hh & Hmi & Hse & Hms), Hv' as (Hd' & Hh' & Hmi' & Hse' & Hms'). assert (dayNumber y m d = dayNumber y' m' d') as E by lia. pose proof (dayNumber_inj _ _ _ _ _ _ Hd Hd' E) as [= <- <- <-]. f_equal; lia.
Qed.

Lemma TransferTimeToDate_ok c t : cacheOk c -> cacheable (t / MS_PER_DAY) -> exists c', TransferTimeToDate c t = (fieldsOf t, c') /\ cacheOk c'.
Proof.
  intros Hc Hd. unfold TransferTimeToDate. cbv zeta. rewrite (Mod_eq t) by (unfold MS_PER_DAY; lia). pose proof (Z.mod_pos_bound t MS_PER_DAY ltac:(done)) as Hm. pose proof (Z.div_mod t MS_PER_DAY ltac:(done)) as Ht.
  replace (t - t mod MS_PER_DAY) with (t / MS_PER_DAY * MS_PER_DAY) by lia. rewrite Z.quot_mul by done. pose proof (GetYearFromDays_ok c _ Hc Hd) as Hg. destruct (GetYearFromDays c (t / MS_PER_DAY)) as [[[y m] d] c']. destruct Hg as [Hg Hc']. exists c'. split; [|done].
  unfold fieldsOf. rewrite <- Hg. f_equal. rewrite Mod_eq by done. unfold MS_PER_DAY, SEC_PER_MINUTE, MS_PER_HOUR, MS_PER_MINUTE, MS_PER_SECOND, DAY_PER_WEEK in *. f_equal; Z.to_euclidean_division_equations; lia.
Qed.

(** The conversions of a thread, which share one kept answer. *)
Fixpoint TransferTimes (c : DateCache) (times : list Z) : list DateFields :=
  match times with
  | [] => []
  | t :: times => let '(f, c) := TransferTimeToDate c t in f :: TransferTimes c times
  end.

(** C12: Whatever times a thread has converted before, and so whatever answer it keeps, a time is converted to its date: valid
    fields that make up the time, and the day of the week. *)
Theorem TransferTimes_correct times : Forall (fun t => cacheable (t / MS_PER_DAY)) times ->
  Forall2 dateOfTime times (TransferTimes noCache times).
Proof.
  assert (cacheOk noCache) as Hc by (intros [=]). revert Hc. generalize noCache. induction times as [|t times IH]; intros c Hc Ht; [constructor|]. apply Forall_cons in Ht as [Ht Hts].
  cbn [TransferTimes]. destruct (TransferTimeToDate_ok c t Hc Ht) as (c' & -> & Hc'). constructor; [apply fieldsOf_ok|by apply IH].
Qed.

(** The second time is a day of the month that is kept, the third is in February of a leap year, the fourth before 1970. *)
Lemma TransferTimes_correct_witness :
  Forall2 dateOfTime [951609600000; 950400000000; 951782399999; -1] (TransferTimes noCache [951609600000; 950400000000; 951782399999; -1]) /\
  TransferTimes noCache [951782399999; -1] = [mkFields 2000 1 28 23 59 59 999 1; mkFields 1969 11 31 23 59 59 999 3].
Proof. split; [apply TransferTimes_correct; repeat constructor; vm_compute; congruence|vm_compute; reflexivity]. Defined.
