(* ===== verification/DateParse.v ===== *)
(** * Parsing of date strings

    src/ecmascript/date_parse.h and date_parse.cpp: a string is read as a sequence of units (numbers, words, symbols); a
    string that begins like an ISO date is parsed as one, any other by rules that accept the usual spellings.  The
    components of the date, of the time and of the time zone are collected, checked, and written to the caller's array.

    A string is the list of its character codes.  The reader's position is the rest of the string: [value_] is its head,
    or [DEL] at its end.  [UndefinedBehaviour] stands for the overflow of an [int]. *)

From Stdlib Require Import ZArith Lia.
From S2P Require Import Prelude NumberHelper DateUtils.

(** The codes of the characters of a literal. *)
Fixpoint chars (s : string) : list Z :=
  match s with
  | EmptyString => []
  | String a s => Z.of_N (Ascii.N_of_ascii a) :: chars s
  end.

Definition DEL : Z := 127.
Definition TEN : Z := 10.
Definition NUM_NINE : Z := 9.
Definition HUNDRED : Z := 100.
Definition MAX_DAYS_MONTH : Z := 31.

Definition IsBetween (n lower hign : Z) : bool := negb ((n <? lower) || (hign <? n)).

(** ** Characters *)

Module StringReader.

(** [value_]. *)
Definition value (s : list Z) : Z := match s with v :: _ => v | [] => DEL end.
Definition NextChar (s : list Z) : list Z := tail s.

Definition digit (v : Z) : bool := (48 <=? v) && (v <=? 57).
Definition alpha (v : Z) : bool := (65 <=? v) && (v <=? 122).

Definition IsDigit (s : list Z) : bool := digit (value s).
Definition IsEnd (s : list Z) : bool := value s =? DEL.
Definition IsAlpha (s : list Z) : bool := alpha (value s).
Definition IsSpaceOrTab (s : list Z) : bool := (value s =? 32) || (value s =? 9).
Definition IsChar (s : list Z) (ch : Z) : bool := value s =? ch.

Definition GetLower (ch : Z) : Z := if (65 <=? ch) && (ch <=? 90) then ch + 32 else ch.

Definition maxDecimal : Z := Z.quot (INT_MAX - NUM_NINE) TEN.

(** The first loop of [ReadNumber]: the number, the digits it has, and the rest. *)
Fixpoint readDigits (s : list Z) (num index : Z) : Z * Z * list Z :=
  match s with
  | v :: s' =>
      if digit v then
        let num := (v - 48) + num * TEN in
        let index := index + 1 in
        if maxDecimal <? num then (num, index, s) else readDigits s' num index
      else (num, index, s)
  | [] => (num, index, s)
  end.

(** The second loop. *)
Fixpoint skipDigits (s : list Z) : list Z :=
  match s with
  | v :: s' => if digit v then skipDigits s' else s
  | [] => s
  end.

Definition ReadNumber (s : list Z) : Z * Z * list Z :=
  let '(num, len, s) := readDigits s 0 0 in (num, len, skipDigits s).

(** The length of a word, its first letters (at most [size]), and the rest. *)
Fixpoint ReadAlphabet (s : list Z) (size : nat) : Z * list Z * list Z :=
  match s with
  | v :: s' =>
      if alpha v then
        let '(length, word, rest) := ReadAlphabet s' (pred size) in
        (length + 1, match size with O => [] | S _ => GetLower v :: word end, rest)
      else (0, [], s)
  | [] => (0, [], s)
  end.

End StringReader.

(** ** Units *)

Inductive DateValueType :=
| DATE_INVALID | DATE_UNKNOWN | DATE_NUMBER | DATE_SYMBOL | DATE_SPACE | DATE_STRING_END
| DATE_TIME_ZONE | DATE_TIME_FALG | DATE_MONTH | DATE_AM_PM | DATE_INVALID_WORD.

#[global] Instance DateValueType_eq_dec : EqDecision DateValueType.
Proof. solve_decision. Defined.

Record DateUnit := mkUnit { type_ : DateValueType; GetValue : Z; GetLength : Z }.

Module Unit.

Definition hasType (t : DateValueType) (u : DateUnit) : bool := bool_decide (type_ u = t).

Definition IsNumber : DateUnit -> bool := hasType DATE_NUMBER.
Definition IsStringEnd : DateUnit -> bool := hasType DATE_STRING_END.
Definition IsTimeZone : DateUnit -> bool := hasType DATE_TIME_ZONE.
Definition IsTimeFlag : DateUnit -> bool := hasType DATE_TIME_FALG.
Definition IsInvalidWord : DateUnit -> bool := hasType DATE_INVALID_WORD.
Definition IsMonth : DateUnit -> bool := hasType DATE_MONTH.
Definition IsAMOrPM : DateUnit -> bool := hasType DATE_AM_PM.
Definition IsSpaceOrTab : DateUnit -> bool := hasType DATE_SPACE.
Definition IsSymbol (ch : Z) (u : DateUnit) : bool := hasType DATE_SYMBOL u && (ch =? GetValue u).
Definition IsSign (u : DateUnit) : bool := hasType DATE_SYMBOL u && ((GetValue u =? 45) || (GetValue u =? 43)).
Definition IsSixDecimalDigit (u : DateUnit) : bool := hasType DATE_NUMBER u && (GetLength u =? 6).
Definition IsFourDecimalDigit (u : DateUnit) : bool := hasType DATE_NUMBER u && (GetLength u =? 4).
Definition IsTwoDecimalDigit (u : DateUnit) : bool := hasType DATE_NUMBER u && (GetLength u =? 2).
Definition IsWordZ (u : DateUnit) : bool := hasType DATE_TIME_ZONE u && (GetValue u =? 0).
Definition IsValidFinallyTime (u : DateUnit) : bool := IsStringEnd u || IsSign u || IsWordZ u || IsSpaceOrTab u.

Definition Number (value len : Z) : DateUnit := mkUnit DATE_NUMBER value len.
Definition Symbol (ch : Z) : DateUnit := mkUnit DATE_SYMBOL ch 1.
Definition Word (type : DateValueType) (value len : Z) : DateUnit := mkUnit type value len.
Definition Space : DateUnit := mkUnit DATE_SPACE 0 1.
Definition StringEnd : DateUnit := mkUnit DATE_STRING_END 0 0.
Definition Unknown : DateUnit := mkUnit DATE_UNKNOWN 0 1.

End Unit.

Definition MONTH_NAME : list (list Z) :=
  chars <$> ["jan"; "feb"; "mar"; "apr"; "may"; "jun"; "jul"; "aug"; "sep"; "oct"; "nov"; "dec"]%string.

(** The position of a name, counted from [i]. *)
Fixpoint indexOfName (name : list Z) (names : list (list Z)) (i : Z) : option Z :=
  match names with
  | [] => None
  | n :: names => if decide (name = n) then Some i else indexOfName name names (i + 1)
  end.

Definition MatchKeyWord (str : list Z) (strLen : Z) : DateValueType * Z :=
  if strLen =? 1 then
    if decide (str = chars "t") then (DATE_TIME_FALG, 0) else
    if decide (str = chars "z") then (DATE_TIME_ZONE, 0) else (DATE_INVALID_WORD, 0)
  else if strLen =? 3 then
    if decide (str = chars "utc" \/ str = chars "gmt") then (DATE_TIME_ZONE, 1) else
    match indexOfName str MONTH_NAME 0 with
    | Some i => (DATE_MONTH, i + 1)
    | None => (DATE_INVALID_WORD, 0)
    end
  else if strLen =? 2 then
    if decide (str = chars "am") then (DATE_AM_PM, 0) else
    if decide (str = chars "pm") then (DATE_AM_PM, 12) else (DATE_INVALID_WORD, 0)
  else (DATE_INVALID_WORD, 0).

(** ** The proxy: one unit ahead of the reader *)

Definition Read (s : list Z) : DateUnit * list Z :=
  if StringReader.IsDigit s then
    let '(num, len, s) := StringReader.ReadNumber s in (Unit.Number num len, s)
  else if StringReader.IsEnd s then (Unit.StringEnd, s)
  else if StringReader.IsChar s 58 then (Unit.Symbol 58, StringReader.NextChar s)
  else if StringReader.IsChar s 43 then (Unit.Symbol 43, StringReader.NextChar s)
  else if StringReader.IsChar s 45 then (Unit.Symbol 45, StringReader.NextChar s)
  else if StringReader.IsChar s 46 then (Unit.Symbol 46, StringReader.NextChar s)
  else if StringReader.IsAlpha s then
    let '(len, buf, s) := StringReader.ReadAlphabet s 3 in
    let minLen := if len <? 3 then len else 3 in
    let '(type, value) := MatchKeyWord buf minLen in
    (Unit.Word type value len, s)
  else if StringReader.IsSpaceOrTab s then (Unit.Space, StringReader.NextChar s)
  else (Unit.Unknown, StringReader.NextChar s).

Record DateProxy := mkProxy { GetDate : DateUnit; str_ : list Z }.

Definition newProxy (s : list Z) : DateProxy := let '(u, s) := Read s in mkProxy u s.

(** [NextDate], whose answer is the [GetDate] before. *)
Definition NextDate (p : DateProxy) : DateProxy := newProxy (str_ p).

(** ** Components *)

Record TimeZone := mkZone { sign_ : Z; hour_ : Z; min_ : Z }.

Module Zone.

Definition init : TimeZone := mkZone INT_MAX INT_MAX INT_MAX.
Definition SetSign (z : TimeZone) (sign : Z) : TimeZone := mkZone sign (hour_ z) (min_ z).
Definition SetHour (z : TimeZone) (hour : Z) : TimeZone := mkZone (sign_ z) hour (min_ z).
Definition SetMin (z : TimeZone) (min : Z) : TimeZone := mkZone (sign_ z) (hour_ z) min.
Definition SetUTC (z : TimeZone) : TimeZone := mkZone 1 0 0.
Definition IsUTC (z : TimeZone) : bool := (hour_ z =? 0) && (min_ z =? 0).
Definition IsLocal (z : TimeZone) : bool := hour_ z =? INT_MAX.

End Zone.

Definition TIME_LEN : nat := 4.
Definition DAY_LEN : nat := 3.

(** [data_] and [index_]. *)
Record TimeValue := mkTime { timeData : list Z; timeIndex : nat }.

Module Time.

Definition init : TimeValue := mkTime [0; 0; 0; 0] 0.

(** [None]: the answer false. *)
Definition SetData (t : TimeValue) (data : Z) : option TimeValue :=
  if (timeIndex t <? TIME_LEN)%nat then Some (mkTime (<[timeIndex t := data]> (timeData t)) (S (timeIndex t))) else None.

(** A call whose answer is not used. *)
Definition setData (t : TimeValue) (data : Z) : TimeValue := default t (SetData t data).

Definition FixHourForAMOrPM (t : TimeValue) (value : Z) : TimeValue :=
  let hour := nth 0 (timeData t) 0 in
  if hour <? 12 then mkTime (<[0%nat := hour + value]> (timeData t)) (timeIndex t) else t.

Definition MinuteIsValid (n : Z) : bool := IsBetween n 0 59.
Definition SecondIsValid (n : Z) : bool := IsBetween n 0 59.
Definition HourIsValid (n : Z) : bool := IsBetween n 0 24.
Definition MilliSecondIsValid (n : Z) : bool := IsBetween n 0 999.

(** [while (len > 3) { divisor *= TEN; len--; }], [n] rounds: the product is an [int]. *)
Fixpoint scaleDivisor (n : nat) (divisor : Z) : result Z :=
  match n with
  | O => Ok divisor
  | S n => if INT_MAX <? divisor * TEN then Err UndefinedBehaviour else scaleDivisor n (divisor * TEN)
  end.

Definition NormMilliSecond (sec : DateUnit) : result Z :=
  let len := GetLength sec in
  let value := GetValue sec in
  if len =? 3 then Ok value else
  if len =? 2 then Ok (value * TEN) else
  if len =? 1 then Ok (value * HUNDRED) else
  divisor ← scaleDivisor (Z.to_nat (len - 3)) 1;
  Ok (Z.quot value divisor).

Definition IsEmpty (t : TimeValue) : bool := (timeIndex t =? 0)%nat.
Definition IsValid (t : TimeValue) (n : Z) : bool :=
  ((timeIndex t =? 1)%nat && MinuteIsValid n) || ((timeIndex t =? 2)%nat && SecondIsValid n).
Definition IsValidSecond (t : TimeValue) (n : Z) : bool := (timeIndex t =? 2)%nat && SecondIsValid n.

End Time.

Record DayValue := mkDay { dayData : list Z; GetIndex : nat; month_ : Z; IsIso : bool }.

Module Day.

Definition init : DayValue := mkDay [0; 0; 0] 0 INT_MAX false.
Definition SetData (d : DayValue) (data : Z) : option DayValue :=
  if (GetIndex d <? DAY_LEN)%nat then Some (mkDay (<[GetIndex d := data]> (dayData d)) (S (GetIndex d)) (month_ d) (IsIso d)) else None.
Definition setData (d : DayValue) (data : Z) : DayValue := default d (SetData d data).
Definition SetIsoFlag (d : DayValue) (flag : bool) : DayValue := mkDay (dayData d) (GetIndex d) (month_ d) flag.
Definition SetMonth (d : DayValue) (month : Z) : DayValue := mkDay (dayData d) (GetIndex d) month (IsIso d).
Definition MonthIsValid (n : Z) : bool := IsBetween n 1 MONTH_PER_YEAR.
Definition DayIsValid (n : Z) : bool := IsBetween n 1 MAX_DAYS_MONTH.
Definition IsFull (d : DayValue) : bool := (GetIndex d =? DAY_LEN)%nat.

End Day.

(** ** Parsers *)

(** The part of [IsIsoDateTime] after the year; the day value and the proxy are changed even when the answer is false. *)
Definition isoMonthDay (proxy : DateProxy) (dayValue : DayValue) : bool * DateProxy * DayValue :=
  let '(ok, proxy, dayValue) :=
    if Unit.IsSymbol 45 (GetDate proxy) then
      let proxy := NextDate proxy in
      let mon := GetDate proxy in
      if negb (Unit.IsTwoDecimalDigit mon) then (false, proxy, dayValue) else
      let dayValue := Day.setData dayValue (GetValue mon) in
      let proxy := NextDate proxy in
      if Unit.IsSymbol 45 (GetDate proxy) then
        let proxy := NextDate proxy in
        let day := GetDate proxy in
        if negb (Unit.IsTwoDecimalDigit day) then (false, proxy, dayValue) else
        (true, NextDate proxy, Day.setData dayValue (GetValue day))
      else (true, proxy, dayValue)
    else (true, proxy, dayValue) in
  (ok && (Unit.IsTimeFlag (GetDate proxy) || Unit.IsStringEnd (GetDate proxy)), proxy, dayValue).

Definition IsIsoDateTime (proxy : DateProxy) (dayValue : DayValue) : bool * DateProxy * DayValue :=
  if Unit.IsSign (GetDate proxy) then
    let sign := GetDate proxy in
    let proxy := NextDate proxy in
    if negb (Unit.IsSixDecimalDigit (GetDate proxy)) then (false, proxy, dayValue) else
    let signYear := GetValue (GetDate proxy) in
    let proxy := NextDate proxy in
    if Unit.IsSymbol 45 sign && (signYear =? 0) then (false, proxy, dayValue) else
    isoMonthDay proxy (Day.setData dayValue (if Unit.IsSymbol 45 sign then - signYear else signYear))
  else if Unit.IsFourDecimalDigit (GetDate proxy) then
    isoMonthDay (NextDate proxy) (Day.setData dayValue (GetValue (GetDate proxy)))
  else (false, proxy, dayValue).

(** [':' mm [':' ss ['.' sss]]] of [ParseIsoDateTime], from the hour on; [None]: the answer false. *)
Definition isoTime (proxy : DateProxy) (timeValue : TimeValue) : result (option (DateProxy * TimeValue)) :=
  let hour := GetDate proxy in
  if negb (Unit.IsTwoDecimalDigit hour) then Ok None else
  let timeValue := Time.setData timeValue (GetValue hour) in
  let proxy := NextDate proxy in
  if negb (Unit.IsSymbol 58 (GetDate proxy)) then Ok None else
  let proxy := NextDate proxy in
  let min := GetDate proxy in
  if negb (Unit.IsTwoDecimalDigit min) then Ok None else
  let timeValue := Time.setData timeValue (GetValue min) in
  let proxy := NextDate proxy in
  if Unit.IsSymbol 58 (GetDate proxy) then
    let proxy := NextDate proxy in
    let second := GetDate proxy in
    if negb (Unit.IsTwoDecimalDigit second) then Ok None else
    let timeValue := Time.setData timeValue (GetValue second) in
    let proxy := NextDate proxy in
    if Unit.IsSymbol 46 (GetDate proxy) then
      let proxy := NextDate proxy in
      let milliSec := GetDate proxy in
      if negb (Unit.IsNumber milliSec) then Ok None else
      ms ← Time.NormMilliSecond milliSec;
      Ok (Some (NextDate proxy, Time.setData timeValue ms))
    else Ok (Some (proxy, timeValue))
  else Ok (Some (proxy, timeValue)).

(** The time zone of [ParseIsoDateTime]. *)
Definition isoZone (proxy : DateProxy) (timeZone : TimeZone) : option TimeZone :=
  if Unit.IsWordZ (GetDate proxy) then Some (Zone.SetUTC timeZone)
  else if Unit.IsSign (GetDate proxy) then
    let timeZone := Zone.SetSign timeZone (if Unit.IsSymbol 45 (GetDate proxy) then -1 else 1) in
    let proxy := NextDate proxy in
    let hourZone := GetDate proxy in
    if Unit.IsTwoDecimalDigit hourZone then
      let timeZone := Zone.SetHour timeZone (GetValue hourZone) in
      let proxy := NextDate proxy in
      if negb (Unit.IsSymbol 58 (GetDate proxy)) then None else
      let proxy := NextDate proxy in
      let minZone := GetDate proxy in
      if negb (Unit.IsTwoDecimalDigit minZone) then None else
      Some (Zone.SetMin timeZone (GetValue minZone))
    else if Unit.IsFourDecimalDigit hourZone then
      Some (Zone.SetMin (Zone.SetHour timeZone (Z.quot (GetValue hourZone) HUNDRED)) (Z.rem (GetValue hourZone) HUNDRED))
    else None
  else if Unit.IsStringEnd (GetDate proxy) then Some timeZone else None.

Definition ParseIsoDateTime (proxy : DateProxy) (dayValue : DayValue) (timeValue : TimeValue) (timeZone : TimeZone) :
  result (option (DayValue * TimeValue * TimeZone)) :=
  parsed ← (if Unit.IsTimeFlag (GetDate proxy) then
              r ← isoTime (NextDate proxy) timeValue;
              Ok (match r with Some (proxy, timeValue) => option_map (pair timeValue) (isoZone proxy timeZone) | None => None end)
            else Ok (Some (timeValue, timeZone)));
  Ok (match parsed with
      | Some (timeValue, timeZone) =>
          Some (Day.SetIsoFlag dayValue true, timeValue,
                if Zone.IsLocal timeZone && Time.IsEmpty timeValue then Zone.SetUTC timeZone else timeZone)
      | None => None
      end).

(** The state of the loop of [ParseLegacyDates]. *)
Record LegacyState := mkLegacy { lgProxy : DateProxy; lgNumber : bool; lgDay : DayValue; lgTime : TimeValue; lgZone : TimeZone }.

(** A number: part of a time or of a day. *)
Definition legacyNumber (num : Z) (proxy : DateProxy) (st : LegacyState) : result (option LegacyState) :=
  let dayValue := lgDay st in
  let timeValue := lgTime st in
  let timeZone := lgZone st in
  if Unit.IsSymbol 58 (GetDate proxy) then
    let proxy := NextDate proxy in
    if negb (Unit.IsNumber (GetDate proxy)) then Ok None else
    Ok ((fun timeValue => mkLegacy proxy true dayValue timeValue timeZone) <$> Time.SetData timeValue num)
  else if Unit.IsSymbol 46 (GetDate proxy) && Time.IsValidSecond timeValue num then
    let proxy := NextDate proxy in
    let timeValue := Time.setData timeValue num in
    let milliSec := GetDate proxy in
    if negb (Unit.IsNumber milliSec) then Ok None else
    ms ← Time.NormMilliSecond milliSec;
    let proxy := NextDate proxy in
    if negb (Unit.IsValidFinallyTime (GetDate proxy)) then Ok None else
    Ok (Some (mkLegacy proxy true dayValue (Time.setData timeValue ms) timeZone))
  else if Time.IsValid timeValue num then
    if negb (Unit.IsValidFinallyTime (GetDate proxy)) then Ok None else
    Ok (Some (mkLegacy proxy true dayValue (Time.setData timeValue num) timeZone))
  else
    Ok ((fun dayValue => mkLegacy proxy true dayValue timeValue timeZone) <$> Day.SetData dayValue num).

(** An offset after its sign. *)
Definition legacyOffset (proxy : DateProxy) (timeZone : TimeZone) : option (DateProxy * TimeZone) :=
  let timeNumUnit := GetDate proxy in
  if negb (Unit.IsNumber timeNumUnit) then None else
  let timeNum := GetValue timeNumUnit in
  let numLength := GetLength timeNumUnit in
  let proxy := NextDate proxy in
  if Unit.IsSymbol 58 (GetDate proxy) then
    let proxy := NextDate proxy in
    if negb (Unit.IsNumber (GetDate proxy)) then None else
    Some (NextDate proxy, Zone.SetMin (Zone.SetHour timeZone timeNum) (GetValue (GetDate proxy)))
  else if (numLength =? 1) || (numLength =? 2) then Some (proxy, Zone.SetMin (Zone.SetHour timeZone timeNum) 0)
  else if (numLength =? 3) || (numLength =? 4) then
    Some (proxy, Zone.SetMin (Zone.SetHour timeZone (Z.quot timeNum HUNDRED)) (Z.rem timeNum HUNDRED))
  else None.

(** The body of the loop on the unit [date], with the proxy after it. *)
Definition legacyUnit (date : DateUnit) (st : LegacyState) : result (option LegacyState) :=
  let '(mkLegacy proxy hasNumber dayValue timeValue timeZone) := st in
  if Unit.IsNumber date then legacyNumber (GetValue date) proxy st
  else if Unit.IsMonth date then Ok (Some (mkLegacy proxy hasNumber (Day.SetMonth dayValue (GetValue date)) timeValue timeZone))
  else if Unit.IsTimeZone date && hasNumber then Ok (Some (mkLegacy proxy hasNumber dayValue timeValue (Zone.SetUTC timeZone)))
  else if Unit.IsAMOrPM date then
    if negb (Time.IsEmpty timeValue) then Ok (Some (mkLegacy proxy hasNumber dayValue (Time.FixHourForAMOrPM timeValue (GetValue date)) timeZone))
    else if hasNumber then Ok None else Ok (Some st)
  else if Unit.IsTimeFlag date || Unit.IsInvalidWord date then
    if hasNumber || Unit.IsNumber (GetDate proxy) then Ok None else Ok (Some st)
  else if Unit.IsSign date && (negb (Time.IsEmpty timeValue) || Zone.IsUTC timeZone) then
    let timeZone := Zone.SetSign timeZone (if Unit.IsSymbol 45 date then -1 else 1) in
    Ok ((fun '(proxy, timeZone) => mkLegacy proxy hasNumber dayValue timeValue timeZone) <$> legacyOffset proxy timeZone)
  else Ok (Some st).

(** The loop; [date] is the unit taken last. *)
Fixpoint legacyLoop (fuel : nat) (date : DateUnit) (st : LegacyState) : result (option LegacyState) :=
  if Unit.IsStringEnd date then Ok (Some st) else
  match fuel with
  | O => Err OutOfFuel
  | S fuel =>
      r ← legacyUnit date st;
      match r with
      | None => Ok None
      | Some (mkLegacy proxy hasNumber dayValue timeValue timeZone) =>
          legacyLoop fuel (GetDate proxy) (mkLegacy (NextDate proxy) hasNumber dayValue timeValue timeZone)
      end
  end.

Definition ParseLegacyDates (fuel : nat) (proxy : DateProxy) (dayValue : DayValue) (timeValue : TimeValue) (timeZone : TimeZone) :
  result (option (DayValue * TimeValue * TimeZone)) :=
  r ← legacyLoop fuel (GetDate proxy) (mkLegacy (NextDate proxy) (0 <? GetIndex dayValue)%nat dayValue timeValue timeZone);
  Ok (match r with Some st => Some (lgDay st, lgTime st, lgZone st) | None => None end).

(** ** The caller's array *)

(** [TIMEZONE]: seconds, [INT_MAX] for the local zone. *)
Definition SetTimeZone (z : TimeZone) : option Z :=
  if negb (Zone.IsLocal z) then
    if negb (Time.HourIsValid (hour_ z)) || negb (Time.MinuteIsValid (min_ z)) then None else
    Some (sign_ z * (hour_ z * SEC_PER_HOUR + min_ z * SEC_PER_MINUTE))
  else Some INT_MAX.

(** [HOUR], [MIN], [SEC] and [MS]. *)
Definition SetTimeValue (t : TimeValue) : option (Z * Z * Z * Z) :=
  let get i := if (i <? timeIndex t)%nat then nth i (timeData t) 0 else 0 in
  let '(hour, min, sec, ms) := (get 0%nat, get 1%nat, get 2%nat, get 3%nat) in
  if hour =? 24 then if (min =? 0) && (sec =? 0) && (ms =? 0) then Some (hour, min, sec, ms) else None else
  if negb (Time.HourIsValid hour) || negb (Time.MinuteIsValid min) || negb (Time.SecondIsValid sec) || negb (Time.MilliSecondIsValid ms)
  then None else Some (hour, min, sec, ms).

(** The year, month and day that were meant, and whether the year may be an abbreviation. *)
Definition dayOrder (d : DayValue) : option (Z * Z * Z) :=
  let data i := if (i <? GetIndex d)%nat then nth i (dayData d) 0 else 1 in
  if month_ d =? INT_MAX then
    if IsIso d || (Day.IsFull d && Day.DayIsValid (data 2%nat) && negb (Day.MonthIsValid (data 0%nat)))
    then Some (data 0%nat, data 1%nat, data 2%nat)
    else if Day.IsFull d then Some (data 2%nat, data 0%nat, data 1%nat)
    else Some (data 0%nat, data 1%nat, data 2%nat)
  else if Day.IsFull d then None
  else if (GetIndex d =? 2)%nat then
    if negb (Day.DayIsValid (data 0%nat)) then Some (data 0%nat, month_ d, data 1%nat)
    else Some (data 1%nat, month_ d, data 0%nat)
  else Some (1, month_ d, data 0%nat).

(** [YEAR], [MONTH] and [DAYS]. *)
Definition SetDayValue (d : DayValue) : option (Z * Z * Z) :=
  if (GetIndex d =? 0)%nat then None else
  match dayOrder d with
  | None => None
  | Some (year, mon, day) =>
      let year := if negb (IsIso d) then
                    if IsBetween year 0 49 then year + 2000 else if IsBetween year 50 99 then year + 1900 else year
                  else year in
      if negb (Day.MonthIsValid mon) || negb (Day.DayIsValid day) then None else Some (year, mon - 1, day)
  end.

(** The elements of [time] that [ParseDateString] sets. *)
Record ParsedDate := mkParsed { pYear : Z; pMonth : Z; pDay : Z; pHour : Z; pMin : Z; pSec : Z; pMs : Z; pZone : Z }.

Definition collect (dayValue : DayValue) (timeValue : TimeValue) (timeZone : TimeZone) : option ParsedDate :=
  match SetTimeZone timeZone, SetTimeValue timeValue, SetDayValue dayValue with
  | Some zone, Some (hour, min, sec, ms), Some (year, month, day) => Some (mkParsed year month day hour min sec ms zone)
  | _, _, _ => None
  end.

Definition ParseDateString (str : list Z) : result (option ParsedDate) :=
  let '(isIso, proxy, dayValue) := IsIsoDateTime (newProxy str) Day.init in
  r ← (if isIso then ParseIsoDateTime proxy dayValue Time.init Zone.init
       else ParseLegacyDates (S (length str)) proxy dayValue Time.init Zone.init);
  Ok (match r with Some (dayValue, timeValue, timeZone) => collect dayValue timeValue timeZone | None => None end).

(** ** Examples *)

Example parse_iso : ParseDateString (chars "2020-02-29T12:34:56.789Z") = Ok (Some (mkParsed 2020 1 29 12 34 56 789 0)).
Proof. vm_compute. reflexivity. Qed.

Example parse_legacy : ParseDateString (chars "Sat Feb 29 2020 08:34:56 pm GMT-0830") = Ok (Some (mkParsed 2020 1 29 20 34 56 0 (-30600))).
Proof. vm_compute. reflexivity. Qed.

Example parse_local : ParseDateString (chars "2/29/20 12:30") = Ok (Some (mkParsed 2020 1 29 12 30 0 0 INT_MAX)).
Proof. vm_compute. reflexivity. Qed.
