(* ===== verification/JSDate.v ===== *)
(** * Date objects

    src/ecmascript/js_date.h and js_date.cpp, the macros for the methods of dates in src/ecmascript/ecma_macros.h, the
    constructor in src/ecmascript/builtins/builtins_date.cpp and src/ecmascript/platform/unix/time.cpp.

    A date holds its time value, [None] for NaN, and the offset of the local time once it has been asked for.  The
    conversions of local times by the C library are parameters.  A double with an integral value is an integer, rounded
    to 53 bits by every operation; [None] stands for a double that is not finite.  [UndefinedBehaviour] stands for an overflow of
    [int64_t] and for a conversion of a double that does not fit. *)

From Stdlib Require Import ZArith Lia.
From S2P Require Import Prelude Double Values BigIntNum NumberHelper StringOrder DateUtils DateParse.

(** ** Doubles with integral values *)

(** The nearest multiple of [2 ^ k]; of two, the even one. *)
Definition roundTo (k n : Z) : Z :=
  let q := n / 2 ^ k in
  let r := n mod 2 ^ k in
  let half := 2 ^ (k - 1) in
  (q + (if (half <? r) || ((half =? r) && Z.odd q) then 1 else 0)) * 2 ^ k.

Definition fl (z : Z) : option Z :=
  let n := Z.abs z in
  if n <? 2 ^ 53 then Some z else
  let m := roundTo (Z.log2 n - 52) n in
  if 2 ^ 1024 <=? m then None else Some (Z.sgn z * m).

(** [static_cast<int64_t>(a / b)] for an integral double [a] and a positive [int] [b], before the check of the range: the quotient has 53 bits. *)
Definition quotTrunc (a b : Z) : Z :=
  let n := Z.abs a in
  let k := Z.log2 (n / b) - 52 in
  let scaledUp := n * 2 ^ Z.max 0 (- k) in
  let den := b * 2 ^ Z.max 0 k in
  let q := scaledUp / den in
  let r := scaledUp mod den in
  let q := q + (if (den <? 2 * r) || ((den =? 2 * r) && Z.odd q) then 1 else 0) in
  Z.sgn a * (if 0 <=? k then q * 2 ^ k else q / 2 ^ (- k)).

Definition int64 (z : Z) : result Z := if (- 2 ^ 63 <=? z) && (z <? 2 ^ 63) then Ok z else Err UndefinedBehaviour.

(** The result of [ToNumber] on an argument: NaN, an infinity, or a double whose integer part [z] is what [TruncateDouble] leaves. *)
Inductive number := NotANumber | Infinite | Whole (z : Z).

Definition finite (n : number) : option Z := match n with Whole z => Some z | _ => None end.

(** ** Times *)

Definition MAX_TIME_IN_MS : Z := 864000000 * 10000000.
Definition NINETEEN_HUNDRED_YEAR : Z := 1900.

Definition MakeTime (hour min sec ms : option Z) : option Z :=
  hourInteger ← hour; minInteger ← min; secInteger ← sec; msInteger ← ms;
  a ← fl (hourInteger * MS_PER_HOUR); b ← fl (minInteger * MS_PER_MINUTE); ab ← fl (a + b);
  c ← fl (secInteger * MS_PER_SECOND); abc ← fl (ab + c); fl (abc + msInteger).

(** [GetDaysFromYear] on [int64_t]: if the product does not overflow, nothing else does. *)
Definition daysFromYear64 (year : Z) : result Z :=
  _ ← int64 (DAYS_IN_YEAR * (year - 1970));
  int64 (GetDaysFromYear year).

Definition MakeDay (year month date : option Z) : result (option Z) :=
  match year, month, date with
  | Some yearInteger, Some monthInteger, Some dateInteger =>
      y0 ← int64 yearInteger;
      y1 ← int64 (quotTrunc monthInteger MONTH_PER_YEAR);
      y ← int64 (y0 + y1);
      m0 ← int64 monthInteger;
      let m := Z.rem m0 MONTH_PER_YEAR in
      y ← (if m <? 0 then int64 (y - 1) else Ok y);
      let m := if m <? 0 then m + MONTH_PER_YEAR else m in
      days ← daysFromYear64 y;
      days ← int64 (days + monthStart y m);
      days ← int64 (days - 1);
      Ok (d ← fl days; fl (d + dateInteger))
  | _, _, _ => Ok None
  end.

Definition MakeDate (day time : option Z) : option Z :=
  day ← day; time ← time; d ← fl (day * MS_PER_DAY); fl (time + d).

Definition TimeClip (time : option Z) : option Z :=
  match time with
  | Some t => if (- MAX_TIME_IN_MS <=? t) && (t <=? MAX_TIME_IN_MS) then Some t else None
  | None => None
  end.

(** ** Local times *)

(** The members of [struct tm] that are set; they are [int]. *)
Record tm := mkTm { tm_sec : Z; tm_min : Z; tm_hour : Z; tm_mday : Z; tm_mon : Z; tm_year : Z }.

(** The C library: [tm_gmtoff] of [localtime_r] (none when it fails) and [mktime], both in seconds. *)
Record Clock := mkClock { localtime_r : Z -> option Z; mktime : tm -> Z }.

Definition HOUR_PER_DAY : Z := 24.
Definition MINUTE_PER_DAY : Z := 24 * 60.
Definition SECOND_PER_DAY : Z := 24 * 60 * 60.

Section Clock.
Context (clock : Clock).

Definition GetLocalOffsetFromOS (timeMs : Z) (isLocal : bool) : Z :=
  if negb isLocal then 0 else
  match localtime_r clock (Z.quot timeMs MS_PER_SECOND) with
  | None => 0
  | Some tm_gmtoff => tm_gmtoff * MS_PER_SECOND
  end.

Definition GetUTCTimestamp (year month day hour minute second millisecond : Z) : Z :=
  let '(day, hour) := if HOUR_PER_DAY <=? hour then (day + Z.quot hour HOUR_PER_DAY, hour - Z.quot hour HOUR_PER_DAY * HOUR_PER_DAY) else (day, hour) in
  let '(day, minute) := if MINUTE_PER_DAY <=? minute then (day + Z.quot minute MINUTE_PER_DAY, minute - Z.quot minute MINUTE_PER_DAY * MINUTE_PER_DAY) else (day, minute) in
  let '(day, second) := if SECOND_PER_DAY <=? second then (day + Z.quot second SECOND_PER_DAY, second - Z.quot second SECOND_PER_DAY * SECOND_PER_DAY) else (day, second) in
  let '(day, millisecond) := if MS_PER_DAY <=? millisecond then (day + Z.quot millisecond MS_PER_DAY, millisecond - Z.quot millisecond MS_PER_DAY * MS_PER_DAY) else (day, millisecond) in
  let localTime := mkTm (i32 (second + Z.quot millisecond MS_PER_SECOND)) (i32 minute) (i32 hour) (i32 day) (i32 month) (i32 year) in
  mktime clock localTime * MS_PER_SECOND + Z.rem millisecond MS_PER_SECOND.

(** ** Fields of a date object *)

Record JSDate := mkDate { TimeValue : option Z; LocalOffset : option Z }.

Definition SetTimeValue (d : JSDate) (v : option Z) : JSDate := mkDate v (LocalOffset d).
Definition SetLocalOffset (d : JSDate) (v : option Z) : JSDate := mkDate (TimeValue d) v.

(** The array of [int64_t]: [YEAR] to [WEEKDAY] and [TIMEZONE]. *)
Definition dateArray (f : DateFields) (timezone : Z) : list Z :=
  [YEAR f; MONTH f; DAYS f; HOUR f; MIN f; SEC f; MS f; WEEKDAY f; timezone].

Definition GetLocalOffsetSafely (d : JSDate) (timeMs : Z) : Z * JSDate :=
  match LocalOffset d with
  | None =>
      let localOffsetInt := GetLocalOffsetFromOS timeMs true in
      (localOffsetInt, SetLocalOffset d (Some localOffsetInt))
  | Some localOffset => (localOffset, d)
  end.

(** The fields and the value of [TIMEZONE]; none when the time value is NaN. *)
Definition CalcThisDateUnits (c : DateCache) (d : JSDate) (isLocal : bool) : option (DateFields * Z) * DateCache * JSDate :=
  match TimeValue d with
  | None => (None, c, d)
  | Some timeMs =>
      let '(tz, d) := if isLocal then GetLocalOffsetSafely d timeMs else (0, d) in
      let '(f, c) := TransferTimeToDate c (timeMs + tz) in
      (Some (f, Z.quot (- tz) MS_PER_MINUTE), c, d)
  end.

Definition GetDateUnit (c : DateCache) (d : JSDate) (code : nat) (isLocal : bool) : result (option Z) * DateCache * JSDate :=
  let '(units, c, d) := CalcThisDateUnits c d isLocal in
  (match units with
   | None => Ok None
   | Some (f, tz) => unit ← get (dateArray f tz) code; Ok (Some unit)
   end, c, d).

(** ** Setters *)

Definition CalcTimeValue (date : list Z) (isLocal : bool) : result (option Z) :=
  match date with
  | [year; month; day; hour; min; sec; ms; _; _] =>
      result ← (if isLocal then
                  year ← int64 (year - NINETEEN_HUNDRED_YEAR);
                  Ok (GetUTCTimestamp year month day hour min sec ms)
                else
                  let m := Mod month MONTH_PER_YEAR in
                  y0 ← int64 (month - m);
                  y ← int64 (year + Z.quot y0 MONTH_PER_YEAR);
                  days ← daysFromYear64 y;
                  days ← int64 (days + monthStart y m);
                  day ← int64 (day - 1);
                  days ← int64 (days + day);
                  mins ← int64 (hour * MIN_PER_HOUR);
                  mins ← int64 (mins + min);
                  secs ← int64 (mins * SEC_PER_MINUTE);
                  secs ← int64 (secs + sec);
                  msecs ← int64 (secs * MS_PER_SECOND);
                  millisecond ← int64 (msecs + ms);
                  dayMs ← int64 (days * MS_PER_DAY);
                  int64 (dayMs + millisecond));
      Ok (TimeClip (fl result))
  | _ => Err OutOfBounds
  end.

(** The overload for a year, a month and a day. *)
Definition calcDayTimeValue (year month day : Z) : result (option Z) :=
  year ← (if (year <? 0) || (HUNDRED <=? year) then int64 (year - NINETEEN_HUNDRED_YEAR) else Ok year);
  Ok (TimeClip (fl (GetUTCTimestamp year month day 0 0 0 0))).

(** [RuntimeStubs::CalcTimeValue], which compiled code calls for [new Date(year, month, day)]. *)
Definition stubCalcTimeValue (year month day : number) : result (option Z) :=
  match finite year, finite month, finite day with
  | Some year, Some month, Some day =>
      year ← int64 year; month ← int64 month; day ← int64 day;
      calcDayTimeValue year month day
  | _, _, _ => Ok None
  end.

(** The loop over the arguments, from the element [i] on; [None]: an argument is NaN.  The conversion of an argument may throw;
    user code that it runs is taken to leave the date alone. *)
Fixpoint setUnits (date : list Z) (i : nat) (args : list (result number)) : result (option (list Z)) :=
  match args with
  | [] => Ok (Some date)
  | arg :: args =>
      res ← arg;
      match res with
      | NotANumber => Ok None
      | Infinite => Err UndefinedBehaviour
      | Whole z => z ← int64 z; date ← set date i z; setUnits date (S i) args
      end
  end.

Definition CODE_FLAG : Z := 15.
Definition CODE_4_BIT : Z := 4.

Definition CalcTimeValueWithNewDateUnits (c : DateCache) (d : JSDate) (args : list (result number)) (code : Z) (isLocal : bool) :
  result (option Z) * DateCache * JSDate :=
  match args with
  | [] => (Ok None, c, d)
  | _ =>
      let firstValue := Z.land code CODE_FLAG in
      let endValue := Z.land (Z.shiftr code CODE_4_BIT) CODE_FLAG in
      let args := take (Z.to_nat (endValue - firstValue)) args in
      let '(d, isSelectLocal) :=
        match TimeValue d with
        | None => if firstValue =? 0 then (SetTimeValue d (Some 0), false) else (d, isLocal)
        | Some _ => (d, isLocal)
        end in
      let '(units, c, d) := CalcThisDateUnits c d isSelectLocal in
      let date := match units with Some (f, tz) => dateArray f tz | None => replicate 9 0 end in
      match setUnits date (Z.to_nat firstValue) args with
      | Err e => (Err e, c, d)
      | Ok None => (Ok None, c, d)
      | Ok (Some date) =>
          match TimeValue d with
          | None => (Ok None, c, d)
          | Some _ =>
              match CalcTimeValue date isLocal with
              | Err e => (Err e, c, d)
              | Ok timeMs => (Ok timeMs, c, if isSelectLocal then SetLocalOffset d None else d)
              end
          end
      end
  end.

(** The body of the setters that [SET_DATE_VALUE] declares. *)
Definition setDateValue (c : DateCache) (d : JSDate) (args : list (result number)) (code : Z) (isLocal : bool) :
  result (option Z) * DateCache * JSDate :=
  let '(result, c, d) := CalcTimeValueWithNewDateUnits c d args code isLocal in
  match result with
  | Err e => (Err e, c, d)
  | Ok v => (Ok v, c, SetTimeValue d v)
  end.

(** [BuiltinsDate::SetTime]: a missing argument is undefined, which converts to NaN. *)
Definition SetTime (d : JSDate) (arg : result number) : result (option Z) * JSDate :=
  match arg with
  | Err e => (Err e, d)
  | Ok n => let value := TimeClip (finite n) in (Ok value, SetTimeValue d value)
  end.

Definition CODE_SET_DATE : Z := 50.
Definition CODE_SET_MILLISECONDS : Z := 118.
Definition CODE_SET_SECONDS : Z := 117.
Definition CODE_SET_MINUTES : Z := 116.
Definition CODE_SET_HOURS : Z := 115.
Definition CODE_SET_MONTH : Z := 49.
Definition CODE_SET_FULL_YEAR : Z := 48.

End Clock.
