(* ===== verification/DateStrings.v ===== *)
(** * Strings and constructors of dates

    The methods of src/ecmascript/js_date.cpp that print dates, [Date.parse], [Date.UTC] and the constructor
    (src/ecmascript/builtins/builtins_date.cpp), and the steps of the methods in src/ecmascript/ecma_macros.h. *)

From Stdlib Require Import ZArith Lia.
From S2P Require Import Prelude Double Values BigIntNum NumberHelper StringOrder DateUtils DateParse JSDate.

Definition WEEK_DAY_NAME : list (list Z) := chars <$> ["Sun"; "Mon"; "Tue"; "Wed"; "Thu"; "Fri"; "Sat"]%string.
Definition MONTH_NAME : list (list Z) :=
  chars <$> ["Jan"; "Feb"; "Mar"; "Apr"; "May"; "Jun"; "Jul"; "Aug"; "Sep"; "Oct"; "Nov"; "Dec"]%string.

Definition NEG : Z := 45.
Definition PLUS : Z := 43.
Definition SPACE : Z := 32.
Definition COLON : Z := 58.
Definition POINT : Z := 46.
Definition COMMA : Z := 44.
Definition FLAG_TIME : Z := 84.
Definition FLAG_UTC : Z := 90.
Definition STR_LENGTH_YEAR : Z := 4.
Definition STR_LENGTH_OTHERS : Z := 2.
Definition MINUTE_PER_HOUR : Z := 60.

(** ** Numbers with leading zeros *)

(** The decimal numeral of an [int64_t], which has at most 19 digits. *)
Definition ToCString (n : Z) : list Z := if 0 <=? n then digitsOf 20 n else NEG :: digitsOf 20 (- n).

Definition StrToTargetLength (str : list Z) (length : Z) : list Z :=
  if hd 0 str =? NEG then
    let len := Z.of_nat (List.length str) - 1 in
    [NEG] ++ replicate (Z.to_nat (length - len)) 48 ++ tail str
  else
    let len := Z.of_nat (List.length str) in
    replicate (Z.to_nat (length - len)) 48 ++ str.

Definition AppendStrToTargetLength (str : list Z) (length : Z) (target : list Z) : list Z :=
  let len := if hd 0 str =? NEG then Z.of_nat (List.length str) - 1 else Z.of_nat (List.length str) in
  let target := if hd 0 str =? NEG then target ++ [NEG] else target in
  let target := target ++ replicate (Z.to_nat (length - len)) 48 in
  if hd 0 str =? NEG then target ++ tail str else target ++ str.

Definition ConvertAndAppend (number length : Z) (str : list Z) : list Z := AppendStrToTargetLength (ToCString number) length str.

(** [hh:mm:ss], which several of the methods append. *)
Definition appendTime (f : DateFields) (str : list Z) : list Z :=
  let str := ConvertAndAppend (HOUR f) STR_LENGTH_OTHERS str in
  let str := str ++ [COLON] in
  let str := ConvertAndAppend (MIN f) STR_LENGTH_OTHERS str in
  let str := str ++ [COLON] in
  ConvertAndAppend (SEC f) STR_LENGTH_OTHERS str.

(** The offset of the local time, [+hhmm]. *)
Definition localTimeString (localMin : Z) : list Z :=
  let '(localTime, localMin) := if 0 <=? localMin then ([PLUS], localMin) else ([NEG], - localMin) in
  let localTime := localTime ++ StrToTargetLength (ToCString (Z.quot localMin MINUTE_PER_HOUR)) STR_LENGTH_OTHERS in
  localTime ++ StrToTargetLength (ToCString (Z.rem localMin MINUTE_PER_HOUR)) STR_LENGTH_OTHERS.

(** ** Formats of the fields *)

(** [Www Mmm dd yyyy] *)
Definition dateString (f : DateFields) : result (list Z) :=
  weekday ← get WEEK_DAY_NAME (Z.to_nat (WEEKDAY f));
  month ← get MONTH_NAME (Z.to_nat (MONTH f));
  let str := weekday ++ [SPACE] ++ month ++ [SPACE] in
  let str := ConvertAndAppend (DAYS f) STR_LENGTH_OTHERS str in
  let str := str ++ [SPACE] in
  Ok (ConvertAndAppend (YEAR f) STR_LENGTH_YEAR str).

(** [hh:mm:ss GMT+hhmm] *)
Definition timeString (f : DateFields) (localMin : Z) (str : list Z) : list Z :=
  appendTime f str ++ [SPACE] ++ chars "GMT" ++ localTimeString localMin.

Definition fullString (f : DateFields) (localMin : Z) : result (list Z) :=
  str ← dateString f;
  Ok (timeString f localMin (str ++ [SPACE])).

Definition isoString (f : DateFields) : list Z :=
  let year := ToCString (YEAR f) in
  let year := if hd 0 year =? NEG then StrToTargetLength year (STR_LENGTH_YEAR + STR_LENGTH_OTHERS)
              else if STR_LENGTH_YEAR <? Z.of_nat (length year) then PLUS :: StrToTargetLength year (STR_LENGTH_YEAR + STR_LENGTH_OTHERS)
              else StrToTargetLength year STR_LENGTH_YEAR in
  let str := year ++ [NEG] in
  let str := ConvertAndAppend (MONTH f + 1) STR_LENGTH_OTHERS str in
  let str := str ++ [NEG] in
  let str := ConvertAndAppend (DAYS f) STR_LENGTH_OTHERS str in
  let str := str ++ [FLAG_TIME] in
  let str := appendTime f str in
  let str := str ++ [POINT] in
  let str := ConvertAndAppend (MS f) (STR_LENGTH_OTHERS + 1) str in
  str ++ [FLAG_UTC].

Definition utcString (f : DateFields) : result (list Z) :=
  weekday ← get WEEK_DAY_NAME (Z.to_nat (WEEKDAY f));
  month ← get MONTH_NAME (Z.to_nat (MONTH f));
  let str := weekday ++ [COMMA] ++ [SPACE] in
  let str := ConvertAndAppend (DAYS f) STR_LENGTH_OTHERS str in
  let str := str ++ [SPACE] ++ month ++ [SPACE] in
  let str := ConvertAndAppend (YEAR f) STR_LENGTH_YEAR str in
  let str := str ++ [SPACE] in
  Ok (appendTime f str ++ [SPACE] ++ chars "GMT").

Section Clock.
Context (clock : Clock).

(** ** Methods that print *)

(** The answers of the methods of a date: a Number or a string. *)
Inductive answer := ANumber (n : option Z) | AString (s : list Z).

Definition InvalidDate : list Z := chars "Invalid Date".

(** [f] of the fields, for [DATE_STRING]: a date whose time value is NaN has a string too. *)
Definition printWith (c : DateCache) (d : JSDate) (isLocal : bool) (print : DateFields -> JSDate -> result (list Z)) : result answer * DateCache * JSDate :=
  let '(units, c, d) := CalcThisDateUnits clock c d isLocal in
  (match units with
   | None => Ok (AString InvalidDate)
   | Some (f, _) => s ← print f d; Ok (AString s)
   end, c, d).

(** [int localMin = GetLocalOffsetSafely(thread) / MS_PER_MINUTE], after the offset has been stored. *)
Definition localMinutes (d : JSDate) : Z := i32 (Z.quot (GetLocalOffsetSafely clock d (default 0 (TimeValue d))).1 MS_PER_MINUTE).

Definition ToDateString (c : DateCache) (d : JSDate) := printWith c d true (fun f _ => dateString f).
Definition ToString (c : DateCache) (d : JSDate) := printWith c d true (fun f d => fullString f (localMinutes d)).
Definition ToTimeString (c : DateCache) (d : JSDate) := printWith c d true (fun f d => Ok (timeString f (localMinutes d) [])).
Definition ToUTCString (c : DateCache) (d : JSDate) := printWith c d false (fun f _ => utcString f).

(** [DATE_TO_STRING] *)
Definition ToISOString (c : DateCache) (d : JSDate) : result answer * DateCache * JSDate :=
  match TimeValue d with
  | None => (Err (RangeError "range error"), c, d)
  | Some _ => printWith c d false (fun f _ => Ok (isoString f))
  end.

(** [JSDate::ToDateString(thread, timeMs)] *)
Definition dateToString (c : DateCache) (timeMs : option Z) : result (list Z) * DateCache :=
  match timeMs with
  | None => (Ok InvalidDate, c)
  | Some timeMs =>
      let tz := GetLocalOffsetFromOS clock timeMs true in
      let '(f, c) := TransferTimeToDate c (timeMs + tz) in
      (fullString f (i32 (Z.quot tz MS_PER_MINUTE)), c)
  end.

(** ** Date.parse *)

Definition GetTimeFromString (str : list Z) : result (option Z) :=
  parsed ← ParseDateString str;
  match parsed with
  | None => Ok None
  | Some p =>
      timeValue ←
        (if pZone p =? INT_MAX then
           Ok (fl (GetUTCTimestamp clock (pYear p - NINETEEN_HUNDRED_YEAR) (pMonth p) (pDay p) (pHour p) (pMin p) (pSec p) (pMs p)))
         else
           day ← MakeDay (Some (pYear p)) (Some (pMonth p)) (Some (pDay p));
           let dateTime := MakeTime (Some (pHour p)) (Some (pMin p)) (Some (pSec p)) (Some (pMs p)) in
           Ok (timeValue ← MakeDate day dateTime; fl (timeValue - pZone p * MS_PER_SECOND)));
      Ok (TimeClip timeValue)
  end.

(** A string and whether it is stored in 16 bit units. *)
Record EcmaString := mkString { IsUtf16 : bool; units : list Z }.

(** [ToString] of the argument may throw. *)
Definition Parse (msg : result EcmaString) : result (option Z) :=
  str ← msg;
  if IsUtf16 str then Ok None else GetTimeFromString (units str).

(** ** Date.UTC *)

Definition UTC (args : list (result number)) : result (option Z) :=
  year ← default (Ok NotANumber) (args !! 0%nat);
  let year := match finite year with
              | Some y => Some (if (0 <=? y) && (y <=? HUNDRED - 1) then y + NINETEEN_HUNDRED_YEAR else y)
              | None => None
              end in
  month ← default (Ok (Whole 0)) (args !! 1%nat);
  date ← default (Ok (Whole 1)) (args !! 2%nat);
  hours ← default (Ok (Whole 0)) (args !! 3%nat);
  minutes ← default (Ok (Whole 0)) (args !! 4%nat);
  seconds ← default (Ok (Whole 0)) (args !! 5%nat);
  ms ← default (Ok (Whole 0)) (args !! 6%nat);
  day ← MakeDay year (finite month) (finite date);
  let time := MakeTime (finite hours) (finite minutes) (finite seconds) (finite ms) in
  Ok (TimeClip (MakeDate day time)).

(** ** The constructor *)

Definition CONSTRUCTOR_MAX_LENGTH : nat := 7.

(** The loop of [ExtractDateFields] from the element [i] on; [None]: it ended at an argument that is not a time. *)
Fixpoint extractFields (fields : list Z) (i : nat) (args : list (result number)) : result (option (list Z)) :=
  match args with
  | [] => Ok (Some fields)
  | arg :: args =>
      res ← arg;
      match TimeClip (finite res) with
      | None => Ok None
      | Some temp =>
          let field := if (i =? 0)%nat && (0 <=? temp) && (temp <? HUNDRED) then temp + NINETEEN_HUNDRED_YEAR else temp in
          fields ← set fields i field;
          extractFields fields (S i) args
      end
  end.

Definition ExtractDateFields (args : list (result number)) : result (option Z) :=
  fields ← extractFields [0; 0; 1; 0; 0; 0; 0; 0; 0] 0 (take CONSTRUCTOR_MAX_LENGTH args);
  match fields with
  | Some fields => CalcTimeValue clock fields true
  | None => Ok None
  end.

(** A single argument: a date, or a value with its [ToPrimitive] (a string or the Number it converts to) and its [ToString]. *)
Inductive dateArgument :=
| DateArgument (d : JSDate)
| ValueArgument (primitive : result (EcmaString + number)) (string : result EcmaString).

(** The arguments of [new Date()], [new Date(value)] and [new Date(year, month, ...)]. *)
Inductive constructorArguments :=
| NoArguments
| OneArgument (a : dateArgument)
| MoreArguments (args : list (result number)).

(** [Date] called as a function or as a constructor; [now] is the time of the system. *)
Definition DateConstructor (c : DateCache) (newTarget : bool) (now : Z) (args : constructorArguments) : result (list Z + JSDate) * DateCache :=
  if negb newTarget then
    let '(str, c) := dateToString c (Some now) in (s ← str; Ok (inl s), c)
  else
    (timeValue ←
       match args with
       | NoArguments => Ok (Some now)
       | OneArgument (DateArgument d) => Ok (TimeValue d)
       | OneArgument (ValueArgument primitive string) =>
           p ← primitive;
           match p with
           | inl _ => Parse string
           | inr n => Ok (TimeClip (finite n))
           end
       | MoreArguments args => ExtractDateFields args
       end;
     Ok (inr (mkDate timeValue None)), c).

End Clock.

(** ** Examples *)

(** A clock without an offset, whose [mktime] counts the fields it is given. *)
Definition utcClock : Clock := mkClock (fun _ => Some 0)
  (fun t => dayNumber (tm_year t + 1900) (tm_mon t) (tm_mday t) * 86400 + tm_hour t * 3600 + tm_min t * 60 + tm_sec t).

Example iso_2000 : (ToISOString utcClock noCache (mkDate (Some 951782399999) None)).1.1 = Ok (AString (chars "2000-02-28T23:59:59.999Z")).
Proof. vm_compute. reflexivity. Qed.

Example iso_large : isoString (fieldsOf 8640000000000000) = chars "+275760-09-13T00:00:00.000Z" /\ isoString (fieldsOf (-8640000000000000)) = chars "-271821-04-20T00:00:00.000Z".
Proof. vm_compute. done. Qed.

Example utc_2000 : utcString (fieldsOf 951782399999) = Ok (chars "Mon, 28 Feb 2000 23:59:59 GMT").
Proof. vm_compute. reflexivity. Qed.

Example full_2000 : fullString (fieldsOf 951782399999) (-90) = Ok (chars "Mon Feb 28 2000 23:59:59 GMT-0130").
Proof. vm_compute. reflexivity. Qed.

Example parse_2000 : GetTimeFromString utcClock (chars "Mon Feb 28 2000 23:59:59 GMT-0130") = Ok (Some (951782399000 + 5400000)).
Proof. vm_compute. reflexivity. Qed.

Example UTC_2000 : UTC (Ok <$> [Whole 2000; Whole 14; Whole (-1)]) = Ok (Some 983232000000).
Proof. vm_compute. reflexivity. Qed.

(** Compiled code and the constructor agree. *)
Example stub_2000 : stubCalcTimeValue utcClock (Whole 99) (Whole 1) (Whole 28) = ExtractDateFields utcClock (Ok <$> [Whole 99; Whole 1; Whole 28]).
Proof. vm_compute. reflexivity. Qed.

(** The width of [struct tm]: the year 4294969296 is the year 2000. *)
Example constructor_wraps : ExtractDateFields utcClock (Ok <$> [Whole 4294969296; Whole 0]) = Ok (Some 946684800000).
Proof. vm_compute. reflexivity. Qed.
