(* ===== verification/DateSpec.v ===== *)
(** * What the methods of dates promise

    A date is a time value: a number of milliseconds, or none.  The methods are those of
    [JSDate] and [DateStrings]; here they work on the time value alone, without the two answers that
    the code keeps: the date of the last conversion of the thread, and the offset of the local time of the
    object. *)

From Stdlib Require Import ZArith Lia.
From S2P Require Import Prelude Values NumberHelper DateUtils DateParse JSDate DateStrings.

(** ** Calls *)

Inductive dateCall :=
| GetTime
| GetUnit (code : nat) (isLocal : bool)
| SetTimeTo (arg : result number)
| SetUnitsFrom (code : Z) (isLocal : bool) (args : list (result number))
| PrintISO | PrintUTC | PrintFull | PrintTime | PrintDate.

Definition numberAnswer (r : result (option Z)) : result answer := n ← r; Ok (ANumber n).

Section Clock.
Context (clock : Clock).

(** A method of the date [d]. *)
Definition perform (c : DateCache) (d : JSDate) (call : dateCall) : result answer * DateCache * JSDate :=
  match call with
  | GetTime => (Ok (ANumber (TimeValue d)), c, d)
  | GetUnit code isLocal => let '(r, c, d) := GetDateUnit clock c d code isLocal in (numberAnswer r, c, d)
  | SetTimeTo arg => let '(r, d) := SetTime d arg in (numberAnswer r, c, d)
  | SetUnitsFrom code isLocal args => let '(r, c, d) := setDateValue clock c d args code isLocal in (numberAnswer r, c, d)
  | PrintISO => ToISOString clock c d
  | PrintUTC => ToUTCString clock c d
  | PrintFull => ToString clock c d
  | PrintTime => ToTimeString clock c d
  | PrintDate => ToDateString clock c d
  end.

(** A method called on [this], which may be no date. *)
Definition invoke (c : DateCache) (this : option JSDate) (call : dateCall) : result answer * DateCache * option JSDate :=
  match this with
  | None => (Err (TypeError "Not a Date Object"), c, None)
  | Some d => let '(r, c, d) := perform c d call in (r, c, Some d)
  end.

Fixpoint performAll (c : DateCache) (d : JSDate) (calls : list dateCall) : list (result answer) * JSDate :=
  match calls with
  | [] => ([], d)
  | call :: calls =>
      let '(r, c, d) := perform c d call in
      let '(rs, d) := performAll c d calls in (r :: rs, d)
  end.

(** ** The specification *)

Definition offsetAt (t : Z) : Z := GetLocalOffsetFromOS clock t true.

(** The fields of a time, in the local time or in UTC, and the offset in minutes to the west. *)
Definition specFields (t : Z) (isLocal : bool) : DateFields * Z :=
  let tz := if isLocal then offsetAt t else 0 in (fieldsOf (t + tz), Z.quot (- tz) MS_PER_MINUTE).

(** The time with the given units, which need not be in their ranges. *)
Definition unitsTime (date : list Z) : Z :=
  match date with
  | year :: month :: day :: hour :: min :: sec :: ms :: _ =>
      dayNumber (year + month / 12) (month mod 12) day * MS_PER_DAY + hour * MS_PER_HOUR + min * MS_PER_MINUTE + sec * MS_PER_SECOND + ms
  | _ => 0
  end.

(** The time the C library gives for local units. *)
Definition localUnitsTime (date : list Z) : Z :=
  match date with
  | year :: month :: day :: hour :: min :: sec :: ms :: _ => GetUTCTimestamp clock (year - NINETEEN_HUNDRED_YEAR) month day hour min sec ms
  | _ => 0
  end.

(** The units from the element [i] on are replaced; the first argument that cannot be converted decides. *)
Fixpoint specReplace (date : list Z) (i : nat) (args : list (result number)) : result (option (list Z)) :=
  match args with
  | [] => Ok (Some date)
  | Err e :: _ => Err e
  | Ok (Whole z) :: args => specReplace (<[i := z]> date) (S i) args
  | Ok _ :: _ => Ok None
  end.

Definition firstUnit (code : Z) : nat := Z.to_nat (code mod 16).
Definition unitCount (code : Z) : nat := (Z.to_nat (code / 16 mod 16) - firstUnit code)%nat.

Definition specSet (t : option Z) (code : Z) (isLocal : bool) (args : list (result number)) : result (option Z) :=
  match args with
  | [] => Ok None
  | _ =>
      let date := match t with
                  | Some t => let '(f, tz) := specFields t isLocal in dateArray f tz
                  | None => let '(f, tz) := specFields 0 false in dateArray f tz
                  end in
      units ← specReplace date (firstUnit code) (take (unitCount code) args);
      match units with
      | Some date =>
          if negb (bool_decide (is_Some t)) && negb (firstUnit code =? 0)%nat then Ok None
          else Ok (TimeClip (Some (if isLocal then localUnitsTime date else unitsTime date)))
      | None => Ok None
      end
  end.

Definition specPrint (t : option Z) (isLocal : bool) (print : DateFields -> Z -> result (list Z)) : result answer :=
  match t with
  | None => Ok (AString InvalidDate)
  | Some t => s ← print (specFields t isLocal).1 (Z.quot (offsetAt t) MS_PER_MINUTE); Ok (AString s)
  end.

Definition specPerform (t : option Z) (call : dateCall) : result answer * option Z :=
  match call with
  | GetTime => (Ok (ANumber t), t)
  | GetUnit code isLocal =>
      (match t with
       | None => Ok (ANumber None)
       | Some t => let '(f, tz) := specFields t isLocal in u ← get (dateArray f tz) code; Ok (ANumber (Some u))
       end, t)
  | SetTimeTo (Ok n) => (Ok (ANumber (TimeClip (finite n))), TimeClip (finite n))
  | SetTimeTo (Err e) => (Err e, t)
  | SetUnitsFrom code isLocal args =>
      match specSet t code isLocal args with
      | Ok v => (Ok (ANumber v), v)
      | Err e => (Err e, t)
      end
  | PrintISO => (match t with None => Err (RangeError "range error") | Some t => Ok (AString (isoString (fieldsOf t))) end, t)
  | PrintUTC => (specPrint t false (fun f _ => utcString f), t)
  | PrintFull => (specPrint t true (fun f min => fullString f min), t)
  | PrintTime => (specPrint t true (fun f min => Ok (timeString f min [])), t)
  | PrintDate => (specPrint t true (fun f _ => dateString f), t)
  end.

Fixpoint specAll (t : option Z) (calls : list dateCall) : list (result answer) * option Z :=
  match calls with
  | [] => ([], t)
  | call :: calls =>
      let '(r, t) := specPerform t call in
      let '(rs, t) := specAll t calls in (r :: rs, t)
  end.

(** ** Which calls *)

(** The time zone never changes its offset. *)
Definition constantOffset : Prop := forall t, offsetAt t = offsetAt 0.

(** An argument that converts to a Number whose units do not overflow. *)
Definition smallArgument (arg : result number) : Prop :=
  match arg with Ok (Whole z) => Z.abs z <= 10 ^ 8 | Ok NotANumber => True | Ok Infinite => False | Err _ => True end.

Definition numberArgument (arg : result number) : Prop := match arg with Ok (Whole _) => True | _ => False end.

(** The setters that exist. *)
Definition setterCode (code : Z) : Prop :=
  In code [CODE_SET_DATE; CODE_SET_MILLISECONDS; CODE_SET_SECONDS; CODE_SET_MINUTES; CODE_SET_HOURS; CODE_SET_MONTH; CODE_SET_FULL_YEAR].

(** Arguments are small, and those of [setFullYear] do not throw. *)
Definition callOk (call : dateCall) : Prop :=
  match call with
  | SetUnitsFrom code isLocal args =>
      setterCode code /\ Forall smallArgument args /\ (code = CODE_SET_FULL_YEAR -> Forall (fun arg => match arg with Err _ => False | Ok _ => True end) args)
  | _ => True
  end.

(** The calls that do not leave the offset of another time behind: a local setter with Numbers forgets it. *)
Definition refreshes (call : dateCall) : Prop :=
  match call with
  | SetTimeTo _ => False
  | SetUnitsFrom _ isLocal args => isLocal = true /\ args <> [] /\ Forall numberArgument args
  | _ => True
  end.

End Clock.
