(* ===== verification/DateCorrect.v ===== *)
(** * Correctness of the methods of dates

    The methods of [JSDate] and [DateStrings] answer like their specification in [DateSpec], for every sequence of
    calls: the answers that are kept do not show, as long as the offset that is kept is the one of the time. *)

From Stdlib Require Import ZArith Lia.
From S2P Require Import Prelude Values NumberHelper DateUtils DateParse JSDate DateStrings DateSpec.

(** ** Rounding *)

Lemma fl_small z : Z.abs z < 2 ^ 53 -> fl z = Some z.
Proof. intros H. unfold fl. by rewrite (proj2 (Z.ltb_lt _ _) H). Qed.

Lemma fl_large z m : 2 ^ 53 <= Z.abs z -> fl z = Some m -> 2 ^ 53 <= Z.abs m.
Proof.
  intros H. unfold fl. rewrite (proj2 (Z.ltb_ge _ _) H). set (n := Z.abs z) in *. set (k := Z.log2 n - 52). assert (53 <= Z.log2 n) as Hl by (apply Z.log2_le_pow2; lia).
  destruct (_ <=? _); [done|]. intros [= <-]. assert (2 ^ 52 <= n / 2 ^ k) as Hq.
  { apply Z.div_le_lower_bound; [apply Z.pow_pos_nonneg; lia|]. rewrite <- Z.pow_add_r by lia. replace (k + 52) with (Z.log2 n) by lia. apply Z.log2_spec. lia. }
  assert (2 ^ 53 <= roundTo k n) as Hr.
  { unfold roundTo. change (2 ^ 53) with (2 ^ 52 * 2 ^ 1). apply Z.mul_le_mono_nonneg; [lia| |lia|apply Z.pow_le_mono_r; lia]. destruct (_ || _); lia. }
  rewrite Z.abs_mul. assert (Z.abs (Z.sgn z) = 1) as ->; lia.
Qed.

(** Rounding does not bring a time into the range of dates. *)
Lemma TimeClip_fl z : TimeClip (fl z) = TimeClip (Some z).
Proof.
  destruct (Z.lt_ge_cases (Z.abs z) (2 ^ 53)) as [H|H]; [by rewrite fl_small|]. unfold TimeClip, MAX_TIME_IN_MS. destruct (fl z) as [m|] eqn:E; [apply fl_large in E; [|done]|];
  repeat match goal with |- context [?a <=? ?b] => destruct (Z.leb_spec a b) end; cbn [andb]; try done; exfalso; revert H; try revert E; pow2_literal; lia.
Qed.

Lemma TimeClip_range t v : TimeClip t = Some v -> t = Some v /\ - MAX_TIME_IN_MS <= v <= MAX_TIME_IN_MS.
Proof. unfold TimeClip. destruct t as [z|]; [|done]. destruct (Z.leb_spec (- MAX_TIME_IN_MS) z), (Z.leb_spec z MAX_TIME_IN_MS); cbn [andb]; try done. intros [= <-]. done. Qed.

Lemma int64_ok z : Z.abs z < 2 ^ 63 -> int64 z = Ok z.
Proof. intros H. unfold int64. rewrite (proj2 (Z.leb_le _ _)), (proj2 (Z.ltb_lt _ _)) by lia. done. Qed.

(** ** Days *)

Lemma monthStart_bounds year month : 0 <= month < 12 -> 0 <= monthStart year month <= 335.
Proof. intros H. unfold monthStart. each_month H; destruct (IsLeap year); vm_compute; split; congruence. Qed.

Lemma GetDaysFromYear_bounds year : 365 * (year - 1970) - Z.abs year - 2000 <= GetDaysFromYear year <= 365 * (year - 1970) + Z.abs year + 2000.
Proof. rewrite GetDaysFromYear_eq. Z.to_euclidean_division_equations. lia. Qed.

Lemma daysFromYear64_ok year : Z.abs year <= 2 ^ 50 -> daysFromYear64 year = Ok (GetDaysFromYear year).
Proof. intros H. pose proof (GetDaysFromYear_bounds year) as Hb. unfold daysFromYear64, DAYS_IN_YEAR. revert H. pow2_literal. intros H. rewrite !int64_ok by (pow2_literal; lia). done. Qed.

Lemma quotTrunc_year m : 0 <= m < 12 -> quotTrunc m 12 = 0.
Proof. intros H. each_month H; vm_compute; reflexivity. Qed.

(** [MakeDay] on a month of the year. *)
Lemma MakeDay_ok y m d : Z.abs y <= 10 ^ 10 -> 0 <= m < 12 -> Z.abs d <= 10 ^ 10 -> MakeDay (Some y) (Some m) (Some d) = Ok (Some (dayNumber y m d)).
Proof.
  intros Hy Hm Hd. unfold MakeDay, MONTH_PER_YEAR. pose proof (GetDaysFromYear_bounds y). pose proof (monthStart_bounds y m Hm). change (10 ^ 10) with 10000000000 in *.
  rewrite quotTrunc_year by done. rewrite !(int64_ok y), (int64_ok 0), (int64_ok m) by (pow2_literal; lia). cbn [mbind result_bind]. rewrite (int64_ok (y + 0)), Z.add_0_r by (pow2_literal; lia). cbn [mbind result_bind].
  rewrite Z.rem_small by lia. destruct (Z.ltb_spec m 0); [lia|]. cbn [mbind result_bind]. rewrite daysFromYear64_ok by (pow2_literal; lia). cbn [mbind result_bind]. rewrite !int64_ok by (pow2_literal; lia). cbn [mbind result_bind].
  rewrite int64_ok by (pow2_literal; lia). cbn [mbind result_bind]. rewrite fl_small by (pow2_literal; lia). cbn [mbind option_bind]. rewrite fl_small by (pow2_literal; lia). do 2 f_equal. unfold dayNumber. lia.
Qed.

Lemma MakeTime_ok h mi s ms : 0 <= h <= 24 -> 0 <= mi < 60 -> 0 <= s < 60 -> 0 <= ms < 1000 ->
  MakeTime (Some h) (Some mi) (Some s) (Some ms) = Some (h * MS_PER_HOUR + mi * MS_PER_MINUTE + s * MS_PER_SECOND + ms).
Proof.
  intros. unfold MakeTime, MS_PER_HOUR, MS_PER_MINUTE, MS_PER_SECOND. cbn [mbind option_bind]. rewrite (fl_small (h * _)), (fl_small (mi * _)) by (pow2_literal; lia). cbn [mbind option_bind].
  rewrite (fl_small (s * _)) by (pow2_literal; lia). rewrite fl_small by (pow2_literal; lia). cbn [mbind option_bind]. rewrite fl_small by (pow2_literal; lia). cbn [mbind option_bind]. by rewrite fl_small by (pow2_literal; lia).
Qed.

(** ** Units *)

Definition smallUnits (date : list Z) : Prop := length date = 9%nat /\ Forall (fun u => Z.abs u <= 10 ^ 8) date.

Lemma CalcTimeValue_utc clock date : smallUnits date -> CalcTimeValue clock date false = Ok (TimeClip (Some (unitsTime date))).
Proof.
  intros [Hl Hf]. destruct date as [|y [|mo [|d [|h [|mi [|s [|ms [|w [|tz [|? ?]]]]]]]]]]; try done. change (10 ^ 8) with 100000000 in Hf.
  repeat match goal with H : Forall _ (_ :: _) |- _ => apply Forall_cons in H as [? ?] end.
  unfold CalcTimeValue, unitsTime, MONTH_PER_YEAR, MIN_PER_HOUR, SEC_PER_MINUTE. rewrite Mod_eq by lia. pose proof (Z.mod_pos_bound mo 12 ltac:(lia)) as Hm. pose proof (Z.div_mod mo 12 ltac:(lia)) as Hd.
  rewrite (int64_ok (mo - _)) by (pow2_literal; lia). cbn [mbind result_bind]. replace (mo - mo mod 12) with (mo / 12 * 12) by lia. rewrite Z.quot_mul by lia.
  set (year := y + mo / 12). assert (Z.abs year <= 200000000) as Hy by lia. pose proof (GetDaysFromYear_bounds year). pose proof (monthStart_bounds year _ Hm).
  rewrite (int64_ok year) by (pow2_literal; lia). cbn [mbind result_bind]. rewrite daysFromYear64_ok by (pow2_literal; lia). cbn [mbind result_bind]. unfold MS_PER_SECOND, MS_PER_DAY, MS_PER_HOUR, MS_PER_MINUTE.
  repeat (rewrite int64_ok by (pow2_literal; lia); cbn [mbind result_bind]). rewrite TimeClip_fl. do 3 f_equal. unfold dayNumber. fold year. lia.
Qed.

Lemma CalcTimeValue_local clock date : smallUnits date -> CalcTimeValue clock date true = Ok (TimeClip (Some (localUnitsTime clock date))).
Proof.
  intros [Hl Hf]. destruct date as [|y [|mo [|d [|h [|mi [|s [|ms [|w [|tz [|? ?]]]]]]]]]]; try done. change (10 ^ 8) with 100000000 in Hf. apply Forall_cons in Hf as [Hy _].
  unfold CalcTimeValue, localUnitsTime, NINETEEN_HUNDRED_YEAR. rewrite int64_ok by (pow2_literal; lia). cbn [mbind result_bind]. by rewrite TimeClip_fl.
Qed.

Lemma setUnits_eq date i args : Forall smallArgument args -> (i + length args <= length date)%nat -> setUnits date i args = specReplace date i args.
Proof.
  revert date i. induction args as [|arg args IH]; intros date i Ha Hl; [done|]. apply Forall_cons in Ha as [Ha Has]. cbn [setUnits specReplace length] in *. destruct arg as [[| |z]|e]; cbn [mbind result_bind]; try done.
  cbn in Ha. rewrite int64_ok by (pow2_literal; lia). cbn [mbind result_bind]. unfold set. destruct (decide _); [|lia]. cbn [mbind result_bind]. apply IH; [done|]. rewrite length_insert. lia.
Qed.

Lemma specReplace_small date i args date' : Forall smallArgument args -> smallUnits date -> specReplace date i args = Ok (Some date') -> smallUnits date'.
Proof.
  revert date i. induction args as [|arg args IH]; intros date i Ha Hs; [by intros [= <-]|]. apply Forall_cons in Ha as [Ha Has]. destruct arg as [[| |z]|e]; cbn [specReplace]; try done. intros E. eapply IH; [done| |exact E].
  destruct Hs as [Hl Hf]. split; [by rewrite length_insert|]. apply Forall_insert; done.
Qed.

(** Whether the units can be replaced depends on the arguments only. *)
Lemma specReplace_shape date date' i args : match specReplace date i args, specReplace date' i args with
  | Ok (Some _), Ok (Some _) | Ok None, Ok None => True | Err e, Err e' => e = e' | _, _ => False end.
Proof. revert date date' i. induction args as [|[[| |z]|e] args IH]; intros; cbn [specReplace]; try done. apply IH. Qed.

Lemma specReplace_no_throw date i args e : Forall (fun arg : result number => match arg with Err _ => False | Ok _ => True end) args -> specReplace date i args <> Err e.
Proof. revert date i. induction args as [|[[| |z]|e'] args IH]; intros date i Ha; cbn [specReplace]; try done; apply Forall_cons in Ha as [Ha Has]; [by apply IH|done]. Qed.

Lemma specReplace_numbers date i args : Forall numberArgument args -> exists date', specReplace date i args = Ok (Some date').
Proof. revert date i. induction args as [|[[| |z]|e'] args IH]; intros date i Ha; cbn [specReplace]; [by eexists|apply Forall_cons in Ha as [Ha Has]; try done..]. by apply IH. Qed.

(** ** The answers that are kept *)

Section Clock.
Context (clock : Clock).

(** Offsets are less than a day. *)
Context (offsets : forall t, Z.abs (offsetAt clock t) < MS_PER_DAY).

(** The offset a date keeps is the one of its time; a date without a time keeps one only if there is just one. *)
Definition dateInv (d : JSDate) : Prop :=
  (forall t, TimeValue d = Some t -> - MAX_TIME_IN_MS <= t <= MAX_TIME_IN_MS) /\
  (forall o, LocalOffset d = Some o -> match TimeValue d with Some t => o = offsetAt clock t | None => constantOffset clock /\ o = offsetAt clock 0 end).

Lemma time_cacheable t tz : - MAX_TIME_IN_MS <= t <= MAX_TIME_IN_MS -> Z.abs tz < MS_PER_DAY -> cacheable ((t + tz) / MS_PER_DAY).
Proof. unfold MAX_TIME_IN_MS, MS_PER_DAY, cacheable. pow2_literal. intros. Z.to_euclidean_division_equations. lia. Qed.

Lemma CalcThisDateUnits_none c d isLocal : TimeValue d = None -> CalcThisDateUnits clock c d isLocal = (None, c, d).
Proof. intros H. unfold CalcThisDateUnits. by rewrite H. Qed.

Lemma CalcThisDateUnits_ok c d isLocal t : cacheOk c -> dateInv d -> TimeValue d = Some t ->
  exists c' d', CalcThisDateUnits clock c d isLocal = (Some (specFields clock t isLocal), c', d') /\ cacheOk c' /\ dateInv d' /\ TimeValue d' = Some t /\
    (if isLocal then LocalOffset d' = Some (offsetAt clock t) else d' = d).
Proof.
  intros Hc [Hr Ho] Ht. unfold CalcThisDateUnits, specFields. rewrite Ht. pose proof (Hr t Ht) as Hrt. destruct isLocal.
  - assert (exists d', GetLocalOffsetSafely clock d t = (offsetAt clock t, d') /\ TimeValue d' = Some t /\ LocalOffset d' = Some (offsetAt clock t)) as (d' & -> & Ht' & Ho').
    { unfold GetLocalOffsetSafely. destruct (LocalOffset d) as [o|] eqn:E; [|by eexists]. exists d. specialize (Ho o eq_refl). rewrite Ht in Ho. by subst. }
    destruct (TransferTimeToDate_ok c (t + offsetAt clock t) Hc) as (c' & -> & Hc'); [by apply time_cacheable|]. exists c', d'. split; [done|]. split; [done|]. split; [|done]. split.
    + intros t' E. rewrite Ht' in E. injection E as <-. done.
    + intros o E. rewrite Ho' in E. injection E as <-. by rewrite Ht'.
  - destruct (TransferTimeToDate_ok c (t + 0) Hc) as (c' & -> & Hc'); [by apply time_cacheable|]. exists c', d. done.
Qed.

(** ** Setters *)

Lemma dateOfTime_year t f : Z.abs t <= 2 * 10 ^ 16 -> dateOfTime t f -> Z.abs (YEAR f) <= 700000.
Proof.
  change (2 * 10 ^ 16) with 20000000000000000. intros Ht ((Hd & Hh & Hmi & Hs & Hms) & E & _). pose proof (dayNumber_year _ _ _ Hd) as Hn. pose proof (GetDaysFromYear_bounds (YEAR f)) as H1. pose proof (GetDaysFromYear_bounds (YEAR f + 1)) as H2. clear Hd.
  unfold timeOf, MS_PER_DAY, MS_PER_HOUR, MS_PER_MINUTE, MS_PER_SECOND in E. revert Hn E. generalize (dayNumber (YEAR f) (MONTH f) (DAYS f)) as n. intros n Hn E. lia.
Qed.

Lemma dateOfTime_small t f z : Z.abs t <= 2 * 10 ^ 16 -> dateOfTime t f -> Z.abs z <= 10 ^ 8 -> smallUnits (dateArray f z).
Proof.
  intros Ht Hf Hz. pose proof (dateOfTime_year t f Ht Hf) as Hy. destruct Hf as (((Hm & Hd) & Hh & Hmi & Hs & Hms) & _ & Hw). pose proof (monthLength_bounds (YEAR f) (MONTH f) Hm). assert (0 <= WEEKDAY f < 7) by (rewrite Hw; apply Z.mod_pos_bound; lia).
  split; [reflexivity|]. unfold dateArray. assert (700000 <= 10 ^ 8) by lia. repeat (apply Forall_cons; split; [lia|]). constructor.
Qed.

Lemma fields_small t tz z : - MAX_TIME_IN_MS <= t <= MAX_TIME_IN_MS -> Z.abs tz < MS_PER_DAY -> Z.abs z <= 10 ^ 8 -> smallUnits (dateArray (fieldsOf (t + tz)) z).
Proof. intros Ht Htz Hz. apply (dateOfTime_small (t + tz)); [|apply fieldsOf_ok|done]. unfold MAX_TIME_IN_MS, MS_PER_DAY in *. lia. Qed.

Lemma specFields_small t isLocal : - MAX_TIME_IN_MS <= t <= MAX_TIME_IN_MS -> smallUnits (let '(f, tz) := specFields clock t isLocal in dateArray f tz).
Proof.
  intros Ht. unfold specFields. destruct isLocal; (apply fields_small; [done| |]).
  - apply offsets.
  - pose proof (offsets t) as Ho. unfold MS_PER_DAY, MS_PER_MINUTE in *. change (10 ^ 8) with 100000000. Z.to_euclidean_division_equations. lia.
  - done.
  - vm_compute. congruence.
Qed.

Definition noThrow (args : list (result number)) : Prop := Forall (fun arg => match arg with Err _ => False | Ok _ => True end) args.

Lemma setter_facts code : setterCode code -> Z.to_nat (Z.land code CODE_FLAG) = firstUnit code /\ (Z.land code CODE_FLAG =? 0) = (firstUnit code =? 0)%nat /\
  Z.to_nat (Z.land (Z.shiftr code CODE_4_BIT) CODE_FLAG - Z.land code CODE_FLAG) = unitCount code /\ (firstUnit code + unitCount code <= 9)%nat /\
  (firstUnit code = 0%nat -> code = CODE_SET_FULL_YEAR).
Proof. unfold setterCode. intros H. repeat (destruct H as [<-|H]; [vm_compute; repeat split; try congruence; lia|]). done. Qed.

Lemma CalcTimeValue_ok date isLocal : smallUnits date -> CalcTimeValue clock date isLocal = Ok (TimeClip (Some (if isLocal then localUnitsTime clock date else unitsTime date))).
Proof. destruct isLocal; [apply CalcTimeValue_local|apply CalcTimeValue_utc]. Qed.

Lemma dateInv_forget v : (forall t, v = Some t -> - MAX_TIME_IN_MS <= t <= MAX_TIME_IN_MS) -> dateInv (mkDate v None).
Proof. intros H. split; [exact H|done]. Qed.

Lemma dateInv_constant d v : constantOffset clock -> dateInv d -> (forall t, v = Some t -> - MAX_TIME_IN_MS <= t <= MAX_TIME_IN_MS) -> dateInv (SetTimeValue d v).
Proof.
  intros Hk [Hr Ho] Hv. split; [exact Hv|]. cbn. intros o E. specialize (Ho o E). assert (o = offsetAt clock 0) as -> by (destruct (TimeValue d); [by rewrite Ho|apply Ho]). destruct v as [t|]; [symmetry; apply Hk|done].
Qed.

Lemma TimeClip_in v t : TimeClip v = Some t -> - MAX_TIME_IN_MS <= t <= MAX_TIME_IN_MS.
Proof. intros H. apply TimeClip_range in H. tauto. Qed.

Lemma dateInv_none d v : dateInv d -> TimeValue d = None -> (forall t, v = Some t -> - MAX_TIME_IN_MS <= t <= MAX_TIME_IN_MS) -> dateInv (SetTimeValue d v).
Proof.
  intros [Hr Ho] Ht Hv. split; [exact Hv|]. cbn. intros o E. specialize (Ho o E). rewrite Ht in Ho. destruct Ho as [Hk ->]. destruct v as [t|]; [symmetry; apply Hk|done].
Qed.

(** The offset may be another one, but is the same. *)
Definition mayKeep (isLocal : bool) (args : list (result number)) : Prop := constantOffset clock \/ (isLocal = true /\ args <> [] /\ Forall numberArgument args).

(** The end of a setter, on the units [date] that were read. *)
Lemma setDateValue_time c d args code isLocal t : cacheOk c -> dateInv d -> setterCode code -> Forall smallArgument args -> args <> [] -> mayKeep isLocal args -> TimeValue d = Some t ->
  exists c' d', setDateValue clock c d args code isLocal = (specSet clock (Some t) code isLocal args, c', d') /\ cacheOk c' /\ dateInv d' /\
    TimeValue d' = match specSet clock (Some t) code isLocal args with Ok v => v | Err _ => Some t end.
Proof.
  intros Hc Hd Hcode Ha Hne Hk Ht. destruct (setter_facts code Hcode) as (Ef & Ez & Ec & Hb & _). unfold setDateValue, CalcTimeValueWithNewDateUnits, specSet. destruct args as [|a args]; [done|]. set (l := a :: args) in *. clearbody l. rewrite Ht, Ef, Ec.
  assert (Forall smallArgument (take (unitCount code) l)) as Ha' by (by apply Forall_take). pose proof (specFields_small t isLocal (proj1 Hd t Ht)) as Hs. destruct (CalcThisDateUnits_ok c d isLocal t Hc Hd Ht) as (c' & d' & -> & Hc' & Hd' & Ht' & Hloc).
  destruct (specFields clock t isLocal) as [f tz]. rewrite setUnits_eq; [|done|rewrite length_take; cbn [length dateArray]; lia]. rewrite bool_decide_true by done. cbn [negb andb].
  destruct (specReplace _ _ _) as [[date|]|e] eqn:E; cbn [mbind result_bind].
  - rewrite Ht', CalcTimeValue_ok by (by eapply specReplace_small). eexists c', _. split; [reflexivity|]. split; [done|]. split; [|done]. destruct isLocal; [apply dateInv_forget; intros ?; apply TimeClip_in|]. destruct Hk as [Hk|[? _]]; [|done]. apply dateInv_constant; [done..|]. intros ?. apply TimeClip_in.
  - eexists c', _. split; [reflexivity|]. split; [done|]. split; [|done]. destruct Hk as [Hk|(_ & _ & Hn)]; [by apply dateInv_constant|]. destruct (specReplace_numbers (dateArray f tz) (firstUnit code) (take (unitCount code) l)) as [? E']; [by apply Forall_take|congruence].
  - by exists c', d'.
Qed.

Lemma setDateValue_nan c d args code isLocal : cacheOk c -> dateInv d -> setterCode code -> Forall smallArgument args -> args <> [] -> (code = CODE_SET_FULL_YEAR -> noThrow args) -> TimeValue d = None ->
  exists c' d', setDateValue clock c d args code isLocal = (specSet clock None code isLocal args, c', d') /\ cacheOk c' /\ dateInv d' /\
    TimeValue d' = match specSet clock None code isLocal args with Ok v => v | Err _ => None end.
Proof.
  intros Hc Hd Hcode Ha Hne Hthrow Ht. destruct (setter_facts code Hcode) as (Ef & Ez & Ec & Hb & Hyear). unfold setDateValue, CalcTimeValueWithNewDateUnits, specSet. destruct args as [|a args]; [done|]. set (l := a :: args) in *. clearbody l. rewrite Ht, Ef, Ec, Ez.
  assert (Forall smallArgument (take (unitCount code) l)) as Ha' by (by apply Forall_take). rewrite bool_decide_false by (by intros [? ?]). cbn [negb andb]. pose proof (specFields_small 0 false ltac:(vm_compute; split; congruence)) as Hs. destruct (Nat.eqb_spec (firstUnit code) 0) as [E0|E0]; cbn [negb].
  - destruct (CalcThisDateUnits_ok c (SetTimeValue d (Some 0)) false 0 Hc) as (c' & d' & -> & Hc' & Hd' & Ht' & ->); [apply dateInv_none; [done..|]; intros ? [= <-]; vm_compute; split; congruence|done|].
    destruct (specFields clock 0 false) as [f tz]. rewrite setUnits_eq; [|done|rewrite length_take; cbn [length dateArray]; lia]. destruct (specReplace _ _ _) as [[date|]|e] eqn:E; cbn [mbind result_bind].
    + cbn [TimeValue SetTimeValue]. rewrite CalcTimeValue_ok by (by eapply specReplace_small). eexists c', _. split; [reflexivity|]. split; [done|]. split; [|done]. apply (dateInv_none d); [done..|]. intros ?. apply TimeClip_in.
    + eexists c', _. split; [reflexivity|]. split; [done|]. split; [|done]. by apply (dateInv_none d).
    + exfalso. revert E. apply specReplace_no_throw. apply Forall_take. apply Hthrow. auto.
  - rewrite CalcThisDateUnits_none by done. destruct (specFields clock 0 false) as [f tz]. rewrite setUnits_eq; [|done|rewrite length_take, length_replicate; lia].
    pose proof (specReplace_shape (replicate 9 0) (dateArray f tz) (firstUnit code) (take (unitCount code) l)) as Hshape. destruct (specReplace (replicate 9 0) _ _) as [[date|]|e], (specReplace (dateArray f tz) _ _) as [[date'|]|e']; try done; cbn [mbind result_bind].
    + rewrite Ht. eexists c, _. split; [reflexivity|]. split; [done|]. split; [|done]. by apply dateInv_none.
    + eexists c, _. split; [reflexivity|]. split; [done|]. split; [|done]. by apply dateInv_none.
    + subst. by exists c, d.
Qed.

Lemma setDateValue_ok c d args code isLocal : cacheOk c -> dateInv d -> callOk (SetUnitsFrom code isLocal args) -> mayKeep isLocal args ->
  exists c' d', setDateValue clock c d args code isLocal = (specSet clock (TimeValue d) code isLocal args, c', d') /\ cacheOk c' /\ dateInv d' /\
    TimeValue d' = match specSet clock (TimeValue d) code isLocal args with Ok v => v | Err _ => TimeValue d end.
Proof.
  intros Hc Hd (Hcode & Ha & Hthrow) Hk. destruct (decide (args = [])) as [->|Hne].
  - eexists c, (SetTimeValue d None). split; [done|]. split; [done|]. split; [|done]. destruct Hk as [Hk|(_ & ? & _)]; [|done]. by apply dateInv_constant.
  - destruct (TimeValue d) as [t|] eqn:Ht; [by apply setDateValue_time|by apply setDateValue_nan].
Qed.

(** ** Methods that print *)

Lemma localMinutes_ok d t : LocalOffset d = Some (offsetAt clock t) -> localMinutes clock d = Z.quot (offsetAt clock t) MS_PER_MINUTE.
Proof.
  intros H. unfold localMinutes, GetLocalOffsetSafely. rewrite H. cbn [fst]. apply i32_id. pose proof (offsets t) as Ho. unfold MS_PER_DAY, MS_PER_MINUTE in *. pow2_literal. Z.to_euclidean_division_equations. lia.
Qed.

Lemma printWith_ok c d (isLocal : bool) (print : DateFields -> JSDate -> result (list Z)) (spec : DateFields -> Z -> result (list Z)) : cacheOk c -> dateInv d ->
  (forall (f : DateFields) (d' : JSDate) (t : Z), (if isLocal then LocalOffset d' = Some (offsetAt clock t) else True) -> print f d' = spec f (Z.quot (offsetAt clock t) MS_PER_MINUTE)) ->
  exists c' d', printWith clock c d isLocal print = (specPrint clock (TimeValue d) isLocal spec, c', d') /\ cacheOk c' /\ dateInv d' /\ TimeValue d' = TimeValue d.
Proof.
  intros Hc Hd Hp. unfold printWith, specPrint. destruct (TimeValue d) as [t|] eqn:Ht.
  - destruct (CalcThisDateUnits_ok c d isLocal t Hc Hd Ht) as (c' & d' & -> & Hc' & Hd' & Ht' & Hl). exists c', d'. destruct (specFields clock t isLocal) as [f tz] eqn:E. split; [|done]. cbn [fst]. rewrite (Hp f d' t) by (by destruct isLocal). done.
  - rewrite CalcThisDateUnits_none by done. by exists c, d.
Qed.

(** ** Every method *)

Definition simulated (m : result answer * DateCache * JSDate) (s : result answer * option Z) : Prop :=
  exists c' d', m = (s.1, c', d') /\ cacheOk c' /\ dateInv d' /\ TimeValue d' = s.2.

Lemma perform_ok c d call : cacheOk c -> dateInv d -> callOk call -> (constantOffset clock \/ refreshes call) -> simulated (perform clock c d call) (specPerform clock (TimeValue d) call).
Proof.
  intros Hc Hd Hok Hk. unfold simulated. destruct call as [|code isLocal|arg|code isLocal args| | | | |]; cbn [perform specPerform].
  - by exists c, d.
  - unfold GetDateUnit. destruct (TimeValue d) as [t|] eqn:Ht.
    + destruct (CalcThisDateUnits_ok c d isLocal t Hc Hd Ht) as (c' & d' & -> & Hc' & Hd' & Ht' & _). destruct (specFields clock t isLocal) as [f tz]. exists c', d'. split; [|done]. unfold numberAnswer. cbn [fst]. by destruct (get _ _).
    + rewrite CalcThisDateUnits_none by done. by exists c, d.
  - destruct Hk as [Hk|[]]. unfold SetTime. destruct arg as [n|e]; [|by exists c, d]. eexists c, _. split; [reflexivity|]. split; [done|]. split; [|done]. apply dateInv_constant; [done..|]. intros ?. apply TimeClip_in.
  - destruct (setDateValue_ok c d args code isLocal Hc Hd Hok) as (c' & d' & -> & Hc' & Hd' & Ht'); [exact Hk|]. exists c', d'. destruct (specSet _ _ _ _ _); done.
  - unfold ToISOString. destruct (TimeValue d) as [t|] eqn:Ht; [|by exists c, d]. destruct (printWith_ok c d false (fun f _ => Ok (isoString f)) (fun f _ => Ok (isoString f)) Hc Hd ltac:(done)) as (c' & d' & -> & Hc' & Hd' & Ht').
    exists c', d'. rewrite Ht in *. unfold specPrint, specFields. cbn [fst mbind result_bind]. rewrite Z.add_0_r. done.
  - apply printWith_ok; done.
  - apply printWith_ok; [done..|]. intros f d' t H. by rewrite (localMinutes_ok d' t H).
  - apply printWith_ok; [done..|]. intros f d' t H. by rewrite (localMinutes_ok d' t H).
  - apply printWith_ok; done.
Qed.

Lemma performAll_ok calls c d : cacheOk c -> dateInv d -> Forall callOk calls -> (constantOffset clock \/ Forall refreshes calls) ->
  let '(rs, d') := performAll clock c d calls in (rs, TimeValue d') = specAll clock (TimeValue d) calls.
Proof.
  revert c d. induction calls as [|call calls IH]; intros c d Hc Hd Hok Hk; [done|]. apply Forall_cons in Hok as [Hok Hoks]. cbn [performAll specAll].
  assert (constantOffset clock \/ refreshes call) as Hk1 by (destruct Hk as [?|Hk]; [by left|right; by apply Forall_cons in Hk as [? ?]]). assert (constantOffset clock \/ Forall refreshes calls) as Hk2 by (destruct Hk as [?|Hk]; [by left|right; by apply Forall_cons in Hk as [? ?]]).
  destruct (perform_ok c d call Hc Hd Hok Hk1) as (c' & d' & -> & Hc' & Hd' & Ht'). destruct (specPerform clock (TimeValue d) call) as [r t]. cbn [fst snd] in *. specialize (IH c' d' Hc' Hd' Hoks Hk2). rewrite Ht' in IH.
  destruct (performAll clock c' d' calls) as [rs d'']. rewrite <- IH. done.
Qed.

End Clock.
