(* ===== verification/DateParseCorrect.v ===== *)
(** * Correctness of the parser of dates

    Numerals that are printed are read back; the parser ends on every string, with components in their
    ranges; it overflows only on a long fraction of a second. *)

From Stdlib Require Import ZArith Lia.
From S2P Require Import Prelude NumberHelper StringOrder DateUtils DateParse JSDate DateStrings.

(** ** Printed numerals *)

(** The [k] lowest decimal digits of [n]. *)
Fixpoint fixedDigits (k : nat) (n : Z) : list Z :=
  match k with
  | O => []
  | S k => fixedDigits k (n / 10) ++ [48 + n mod 10]
  end.

Lemma fixedDigits_length k n : length (fixedDigits k n) = k.
Proof. revert n. induction k as [|k IH]; intros n; cbn; [done|]. rewrite length_app, IH. cbn. lia. Qed.

Lemma fixedDigits_zero k : fixedDigits k 0 = replicate k 48.
Proof. induction k as [|k IH]; [done|]. cbn [fixedDigits]. change (0 / 10) with 0. rewrite IH. change [48 + 0 mod 10] with (replicate 1 48). rewrite <- replicate_add. f_equal. lia. Qed.

Lemma pow10_succ k : 10 ^ Z.of_nat (S k) = 10 * 10 ^ Z.of_nat k.
Proof. rewrite Nat2Z.inj_succ, Z.pow_succ_r by lia. done. Qed.

Lemma digitsOf_padded k fuel n : 0 <= n < 10 ^ Z.of_nat k -> (1 <= k <= fuel)%nat ->
  (length (digitsOf fuel n) <= k)%nat /\ replicate (k - length (digitsOf fuel n)) 48 ++ digitsOf fuel n = fixedDigits k n.
Proof.
  revert fuel n. induction k as [|k IH]; intros fuel n Hn Hk; [lia|]. destruct fuel as [|fuel]; [lia|]. cbn [digitsOf fixedDigits]. destruct (Z.ltb_spec n 10).
  - cbn [length]. split; [lia|]. rewrite Z.div_small, Z.mod_small, fixedDigits_zero by lia. f_equal. f_equal. lia.
  - rewrite pow10_succ in Hn. assert (0 <= n / 10 < 10 ^ Z.of_nat k) as Hn' by (split; [apply Z.div_pos; lia|apply Z.div_lt_upper_bound; lia]). destruct k as [|k]; [change (10 ^ Z.of_nat 0) with 1 in Hn; lia|].
    destruct (IH fuel (n / 10) Hn' ltac:(lia)) as [Hl E]. rewrite length_app. cbn [length]. split; [lia|]. rewrite app_assoc. f_equal. rewrite <- E. do 2 f_equal. lia.
Qed.

Lemma digitsOf_head fuel n : 0 <= n -> (1 <= fuel)%nat -> exists v l, digitsOf fuel n = v :: l /\ 48 <= v.
Proof.
  revert n. induction fuel as [|fuel IH]; intros n Hn Hf; [lia|]. cbn [digitsOf]. destruct (Z.ltb_spec n 10); [eexists _, _; split; [done|lia]|]. destruct fuel as [|fuel].
  - cbn. eexists _, _. split; [done|]. pose proof (Z.mod_pos_bound n 10 ltac:(lia)). lia.
  - destruct (IH (n / 10) ltac:(apply Z.div_pos; lia) ltac:(lia)) as (v & l & -> & Hv). by eexists _, _.
Qed.

Lemma ToCString_head n : 0 <= n -> (hd 0 (ToCString n) =? NEG) = false.
Proof. intros Hn. unfold ToCString, NEG. rewrite (proj2 (Z.leb_le _ _) Hn). destruct (digitsOf_head 20 n Hn ltac:(lia)) as (v & l & -> & Hv). cbn. apply Z.eqb_neq. lia. Qed.

Lemma StrToTargetLength_ok k n : 0 <= n < 10 ^ Z.of_nat k -> (1 <= k <= 20)%nat -> StrToTargetLength (ToCString n) (Z.of_nat k) = fixedDigits k n.
Proof.
  intros Hn Hk. unfold StrToTargetLength. rewrite ToCString_head by lia. unfold ToCString. rewrite (proj2 (Z.leb_le 0 n)) by lia. destruct (digitsOf_padded k 20 n Hn Hk) as [Hl <-]. f_equal. f_equal. lia.
Qed.

Lemma ConvertAndAppend_ok k n str : 0 <= n < 10 ^ Z.of_nat k -> (1 <= k <= 20)%nat -> ConvertAndAppend n (Z.of_nat k) str = str ++ fixedDigits k n.
Proof.
  intros Hn Hk. unfold ConvertAndAppend, AppendStrToTargetLength. rewrite ToCString_head by lia. unfold ToCString. rewrite (proj2 (Z.leb_le 0 n)) by lia. destruct (digitsOf_padded k 20 n Hn Hk) as [Hl <-]. rewrite <- app_assoc. do 2 f_equal. f_equal. lia.
Qed.

Lemma digitsOf_bound fuel m : (length (digitsOf fuel m) < fuel)%nat -> m < 10 ^ Z.of_nat (length (digitsOf fuel m)).
Proof.
  revert m. induction fuel as [|fuel IH]; intros m; [cbn; lia|]. cbn [digitsOf]. destruct (Z.ltb_spec m 10); [intros _; change (10 ^ Z.of_nat (length [48 + m])) with 10; lia|]. rewrite length_app. cbn [length]. intros Hf. specialize (IH (m / 10) ltac:(lia)).
  rewrite Nat.add_1_r, pow10_succ. pose proof (Z.div_mod m 10 ltac:(lia)). pose proof (Z.mod_pos_bound m 10 ltac:(lia)). lia.
Qed.

(** A numeral that may be longer than the given length. *)
Lemma ConvertAndAppend_long w n str : 0 <= n < 10 ^ 6 -> (1 <= w <= 6)%nat -> exists k, (w <= k <= 6)%nat /\ 0 <= n < 10 ^ Z.of_nat k /\ ConvertAndAppend n (Z.of_nat w) str = str ++ fixedDigits k n.
Proof.
  intros Hn Hw. destruct (digitsOf_padded 6 20 n Hn ltac:(lia)) as [Hl E]. exists (Nat.max w (length (digitsOf 20 n))). split; [lia|].
  assert (0 <= n < 10 ^ Z.of_nat (Nat.max w (length (digitsOf 20 n)))) as Hk.
  { split; [lia|]. eapply Z.lt_le_trans with (10 ^ Z.of_nat (length (digitsOf 20 n))); [|apply Z.pow_le_mono_r; lia]. apply digitsOf_bound. lia. }
  split; [done|]. destruct (digitsOf_padded _ 20 n Hk ltac:(lia)) as [Hl' E']. unfold ConvertAndAppend, AppendStrToTargetLength. rewrite ToCString_head by lia. unfold ToCString. rewrite (proj2 (Z.leb_le 0 n)) by lia. rewrite <- E', <- app_assoc. do 2 f_equal. f_equal. lia.
Qed.

(** ** Reading *)

Lemma readDigits_fixed k n s num index : 0 <= n < 10 ^ Z.of_nat k -> 0 <= num -> num * 10 ^ Z.of_nat k + n <= StringReader.maxDecimal ->
  StringReader.readDigits (fixedDigits k n ++ s) num index = StringReader.readDigits s (num * 10 ^ Z.of_nat k + n) (index + Z.of_nat k).
Proof.
  revert n s num index. induction k as [|k IH]; intros n s num index Hn Hnum Hmax.
  - change (10 ^ Z.of_nat 0) with 1 in *. cbn [fixedDigits app]. f_equal; lia.
  - rewrite pow10_succ in *. cbn [fixedDigits]. rewrite <- app_assoc. cbn [app]. pose proof (Z.div_mod n 10 ltac:(lia)) as Hd. pose proof (Z.mod_pos_bound n 10 ltac:(lia)) as Hm.
    assert (0 < 10 ^ Z.of_nat k) by (apply Z.pow_pos_nonneg; lia). assert (0 <= n / 10 < 10 ^ Z.of_nat k) as Hn' by lia. rewrite IH by nia.
    cbn [StringReader.readDigits]. unfold StringReader.digit. rewrite (proj2 (Z.leb_le _ _)), (proj2 (Z.leb_le _ _)) by lia. cbn [andb]. unfold TEN.
    replace (48 + n mod 10 - 48 + (num * 10 ^ Z.of_nat k + n / 10) * 10) with (num * (10 * 10 ^ Z.of_nat k) + n) by nia. rewrite (proj2 (Z.ltb_ge _ _)) by lia. f_equal. lia.
Qed.

Definition notDigit (s : list Z) : Prop := StringReader.IsDigit s = false.

Lemma fixedDigits_head k n : exists v l, fixedDigits (S k) n = v :: l /\ 48 <= v <= 57.
Proof.
  revert n. induction k as [|k IH]; intros n.
  - cbn. eexists _, _. split; [done|]. pose proof (Z.mod_pos_bound n 10 ltac:(lia)). lia.
  - cbn [fixedDigits] in *. destruct (IH (n / 10)) as (v & l & E & Hv). rewrite E. cbn [app]. by eexists _, _.
Qed.

Lemma digit_true v : 48 <= v <= 57 -> StringReader.digit v = true.
Proof. intros H. unfold StringReader.digit. by rewrite (proj2 (Z.leb_le _ _)), (proj2 (Z.leb_le _ _)) by lia. Qed.

Lemma notDigit_skip s : notDigit s -> StringReader.skipDigits s = s.
Proof. unfold notDigit, StringReader.IsDigit. destruct s as [|v s]; [done|]. cbn. by intros ->. Qed.

(** A printed numeral is one unit. *)
Lemma newProxy_number k n s : 0 <= n < 10 ^ Z.of_nat k -> (1 <= k <= 8)%nat -> notDigit s -> newProxy (fixedDigits k n ++ s) = mkProxy (Unit.Number n (Z.of_nat k)) s.
Proof.
  intros Hn Hk Hs. unfold newProxy, Read. destruct k as [|k]; [lia|]. destruct (fixedDigits_head k n) as (v & l & E & Hv).
  assert (StringReader.IsDigit (fixedDigits (S k) n ++ s) = true) as -> by (rewrite E; by apply digit_true). unfold StringReader.ReadNumber. assert (10 ^ Z.of_nat (S k) <= 10 ^ 8) by (apply Z.pow_le_mono_r; lia).
  rewrite readDigits_fixed; [|done|lia|change StringReader.maxDecimal with 214748363; change (10 ^ 8) with 100000000 in *; lia]. replace (0 * 10 ^ Z.of_nat (S k) + n) with n by lia. replace (0 + Z.of_nat (S k)) with (Z.of_nat (S k)) by lia.
  assert (StringReader.readDigits s n (Z.of_nat (S k)) = (n, Z.of_nat (S k), s)) as ->. { unfold notDigit, StringReader.IsDigit in Hs. destruct s as [|w s]; [done|]. cbn in *. by rewrite Hs. }
  by rewrite notDigit_skip.
Qed.

Lemma newProxy_symbol ch s : In ch [58; 43; 45; 46] -> newProxy (ch :: s) = mkProxy (Unit.Symbol ch) s.
Proof. intros H. repeat (destruct H as [<-|H]; [reflexivity|]). done. Qed.

Lemma newProxy_space s : newProxy (32 :: s) = mkProxy Unit.Space s.
Proof. reflexivity. Qed.

Definition notAlpha (s : list Z) : Prop := StringReader.IsAlpha s = false.

Lemma newProxy_T s : notAlpha s -> newProxy (84 :: s) = mkProxy (Unit.Word DATE_TIME_FALG 0 1) s.
Proof. unfold notAlpha, StringReader.IsAlpha. intros H. unfold newProxy, Read. cbn -[StringReader.ReadAlphabet]. destruct s as [|v s]; [done|]. cbn in *. by rewrite H. Qed.

Lemma notAlpha_digits k n s : notAlpha (fixedDigits (S k) n ++ s).
Proof. destruct (fixedDigits_head k n) as (v & l & -> & Hv). unfold notAlpha, StringReader.IsAlpha. cbn. unfold StringReader.alpha. rewrite (proj2 (Z.leb_gt _ _)) by lia. done. Qed.

(** ** Units of a string *)

Definition suffixOf (s str : list Z) : Prop := exists pre, str = pre ++ s.

Lemma suffixOf_refl s : suffixOf s s.
Proof. by exists []. Qed.

Lemma suffixOf_trans s1 s2 s3 : suffixOf s1 s2 -> suffixOf s2 s3 -> suffixOf s1 s3.
Proof. intros [p ->] [q ->]. exists (q ++ p). by rewrite app_assoc. Qed.

Lemma suffixOf_length s str : suffixOf s str -> (length s <= length str)%nat.
Proof. intros [p ->]. rewrite length_app. lia. Qed.

Lemma suffixOf_next s : suffixOf (StringReader.NextChar s) s.
Proof. destruct s as [|v s]; [apply suffixOf_refl|by exists [v]]. Qed.

Lemma readDigits_facts s num index num' len s' : 0 <= num <= StringReader.maxDecimal -> StringReader.readDigits s num index = (num', len, s') ->
  0 <= num' < INT_MAX /\ suffixOf s' s /\ exists run post, s = run ++ post /\ Forall (fun v => StringReader.digit v = true) run /\ len = index + Z.of_nat (length run).
Proof.
  revert num index. induction s as [|v s IH]; intros num index Hn; cbn [StringReader.readDigits].
  - intros [= <- <- <-]. change StringReader.maxDecimal with 214748363 in Hn. change INT_MAX with 2147483647. split; [lia|]. split; [apply suffixOf_refl|]. exists [], []. cbn. split; [done|]. split; [constructor|lia].
  - destruct (StringReader.digit v) eqn:Ed.
    + assert (48 <= v <= 57) as Hv by (unfold StringReader.digit in Ed; lia). unfold TEN. destruct (Z.ltb_spec StringReader.maxDecimal (v - 48 + num * 10)) as [Hl|Hl].
      * intros [= <- <- <-]. change StringReader.maxDecimal with 214748363 in *. change INT_MAX with 2147483647. split; [lia|]. split; [apply suffixOf_refl|]. exists [v], s. split; [done|]. split; [by constructor|cbn; lia].
      * intros E. destruct (IH (v - 48 + num * 10) (index + 1) ltac:(lia) E) as (Hb & Hs & run & post & -> & Hr & ->). split; [done|]. split; [eapply suffixOf_trans; [exact Hs|by exists [v]]|]. exists (v :: run), post. split; [done|]. split; [by constructor|cbn [length]; lia].
    + intros [= <- <- <-]. change StringReader.maxDecimal with 214748363 in Hn. change INT_MAX with 2147483647. split; [lia|]. split; [apply suffixOf_refl|]. exists [], (v :: s). cbn. split; [done|]. split; [constructor|lia].
Qed.

Lemma skipDigits_suffix s : suffixOf (StringReader.skipDigits s) s.
Proof. induction s as [|v s IH]; [apply suffixOf_refl|]. cbn. destruct (StringReader.digit v); [|apply suffixOf_refl]. eapply suffixOf_trans; [exact IH|by exists [v]]. Qed.

Lemma ReadAlphabet_suffix s n len word s' : StringReader.ReadAlphabet s n = (len, word, s') -> suffixOf s' s.
Proof.
  revert n len word. induction s as [|v s IH]; intros n len word; cbn [StringReader.ReadAlphabet]; [intros [= _ _ <-]; apply suffixOf_refl|]. destruct (StringReader.alpha v); [|intros [= _ _ <-]; apply suffixOf_refl].
  destruct (StringReader.ReadAlphabet s (pred n)) as [[l w] r] eqn:E. intros [= _ _ <-]. eapply suffixOf_trans; [by eapply IH|by exists [v]].
Qed.

Lemma indexOfName_bounds name names i j : indexOfName name names i = Some j -> i <= j < i + Z.of_nat (length names).
Proof. revert i. induction names as [|n names IH]; intros i; cbn [indexOfName]; [done|]. destruct (decide (name = n)); [intros [= <-]; cbn; lia|]. intros H%IH. cbn [length]. lia. Qed.

Lemma MatchKeyWord_bounds w len t v : MatchKeyWord w len = (t, v) -> 0 <= v <= 12 /\ t <> DATE_NUMBER /\ t <> DATE_STRING_END /\ (t = DATE_MONTH -> 1 <= v).
Proof.
  unfold MatchKeyWord. intros Em. repeat case_match; try match goal with H : indexOfName _ _ _ = Some _ |- _ => apply indexOfName_bounds in H; change (Z.of_nat (length DateParse.MONTH_NAME)) with 12 in H end; simplify_eq; (split; [lia|]); (split; [done|]); split; done || lia.
Qed.

(** A run of digits that is longer than [n]. *)
Definition longRun (n : Z) (str : list Z) : Prop := exists pre run post, str = pre ++ run ++ post /\ Forall (fun v => StringReader.digit v = true) run /\ n < Z.of_nat (length run).

Lemma longRun_suffix n s str : suffixOf s str -> longRun n s -> longRun n str.
Proof. intros [p ->] (pre & run & post & -> & Hr & Hl). exists (p ++ pre), run, post. by rewrite app_assoc. Qed.

(** What is known of the unit at the beginning of [s]. *)
Record unitFacts (s : list Z) (u : DateUnit) (s' : list Z) : Prop := {
  unit_suffix : suffixOf s' s;
  unit_value : 0 <= GetValue u < INT_MAX;
  unit_long : forall n, Unit.IsNumber u = true -> n < GetLength u -> longRun n s;
  unit_end : Unit.IsStringEnd u = true -> s' = s;
  unit_shorter : Unit.IsStringEnd u = false -> (length s' < length s)%nat }.

Lemma next_shorter s : StringReader.value s <> DEL -> (length (StringReader.NextChar s) < length s)%nat.
Proof. destruct s as [|v s]; cbn; [done|lia]. Qed.

Lemma symbol_facts s u : StringReader.value s <> DEL -> 0 <= GetValue u < INT_MAX -> Unit.IsNumber u = false -> Unit.IsStringEnd u = false -> unitFacts s u (StringReader.NextChar s).
Proof. intros Hs Hv Hn He. split; try done; [apply suffixOf_next|congruence|congruence|]. intros _. by apply next_shorter. Qed.

Lemma number_facts s num len s' : StringReader.IsDigit s = true -> StringReader.ReadNumber s = (num, len, s') -> unitFacts s (Unit.Number num len) s'.
Proof.
  unfold StringReader.ReadNumber. intros Hd. destruct (StringReader.readDigits s 0 0) as [[n l] r] eqn:E. intros [= -> -> <-]. destruct (readDigits_facts s 0 0 _ _ _ ltac:(vm_compute; split; congruence) E) as (Hb & Hs & run & post & Es & Hr & El).
  assert (suffixOf (StringReader.skipDigits r) s) as Hsk by (eapply suffixOf_trans; [apply skipDigits_suffix|done]). split; try done.
  - cbn. intros n' _ Hl. exists [], run, post. split; [done|]. split; [done|lia].
  - intros _. destruct s as [|v s]; [done|]. unfold StringReader.IsDigit in Hd. cbn [StringReader.value] in Hd. assert (suffixOf (StringReader.skipDigits r) s) as Hlt; [|apply suffixOf_length in Hlt; cbn; lia].
    cbn [StringReader.readDigits] in E. rewrite Hd in E. destruct (_ <? _).
    + injection E as _ _ <-. cbn [StringReader.skipDigits]. rewrite Hd. apply skipDigits_suffix.
    + assert (48 <= v <= 57) as Hv by (unfold StringReader.digit in Hd; apply andb_true_iff in Hd as [?%Z.leb_le ?%Z.leb_le]; lia). apply readDigits_facts in E; [|unfold TEN; change StringReader.maxDecimal with 214748363; lia]. eapply suffixOf_trans; [apply skipDigits_suffix|apply E].
Qed.

Lemma word_facts s len word s' type v : StringReader.IsAlpha s = true -> StringReader.ReadAlphabet s 3 = (len, word, s') -> 0 <= v <= 12 -> type <> DATE_NUMBER -> type <> DATE_STRING_END -> unitFacts s (Unit.Word type v len) s'.
Proof.
  intros Ha E Hv Hn He. split; try done.
  - by eapply ReadAlphabet_suffix.
  - cbn. change INT_MAX with 2147483647. lia.
  - intros n H. unfold Unit.IsNumber, Unit.hasType in H. apply bool_decide_eq_true in H. done.
  - intros H. unfold Unit.IsStringEnd, Unit.hasType in H. apply bool_decide_eq_true in H. done.
  - intros _. destruct s as [|c s]; [done|]. unfold StringReader.IsAlpha in Ha. cbn [StringReader.value] in Ha. cbn [StringReader.ReadAlphabet] in E. rewrite Ha in E. destruct (StringReader.ReadAlphabet s (pred 3)) as [[l w] r] eqn:E'. injection E as _ _ <-. apply ReadAlphabet_suffix, suffixOf_length in E'. cbn. lia.
Qed.

Lemma Read_facts s u s' : Read s = (u, s') -> unitFacts s u s'.
Proof.
  unfold Read. destruct (StringReader.IsDigit s) eqn:Ed. { destruct (StringReader.ReadNumber s) as [[num len] r] eqn:E. intros [= <- <-]. by apply number_facts. }
  unfold StringReader.IsEnd. destruct (Z.eqb_spec (StringReader.value s) DEL) as [He|He]. { intros [= <- <-]. split; try done. }
  assert (forall v, 0 <= GetValue v < INT_MAX -> Unit.IsNumber v = false -> Unit.IsStringEnd v = false -> (v, StringReader.NextChar s) = (u, s') -> unitFacts s u s') as Hsym. { intros v H1 H2 H3 [= <- <-]. by apply symbol_facts. }
  do 4 (destruct (StringReader.IsChar _ _); [apply Hsym; done|]). destruct (StringReader.IsAlpha s) eqn:Ea.
  - destruct (StringReader.ReadAlphabet s 3) as [[len buf] r] eqn:E. destruct (MatchKeyWord buf _) as [type v] eqn:Em. intros [= <- <-]. apply MatchKeyWord_bounds in Em as (Hv & Hn & Hend & _). by eapply word_facts.
  - destruct (StringReader.IsSpaceOrTab s); apply Hsym; done.
Qed.

(** ** The proxies of a string *)

Create HintDb dates.

Section Parse.
Context (str : list Z).

Definition onStr (p : DateProxy) : Prop := exists s, suffixOf s str /\ p = newProxy s.

(** The parser overflows: some run of digits is long. *)
Definition overflows (e : error) : Prop := e = UndefinedBehaviour /\ longRun 12 str.

(** How many units can follow. *)
Definition unitsLeft (p : DateProxy) : nat := if Unit.IsStringEnd (GetDate p) then 0 else S (length (str_ p)).

Lemma newProxy_facts s : unitFacts s (GetDate (newProxy s)) (str_ (newProxy s)).
Proof. unfold newProxy. destruct (Read s) as [u s'] eqn:E. by apply Read_facts. Qed.

Lemma newProxy_left s : (unitsLeft (newProxy s) <= length s)%nat.
Proof. unfold unitsLeft. pose proof (newProxy_facts s) as H. destruct (Unit.IsStringEnd _) eqn:E; [lia|]. apply H in E. lia. Qed.

Lemma onStr_left p : onStr p -> (unitsLeft p <= length str)%nat.
Proof. intros (s & Hs & ->). pose proof (newProxy_left s). apply suffixOf_length in Hs. lia. Qed.

Lemma onStr_value p : onStr p -> Z.abs (GetValue (GetDate p)) < INT_MAX.
Proof. intros (s & Hs & ->). pose proof (unit_value _ _ _ (newProxy_facts s)). lia. Qed.

Lemma NextDate_on p : onStr p -> onStr (NextDate p).
Proof. intros (s & Hs & ->). exists (str_ (newProxy s)). split; [|done]. eapply suffixOf_trans; [apply (newProxy_facts s)|done]. Qed.

Lemma NextDate_left p : onStr p -> (unitsLeft (NextDate p) <= pred (unitsLeft p))%nat.
Proof.
  intros (s & Hs & ->). unfold NextDate. unfold unitsLeft at 2. destruct (Unit.IsStringEnd (GetDate (newProxy s))) eqn:E; [|apply newProxy_left].
  rewrite (unit_end _ _ _ (newProxy_facts s) E). unfold unitsLeft. by rewrite E.
Qed.

Lemma scaleDivisor_outcome n d : 1 <= d -> outcome (Time.scaleDivisor n d) (fun r => 1 <= r) (fun e => e = UndefinedBehaviour /\ INT_MAX < d * 10 ^ Z.of_nat n).
Proof.
  revert d. induction n as [|n IH]; intros d Hd; cbn [Time.scaleDivisor outcome]; [done|]. unfold TEN. rewrite pow10_succ. assert (0 < 10 ^ Z.of_nat n) by (apply Z.pow_pos_nonneg; lia). destruct (Z.ltb_spec INT_MAX (d * 10)) as [Hl|Hl].
  - cbn. split; [done|]. nia.
  - eapply outcome_mono; [apply IH; lia|done|]. intros e [-> He]. split; [done|]. lia.
Qed.

Lemma NormMilliSecond_outcome p : onStr p -> Unit.IsNumber (GetDate p) = true -> outcome (Time.NormMilliSecond (GetDate p)) (fun _ => True) overflows.
Proof.
  intros (s & Hs & ->) Hn. unfold Time.NormMilliSecond. repeat case_match; try done. apply outcome_bind. eapply outcome_mono; [apply scaleDivisor_outcome; lia|done|]. intros e [-> He]. split; [done|]. eapply longRun_suffix; [exact Hs|]. apply (unit_long _ _ _ (newProxy_facts s) 12 Hn).
  apply Z.lt_nge. intros Hle. rewrite Z.mul_1_l in He. assert (10 ^ Z.of_nat (Z.to_nat (GetLength (GetDate (newProxy s)) - 3)) <= 10 ^ 9) as Hp by (apply Z.pow_le_mono_r; lia). change (10 ^ 9) with 1000000000 in Hp. change INT_MAX with 2147483647 in He. lia.
Qed.

(** ** Collected components *)

Definition dayOk (d : DayValue) : Prop := length (dayData d) = 3%nat /\ Forall (fun v => Z.abs v < INT_MAX) (dayData d).
Definition zoneOk (z : TimeZone) : Prop := hour_ z = INT_MAX \/ sign_ z = 1 \/ sign_ z = -1.

Lemma Day_SetData_ok d v d' : dayOk d -> Z.abs v < INT_MAX -> Day.SetData d v = Some d' -> dayOk d'.
Proof. intros [Hl Hf] Hv. unfold Day.SetData. case_match; [|done]. intros [= <-]. split; cbn; [by rewrite length_insert|by apply Forall_insert]. Qed.

Lemma Day_setData_ok d v : dayOk d -> Z.abs v < INT_MAX -> dayOk (Day.setData d v).
Proof. intros Hd Hv. unfold Day.setData. destruct (Day.SetData d v) eqn:E; cbn; [by eapply Day_SetData_ok|done]. Qed.

Hint Resolve NextDate_on onStr_value Day_setData_ok : dates.

Lemma isoMonthDay_on p d ok p' d' : onStr p -> dayOk d -> isoMonthDay p d = (ok, p', d') -> onStr p' /\ dayOk d'.
Proof. intros Hp Hd. unfold isoMonthDay. repeat case_match; intros; simplify_eq; (split; auto 12 with dates). Qed.

Lemma IsIsoDateTime_on p d ok p' d' : onStr p -> dayOk d -> IsIsoDateTime p d = (ok, p', d') -> onStr p' /\ dayOk d'.
Proof.
  intros Hp Hd. unfold IsIsoDateTime. assert (Z.abs (- GetValue (GetDate (NextDate p))) < INT_MAX) by (rewrite Z.abs_opp; auto with dates). repeat case_match; intros; simplify_eq; first [by auto with dates|eapply isoMonthDay_on; [| |eassumption]; auto with dates].
Qed.

Lemma isoTime_outcome p t : onStr p -> outcome (isoTime p t) (fun r => match r with Some (p', _) => onStr p' | None => True end) overflows.
Proof.
  intros Hp. unfold isoTime. repeat (case_match; [cbn; auto 12 with dates; fail|..]); cbn; auto 12 with dates. all: try (case_match; cbn; auto 12 with dates). all: repeat (case_match; cbn; auto 12 with dates).
  apply outcome_bind. eapply outcome_mono; [apply NormMilliSecond_outcome; [auto 12 with dates|]|cbn; auto 12 with dates|done]. by apply negb_false_iff.
Qed.

Lemma isoZone_ok p z z' : zoneOk z -> isoZone p z = Some z' -> zoneOk z'.
Proof. intros Hz. unfold isoZone. repeat case_match; intros; simplify_eq; unfold zoneOk; cbn; auto. Qed.

Definition parsedComponents (r : option (DayValue * DateParse.TimeValue * TimeZone)) : Prop :=
  match r with Some (d, _, z) => dayOk d /\ zoneOk z | None => True end.

Lemma ParseIsoDateTime_outcome p d t z : onStr p -> dayOk d -> zoneOk z -> outcome (ParseIsoDateTime p d t z) parsedComponents overflows.
Proof.
  intros Hp Hd Hz. unfold ParseIsoDateTime. apply outcome_bind. apply outcome_mono with (P := fun r => match r with Some (_, z') => zoneOk z' | None => True end) (R := overflows); [| |done].
  - case_match; [|done]. apply outcome_bind. eapply outcome_mono; [apply isoTime_outcome; auto with dates| |done]. intros [[p' t']|] Hr; cbn; [|done]. destruct (isoZone p' z) as [z'|] eqn:E; cbn; [by eapply isoZone_ok|done].
  - intros [[t' z']|] Hr; cbn; [|done]. split; [done|]. case_match; [right; by left|done].
Qed.

(** ** The loop *)

Definition legacyOk (bound : nat) (st : LegacyState) : Prop :=
  onStr (lgProxy st) /\ (unitsLeft (lgProxy st) <= bound)%nat /\ dayOk (lgDay st) /\ zoneOk (lgZone st).

Definition legacyResult (bound : nat) (r : option LegacyState) : Prop := match r with Some st => legacyOk bound st | None => True end.

Lemma left_next p bound : onStr p -> (unitsLeft p <= bound)%nat -> (unitsLeft (NextDate p) <= bound)%nat.
Proof. intros Hp Hl. pose proof (NextDate_left p Hp). lia. Qed.

Hint Resolve left_next : dates.

Ltac legacy_ok := split; [|split; [|split]]; cbn; auto with dates.

Lemma legacyNumber_outcome num p n d t z bound : Z.abs num < INT_MAX -> legacyOk bound (mkLegacy p n d t z) -> outcome (legacyNumber num p (mkLegacy p n d t z)) (legacyResult bound) overflows.
Proof.
  intros Hn (Hp & Hl & Hd & Hz). unfold legacyNumber. cbn [lgProxy lgDay lgTime lgZone] in *. case_match; [|case_match; [|case_match]].
  - case_match; [done|]. cbn. destruct (Time.SetData t num); cbn; [|done]. legacy_ok.
  - case_match; [done|]. apply outcome_bind. eapply outcome_mono; [apply NormMilliSecond_outcome; [auto with dates|by apply negb_false_iff]| |done]. intros ms _. case_match; cbn; [done|]. legacy_ok.
  - case_match; cbn; [done|]. legacy_ok.
  - cbn. destruct (Day.SetData d num) as [d'|] eqn:E; cbn; [|done]. split; [done|]. split; [done|]. split; [by eapply Day_SetData_ok|done].
Qed.

Lemma legacyOffset_on p z p' z' bound : onStr p -> (unitsLeft p <= bound)%nat -> legacyOffset p z = Some (p', z') -> onStr p' /\ (unitsLeft p' <= bound)%nat /\ sign_ z' = sign_ z.
Proof. intros Hp Hl. unfold legacyOffset. repeat case_match; intros; simplify_eq; cbn; (split; [|split]); auto with dates. Qed.

Lemma legacyUnit_outcome date st bound : Z.abs (GetValue date) < INT_MAX -> legacyOk bound st -> outcome (legacyUnit date st) (legacyResult bound) overflows.
Proof.
  intros Hv Hst. destruct st as [p n d t z]. pose proof Hst as (Hp & Hl & Hd & Hz). cbn [lgProxy lgDay lgZone] in *. unfold legacyUnit. case_match; [by apply legacyNumber_outcome|]. case_match; [by split|]. case_match; [split; cbn; auto; split; [done|]; split; [done|]; right; by left|].
  case_match; [repeat case_match; cbn; done|]. case_match; [repeat case_match; cbn; done|]. case_match; [|done]. cbn. destruct (legacyOffset p _) as [[p' z']|] eqn:E; [|done]. cbn. apply (legacyOffset_on _ _ _ _ bound) in E as (Hp' & Hl' & Hs); [|done|done].
  split; [done|]. split; [done|]. split; [done|]. right. cbn in *. rewrite Hs. case_match; [by right|by left].
Qed.

Lemma legacyLoop_outcome fuel p n d t z : onStr p -> (unitsLeft p <= fuel)%nat -> dayOk d -> zoneOk z ->
  outcome (legacyLoop fuel (GetDate p) (mkLegacy (NextDate p) n d t z)) (fun r => match r with Some st => dayOk (lgDay st) /\ zoneOk (lgZone st) | None => True end) overflows.
Proof.
  revert p n d t z. induction fuel as [|fuel IH]; intros p n d t z Hp Hl Hd Hz; cbn [legacyLoop].
  - unfold unitsLeft in Hl. destruct (Unit.IsStringEnd (GetDate p)); [done|lia].
  - case_match; [done|]. apply outcome_bind. eapply outcome_mono; [apply (legacyUnit_outcome _ _ fuel); [by apply onStr_value|]| |done].
    + pose proof (NextDate_left p Hp). legacy_ok. lia.
    + intros [[p' n' d' t' z']|] Hr; [|done]. destruct Hr as (Hp' & Hl' & Hd' & Hz'). by apply IH.
Qed.

Lemma ParseLegacyDates_outcome p d t z : onStr p -> dayOk d -> zoneOk z -> outcome (ParseLegacyDates (S (length str)) p d t z) parsedComponents overflows.
Proof.
  intros Hp Hd Hz. unfold ParseLegacyDates. apply outcome_bind. pose proof (onStr_left p Hp). eapply outcome_mono; [apply legacyLoop_outcome; [done|lia|done|done]| |done]. by intros [st|].
Qed.

End Parse.

(** ** The array *)

Record parsedOk (p : ParsedDate) : Prop := {
  parsed_year : - INT_MAX < pYear p < INT_MAX;
  parsed_month : 0 <= pMonth p < 12;
  parsed_day : 1 <= pDay p <= 31;
  parsed_hour : 0 <= pHour p <= 24;
  parsed_time : 0 <= pMin p < 60 /\ 0 <= pSec p < 60 /\ 0 <= pMs p < 1000;
  parsed_midnight : pHour p = 24 -> pMin p = 0 /\ pSec p = 0 /\ pMs p = 0;
  parsed_zone : pZone p = INT_MAX \/ Z.abs (pZone p) < 25 * SEC_PER_HOUR }.

Lemma IsBetween_spec n lo hi : IsBetween n lo hi = true -> lo <= n <= hi.
Proof. unfold IsBetween. destruct (Z.ltb_spec n lo), (Z.ltb_spec hi n); cbn; done. Qed.

Lemma SetTimeZone_range z zone : zoneOk z -> SetTimeZone z = Some zone -> zone = INT_MAX \/ Z.abs zone < 25 * SEC_PER_HOUR.
Proof.
  unfold SetTimeZone, Zone.IsLocal, zoneOk. intros Hz. destruct (Z.eqb_spec (hour_ z) INT_MAX) as [E|E]; cbn [negb]; [intros [= <-]; by left|]. destruct (Time.HourIsValid (hour_ z)) eqn:Eh, (Time.MinuteIsValid (min_ z)) eqn:Em; cbn [negb orb]; try done.
  apply IsBetween_spec in Eh, Em. intros [= <-]. right. destruct Hz as [?|Hz]; [done|]. unfold SEC_PER_HOUR, SEC_PER_MINUTE. destruct Hz as [->| ->]; lia.
Qed.

Lemma SetTimeValue_range t h mi s ms : DateParse.SetTimeValue t = Some (h, mi, s, ms) ->
  0 <= h <= 24 /\ (0 <= mi < 60 /\ 0 <= s < 60 /\ 0 <= ms < 1000) /\ (h = 24 -> mi = 0 /\ s = 0 /\ ms = 0).
Proof.
  unfold DateParse.SetTimeValue. cbv zeta beta iota. generalize (if (0 <? timeIndex t)%nat then nth 0 (timeData t) 0 else 0) as h', (if (1 <? timeIndex t)%nat then nth 1 (timeData t) 0 else 0) as mi'.
  generalize (if (2 <? timeIndex t)%nat then nth 2 (timeData t) 0 else 0) as s', (if (3 <? timeIndex t)%nat then nth 3 (timeData t) 0 else 0) as ms'. intros s' ms' h' mi'. destruct (Z.eqb_spec h' 24) as [->|Hh].
  - destruct (Z.eqb_spec mi' 0), (Z.eqb_spec s' 0), (Z.eqb_spec ms' 0); cbn [andb]; intros E; simplify_eq. lia.
  - destruct (Time.HourIsValid h') eqn:Eh, (Time.MinuteIsValid mi') eqn:Emi, (Time.SecondIsValid s') eqn:Es, (Time.MilliSecondIsValid ms') eqn:Ems; cbn [negb orb]; intros E; simplify_eq. apply IsBetween_spec in Eh, Emi, Es, Ems. lia.
Qed.

Lemma SetDayValue_range d y m dd : dayOk d -> SetDayValue d = Some (y, m, dd) -> - INT_MAX < y < INT_MAX /\ 0 <= m < 12 /\ 1 <= dd <= 31.
Proof.
  intros [Hl Hf]. assert (forall i, - INT_MAX < (if (i <? GetIndex d)%nat then nth i (dayData d) 0 else 1) < INT_MAX) as Hdata.
  { intros i. destruct (_ <? _)%nat; [|by vm_compute]. assert (Z.abs (nth i (dayData d) 0) < INT_MAX) as Hn; [|lia]. destruct (Nat.lt_ge_cases i (length (dayData d))) as [Hi|Hi]; [|rewrite nth_overflow by done; by vm_compute]. rewrite Forall_forall in Hf. apply Hf. apply list_elem_of_In, nth_In. done. }
  unfold SetDayValue. case_match; [done|]. destruct (dayOrder d) as [[[y' m'] d']|] eqn:Eo; [|done]. assert (- INT_MAX < y' < INT_MAX) as Hy'. { pose proof (Hdata 0%nat) as H0. pose proof (Hdata 1%nat) as H1. pose proof (Hdata 2%nat) as H2. clear - Eo H0 H1 H2. unfold dayOrder in Eo. cbv zeta beta in Eo. revert Eo H0 H1 H2.
    generalize (if (0 <? GetIndex d)%nat then nth 0 (dayData d) 0 else 1) as d0, (if (1 <? GetIndex d)%nat then nth 1 (dayData d) 0 else 1) as d1, (if (2 <? GetIndex d)%nat then nth 2 (dayData d) 0 else 1) as d2. intros d0 d1 d2 Eo H0 H1 H2.
    change INT_MAX with 2147483647 in *. repeat case_match; simplify_eq; lia. }
  destruct (Day.MonthIsValid m') eqn:Em, (Day.DayIsValid d') eqn:Ed; cbn [negb orb]; try done. intros [= <- <- <-]. apply IsBetween_spec in Em, Ed. unfold MONTH_PER_YEAR, MAX_DAYS_MONTH in *. split; [|lia]. repeat case_match; try done; match goal with H : IsBetween _ _ _ = true |- _ => apply IsBetween_spec in H end; change INT_MAX with 2147483647 in *; lia.
Qed.

Lemma collect_ok d t z p : dayOk d -> zoneOk z -> collect d t z = Some p -> parsedOk p.
Proof.
  intros Hd Hz. unfold collect. destruct (SetTimeZone z) as [zone|] eqn:Ez; [|done]. destruct (DateParse.SetTimeValue t) as [[[[h mi] s] ms]|] eqn:Et; [|done]. destruct (SetDayValue d) as [[[y m] dd]|] eqn:Ed; [|done]. intros [= <-].
  apply (SetTimeZone_range _ _ Hz) in Ez. apply SetTimeValue_range in Et. apply (SetDayValue_range _ _ _ _ Hd) in Ed. split; cbn; tauto || lia.
Qed.

Lemma ParseDateString_outcome str : outcome (ParseDateString str) (fun r => forall p, r = Some p -> parsedOk p) (overflows str).
Proof.
  assert (onStr str (newProxy str)) as Hp by (exists str; split; [apply suffixOf_refl|done]). assert (dayOk Day.init) as Hd by (split; [done|repeat constructor]). assert (zoneOk Zone.init) as Hz by (by left).
  unfold ParseDateString. destruct (IsIsoDateTime (newProxy str) Day.init) as [[ok p] d] eqn:E. apply (IsIsoDateTime_on str) in E as [Hp' Hd']; [|done|done]. apply outcome_bind. apply outcome_mono with (P := parsedComponents) (R := overflows str); [| |done].
  - destruct ok; [by apply ParseIsoDateTime_outcome|by apply ParseLegacyDates_outcome].
  - intros [[[d' t'] z']|] Hr; [|done]. destruct Hr as [Hd'' Hz'']. intros q Hq. by eapply collect_ok.
Qed.
