(* ===== verification/DateRoundtrip.v ===== *)
(** * Dates are read back

    [Date.parse] of the strings that [toISOString], [toString] and [toUTCString] print. *)

From Stdlib Require Import ZArith Lia.
From S2P Require Import Prelude Values NumberHelper StringOrder DateUtils DateParse JSDate DateStrings DateSpec DateCorrect DateParseCorrect.

(** ** The ISO format *)

Definition isoYear (y : Z) : list Z := if y <? 0 then 45 :: fixedDigits 6 (- y) else if 9999 <? y then 43 :: fixedDigits 6 y else fixedDigits 4 y.

Lemma isoYear_ok y : Z.abs y < 10 ^ 6 ->
  (if hd 0 (ToCString y) =? NEG then StrToTargetLength (ToCString y) 6
   else if 4 <? Z.of_nat (length (ToCString y)) then PLUS :: StrToTargetLength (ToCString y) 6 else StrToTargetLength (ToCString y) 4) = isoYear y.
Proof.
  intros Hy. unfold isoYear. destruct (Z.ltb_spec y 0).
  - unfold ToCString. rewrite (proj2 (Z.leb_gt 0 y)) by lia. unfold NEG. cbn [hd]. change (45 =? 45) with true. cbv iota. unfold StrToTargetLength, NEG. cbn [hd tail length]. change (45 =? 45) with true. cbv iota.
    destruct (digitsOf_padded 6 20 (- y) ltac:(change (10 ^ Z.of_nat 6) with (10 ^ 6); lia) ltac:(lia)) as [Hl <-]. cbn [app]. do 3 f_equal. lia.
  - rewrite ToCString_head by lia. pose proof (StrToTargetLength_ok 6 y ltac:(change (10 ^ Z.of_nat 6) with (10 ^ 6); lia) ltac:(lia)) as E6. change (Z.of_nat 6) with 6 in E6. rewrite E6.
    assert (length (ToCString y) = length (digitsOf 20 y)) as El by (unfold ToCString; by rewrite (proj2 (Z.leb_le 0 y)) by lia). destruct (Z.ltb_spec 9999 y).
    + destruct (Z.ltb_spec 4 (Z.of_nat (length (ToCString y)))); [done|]. exfalso. assert (y < 10 ^ Z.of_nat (length (digitsOf 20 y))) as Hb by (apply digitsOf_bound; lia). assert (10 ^ Z.of_nat (length (digitsOf 20 y)) <= 10 ^ 4) by (apply Z.pow_le_mono_r; lia). change (10 ^ 4) with 10000 in *. lia.
    + destruct (digitsOf_padded 4 20 y ltac:(change (10 ^ Z.of_nat 4) with 10000; lia) ltac:(lia)) as [Hl _]. destruct (Z.ltb_spec 4 (Z.of_nat (length (ToCString y)))); [lia|]. pose proof (StrToTargetLength_ok 4 y ltac:(change (10 ^ Z.of_nat 4) with 10000; lia) ltac:(lia)) as E4. exact E4.
Qed.

(** The fields that a string shows. *)
Definition shown (f : DateFields) : Prop := validFields f /\ Z.abs (YEAR f) < 10 ^ 6.

Lemma shown_bounds f : shown f -> 0 <= MONTH f < 12 /\ 1 <= DAYS f <= 31 /\ 0 <= HOUR f < 24 /\ 0 <= MIN f < 60 /\ 0 <= SEC f < 60 /\ 0 <= MS f < 1000.
Proof. intros [((Hm & Hd) & Hh & Hmi & Hs & Hms) _]. pose proof (monthLength_bounds (YEAR f) _ Hm). lia. Qed.

Lemma append2 n str : 0 <= n < 100 -> ConvertAndAppend n STR_LENGTH_OTHERS str = str ++ fixedDigits 2 n.
Proof. intros H. apply (ConvertAndAppend_ok 2); [done|lia]. Qed.

Lemma append3 n str : 0 <= n < 1000 -> ConvertAndAppend n (STR_LENGTH_OTHERS + 1) str = str ++ fixedDigits 3 n.
Proof. intros H. apply (ConvertAndAppend_ok 3); [done|lia]. Qed.

Lemma appendTime_ok f str : shown f -> appendTime f str = str ++ fixedDigits 2 (HOUR f) ++ 58 :: fixedDigits 2 (MIN f) ++ 58 :: fixedDigits 2 (SEC f).
Proof. intros H%shown_bounds. unfold appendTime, COLON. rewrite !append2 by lia. rewrite <- !app_assoc. cbn [app]. done. Qed.

Lemma isoString_ok f : shown f ->
  isoString f = isoYear (YEAR f) ++ 45 :: fixedDigits 2 (MONTH f + 1) ++ 45 :: fixedDigits 2 (DAYS f) ++ 84 :: fixedDigits 2 (HOUR f) ++ 58 :: fixedDigits 2 (MIN f) ++ 58 :: fixedDigits 2 (SEC f) ++ 46 :: fixedDigits 3 (MS f) ++ [90].
Proof.
  intros Hs. pose proof (shown_bounds f Hs) as Hb. unfold isoString. change (STR_LENGTH_YEAR + STR_LENGTH_OTHERS) with 6. unfold STR_LENGTH_YEAR. rewrite isoYear_ok by apply Hs. rewrite append3, appendTime_ok, !append2 by (done || lia). unfold NEG, FLAG_TIME, POINT, FLAG_UTC. rewrite <- !app_assoc. cbn [app]. done.
Qed.

(** ** Reading the ISO format *)

Ltac unit_types := repeat match goal with
  | |- context [Unit.hasType ?t ?u] => let t' := eval hnf in (type_ u) in is_constructor t'; let b := eval vm_compute in (bool_decide (t' = t)) in change (Unit.hasType t u) with b
  end; cbn [GetValue GetLength Unit.Number Unit.Symbol Unit.Word Unit.Space Unit.StringEnd andb orb negb].

(** One step of a parser on known units. *)
Ltac units := unfold Unit.IsSign, Unit.IsSymbol, Unit.IsTwoDecimalDigit, Unit.IsFourDecimalDigit, Unit.IsSixDecimalDigit, Unit.IsNumber, Unit.IsStringEnd, Unit.IsTimeFlag, Unit.IsWordZ, Unit.IsTimeZone, Unit.IsMonth, Unit.IsAMOrPM, Unit.IsInvalidWord, Unit.IsSpaceOrTab; unit_types.

Lemma two_digits n s : 0 <= n < 100 -> notDigit s -> newProxy (fixedDigits 2 n ++ s) = mkProxy (Unit.Number n 2) s.
Proof. intros Hn Hs. apply (newProxy_number 2); [done|lia|done]. Qed.

Lemma isoMonthDay_ok m d s day : 0 <= m < 100 -> 0 <= d < 100 -> notAlpha s ->
  isoMonthDay (mkProxy (Unit.Symbol 45) (fixedDigits 2 m ++ 45 :: fixedDigits 2 d ++ 84 :: s)) day = (true, mkProxy (Unit.Word DATE_TIME_FALG 0 1) s, Day.setData (Day.setData day m) d).
Proof.
  intros Hm Hd Hs. unfold isoMonthDay, NextDate. cbn [GetDate str_]. units. change (45 =? 45) with true. cbv iota. rewrite two_digits by done. cbn [GetDate str_]. units. change (2 =? 2) with true. cbn [negb]. cbv iota zeta.
  rewrite newProxy_symbol by (cbn; tauto). cbn [GetDate str_]. units. change (45 =? 45) with true. cbv iota. rewrite two_digits by done. cbn [GetDate str_]. units. change (2 =? 2) with true. cbn [negb]. cbv iota. rewrite newProxy_T by done. cbn [GetDate str_]. units. done.
Qed.

Lemma digit_eqb n : (n =? n) = true.
Proof. apply Z.eqb_refl. Qed.

(** The rest of a step: the comparisons of the units and the next unit. *)
Ltac step := rewrite ?digit_eqb; cbn [negb andb orb]; cbv iota zeta; rewrite ?newProxy_symbol by (cbn; tauto); cbn [GetDate str_]; units.

Lemma isoTime_ok h mi se ms s : 0 <= h < 100 -> 0 <= mi < 100 -> 0 <= se < 100 -> 0 <= ms < 1000 -> notDigit s ->
  isoTime (mkProxy (Unit.Number h 2) (58 :: fixedDigits 2 mi ++ 58 :: fixedDigits 2 se ++ 46 :: fixedDigits 3 ms ++ s)) Time.init = Ok (Some (newProxy s, mkTime [h; mi; se; ms] 4)).
Proof.
  intros Hh Hmi Hse Hms Hs. unfold isoTime, NextDate. cbn [GetDate str_]. units. step. step. rewrite two_digits by done. step. step. step. rewrite two_digits by done. step. step. step.
  rewrite (newProxy_number 3) by (done || lia). step. reflexivity.
Qed.

(** The string of the fields gives the fields. *)
Lemma IsIsoDateTime_ok y m d s : Z.abs y < 10 ^ 6 -> 0 <= m < 100 -> 0 <= d < 100 -> notAlpha s ->
  IsIsoDateTime (newProxy (isoYear y ++ 45 :: fixedDigits 2 m ++ 45 :: fixedDigits 2 d ++ 84 :: s)) Day.init = (true, mkProxy (Unit.Word DATE_TIME_FALG 0 1) s, mkDay [y; m; d] 3 INT_MAX false).
Proof.
  intros Hy Hm Hd Hs. unfold isoYear, IsIsoDateTime, NextDate. assert (forall t, notDigit (45 :: t)) as Hsym by done. assert (10 ^ Z.of_nat 6 = 10 ^ 6) as E6 by reflexivity. destruct (Z.ltb_spec y 0); [|destruct (Z.ltb_spec 9999 y)].
  - cbn [app]. rewrite newProxy_symbol by (cbn; tauto). cbn [GetDate str_]. units. step. rewrite (newProxy_number 6) by (done || lia). step. change (Z.of_nat 6 =? 6) with true. step. rewrite (proj2 (Z.eqb_neq (- y) 0)) by lia. step. rewrite isoMonthDay_ok by done. rewrite Z.opp_involutive. done.
  - cbn [app]. rewrite newProxy_symbol by (cbn; tauto). cbn [GetDate str_]. units. step. rewrite (newProxy_number 6) by (done || lia). step. change (Z.of_nat 6 =? 6) with true. step. change (45 =? 43) with false. step. rewrite isoMonthDay_ok by done. done.
  - rewrite (newProxy_number 4); [|change (10 ^ Z.of_nat 4) with 10000; lia|lia|done]. cbn [GetDate str_]. units. change (Z.of_nat 4 =? 4) with true. step. rewrite isoMonthDay_ok by done. done.
Qed.

(** ** Components in their ranges *)

Lemma IsBetween_true n lo hi : lo <= n <= hi -> IsBetween n lo hi = true.
Proof. intros H. unfold IsBetween. by rewrite !(proj2 (Z.ltb_ge _ _)) by lia. Qed.

Lemma IsBetween_false n lo hi : n < lo \/ hi < n -> IsBetween n lo hi = false.
Proof. intros H. unfold IsBetween. destruct (Z.ltb_spec n lo), (Z.ltb_spec hi n); cbn; try done. lia. Qed.

Lemma SetTimeValue_ok h mi s ms n : 0 <= h < 24 -> 0 <= mi < 60 -> 0 <= s < 60 -> 0 <= ms < 1000 -> n = 4%nat \/ (n = 3%nat /\ ms = 0) -> DateParse.SetTimeValue (mkTime [h; mi; s; ms] n) = Some (h, mi, s, ms).
Proof.
  intros Hh Hmi Hs Hms Hn. assert (DateParse.SetTimeValue (mkTime [h; mi; s; ms] n) = DateParse.SetTimeValue (mkTime [h; mi; s; ms] 4)) as -> by (destruct Hn as [->|[-> ->]]; done).
  cbv [DateParse.SetTimeValue timeIndex timeData nth Nat.ltb Nat.leb]. rewrite (proj2 (Z.eqb_neq h 24)) by lia. unfold Time.HourIsValid, Time.MinuteIsValid, Time.SecondIsValid, Time.MilliSecondIsValid. by rewrite !IsBetween_true by lia.
Qed.

Lemma SetTimeZone_ok sign hour min : 0 <= hour <= 24 -> 0 <= min < 60 -> SetTimeZone (mkZone sign hour min) = Some (sign * (hour * SEC_PER_HOUR + min * SEC_PER_MINUTE)).
Proof.
  intros Hh Hm. unfold SetTimeZone, Zone.IsLocal. cbn [hour_ min_ sign_]. rewrite (proj2 (Z.eqb_neq hour INT_MAX)) by (change INT_MAX with 2147483647; lia). unfold Time.HourIsValid, Time.MinuteIsValid. by rewrite !IsBetween_true by lia.
Qed.

Lemma SetDayValue_iso y m d : 0 <= m < 12 -> 1 <= d <= 31 -> SetDayValue (mkDay [y; m + 1; d] 3 INT_MAX true) = Some (y, m, d).
Proof.
  intros Hm Hd. unfold SetDayValue. change (dayOrder _) with (Some (y, m + 1, d)). cbn [GetIndex Nat.eqb IsIso negb]. unfold Day.MonthIsValid, Day.DayIsValid, MONTH_PER_YEAR, MAX_DAYS_MONTH. rewrite !IsBetween_true by lia. cbn [negb orb]. do 3 f_equal. lia.
Qed.

Lemma ParseDateString_iso f : shown f -> ParseDateString (isoString f) = Ok (Some (mkParsed (YEAR f) (MONTH f) (DAYS f) (HOUR f) (MIN f) (SEC f) (MS f) 0)).
Proof.
  intros Hf. pose proof (shown_bounds f Hf) as Hb. rewrite isoString_ok by done. unfold ParseDateString. rewrite IsIsoDateTime_ok; [|apply Hf|lia|lia|apply notAlpha_digits]. unfold ParseIsoDateTime, NextDate. cbn [GetDate str_]. units. step. rewrite two_digits by (done || lia).
  rewrite isoTime_ok by (done || lia). cbn [mbind result_bind]. change (newProxy [90]) with (mkProxy (Unit.Word DATE_TIME_ZONE 0 1) []). unfold isoZone. cbn [GetDate str_]. units. step. cbn [option_map mbind result_bind].
  change (Zone.IsLocal (Zone.SetUTC Zone.init)) with false. cbn [andb]. cbv iota. unfold collect, Day.SetIsoFlag, Zone.SetUTC. cbn [dayData GetIndex month_]. rewrite SetTimeZone_ok by lia. rewrite SetTimeValue_ok by (lia || by left). by rewrite SetDayValue_iso by lia.
Qed.

(** ** The time of the fields that were read *)

Definition withoutMs (f : DateFields) : DateFields := mkFields (YEAR f) (MONTH f) (DAYS f) (HOUR f) (MIN f) (SEC f) 0 (WEEKDAY f).

Lemma GetTimeFromString_ok clock str f zone : shown f -> Z.abs (timeOf f) <= 9 * 10 ^ 15 -> Z.abs zone <= 90000 ->
  ParseDateString str = Ok (Some (mkParsed (YEAR f) (MONTH f) (DAYS f) (HOUR f) (MIN f) (SEC f) (MS f) zone)) ->
  GetTimeFromString clock str = Ok (TimeClip (Some (timeOf f - zone * 1000))).
Proof.
  intros Hf Ht Hz E. pose proof (shown_bounds f Hf) as Hb. unfold GetTimeFromString. rewrite E. cbn [mbind result_bind pYear pMonth pDay pHour pMin pSec pMs pZone]. rewrite (proj2 (Z.eqb_neq zone INT_MAX)) by (change INT_MAX with 2147483647; lia).
  rewrite MakeDay_ok; [|destruct Hf as [_ Hy]; lia|lia|lia]. cbn [mbind result_bind]. rewrite MakeTime_ok by lia. unfold MakeDate. cbn [mbind option_bind]. change (9 * 10 ^ 15) with 9000000000000000 in Ht. unfold timeOf, MS_PER_DAY, MS_PER_HOUR, MS_PER_MINUTE, MS_PER_SECOND in *.
  set (n := dayNumber _ _ _) in *. clearbody n. rewrite fl_small by (pow2_literal; lia). cbn [mbind option_bind]. rewrite fl_small by (pow2_literal; lia). cbn [mbind option_bind]. rewrite TimeClip_fl. do 3 f_equal. lia.
Qed.

Lemma TimeClip_some t : Z.abs t <= MAX_TIME_IN_MS -> TimeClip (Some t) = Some t.
Proof. intros H. unfold TimeClip. by rewrite !(proj2 (Z.leb_le _ _)) by lia. Qed.

Lemma fieldsOf_shown t : Z.abs t <= 2 * 10 ^ 16 -> shown (fieldsOf t).
Proof. intros H. pose proof (fieldsOf_ok t) as Hf. split; [apply Hf|]. pose proof (dateOfTime_year t _ H Hf) as Hy. eapply Z.le_lt_trans; [exact Hy|reflexivity]. Qed.

Lemma isoString_time clock t : Z.abs t <= MAX_TIME_IN_MS -> GetTimeFromString clock (isoString (fieldsOf t)) = Ok (Some t).
Proof.
  intros Ht. pose proof (fieldsOf_ok t) as (_ & E & _). assert (Z.abs t <= 2 * 10 ^ 16) as Ht2 by (unfold MAX_TIME_IN_MS in Ht; lia). pose proof (fieldsOf_shown t Ht2) as Hs.
  rewrite (GetTimeFromString_ok clock _ (fieldsOf t) 0 Hs); [|rewrite E; unfold MAX_TIME_IN_MS in Ht; lia|done|by apply ParseDateString_iso]. rewrite E, Z.mul_0_l, Z.sub_0_r. by rewrite TimeClip_some.
Qed.

(** ** The other formats *)

(** The loop of the parser at a position of the string. *)
Definition loopAt (fuel : nat) (s : list Z) (hasNumber : bool) (day : DayValue) (time : DateParse.TimeValue) (zone : TimeZone) : result (option LegacyState) :=
  legacyLoop fuel (GetDate (newProxy s)) (mkLegacy (NextDate (newProxy s)) hasNumber day time zone).

Lemma loop_space fuel s n day time zone : loopAt (S fuel) (32 :: s) n day time zone = loopAt fuel s n day time zone.
Proof. reflexivity. Qed.

Lemma loop_comma fuel s n day time zone : loopAt (S fuel) (44 :: s) n day time zone = loopAt fuel s n day time zone.
Proof. reflexivity. Qed.

Lemma loop_end fuel n day time zone : loopAt fuel [] n day time zone = Ok (Some (mkLegacy (newProxy []) n day time zone)).
Proof. by destruct fuel. Qed.

Lemma weekday_unit w name c s : get WEEK_DAY_NAME w = Ok name -> c = 32 \/ c = 44 -> newProxy (name ++ c :: s) = mkProxy (Unit.Word DATE_INVALID_WORD 0 3) (c :: s).
Proof. intros E Hc. destruct w as [|[|[|[|[|[|[|w]]]]]]]; try (injection E as <-); try done; destruct Hc as [->| ->]; reflexivity. Qed.

Lemma month_unit m name s : get MONTH_NAME (Z.to_nat m) = Ok name -> 0 <= m -> newProxy (name ++ 32 :: s) = mkProxy (Unit.Word DATE_MONTH (m + 1) 3) (32 :: s).
Proof.
  intros E Hm. replace m with (Z.of_nat (Z.to_nat m)) by lia. set (i := Z.to_nat m) in *. clearbody i. do 12 (destruct i as [|i]; [injection E as <-; reflexivity|]). done.
Qed.

Lemma loop_weekday fuel w name c s day time zone : get WEEK_DAY_NAME w = Ok name -> c = 32 \/ c = 44 -> loopAt (S fuel) (name ++ c :: s) false day time zone = loopAt fuel (c :: s) false day time zone.
Proof. intros E Hc. unfold loopAt at 1. rewrite (weekday_unit w) by done. unfold NextDate. cbn [GetDate str_]. destruct Hc as [->| ->]; reflexivity. Qed.

Lemma loop_month fuel m name s n day time zone : get MONTH_NAME (Z.to_nat m) = Ok name -> 0 <= m -> loopAt (S fuel) (name ++ 32 :: s) n day time zone = loopAt fuel (32 :: s) n (Day.SetMonth day (m + 1)) time zone.
Proof. intros E Hm. unfold loopAt at 1. rewrite (month_unit m) by done. reflexivity. Qed.

Lemma loop_day fuel k v s n day day' zone : 0 <= v < 10 ^ Z.of_nat k -> (1 <= k <= 8)%nat -> Day.SetData day v = Some day' ->
  loopAt (S fuel) (fixedDigits k v ++ 32 :: s) n day Time.init zone = loopAt fuel (32 :: s) true day' Time.init zone.
Proof. intros Hv Hk Hd. unfold loopAt at 1. rewrite newProxy_number by done. unfold NextDate. cbn [str_]. rewrite newProxy_space. cbn. unfold legacyNumber. cbn. rewrite Hd. reflexivity. Qed.

Lemma loop_colon fuel h mi s n day time time' zone : 0 <= h < 100 -> 0 <= mi < 100 -> notDigit s -> Time.SetData time h = Some time' ->
  loopAt (S fuel) (fixedDigits 2 h ++ 58 :: fixedDigits 2 mi ++ s) n day time zone = loopAt fuel (fixedDigits 2 mi ++ s) true day time' zone.
Proof. intros Hh Hmi Hs Ht. unfold loopAt. rewrite !two_digits by done. unfold NextDate. cbn [str_]. rewrite newProxy_symbol by (cbn; tauto). cbn -[newProxy fixedDigits]. unfold legacyNumber, NextDate. cbn -[newProxy fixedDigits Time.SetData]. rewrite two_digits by done. cbn -[newProxy fixedDigits Time.SetData]. rewrite Ht. reflexivity. Qed.

Lemma loop_second fuel v s n day h mi zone : 0 <= v < 60 ->
  loopAt (S fuel) (fixedDigits 2 v ++ 32 :: s) n day (mkTime [h; mi; 0; 0] 2) zone = loopAt fuel (32 :: s) true day (mkTime [h; mi; v; 0] 3) zone.
Proof.
  intros Hv. unfold loopAt at 1. rewrite two_digits by (done || lia). unfold NextDate. cbn [str_]. rewrite newProxy_space. cbn -[newProxy]. unfold legacyNumber. cbn [lgDay lgTime lgZone GetDate]. change (Unit.IsSymbol 58 Unit.Space) with false. change (Unit.IsSymbol 46 Unit.Space) with false. cbn [andb].
  assert (Time.IsValid (mkTime [h; mi; 0; 0] 2) v = true) as ->; [|reflexivity]. unfold Time.IsValid, Time.SecondIsValid. rewrite IsBetween_true by lia. done.
Qed.

Lemma loop_clock fuel h mi se s n day zone : 0 <= h < 100 -> 0 <= mi < 100 -> 0 <= se < 60 ->
  loopAt (S (S (S fuel))) (fixedDigits 2 h ++ 58 :: fixedDigits 2 mi ++ 58 :: fixedDigits 2 se ++ 32 :: s) n day Time.init zone = loopAt fuel (32 :: s) true day (mkTime [h; mi; se; 0] 3) zone.
Proof.
  intros Hh Hmi Hs. rewrite (loop_colon _ _ _ _ _ _ _ (mkTime [h; 0; 0; 0] 1)) by done. rewrite (loop_colon _ _ _ _ _ _ _ (mkTime [h; mi; 0; 0] 2)) by (done || lia). by rewrite loop_second.
Qed.

Lemma GMT_unit s : notAlpha s -> newProxy (71 :: 77 :: 84 :: s) = mkProxy (Unit.Word DATE_TIME_ZONE 1 3) s.
Proof. unfold notAlpha, StringReader.IsAlpha. intros H. unfold newProxy, Read. cbn -[StringReader.ReadAlphabet]. destruct s as [|v s]; [done|]. cbn in *. by rewrite H. Qed.

Lemma loop_GMT fuel s day time zone : notAlpha s -> loopAt (S fuel) (71 :: 77 :: 84 :: s) true day time zone = loopAt fuel s true day time (Zone.SetUTC zone).
Proof. intros Hs. unfold loopAt at 1. rewrite GMT_unit by done. reflexivity. Qed.

Lemma loop_offset fuel (negative : bool) v n day h mi s zone : 0 <= v < 10000 ->
  loopAt (S fuel) ((if negative then 45 else 43) :: fixedDigits 4 v) n day (mkTime [h; mi; s; 0] 3) zone =
  Ok (Some (mkLegacy (newProxy []) n day (mkTime [h; mi; s; 0] 3) (mkZone (if negative then -1 else 1) (Z.quot v 100) (Z.rem v 100)))).
Proof.
  intros Hv. unfold loopAt. rewrite newProxy_symbol by (destruct negative; cbn; tauto). unfold NextDate. cbn [str_]. rewrite <- (app_nil_r (fixedDigits 4 v)). rewrite (newProxy_number 4) by (done || lia). destruct negative; cbn -[newProxy Z.quot Z.rem]; by destruct fuel.
Qed.

(** ** Reading the other formats *)

Lemma SetDayValue_named y m d : 100 <= y -> 0 <= m < 12 -> 1 <= d <= 31 -> SetDayValue (mkDay [d; y; 0] 2 (m + 1) false) = Some (y, m, d).
Proof.
  intros Hy Hm Hd. unfold SetDayValue. assert (dayOrder (mkDay [d; y; 0] 2 (m + 1) false) = Some (y, m + 1, d)) as ->.
  { unfold dayOrder. cbn [month_ GetIndex dayData]. rewrite (proj2 (Z.eqb_neq (m + 1) INT_MAX)) by (change INT_MAX with 2147483647; lia). cbn. unfold Day.DayIsValid, MAX_DAYS_MONTH. by rewrite IsBetween_true by lia. }
  cbn [GetIndex Nat.eqb IsIso negb]. rewrite !(IsBetween_false y) by lia. unfold Day.MonthIsValid, Day.DayIsValid, MONTH_PER_YEAR, MAX_DAYS_MONTH. rewrite !IsBetween_true by lia. cbn [negb orb]. do 3 f_equal. lia.
Qed.

Lemma names_of f : shown f -> WEEKDAY f = weekdayOf f -> exists weekday month, get WEEK_DAY_NAME (Z.to_nat (WEEKDAY f)) = Ok weekday /\ get MONTH_NAME (Z.to_nat (MONTH f)) = Ok month /\ length weekday = 3%nat /\ length month = 3%nat.
Proof.
  intros Hf Hw. pose proof (shown_bounds f Hf) as Hb. assert (0 <= WEEKDAY f < 7) as Hw7 by (rewrite Hw; apply Z.mod_pos_bound; lia).
  assert (Z.to_nat (WEEKDAY f) < 7)%nat as H7 by lia. assert (Z.to_nat (MONTH f) < 12)%nat as H12 by lia. revert H7 H12. generalize (Z.to_nat (WEEKDAY f)) as i, (Z.to_nat (MONTH f)) as j. intros i j Hi Hj.
  do 7 (destruct i as [|i]; [do 12 (destruct j as [|j]; [by eexists _, _|]); lia|]). lia.
Qed.

Lemma localTimeString_ok min : Z.abs min < 1440 -> localTimeString min = (if min <? 0 then 45 else 43) :: fixedDigits 4 (100 * (Z.abs min / 60) + Z.abs min mod 60).
Proof.
  intros Hm. unfold localTimeString, MINUTE_PER_HOUR, STR_LENGTH_OTHERS, PLUS, NEG. assert (forall a, 0 <= a < 1440 -> StrToTargetLength (ToCString (Z.quot a 60)) 2 ++ StrToTargetLength (ToCString (Z.rem a 60)) 2 = fixedDigits 4 (100 * (a / 60) + a mod 60)) as Ha.
  - intros a Ha. rewrite Z.quot_div_nonneg, Z.rem_mod_nonneg by lia. pose proof (Z.mod_pos_bound a 60 ltac:(lia)). assert (0 <= a / 60 < 24) by (split; [apply Z.div_pos; lia|apply Z.div_lt_upper_bound; lia]).
    change 2 with (Z.of_nat 2). rewrite (StrToTargetLength_ok 2 (a / 60)), (StrToTargetLength_ok 2 (a mod 60)) by (change (10 ^ Z.of_nat 2) with 100; lia). set (q := a / 60) in *. set (r := a mod 60) in *. clearbody q r. cbn [fixedDigits app]. f_equal; [|f_equal; [|f_equal; [|f_equal]]]; Z.to_euclidean_division_equations; lia.
  - destruct (Z.leb_spec 0 min).
    + rewrite (proj2 (Z.ltb_ge min 0)) by lia. cbn [app]. rewrite Z.abs_eq by lia. f_equal. apply Ha. lia.
    + rewrite (proj2 (Z.ltb_lt min 0)) by lia. cbn [app]. rewrite Z.abs_neq by lia. f_equal. apply Ha. lia.
Qed.

Lemma dateString_ok f : shown f -> WEEKDAY f = weekdayOf f -> 0 <= YEAR f -> exists weekday month k,
  get WEEK_DAY_NAME (Z.to_nat (WEEKDAY f)) = Ok weekday /\ get MONTH_NAME (Z.to_nat (MONTH f)) = Ok month /\ length weekday = 3%nat /\ length month = 3%nat /\ (4 <= k <= 6)%nat /\ YEAR f < 10 ^ Z.of_nat k /\
  dateString f = Ok (weekday ++ 32 :: month ++ 32 :: fixedDigits 2 (DAYS f) ++ 32 :: fixedDigits k (YEAR f)) /\
  utcString f = Ok (weekday ++ 44 :: 32 :: fixedDigits 2 (DAYS f) ++ 32 :: month ++ 32 :: fixedDigits k (YEAR f) ++ 32 :: fixedDigits 2 (HOUR f) ++ 58 :: fixedDigits 2 (MIN f) ++ 58 :: fixedDigits 2 (SEC f) ++ 32 :: [71; 77; 84]).
Proof.
  intros Hf Hw Hy. pose proof (shown_bounds f Hf) as Hb. destruct (names_of f Hf Hw) as (weekday & month & Ew & Em & Lw & Lm). destruct Hf as [Hv Hyear].
  assert (exists k, (4 <= k <= 6)%nat /\ YEAR f < 10 ^ Z.of_nat k /\ forall str, ConvertAndAppend (YEAR f) STR_LENGTH_YEAR str = str ++ fixedDigits k (YEAR f)) as (k & Hk & Hyk & Ek).
  { destruct (ConvertAndAppend_long 4 (YEAR f) [] ltac:(lia) ltac:(lia)) as (k & Hk & Hyk & E). exists k. split; [done|]. split; [lia|]. intros str. revert E. unfold STR_LENGTH_YEAR, ConvertAndAppend, AppendStrToTargetLength. change (Z.of_nat 4) with 4. rewrite ToCString_head by done. cbn [app]. intros <-. by rewrite app_assoc. }
  exists weekday, month, k. split; [done|]. split; [done|]. split; [done|]. split; [done|]. split; [done|]. split; [done|]. unfold dateString, utcString. rewrite Ew, Em. cbn [mbind result_bind]. unfold SPACE, COMMA. rewrite !append2 by lia. rewrite !Ek, appendTime_ok by done. rewrite <- !app_assoc. cbn [app]. done.
Qed.

Lemma legacy_start w name c s : get WEEK_DAY_NAME w = Ok name -> c = 32 \/ c = 44 -> ParseDateString (name ++ c :: s) =
  r ← loopAt (S (length (name ++ c :: s))) (name ++ c :: s) false Day.init Time.init Zone.init;
  Ok (match r with Some st => collect (lgDay st) (lgTime st) (lgZone st) | None => None end).
Proof.
  intros E Hc. unfold ParseDateString. rewrite (weekday_unit w) by done. change (IsIsoDateTime _ Day.init) with (false, mkProxy (Unit.Word DATE_INVALID_WORD 0 3) (c :: s), Day.init). cbv iota. unfold ParseLegacyDates, loopAt. rewrite (weekday_unit w) by done.
  cbn [GetIndex Day.init]. change (0 <? 0)%nat with false. set (r := legacyLoop _ _ _). by destruct r as [[st|]|e].
Qed.

(** What [toString] prints, with the offset in minutes. *)
Lemma ParseDateString_full f min : shown f -> WEEKDAY f = weekdayOf f -> 100 <= YEAR f -> Z.abs min < 1440 ->
  exists str, fullString f min = Ok str /\ ParseDateString str = Ok (Some (mkParsed (YEAR f) (MONTH f) (DAYS f) (HOUR f) (MIN f) (SEC f) 0 (min * 60))).
Proof.
  intros Hf Hw Hy Hmin. pose proof (shown_bounds f Hf) as Hb. destruct (dateString_ok f Hf Hw ltac:(lia)) as (weekday & month & k & Ew & Em & Lw & Lm & Hk & Hyk & Es & _). unfold fullString. rewrite Es. cbn [mbind result_bind]. eexists. split; [reflexivity|].
  unfold timeString. rewrite appendTime_ok by done. rewrite localTimeString_ok by done. set (off := 100 * (Z.abs min / 60) + Z.abs min mod 60). change (chars "GMT") with [71; 77; 84]. unfold SPACE. rewrite <- !app_assoc. cbn [app]. rewrite <- !app_assoc. cbn [app]. rewrite <- !app_assoc. cbn [app].
  rewrite (legacy_start _ _ _ _ Ew) by (by left). match goal with |- context [loopAt (S (length ?l)) _ _ _ _ _] => assert (exists fuel, S (length l) = (14 + fuel)%nat) as [fuel ->]; [exists (length l - 13)%nat|] end.
  { repeat rewrite ?length_app, ?length_cons, ?fixedDigits_length. lia. }
  cbn [Nat.add]. rewrite (loop_weekday _ _ _ _ _ _ _ _ Ew) by (by left). rewrite loop_space, (loop_month _ _ _ _ _ _ _ _ Em), loop_space by lia.
  rewrite (loop_day _ 2 _ _ _ _ (mkDay [DAYS f; 0; 0] 1 (MONTH f + 1) false)), loop_space by (done || lia). rewrite (loop_day _ k _ _ _ _ (mkDay [DAYS f; YEAR f; 0] 2 (MONTH f + 1) false)), loop_space by (done || lia). rewrite loop_clock, loop_space by lia.
  rewrite loop_GMT by (by destruct (min <? 0)). assert (0 <= off < 10000 /\ Z.quot off 100 = Z.abs min / 60 /\ Z.rem off 100 = Z.abs min mod 60) as (Ho & Eq & Er) by (unfold off; Z.to_euclidean_division_equations; lia). rewrite loop_offset by done. rewrite Eq, Er. cbn [mbind result_bind lgDay lgTime lgZone].
  unfold collect. rewrite SetTimeZone_ok; [|Z.to_euclidean_division_equations; lia..]. rewrite SetTimeValue_ok by (lia || by right). rewrite SetDayValue_named by lia. do 3 f_equal. unfold SEC_PER_HOUR, SEC_PER_MINUTE. destruct (Z.ltb_spec min 0); Z.to_euclidean_division_equations; lia.
Qed.

(** What [toUTCString] prints. *)
Lemma ParseDateString_utc f : shown f -> WEEKDAY f = weekdayOf f -> 100 <= YEAR f ->
  exists str, utcString f = Ok str /\ ParseDateString str = Ok (Some (mkParsed (YEAR f) (MONTH f) (DAYS f) (HOUR f) (MIN f) (SEC f) 0 0)).
Proof.
  intros Hf Hw Hy. pose proof (shown_bounds f Hf) as Hb. destruct (dateString_ok f Hf Hw ltac:(lia)) as (weekday & month & k & Ew & Em & Lw & Lm & Hk & Hyk & _ & Es). rewrite Es. eexists. split; [reflexivity|].
  rewrite (legacy_start _ _ _ _ Ew) by (by right). match goal with |- context [loopAt (S (length ?l)) _ _ _ _ _] => assert (exists fuel, S (length l) = (14 + fuel)%nat) as [fuel ->]; [exists (length l - 13)%nat|] end.
  { repeat rewrite ?length_app, ?length_cons, ?fixedDigits_length. lia. }
  cbn [Nat.add]. rewrite (loop_weekday _ _ _ _ _ _ _ _ Ew) by (by right). rewrite loop_comma, loop_space. rewrite (loop_day _ 2 _ _ _ _ (mkDay [DAYS f; 0; 0] 1 INT_MAX false)), loop_space by (done || lia). rewrite (loop_month _ _ _ _ _ _ _ _ Em), loop_space by lia.
  rewrite (loop_day _ k _ _ _ _ (mkDay [DAYS f; YEAR f; 0] 2 (MONTH f + 1) false)), loop_space by (done || lia). rewrite loop_clock, loop_space by lia. rewrite loop_GMT by done. rewrite loop_end. cbn [mbind result_bind lgDay lgTime lgZone].
  unfold collect, Zone.SetUTC. rewrite SetTimeZone_ok by lia. rewrite SetTimeValue_ok by (lia || by right). rewrite SetDayValue_named by lia. done.
Qed.
