(* ===== verification/DateAll.v ===== *)
(** * Dates: theorems

    What [JSDate], [DateStrings] and [DateParse] are proved to do, with the lemmas of
    [DateCorrect], [DateParseCorrect] and [DateRoundtrip]. *)

From Stdlib Require Import ZArith Lia.
From S2P Require Import Prelude Values NumberHelper StringOrder DateUtils DateParse JSDate DateStrings DateSpec DateCorrect DateParseCorrect DateRoundtrip.

(** ** Sequences of calls *)

(** C7: Sequences of methods of a date, on a thread that has converted other times before: every answer, and the time value in
    the end, is the one that the time value alone determines.  Arguments of setters are at most [10 ^ 8] or NaN, and no
    argument of [setFullYear] throws ([callOk]).  The offset that a date keeps must not be the one of another time: either the
    time zone has one offset, or the calls include no [setTime], no UTC setter and no local setter without arguments or with
    an argument that is NaN or throws ([refreshes]); [setTime_keeps_offset] shows what happens otherwise. *)
Theorem dateCalls_correct clock c t calls :
  (forall u, Z.abs (offsetAt clock u) < MS_PER_DAY) -> cacheOk c -> Z.abs t <= MAX_TIME_IN_MS ->
  Forall callOk calls -> (constantOffset clock \/ Forall refreshes calls) ->
  let '(answers, d) := performAll clock c (mkDate (Some t) None) calls in (answers, TimeValue d) = specAll clock (Some t) calls.
Proof.
  intros Ho Hc Ht Hok Hk. apply (performAll_ok clock Ho calls c (mkDate (Some t) None)); [done| |done|done]. apply dateInv_forget. intros u [= <-]. lia.
Qed.

(** A clock that is an hour ahead from the beginning of 1970 on. *)
Definition summerClock : Clock := mkClock (fun s => Some (if s <? 0 then 0 else 3600))
  (fun t => dayNumber (tm_year t + 1900) (tm_mon t) (tm_mday t) * 86400 + tm_hour t * 3600 + tm_min t * 60 + tm_sec t -
            (if tm_year t <? 70 then 0 else 3600)).

Lemma dateCalls_correct_witness :
  let calls := [GetUnit 3 true; SetUnitsFrom CODE_SET_FULL_YEAR true (Ok <$> [Whole 1969; Whole 5]); GetUnit 3 true; PrintFull] in
  (let '(answers, d) := performAll summerClock noCache (mkDate (Some 951782399999) None) calls in (answers, TimeValue d) = specAll summerClock (Some 951782399999) calls) /\
  specAll summerClock (Some 951782399999) calls =
    ([Ok (ANumber (Some 0)); Ok (ANumber (Some (-16066800001))); Ok (ANumber (Some 0)); Ok (AString (chars "Sun Jun 29 1969 00:59:59 GMT+0000"))], Some (-16066800001)).
Proof.
  split.
  - apply dateCalls_correct; [|intros [=]|vm_compute; congruence| |right].
    + intros u. unfold offsetAt, GetLocalOffsetFromOS. cbn. destruct (_ <? 0); vm_compute; reflexivity.
    + repeat constructor; vm_compute; auto 10; congruence.
    + repeat constructor; vm_compute; congruence.
  - vm_compute. reflexivity.
Defined.

(** A local field, at the offset that is kept. *)
Lemma GetDateUnit_kept clock c t o code : cacheOk c -> Z.abs t <= MAX_TIME_IN_MS -> Z.abs o < MS_PER_DAY ->
  exists c', GetDateUnit clock c (mkDate (Some t) (Some o)) code true =
    (u ← get (dateArray (fieldsOf (t + o)) (Z.quot (- o) MS_PER_MINUTE)) code; Ok (Some u), c', mkDate (Some t) (Some o)) /\ cacheOk c'.
Proof.
  intros Hc Ht Ho. unfold GetDateUnit, CalcThisDateUnits. cbn [TimeValue GetLocalOffsetSafely LocalOffset]. destruct (TransferTimeToDate_ok c (t + o) Hc) as (c' & -> & Hc'); [apply time_cacheable; [lia|done]|]. by exists c'.
Qed.

Lemma GetDateUnit_first clock c t code : GetDateUnit clock c (mkDate (Some t) None) code true = GetDateUnit clock c (mkDate (Some t) (Some (offsetAt clock t))) code true.
Proof. reflexivity. Qed.

(** C37: [setTime] does not forget the offset: the local fields of the new time are those at the offset of the old one.  A date
    that is moved over a change of the offset, after a local field has been read, shows a wrong hour. *)
Theorem setTime_keeps_offset clock c t u :
  (forall v, Z.abs (offsetAt clock v) < MS_PER_DAY) -> cacheOk c -> Z.abs t <= MAX_TIME_IN_MS -> Z.abs u <= MAX_TIME_IN_MS ->
  (performAll clock c (mkDate (Some t) None) [GetUnit 3 true; SetTimeTo (Ok (Whole u)); GetUnit 3 true; GetUnit 8 true]).1 =
  [Ok (ANumber (Some (HOUR (fieldsOf (t + offsetAt clock t))))); Ok (ANumber (Some u));
   Ok (ANumber (Some (HOUR (fieldsOf (u + offsetAt clock t))))); Ok (ANumber (Some (Z.quot (- offsetAt clock t) MS_PER_MINUTE)))].
Proof.
  intros Ho Hc Ht Hu. cbn [performAll perform]. rewrite GetDateUnit_first. destruct (GetDateUnit_kept clock c t (offsetAt clock t) 3 Hc Ht (Ho t)) as (c1 & -> & Hc1). unfold SetTime, SetTimeValue. cbn [finite LocalOffset]. rewrite TimeClip_some by done.
  destruct (GetDateUnit_kept clock c1 u (offsetAt clock t) 3 Hc1 Hu (Ho t)) as (c2 & -> & Hc2). destruct (GetDateUnit_kept clock c2 u (offsetAt clock t) 8 Hc2 Hu (Ho t)) as (c3 & -> & Hc3). reflexivity.
Qed.

Lemma setTime_keeps_offset_witness :
  (performAll summerClock noCache (mkDate (Some (-3600000)) None) [GetUnit 3 true; SetTimeTo (Ok (Whole 0)); GetUnit 3 true; GetUnit 8 true]).1 =
    [Ok (ANumber (Some 23)); Ok (ANumber (Some 0)); Ok (ANumber (Some 0)); Ok (ANumber (Some 0))] /\
  (specAll summerClock (Some (-3600000)) [GetUnit 3 true; SetTimeTo (Ok (Whole 0)); GetUnit 3 true; GetUnit 8 true]).1 =
    [Ok (ANumber (Some 23)); Ok (ANumber (Some 0)); Ok (ANumber (Some 1)); Ok (ANumber (Some (-60)))].
Proof.
  split; [|vm_compute; reflexivity]. rewrite setTime_keeps_offset; [vm_compute; reflexivity| |intros [=]|vm_compute; congruence..]. intros v. unfold offsetAt, GetLocalOffsetFromOS. cbn. destruct (_ <? 0); vm_compute; reflexivity.
Defined.

(** ** Strings *)

(** C10: Every time value is the time of its ISO string, whatever times the thread has converted before. *)
Theorem toISOString_roundtrip clock c offset t : cacheOk c -> Z.abs t <= MAX_TIME_IN_MS ->
  exists s c' d, ToISOString clock c (mkDate (Some t) offset) = (Ok (AString s), c', d) /\ Parse clock (Ok (mkString false s)) = Ok (Some t).
Proof.
  intros Hc Ht. unfold ToISOString, printWith, CalcThisDateUnits. cbn [TimeValue]. rewrite Z.add_0_r. destruct (TransferTimeToDate_ok c t Hc) as (c' & -> & Hc'); [rewrite <- (Z.add_0_r t); apply time_cacheable; [lia|done]|].
  eexists _, _, _. split; [reflexivity|]. cbn. by apply isoString_time.
Qed.

Lemma toISOString_roundtrip_witness :
  exists s c' d, ToISOString utcClock noCache (mkDate (Some (-62198755200000)) None) = (Ok (AString s), c', d) /\ Parse utcClock (Ok (mkString false s)) = Ok (Some (-62198755200000)).
Proof. apply toISOString_roundtrip; [intros [=]|vm_compute; congruence]. Defined.

Lemma withoutMs_time f : timeOf (withoutMs f) = timeOf f - MS f.
Proof. unfold timeOf, withoutMs. cbn. lia. Qed.

Lemma fieldsOf_MS t : MS (fieldsOf t) = t mod 1000.
Proof. unfold fieldsOf. destruct (civilFromDays _) as [[y m] d]. cbn. unfold MS_PER_DAY, MS_PER_SECOND. Z.to_euclidean_division_equations. lia. Qed.

Lemma ToString_shown clock c t minutes : cacheOk c -> Z.abs t <= MAX_TIME_IN_MS -> offsetAt clock t = minutes * MS_PER_MINUTE -> Z.abs minutes < 24 * 60 ->
  exists c' d, ToString clock c (mkDate (Some t) None) = (s ← fullString (fieldsOf (t + minutes * MS_PER_MINUTE)) minutes; Ok (AString s), c', d).
Proof.
  intros Hc Ht Eo Hm. unfold ToString, printWith, CalcThisDateUnits. cbn [TimeValue GetLocalOffsetSafely LocalOffset]. change (GetLocalOffsetFromOS clock t true) with (offsetAt clock t). rewrite Eo.
  destruct (TransferTimeToDate_ok c (t + minutes * MS_PER_MINUTE) Hc) as (c' & -> & Hc'); [apply time_cacheable; [|unfold MS_PER_MINUTE, MS_PER_DAY]; lia|]. eexists c', _. unfold localMinutes. cbn [GetLocalOffsetSafely SetLocalOffset LocalOffset fst]. rewrite Z.quot_mul by done. rewrite i32_id by (pow2_literal; lia). reflexivity.
Qed.

(** The time of a string that shows the seconds of [t] and an offset. *)
Lemma shown_second clock s t zone : Z.abs t <= 9 * 10 ^ 15 - 1000 -> Z.abs zone <= 90000 -> Z.abs (t - t mod 1000 - zone * 1000) <= MAX_TIME_IN_MS ->
  ParseDateString s = Ok (Some (mkParsed (YEAR (fieldsOf t)) (MONTH (fieldsOf t)) (DAYS (fieldsOf t)) (HOUR (fieldsOf t)) (MIN (fieldsOf t)) (SEC (fieldsOf t)) 0 zone)) ->
  GetTimeFromString clock s = Ok (Some (t - t mod 1000 - zone * 1000)).
Proof.
  intros Ht Hz Hc Hp. pose proof (Z.mod_pos_bound t 1000 ltac:(lia)) as Hmod. destruct (fieldsOf_ok t) as (Hv & E & Hw). assert (shown (withoutMs (fieldsOf t))) as Hs.
  { destruct (fieldsOf_shown t ltac:(lia)) as [(Hd & Hh & Hmi & Hse & _) Hy]. split; [|exact Hy]. split; [exact Hd|]. split; [exact Hh|]. split; [exact Hmi|]. split; [exact Hse|]. done. }
  pose proof (withoutMs_time (fieldsOf t)) as Ew. rewrite E, fieldsOf_MS in Ew. rewrite (GetTimeFromString_ok clock s (withoutMs (fieldsOf t)) zone Hs); [|rewrite Ew; lia|done|exact Hp]. rewrite Ew. by rewrite TimeClip_some.
Qed.

(** C11: The strings of [toString] and [toUTCString] name the second of the time, in years from 100 on; the first one with the
    offset of the local time, which must be a number of minutes. *)
Theorem toString_roundtrip clock c t minutes :
  cacheOk c -> Z.abs t <= MAX_TIME_IN_MS -> offsetAt clock t = minutes * MS_PER_MINUTE -> Z.abs minutes < 24 * 60 ->
  100 <= YEAR (fieldsOf t) -> 100 <= YEAR (fieldsOf (t + minutes * MS_PER_MINUTE)) ->
  (exists s c' d, ToString clock c (mkDate (Some t) None) = (Ok (AString s), c', d) /\ Parse clock (Ok (mkString false s)) = Ok (Some (t - t mod 1000))) /\
  (exists s c' d, ToUTCString clock c (mkDate (Some t) None) = (Ok (AString s), c', d) /\ Parse clock (Ok (mkString false s)) = Ok (Some (t - t mod 1000))).
Proof.
  intros Hc Ht Eo Hm Hy Hyl. split.
  - destruct (ToString_shown clock c t minutes Hc Ht Eo Hm) as (c' & d & ->). destruct (ParseDateString_full (fieldsOf (t + minutes * MS_PER_MINUTE)) minutes) as (s & -> & Hp); [|apply fieldsOf_ok|done..|].
    + apply fieldsOf_shown. unfold MAX_TIME_IN_MS, MS_PER_MINUTE in *. clear - Ht Hm. lia.
    + eexists s, c', d. split; [reflexivity|]. cbn [Parse mbind result_bind IsUtf16 units]. rewrite (shown_second clock s (t + minutes * MS_PER_MINUTE) (minutes * 60)); [do 2 f_equal|..|exact Hp]; clear - Ht Hm; unfold MAX_TIME_IN_MS, MS_PER_MINUTE in *; Z.to_euclidean_division_equations; lia.
  - unfold ToUTCString, printWith, CalcThisDateUnits. cbn [TimeValue]. rewrite Z.add_0_r. destruct (TransferTimeToDate_ok c t Hc) as (c' & -> & Hc'); [rewrite <- (Z.add_0_r t); apply time_cacheable; [lia|done]|].
    destruct (ParseDateString_utc (fieldsOf t)) as (s & -> & Hp); [|apply fieldsOf_ok|done|].
    + apply fieldsOf_shown. unfold MAX_TIME_IN_MS in *. lia.
    + eexists s, c', _. split; [reflexivity|]. cbn [Parse mbind result_bind IsUtf16 units]. rewrite (shown_second clock s t 0); [do 2 f_equal; lia|..|exact Hp]; clear - Ht; unfold MAX_TIME_IN_MS in *; Z.to_euclidean_division_equations; lia.
Qed.

Lemma toString_roundtrip_witness : exists s c' d, ToString summerClock noCache (mkDate (Some 951782399999) None) = (Ok (AString s), c', d) /\ Parse summerClock (Ok (mkString false s)) = Ok (Some 951782399000).
Proof. apply (toString_roundtrip summerClock noCache 951782399999 60); [intros [=]|vm_compute; congruence..]. Defined.

(** ** The parser *)

(** C13: [Date.parse] ends on every string.  Its result is no date, or one with a year that is an [int] and a month, a day, a
    time and an offset in their ranges; it overflows an [int] only if the string has more than twelve digits in a row. *)
Theorem ParseDateString_total str :
  (exists r, ParseDateString str = Ok r /\ forall p, r = Some p -> parsedOk p) \/
  (ParseDateString str = Err UndefinedBehaviour /\ longRun 12 str).
Proof.
  pose proof (ParseDateString_outcome str) as H. destruct (ParseDateString str) as [r|e]; cbn in H; [left; by exists r|]. destruct H as [-> Hl]. by right.
Qed.

(** Zeros are one unit, however many. *)
Lemma newProxy_zeros n s : (1 <= n)%nat -> notDigit s -> newProxy (replicate n 48 ++ s) = mkProxy (Unit.Number 0 (Z.of_nat n)) s.
Proof.
  intros Hn Hs. rewrite <- fixedDigits_zero. unfold newProxy, Read. destruct n as [|n]; [lia|]. destruct (fixedDigits_head n 0) as (v & l & E & Hv). assert (StringReader.IsDigit (fixedDigits (S n) 0 ++ s) = true) as -> by (rewrite E; by apply digit_true).
  unfold StringReader.ReadNumber. rewrite readDigits_fixed; [|split; [lia|apply Z.pow_pos_nonneg; lia]|lia|vm_compute; congruence]. replace (0 * 10 ^ Z.of_nat (S n) + 0) with 0 by lia. replace (0 + Z.of_nat (S n)) with (Z.of_nat (S n)) by lia.
  assert (StringReader.readDigits s 0 (Z.of_nat (S n)) = (0, Z.of_nat (S n), s)) as ->. { unfold notDigit, StringReader.IsDigit in Hs. destruct s as [|w s]; [done|]. cbn in *. by rewrite Hs. } by rewrite notDigit_skip.
Qed.

Lemma scaleDivisor_overflow n : (10 <= n)%nat -> Time.scaleDivisor n 1 = Err UndefinedBehaviour.
Proof. intros H. replace n with (10 + (n - 10))%nat by lia. reflexivity. Qed.

(** A fraction of a second with thirteen digits or more, here zeros, overflows the divisor of [NormMilliSecond].  With the
    wrap-around of common machines the divisor is zero from 35 digits on, and the program divides by it. *)
Theorem long_fraction_overflows clock n : (13 <= n)%nat ->
  GetTimeFromString clock (chars "2020-01-01T00:00:00." ++ replicate n 48 ++ chars "Z") = Err UndefinedBehaviour.
Proof.
  intros Hn. assert (ParseDateString (chars "2020-01-01T00:00:00." ++ replicate n 48 ++ chars "Z") = Err UndefinedBehaviour) as E; [|unfold GetTimeFromString; by rewrite E].
  set (s := replicate n 48 ++ chars "Z"). assert (newProxy s = mkProxy (Unit.Number 0 (Z.of_nat n)) (chars "Z")) as Es by (apply newProxy_zeros; [lia|done]). clearbody s. unfold ParseDateString.
  change (IsIsoDateTime (newProxy _) Day.init) with (true, mkProxy (Unit.Word DATE_TIME_FALG 0 1) (chars "00:00:00." ++ s), mkDay [2020; 1; 1] 3 INT_MAX false). cbv iota. unfold ParseIsoDateTime. change (Unit.IsTimeFlag _) with true. cbv iota.
  change (isoTime _ Time.init) with (if negb (Unit.IsNumber (GetDate (newProxy s))) then Ok None else ms ← Time.NormMilliSecond (GetDate (newProxy s)); Ok (Some (NextDate (newProxy s), Time.setData (mkTime [0; 0; 0; 0] 3) ms))). rewrite Es. cbn [GetDate]. change (Unit.IsNumber _) with true. cbn [negb]. cbv iota.
  unfold Time.NormMilliSecond. cbn [GetLength GetValue Unit.Number]. rewrite !(proj2 (Z.eqb_neq _ _)) by lia. rewrite scaleDivisor_overflow by lia. reflexivity.
Qed.

Lemma long_fraction_overflows_witness : GetTimeFromString utcClock (chars "2020-01-01T00:00:00.0000000000000Z") = Err UndefinedBehaviour.
Proof. apply (long_fraction_overflows utcClock 13). lia. Defined.


(** ** Date.UTC *)

Lemma quotTrunc_ok m : Z.abs m <= 10 ^ 8 -> quotTrunc m 12 = Z.quot m 12.
Proof.
  intros Hm. unfold quotTrunc. set (n := Z.abs m). change (10 ^ 8) with 100000000 in Hm. assert (Z.log2 (n / 12) <= 23) as Hlog. { destruct (Z.eq_dec (n / 12) 0) as [->|]; [done|]. apply Z.lt_succ_r. apply Z.log2_lt_pow2; [|change (2 ^ Z.succ 23) with 16777216]; Z.to_euclidean_division_equations; lia. }
  pose proof (Z.log2_nonneg (n / 12)). set (k := Z.log2 (n / 12) - 52). rewrite (proj2 (Z.leb_gt 0 k)) by lia. rewrite Z.max_r, (Z.max_l 0 k) by lia. set (j := - k). rewrite Z.pow_0_r, Z.mul_1_r.
  assert (2 ^ 29 <= 2 ^ j) as Hj by (apply Z.pow_le_mono_r; lia). change (2 ^ 29) with 536870912 in Hj. set (w := 2 ^ j) in *. clearbody w.
  set (up := if _ || _ then 1 else 0). assert (0 <= up <= 1) as Hup by (unfold up; destruct (_ || _); lia). clearbody up.
  assert ((n * w / 12 + up) / w = n / 12) as ->. { symmetry. pose proof (Z.div_mod n 12 ltac:(lia)) as Hn. pose proof (Z.mod_pos_bound n 12 ltac:(lia)) as Hr. set (c := n / 12) in *. set (r := n mod 12) in *. clearbody c r. rewrite Hn.
    replace ((12 * c + r) * w) with (r * w + (c * w) * 12) by lia. rewrite Z.div_add by lia. assert (0 <= r * w / 12 <= 11 * w / 12) as Hq by (split; [apply Z.div_pos; nia|apply Z.div_le_mono; nia]). assert (11 * w / 12 + 1 < w) by (Z.to_euclidean_division_equations; lia). apply (Z.div_unique _ _ _ (r * w / 12 + up)); lia. }
  unfold n. destruct (Z.sgn_spec m) as [[? ->]|[[? ->]|[? ->]]]; Z.to_euclidean_division_equations; lia.
Qed.

(** [MakeDay] with a month that need not be one of the year. *)
Lemma MakeDay_any y m d : Z.abs y <= 10 ^ 9 -> Z.abs m <= 10 ^ 8 -> Z.abs d <= 10 ^ 8 -> MakeDay (Some y) (Some m) (Some d) = Ok (Some (dayNumber (y + m / 12) (m mod 12) d)).
Proof.
  intros Hy Hm Hd. unfold MakeDay, MONTH_PER_YEAR. rewrite quotTrunc_ok by done. change (10 ^ 9) with 1000000000 in *. change (10 ^ 8) with 100000000 in *. pose proof (Z.mod_pos_bound m 12 ltac:(lia)) as Hmod.
  assert (exists y', (if Z.rem m 12 <? 0 then int64 (y + Z.quot m 12 - 1) else Ok (y + Z.quot m 12)) = Ok y' /\ y' = y + m / 12) as (y' & Ey & ->).
  { destruct (Z.ltb_spec (Z.rem m 12) 0); eexists; (split; [apply int64_ok; pow2_literal|]) || (split; [reflexivity|]); Z.to_euclidean_division_equations; lia. }
  assert ((if Z.rem m 12 <? 0 then Z.rem m 12 + 12 else Z.rem m 12) = m mod 12) as Em by (destruct (Z.ltb_spec (Z.rem m 12) 0); Z.to_euclidean_division_equations; lia).
  assert (Z.abs (Z.quot m 12) <= 100000000) by (clear - Hm; Z.to_euclidean_division_equations; lia). assert (Z.abs (m / 12) <= 100000000) by (clear - Hm; Z.to_euclidean_division_equations; lia). rewrite (int64_ok y), (int64_ok (Z.quot m 12)) by (pow2_literal; lia). cbn [mbind result_bind]. rewrite (int64_ok (y + Z.quot m 12)) by (pow2_literal; lia). cbn [mbind result_bind]. rewrite (int64_ok m) by (pow2_literal; lia). cbn [mbind result_bind].
  rewrite Ey. cbn [mbind result_bind]. rewrite Em. set (year := y + m / 12) in *. assert (Z.abs year <= 1100000000) by lia. pose proof (GetDaysFromYear_bounds year). pose proof (monthStart_bounds year _ Hmod). rewrite daysFromYear64_ok by (pow2_literal; lia). cbn [mbind result_bind].
  rewrite (int64_ok (GetDaysFromYear year + _)) by (pow2_literal; lia). cbn [mbind result_bind]. rewrite int64_ok by (pow2_literal; lia). cbn [mbind result_bind]. rewrite fl_small by (pow2_literal; lia). cbn [mbind option_bind]. rewrite fl_small by (pow2_literal; lia). do 2 f_equal. unfold dayNumber. lia.
Qed.

(** The time with the units, from a day that may be far away. *)
Lemma MakeDate_clip n h mi s ms : Z.abs h <= 10 ^ 8 -> Z.abs mi <= 10 ^ 8 -> Z.abs s <= 10 ^ 8 -> Z.abs ms <= 10 ^ 8 ->
  TimeClip (MakeDate (Some n) (MakeTime (Some h) (Some mi) (Some s) (Some ms))) = TimeClip (Some (n * MS_PER_DAY + h * MS_PER_HOUR + mi * MS_PER_MINUTE + s * MS_PER_SECOND + ms)).
Proof.
  change (10 ^ 8) with 100000000. intros Hh Hmi Hs Hms. unfold MakeTime, MakeDate, MS_PER_HOUR, MS_PER_MINUTE, MS_PER_SECOND. cbn [mbind option_bind]. rewrite (fl_small (h * _)), (fl_small (mi * _)) by (pow2_literal; lia). cbn [mbind option_bind].
  rewrite (fl_small (s * _)) by (pow2_literal; lia). rewrite (fl_small (h * _ + _)) by (pow2_literal; lia). cbn [mbind option_bind]. rewrite (fl_small (h * _ + _ + _)) by (pow2_literal; lia). cbn [mbind option_bind]. rewrite (fl_small (h * _ + _ + _ + ms)) by (pow2_literal; lia). cbn [mbind option_bind].
  set (time := h * _ + mi * _ + s * _ + ms). assert (Z.abs time <= 366110000000000) as Htime by (unfold time; lia). replace (n * MS_PER_DAY + _ + _ + _ + ms) with (time + n * MS_PER_DAY) by (unfold time; lia). clearbody time.
  destruct (Z.lt_ge_cases (Z.abs (n * MS_PER_DAY)) (2 ^ 53)) as [Hn|Hn]; [rewrite fl_small by done; cbn [mbind option_bind]; apply TimeClip_fl|]. destruct (fl (n * MS_PER_DAY)) as [d|] eqn:E; cbn [mbind option_bind].
  - apply fl_large in E; [|done]. rewrite TimeClip_fl. revert Hn E. pow2_literal. intros Hn E. unfold TimeClip, MAX_TIME_IN_MS. repeat match goal with |- context [?a <=? ?b] => destruct (Z.leb_spec a b) end; cbn [andb]; try done; exfalso; lia.
  - revert Hn. pow2_literal. intros Hn. unfold TimeClip, MAX_TIME_IN_MS. repeat match goal with |- context [?a <=? ?b] => destruct (Z.leb_spec a b) end; cbn [andb]; try done; exfalso; lia.
Qed.

(** The units of the arguments of [Date.UTC]: missing ones have their first value, and two-digit years are in the twentieth century. *)
Definition utcUnits (args : list Z) : list Z :=
  match args with
  | [] => []
  | year :: rest => (if IsBetween year 0 99 then year + 1900 else year) :: take 6 (rest ++ drop (length rest) [0; 1; 0; 0; 0; 0])
  end.

(** C14: [Date.UTC] of integers that are not too large is the time with these units, if a date can have it: months, days and
    times out of their ranges carry over, and nothing is lost by computing with doubles. *)
Theorem UTC_correct args : args <> [] -> Forall (fun z => Z.abs z <= 10 ^ 8) args ->
  UTC ((fun z => Ok (Whole z)) <$> args) = Ok (TimeClip (Some (unitsTime (utcUnits args)))).
Proof.
  intros Hne Ha. assert (forall y m d h mi s ms, Forall (fun z => Z.abs z <= 10 ^ 8) [y; m; d; h; mi; s; ms] ->
    (day ← MakeDay (Some (if (0 <=? y) && (y <=? 99) then y + 1900 else y)) (Some m) (Some d); Ok (TimeClip (MakeDate day (MakeTime (Some h) (Some mi) (Some s) (Some ms))))) =
    Ok (TimeClip (Some (unitsTime [if IsBetween y 0 99 then y + 1900 else y; m; d; h; mi; s; ms])))) as Hall.
  { intros y m d h mi s ms Hf. repeat match goal with H : Forall _ (_ :: _) |- _ => apply Forall_cons in H as [? ?] end. assert ((0 <=? y) && (y <=? 99) = IsBetween y 0 99) as -> by (unfold IsBetween; destruct (Z.leb_spec 0 y), (Z.leb_spec y 99), (Z.ltb_spec y 0), (Z.ltb_spec 99 y); done || lia).
    rewrite MakeDay_any by (done || (change (10 ^ 9) with 1000000000; change (10 ^ 8) with 100000000 in *; destruct (IsBetween y 0 99) eqn:E; [apply IsBetween_spec in E|]; lia)). cbn [mbind result_bind]. by rewrite MakeDate_clip. }
  destruct args as [|y [|m [|d [|h [|mi [|s [|ms rest]]]]]]]; [done|..]; unfold UTC; cbn [fmap list_fmap lookup list_lookup default mbind result_bind finite]; (etransitivity; [apply Hall|reflexivity]); repeat match goal with H : Forall _ (_ :: _) |- _ => apply Forall_cons in H as [? ?] end; repeat constructor; done || (vm_compute; congruence).
Qed.

Lemma UTC_correct_witness : UTC ((fun z => Ok (Whole z)) <$> [99; -13; 400; 25]) = Ok (Some 915498000000).
Proof. rewrite UTC_correct; [vm_compute; reflexivity|done|repeat constructor; vm_compute; congruence]. Defined.
