(* ===== verification/TaggedList.v ===== *)
(** * Linked lists in arrays

    [TaggedList] of src/ecmascript/tagged_list.h and tagged_list.cpp, from which the singly linked
    ([TaggedSingleList]) and the doubly linked list ([TaggedDoubleList]) are derived: the nodes of a
    circular list are entries of an array, after four slots with the number of nodes, the number of
    deleted nodes, the index of the head and the index of the tail.  The head is an entry without a
    value.  Entries are never reused: a removed node leaves a hole, and growing the array moves the
    nodes together, in the order of the list.  This file has the model of what both kinds share, and
    of the iterators. *)

From Stdlib Require Import ZArith Lia.
From S2P Require Import Prelude Double Values TaggedArray.

(** ** Model *)

Inductive ListKind := SINGLE | DOUBLE.

Notation Array := (list JSTaggedValue) (only parsing).

Definition NUMBER_OF_NODE_INDEX : Z := 0.
Definition NUMBER_OF_DELETED_NODES_INDEX : Z := 1.
Definition HEAD_TABLE_INDEX : Z := 2.
Definition TAIL_TABLE_INDEX : Z := 3.
Definition ELEMENTS_START_INDEX : Z := 4.
Definition DEFAULT_ARRAY_LENGHT : Z := 10.
Definition NEXT_PTR_OFFSET : Z := 1.
Definition PREV_PTR_OFFSET : Z := 2.
Definition ENTRY_SIZE (k : ListKind) : Z := match k with SINGLE => 2 | DOUBLE => 3 end.

Definition GetCapacityFromTaggedArray (a : Array) : Z := Z.of_nat (length a).

(** Reads and writes outside the array are ignored. *)
Definition GetElement (a : Array) (index : Z) : JSTaggedValue :=
  if (index <? 0) || (GetCapacityFromTaggedArray a <=? index) then Undefined
  else default Undefined (a !! Z.to_nat index).

Definition SetElement (a : Array) (index : Z) (element : JSTaggedValue) : Array :=
  if (index <? 0) || (GetCapacityFromTaggedArray a <=? index) then a
  else <[Z.to_nat index := element]> a.

(** [GetInt] reads the bits of an integer; on anything else the model gives up. *)
Definition GetInt (v : JSTaggedValue) : result Z := match v with Int z => Ok z | _ => Err OutOfBounds end.

(** [GetPrimitiveElement(index).GetInt()] *)
Definition GetIntElement (a : Array) (index : Z) : result Z := GetInt (GetElement a index).

Definition NumberOfNodes (a : Array) : result Z := GetIntElement a NUMBER_OF_NODE_INDEX.
Definition NumberOfDeletedNodes (a : Array) : result Z := GetIntElement a NUMBER_OF_DELETED_NODES_INDEX.
Definition Length (a : Array) : result Z := NumberOfNodes a.

(** Writes without a check. *)
Definition SetNumberOfNodes (a : Array) (nof : Z) : result Array := set a (Z.to_nat NUMBER_OF_NODE_INDEX) (Int nof).
Definition SetNumberOfDeletedNodes (a : Array) (nod : Z) : result Array := set a (Z.to_nat NUMBER_OF_DELETED_NODES_INDEX) (Int nod).

Definition GetFirst (a : Array) : result JSTaggedValue :=
  firstDataIndex ← GetIntElement a (ELEMENTS_START_INDEX + NEXT_PTR_OFFSET);
  Ok (GetElement a firstDataIndex).

Definition GetLast (a : Array) : result JSTaggedValue :=
  lastDataIndex ← GetIntElement a TAIL_TABLE_INDEX;
  Ok (GetElement a lastDataIndex).

Definition GetNextDataIndex (a : Array) (dataIndex : Z) : result Z :=
  dataIndex ← GetIntElement a (dataIndex + NEXT_PTR_OFFSET);
  Ok (if negb (dataIndex =? ELEMENTS_START_INDEX) then dataIndex else -1).

(** The length is an [int]; a number of nodes for which it overflows is outside the model. *)
Definition Create (k : ListKind) (numberOfNodes : Z) : result Array :=
  let length := ELEMENTS_START_INDEX + ENTRY_SIZE k + numberOfNodes * ENTRY_SIZE k in
  if (numberOfNodes <? 0) || (2 ^ 31 <=? length) then Err UndefinedBehaviour else
  let taggedList := replicate (Z.to_nat length) Hole in
  let data := Int ELEMENTS_START_INDEX in
  taggedList ← SetNumberOfNodes taggedList 0;
  taggedList ← SetNumberOfDeletedNodes taggedList 0;
  let taggedList := SetElement taggedList HEAD_TABLE_INDEX data in
  let taggedList := SetElement taggedList TAIL_TABLE_INDEX data in
  let taggedList := SetElement taggedList ELEMENTS_START_INDEX Hole in
  Ok (SetElement taggedList (ELEMENTS_START_INDEX + NEXT_PTR_OFFSET) data).

(** [CopyArray] copies the list [a] to the array [taggedList]. *)
Definition CopyArray (k : ListKind) (a taggedList : Array) : result Array :=
  deleteNodeNum ← NumberOfDeletedNodes a;
  if deleteNodeNum =? 0 then
    let capacity := GetCapacityFromTaggedArray a in
    taggedList ← for_up (Z.to_nat capacity) 0 (fun i taggedList =>
      Ok (SetElement taggedList (Z.of_nat i) (GetElement a (Z.of_nat i)))) taggedList;
    nod ← NumberOfDeletedNodes a;
    SetNumberOfDeletedNodes taggedList nod
  else
  actualNodeNum ← NumberOfNodes a;
  let tailTableIndex := ELEMENTS_START_INDEX + actualNodeNum * ENTRY_SIZE k in
  let nextTailIndex := ELEMENTS_START_INDEX + ENTRY_SIZE k in
  let data := Int ELEMENTS_START_INDEX in
  taggedList ← SetNumberOfNodes taggedList actualNodeNum;
  taggedList ← SetNumberOfDeletedNodes taggedList 0;
  let taggedList := SetElement taggedList HEAD_TABLE_INDEX data in
  let taggedList := SetElement taggedList TAIL_TABLE_INDEX (Int tailTableIndex) in
  let taggedList := SetElement taggedList ELEMENTS_START_INDEX Hole in
  let taggedList := SetElement taggedList (ELEMENTS_START_INDEX + NEXT_PTR_OFFSET) (Int nextTailIndex) in
  let taggedList :=
    match k with
    | DOUBLE => SetElement taggedList (ELEMENTS_START_INDEX + PREV_PTR_OFFSET) (Int tailTableIndex)
    | SINGLE => taggedList
    end in
  srcDataIndex ← GetIntElement a (ELEMENTS_START_INDEX + NEXT_PTR_OFFSET);
  '(_, taggedList) ← for_up (Z.to_nat actualNodeNum) 0 (fun i '(srcDataIndex, taggedList) =>
    let index := nextTailIndex + Z.of_nat i * ENTRY_SIZE k in
    let taggedList := SetElement taggedList index (GetElement a srcDataIndex) in
    let taggedList := SetElement taggedList (index + NEXT_PTR_OFFSET) (Int (index + ENTRY_SIZE k)) in
    let taggedList :=
      match k with
      | DOUBLE => SetElement taggedList (index + PREV_PTR_OFFSET) (Int (ELEMENTS_START_INDEX + Z.of_nat i * ENTRY_SIZE k))
      | SINGLE => taggedList
      end in
    srcDataIndex ← GetIntElement a (srcDataIndex + NEXT_PTR_OFFSET);
    Ok (srcDataIndex, taggedList)) (srcDataIndex, taggedList);
  Ok (SetElement taggedList (tailTableIndex + NEXT_PTR_OFFSET) (Int ELEMENTS_START_INDEX)).

(** The array to add a node to, and whether it is a new one. *)
Definition GrowCapacity (k : ListKind) (taggedList : Array) : result (bool * Array) :=
  actualNodeNum ← NumberOfNodes taggedList;
  deleteNodeNum ← NumberOfDeletedNodes taggedList;
  let needCapacity := actualNodeNum + 1 in
  let taggedArrayLength := GetCapacityFromTaggedArray taggedList in
  let actualArrayCapacity := taggedArrayLength - ELEMENTS_START_INDEX - (deleteNodeNum + 1) * ENTRY_SIZE k in
  if needCapacity * ENTRY_SIZE k <? actualArrayCapacity then Ok (false, taggedList) else
  let length := u32 actualNodeNum in
  let newCapacity := u32 (length + Z.shiftr length 1) in
  list ← Create k (if newCapacity <? DEFAULT_ARRAY_LENGHT then DEFAULT_ARRAY_LENGHT else i32 newCapacity);
  list ← CopyArray k taggedList list;
  Ok (true, list).

Definition Clear (a : Array) : result Array :=
  numberOfNodes ← NumberOfNodes a;
  '(_, a) ← for_up (Z.to_nat numberOfNodes) 0 (fun _ '(dataIndex, a) =>
    dataIndex ← GetIntElement a (dataIndex + NEXT_PTR_OFFSET);
    Ok (dataIndex, SetElement a dataIndex Hole)) (ELEMENTS_START_INDEX, a);
  let data := Int ELEMENTS_START_INDEX in
  a ← SetNumberOfNodes a 0;
  a ← SetNumberOfDeletedNodes a 0;
  let a := SetElement a HEAD_TABLE_INDEX data in
  let a := SetElement a TAIL_TABLE_INDEX data in
  let a := SetElement a ELEMENTS_START_INDEX Hole in
  Ok (SetElement a (ELEMENTS_START_INDEX + NEXT_PTR_OFFSET) data).

(** [ObjectFactory::ConvertListToArray] *)
Definition ConvertListToArray (list : Array) (numberOfNodes : Z) : result Array :=
  '(_, dstElements) ← for_up (Z.to_nat numberOfNodes) 0 (fun _ '(dataIndex, dstElements) =>
    dataIndex ← GetIntElement list (dataIndex + NEXT_PTR_OFFSET);
    Ok (dataIndex, dstElements ++ [GetElement list dataIndex])) (ELEMENTS_START_INDEX, []);
  Ok dstElements.

Definition TaggedListToArray (list : Array) : result Array :=
  numberOfNodes ← NumberOfNodes list;
  if numberOfNodes =? 0 then Ok [] else ConvertListToArray list (u32 numberOfNodes).

(** The loops that follow the links of the nodes go round at most once per slot of the array. *)
Definition linkFuel (a : Array) : nat := length a.

Fixpoint findIndexLoop (fuel : nat) (a : Array) (element : JSTaggedValue) (nextDataIndex nodeSum : Z) : result Z :=
  if nextDataIndex =? ELEMENTS_START_INDEX then Ok (-1) else
  match fuel with
  | O => Err OutOfFuel
  | S fuel =>
    let data := GetElement a nextDataIndex in
    nextDataIndex ← GetIntElement a (nextDataIndex + NEXT_PTR_OFFSET);
    if SameValue data element then Ok nodeSum else findIndexLoop fuel a element nextDataIndex (nodeSum + 1)
  end.

Definition FindIndexByElement (a : Array) (element : JSTaggedValue) : result Z :=
  nextDataIndex ← GetIntElement a (ELEMENTS_START_INDEX + NEXT_PTR_OFFSET);
  findIndexLoop (linkFuel a) a element nextDataIndex 0.

Fixpoint findLastIndexLoop (fuel : nat) (a : Array) (element : JSTaggedValue) (nextIndex nodeSum lastIndex : Z) : result Z :=
  if nextIndex =? ELEMENTS_START_INDEX then Ok lastIndex else
  match fuel with
  | O => Err OutOfFuel
  | S fuel =>
    let data := GetElement a nextIndex in
    let lastIndex := if SameValue data element then nodeSum else lastIndex in
    nextIndex ← GetIntElement a (nextIndex + NEXT_PTR_OFFSET);
    findLastIndexLoop fuel a element nextIndex (nodeSum + 1) lastIndex
  end.

Definition FindLastIndexByElement (a : Array) (element : JSTaggedValue) : result Z :=
  nextIndex ← GetIntElement a (ELEMENTS_START_INDEX + NEXT_PTR_OFFSET);
  findLastIndexLoop (linkFuel a) a element nextIndex 0 (-1).

Fixpoint findDataIndexLoop (fuel : nat) (a : Array) (index nextIndex nodeSum : Z) : result Z :=
  if nextIndex =? ELEMENTS_START_INDEX then Ok (-1) else
  match fuel with
  | O => Err OutOfFuel
  | S fuel =>
    if nodeSum =? index then Ok nextIndex else
    nextIndex ← GetIntElement a (nextIndex + NEXT_PTR_OFFSET);
    findDataIndexLoop fuel a index nextIndex (nodeSum + 1)
  end.

Definition FindDataIndexByNodeIndex (a : Array) (index : Z) : result Z :=
  nextIndex ← GetIntElement a (ELEMENTS_START_INDEX + NEXT_PTR_OFFSET);
  findDataIndexLoop (linkFuel a) a index nextIndex 0.

(** The vector has [length] elements, which the loop writes in order. *)
Definition MapNodeIndexToDataIndex (a : Array) (length : Z) : result (list Z) :=
  '(_, nodeIndexMapToDataIndex) ← for_up (Z.to_nat length) 0 (fun _ '(nextIndex, nodeIndexMapToDataIndex) =>
    nextIndex ← GetIntElement a (nextIndex + NEXT_PTR_OFFSET);
    Ok (nextIndex, nodeIndexMapToDataIndex ++ [nextIndex])) (ELEMENTS_START_INDEX, []);
  Ok nodeIndexMapToDataIndex.

Definition RemoveNode (k : ListKind) (a : Array) (prevDataIndex : Z) : result Array :=
  tailTableIndex ← GetIntElement a TAIL_TABLE_INDEX;
  headTableIndex ← GetIntElement a HEAD_TABLE_INDEX;
  if tailTableIndex =? headTableIndex then Ok a else
  dataIndex ← GetIntElement a (prevDataIndex + NEXT_PTR_OFFSET);
  nextDataIndex ← GetIntElement a (dataIndex + NEXT_PTR_OFFSET);
  let a := if dataIndex =? tailTableIndex then SetElement a TAIL_TABLE_INDEX (Int prevDataIndex) else a in
  let a :=
    match k with
    | DOUBLE => SetElement a (nextDataIndex + PREV_PTR_OFFSET) (Int prevDataIndex)
    | SINGLE => a
    end in
  let a := SetElement a dataIndex Hole in
  let a := SetElement a (prevDataIndex + NEXT_PTR_OFFSET) (Int nextDataIndex) in
  nof ← NumberOfNodes a;
  a ← SetNumberOfNodes a (nof - 1);
  nod ← NumberOfDeletedNodes a;
  SetNumberOfDeletedNodes a (nod + 1).

(** [while (nodeSum <= len)] from 0 has [len + 1] rounds. *)
Fixpoint findPrevByIndexLoop (rounds : nat) (a : Array) (index prevDataIndex nodeSum : Z) : result Z :=
  match rounds with
  | O => Ok (-1)
  | S rounds =>
    if nodeSum =? index then Ok prevDataIndex else
    prevDataIndex ← GetIntElement a (prevDataIndex + NEXT_PTR_OFFSET);
    findPrevByIndexLoop rounds a index prevDataIndex (nodeSum + 1)
  end.

Definition FindPrevNodeByIndex (a : Array) (index : Z) : result Z :=
  len ← GetIntElement a NUMBER_OF_NODE_INDEX;
  findPrevByIndexLoop (Z.to_nat (len + 1)) a index ELEMENTS_START_INDEX 0.

Fixpoint findPrevByValueLoop (rounds : nat) (a : Array) (element : JSTaggedValue) (dataIndex : Z) : result Z :=
  match rounds with
  | O => Ok (-1)
  | S rounds =>
    nextDataIndex ← GetIntElement a (dataIndex + NEXT_PTR_OFFSET);
    let data := GetElement a nextDataIndex in
    if SameValue data element then Ok dataIndex else findPrevByValueLoop rounds a element nextDataIndex
  end.

Definition FindPrevNodeByValue (a : Array) (element : JSTaggedValue) : result Z :=
  len ← GetIntElement a NUMBER_OF_NODE_INDEX;
  findPrevByValueLoop (Z.to_nat (len + 1)) a element ELEMENTS_START_INDEX.

Fixpoint findElementLoop (fuel : nat) (a : Array) (index dataIndex nodeSum : Z) : result JSTaggedValue :=
  if dataIndex =? ELEMENTS_START_INDEX then Ok Undefined else
  match fuel with
  | O => Err OutOfFuel
  | S fuel =>
    if nodeSum =? index then Ok (GetElement a dataIndex) else
    dataIndex ← GetIntElement a (dataIndex + NEXT_PTR_OFFSET);
    findElementLoop fuel a index dataIndex (nodeSum + 1)
  end.

Definition FindElementByIndex (a : Array) (index : Z) : result JSTaggedValue :=
  dataIndex ← GetIntElement a (ELEMENTS_START_INDEX + NEXT_PTR_OFFSET);
  findElementLoop (linkFuel a) a index dataIndex 0.

(** [while (value.IsHole() && targetDataIndex != ELEMENTS_START_INDEX)] *)
Fixpoint skipHolesLoop (fuel : nat) (a : Array) (targetDataIndex : Z) : result Z :=
  if IsHole (GetElement a targetDataIndex) && negb (targetDataIndex =? ELEMENTS_START_INDEX) then
    match fuel with
    | O => Err OutOfFuel
    | S fuel =>
      targetDataIndex ← GetIntElement a (targetDataIndex + NEXT_PTR_OFFSET);
      skipHolesLoop fuel a targetDataIndex
    end
  else Ok targetDataIndex.

Definition FindElementByDataIndex (a : Array) (dataindex : Z) : result (Z * JSTaggedValue) :=
  targetDataIndex ← GetIntElement a (dataindex + NEXT_PTR_OFFSET);
  targetDataIndex ← skipHolesLoop (linkFuel a) a targetDataIndex;
  if targetDataIndex =? ELEMENTS_START_INDEX then Ok (-1, Undefined)
  else Ok (targetDataIndex, GetElement a targetDataIndex).

(** The value that was removed, and the list. *)
Definition RemoveByIndex (k : ListKind) (a : Array) (index : Z) : result (JSTaggedValue * Array) :=
  prevDataIndex ← FindPrevNodeByIndex a index;
  curDataIndex ← GetIntElement a (prevDataIndex + NEXT_PTR_OFFSET);
  let data := GetElement a curDataIndex in
  a ← RemoveNode k a prevDataIndex;
  Ok (data, a).

(** ** Lists with their arrays

    A list object points to its array; when it grows it gets a new one, while iterators and methods
    that are running keep the array they started with.  The state has all arrays a list object has
    had, and which is the present one. *)

Record Arrays := mkArrays { allArrays : list Array; present : nat }.

Definition deref (s : Arrays) (h : nat) : result Array := get (allArrays s) h.
Definition presentArray (s : Arrays) : result Array := deref s (present s).

Definition writeArray (s : Arrays) (h : nat) (a : Array) : result Arrays :=
  arrays ← set (allArrays s) h a; Ok (mkArrays arrays (present s)).

(** The object is given the array [a], a new one or the one it has. *)
Definition setPresent (s : Arrays) (isNew : bool) (a : Array) : result Arrays :=
  if isNew then Ok (mkArrays (allArrays s ++ [a]) (length (allArrays s))) else writeArray s (present s) a.

(** Iterators: [IteratedList] is the array, [None] when the iterator is done. *)
Record ListIterator := mkListIterator { IteratedList : option nat; NextIndex : Z; DataIndex : Z }.

Definition newIterator (s : Arrays) : ListIterator := mkListIterator (Some (present s)) 0 ELEMENTS_START_INDEX.

(** [None] when done, or the value; and the updated iterator. *)
Definition Next (s : Arrays) (iter : ListIterator) : result (option JSTaggedValue * ListIterator) :=
  match IteratedList iter with
  | None => Ok (None, iter)
  | Some list =>
    list ← deref s list;
    let index := NextIndex iter in
    length ← Length list;
    if length <=? index then Ok (None, mkListIterator None index (DataIndex iter)) else
    '(dataIndex, value) ← FindElementByDataIndex list (DataIndex iter);
    Ok (Some value, mkListIterator (IteratedList iter) (index + 1) dataIndex)
  end.
