(* ===== verification/ListRep.v ===== *)
(** * Which list an array holds

    The invariant of the arrays of [TaggedList]: the links lead from the head through the nodes, in
    the order of the list, and back to the head; in a doubly linked list the links in the other
    direction do so in reverse order.  The searches that follow the links are searches of the list;
    then, what creating, growing, clearing, and the insertion and removal of a node do to the
    invariant and to the list of values. *)

From Stdlib Require Import ZArith Lia.
From S2P Require Import Prelude Double Values TaggedArray TaggedList.

(** ** Reads and writes *)

Lemma GetElement_out a i : ~ 0 <= i < Z.of_nat (length a) -> GetElement a i = Undefined.
Proof.
  intros H. unfold GetElement, GetCapacityFromTaggedArray.
  destruct (Z.ltb_spec i 0), (Z.leb_spec (Z.of_nat (length a)) i); cbn; done || lia.
Qed.

Lemma GetElement_lookup a i : 0 <= i -> GetElement a i = default Undefined (a !! Z.to_nat i).
Proof.
  intros H. destruct (Z.lt_ge_cases i (Z.of_nat (length a))).
  - unfold GetElement, GetCapacityFromTaggedArray. destruct (Z.ltb_spec i 0), (Z.leb_spec (Z.of_nat (length a)) i); cbn; done || lia.
  - rewrite GetElement_out by lia. by rewrite lookup_ge_None_2 by lia.
Qed.

Lemma GetElement_some a i v : GetElement a i = v -> v <> Undefined -> 0 <= i < Z.of_nat (length a).
Proof. intros H Hv. destruct (decide (0 <= i < Z.of_nat (length a))); [done|]. rewrite GetElement_out in H by done. congruence. Qed.

Lemma length_SetElement a i v : length (SetElement a i v) = length a.
Proof. unfold SetElement. destruct (_ || _); [done|]. apply length_insert. Qed.

Lemma SetElement_in a i v : 0 <= i < Z.of_nat (length a) -> SetElement a i v = <[Z.to_nat i := v]> a.
Proof.
  intros H. unfold SetElement, GetCapacityFromTaggedArray.
  destruct (Z.ltb_spec i 0), (Z.leb_spec (Z.of_nat (length a)) i); cbn; done || lia.
Qed.

Lemma SetElement_eq a i v : 0 <= i < Z.of_nat (length a) -> GetElement (SetElement a i v) i = v.
Proof.
  intros H. rewrite SetElement_in, GetElement_lookup by lia. by rewrite list_lookup_insert_eq by lia.
Qed.

Lemma SetElement_ne a i j v : i <> j -> GetElement (SetElement a i v) j = GetElement a j.
Proof.
  intros Hne. unfold SetElement, GetCapacityFromTaggedArray. destruct (Z.ltb_spec i 0) as [|Hi]; cbn; [done|].
  destruct (Z.leb_spec (Z.of_nat (length a)) i); [done|].
  destruct (Z.lt_ge_cases j 0); [by rewrite !GetElement_out by lia|].
  rewrite !GetElement_lookup by lia. by rewrite list_lookup_insert_ne by lia.
Qed.

Lemma set_SetElement a n v : (n < length a)%nat -> set a n v = Ok (SetElement a (Z.of_nat n) v).
Proof. intros H. unfold set. rewrite decide_True by done. rewrite SetElement_in by lia. by rewrite Nat2Z.id. Qed.

Lemma SetNumberOfNodes_eq a n : (0 < length a)%nat -> SetNumberOfNodes a n = Ok (SetElement a 0 (Int n)).
Proof. intros H. unfold SetNumberOfNodes, NUMBER_OF_NODE_INDEX. by rewrite set_SetElement. Qed.

Lemma SetNumberOfDeletedNodes_eq a n : (1 < length a)%nat -> SetNumberOfDeletedNodes a n = Ok (SetElement a 1 (Int n)).
Proof. intros H. unfold SetNumberOfDeletedNodes, NUMBER_OF_DELETED_NODES_INDEX. change (Z.to_nat 1) with 1%nat. by rewrite set_SetElement. Qed.

(** Evaluates reads of written slots; the side conditions are left to [lia]. *)
Ltac read_slot :=
  repeat first
    [ rewrite SetElement_eq by (rewrite ?length_SetElement; lia)
    | rewrite SetElement_ne by lia ].

(** ** Links *)

(** The links at offset [o] lead from [p] through [ns] to [q]. *)
Fixpoint path (o : Z) (a : Array) (p : Z) (ns : list Z) (q : Z) : Prop :=
  match ns with
  | [] => GetElement a (p + o) = Int q
  | n :: ns => GetElement a (p + o) = Int n /\ path o a n ns q
  end.

Lemma path_app o a p ns1 n ns2 q : path o a p (ns1 ++ n :: ns2) q <-> path o a p ns1 n /\ path o a n ns2 q.
Proof.
  revert p. induction ns1 as [|m ns1 IH]; intros p; cbn [path app]; [done|]. rewrite IH. tauto.
Qed.

Lemma path_frame o a a' p ns q : (forall x, x ∈ p :: ns -> GetElement a' (x + o) = GetElement a (x + o)) ->
  path o a p ns q -> path o a' p ns q.
Proof.
  revert p. induction ns as [|n ns IH]; intros p Hf; cbn [path].
  - rewrite Hf by left. done.
  - rewrite Hf by left. intros [E Hp]. split; [done|]. apply IH; [|done]. intros x Hx. apply Hf. by right.
Qed.

Lemma path_first o a p ns q : path o a p ns q -> GetElement a (p + o) = Int (default q (head ns)).
Proof. by destruct ns as [|n ns]; [|intros [? _]]. Qed.

(** The link of the node before position [i]. *)
Lemma path_lookup o a p ns q i x y : path o a p ns q -> (p :: ns) !! i = Some x -> (ns ++ [q]) !! i = Some y ->
  GetElement a (x + o) = Int y.
Proof.
  revert p i. induction ns as [|n ns IH]; intros p [|i] Hp Hx Hy; cbn in *; simplify_eq; try done.
  - by destruct Hp.
  - destruct Hp as [_ Hp]. by eapply IH.
Qed.

Lemma path_of_lookup o a p ns q :
  (forall i x y, (p :: ns) !! i = Some x -> (ns ++ [q]) !! i = Some y -> GetElement a (x + o) = Int y) -> path o a p ns q.
Proof.
  revert p. induction ns as [|n ns IH]; intros p H; cbn [path].
  - by apply (H 0%nat).
  - split; [by apply (H 0%nat)|]. apply IH. intros i x y Hx Hy. by apply (H (S i)).
Qed.

(** The end of a path. *)
Lemma path_end_change o a p ns q q' : path o a p ns q -> path o a p ns q' -> q = q'.
Proof.
  revert p. induction ns as [|n ns IH]; intros p; cbn [path]; [congruence|]. intros [_ H] [_ H']. by eapply IH.
Qed.

(** ** The invariant *)

(** Node [n] is one of the first [m] entries after the head. *)
Definition entry (k : ListKind) (m : Z) (n : Z) : Prop := exists i, n = 4 + ENTRY_SIZE k * i /\ 1 <= i <= m.

Record listInv (k : ListKind) (a : Array) (ns : list Z) (del cap : Z) : Prop := {
  inv_length : Z.of_nat (length a) = 4 + ENTRY_SIZE k * (cap + 1);
  inv_del : 0 <= del;
  inv_room : Z.of_nat (length ns) + del <= cap;
  inv_number : GetElement a 0 = Int (Z.of_nat (length ns));
  inv_deleted : GetElement a 1 = Int del;
  inv_head : GetElement a 2 = Int 4;
  inv_tail : GetElement a 3 = Int (default 4 (last ns));
  inv_hole : GetElement a 4 = Hole;
  inv_next : path 1 a 4 ns 4;
  inv_prev : k = DOUBLE -> path 2 a 4 (reverse ns) 4;
  inv_nodup : NoDup ns;
  inv_nodes : Forall (entry k (Z.of_nat (length ns) + del)) ns }.

(** The values in the order of the list. *)
Definition valuesAt (a : Array) (ns : list Z) : list JSTaggedValue := GetElement a <$> ns.

(** No value of a list is a hole: programs have no holes. *)
Definition noHoles (l : list JSTaggedValue) : Prop := Forall (fun v => v <> Hole) l.

Lemma entry_size_cases k : ENTRY_SIZE k = 2 /\ k = SINGLE \/ ENTRY_SIZE k = 3 /\ k = DOUBLE.
Proof. destruct k; auto. Qed.

Lemma entry_mono k m m' n : entry k m n -> m <= m' -> entry k m' n.
Proof. intros (i & -> & Hi) H. exists i. lia. Qed.

Lemma entries_mono k m m' ns : Forall (entry k m) ns -> m <= m' -> Forall (entry k m') ns.
Proof. intros H Hm. eapply Forall_impl; [exact H|]. intros n Hn. by eapply entry_mono. Qed.

Lemma entry_ge k m n : entry k m n -> 4 + ENTRY_SIZE k <= n <= 4 + ENTRY_SIZE k * m.
Proof. intros (i & -> & Hi). destruct (entry_size_cases k) as [[-> _]|[-> _]]; lia. Qed.

(** Slots of different entries are different. *)
Lemma slots_apart k m m' x y o o' : entry k m x \/ x = 4 -> entry k m' y \/ y = 4 -> x <> y ->
  0 <= o < ENTRY_SIZE k -> 0 <= o' < ENTRY_SIZE k -> x + o <> y + o'.
Proof.
  intros Hx Hy. assert (exists i, x = 4 + ENTRY_SIZE k * i /\ 0 <= i) as (i & -> & Hi).
  { destruct Hx as [(i & -> & Hi)| ->]; [exists i; lia|exists 0; lia]. }
  assert (exists j, y = 4 + ENTRY_SIZE k * j /\ 0 <= j) as (j & -> & Hj).
  { destruct Hy as [(j & -> & Hj)| ->]; [exists j; lia|exists 0; lia]. }
  destruct (entry_size_cases k) as [[-> _]|[-> _]]; lia.
Qed.

(** ** Searches

    Each loop is at a suffix [ns] of the nodes: the link it has followed is the first of them, or the
    head. *)

Lemma valuesAt_length a ns : length (valuesAt a ns) = length ns.
Proof. apply length_fmap. Qed.

Lemma valuesAt_cons a n ns : valuesAt a (n :: ns) = GetElement a n :: valuesAt a ns.
Proof. done. Qed.

Lemma valuesAt_lookup a ns i : valuesAt a ns !! i = GetElement a <$> ns !! i.
Proof. apply list_lookup_fmap. Qed.

Lemma indexWhere_cons p v l :
  indexWhere p (v :: l) = if p v then 0 else let i := indexWhere p l in if i <? 0 then -1 else i + 1.
Proof.
  unfold indexWhere. cbn [list_find]. destruct (p v) eqn:E.
  - by rewrite decide_True by done.
  - rewrite decide_False by congruence. destruct (list_find _ l) as [[i w]|]; cbn; [|done].
    destruct (Z.ltb_spec (Z.of_nat i) 0); lia.
Qed.

Lemma lastIndexWhere_cons p v l : lastIndexWhere p (v :: l) =
  let i := lastIndexWhere p l in if i <? 0 then if p v then 0 else -1 else i + 1.
Proof.
  unfold lastIndexWhere. rewrite reverse_cons. unfold indexWhere. cbn [length]. cbv zeta.
  pose proof (length_reverse l) as Hl. destruct (list_find (fun v0 => p v0 = true) (reverse l)) as [[i w]|] eqn:E.
  - rewrite (list_find_app_l _ _ _ _ _ E). apply list_find_Some in E as (E & _). apply lookup_lt_Some in E.
    destruct (Z.ltb_spec (Z.of_nat i) 0); [lia|]. destruct (Z.ltb_spec (Z.of_nat (length l) - 1 - Z.of_nat i) 0); lia.
  - rewrite list_find_app_r by done. cbn [list_find]. destruct (p v) eqn:Ep.
    + rewrite decide_True by done. cbn. destruct (Z.ltb_spec (Z.of_nat (length (reverse l))) 0); lia.
    + rewrite decide_False by congruence. done.
Qed.

Lemma foldl_snoc {A B} (f : A -> B) l b : foldl (fun b x => b ++ [f x]) b l = b ++ (f <$> l).
Proof.
  revert b. induction l as [|x l IH]; intros b; cbn [foldl]; [by rewrite app_nil_r|]. rewrite IH, <- app_assoc. done.
Qed.

Section Loops.
  Variable a : Array.
  Implicit Types (ns : list Z) (p s : Z).

Lemma findIndexLoop_eq x fuel p ns s : path 1 a p ns 4 -> Forall (fun n => n <> 4) ns -> (length ns <= fuel)%nat ->
  findIndexLoop fuel a x (default 4 (head ns)) s =
    Ok (let i := indexWhere (fun v => SameValue v x) (valuesAt a ns) in if i <? 0 then -1 else s + i).
Proof.
  revert fuel p s. induction ns as [|n ns IH]; intros fuel p s Hp Hn Hf.
  { by destruct fuel. }
  destruct Hp as [_ Hp]. apply Forall_cons in Hn as [Hn Hns]. destruct fuel as [|fuel]; cbn [length] in Hf; [lia|].
  change (default 4 (head (n :: ns))) with n. cbn [findIndexLoop]. rewrite (proj2 (Z.eqb_neq n ELEMENTS_START_INDEX)) by exact Hn.
  unfold GetIntElement, NEXT_PTR_OFFSET. rewrite (path_first _ _ _ _ _ Hp). cbn [GetInt]. rewrite bind_Ok.
  rewrite valuesAt_cons, indexWhere_cons. destruct (SameValue (GetElement a n) x).
  { cbn. by rewrite Z.add_0_r. }
  rewrite (IH fuel n (s + 1) Hp Hns) by lia. cbv zeta. f_equal.
  pose proof (indexWhere_lt (fun v => SameValue v x) (valuesAt a ns)) as [_ H1].
  destruct (Z.ltb_spec (indexWhere (fun v => SameValue v x) (valuesAt a ns)) 0); [done|].
  destruct (Z.ltb_spec (indexWhere (fun v => SameValue v x) (valuesAt a ns) + 1) 0); lia.
Qed.

Lemma findLastIndexLoop_eq x fuel p ns s last : path 1 a p ns 4 -> Forall (fun n => n <> 4) ns -> (length ns <= fuel)%nat ->
  findLastIndexLoop fuel a x (default 4 (head ns)) s last =
    Ok (let i := lastIndexWhere (fun v => SameValue v x) (valuesAt a ns) in if i <? 0 then last else s + i).
Proof.
  revert fuel p s last. induction ns as [|n ns IH]; intros fuel p s last Hp Hn Hf.
  { by destruct fuel. }
  destruct Hp as [_ Hp]. apply Forall_cons in Hn as [Hn Hns]. destruct fuel as [|fuel]; cbn [length] in Hf; [lia|].
  change (default 4 (head (n :: ns))) with n. cbn [findLastIndexLoop]. rewrite (proj2 (Z.eqb_neq n ELEMENTS_START_INDEX)) by exact Hn.
  unfold GetIntElement, NEXT_PTR_OFFSET. rewrite (path_first _ _ _ _ _ Hp). cbn [GetInt]. rewrite bind_Ok.
  rewrite (IH fuel n _ _ Hp Hns) by lia. rewrite valuesAt_cons, lastIndexWhere_cons. cbv zeta. f_equal.
  destruct (Z.ltb_spec (lastIndexWhere (fun v => SameValue v x) (valuesAt a ns)) 0) as [H|H].
  - destruct (SameValue (GetElement a n) x); cbn; lia.
  - destruct (Z.ltb_spec (lastIndexWhere (fun v => SameValue v x) (valuesAt a ns) + 1) 0); lia.
Qed.

(** The searches by position; [i] is the position from here. *)
Lemma findDataIndexLoop_eq fuel p ns s i : path 1 a p ns 4 -> Forall (fun n => n <> 4) ns -> (length ns <= fuel)%nat -> 0 <= i ->
  findDataIndexLoop fuel a (s + i) (default 4 (head ns)) s = Ok (default (-1) (ns !! Z.to_nat i)).
Proof.
  revert fuel p s i. induction ns as [|n ns IH]; intros fuel p s i Hp Hn Hf Hi.
  { by destruct fuel. }
  destruct Hp as [_ Hp]. apply Forall_cons in Hn as [Hn Hns]. destruct fuel as [|fuel]; cbn [length] in Hf; [lia|].
  change (default 4 (head (n :: ns))) with n. cbn [findDataIndexLoop]. rewrite (proj2 (Z.eqb_neq n ELEMENTS_START_INDEX)) by exact Hn.
  destruct (Z.eqb_spec s (s + i)).
  { by replace i with 0 by lia. }
  unfold GetIntElement, NEXT_PTR_OFFSET. rewrite (path_first _ _ _ _ _ Hp). cbn [GetInt]. rewrite bind_Ok.
  replace (s + i) with (s + 1 + (i - 1)) by lia. rewrite (IH fuel n _ _ Hp Hns) by lia.
  by replace (Z.to_nat i) with (S (Z.to_nat (i - 1))) by lia.
Qed.

Lemma findElementLoop_eq fuel p ns s i : path 1 a p ns 4 -> Forall (fun n => n <> 4) ns -> (length ns <= fuel)%nat -> 0 <= i ->
  findElementLoop fuel a (s + i) (default 4 (head ns)) s = Ok (default Undefined (valuesAt a ns !! Z.to_nat i)).
Proof.
  revert fuel p s i. induction ns as [|n ns IH]; intros fuel p s i Hp Hn Hf Hi.
  { by destruct fuel. }
  destruct Hp as [_ Hp]. apply Forall_cons in Hn as [Hn Hns]. destruct fuel as [|fuel]; cbn [length] in Hf; [lia|].
  change (default 4 (head (n :: ns))) with n. cbn [findElementLoop]. rewrite (proj2 (Z.eqb_neq n ELEMENTS_START_INDEX)) by exact Hn.
  destruct (Z.eqb_spec s (s + i)).
  { by replace i with 0 by lia. }
  unfold GetIntElement, NEXT_PTR_OFFSET. rewrite (path_first _ _ _ _ _ Hp). cbn [GetInt]. rewrite bind_Ok.
  replace (s + i) with (s + 1 + (i - 1)) by lia. rewrite (IH fuel n _ _ Hp Hns) by lia.
  by replace (Z.to_nat i) with (S (Z.to_nat (i - 1))) by lia.
Qed.

Lemma findPrevByIndexLoop_eq rounds p ns q s i x : path 1 a p ns q -> (p :: ns) !! i = Some x -> (i < rounds)%nat ->
  findPrevByIndexLoop rounds a (s + Z.of_nat i) p s = Ok x.
Proof.
  revert p ns s i. induction rounds as [|rounds IH]; intros p ns s i Hp Hx Hi; [lia|]. cbn [findPrevByIndexLoop].
  destruct i as [|i]; cbn in Hx.
  { rewrite Z.add_0_r, Z.eqb_refl. by simplify_eq. }
  destruct (Z.eqb_spec s (s + Z.of_nat (S i))) as [|_]; [lia|]. destruct ns as [|n ns]; [done|]. destruct Hp as [E Hp].
  unfold GetIntElement, NEXT_PTR_OFFSET. rewrite E. cbn [GetInt]. rewrite bind_Ok.
  replace (s + Z.of_nat (S i)) with (s + 1 + Z.of_nat i) by lia. by apply (IH n ns); [| |lia].
Qed.

(** The search ends with the head, whose slot is a hole. *)
Lemma findPrevByValueLoop_eq p ns x : path 1 a p ns 4 -> GetElement a 4 = Hole -> SameValue Hole x = false ->
  findPrevByValueLoop (S (length ns)) a x p =
    Ok (let i := indexWhere (fun v => SameValue v x) (valuesAt a ns) in
        if i <? 0 then -1 else default (-1) ((p :: ns) !! Z.to_nat i)).
Proof.
  intros Hp Hh Hx. revert p Hp. induction ns as [|n ns IH]; intros p Hp.
  { cbn in Hp |- *. unfold GetIntElement, NEXT_PTR_OFFSET. rewrite Hp. cbn [GetInt]. rewrite bind_Ok. by rewrite Hh, Hx. }
  destruct Hp as [E Hp]. cbn [length]. remember (S (length ns)) as r eqn:Er. cbn [findPrevByValueLoop].
  unfold GetIntElement, NEXT_PTR_OFFSET. rewrite E. cbn [GetInt]. rewrite bind_Ok.
  rewrite valuesAt_cons, indexWhere_cons. destruct (SameValue (GetElement a n) x); [done|].
  rewrite (IH n Hp). cbv zeta. f_equal.
  pose proof (indexWhere_lt (fun v => SameValue v x) (valuesAt a ns)) as [_ H1].
  destruct (Z.ltb_spec (indexWhere (fun v => SameValue v x) (valuesAt a ns)) 0); [done|].
  set (i := indexWhere _ _) in *. destruct (Z.ltb_spec (i + 1) 0); [lia|]. by replace (Z.to_nat (i + 1)) with (S (Z.to_nat i)) by lia.
Qed.

(** Following the links collects the nodes; this is the shape of three loops. *)
Lemma follow_links {B} (f : B -> Z -> B) p ns q lo (b : B) : path 1 a p ns q ->
  for_up (length ns) lo (fun _ '(dataIndex, b) =>
    dataIndex ← GetIntElement a (dataIndex + NEXT_PTR_OFFSET);
    Ok (dataIndex, f b dataIndex)) (p, b) = Ok (default p (last ns), foldl f b ns).
Proof.
  revert p lo b. induction ns as [|n ns IH]; intros p lo b Hp; cbn [for_up length]; [done|].
  destruct Hp as [E Hp]. assert (GetIntElement a (p + NEXT_PTR_OFFSET) = Ok n) as ->.
  { unfold GetIntElement, NEXT_PTR_OFFSET. by rewrite E. }
  rewrite bind_Ok, bind_Ok.
  rewrite (IH n (S lo) _ Hp). cbn [foldl]. f_equal. f_equal. rewrite last_cons. by destruct (last ns).
Qed.
End Loops.

Section Searches.
  Context (k : ListKind) (a : Array) (ns : list Z) (del cap : Z).
  Hypothesis Ha : listInv k a ns del cap.

Lemma inv_bounds : (length ns < length a)%nat /\ Forall (fun n => n <> 4) ns /\ 6 <= Z.of_nat (length a) /\ 0 <= cap.
Proof.
  destruct Ha as [Hl Hd Hr _ _ _ _ _ _ _ _ Hn]. split_and!.
  - destruct (entry_size_cases k) as [[E _]|[E _]]; rewrite E in Hl; lia.
  - eapply Forall_impl; [exact Hn|]. intros n He. apply entry_ge in He. destruct (entry_size_cases k) as [[E _]|[E _]]; rewrite E in He; lia.
  - destruct (entry_size_cases k) as [[E _]|[E _]]; rewrite E in Hl; lia.
  - lia.
Qed.

Lemma NumberOfNodes_eq : NumberOfNodes a = Ok (Z.of_nat (length ns)).
Proof. unfold NumberOfNodes, GetIntElement, NUMBER_OF_NODE_INDEX. by rewrite (inv_number _ _ _ _ _ Ha). Qed.

Lemma NumberOfDeletedNodes_eq : NumberOfDeletedNodes a = Ok del.
Proof. unfold NumberOfDeletedNodes, GetIntElement, NUMBER_OF_DELETED_NODES_INDEX. by rewrite (inv_deleted _ _ _ _ _ Ha). Qed.

Lemma tail_eq : GetIntElement a TAIL_TABLE_INDEX = Ok (default 4 (last ns)).
Proof. unfold GetIntElement, TAIL_TABLE_INDEX. by rewrite (inv_tail _ _ _ _ _ Ha). Qed.

Lemma head_eq : GetIntElement a HEAD_TABLE_INDEX = Ok 4.
Proof. unfold GetIntElement, HEAD_TABLE_INDEX. by rewrite (inv_head _ _ _ _ _ Ha). Qed.

Lemma first_eq : GetIntElement a (ELEMENTS_START_INDEX + NEXT_PTR_OFFSET) = Ok (default 4 (head ns)).
Proof. unfold GetIntElement, ELEMENTS_START_INDEX, NEXT_PTR_OFFSET. by rewrite (path_first _ _ _ _ _ (inv_next _ _ _ _ _ Ha)). Qed.

Lemma headElement_eq : GetFirst a = Ok (default Hole (head (valuesAt a ns))).
Proof.
  unfold GetFirst. rewrite first_eq, bind_Ok. f_equal. destruct ns as [|n ns'] eqn:E; [|done]. apply (inv_hole _ _ _ _ _ Ha).
Qed.

Lemma GetLast_eq : GetLast a = Ok (default Hole (last (valuesAt a ns))).
Proof.
  unfold GetLast. rewrite tail_eq, bind_Ok. f_equal. unfold valuesAt. rewrite fmap_last.
  destruct (last ns); [done|]. apply (inv_hole _ _ _ _ _ Ha).
Qed.

Lemma FindIndexByElement_eq x : FindIndexByElement a x = Ok (indexWhere (fun v => SameValue v x) (valuesAt a ns)).
Proof.
  destruct inv_bounds as (Hlen & Hn & _). unfold FindIndexByElement. rewrite first_eq, bind_Ok.
  rewrite (findIndexLoop_eq a x _ 4 ns 0 (inv_next _ _ _ _ _ Ha) Hn) by (unfold linkFuel; lia). f_equal. cbv zeta.
  pose proof (indexWhere_lt (fun v => SameValue v x) (valuesAt a ns)).
  destruct (Z.ltb_spec (indexWhere (fun v => SameValue v x) (valuesAt a ns)) 0); lia.
Qed.

Lemma FindLastIndexByElement_eq x : FindLastIndexByElement a x = Ok (lastIndexWhere (fun v => SameValue v x) (valuesAt a ns)).
Proof.
  destruct inv_bounds as (Hlen & Hn & _). unfold FindLastIndexByElement. rewrite first_eq, bind_Ok.
  rewrite (findLastIndexLoop_eq a x _ 4 ns 0 _ (inv_next _ _ _ _ _ Ha) Hn) by (unfold linkFuel; lia). f_equal. cbv zeta.
  unfold lastIndexWhere. pose proof (indexWhere_lt (fun v => SameValue v x) (reverse (valuesAt a ns))) as [H _].
  rewrite length_reverse in H. set (i := indexWhere _ _) in *. destruct (Z.ltb_spec i 0); [done|].
  destruct (Z.ltb_spec (Z.of_nat (length (valuesAt a ns)) - 1 - i) 0); lia.
Qed.

Lemma FindDataIndexByNodeIndex_eq i : 0 <= i -> FindDataIndexByNodeIndex a i = Ok (default (-1) (ns !! Z.to_nat i)).
Proof.
  intros Hi. destruct inv_bounds as (Hlen & Hn & _). unfold FindDataIndexByNodeIndex. rewrite first_eq, bind_Ok.
  apply (findDataIndexLoop_eq a _ 4 ns 0 i (inv_next _ _ _ _ _ Ha) Hn); [unfold linkFuel; lia|done].
Qed.

Lemma FindElementByIndex_eq i : 0 <= i -> FindElementByIndex a i = Ok (default Undefined (valuesAt a ns !! Z.to_nat i)).
Proof.
  intros Hi. destruct inv_bounds as (Hlen & Hn & _). unfold FindElementByIndex. rewrite first_eq, bind_Ok.
  apply (findElementLoop_eq a _ 4 ns 0 i (inv_next _ _ _ _ _ Ha) Hn); [unfold linkFuel; lia|done].
Qed.

Lemma FindPrevNodeByIndex_eq i x : (4 :: ns) !! i = Some x -> FindPrevNodeByIndex a (Z.of_nat i) = Ok x.
Proof.
  intros Hx. pose proof (lookup_lt_Some _ _ _ Hx) as Hi. cbn in Hi. unfold FindPrevNodeByIndex.
  change (GetIntElement a NUMBER_OF_NODE_INDEX) with (NumberOfNodes a). rewrite NumberOfNodes_eq, bind_Ok.
  rewrite <- (Z.add_0_l (Z.of_nat i)). apply (findPrevByIndexLoop_eq a _ 4 ns 4 0 i x (inv_next _ _ _ _ _ Ha) Hx). lia.
Qed.

Lemma FindPrevNodeByValue_eq x : SameValue Hole x = false ->
  FindPrevNodeByValue a x = Ok (let i := indexWhere (fun v => SameValue v x) (valuesAt a ns) in
    if i <? 0 then -1 else default (-1) ((4 :: ns) !! Z.to_nat i)).
Proof.
  intros Hx. unfold FindPrevNodeByValue. change (GetIntElement a NUMBER_OF_NODE_INDEX) with (NumberOfNodes a).
  rewrite NumberOfNodes_eq, bind_Ok. replace (Z.to_nat (Z.of_nat (length ns) + 1)) with (S (length ns)) by lia.
  apply findPrevByValueLoop_eq; [apply (inv_next _ _ _ _ _ Ha)|apply (inv_hole _ _ _ _ _ Ha)|done].
Qed.

(** What the next node of a node is. *)
Lemma GetNextDataIndex_eq i x : (4 :: ns) !! i = Some x -> GetNextDataIndex a x = Ok (default (-1) (ns !! i)).
Proof.
  intros Hx. pose proof (lookup_lt_Some _ _ _ Hx) as Hi. cbn in Hi. destruct inv_bounds as (_ & Hn & _).
  unfold GetNextDataIndex, GetIntElement, NEXT_PTR_OFFSET. destruct (ns !! i) as [y|] eqn:Ey.
  - rewrite (path_lookup _ _ _ _ _ i x y (inv_next _ _ _ _ _ Ha) Hx) by (by apply lookup_app_l_Some).
    cbn [GetInt]. rewrite bind_Ok. rewrite (proj2 (Z.eqb_neq y ELEMENTS_START_INDEX)); [done|].
    by apply (Forall_lookup_1 _ _ _ _ Hn Ey).
  - apply lookup_ge_None_1 in Ey. rewrite (path_lookup _ _ _ _ _ i x 4 (inv_next _ _ _ _ _ Ha) Hx); [done|].
    by rewrite list_lookup_middle by lia.
Qed.

(** The iterator's step: the node after a node, as long as there are no holes among the values. *)
Lemma FindElementByDataIndex_eq i x : noHoles (valuesAt a ns) -> (4 :: ns) !! i = Some x ->
  FindElementByDataIndex a x = Ok (match ns !! i with Some n => (n, GetElement a n) | None => (-1, Undefined) end).
Proof.
  intros Hv Hx. pose proof (lookup_lt_Some _ _ _ Hx) as Hi. cbn in Hi. destruct inv_bounds as (_ & Hn & _).
  unfold FindElementByDataIndex, GetIntElement, NEXT_PTR_OFFSET. destruct (ns !! i) as [y|] eqn:Ey.
  - rewrite (path_lookup _ _ _ _ _ i x y (inv_next _ _ _ _ _ Ha) Hx) by (by apply lookup_app_l_Some).
    cbn [GetInt]. rewrite bind_Ok. assert (GetElement a y <> Hole) as Hy.
    { apply (Forall_lookup_1 _ _ i _ Hv). by rewrite valuesAt_lookup, Ey. }
    unfold linkFuel. destruct (length a) eqn:El; cbn [skipHolesLoop]; [destruct inv_bounds as (? & _); lia|].
    replace (IsHole (GetElement a y)) with false by (by destruct (GetElement a y)). cbn [andb]. rewrite bind_Ok.
    rewrite (proj2 (Z.eqb_neq y ELEMENTS_START_INDEX)); [done|]. by apply (Forall_lookup_1 _ _ _ _ Hn Ey).
  - apply lookup_ge_None_1 in Ey. rewrite (path_lookup _ _ _ _ _ i x 4 (inv_next _ _ _ _ _ Ha) Hx) by (by rewrite list_lookup_middle by lia).
    cbn [GetInt]. rewrite bind_Ok. unfold linkFuel. destruct (length a); cbn [skipHolesLoop];
      change (4 =? ELEMENTS_START_INDEX) with true; by rewrite andb_false_r.
Qed.

Lemma MapNodeIndexToDataIndex_eq : MapNodeIndexToDataIndex a (Z.of_nat (length ns)) = Ok ns.
Proof.
  unfold MapNodeIndexToDataIndex, ELEMENTS_START_INDEX. rewrite Nat2Z.id.
  rewrite (follow_links a (fun b n => b ++ [n]) 4 ns 4 0 [] (inv_next _ _ _ _ _ Ha)), bind_Ok.
  f_equal. etransitivity; [exact (foldl_snoc id ns [])|]. apply list_fmap_id.
Qed.

Lemma TaggedListToArray_eq : Z.of_nat (length ns) < 2 ^ 32 -> TaggedListToArray a = Ok (valuesAt a ns).
Proof.
  intros Hlt. unfold TaggedListToArray. rewrite NumberOfNodes_eq, bind_Ok. destruct (Z.eqb_spec (Z.of_nat (length ns)) 0) as [E|E].
  { by destruct ns. }
  unfold ConvertListToArray, ELEMENTS_START_INDEX. rewrite u32_small by (unfold is_u32; rewrite BASE_eq; lia). rewrite Nat2Z.id.
  rewrite (follow_links a (fun b n => b ++ [GetElement a n]) 4 ns 4 0 [] (inv_next _ _ _ _ _ Ha)), bind_Ok.
  f_equal. by rewrite foldl_snoc.
Qed.
End Searches.

(** ** Changing a path *)

(** The node at the end of a path so far. *)
Notation lastOr p ns := (default p (last ns)).
Notation headOr q ns := (default q (head ns)).

Lemma lastOr_cons p n (ns : list Z) : lastOr p (n :: ns) = lastOr n ns.
Proof. rewrite last_cons. by destruct (last ns). Qed.

Lemma lastOr_elem p (ns : list Z) : lastOr p ns ∈ p :: ns.
Proof.
  revert p. induction ns as [|n ns IH]; intros p; [by left|]. rewrite lastOr_cons. right. apply IH.
Qed.

Lemma path_insert o a a' p ns1 ns2 q f : path o a p (ns1 ++ ns2) q -> NoDup (p :: ns1 ++ ns2) ->
  GetElement a' (lastOr p ns1 + o) = Int f -> GetElement a' (f + o) = Int (headOr q ns2) ->
  (forall x, x ∈ p :: ns1 ++ ns2 -> x <> lastOr p ns1 -> GetElement a' (x + o) = GetElement a (x + o)) ->
  path o a' p (ns1 ++ f :: ns2) q.
Proof.
  revert p. induction ns1 as [|m ns1 IH]; intros p Hp Hnd E1 E2 Hf; cbn [app path] in *.
  - split; [exact E1|]. destruct ns2 as [|n ns2]; cbn [path]; [exact E2|]. split; [exact E2|]. destruct Hp as [_ Hp].
    eapply path_frame; [|exact Hp]. intros x Hx. apply Hf; [by right|]. cbn. intros ->. by apply NoDup_cons in Hnd as [? _].
  - destruct Hp as [E Hp]. rewrite lastOr_cons in *. apply NoDup_cons in Hnd as [Hnin Hnd]. split.
    + rewrite Hf; [done|by left|]. intros ->. apply Hnin. pose proof (lastOr_elem m ns1) as H.
      apply list_elem_of_In. apply list_elem_of_In in H. cbn in *. rewrite in_app_iff. tauto.
    + apply (IH m Hp Hnd E1 E2). intros x Hx. apply Hf. by right.
Qed.

Lemma path_remove o a a' p ns1 n ns2 q : path o a p (ns1 ++ n :: ns2) q -> NoDup (p :: ns1 ++ n :: ns2) ->
  GetElement a' (lastOr p ns1 + o) = Int (headOr q ns2) ->
  (forall x, x ∈ p :: ns1 ++ ns2 -> x <> lastOr p ns1 -> GetElement a' (x + o) = GetElement a (x + o)) ->
  path o a' p (ns1 ++ ns2) q.
Proof.
  revert p. induction ns1 as [|m ns1 IH]; intros p Hp Hnd E1 Hf; cbn [app path] in *.
  - destruct Hp as [_ Hp]. destruct ns2 as [|x ns2]; cbn [path]; [exact E1|]. split; [exact E1|]. destruct Hp as [_ Hp].
    eapply path_frame; [|exact Hp]. intros y Hy. apply Hf; [by right|]. cbn. intros ->.
    apply NoDup_cons in Hnd as [Hnin _]. apply Hnin. by right.
  - destruct Hp as [E Hp]. rewrite lastOr_cons in *. apply NoDup_cons in Hnd as [Hnin Hnd]. split.
    + rewrite Hf; [done|by left|]. intros ->. apply Hnin. pose proof (lastOr_elem m ns1) as H.
      apply list_elem_of_In. apply list_elem_of_In in H. cbn in *. rewrite in_app_iff. tauto.
    + apply (IH m Hp Hnd E1). intros x Hx. apply Hf. by right.
Qed.

Lemma path_mono o a a' p ns q : (forall i, GetElement a i <> Undefined -> GetElement a' i = GetElement a i) ->
  path o a p ns q -> path o a' p ns q.
Proof.
  intros H. revert p. induction ns as [|n ns IH]; intros p; cbn [path].
  - intros E. rewrite H; [done|]. by rewrite E.
  - intros [E Hp]. split; [rewrite H; [done|by rewrite E]|by apply IH].
Qed.

(** ** Entries *)

(** The index of entry [i]; the head is entry 0. *)
Definition node (k : ListKind) (i : nat) : Z := 4 + ENTRY_SIZE k * Z.of_nat i.

(** The nodes of a list that has just been put in order. *)
Definition compactNodes (k : ListKind) (n : nat) : list Z := node k <$> seq 1 n.

Lemma compactNodes_length k n : length (compactNodes k n) = n.
Proof. unfold compactNodes. by rewrite length_fmap, length_seq. Qed.

Lemma compactNodes_S k n : compactNodes k (S n) = compactNodes k n ++ [node k (S n)].
Proof. unfold compactNodes. rewrite seq_S, fmap_app. done. Qed.

Lemma compactNodes_lookup k n i x : compactNodes k n !! i = Some x <-> x = node k (S i) /\ (i < n)%nat.
Proof.
  unfold compactNodes. rewrite list_lookup_fmap. destruct (decide (i < n)%nat).
  - rewrite lookup_seq_lt by done. cbn. naive_solver.
  - rewrite lookup_seq_ge by lia. cbn. naive_solver lia.
Qed.

Lemma node_inj k i j : node k i = node k j -> i = j.
Proof. unfold node. destruct (entry_size_cases k) as [[-> _]|[-> _]]; lia. Qed.

(** The links of a compact list. *)
Lemma compact_next k a j m : (forall i, (j <= i < j + m)%nat -> GetElement a (node k i + 1) = Int (node k (S i))) ->
  GetElement a (node k (j + m) + 1) = Int 4 -> path 1 a (node k j) (node k <$> seq (S j) m) 4.
Proof.
  revert j. induction m as [|m IH]; intros j H E; cbn [seq fmap list_fmap path].
  - by rewrite Nat.add_0_r in E.
  - split; [apply H; lia|]. apply (IH (S j)); [intros i Hi; apply H; lia|]. by replace (S j + m)%nat with (j + S m)%nat by lia.
Qed.

Lemma compact_prev k a n p : (forall i, (i < n)%nat -> GetElement a (node k (S i) + 2) = Int (node k i)) ->
  GetElement a (p + 2) = Int (node k n) -> path 2 a p (reverse (compactNodes k n)) (node k 0).
Proof.
  revert p. induction n as [|n IH]; intros p H E; [done|]. rewrite compactNodes_S, reverse_snoc. cbn [path].
  split; [done|]. apply IH; [intros i Hi; apply H; lia|]. apply H. lia.
Qed.

Lemma last_compact k n : lastOr 4 (compactNodes k n) = node k n.
Proof.
  destruct n as [|n]; [unfold node; cbn; lia|]. rewrite compactNodes_S, last_snoc. done.
Qed.

Lemma compact_entries k n m : Z.of_nat n <= m -> Forall (entry k m) (compactNodes k n).
Proof.
  intros H. apply Forall_lookup_2. intros i x Hx. apply compactNodes_lookup in Hx as [-> Hi]. exists (Z.of_nat (S i)).
  unfold node. lia.
Qed.

Lemma compact_NoDup k n : NoDup (compactNodes k n).
Proof. apply NoDup_fmap_2; [intros i j; apply node_inj|apply NoDup_seq]. Qed.

Lemma compact_inv k a n cap : Z.of_nat (length a) = 4 + ENTRY_SIZE k * (cap + 1) -> Z.of_nat n <= cap ->
  GetElement a 0 = Int (Z.of_nat n) -> GetElement a 1 = Int 0 -> GetElement a 2 = Int 4 -> GetElement a 3 = Int (node k n) ->
  GetElement a 4 = Hole ->
  (forall i, (i < n)%nat -> GetElement a (node k i + 1) = Int (node k (S i))) -> GetElement a (node k n + 1) = Int 4 ->
  (k = DOUBLE -> GetElement a 6 = Int (node k n) /\ forall i, (i < n)%nat -> GetElement a (node k (S i) + 2) = Int (node k i)) ->
  listInv k a (compactNodes k n) 0 cap.
Proof.
  intros Hl Hn H0 H1 H2 H3 H4 Hnext Hend Hprev. assert (node k 0 = 4) as E0 by (unfold node; lia).
  split; rewrite ?compactNodes_length; try done; try lia.
  - by rewrite last_compact.
  - rewrite <- E0 at 1. apply compact_next; [intros i Hi; apply Hnext; lia|done].
  - intros Hk. destruct (Hprev Hk) as [E6 Hp]. rewrite <- E0 at 2. by apply compact_prev.
  - apply compact_NoDup.
  - apply compact_entries. lia.
Qed.

(** An array whose used part is that of [a]. *)
Lemma resize_inv k a ns del cap a' cap' : listInv k a ns del cap ->
  (forall i, 0 <= i < 4 + ENTRY_SIZE k * (Z.of_nat (length ns) + del + 1) -> GetElement a' i = GetElement a i) ->
  Z.of_nat (length a') = 4 + ENTRY_SIZE k * (cap' + 1) -> Z.of_nat (length ns) + del <= cap' ->
  listInv k a' ns del cap' /\ valuesAt a' ns = valuesAt a ns.
Proof.
  intros [Hl Hd Hr H0 H1 H2 H3 H4 Hn Hp Hnd He] Hs Hl' Hr'.
  assert (forall x, x ∈ 4 :: ns -> 4 <= x <= 4 + ENTRY_SIZE k * (Z.of_nat (length ns) + del)) as Hb.
  { intros x Hx. apply elem_of_cons in Hx as [->|Hx]; [destruct (entry_size_cases k) as [[-> _]|[-> _]]; lia|].
    rewrite Forall_forall in He. apply He in Hx. apply entry_ge in Hx. destruct (entry_size_cases k) as [[E _]|[E _]]; rewrite E in *; lia. }
  split; [split|]; try done; rewrite ?Hs; try done; try (destruct (entry_size_cases k) as [[-> _]|[-> _]]; lia).
  - eapply path_frame; [|exact Hn]. intros x Hx. apply Hb in Hx. apply Hs. destruct (entry_size_cases k) as [[E _]|[E _]]; rewrite E in *; lia.
  - intros Hk. eapply path_frame; [|exact (Hp Hk)]. intros x Hx.
    assert (x ∈ 4 :: ns) as Hx' by (rewrite elem_of_cons, elem_of_reverse in Hx; by rewrite elem_of_cons).
    apply Hb in Hx'. apply Hs. subst k. cbn in *. lia.
  - unfold valuesAt. apply list_fmap_ext. intros i x Hx. apply Hs. assert (x ∈ 4 :: ns) as Hx' by (right; by eapply list_elem_of_lookup_2).
    apply Hb in Hx'. destruct (entry_size_cases k) as [[E _]|[E _]]; rewrite E in *; lia.
Qed.

(** ** Insertion and removal of a node *)

(** The head and the nodes, by entry number. *)
Lemma base_index k m ns x : Forall (entry k m) ns -> 0 <= m -> x ∈ 4 :: ns -> exists i, x = 4 + ENTRY_SIZE k * i /\ 0 <= i <= m.
Proof.
  intros He Hm Hx. apply elem_of_cons in Hx as [->|Hx]; [exists 0; lia|].
  rewrite Forall_forall in He. destruct (He x Hx) as (i & -> & Hi). exists i. lia.
Qed.

Lemma headOr_elem (q : Z) ns : headOr q ns ∈ q :: ns.
Proof. destruct ns; [by left|right; by left]. Qed.

Lemma head_reverse {A} (l : list A) : head (reverse l) = last l.
Proof. destruct l as [|x l _] using rev_ind; [done|]. by rewrite reverse_snoc, last_snoc. Qed.

Lemma last_reverse' {A} (l : list A) : last (reverse l) = head l.
Proof. destruct l; [done|]. by rewrite reverse_cons, last_snoc. Qed.

Lemma NoDup_head k m ns : Forall (entry k m) ns -> NoDup ns -> NoDup (4 :: ns).
Proof.
  intros He Hnd. apply NoDup_cons. split; [|done]. intros H. rewrite Forall_forall in He. apply He, entry_ge in H.
  destruct (entry_size_cases k) as [[E _]|[E _]]; rewrite E in H; lia.
Qed.

Lemma NoDup_reverse_head ns : NoDup (4 :: ns) -> NoDup (4 :: reverse ns).
Proof.
  intros H. apply NoDup_cons in H as [H1 H2]. apply NoDup_cons. split; [by rewrite elem_of_reverse|by rewrite reverse_Permutation].
Qed.

Section Nodes.
  Context (k : ListKind) (a : Array) (ns1 ns2 : list Z) (del cap : Z).

Notation p := (lastOr 4 ns1).
Notation q := (headOr 4 ns2).

(** [f] is put between [ns1] and [ns2]. *)
Lemma insert_inv a' f v : listInv k a (ns1 ++ ns2) del cap -> Z.of_nat (length (ns1 ++ ns2)) + del < cap ->
  f = 4 + ENTRY_SIZE k * (Z.of_nat (length (ns1 ++ ns2)) + 1 + del) -> length a' = length a ->
  GetElement a' 0 = Int (Z.of_nat (length (ns1 ++ ns2)) + 1) ->
  GetElement a' 3 = Int (match ns2 with [] => f | _ => lastOr 4 (ns1 ++ ns2) end) ->
  GetElement a' (p + 1) = Int f -> GetElement a' f = v -> GetElement a' (f + 1) = Int q ->
  (k = DOUBLE -> GetElement a' (q + 2) = Int f /\ GetElement a' (f + 2) = Int p) ->
  (forall x, x <> 0 -> x <> 3 -> x <> p + 1 -> x <> f -> x <> f + 1 -> (k = DOUBLE -> x <> q + 2 /\ x <> f + 2) ->
     GetElement a' x = GetElement a x) ->
  listInv k a' (ns1 ++ f :: ns2) del cap /\ valuesAt a' (ns1 ++ f :: ns2) = valuesAt a ns1 ++ v :: valuesAt a ns2.
Proof.
  intros [Hl Hd Hr H0 H1 H2 H3 H4 Hn Hp Hnd He] Hroom Ef Hlen E0 E3 Ep Efv Ef1 Hdbl Hframe.
  assert (forall x, x ∈ 4 :: ns1 ++ ns2 -> exists i, x = 4 + ENTRY_SIZE k * i /\ 0 <= i <= Z.of_nat (length (ns1 ++ ns2)) + del) as Hb
    by (intros x Hx; eapply base_index; [done|lia|done]).
  pose proof (NoDup_head _ _ _ He Hnd) as Hnd4.
  destruct (Hb p) as (ip & Eip & Hip).
  { pose proof (lastOr_elem 4 ns1) as H. rewrite !elem_of_cons, ?elem_of_app in *. tauto. }
  destruct (Hb q) as (iq & Eiq & Hiq).
  { pose proof (headOr_elem 4 ns2) as H. rewrite !elem_of_cons, ?elem_of_app in *. tauto. }
  assert (forall x o, x ∈ 4 :: ns1 ++ ns2 -> 0 <= o < ENTRY_SIZE k -> (o = 1 -> x <> p) -> (o = 2 -> x <> q) -> GetElement a' (x + o) = GetElement a (x + o)) as Hsame.
  { intros x o Hx Ho Hxp Hxq. destruct (Hb x Hx) as (i & -> & Hi).
    destruct (entry_size_cases k) as [[E Ek]|[E Ek]]; rewrite E in *; apply Hframe; try (intros ->; discriminate); lia. }
  assert (forall x, x ∈ ns1 ++ ns2 -> GetElement a' x = GetElement a x) as Hval.
  { intros x Hx. rewrite <- (Z.add_0_r x). apply Hsame; [by right|destruct (entry_size_cases k) as [[-> _]|[-> _]]; lia|lia|lia]. }
  rewrite length_app in *. split; [split|]; rewrite ?length_app; cbn [length]; try done; try lia.
  - rewrite E0. f_equal. lia.
  - rewrite Hframe; [done|lia| | | | |]; destruct (entry_size_cases k) as [[E Ek]|[E Ek]]; rewrite E in *; try (intros ->; discriminate); lia.
  - rewrite Hframe; [done|lia| | | | |]; destruct (entry_size_cases k) as [[E Ek]|[E Ek]]; rewrite E in *; try (intros ->; discriminate); lia.
  - rewrite E3. destruct ns2 as [|n ns2']; [by rewrite last_snoc|]. rewrite !last_app_cons, last_cons_cons. done.
  - rewrite <- (Z.add_0_r 4) at 1. rewrite Hsame; [done|by left|destruct (entry_size_cases k) as [[-> _]|[-> _]]; lia|lia|lia].
  - eapply path_insert; [exact Hn|done|done|done|]. intros x Hx Hxp.
    apply Hsame; [done|destruct (entry_size_cases k) as [[-> _]|[-> _]]; lia|done|lia].
  - intros Hk. destruct (Hdbl Hk) as [Eq Ef2]. rewrite reverse_app, reverse_cons, <- app_assoc. cbn [app].
    specialize (Hp Hk). rewrite reverse_app in Hp. apply NoDup_reverse_head in Hnd4. rewrite reverse_app in Hnd4.
    eapply path_insert; [exact Hp|done| | |]; rewrite ?last_reverse', ?head_reverse; [done|done|]. intros x Hx Hxq.
    apply Hsame; [|subst k; cbn; lia|lia|done].
    rewrite elem_of_cons, elem_of_app, !elem_of_reverse in Hx. rewrite elem_of_cons, elem_of_app. tauto.
  - apply NoDup_app in Hnd as (Hnd1 & Hdis & Hnd2). assert (f ∉ ns1 ++ ns2) as Hf.
    { intros H. destruct (Hb f) as (i & Ei & Hi); [by right|]. destruct (entry_size_cases k) as [[E Ek]|[E Ek]]; rewrite E in *; lia. }
    apply not_elem_of_app in Hf as [Hf1 Hf2]. apply NoDup_app. split_and!; [done| |by apply NoDup_cons].
    intros x Hx Hx'. apply elem_of_cons in Hx' as [->|Hx']; [done|]. by apply (Hdis x).
  - apply Forall_app in He as [He1 He2]. apply Forall_app. split; [eapply entries_mono; [done|lia]|].
    apply Forall_cons. split; [exists (Z.of_nat (length ns1 + length ns2) + 1 + del); lia|eapply entries_mono; [done|lia]].
  - unfold valuesAt. rewrite fmap_app, fmap_cons, Efv. f_equal; [|f_equal]; apply list_fmap_ext; intros i x Hx; apply Hval;
      apply elem_of_app; [left|right]; by eapply list_elem_of_lookup_2.
Qed.

(** [n] is taken out between [ns1] and [ns2]. *)
Lemma remove_inv a' n : listInv k a (ns1 ++ n :: ns2) del cap -> length a' = length a ->
  GetElement a' 0 = Int (Z.of_nat (length (ns1 ++ ns2))) -> GetElement a' 1 = Int (del + 1) ->
  GetElement a' 3 = Int (match ns2 with [] => p | _ => lastOr 4 (ns1 ++ n :: ns2) end) ->
  GetElement a' (p + 1) = Int q ->
  (k = DOUBLE -> GetElement a' (q + 2) = Int p) ->
  (forall x, x <> 0 -> x <> 1 -> x <> 3 -> x <> p + 1 -> x <> n -> (k = DOUBLE -> x <> q + 2) ->
     GetElement a' x = GetElement a x) ->
  listInv k a' (ns1 ++ ns2) (del + 1) cap /\ valuesAt a' (ns1 ++ ns2) = valuesAt a ns1 ++ valuesAt a ns2.
Proof.
  intros [Hl Hd Hr H0 H1 H2 H3 H4 Hn Hp Hnd He] Hlen E0 E1 E3 Ep Hdbl Hframe.
  assert (forall x, x ∈ 4 :: ns1 ++ n :: ns2 -> exists i, x = 4 + ENTRY_SIZE k * i /\ 0 <= i <= Z.of_nat (length (ns1 ++ n :: ns2)) + del) as Hb
    by (intros x Hx; eapply base_index; [done|lia|done]).
  pose proof (NoDup_head _ _ _ He Hnd) as Hnd4.
  destruct (Hb p) as (ip & Eip & Hip).
  { pose proof (lastOr_elem 4 ns1) as H. rewrite !elem_of_cons, ?elem_of_app in *. tauto. }
  destruct (Hb q) as (iq & Eiq & Hiq).
  { pose proof (headOr_elem 4 ns2) as H. rewrite !elem_of_cons, ?elem_of_app, ?elem_of_cons in *. tauto. }
  assert (Forall (entry k (Z.of_nat (length (ns1 ++ n :: ns2)) + del)) [n]) as Hen.
  { apply Forall_app in He as [_ He]. apply Forall_cons in He as [He _]. by apply Forall_singleton. }
  apply Forall_singleton in Hen as (inn & Ein & Hin).
  assert (forall x, x ∈ 4 :: ns1 ++ ns2 -> x ∈ 4 :: ns1 ++ n :: ns2 /\ x <> n) as Hsub.
  { intros x Hx. split; [rewrite !elem_of_cons, ?elem_of_app, ?elem_of_cons in *; tauto|]. intros ->.
    apply elem_of_cons in Hx as [->|Hx]; [destruct (entry_size_cases k) as [[E _]|[E _]]; rewrite E in *; lia|].
    apply NoDup_app in Hnd as (_ & Hdis & Hnd2). apply elem_of_app in Hx as [Hx|Hx]; [by apply (Hdis n Hx); left|].
    by apply NoDup_cons in Hnd2 as [? _]. }
  assert (forall x o, x ∈ 4 :: ns1 ++ ns2 -> 0 <= o < ENTRY_SIZE k -> (o = 1 -> x <> p) -> (o = 2 -> x <> q) -> GetElement a' (x + o) = GetElement a (x + o)) as Hsame.
  { intros x o Hx Ho Hxp Hxq. destruct (Hsub x Hx) as [Hx' Hne]. destruct (Hb x Hx') as (i & -> & Hi).
    destruct (entry_size_cases k) as [[E Ek]|[E Ek]]; rewrite E in *; apply Hframe; try (intros ->; discriminate); lia. }
  assert (forall x, x ∈ ns1 ++ ns2 -> GetElement a' x = GetElement a x) as Hval.
  { intros x Hx. rewrite <- (Z.add_0_r x). apply Hsame; [by right|destruct (entry_size_cases k) as [[-> _]|[-> _]]; lia|lia|lia]. }
  rewrite !length_app in *. cbn [length] in *. split; [split|]; rewrite ?length_app; try done; try lia.
  - rewrite Hframe; [done|lia|lia| | | |]; destruct (entry_size_cases k) as [[E Ek]|[E Ek]]; rewrite E in *; try (intros ->; discriminate); lia.
  - rewrite E3. destruct ns2 as [|m ns2']; [by rewrite app_nil_r|]. rewrite !last_app_cons, last_cons_cons. done.
  - rewrite <- (Z.add_0_r 4) at 1. rewrite Hsame; [done|by left|destruct (entry_size_cases k) as [[-> _]|[-> _]]; lia|lia|lia].
  - eapply path_remove; [exact Hn|done|done|]. intros x Hx Hxp.
    apply Hsame; [done|destruct (entry_size_cases k) as [[-> _]|[-> _]]; lia|done|lia].
  - intros Hk. specialize (Hdbl Hk). rewrite reverse_app. specialize (Hp Hk). apply NoDup_reverse_head in Hnd4.
    rewrite reverse_app, reverse_cons, <- app_assoc in Hp, Hnd4. cbn [app] in Hp, Hnd4.
    eapply path_remove; [exact Hp|done| |]; rewrite ?last_reverse', ?head_reverse; [done|]. intros x Hx Hxq.
    apply Hsame; [|subst k; cbn; lia|lia|done].
    rewrite elem_of_cons, elem_of_app, !elem_of_reverse in Hx. rewrite elem_of_cons, elem_of_app. tauto.
  - apply NoDup_app in Hnd as (Hnd1 & Hdis & Hnd2). apply NoDup_cons in Hnd2 as [_ Hnd2]. apply NoDup_app. split_and!; [done| |done].
    intros x Hx Hx'. apply (Hdis x); [done|]. by right.
  - apply Forall_app in He as [He1 He2]. apply Forall_cons in He2 as [_ He2]. apply Forall_app.
    split; eapply entries_mono; [done|lia|done|lia].
  - unfold valuesAt. rewrite fmap_app. f_equal; apply list_fmap_ext; intros i x Hx; apply Hval;
      apply elem_of_app; [left|right]; by eapply list_elem_of_lookup_2.
Qed.
End Nodes.

(** The places in a list: between [ns1] and [ns2]. *)
Section Cursor.
  Context (k : ListKind) (a : Array) (ns1 ns2 : list Z) (del cap : Z).
  Hypothesis Ha : listInv k a (ns1 ++ ns2) del cap.

Lemma cursor_next : GetIntElement a (lastOr 4 ns1 + NEXT_PTR_OFFSET) = Ok (headOr 4 ns2).
Proof.
  pose proof (inv_next _ _ _ _ _ Ha) as Hn. unfold GetIntElement, NEXT_PTR_OFFSET.
  destruct ns1 as [|m l _] using rev_ind; [change (lastOr 4 (@nil Z)) with 4; by rewrite (path_first _ _ _ _ _ Hn)|].
  rewrite <- app_assoc in Hn. apply path_app in Hn as [_ Hn]. rewrite last_snoc. change (default 4 (Some m)) with m.
  by rewrite (path_first _ _ _ _ _ Hn).
Qed.

(** The nodes before and after, by entry number. *)
Lemma cursor_index : exists ip iq, lastOr 4 ns1 = 4 + ENTRY_SIZE k * ip /\ headOr 4 ns2 = 4 + ENTRY_SIZE k * iq /\
  0 <= ip <= Z.of_nat (length (ns1 ++ ns2)) + del /\ 0 <= iq <= Z.of_nat (length (ns1 ++ ns2)) + del.
Proof.
  pose proof (inv_nodes _ _ _ _ _ Ha) as He. pose proof (inv_del _ _ _ _ _ Ha).
  destruct (base_index _ _ _ (lastOr 4 ns1) He) as (ip & Eip & Hip); [lia| |].
  { pose proof (lastOr_elem 4 ns1) as H'. rewrite !elem_of_cons, ?elem_of_app in *. tauto. }
  destruct (base_index _ _ _ (headOr 4 ns2) He) as (iq & Eiq & Hiq); [lia| |].
  { pose proof (headOr_elem 4 ns2) as H'. rewrite !elem_of_cons, ?elem_of_app in *. tauto. }
  exists ip, iq. lia.
Qed.
End Cursor.

(** Whether a node is the tail. *)
Lemma tail_test (n : Z) ns2 : NoDup (n :: ns2) -> (n =? lastOr n ns2) = match ns2 with [] => true | _ => false end.
Proof.
  intros Hnd. destruct ns2 as [|m ns2']; [apply Z.eqb_refl|]. apply Z.eqb_neq. intros E. rewrite lastOr_cons in E.
  apply NoDup_cons in Hnd as [Hnd _]. apply Hnd. rewrite E. apply lastOr_elem.
Qed.

Lemma RemoveNode_returns k a ns1 n ns2 del cap : listInv k a (ns1 ++ n :: ns2) del cap ->
  returns (RemoveNode k a (lastOr 4 ns1)) (fun a' =>
    listInv k a' (ns1 ++ ns2) (del + 1) cap /\ valuesAt a' (ns1 ++ ns2) = valuesAt a ns1 ++ valuesAt a ns2).
Proof.
  intros Ha. pose proof Ha as [Hl Hd Hr H0 H1 H2 H3 H4 Hn Hp Hnd He].
  destruct (cursor_index k a ns1 (n :: ns2) del cap Ha) as (ip & inn & Eip & Ein & Hip & Hin).
  pose proof (cursor_next k a ns1 (n :: ns2) del cap Ha) as E1. change (headOr 4 (n :: ns2)) with n in E1, Ein.
  assert (listInv k a ((ns1 ++ [n]) ++ ns2) del cap) as Ha' by (by rewrite <- app_assoc).
  destruct (cursor_index k a (ns1 ++ [n]) ns2 del cap Ha') as (_ & iq & _ & Eiq & _ & Hiq).
  pose proof (cursor_next k a (ns1 ++ [n]) ns2 del cap Ha') as E2. rewrite last_snoc in E2. change (default 4 (Some n)) with n in E2.
  rewrite <- app_assoc in Hiq. cbn [app] in Hiq.
  assert (lastOr 4 (ns1 ++ n :: ns2) = lastOr n ns2) as Elast by (rewrite last_app_cons; apply lastOr_cons).
  apply NoDup_app in Hnd as (_ & _ & Hnd). destruct (inv_bounds _ _ _ _ _ Ha) as (_ & Hne4 & HL & _). apply Forall_app in Hne4 as [_ Hne4].
  assert (lastOr n ns2 <> 4) as Ht4 by (rewrite Forall_forall in Hne4; apply Hne4, lastOr_elem).
  apply Forall_cons in Hne4 as [Hn4 _].
  unfold RemoveNode. rewrite (tail_eq _ _ _ _ _ Ha), bind_Ok, (head_eq _ _ _ _ _ Ha), bind_Ok. rewrite Elast in *.
  rewrite (proj2 (Z.eqb_neq _ _) Ht4). rewrite E1, bind_Ok, E2, bind_Ok, (tail_test n ns2 Hnd).
  set (p := lastOr 4 ns1) in *. set (q := headOr 4 ns2) in *. unfold NEXT_PTR_OFFSET, PREV_PTR_OFFSET, TAIL_TABLE_INDEX in *.
  set (a1 := if match ns2 with [] => true | _ => false end then SetElement a 3 (Int p) else a).
  set (a2 := match k with SINGLE => a1 | DOUBLE => SetElement a1 (q + 2) (Int p) end).
  assert (length a1 = length a) as L1 by (unfold a1; destruct ns2; by rewrite ?length_SetElement).
  assert (length a2 = length a) as L2 by (unfold a2; destruct k; by rewrite ?length_SetElement).
  assert (forall x, x <> 3 -> GetElement a1 x = GetElement a x) as R1.
  { intros x Hx. unfold a1. destruct ns2; [|done]. by rewrite SetElement_ne by lia. }
  assert (forall x, x <> 3 -> (k = DOUBLE -> x <> q + 2) -> GetElement a2 x = GetElement a x) as R2.
  { intros x Hx Hx'. unfold a2. destruct k; [by apply R1|]. specialize (Hx' eq_refl). rewrite SetElement_ne by lia. by apply R1. }
  assert (GetElement a2 3 = Int (match ns2 with [] => p | _ => lastOr n ns2 end)) as R3.
  { assert (GetElement a1 3 = Int (match ns2 with [] => p | _ => lastOr n ns2 end)) as E.
    { unfold a1. destruct ns2; [by rewrite SetElement_eq by lia|done]. }
    unfold a2. destruct k; [done|]. rewrite SetElement_ne by (destruct (entry_size_cases DOUBLE) as [[E' _]|[E' _]]; rewrite E' in *; lia). done. }
  assert (ENTRY_SIZE k = 2 \/ ENTRY_SIZE k = 3) as HES by (destruct k; auto).
  assert (forall x, x = 0 \/ x = 1 -> GetElement (SetElement (SetElement a2 n Hole) (p + 1) (Int q)) x = GetElement a x) as R4.
  { intros x Hx. rewrite !SetElement_ne by (destruct HES as [HES|HES]; rewrite HES in *; lia). apply R2; [lia|].
    intros ->. cbn in *. lia. }
  unfold NumberOfNodes at 1, GetIntElement, NUMBER_OF_NODE_INDEX. rewrite R4, H0 by lia. cbn [GetInt]. rewrite bind_Ok.
  rewrite SetNumberOfNodes_eq by (rewrite !length_SetElement; lia). rewrite bind_Ok.
  unfold NumberOfDeletedNodes, GetIntElement, NUMBER_OF_DELETED_NODES_INDEX. rewrite SetElement_ne, R4, H1 by lia. cbn [GetInt]. rewrite bind_Ok.
  rewrite SetNumberOfDeletedNodes_eq by (rewrite !length_SetElement; lia). apply returns_ok.
  eapply remove_inv; [exact Ha|by rewrite !length_SetElement| | | | | |].
  - read_slot. rewrite !length_app. cbn [length]. f_equal. lia.
  - by read_slot.
  - rewrite Elast. rewrite !SetElement_ne by (destruct HES as [HES|HES]; rewrite HES in *; lia). done.
  - fold p. fold q. rewrite !SetElement_ne by (destruct HES as [HES|HES]; rewrite HES in *; lia).
    apply SetElement_eq. rewrite length_SetElement. destruct HES as [HES|HES]; rewrite HES in *; lia.
  - fold p. fold q. intros Hk. rewrite !SetElement_ne by (rewrite ?Hk in *; cbn in *; lia). unfold a2. rewrite Hk.
    apply SetElement_eq. rewrite L1. rewrite Hk in *. cbn in *. lia.
  - fold p. fold q. intros x X0 X1 X3 Xp Xn Xq. rewrite !SetElement_ne by lia. by apply R2.
Qed.

(** ** Empty lists *)

(** The header and the head of an empty list; the other slots do not matter. *)
Record blank (a : Array) : Prop := {
  blank_number : GetElement a 0 = Int 0;
  blank_deleted : GetElement a 1 = Int 0;
  blank_head : GetElement a 2 = Int 4;
  blank_tail : GetElement a 3 = Int 4;
  blank_hole : GetElement a 4 = Hole;
  blank_next : GetElement a 5 = Int 4 }.

Lemma blank_inv k a cap : blank a -> (k = DOUBLE -> GetElement a 6 = Int 4) -> 0 <= cap ->
  Z.of_nat (length a) = 4 + ENTRY_SIZE k * (cap + 1) -> listInv k a [] 0 cap.
Proof.
  intros [] H6 Hc Hl. split; cbn; try done; try lia. apply NoDup_nil_2.
Qed.

Lemma blank_write a : 6 <= Z.of_nat (length a) ->
  returns (a ← SetNumberOfNodes a 0;
    a ← SetNumberOfDeletedNodes a 0;
    let a := SetElement a HEAD_TABLE_INDEX (Int ELEMENTS_START_INDEX) in
    let a := SetElement a TAIL_TABLE_INDEX (Int ELEMENTS_START_INDEX) in
    let a := SetElement a ELEMENTS_START_INDEX Hole in
    Ok (SetElement a (ELEMENTS_START_INDEX + NEXT_PTR_OFFSET) (Int ELEMENTS_START_INDEX)))
  (fun a' => length a' = length a /\ blank a').
Proof.
  intros Hl. rewrite SetNumberOfNodes_eq, bind_Ok by lia.
  rewrite SetNumberOfDeletedNodes_eq, bind_Ok by (rewrite length_SetElement; lia). apply returns_ok.
  unfold HEAD_TABLE_INDEX, TAIL_TABLE_INDEX, ELEMENTS_START_INDEX, NEXT_PTR_OFFSET. change (4 + 1) with 5.
  split; [by rewrite !length_SetElement|]. split; by read_slot.
Qed.

Lemma Create_returns k n : 0 <= n < 2 ^ 28 ->
  returns (Create k n) (fun a => Z.of_nat (length a) = 4 + ENTRY_SIZE k * (n + 1) /\ blank a).
Proof.
  intros Hn. unfold Create, ELEMENTS_START_INDEX. destruct (Z.ltb_spec n 0); [lia|]. cbn [orb].
  assert (ENTRY_SIZE k = 2 \/ ENTRY_SIZE k = 3) as HES by (destruct k; auto).
  destruct (Z.leb_spec (2 ^ 31) (4 + ENTRY_SIZE k + n * ENTRY_SIZE k)); [destruct HES as [E|E]; rewrite E in *; lia|].
  eapply returns_mono; [apply blank_write; rewrite length_replicate; destruct HES as [E|E]; rewrite E in *; lia|].
  intros a [Hl Hb]. split; [|done]. rewrite Hl, length_replicate. destruct HES as [E|E]; rewrite E in *; lia.
Qed.

(** Writes to the value slots of nodes leave the links alone. *)
Lemma clearLoop_returns k a ns del cap : listInv k a ns del cap ->
  returns (for_up (length ns) 0 (fun _ '(dataIndex, a) =>
    dataIndex ← GetIntElement a (dataIndex + NEXT_PTR_OFFSET);
    Ok (dataIndex, SetElement a dataIndex Hole)) (4, a))
  (fun '(_, a') => length a' = length a).
Proof.
  intros Ha. pose proof (inv_nodes _ _ _ _ _ Ha) as He. pose proof (inv_del _ _ _ _ _ Ha) as Hd.
  assert (ENTRY_SIZE k = 2 \/ ENTRY_SIZE k = 3) as HES by (destruct k; auto).
  eapply returns_mono; [apply (for_up_returns (fun i '(d, a') => d = lastOr 4 (take i ns) /\ length a' = length a /\
    forall x, x ∈ 4 :: ns -> GetElement a' (x + 1) = GetElement a (x + 1)))|].
  - split_and!; [done|done|done].
  - intros i [d a'] Hi (-> & Hl & Hs). assert (listInv k a (take i ns ++ drop i ns) del cap) as Ha' by (by rewrite take_drop).
    pose proof (cursor_next k a (take i ns) (drop i ns) del cap Ha') as E.
    destruct (lookup_lt_is_Some_2 ns i) as [n Hn]; [lia|]. rewrite (drop_S _ _ _ Hn) in E. change (headOr 4 (n :: _)) with n in E.
    unfold GetIntElement, NEXT_PTR_OFFSET in *. rewrite Hs.
    2: { pose proof (lastOr_elem 4 (take i ns)) as H. rewrite !elem_of_cons in *. destruct H as [H|H]; [by left|right].
         by apply elem_of_take in H as (j & H & _); eapply list_elem_of_lookup_2. }
    rewrite E, bind_Ok. apply returns_ok. split_and!; [by rewrite (take_S_r _ _ _ Hn), last_snoc|by rewrite length_SetElement|].
    intros x Hx. rewrite <- (Hs x Hx). apply SetElement_ne. destruct (base_index _ _ _ _ He ltac:(lia) Hx) as (j & -> & Hj).
    destruct (base_index _ _ _ n He ltac:(lia) ltac:(right; by eapply list_elem_of_lookup_2)) as (j' & -> & Hj').
    destruct HES as [E'|E']; rewrite E' in *; lia.
  - intros [d a'] (_ & Hl & _). done.
Qed.

Lemma Clear_returns k a ns del cap : listInv k a ns del cap ->
  returns (Clear a) (fun a' => length a' = length a /\ blank a').
Proof.
  intros Ha. unfold Clear. rewrite (NumberOfNodes_eq _ _ _ _ _ Ha), bind_Ok, Nat2Z.id.
  eapply returns_bind; [exact (clearLoop_returns k a ns del cap Ha)|]. intros [_ a'] Hl. rewrite <- Hl.
  apply blank_write. destruct (inv_bounds _ _ _ _ _ Ha) as (_ & _ & H & _). lia.
Qed.

(** ** Writing the value of a node *)

Lemma write_inv k a ns del cap i n v : listInv k a ns del cap -> ns !! i = Some n ->
  listInv k (SetElement a n v) ns del cap /\ valuesAt (SetElement a n v) ns = <[i := v]> (valuesAt a ns).
Proof.
  intros Ha Hn. pose proof Ha as [Hl Hd Hr H0 H1 H2 H3 H4 Hnext Hp Hnd He].
  assert (ENTRY_SIZE k = 2 \/ ENTRY_SIZE k = 3) as HES by (destruct k; auto).
  pose proof (Forall_lookup_1 _ _ _ _ He Hn) as (j & Ej & Hj).
  assert (forall x o, x ∈ 4 :: ns -> 0 < o < ENTRY_SIZE k -> GetElement (SetElement a n v) (x + o) = GetElement a (x + o)) as Hs.
  { intros x o Hx Ho. destruct (base_index _ _ _ _ He ltac:(lia) Hx) as (j' & -> & Hj'). apply SetElement_ne.
    destruct HES as [E|E]; rewrite E in *; lia. }
  assert (forall x, 0 <= x <= 4 -> GetElement (SetElement a n v) x = GetElement a x) as Hh.
  { intros x Hx. apply SetElement_ne. destruct HES as [E|E]; rewrite E in *; lia. }
  split; [split; rewrite ?length_SetElement, ?Hh by lia; try done|].
  - eapply path_frame; [|done]. intros x Hx. apply Hs; [done|]. destruct HES as [->| ->]; lia.
  - intros Hk. eapply path_frame; [|by apply Hp]. intros x Hx. apply Hs; [|subst k; cbn; lia].
    rewrite elem_of_cons, elem_of_reverse in Hx. by apply elem_of_cons.
  - unfold valuesAt. apply list_eq. intros m. rewrite list_lookup_fmap. destruct (decide (m = i)) as [->|Hne].
    + rewrite Hn. cbn. rewrite list_lookup_insert_eq by (rewrite length_fmap; by eapply lookup_lt_Some).
      f_equal. apply SetElement_eq. destruct HES as [E|E]; rewrite E in *; lia.
    + rewrite list_lookup_insert_ne by done. rewrite list_lookup_fmap. destruct (ns !! m) as [x|] eqn:Hx; [|done]. cbn. f_equal.
      apply SetElement_ne. intros ->. apply Hne. by eapply NoDup_lookup.
Qed.

(** ** Copies in order *)

(** Entry [S i] gets the value [v] and links to its neighbours. *)
Definition putNode (k : ListKind) (i : nat) (v : JSTaggedValue) (t : Array) : Array :=
  let t := SetElement t (node k (S i)) v in
  let t := SetElement t (node k (S i) + 1) (Int (node k (S (S i)))) in
  match k with DOUBLE => SetElement t (node k (S i) + 2) (Int (node k i)) | SINGLE => t end.

(** [t'] is [t] with the first nodes put to the values [vs]. *)
Record filled (k : ListKind) (t t' : Array) (vs : list JSTaggedValue) : Prop := {
  filled_length : length t' = length t;
  filled_low : forall x, x < node k 1 -> GetElement t' x = GetElement t x;
  filled_value : forall j v, vs !! j = Some v -> GetElement t' (node k (S j)) = v;
  filled_next : forall j, (j < length vs)%nat -> GetElement t' (node k (S j) + 1) = Int (node k (S (S j)));
  filled_prev : k = DOUBLE -> forall j, (j < length vs)%nat -> GetElement t' (node k (S j) + 2) = Int (node k j) }.

Lemma putNode_spec k i v t : node k (S i) + ENTRY_SIZE k <= Z.of_nat (length t) ->
  length (putNode k i v t) = length t /\
  GetElement (putNode k i v t) (node k (S i)) = v /\
  GetElement (putNode k i v t) (node k (S i) + 1) = Int (node k (S (S i))) /\
  (k = DOUBLE -> GetElement (putNode k i v t) (node k (S i) + 2) = Int (node k i)) /\
  (forall x, ~ node k (S i) <= x < node k (S i) + ENTRY_SIZE k -> GetElement (putNode k i v t) x = GetElement t x).
Proof.
  intros Hl. unfold putNode, node in *. destruct k; cbn in *; (split_and!; [by rewrite !length_SetElement|..]); intros; try done; by read_slot.
Qed.

Lemma filled_snoc k t t' vs v : filled k t t' vs -> node k (S (length vs)) + ENTRY_SIZE k <= Z.of_nat (length t) ->
  filled k t (putNode k (length vs) v t') (vs ++ [v]).
Proof.
  intros [Hl Hlow Hv Hn Hp] Hroom. rewrite <- Hl in Hroom.
  destruct (putNode_spec k (length vs) v t' Hroom) as (L & Ev & En & Ep & Hs).
  assert (ENTRY_SIZE k = 2 \/ ENTRY_SIZE k = 3) as HES by (destruct k; auto).
  assert (forall j o, (j < length vs)%nat -> 0 <= o < ENTRY_SIZE k ->
    GetElement (putNode k (length vs) v t') (node k (S j) + o) = GetElement t' (node k (S j) + o)) as Hold.
  { intros j o Hj Ho. apply Hs. unfold node. destruct HES as [E|E]; rewrite E in *; lia. }
  split.
  - lia.
  - intros x Hx. rewrite <- Hlow by done. apply Hs. unfold node in *. destruct HES as [E|E]; rewrite E in *; lia.
  - intros j u Hu. destruct (decide (j < length vs)%nat) as [Hj|Hj].
    + rewrite lookup_app_l in Hu by done. rewrite <- (Hv _ _ Hu), <- (Z.add_0_r (node k (S j))). apply Hold; [done|destruct HES as [E|E]; rewrite E in *; lia].
    + apply lookup_app_Some in Hu as [Hu|[Hj' Hu]]; [apply lookup_lt_Some in Hu; lia|].
      destruct (j - length vs)%nat eqn:E; [|done]. replace j with (length vs) by lia. cbn in Hu. congruence.
  - intros j Hj. rewrite length_app in Hj. cbn in Hj. destruct (decide (j = length vs)) as [->|Hne]; [done|].
    rewrite Hold; [apply Hn; lia|lia|destruct HES as [E|E]; rewrite E in *; lia].
  - intros Hk j Hj. rewrite length_app in Hj. cbn in Hj. destruct (decide (j = length vs)) as [->|Hne]; [by apply Ep|].
    rewrite Hold; [apply Hp; [done|lia]|lia|subst k; cbn; lia].
Qed.

(** The loops that copy a list node by node. *)
Lemma fill_returns k a ns del cap t k' body : listInv k a ns del cap ->
  4 + ENTRY_SIZE k' * (Z.of_nat (length ns) + 1) <= Z.of_nat (length t) ->
  (forall i src t', body i (src, t') =
     (next ← GetIntElement a (src + NEXT_PTR_OFFSET); Ok (next, putNode k' i (GetElement a src) t'))) ->
  returns (for_up (length ns) 0 body (headOr 4 ns, t)) (fun '(_, t') => filled k' t t' (valuesAt a ns)).
Proof.
  intros Ha Hroom Hbody.
  eapply returns_mono; [apply (for_up_returns (fun i '(src, t') => src = headOr 4 (drop i ns) /\ filled k' t t' (valuesAt a (take i ns))))|].
  - split; [done|]. change (valuesAt a (take 0 ns)) with (@nil JSTaggedValue). split; [done|done|by intros [|j]|cbn; intros; lia|cbn; intros; lia].
  - intros i [src t'] Hi [-> Hf]. rewrite Hbody. destruct (lookup_lt_is_Some_2 ns i) as [n Hn]; [lia|].
    rewrite (drop_S _ _ _ Hn). change (headOr 4 (n :: _)) with n.
    assert (listInv k a (take (S i) ns ++ drop (S i) ns) del cap) as Ha' by (by rewrite take_drop).
    pose proof (cursor_next k a (take (S i) ns) (drop (S i) ns) del cap Ha') as E. rewrite (take_S_r _ _ _ Hn), last_snoc in E.
    change (default 4 (Some n)) with n in E. rewrite E, bind_Ok. apply returns_ok. split; [done|].
    rewrite (take_S_r _ _ _ Hn). unfold valuesAt. rewrite fmap_app. cbn [fmap list_fmap].
    assert (length (GetElement a <$> take i ns) = i) as El by (rewrite length_fmap, length_take; lia).
    rewrite <- El at 1. apply filled_snoc; [done|]. rewrite El. unfold node.
    assert (ENTRY_SIZE k' = 2 \/ ENTRY_SIZE k' = 3) as [E'|E'] by (destruct k'; auto); rewrite E' in *; lia.
  - intros [src t'] [_ Hf]. cbn [Nat.add] in Hf. by rewrite firstn_all in Hf.
Qed.

(** The array after the copy, when the head and the last link are set too. *)
Lemma filled_inv k t t' vs cap : filled k t t' vs -> Z.of_nat (length t) = 4 + ENTRY_SIZE k * (cap + 1) -> Z.of_nat (length vs) <= cap ->
  GetElement t 0 = Int (Z.of_nat (length vs)) -> GetElement t 1 = Int 0 -> GetElement t 2 = Int 4 ->
  GetElement t 3 = Int (node k (length vs)) -> GetElement t 4 = Hole ->
  ((0 < length vs)%nat -> GetElement t 5 = Int (node k 1)) -> (k = DOUBLE -> GetElement t 6 = Int (node k (length vs))) ->
  let t'' := SetElement t' (node k (length vs) + 1) (Int 4) in
  listInv k t'' (compactNodes k (length vs)) 0 cap /\ valuesAt t'' (compactNodes k (length vs)) = vs.
Proof.
  intros [Hl Hlow Hv Hn Hp] Hlen Hroom H0 H1 H2 H3 H4 H5 H6 t''.
  assert (ENTRY_SIZE k = 2 \/ ENTRY_SIZE k = 3) as HES by (destruct k; auto).
  assert (node k (length vs) + 1 < Z.of_nat (length t')) as Hin by (rewrite Hl; unfold node; destruct HES as [E|E]; rewrite E in *; lia).
  assert (0 <= node k (length vs)) as Hpos by (unfold node; destruct HES as [E|E]; rewrite E in *; lia).
  assert (forall x, x <= 4 -> GetElement t'' x = GetElement t x) as Hh.
  { intros x Hx. unfold t''. rewrite SetElement_ne by (unfold node; destruct HES as [E|E]; rewrite E in *; lia).
    apply Hlow. unfold node. destruct HES as [E|E]; rewrite E in *; lia. }
  split.
  - apply compact_inv; rewrite ?Hh by lia; try done.
    + unfold t''. by rewrite length_SetElement, Hl.
    + intros i Hi. unfold t''. rewrite SetElement_ne by (unfold node; destruct HES as [E|E]; rewrite E in *; lia).
      destruct i as [|i]; [|apply Hn; lia]. replace (node k 0 + 1) with 5 by (unfold node; lia).
      rewrite Hlow by (unfold node; destruct HES as [E|E]; rewrite E in *; lia). apply H5. lia.
    + unfold t''. apply SetElement_eq. lia.
    + intros Hk. unfold t''. split.
      * rewrite SetElement_ne by (unfold node; subst k; cbn; lia). rewrite Hlow by (unfold node; subst k; cbn; lia). by apply H6.
      * intros i Hi. rewrite SetElement_ne by (unfold node; subst k; cbn; lia). by apply Hp.
  - apply list_eq. intros i. rewrite valuesAt_lookup. destruct (decide (i < length vs)%nat) as [Hi|Hi].
    + rewrite (proj2 (compactNodes_lookup k (length vs) i (node k (S i)))) by done. cbn.
      destruct (lookup_lt_is_Some_2 vs i Hi) as [v Hvi]. rewrite Hvi. f_equal. unfold t''.
      rewrite SetElement_ne by (unfold node; destruct HES as [E|E]; rewrite E in *; lia). by apply Hv.
    + rewrite (lookup_ge_None_2 vs) by lia. by rewrite lookup_ge_None_2 by (rewrite compactNodes_length; lia).
Qed.

(** ** Growing *)

Lemma copyAll_returns a t : (length a <= length t)%nat ->
  returns (for_up (length a) 0 (fun i taggedList =>
      Ok (SetElement taggedList (Z.of_nat i) (GetElement a (Z.of_nat i)))) t)
    (fun t' => length t' = length t /\ forall i, 0 <= i < Z.of_nat (length a) -> GetElement t' i = GetElement a i).
Proof.
  intros Hl. eapply returns_mono; [apply (for_up_returns (fun j t' => length t' = length t /\
    forall i, 0 <= i < Z.of_nat j -> GetElement t' i = GetElement a i))|].
  - split; [done|lia].
  - intros j t' Hj [Hl' H]. apply returns_ok. rewrite length_SetElement. split; [done|]. intros i Hi.
    destruct (decide (i = Z.of_nat j)) as [->|Hne]; [apply SetElement_eq; lia|]. rewrite SetElement_ne by lia. apply H. lia.
  - done.
Qed.

(** The copy of a list with holes. *)
Lemma compactCopy_returns k a ns del cap t cap' : listInv k a ns del cap -> blank t ->
  Z.of_nat (length t) = 4 + ENTRY_SIZE k * (cap' + 1) -> Z.of_nat (length ns) <= cap' -> del <> 0 ->
  returns (CopyArray k a t) (fun t' => listInv k t' (compactNodes k (length ns)) 0 cap' /\
    valuesAt t' (compactNodes k (length ns)) = valuesAt a ns).
Proof.
  intros Ha [B0 B1 B2 B3 B4 B5] Hl Hroom Hd. unfold CopyArray. rewrite (NumberOfDeletedNodes_eq _ _ _ _ _ Ha), bind_Ok.
  rewrite (proj2 (Z.eqb_neq _ _) Hd), (NumberOfNodes_eq _ _ _ _ _ Ha), bind_Ok.
  assert (ENTRY_SIZE k = 2 \/ ENTRY_SIZE k = 3) as HES by (destruct k; auto).
  assert (6 <= Z.of_nat (length t)) as H6 by (destruct HES as [E|E]; rewrite E in *; lia).
  rewrite SetNumberOfNodes_eq, bind_Ok, SetNumberOfDeletedNodes_eq, bind_Ok by (rewrite ?length_SetElement; lia).
  rewrite (first_eq _ _ _ _ _ Ha), bind_Ok, Nat2Z.id.
  unfold HEAD_TABLE_INDEX, TAIL_TABLE_INDEX, PREV_PTR_OFFSET. unfold ELEMENTS_START_INDEX, NEXT_PTR_OFFSET at 1. cbv zeta. change (4 + 1) with 5. change (4 + 2) with 6.
  replace (4 + Z.of_nat (length ns) * ENTRY_SIZE k) with (node k (length ns)) by (unfold node; lia).
  replace (4 + ENTRY_SIZE k) with (node k 1) by (unfold node; lia).
  set (t1 := SetElement (SetElement (SetElement (SetElement (SetElement (SetElement t 0 (Int (Z.of_nat (length ns)))) 1 (Int 0)) 2 (Int 4))
    3 (Int (node k (length ns)))) 4 Hole) 5 (Int (node k 1))).
  set (t2 := match k with SINGLE => t1 | DOUBLE => SetElement t1 6 (Int (node k (length ns))) end).
  assert (length t1 = length t) as L1 by (unfold t1; by rewrite !length_SetElement).
  assert (length t2 = length t) as L2 by (unfold t2; destruct k; by rewrite ?length_SetElement).
  assert (forall x, x <> 6 -> GetElement t2 x = GetElement t1 x) as R2.
  { intros x Hx. unfold t2. destruct k; [done|]. by rewrite SetElement_ne by lia. }
  eapply returns_bind; [apply (fill_returns k a ns del cap t2 k); [done|rewrite L2, Hl; destruct HES as [E|E]; rewrite E in *; lia|]|].
  { intros i src t'. unfold putNode. replace (node k 1 + Z.of_nat i * ENTRY_SIZE k) with (node k (S i)) by (unfold node; lia).
    replace (4 + Z.of_nat i * ENTRY_SIZE k) with (node k i) by (unfold node; lia).
    replace (node k (S i) + ENTRY_SIZE k) with (node k (S (S i))) by (unfold node; lia). done. }
  intros [src t'] Hf. apply returns_ok. rewrite <- (valuesAt_length a ns). apply (filled_inv k t2); rewrite ?valuesAt_length; try done; try congruence;
    try (rewrite R2 by lia; unfold t1; by read_slot).
  intros Hk. unfold t2. rewrite Hk. apply SetElement_eq. rewrite L1, Hl, Hk. cbn. lia.
Qed.

Lemma listGrowCapacity_returns k a ns del cap : listInv k a ns del cap -> Z.of_nat (length ns) < 2 ^ 27 ->
  returns (GrowCapacity k a) (fun '(isNew, a') => exists ns' del' cap',
    listInv k a' ns' del' cap' /\ valuesAt a' ns' = valuesAt a ns /\ Z.of_nat (length ns') + del' < cap' /\
    (isNew = false -> a' = a /\ ns' = ns /\ del' = del /\ cap' = cap) /\
    (del = 0 /\ ns = compactNodes k (length ns) -> del' = 0 /\ ns' = compactNodes k (length ns')) /\
    (cap < 2 ^ 28 -> cap' < 2 ^ 28)).
Proof.
  intros Ha Hn. pose proof (inv_length _ _ _ _ _ Ha) as Hl. pose proof (inv_del _ _ _ _ _ Ha) as Hd. pose proof (inv_room _ _ _ _ _ Ha) as Hr.
  assert (ENTRY_SIZE k = 2 \/ ENTRY_SIZE k = 3) as HES by (destruct k; auto).
  unfold GrowCapacity. rewrite (NumberOfNodes_eq _ _ _ _ _ Ha), bind_Ok, (NumberOfDeletedNodes_eq _ _ _ _ _ Ha), bind_Ok.
  unfold GetCapacityFromTaggedArray, ELEMENTS_START_INDEX, DEFAULT_ARRAY_LENGHT. rewrite Hl.
  destruct (Z.ltb_spec ((Z.of_nat (length ns) + 1) * ENTRY_SIZE k) (4 + ENTRY_SIZE k * (cap + 1) - 4 - (del + 1) * ENTRY_SIZE k)) as [Hlt|Hge].
  { apply returns_ok. exists ns, del, cap. split_and!; [done|done| |done|done|done]. destruct HES as [E|E]; rewrite E in *; lia. }
  assert (cap <= Z.of_nat (length ns) + 1 + del) as Hcap by (destruct HES as [E|E]; rewrite E in *; lia).
  rewrite (u32_small (Z.of_nat (length ns))) by (unfold is_u32; rewrite BASE_eq; lia). rewrite Z.shiftr_div_pow2 by lia. change (2 ^ 1) with 2.
  set (n := Z.of_nat (length ns)) in *. pose proof (Z.div_mod n 2 ltac:(lia)). pose proof (Z.mod_pos_bound n 2 ltac:(lia)).
  rewrite u32_small by (unfold is_u32; rewrite BASE_eq; lia).
  replace (i32 (n + n / 2)) with (n + n / 2) by (unfold i32; rewrite Z.mod_small by lia; destruct (Z.ltb_spec (n + n / 2) (2 ^ 31)); lia).
  set (cap' := if n + n / 2 <? 10 then 10 else n + n / 2).
  assert (n + 1 <= cap' < 2 ^ 28) as Hc' by (unfold cap'; destruct (Z.ltb_spec (n + n / 2) 10); lia).
  assert (10 <= cap' /\ n < cap') as [_ Hc''] by (unfold cap'; destruct (Z.ltb_spec (n + n / 2) 10); lia).
  eapply returns_bind; [apply Create_returns; lia|]. intros t [Hlt Hb].
  destruct (decide (del = 0)) as [->|Hd0].
  - unfold CopyArray. rewrite (NumberOfDeletedNodes_eq _ _ _ _ _ Ha), bind_Ok. cbn [Z.eqb]. rewrite bind_assoc.
    unfold GetCapacityFromTaggedArray. rewrite Nat2Z.id.
    eapply returns_bind; [apply copyAll_returns; destruct HES as [E|E]; rewrite E in *; lia|]. intros t' [Ht' Hs].
    rewrite bind_Ok. rewrite SetNumberOfDeletedNodes_eq by (destruct HES as [E|E]; rewrite E in *; lia).
    rewrite bind_Ok. apply returns_ok.
    destruct (resize_inv k a ns 0 cap (SetElement t' 1 (Int 0)) cap' Ha) as [Hi Hv].
    + intros i Hi. destruct (decide (i = 1)) as [->|Hne].
      * rewrite SetElement_eq by (destruct HES as [E|E]; rewrite E in *; lia). symmetry. apply (inv_deleted _ _ _ _ _ Ha).
      * rewrite SetElement_ne by lia. apply Hs. destruct HES as [E|E]; rewrite E in *; lia.
    + rewrite length_SetElement, Ht'. lia.
    + lia.
    + exists ns, 0, cap'. split_and!; [done|done|lia|done|done|lia].
  - eapply returns_bind; [apply (compactCopy_returns k a ns del cap t cap'); [done|done|lia|lia|done]|]. intros t' [Hi Hv]. apply returns_ok.
    exists (compactNodes k (length ns)), 0, cap'. rewrite compactNodes_length. split_and!; [done|done|lia|done|done|lia].
Qed.

(** ** Adding a node *)

(** The nodes are in order in the array, without holes between them. *)
Definition ordered (k : ListKind) (ns : list Z) (del : Z) : Prop := del = 0 /\ ns = compactNodes k (length ns).

Lemma cursor_lookup (ns : list Z) i : (i <= length ns)%nat -> (4 :: ns) !! i = Some (lastOr 4 (take i ns)).
Proof.
  generalize 4. revert i. induction ns as [|n ns IH]; intros [|i] z Hi; cbn in Hi; try done; [lia|].
  cbn [take]. rewrite lastOr_cons. rewrite lookup_cons_ne_0 by lia. cbn [pred]. apply IH. lia.
Qed.

(** What an [InsertNode] has to do. *)
Definition insertsNode (k : ListKind) (InsertNode : Array -> JSTaggedValue -> Z -> Z -> result Array) : Prop :=
  forall a ns1 ns2 del cap v, listInv k a (ns1 ++ ns2) del cap -> Z.of_nat (length (ns1 ++ ns2)) + del < cap ->
  let f := 4 + ENTRY_SIZE k * (Z.of_nat (length (ns1 ++ ns2)) + 1 + del) in
  returns (InsertNode a v (lastOr 4 ns1) f) (fun a1 =>
    let a2 := match ns2 with [] => SetElement a1 3 (Int f) | _ => a1 end in
    listInv k a2 (ns1 ++ f :: ns2) del cap /\ valuesAt a2 (ns1 ++ f :: ns2) = valuesAt a ns1 ++ v :: valuesAt a ns2).

(** What adding a node at position [i] gives. *)
Definition addedNode (k : ListKind) (a : Array) (ns : list Z) (del cap : Z) (i : nat) (v : JSTaggedValue) (a' : Array) : Prop :=
  exists ns' del' cap', listInv k a' ns' del' cap' /\
    valuesAt a' ns' = take i (valuesAt a ns) ++ v :: drop i (valuesAt a ns) /\
    (ordered k ns del -> i = length ns -> ordered k ns' del') /\ (cap < 2 ^ 28 -> cap' < 2 ^ 28).

Lemma addNode_returns k InsertNode relocate a ns del cap i index v : insertsNode k InsertNode ->
  listInv k a ns del cap -> Z.of_nat (length ns) < 2 ^ 27 -> (i <= length ns)%nat ->
  (index = Z.of_nat i \/ index = -1 /\ i = length ns) ->
  (forall a' ns' del' cap', listInv k a' ns' del' cap' -> length ns' = length ns -> relocate a' = Ok (lastOr 4 (take i ns'))) ->
  returns ('(isNew, list) ← GrowCapacity k a;
    deleteNodeLength ← NumberOfDeletedNodes list;
    nodeLength ← NumberOfNodes list;
    let finalDataIndex := ELEMENTS_START_INDEX + (nodeLength + 1 + deleteNodeLength) * ENTRY_SIZE k in
    prevDataIndex ← (if (isNew : bool) then relocate list else Ok (lastOr 4 (take i ns)));
    list ← InsertNode list v prevDataIndex finalDataIndex;
    Ok (isNew, if (index =? -1) || (nodeLength =? index) then SetElement list TAIL_TABLE_INDEX (Int finalDataIndex) else list))
  (fun '(_, a') => addedNode k a ns del cap i v a').
Proof.
  intros Hins Ha Hn Hi Hidx Hrel. eapply returns_bind; [by apply (listGrowCapacity_returns k a ns del cap)|].
  intros [isNew a1] (ns' & del' & cap' & Ha1 & Hv1 & Hroom & Hold & Hord & Hcap).
  assert (length ns' = length ns) as Hlen by (rewrite <- (valuesAt_length a1), Hv1; apply valuesAt_length).
  rewrite (NumberOfDeletedNodes_eq _ _ _ _ _ Ha1), bind_Ok, (NumberOfNodes_eq _ _ _ _ _ Ha1), bind_Ok. cbv zeta.
  eapply returns_bind with (P := fun p => p = lastOr 4 (take i ns')).
  { destruct isNew; [rewrite (Hrel a1 ns' del' cap' Ha1 Hlen); by apply returns_ok|]. apply returns_ok. by destruct (Hold eq_refl) as (_ & -> & _). }
  intros p ->. assert (listInv k a1 (take i ns' ++ drop i ns') del' cap') as Ha1' by (by rewrite take_drop).
  pose proof (Hins a1 (take i ns') (drop i ns') del' cap' v Ha1') as H. rewrite take_drop in H. specialize (H Hroom). cbv zeta in H.
  replace (ELEMENTS_START_INDEX + (Z.of_nat (length ns') + 1 + del') * ENTRY_SIZE k) with (4 + ENTRY_SIZE k * (Z.of_nat (length ns') + 1 + del'))
    by (unfold ELEMENTS_START_INDEX; lia).
  eapply returns_bind; [exact H|]. intros a2 Ha2. apply returns_ok.
  assert ((index =? -1) || (Z.of_nat (length ns') =? index) = match drop i ns' with [] => true | _ => false end) as ->.
  { rewrite Hlen. destruct (decide (i = length ns)) as [->|Hne].
    - rewrite drop_ge by lia. destruct Hidx as [->|[-> _]]; [rewrite Z.eqb_refl; apply orb_true_r|done].
    - destruct Hidx as [->|[_ ?]]; [|done]. destruct (drop i ns') eqn:E; [apply (f_equal length) in E; rewrite length_drop in E; cbn in E; lia|].
      destruct (Z.eqb_spec (Z.of_nat i) (-1)), (Z.eqb_spec (Z.of_nat (length ns)) (Z.of_nat i)); lia || done. }
  unfold TAIL_TABLE_INDEX. eexists _, del', cap'.
  assert ((if match drop i ns' with [] => true | _ :: _ => false end then SetElement a2 3 (Int (4 + ENTRY_SIZE k * (Z.of_nat (length ns') + 1 + del'))) else a2)
    = match drop i ns' with [] => SetElement a2 3 (Int (4 + ENTRY_SIZE k * (Z.of_nat (length ns') + 1 + del'))) | _ :: _ => a2 end) as -> by (by destruct (drop i ns')).
  destruct Ha2 as [Ha2 Hv2]. split_and!; [exact Ha2| | |exact Hcap].
  - rewrite Hv2. unfold valuesAt in *. rewrite <- Hv1, fmap_take, fmap_drop. done.
  - intros Ho ->. destruct (Hord Ho) as [-> Hc]. rewrite <- Hlen, drop_all, firstn_all. split; [done|].
    rewrite length_app. cbn [length]. rewrite Nat.add_1_r, compactNodes_S. rewrite Hc at 1. f_equal. f_equal. unfold node. lia.
Qed.
