(* ===== verification/SingleList.v ===== *)
(** * Singly linked lists

    [TaggedSingleList] of src/ecmascript/tagged_list.h and tagged_list.cpp: the model, then what the
    operations do to arrays that hold a list. *)

From Stdlib Require Import ZArith Lia.
From S2P Require Import Prelude Double Values TaggedArray TaggedList ListRep.

(** ** Model *)

Definition SingleCreate : result Array := Create SINGLE DEFAULT_ARRAY_LENGHT.

Definition InsertNode (a : Array) (value : JSTaggedValue) (prevDataIndex finalDataIndex : Z) : result Array :=
  let prevNextIndex := prevDataIndex + NEXT_PTR_OFFSET in
  nextDataIndex ← GetIntElement a prevNextIndex;
  let a := SetElement a prevNextIndex (Int finalDataIndex) in
  let a := SetElement a finalDataIndex value in
  let a := SetElement a (finalDataIndex + 1) (Int nextDataIndex) in
  nof ← NumberOfNodes a;
  SetNumberOfNodes a (nof + 1).

(** The list after the node was added, and whether it is a new array. *)
Definition AddNode (taggedList : Array) (value : JSTaggedValue) (index prevDataIndex : Z) : result (bool * Array) :=
  '(isNew, list) ← GrowCapacity SINGLE taggedList;
  deleteNodeLength ← NumberOfDeletedNodes list;
  nodeLength ← NumberOfNodes list;
  let finalDataIndex := ELEMENTS_START_INDEX + (nodeLength + 1 + deleteNodeLength) * ENTRY_SIZE SINGLE in
  prevDataIndex ←
    (if (isNew : bool) then
       if index =? -1 then GetIntElement list TAIL_TABLE_INDEX else FindPrevNodeByIndex list index
     else Ok prevDataIndex);
  list ← InsertNode list value prevDataIndex finalDataIndex;
  Ok (isNew, if (index =? -1) || (nodeLength =? index) then SetElement list TAIL_TABLE_INDEX (Int finalDataIndex) else list).

Definition Add (taggedList : Array) (value : JSTaggedValue) : result (bool * Array) :=
  prevDataIndex ← GetIntElement taggedList TAIL_TABLE_INDEX;
  AddNode taggedList value (-1) prevDataIndex.

Definition Insert (taggedList : Array) (value : JSTaggedValue) (index : Z) : result (bool * Array) :=
  tailIndex ← GetIntElement taggedList TAIL_TABLE_INDEX;
  prevDataIndex ← (if index =? -1 then Ok tailIndex else FindPrevNodeByIndex taggedList index);
  AddNode taggedList value index prevDataIndex.

Definition Has (a : Array) (element : JSTaggedValue) : result bool :=
  dataIndex ← FindIndexByElement a element; Ok (negb (dataIndex =? -1)).

Definition IsEmpty (a : Array) : result bool := n ← NumberOfNodes a; Ok (n =? 0).

Definition Get (a : Array) (index : Z) : result JSTaggedValue := FindElementByIndex a index.

Definition Set_ (taggedList : Array) (index : Z) (value : JSTaggedValue) : result Array :=
  dataIndex ← FindDataIndexByNodeIndex taggedList index;
  if dataIndex =? -1 then Ok taggedList else Ok (SetElement taggedList dataIndex value).

Definition Remove (a : Array) (element : JSTaggedValue) : result (bool * Array) :=
  prevDataIndex ← FindPrevNodeByValue a element;
  if prevDataIndex =? -1 then Ok (false, a) else
  a ← RemoveNode SINGLE a prevDataIndex;
  Ok (true, a).

(** The indices of the first node of the sublist and of the node after its last. *)
Fixpoint subListLoop (fuel : nat) (taggedList : Array) (fromIndex toIndex : Z) (dataIndex nodeSum fromDataIndex : Z) : result (Z * Z) :=
  if dataIndex =? ELEMENTS_START_INDEX then Ok (fromDataIndex, -1) else
  match fuel with
  | O => Err OutOfFuel
  | S fuel =>
    let fromDataIndex := if nodeSum =? fromIndex then dataIndex else fromDataIndex in
    dataIndex ← GetIntElement taggedList (dataIndex + NEXT_PTR_OFFSET);
    let nodeSum := nodeSum + 1 in
    if nodeSum =? toIndex then Ok (fromDataIndex, dataIndex)
    else subListLoop fuel taggedList fromIndex toIndex dataIndex nodeSum fromDataIndex
  end.

Fixpoint copyNodesLoop (fuel : nat) (taggedList : Array) (fromDataIndex toDataIndex : Z) (preDataIndex curDataIndex : Z) (subList : Array)
  : result (Z * Array) :=
  if fromDataIndex =? toDataIndex then Ok (curDataIndex, subList) else
  match fuel with
  | O => Err OutOfFuel
  | S fuel =>
    let curDataIndex := curDataIndex + ENTRY_SIZE SINGLE in
    let data := GetElement taggedList fromDataIndex in
    let subList := SetElement subList (preDataIndex + NEXT_PTR_OFFSET) (Int curDataIndex) in
    let subList := SetElement subList curDataIndex data in
    let preDataIndex := curDataIndex in
    fromDataIndex ← GetIntElement taggedList (fromDataIndex + NEXT_PTR_OFFSET);
    copyNodesLoop fuel taggedList fromDataIndex toDataIndex preDataIndex curDataIndex subList
  end.

Definition GetSubList (taggedList : Array) (fromIndex toIndex : Z) (subList : Array) : result Array :=
  dataIndex ← GetIntElement taggedList (ELEMENTS_START_INDEX + NEXT_PTR_OFFSET);
  '(fromDataIndex, toDataIndex) ← subListLoop (linkFuel taggedList) taggedList fromIndex toIndex dataIndex 0 (-1);
  '(curDataIndex, subList) ←
    copyNodesLoop (linkFuel taggedList) taggedList fromDataIndex toDataIndex ELEMENTS_START_INDEX ELEMENTS_START_INDEX subList;
  let subList := SetElement subList (curDataIndex + NEXT_PTR_OFFSET) (Int ELEMENTS_START_INDEX) in
  let subList := SetElement subList HEAD_TABLE_INDEX (Int ELEMENTS_START_INDEX) in
  let subList := SetElement subList TAIL_TABLE_INDEX (Int curDataIndex) in
  subList ← SetNumberOfNodes subList (toIndex - fromIndex);
  SetNumberOfDeletedNodes subList 0.

Fixpoint equalLoop (rounds : nat) (compareList a : Array) (compareNode valueNode : Z) : result bool :=
  match rounds with
  | O => Ok true
  | S rounds =>
    compareNode ← GetNextDataIndex compareList compareNode;
    valueNode ← GetNextDataIndex a valueNode;
    let compareValue := GetElement compareList compareNode in
    let value := GetElement a valueNode in
    if negb (SameValue compareValue value) then Ok false
    else equalLoop rounds compareList a compareNode valueNode
  end.

Definition Equal (a compareList : Array) : result bool :=
  compareListLength ← NumberOfNodes compareList;
  n ← NumberOfNodes a;
  if negb (compareListLength =? n) then Ok false
  else equalLoop (Z.to_nat compareListLength) compareList a ELEMENTS_START_INDEX ELEMENTS_START_INDEX.

Definition SortByNodeOrder (taggedList : Array) : result Array :=
  actualNodeNum ← NumberOfNodes taggedList;
  nextDataIndex ← GetIntElement taggedList (ELEMENTS_START_INDEX + NEXT_PTR_OFFSET);
  let length := u32 actualNodeNum in
  list ← Create SINGLE (if length <? DEFAULT_ARRAY_LENGHT then DEFAULT_ARRAY_LENGHT else i32 length);
  let tailTableIndex := ELEMENTS_START_INDEX + actualNodeNum * ENTRY_SIZE SINGLE in
  let nextTailIndex := ELEMENTS_START_INDEX + ENTRY_SIZE SINGLE in
  list ← SetNumberOfNodes list actualNodeNum;
  let list := SetElement list TAIL_TABLE_INDEX (Int tailTableIndex) in
  let list := SetElement list ELEMENTS_START_INDEX Hole in
  let list := SetElement list (ELEMENTS_START_INDEX + NEXT_PTR_OFFSET) (Int nextTailIndex) in
  '(_, list) ← for_up (Z.to_nat actualNodeNum) 0 (fun i '(nextDataIndex, list) =>
    let curDataIndex := ELEMENTS_START_INDEX + (Z.of_nat i + 1) * ENTRY_SIZE SINGLE in
    let list := SetElement list curDataIndex (GetElement taggedList nextDataIndex) in
    let list := SetElement list (curDataIndex + NEXT_PTR_OFFSET) (Int (curDataIndex + ENTRY_SIZE SINGLE)) in
    nextDataIndex ← GetIntElement taggedList (nextDataIndex + NEXT_PTR_OFFSET);
    Ok (nextDataIndex, list)) (nextDataIndex, list);
  Ok (SetElement list (tailTableIndex + NEXT_PTR_OFFSET) (Int ELEMENTS_START_INDEX)).

(** ** What the operations do *)

(** The array [a] holds the list [vs]; [o] says that its nodes are in order. *)
Definition singleRep (o : bool) (a : Array) (vs : list JSTaggedValue) : Prop :=
  exists ns del cap, listInv SINGLE a ns del cap /\ valuesAt a ns = vs /\ (o = true -> ordered SINGLE ns del).

Lemma SingleCreate_rep : exists a, SingleCreate = Ok a /\ singleRep true a [].
Proof.
  pose proof (Create_returns SINGLE DEFAULT_ARRAY_LENGHT ltac:(unfold DEFAULT_ARRAY_LENGHT; lia)) as H.
  apply returns_iff in H as (a & E & Hl & Hb). exists a. split; [exact E|]. exists [], 0, DEFAULT_ARRAY_LENGHT.
  split_and!; [|done|done]. apply blank_inv; [done|done|unfold DEFAULT_ARRAY_LENGHT; lia|done].
Qed.

Lemma InsertNode_inserts : insertsNode SINGLE InsertNode.
Proof.
  intros a ns1 ns2 del cap v Ha Hroom f. destruct (cursor_index _ _ _ _ _ _ Ha) as (ip & iq & Eip & Eiq & Hip & Hiq).
  pose proof (inv_length _ _ _ _ _ Ha) as Hl. pose proof (inv_del _ _ _ _ _ Ha). cbn [ENTRY_SIZE] in *.
  assert (f < Z.of_nat (length a) - 1) as Hf by (unfold f; cbn; lia). assert (6 <= f) by (unfold f; cbn; lia).
  assert (lastOr 4 ns1 + 1 < f) as Hpf by (unfold f; cbn; lia).
  unfold InsertNode. pose proof (cursor_next _ _ _ _ _ _ Ha) as En. rewrite En, bind_Ok. unfold NEXT_PTR_OFFSET.
  set (p := lastOr 4 ns1) in *. set (q := headOr 4 ns2) in *.
  unfold NumberOfNodes, GetIntElement, NUMBER_OF_NODE_INDEX. rewrite !SetElement_ne by lia.
  rewrite (inv_number _ _ _ _ _ Ha). cbn [GetInt]. rewrite bind_Ok.
  rewrite SetNumberOfNodes_eq by (rewrite !length_SetElement; lia). apply returns_ok.
  eapply insert_inv; [exact Ha|done|done|destruct ns2; by rewrite !length_SetElement|..]; fold p; fold q.
  - destruct ns2; by read_slot.
  - destruct ns2; read_slot; [done|]. apply (inv_tail _ _ _ _ _ Ha).
  - destruct ns2; by read_slot.
  - destruct ns2; by read_slot.
  - destruct ns2; by read_slot.
  - done.
  - intros x X0 X3 Xp Xf Xf1 _. destruct ns2; by read_slot.
Qed.

Section Ops.
  Context (o : bool) (a : Array) (vs : list JSTaggedValue).
  Hypothesis Ha : singleRep o a vs.

Lemma singleNodes_eq : NumberOfNodes a = Ok (Z.of_nat (length vs)).
Proof. destruct Ha as (ns & del & cap & Hi & <- & _). rewrite valuesAt_length. by apply (NumberOfNodes_eq _ _ _ _ _ Hi). Qed.

Lemma singleHas_eq x : Has a x = Ok (existsb (fun v => SameValue v x) vs).
Proof.
  destruct Ha as (ns & del & cap & Hi & <- & _). unfold Has. rewrite (FindIndexByElement_eq _ _ _ _ _ Hi), bind_Ok. f_equal.
  rewrite <- indexWhere_found. f_equal. pose proof (indexWhere_lt (fun v => SameValue v x) (valuesAt a ns)).
  destruct (Z.eqb_spec (indexWhere (fun v => SameValue v x) (valuesAt a ns)) (-1)),
    (Z.ltb_spec (indexWhere (fun v => SameValue v x) (valuesAt a ns)) 0); lia || done.
Qed.

Lemma singleGet_eq i : 0 <= i -> Get a i = Ok (default Undefined (vs !! Z.to_nat i)).
Proof. destruct Ha as (ns & del & cap & Hi & <- & _). apply (FindElementByIndex_eq _ _ _ _ _ Hi). Qed.

Lemma singleAdd_returns v : Z.of_nat (length vs) < 2 ^ 27 ->
  returns (Add a v) (fun '(_, a') => singleRep o a' (vs ++ [v])).
Proof.
  intros Hn. destruct Ha as (ns & del & cap & Hi & <- & Ho). rewrite valuesAt_length in Hn.
  unfold Add, AddNode. rewrite (tail_eq _ _ _ _ _ Hi), bind_Ok.
  pose proof (addNode_returns SINGLE InsertNode (fun list => if -1 =? -1 then GetIntElement list TAIL_TABLE_INDEX else FindPrevNodeByIndex list (-1))
    a ns del cap (length ns) (-1) v InsertNode_inserts Hi Hn ltac:(lia) ltac:(by right)) as H.
  rewrite firstn_all in H. eapply returns_mono; [apply H|].
  - intros a' ns' del' cap' Hi' <-. rewrite firstn_all. cbn [Z.eqb]. apply (tail_eq _ _ _ _ _ Hi').
  - intros [b a'] (ns' & del' & cap' & Hi' & Hv' & Ho' & _). exists ns', del', cap'. split_and!; [done| |auto].
    rewrite Hv', <- (valuesAt_length a ns), firstn_all, drop_all. done.
Qed.

(** Inserting at the end keeps the nodes in order. *)
Lemma singleInsert_returns v i : (i <= length vs)%nat -> Z.of_nat (length vs) < 2 ^ 27 ->
  returns (Insert a v (Z.of_nat i)) (fun '(_, a') =>
    singleRep (o && (i =? length vs)%nat) a' (take i vs ++ v :: drop i vs)).
Proof.
  intros Hle Hn. destruct Ha as (ns & del & cap & Hi & <- & Ho). rewrite valuesAt_length in Hn, Hle |- *.
  unfold Insert, AddNode. rewrite (tail_eq _ _ _ _ _ Hi), bind_Ok. destruct (Z.eqb_spec (Z.of_nat i) (-1)) as [|Hne]; [lia|].
  rewrite (FindPrevNodeByIndex_eq _ _ _ _ _ Hi i _ (cursor_lookup ns i Hle)), bind_Ok.
  pose proof (addNode_returns SINGLE InsertNode (fun list => FindPrevNodeByIndex list (Z.of_nat i))
    a ns del cap i (Z.of_nat i) v InsertNode_inserts Hi Hn Hle ltac:(by left)) as H.
  rewrite (proj2 (Z.eqb_neq _ _) Hne) in H. eapply returns_mono; [apply H|].
  - intros a' ns' del' cap' Hi' Hlen. apply (FindPrevNodeByIndex_eq _ _ _ _ _ Hi'). apply cursor_lookup. lia.
  - intros [b a'] (ns' & del' & cap' & Hi' & Hv' & Ho' & _). exists ns', del', cap'. split_and!; [done|done|].
    intros [Eo Ei]%andb_prop. apply Nat.eqb_eq in Ei. auto.
Qed.

Lemma singleSet_returns i v : (i < length vs)%nat -> returns (Set_ a (Z.of_nat i) v) (fun a' => singleRep o a' (<[i := v]> vs)).
Proof.
  intros Hlt. destruct Ha as (ns & del & cap & Hi & <- & Ho). rewrite valuesAt_length in Hlt. unfold Set_.
  rewrite (FindDataIndexByNodeIndex_eq _ _ _ _ _ Hi) by lia. rewrite Nat2Z.id, bind_Ok. destruct (lookup_lt_is_Some_2 ns i Hlt) as [n Hn].
  rewrite Hn. change (default (-1) (Some n)) with n. destruct (Z.eqb_spec n (-1)) as [->|_].
  { pose proof (Forall_lookup_1 _ _ _ _ (inv_nodes _ _ _ _ _ Hi) Hn) as H. apply entry_ge in H. cbn in H. lia. }
  apply returns_ok. destruct (write_inv SINGLE a ns del cap i n v Hi Hn) as [Hi' Hv']. by exists ns, del, cap.
Qed.

Lemma singleRemoveByIndex_returns i : (i < length vs)%nat ->
  returns (RemoveByIndex SINGLE a (Z.of_nat i)) (fun '(v, a') => vs !! i = Some v /\ singleRep false a' (delete i vs)).
Proof.
  intros Hlt. destruct Ha as (ns & del & cap & Hi & <- & Ho). rewrite valuesAt_length in Hlt. unfold RemoveByIndex.
  rewrite (FindPrevNodeByIndex_eq _ _ _ _ _ Hi i _ (cursor_lookup ns i ltac:(lia))), bind_Ok.
  destruct (lookup_lt_is_Some_2 ns i Hlt) as [n Hn].
  assert (listInv SINGLE a (take i ns ++ n :: drop (S i) ns) del cap) as Hi' by (by rewrite <- (drop_S _ _ _ Hn), take_drop).
  rewrite (cursor_next _ _ _ _ _ _ Hi'), bind_Ok. eapply returns_bind; [exact (RemoveNode_returns _ _ _ _ _ _ _ Hi')|].
  intros a' [Hi2 Hv2]. apply returns_ok. split; [by rewrite valuesAt_lookup, Hn|]. eexists _, _, cap. split_and!; [exact Hi2| |done].
  rewrite Hv2. unfold valuesAt. by rewrite delete_take_drop, fmap_take, fmap_drop.
Qed.

Lemma singleRemove_returns x : SameValue Hole x = false ->
  returns (Remove a x) (fun '(b, a') => b = existsb (fun v => SameValue v x) vs /\
    singleRep false a' (let i := indexWhere (fun v => SameValue v x) vs in if i <? 0 then vs else delete (Z.to_nat i) vs)).
Proof.
  intros Hx. destruct Ha as (ns & del & cap & Hi & <- & Ho). unfold Remove. rewrite (FindPrevNodeByValue_eq _ _ _ _ _ Hi x Hx), bind_Ok.
  rewrite <- indexWhere_found. pose proof (indexWhere_lt (fun v => SameValue v x) (valuesAt a ns)) as Hb. rewrite valuesAt_length in Hb.
  set (i := indexWhere _ _) in *. cbv zeta. destruct (Z.ltb_spec i 0) as [Hneg|Hpos]; cbn [negb].
  { apply returns_ok. split; [done|]. by exists ns, del, cap. }
  rewrite cursor_lookup by lia. change (default (-1) (Some ?n)) with n.
  destruct (lookup_lt_is_Some_2 ns (Z.to_nat i)) as [n Hn]; [lia|].
  assert (listInv SINGLE a (take (Z.to_nat i) ns ++ n :: drop (S (Z.to_nat i)) ns) del cap) as Hi' by (by rewrite <- (drop_S _ _ _ Hn), take_drop).
  destruct (cursor_index _ _ _ _ _ _ Hi') as (ip & _ & Eip & _ & Hip & _). cbn [ENTRY_SIZE] in Eip.
  destruct (Z.eqb_spec (lastOr 4 (take (Z.to_nat i) ns)) (-1)) as [E|_]; [lia|].
  eapply returns_bind; [exact (RemoveNode_returns _ _ _ _ _ _ _ Hi')|]. intros a' [Hi2 Hv2]. apply returns_ok. split; [done|].
  eexists _, _, cap. split_and!; [exact Hi2| |done]. rewrite Hv2. unfold valuesAt. by rewrite delete_take_drop, fmap_take, fmap_drop.
Qed.

Lemma singleClear_returns : returns (Clear a) (fun a' => singleRep true a' []).
Proof.
  destruct Ha as (ns & del & cap & Hi & <- & Ho). eapply returns_mono; [apply (Clear_returns _ _ _ _ _ Hi)|]. intros a' [Hl Hb].
  exists [], 0, cap. split_and!; [|done|done]. apply blank_inv; [done|done| |rewrite Hl; apply Hi].
  destruct (inv_bounds _ _ _ _ _ Hi) as (_ & _ & _ & H). done.
Qed.

(** With the nodes in order, an element is where its position says. *)
Lemma ordered_element i v : o = true -> vs !! i = Some v -> GetElement a (ELEMENTS_START_INDEX + (Z.of_nat i + 1) * ENTRY_SIZE SINGLE) = v.
Proof.
  intros Eo Hv. destruct Ha as (ns & del & cap & Hi & <- & Ho). destruct (Ho Eo) as [_ Hc]. rewrite valuesAt_lookup, Hc in Hv.
  destruct (compactNodes SINGLE (length ns) !! i) as [x|] eqn:Ex; [|done]. apply compactNodes_lookup in Ex as [-> _]. cbn in Hv.
  simplify_eq. f_equal. unfold node, ELEMENTS_START_INDEX. cbn. lia.
Qed.
End Ops.

(** ** Putting the nodes in order *)

Lemma SortByNodeOrder_returns o a vs : singleRep o a vs -> Z.of_nat (length vs) < 2 ^ 27 ->
  returns (SortByNodeOrder a) (fun a' => singleRep true a' vs).
Proof.
  intros (ns & del & cap & Hi & <- & _) Hn. rewrite valuesAt_length in Hn. unfold SortByNodeOrder.
  rewrite (NumberOfNodes_eq _ _ _ _ _ Hi), bind_Ok, (first_eq _ _ _ _ _ Hi), bind_Ok.
  rewrite (u32_small (Z.of_nat (length ns))) by (unfold is_u32; rewrite BASE_eq; lia). unfold DEFAULT_ARRAY_LENGHT.
  replace (i32 (Z.of_nat (length ns))) with (Z.of_nat (length ns))
    by (unfold i32; rewrite Z.mod_small by lia; destruct (Z.ltb_spec (Z.of_nat (length ns)) (2 ^ 31)); lia).
  set (cap' := if Z.of_nat (length ns) <? 10 then 10 else Z.of_nat (length ns)).
  assert (Z.of_nat (length ns) <= cap' < 2 ^ 28) as Hc by (unfold cap'; destruct (Z.ltb_spec (Z.of_nat (length ns)) 10); lia).
  eapply returns_bind; [apply Create_returns; lia|]. intros t [Hl [B0 B1 B2 B3 B4 B5]]. cbn [ENTRY_SIZE] in *.
  rewrite SetNumberOfNodes_eq, bind_Ok, Nat2Z.id by lia. unfold TAIL_TABLE_INDEX, ELEMENTS_START_INDEX. unfold NEXT_PTR_OFFSET at 1. cbv zeta.
  change (4 + 1) with 5. change (4 + 2) with (node SINGLE 1).
  replace (4 + Z.of_nat (length ns) * 2) with (node SINGLE (length ns)) by (unfold node; cbn; lia).
  set (t1 := SetElement (SetElement (SetElement (SetElement t 0 (Int (Z.of_nat (length ns)))) 3 (Int (node SINGLE (length ns)))) 4 Hole) 5 (Int (node SINGLE 1))).
  assert (length t1 = length t) as L1 by (unfold t1; by rewrite !length_SetElement).
  eapply returns_bind; [apply (fill_returns SINGLE a ns del cap t1 SINGLE); [done|rewrite L1, Hl; cbn; lia|]|].
  { intros i src t'. unfold putNode. replace (4 + (Z.of_nat i + 1) * 2) with (node SINGLE (S i)) by (unfold node; cbn; lia).
    replace (node SINGLE (S i) + 2) with (node SINGLE (S (S i))) by (unfold node; cbn; lia). done. }
  intros [src t'] Hf. apply returns_ok.
  destruct (filled_inv SINGLE t1 t' (valuesAt a ns) cap' Hf) as [Hi' Hv']; rewrite ?L1, ?valuesAt_length; try done; try lia;
    try (intros; unfold t1; by read_slot).
  rewrite valuesAt_length in Hi', Hv'. exists (compactNodes SINGLE (length ns)), 0, cap'. split_and!; [exact Hi'|exact Hv'|].
  intros _. split; [done|]. by rewrite compactNodes_length.
Qed.

(** ** Sublists *)

(** The first loop of [GetSubList], from the node at position [s] on, before the sublist ends. *)
Lemma subListLoop_eq a p ns from to fuel s fd : path 1 a p ns 4 -> Forall (fun n => n <> 4) ns -> (length ns <= fuel)%nat ->
  s < to <= s + Z.of_nat (length ns) ->
  subListLoop fuel a from to (headOr 4 ns) s fd =
    Ok (if (s <=? from) && (from <? to) then default 4 (ns !! Z.to_nat (from - s)) else fd,
        headOr 4 (drop (Z.to_nat (to - s)) ns)).
Proof.
  revert p fuel s fd. induction ns as [|n ns IH]; intros p fuel s fd Hp Hn Hf Hto; cbn [length] in *; [lia|].
  destruct Hp as [_ Hp]. apply Forall_cons in Hn as [Hn Hns]. destruct fuel as [|fuel]; [lia|].
  change (headOr 4 (n :: ns)) with n. cbn [subListLoop]. rewrite (proj2 (Z.eqb_neq n ELEMENTS_START_INDEX)) by exact Hn.
  unfold GetIntElement, NEXT_PTR_OFFSET. rewrite (path_first _ _ _ _ _ Hp). cbn [GetInt]. rewrite bind_Ok.
  destruct (Z.eqb_spec (s + 1) to) as [E|Hne].
  - replace (Z.to_nat (to - s)) with 1%nat by lia. cbn [drop skipn]. rewrite drop_0.
    destruct (Z.eqb_spec s from) as [<-|Hsf].
    + rewrite Z.leb_refl, Z.sub_diag. destruct (Z.ltb_spec s to); [done|lia].
    + destruct (Z.leb_spec s from), (Z.ltb_spec from to); try done. lia.
  - rewrite (IH n fuel (s + 1) _ Hp Hns) by lia. f_equal. f_equal.
    + destruct (Z.eqb_spec s from) as [<-|Hsf].
      * rewrite Z.leb_refl, Z.sub_diag. destruct (Z.leb_spec (s + 1) s), (Z.ltb_spec s to); try lia. done.
      * destruct (Z.leb_spec (s + 1) from), (Z.leb_spec s from), (Z.ltb_spec from to); try lia; try done. cbn [andb].
        by replace (Z.to_nat (from - s)) with (S (Z.to_nat (from - (s + 1)))) by lia.
    + by replace (Z.to_nat (to - s)) with (S (Z.to_nat (to - (s + 1)))) by lia.
Qed.

(** The sublist under construction: its first nodes have values and links between them. *)
Record partialList (t t' : Array) (vs : list JSTaggedValue) : Prop := {
  partial_length : length t' = length t;
  partial_low : forall x, x <= 4 -> GetElement t' x = GetElement t x;
  partial_value : forall j v, vs !! j = Some v -> GetElement t' (node SINGLE (S j)) = v;
  partial_next : forall j, (j < length vs)%nat -> GetElement t' (node SINGLE j + 1) = Int (node SINGLE (S j)) }.

Lemma partial_snoc t t' vs v : partialList t t' vs -> node SINGLE (S (length vs)) + 2 <= Z.of_nat (length t) ->
  partialList t (SetElement (SetElement t' (node SINGLE (length vs) + 1) (Int (node SINGLE (S (length vs))))) (node SINGLE (S (length vs))) v) (vs ++ [v]).
Proof.
  intros [Hl Hlow Hv Hn] Hroom. unfold node in *. cbn [ENTRY_SIZE] in *. split; unfold node; cbn [ENTRY_SIZE].
  - by rewrite !length_SetElement.
  - intros x Hx. read_slot. by apply Hlow.
  - intros j u Hu. destruct (decide (j < length vs)%nat) as [Hj|Hj].
    + rewrite lookup_app_l in Hu by done. rewrite <- (Hv _ _ Hu). by read_slot.
    + apply lookup_app_Some in Hu as [Hu|[Hj' Hu]]; [apply lookup_lt_Some in Hu; lia|].
      destruct (j - length vs)%nat eqn:E; [|done]. replace j with (length vs) by lia. cbn in Hu. rewrite SetElement_eq by (rewrite length_SetElement; lia). congruence.
  - intros j Hj. rewrite length_app in Hj. cbn in Hj. destruct (decide (j = length vs)) as [->|Hne].
    + read_slot. done.
    + read_slot. apply Hn. lia.
Qed.

(** The second loop copies the nodes [ns] and stops at [q]; [vs] are the values copied before. *)
Lemma copyNodesLoop_returns a fuel p ns q t t' vs : path 1 a p ns q -> q ∉ ns -> (length ns <= fuel)%nat -> partialList t t' vs ->
  node SINGLE (length vs + length ns) + 2 <= Z.of_nat (length t) ->
  returns (copyNodesLoop fuel a (headOr q ns) q (node SINGLE (length vs)) (node SINGLE (length vs)) t')
    (fun '(cur, t'') => cur = node SINGLE (length vs + length ns) /\ partialList t t'' (vs ++ valuesAt a ns)).
Proof.
  revert fuel p t' vs. induction ns as [|n ns IH]; intros fuel p t' vs Hp Hq Hf Ht Hroom.
  { change (headOr q (@nil Z)) with q. destruct fuel; cbn [copyNodesLoop]; rewrite Z.eqb_refl; apply returns_ok;
      by rewrite Nat.add_0_r, app_nil_r. }
  destruct Hp as [_ Hp]. apply not_elem_of_cons in Hq as [Hqn Hq]. cbn [length] in *. destruct fuel as [|fuel]; [lia|].
  change (headOr q (n :: ns)) with n. cbn [copyNodesLoop]. rewrite (proj2 (Z.eqb_neq n q)) by congruence.
  unfold GetIntElement, NEXT_PTR_OFFSET at 2. rewrite (path_first _ _ _ _ _ Hp). cbn [GetInt]. rewrite bind_Ok.
  unfold NEXT_PTR_OFFSET. replace (node SINGLE (length vs) + ENTRY_SIZE SINGLE) with (node SINGLE (S (length vs))) by (unfold node; cbn; lia).
  pose proof (partial_snoc t t' vs (GetElement a n) Ht ltac:(unfold node in *; cbn in *; lia)) as Ht'.
  pose proof (IH fuel n _ (vs ++ [GetElement a n]) Hp Hq ltac:(lia) Ht') as H. rewrite length_app in H. cbn [length] in H.
  rewrite Nat.add_1_r in H. eapply returns_mono; [apply H; unfold node in *; cbn in *; lia|].
  intros [cur t''] [-> Hpt]. rewrite <- app_assoc in Hpt. split; [f_equal; lia|done].
Qed.

(** The nodes from position [from] up to [to], and the node after them. *)
Lemma segment k a ns del cap from to : listInv k a ns del cap -> (from < to <= length ns)%nat ->
  let mid := take (to - from) (drop from ns) in
  let q := headOr 4 (drop to ns) in
  path 1 a (lastOr 4 (take from ns)) mid q /\ q ∉ mid /\ length mid = (to - from)%nat /\ ns !! from = Some (headOr q mid).
Proof.
  intros Hi Hft mid q. destruct (inv_bounds _ _ _ _ _ Hi) as (_ & Hn4 & _). pose proof (inv_next _ _ _ _ _ Hi) as Hp.
  assert (ns = take from ns ++ mid ++ drop to ns) as Ens.
  { unfold mid. replace (drop to ns) with (drop (to - from) (drop from ns)) by (rewrite drop_drop; f_equal; lia). by rewrite !take_drop. }
  split_and!.
  - rewrite Ens in Hp. assert (path 1 a (lastOr 4 (take from ns)) (mid ++ drop to ns) 4) as Hp1.
    { destruct (take from ns) as [|m l _] using rev_ind; [done|]. rewrite <- app_assoc in Hp. apply path_app in Hp as [_ Hp]. by rewrite last_snoc. }
    unfold q. destruct (drop to ns) as [|y l]; [by rewrite app_nil_r in Hp1|]. by apply path_app in Hp1 as [H1 _].
  - pose proof (inv_nodup _ _ _ _ _ Hi) as Hnd. rewrite Ens in Hnd, Hn4. apply NoDup_app in Hnd as (_ & _ & Hnd).
    apply NoDup_app in Hnd as (_ & Hdis & _). apply Forall_app in Hn4 as [_ Hn4]. apply Forall_app in Hn4 as [Hn4 _]. intros Hin.
    unfold q in *. destruct (drop to ns) as [|y l]; [rewrite Forall_forall in Hn4; by apply (Hn4 4 Hin)|]. apply (Hdis y Hin). by left.
  - unfold mid. rewrite length_take, length_drop. lia.
  - destruct (lookup_lt_is_Some_2 ns from) as [x Hx]; [lia|]. rewrite Hx. f_equal. unfold mid. rewrite (drop_S _ _ _ Hx).
    destruct (to - from)%nat eqn:E; [lia|]. done.
Qed.

(** The finished sublist, when the last link and the header are written. *)
Lemma partial_rep t t' vs a' : partialList t t' vs -> Z.of_nat (length t) = 4 + 2 * (Z.of_nat (length vs) + 1) -> GetElement t 4 = Hole ->
  length a' = length t' -> GetElement a' 0 = Int (Z.of_nat (length vs)) -> GetElement a' 1 = Int 0 -> GetElement a' 2 = Int 4 ->
  GetElement a' 3 = Int (node SINGLE (length vs)) -> GetElement a' (node SINGLE (length vs) + 1) = Int 4 ->
  (forall x, 4 <= x -> x <> node SINGLE (length vs) + 1 -> GetElement a' x = GetElement t' x) ->
  singleRep true a' vs.
Proof.
  intros [Tl Tlow Tv Tn] Hl H4 La E0 E1 E2 E3 En Hs. set (m := length vs) in *.
  exists (compactNodes SINGLE m), 0, (Z.of_nat m). split_and!.
  - apply compact_inv; try done; try lia.
    + cbn. lia.
    + rewrite Hs by (unfold node; cbn; lia). rewrite Tlow by lia. done.
    + intros i Hlt. rewrite Hs by (unfold node; cbn; lia). by apply Tn.
  - apply list_eq. intros i. rewrite valuesAt_lookup. destruct (decide (i < m)%nat) as [Hlt|Hge].
    + rewrite (proj2 (compactNodes_lookup SINGLE m i (node SINGLE (S i)))) by (split; [done|lia]). cbn.
      destruct (lookup_lt_is_Some_2 vs i Hlt) as [v Hv]. rewrite Hv. f_equal. rewrite Hs by (unfold node; cbn; lia). by apply Tv.
    + rewrite (lookup_ge_None_2 vs) by (fold m; lia). by rewrite lookup_ge_None_2 by (rewrite compactNodes_length; lia).
  - intros _. split; [done|]. by rewrite compactNodes_length.
Qed.

Lemma GetSubList_returns o a vs from to n : singleRep o a vs -> (from < to <= length vs)%nat ->
  n = Z.to_nat (4 + Z.of_nat (to - from + 1) * 2) ->
  returns (GetSubList a (Z.of_nat from) (Z.of_nat to) (replicate n Hole))
    (fun a' => singleRep true a' (take (to - from) (drop from vs))).
Proof.
  intros (ns & del & cap & Hi & <- & _) Hft ->. rewrite valuesAt_length in Hft. destruct (inv_bounds _ _ _ _ _ Hi) as (Hlen & Hn4 & _).
  unfold GetSubList. rewrite (first_eq _ _ _ _ _ Hi), bind_Ok.
  rewrite (subListLoop_eq a 4 ns _ _ _ _ _ (inv_next _ _ _ _ _ Hi)) by (done || unfold linkFuel; lia). rewrite bind_Ok.
  destruct (Z.leb_spec 0 (Z.of_nat from)), (Z.ltb_spec (Z.of_nat from) (Z.of_nat to)); try lia. cbn [andb]. rewrite !Z.sub_0_r, !Nat2Z.id.
  destruct (segment _ _ _ _ _ from to Hi Hft) as (Hmp & Hq & Hmid & Hx). rewrite Hx.
  set (mid := take (to - from) (drop from ns)) in *. set (q := headOr 4 (drop to ns)) in *. change (default 4 (Some ?x)) with x.
  set (t := replicate _ Hole). assert (Z.of_nat (length t) = 4 + 2 * (Z.of_nat (length mid) + 1)) as Lt by (unfold t; rewrite length_replicate; lia).
  assert (partialList t t []) as Ht0 by (split; [done|done|by intros [|j]|cbn; lia]).
  eapply returns_bind; [apply (copyNodesLoop_returns a (linkFuel a) _ mid q t t [] Hmp Hq); [unfold linkFuel; lia|done|cbn; unfold node; cbn; lia]|].
  intros [cur t'] [-> Ht']. cbn [length app Nat.add] in *. pose proof (partial_length _ _ _ Ht') as Tl.
  unfold HEAD_TABLE_INDEX, TAIL_TABLE_INDEX, NEXT_PTR_OFFSET, ELEMENTS_START_INDEX. cbv zeta.
  rewrite SetNumberOfNodes_eq, bind_Ok, SetNumberOfDeletedNodes_eq by (rewrite !length_SetElement; lia). apply returns_ok.
  replace (Z.of_nat to - Z.of_nat from) with (Z.of_nat (length mid)) by lia.
  replace (take (to - from) (drop from (valuesAt a ns))) with (valuesAt a mid) by (unfold mid, valuesAt; by rewrite fmap_take, fmap_drop).
  assert (4 <= node SINGLE (length mid) /\ node SINGLE (length mid) + 1 < Z.of_nat (length t')) as Hm by (unfold node; cbn; lia).
  apply (partial_rep t t'); rewrite ?valuesAt_length, ?length_SetElement; try done; try (intros; by read_slot).
  rewrite GetElement_lookup by lia. unfold t. by rewrite lookup_replicate_2 by (cbn; lia).
Qed.

(** ** Equality *)

Lemma equalLoop_eq a b p q ns ms : path 1 a p ns 4 -> path 1 b q ms 4 -> length ns = length ms ->
  Forall (fun n => n <> 4) ns -> Forall (fun n => n <> 4) ms ->
  equalLoop (length ms) b a q p = Ok (forallb id (zip_with SameValue (valuesAt b ms) (valuesAt a ns))).
Proof.
  revert p q ms. induction ns as [|n ns IH]; intros p q [|m ms] Hp Hq Hl Hn Hm; try done. cbn [length equalLoop].
  destruct Hp as [Ep Hp], Hq as [Eq Hq]. apply Forall_cons in Hn as [Hn4 Hn]. apply Forall_cons in Hm as [Hm4 Hm].
  unfold GetNextDataIndex, GetIntElement, NEXT_PTR_OFFSET. rewrite Eq, Ep. cbn [GetInt]. rewrite !bind_Ok.
  rewrite (proj2 (Z.eqb_neq m ELEMENTS_START_INDEX) Hm4), (proj2 (Z.eqb_neq n ELEMENTS_START_INDEX) Hn4). cbn [negb]. rewrite !valuesAt_cons. cbn [zip_with forallb].
  unfold id at 1. destruct (SameValue (GetElement b m) (GetElement a n)); cbn [negb andb]; [|done]. apply IH; try done. by injection Hl.
Qed.

(** The lists have the same length and the same values, by position. *)
Definition sameValues (vs ws : list JSTaggedValue) : bool :=
  (length ws =? length vs)%nat && forallb id (zip_with SameValue ws vs).

Lemma singleEqual_eq o o' a b vs ws : singleRep o a vs -> singleRep o' b ws -> Equal a b = Ok (sameValues vs ws).
Proof.
  intros Ha Hb. unfold Equal. rewrite (singleNodes_eq _ _ _ Hb), bind_Ok, (singleNodes_eq _ _ _ Ha), bind_Ok.
  destruct Ha as (ns & del & cap & Hi & <- & _), Hb as (ms & del' & cap' & Hi' & <- & _). unfold sameValues. rewrite !valuesAt_length.
  destruct (Z.eqb_spec (Z.of_nat (length ms)) (Z.of_nat (length ns))) as [E|E], (Nat.eqb_spec (length ms) (length ns)); try lia; cbn [negb andb]; [|done].
  rewrite Nat2Z.id. destruct (inv_bounds _ _ _ _ _ Hi) as (_ & H & _), (inv_bounds _ _ _ _ _ Hi') as (_ & H' & _).
  apply equalLoop_eq; try done; [apply (inv_next _ _ _ _ _ Hi)|apply (inv_next _ _ _ _ _ Hi')].
Qed.
