(* ===== verification/DoubleList.v ===== *)
(** * Doubly linked lists

    [TaggedDoubleList] of src/ecmascript/tagged_list.h and tagged_list.cpp: the model, then what the
    operations do to arrays that hold a list.  Searches by position start at the nearer end; both
    directions find the same node. *)

From Stdlib Require Import ZArith Lia.
From S2P Require Import Prelude Double Values TaggedArray TaggedList Containers ListRep.

(** ** Model *)

Definition DoubleCreate : result Array :=
  taggedList ← Create DOUBLE DEFAULT_ARRAY_LENGHT;
  Ok (SetElement taggedList (ELEMENTS_START_INDEX + PREV_PTR_OFFSET) (Int ELEMENTS_START_INDEX)).

(** [while (nodeSum <= len)] from 0 has [len + 1] rounds. *)
Fixpoint prevByIndexAtLastLoop (rounds : nat) (a : Array) (index prevDataIndex nodeSum : Z) : result Z :=
  match rounds with
  | O => Ok (-1)
  | S rounds =>
    prePreDataIndex ← GetIntElement a (prevDataIndex + PREV_PTR_OFFSET);
    if nodeSum =? index then Ok prePreDataIndex else prevByIndexAtLastLoop rounds a index prePreDataIndex (nodeSum + 1)
  end.

Definition FindPrevNodeByIndexAtLast (a : Array) (index : Z) : result Z :=
  prevDataIndex ← GetIntElement a (ELEMENTS_START_INDEX + PREV_PTR_OFFSET);
  len ← GetIntElement a NUMBER_OF_NODE_INDEX;
  prevByIndexAtLastLoop (Z.to_nat (len + 1)) a index prevDataIndex 0.

Fixpoint prevByValueAtLastLoop (rounds : nat) (a : Array) (element : JSTaggedValue) (prevDataIndex : Z) : result Z :=
  match rounds with
  | O => Ok (-1)
  | S rounds =>
    prePreDataIndex ← GetIntElement a (prevDataIndex + PREV_PTR_OFFSET);
    let data := GetElement a prevDataIndex in
    if SameValue data element then Ok prePreDataIndex else prevByValueAtLastLoop rounds a element prePreDataIndex
  end.

Definition FindPrevNodeByValueAtLast (a : Array) (element : JSTaggedValue) : result Z :=
  prevDataIndex ← GetIntElement a (ELEMENTS_START_INDEX + PREV_PTR_OFFSET);
  len ← GetIntElement a NUMBER_OF_NODE_INDEX;
  prevByValueAtLastLoop (Z.to_nat (len + 1)) a element prevDataIndex.

Fixpoint elementAtLastLoop (fuel : nat) (a : Array) (index preDataIndex nodeSum : Z) : result JSTaggedValue :=
  if preDataIndex =? ELEMENTS_START_INDEX then Ok Undefined else
  match fuel with
  | O => Err OutOfFuel
  | S fuel =>
    let dataValue := GetElement a preDataIndex in
    if nodeSum =? index then Ok dataValue else
    preDataIndex ← GetIntElement a (preDataIndex + PREV_PTR_OFFSET);
    elementAtLastLoop fuel a index preDataIndex (nodeSum - 1)
  end.

Definition FindElementByIndexAtLast (a : Array) (index : Z) : result JSTaggedValue :=
  preDataIndex ← GetIntElement a (ELEMENTS_START_INDEX + PREV_PTR_OFFSET);
  n ← GetIntElement a NUMBER_OF_NODE_INDEX;
  elementAtLastLoop (linkFuel a) a index preDataIndex (n - 1).

Definition GetPrevNode (a : Array) (index : Z) : result Z :=
  len ← NumberOfNodes a;
  if index <? Z.quot len 2 then FindPrevNodeByIndex a index else
  let leftNodeLen := len - 1 - index in
  if leftNodeLen =? -1 then GetIntElement a TAIL_TABLE_INDEX
  else FindPrevNodeByIndexAtLast a leftNodeLen.

Definition InsertNode (a : Array) (value : JSTaggedValue) (prevDataIndex finalDataIndex : Z) : result Array :=
  let prevNextIndex := prevDataIndex + NEXT_PTR_OFFSET in
  nextDataIndex ← GetIntElement a prevNextIndex;
  let nextPrevIndex := nextDataIndex + PREV_PTR_OFFSET in
  let a := SetElement a prevNextIndex (Int finalDataIndex) in
  let a := SetElement a nextPrevIndex (Int finalDataIndex) in
  let a := SetElement a finalDataIndex value in
  let a := SetElement a (finalDataIndex + NEXT_PTR_OFFSET) (Int nextDataIndex) in
  let a := SetElement a (finalDataIndex + PREV_PTR_OFFSET) (Int prevDataIndex) in
  nof ← NumberOfNodes a;
  SetNumberOfNodes a (nof + 1).

(** The list after the node was added, and whether it is a new array. *)
Definition AddNode (taggedList : Array) (value : JSTaggedValue) (index prevDataIndex : Z) : result (bool * Array) :=
  '(isNew, list) ← GrowCapacity DOUBLE taggedList;
  deleteNodeLength ← NumberOfDeletedNodes list;
  nodeLength ← NumberOfNodes list;
  let finalDataIndex := ELEMENTS_START_INDEX + (nodeLength + 1 + deleteNodeLength) * ENTRY_SIZE DOUBLE in
  prevDataIndex ←
    (if (isNew : bool) then
       if index =? -1 then GetIntElement list TAIL_TABLE_INDEX
       else if index =? 0 then FindPrevNodeByIndex list 0
       else GetPrevNode list index
     else Ok prevDataIndex);
  list ← InsertNode list value prevDataIndex finalDataIndex;
  Ok (isNew, if (index =? -1) || (nodeLength =? index) then SetElement list TAIL_TABLE_INDEX (Int finalDataIndex) else list).

Definition Add (taggedList : Array) (value : JSTaggedValue) : result (bool * Array) :=
  prevDataIndex ← GetIntElement taggedList TAIL_TABLE_INDEX;
  AddNode taggedList value (-1) prevDataIndex.

Definition AddFirst (taggedList : Array) (value : JSTaggedValue) : result (bool * Array) :=
  prevDataIndex ← FindPrevNodeByIndex taggedList 0;
  AddNode taggedList value 0 prevDataIndex.

Definition Insert (taggedList : Array) (value : JSTaggedValue) (index : Z) : result (bool * Array) :=
  prevDataIndex ← GetPrevNode taggedList index;
  AddNode taggedList value index prevDataIndex.

Definition Has (a : Array) (element : JSTaggedValue) : result bool :=
  dataIndex ← FindIndexByElement a element; Ok (negb (dataIndex =? -1)).

Definition Get (a : Array) (index : Z) : result JSTaggedValue :=
  len ← NumberOfNodes a;
  if index <? Z.quot len 2 then FindElementByIndex a index else FindElementByIndexAtLast a index.

Definition Set_ (taggedList : Array) (index : Z) (value : JSTaggedValue) : result Array :=
  nodeLength ← NumberOfNodes taggedList;
  if (index <? 0) || (nodeLength <=? index) then Err IndexRange else
  dataIndex ← FindDataIndexByNodeIndex taggedList index;
  if dataIndex =? -1 then Err IndexRange else Ok (SetElement taggedList dataIndex value).

Definition DoubleClear (a : Array) : result Array :=
  a ← Clear a;
  Ok (SetElement a (ELEMENTS_START_INDEX + PREV_PTR_OFFSET) (Int ELEMENTS_START_INDEX)).

Definition RemoveFirst (a : Array) : result (JSTaggedValue * Array) :=
  firstDataIndex ← GetIntElement a (ELEMENTS_START_INDEX + NEXT_PTR_OFFSET);
  let firstData := GetElement a firstDataIndex in
  a ← RemoveNode DOUBLE a ELEMENTS_START_INDEX;
  Ok (firstData, a).

Definition RemoveLast (a : Array) : result (JSTaggedValue * Array) :=
  lastDataIndex ← GetIntElement a (ELEMENTS_START_INDEX + 2);
  prevDataIndex ← GetIntElement a (lastDataIndex + 2);
  let lastData := GetElement a lastDataIndex in
  a ← RemoveNode DOUBLE a prevDataIndex;
  Ok (lastData, a).

(** [TaggedDoubleList] has its own, which searches from the nearer end. *)
Definition DoubleRemoveByIndex (a : Array) (index : Z) : result (JSTaggedValue * Array) :=
  prevDataIndex ← GetPrevNode a index;
  curDataIndex ← GetIntElement a (prevDataIndex + NEXT_PTR_OFFSET);
  let data := GetElement a curDataIndex in
  a ← RemoveNode DOUBLE a prevDataIndex;
  Ok (data, a).

Definition Remove (a : Array) (element : JSTaggedValue) : result (bool * Array) :=
  prevDataIndex ← FindPrevNodeByValue a element;
  if prevDataIndex =? -1 then Ok (false, a) else
  a ← RemoveNode DOUBLE a prevDataIndex;
  Ok (true, a).

Definition ElementNotExist : error := IsNotExistError "The element does not exist in this container".

Definition RemoveFirstFound (taggedList : Array) (element : JSTaggedValue) : result (bool * Array) :=
  prevDataIndex ← FindPrevNodeByValue taggedList element;
  if prevDataIndex =? -1 then Err ElementNotExist else
  taggedList ← RemoveNode DOUBLE taggedList prevDataIndex;
  Ok (true, taggedList).

Definition RemoveLastFound (taggedList : Array) (element : JSTaggedValue) : result (bool * Array) :=
  prevDataIndex ← FindPrevNodeByValueAtLast taggedList element;
  if prevDataIndex =? -1 then Err ElementNotExist else
  taggedList ← RemoveNode DOUBLE taggedList prevDataIndex;
  Ok (true, taggedList).

(** ** What the operations do *)

(** The capacity is far from where the length of an array would overflow. *)
Definition doubleRep (a : Array) (vs : list JSTaggedValue) : Prop :=
  exists ns del cap, listInv DOUBLE a ns del cap /\ valuesAt a ns = vs /\ cap < 2 ^ 28.

Lemma DoubleCreate_rep : exists a, DoubleCreate = Ok a /\ doubleRep a [].
Proof.
  pose proof (Create_returns DOUBLE DEFAULT_ARRAY_LENGHT ltac:(unfold DEFAULT_ARRAY_LENGHT; lia)) as H.
  apply returns_iff in H as (a & E & Hl & []). eexists. split; [unfold DoubleCreate; rewrite E; done|]. exists [], 0, DEFAULT_ARRAY_LENGHT.
  split_and!; [|done|done]. unfold ELEMENTS_START_INDEX, PREV_PTR_OFFSET, DEFAULT_ARRAY_LENGHT in *. cbn [ENTRY_SIZE] in Hl.
  apply blank_inv; [split; by read_slot| |lia|rewrite length_SetElement; cbn; lia]. intros _. apply SetElement_eq. lia.
Qed.

Lemma DoubleInsertNode_inserts : insertsNode DOUBLE InsertNode.
Proof.
  intros a ns1 ns2 del cap v Ha Hroom f. destruct (cursor_index _ _ _ _ _ _ Ha) as (ip & iq & Eip & Eiq & Hip & Hiq).
  pose proof (inv_length _ _ _ _ _ Ha) as Hl. pose proof (inv_del _ _ _ _ _ Ha). cbn [ENTRY_SIZE] in *.
  assert (f < Z.of_nat (length a) - 2) as Hf by (unfold f; cbn; lia). assert (6 <= f) by (unfold f; cbn; lia).
  assert (lastOr 4 ns1 + 2 < f /\ headOr 4 ns2 + 2 < f) as Hpf by (unfold f; cbn; lia).
  unfold InsertNode. pose proof (cursor_next _ _ _ _ _ _ Ha) as En. rewrite En, bind_Ok. unfold NEXT_PTR_OFFSET, PREV_PTR_OFFSET.
  set (p := lastOr 4 ns1) in *. set (q := headOr 4 ns2) in *. assert (q + 2 <> p + 1) as Hqp by lia.
  unfold NumberOfNodes, GetIntElement, NUMBER_OF_NODE_INDEX. rewrite !SetElement_ne by lia.
  rewrite (inv_number _ _ _ _ _ Ha). cbn [GetInt]. rewrite bind_Ok.
  rewrite SetNumberOfNodes_eq by (rewrite !length_SetElement; lia). apply returns_ok.
  eapply insert_inv; [exact Ha|done|done|destruct ns2; by rewrite !length_SetElement|..]; fold p; fold q.
  - destruct ns2; by read_slot.
  - destruct ns2; read_slot; [done|]. apply (inv_tail _ _ _ _ _ Ha).
  - destruct ns2; by read_slot.
  - destruct ns2; by read_slot.
  - destruct ns2; by read_slot.
  - intros _. destruct ns2; (split; [by read_slot|by read_slot]).
  - intros x X0 X3 Xp Xf Xf1 Xd. destruct (Xd eq_refl). destruct ns2; by read_slot.
Qed.

(** ** Searches from the end *)

Section AtLast.
  Variable a : Array.

Lemma prevByIndexAtLastLoop_eq rounds p ms q s i y : path 2 a p ms q -> (i < length ms)%nat -> (i < rounds)%nat ->
  (ms ++ [q]) !! S i = Some y -> prevByIndexAtLastLoop rounds a (s + Z.of_nat i) (headOr q ms) s = Ok y.
Proof.
  revert rounds p s i. induction ms as [|m ms IH]; intros rounds p s i Hp Hi Hr Hy; cbn [length] in Hi; [lia|].
  destruct Hp as [_ Hp]. destruct rounds as [|rounds]; [lia|]. change (headOr q (m :: ms)) with m. cbn [prevByIndexAtLastLoop].
  unfold GetIntElement, PREV_PTR_OFFSET. rewrite (path_first _ _ _ _ _ Hp). cbn [GetInt]. rewrite bind_Ok. cbn in Hy.
  destruct i as [|i].
  - rewrite Z.add_0_r, Z.eqb_refl. destruct ms; cbn in Hy; by simplify_eq.
  - destruct (Z.eqb_spec s (s + Z.of_nat (S i))); [lia|]. replace (s + Z.of_nat (S i)) with (s + 1 + Z.of_nat i) by lia.
    apply (IH rounds m); [done|lia|lia|done].
Qed.

Lemma prevByValueAtLastLoop_eq p ms x : path 2 a p ms 4 -> GetElement a 4 = Hole -> SameValue Hole x = false ->
  (exists z, GetElement a 6 = Int z) ->
  prevByValueAtLastLoop (S (length ms)) a x (headOr 4 ms) =
    Ok (let i := indexWhere (fun v => SameValue v x) (valuesAt a ms) in
        if i <? 0 then -1 else default (-1) ((ms ++ [4]) !! S (Z.to_nat i))).
Proof.
  intros Hp Hh Hx [z Hz]. revert p Hp. induction ms as [|m ms IH]; intros p Hp.
  { change (headOr 4 (@nil Z)) with 4. cbn [length prevByValueAtLastLoop]. unfold GetIntElement, PREV_PTR_OFFSET. change (4 + 2) with 6.
    rewrite Hz. cbn [GetInt]. rewrite bind_Ok. by rewrite Hh, Hx. }
  destruct Hp as [_ Hp]. cbn [length]. remember (S (length ms)) as r eqn:Er. change (headOr 4 (m :: ms)) with m. cbn [prevByValueAtLastLoop].
  unfold GetIntElement, PREV_PTR_OFFSET. rewrite (path_first _ _ _ _ _ Hp). cbn [GetInt]. rewrite bind_Ok.
  rewrite valuesAt_cons, indexWhere_cons. destruct (SameValue (GetElement a m) x); [by destruct ms|].
  rewrite (IH m Hp). cbv zeta. f_equal. pose proof (indexWhere_lt (fun v => SameValue v x) (valuesAt a ms)) as [_ H1].
  destruct (Z.ltb_spec (indexWhere (fun v => SameValue v x) (valuesAt a ms)) 0); [done|].
  set (i := indexWhere _ _) in *. destruct (Z.ltb_spec (i + 1) 0); [lia|]. by replace (Z.to_nat (i + 1)) with (S (Z.to_nat i)) by lia.
Qed.

Lemma elementAtLastLoop_eq fuel p ms s i : path 2 a p ms 4 -> Forall (fun n => n <> 4) ms -> (length ms <= fuel)%nat -> 0 <= i ->
  elementAtLastLoop fuel a (s - i) (headOr 4 ms) s = Ok (default Undefined (valuesAt a ms !! Z.to_nat i)).
Proof.
  revert fuel p s i. induction ms as [|m ms IH]; intros fuel p s i Hp Hn Hf Hi.
  { by destruct fuel. }
  destruct Hp as [_ Hp]. apply Forall_cons in Hn as [Hn Hns]. destruct fuel as [|fuel]; cbn [length] in Hf; [lia|].
  change (headOr 4 (m :: ms)) with m. cbn [elementAtLastLoop]. rewrite (proj2 (Z.eqb_neq m ELEMENTS_START_INDEX)) by exact Hn.
  destruct (Z.eqb_spec s (s - i)).
  { by replace i with 0 by lia. }
  unfold GetIntElement, PREV_PTR_OFFSET. rewrite (path_first _ _ _ _ _ Hp). cbn [GetInt]. rewrite bind_Ok.
  replace (s - i) with (s - 1 - (i - 1)) by lia. rewrite (IH fuel m _ _ Hp Hns) by lia.
  by replace (Z.to_nat i) with (S (Z.to_nat (i - 1))) by lia.
Qed.
End AtLast.

(** The node before position [i], counted from the end. *)
Lemma reverse_before (ns : list Z) i : (i < length ns)%nat -> (reverse ns ++ [4]) !! (length ns - i)%nat = Some (lastOr 4 (take i ns)).
Proof.
  intros Hi. replace (reverse ns ++ [4]) with (reverse (4 :: ns)) by apply reverse_cons.
  rewrite reverse_lookup by (cbn; lia). cbn [length]. replace (S (length ns) - S (length ns - i))%nat with i by lia. apply cursor_lookup. lia.
Qed.

Section Nodes.
  Context (a : Array) (ns : list Z) (del cap : Z).
  Hypothesis Ha : listInv DOUBLE a ns del cap.

Let Hp : path 2 a 4 (reverse ns) 4 := inv_prev _ _ _ _ _ Ha eq_refl.

Lemma last_eq : GetIntElement a (ELEMENTS_START_INDEX + PREV_PTR_OFFSET) = Ok (headOr 4 (reverse ns)).
Proof. unfold GetIntElement, ELEMENTS_START_INDEX, PREV_PTR_OFFSET. by rewrite (path_first _ _ _ _ _ Hp). Qed.

Lemma GetPrevNode_eq i : (i <= length ns)%nat -> GetPrevNode a (Z.of_nat i) = Ok (lastOr 4 (take i ns)).
Proof.
  intros Hi. unfold GetPrevNode. rewrite (NumberOfNodes_eq _ _ _ _ _ Ha), bind_Ok.
  destruct (Z.ltb_spec (Z.of_nat i) (Z.quot (Z.of_nat (length ns)) 2)) as [Hlt|Hge].
  { apply (FindPrevNodeByIndex_eq _ _ _ _ _ Ha). by apply cursor_lookup. }
  cbv zeta. destruct (Z.eqb_spec (Z.of_nat (length ns) - 1 - Z.of_nat i) (-1)) as [E|E].
  { replace i with (length ns) by lia. rewrite firstn_all. apply (tail_eq _ _ _ _ _ Ha). }
  unfold FindPrevNodeByIndexAtLast. rewrite last_eq, bind_Ok. change (GetIntElement a NUMBER_OF_NODE_INDEX) with (NumberOfNodes a).
  rewrite (NumberOfNodes_eq _ _ _ _ _ Ha), bind_Ok.
  replace (Z.of_nat (length ns) - 1 - Z.of_nat i) with (0 + Z.of_nat (length ns - 1 - i)) by lia.
  apply (prevByIndexAtLastLoop_eq a _ 4 (reverse ns) 4); [done|rewrite length_reverse; lia|lia|].
  replace (S (length ns - 1 - i)) with (length ns - i)%nat by lia. apply reverse_before. lia.
Qed.

Lemma FindElementByIndexAtLast_eq i : (i < length ns)%nat -> FindElementByIndexAtLast a (Z.of_nat i) = Ok (default Undefined (valuesAt a ns !! i)).
Proof.
  intros Hi. destruct (inv_bounds _ _ _ _ _ Ha) as (Hlen & Hn & _). unfold FindElementByIndexAtLast. rewrite last_eq, bind_Ok.
  change (GetIntElement a NUMBER_OF_NODE_INDEX) with (NumberOfNodes a). rewrite (NumberOfNodes_eq _ _ _ _ _ Ha), bind_Ok.
  replace (Z.of_nat i) with (Z.of_nat (length ns) - 1 - Z.of_nat (length ns - 1 - i)) by lia.
  rewrite (elementAtLastLoop_eq a _ 4 (reverse ns)); [|done|by apply Forall_reverse|rewrite length_reverse; unfold linkFuel; lia|lia].
  f_equal. f_equal. rewrite Nat2Z.id. unfold valuesAt. rewrite fmap_reverse, reverse_lookup by (rewrite length_fmap; lia).
  rewrite length_fmap. f_equal. lia.
Qed.

Lemma FindPrevNodeByValueAtLast_eq x : SameValue Hole x = false ->
  FindPrevNodeByValueAtLast a x = Ok (let i := lastIndexWhere (fun v => SameValue v x) (valuesAt a ns) in
    if i <? 0 then -1 else lastOr 4 (take (Z.to_nat i) ns)).
Proof.
  intros Hx. unfold FindPrevNodeByValueAtLast. rewrite last_eq, bind_Ok. change (GetIntElement a NUMBER_OF_NODE_INDEX) with (NumberOfNodes a).
  rewrite (NumberOfNodes_eq _ _ _ _ _ Ha), bind_Ok. replace (Z.to_nat (Z.of_nat (length ns) + 1)) with (S (length (reverse ns))) by (rewrite length_reverse; lia).
  rewrite (prevByValueAtLastLoop_eq a 4 (reverse ns)); [|done|apply (inv_hole _ _ _ _ _ Ha)|done|eexists; apply (path_first _ _ _ _ _ Hp)].
  f_equal. cbv zeta. unfold lastIndexWhere. replace (valuesAt a (reverse ns)) with (reverse (valuesAt a ns)) by (unfold valuesAt; by rewrite fmap_reverse).
  pose proof (indexWhere_lt (fun v => SameValue v x) (reverse (valuesAt a ns))) as [H1 H2]. rewrite length_reverse, valuesAt_length in *.
  set (i := indexWhere _ _) in *. destruct (Z.ltb_spec i 0) as [|Hpos]; [done|].
  destruct (Z.ltb_spec (Z.of_nat (length ns) - 1 - i) 0); [lia|].
  replace (S (Z.to_nat i)) with (length ns - Z.to_nat (Z.of_nat (length ns) - 1 - i))%nat by lia. by rewrite reverse_before by lia.
Qed.
End Nodes.

(** ** Operations *)

(** Removing the node at position [i]. *)
Lemma removeAt_returns a ns del cap i : listInv DOUBLE a ns del cap -> cap < 2 ^ 28 -> (i < length ns)%nat ->
  returns (RemoveNode DOUBLE a (lastOr 4 (take i ns))) (fun a' => doubleRep a' (delete i (valuesAt a ns))).
Proof.
  intros Hi Hcap Hlt. destruct (lookup_lt_is_Some_2 ns i Hlt) as [n Hn].
  assert (listInv DOUBLE a (take i ns ++ n :: drop (S i) ns) del cap) as Hi' by (by rewrite <- (drop_S _ _ _ Hn), take_drop).
  eapply returns_mono; [exact (RemoveNode_returns _ _ _ _ _ _ _ Hi')|]. intros a' [Hi2 Hv2]. eexists _, _, cap. split_and!; [exact Hi2| |done].
  rewrite Hv2. unfold valuesAt. by rewrite delete_take_drop, fmap_take, fmap_drop.
Qed.

(** A node before a position is not -1. *)
Lemma before_not_minus a ns del cap i : listInv DOUBLE a ns del cap -> lastOr 4 (take i ns) =? -1 = false.
Proof.
  intros Hi. assert (listInv DOUBLE a (take i ns ++ drop i ns) del cap) as Hi' by (by rewrite take_drop).
  destruct (cursor_index _ _ _ _ _ _ Hi') as (ip & _ & Eip & _ & Hip & _). apply Z.eqb_neq. cbn [ENTRY_SIZE] in Eip. lia.
Qed.

Section Ops.
  Context (a : Array) (vs : list JSTaggedValue).
  Hypothesis Ha : doubleRep a vs.

Lemma doubleNodes_eq : NumberOfNodes a = Ok (Z.of_nat (length vs)).
Proof. destruct Ha as (ns & del & cap & Hi & <- & Hcap). rewrite valuesAt_length. by apply (NumberOfNodes_eq _ _ _ _ _ Hi). Qed.

Lemma doubleHas_eq x : Has a x = Ok (existsb (fun v => SameValue v x) vs).
Proof.
  destruct Ha as (ns & del & cap & Hi & <- & Hcap). unfold Has. rewrite (FindIndexByElement_eq _ _ _ _ _ Hi), bind_Ok. f_equal.
  rewrite <- indexWhere_found. f_equal. pose proof (indexWhere_lt (fun v => SameValue v x) (valuesAt a ns)).
  destruct (Z.eqb_spec (indexWhere (fun v => SameValue v x) (valuesAt a ns)) (-1)),
    (Z.ltb_spec (indexWhere (fun v => SameValue v x) (valuesAt a ns)) 0); lia || done.
Qed.

(** From either end. *)
Lemma doubleGet_eq i : (i < length vs)%nat -> Get a (Z.of_nat i) = Ok (default Undefined (vs !! i)).
Proof.
  intros Hi. unfold Get. rewrite doubleNodes_eq, bind_Ok. destruct Ha as (ns & del & cap & Hinv & <- & Hcap). rewrite valuesAt_length in *.
  destruct (Z.of_nat i <? _).
  - rewrite (FindElementByIndex_eq _ _ _ _ _ Hinv) by lia. by rewrite Nat2Z.id.
  - by apply (FindElementByIndexAtLast_eq a ns del cap Hinv).
Qed.

Lemma doubleAddNode_returns v i index ns del cap : listInv DOUBLE a ns del cap -> cap < 2 ^ 28 -> Z.of_nat (length ns) < 2 ^ 27 -> (i <= length ns)%nat ->
  (index = Z.of_nat i \/ index = -1 /\ i = length ns) ->
  returns (AddNode a v index (lastOr 4 (take i ns))) (fun '(_, a') => doubleRep a' (take i (valuesAt a ns) ++ v :: drop i (valuesAt a ns))).
Proof.
  intros Hi Hcap Hn Hle Hidx. unfold AddNode.
  eapply returns_mono; [apply (addNode_returns DOUBLE InsertNode (fun list => if index =? -1 then GetIntElement list TAIL_TABLE_INDEX
    else if index =? 0 then FindPrevNodeByIndex list 0 else GetPrevNode list index) a ns del cap i index v DoubleInsertNode_inserts Hi Hn Hle Hidx)|].
  - intros a' ns' del' cap' Hi' Hlen. destruct (Z.eqb_spec index (-1)) as [Em|Em].
    { destruct Hidx as [->|[_ ->]]; [lia|]. rewrite <- Hlen, firstn_all. apply (tail_eq _ _ _ _ _ Hi'). }
    destruct Hidx as [->|[? _]]; [|done]. destruct (Z.eqb_spec (Z.of_nat i) 0) as [E0|E0].
    + replace i with 0%nat by lia. apply (FindPrevNodeByIndex_eq _ _ _ _ _ Hi' 0 4). done.
    + apply (GetPrevNode_eq a' ns' del' cap' Hi'). lia.
  - intros [b a'] (ns' & del' & cap' & Hi' & Hv' & _ & Hc'). exists ns', del', cap'. split_and!; [done|done|by apply Hc'].
Qed.

Lemma doubleAdd_returns v : Z.of_nat (length vs) < 2 ^ 27 -> returns (Add a v) (fun '(_, a') => doubleRep a' (vs ++ [v])).
Proof.
  intros Hn. destruct Ha as (ns & del & cap & Hi & <- & Hcap). rewrite valuesAt_length in Hn. unfold Add. rewrite (tail_eq _ _ _ _ _ Hi), bind_Ok.
  pose proof (doubleAddNode_returns v (length ns) (-1) ns del cap Hi Hcap Hn ltac:(lia) ltac:(by right)) as H. rewrite firstn_all in H.
  rewrite <- (valuesAt_length a ns), firstn_all, drop_all in H. exact H.
Qed.

Lemma AddFirst_returns v : Z.of_nat (length vs) < 2 ^ 27 -> returns (AddFirst a v) (fun '(_, a') => doubleRep a' (v :: vs)).
Proof.
  intros Hn. destruct Ha as (ns & del & cap & Hi & <- & Hcap). rewrite valuesAt_length in Hn. unfold AddFirst.
  pose proof (FindPrevNodeByIndex_eq _ _ _ _ _ Hi 0 4 eq_refl) as H. change (Z.of_nat 0) with 0 in H.
  rewrite H, bind_Ok. apply (doubleAddNode_returns v 0 0 ns del cap Hi Hcap Hn ltac:(lia) ltac:(by left)).
Qed.

Lemma doubleInsert_returns v i : (i <= length vs)%nat -> Z.of_nat (length vs) < 2 ^ 27 ->
  returns (Insert a v (Z.of_nat i)) (fun '(_, a') => doubleRep a' (take i vs ++ v :: drop i vs)).
Proof.
  intros Hle Hn. destruct Ha as (ns & del & cap & Hi & <- & Hcap). rewrite valuesAt_length in Hn, Hle. unfold Insert.
  rewrite (GetPrevNode_eq _ _ _ _ Hi i Hle), bind_Ok. apply (doubleAddNode_returns v i _ ns del cap Hi Hcap Hn Hle). by left.
Qed.

Lemma doubleSet_returns i v : (i < length vs)%nat -> returns (Set_ a (Z.of_nat i) v) (fun a' => doubleRep a' (<[i := v]> vs)).
Proof.
  intros Hlt. unfold Set_. rewrite doubleNodes_eq, bind_Ok. destruct Ha as (ns & del & cap & Hi & <- & Hcap). rewrite valuesAt_length in *.
  destruct (Z.ltb_spec (Z.of_nat i) 0), (Z.leb_spec (Z.of_nat (length ns)) (Z.of_nat i)); try lia. cbn [orb].
  rewrite (FindDataIndexByNodeIndex_eq _ _ _ _ _ Hi) by lia. rewrite Nat2Z.id, bind_Ok. destruct (lookup_lt_is_Some_2 ns i Hlt) as [n Hn].
  rewrite Hn. change (default (-1) (Some n)) with n. destruct (Z.eqb_spec n (-1)) as [->|_].
  { pose proof (Forall_lookup_1 _ _ _ _ (inv_nodes _ _ _ _ _ Hi) Hn) as H'. apply entry_ge in H'. cbn in H'. lia. }
  apply returns_ok. destruct (write_inv DOUBLE a ns del cap i n v Hi Hn) as [Hi' Hv']. by exists ns, del, cap.
Qed.

Lemma DoubleRemoveByIndex_returns i : (i < length vs)%nat ->
  returns (DoubleRemoveByIndex a (Z.of_nat i)) (fun '(v, a') => vs !! i = Some v /\ doubleRep a' (delete i vs)).
Proof.
  intros Hlt. destruct Ha as (ns & del & cap & Hi & <- & Hcap). rewrite valuesAt_length in Hlt. unfold DoubleRemoveByIndex.
  rewrite (GetPrevNode_eq _ _ _ _ Hi i ltac:(lia)), bind_Ok. destruct (lookup_lt_is_Some_2 ns i Hlt) as [n Hn].
  assert (listInv DOUBLE a (take i ns ++ n :: drop (S i) ns) del cap) as Hi' by (by rewrite <- (drop_S _ _ _ Hn), take_drop).
  rewrite (cursor_next _ _ _ _ _ _ Hi'), bind_Ok. eapply returns_bind; [exact (removeAt_returns _ _ _ _ i Hi Hcap Hlt)|].
  intros a' Ha'. apply returns_ok. split; [by rewrite valuesAt_lookup, Hn|done].
Qed.

Lemma RemoveFirst_returns : vs <> [] -> returns (RemoveFirst a) (fun '(v, a') => head vs = Some v /\ doubleRep a' (tail vs)).
Proof.
  intros Hne. destruct Ha as (ns & del & cap & Hi & <- & Hcap). destruct ns as [|n ns]; [done|]. unfold RemoveFirst.
  rewrite (first_eq _ _ _ _ _ Hi), bind_Ok. eapply returns_bind; [exact (removeAt_returns _ _ _ _ 0 Hi Hcap ltac:(cbn; lia))|].
  intros a' Ha'. by apply returns_ok.
Qed.

Lemma RemoveLast_returns : vs <> [] ->
  returns (RemoveLast a) (fun '(v, a') => last vs = Some v /\ doubleRep a' (take (length vs - 1) vs)).
Proof.
  intros Hne. destruct Ha as (ns & del & cap & Hi & <- & Hcap). destruct ns as [|n ns _] using rev_ind; [done|]. unfold RemoveLast.
  change (ELEMENTS_START_INDEX + 2) with (ELEMENTS_START_INDEX + PREV_PTR_OFFSET). rewrite (last_eq _ _ _ _ Hi), bind_Ok.
  pose proof (inv_prev _ _ _ _ _ Hi eq_refl) as Hp. rewrite reverse_snoc in *. change (headOr 4 (n :: _)) with n. destruct Hp as [_ Hp].
  unfold GetIntElement. rewrite (path_first _ _ _ _ _ Hp), head_reverse. cbn [GetInt]. rewrite bind_Ok.
  pose proof (removeAt_returns _ _ _ _ (length ns) Hi Hcap ltac:(rewrite length_app; cbn; lia)) as H. rewrite take_app_length in H.
  eapply returns_bind; [exact H|]. intros a' Ha'. apply returns_ok. rewrite valuesAt_length, length_app. cbn [length].
  replace (length ns + 1 - 1)%nat with (length ns) by lia. unfold valuesAt in *. rewrite fmap_app in *. cbn [fmap list_fmap] in *.
  rewrite last_snoc. split; [done|]. rewrite <- (length_fmap (GetElement a) ns) in Ha' |- *. rewrite take_app_length.
  by rewrite delete_take_drop, take_app_length, drop_ge, app_nil_r in Ha' by (rewrite length_app; cbn; lia).
Qed.

(** The removals by value, of the first and of the last. *)
Lemma doubleRemove_returns x : SameValue Hole x = false ->
  returns (Remove a x) (fun '(b, a') => b = existsb (fun v => SameValue v x) vs /\
    doubleRep a' (let i := indexWhere (fun v => SameValue v x) vs in if i <? 0 then vs else delete (Z.to_nat i) vs)).
Proof.
  intros Hx. destruct Ha as (ns & del & cap & Hi & <- & Hcap). unfold Remove. rewrite (FindPrevNodeByValue_eq _ _ _ _ _ Hi x Hx), bind_Ok.
  rewrite <- indexWhere_found. pose proof (indexWhere_lt (fun v => SameValue v x) (valuesAt a ns)) as Hb. rewrite valuesAt_length in Hb.
  set (i := indexWhere _ _) in *. cbv zeta. destruct (Z.ltb_spec i 0) as [Hneg|Hpos]; cbn [negb].
  { apply returns_ok. split; [done|]. by exists ns, del, cap. }
  rewrite cursor_lookup by lia. change (default (-1) (Some ?n)) with n. rewrite (before_not_minus _ _ _ _ _ Hi).
  eapply returns_bind; [exact (removeAt_returns _ _ _ _ (Z.to_nat i) Hi Hcap ltac:(lia))|]. intros a' Ha'. by apply returns_ok.
Qed.

Lemma RemoveFirstFound_outcome x : SameValue Hole x = false ->
  let i := indexWhere (fun v => SameValue v x) vs in
  if i <? 0 then RemoveFirstFound a x = Err ElementNotExist
  else returns (RemoveFirstFound a x) (fun '(b, a') => b = true /\ doubleRep a' (delete (Z.to_nat i) vs)).
Proof.
  intros Hx. destruct Ha as (ns & del & cap & Hi & <- & Hcap). unfold RemoveFirstFound. rewrite (FindPrevNodeByValue_eq _ _ _ _ _ Hi x Hx), bind_Ok.
  pose proof (indexWhere_lt (fun v => SameValue v x) (valuesAt a ns)) as Hb. rewrite valuesAt_length in Hb.
  set (i := indexWhere _ _) in *. cbv zeta. destruct (Z.ltb_spec i 0) as [Hneg|Hpos]; [done|].
  rewrite cursor_lookup by lia. change (default (-1) (Some ?n)) with n. rewrite (before_not_minus _ _ _ _ _ Hi).
  eapply returns_bind; [exact (removeAt_returns _ _ _ _ (Z.to_nat i) Hi Hcap ltac:(lia))|]. intros a' Ha'. by apply returns_ok.
Qed.

Lemma RemoveLastFound_outcome x : SameValue Hole x = false ->
  let i := lastIndexWhere (fun v => SameValue v x) vs in
  if i <? 0 then RemoveLastFound a x = Err ElementNotExist
  else returns (RemoveLastFound a x) (fun '(b, a') => b = true /\ doubleRep a' (delete (Z.to_nat i) vs)).
Proof.
  intros Hx. destruct Ha as (ns & del & cap & Hi & <- & Hcap). unfold RemoveLastFound. rewrite (FindPrevNodeByValueAtLast_eq _ _ _ _ Hi x Hx), bind_Ok.
  assert (lastIndexWhere (fun v => SameValue v x) (valuesAt a ns) < Z.max (Z.of_nat (length ns)) 0) as Hb.
  { unfold lastIndexWhere. pose proof (indexWhere_lt (fun v => SameValue v x) (reverse (valuesAt a ns))) as H'.
    rewrite length_reverse, valuesAt_length in *. destruct (Z.ltb_spec (indexWhere (fun v => SameValue v x) (reverse (valuesAt a ns))) 0); lia. }
  set (i := lastIndexWhere _ _) in *. cbv zeta. destruct (Z.ltb_spec i 0) as [Hneg|Hpos]; [done|].
  rewrite (before_not_minus _ _ _ _ _ Hi).
  eapply returns_bind; [exact (removeAt_returns _ _ _ _ (Z.to_nat i) Hi Hcap ltac:(lia))|]. intros a' Ha'. by apply returns_ok.
Qed.

Lemma DoubleClear_returns : returns (DoubleClear a) (fun a' => doubleRep a' []).
Proof.
  destruct Ha as (ns & del & cap & Hi & <- & Hcap). unfold DoubleClear. eapply returns_bind; [apply (Clear_returns _ _ _ _ _ Hi)|].
  intros a' [Hl []]. apply returns_ok. pose proof (inv_length _ _ _ _ _ Hi) as Hlen. cbn [ENTRY_SIZE] in Hlen.
  destruct (inv_bounds _ _ _ _ _ Hi) as (_ & _ & _ & Hc). unfold ELEMENTS_START_INDEX, PREV_PTR_OFFSET.
  exists [], 0, cap. split_and!; [|done|done]. apply blank_inv; [split; by read_slot| |done|rewrite length_SetElement; cbn; lia].
  intros _. apply SetElement_eq. lia.
Qed.
End Ops.
