(* ===== verification/JSAPIList.v ===== *)
(** * The list container

    [JSAPIList] of src/ecmascript/js_api/js_api_list.h and js_api_list.cpp, its iterator
    (js_api_list_iterator.cpp), the methods of src/ecmascript/containers/containers_list.cpp, and the
    operations of [TaggedSingleList] that call user code ([ReplaceAllElements] and [Sort] of
    tagged_list.cpp).  The list is singly linked; a flag says that the nodes are in order in the array,
    with which an element is found without a walk. *)

From Stdlib Require Import ZArith Lia.
From S2P Require Import Prelude Double Values BigIntNum NumberHelper Containers TaggedArray StringOrder ArrayHelper ContainerSort TaggedList SingleList.

(** ** Model *)

Record JSAPIList := mkList { SingleList : Arrays; IsOrderedList : bool }.

Definition ListConstructor (newTarget : bool) : result JSAPIList :=
  if negb newTarget then Err (DirectCall "The List") else
  singleList ← SingleCreate;
  Ok (mkList (mkArrays [singleList] 0) true).

Definition GetSingleList (list : JSAPIList) : result Array := presentArray (SingleList list).

(** [SetSingleList], with the array the list has or a new one. *)
Definition SetSingleList (list : JSAPIList) (isNew : bool) (a : Array) : result JSAPIList :=
  s ← setPresent (SingleList list) isNew a; Ok (mkList s (IsOrderedList list)).

Definition SetIsOrderedList (list : JSAPIList) (flag : bool) : JSAPIList := mkList (SingleList list) flag.

Definition Add (list : JSAPIList) (value : JSTaggedValue) : result JSAPIList :=
  singleList ← GetSingleList list;
  '(isNew, newList) ← SingleList.Add singleList value;
  SetSingleList list isNew newList.

Definition holeToUndefined (v : JSTaggedValue) : JSTaggedValue := if IsHole v then Undefined else v.

Definition GetFirst (list : JSAPIList) : result JSTaggedValue :=
  singleList ← GetSingleList list; res ← TaggedList.GetFirst singleList; Ok (holeToUndefined res).

Definition GetLast (list : JSAPIList) : result JSTaggedValue :=
  singleList ← GetSingleList list; res ← TaggedList.GetLast singleList; Ok (holeToUndefined res).

Definition Insert (list : JSAPIList) (value : JSTaggedValue) (index : Z) : result JSAPIList :=
  singleList ← GetSingleList list;
  nodeLength ← TaggedList.Length singleList;
  if (index <? 0) || (nodeLength <? index) then Err IndexRange else
  '(isNew, newList) ← SingleList.Insert singleList value index;
  list ← SetSingleList list isNew newList;
  Ok (if negb (index =? nodeLength) then SetIsOrderedList list false else list).

Definition Set_ (list : JSAPIList) (index : Z) (value : JSTaggedValue) : result (JSTaggedValue * JSAPIList) :=
  singleList ← GetSingleList list;
  nodeLength ← TaggedList.Length singleList;
  if nodeLength <=? 0 then Err ContainerEmpty else
  if (index <? 0) || (nodeLength <=? index) then Err IndexRange else
  singleList ← SingleList.Set_ singleList index value;
  list ← SetSingleList list false singleList;
  Ok (value, list).

Definition Has (list : JSAPIList) (element : JSTaggedValue) : result bool :=
  singleList ← GetSingleList list; SingleList.Has singleList element.

Definition IsEmpty (list : JSAPIList) : result bool := singleList ← GetSingleList list; SingleList.IsEmpty singleList.

Definition Get (list : JSAPIList) (index : Z) : result JSTaggedValue :=
  singleList ← GetSingleList list;
  nodeLength ← TaggedList.Length singleList;
  if (index <? 0) || (nodeLength <=? index) then Ok Undefined else SingleList.Get singleList index.

(** Puts the nodes in order first, when they are not. *)
Definition FastGet (list : JSAPIList) (index : Z) : result (JSTaggedValue * JSAPIList) :=
  singleList ← GetSingleList list;
  n ← TaggedList.Length singleList;
  if (index <? 0) || (n <=? index) then Ok (Undefined, list) else
  let dataIndex := ELEMENTS_START_INDEX + (index + 1) * ENTRY_SIZE SINGLE in
  if negb (IsOrderedList list) then
    newList ← SortByNodeOrder singleList;
    list ← SetSingleList list true newList;
    let list := SetIsOrderedList list true in
    Ok (GetElement newList dataIndex, list)
  else Ok (GetElement singleList dataIndex, list).

Definition GetIndexOf (list : JSAPIList) (element : JSTaggedValue) : result Z :=
  singleList ← GetSingleList list; FindIndexByElement singleList element.

Definition GetLastIndexOf (list : JSAPIList) (element : JSTaggedValue) : result Z :=
  singleList ← GetSingleList list; FindLastIndexByElement singleList element.

Definition Clear (list : JSAPIList) : result JSAPIList :=
  singleList ← GetSingleList list;
  n ← NumberOfNodes singleList;
  list ← (if 0 <? n then singleList ← TaggedList.Clear singleList; SetSingleList list false singleList else Ok list);
  Ok (SetIsOrderedList list true).

Definition RemoveByIndex (list : JSAPIList) (index : Z) : result (JSTaggedValue * JSAPIList) :=
  singleList ← GetSingleList list;
  nodeLength ← TaggedList.Length singleList;
  if nodeLength <=? 0 then Err ContainerEmpty else
  if (index <? 0) || (nodeLength <=? index) then Err IndexRange else
  let list := SetIsOrderedList list false in
  '(data, singleList) ← TaggedList.RemoveByIndex SINGLE singleList index;
  list ← SetSingleList list false singleList;
  Ok (data, list).

Definition Remove (list : JSAPIList) (element : JSTaggedValue) : result (bool * JSAPIList) :=
  singleList ← GetSingleList list;
  let list := SetIsOrderedList list false in
  '(res, singleList) ← SingleList.Remove singleList element;
  list ← SetSingleList list false singleList;
  Ok (res, list).

Definition Equal (list compareList : JSAPIList) : result bool :=
  compareList ← GetSingleList compareList;
  singleList ← GetSingleList list;
  SingleList.Equal singleList compareList.

Definition ConvertToArray (list : JSAPIList) : result Array :=
  singleList ← GetSingleList list; TaggedListToArray singleList.

Definition FromIndexRange : error := RangeError "The value of fromIndex is out of range.".
Definition ToIndexRange : error := RangeError "The value of toIndex is out of range.".

(** A new list object. *)
Definition GetSubList (list : JSAPIList) (fromIndex toIndex : Z) : result JSAPIList :=
  singleList ← GetSingleList list;
  nodeLength ← TaggedList.Length singleList;
  if nodeLength <=? 0 then Err ContainerEmpty else
  let size := if toIndex <? nodeLength then toIndex else nodeLength in
  if (fromIndex <? 0) || (size <=? fromIndex) then Err FromIndexRange else
  if (toIndex <? 0) || (toIndex <=? fromIndex) || (nodeLength <? toIndex) then Err ToIndexRange else
  let len := u32 (ELEMENTS_START_INDEX + (toIndex - fromIndex + 1) * ENTRY_SIZE SINGLE) in
  let newElement := replicate (Z.to_nat len) Hole in
  subSingleList ← SingleList.GetSubList singleList fromIndex toIndex newElement;
  Ok (mkList (mkArrays [subSingleList] 0) true).

Definition GetProperty (list : JSAPIList) (key : JSTaggedValue) : result JSTaggedValue :=
  singleList ← GetSingleList list;
  nodeLength ← TaggedList.Length singleList;
  match indexKeyOf key with
  | Int index => if (index <? 0) || (nodeLength <=? index) then Err IndexRange else SingleList.Get singleList index
  | _ => Err IndexType
  end.

(** The key is a Number. *)
Definition SetProperty (list : JSAPIList) (key value : JSTaggedValue) : result (bool * JSAPIList) :=
  singleList ← GetSingleList list;
  nodeLength ← TaggedList.Length singleList;
  let index := truncCast (GetNumber key) in
  if (index <? 0) || (nodeLength <=? index) then Ok (false, list) else
  singleList ← SingleList.Set_ singleList index value;
  list ← SetSingleList list false singleList;
  Ok (true, list).

(** *** Operations that call user code

    They keep the array [h] they started with, which is not the array of the list any more when the
    callback makes the list grow. *)

Definition readArray (list : JSAPIList) (h : nat) : result Array := deref (SingleList list) h.

Definition updateArray (list : JSAPIList) (h : nat) (a : Array) : result JSAPIList :=
  s ← writeArray (SingleList list) h a; Ok (mkList s (IsOrderedList list)).

Definition ReplaceAllElements {W} (list : JSAPIList) (callbackFn : Callback W JSAPIList) (w : W) : result (W * JSAPIList) :=
  let h := present (SingleList list) in
  taggedList ← readArray list h;
  length ← NumberOfNodes taggedList;
  '(_, w, list) ← for_up (Z.to_nat length) 0 (fun k '(dataIndex, w, list) =>
    taggedList ← readArray list h;
    dataIndex ← GetNextDataIndex taggedList dataIndex;
    let kValue := GetElement taggedList dataIndex in
    '(funcResult, w, list) ← callbackFn w list kValue (Z.of_nat k);
    taggedList ← readArray list h;
    taggedList ← SingleList.Set_ taggedList (Z.of_nat k) funcResult;
    list ← updateArray list h taggedList;
    Ok (dataIndex, w, list)) (ELEMENTS_START_INDEX, w, list);
  Ok (w, list).

Section Sort.
  Context {W : Type}.
  Variable ToString : StringConversion W JSAPIList.
  Variable callbackFn : option (Comparator W JSAPIList).
  Variable h : nat.
  Variable nodeIndexMapToDataIndex : list Z.

(** The element of node [i], in the array as it is now. *)
Definition nodeValue (st : SortState W JSAPIList) (i : nat) : result JSTaggedValue :=
  taggedList ← readArray (container st) h;
  dataIndex ← get nodeIndexMapToDataIndex i;
  Ok (GetElement taggedList dataIndex).

(** [while (beginIndex < endIndex)]; returns [endIndex]. *)
Fixpoint insertionPoint (fuel : nat) (presentValue : JSTaggedValue) (beginIndex endIndex : nat) (st : SortState W JSAPIList)
  : result (nat * SortState W JSAPIList) :=
  if (beginIndex <? endIndex)%nat then
    match fuel with
    | O => Err OutOfFuel
    | S fuel =>
      let middleIndex := ((beginIndex + endIndex) / 2)%nat in
      middleValue ← nodeValue st middleIndex;
      let '(compareResult, st) := SortCompare ToString callbackFn st middleValue presentValue in
      match exception st with
      | Some e => Err e
      | None =>
        match compareResult with
        | Gt => insertionPoint fuel presentValue beginIndex middleIndex st
        | _ => insertionPoint fuel presentValue (middleIndex + 1) endIndex st
        end
      end
    end
  else Ok (endIndex, st).

(** [for (j = i; j > endIndex; j--)], and the write after it. *)
Definition moveInto (taggedList : Array) (i endIndex : nat) (presentValue : JSTaggedValue) : result Array :=
  taggedList ← for_down (i - endIndex) (fun t taggedList =>
    let j := (endIndex + t + 1)%nat in
    previous ← get nodeIndexMapToDataIndex (j - 1);
    dataIndex ← get nodeIndexMapToDataIndex j;
    Ok (SetElement taggedList dataIndex (GetElement taggedList previous))) taggedList;
  dataIndex ← get nodeIndexMapToDataIndex endIndex;
  Ok (SetElement taggedList dataIndex presentValue).

Definition sortRound (i : nat) (st : SortState W JSAPIList) : result (SortState W JSAPIList) :=
  presentValue ← nodeValue st i;
  '(endIndex, st) ← insertionPoint i presentValue 0 i st;
  if (endIndex <? i)%nat then
    taggedList ← readArray (container st) h;
    taggedList ← moveInto taggedList i endIndex presentValue;
    list ← updateArray (container st) h taggedList;
    Ok (mkSortState (world st) list (exception st))
  else Ok st.
End Sort.

(** [TaggedSingleList::Sort] *)
Definition SingleSort {W} (ToString : StringConversion W JSAPIList) (callbackFn : option (Comparator W JSAPIList)) (h : nat)
    (w : W) (list : JSAPIList) : result (W * JSAPIList) :=
  taggedList ← readArray list h;
  length ← NumberOfNodes taggedList;
  let minSortLength := 2 in
  if length <? minSortLength then Ok (w, list) else
  nodeIndexMapToDataIndex ← MapNodeIndexToDataIndex taggedList length;
  st ← for_up (Z.to_nat (length - 1)) 1 (sortRound ToString callbackFn h nodeIndexMapToDataIndex) (mkSortState w list None);
  Ok (world st, container st).

Definition Sort {W} (ToString : StringConversion W JSAPIList) (callbackFn : option (Comparator W JSAPIList))
    (w : W) (list : JSAPIList) : result (W * JSAPIList) :=
  let h := present (SingleList list) in
  let list := SetIsOrderedList list false in
  SingleSort ToString callbackFn h w list.

(** *** Methods *)

(** An argument that is made an [int]. *)
Definition intArgument (typeError : error) (index : JSTaggedValue) : result Z :=
  match indexKeyOf index with Int i => Ok i | _ => Err typeError end.

Definition FromIndexType : error := TypeError "The type of fromIndex must be number.".
Definition ToIndexType : error := TypeError "The type of toIndex must be number.".

Definition list_add (self : Receiver JSAPIList) (value : JSTaggedValue) : result (bool * JSAPIList) :=
  list ← receive "add" self; list ← Add list value; Ok (true, list).
Definition list_insert (self : Receiver JSAPIList) (value index : JSTaggedValue) : result (bool * JSAPIList) :=
  list ← receive "insert" self; index ← intArgument IndexType index; list ← Insert list value index; Ok (true, list).
Definition list_getFirst (self : Receiver JSAPIList) : result JSTaggedValue := list ← receive "getFirst" self; GetFirst list.
Definition list_getLast (self : Receiver JSAPIList) : result JSTaggedValue := list ← receive "getLast" self; GetLast list.
Definition list_has (self : Receiver JSAPIList) (element : JSTaggedValue) : result bool := list ← receive "has" self; Has list element.
Definition list_isEmpty (self : Receiver JSAPIList) : result bool := list ← receive "isEmpty" self; IsEmpty list.
Definition list_get (self : Receiver JSAPIList) (index : JSTaggedValue) : result JSTaggedValue :=
  list ← receive "get" self; index ← intArgument IndexType index; Get list index.
Definition list_getIndexOf (self : Receiver JSAPIList) (element : JSTaggedValue) : result Z :=
  list ← receive "getIndexOf" self; GetIndexOf list element.
Definition list_getLastIndexOf (self : Receiver JSAPIList) (element : JSTaggedValue) : result Z :=
  list ← receive "getLastIndexOf" self; GetLastIndexOf list element.
Definition list_set (self : Receiver JSAPIList) (index element : JSTaggedValue) : result (JSTaggedValue * JSAPIList) :=
  list ← receive "set" self; index ← intArgument IndexType index; Set_ list index element.
Definition list_clear (self : Receiver JSAPIList) : result JSAPIList := list ← receive "clear" self; Clear list.
Definition list_removeByIndex (self : Receiver JSAPIList) (index : JSTaggedValue) : result (JSTaggedValue * JSAPIList) :=
  list ← receive "removeByIndex" self; index ← intArgument IndexType index; RemoveByIndex list index.
Definition list_remove (self : Receiver JSAPIList) (element : JSTaggedValue) : result (bool * JSAPIList) :=
  list ← receive "remove" self; Remove list element.
Definition list_convertToArray (self : Receiver JSAPIList) : result Array := list ← receive "convertToArray" self; ConvertToArray list.
Definition list_getSubList (self : Receiver JSAPIList) (fromIndex toIndex : JSTaggedValue) : result JSAPIList :=
  list ← receive "getSubList" self;
  fromIndex ← intArgument FromIndexType fromIndex;
  toIndex ← intArgument ToIndexType toIndex;
  GetSubList list fromIndex toIndex.
Definition list_length (self : Receiver JSAPIList) : result Z :=
  list ← receive "getLength" self; singleList ← GetSingleList list; TaggedList.Length singleList.

(** An argument that is no list is not equal. *)
Definition list_equal (self obj : Receiver JSAPIList) : result bool :=
  list ← receive "equal" self;
  match obj with This other | ProxyOf other => Equal list other | OtherValue => Ok false end.

Definition list_iterator (self : Receiver JSAPIList) : result ListIterator :=
  list ← receive "Symbol.iterator" self; Ok (newIterator (SingleList list)).

(** [callbackfn] is [None] when it is not callable. *)
Definition list_forEach {W} (self : Receiver JSAPIList) (callbackfn : option (Callback W JSAPIList)) (w : W) : result (W * JSAPIList) :=
  list ← receive "forEach" self;
  match callbackfn with
  | None => Err NotCallable
  | Some f =>
    let h := present (SingleList list) in
    singleList ← readArray list h;
    length ← TaggedList.Length singleList;
    '(_, w, list) ← for_up (Z.to_nat (u32 length)) 0 (fun index '(valueNode, w, list) =>
      singleList ← readArray list h;
      valueNode ← GetNextDataIndex singleList valueNode;
      let value := GetElement singleList valueNode in
      '(_, w, list) ← f w list value (Z.of_nat index);
      Ok (valueNode, w, list)) (ELEMENTS_START_INDEX, w, list);
    Ok (w, list)
  end.

Definition list_replaceAllElements {W} (self : Receiver JSAPIList) (callbackfn : option (Callback W JSAPIList)) (w : W)
  : result (W * JSAPIList) :=
  list ← receive "replaceAllElements" self;
  match callbackfn with None => Err NotCallable | Some f => ReplaceAllElements list f w end.

(** Null is not accepted here: it counts among the other arguments. *)
Definition list_sort {W} (ToString : StringConversion W JSAPIList) (self : Receiver JSAPIList)
    (callbackFn : ComparatorArg W JSAPIList) (w : W) : result (W * JSAPIList) :=
  list ← receive "sort" self;
  match callbackFn with
  | OtherArg => Err ComparatorType
  | UndefinedOrNull => Sort ToString None w list
  | Callable fn => Sort ToString (Some fn) w list
  end.
