(* ===== verification/LinkedListContainer.v ===== *)
(** * The linked list container

    [JSAPILinkedList] of src/ecmascript/js_api/js_api_linked_list.h and js_api_linked_list.cpp, its
    iterator (js_api_linked_list_iterator.cpp) and the methods of
    src/ecmascript/containers/containers_linked_list.cpp.  The list is doubly linked. *)

From Stdlib Require Import ZArith Lia.
From S2P Require Import Prelude Double Values Containers TaggedArray TaggedList DoubleList.

(** ** Model *)

Record JSAPILinkedList := mkLinkedList { DoubleList : Arrays }.

Definition LinkedListConstructor (newTarget : bool) : result JSAPILinkedList :=
  if negb newTarget then Err (DirectCall "The LinkedList") else
  doubleList ← DoubleCreate;
  Ok (mkLinkedList (mkArrays [doubleList] 0)).

Definition GetDoubleList (list : JSAPILinkedList) : result Array := presentArray (DoubleList list).

Definition SetDoubleList (list : JSAPILinkedList) (isNew : bool) (a : Array) : result JSAPILinkedList :=
  s ← setPresent (DoubleList list) isNew a; Ok (mkLinkedList s).

Definition EmptyList : error := IsEmptyError "Container is empty".

Definition Insert (list : JSAPILinkedList) (value : JSTaggedValue) (index : Z) : result (bool * JSAPILinkedList) :=
  doubleList ← GetDoubleList list;
  nodeLength ← Length doubleList;
  if (index <? 0) || (nodeLength <? index) then Err IndexRange else
  '(isNew, newList) ← DoubleList.Insert doubleList value index;
  list ← SetDoubleList list isNew newList;
  Ok (true, list).

Definition Clear (list : JSAPILinkedList) : result JSAPILinkedList :=
  doubleList ← GetDoubleList list;
  n ← NumberOfNodes doubleList;
  if 0 <? n then doubleList ← DoubleClear doubleList; SetDoubleList list false doubleList else Ok list.

(** A new list object: the used part of the array, deleted nodes included. *)
Definition Clone (list : JSAPILinkedList) : result JSAPILinkedList :=
  srcDoubleList ← GetDoubleList list;
  n ← NumberOfNodes srcDoubleList;
  d ← NumberOfDeletedNodes srcDoubleList;
  let numberOfNodes := u32 n in
  let numberOfDeletedNodes := u32 d in
  let effectiveCapacity := u32 (ELEMENTS_START_INDEX + (numberOfNodes + numberOfDeletedNodes + 1) * ENTRY_SIZE DOUBLE) in
  dstTaggedArray ← NewAndCopyTaggedArray srcDoubleList effectiveCapacity effectiveCapacity 0;
  Ok (mkLinkedList (mkArrays [dstTaggedArray] 0)).

Definition RemoveFirst (list : JSAPILinkedList) : result (JSTaggedValue * JSAPILinkedList) :=
  doubleList ← GetDoubleList list;
  nodeLength ← Length doubleList;
  if nodeLength <=? 0 then Err EmptyList else
  '(data, doubleList) ← DoubleList.RemoveFirst doubleList;
  list ← SetDoubleList list false doubleList;
  Ok (data, list).

Definition RemoveLast (list : JSAPILinkedList) : result (JSTaggedValue * JSAPILinkedList) :=
  doubleList ← GetDoubleList list;
  nodeLength ← Length doubleList;
  if nodeLength <=? 0 then Err EmptyList else
  '(data, doubleList) ← DoubleList.RemoveLast doubleList;
  list ← SetDoubleList list false doubleList;
  Ok (data, list).

Definition RemoveByIndex (list : JSAPILinkedList) (index : Z) : result (JSTaggedValue * JSAPILinkedList) :=
  doubleList ← GetDoubleList list;
  nodeLength ← Length doubleList;
  if nodeLength <=? 0 then Err ContainerEmpty else
  if (index <? 0) || (nodeLength <=? index) then Err IndexRange else
  '(data, doubleList) ← DoubleRemoveByIndex doubleList index;
  list ← SetDoubleList list false doubleList;
  Ok (data, list).

Definition Remove (list : JSAPILinkedList) (element : JSTaggedValue) : result (bool * JSAPILinkedList) :=
  doubleList ← GetDoubleList list;
  nodeLength ← Length doubleList;
  if nodeLength <? 0 then Ok (false, list) else
  '(res, doubleList) ← DoubleList.Remove doubleList element;
  list ← SetDoubleList list false doubleList;
  Ok (res, list).

Definition RemoveFirstFound (list : JSAPILinkedList) (element : JSTaggedValue) : result (bool * JSAPILinkedList) :=
  doubleList ← GetDoubleList list;
  nodeLength ← Length doubleList;
  if nodeLength <=? 0 then Err EmptyList else
  '(res, doubleList) ← DoubleList.RemoveFirstFound doubleList element;
  list ← SetDoubleList list false doubleList;
  Ok (res, list).

Definition RemoveLastFound (list : JSAPILinkedList) (element : JSTaggedValue) : result (bool * JSAPILinkedList) :=
  doubleList ← GetDoubleList list;
  nodeLength ← Length doubleList;
  if nodeLength <? 0 then Err EmptyList else
  '(res, doubleList) ← DoubleList.RemoveLastFound doubleList element;
  list ← SetDoubleList list false doubleList;
  Ok (res, list).

Definition Add (list : JSAPILinkedList) (value : JSTaggedValue) : result JSAPILinkedList :=
  doubleList ← GetDoubleList list;
  '(isNew, newLinkedList) ← DoubleList.Add doubleList value;
  SetDoubleList list isNew newLinkedList.

Definition AddFirst (list : JSAPILinkedList) (value : JSTaggedValue) : result JSAPILinkedList :=
  doubleList ← GetDoubleList list;
  '(isNew, newLinkedList) ← DoubleList.AddFirst doubleList value;
  SetDoubleList list isNew newLinkedList.

Definition GetFirst (list : JSAPILinkedList) : result JSTaggedValue :=
  doubleList ← GetDoubleList list; res ← TaggedList.GetFirst doubleList; Ok (if IsHole res then Undefined else res).

Definition GetLast (list : JSAPILinkedList) : result JSTaggedValue :=
  doubleList ← GetDoubleList list; res ← TaggedList.GetLast doubleList; Ok (if IsHole res then Undefined else res).

Definition Set_ (list : JSAPILinkedList) (index : Z) (value : JSTaggedValue) : result (JSTaggedValue * JSAPILinkedList) :=
  doubleList ← GetDoubleList list;
  nodeLength ← Length doubleList;
  if nodeLength <=? 0 then Err ContainerEmpty else
  if (index <? 0) || (nodeLength <=? index) then Err IndexRange else
  doubleList ← DoubleList.Set_ doubleList index value;
  list ← SetDoubleList list false doubleList;
  Ok (value, list).

Definition Has (list : JSAPILinkedList) (element : JSTaggedValue) : result bool :=
  doubleList ← GetDoubleList list; DoubleList.Has doubleList element.

Definition Get (list : JSAPILinkedList) (index : Z) : result JSTaggedValue :=
  doubleList ← GetDoubleList list;
  nodeLength ← Length doubleList;
  if (index <? 0) || (nodeLength <=? index) then Ok Undefined else DoubleList.Get doubleList index.

Definition GetIndexOf (list : JSAPILinkedList) (element : JSTaggedValue) : result Z :=
  doubleList ← GetDoubleList list; FindIndexByElement doubleList element.

Definition GetLastIndexOf (list : JSAPILinkedList) (element : JSTaggedValue) : result Z :=
  doubleList ← GetDoubleList list; FindLastIndexByElement doubleList element.

Definition ConvertToArray (list : JSAPILinkedList) : result Array :=
  doubleList ← GetDoubleList list; TaggedListToArray doubleList.

Definition GetProperty (list : JSAPILinkedList) (key : JSTaggedValue) : result JSTaggedValue :=
  doubleList ← GetDoubleList list;
  nodeLength ← Length doubleList;
  match indexKeyOf key with
  | Int index => if (index <? 0) || (nodeLength <=? index) then Err IndexRange else DoubleList.Get doubleList index
  | _ => Err IndexType
  end.

Definition SetProperty (list : JSAPILinkedList) (key value : JSTaggedValue) : result (bool * JSAPILinkedList) :=
  doubleList ← GetDoubleList list;
  nodeLength ← Length doubleList;
  match indexKeyOf key with
  | Int index =>
    if (index <? 0) || (nodeLength <=? index) then Ok (false, list) else
    doubleList ← DoubleList.Set_ doubleList index value;
    list ← SetDoubleList list false doubleList;
    Ok (true, list)
  | _ => Ok (false, list)
  end.

(** *** Methods *)

Definition indexArgument (index : JSTaggedValue) : result Z :=
  match indexKeyOf index with Int i => Ok i | _ => Err IndexType end.

Definition linked_add (self : Receiver JSAPILinkedList) (value : JSTaggedValue) : result (bool * JSAPILinkedList) :=
  list ← receive "add" self; list ← Add list value; Ok (true, list).
Definition linked_addFirst (self : Receiver JSAPILinkedList) (value : JSTaggedValue) : result (bool * JSAPILinkedList) :=
  list ← receive "addFirst" self; list ← AddFirst list value; Ok (true, list).
Definition linked_getFirst (self : Receiver JSAPILinkedList) : result JSTaggedValue := list ← receive "getFirst" self; GetFirst list.
Definition linked_getLast (self : Receiver JSAPILinkedList) : result JSTaggedValue := list ← receive "getLast" self; GetLast list.
Definition linked_length (self : Receiver JSAPILinkedList) : result Z :=
  list ← receive "getLength" self; doubleList ← GetDoubleList list; Length doubleList.
Definition linked_insert (self : Receiver JSAPILinkedList) (index value : JSTaggedValue) : result (bool * JSAPILinkedList) :=
  list ← receive "insert" self; index ← indexArgument index; Insert list value index.
Definition linked_clear (self : Receiver JSAPILinkedList) : result JSAPILinkedList := list ← receive "clear" self; Clear list.
Definition linked_clone (self : Receiver JSAPILinkedList) : result JSAPILinkedList := list ← receive "clone" self; Clone list.
Definition linked_has (self : Receiver JSAPILinkedList) (element : JSTaggedValue) : result bool :=
  list ← receive "has" self; Has list element.
Definition linked_get (self : Receiver JSAPILinkedList) (index : JSTaggedValue) : result JSTaggedValue :=
  list ← receive "get" self; index ← indexArgument index; Get list index.
Definition linked_getIndexOf (self : Receiver JSAPILinkedList) (element : JSTaggedValue) : result Z :=
  list ← receive "getIndexOf" self; GetIndexOf list element.
Definition linked_getLastIndexOf (self : Receiver JSAPILinkedList) (element : JSTaggedValue) : result Z :=
  list ← receive "getLastIndexOf" self; GetLastIndexOf list element.
Definition linked_removeByIndex (self : Receiver JSAPILinkedList) (index : JSTaggedValue) : result (JSTaggedValue * JSAPILinkedList) :=
  list ← receive "removeByIndex" self; index ← indexArgument index; RemoveByIndex list index.
Definition linked_remove (self : Receiver JSAPILinkedList) (element : JSTaggedValue) : result (bool * JSAPILinkedList) :=
  list ← receive "remove" self; Remove list element.
Definition linked_removeFirst (self : Receiver JSAPILinkedList) : result (JSTaggedValue * JSAPILinkedList) :=
  list ← receive "removeFirst" self; RemoveFirst list.
Definition linked_removeFirstFound (self : Receiver JSAPILinkedList) (element : JSTaggedValue) : result (bool * JSAPILinkedList) :=
  list ← receive "removeFirstFound" self; RemoveFirstFound list element.
Definition linked_removeLast (self : Receiver JSAPILinkedList) : result (JSTaggedValue * JSAPILinkedList) :=
  list ← receive "removeLast" self; RemoveLast list.
Definition linked_removeLastFound (self : Receiver JSAPILinkedList) (element : JSTaggedValue) : result (bool * JSAPILinkedList) :=
  list ← receive "removeLastFound" self; RemoveLastFound list element.
Definition linked_set (self : Receiver JSAPILinkedList) (index element : JSTaggedValue) : result (JSTaggedValue * JSAPILinkedList) :=
  list ← receive "set" self; index ← indexArgument index; Set_ list index element.
Definition linked_convertToArray (self : Receiver JSAPILinkedList) : result Array :=
  list ← receive "convertToArray" self; ConvertToArray list.
Definition linked_iterator (self : Receiver JSAPILinkedList) : result ListIterator :=
  list ← receive "Symbol.iterator" self; Ok (newIterator (DoubleList list)).

(** [callbackfn] is [None] when it is not callable; the array is the one the method started with. *)
Definition linked_forEach {W} (self : Receiver JSAPILinkedList) (callbackfn : option (Callback W JSAPILinkedList)) (w : W)
  : result (W * JSAPILinkedList) :=
  list ← receive "forEach" self;
  match callbackfn with
  | None => Err NotCallable
  | Some f =>
    let h := present (DoubleList list) in
    doubleList ← deref (DoubleList list) h;
    length ← Length doubleList;
    '(_, w, list) ← for_up (Z.to_nat (u32 length)) 0 (fun index '(valueNode, w, list) =>
      doubleList ← deref (DoubleList list) h;
      valueNode ← GetNextDataIndex doubleList valueNode;
      let value := GetElement doubleList valueNode in
      '(_, w, list) ← f w list value (Z.of_nat index);
      Ok (valueNode, w, list)) (ELEMENTS_START_INDEX, w, list);
    Ok (w, list)
  end.
