(* ===== verification/ListContainerCorrect.v ===== *)
(** * The list container: the list it is observed as

    Along any sequence of calls a [JSAPIList] is observed as a list of values; whether an element is
    found by a walk or by its position in the array makes no difference. *)

From Stdlib Require Import ZArith Lia.
From S2P Require Import Prelude Double Values BigIntNum NumberHelper Containers TaggedArray TaggedList SingleList ListRep JSAPIList.

(** ** Arrays of a list object *)

Lemma setPresent_returns s isNew a a0 : presentArray s = Ok a0 -> returns (setPresent s isNew a) (fun s' => presentArray s' = Ok a).
Proof.
  intros Hs. unfold setPresent, writeArray. unfold presentArray, deref, get in *. destruct isNew; cbn [returns].
  - cbn [allArrays present]. by rewrite list_lookup_middle.
  - destruct (allArrays s !! present s) as [x|] eqn:E; [|done]. apply lookup_lt_Some in E.
    apply bind_set; [done|]. apply returns_ok. cbn [allArrays present]. by rewrite list_lookup_insert_eq.
Qed.

Lemma SameValue_Hole x : x <> Hole -> SameValue Hole x = false.
Proof. by destruct x. Qed.

(** ** Specification *)

Inductive ListOp :=
| OpAdd (v : JSTaggedValue)
| OpInsert (v index : JSTaggedValue)
| OpGetFirst
| OpGetLast
| OpHas (v : JSTaggedValue)
| OpIsEmpty
| OpGet (index : JSTaggedValue)
| OpGetIndexOf (v : JSTaggedValue)
| OpGetLastIndexOf (v : JSTaggedValue)
| OpSet (index v : JSTaggedValue)
| OpClear
| OpRemoveByIndex (index : JSTaggedValue)
| OpRemove (v : JSTaggedValue)
| OpConvertToArray
| OpGetSubList (fromIndex toIndex : JSTaggedValue)
| OpLength
| OpGetAt (key : JSTaggedValue)
| OpSetAt (key v : JSTaggedValue)
| OpFastGet (index : Z).

(** The values a program passes are no holes.  Clearing an empty list marks it as ordered, which it
    is not when nodes were removed from it; so sequences that clear ([trusted = false]) may not use
    [FastGet], which relies on the mark. *)
Definition okListOp (trusted : bool) (op : ListOp) : Prop :=
  match op with
  | OpAdd v | OpInsert v _ | OpSet _ v | OpRemove v | OpSetAt _ v => v <> Hole
  | OpClear => trusted = false
  | OpFastGet _ => trusted = true
  | _ => True
  end.

Definition listContainerStep (l : JSAPIList) (op : ListOp) : Observation * JSAPIList :=
  match op with
  | OpAdd v => observe l Truth (list_add (This l) v)
  | OpInsert v index => observe l Truth (list_insert (This l) v index)
  | OpGetFirst => observeRead l Value (list_getFirst (This l))
  | OpGetLast => observeRead l Value (list_getLast (This l))
  | OpHas v => observeRead l Truth (list_has (This l) v)
  | OpIsEmpty => observeRead l Truth (list_isEmpty (This l))
  | OpGet index => observeRead l Value (list_get (This l) index)
  | OpGetIndexOf v => observeRead l Count (list_getIndexOf (This l) v)
  | OpGetLastIndexOf v => observeRead l Count (list_getLastIndexOf (This l) v)
  | OpSet index v => observe l Value (list_set (This l) index v)
  | OpClear => observeUpdate l (list_clear (This l))
  | OpRemoveByIndex index => observe l Value (list_removeByIndex (This l) index)
  | OpRemove v => observe l Truth (list_remove (This l) v)
  | OpConvertToArray => observeRead l Elements_ (list_convertToArray (This l))
  | OpGetSubList fromIndex toIndex => observeRead l Elements_ (sub ← list_getSubList (This l) fromIndex toIndex; ConvertToArray sub)
  | OpLength => observeRead l Count (list_length (This l))
  | OpGetAt key => observeRead l Value (GetProperty l key)
  | OpSetAt key v => observe l Truth (SetProperty l key v)
  | OpFastGet index => observe l Value (FastGet l index)
  end.

(** The element at an [int] position, if there is one. *)
Definition lookupInt (l : list JSTaggedValue) (i : Z) : option JSTaggedValue := if i <? 0 then None else l !! Z.to_nat i.

(** The operation on an integer argument, or the error of its type. *)
Definition withInt (l : list JSTaggedValue) (e : error) (index : JSTaggedValue) (f : Z -> Observation * list JSTaggedValue) : Observation * list JSTaggedValue :=
  match indexKeyOf index with Int i => f i | _ => (Throws e, l) end.

Definition removeFirstEqual (v : JSTaggedValue) (l : list JSTaggedValue) : list JSTaggedValue :=
  let i := indexWhere (fun u => SameValue u v) l in if i <? 0 then l else delete (Z.to_nat i) l.

Definition abstractListStep (l : list JSTaggedValue) (op : ListOp) : Observation * list JSTaggedValue :=
  let n := Z.of_nat (length l) in
  match op with
  | OpAdd v => (Truth true, l ++ [v])
  | OpInsert v index => withInt l IndexType index (fun i =>
      if (0 <=? i) && (i <=? n) then (Truth true, take (Z.to_nat i) l ++ v :: drop (Z.to_nat i) l) else (Throws IndexRange, l))
  | OpGetFirst => (Value (default Undefined (head l)), l)
  | OpGetLast => (Value (default Undefined (last l)), l)
  | OpHas v => (Truth (existsb (fun u => SameValue u v) l), l)
  | OpIsEmpty => (Truth (n =? 0), l)
  | OpGet index => withInt l IndexType index (fun i => (Value (default Undefined (lookupInt l i)), l))
  | OpGetIndexOf v => (Count (indexWhere (fun u => SameValue u v) l), l)
  | OpGetLastIndexOf v => (Count (lastIndexWhere (fun u => SameValue u v) l), l)
  | OpSet index v => withInt l IndexType index (fun i =>
      if n =? 0 then (Throws ContainerEmpty, l) else
      if (0 <=? i) && (i <? n) then (Value v, <[Z.to_nat i := v]> l) else (Throws IndexRange, l))
  | OpClear => (Nothing, [])
  | OpRemoveByIndex index => withInt l IndexType index (fun i =>
      if n =? 0 then (Throws ContainerEmpty, l) else
      match lookupInt l i with Some v => (Value v, delete (Z.to_nat i) l) | None => (Throws IndexRange, l) end)
  | OpRemove v => (Truth (existsb (fun u => SameValue u v) l), removeFirstEqual v l)
  | OpConvertToArray => (Elements_ l, l)
  | OpGetSubList fromIndex toIndex => withInt l FromIndexType fromIndex (fun from => withInt l ToIndexType toIndex (fun to =>
      if n =? 0 then (Throws ContainerEmpty, l) else
      if (0 <=? from) && (from <? Z.min to n) then
        if to <=? n then (Elements_ (take (Z.to_nat (to - from)) (drop (Z.to_nat from) l)), l) else (Throws ToIndexRange, l)
      else (Throws FromIndexRange, l)))
  | OpLength => (Count n, l)
  | OpGetAt key => withInt l IndexType key (fun i =>
      match lookupInt l i with Some v => (Value v, l) | None => (Throws IndexRange, l) end)
  | OpSetAt key v =>
      let i := truncCast (GetNumber key) in
      if (0 <=? i) && (i <? n) then (Truth true, <[Z.to_nat i := v]> l) else (Truth false, l)
  | OpFastGet i => (Value (default Undefined (lookupInt l i)), l)
  end.

(** ** Simulation *)

(** The list object [l] holds [vs]; when [trusted], its mark is right about the order of the nodes. *)
Definition listRep (trusted : bool) (l : JSAPIList) (vs : list JSTaggedValue) : Prop :=
  exists a, GetSingleList l = Ok a /\ singleRep (trusted && IsOrderedList l) a vs /\ noHoles vs.

Lemma singleRep_weaken o a vs : singleRep o a vs -> singleRep false a vs.
Proof. intros (ns & del & cap & Hi & Hv & _). by exists ns, del, cap. Qed.

Lemma noHoles_delete vs i : noHoles vs -> noHoles (delete i vs).
Proof. intros H. rewrite delete_take_drop. apply Forall_app. split; [by apply Forall_take|by apply Forall_drop]. Qed.

Lemma length_delete_le {A} (l : list A) i : (length (delete i l) <= length l)%nat.
Proof. rewrite delete_take_drop, length_app, length_take, length_drop. lia. Qed.

Lemma noHoles_insert vs i v : noHoles vs -> v <> Hole -> noHoles (<[i := v]> vs).
Proof. intros H Hv. by apply Forall_insert. Qed.

Lemma noHoles_add vs i v : noHoles vs -> v <> Hole -> noHoles (take i vs ++ v :: drop i vs).
Proof. intros H Hv. apply Forall_app. split; [by apply Forall_take|]. apply Forall_cons. split; [done|by apply Forall_drop]. Qed.

Lemma holeToUndefined_default v : v <> Some Hole -> holeToUndefined (default Hole v) = default Undefined v.
Proof. by destruct v as [[]|]. Qed.

Lemma head_noHole vs : noHoles vs -> head vs <> Some Hole.
Proof. intros H. destruct vs; [done|]. apply Forall_cons in H as [H _]. intros [= ->]. done. Qed.

Lemma last_noHole vs : noHoles vs -> last vs <> Some Hole.
Proof. intros H E. rewrite last_lookup in E. by apply (Forall_lookup_1 _ _ _ _ H E). Qed.

(** The bounds checks of the methods. *)
Lemma outOfBounds_eq i n : ((i <? 0) || (n <=? i)) = negb ((0 <=? i) && (i <? n)).
Proof. destruct (Z.ltb_spec i 0), (Z.leb_spec n i), (Z.leb_spec 0 i), (Z.ltb_spec i n); lia || done. Qed.

Lemma beyond_eq i n : ((i <? 0) || (n <? i)) = negb ((0 <=? i) && (i <=? n)).
Proof. destruct (Z.ltb_spec i 0), (Z.ltb_spec n i), (Z.leb_spec 0 i), (Z.leb_spec i n); lia || done. Qed.

Lemma inBounds_nat i n : ((0 <=? i) && (i <? Z.of_nat n)) = true -> exists j, i = Z.of_nat j /\ (j < n)%nat.
Proof. intros H. exists (Z.to_nat i). lia. Qed.

Lemma lookupInt_in l i : ((0 <=? i) && (i <? Z.of_nat (length l))) = match lookupInt l i with Some _ => true | None => false end.
Proof.
  unfold lookupInt. destruct (Z.leb_spec 0 i), (Z.ltb_spec i 0); try lia; cbn [andb]; try done.
  destruct (Z.ltb_spec i (Z.of_nat (length l))).
  - destruct (lookup_lt_is_Some_2 l (Z.to_nat i)) as [v ->]; [lia|done].
  - by rewrite lookup_ge_None_2 by lia.
Qed.

Section Step.
  Context (trusted : bool) (l : JSAPIList) (vs : list JSTaggedValue).
  Hypothesis Hl : listRep trusted l vs.
  Hypothesis Hn : Z.of_nat (length vs) < 2 ^ 27.

(** Storing an array that holds [ws], with a mark that is right about it. *)
Lemma storeList_returns {B} (b : B) isNew a ws o flag : singleRep o a ws -> noHoles ws -> (trusted && flag = true -> o = true) ->
  returns (l' ← SetSingleList l isNew a; Ok (b, SetIsOrderedList l' flag)) (fun '(b', l') => b' = b /\ listRep trusted l' ws).
Proof.
  intros Ha Hv Ho. destruct Hl as (a0 & E & _). unfold SetSingleList. rewrite bind_assoc. eapply returns_bind; [exact (setPresent_returns _ _ a _ E)|].
  intros s Hs. rewrite bind_Ok. apply returns_ok. split; [done|]. exists a. split_and!; [exact Hs| |done].
  cbn [IsOrderedList SetIsOrderedList]. destruct (trusted && flag); [by rewrite Ho in Ha|by eapply singleRep_weaken].
Qed.

Lemma keepMark {B} (b : B) isNew a : (l' ← SetSingleList l isNew a; Ok (b, l')) = (l' ← SetSingleList l isNew a; Ok (b, SetIsOrderedList l' (IsOrderedList l))).
Proof. unfold SetSingleList. rewrite !bind_assoc. by destruct (setPresent (SingleList l) isNew a). Qed.

Lemma ListAdd_returns v : v <> Hole -> returns (list_add (This l) v) (fun '(b, l') => b = true /\ listRep trusted l' (vs ++ [v])).
Proof.
  intros Hv. pose proof Hl as (a & E & Ha & Hh). unfold list_add, Add. cbn [receive]. rewrite bind_Ok, E, bind_Ok, bind_assoc.
  eapply returns_bind; [exact (singleAdd_returns _ _ _ Ha v Hn)|]. intros [isNew a'] Ha'. rewrite keepMark.
  apply (storeList_returns true isNew a' _ _ _ Ha'); [|done]. apply Forall_app. split; [done|by apply Forall_singleton].
Qed.

Lemma Insert_returns v i : v <> Hole ->
  if (0 <=? i) && (i <=? Z.of_nat (length vs))
  then returns (Insert l v i) (fun l' => listRep trusted l' (take (Z.to_nat i) vs ++ v :: drop (Z.to_nat i) vs))
  else Insert l v i = Err IndexRange.
Proof.
  intros Hv. pose proof Hl as (a & E & Ha & Hh). unfold Insert. rewrite E, bind_Ok. unfold TaggedList.Length.
  rewrite (singleNodes_eq _ _ _ Ha), bind_Ok, beyond_eq. destruct ((0 <=? i) && (i <=? Z.of_nat (length vs))) eqn:Ei; cbn [negb]; [|done].
  assert (exists j, i = Z.of_nat j) as [j ->] by (exists (Z.to_nat i); lia). rewrite Nat2Z.id. assert (j <= length vs)%nat as Hj by lia.
  eapply returns_bind; [exact (singleInsert_returns _ _ _ Ha v j Hj Hn)|]. intros [isNew a'] Ha'.
  unfold SetSingleList. rewrite bind_assoc. eapply returns_bind; [exact (setPresent_returns _ _ a' _ E)|]. intros s Hs. rewrite bind_Ok.
  apply returns_ok. exists a'. pose proof (noHoles_add _ j _ Hh Hv) as Hh'.
  destruct (Z.eqb_spec (Z.of_nat j) (Z.of_nat (length vs))) as [Eq|Eq]; cbn [negb]; (split_and!; [exact Hs| |done]); cbn [IsOrderedList SetIsOrderedList].
  - replace (j =? length vs)%nat with true in Ha' by (symmetry; apply Nat.eqb_eq; lia). by rewrite andb_true_r in Ha'.
  - rewrite andb_false_r. by eapply singleRep_weaken.
Qed.

(** The end of [Set_] and [SetProperty]. *)
Lemma setStore_returns {B} (b : B) i v a : v <> Hole -> (0 <=? i) && (i <? Z.of_nat (length vs)) = true -> GetSingleList l = Ok a ->
  returns (singleList ← SingleList.Set_ a i v; l' ← SetSingleList l false singleList; Ok (b, l'))
    (fun '(b', l') => b' = b /\ listRep trusted l' (<[Z.to_nat i := v]> vs)).
Proof.
  intros Hv Hi Ea. pose proof Hl as (a0 & E & Ha & Hh). rewrite Ea in E. injection E as <-. apply inBounds_nat in Hi as (j & -> & Hj). rewrite Nat2Z.id.
  eapply returns_bind; [exact (singleSet_returns _ _ _ Ha j v Hj)|]. intros a' Ha'. rewrite keepMark.
  apply (storeList_returns b false a' _ _ _ Ha'); [by apply noHoles_insert|done].
Qed.

Lemma ListSet_returns i v : v <> Hole ->
  if Z.of_nat (length vs) =? 0 then Set_ l i v = Err ContainerEmpty else
  if (0 <=? i) && (i <? Z.of_nat (length vs))
  then returns (Set_ l i v) (fun '(r, l') => r = v /\ listRep trusted l' (<[Z.to_nat i := v]> vs))
  else Set_ l i v = Err IndexRange.
Proof.
  intros Hv. pose proof Hl as (a & E & Ha & Hh). unfold Set_. rewrite E, bind_Ok. unfold TaggedList.Length.
  rewrite (singleNodes_eq _ _ _ Ha), bind_Ok, outOfBounds_eq.
  destruct (Z.eqb_spec (Z.of_nat (length vs)) 0), (Z.leb_spec (Z.of_nat (length vs)) 0); try lia; [done|].
  destruct ((0 <=? i) && (i <? Z.of_nat (length vs))) eqn:Ei; cbn [negb]; [|done]. by apply setStore_returns.
Qed.

Lemma ListSetProperty_returns key v : v <> Hole ->
  let i := truncCast (GetNumber key) in
  if (0 <=? i) && (i <? Z.of_nat (length vs))
  then returns (SetProperty l key v) (fun '(r, l') => r = true /\ listRep trusted l' (<[Z.to_nat i := v]> vs))
  else SetProperty l key v = Ok (false, l).
Proof.
  intros Hv i. pose proof Hl as (a & E & Ha & Hh). unfold SetProperty. rewrite E, bind_Ok. unfold TaggedList.Length.
  rewrite (singleNodes_eq _ _ _ Ha), bind_Ok. fold i. cbv zeta. rewrite outOfBounds_eq.
  destruct ((0 <=? i) && (i <? Z.of_nat (length vs))) eqn:Ei; cbn [negb]; [|done]. by apply setStore_returns.
Qed.

Lemma ListClear_returns : trusted = false -> returns (Clear l) (fun l' => listRep trusted l' []).
Proof.
  intros Et. pose proof Hl as (a & E & Ha & Hh). unfold Clear. rewrite E, bind_Ok, (singleNodes_eq _ _ _ Ha), bind_Ok.
  destruct (Z.ltb_spec 0 (Z.of_nat (length vs))) as [Hlt|Hge].
  - rewrite bind_assoc. eapply returns_bind; [exact (singleClear_returns _ _ _ Ha)|]. intros a' Ha'. unfold SetSingleList. rewrite bind_assoc.
    eapply returns_bind; [exact (setPresent_returns _ _ a' _ E)|]. intros s Hs. rewrite bind_Ok. apply returns_ok. exists a'.
    split_and!; [exact Hs| |by apply Forall_nil]. rewrite Et. cbn [andb]. exact (singleRep_weaken _ _ _ Ha').
  - rewrite bind_Ok. apply returns_ok. destruct vs; [|cbn in Hge; lia]. exists a. rewrite Et in *. by split_and!.
Qed.

Lemma ListRemoveByIndex_returns i :
  if Z.of_nat (length vs) =? 0 then RemoveByIndex l i = Err ContainerEmpty else
  match lookupInt vs i with
  | Some v => returns (RemoveByIndex l i) (fun '(r, l') => r = v /\ listRep trusted l' (delete (Z.to_nat i) vs))
  | None => RemoveByIndex l i = Err IndexRange
  end.
Proof.
  pose proof Hl as (a & E & Ha & Hh). unfold RemoveByIndex. rewrite E, bind_Ok. unfold TaggedList.Length.
  rewrite (singleNodes_eq _ _ _ Ha), bind_Ok, outOfBounds_eq, lookupInt_in.
  destruct (Z.eqb_spec (Z.of_nat (length vs)) 0), (Z.leb_spec (Z.of_nat (length vs)) 0); try lia; [done|].
  pose proof (lookupInt_in vs i) as Hin. destruct (lookupInt vs i) as [v|] eqn:Ev; cbn [negb]; [|done].
  apply inBounds_nat in Hin as (j & -> & Hj). unfold lookupInt in Ev. destruct (Z.ltb_spec (Z.of_nat j) 0); [lia|]. rewrite Nat2Z.id in *.
  eapply returns_bind; [exact (singleRemoveByIndex_returns _ _ _ Ha j Hj)|]. intros [r a'] [Hr Ha']. rewrite Hr in Ev. simplify_eq.
  unfold SetSingleList. rewrite bind_assoc. cbn [SingleList SetIsOrderedList IsOrderedList].
  eapply returns_bind; [exact (setPresent_returns _ _ a' _ E)|]. intros s Hs. rewrite bind_Ok. apply returns_ok. split; [done|]. exists a'.
  split_and!; [exact Hs| |by apply noHoles_delete]. cbn [IsOrderedList]. by rewrite andb_false_r.
Qed.

Lemma ListRemove_returns x : x <> Hole ->
  returns (Remove l x) (fun '(b, l') => b = existsb (fun v => SameValue v x) vs /\ listRep trusted l' (removeFirstEqual x vs)).
Proof.
  intros Hx. pose proof Hl as (a & E & Ha & Hh). unfold Remove. rewrite E, bind_Ok.
  eapply returns_bind; [exact (singleRemove_returns _ _ _ Ha x (SameValue_Hole x Hx))|]. intros [r a'] [-> Ha'].
  unfold SetSingleList. rewrite bind_assoc. cbn [SingleList SetIsOrderedList IsOrderedList].
  eapply returns_bind; [exact (setPresent_returns _ _ a' _ E)|]. intros s Hs. rewrite bind_Ok. apply returns_ok. split; [done|]. exists a'.
  split_and!; [exact Hs|cbn [IsOrderedList]; by rewrite andb_false_r|]. unfold removeFirstEqual. cbv zeta.
  destruct (_ <? 0); [done|by apply noHoles_delete].
Qed.

Lemma GetSubList_elements from to :
  (sub ← GetSubList l from to; ConvertToArray sub) =
    if Z.of_nat (length vs) =? 0 then Err ContainerEmpty else
    if (0 <=? from) && (from <? Z.min to (Z.of_nat (length vs))) then
      if to <=? Z.of_nat (length vs) then Ok (take (Z.to_nat (to - from)) (drop (Z.to_nat from) vs)) else Err ToIndexRange
    else Err FromIndexRange.
Proof.
  pose proof Hl as (a & E & Ha & Hh). unfold GetSubList. rewrite E, bind_Ok. unfold TaggedList.Length.
  rewrite (singleNodes_eq _ _ _ Ha), bind_Ok. set (n := Z.of_nat (length vs)) in *.
  destruct (Z.eqb_spec n 0), (Z.leb_spec n 0); try lia; [done|].
  replace (if to <? n then to else n) with (Z.min to n) by (destruct (Z.ltb_spec to n); lia). rewrite outOfBounds_eq.
  destruct ((0 <=? from) && (from <? Z.min to n)) eqn:Ef; cbn [negb]; [|done].
  destruct (Z.ltb_spec to 0), (Z.leb_spec to from), (Z.ltb_spec n to), (Z.leb_spec to n); try lia; cbn [orb]; [done|].
  rewrite u32_small by (unfold is_u32, ELEMENTS_START_INDEX; cbn [ENTRY_SIZE]; rewrite BASE_eq; lia).
  replace from with (Z.of_nat (Z.to_nat from)) at 1 2 by lia. replace to with (Z.of_nat (Z.to_nat to)) at 1 2 by lia.
  rewrite bind_assoc. apply returns_eq. eapply returns_bind; [apply (GetSubList_returns _ _ _ (Z.to_nat from) (Z.to_nat to) _ Ha); [lia|]|].
  { unfold ELEMENTS_START_INDEX. cbn [ENTRY_SIZE]. f_equal. lia. }
  intros a' (ns & del & cap & Hi & Hv & _). rewrite bind_Ok. unfold ConvertToArray, GetSingleList, presentArray, deref. cbn.
  assert (length ns <= length vs)%nat by (rewrite <- (valuesAt_length a' ns), Hv, length_take, length_drop; lia).
  rewrite (TaggedListToArray_eq _ _ _ _ _ Hi) by lia. apply returns_ok. rewrite Hv. f_equal. lia.
Qed.

Lemma FastGet_returns i : trusted = true ->
  returns (FastGet l i) (fun '(v, l') => v = default Undefined (lookupInt vs i) /\ listRep trusted l' vs).
Proof.
  intros Et. pose proof Hl as (a & E & Ha & Hh). unfold FastGet. rewrite E, bind_Ok. unfold TaggedList.Length.
  rewrite (singleNodes_eq _ _ _ Ha), bind_Ok, outOfBounds_eq. pose proof (lookupInt_in vs i) as Hin.
  destruct (lookupInt vs i) as [v|] eqn:Ev; rewrite Hin; cbn [negb]; [|by apply returns_ok].
  apply inBounds_nat in Hin as (j & -> & Hj). unfold lookupInt in Ev. destruct (Z.ltb_spec (Z.of_nat j) 0); [lia|]. rewrite Nat2Z.id in Ev.
  destruct (IsOrderedList l) eqn:Eo; cbn [negb].
  - apply returns_ok. split; [|done]. cbn [default]. apply (ordered_element true a vs); [by rewrite Et in Ha|done|done].
  - eapply returns_bind; [exact (SortByNodeOrder_returns _ _ _ Ha Hn)|]. intros a' Ha'.
    eapply returns_mono; [apply (storeList_returns (GetElement a' (ELEMENTS_START_INDEX + (Z.of_nat j + 1) * ENTRY_SIZE SINGLE)) true a' vs true true Ha' Hh)|]; [done|].
    intros [r l'] [-> Hl']. split; [|done]. by apply (ordered_element true a' vs).
Qed.
End Step.

(** *** Reads *)

Section Reads.
  Context (trusted : bool) (l : JSAPIList) (vs : list JSTaggedValue).
  Hypothesis Hl : listRep trusted l vs.

Lemma ListGetFirst_eq : GetFirst l = Ok (default Undefined (head vs)).
Proof.
  destruct Hl as (a & E & (ns & del & cap & Hi & <- & _) & Hh). unfold GetFirst. rewrite E, bind_Ok, (headElement_eq _ _ _ _ _ Hi), bind_Ok.
  f_equal. by apply holeToUndefined_default, head_noHole.
Qed.

Lemma ListGetLast_eq : GetLast l = Ok (default Undefined (last vs)).
Proof.
  destruct Hl as (a & E & (ns & del & cap & Hi & <- & _) & Hh). unfold GetLast. rewrite E, bind_Ok, (GetLast_eq _ _ _ _ _ Hi), bind_Ok.
  f_equal. by apply holeToUndefined_default, last_noHole.
Qed.

Lemma ListLength_eq : (singleList ← GetSingleList l; TaggedList.Length singleList) = Ok (Z.of_nat (length vs)).
Proof. destruct Hl as (a & E & Ha & _). rewrite E, bind_Ok. apply (singleNodes_eq _ _ _ Ha). Qed.

Lemma ListGet_eq i : Get l i = Ok (default Undefined (lookupInt vs i)).
Proof.
  destruct Hl as (a & E & Ha & _). unfold Get. rewrite E, bind_Ok. unfold TaggedList.Length. rewrite (singleNodes_eq _ _ _ Ha), bind_Ok.
  rewrite outOfBounds_eq, lookupInt_in. destruct (lookupInt vs i) eqn:Ev; cbn [negb]; [|done]. unfold lookupInt in Ev.
  destruct (Z.ltb_spec i 0); [done|]. rewrite (singleGet_eq _ _ _ Ha) by lia. by rewrite Ev.
Qed.

Lemma ListGetProperty_eq key : GetProperty l key =
  match indexKeyOf key with
  | Int i => match lookupInt vs i with Some v => Ok v | None => Err IndexRange end
  | _ => Err IndexType
  end.
Proof.
  destruct Hl as (a & E & Ha & _). unfold GetProperty. rewrite E, bind_Ok. unfold TaggedList.Length. rewrite (singleNodes_eq _ _ _ Ha), bind_Ok.
  destruct (indexKeyOf key) as [| | | |i| | | |]; try done. rewrite outOfBounds_eq, lookupInt_in. destruct (lookupInt vs i) eqn:Ev; cbn [negb]; [|done].
  unfold lookupInt in Ev. destruct (Z.ltb_spec i 0); [done|]. rewrite (singleGet_eq _ _ _ Ha) by lia. by rewrite Ev.
Qed.

Lemma ListConvertToArray_eq : Z.of_nat (length vs) < 2 ^ 32 -> ConvertToArray l = Ok vs.
Proof.
  intros Hn. destruct Hl as (a & E & (ns & del & cap & Hi & <- & _) & _). unfold ConvertToArray. rewrite E, bind_Ok.
  apply (TaggedListToArray_eq _ _ _ _ _ Hi). by rewrite valuesAt_length in Hn.
Qed.
End Reads.

(** After [k] calls. *)
Definition listContainerRep (trusted : bool) (k : nat) (l : JSAPIList) (vs : list JSTaggedValue) : Prop :=
  listRep trusted l vs /\ (length vs <= k)%nat.

(** Turns a call that returns into its observation. *)
Ltac observed l obs H :=
  let r := fresh "r" in let l' := fresh "l'" in let E := fresh "E" in
  edestruct (observe_returns l obs) as (r & l' & E & H); [|rewrite E; cbn [fst snd] in *].

Lemma listStep_simulates trusted k l vs op : listContainerRep trusted k l vs -> Z.of_nat k < 2 ^ 26 -> okListOp trusted op ->
  (listContainerStep l op).1 = (abstractListStep vs op).1 /\
  listContainerRep trusted (S k) (listContainerStep l op).2 (abstractListStep vs op).2.
Proof.
  intros [Hl Hk] Hb Hok. assert (Z.of_nat (length vs) < 2 ^ 27) as Hn by lia.
  assert (listContainerRep trusted (S k) l vs) as Hsame by (split; [done|lia]).
  destruct op as [v|v ix| | |v| |ix|v|v|ix v| |ix|v| |fi ti| |key|key v|i]; cbn [listContainerStep abstractListStep okListOp] in *;
    unfold list_insert, list_getFirst, list_getLast, list_has, list_isEmpty, list_get, list_getIndexOf, list_getLastIndexOf, list_set, list_clear,
      list_removeByIndex, list_remove, list_convertToArray, list_getSubList, list_length, intArgument, withInt;
    cbn [receive]; rewrite ?bind_Ok; unfold observeRead; cbn [fst snd].
  - observed l Truth H; [by apply (ListAdd_returns trusted l vs)|]. destruct H as [-> H]. split; [done|]. split; [done|rewrite length_app; cbn; lia].
  - destruct (indexKeyOf ix) as [| | | |i| | | |]; try done. rewrite bind_Ok. pose proof (Insert_returns trusted l vs Hl Hn v i Hok) as H.
    destruct ((0 <=? i) && (i <=? Z.of_nat (length vs))) eqn:Ei; [|by rewrite H].
    apply returns_iff in H as (l' & -> & H). cbn. split; [done|]. split; [done|]. rewrite length_app, length_take. cbn. rewrite length_drop. lia.
  - by rewrite (ListGetFirst_eq trusted l vs).
  - by rewrite (ListGetLast_eq trusted l vs).
  - destruct Hl as (a & E & Ha & _). unfold Has. rewrite E, bind_Ok. by rewrite (singleHas_eq _ _ _ Ha).
  - destruct Hl as (a & E & Ha & _). unfold IsEmpty. rewrite E, bind_Ok. unfold SingleList.IsEmpty. by rewrite (singleNodes_eq _ _ _ Ha).
  - destruct (indexKeyOf ix) as [| | | |i| | | |]; try done. rewrite bind_Ok. by rewrite (ListGet_eq trusted l vs).
  - destruct Hl as (a & E & (ns & del & cap & Hi & <- & _) & _). unfold GetIndexOf. rewrite E, bind_Ok. by rewrite (FindIndexByElement_eq _ _ _ _ _ Hi).
  - destruct Hl as (a & E & (ns & del & cap & Hi & <- & _) & _). unfold GetLastIndexOf. rewrite E, bind_Ok. by rewrite (FindLastIndexByElement_eq _ _ _ _ _ Hi).
  - destruct (indexKeyOf ix) as [| | | |i| | | |]; try done. rewrite bind_Ok. pose proof (ListSet_returns trusted l vs Hl i v Hok) as H.
    destruct (Z.of_nat (length vs) =? 0); [by rewrite H|]. destruct ((0 <=? i) && (i <? Z.of_nat (length vs))); [|by rewrite H].
    observed l Value H'; [exact H|]. destruct H' as [-> H']. split; [done|]. split; [done|rewrite length_insert; lia].
  - pose proof (ListClear_returns trusted l vs Hl Hn Hok) as H. apply returns_iff in H as (l' & -> & H). cbn. split; [done|]. split; [done|cbn; lia].
  - destruct (indexKeyOf ix) as [| | | |i| | | |]; try done. rewrite bind_Ok. pose proof (ListRemoveByIndex_returns trusted l vs Hl i) as H.
    destruct (Z.of_nat (length vs) =? 0); [by rewrite H|]. destruct (lookupInt vs i) as [v|] eqn:Ev; [|by rewrite H].
    observed l Value H'; [exact H|]. destruct H' as [-> H']. split; [done|]. split; [done|]. cbn. pose proof (length_delete_le vs (Z.to_nat i)). lia.
  - observed l Truth H; [by apply (ListRemove_returns trusted l vs)|]. destruct H as [-> H]. split; [done|]. split; [done|]. cbn.
    unfold removeFirstEqual. cbv zeta. destruct (_ <? 0); [lia|]. pose proof (length_delete_le vs (Z.to_nat (indexWhere (fun u => SameValue u v) vs))). lia.
  - rewrite (ListConvertToArray_eq trusted l vs); [done|done|lia].
  - destruct (indexKeyOf fi) as [| | | |i| | | |]; try done. rewrite bind_Ok. destruct (indexKeyOf ti) as [| | | |j| | | |]; try done. rewrite bind_Ok.
    rewrite (GetSubList_elements trusted l vs Hl Hn i j). destruct (_ =? 0); [done|]. destruct (_ && _); [|done]. by destruct (_ <=? _).
  - by rewrite (ListLength_eq trusted l vs).
  - rewrite (ListGetProperty_eq trusted l vs) by done. destruct (indexKeyOf key) as [| | | |i| | | |]; try done. by destruct (lookupInt vs i).
  - pose proof (ListSetProperty_returns trusted l vs Hl key v Hok) as H. cbv zeta in H. destruct (_ && _); [|by rewrite H].
    observed l Truth H'; [exact H|]. destruct H' as [-> H']. split; [done|]. split; [done|rewrite length_insert; lia].
  - observed l Value H; [by apply (FastGet_returns trusted l vs)|]. destruct H as [-> H]. split; [done|]. split; [done|cbn; lia].
Qed.
