(* ===== verification/ListIteration.v ===== *)
(** * Sorting and walking lists

    [TaggedSingleList::Sort] is a binary insertion sort on the values of the nodes: the links stay as
    they are.  With a comparison function that answers by a total preorder and leaves the list alone
    it gives what stable insertion sort gives.  Then iterators, [forEach] and [replaceAllElements],
    with callbacks that leave the list alone. *)

From Stdlib Require Import ZArith Lia Permutation.
From S2P Require Import Prelude Double Values Containers TaggedArray SortSpec StringOrder ArrayHelper ContainerSort TaggedList ListRep SingleList DoubleList LinkedListContainer JSAPIList ListContainerCorrect.

Lemma updateArray_returns l h a a0 : readArray l h = Ok a0 ->
  returns (updateArray l h a) (fun l' => readArray l' h = Ok a /\ present (SingleList l') = present (SingleList l) /\ IsOrderedList l' = IsOrderedList l /\
    forall h', h' <> h -> readArray l' h' = readArray l h').
Proof.
  intros E. unfold updateArray, readArray, writeArray, deref, get in *. destruct (allArrays (SingleList l) !! h) as [x|] eqn:Ex; [|done].
  apply lookup_lt_Some in Ex. rewrite bind_assoc. apply bind_set; [done|]. rewrite bind_Ok. apply returns_ok. cbn. rewrite list_lookup_insert_eq by done.
  split_and!; [done|done|done|]. intros h' Hne. by rewrite list_lookup_insert_ne by done.
Qed.

(** Moving the value of position [i] to position [e]. *)
Lemma moveInto_returns a ns del cap vs i e x : listInv SINGLE a ns del cap -> valuesAt a ns = vs -> (e < i < length vs)%nat ->
  returns (moveInto ns a i e x) (fun a' => listInv SINGLE a' ns del cap /\
    valuesAt a' ns = (take e vs ++ x :: drop e (take i vs)) ++ drop (S i) vs).
Proof.
  intros Hi Hv Hei. assert (length ns = length vs) as Hlen by (rewrite <- Hv; by rewrite valuesAt_length). unfold moveInto.
  eapply returns_bind; [apply (for_down_returns (fun t a' => listInv SINGLE a' ns del cap /\
    forall m, valuesAt a' ns !! m = vs !! (if decide (e + t < m <= i)%nat then (m - 1)%nat else m)))|].
  - split; [done|]. intros m. rewrite Hv. by rewrite decide_False by lia.
  - intros t a' Ht [Hi' Hv']. cbv zeta. apply bind_get; [lia|]. intros p Hp. apply bind_get; [lia|]. intros n Hn. apply returns_ok.
    destruct (write_inv SINGLE a' ns del cap _ n (GetElement a' p) Hi' Hn) as [Hi2 Hv2]. split; [done|]. intros m. rewrite Hv2.
    assert (valuesAt a' ns !! (e + t + 1 - 1)%nat = Some (GetElement a' p)) as Ep by (by rewrite valuesAt_lookup, Hp).
    rewrite Hv', decide_False in Ep by lia. destruct (decide (m = (e + t + 1)%nat)) as [->|Hne].
    + rewrite list_lookup_insert_eq by (rewrite valuesAt_length; lia). rewrite decide_True by lia. done.
    + rewrite list_lookup_insert_ne by done. rewrite Hv'. f_equal. repeat case_decide; lia.
  - intros a' [Hi' Hv']. apply bind_get; [lia|]. intros n Hn. apply returns_ok.
    destruct (write_inv SINGLE a' ns del cap e n x Hi' Hn) as [Hi2 Hv2]. split; [done|]. rewrite Hv2. apply list_eq. intros m.
    rewrite <- app_assoc, <- app_comm_cons. destruct (lt_eq_lt_dec m e) as [[Hm| ->]|Hm].
    + rewrite list_lookup_insert_ne by lia. rewrite Hv', decide_False by lia. by rewrite lookup_app_l, lookup_take_lt by (rewrite ?length_take; lia).
    + rewrite list_lookup_insert_eq by (rewrite valuesAt_length; lia). rewrite list_lookup_middle by (rewrite length_take; lia). done.
    + rewrite list_lookup_insert_ne by lia. rewrite Hv'. rewrite lookup_app_r by (rewrite length_take; lia). rewrite length_take_le by lia.
      rewrite lookup_cons_ne_0 by lia. replace (pred (m - e)) with (m - e - 1)%nat by lia. destruct (decide (m <= i)%nat).
      * rewrite decide_True by lia. rewrite lookup_app_l by (rewrite length_drop, length_take; lia).
        rewrite lookup_drop, lookup_take_lt by lia. f_equal. lia.
      * rewrite decide_False by lia. rewrite lookup_app_r by (rewrite length_drop, length_take; lia).
        rewrite length_drop, length_take_le, lookup_drop by lia. f_equal. lia.
Qed.

Section Sorted.
  Context {W : Type} (ToString : StringConversion W JSAPIList) (fn : Comparator W JSAPIList) (o : JSTaggedValue -> JSTaggedValue -> comparison).
  Hypothesis Ho : preorder o.
  Hypothesis Hfn : comparesBy fn o.
  Context (h : nat) (ns : list Z) (del cap : Z).

Notation ord := (sortOrder o).

Lemma nodeValue_eq st a i n : readArray (container st) h = Ok a -> ns !! i = Some n ->
  nodeValue (W := W) h ns st i = Ok (GetElement a n).
Proof. intros E Hn. unfold nodeValue, get. by rewrite E, bind_Ok, Hn. Qed.

(** The binary search in the sorted part. *)
Lemma insertionPoint_returns fuel l a i x b e st : readArray l h = Ok a -> (i < length ns)%nat -> sorted ord (take i (valuesAt a ns)) ->
  container st = l -> exception st = None -> (b <= e <= i)%nat -> (e - b <= fuel)%nat ->
  Forall (fun y => leq ord y x) (take b (valuesAt a ns)) -> Forall (less ord x) (drop e (take i (valuesAt a ns))) ->
  returns (insertionPoint ToString (Some fn) h ns fuel x b e st) (fun '(e', st') => container st' = l /\ exception st' = None /\ (e' <= i)%nat /\
    Forall (fun y => leq ord y x) (take e' (valuesAt a ns)) /\ Forall (less ord x) (drop e' (take i (valuesAt a ns)))).
Proof.
  intros El Hi Hs. pose proof (sortOrder_preorder o Ho) as Hord. revert b e st. induction fuel as [|fuel IH]; intros b e st Hc He Hbe Hf Hlo Hhi;
    cbn [insertionPoint]; destruct (Nat.ltb_spec b e) as [Hlt|Hge]; try lia; try (apply returns_ok; replace e with b in * by lia; split_and!; (done || lia)).
  set (m := ((b + e) / 2)%nat). assert (b <= m < e)%nat as Hm.
  { unfold m. pose proof (Nat.div_mod (b + e) 2 ltac:(lia)). pose proof (Nat.mod_upper_bound (b + e) 2 ltac:(lia)). lia. }
  destruct (lookup_lt_is_Some_2 ns m) as [n Hn]; [lia|]. rewrite (nodeValue_eq st a m n) by (congruence || done). rewrite bind_Ok.
  destruct (SortCompare_answers ToString fn o st (GetElement a n) x Hfn He) as (Ec & Ex & Ek).
  destruct (SortCompare ToString (Some fn) st (GetElement a n) x) as [cmp st']. cbn [fst snd] in *. subst cmp. rewrite Ex.
  assert (valuesAt a ns !! m = Some (GetElement a n)) as Hvm by (by rewrite valuesAt_lookup, Hn).
  destruct (decide (ord (GetElement a n) x = Gt)) as [Eg|Eg].
  - rewrite Eg. apply IH; try done; try lia; [congruence|]. apply Forall_lookup_2. intros j y Hy. rewrite lookup_drop in Hy.
    assert (leq ord (GetElement a n) y) as Hle.
    { apply (sorted_lookup ord Hord _ m (m + j) _ _ Hs); [lia|by rewrite lookup_take_lt by lia|done]. }
    apply (less_leq_trans ord Hord x (GetElement a n)); [|done]. unfold less. rewrite (opposite ord Hord (GetElement a n) x), Eg. done.
  - assert (Forall (fun y => leq ord y x) (take (m + 1) (valuesAt a ns))) as Hlo'.
    { apply Forall_lookup_2. intros j y Hy. apply lookup_take_Some in Hy as [Hy Hj].
      apply (leq_trans ord Hord y (GetElement a n) x); [|exact Eg].
      apply (sorted_lookup ord Hord _ j m _ _ Hs); [lia|by rewrite lookup_take_lt by lia|by rewrite lookup_take_lt by lia]. }
    destruct (ord (GetElement a n) x); try done; apply IH; try done; try lia; congruence.
Qed.
(** The state after the first [i] elements [take i vs] are sorted: only values have moved. *)
Record sortState (flag : bool) (vs : list JSTaggedValue) (i : nat) (st : SortState W JSAPIList) (P : list JSTaggedValue) : Prop := {
  sort_noException : exception st = None;
  sort_array : exists a, readArray (container st) h = Ok a /\ listInv SINGLE a ns del cap /\ valuesAt a ns = P ++ drop i vs;
  sort_present : present (SingleList (container st)) = h;
  sort_flag : IsOrderedList (container st) = flag;
  sort_sorted : sorted ord P;
  sort_perm : Permutation P (take i vs);
  sort_stable : stable ord P (take i vs) }.

Lemma sortRound_returns flag vs i st P : sortState flag vs i st P -> (i < length vs)%nat -> length ns = length vs ->
  returns (sortRound ToString (Some fn) h ns i st) (fun st' => exists P', sortState flag vs (S i) st' P').
Proof.
  intros [He (a & Ea & Hi & Hv) Hpr Hfl Hs HP Ht] Hlt Hlen. destruct (lookup_lt_is_Some_2 vs i Hlt) as [x Hx].
  assert (length P = i) as HPl by (rewrite (Permutation_length HP), length_take; lia).
  rewrite (drop_S _ _ _ Hx) in Hv. assert (take i (valuesAt a ns) = P) as Etake by (rewrite Hv, <- HPl; apply take_app_length).
  destruct (lookup_lt_is_Some_2 ns i) as [n Hn]; [lia|]. assert (GetElement a n = x) as En.
  { assert (valuesAt a ns !! i = Some x) as H by (rewrite Hv, <- HPl; by rewrite list_lookup_middle). rewrite valuesAt_lookup, Hn in H. by injection H. }
  unfold sortRound. rewrite (nodeValue_eq st a i n Ea Hn), bind_Ok, En.
  eapply returns_bind; [apply (insertionPoint_returns i (container st) a i x 0 i st Ea); [lia|by rewrite Etake|done|done|lia|lia| |]|].
  { by apply Forall_nil. }
  { rewrite drop_ge by (rewrite length_take; lia). by apply Forall_nil. }
  intros [e st'] (Hc' & He' & Hei & Hlo & Hhi). rewrite Etake in Hhi.
  assert (take e (valuesAt a ns) = take e P) as Ee by (rewrite Hv, take_app_le by lia; done). rewrite Ee in Hlo.
  pose proof (sortOrder_preorder o Ho) as Hord.
  destruct (insert_sorted ord Hord (take e P) (drop e P) x) as [Hs' Ht']; [by rewrite take_drop|done|done|]. rewrite take_drop in Ht'.
  assert (Permutation (take e P ++ x :: drop e P) (take (S i) vs)) as HP'.
  { rewrite (take_S_r _ _ _ Hx). rewrite <- Permutation_middle, take_drop, HP. apply Permutation_cons_append. }
  assert (stable ord (take e P ++ x :: drop e P) (take (S i) vs)) as Ht2.
  { rewrite (take_S_r _ _ _ Hx). eapply stable_trans; [exact Ht'|]. apply stable_app; [done|apply stable_refl]. }
  destruct (Nat.ltb_spec e i) as [Hei'|Hei'].
  - rewrite Hc', Ea, bind_Ok. eapply returns_bind; [apply (moveInto_returns a ns del cap _ i e x Hi Hv); rewrite length_app; cbn; rewrite length_drop; lia|].
    intros a' [Hi' Hv']. eapply returns_bind; [exact (updateArray_returns (container st) h a' a Ea)|]. intros l' (El' & Ep' & Ef' & _). apply returns_ok.
    exists (take e P ++ x :: drop e P). split; try done; cbn [container exception]; [|congruence|congruence].
    exists a'. split_and!; [done|done|]. rewrite Hv', take_app_le by lia. f_equal.
    + f_equal. f_equal. f_equal. rewrite <- HPl at 1. apply take_app_length.
    + rewrite drop_app_ge by lia. by replace (S i - length P)%nat with 1%nat by lia.
  - assert (e = i) as -> by lia. apply returns_ok. exists (P ++ [x]). rewrite <- HPl, firstn_all, drop_all in Hs', HP', Ht2.
    rewrite HPl in HP', Ht2. split; try done; rewrite ?Hc'; try done. exists a. split_and!; [done|done|]. rewrite Hv, <- app_assoc. done.
Qed.

Lemma SingleSort_returns l a vs w : readArray l h = Ok a -> present (SingleList l) = h -> listInv SINGLE a ns del cap -> valuesAt a ns = vs ->
  returns (SingleSort ToString (Some fn) h w l) (fun '(_, l') => IsOrderedList l' = IsOrderedList l /\ present (SingleList l') = h /\
    exists a', readArray l' h = Ok a' /\ listInv SINGLE a' ns del cap /\ valuesAt a' ns = isort ord vs).
Proof.
  intros Ea Hpr Hi Hv. assert (length ns = length vs) as Hlen by (rewrite <- Hv; by rewrite valuesAt_length).
  pose proof (sortOrder_preorder o Ho) as Hord.
  unfold SingleSort. rewrite Ea, bind_Ok, (NumberOfNodes_eq _ _ _ _ _ Hi), bind_Ok. destruct (Z.ltb_spec (Z.of_nat (length ns)) 2) as [Hlt|Hge].
  { apply returns_ok. split_and!; [done|done|]. exists a. split_and!; [done|done|]. rewrite Hv. by destruct vs as [|v [|]]; [| |cbn in Hlen; lia]. }
  rewrite (MapNodeIndexToDataIndex_eq _ _ _ _ _ Hi), bind_Ok.
  assert (sortState (IsOrderedList l) vs 1 (mkSortState w l None) (take 1 vs)) as H1.
  { split; try done; [exists a; split_and!; [done|done|by rewrite take_drop]|]. destruct vs as [|v vs]; [constructor|]. cbn. repeat constructor. }
  eapply returns_bind; [apply (for_up_returns (fun i st => exists P, sortState (IsOrderedList l) vs i st P)); [by eexists|]|].
  - intros i st Hb [P HP]. apply (sortRound_returns _ vs i st P HP); [lia|done].
  - intros st [P []]. apply returns_ok. replace (1 + Z.to_nat (Z.of_nat (length ns) - 1))%nat with (length vs) in * by lia.
    rewrite firstn_all, drop_all, app_nil_r in *. split_and!; [done|done|]. destruct sort_array0 as (a' & E & Hi' & Hv'). exists a'. split_and!; [done|done|].
    rewrite Hv'. apply (sorted_unique ord Hord); [done|by apply isort_sorted| |].
    + rewrite sort_perm0. symmetry. apply isort_perm.
    + eapply stable_trans; [exact sort_stable0|]. intros z. symmetry. by apply isort_stable.
Qed.
End Sorted.

Lemma noHoles_perm vs ws : Permutation ws vs -> noHoles vs -> noHoles ws.
Proof. intros HP H. unfold noHoles. by rewrite HP. Qed.

(** The whole method. *)
Lemma Sort_returns {W} (ToString : StringConversion W JSAPIList) fn o trusted l vs w : preorder o -> comparesBy fn o -> listRep trusted l vs ->
  returns (Sort ToString (Some fn) w l) (fun '(_, l') => listRep trusted l' (isort (sortOrder o) vs)).
Proof.
  intros Ho Hfn (a & E & (ns & del & cap & Hi & Hv & _) & Hh). unfold Sort.
  eapply returns_mono; [apply (SingleSort_returns ToString fn o Ho Hfn (present (SingleList l)) ns del cap (SetIsOrderedList l false) a vs w E eq_refl Hi Hv)|].
  intros [w' l'] (Ef & Ep & a' & Ea' & Hi' & Hv'). exists a'. split_and!; [unfold GetSingleList, presentArray; rewrite Ep; exact Ea'| |].
  - rewrite Ef. cbn [IsOrderedList SetIsOrderedList]. rewrite andb_false_r. by exists ns, del, cap.
  - eapply noHoles_perm; [apply isort_perm|done].
Qed.

(** ** Iterators *)

(** All values an iterator yields, up to the end. *)
Fixpoint drain (fuel : nat) (s : Arrays) (iter : ListIterator) : result (list JSTaggedValue) :=
  match fuel with
  | O => Err OutOfFuel
  | S fuel =>
    '(v, iter) ← Next s iter;
    match v with
    | None => Ok []
    | Some v => vs ← drain fuel s iter; Ok (v :: vs)
    end
  end.

Section Iterate.
  Context (k : ListKind) (s : Arrays) (h : nat) (a : Array) (ns : list Z) (del cap : Z).
  Hypothesis Hs : deref s h = Ok a.
  Hypothesis Ha : listInv k a ns del cap.
  Hypothesis Hh : noHoles (valuesAt a ns).

(** The iterator at position [i]. *)
Lemma listNext_eq i : (i <= length ns)%nat ->
  Next s (mkListIterator (Some h) (Z.of_nat i) (lastOr 4 (take i ns))) =
    Ok (match ns !! i with
        | Some n => (Some (GetElement a n), mkListIterator (Some h) (Z.of_nat (S i)) (lastOr 4 (take (S i) ns)))
        | None => (None, mkListIterator None (Z.of_nat i) (lastOr 4 (take i ns)))
        end).
Proof.
  intros Hi. unfold Next. cbn [IteratedList NextIndex DataIndex]. rewrite Hs, bind_Ok. unfold Length.
  rewrite (NumberOfNodes_eq _ _ _ _ _ Ha), bind_Ok. destruct (Z.leb_spec (Z.of_nat (length ns)) (Z.of_nat i)).
  { by rewrite lookup_ge_None_2 by lia. }
  rewrite (FindElementByDataIndex_eq _ _ _ _ _ Ha i) by (done || by apply cursor_lookup). rewrite bind_Ok.
  destruct (lookup_lt_is_Some_2 ns i) as [n Hn]; [lia|]. rewrite Hn, (take_S_r _ _ _ Hn), last_snoc.
  replace (Z.of_nat i + 1) with (Z.of_nat (S i)) by lia. done.
Qed.

Lemma drain_eq i : (i <= length ns)%nat ->
  drain (S (length ns - i)) s (mkListIterator (Some h) (Z.of_nat i) (lastOr 4 (take i ns))) = Ok (drop i (valuesAt a ns)).
Proof.
  intros Hi. remember (length ns - i)%nat as m eqn:Em. revert i Hi Em. induction m as [|m IH]; intros i Hi Em; cbn [drain]; rewrite listNext_eq, bind_Ok by done.
  - rewrite lookup_ge_None_2 by lia. by rewrite drop_ge by (rewrite valuesAt_length; lia).
  - destruct (lookup_lt_is_Some_2 ns i) as [n Hn]; [lia|]. rewrite Hn. cbn [drain] in IH. rewrite (IH (S i)) by lia. rewrite bind_Ok.
    rewrite (drop_S _ (GetElement a n) i); [done|]. by rewrite valuesAt_lookup, Hn.
Qed.
End Iterate.

(** ** Callbacks *)

(** One round of [forEach] and of [replaceAllElements]. *)
Lemma walk_value k b ms del cap i n : listInv k b ms del cap -> ms !! i = Some n ->
  GetNextDataIndex b (lastOr 4 (take i ms)) = Ok n /\ lastOr 4 (take (S i) ms) = n.
Proof.
  intros Hb Hn. pose proof (lookup_lt_Some _ _ _ Hn). split.
  - rewrite (GetNextDataIndex_eq _ _ _ _ _ Hb i) by (apply cursor_lookup; lia). by rewrite Hn.
  - by rewrite (take_S_r _ _ _ Hn), last_snoc.
Qed.
Lemma list_forEach_eq {W} trusted (self : Receiver JSAPIList) l vs (cb : Callback W JSAPIList) f w :
  receive "forEach" self = Ok l -> listRep trusted l vs -> Z.of_nat (length vs) < 2 ^ 32 -> pureCallback cb f ->
  list_forEach self (Some cb) w = Ok ((mapCalls f w 0 vs).2, l).
Proof.
  intros Eself (a & E & (ns & del & cap & Hi & <- & _) & _) Hn Hcb. rewrite valuesAt_length in Hn. unfold list_forEach. rewrite Eself, bind_Ok.
  change (readArray l (present (SingleList l))) with (GetSingleList l). rewrite E, bind_Ok. unfold TaggedList.Length.
  rewrite (NumberOfNodes_eq _ _ _ _ _ Hi), bind_Ok. rewrite u32_small by (unfold is_u32; rewrite BASE_eq; lia). rewrite Nat2Z.id.
  apply returns_eq. eapply returns_bind; [apply (for_up_returns (fun i '(node, w', l') => node = lastOr 4 (take i ns) /\ l' = l /\
    w' = (mapCalls f w 0 (take i (valuesAt a ns))).2)); [done|]|].
  - intros i [[node w'] l'] Hb (-> & -> & ->). change (readArray l (present (SingleList l))) with (GetSingleList l). rewrite E, bind_Ok. destruct (lookup_lt_is_Some_2 ns i) as [n Hni]; [lia|].
    destruct (walk_value SINGLE a ns del cap i n Hi Hni) as [-> En]. rewrite bind_Ok, Hcb, bind_Ok.
    assert (valuesAt a ns !! i = Some (GetElement a n)) as Hv by (by rewrite valuesAt_lookup, Hni).
    rewrite (take_S_r _ _ _ Hv), mapCalls_snoc. destruct (mapCalls f w 0 (take i (valuesAt a ns))) as [rs w1]. cbn [snd].
    rewrite length_take_le by (rewrite valuesAt_length; lia). destruct (f w1 (GetElement a n) (0 + Z.of_nat i)) as [r w2] eqn:Ef.
    rewrite Z.add_0_l in Ef. rewrite Ef. apply returns_ok. by rewrite En.
  - intros [[node w'] l'] (_ & -> & ->). apply returns_ok. cbn [Nat.add]. by rewrite <- (valuesAt_length a ns), firstn_all.
Qed.

Lemma linked_forEach_eq {W} (self : Receiver JSAPILinkedList) l a vs (cb : Callback W JSAPILinkedList) f w :
  receive "forEach" self = Ok l -> GetDoubleList l = Ok a -> doubleRep a vs -> Z.of_nat (length vs) < 2 ^ 32 -> pureCallback cb f ->
  linked_forEach self (Some cb) w = Ok ((mapCalls f w 0 vs).2, l).
Proof.
  intros Eself E (ns & del & cap & Hi & <- & _) Hn Hcb. rewrite valuesAt_length in Hn. unfold linked_forEach. rewrite Eself, bind_Ok.
  change (deref (DoubleList l) (present (DoubleList l))) with (GetDoubleList l). rewrite E, bind_Ok. unfold Length.
  rewrite (NumberOfNodes_eq _ _ _ _ _ Hi), bind_Ok. rewrite u32_small by (unfold is_u32; rewrite BASE_eq; lia). rewrite Nat2Z.id.
  apply returns_eq. eapply returns_bind; [apply (for_up_returns (fun i '(node, w', l') => node = lastOr 4 (take i ns) /\ l' = l /\
    w' = (mapCalls f w 0 (take i (valuesAt a ns))).2)); [done|]|].
  - intros i [[node w'] l'] Hb (-> & -> & ->). change (deref (DoubleList l) (present (DoubleList l))) with (GetDoubleList l). rewrite E, bind_Ok.
    destruct (lookup_lt_is_Some_2 ns i) as [n Hni]; [lia|].
    destruct (walk_value DOUBLE a ns del cap i n Hi Hni) as [-> En]. rewrite bind_Ok, Hcb, bind_Ok.
    assert (valuesAt a ns !! i = Some (GetElement a n)) as Hv by (by rewrite valuesAt_lookup, Hni).
    rewrite (take_S_r _ _ _ Hv), mapCalls_snoc. destruct (mapCalls f w 0 (take i (valuesAt a ns))) as [rs w1]. cbn [snd].
    rewrite length_take_le by (rewrite valuesAt_length; lia). destruct (f w1 (GetElement a n) (0 + Z.of_nat i)) as [r w2] eqn:Ef.
    rewrite Z.add_0_l in Ef. rewrite Ef. apply returns_ok. by rewrite En.
  - intros [[node w'] l'] (_ & -> & ->). apply returns_ok. cbn [Nat.add]. by rewrite <- (valuesAt_length a ns), firstn_all.
Qed.

(** One round of [replaceAllElements]: the walk reads a node of the array [h], the callback makes [l2] of the
    list, and its result is written to the array [h]. *)
Lemma replaceRound {W} (cb : Callback W JSAPIList) h ns del cap i n l a w r w2 l2 a2 :
  readArray l h = Ok a -> listInv SINGLE a ns del cap -> ns !! i = Some n -> cb w l (GetElement a n) (Z.of_nat i) = Ok (r, w2, l2) ->
  readArray l2 h = Ok a2 -> listInv SINGLE a2 ns del cap ->
  returns (taggedList ← readArray l h;
           dataIndex ← GetNextDataIndex taggedList (lastOr 4 (take i ns));
           let kValue := GetElement taggedList dataIndex in
           '(funcResult, w, list) ← cb w l kValue (Z.of_nat i);
           taggedList ← readArray list h;
           taggedList ← SingleList.Set_ taggedList (Z.of_nat i) funcResult;
           list ← updateArray list h taggedList;
           Ok (dataIndex, w, list))
    (fun '(node, w', l3) => node = lastOr 4 (take (S i) ns) /\ w' = w2 /\ present (SingleList l3) = present (SingleList l2) /\
      IsOrderedList l3 = IsOrderedList l2 /\ (forall h', h' <> h -> readArray l3 h' = readArray l2 h') /\
      exists a3, readArray l3 h = Ok a3 /\ listInv SINGLE a3 ns del cap /\ valuesAt a3 ns = <[i:=r]> (valuesAt a2 ns)).
Proof.
  intros E Hi Hn Hcb E2 Hi2. pose proof (lookup_lt_Some _ _ _ Hn). rewrite E, bind_Ok. destruct (walk_value SINGLE a ns del cap i n Hi Hn) as [-> En].
  rewrite bind_Ok. cbv zeta. rewrite Hcb, bind_Ok, E2, bind_Ok. unfold SingleList.Set_.
  rewrite (FindDataIndexByNodeIndex_eq _ _ _ _ _ Hi2), Nat2Z.id, bind_Ok, Hn by lia. change (default (-1) (Some n)) with n.
  destruct (Z.eqb_spec n (-1)) as [->|_].
  { pose proof (Forall_lookup_1 _ _ _ _ (inv_nodes _ _ _ _ _ Hi) Hn) as H'. apply entry_ge in H'. cbn in H'. lia. }
  rewrite bind_Ok. destruct (write_inv SINGLE a2 ns del cap i n r Hi2 Hn) as [Hi3 Hv3].
  eapply returns_bind; [exact (updateArray_returns l2 h _ _ E2)|]. intros l3 (E3 & Ep3 & Ef3 & Eo3). apply returns_ok.
  split_and!; try done. by eexists.
Qed.

(** The walk reads a node before its value is replaced. *)
Lemma ReplaceAllElements_returns {W} trusted l vs (cb : Callback W JSAPIList) f w : listRep trusted l vs -> pureCallback cb f ->
  noHoles (mapCalls f w 0 vs).1 ->
  returns (ReplaceAllElements l cb w) (fun '(w', l') => w' = (mapCalls f w 0 vs).2 /\ listRep trusted l' (mapCalls f w 0 vs).1).
Proof.
  intros (a & E & (ns & del & cap & Hi & <- & Hord) & Hh) Hcb Hh'. unfold ReplaceAllElements.
  change (readArray l (present (SingleList l))) with (GetSingleList l). rewrite E, bind_Ok, (NumberOfNodes_eq _ _ _ _ _ Hi), bind_Ok, Nat2Z.id.
  set (h := present (SingleList l)). set (vs := valuesAt a ns) in *. assert (length vs = length ns) as Hlen by apply valuesAt_length.
  eapply returns_bind; [apply (for_up_returns (fun i '(node, w', l') => node = lastOr 4 (take i ns) /\ w' = (mapCalls f w 0 (take i vs)).2 /\
    present (SingleList l') = h /\ IsOrderedList l' = IsOrderedList l /\ exists a', readArray l' h = Ok a' /\ listInv SINGLE a' ns del cap /\
      valuesAt a' ns = (mapCalls f w 0 (take i vs)).1 ++ drop i vs))|].
  - split_and!; [done|done|done|done|]. exists a. by split_and!.
  - intros i [[node w'] l'] Hb (-> & -> & Hp & Hf & a' & Ea' & Hi' & Hv'). destruct (lookup_lt_is_Some_2 ns i) as [n Hni]; [lia|].
    destruct (lookup_lt_is_Some_2 vs i) as [x Hx]; [lia|]. pose proof (mapCalls_length f w 0 (take i vs)) as Hml. rewrite length_take_le in Hml by lia.
    assert (GetElement a' n = x) as Ex.
    { assert (valuesAt a' ns !! i = Some x) as H by (rewrite Hv', (drop_S _ _ _ Hx), list_lookup_middle; done). rewrite valuesAt_lookup, Hni in H. by injection H. }
    rewrite (take_S_r _ _ _ Hx), mapCalls_snoc, length_take_le, Z.add_0_l by lia. destruct (mapCalls f w 0 (take i vs)) as [rs w1]. cbn [fst snd] in *.
    destruct (f w1 x (Z.of_nat i)) as [r w2] eqn:Ef. eapply returns_mono; [apply (replaceRound cb h ns del cap i n l' a' w1 r w2 l' a'); try done; by rewrite Hcb, Ex, Ef|].
    intros [[node w'] l3] (-> & -> & Ep3 & Ef3 & _ & a3 & E3 & Hi3 & Hv3). cbn [fst snd]. split_and!; [done|done|congruence|congruence|]. exists a3. split_and!; [done|done|].
    rewrite Hv3, Hv', (drop_S _ _ _ Hx), <- Hml. rewrite insert_app_r_alt by lia. rewrite Nat.sub_diag. cbn. by rewrite <- app_assoc.
  - intros [[node w'] l'] (_ & -> & Hp & Hf & a' & Ea' & Hi' & Hv'). apply returns_ok. cbn [Nat.add] in *. rewrite <- Hlen, firstn_all, drop_all, app_nil_r in *.
    split; [done|]. exists a'. split_and!; [unfold GetSingleList, presentArray; by rewrite Hp| |done]. rewrite Hf. by exists ns, del, cap.
Qed.

(** When the first call makes the list move to another array, the walk goes on in the old one, and all
    results are written there. *)
Lemma ReplaceAllElements_moved {W} trusted l v vs (cb : Callback W JSAPIList) f w l1 us : listRep trusted l (v :: vs) ->
  cb w l v 0 = Ok (f w v 0, l1) -> present (SingleList l1) <> present (SingleList l) -> readArray l1 (present (SingleList l)) = GetSingleList l ->
  listRep trusted l1 us -> (forall w c u k, 0 < k -> cb w c u k = Ok (f w u k, c)) ->
  returns (ReplaceAllElements l cb w) (fun '(w', l') => w' = (mapCalls f w 0 (v :: vs)).2 /\ listRep trusted l' us).
Proof.
  intros (a & E & (ns & del & cap & Hi & Hvs & _) & _) Hc0 Hmoved Hold (b & Eb & Hb & Hub) Hcb. unfold ReplaceAllElements.
  set (h := present (SingleList l)) in *. change (GetSingleList l) with (readArray l h) in *. rewrite E, bind_Ok, (NumberOfNodes_eq _ _ _ _ _ Hi), bind_Ok, Nat2Z.id.
  assert (length (v :: vs) = length ns) as Hlen by (rewrite <- Hvs; apply valuesAt_length). rewrite <- Hlen.
  eapply returns_bind; [apply (for_up_returns (fun i '(node, w', l') => node = lastOr 4 (take i ns) /\ w' = (mapCalls f w 0 (take i (v :: vs))).2 /\
    (i = 0%nat /\ l' = l \/ (0 < i)%nat /\ present (SingleList l') = present (SingleList l1) /\ IsOrderedList l' = IsOrderedList l1 /\
      readArray l' (present (SingleList l1)) = Ok b /\
      exists a', readArray l' h = Ok a' /\ listInv SINGLE a' ns del cap /\ drop i (valuesAt a' ns) = drop i (v :: vs))))|].
  - split_and!; [done|done|by left].
  - intros i [[node w'] l'] Hb' (-> & -> & Hst). destruct (lookup_lt_is_Some_2 ns i) as [n Hni]; [lia|].
    destruct (lookup_lt_is_Some_2 (v :: vs) i) as [x Hx]; [lia|].
    assert (exists a' l2 a2, readArray l' h = Ok a' /\ listInv SINGLE a' ns del cap /\ readArray l2 h = Ok a2 /\ listInv SINGLE a2 ns del cap /\
      cb (mapCalls f w 0 (take i (v :: vs))).2 l' (GetElement a' n) (Z.of_nat i) = Ok (f (mapCalls f w 0 (take i (v :: vs))).2 x (Z.of_nat i), l2) /\
      present (SingleList l2) = present (SingleList l1) /\ IsOrderedList l2 = IsOrderedList l1 /\ readArray l2 (present (SingleList l1)) = Ok b /\
      drop i (valuesAt a2 ns) = drop i (v :: vs)) as (a' & l2 & a2 & E' & Hi' & E2 & Hi2 & Ec & Ep2 & Ef2 & Eb2 & Hv2).
    { destruct Hst as [[-> ->]|(Hpos & Ep & Ef & Eb' & a' & Ea' & Hi' & Hv')].
      - injection Hx as <-. exists a, l1, a. split_and!; try done; [by rewrite Hold|]. cbn [take mapCalls snd].
        assert (valuesAt a ns !! 0%nat = Some v) as H by (by rewrite Hvs). rewrite valuesAt_lookup, Hni in H. injection H as ->. done.
      - exists a', l', a'. split_and!; try done. rewrite Hcb by lia. do 3 f_equal.
        assert (drop i (valuesAt a' ns) !! 0%nat = Some x) as H by (by rewrite Hv', lookup_drop, Nat.add_0_r).
        rewrite lookup_drop, Nat.add_0_r, valuesAt_lookup, Hni in H. by injection H. }
    destruct (f (mapCalls f w 0 (take i (v :: vs))).2 x (Z.of_nat i)) as [r w2] eqn:Ef.
    eapply returns_mono; [exact (replaceRound cb h ns del cap i n l' a' _ r w2 l2 a2 E' Hi' Hni Ec E2 Hi2)|].
    intros [[node w'] l3] (-> & -> & Ep3 & Ef3 & Eo3 & a3 & E3 & Hi3 & Hv3). split_and!; [done| |right].
    + rewrite (take_S_r _ _ _ Hx), mapCalls_snoc, length_take_le, Z.add_0_l by lia. destruct (mapCalls f w 0 (take i (v :: vs))) as [rs w1]. cbn [fst snd] in *. by rewrite Ef.
    + split_and!; [lia|congruence|congruence|by rewrite Eo3|]. exists a3. split_and!; [done|done|].
      rewrite Hv3, drop_insert_lt by lia. rewrite <- (Nat.add_1_r i), <- !drop_drop. by rewrite Hv2.
  - intros [[node w'] l'] (_ & -> & Hst). apply returns_ok. cbn [Nat.add] in *. rewrite firstn_all. split; [done|].
    destruct Hst as [[H _]|(_ & Ep & Ef & Eb' & _)]; [done|]. exists b. rewrite Ef. split_and!; [unfold GetSingleList, presentArray; rewrite Ep; exact Eb'|done|done].
Qed.

Lemma bind_inv {A B} (m : result A) (k : A -> result B) b : (m ≫= k) = Ok b -> exists a, m = Ok a /\ k a = Ok b.
Proof. destruct m as [a|]; [by exists a|done]. Qed.

(** The array of the list has no room for another node. *)
Definition isFull (l : JSAPIList) : bool :=
  match (a ← GetSingleList l; GrowCapacity SINGLE a) with Ok (isNew, _) => isNew | Err _ => false end.

(** Adding to a full list moves it to a new array; the old one stays as it is. *)
Lemma list_add_moves trusted l vs x : listRep trusted l vs -> Z.of_nat (length vs) < 2 ^ 27 -> x <> Hole -> isFull l = true ->
  exists l1, list_add (This l) x = Ok (true, l1) /\ present (SingleList l1) <> present (SingleList l) /\
    readArray l1 (present (SingleList l)) = GetSingleList l /\ listRep trusted l1 (vs ++ [x]).
Proof.
  intros Hl Hn Hx Hf. pose proof (ListAdd_returns trusted l vs Hl Hn x Hx) as H.
  destruct (list_add (This l) x) as [[b l1]|] eqn:Eadd; cbn in H; [|done]. destruct H as [-> Hl1]. exists l1. split; [done|].
  destruct Hl as (a & E & _). unfold isFull in Hf. rewrite E, bind_Ok in Hf.
  unfold list_add, Add in Eadd. cbn [receive] in Eadd. rewrite bind_Ok, E, bind_Ok in Eadd. unfold SingleList.Add, SingleList.AddNode in Eadd.
  destruct (GetIntElement a TAIL_TABLE_INDEX) as [t|]; [|done]. rewrite bind_Ok in Eadd.
  destruct (GrowCapacity SINGLE a) as [[isNew b]|]; [|done]. subst isNew. rewrite bind_Ok in Eadd.
  rewrite !bind_assoc in Eadd. do 4 (apply bind_inv in Eadd as (? & _ & Eadd); rewrite ?bind_assoc in Eadd). rewrite !bind_Ok in Eadd.
  unfold SetSingleList, setPresent in Eadd. rewrite !bind_Ok in Eadd. injection Eadd as <-. cbn [SingleList present].
  unfold GetSingleList, presentArray, readArray, deref, get in *. cbn [SingleList allArrays].
  destruct (allArrays (SingleList l) !! present (SingleList l)) as [y|] eqn:Ey; [|done]. pose proof (lookup_lt_Some _ _ _ Ey).
  split_and!; [lia|by rewrite lookup_app_l, Ey|done].
Qed.
