(* ===== verification/LinkedListCorrect.v ===== *)
(** * The linked list container: the list it is observed as

    Along any sequence of calls a [JSAPILinkedList] is observed as a list of values. *)

From Stdlib Require Import ZArith Lia.
From S2P Require Import Prelude Double Values Containers TaggedArray TaggedList DoubleList ListRep LinkedListContainer JSAPIList ListContainerCorrect.
From S2P Require Import LinkedListContainer.

(** ** Specification *)

Inductive LinkedOp :=
| OpAdd (v : JSTaggedValue)
| OpAddFirst (v : JSTaggedValue)
| OpGetFirst
| OpGetLast
| OpLength
| OpInsert (index v : JSTaggedValue)
| OpClear
| OpClone
| OpHas (v : JSTaggedValue)
| OpGet (index : JSTaggedValue)
| OpGetIndexOf (v : JSTaggedValue)
| OpGetLastIndexOf (v : JSTaggedValue)
| OpRemoveByIndex (index : JSTaggedValue)
| OpRemove (v : JSTaggedValue)
| OpRemoveFirst
| OpRemoveFirstFound (v : JSTaggedValue)
| OpRemoveLast
| OpRemoveLastFound (v : JSTaggedValue)
| OpSet (index v : JSTaggedValue)
| OpConvertToArray
| OpGetAt (key : JSTaggedValue)
| OpSetAt (key v : JSTaggedValue).

(** The values a program passes are no holes. *)
Definition okLinkedOp (op : LinkedOp) : Prop :=
  match op with
  | OpAdd v | OpAddFirst v | OpInsert _ v | OpRemove v | OpRemoveFirstFound v | OpRemoveLastFound v | OpSet _ v | OpSetAt _ v => v <> Hole
  | _ => True
  end.

Definition linkedStep (l : JSAPILinkedList) (op : LinkedOp) : Observation * JSAPILinkedList :=
  match op with
  | OpAdd v => observe l Truth (linked_add (This l) v)
  | OpAddFirst v => observe l Truth (linked_addFirst (This l) v)
  | OpGetFirst => observeRead l Value (linked_getFirst (This l))
  | OpGetLast => observeRead l Value (linked_getLast (This l))
  | OpLength => observeRead l Count (linked_length (This l))
  | OpInsert index v => observe l Truth (linked_insert (This l) index v)
  | OpClear => observeUpdate l (linked_clear (This l))
  | OpClone => observeRead l Elements_ (copy ← linked_clone (This l); ConvertToArray copy)
  | OpHas v => observeRead l Truth (linked_has (This l) v)
  | OpGet index => observeRead l Value (linked_get (This l) index)
  | OpGetIndexOf v => observeRead l Count (linked_getIndexOf (This l) v)
  | OpGetLastIndexOf v => observeRead l Count (linked_getLastIndexOf (This l) v)
  | OpRemoveByIndex index => observe l Value (linked_removeByIndex (This l) index)
  | OpRemove v => observe l Truth (linked_remove (This l) v)
  | OpRemoveFirst => observe l Value (linked_removeFirst (This l))
  | OpRemoveFirstFound v => observe l Truth (linked_removeFirstFound (This l) v)
  | OpRemoveLast => observe l Value (linked_removeLast (This l))
  | OpRemoveLastFound v => observe l Truth (linked_removeLastFound (This l) v)
  | OpSet index v => observe l Value (linked_set (This l) index v)
  | OpConvertToArray => observeRead l Elements_ (linked_convertToArray (This l))
  | OpGetAt key => observeRead l Value (GetProperty l key)
  | OpSetAt key v => observe l Truth (SetProperty l key v)
  end.

(** Removing the last value equal to [v] is an error when there is none, also on an empty list. *)
Definition abstractLinkedStep (l : list JSTaggedValue) (op : LinkedOp) : Observation * list JSTaggedValue :=
  let n := Z.of_nat (length l) in
  match op with
  | OpAdd v => (Truth true, l ++ [v])
  | OpAddFirst v => (Truth true, v :: l)
  | OpGetFirst => (Value (default Undefined (head l)), l)
  | OpGetLast => (Value (default Undefined (last l)), l)
  | OpLength => (Count n, l)
  | OpInsert index v => withInt l IndexType index (fun i =>
      if (0 <=? i) && (i <=? n) then (Truth true, take (Z.to_nat i) l ++ v :: drop (Z.to_nat i) l) else (Throws IndexRange, l))
  | OpClear => (Nothing, [])
  | OpClone => (Elements_ l, l)
  | OpHas v => (Truth (existsb (fun u => SameValue u v) l), l)
  | OpGet index => withInt l IndexType index (fun i => (Value (default Undefined (lookupInt l i)), l))
  | OpGetIndexOf v => (Count (indexWhere (fun u => SameValue u v) l), l)
  | OpGetLastIndexOf v => (Count (lastIndexWhere (fun u => SameValue u v) l), l)
  | OpRemoveByIndex index => withInt l IndexType index (fun i =>
      if n =? 0 then (Throws ContainerEmpty, l) else
      match lookupInt l i with Some v => (Value v, delete (Z.to_nat i) l) | None => (Throws IndexRange, l) end)
  | OpRemove v => (Truth (existsb (fun u => SameValue u v) l), removeFirstEqual v l)
  | OpRemoveFirst => match l with [] => (Throws EmptyList, l) | v :: l' => (Value v, l') end
  | OpRemoveFirstFound v =>
      if n =? 0 then (Throws EmptyList, l) else
      let i := indexWhere (fun u => SameValue u v) l in
      if i <? 0 then (Throws ElementNotExist, l) else (Truth true, delete (Z.to_nat i) l)
  | OpRemoveLast => match last l with None => (Throws EmptyList, l) | Some v => (Value v, take (length l - 1) l) end
  | OpRemoveLastFound v =>
      let i := lastIndexWhere (fun u => SameValue u v) l in
      if i <? 0 then (Throws ElementNotExist, l) else (Truth true, delete (Z.to_nat i) l)
  | OpSet index v => withInt l IndexType index (fun i =>
      if n =? 0 then (Throws ContainerEmpty, l) else
      if (0 <=? i) && (i <? n) then (Value v, <[Z.to_nat i := v]> l) else (Throws IndexRange, l))
  | OpConvertToArray => (Elements_ l, l)
  | OpGetAt key => withInt l IndexType key (fun i =>
      match lookupInt l i with Some v => (Value v, l) | None => (Throws IndexRange, l) end)
  | OpSetAt key v =>
      match indexKeyOf key with
      | Int i => if (0 <=? i) && (i <? n) then (Truth true, <[Z.to_nat i := v]> l) else (Truth false, l)
      | _ => (Truth false, l)
      end
  end.

(** ** Simulation *)

Definition linkedRep (l : JSAPILinkedList) (vs : list JSTaggedValue) : Prop :=
  exists a, GetDoubleList l = Ok a /\ doubleRep a vs /\ noHoles vs.

Section Step.
  Context (l : JSAPILinkedList) (vs : list JSTaggedValue).
  Hypothesis Hl : linkedRep l vs.
  Hypothesis Hn : Z.of_nat (length vs) < 2 ^ 27.

Lemma storeDouble_returns {B} (b : B) isNew a ws : doubleRep a ws -> noHoles ws ->
  returns (l' ← SetDoubleList l isNew a; Ok (b, l')) (fun '(b', l') => b' = b /\ linkedRep l' ws).
Proof.
  intros Ha Hv. destruct Hl as (a0 & E & _). unfold SetDoubleList. rewrite bind_assoc. eapply returns_bind; [exact (setPresent_returns _ _ a _ E)|].
  intros s Hs. rewrite bind_Ok. apply returns_ok. split; [done|]. exists a. split_and!; [exact Hs|done|done].
Qed.

Lemma linkedAdd_returns v : v <> Hole -> returns (linked_add (This l) v) (fun '(b, l') => b = true /\ linkedRep l' (vs ++ [v])).
Proof.
  intros Hv. pose proof Hl as (a & E & Ha & Hh). unfold linked_add, Add. cbn [receive]. rewrite bind_Ok, E, bind_Ok, bind_assoc.
  eapply returns_bind; [exact (doubleAdd_returns _ _ Ha v Hn)|]. intros [isNew a'] Ha'.
  apply storeDouble_returns; [done|]. apply Forall_app. split; [done|by apply Forall_singleton].
Qed.

Lemma linkedAddFirst_returns v : v <> Hole -> returns (linked_addFirst (This l) v) (fun '(b, l') => b = true /\ linkedRep l' (v :: vs)).
Proof.
  intros Hv. pose proof Hl as (a & E & Ha & Hh). unfold linked_addFirst, AddFirst. cbn [receive]. rewrite bind_Ok, E, bind_Ok, bind_assoc.
  eapply returns_bind; [exact (AddFirst_returns _ _ Ha v Hn)|]. intros [isNew a'] Ha'. apply storeDouble_returns; [done|]. by apply Forall_cons.
Qed.

Lemma linkedInsert_returns v i : v <> Hole ->
  if (0 <=? i) && (i <=? Z.of_nat (length vs))
  then returns (Insert l v i) (fun '(b, l') => b = true /\ linkedRep l' (take (Z.to_nat i) vs ++ v :: drop (Z.to_nat i) vs))
  else Insert l v i = Err IndexRange.
Proof.
  intros Hv. pose proof Hl as (a & E & Ha & Hh). unfold Insert. rewrite E, bind_Ok. unfold Length.
  rewrite (doubleNodes_eq _ _ Ha), bind_Ok, beyond_eq. destruct ((0 <=? i) && (i <=? Z.of_nat (length vs))) eqn:Ei; cbn [negb]; [|done].
  assert (exists j, i = Z.of_nat j) as [j ->] by (exists (Z.to_nat i); lia). rewrite Nat2Z.id.
  eapply returns_bind; [exact (doubleInsert_returns _ _ Ha v j ltac:(lia) Hn)|]. intros [isNew a'] Ha'.
  apply storeDouble_returns; [done|by apply noHoles_add].
Qed.

Lemma linkedSetStore_returns {B} (b : B) i v a : v <> Hole -> (0 <=? i) && (i <? Z.of_nat (length vs)) = true -> GetDoubleList l = Ok a ->
  returns (doubleList ← DoubleList.Set_ a i v; l' ← SetDoubleList l false doubleList; Ok (b, l'))
    (fun '(b', l') => b' = b /\ linkedRep l' (<[Z.to_nat i := v]> vs)).
Proof.
  intros Hv Hi Ea. pose proof Hl as (a0 & E & Ha & Hh). rewrite Ea in E. injection E as <-. apply inBounds_nat in Hi as (j & -> & Hj). rewrite Nat2Z.id.
  eapply returns_bind; [exact (doubleSet_returns _ _ Ha j v Hj)|]. intros a' Ha'. apply storeDouble_returns; [done|by apply noHoles_insert].
Qed.

Lemma linkedSet_returns i v : v <> Hole ->
  if Z.of_nat (length vs) =? 0 then Set_ l i v = Err ContainerEmpty else
  if (0 <=? i) && (i <? Z.of_nat (length vs))
  then returns (Set_ l i v) (fun '(r, l') => r = v /\ linkedRep l' (<[Z.to_nat i := v]> vs))
  else Set_ l i v = Err IndexRange.
Proof.
  intros Hv. pose proof Hl as (a & E & Ha & Hh). unfold Set_. rewrite E, bind_Ok. unfold Length.
  rewrite (doubleNodes_eq _ _ Ha), bind_Ok, outOfBounds_eq.
  destruct (Z.eqb_spec (Z.of_nat (length vs)) 0), (Z.leb_spec (Z.of_nat (length vs)) 0); try lia; [done|].
  destruct ((0 <=? i) && (i <? Z.of_nat (length vs))) eqn:Ei; cbn [negb]; [|done]. by apply linkedSetStore_returns.
Qed.

Lemma linkedSetProperty_returns i v key : v <> Hole -> indexKeyOf key = Int i ->
  if (0 <=? i) && (i <? Z.of_nat (length vs))
  then returns (SetProperty l key v) (fun '(r, l') => r = true /\ linkedRep l' (<[Z.to_nat i := v]> vs))
  else SetProperty l key v = Ok (false, l).
Proof.
  intros Hv Hk. pose proof Hl as (a & E & Ha & Hh). unfold SetProperty. rewrite E, bind_Ok. unfold Length.
  rewrite (doubleNodes_eq _ _ Ha), bind_Ok, Hk, outOfBounds_eq.
  destruct ((0 <=? i) && (i <? Z.of_nat (length vs))) eqn:Ei; cbn [negb]; [|done]. by apply linkedSetStore_returns.
Qed.

Lemma linkedClear_returns : returns (Clear l) (fun l' => linkedRep l' []).
Proof.
  pose proof Hl as (a & E & Ha & Hh). unfold Clear. rewrite E, bind_Ok, (doubleNodes_eq _ _ Ha), bind_Ok.
  destruct (Z.ltb_spec 0 (Z.of_nat (length vs))) as [Hlt|Hge].
  - eapply returns_bind; [exact (DoubleClear_returns _ _ Ha)|]. intros a' Ha'. unfold SetDoubleList.
    eapply returns_bind; [exact (setPresent_returns _ _ a' _ E)|]. intros s Hs. apply returns_ok. exists a'. split_and!; [exact Hs|done|by apply Forall_nil].
  - apply returns_ok. destruct vs; [done|cbn in Hge; lia].
Qed.

Lemma linkedRemoveByIndex_returns i :
  if Z.of_nat (length vs) =? 0 then RemoveByIndex l i = Err ContainerEmpty else
  match lookupInt vs i with
  | Some v => returns (RemoveByIndex l i) (fun '(r, l') => r = v /\ linkedRep l' (delete (Z.to_nat i) vs))
  | None => RemoveByIndex l i = Err IndexRange
  end.
Proof.
  pose proof Hl as (a & E & Ha & Hh). unfold RemoveByIndex. rewrite E, bind_Ok. unfold Length.
  rewrite (doubleNodes_eq _ _ Ha), bind_Ok, outOfBounds_eq, lookupInt_in.
  destruct (Z.eqb_spec (Z.of_nat (length vs)) 0), (Z.leb_spec (Z.of_nat (length vs)) 0); try lia; [done|].
  pose proof (lookupInt_in vs i) as Hin. destruct (lookupInt vs i) as [v|] eqn:Ev; cbn [negb]; [|done].
  apply inBounds_nat in Hin as (j & -> & Hj). unfold lookupInt in Ev. destruct (Z.ltb_spec (Z.of_nat j) 0); [lia|]. rewrite Nat2Z.id in *.
  eapply returns_bind; [exact (DoubleRemoveByIndex_returns _ _ Ha j Hj)|]. intros [r a'] [Hr Ha']. rewrite Hr in Ev. injection Ev as ->.
  apply storeDouble_returns; [done|by apply noHoles_delete].
Qed.

Lemma linkedRemove_returns x : x <> Hole ->
  returns (Remove l x) (fun '(b, l') => b = existsb (fun v => SameValue v x) vs /\ linkedRep l' (removeFirstEqual x vs)).
Proof.
  intros Hx. pose proof Hl as (a & E & Ha & Hh). unfold Remove. rewrite E, bind_Ok. unfold Length. rewrite (doubleNodes_eq _ _ Ha), bind_Ok.
  destruct (Z.ltb_spec (Z.of_nat (length vs)) 0); [lia|].
  eapply returns_bind; [exact (doubleRemove_returns _ _ Ha x (SameValue_Hole x Hx))|]. intros [r a'] [-> Ha'].
  apply (storeDouble_returns _ _ _ (removeFirstEqual x vs)); [done|]. unfold removeFirstEqual. cbv zeta. destruct (_ <? 0); [done|by apply noHoles_delete].
Qed.

Lemma linkedRemoveFirst_returns :
  match head vs with
  | None => RemoveFirst l = Err EmptyList
  | Some v => returns (RemoveFirst l) (fun '(r, l') => r = v /\ linkedRep l' (tail vs))
  end.
Proof.
  pose proof Hl as (a & E & Ha & Hh). unfold RemoveFirst. rewrite E, bind_Ok. unfold Length. rewrite (doubleNodes_eq _ _ Ha), bind_Ok.
  assert (head vs = None -> vs = []) as Hnil by (by destruct vs). assert (noHoles (tail vs)) as Ht by (by apply Forall_tail).
  destruct (head vs) as [v|] eqn:Ev; [|by rewrite Hnil]. assert (vs <> []) as Hne by (by intros ->).
  assert (length vs <> 0)%nat by (by intros ?%length_zero_iff_nil). destruct (Z.leb_spec (Z.of_nat (length vs)) 0); [lia|].
  eapply returns_bind; [apply (RemoveFirst_returns _ _ Ha); done|]. intros [r a'] [Hr Ha']. rewrite Hr in Ev. injection Ev as ->.
  by apply storeDouble_returns.
Qed.

Lemma linkedRemoveLast_returns :
  match last vs with
  | None => RemoveLast l = Err EmptyList
  | Some v => returns (RemoveLast l) (fun '(r, l') => r = v /\ linkedRep l' (take (length vs - 1) vs))
  end.
Proof.
  pose proof Hl as (a & E & Ha & Hh). unfold RemoveLast. rewrite E, bind_Ok. unfold Length. rewrite (doubleNodes_eq _ _ Ha), bind_Ok.
  destruct (last vs) as [v|] eqn:Ev; [|by apply last_None in Ev as ->]. assert (vs <> []) as Hne by (by intros ->).
  assert (length vs <> 0)%nat by (by intros ?%length_zero_iff_nil). destruct (Z.leb_spec (Z.of_nat (length vs)) 0); [lia|].
  eapply returns_bind; [apply (RemoveLast_returns _ _ Ha); done|]. intros [r a'] [Hr Ha']. rewrite Hr in Ev. injection Ev as ->.
  apply storeDouble_returns; [done|]. by apply Forall_take.
Qed.

(** The removals that insist on finding something. *)
Lemma linkedRemoveFirstFound_returns x : x <> Hole ->
  if Z.of_nat (length vs) =? 0 then RemoveFirstFound l x = Err EmptyList else
  let i := indexWhere (fun v => SameValue v x) vs in
  if i <? 0 then RemoveFirstFound l x = Err ElementNotExist
  else returns (RemoveFirstFound l x) (fun '(b, l') => b = true /\ linkedRep l' (delete (Z.to_nat i) vs)).
Proof.
  intros Hx. pose proof Hl as (a & E & Ha & Hh). unfold RemoveFirstFound. rewrite E, bind_Ok. unfold Length. rewrite (doubleNodes_eq _ _ Ha), bind_Ok.
  destruct (Z.eqb_spec (Z.of_nat (length vs)) 0), (Z.leb_spec (Z.of_nat (length vs)) 0); try lia; [done|].
  pose proof (RemoveFirstFound_outcome _ _ Ha x (SameValue_Hole x Hx)) as H'. cbv zeta in *. destruct (_ <? 0); [by rewrite H'|].
  eapply returns_bind; [exact H'|]. intros [r a'] [-> Ha']. apply storeDouble_returns; [done|by apply noHoles_delete].
Qed.

Lemma linkedRemoveLastFound_returns x : x <> Hole ->
  let i := lastIndexWhere (fun v => SameValue v x) vs in
  if i <? 0 then RemoveLastFound l x = Err ElementNotExist
  else returns (RemoveLastFound l x) (fun '(b, l') => b = true /\ linkedRep l' (delete (Z.to_nat i) vs)).
Proof.
  intros Hx. pose proof Hl as (a & E & Ha & Hh). unfold RemoveLastFound. rewrite E, bind_Ok. unfold Length. rewrite (doubleNodes_eq _ _ Ha), bind_Ok.
  destruct (Z.ltb_spec (Z.of_nat (length vs)) 0); [lia|].
  pose proof (RemoveLastFound_outcome _ _ Ha x (SameValue_Hole x Hx)) as H'. cbv zeta in *. destruct (_ <? 0); [by rewrite H'|].
  eapply returns_bind; [exact H'|]. intros [r a'] [-> Ha']. apply storeDouble_returns; [done|by apply noHoles_delete].
Qed.

Lemma linkedConvertToArray_eq : ConvertToArray l = Ok vs.
Proof.
  destruct Hl as (a & E & (ns & del & cap & Hi & <- & _) & _). unfold ConvertToArray. rewrite E, bind_Ok.
  apply (TaggedListToArray_eq _ _ _ _ _ Hi). rewrite valuesAt_length in Hn. lia.
Qed.

(** A clone holds the same list. *)
Lemma Clone_returns : returns (Clone l) (fun l' => linkedRep l' vs).
Proof.
  destruct Hl as (a & E & (ns & del & cap & Hi & Hv & Hcap) & Hh). pose proof (inv_length _ _ _ _ _ Hi) as Hlen.
  pose proof (inv_del _ _ _ _ _ Hi). pose proof (inv_room _ _ _ _ _ Hi) as Hr. cbn [ENTRY_SIZE] in Hlen.
  unfold Clone. rewrite E, bind_Ok, (NumberOfNodes_eq _ _ _ _ _ Hi), bind_Ok, (NumberOfDeletedNodes_eq _ _ _ _ _ Hi), bind_Ok.
  rewrite !(u32_small (Z.of_nat _)), !(u32_small del) by (unfold is_u32; rewrite BASE_eq; lia). unfold ELEMENTS_START_INDEX. cbn [ENTRY_SIZE].
  rewrite u32_small by (unfold is_u32; rewrite BASE_eq; lia). set (c := 4 + (Z.of_nat (length ns) + del + 1) * 3).
  unfold NewAndCopyTaggedArray. destruct (Z.eqb_spec c 0); [lia|]. destruct (Z.ltb_spec c c); [lia|].
  destruct (Z.ltb_spec (Z.of_nat (length a)) (0 + c)); [unfold c in *; lia|]. cbn [orb]. rewrite bind_Ok. apply returns_ok.
  change (drop (Z.to_nat 0) a) with a. rewrite Z.sub_diag. change (replicate (Z.to_nat 0) Hole) with (@nil JSTaggedValue). rewrite app_nil_r.
  destruct (resize_inv DOUBLE a ns del cap (take (Z.to_nat c) a) (Z.of_nat (length ns) + del) Hi) as [Hi' Hv'].
  - intros i Hb. rewrite !GetElement_lookup by lia. f_equal. apply lookup_take_lt. unfold c. cbn in Hb. lia.
  - rewrite length_take. unfold c in *. cbn. lia.
  - lia.
  - exists (take (Z.to_nat c) a). split_and!; [done| |done]. eexists ns, del, _. split_and!; [exact Hi'|congruence|lia].
Qed.
End Step.

(** *** Reads *)

Section Reads.
  Context (l : JSAPILinkedList) (vs : list JSTaggedValue).
  Hypothesis Hl : linkedRep l vs.

Lemma linkedGetFirst_eq : GetFirst l = Ok (default Undefined (head vs)).
Proof.
  destruct Hl as (a & E & (ns & del & cap & Hi & <- & _) & Hh). unfold GetFirst. rewrite E, bind_Ok, (headElement_eq _ _ _ _ _ Hi), bind_Ok.
  f_equal. by apply holeToUndefined_default, head_noHole.
Qed.

Lemma linkedGetLast_eq : GetLast l = Ok (default Undefined (last vs)).
Proof.
  destruct Hl as (a & E & (ns & del & cap & Hi & <- & _) & Hh). unfold GetLast. rewrite E, bind_Ok, (GetLast_eq _ _ _ _ _ Hi), bind_Ok.
  f_equal. by apply holeToUndefined_default, last_noHole.
Qed.

Lemma linkedLength_eq : (doubleList ← GetDoubleList l; Length doubleList) = Ok (Z.of_nat (length vs)).
Proof. destruct Hl as (a & E & Ha & _). rewrite E, bind_Ok. apply (doubleNodes_eq _ _ Ha). Qed.

Lemma linkedHas_eq x : Has l x = Ok (existsb (fun v => SameValue v x) vs).
Proof. destruct Hl as (a & E & Ha & _). unfold Has. rewrite E, bind_Ok. apply (doubleHas_eq _ _ Ha). Qed.

Lemma linkedGetIndexOf_eq x : GetIndexOf l x = Ok (indexWhere (fun v => SameValue v x) vs).
Proof. destruct Hl as (a & E & (ns & del & cap & Hi & <- & _) & _). unfold GetIndexOf. rewrite E, bind_Ok. apply (FindIndexByElement_eq _ _ _ _ _ Hi). Qed.

Lemma linkedGetLastIndexOf_eq x : GetLastIndexOf l x = Ok (lastIndexWhere (fun v => SameValue v x) vs).
Proof.
  destruct Hl as (a & E & (ns & del & cap & Hi & <- & _) & _). unfold GetLastIndexOf. rewrite E, bind_Ok.
  apply (FindLastIndexByElement_eq _ _ _ _ _ Hi).
Qed.

(** The element found from the nearer end. *)
Lemma linkedElement_eq a i v : doubleRep a vs -> lookupInt vs i = Some v -> DoubleList.Get a i = Ok v.
Proof.
  intros Ha Ev. pose proof (lookupInt_in vs i) as Hin. rewrite Ev in Hin. apply inBounds_nat in Hin as (j & -> & Hj).
  unfold lookupInt in Ev. destruct (Z.ltb_spec (Z.of_nat j) 0); [lia|]. rewrite Nat2Z.id in Ev.
  rewrite (doubleGet_eq _ _ Ha j Hj). by rewrite Ev.
Qed.

Lemma linkedGet_eq i : Get l i = Ok (default Undefined (lookupInt vs i)).
Proof.
  destruct Hl as (a & E & Ha & _). unfold Get. rewrite E, bind_Ok. unfold Length. rewrite (doubleNodes_eq _ _ Ha), bind_Ok.
  rewrite outOfBounds_eq, lookupInt_in. destruct (lookupInt vs i) eqn:Ev; cbn [negb]; [|done]. by apply linkedElement_eq.
Qed.

Lemma linkedGetProperty_eq key : GetProperty l key =
  match indexKeyOf key with
  | Int i => match lookupInt vs i with Some v => Ok v | None => Err IndexRange end
  | _ => Err IndexType
  end.
Proof.
  destruct Hl as (a & E & Ha & _). unfold GetProperty. rewrite E, bind_Ok. unfold Length. rewrite (doubleNodes_eq _ _ Ha), bind_Ok.
  destruct (indexKeyOf key) as [| | | |i| | | |]; try done. rewrite outOfBounds_eq, lookupInt_in.
  destruct (lookupInt vs i) eqn:Ev; cbn [negb]; [|done]. by apply linkedElement_eq.
Qed.

(** The array of a clone. *)
Lemma Clone_elements : Z.of_nat (length vs) < 2 ^ 27 -> (copy ← Clone l; ConvertToArray copy) = Ok vs.
Proof.
  intros Hn. apply returns_eq. eapply returns_bind; [exact (Clone_returns l vs Hl)|]. intros l' Hl'.
  rewrite (linkedConvertToArray_eq l' vs Hl' Hn). by apply returns_ok.
Qed.
End Reads.

(** After [k] calls. *)
Definition linkedListRep (k : nat) (l : JSAPILinkedList) (vs : list JSTaggedValue) : Prop := linkedRep l vs /\ (length vs <= k)%nat.

Lemma linkedStep_simulates k l vs op : linkedListRep k l vs -> Z.of_nat k < 2 ^ 26 -> okLinkedOp op ->
  (linkedStep l op).1 = (abstractLinkedStep vs op).1 /\ linkedListRep (S k) (linkedStep l op).2 (abstractLinkedStep vs op).2.
Proof.
  intros [Hl Hk] Hb Hok. assert (Z.of_nat (length vs) < 2 ^ 27) as Hn by lia.
  assert (linkedListRep (S k) l vs) as Hsame by (split; [done|lia]). pose proof (length_delete_le vs) as Hdel.
  destruct op as [v|v| | | |ix v| | |v|ix|v|v|ix|v| |v| |v|ix v| |key|key v]; cbn [linkedStep abstractLinkedStep okLinkedOp] in *;
    unfold linked_insert, linked_getFirst, linked_getLast, linked_length, linked_clear, linked_clone, linked_has, linked_get, linked_getIndexOf,
      linked_getLastIndexOf, linked_removeByIndex, linked_remove, linked_removeFirst, linked_removeFirstFound, linked_removeLast,
      linked_removeLastFound, linked_set, linked_convertToArray, indexArgument, withInt;
    cbn [receive]; rewrite ?bind_Ok; unfold observeRead; cbn [fst snd].
  - observed l Truth H; [by apply (linkedAdd_returns l vs)|]. destruct H as [-> H]. split; [done|]. split; [done|rewrite length_app; cbn; lia].
  - observed l Truth H; [by apply (linkedAddFirst_returns l vs)|]. destruct H as [-> H]. split; [done|]. split; [done|cbn; lia].
  - by rewrite (linkedGetFirst_eq l vs).
  - by rewrite (linkedGetLast_eq l vs).
  - by rewrite (linkedLength_eq l vs).
  - destruct (indexKeyOf ix) as [| | | |i| | | |]; try done. rewrite bind_Ok. pose proof (linkedInsert_returns l vs Hl Hn v i Hok) as H.
    destruct ((0 <=? i) && (i <=? Z.of_nat (length vs))) eqn:Ei; [|by rewrite H].
    observed l Truth H'; [exact H|]. destruct H' as [-> H']. split; [done|]. split; [done|]. rewrite length_app, length_take. cbn. rewrite length_drop. lia.
  - pose proof (linkedClear_returns l vs Hl Hn) as H. apply returns_iff in H as (l' & -> & H). cbn. split; [done|]. split; [done|cbn; lia].
  - by rewrite (Clone_elements l vs).
  - by rewrite (linkedHas_eq l vs).
  - destruct (indexKeyOf ix) as [| | | |i| | | |]; try done. rewrite bind_Ok. by rewrite (linkedGet_eq l vs).
  - by rewrite (linkedGetIndexOf_eq l vs).
  - by rewrite (linkedGetLastIndexOf_eq l vs).
  - destruct (indexKeyOf ix) as [| | | |i| | | |]; try done. rewrite bind_Ok. pose proof (linkedRemoveByIndex_returns l vs Hl i) as H.
    destruct (Z.of_nat (length vs) =? 0); [by rewrite H|]. destruct (lookupInt vs i) as [v|] eqn:Ev; [|by rewrite H].
    observed l Value H'; [exact H|]. destruct H' as [-> H']. split; [done|]. split; [done|]. cbn. specialize (Hdel (Z.to_nat i)). lia.
  - observed l Truth H; [by apply (linkedRemove_returns l vs)|]. destruct H as [-> H]. split; [done|]. split; [done|]. cbn.
    unfold removeFirstEqual. cbv zeta. specialize (Hdel (Z.to_nat (indexWhere (fun u => SameValue u v) vs))). destruct (_ <? 0); lia.
  - pose proof (linkedRemoveFirst_returns l vs Hl Hn) as H. destruct vs as [|v vs']; [by rewrite H|]. cbn [head tail] in H.
    observed l Value H'; [exact H|]. destruct H' as [-> H']. split; [done|]. split; [done|cbn in *; lia].
  - pose proof (linkedRemoveFirstFound_returns l vs Hl v Hok) as H. cbv zeta in *. destruct (Z.of_nat (length vs) =? 0); [by rewrite H|].
    specialize (Hdel (Z.to_nat (indexWhere (fun u => SameValue u v) vs))). destruct (_ <? 0); [by rewrite H|].
    observed l Truth H'; [exact H|]. destruct H' as [-> H']. split; [done|]. split; [done|cbn in *; lia].
  - pose proof (linkedRemoveLast_returns l vs Hl Hn) as H. destruct (last vs) as [v|]; [|by rewrite H].
    observed l Value H'; [exact H|]. destruct H' as [-> H']. split; [done|]. split; [done|]. cbn. rewrite length_take. lia.
  - pose proof (linkedRemoveLastFound_returns l vs Hl v Hok) as H. cbv zeta in *.
    specialize (Hdel (Z.to_nat (lastIndexWhere (fun u => SameValue u v) vs))). destruct (_ <? 0); [by rewrite H|].
    observed l Truth H'; [exact H|]. destruct H' as [-> H']. split; [done|]. split; [done|cbn in *; lia].
  - destruct (indexKeyOf ix) as [| | | |i| | | |]; try done. rewrite bind_Ok. pose proof (linkedSet_returns l vs Hl i v Hok) as H.
    destruct (Z.of_nat (length vs) =? 0); [by rewrite H|]. destruct ((0 <=? i) && (i <? Z.of_nat (length vs))); [|by rewrite H].
    observed l Value H'; [exact H|]. destruct H' as [-> H']. split; [done|]. split; [done|rewrite length_insert; lia].
  - by rewrite (linkedConvertToArray_eq l vs).
  - rewrite (linkedGetProperty_eq l vs) by done. destruct (indexKeyOf key) as [| | | |i| | | |]; try done. by destruct (lookupInt vs i).
  - destruct (indexKeyOf key) as [| | | |i| | | |] eqn:Ek.
    5: { pose proof (linkedSetProperty_returns l vs Hl i v key Hok Ek) as H. destruct (_ && _); [|by rewrite H].
      observed l Truth H'; [exact H|]. destruct H' as [-> H']. split; [done|]. split; [done|rewrite length_insert; lia]. }
    all: destruct Hl as (a & E & Ha & Hh); unfold SetProperty; rewrite E, bind_Ok; unfold Length; rewrite (doubleNodes_eq _ _ Ha), bind_Ok, Ek; done.
Qed.
