(* ===== verification/ListAll.v ===== *)
(** * Lists: the theorems

    What programs see of the list and the linked list containers, from their constructors on. *)

From Stdlib Require Import ZArith Lia.
From S2P Require Import Prelude Double Values SortSpec ArrayHelper TimSortCorrect ContainerSort Containers TaggedArray TaggedList SingleList DoubleList ListRep JSAPIList LinkedListContainer ListContainerCorrect LinkedListCorrect ListIteration.

(** ** Runs *)

(** The list object after the calls [ops] on a new list, and the list of values it stands for. *)
Definition afterList (l0 : JSAPIList) (ops : list ListOp) : JSAPIList := (run listContainerStep l0 ops).2.
Definition listValues (ops : list ListOp) : list JSTaggedValue := (runSpec abstractListStep [] ops).2.
Definition afterLinked (l0 : JSAPILinkedList) (ops : list LinkedOp) : JSAPILinkedList := (run linkedStep l0 ops).2.
Definition linkedValues (ops : list LinkedOp) : list JSTaggedValue := (runSpec abstractLinkedStep [] ops).2.

Definition MAX_CALLS : Z := 2 ^ 26.

Lemma ListConstructor_rep trusted l0 : ListConstructor true = Ok l0 -> listContainerRep trusted 0 l0 [].
Proof.
  unfold ListConstructor. cbn [negb]. destruct SingleCreate_rep as (a & -> & Ha). rewrite bind_Ok. intros [= <-]. split; [|done].
  exists a. split_and!; [done| |by apply Forall_nil]. cbn [IsOrderedList]. rewrite andb_true_r. destruct trusted; [done|by eapply singleRep_weaken].
Qed.

Lemma LinkedListConstructor_rep l0 : LinkedListConstructor true = Ok l0 -> linkedListRep 0 l0 [].
Proof.
  unfold LinkedListConstructor. cbn [negb]. destruct DoubleCreate_rep as (a & -> & Ha). rewrite bind_Ok. intros [= <-]. split; [|done].
  exists a. split_and!; [done|done|by apply Forall_nil].
Qed.

Section Runs.
  Context (trusted : bool) (ops : list ListOp) (l0 : JSAPIList).
  Hypothesis H0 : ListConstructor true = Ok l0.
  Hypothesis Hlen : Z.of_nat (length ops) <= MAX_CALLS.
  Hypothesis Hok : Forall (okListOp trusted) ops.

Lemma list_run : (run listContainerStep l0 ops).1 = (runSpec abstractListStep [] ops).1 /\
  listRep trusted (afterList l0 ops) (listValues ops) /\ Z.of_nat (length (listValues ops)) < 2 ^ 27.
Proof.
  unfold MAX_CALLS in Hlen.
  destruct (run_simulates listContainerStep abstractListStep (okListOp trusted) (listContainerRep trusted) (Z.to_nat (2 ^ 26))) with (ops := ops) (k := 0%nat) (c := l0) (l := @nil JSTaggedValue) as [E [H Hk]].
  - intros k c l op Hc Hb Hop. apply listStep_simulates; [done|lia|done].
  - by apply ListConstructor_rep.
  - lia.
  - done.
  - split_and!; [done|done|]. unfold listValues. lia.
Qed.
End Runs.

Section LinkedRuns.
  Context (ops : list LinkedOp) (l0 : JSAPILinkedList).
  Hypothesis H0 : LinkedListConstructor true = Ok l0.
  Hypothesis Hlen : Z.of_nat (length ops) <= MAX_CALLS.
  Hypothesis Hok : Forall okLinkedOp ops.

Lemma linked_run : (run linkedStep l0 ops).1 = (runSpec abstractLinkedStep [] ops).1 /\
  linkedRep (afterLinked l0 ops) (linkedValues ops) /\ Z.of_nat (length (linkedValues ops)) < 2 ^ 27.
Proof.
  unfold MAX_CALLS in Hlen.
  destruct (run_simulates linkedStep abstractLinkedStep okLinkedOp linkedListRep (Z.to_nat (2 ^ 26))) with (ops := ops) (k := 0%nat) (c := l0) (l := @nil JSTaggedValue) as [E [H Hk]].
  - intros k c l op Hc Hb Hop. apply linkedStep_simulates; [done|lia|done].
  - by apply LinkedListConstructor_rep.
  - lia.
  - done.
  - split_and!; [done|done|]. unfold linkedValues. lia.
Qed.
End LinkedRuns.

(** ** Theorems *)


(** For operations whose values are no holes. *)
Ltac proper_ops := repeat (apply Forall_cons; split; [done|]); apply Forall_nil; done.

Definition newList : JSAPIList := match ListConstructor true with Ok l => l | Err _ => mkList (mkArrays [] 0) true end.
Definition newLinkedList : JSAPILinkedList := match LinkedListConstructor true with Ok l => l | Err _ => mkLinkedList (mkArrays [] 0) end.

Definition sampleListOps : list ListOp :=
  [ListContainerCorrect.OpAdd (Int 3); ListContainerCorrect.OpAdd (Int 1); ListContainerCorrect.OpInsert (Int 2) (Int 1);
   ListContainerCorrect.OpRemove (Int 3); ListContainerCorrect.OpFastGet 0; ListContainerCorrect.OpGet (Int 1); ListContainerCorrect.OpRemoveByIndex (Int 5)].


(** C6: The linked list implements a list of values in the same way, from both ends; a clone holds the
    same values. *)
Theorem LinkedList_refines_list ops l0 : LinkedListConstructor true = Ok l0 -> Z.of_nat (length ops) <= MAX_CALLS -> Forall okLinkedOp ops ->
  (run linkedStep l0 ops).1 = (runSpec abstractLinkedStep [] ops).1 /\
  linked_convertToArray (This (afterLinked l0 ops)) = Ok (linkedValues ops).
Proof.
  intros H0 Hlen Hok. destruct (linked_run ops l0 H0 Hlen Hok) as (E & H & Hn). split; [done|].
  unfold linked_convertToArray. cbn [receive]. rewrite bind_Ok. by apply linkedConvertToArray_eq.
Qed.

Definition sampleLinkedOps : list LinkedOp :=
  [OpAdd (Int 1); OpAddFirst (Int 2); OpAdd (Int 1); OpRemoveLastFound (Int 1); OpClone; OpRemoveFirst; OpRemoveFirst; OpRemoveFirst; OpRemoveLastFound (Int 1)].

Lemma LinkedList_refines_list_witness : (run linkedStep newLinkedList sampleLinkedOps).1
  = [Truth true; Truth true; Truth true; Truth true; Elements_ [Int 2; Int 1]; Value (Int 2); Value (Int 1); Throws EmptyList; Throws ElementNotExist].
Proof.
  refine (eq_trans (proj1 (LinkedList_refines_list sampleLinkedOps newLinkedList _ _ _)) _); [done|by vm_compute|proper_ops|by vm_compute].
Defined.

(** [equal] of two lists, after any calls on each: the values agree one by one. *)
Theorem List_equal_correct trusted ops ops' l0 : ListConstructor true = Ok l0 ->
  Z.of_nat (length ops) <= MAX_CALLS -> Forall (okListOp trusted) ops -> Z.of_nat (length ops') <= MAX_CALLS -> Forall (okListOp trusted) ops' ->
  list_equal (This (afterList l0 ops)) (This (afterList l0 ops')) = Ok (sameValues (listValues ops) (listValues ops')).
Proof.
  intros H0 Hlen Hok Hlen' Hok'. destruct (list_run trusted ops l0 H0 Hlen Hok) as (_ & (a & E & Ha & _) & _).
  destruct (list_run trusted ops' l0 H0 Hlen' Hok') as (_ & (b & E' & Hb & _) & _). unfold list_equal, JSAPIList.Equal. cbn [receive].
  rewrite bind_Ok, E', bind_Ok, E, bind_Ok. exact (singleEqual_eq _ _ _ _ _ _ Ha Hb).
Qed.

(** C23: [sort] of a list after any calls, with a comparison function that answers by a total preorder and
    leaves the list alone: the binary insertion through the nodes leaves what stable insertion of the
    values gives, undefined values last. *)
Theorem List_sorts {W} (ToString : StringConversion W JSAPIList) fn o trusted ops l0 w : preorder o -> comparesBy fn o ->
  ListConstructor true = Ok l0 -> Z.of_nat (length ops) <= MAX_CALLS -> Forall (okListOp trusted) ops ->
  returns (list_sort ToString (This (afterList l0 ops)) (Callable fn) w) (fun '(_, l) =>
    list_convertToArray (This l) = Ok (isort (sortOrder o) (listValues ops))).
Proof.
  intros Ho Hfn H0 Hlen Hok. destruct (list_run trusted ops l0 H0 Hlen Hok) as (_ & H & Hn). unfold list_sort. cbn [receive]. rewrite bind_Ok.
  eapply returns_mono; [exact (Sort_returns ToString fn o trusted _ _ w Ho Hfn H)|]. intros [w' l] Hl. unfold list_convertToArray.
  cbn [receive]. rewrite bind_Ok. apply (ListConvertToArray_eq trusted); [done|]. rewrite (Permutation_length (isort_perm _ _)). lia.
Qed.

Lemma List_sorts_witness : returns (list_sort (fun w c _ => Ok ([], w, c)) (This (afterList newList sampleListOps)) (Callable byKey) 0%nat)
  (fun '(_, l) => list_convertToArray (This l) = Ok [Int 1; Int 2]).
Proof.
  refine (List_sorts (fun w c _ => Ok ([], w, c)) byKey (fun x y => intKey x ?= intKey y) true sampleListOps newList 0%nat _ byKey_compares _ _ _);
    [apply compare_preorder|done|by vm_compute|proper_ops].
Defined.

(** C24: Walks over lists that do not change meanwhile, after any calls: an iterator yields the values in
    their order and then ends, [forEach] calls its callback once per value with its position, and
    [replaceAllElements] leaves the values that the callback returned. *)
Theorem Lists_iterate {W} trusted ops l0 lops m0 (cb : Callback W JSAPIList) (lcb : Callback W JSAPILinkedList) f w :
  ListConstructor true = Ok l0 -> Z.of_nat (length ops) <= MAX_CALLS -> Forall (okListOp trusted) ops ->
  LinkedListConstructor true = Ok m0 -> Z.of_nat (length lops) <= MAX_CALLS -> Forall okLinkedOp lops ->
  pureCallback cb f -> pureCallback lcb f -> noHoles (mapCalls f w 0 (listValues ops)).1 ->
  let l := afterList l0 ops in let m := afterLinked m0 lops in
  (iter ← list_iterator (This l); drain (S (length (listValues ops))) (SingleList l) iter) = Ok (listValues ops) /\
  (iter ← linked_iterator (This m); drain (S (length (linkedValues lops))) (DoubleList m) iter) = Ok (linkedValues lops) /\
  list_forEach (This l) (Some cb) w = Ok ((mapCalls f w 0 (listValues ops)).2, l) /\
  linked_forEach (This m) (Some lcb) w = Ok ((mapCalls f w 0 (linkedValues lops)).2, m) /\
  returns (list_replaceAllElements (This l) (Some cb) w) (fun '(w', l') =>
    w' = (mapCalls f w 0 (listValues ops)).2 /\ list_convertToArray (This l') = Ok (mapCalls f w 0 (listValues ops)).1).
Proof.
  intros H0 Hlen Hok M0 Hlen' Hok' Hcb Hlcb Hh l m. destruct (list_run trusted ops l0 H0 Hlen Hok) as (_ & Hl & Hn).
  destruct (linked_run lops m0 M0 Hlen' Hok') as (_ & Hm & Hn'). fold l in Hl. fold m in Hm. split_and!.
  - pose proof Hl as (a & E & (ns & del & cap & Hi & Hv & _) & Hv'). unfold list_iterator. cbn [receive]. rewrite !bind_Ok, <- Hv, valuesAt_length.
    rewrite <- Hv in Hv'. pose proof (drain_eq SINGLE (SingleList l) _ a ns del cap E Hi Hv' 0 ltac:(lia)) as H. by rewrite Nat.sub_0_r in H.
  - pose proof Hm as (a & E & (ns & del & cap & Hi & Hv & _) & Hv'). unfold linked_iterator. cbn [receive]. rewrite !bind_Ok, <- Hv, valuesAt_length.
    rewrite <- Hv in Hv'. pose proof (drain_eq DOUBLE (DoubleList m) _ a ns del cap E Hi Hv' 0 ltac:(lia)) as H. by rewrite Nat.sub_0_r in H.
  - apply (list_forEach_eq trusted _ l); [done|done|lia|done].
  - pose proof Hm as (a & E & Ha & _). apply (linked_forEach_eq _ m a); [done|done|done|lia|done].
  - unfold list_replaceAllElements. cbn [receive]. rewrite bind_Ok. eapply returns_mono; [exact (ReplaceAllElements_returns trusted _ _ cb f w Hl Hcb Hh)|].
    intros [w' l'] [-> Hl']. split; [done|]. unfold list_convertToArray. cbn [receive]. rewrite bind_Ok.
    apply (ListConvertToArray_eq trusted); [done|rewrite mapCalls_length; lia].
Qed.

(** A callback that keeps the values it is called with, and returns the position. *)
Definition recording {C} : Callback (list JSTaggedValue) C := fun w c v k => Ok (Int k, w ++ [v], c).

Lemma recording_pure {C} : pureCallback (C := C) recording (fun w v k => (Int k, w ++ [v])).
Proof. done. Qed.

Lemma Lists_iterate_witness :
  list_forEach (This (afterList newList sampleListOps)) (Some recording) [] = Ok ([Int 2; Int 1], afterList newList sampleListOps) /\
  returns (list_replaceAllElements (This (afterList newList sampleListOps)) (Some recording) []) (fun '(w, l) =>
    w = [Int 2; Int 1] /\ list_convertToArray (This l) = Ok [Int 0; Int 1]).
Proof.
  destruct (Lists_iterate true sampleListOps newList sampleLinkedOps newLinkedList recording recording _ [] eq_refl ltac:(by vm_compute)
    ltac:(proper_ops) eq_refl ltac:(by vm_compute) ltac:(proper_ops) recording_pure recording_pure ltac:(by repeat constructor)) as (_ & _ & H1 & _ & H2).
  split; [exact H1|exact H2].
Defined.

(** ** Callbacks that change the list *)

(** The list of the integers [1 .. n], made by adding them. *)
Definition integers (n : nat) : list JSTaggedValue := (fun k => Int (Z.of_nat k)) <$> seq 1 n.
Definition listOf (vs : list JSTaggedValue) : JSAPIList := afterList newList (ListContainerCorrect.OpAdd <$> vs).

(** Removes 2 and 3 when it is called for the first time. *)
Definition removing : Callback (list JSTaggedValue) JSAPIList := fun w l v k =>
  l ← (if k =? 0 then '(_, l) ← list_remove (This l) (Int 2); '(_, l) ← list_remove (This l) (Int 3); Ok l else Ok l);
  Ok (Undefined, w ++ [v], l).

Definition valuesAfter {W} (m : result (W * JSAPIList)) : result (list JSTaggedValue) := '(_, l) ← m; list_convertToArray (This l).

(** Adds [x] to the list when it is called for the first time, and answers by [f]. *)
Definition adding {W} (x : JSTaggedValue) (f : W -> JSTaggedValue -> Z -> JSTaggedValue * W) : Callback W JSAPIList := fun w l v k =>
  '(_, l) ← (if k =? 0 then list_add (This l) x else Ok (true, l));
  Ok (f w v k, l).

(** C38: [replaceAllElements] keeps the array it started with.  After any calls that leave the array of a list
    without room for another node, a [replaceAllElements] whose callback adds a value when it is called
    for the first time moves the list to a larger array: the callback is called for every value, but
    the list keeps all its values, with the added one behind them, and no result of the callback. *)
Theorem List_callbacks_stale {W} trusted ops l0 x (f : W -> JSTaggedValue -> Z -> JSTaggedValue * W) w :
  ListConstructor true = Ok l0 -> Z.of_nat (length ops) <= MAX_CALLS -> Forall (okListOp trusted) ops ->
  x <> Hole -> listValues ops <> [] -> isFull (afterList l0 ops) = true ->
  returns (list_replaceAllElements (This (afterList l0 ops)) (Some (adding x f)) w) (fun '(w', l') =>
    w' = (mapCalls f w 0 (listValues ops)).2 /\ list_convertToArray (This l') = Ok (listValues ops ++ [x])).
Proof.
  intros H0 Hlen Hok Hx Hne Hf. destruct (list_run trusted ops l0 H0 Hlen Hok) as (_ & Hl & Hn).
  destruct (list_add_moves trusted _ _ x Hl ltac:(lia) Hx Hf) as (l1 & Eadd & Hmoved & Hold & Hl1).
  destruct (listValues ops) as [|v vs] eqn:Ev; [done|]. unfold list_replaceAllElements. cbn [receive]. rewrite bind_Ok.
  eapply returns_mono; [apply (ReplaceAllElements_moved trusted _ v vs (adding x f) f w l1 ((v :: vs) ++ [x]) Hl); [|done|done|exact Hl1|]|].
  - unfold adding. cbn [Z.eqb]. by rewrite Eadd, bind_Ok.
  - intros w' c u k Hk. unfold adding. by rewrite (proj2 (Z.eqb_neq k 0)), bind_Ok by lia.
  - intros [w' l'] [-> Hl']. split; [done|]. unfold list_convertToArray. cbn [receive]. rewrite bind_Ok.
    apply (ListConvertToArray_eq trusted); [done|]. rewrite length_app. cbn [length] in *. lia.
Qed.

Definition negated (w : list JSTaggedValue) (v : JSTaggedValue) (k : Z) : JSTaggedValue * list JSTaggedValue :=
  (match v with Int z => Int (- z) | _ => v end, w ++ [v]).

(** A list of nine values is full. *)
Lemma List_callbacks_stale_witness :
  returns (list_replaceAllElements (This (listOf (integers 9))) (Some (adding (Int 100) negated)) []) (fun '(w, l) =>
    w = integers 9 /\ list_convertToArray (This l) = Ok (integers 9 ++ [Int 100])).
Proof.
  refine (List_callbacks_stale true (ListContainerCorrect.OpAdd <$> integers 9) newList (Int 100) negated [] _ _ _ _ _ _);
    [done|by vm_compute|proper_ops|done|done|by vm_compute].
Defined.

(** With room for the added value, the results are written. *)
Example replaceAll_with_room : valuesAfter (list_replaceAllElements (This (listOf (integers 3))) (Some (adding (Int 100) negated)) [])
  = Ok [Int (-1); Int (-2); Int (-3); Int 100].
Proof. by vm_compute. Qed.

(** A [forEach] whose callback removes the values 2 and 3 of [1, 2, 3] when it gets the first one is called
    three times, with 1, with undefined and with 2, the number of deleted nodes from the head of the array. *)
Example forEach_reads_header :
  (w ← list_forEach (This (listOf (integers 3))) (Some removing) []; Ok w.1) = Ok [Int 1; Undefined; Int 2].
Proof. by vm_compute. Qed.

(** [clear] marks a list as ordered also when it has no values, and then does not reset the array: the
    node added next is not where [FastGet] looks for it. *)
Theorem clear_marks_unordered :
  let l := afterList newList [ListContainerCorrect.OpAdd (Int 1); ListContainerCorrect.OpRemove (Int 1); ListContainerCorrect.OpClear; ListContainerCorrect.OpAdd (Int 2)] in
  list_get (This l) (Int 0) = Ok (Int 2) /\ (r ← FastGet l 0; Ok r.1) = Ok Hole.
Proof. split; by vm_compute. Qed.
